(* ===== verification/_CoqProject ===== *)
-Q . S2P
Prelude.v
PyDict.v
Semaphore.v
Bencode.v
NodeIdentity.v
AddressText.v
Krpc.v
KrpcReplies.v
DhtLookup.v
DhtLookupSafety.v
DhtLookupReports.v
DhtLookupAges.v
DhtLookupTicks.v
DhtLookupTheorems.v
PeerWire.v
TorrentInfo.v
Catalog.v
CatalogInvariant.v
CatalogSafety.v
CatalogMethods.v
CatalogIndex.v
CatalogWrites.v
CatalogTheorems.v
CatalogSearch.v
CatalogInterface.v
CatalogClaims.v
DhtCrawler.v
DhtCrawlerSafety.v
DhtCrawlerLookups.v
DhtCrawlerRun.v
DhtCrawlerTraffic.v
DhtCrawlerTheorems.v
Tasks.v
MetadataSession.v
MetadataSessionSafety.v
MetadataSessionRelation.v
MetadataPeer.v
PeerStream.v
PeerStreamTheorems.v
StreamEncryption.v
StreamEncryptionSafety.v
StreamEncryptionTheorems.v
Utp.v
UtpSafety.v
UtpTheorems.v
UtpReassembly.v
UtpPeer.v
CatalogFetches.v
FetchEngine.v
FetchEngineSafety.v
FetchEngineProgress.v
FetchEngineTheorems.v
TypoIndex.v
TorrentDatabase.v
TorrentDatabaseSafety.v
TorrentDatabaseSearch.v
TorrentDatabaseTheorems.v
TaskLoops.v
IndexInterface.v
TorrentDatabaseLookup.v
CatalogDrains.v
SearchIndexer.v
SearchIndexerRun.v
SearchIndexerSafety.v
CatalogDocuments.v
CatalogDocumentCalls.v
CatalogDocumentQueue.v
CatalogDocumentMarks.v
IndexedCatalog.v
SearchIndexerTheorems.v
UrlText.v
UrlSplit.v
MagnetLink.v
JsonText.v
NodeSockets.v
Runtime.v
RuntimeTheorems.v
WebInterface.v
WebInterfaceTheorems.v
