(* ===== verification/Prelude.v ===== *)
(** * dht_scraper: a verification development (root file)

    The program ([src/dht_scraper/]) crawls the BitTorrent DHT for info hashes,
    finds peers for them, fetches the torrents' metadata, keeps it in a catalog,
    writes it to a search database and serves it over HTTP.  This library models
    its code in executable definitions and proves what the parts promise.  Names
    are those of the source; each file says which part of the source it models.

    ** The program and its model

    Data and messages, without state:
    - [PyDict] ([bounded_recent_map.py], dictionaries in insertion order),
      [Bencode] ([bencode_codec.py]), [NodeIdentity] ([node_identity.py]),
      [AddressText] and [Krpc] ([krpc_messages.py]; [KrpcReplies]: every message
      that is built encodes), [PeerWire] ([peer_wire_messages.py]), [TorrentInfo]
      ([torrent_info_summary.py]), [UrlText] (quoting and query strings of
      [urllib.parse]), [UrlSplit] (its [urlsplit]), [MagnetLink] ([magnet_link.py]),
      [JsonText] ([encode_json] of [web_interface.py]).

    The torrent catalog ([torrent_catalog.py]), which every thread shares:
    - [Catalog] has the state, with a heap of entry objects, and every method.  A
      method runs with the lock held and is one step.  [CatalogInvariant] says
      what each table means; [CatalogSafety], [CatalogMethods], [CatalogIndex] and
      [CatalogWrites] show that the methods keep it and fail no assertion;
      [CatalogTheorems] has the reachable catalogs and the theorems, and
      [CatalogSearch] what a search finds.
    - [CatalogInterface] is what the crawler and the fetch engine need of it,
      [IndexInterface] what the index thread needs: classes of operations with
      their laws, also about what calls of other threads may do in between.
      [CatalogClaims] (lookups), [CatalogFetches] (fetches) and [IndexedCatalog]
      (documents and counters, with [CatalogDrains], [CatalogDocuments],
      [CatalogDocumentQueue], [CatalogDocumentCalls], [CatalogDocumentMarks])
      show that the catalog keeps them while other threads call any method.

    The crawler thread:
    - [DhtLookup] ([dht_lookup.py]) is the manager of get_peers lookups, with its
      invariant ([DhtLookupSafety]), its reports to the crawler
      ([DhtLookupReports]), the ages of its queries ([DhtLookupAges]), what a tick
      does to each lookup ([DhtLookupTicks]), and its theorems
      ([DhtLookupTheorems]).
    - [DhtCrawler] ([dht_crawler.py]) is the crawler itself, for any catalog of
      the interface; [DhtCrawlerSafety], [DhtCrawlerLookups] and [DhtCrawlerRun]
      show that no step fails, [DhtCrawlerTraffic] what is sent,
      [DhtCrawlerTheorems] has the theorems.

    The fetch thread, on one event loop ([Tasks] has its coroutines and their
    triples, [TaskLoops] its loops):
    - [MetadataSession] and [PeerStream] ([metadata_fetcher.py]): the session over
      any byte stream and the TCP stream.  [MetadataSessionSafety] holds for any
      stream, [MetadataSessionRelation] relates two streams, [MetadataPeer] is the
      peer that keeps to the protocol, [PeerStreamTheorems] has the theorems.
    - [StreamEncryption] ([stream_encryption.py]) with its [Safety] and [Theorems].
    - [Utp] ([utp_transport.py]); [UtpSafety], [UtpReassembly] (what is delivered
      refines an ideal receiver), [UtpPeer] and [UtpTheorems].
    - [FetchEngine] ([fetch_engine.py]) over [Semaphore] ([asyncio.Semaphore]):
      jobs and attempts as a machine of events; [FetchEngineSafety] is its
      invariant, [FetchEngineProgress] its measure, [FetchEngineTheorems] the rest.

    The index thread and the database:
    - [TypoIndex] and [TorrentDatabase] ([torrent_database.py]): texts and terms,
      tables, statements, the writer's transactions, the queries.
      [TorrentDatabaseSafety] is for the writer, [TorrentDatabaseSearch] for the
      readers, [TorrentDatabaseLookup] for the lookups of counters;
      [TorrentDatabaseTheorems] has the theorems.
    - [SearchIndexer] ([search_indexer.py]); [SearchIndexerRun] (the thread lives
      on), [SearchIndexerSafety] (with a database in order), [SearchIndexerTheorems].

    The rest:
    - [NodeSockets] ([dht_node_sockets.py]): the sockets are made all or not at all,
      but for the one that a failing [setblocking] or [getsockname] leaves open.
    - [Runtime] ([scraper_runtime.py], [__main__.py]): settings, starting and
      stopping the parts, waiting, exit codes; [RuntimeTheorems].
    - [WebInterface] ([web_interface.py], and [document_detail_record] of
      [torrent_database.py]): requests to responses; [WebInterfaceTheorems].

    ** What the theorems show

    - Catalog: calls by the calling rules never fail; derived tables and counters
      are exact; the best candidates are claimed; eviction keeps the limit and
      spares what is claimed; a search shows the best of what matches.
    - Lookups: never fail, tables exact and bounded, queries within the rate; a tick
      reports each lookup that must end or has nothing left to ask, once and with the
      peers it found, and leaves the others.
    - Crawler: whatever datagrams arrive its run returns, its state stays bounded,
      it sends an address at most 40 datagrams in each of its windows (80 in any ten
      seconds), answers a query at most once, and records a peer exactly for a valid
      token and a routable port.
    - Fetching: a fetch ends within its timeouts with its socket closed, with
      metadata of the wanted SHA-1 or a named error; a conforming peer is fetched,
      over TCP, encryption and uTP, whatever the segments and their order.
    - Engine: every step returns, limits are kept and counted, jobs end, and what
      the catalog counts as being fetched is what the engine has jobs for.
    - Database: writes refine a map from hashes to documents, failed ones change
      nothing; the typo index and searches find what they should.
    - Indexer: the thread survives every failure, no document is lost, checks fail
      open after a minute and are on again only when the database has answered; a
      round ends with each part that was due done, or with an error and a pause.
      Where the loops over the queues must end, the other threads come to rest.
    - Runtime: whatever fails, what was opened is closed, and the reason to stop is
      what ended the wait, unless a thread could not be started: a theorem of its own
      shows what then stays open.
    - Web: every request is answered, with the records found or the status that says
      why not; a client reads from JSON and from magnet links what was put in.
    - Codecs: round trips of bencode, compact nodes, JSON and magnet links.
    - What the code does not mean is shown by examples, too: counters queued twice
      when their entry is evicted during a failed write ([CatalogTheorems]), 80
      datagrams to one address in ten seconds ([DhtCrawlerTheorems]), a torrent whose
      total size has more digits than Python writes and a target that [urlsplit]
      refuses, which the web interface does not answer ([WebInterfaceTheorems]).

    ** How the code is modelled

    - Exceptions are values ([exn]).  Code that only computes is in [res]; methods
      of an object in [ST], which loses the state when it raises (the theorems
      show that such methods do not); coroutines and code with [try] are [task]s,
      which keep the state when they raise.  Assertions are checks that raise.
    - Shared mutable objects (catalog entries, lookups) live in heaps and tables
      hold their identities.  Python integers are [Z], bytes are lists of
      [Byte.byte], texts lists of code points; 16- and 32-bit fields of the wire
      wrap around as written.  Times are integers of microseconds.
    - What the operating system, the clock, [os.urandom] and the network answer is
      an argument: a function of the number of the question, or a script of what
      arrives when.  All theorems hold for every such argument; conditions on it
      (a clock that does not go back, ids that differ) are hypotheses.
    - Other threads: between two calls of a method of the catalog any sequence of
      calls that follow the calling rules may come.  The order of the events of
      the fetch engine is left open.
    - Any SQL statement may fail; a failed [COMMIT] is taken to end the transaction
      (SQLite leaves it active when the file is busy, which the one writer of a file
      in WAL mode does not meet).  Sums of counters are exact; where a sum passes 64
      bits SQLite goes over to floating point.
    - Of the calls of the system, those of [NodeSockets] may raise [OSError], and the
      start of a thread [RuntimeError]; setting the options of a TCP socket and
      handing it to asyncio are taken not to fail.
    - Parameters with laws: SHA-1 and HMAC-SHA1, [str.lower], Unicode's tables,
      the C library's address functions, FTS5's matching, the digits of floats.
      Each class of laws has an instance.

    ** Loops and fuel

    Structural recursion serves where the code walks a list.  Otherwise a loop has
    fuel, and running out of it raises [Diverge]; the theorems say it does not:
    - the bencode decoder's [depth] is the interpreter's recursion limit;
    - the crawler runs as many turns as there are batches of datagrams; the number of
      its transaction ids comes round at [2 ^ 24], and no id is still in use then when
      those of one turn and of the queries that can be waiting are fewer
      ([ids_suffice] of [DhtCrawlerRun], from the ages of [DhtLookupAges]);
    - a session reads as many frames as the stream has bytes left at most; a uTP
      loop runs as many turns as events are due before its deadline
      ([events_before]); the fetch engine's work is a number that each step lowers;
    - a loop of the index thread ends when the queue it drains does, which is when
      other threads add nothing for a while; the wait of the runtime ends when a
      wait no longer times out or the deadline has passed.

    ** Not modelled

    [web_page.py] (a constant), [event_log.py] (set-up of logging), reading the
    words of the command line by [argparse], the socket server of [http.server],
    log messages, signal handlers but for what [on_terminate] does, starting and
    joining threads but for whether a thread can be started and ends in time, DNS,
    and the size of the database file.

    ** This file

    Prelude: results and exceptions, bytes, big-endian integers, slices,
    sorting, and a state-and-exception monad with its weakest preconditions. *)
From stdpp Require Export base gmap strings list sorting.
From Stdlib Require Export ZArith Lia.
From Stdlib Require Strings.Byte.
From Corelib Require Init.Byte.
Export (notations) Corelib.Init.Byte.

(** ** Exceptions and results *)

(** The exceptions the modelled code raises or lets pass.  [Diverge] is not a
    Python exception: it marks a loop of the model that ran out of fuel, which the
    termination theorems exclude, and in [Runtime] a wait that never ends. *)
Inductive exn : Type :=
  | AssertionError
  | ValueError (reason : string)
  | TypeError
  | KeyError
  | OverflowError
  | RecursionError
  | RuntimeError
  | OSError
  | StructError
  | MetadataFetchError (reason : string)
  | SqliteError
  | Diverge.

#[global] Instance exn_eq_dec : EqDecision exn.
Proof. solve_decision. Defined.

(** What a call returns: a value, or an exception that leaves the call. *)
Inductive res (A : Type) : Type :=
  | Ok (a : A)
  | Raise (e : exn).
Arguments Ok {A} a.
Arguments Raise {A} e.

#[global] Instance res_eq_dec {A} `{EqDecision A} : EqDecision (res A).
Proof. solve_decision. Defined.

#[global] Instance res_ret : MRet res := fun A a => Ok a.
#[global] Instance res_bind : MBind res := fun A B f m =>
  match m with Ok a => f a | Raise e => Raise e end.
#[global] Instance res_fmap : FMap res := fun A B f m =>
  match m with Ok a => Ok (f a) | Raise e => Raise e end.

(** [assert c]: an [AssertionError] when the condition does not hold. *)
Definition assert_ (c : bool) : res unit :=
  if c then Ok tt else Raise AssertionError.

(** [raise e] as a guard: [e] when the condition holds. *)
Definition raise_if (c : bool) (e : exn) : res unit :=
  if c then Raise e else Ok tt.

(** The results of a list of calls made from left to right. *)
Fixpoint sequence {A} (l : list (res A)) : res (list A) :=
  match l with
  | [] => Ok []
  | r :: l' => match r with
               | Raise e => Raise e
               | Ok a => match sequence l' with
                         | Raise e => Raise e
                         | Ok l'' => Ok (a :: l'')
                         end
               end
  end.

(** [returns r Q E]: a returned value satisfies [Q], an exception satisfies
    [E]. *)
Definition returns {A} (r : res A) (Q : A -> Prop) (E : exn -> Prop) : Prop :=
  match r with Ok a => Q a | Raise e => E e end.

Definition never : exn -> Prop := fun _ => False.

(** ** Bytes *)

Abbreviation byte := Byte.byte.
Abbreviation bytes := (list Byte.byte).

#[global] Instance byte_eq_decision : EqDecision byte := Byte.byte_eq_dec.
#[global] Instance byte_countable : Countable byte.
Proof.
  refine (inj_countable Byte.to_N Byte.of_N _).
  intros x. apply Byte.of_to_N.
Defined.
#[global] Instance byte_inhabited : Inhabited byte := populate Byte.x00.

(** The integer value of a byte, and the byte of an integer modulo 256. *)
Definition b2z (b : byte) : Z := Z.of_N (Byte.to_N b).
Definition z2b (z : Z) : byte :=
  match Byte.of_N (Z.to_N (z mod 256)) with Some b => b | None => Byte.x00 end.

(** An ASCII bytes literal. *)
Definition bs (s : string) : bytes := String.list_byte_of_string s.
Arguments bs s%_string_scope.

(** Lexicographic order of byte strings, Python's order of [bytes]. *)
Fixpoint bytes_leb (x y : bytes) : bool :=
  match x, y with
  | [], _ => true
  | _ :: _, [] => false
  | a :: x', b :: y' =>
      if (b2z a <? b2z b)%Z then true
      else if (b2z a =? b2z b)%Z then bytes_leb x' y' else false
  end.

(** [n.to_bytes(len, "big")] for an [n] that fits, and [int.from_bytes]. *)
Fixpoint be_encode (len : nat) (z : Z) : bytes :=
  match len with
  | O => []
  | S len' => be_encode len' (z / 256) ++ [z2b z]
  end.
Definition be_decode (l : bytes) : Z :=
  foldl (fun acc b => acc * 256 + b2z b)%Z 0%Z l.

(** [data[a:b]] for [0 <= a] and [0 <= b]. *)
Definition slice {A} (l : list A) (a b : nat) : list A := take (b - a) (drop a l).

(** [data.find(c, start)]: the first position at or after [start]. *)
Fixpoint find_index {A} `{EqDecision A} (c : A) (l : list A) : option nat :=
  match l with
  | [] => None
  | x :: l' => if decide (x = c) then Some O else S <$> find_index c l'
  end.
Definition find_from {A} `{EqDecision A} (c : A) (l : list A) (start : nat) : option nat :=
  Nat.add start <$> find_index c (drop start l).

(** ASCII digits: [bytes.isdigit()] is true for a non-empty run of them. *)
Definition is_digit (b : byte) : bool := ((48 <=? b2z b) && (b2z b <=? 57))%Z.
Definition isdigit (l : bytes) : bool := negb (bool_decide (l = [])) && forallb is_digit l.

(** ** Stable sorting by a key comparison, Python's [sorted] *)

Section sorting.
Context {A : Type} (leb : A -> A -> bool).

Fixpoint insert_sorted (x : A) (l : list A) : list A :=
  match l with
  | [] => [x]
  | y :: l' => if leb x y then x :: y :: l' else y :: insert_sorted x l'
  end.

Definition sort_by (l : list A) : list A := foldr insert_sorted [] l.
End sorting.

(** Lexicographic order of tuples of numbers (and of code points of text). *)
Fixpoint lex_leb (x y : list Z) : bool :=
  match x, y with
  | [], _ => true
  | _ :: _, [] => false
  | a :: x', b :: y' => (a <? b)%Z || ((a =? b)%Z && lex_leb x' y')
  end.

(** ** A state-and-exception monad *)

(** Code that reads and writes a state [S] and may raise. *)
Definition ST (S A : Type) : Type := S -> res (A * S).

#[global] Instance st_ret {S} : MRet (ST S) := fun A a s => Ok (a, s).
#[global] Instance st_bind {S} : MBind (ST S) := fun A B f m s =>
  match m s with Ok (a, s') => f a s' | Raise e => Raise e end.

Definition get_state {S} : ST S S := fun s => Ok (s, s).
Definition gets {S A} (f : S -> A) : ST S A := fun s => Ok (f s, s).
Definition modify {S} (f : S -> S) : ST S unit := fun s => Ok (tt, f s).
Definition assert_st {S} (c : bool) : ST S unit := fun s =>
  if c then Ok (tt, s) else Raise AssertionError.
Definition raise_st {S A} (e : exn) : ST S A := fun _ => Raise e.
Definition when_st {S} (c : bool) (m : ST S unit) : ST S unit :=
  if c then m else mret tt.

(** A call that does not touch the state. *)
Definition lift {S A} (r : res A) : ST S A := fun s =>
  match r with Ok a => Ok (a, s) | Raise e => Raise e end.

(** [for x in l: f x] *)
Fixpoint for_each {S A} (l : list A) (f : A -> ST S unit) : ST S unit :=
  match l with
  | [] => mret tt
  | x :: l' => f x ;; for_each l' f
  end.

(** [m] from [s] returns normally, and its result and state satisfy [Q]. *)
Definition wp {S A} (m : ST S A) (Q : A -> S -> Prop) (s : S) : Prop :=
  match m s with Ok (a, s') => Q a s' | Raise _ => False end.

(** [m] on a part of the state, read by [get] and written back by [put]. *)
Definition zoom {S T A} (get : S -> T) (put : T -> S -> S) (m : ST T A) : ST S A := fun s =>
  match m (get s) with Ok (a, t) => Ok (a, put t s) | Raise e => Raise e end.

(** If [m] from [s] returns, its result and state satisfy [Q]. *)
Definition wlp {S A} (m : ST S A) (Q : A -> S -> Prop) (s : S) : Prop :=
  match m s with Ok (a, s') => Q a s' | Raise _ => True end.

(** Every step of [m] that returns is in the relation [R]. *)
Definition frames {S A} (R : S -> S -> Prop) (m : ST S A) : Prop :=
  forall s, wlp m (fun _ s' => R s s') s.

(** ** Lemmas: results *)

Lemma returns_bind {A B} (m : res A) (f : A -> res B) Q E :
  returns m (fun a => returns (f a) Q E) E -> returns (m ≫= f) Q E.
Proof. by destruct m. Qed.

Lemma returns_mono {A} (r : res A) (Q Q' : A -> Prop) (E E' : exn -> Prop) :
  returns r Q E -> (forall a, Q a -> Q' a) -> (forall e, E e -> E' e) -> returns r Q' E'.
Proof. destruct r; simpl; auto. Qed.

Lemma bind_Ok {A B} (m : res A) (f : A -> res B) b :
  m ≫= f = Ok b <-> exists a, m = Ok a /\ f a = Ok b.
Proof.
  destruct m; simpl; split; [eauto| |done|]; [intros (a' & [= ->] & H); exact H|].
  by intros (a' & ? & _).
Qed.

Lemma assert_Ok c u : assert_ c = Ok u <-> c = true.
Proof. destruct c, u; done. Qed.

Lemma raise_if_Ok c e u : raise_if c e = Ok u <-> c = false.
Proof. destruct c, u; done. Qed.

Lemma sequence_Ok {A} (l : list (res A)) (l' : list A) :
  sequence l = Ok l' <-> l = Ok <$> l'.
Proof.
  revert l'. induction l as [|r l IH]; intros l'; simpl.
  - split; [by intros [= <-]|]. by destruct l'.
  - destruct r as [a|e]; [|split; [done|by destruct l']].
    destruct (sequence l) as [l0|e] eqn:Hl.
    + split; [intros [= <-]; simpl; f_equal; by apply IH|].
      destruct l' as [|a' l']; [done|]. intros [= <- Hl']. do 2 f_equal.
      apply IH in Hl'. by simplify_eq.
    + split; [done|]. destruct l' as [|a' l']; [done|]. intros [= <- Hl'].
      by apply IH in Hl'.
Qed.

(** When every call returns, so does the sequence of them. *)
Lemma sequence_fmap_Forall2 {A B} (f : A -> res B) (P : A -> B -> Prop) l :
  (forall x, x ∈ l -> exists y, f x = Ok y /\ P x y) ->
  exists l', sequence (f <$> l) = Ok l' /\ Forall2 P l l'.
Proof.
  induction l as [|x l IH]; intros Hf; [exists []; split; [done|constructor]|].
  destruct (Hf x) as (y & Hy & HP); [left|].
  destruct IH as (l' & Hl' & HPs); [intros z Hz; apply Hf; by right|].
  exists (y :: l'). rewrite fmap_cons. cbn [sequence]. rewrite Hy, Hl'. auto.
Qed.

(** ** Lemmas: bytes and big-endian integers *)

Lemma b2z_range b : (0 <= b2z b < 256)%Z.
Proof.
  unfold b2z. pose proof (Byte.to_N_bounded b). lia.
Qed.

Lemma z2b_b2z b : z2b (b2z b) = b.
Proof.
  unfold z2b. rewrite Z.mod_small by apply b2z_range.
  unfold b2z. by rewrite N2Z.id, Byte.of_to_N.
Qed.

Lemma b2z_z2b z : b2z (z2b z) = (z mod 256)%Z.
Proof.
  unfold z2b, b2z. pose proof (Z.mod_pos_bound z 256 eq_refl) as Hb.
  destruct (Byte.of_N _) as [b|] eqn:Hof.
  - apply Byte.to_of_N in Hof. rewrite Hof. lia.
  - apply Byte.of_N_None_iff in Hof. lia.
Qed.

Lemma b2z_inj x y : b2z x = b2z y -> x = y.
Proof. intros H. by rewrite <-(z2b_b2z x), H, z2b_b2z. Qed.

Lemma length_be_encode n z : length (be_encode n z) = n.
Proof. revert z. induction n as [|n IH]; intros z; simpl; [done|]. rewrite length_app, IH; simpl; lia. Qed.

Lemma be_decode_snoc l b : be_decode (l ++ [b]) = (be_decode l * 256 + b2z b)%Z.
Proof. unfold be_decode. by rewrite foldl_snoc. Qed.

Lemma be_decode_encode n z : be_decode (be_encode n z) = (z mod 256 ^ Z.of_nat n)%Z.
Proof.
  revert z. induction n as [|n IH]; intros z.
  - simpl. by rewrite Z.mod_1_r.
  - cbn [be_encode]. rewrite be_decode_snoc, IH, b2z_z2b.
    rewrite Nat2Z.inj_succ, Z.pow_succ_r by lia.
    rewrite Z.rem_mul_r; [|lia|apply Z.pow_pos_nonneg; lia]. ring.
Qed.

Lemma be_decode_encode_small n z :
  (0 <= z < 256 ^ Z.of_nat n)%Z -> be_decode (be_encode n z) = z.
Proof. intros. rewrite be_decode_encode. by apply Z.mod_small. Qed.

Lemma be_decode_range l : (0 <= be_decode l < 256 ^ Z.of_nat (length l))%Z.
Proof.
  induction l as [|b l IH] using rev_ind; [done|].
  rewrite be_decode_snoc, length_app. simpl.
  replace (Z.of_nat (length l + 1)) with (Z.succ (Z.of_nat (length l))) by lia.
  rewrite Z.pow_succ_r by lia. pose proof (b2z_range b). nia.
Qed.

Lemma be_encode_decode l : be_encode (length l) (be_decode l) = l.
Proof.
  induction l as [|b l IH] using rev_ind; [done|].
  rewrite be_decode_snoc, length_app, Nat.add_comm. cbn [length Nat.add be_encode].
  pose proof (b2z_range b).
  rewrite (Z.add_comm (be_decode l * 256)), Z.div_add, Z.div_small, Z.add_0_l by lia.
  rewrite IH. do 2 f_equal.
  unfold z2b. rewrite Z.mod_add by lia. apply z2b_b2z.
Qed.

Lemma be_decode_inj x y : length x = length y -> be_decode x = be_decode y -> x = y.
Proof. intros Hl Hd. by rewrite <-(be_encode_decode x), <-(be_encode_decode y), Hl, Hd. Qed.

Lemma bytes_leb_refl x : bytes_leb x x = true.
Proof. induction x as [|a x IH]; simpl; [done|]. by rewrite Z.ltb_irrefl, Z.eqb_refl. Qed.

Lemma bytes_leb_total x y : bytes_leb x y = true \/ bytes_leb y x = true.
Proof.
  revert y. induction x as [|a x IH]; intros [|b y]; simpl; auto.
  destruct (Z.ltb_spec (b2z a) (b2z b)), (Z.ltb_spec (b2z b) (b2z a)),
    (Z.eqb_spec (b2z a) (b2z b)), (Z.eqb_spec (b2z b) (b2z a)); auto; lia.
Qed.

Lemma bytes_leb_cons a x b y :
  bytes_leb (a :: x) (b :: y) = true <->
  (b2z a < b2z b)%Z \/ (b2z a = b2z b /\ bytes_leb x y = true).
Proof.
  simpl. destruct (Z.ltb_spec (b2z a) (b2z b)), (Z.eqb_spec (b2z a) (b2z b));
    split; try done; intuition (auto; lia).
Qed.

Lemma bytes_leb_trans x y z :
  bytes_leb x y = true -> bytes_leb y z = true -> bytes_leb x z = true.
Proof.
  revert y z. induction x as [|a x IH]; [done|]. intros [|b y] [|c z]; try done.
  rewrite !bytes_leb_cons. intros [?|[-> ?]] [?|[? ?]]; [left; lia..|right; eauto].
Qed.

Lemma bytes_leb_antisym x y : bytes_leb x y = true -> bytes_leb y x = true -> x = y.
Proof.
  revert y. induction x as [|a x IH]; intros [|b y]; try done.
  rewrite !bytes_leb_cons. intros [?|[? ?]] [?|[? ?]]; try lia.
  f_equal; [by apply b2z_inj|eauto].
Qed.

(** ** Lemmas: slices and searches *)

Lemma length_slice {A} (l : list A) a b : length (slice l a b) = min (b - a) (length l - a).
Proof. unfold slice. by rewrite length_take, length_drop. Qed.

Lemma slice_app_middle {A} (x y z : list A) :
  slice (x ++ y ++ z) (length x) (length x + length y) = y.
Proof.
  unfold slice. rewrite drop_app_length.
  replace (length x + length y - length x) with (length y) by lia. by apply take_app_length.
Qed.

Lemma slice_app_middle' {A} (x y z : list A) a b :
  a = length x -> b = length x + length y -> slice (x ++ y ++ z) a b = y.
Proof. intros -> ->. apply slice_app_middle. Qed.

Lemma find_index_app_notin {A} `{EqDecision A} (c : A) x y :
  c ∉ x -> find_index c (x ++ c :: y) = Some (length x).
Proof.
  induction x as [|a x IH]; simpl; intros Hn.
  - by rewrite decide_True.
  - rewrite not_elem_of_cons in Hn. destruct Hn as [Ha Hx].
    rewrite decide_False by congruence. by rewrite IH.
Qed.

Lemma find_index_Some {A} `{EqDecision A} (c : A) l i :
  find_index c l = Some i -> l !! i = Some c /\ c ∉ take i l.
Proof.
  revert i. induction l as [|a l IH]; intros i; simpl; [done|].
  case_decide as Hd.
  - intros [= <-]. subst. split; [done|]. apply not_elem_of_nil.
  - intros (j & Hj & ->)%fmap_Some_1. destruct (IH j Hj) as [Hl Hn].
    split; [done|]. simpl. rewrite not_elem_of_cons. split; [congruence|done].
Qed.

Lemma find_from_Some {A} `{EqDecision A} (c : A) l s i :
  find_from c l s = Some i -> s <= i < length l /\ l !! i = Some c.
Proof.
  unfold find_from. intros (j & Hj & ->)%fmap_Some_1.
  apply find_index_Some in Hj as [Hj _]. rewrite lookup_drop in Hj.
  split; [|done]. apply lookup_lt_Some in Hj. lia.
Qed.

Lemma isdigit_app_notin l c : isdigit l = true -> is_digit c = false -> c ∉ l.
Proof.
  unfold isdigit. rewrite andb_true_iff. intros [_ Hall] Hc Hin.
  rewrite forallb_forall in Hall. apply list_elem_of_In in Hin.
  rewrite (Hall _ Hin) in Hc. done.
Qed.

(** ** Lemmas: filters *)

Lemma filter_all {A} (P : A -> Prop) `{!forall x, Decision (P x)} (l : list A) :
  (forall x, x ∈ l -> P x) -> filter P l = l.
Proof.
  induction l as [|x l IH]; intros Hl; [done|]. rewrite filter_cons, decide_True by (apply Hl; left).
  f_equal. apply IH. intros y Hy. apply Hl. by right.
Qed.

Lemma filter_none {A} (P : A -> Prop) `{!forall x, Decision (P x)} (l : list A) :
  (forall x, x ∈ l -> ~ P x) -> filter P l = [].
Proof.
  induction l as [|x l IH]; intros Hl; [done|]. rewrite filter_cons, decide_False by (apply Hl; left).
  apply IH. intros y Hy. apply Hl. by right.
Qed.

(** ** Lemmas: sorting *)

Lemma StronglySorted_impl {A} (R R' : A -> A -> Prop) l :
  StronglySorted R l -> (forall x y, R x y -> R' x y) -> StronglySorted R' l.
Proof.
  intros Hs HR. induction Hs as [|x l Hs IH Hx]; constructor; [done|].
  eapply Forall_impl; eauto.
Qed.

(** A prefix of a sorted list is made of the first elements. *)
Lemma take_sorted {A} (R : A -> A -> Prop) n l x y :
  StronglySorted R l -> x ∈ take n l -> y ∈ drop n l -> R x y.
Proof.
  intros Hs. rewrite <-(take_drop n l) in Hs. revert Hs. generalize (take n l) (drop n l).
  intros l1 l2. induction l1 as [|a l1 IH]; simpl; [by rewrite elem_of_nil|].
  intros [Hs Hall]%StronglySorted_inv. rewrite elem_of_cons. intros [->|Hx] Hy; [|auto].
  rewrite Forall_app, (Forall_forall _ l2) in Hall. by apply Hall.
Qed.

Section sorting_lemmas.
Context {A : Type} (leb : A -> A -> bool).

Lemma insert_sorted_Permutation x l : insert_sorted leb x l ≡ₚ x :: l.
Proof.
  induction l as [|y l IH]; simpl; [done|].
  destruct (leb x y); [done|]. rewrite IH. constructor.
Qed.

Lemma sort_by_Permutation l : sort_by leb l ≡ₚ l.
Proof. induction l as [|x l IH]; simpl; [done|]. by rewrite insert_sorted_Permutation, IH. Qed.

Lemma length_sort_by l : length (sort_by leb l) = length l.
Proof. apply Permutation_length, sort_by_Permutation. Qed.

Lemma elem_of_sort_by x l : x ∈ sort_by leb l <-> x ∈ l.
Proof. by rewrite sort_by_Permutation. Qed.

Context (leb_total : forall x y, leb x y = true \/ leb y x = true).
Context (leb_trans : forall x y z, leb x y = true -> leb y z = true -> leb x z = true).

Lemma insert_sorted_Sorted x l :
  StronglySorted (fun a b => leb a b = true) l ->
  StronglySorted (fun a b => leb a b = true) (insert_sorted leb x l).
Proof using leb_total leb_trans.
  induction 1 as [|y l Hs IH Hall]; simpl; [repeat constructor|].
  destruct (leb x y) eqn:Hxy.
  - constructor; [by constructor|]. constructor; [done|].
    eapply Forall_impl; [exact Hall|]. simpl; eauto.
  - constructor; [done|]. rewrite insert_sorted_Permutation.
    constructor; [|done]. destruct (leb_total x y); [congruence|done].
Qed.

Lemma sort_by_Sorted l : StronglySorted (fun a b => leb a b = true) (sort_by leb l).
Proof using leb_total leb_trans.
  induction l; simpl; [constructor|]. by apply insert_sorted_Sorted.
Qed.

(** Taking a prefix of the sorted list keeps the smallest elements. *)
Lemma sort_by_take_smallest n l x y :
  x ∈ take n (sort_by leb l) -> y ∈ drop n (sort_by leb l) -> leb x y = true.
Proof using leb_total leb_trans. exact (take_sorted (fun a b => leb a b = true) n _ x y (sort_by_Sorted l)). Qed.
End sorting_lemmas.

Lemma lex_leb_total x y : lex_leb x y = true \/ lex_leb y x = true.
Proof.
  revert y. induction x as [|a x IH]; intros [|b y]; cbn [lex_leb]; auto.
  destruct (Z.ltb_spec a b), (Z.ltb_spec b a), (Z.eqb_spec a b), (Z.eqb_spec b a); try lia; simpl; auto.
Qed.

Lemma lex_leb_trans x y z : lex_leb x y = true -> lex_leb y z = true -> lex_leb x z = true.
Proof.
  revert y z. induction x as [|a x IH]; intros [|b y] [|c z]; cbn [lex_leb]; try done.
  rewrite !orb_true_iff, !andb_true_iff, !Z.ltb_lt, !Z.eqb_eq.
  intros [?|[-> ?]] [?|[-> ?]]; [left; lia..|right; split; [done|by eapply IH]].
Qed.

Lemma lex_leb_antisym x y : lex_leb x y = true -> lex_leb y x = true -> x = y.
Proof.
  revert y. induction x as [|a x IH]; intros [|b y]; cbn [lex_leb]; try done.
  rewrite !orb_true_iff, !andb_true_iff, !Z.ltb_lt, !Z.eqb_eq.
  intros [?|[-> ?]] [?|[? ?]]; try lia. f_equal. by apply IH.
Qed.

(** Sorting commutes with a map that keeps the comparison. *)
Lemma insert_sorted_fmap {A B} (f : A -> B) leA leB x l :
  (forall x y, leB (f x) (f y) = leA x y) ->
  insert_sorted leB (f x) (f <$> l) = f <$> insert_sorted leA x l.
Proof.
  intros Hf. induction l as [|y l IH]; simpl; [done|].
  rewrite Hf. destruct (leA x y); [done|]. by rewrite fmap_cons, <-IH.
Qed.

Lemma sort_by_fmap {A B} (f : A -> B) leA leB l :
  (forall x y, leB (f x) (f y) = leA x y) ->
  sort_by leB (f <$> l) = f <$> sort_by leA l.
Proof.
  intros Hf. induction l as [|x l IH]; simpl; [done|].
  rewrite <-(insert_sorted_fmap f leA leB) by done. by rewrite <-IH.
Qed.

(** ** Lemmas: the state monad *)

Lemma wp_mono {S A} (m : ST S A) (Q Q' : A -> S -> Prop) s :
  wp m Q s -> (forall a s', Q a s' -> Q' a s') -> wp m Q' s.
Proof. unfold wp. destruct (m s) as [[a s']|]; auto. Qed.

Lemma wp_bind {S A B} (m : ST S A) (f : A -> ST S B) Q s :
  wp m (fun a s' => wp (f a) Q s') s -> wp (m ≫= f) Q s.
Proof. unfold wp, mbind, st_bind. by destruct (m s) as [[a s']|]. Qed.

Lemma wp_ret {S A} (a : A) (Q : A -> S -> Prop) s : Q a s -> wp (mret a) Q s.
Proof. done. Qed.

Lemma wp_get {S} (Q : S -> S -> Prop) s : Q s s -> wp get_state Q s.
Proof. done. Qed.

Lemma wp_gets {S A} (f : S -> A) Q s : Q (f s) s -> wp (gets f) Q s.
Proof. done. Qed.

Lemma wp_modify {S} (f : S -> S) Q s : Q tt (f s) -> wp (modify f) Q s.
Proof. done. Qed.

Lemma wp_assert {S} (c : bool) (Q : unit -> S -> Prop) s :
  c = true -> Q tt s -> wp (assert_st c) Q s.
Proof. intros ->. done. Qed.

Lemma wp_lift {S A} (r : res A) a (Q : A -> S -> Prop) s : r = Ok a -> Q a s -> wp (lift r) Q s.
Proof. by intros ->. Qed.

Lemma wp_when {S} (c : bool) (m : ST S unit) Q s :
  (c = true -> wp m Q s) -> (c = false -> Q tt s) -> wp (when_st c m) Q s.
Proof. intros H1 H2. destruct c; [exact (H1 eq_refl)|exact (H2 eq_refl)]. Qed.

Lemma for_each_app {S A} (l l' : list A) (f : A -> ST S unit) s :
  for_each (l ++ l') f s = (for_each l f ;; for_each l' f) s.
Proof.
  revert s. induction l as [|x l IH]; intros s; [done|]. simpl. unfold mbind, st_bind in *.
  destruct (f x s) as [[[] s']|]; [apply IH|done].
Qed.

(** A loop whose body keeps an invariant keeps it. *)
Lemma wp_for_each {S A} (l : list A) (f : A -> ST S unit) (I : S -> Prop) s :
  I s -> (forall x s, x ∈ l -> I s -> wp (f x) (fun _ => I) s) ->
  wp (for_each l f) (fun _ => I) s.
Proof.
  intros Hs Hf. revert s Hs. induction l as [|x l IH]; intros s Hs; simpl; [done|].
  apply wp_bind. eapply wp_mono; [apply Hf; [left|done]|]. intros [] s' Hs'.
  apply IH; [|done]. intros y s0 Hy. apply Hf. by right.
Qed.

(** A loop with an invariant on the elements still to come. *)
Lemma wp_for_each_list {S A} (f : A -> ST S unit) (I : list A -> S -> Prop) l s :
  I l s -> (forall x l s, I (x :: l) s -> wp (f x) (fun _ => I l) s) ->
  wp (for_each l f) (fun _ => I []) s.
Proof.
  intros Hs Hf. revert s Hs. induction l as [|x l IH]; intros s Hs; simpl; [done|].
  apply wp_bind. eapply wp_mono; [by apply Hf|]. intros [] s' Hs'. by apply IH.
Qed.

Lemma wp_zoom {S T A} (get : S -> T) (put : T -> S -> S) (m : ST T A) Q s :
  wp m (fun a t => Q a (put t s)) (get s) -> wp (zoom get put m) Q s.
Proof. unfold wp, zoom. by destruct (m (get s)) as [[a t]|]. Qed.

Lemma wp_wlp {S A} (m : ST S A) Q Q' s : wp m Q s -> wlp m Q' s -> wp m (fun a s' => Q a s' /\ Q' a s') s.
Proof. unfold wp, wlp. destruct (m s) as [[a s']|]; auto. Qed.

Lemma wlp_of_wp {S A} (m : ST S A) Q s : wp m Q s -> wlp m Q s.
Proof. unfold wp, wlp. by destruct (m s) as [[a s']|]. Qed.

Lemma wlp_mono {S A} (m : ST S A) (Q Q' : A -> S -> Prop) s :
  wlp m Q s -> (forall a s', Q a s' -> Q' a s') -> wlp m Q' s.
Proof. unfold wlp. destruct (m s) as [[a s']|]; auto. Qed.

Lemma wlp_bind {S A B} (m : ST S A) (f : A -> ST S B) Q s :
  wlp m (fun a s' => wlp (f a) Q s') s -> wlp (m ≫= f) Q s.
Proof. unfold wlp, mbind, st_bind. by destruct (m s) as [[a s']|]. Qed.

Lemma wlp_ret {S A} (a : A) (Q : A -> S -> Prop) s : Q a s -> wlp (mret a) Q s.
Proof. done. Qed.

Lemma wlp_gets {S A} (f : S -> A) (Q : A -> S -> Prop) s : Q (f s) s -> wlp (gets f) Q s.
Proof. done. Qed.

Lemma wlp_modify {S} (f : S -> S) (Q : unit -> S -> Prop) s : Q tt (f s) -> wlp (modify f) Q s.
Proof. done. Qed.

Lemma wlp_assert {S} (c : bool) (Q : unit -> S -> Prop) s :
  (c = true -> Q tt s) -> wlp (assert_st c) Q s.
Proof. unfold wlp, assert_st. destruct c; auto. Qed.

Lemma wlp_lift {S A} (r : res A) (Q : A -> S -> Prop) s :
  (forall a, r = Ok a -> Q a s) -> wlp (lift r) Q s.
Proof. unfold wlp, lift. destruct r; auto. Qed.

(** A relation that is kept by each part of a program is kept by the whole. *)
Section frames.
Context {S : Type} (R : S -> S -> Prop) `{!PreOrder R}.

Lemma frames_bind {A B} (m : ST S A) (f : A -> ST S B) :
  frames R m -> (forall a, frames R (f a)) -> frames R (m ≫= f).
Proof using All.
  intros Hm Hf s. apply wlp_bind. eapply wlp_mono; [apply Hm|]. intros a s1 H1.
  eapply wlp_mono; [apply Hf|]. intros b s2 H2. exact (transitivity H1 H2).
Qed.

Lemma frames_pure {A} (m : ST S A) :
  (forall s a s', m s = Ok (a, s') -> s' = s) -> frames R m.
Proof using All.
  intros Hm s. unfold wlp. destruct (m s) as [[a s']|] eqn:Hs; [|done]. by rewrite (Hm _ _ _ Hs).
Qed.

Lemma frames_ret {A} (a : A) : frames R (mret a).
Proof using All. by apply frames_pure; intros s b s' [= _ ->]. Qed.

Lemma frames_get : frames R get_state.
Proof using All. by apply frames_pure; intros s b s' [= _ ->]. Qed.

Lemma frames_gets {A} (f : S -> A) : frames R (gets f).
Proof using All. by apply frames_pure; intros s b s' [= _ ->]. Qed.

Lemma frames_assert c : frames R (assert_st c).
Proof using All. apply frames_pure. intros s b s'. unfold assert_st. by destruct c; intros [= _ ->]. Qed.

Lemma frames_raise {A} e : frames R (raise_st (A := A) e).
Proof using All. by intros s. Qed.

Lemma frames_lift {A} (r : res A) : frames R (lift r).
Proof using All. apply frames_pure. intros s b s'. unfold lift. by destruct r; intros [= _ ->]. Qed.

Lemma frames_modify f : (forall s, R s (f s)) -> frames R (modify f).
Proof using. intros Hf s. apply Hf. Qed.

Lemma frames_when c m : (c = true -> frames R m) -> frames R (when_st c m).
Proof using All. destruct c; [auto|]. intros _. apply frames_ret. Qed.

Lemma frames_for_each {A} (l : list A) f : (forall x, frames R (f x)) -> frames R (for_each l f).
Proof using All.
  intros Hf. induction l as [|x l IH]; simpl; [apply frames_ret|]. by apply frames_bind.
Qed.

(** A program that keeps [R], before one that is looked at. *)
Lemma wlp_framed {A B} (m : ST S A) (k : A -> ST S B) Q s0 s :
  frames R m -> R s0 s -> (forall a s', R s0 s' -> wlp (k a) Q s') -> wlp (m ≫= k) Q s.
Proof using All.
  intros Hm Hs Hk. apply wlp_bind. eapply wlp_mono; [apply Hm|]. intros a s' Hs'. apply Hk. exact (transitivity Hs Hs').
Qed.
End frames.

(** One construct of a program at a time; what is left are the primitive
    changes of the state. *)
Ltac frames_step :=
  lazymatch goal with
  | |- frames ?R (_ ≫= _) => apply (frames_bind R); [|intros ?]
  | |- frames ?R (mret _) => apply (frames_ret R)
  | |- frames ?R get_state => apply (frames_get R)
  | |- frames ?R (gets _) => apply (frames_gets R)
  | |- frames ?R (assert_st _) => apply (frames_assert R)
  | |- frames ?R (raise_st _) => apply (frames_raise R)
  | |- frames ?R (lift _) => apply (frames_lift R)
  | |- frames ?R (when_st _ _) => apply (frames_when R); intros ?
  | |- frames ?R (for_each _ _) => apply (frames_for_each R); intros ?
  | |- frames _ (let _ := _ in _) => cbv zeta
  | |- frames _ (if ?b then _ else _) => destruct b eqn:?
  | |- frames _ (match ?x with _ => _ end) => destruct x eqn:?
  end.
Ltac frames_steps := repeat frames_step; eauto with frames.

(** Symbolic execution of a program of the monad, one construct at a time. *)
Ltac wp_step :=
  lazymatch goal with
  | |- wp (_ ≫= _) _ _ => apply wp_bind
  | |- wp (mret _) _ _ => apply wp_ret
  | |- wp get_state _ _ => apply wp_get
  | |- wp (gets _) _ _ => apply wp_gets
  | |- wp (modify _) _ _ => apply wp_modify
  | |- wp (when_st _ _) _ _ => apply wp_when; intros
  end.
Ltac wp_steps := repeat wp_step; cbn beta.

(** Decide the boolean tests of the goal that arithmetic or the hypotheses
    decide. *)
Ltac bool_side := first [done | lia | congruence].
Ltac bool_step :=
  match goal with
  | |- context [bool_decide ?P] =>
      first [ rewrite (bool_decide_eq_true_2 P) by bool_side
            | rewrite (bool_decide_eq_false_2 P) by bool_side ]
  | |- context [(?a =? ?b)%Z] =>
      first [ replace (a =? b)%Z with true by (symmetry; apply Z.eqb_eq; lia)
            | replace (a =? b)%Z with false by (symmetry; apply Z.eqb_neq; lia) ]
  | |- context [(?a <? ?b)%Z] =>
      first [ replace (a <? b)%Z with true by (symmetry; apply Z.ltb_lt; lia)
            | replace (a <? b)%Z with false by (symmetry; apply Z.ltb_ge; lia) ]
  | |- context [(?a <=? ?b)%Z] =>
      first [ replace (a <=? b)%Z with true by (symmetry; apply Z.leb_le; lia)
            | replace (a <=? b)%Z with false by (symmetry; apply Z.leb_gt; lia) ]
  end.
Ltac bools :=
  repeat (progress (repeat bool_step;
    cbn [assert_ raise_if mbind res_bind mret res_ret andb orb negb returns])).

(** Linear arithmetic with divisions by constants. *)
Ltac lia_div := Z.to_euclidean_division_equations; lia.

(** Equality of concatenations up to associativity. *)
Ltac app_eq := repeat (progress (cbn [app]; rewrite <-?app_assoc)); reflexivity.

(** The update of one field of a record, from the record's eta-expansion: in
    [make_setter eta field] the field is abstracted from [eta]. *)
Ltac make_setter eta field :=
  let m := eval cbv beta delta [eta] in eta in
  lazymatch eval pattern field in m with
  | ?body _ => let r := eval cbv beta in (fun v => body (fun _ => v)) in exact r
  end.

Create HintDb dht.
Create HintDb frames.
#[export] Hint Resolve b2z_range bytes_leb_refl bytes_leb_total bytes_leb_trans : dht.
