(* ===== verification/PyDict.v ===== *)
(** * Insertion-ordered dictionaries

    Python's [dict] and [collections.OrderedDict] as association lists in
    insertion order, and [bounded_recent_map.remember].  Assigning an existing
    key keeps its position, a new key goes last; iteration order is the list's
    order.  A dictionary is well formed ([dict_wf]) when no key occurs twice. *)
From S2P Require Import Prelude.

Abbreviation odict K V := (list (K * V)) (only parsing).

Section operations.
Context {K V : Type} `{EqDecision K}.
Implicit Types (d : list (K * V)) (k : K) (v : V).

(** [d.get(k)] *)
Fixpoint dict_get k d : option V :=
  match d with
  | [] => None
  | (k', v) :: d' => if decide (k = k') then Some v else dict_get k d'
  end.

(** [k in d] *)
Definition dict_has k d : bool :=
  match dict_get k d with Some _ => true | None => false end.

(** [d[k] = v] *)
Fixpoint dict_set k v d : list (K * V) :=
  match d with
  | [] => [(k, v)]
  | (k', v') :: d' =>
      if decide (k = k') then (k', v) :: d' else (k', v') :: dict_set k v d'
  end.

(** [d.pop(k, None)] as a state change *)
Definition dict_del k d : list (K * V) := filter (fun kv => kv.1 <> k) d.

(** [d.setdefault(k, v)] as a state change *)
Definition dict_setdefault k v d : list (K * V) :=
  if dict_has k d then d else dict_set k v d.

(** [d.move_to_end(k)] and [d.move_to_end(k, last=False)] *)
Definition move_to_end k d : list (K * V) :=
  match dict_get k d with Some v => dict_del k d ++ [(k, v)] | None => d end.
Definition move_to_front k d : list (K * V) :=
  match dict_get k d with Some v => (k, v) :: dict_del k d | None => d end.

Definition dict_wf d : Prop := NoDup d.*1.

(** [while len(mapping) > limit: mapping.popitem(last=False)] *)
Fixpoint pop_oldest (limit : nat) d : list (K * V) :=
  match d with
  | [] => []
  | _ :: d' => if decide (limit < length d) then pop_oldest limit d' else d
  end.

(** [bounded_recent_map.remember] *)
Definition remember (mapping : list (K * V)) (key : K) (value : V) (limit : nat)
    : res (bool * list (K * V)) :=
  assert_ (bool_decide (1 <= limit)) ;;
  let is_new := negb (dict_has key mapping) in
  let mapping := dict_set key value mapping in
  let mapping := move_to_end key mapping in
  let mapping := pop_oldest limit mapping in
  assert_ ((bool_decide (length mapping <= limit) && dict_has key mapping) || negb is_new) ;;
  mret (is_new, mapping).

(** The last [n] items. *)
Definition last_items (n : nat) d : list (K * V) := drop (length d - n) d.

(** ** Lookup laws *)

Lemma dict_get_set_eq k v d : dict_get k (dict_set k v d) = Some v.
Proof.
  induction d as [|[k' v'] d IH]; simpl; [by rewrite decide_True|].
  case_decide; simpl; [by rewrite decide_True|by rewrite decide_False].
Qed.

Lemma dict_get_set_ne k k' v d : k <> k' -> dict_get k (dict_set k' v d) = dict_get k d.
Proof.
  intros Hne. induction d as [|[k0 v0] d IH]; simpl; [by rewrite decide_False|].
  case_decide; simpl; case_decide; congruence.
Qed.

Lemma dict_get_set k k' v d :
  dict_get k (dict_set k' v d) = if decide (k = k') then Some v else dict_get k d.
Proof. case_decide; subst; auto using dict_get_set_eq, dict_get_set_ne. Qed.

Lemma dict_get_del_eq k d : dict_get k (dict_del k d) = None.
Proof.
  unfold dict_del. induction d as [|[k' v'] d IH]; [done|].
  rewrite filter_cons. simpl. case_decide; simpl; [by rewrite decide_False|done].
Qed.

Lemma dict_get_del_ne k k' d : k <> k' -> dict_get k (dict_del k' d) = dict_get k d.
Proof.
  intros Hne. unfold dict_del. induction d as [|[k0 v0] d IH]; [done|].
  rewrite filter_cons. simpl. case_decide; simpl; case_decide; congruence.
Qed.

Lemma dict_get_del k k' d :
  dict_get k (dict_del k' d) = if decide (k = k') then None else dict_get k d.
Proof. case_decide; subst; auto using dict_get_del_eq, dict_get_del_ne. Qed.

Lemma dict_get_app k d1 d2 :
  dict_get k (d1 ++ d2) = match dict_get k d1 with Some v => Some v | None => dict_get k d2 end.
Proof. induction d1 as [|[k' v'] d1 IH]; simpl; [done|]. by case_decide. Qed.

Lemma dict_has_get k d : dict_has k d = true <-> is_Some (dict_get k d).
Proof. unfold dict_has. destruct (dict_get k d); by split. Qed.

Lemma dict_has_false k d : dict_has k d = false <-> dict_get k d = None.
Proof. unfold dict_has. by destruct (dict_get k d). Qed.

Lemma dict_get_setdefault k k' v d :
  dict_get k (dict_setdefault k' v d) =
    if decide (k = k') then Some (default v (dict_get k d)) else dict_get k d.
Proof.
  unfold dict_setdefault, dict_has. destruct (dict_get k' d) as [v'|] eqn:Hk'.
  - case_decide; subst; by rewrite ?Hk'.
  - rewrite dict_get_set. case_decide; subst; by rewrite ?Hk'.
Qed.

Lemma dict_get_None k d : dict_get k d = None <-> k ∉ d.*1.
Proof.
  induction d as [|[k' v'] d IH]; csimpl; [split; [intros _; apply not_elem_of_nil|done]|].
  rewrite not_elem_of_cons, <-IH. case_decide; subst; [split; [done|by intros []]|tauto].
Qed.

Lemma dict_get_is_Some k d : is_Some (dict_get k d) <-> k ∈ d.*1.
Proof.
  rewrite <-not_eq_None_Some, dict_get_None. split; [apply dec_stable|auto].
Qed.

Lemma dict_get_elem_of k v d : dict_get k d = Some v -> (k, v) ∈ d.
Proof.
  induction d as [|[k' v'] d IH]; simpl; [done|].
  case_decide as Hk; [intros [= ->]; subst; left|intros; right; auto].
Qed.

Lemma elem_of_dict_get k v d : dict_wf d -> (k, v) ∈ d -> dict_get k d = Some v.
Proof.
  unfold dict_wf. induction d as [|[k' v'] d IH]; csimpl; [by rewrite elem_of_nil|].
  rewrite NoDup_cons, elem_of_cons. intros [Hk' Hd] [[= -> ->]|Hin].
  - by rewrite decide_True.
  - rewrite decide_False; [auto|]. intros ->. apply Hk'.
    apply list_elem_of_fmap. by exists (k', v).
Qed.

(** ** Shape and well-formedness *)

Lemma elem_of_dict_set k v d kv : kv ∈ dict_set k v d -> kv = (k, v) \/ kv ∈ d.
Proof.
  induction d as [|[k' v'] d IH]; simpl; [intros ->%list_elem_of_singleton; auto|]. case_decide.
  - intros [->|?]%elem_of_cons; [subst; auto|]. right. by right.
  - intros [->|[?|?]%IH]%elem_of_cons; [right; left|auto|right; by right].
Qed.

Lemma dict_set_new k v d : dict_get k d = None -> dict_set k v d = d ++ [(k, v)].
Proof.
  induction d as [|[k' v'] d IH]; simpl; [done|]. case_decide; [done|].
  intros. by rewrite IH.
Qed.

Lemma dict_set_keys_old k v d : is_Some (dict_get k d) -> (dict_set k v d).*1 = d.*1.
Proof.
  induction d as [|[k' v'] d IH]; csimpl; [by intros []|].
  case_decide; csimpl; [done|]. intros. by rewrite IH.
Qed.

Lemma dict_set_same k v d : dict_get k d = Some v -> dict_set k v d = d.
Proof.
  induction d as [|[k' v'] d IH]; simpl; [done|]. case_decide as Hd; [by intros [= ->]|].
  intros Hk. by rewrite IH.
Qed.

Lemma dict_wf_nil : dict_wf [].
Proof. constructor. Qed.

Lemma dict_set_wf k v d : dict_wf d -> dict_wf (dict_set k v d).
Proof.
  unfold dict_wf. intros Hd. destruct (dict_get k d) as [v'|] eqn:Hk.
  - by rewrite dict_set_keys_old by eauto.
  - rewrite dict_set_new, fmap_app by done. apply NoDup_app. split; [done|].
    apply dict_get_None in Hk. split; [|apply NoDup_singleton].
    intros x Hx. csimpl. rewrite list_elem_of_singleton. congruence.
Qed.

Lemma dict_del_keys k d : (dict_del k d).*1 = filter (fun x => x <> k) d.*1.
Proof.
  unfold dict_del. induction d as [|[k' v'] d IH]; csimpl; [done|].
  rewrite !filter_cons. simpl. case_decide; csimpl; congruence.
Qed.

Lemma dict_del_wf k d : dict_wf d -> dict_wf (dict_del k d).
Proof. unfold dict_wf. rewrite dict_del_keys. apply NoDup_filter. Qed.

Lemma dict_setdefault_wf k v d : dict_wf d -> dict_wf (dict_setdefault k v d).
Proof. unfold dict_setdefault. destruct (dict_has k d); auto using dict_set_wf. Qed.

Lemma dict_del_notin k d : dict_get k d = None -> dict_del k d = d.
Proof.
  rewrite dict_get_None. unfold dict_del. induction d as [|[k' v'] d IH]; csimpl; [done|].
  rewrite not_elem_of_cons, filter_cons. simpl. intros [Hne Hd].
  rewrite decide_True by congruence. by rewrite IH.
Qed.

Lemma dict_keys_del k v d : dict_wf d -> dict_get k d = Some v -> d.*1 ≡ₚ (dict_del k d).*1 ++ [k].
Proof.
  intros Hwf Hk. rewrite dict_del_keys, (Permutation_app_comm _ [k]). unfold dict_wf in Hwf.
  assert (k ∈ d.*1) as Hin by (apply dict_get_is_Some; by rewrite Hk). clear Hk.
  induction Hwf as [|x l Hx Hl IH]; [by apply elem_of_nil in Hin|]. rewrite filter_cons. simpl.
  apply elem_of_cons in Hin as [->|Hin].
  - rewrite decide_False by tauto. constructor. rewrite filter_all; [done|]. by intros y Hy ->.
  - rewrite decide_True by (by intros ->). rewrite IH at 1 by done. apply Permutation_swap.
Qed.

Lemma dict_del_app k d1 d2 : dict_del k (d1 ++ d2) = dict_del k d1 ++ dict_del k d2.
Proof. apply filter_app. Qed.

Lemma dict_del_set k v d : dict_del k (dict_set k v d) = dict_del k d.
Proof.
  unfold dict_del. induction d as [|[k' v'] d IH]; simpl.
  - rewrite filter_cons. simpl. by rewrite decide_False by congruence.
  - case_decide; rewrite !filter_cons; simpl; case_decide; congruence.
Qed.

Lemma dict_snoc_wf k v d : dict_wf d -> dict_wf (dict_del k d ++ [(k, v)]).
Proof.
  intros Hd. rewrite <-dict_set_new by apply dict_get_del_eq.
  by apply dict_set_wf, dict_del_wf.
Qed.

Lemma drop_wf n d : dict_wf d -> dict_wf (drop n d).
Proof. unfold dict_wf. rewrite fmap_drop. intros Hd. eapply sublist_NoDup; [exact Hd|apply sublist_drop]. Qed.

Lemma length_dict_del k v d :
  dict_wf d -> dict_get k d = Some v -> length d = S (length (dict_del k d)).
Proof.
  unfold dict_wf, dict_del. induction d as [|[k' v'] d IH]; csimpl; [done|].
  rewrite NoDup_cons, filter_cons. simpl. intros [Hn Hd].
  case_decide as Hk; subst.
  - intros _. rewrite decide_False by auto.
    rewrite <-dict_get_None in Hn. apply dict_del_notin in Hn.
    unfold dict_del in Hn. by rewrite Hn.
  - intros. rewrite decide_True by congruence. simpl. by rewrite <-IH.
Qed.

Lemma length_dict_set k v d :
  length (dict_set k v d) = if dict_has k d then length d else S (length d).
Proof.
  unfold dict_has. destruct (dict_get k d) eqn:Hk.
  - rewrite <-(length_fmap fst), dict_set_keys_old by eauto. apply length_fmap.
  - rewrite dict_set_new, length_app by done. simpl. lia.
Qed.

Lemma dict_set_id k v d : dict_get k d = Some v -> dict_set k v d = d.
Proof. induction d as [|[k' v'] d IH]; simpl; [done|]. case_decide; [congruence|]. intros. by rewrite IH. Qed.

(** ** [remember] *)

Lemma pop_oldest_last_items limit d : pop_oldest limit d = last_items limit d.
Proof.
  unfold last_items. induction d as [|kv d IH]; [done|].
  cbn [pop_oldest]. case_decide as Hl; simpl in Hl.
  - rewrite IH. replace (length (kv :: d) - limit) with (S (length d - limit)) by (simpl; lia).
    done.
  - replace (length (kv :: d) - limit) with 0 by (simpl; lia). done.
Qed.

Lemma length_last_items n d : length (last_items n d) = min n (length d).
Proof. unfold last_items. rewrite length_drop. lia. Qed.

Lemma last_items_snoc_get n k v d :
  1 <= n -> dict_wf d -> dict_get k (last_items n (dict_del k d ++ [(k, v)])) = Some v.
Proof.
  intros Hn Hd. apply elem_of_dict_get.
  - apply drop_wf. by apply dict_snoc_wf.
  - unfold last_items. rewrite length_app, drop_app_le by (simpl; lia).
    apply elem_of_app. right. by apply list_elem_of_singleton.
Qed.

Lemma remember_eq mapping key value limit :
  1 <= limit -> dict_wf mapping ->
  remember mapping key value limit =
    Ok (negb (dict_has key mapping),
        last_items limit (dict_del key mapping ++ [(key, value)])).
Proof.
  intros Hl Hd. unfold remember. rewrite (bool_decide_eq_true_2 (1 <= limit)) by done. simpl.
  unfold move_to_end. rewrite dict_get_set_eq, dict_del_set, pop_oldest_last_items.
  rewrite bool_decide_eq_true_2 by (rewrite length_last_items; lia).
  rewrite (proj2 (dict_has_get _ (last_items _ _)))
    by (rewrite last_items_snoc_get by done; eauto).
  done.
Qed.

(** A table bounded by [limit]. *)
Definition table_ok (limit : nat) d : Prop := dict_wf d /\ length d <= limit.

Lemma remember_table mapping key value limit :
  1 <= limit -> dict_wf mapping -> exists mapping',
    remember mapping key value limit = Ok (negb (dict_has key mapping), mapping') /\
    table_ok limit mapping' /\ dict_get key mapping' = Some value /\
    forall k v, dict_get k mapping' = Some v -> k = key /\ v = value \/ dict_get k mapping = Some v.
Proof.
  intros Hl Hd. rewrite remember_eq by done. set (d := dict_del key mapping ++ [(key, value)]).
  assert (dict_wf d) as Hwf by by apply dict_snoc_wf.
  exists (last_items limit d). split; [done|]. split; [split; [by apply drop_wf|rewrite length_last_items; lia]|].
  split; [by apply last_items_snoc_get|]. intros k v Hk%dict_get_elem_of. unfold last_items in Hk.
  apply subseteq_drop, elem_of_dict_get in Hk; [|done]. unfold d in Hk. rewrite dict_get_app, dict_get_del in Hk.
  destruct (decide (k = key)) as [->|Hne]; simpl in Hk.
  - rewrite decide_True in Hk by done. injection Hk as ->. by left.
  - right. destruct (dict_get k mapping); [done|]. by rewrite decide_False in Hk by done.
Qed.
End operations.

#[export] Hint Resolve dict_wf_nil dict_set_wf dict_del_wf dict_setdefault_wf : dht.

(** Mapping the values of a dictionary commutes with its operations. *)
Definition map_values {K A B} (f : A -> B) (d : list (K * A)) : list (K * B) :=
  (fun kv => (kv.1, f kv.2)) <$> d.

Lemma map_values_keys {K A B} (f : A -> B) (d : list (K * A)) : (map_values f d).*1 = d.*1.
Proof. unfold map_values. by rewrite <-list_fmap_compose. Qed.

Lemma dict_set_map_values {K A B} `{EqDecision K} (f : A -> B) (k : K) v d :
  dict_set k (f v) (map_values f d) = map_values f (dict_set k v d).
Proof. induction d as [|[k' v'] d IH]; csimpl; [done|]. case_decide; csimpl; congruence. Qed.

(** ** Properties *)

(** Remembering a key in a recent map with distinct keys never fails an
    assertion; it tells whether the key was new, puts the key last with its new
    value, keeps the other keys in their order, drops only the oldest ones, and
    never leaves more than [limit] of them. *)
Theorem remember_keeps_recent {K V} `{EqDecision K} (mapping : list (K * V)) key value limit :
  1 <= limit -> dict_wf mapping ->
  exists mapping' dropped,
    remember mapping key value limit = Ok (negb (dict_has key mapping), mapping') /\
    dict_wf mapping' /\ length mapping' <= limit /\
    dict_get key mapping' = Some value /\ last mapping' = Some (key, value) /\
    dropped ++ mapping' = dict_del key mapping ++ [(key, value)] /\
    (dropped <> [] -> length mapping' = limit).
Proof.
  intros Hl Hd. rewrite remember_eq by done.
  set (d := dict_del key mapping ++ [(key, value)]).
  assert (dict_wf d) as Hwf by by apply dict_snoc_wf.
  exists (last_items limit d), (take (length d - limit) d). split; [done|].
  pose proof (length_last_items limit d) as Hlen.
  split; [by apply drop_wf|]. split; [lia|].
  split; [by apply last_items_snoc_get|].
  split; [|split; [apply take_drop|]].
  - unfold last_items, d. rewrite length_app. cbn [length].
    rewrite drop_app_le by lia. by rewrite last_snoc.
  - intros Hne. rewrite Hlen. destruct (decide (length d <= limit)); [|lia].
    exfalso. apply Hne. replace (length d - limit) with 0 by lia. done.
Qed.

Lemma remember_keeps_recent_witness :
  exists mapping' dropped,
    remember [(1, 10); (2, 20); (3, 30)] 1 11 2 = Ok (false, mapping') /\
    dict_wf mapping' /\ length mapping' <= 2 /\
    dict_get 1 mapping' = Some 11 /\ last mapping' = Some (1, 11) /\
    dropped ++ mapping' = [(2, 20); (3, 30); (1, 11)] /\
    (dropped <> [] -> length mapping' = 2).
Proof.
  refine (remember_keeps_recent [(1, 10); (2, 20); (3, 30)] 1 11 2 _ _); [lia|].
  apply (bool_decide_unpack (NoDup _)). vm_compute. exact I.
Defined.

(** ** Sums over the values of a dictionary *)

Section sums.
Context {K V : Type} `{EqDecision K}.
Implicit Types (w : V -> Z) (t : list (K * V)).

Definition sum_over w t : Z := foldr (fun kv => Z.add (w kv.2)) 0%Z t.

Lemma sum_over_cons w k v t : sum_over w ((k, v) :: t) = (w v + sum_over w t)%Z.
Proof. done. Qed.

Lemma sum_over_range w t :
  (forall v, 0 <= w v <= 1)%Z -> (0 <= sum_over w t <= Z.of_nat (length t))%Z.
Proof.
  intros Hw. induction t as [|[k v] t IH]; [done|]. rewrite sum_over_cons. cbn [length].
  specialize (Hw v). lia.
Qed.

Lemma sum_over_nonneg w t : (forall v, 0 <= w v)%Z -> (0 <= sum_over w t)%Z.
Proof.
  intros Hw. induction t as [|[k v] t IH]; [done|]. rewrite sum_over_cons. specialize (Hw v). lia.
Qed.

Lemma sum_over_ext w w' t : (forall k v, (k, v) ∈ t -> w v = w' v) -> sum_over w t = sum_over w' t.
Proof.
  induction t as [|[k v] t IH]; intros Hw; [done|]. rewrite !sum_over_cons.
  rewrite (Hw k v) by left. f_equal. apply IH. intros k' v' Hin. apply (Hw k'). by right.
Qed.

Lemma sum_over_le w w' t :
  (forall k v, (k, v) ∈ t -> (w v <= w' v)%Z) -> (sum_over w t <= sum_over w' t)%Z.
Proof.
  induction t as [|[k v] t IH]; intros Hw; [done|]. rewrite !sum_over_cons.
  assert (w v <= w' v)%Z by (apply (Hw k); left).
  assert (sum_over w t <= sum_over w' t)%Z; [|lia].
  apply IH. intros k' v' Hin. apply (Hw k'). by right.
Qed.

Lemma sum_over_del w k v t :
  dict_wf t -> dict_get k t = Some v -> sum_over w t = (w v + sum_over w (dict_del k t))%Z.
Proof.
  unfold dict_wf. induction t as [|[k' v'] t IH]; [done|]. csimpl. rewrite NoDup_cons. intros [Hn Hd].
  unfold dict_del. rewrite filter_cons. simpl. case_decide as Hk.
  - subst k'. intros [= ->]. rewrite decide_False by (intros Hne; by apply Hne).
    change (filter _ t) with (dict_del k t). rewrite dict_del_notin; [done|].
    by apply dict_get_None.
  - intros Hg. rewrite decide_True by congruence.
    rewrite !sum_over_cons, (IH Hd Hg). unfold dict_del. lia.
Qed.

Lemma sum_over_snoc w k v t : sum_over w (t ++ [(k, v)]) = (sum_over w t + w v)%Z.
Proof. unfold sum_over. induction t as [|[k' v'] t IH]; cbn [app foldr snd]; lia. Qed.

Lemma sum_over_add w w' t : (sum_over w t + sum_over w' t)%Z = sum_over (fun v => w v + w' v)%Z t.
Proof.
  induction t as [|[k v] t IH]; [done|]. rewrite !sum_over_cons, <-IH. lia.
Qed.

Lemma sum_over_const t : sum_over (fun _ => 1%Z) t = Z.of_nat (length t).
Proof. induction t as [|[k v] t IH]; [done|]. rewrite sum_over_cons, IH. simpl. lia. Qed.

(** Assigning a key. *)
Lemma sum_over_set w k v v' t :
  dict_wf t -> dict_get k t = Some v -> sum_over w (dict_set k v' t) = (sum_over w t - w v + w v')%Z.
Proof.
  intros Ht Hg. rewrite (sum_over_del w k v' (dict_set k v' t)) by (auto using dict_set_wf, dict_get_set_eq).
  rewrite dict_del_set, (sum_over_del w k v t) by done. lia.
Qed.

(** Assigning a key or deleting it, as one operation. *)
Definition dict_put (k : K) (o : option V) t : list (K * V) :=
  match o with Some v => dict_set k v t | None => dict_del k t end.
Definition weight w (o : option V) : Z := match o with Some v => w v | None => 0 end.

Lemma dict_put_wf k o t : dict_wf t -> dict_wf (dict_put k o t).
Proof. destruct o; [apply dict_set_wf|apply dict_del_wf]. Qed.

Lemma dict_get_put k k' o t : dict_get k (dict_put k' o t) = if decide (k = k') then o else dict_get k t.
Proof. destruct o; [apply dict_get_set|apply dict_get_del]. Qed.

Lemma sum_over_put w k o t :
  dict_wf t -> sum_over w (dict_put k o t) = (sum_over w t - weight w (dict_get k t) + weight w o)%Z.
Proof.
  intros Ht. destruct (dict_get k t) as [v|] eqn:Hg, o as [v'|]; cbn [dict_put weight].
  - rewrite (sum_over_set w k v) by done. lia.
  - rewrite (sum_over_del w k v t) by done. lia.
  - rewrite dict_set_new, sum_over_snoc by done. lia.
  - rewrite dict_del_notin by done. lia.
Qed.

(** Changing the weight of the value of one key. *)
Lemma sum_over_change w w' k v t :
  dict_wf t -> dict_get k t = Some v -> (forall k', dict_get k' t = Some v -> k' = k) ->
  (forall v', v' <> v -> w' v' = w v') -> sum_over w' t = (sum_over w t - w v + w' v)%Z.
Proof.
  intros Ht Hg Hinj Hw. rewrite !(sum_over_del _ k v t) by done.
  rewrite (sum_over_ext w' w (dict_del k t)); [lia|].
  intros k' v' Hin. apply Hw. intros ->.
  assert (dict_wf (dict_del k t)) as Ht' by by apply dict_del_wf.
  apply elem_of_dict_get in Hin; [|done]. rewrite dict_get_del in Hin.
  case_decide as Hd; [done|]. by apply Hinj in Hin.
Qed.
End sums.
