(* ===== verification/Semaphore.v ===== *)
(** [asyncio.Semaphore] as the fetch engine uses it: a counter and the queue of
    the tasks that wait for it.  A task that asks for the semaphore takes it at
    once or waits its turn; a release wakes the first waiter, which holds its
    share from then on, although it only runs later and may be cancelled before
    it does. *)
From S2P Require Import Prelude PyDict.

(** The future of a waiting task: not done, or done because the semaphore was
    handed to it.  A cancelled future takes no part any more and is left out. *)
Variant waiter : Type := Pending | Woken.

#[global] Instance waiter_eq_dec : EqDecision waiter.
Proof. solve_decision. Defined.

(** The counter, and the waiting tasks in the order they came. *)
Record semaphore : Type := Semaphore { value : Z; waiters : list (nat * waiter) }.

Definition locked (s : semaphore) : bool := (value s =? 0)%Z || negb (bool_decide (waiters s = [])).

(** [acquire] up to its wait: whether the task has the semaphore at once. *)
Definition acquire (id : nat) (s : semaphore) : bool * semaphore :=
  if locked s then (false, Semaphore (value s) (waiters s ++ [(id, Pending)]))
  else (true, Semaphore (value s - 1) (waiters s)).

(** [_wake_up_next] *)
Fixpoint wake_first (ws : list (nat * waiter)) : option (list (nat * waiter)) :=
  match ws with
  | [] => None
  | (id, Pending) :: ws => Some ((id, Woken) :: ws)
  | w :: ws => cons w <$> wake_first ws
  end.
Definition wake_up_next (s : semaphore) : semaphore :=
  match wake_first (waiters s) with
  | Some ws => Semaphore (value s - 1) ws
  | None => s
  end.

Definition release (s : semaphore) : semaphore := wake_up_next (Semaphore (value s + 1) (waiters s)).

Definition remove_waiter (id : nat) (s : semaphore) : semaphore :=
  Semaphore (value s) (dict_del id (waiters s)).

(** [acquire] after its wait. *)
Definition acquired (id : nat) (s : semaphore) : semaphore :=
  let s := remove_waiter id s in
  if (0 <? value s)%Z then wake_up_next s else s.

(** [acquire] when its wait is cancelled: a future that is not done is cancelled,
    a share that was handed over is passed on. *)
Definition leave_queue (id : nat) (s : semaphore) : semaphore :=
  match dict_get id (waiters s) with
  | Some Woken => release (remove_waiter id s)
  | _ => remove_waiter id s
  end.

(** ** Invariant *)

Definition is_woken (w : waiter) : Z := match w with Woken => 1 | Pending => 0 end.
Definition shares (s : semaphore) : Z := (value s + sum_over is_woken (waiters s))%Z.
Definition pending (s : semaphore) : Prop := exists id, dict_get id (waiters s) = Some Pending.
Definition woken (s : semaphore) : Prop := exists id, dict_get id (waiters s) = Some Woken.

(** The counter is not negative, and a task waits for a free semaphore only while
    another was handed it: that one wakes the next when it runs. *)
Definition semaphore_ok (s : semaphore) : Prop :=
  (0 <= value s)%Z /\ dict_wf (waiters s) /\ ((0 < value s)%Z -> pending s -> woken s).

Lemma wake_first_Some ws ws' :
  wake_first ws = Some ws' -> ws'.*1 = ws.*1 /\ sum_over is_woken ws' = (sum_over is_woken ws + 1)%Z /\
  exists id, (id, Pending) ∈ ws /\ (id, Woken) ∈ ws' /\
    forall id', id' <> id -> dict_get id' ws' = dict_get id' ws.
Proof.
  revert ws'. induction ws as [|[id [|]] ws IH]; intros ws'; cbn [wake_first]; [done| |].
  - intros [= <-]. split; [done|]. split; [rewrite !sum_over_cons; cbn; lia|]. exists id. split; [left|].
    split; [left|]. intros id' Hne. simpl. by rewrite !decide_False.
  - intros (ws1 & Hw & ->)%fmap_Some. destruct (IH ws1 Hw) as (Hk & Hs & id' & H1 & H2 & H3).
    split; [csimpl; by rewrite Hk|]. split; [rewrite !sum_over_cons; lia|]. exists id'. split; [by right|].
    split; [by right|]. intros id'' Hne. simpl. case_decide; [done|auto].
Qed.

Lemma wake_first_None ws id : wake_first ws = None -> (id, Pending) ∉ ws.
Proof.
  induction ws as [|[id' [|]] ws IH]; cbn [wake_first]; [intros _; apply not_elem_of_nil|done|].
  intros Hn%fmap_None. rewrite not_elem_of_cons. split; [congruence|auto].
Qed.

Lemma wake_up_next_ok s :
  (0 < value s)%Z -> dict_wf (waiters s) ->
  semaphore_ok (wake_up_next s) /\ shares (wake_up_next s) = shares s /\
  (waiters (wake_up_next s)).*1 = (waiters s).*1.
Proof.
  intros Hv Hwf. unfold wake_up_next. destruct (wake_first (waiters s)) as [ws|] eqn:Hw.
  - destruct (wake_first_Some _ _ Hw) as (Hk & Hs & id & _ & Hin & _).
    assert (dict_wf ws) as Hwf' by (unfold dict_wf; by rewrite Hk).
    split; [|unfold shares; cbn [value waiters]; rewrite Hs; split; [lia|done]].
    split; cbn [value waiters]; [lia|]. split; [done|]. intros _ _. exists id. by apply elem_of_dict_get.
  - split; [|done]. split; [lia|]. split; [done|]. intros _ [id Hp%dict_get_elem_of].
    by apply (wake_first_None _ id) in Hw.
Qed.

Lemma acquire_ok id s :
  semaphore_ok s -> dict_get id (waiters s) = None ->
  semaphore_ok (acquire id s).2 /\
  if (acquire id s).1 then shares (acquire id s).2 = (shares s - 1)%Z /\ waiters (acquire id s).2 = waiters s
  else shares (acquire id s).2 = shares s /\ waiters (acquire id s).2 = waiters s ++ [(id, Pending)].
Proof.
  intros (Hv & Hwf & Hw) Hid. unfold acquire. destruct (locked s) eqn:Hl; cbn [fst snd value waiters].
  - split; [|split; [unfold shares; cbn [value waiters]; rewrite sum_over_snoc; cbn; lia|done]].
    split; [done|]. cbn [value waiters]. split; [rewrite <-dict_set_new by done; by apply dict_set_wf|]. intros Hp _.
    assert (woken s) as [id' Hid'].
    { unfold locked in Hl. rewrite (proj2 (Z.eqb_neq _ _)) in Hl by lia.
      apply negb_true_iff, bool_decide_eq_false in Hl. destruct (waiters s) as [|[i w] ws] eqn:Hs; [done|].
      destruct w; [|exists i; rewrite Hs; simpl; by rewrite decide_True].
      apply Hw; [done|]. exists i. rewrite Hs. simpl. by rewrite decide_True. }
    exists id'. cbn [waiters]. by rewrite dict_get_app, Hid'.
  - unfold locked in Hl. apply orb_false_iff in Hl as [Hv0%Z.eqb_neq Hn%negb_false_iff%bool_decide_eq_true].
    split; [|unfold shares; cbn [value waiters]; split; [lia|done]].
    split; cbn [value waiters]; [lia|]. split; [done|]. intros _ [i Hi]. cbn in Hi. by rewrite Hn in Hi.
Qed.

Lemma release_ok s :
  semaphore_ok s -> semaphore_ok (release s) /\ shares (release s) = (shares s + 1)%Z /\
  (waiters (release s)).*1 = (waiters s).*1.
Proof.
  intros (Hv & Hwf & _). unfold release.
  destruct (wake_up_next_ok (Semaphore (value s + 1) (waiters s))) as (H1 & H2 & H3); [cbn; lia|done|].
  split; [done|]. split; [|done]. rewrite H2. unfold shares. cbn [value waiters]. lia.
Qed.

Lemma shares_remove id w s :
  dict_wf (waiters s) -> dict_get id (waiters s) = Some w ->
  shares (remove_waiter id s) = (shares s - is_woken w)%Z.
Proof. intros Hwf Hw. unfold shares, remove_waiter. cbn [value waiters]. rewrite (sum_over_del _ id w _ Hwf Hw). lia. Qed.

Lemma acquired_ok id s :
  semaphore_ok s -> dict_get id (waiters s) = Some Woken ->
  semaphore_ok (acquired id s) /\ shares (acquired id s) = (shares s - 1)%Z /\
  (waiters (acquired id s)).*1 = filter (fun x => x <> id) (waiters s).*1.
Proof.
  intros (Hv & Hwf & _) Hw. unfold acquired. pose proof (shares_remove id Woken s Hwf Hw) as Hs.
  assert (dict_wf (waiters (remove_waiter id s))) as Hwf' by (by apply dict_del_wf).
  rewrite <-dict_del_keys. change (dict_del id (waiters s)) with (waiters (remove_waiter id s)).
  destruct (Z.ltb_spec 0 (value (remove_waiter id s))) as [Hp|Hn].
  - destruct (wake_up_next_ok _ Hp Hwf') as (H1 & H2 & H3). split; [done|]. split; [|done].
    rewrite H2, Hs. cbn [is_woken]. lia.
  - split; [|split; [rewrite Hs; cbn [is_woken]; lia|done]]. split; [done|]. split; [done|]. lia.
Qed.

Lemma leave_queue_ok id s :
  semaphore_ok s ->
  semaphore_ok (leave_queue id s) /\ shares (leave_queue id s) = shares s /\
  (waiters (leave_queue id s)).*1 = filter (fun x => x <> id) (waiters s).*1.
Proof.
  intros Hs. pose proof Hs as (Hv & Hwf & Hp). unfold leave_queue. rewrite <-dict_del_keys.
  assert (dict_wf (waiters (remove_waiter id s))) as Hwf' by (by apply dict_del_wf).
  destruct (dict_get id (waiters s)) as [[|]|] eqn:Hw.
  - pose proof (shares_remove id Pending s Hwf Hw) as Hsh. cbn [is_woken] in Hsh.
    split; [|split; [lia|done]]. split; [done|]. split; [done|]. intros Hpos [i Hi]. cbn [remove_waiter waiters] in Hi.
    rewrite dict_get_del in Hi. case_decide; [done|]. destruct Hp as [j Hj]; [done|by exists i|].
    exists j. cbn [remove_waiter waiters]. rewrite dict_get_del. case_decide; [congruence|done].
  - pose proof (shares_remove id Woken s Hwf Hw) as Hsh. cbn [is_woken] in Hsh.
    unfold release. destruct (wake_up_next_ok (Semaphore (value (remove_waiter id s) + 1) (waiters (remove_waiter id s))))
      as (H1 & H2 & H3); [cbn; lia|done|]. split; [done|]. split; [|done]. rewrite H2. unfold shares in *.
    cbn [value waiters]. lia.
  - assert (remove_waiter id s = s) as -> by (unfold remove_waiter; rewrite dict_del_notin by done; by destruct s).
    unfold remove_waiter. by rewrite dict_del_notin.
Qed.
