(* ===== verification/Bencode.v ===== *)
(** * bencode_codec.py

    The bencode encoder and decoder.  Values are Python values ([pyval]); the
    decoder runs on a byte string and an index, as the code does.

    Two limits of the interpreter are part of the model: [depth] is the number
    of nested [decode_value_at] calls the recursion limit still allows (none
    left is a [RecursionError]), and conversions between integers and decimal
    text refuse more than [INT_MAX_STR_DIGITS] digits with a [ValueError]. *)
From S2P Require Import Prelude.
From S2P Require Import PyDict.
From Stdlib Require DecimalN DecimalFacts.

(** ** Python values *)

(** A [str]: its code points. *)
Abbreviation pystr := (list Z) (only parsing).

Inductive pykey : Type :=
  | KBytes (b : bytes)
  | KStr (s : list Z)
  | KOther.

#[warnings="-register-all"]
Inductive pyval : Type :=
  | PNone
  | PBool (b : bool)
  | PInt (z : Z)
  | PBytes (b : bytes)
  | PStr (s : list Z)
  | PList (l : list pyval)
  | PDict (d : list (pykey * pyval))
  | POther.

#[global] Instance pykey_eq_dec : EqDecision pykey.
Proof. solve_decision. Defined.

(** [d.get(key)] for a bytes key. *)
Definition py_get (d : list (pykey * pyval)) (key : bytes) : option pyval :=
  dict_get (KBytes key) d.

(** ** Text: UTF-8 and decimal digits *)

Definition is_surrogate (c : Z) : bool := ((0xD800 <=? c) && (c <=? 0xDFFF))%Z.

Definition utf8_char (c : Z) : bytes :=
  (if c <? 0x80 then [z2b c]
   else if c <? 0x800 then [z2b (0xC0 + c / 64); z2b (0x80 + c mod 64)]
   else if c <? 0x10000 then
     [z2b (0xE0 + c / 4096); z2b (0x80 + c / 64 mod 64); z2b (0x80 + c mod 64)]
   else [z2b (0xF0 + c / 262144); z2b (0x80 + c / 4096 mod 64);
         z2b (0x80 + c / 64 mod 64); z2b (0x80 + c mod 64)])%Z.

Definition utf8_bytes (s : list Z) : bytes := concat (utf8_char <$> s).

(** [s.encode("utf-8")]: surrogates raise a [UnicodeEncodeError], which is a
    [ValueError]. *)
Definition utf8_encode (s : list Z) : res bytes :=
  if existsb is_surrogate s then Raise (ValueError "surrogates not allowed")
  else Ok (utf8_bytes s).

Definition INT_MAX_STR_DIGITS : Z := 4300.

Fixpoint uint_bytes (u : Decimal.uint) : bytes :=
  match u with
  | Decimal.Nil => []
  | Decimal.D0 u => "0"%byte :: uint_bytes u
  | Decimal.D1 u => "1"%byte :: uint_bytes u
  | Decimal.D2 u => "2"%byte :: uint_bytes u
  | Decimal.D3 u => "3"%byte :: uint_bytes u
  | Decimal.D4 u => "4"%byte :: uint_bytes u
  | Decimal.D5 u => "5"%byte :: uint_bytes u
  | Decimal.D6 u => "6"%byte :: uint_bytes u
  | Decimal.D7 u => "7"%byte :: uint_bytes u
  | Decimal.D8 u => "8"%byte :: uint_bytes u
  | Decimal.D9 u => "9"%byte :: uint_bytes u
  end.

Definition digit_cons (b : byte) (u : Decimal.uint) : Decimal.uint :=
  match (b2z b - 48)%Z with
  | 0%Z => Decimal.D0 u | 1%Z => Decimal.D1 u | 2%Z => Decimal.D2 u | 3%Z => Decimal.D3 u | 4%Z => Decimal.D4 u
  | 5%Z => Decimal.D5 u | 6%Z => Decimal.D6 u | 7%Z => Decimal.D7 u | 8%Z => Decimal.D8 u | _ => Decimal.D9 u
  end.

Definition bytes_uint (l : bytes) : Decimal.uint := foldr digit_cons Decimal.Nil l.

Definition digits_of (n : N) : bytes := uint_bytes (N.to_uint n).
Definition value_of (l : bytes) : N := N.of_uint (bytes_uint l).

(** [str(value).encode("ascii")] *)
Definition str_int (value : Z) : res bytes :=
  let digits := digits_of (Z.abs_N value) in
  raise_if (INT_MAX_STR_DIGITS <? Z.of_nat (length digits))%Z
    (ValueError "Exceeds the limit for integer string conversion") ;;
  mret ((if (value <? 0)%Z then bs "-" else []) ++ digits).

(** [int(text)] for an optional minus sign and decimal digits. *)
Definition py_int (text : bytes) : res Z :=
  let negative := bool_decide (take 1 text = bs "-") in
  let digits := if negative then drop 1 text else text in
  raise_if (negb (isdigit digits)) (ValueError "invalid literal for int()") ;;
  raise_if (INT_MAX_STR_DIGITS <? Z.of_nat (length digits))%Z
    (ValueError "Exceeds the limit for integer string conversion") ;;
  let value := Z.of_N (value_of digits) in
  mret (if negative then (- value)%Z else value).

(** ** Encoder *)

Definition is_plain_int (value : pyval) : bool :=
  match value with PInt _ => true | _ => false end.

Definition encode_int (value : Z) : res bytes :=
  digits ← str_int value;
  let result := bs "i" ++ digits ++ bs "e" in
  assert_ (bool_decide (take 1 result = bs "i") && bool_decide (last result = Some ("e"%byte))) ;;
  mret result.

Definition encode_bytes (value : bytes) : res bytes :=
  length_text ← str_int (Z.of_nat (length value));
  mret (length_text ++ bs ":" ++ value).

(** The generator of [encode_list] encodes one item at a time and stops at the
    first that raises, so the items come as the list of their results. *)
Definition encode_list (items : list (res bytes)) : res bytes :=
  parts ← sequence items;
  let result := bs "l" ++ concat parts ++ bs "e" in
  assert_ (bool_decide (take 1 result = bs "l") && bool_decide (last result = Some ("e"%byte))) ;;
  mret result.

Definition is_text_key (key : pykey) : bool :=
  match key with KBytes _ | KStr _ => true | KOther => false end.

(** [key.encode("utf-8") if isinstance(key, str) else key] *)
Definition key_bytes (key : pykey) : res bytes :=
  match key with
  | KBytes b => Ok b
  | KStr s => utf8_encode s
  | KOther => Raise AssertionError
  end.

(** The dictionary comprehension that normalizes the keys: a later value of the
    same normalized key replaces an earlier one. *)
Definition dict_of {K A} `{EqDecision K} (items : list (K * A)) : list (K * A) :=
  foldl (fun d kv => dict_set kv.1 kv.2 d) [] items.

Definition key_leb {A} (x y : bytes * A) : bool := bytes_leb x.1 y.1.

(** The values of the dictionary come as the results of encoding them: the code
    encodes a value only when its key is reached in sorted order, and never
    when a later key replaced it. *)
Definition encode_dict (values : list (pykey * res bytes)) : res bytes :=
  assert_ (forallb (fun kv => is_text_key kv.1) values) ;;
  keys ← sequence ((fun kv => key_bytes kv.1) <$> values);
  let normalized := dict_of (zip keys values.*2) in
  parts ← sequence ((fun kv : bytes * res bytes =>
      k ← encode_bytes kv.1; v ← kv.2; mret (k ++ v)) <$> sort_by key_leb normalized);
  let result := bs "d" ++ concat parts ++ bs "e" in
  assert_ (bool_decide (take 1 result = bs "d") && bool_decide (last result = Some ("e"%byte))) ;;
  mret result.

Fixpoint encode_bencode (value : pyval) : res bytes :=
  result ← match value with
    | PNone => Raise AssertionError
    | PBool _ => Raise TypeError
    | PInt z => encode_int z
    | PBytes b => encode_bytes b
    | PStr s => u ← utf8_encode s; encode_bytes u
    | PList l => encode_list (map encode_bencode l)
    | PDict d => encode_dict (map (fun kv => (kv.1, encode_bencode kv.2)) d)
    | POther => Raise TypeError
    end;
  assert_ (bool_decide (2 <= length result)) ;;
  mret result.

(** ** Decoder *)

Definition byte_at (data : bytes) (index : nat) (c : string) : bool :=
  bool_decide (slice data index (S index) = bs c).

Definition decode_int_at (data : bytes) (index : nat) : res (Z * nat) :=
  assert_ (bool_decide (index < length data) && byte_at data index "i") ;;
  match find_from ("e"%byte) data (index + 1) with
  | None => Raise (ValueError "unterminated integer")
  | Some end_ =>
      let text := slice data (index + 1) end_ in
      let digits := if bool_decide (take 1 text = bs "-") then drop 1 text else text in
      raise_if (negb (isdigit digits)
                || (bool_decide (1 < length digits) && bool_decide (take 1 digits = bs "0"))
                || bool_decide (text = bs "-0"))
        (ValueError "invalid integer") ;;
      value ← py_int text;
      let next_index := end_ + 1 in
      assert_ (bool_decide (index < next_index)) ;;
      mret (value, next_index)
  end.

Definition decode_bytes_at (data : bytes) (index : nat) : res (bytes * nat) :=
  assert_ (bool_decide (index < length data) && isdigit (slice data index (index + 1))) ;;
  match find_from ":"%byte data index with
  | None => Raise (ValueError "missing ':'")
  | Some colon =>
      let length_text := slice data index colon in
      raise_if (negb (isdigit length_text)) (ValueError "invalid string length") ;;
      len ← py_int length_text;
      let start := colon + 1 in
      raise_if (Z.of_nat (length data) <? Z.of_nat start + len)%Z (ValueError "truncated string") ;;
      let next_index := start + Z.to_nat len in
      let value := slice data start next_index in
      assert_ (Z.of_nat (length value) =? len)%Z ;;
      mret (value, next_index)
  end.

(** The two [while True] loops.  Every turn advances the position, so
    [length data] turns are always enough ([decode_value_at_total]). *)
Fixpoint list_loop (dv : nat -> res (pyval * nat)) (data : bytes) (fuel : nat)
    (items : list pyval) (position : nat) : res (list pyval * nat) :=
  match fuel with
  | O => Raise Diverge
  | S fuel' =>
      if bool_decide (length data <= position) then Raise (ValueError "unterminated list")
      else if byte_at data position "e" then Ok (items, position)
      else '(item, position') ← dv position;
           list_loop dv data fuel' (items ++ [item]) position'
  end.

Fixpoint dict_loop (dv : nat -> res (pyval * nat)) (data : bytes) (fuel : nat)
    (items : list (pykey * pyval)) (position : nat)
    : res (list (pykey * pyval) * nat) :=
  match fuel with
  | O => Raise Diverge
  | S fuel' =>
      if bool_decide (length data <= position) then Raise (ValueError "unterminated dict")
      else if byte_at data position "e" then Ok (items, position)
      else if negb (isdigit (slice data position (position + 1)))
        then Raise (ValueError "dict key is not a string")
      else '(key, position') ← decode_bytes_at data position;
           if bool_decide (length data <= position') then Raise (ValueError "dict value missing")
           else '(value, position'') ← dv position';
                dict_loop dv data fuel' (dict_set (KBytes key) value items) position''
  end.

Definition decode_list_at (dv : nat -> res (pyval * nat)) (data : bytes) (index : nat)
    : res (list pyval * nat) :=
  assert_ (bool_decide (index < length data) && byte_at data index "l") ;;
  '(items, position) ← list_loop dv data (S (length data)) [] (index + 1);
  let next_index := position + 1 in
  assert_ (bool_decide (index < next_index)) ;;
  mret (items, next_index).

Definition decode_dict_at (dv : nat -> res (pyval * nat)) (data : bytes) (index : nat)
    : res (list (pykey * pyval) * nat) :=
  assert_ (bool_decide (index < length data) && byte_at data index "d") ;;
  '(items, position) ← dict_loop dv data (S (length data)) [] (index + 1);
  mret (items, position + 1).

Fixpoint decode_value_at (depth : nat) (data : bytes) (index : nat) : res (pyval * nat) :=
  match depth with
  | O => Raise RecursionError
  | S depth' =>
      assert_ (bool_decide (index < length data)) ;;
      let prefix := slice data index (index + 1) in
      '(value, next_index) ←
        (if bool_decide (prefix = bs "i") then
           '(z, n) ← decode_int_at data index; mret (PInt z, n)
         else if bool_decide (prefix = bs "l") then
           '(l, n) ← decode_list_at (decode_value_at depth' data) data index; mret (PList l, n)
         else if bool_decide (prefix = bs "d") then
           '(d, n) ← decode_dict_at (decode_value_at depth' data) data index; mret (PDict d, n)
         else if isdigit prefix then
           '(b, n) ← decode_bytes_at data index; mret (PBytes b, n)
         else Raise (ValueError "unknown bencode prefix"));
      assert_ (bool_decide (index < next_index) && bool_decide (next_index <= length data)) ;;
      mret (value, next_index)
  end.

Definition decode_bencode (depth : nat) (data : bytes) : res pyval :=
  raise_if (bool_decide (length data = 0)) (ValueError "empty input") ;;
  '(value, next_index) ← decode_value_at depth data 0;
  raise_if (negb (bool_decide (next_index = length data))) (ValueError "trailing data") ;;
  mret value.

(** ** Specification vocabulary *)

(** The value a decoder gives back for an encoded value: text becomes its UTF-8
    bytes, dictionaries are sorted by key with the last value of each key. *)
Definition raw_key (key : pykey) : bytes :=
  match key with KBytes b => b | KStr s => utf8_bytes s | KOther => [] end.

Fixpoint canonical (v : pyval) : pyval :=
  match v with
  | PStr s => PBytes (utf8_bytes s)
  | PList l => PList (map canonical l)
  | PDict d =>
      PDict ((fun kv => (KBytes kv.1, kv.2)) <$>
             sort_by key_leb (dict_of (map (fun kv => (raw_key kv.1, canonical kv.2)) d)))
  | _ => v
  end.

(** The nesting depth of a value: the number of [decode_value_at] calls on the
    stack while its innermost part is decoded. *)
Fixpoint nesting (v : pyval) : nat :=
  match v with
  | PList l => S (foldr max 0 (map nesting l))
  | PDict d => S (foldr max 0 (map (fun kv => nesting kv.2) d))
  | _ => 1
  end.

(** What a decoded value looks like: integers, byte strings, lists and
    dictionaries with distinct byte-string keys. *)
Definition is_bytes_key (key : pykey) : bool :=
  match key with KBytes _ => true | _ => false end.

Fixpoint is_decoded (v : pyval) : bool :=
  match v with
  | PInt _ | PBytes _ => true
  | PList l => forallb is_decoded l
  | PDict d => forallb (fun kv => is_bytes_key kv.1 && is_decoded kv.2) d
               && bool_decide (NoDup d.*1)
  | _ => false
  end.

Example decode_example :
  decode_bencode 10 (bs "d1:ai-42e1:bl4:spamee") =
  Ok (PDict [(KBytes (bs "a"), PInt (-42)); (KBytes (bs "b"), PList [PBytes (bs "spam")])]).
Proof. reflexivity. Qed.

Example encode_example :
  encode_bencode (PDict [(KStr [98%Z], PList [PBytes (bs "spam")]); (KBytes (bs "a"), PInt (-42))]) =
  Ok (bs "d1:ai-42e1:bl4:spamee").
Proof. reflexivity. Qed.

(** ** Decimal text *)

Lemma uint_bytes_digits u : forallb is_digit (uint_bytes u) = true.
Proof. induction u; simpl; auto. Qed.

Lemma bytes_uint_bytes u : bytes_uint (uint_bytes u) = u.
Proof. induction u; simpl; f_equal; auto. Qed.

Lemma uint_bytes_uint l : forallb is_digit l = true -> uint_bytes (bytes_uint l) = l.
Proof.
  induction l as [|b l IH]; simpl; [done|]. rewrite andb_true_iff.
  unfold is_digit at 1. intros [Hb Hl]. specialize (IH Hl).
  assert (48 <= b2z b <= 57)%Z as Hr by lia.
  assert (uint_bytes (digit_cons b (bytes_uint l)) = b :: uint_bytes (bytes_uint l)) as ->.
  { unfold digit_cons. rewrite <-(z2b_b2z b) at 2.
    replace (b2z b) with (b2z b - 48 + 48)%Z by lia.
    assert (0 <= b2z b - 48 <= 9)%Z as Hd by lia. revert Hd.
    generalize (b2z b - 48)%Z. intros d Hd.
    assert (d = 0 \/ d = 1 \/ d = 2 \/ d = 3 \/ d = 4 \/ d = 5 \/ d = 6 \/ d = 7 \/ d = 8 \/ d = 9)%Z as Hc by lia.
    by destruct_or!; subst d. }
  by rewrite IH.
Qed.

Lemma value_of_digits n : value_of (digits_of n) = n.
Proof. unfold value_of, digits_of. rewrite bytes_uint_bytes. apply DecimalN.Unsigned.of_to. Qed.

Lemma to_uint_unorm n : Decimal.unorm (N.to_uint n) = N.to_uint n.
Proof. by rewrite <-DecimalN.Unsigned.to_of, DecimalN.Unsigned.of_to. Qed.

Lemma nzhead_no_zero u v : Decimal.nzhead u <> Decimal.D0 v.
Proof. induction u; simpl; try done. Qed.

Lemma digits_of_no_leading_zero n : take 1 (digits_of n) = bs "0" -> digits_of n = bs "0".
Proof.
  unfold digits_of. rewrite <-to_uint_unorm. unfold Decimal.unorm.
  destruct (Decimal.nzhead (N.to_uint n)) eqn:Hz; simpl; try done.
  exfalso. by eapply nzhead_no_zero.
Qed.

Lemma digits_of_nonempty n : digits_of n <> [].
Proof.
  unfold digits_of. rewrite <-to_uint_unorm. unfold Decimal.unorm.
  by destruct (Decimal.nzhead (N.to_uint n)).
Qed.

Lemma isdigit_digits_of n : isdigit (digits_of n) = true.
Proof.
  unfold isdigit. rewrite bool_decide_eq_false_2 by apply digits_of_nonempty.
  apply uint_bytes_digits.
Qed.

Lemma digits_of_value l :
  isdigit l = true -> (take 1 l = bs "0" -> length l <= 1) -> digits_of (value_of l) = l.
Proof.
  unfold isdigit. rewrite andb_true_iff, negb_true_iff, bool_decide_eq_false.
  intros [Hne Hd] Hz. unfold digits_of, value_of.
  rewrite DecimalN.Unsigned.to_of.
  rewrite <-(uint_bytes_uint l Hd) in Hz, Hne |- * at 2.
  destruct (bytes_uint l) as [|u|u|u|u|u|u|u|u|u|u]; simpl in *; try done.
  destruct u; simpl in *; try done; specialize (Hz eq_refl); lia.
Qed.

Lemma isdigit_first l : isdigit l = true -> exists b l', l = b :: l' /\ is_digit b = true.
Proof.
  unfold isdigit. destruct l as [|b l]; [done|]. simpl. rewrite andb_true_iff.
  intros [Hb _]. eauto.
Qed.

Lemma isdigit_take1 l : isdigit l = true -> isdigit (take 1 l) = true.
Proof. intros (b & l' & -> & Hb)%isdigit_first. unfold isdigit. simpl. by rewrite Hb. Qed.

Lemma isdigit_not_minus l : isdigit l = true -> take 1 l <> bs "-".
Proof. intros (b & l' & -> & Hb)%isdigit_first [= ->]. done. Qed.

Lemma str_int_Ok z t : str_int z = Ok t ->
  t = (if (z <? 0)%Z then bs "-" else []) ++ digits_of (Z.abs_N z) /\
  (Z.of_nat (length (digits_of (Z.abs_N z))) <= INT_MAX_STR_DIGITS)%Z.
Proof.
  unfold str_int. intros (u & Hu%raise_if_Ok & [= <-])%bind_Ok. split; [done|lia].
Qed.

(** Printing then reading an integer gives it back. *)
Lemma py_int_str_int z t : str_int z = Ok t -> py_int t = Ok z.
Proof.
  intros [-> Hlen]%str_int_Ok. unfold py_int.
  pose proof (isdigit_digits_of (Z.abs_N z)) as Hd.
  destruct (Z.ltb_spec z 0) as [Hz|Hz]; simpl.
  - rewrite drop_0, Hd, (proj2 (Z.ltb_ge _ _)) by done. simpl.
    rewrite value_of_digits. f_equal. lia.
  - rewrite bool_decide_eq_false_2 by by apply isdigit_not_minus.
    rewrite Hd, (proj2 (Z.ltb_ge _ _)) by done. simpl.
    rewrite value_of_digits. f_equal. lia.
Qed.

(** ** The decoder always answers *)

Definition decode_fails (depth room : nat) (e : exn) : Prop :=
  (exists r, e = ValueError r) \/ (e = RecursionError /\ depth <= room).

Lemma decode_fails_value depth room r : decode_fails depth room (ValueError r).
Proof. left. eauto. Qed.
#[export] Hint Resolve decode_fails_value : dht.

Lemma py_int_returns text E :
  (forall r, E (ValueError r)) -> returns (py_int text) (fun _ => True) E.
Proof.
  intros HE. unfold py_int. cbv zeta. generalize (bool_decide (take 1 text = bs "-")).
  intros negative. apply returns_bind. unfold raise_if at 1.
  destruct (negb _); [apply HE|]. apply returns_bind. unfold raise_if.
  by destruct (_ <? _)%Z; [apply HE|].
Qed.

Lemma py_int_nonneg text z : isdigit text = true -> py_int text = Ok z -> (0 <= z)%Z.
Proof.
  intros Hd. unfold py_int. rewrite bool_decide_eq_false_2 by by apply isdigit_not_minus.
  rewrite Hd. simpl. unfold raise_if. destruct (_ <? _)%Z; simpl; [done|].
  intros [= <-]. lia.
Qed.

Lemma decode_int_at_returns data index E :
  index < length data -> byte_at data index "i" = true -> (forall r, E (ValueError r)) ->
  returns (decode_int_at data index) (fun '(_, n) => index < n <= length data) E.
Proof.
  intros Hi Hb HE. unfold decode_int_at.
  rewrite bool_decide_eq_true_2, Hb by done. simpl.
  destruct (find_from _ _ _) as [e|] eqn:He; [|apply HE].
  apply find_from_Some in He as [He _].
  apply returns_bind. unfold raise_if. destruct (_ || _); [apply HE|].
  apply returns_bind. eapply returns_mono; [by apply py_int_returns| |done].
  intros z _. rewrite bool_decide_eq_true_2 by lia. simpl. lia.
Qed.

Lemma decode_bytes_at_returns data index E :
  index < length data -> isdigit (slice data index (index + 1)) = true ->
  (forall r, E (ValueError r)) ->
  returns (decode_bytes_at data index) (fun '(_, n) => index < n <= length data) E.
Proof.
  intros Hi Hb HE. unfold decode_bytes_at.
  rewrite bool_decide_eq_true_2, Hb by done. simpl.
  destruct (find_from _ _ _) as [c|] eqn:Hc; [|apply HE].
  apply find_from_Some in Hc as [Hc _].
  apply returns_bind. unfold raise_if at 1. destruct (isdigit (slice data index c)) eqn:Hd;
    simpl; [|apply HE].
  destruct (py_int (slice data index c)) as [len|e] eqn:Hlen.
  - simpl. pose proof (py_int_nonneg _ _ Hd Hlen).
    unfold raise_if. destruct (_ <? _)%Z eqn:Ht; simpl; [apply HE|].
    apply Z.ltb_ge in Ht. rewrite length_slice. bools. lia.
  - simpl. pose proof (py_int_returns (slice data index c) E HE) as Hr.
    by rewrite Hlen in Hr.
Qed.

Section loops_total.
Context (dv : nat -> res (pyval * nat)) (data : bytes) (low : nat) (E : exn -> Prop).
Hypothesis dv_returns : forall p, low <= p < length data ->
  returns (dv p) (fun '(v, n) => is_decoded v = true /\ p < n <= length data) E.
Hypothesis E_value : forall r, E (ValueError r).

Lemma list_loop_returns fuel items position :
  low <= position -> length data - position < fuel -> forallb is_decoded items = true ->
  returns (list_loop dv data fuel items position)
    (fun '(l, p) => forallb is_decoded l = true /\ position <= p < length data) E.
Proof using dv_returns E_value.
  revert items position. induction fuel as [|fuel IH]; intros items position Hlow Hf Hit; [lia|].
  cbn [list_loop]. case_bool_decide; [apply E_value|].
  destruct (byte_at _ _ _); [simpl; split; [done|lia]|].
  apply returns_bind. eapply returns_mono; [apply dv_returns; lia| |done].
  intros [v n] [Hv Hn]. eapply returns_mono; [apply (IH _ n); [lia|lia|]| |done].
  - rewrite forallb_app, Hit. simpl. by rewrite Hv.
  - intros [l p] [? ?]. split; [done|lia].
Qed.

Lemma dict_items_set k v items :
  forallb (fun kv => is_bytes_key kv.1 && is_decoded kv.2) items = true ->
  is_decoded v = true ->
  forallb (fun kv => is_bytes_key kv.1 && is_decoded kv.2) (dict_set (KBytes k) v items) = true.
Proof.
  intros Hit Hv. induction items as [|[k' v'] items IH]; simpl in *; [by rewrite Hv|].
  apply andb_prop in Hit as [Hkv Hit]. case_decide; simpl.
  - by rewrite Hv, Hit, andb_true_r; apply andb_prop in Hkv as [-> _].
  - by rewrite Hkv, IH.
Qed.

Lemma dict_loop_returns fuel items position :
  low <= position -> length data - position < fuel ->
  is_decoded (PDict items) = true ->
  returns (dict_loop dv data fuel items position)
    (fun '(l, p) => is_decoded (PDict l) = true /\ position <= p < length data) E.
Proof using dv_returns E_value.
  revert items position. induction fuel as [|fuel IH]; intros items position Hlow Hf Hit; [lia|].
  cbn [dict_loop]. case_bool_decide; [apply E_value|].
  destruct (byte_at _ _ _); [simpl; split; [done|lia]|].
  destruct (isdigit _) eqn:Hd; simpl; [|apply E_value].
  apply returns_bind. eapply returns_mono; [apply decode_bytes_at_returns; [lia|done|done]| |done].
  intros [k n] Hn. case_bool_decide; [apply E_value|].
  apply returns_bind. eapply returns_mono; [apply dv_returns; lia| |done].
  intros [v n'] [Hv Hn'].
  eapply returns_mono; [apply (IH _ n'); [lia|lia|]| |done].
  - simpl in Hit |- *. apply andb_prop in Hit as [Hit Hnd].
    rewrite dict_items_set by done. simpl. apply bool_decide_eq_true_2.
    apply bool_decide_eq_true in Hnd. by apply dict_set_wf.
  - intros [l p] [? ?]. split; [done|lia].
Qed.
End loops_total.

(** At any index inside the data the decoder returns a bencode value and an
    index after it, or raises a [ValueError], or a [RecursionError] when the
    remaining recursion depth does not exceed the bytes left. *)
Lemma decode_value_at_returns depth data index :
  index < length data ->
  returns (decode_value_at depth data index)
    (fun '(v, n) => is_decoded v = true /\ index < n <= length data)
    (decode_fails depth (length data - index)).
Proof.
  revert index. induction depth as [|depth IH]; intros index Hi.
  { simpl. right. split; [done|lia]. }
  cbn [decode_value_at]. rewrite (bool_decide_eq_true_2 (index < length data)) by done. simpl.
  set (E := decode_fails (S depth) (length data - index)).
  assert (forall r, E (ValueError r)) as HE by (intros; apply decode_fails_value).
  assert (forall p, S index <= p < length data ->
    returns (decode_value_at depth data p)
      (fun '(v, n) => is_decoded v = true /\ p < n <= length data) E) as Hrec.
  { intros p Hp. eapply returns_mono; [apply IH; lia|done|].
    intros e [?|[-> ?]]; [by left|right; split; [done|lia]]. }
  apply returns_bind.
  eapply (returns_mono _ (fun '(v, n) => is_decoded v = true /\ index < n <= length data));
    [|intros [v n] [Hv Hn]; rewrite !bool_decide_eq_true_2 by lia; simpl; split; [done|lia]|done].
  case_bool_decide as Hpi; [|case_bool_decide as Hpl; [|case_bool_decide as Hpd;
    [|destruct (isdigit _) eqn:Hdig; [|apply HE]]]].
  - apply returns_bind. eapply returns_mono; [apply decode_int_at_returns; try done| |done].
    + unfold byte_at. rewrite <-Nat.add_1_r. by apply bool_decide_eq_true_2.
    + intros [z n] ?. simpl. auto.
  - apply returns_bind. unfold decode_list_at, byte_at at 1.
    rewrite Nat.add_1_r in Hpl |- *. bools.
    apply returns_bind. eapply returns_mono;
      [apply (list_loop_returns _ _ (S index)); [done|done|lia|lia|done]| |done].
    intros [l n] [Hl Hn]. rewrite bool_decide_eq_true_2 by lia. simpl. split; [done|lia].
  - apply returns_bind. unfold decode_dict_at, byte_at at 1.
    rewrite Nat.add_1_r in Hpd |- *. bools.
    apply returns_bind. eapply returns_mono;
      [apply (dict_loop_returns _ _ (S index)); [done|done|lia|lia|done]| |done].
    intros [l n] [Hl Hn]. split; [done|lia].
  - apply returns_bind. eapply returns_mono; [by apply decode_bytes_at_returns| |done].
    intros [b n] ?. simpl. auto.
Qed.

(** The exceptions of the decoder are those that its callers catch. *)
Lemma decode_bencode_raises depth data e :
  decode_bencode depth data = Raise e -> (exists r, e = ValueError r) \/ e = RecursionError.
Proof.
  unfold decode_bencode, raise_if at 1. case_bool_decide as Hl; [intros [= <-]; left; eauto|].
  cbn [mbind res_bind]. pose proof (decode_value_at_returns depth data 0) as Hr.
  destruct (decode_value_at depth data 0) as [[v n]|e']; cbn [mbind res_bind].
  - unfold raise_if. destruct (negb _); [intros [= <-]; left; eauto|done].
  - intros [= <-]. destruct Hr as [?|[? _]]; [lia|by left|by right].
Qed.

Lemma decode_bencode_decoded depth data v : decode_bencode depth data = Ok v -> is_decoded v = true.
Proof.
  unfold decode_bencode, raise_if at 1. case_bool_decide as Hl; [done|]. cbn [mbind res_bind].
  pose proof (decode_value_at_returns depth data 0) as Hr.
  destruct (decode_value_at depth data 0) as [[v' n]|e']; cbn [mbind res_bind]; [|done].
  unfold raise_if. destruct (negb _); [done|]. intros [= <-]. apply Hr. lia.
Qed.

(** ** Values of decoded dictionaries *)

Lemma decode_bytes_at_length data index b n :
  decode_bytes_at data index = Ok (b, n) -> length b <= length data.
Proof.
  unfold decode_bytes_at. intros (_ & _ & Hd)%bind_Ok. destruct (find_from _ _ _); [|done].
  apply bind_Ok in Hd as (_ & _ & Hd). apply bind_Ok in Hd as (len & _ & Hd).
  apply bind_Ok in Hd as (_ & _ & Hd). apply bind_Ok in Hd as (_ & _ & Hd).
  injection Hd as <- _. rewrite length_slice. lia.
Qed.

Lemma dict_loop_values dv data fuel items position l p kv :
  dict_loop dv data fuel items position = Ok (l, p) -> kv ∈ l ->
  kv ∈ items \/ exists q n, dv q = Ok (kv.2, n).
Proof.
  revert items position. induction fuel as [|fuel IH]; intros items position; [done|].
  cbn [dict_loop]. case_bool_decide; [done|]. destruct (byte_at _ _ _).
  { intros [= -> _]. by left. }
  destruct (negb _); [done|]. intros ([k n] & _ & Hd)%bind_Ok Hin. revert Hd.
  case_bool_decide; [done|]. intros ([v n'] & Hv & Hd)%bind_Ok.
  destruct (IH _ _ Hd Hin) as [[->|?]%elem_of_dict_set|?]; eauto.
Qed.

(** The decoder's answer at an index, by the first byte there. *)
Lemma decode_value_at_cases depth data index v n :
  decode_value_at (S depth) data index = Ok (v, n) ->
  (exists z m, decode_int_at data index = Ok (z, m) /\ v = PInt z) \/
  (exists l m, decode_list_at (decode_value_at depth data) data index = Ok (l, m) /\ v = PList l) \/
  (exists d m, decode_dict_at (decode_value_at depth data) data index = Ok (d, m) /\ v = PDict d) \/
  (exists b m, decode_bytes_at data index = Ok (b, m) /\ v = PBytes b).
Proof.
  cbn [decode_value_at]. intros (_ & _ & Hd)%bind_Ok. apply bind_Ok in Hd as ([v' n'] & Hv & Hd).
  apply bind_Ok in Hd as (_ & _ & Hd). injection Hd as <- _. revert Hv.
  case_bool_decide; [|case_bool_decide; [|case_bool_decide; [|destruct (isdigit _); [|done]]]];
    intros ([x m] & Hx & Hd)%bind_Ok; injection Hd as <- _; eauto 10.
Qed.

(** A byte string in a decoded dictionary is no longer than the data. *)
Lemma decode_bencode_entry_length depth data d key b :
  decode_bencode depth data = Ok (PDict d) -> py_get d key = Some (PBytes b) -> length b <= length data.
Proof.
  unfold decode_bencode. intros (_ & _ & Hd)%bind_Ok. apply bind_Ok in Hd as ([v n] & Hv & Hd).
  apply bind_Ok in Hd as (_ & _ & Hd). injection Hd as ->. destruct depth as [|depth]; [done|].
  apply decode_value_at_cases in Hv as [(?&?&_&?)|[(?&?&_&?)|[(d' & m & Hd & [= <-])|(?&?&_&?)]]]; [done..| |done].
  intros Hin%dict_get_elem_of. unfold decode_dict_at in Hd.
  apply bind_Ok in Hd as (_ & _ & Hd). apply bind_Ok in Hd as ([l p] & Hl & Hd). injection Hd as -> _.
  destruct (dict_loop_values _ _ _ _ _ _ _ _ Hl Hin) as [?%elem_of_nil|(q & n' & Hq)]; [done|].
  destruct depth as [|depth]; [done|].
  apply decode_value_at_cases in Hq as [(?&?&_&?)|[(?&?&_&?)|[(?&?&_&?)|(b' & m' & Hb & [= ->])]]]; [done..|].
  by eapply decode_bytes_at_length.
Qed.

(** ** Round trip *)

(** [decodes depth part v]: wherever [part] stands in the data, the decoder
    reads [v] there and stops after it. *)
Definition decodes (depth : nat) (part : bytes) (v : pyval) : Prop :=
  forall pre post,
    decode_value_at depth (pre ++ part ++ post) (length pre) =
    Ok (v, length pre + length part).

Section at_position.
Context (pre post : bytes).

Lemma length_at part : part <> [] -> length pre < length (pre ++ part ++ post).
Proof. rewrite !length_app. destruct part; simpl; [done|lia]. Qed.

Lemma slice_at b part : slice (pre ++ (b :: part) ++ post) (length pre) (length pre + 1) = [b].
Proof. apply (slice_app_middle pre [b] (part ++ post)). Qed.

Lemma byte_at_at b part c :
  byte_at (pre ++ (b :: part) ++ post) (length pre) c = bool_decide ([b] = bs c).
Proof. unfold byte_at. by rewrite <-(Nat.add_1_r (length pre)), slice_at. Qed.

Lemma find_from_at c x part :
  c ∉ x -> find_from c (pre ++ (x ++ c :: part) ++ post) (length pre) = Some (length pre + length x).
Proof.
  intros Hx. unfold find_from. rewrite drop_app_length.
  replace ((x ++ c :: part) ++ post) with (x ++ c :: (part ++ post)) by by rewrite <-app_assoc.
  by rewrite find_index_app_notin.
Qed.
End at_position.

Lemma colon_not_digit : is_digit ":"%byte = false.
Proof. done. Qed.
Lemma e_not_digit : is_digit ("e"%byte) = false.
Proof. done. Qed.

Lemma encode_bytes_Ok b e :
  encode_bytes b = Ok e -> exists t, str_int (Z.of_nat (length b)) = Ok t /\ e = t ++ bs ":" ++ b.
Proof. intros (t & Ht & [= <-])%bind_Ok. eauto. Qed.

Lemma str_int_nat_isdigit n t : str_int (Z.of_nat n) = Ok t -> isdigit t = true.
Proof.
  intros [-> _]%str_int_Ok. bool_step.
  apply isdigit_digits_of.
Qed.

Lemma decode_bytes_at_encoded b e pre post :
  encode_bytes b = Ok e ->
  decode_bytes_at (pre ++ e ++ post) (length pre) = Ok (b, length pre + length e).
Proof.
  intros (t & Ht & ->)%encode_bytes_Ok.
  pose proof (str_int_nat_isdigit _ _ Ht) as Hd.
  destruct (isdigit_first _ Hd) as (c & t' & -> & Hc).
  unfold decode_bytes_at. rewrite (bool_decide_eq_true_2 (_ < _)) by (by apply length_at).
  rewrite <-app_comm_cons, slice_at, (isdigit_take1 _ Hd : isdigit [c] = true).
  cbn [andb assert_ mbind res_bind].
  rewrite app_comm_cons, (find_from_at _ _ ":"%byte (c :: t') b)
    by (apply (isdigit_app_notin _ _ Hd), colon_not_digit).
  rewrite <-!(app_assoc (c :: t')), slice_app_middle, Hd. cbn [negb raise_if mbind res_bind].
  rewrite (py_int_str_int _ _ Ht). cbn [mbind res_bind]. rewrite Nat2Z.id.
  replace (pre ++ (c :: t') ++ (bs ":" ++ b) ++ post)
    with ((pre ++ (c :: t') ++ bs ":") ++ b ++ post) by app_eq.
  rewrite slice_app_middle' by (rewrite !length_app; simpl; lia).
  rewrite !length_app. simpl. bools. do 2 f_equal. lia.
Qed.

Lemma decode_int_at_encoded z e pre post :
  encode_int z = Ok e ->
  decode_int_at (pre ++ e ++ post) (length pre) = Ok (z, length pre + length e).
Proof.
  unfold encode_int. intros (t & Ht & (u & _ & [= He])%bind_Ok)%bind_Ok.
  assert (e = "i"%byte :: t ++ ["e"%byte]) as -> by by rewrite <-He.
  pose proof (py_int_str_int _ _ Ht) as Hint.
  apply str_int_Ok in Ht as [Ht _]. set (ds := digits_of (Z.abs_N z)) in Ht.
  pose proof (isdigit_digits_of (Z.abs_N z) : isdigit ds = true) as Hd.
  assert ("e"%byte ∉ t) as Hn.
  { subst t. rewrite not_elem_of_app. split.
    - destruct (z <? 0)%Z; [by intros ?%list_elem_of_singleton|apply not_elem_of_nil].
    - apply (isdigit_app_notin _ _ Hd), e_not_digit. }
  unfold decode_int_at.
  rewrite byte_at_at, (bool_decide_eq_true_2 (_ < _)) by (by apply length_at).
  rewrite (bool_decide_eq_true_2 (["i"%byte] = bs "i")) by done. cbn [andb assert_ mbind res_bind].
  replace (pre ++ ("i"%byte :: t ++ ["e"%byte]) ++ post)
    with ((pre ++ ["i"%byte]) ++ (t ++ ["e"%byte]) ++ post) by app_eq.
  replace (length pre + 1) with (length (pre ++ ["i"%byte])) by by rewrite length_app.
  rewrite find_from_at by done. rewrite <-(app_assoc t), slice_app_middle.
  assert ((if bool_decide (take 1 t = bs "-") then drop 1 t else t) = ds) as ->.
  { subst t. destruct (z <? 0)%Z; simpl; [by rewrite drop_0|].
    by rewrite bool_decide_eq_false_2 by by apply isdigit_not_minus. }
  rewrite Hd, Hint. cbn [negb orb].
  replace (bool_decide (1 < length ds) && bool_decide (take 1 ds = bs "0")) with false.
  - rewrite (bool_decide_eq_false_2 (t = bs "-0")).
    + cbn [orb raise_if mbind res_bind]. rewrite !length_app. simpl.
      rewrite length_app. simpl. bools. do 2 f_equal. lia.
    + subst t. intros Heq. destruct (Z.ltb_spec z 0) as [Hz|Hz]; simpl in Heq.
      * injection Heq as Heq. subst ds. pose proof (value_of_digits (Z.abs_N z)) as Hv.
        rewrite Heq in Hv. change (value_of [Byte.x30]) with 0%N in Hv. lia.
      * rewrite Heq in Hd. done.
  - symmetry. apply andb_false_iff.
    destruct (decide (take 1 ds = bs "0")) as [H0|H0]; [left|right; by apply bool_decide_eq_false_2].
    apply bool_decide_eq_false_2. subst ds. rewrite (digits_of_no_leading_zero _ H0). simpl. lia.
Qed.

(** What [decodes] says about the bytes at the position. *)
Lemma decodes_position depth part v pre post :
  decodes depth part v ->
  length pre < length (pre ++ part ++ post) /\
  byte_at (pre ++ part ++ post) (length pre) "e" = false /\ 0 < length part.
Proof.
  intros Hdec. specialize (Hdec pre post). destruct depth as [|depth]; [done|].
  cbn [decode_value_at] in Hdec.
  apply bind_Ok in Hdec as (u & Hlen%assert_Ok%bool_decide_eq_true & Hdec).
  split; [done|]. apply bind_Ok in Hdec as ([v' n] & Hbody & Hdec).
  apply bind_Ok in Hdec as (u' & [Hn%bool_decide_eq_true _]%assert_Ok%andb_prop & [= -> ->]).
  split; [|lia]. unfold byte_at. rewrite <-(Nat.add_1_r (length pre)).
  apply bool_decide_eq_false_2. intros He. by rewrite He in Hbody.
Qed.

Lemma list_loop_decodes depth parts vs pre post items fuel :
  Forall2 (decodes depth) parts vs -> length (concat parts) < fuel ->
  list_loop (decode_value_at depth (pre ++ (concat parts ++ bs "e") ++ post))
    (pre ++ (concat parts ++ bs "e") ++ post) fuel items (length pre) =
  Ok (items ++ vs, length pre + length (concat parts)).
Proof.
  intros Hall. revert pre items fuel. induction Hall as [|part v parts vs Hp Hall IH];
    intros pre items [|fuel] Hf; try lia; cbn [concat list_loop].
  - rewrite bool_decide_eq_false_2 by (rewrite !length_app; simpl; lia).
    rewrite (byte_at_at _ _ ("e"%byte) []).
    rewrite (bool_decide_eq_true_2 (["e"%byte] = bs "e")) by done.
    rewrite app_nil_r. simpl. do 2 f_equal. lia.
  - simpl in Hf. rewrite length_app in Hf.
    rewrite <-!(app_assoc part).
    destruct (decodes_position _ _ _ pre ((concat parts ++ bs "e") ++ post) Hp)
      as (Hlen & He & Hpos).
    rewrite He, bool_decide_eq_false_2 by lia. rewrite Hp. cbn [mbind res_bind].
    specialize (IH (pre ++ part) (items ++ [v]) fuel).
    rewrite length_app, <-!app_assoc in IH. rewrite <-!app_assoc, IH by lia.
    rewrite length_app. do 2 f_equal. lia.
Qed.

(** A dictionary item: the encoded key followed by an encoded value. *)
Definition decodes_item (depth : nat) (part : bytes) (kv : bytes * pyval) : Prop :=
  exists kt vt, part = kt ++ vt /\ encode_bytes kv.1 = Ok kt /\ decodes depth vt kv.2.

Lemma dict_loop_decodes depth parts kvs pre post items fuel :
  Forall2 (decodes_item depth) parts kvs -> length (concat parts) < fuel ->
  NoDup (items.*1 ++ (KBytes <$> kvs.*1)) ->
  dict_loop (decode_value_at depth (pre ++ (concat parts ++ bs "e") ++ post))
    (pre ++ (concat parts ++ bs "e") ++ post) fuel items (length pre) =
  Ok (items ++ ((fun kv => (KBytes kv.1, kv.2)) <$> kvs), length pre + length (concat parts)).
Proof.
  intros Hall. revert pre items fuel. induction Hall as [|part [k v] parts kvs Hp Hall IH];
    intros pre items [|fuel] Hf Hnd; try lia; cbn [concat dict_loop].
  - rewrite bool_decide_eq_false_2 by (rewrite !length_app; simpl; lia).
    rewrite (byte_at_at _ _ ("e"%byte) []).
    rewrite (bool_decide_eq_true_2 (["e"%byte] = bs "e")) by done.
    rewrite app_nil_r. simpl. do 2 f_equal. lia.
  - destruct Hp as (kt & vt & -> & Hk & Hv). simpl in Hk, Hv.
    simpl in Hf. rewrite !length_app in Hf.
    rewrite <-!(app_assoc (kt ++ vt)), <-(app_assoc kt).
    set (post' := vt ++ (concat parts ++ bs "e") ++ post).
    destruct (encode_bytes_Ok _ _ Hk) as (t & Ht & Hkt).
    pose proof (str_int_nat_isdigit _ _ Ht) as Hd.
    destruct (isdigit_first _ Hd) as (c & t' & -> & Hc).
    assert (slice (pre ++ kt ++ post') (length pre) (length pre + 1) = [c]) as Hs.
    { rewrite Hkt. apply (slice_at pre post' c (t' ++ bs ":" ++ k)). }
    rewrite bool_decide_eq_false_2 by (rewrite !length_app, Hkt, !length_app; simpl; lia).
    unfold byte_at. rewrite <-(Nat.add_1_r (length pre)), Hs.
    rewrite (bool_decide_eq_false_2 ([c] = bs "e")) by (intros [= ->]; done).
    rewrite (isdigit_take1 _ Hd : isdigit [c] = true). cbn [negb].
    rewrite (decode_bytes_at_encoded _ _ _ _ Hk). cbn [mbind res_bind].
    destruct (decodes_position _ _ _ (pre ++ kt) ((concat parts ++ bs "e") ++ post) Hv)
      as (Hlen & _ & Hpos).
    specialize (Hv (pre ++ kt) ((concat parts ++ bs "e") ++ post)).
    rewrite length_app, <-(app_assoc pre) in Hlen, Hv. subst post'.
    rewrite bool_decide_eq_false_2 by lia. rewrite Hv. cbn [mbind res_bind].
    specialize (IH (pre ++ kt ++ vt) (items ++ [(KBytes k, v)]) fuel).
    rewrite !length_app, <-!app_assoc in IH. rewrite <-!app_assoc.
    csimpl in Hnd. rewrite NoDup_app in Hnd. destruct Hnd as (Hn1 & Hn2 & Hn3).
    rewrite dict_set_new
      by (apply dict_get_None; intros Hin; apply (Hn2 _ Hin); left).
    replace (length pre + length kt + length vt) with (length pre + (length kt + length vt)) by lia.
    rewrite IH; [|lia|].
    + rewrite !length_app. csimpl. do 2 f_equal. lia.
    + rewrite fmap_app, <-app_assoc. csimpl. by apply NoDup_app.
Qed.

(** *** Dictionaries: normalizing and sorting act on the keys only *)

Lemma dict_of_map_values {K A B} `{EqDecision K} (f : A -> B) (l : list (K * A)) :
  dict_of (map_values f l) = map_values f (dict_of l).
Proof.
  unfold dict_of. change (@nil (K * B)) with (map_values f (@nil (K * A))).
  generalize (@nil (K * A)). induction l as [|[k v] l IH]; intros d; simpl; [done|].
  rewrite dict_set_map_values. apply IH.
Qed.

Lemma dict_of_wf {K A} `{EqDecision K} (l : list (K * A)) : dict_wf (dict_of l).
Proof.
  unfold dict_of. assert (dict_wf (@nil (K * A))) as Hd by constructor. revert Hd.
  generalize (@nil (K * A)). induction l as [|[k v] l IH]; intros d Hd; simpl; [done|].
  apply IH. by apply dict_set_wf.
Qed.

Lemma elem_of_dict_of_item {K A} `{EqDecision K} (l : list (K * A)) x : x ∈ dict_of l -> x ∈ l.
Proof.
  unfold dict_of. intros Hx. assert (x ∈ l \/ x ∈ @nil (K * A)) as [|Hn%elem_of_nil]; [|done|done].
  revert Hx. generalize (@nil (K * A)). induction l as [|[k v] l IH]; intros d; simpl; [auto|].
  intros [Hx|[->|Hx]%elem_of_dict_set]%IH; rewrite elem_of_cons; auto.
Qed.

Lemma elem_of_dict_of {K A} `{EqDecision K} (l : list (K * A)) x : x ∈ dict_of l -> x.2 ∈ l.*2.
Proof. intros Hx%elem_of_dict_of_item. by apply list_elem_of_fmap_2. Qed.

Lemma key_leb_map_values {A B} (f : A -> B) (l : list (bytes * A)) :
  sort_by key_leb (map_values f l) = map_values f (sort_by key_leb l).
Proof. by apply sort_by_fmap. Qed.

(** The items of a dictionary in the order the encoder writes them. *)
Definition sorted_items (d : list (pykey * pyval)) : list (bytes * pyval) :=
  sort_by key_leb (dict_of ((fun kv => (raw_key kv.1, kv.2)) <$> d)).

Lemma sorted_items_wf d : dict_wf (sorted_items d).
Proof. unfold dict_wf, sorted_items. rewrite sort_by_Permutation. apply dict_of_wf. Qed.

Lemma elem_of_sorted_items d kv : kv ∈ sorted_items d -> kv.2 ∈ d.*2.
Proof.
  unfold sorted_items. rewrite elem_of_sort_by. intros Hin%elem_of_dict_of.
  revert Hin. by rewrite <-list_fmap_compose.
Qed.

Lemma canonical_dict d :
  canonical (PDict d) =
  PDict ((fun kv => (KBytes kv.1, kv.2)) <$> map_values canonical (sorted_items d)).
Proof.
  cbn [canonical]. unfold sorted_items. rewrite <-key_leb_map_values, <-dict_of_map_values.
  unfold map_values. by rewrite <-list_fmap_compose.
Qed.

Lemma utf8_encode_Ok s u : utf8_encode s = Ok u -> u = utf8_bytes s.
Proof. unfold utf8_encode. destruct (existsb _ _); [done|]. by intros [= <-]. Qed.

Lemma key_bytes_Ok k b : key_bytes k = Ok b -> raw_key k = b.
Proof. destruct k; simpl; [congruence|intros H%utf8_encode_Ok; done|done]. Qed.

(** What [encode_dict] returns, in terms of the sorted items. *)
Lemma encode_dict_Ok d e :
  encode_dict (map (fun kv => (kv.1, encode_bencode kv.2)) d) = Ok e ->
  exists parts, e = bs "d" ++ concat parts ++ bs "e" /\
    Forall2 (fun part kv => exists kt vt, part = kt ++ vt /\ encode_bytes kv.1 = Ok kt /\
      encode_bencode kv.2 = Ok vt) parts (sorted_items d).
Proof.
  unfold encode_dict. intros (u & _ & (keys & Hkeys & (parts & Hparts & (u' & _ & [= <-])%bind_Ok)%bind_Ok)%bind_Ok)%bind_Ok.
  exists parts. split; [done|]. apply sequence_Ok in Hkeys, Hparts.
  assert (keys = (fun kv => raw_key kv.1) <$> d) as ->.
  { clear -Hkeys. revert keys Hkeys. induction d as [|[k v] d IH]; intros [|k' keys]; csimpl; try done.
    intros [= Hk Hkeys]. f_equal; [symmetry; by apply key_bytes_Ok|by apply IH]. }
  assert (zip ((fun kv => raw_key kv.1) <$> d) (map (fun kv => (kv.1, encode_bencode kv.2)) d).*2
    = map_values encode_bencode ((fun kv => (raw_key kv.1, kv.2)) <$> d)) as Hz.
  { clear. induction d as [|[k v] d IH]; csimpl; [done|]. by f_equal. }
  rewrite Hz, dict_of_map_values, key_leb_map_values in Hparts. fold (sorted_items d) in Hparts.
  clear Hkeys Hz. revert parts Hparts.
  induction (sorted_items d) as [|[k v] l IH]; intros [|part parts]; csimpl; try done.
  intros [= Hpart Hparts]. constructor; [|by apply IH].
  apply bind_Ok in Hpart as (kt & Hk & (vt & Hv & [= <-])%bind_Ok). eauto.
Qed.

(** *** Induction on nested values *)
Lemma pyval_nested_ind (P : pyval -> Prop) :
  P PNone -> (forall b, P (PBool b)) -> (forall z, P (PInt z)) -> (forall b, P (PBytes b)) ->
  (forall s, P (PStr s)) -> (forall l, Forall P l -> P (PList l)) ->
  (forall d, Forall P d.*2 -> P (PDict d)) -> P POther -> forall v, P v.
Proof.
  intros Hn Hb Hi Hy Hs Hl Hd Ho. fix go 1. intros [|b|z|b|s|l|d| ]; [done|auto|auto|auto|auto| | |done].
  - apply Hl. induction l as [|v l IH]; constructor; [apply go|apply IH].
  - apply Hd. induction d as [|[k v] d IH]; constructor; [apply go|apply IH].
Qed.

(** ** Values that always encode *)

Lemma nb_digits_double u :
  Decimal.nb_digits (Decimal.Little.double u) <= S (Decimal.nb_digits u) /\
  Decimal.nb_digits (Decimal.Little.succ_double u) <= S (Decimal.nb_digits u).
Proof. induction u; simpl; lia. Qed.

Lemma nb_digits_pos p : Decimal.nb_digits (Pos.to_little_uint p) <= S (Pos.size_nat p).
Proof.
  induction p as [p IH|p IH|]; simpl; [| |lia];
    pose proof (nb_digits_double (Pos.to_little_uint p)); lia.
Qed.

Lemma length_uint_bytes u : length (uint_bytes u) = Decimal.nb_digits u.
Proof. induction u; simpl; congruence. Qed.

Lemma size_nat_small p k : (Z.pos p < 2 ^ Z.of_nat k)%Z -> Pos.size_nat p <= k.
Proof.
  revert p. induction k as [|k IH]; intros p Hp; [simpl in Hp; lia|].
  rewrite Nat2Z.inj_succ, Z.pow_succ_r in Hp by lia.
  destruct p as [p|p|]; simpl; [| |lia]; apply le_n_S, IH; lia.
Qed.

(** Integers of 64 bits and byte strings of such a length. *)
Definition small (z : Z) : bool := (Z.abs z <? 2 ^ 64)%Z.

Lemma str_int_small z : small z = true -> exists t, str_int z = Ok t.
Proof.
  intros Hz%Z.ltb_lt. unfold str_int.
  assert (length (digits_of (Z.abs_N z)) <= 65) as Hl.
  { unfold digits_of. rewrite length_uint_bytes. unfold N.to_uint.
    destruct (Z.abs_N z) as [|p] eqn:Hp; [simpl; lia|]. unfold Pos.to_uint.
    rewrite DecimalFacts.nb_digits_rev, nb_digits_pos.
    apply le_n_S, size_nat_small. change (Z.of_nat 64) with 64%Z. lia. }
  replace (INT_MAX_STR_DIGITS <? _)%Z with false
    by (symmetry; apply Z.ltb_ge; unfold INT_MAX_STR_DIGITS; lia).
  by eexists.
Qed.

Fixpoint encodable (v : pyval) : bool :=
  match v with
  | PInt z => small z
  | PBytes b => small (Z.of_nat (length b))
  | PList l => forallb encodable l
  | PDict d => forallb (fun kv => match kv.1 with KBytes b => small (Z.of_nat (length b)) | _ => false end
                                  && encodable kv.2) d
  | _ => false
  end.

Lemma encode_bytes_small b : small (Z.of_nat (length b)) = true -> exists e, encode_bytes b = Ok e.
Proof. intros [t Ht]%str_int_small. unfold encode_bytes. rewrite Ht. by eexists. Qed.

Lemma sequence_all_Ok {A} (l : list (res A)) :
  (forall r, r ∈ l -> exists a, r = Ok a) -> exists l', sequence l = Ok l'.
Proof.
  intros Hl. destruct (sequence_fmap_Forall2 id (fun _ _ => True) l) as (l' & Hl' & _).
  - intros r Hr. destruct (Hl r Hr) as [a ->]. by exists a.
  - exists l'. by rewrite list_fmap_id in Hl'.
Qed.

Lemma bracketed_ends c mid :
  assert_ (bool_decide (take 1 (bs c ++ mid ++ bs "e") = bs c)
    && bool_decide (last (bs c ++ mid ++ bs "e") = Some ("e"%byte))) =
  assert_ (bool_decide (take 1 (bs c ++ mid ++ bs "e") = bs c)).
Proof.
  rewrite (bool_decide_eq_true_2 (last _ = _)); [by rewrite andb_true_r|].
  change (bs "e") with ["e"%byte]. by rewrite app_assoc, last_snoc.
Qed.

Lemma encode_list_all items :
  (forall r, r ∈ items -> exists e, r = Ok e) -> exists e, encode_list items = Ok e /\ 2 <= length e.
Proof.
  intros [parts Hp]%sequence_all_Ok. unfold encode_list. rewrite Hp. cbn [mbind res_bind].
  rewrite bracketed_ends. eexists. split; [reflexivity|]. rewrite !length_app. simpl. lia.
Qed.

Lemma encode_dict_all (values : list (pykey * res bytes)) :
  (forall kv, kv ∈ values -> exists b e, kv.1 = KBytes b /\ small (Z.of_nat (length b)) = true /\ kv.2 = Ok e) ->
  exists e, encode_dict values = Ok e /\ 2 <= length e.
Proof.
  intros Hv. unfold encode_dict. rewrite (proj2 (forallb_forall _ _)).
  2: { intros kv Hin%list_elem_of_In. by destruct (Hv kv Hin) as (b & e & -> & _). }
  cbn [assert_ mbind res_bind].
  destruct (sequence_fmap_Forall2 (fun kv : pykey * res bytes => key_bytes kv.1)
    (fun kv b => kv.1 = KBytes b) values) as (keys & -> & Hkeys).
  { intros kv Hin. destruct (Hv kv Hin) as (b & e & -> & _). by exists b. }
  cbn [mbind res_bind]. destruct (sequence_all_Ok ((fun kv : bytes * res bytes =>
    k ← encode_bytes kv.1; v ← kv.2; mret (k ++ v)) <$> sort_by key_leb (dict_of (zip keys values.*2)))) as [parts ->].
  - intros r ([k v] & -> & Hin)%list_elem_of_fmap. rewrite elem_of_sort_by in Hin.
    assert (exists b e, k = b /\ small (Z.of_nat (length b)) = true /\ v = Ok e) as (b & e & -> & Hb & ->).
    { apply elem_of_dict_of_item in Hin. apply list_elem_of_lookup in Hin as [i Hi].
      apply lookup_zip_Some in Hi as [Hk Hv']. rewrite list_lookup_fmap in Hv'.
      destruct (values !! i) as [kv|] eqn:Hkv; [|done]. injection Hv' as <-.
      destruct (Forall2_lookup_r _ _ _ _ _ Hkeys Hk) as (kv' & Hkv' & Heq).
      assert (kv' = kv) as -> by congruence.
      apply list_elem_of_lookup_2 in Hkv. destruct (Hv kv Hkv) as (b & e & Hb & ? & ?).
      exists b, e. split; [congruence|done]. }
    simpl. destruct (encode_bytes_small b Hb) as [t ->]. by eexists.
  - cbn [mbind res_bind]. rewrite bracketed_ends. eexists. split; [reflexivity|]. rewrite !length_app. simpl. lia.
Qed.

Lemma encode_encodable v : encodable v = true -> exists e, encode_bencode v = Ok e.
Proof.
  assert (forall r : res bytes, (exists e, r = Ok e /\ 2 <= length e) ->
    exists e, (result ← r; assert_ (bool_decide (2 <= length result)) ;; mret result) = Ok e) as Hlen.
  { intros r (e & -> & He). cbn [mbind res_bind]. rewrite bool_decide_eq_true_2 by done. by exists e. }
  induction v as [|b|z|b|s|l IH|d IH| ] using pyval_nested_ind; intros Hv; try done;
    cbn [encodable encode_bencode] in *; apply Hlen.
  - unfold encode_int. destruct (str_int_small z Hv) as [t ->]. cbn [mbind res_bind].
    rewrite bracketed_ends. eexists. split; [reflexivity|]. rewrite !length_app. simpl. lia.
  - unfold encode_bytes. destruct (str_int_small _ Hv) as [t Ht]. rewrite Ht. eexists. split; [reflexivity|].
    rewrite !length_app. apply str_int_Ok in Ht as [-> _].
    rewrite !length_app. pose proof (digits_of_nonempty (Z.abs_N (Z.of_nat (length b)))) as Hn.
    destruct (digits_of _); [done|]. simpl. lia.
  - apply encode_list_all. intros r (v & -> & Hin)%list_elem_of_fmap.
    rewrite Forall_forall in IH. rewrite forallb_forall in Hv. apply IH; [done|]. by apply Hv, list_elem_of_In.
  - apply encode_dict_all. intros kr ([k v] & -> & Hin)%list_elem_of_fmap. rewrite forallb_forall in Hv.
    pose proof (Hv _ (proj1 (list_elem_of_In _ _) Hin)) as Hkv. simpl in Hkv |- *.
    destruct k as [b| |]; [|done..]. apply andb_true_iff in Hkv as [Hb Hv'].
    rewrite Forall_forall in IH. destruct (IH v) as [e He]; [by apply (list_elem_of_fmap_2 snd) in Hin|done|].
    by exists b, e.
Qed.

Lemma foldr_max_elem_of x l : x ∈ l -> x <= foldr max 0 l.
Proof. induction l as [|y l IH]; simpl; [by intros ?%elem_of_nil|]. rewrite elem_of_cons. intros [->|?%IH]; lia. Qed.

Lemma decode_value_at_list depth l pre post parts :
  Forall2 (decodes depth) parts l ->
  decode_value_at (S depth) (pre ++ (bs "l" ++ concat parts ++ bs "e") ++ post) (length pre) =
  Ok (PList l, length pre + length (bs "l" ++ concat parts ++ bs "e")).
Proof.
  intros Hall. cbn [decode_value_at].
  change (bs "l" ++ concat parts ++ bs "e") with ("l"%byte :: (concat parts ++ bs "e")).
  rewrite slice_at, (bool_decide_eq_true_2 (_ < _)) by (by apply length_at).
  rewrite (bool_decide_eq_false_2 (["l"%byte] = bs "i")), (bool_decide_eq_true_2 (["l"%byte] = bs "l")) by done.
  unfold decode_list_at. rewrite byte_at_at, (bool_decide_eq_true_2 (_ < _)) by (by apply length_at).
  rewrite (bool_decide_eq_true_2 (["l"%byte] = bs "l")) by done.
  cbn [andb assert_ mbind res_bind].
  replace (pre ++ ("l"%byte :: concat parts ++ bs "e") ++ post)
    with ((pre ++ ["l"%byte]) ++ (concat parts ++ bs "e") ++ post) by app_eq.
  replace (length pre + 1) with (length (pre ++ ["l"%byte])) by by rewrite length_app.
  rewrite (list_loop_decodes _ _ l) by (done || rewrite !length_app; simpl; lia).
  cbn [app mbind res_bind mret res_ret]. rewrite !length_app. simpl. rewrite length_app.
  bools. do 2 f_equal. simpl. lia.
Qed.

Lemma decode_value_at_dict depth kvs pre post parts :
  Forall2 (decodes_item depth) parts kvs -> NoDup kvs.*1 ->
  decode_value_at (S depth) (pre ++ (bs "d" ++ concat parts ++ bs "e") ++ post) (length pre) =
  Ok (PDict ((fun kv => (KBytes kv.1, kv.2)) <$> kvs),
      length pre + length (bs "d" ++ concat parts ++ bs "e")).
Proof.
  intros Hall Hnd. cbn [decode_value_at].
  change (bs "d" ++ concat parts ++ bs "e") with ("d"%byte :: (concat parts ++ bs "e")).
  rewrite slice_at, (bool_decide_eq_true_2 (_ < _)) by (by apply length_at).
  rewrite (bool_decide_eq_false_2 (["d"%byte] = bs "i")), (bool_decide_eq_false_2 (["d"%byte] = bs "l")),
    (bool_decide_eq_true_2 (["d"%byte] = bs "d")) by done.
  unfold decode_dict_at. rewrite byte_at_at, (bool_decide_eq_true_2 (_ < _)) by (by apply length_at).
  rewrite (bool_decide_eq_true_2 (["d"%byte] = bs "d")) by done.
  cbn [andb assert_ mbind res_bind].
  replace (pre ++ ("d"%byte :: concat parts ++ bs "e") ++ post)
    with ((pre ++ ["d"%byte]) ++ (concat parts ++ bs "e") ++ post) by app_eq.
  replace (length pre + 1) with (length (pre ++ ["d"%byte])) by by rewrite length_app.
  rewrite (dict_loop_decodes _ _ kvs); [|done|rewrite !length_app; simpl; lia|].
  - cbn [app mbind res_bind mret res_ret]. rewrite !length_app. simpl. rewrite length_app.
    bools. do 2 f_equal. simpl. lia.
  - simpl. apply NoDup_fmap_2; [intros ?? [= ?]; done|done].
Qed.

Lemma decode_value_at_bytes depth b e pre post :
  encode_bytes b = Ok e ->
  decode_value_at (S depth) (pre ++ e ++ post) (length pre) = Ok (PBytes b, length pre + length e).
Proof.
  intros He. cbn [decode_value_at].
  destruct (encode_bytes_Ok _ _ He) as (t & Ht & Het).
  pose proof (str_int_nat_isdigit _ _ Ht) as Hd.
  destruct (isdigit_first _ Hd) as (c & t' & -> & Hc).
  rewrite (bool_decide_eq_true_2 (_ < _)) by (apply length_at; by rewrite Het).
  assert (slice (pre ++ e ++ post) (length pre) (length pre + 1) = [c]) as ->.
  { rewrite Het. apply (slice_at pre post c (t' ++ bs ":" ++ b)). }
  rewrite !bool_decide_eq_false_2 by (intros [= ->]; done).
  rewrite (isdigit_take1 _ Hd : isdigit [c] = true), (decode_bytes_at_encoded _ _ _ _ He).
  cbn [assert_ mbind res_bind mret res_ret].
  assert (0 < length e) by (rewrite Het; simpl; lia).
  rewrite !length_app. by bools.
Qed.

Lemma decode_value_at_int depth z e pre post :
  encode_int z = Ok e ->
  decode_value_at (S depth) (pre ++ e ++ post) (length pre) = Ok (PInt z, length pre + length e).
Proof.
  intros He. cbn [decode_value_at].
  assert (exists t, e = "i"%byte :: t) as [t Het].
  { unfold encode_int in He. apply bind_Ok in He as (t & _ & (u & _ & [= <-])%bind_Ok). eauto. }
  rewrite (bool_decide_eq_true_2 (_ < _)) by (apply length_at; by rewrite Het).
  assert (slice (pre ++ e ++ post) (length pre) (length pre + 1) = ["i"%byte]) as ->.
  { rewrite Het. apply slice_at. }
  rewrite (bool_decide_eq_true_2 (["i"%byte] = bs "i")) by done.
  rewrite (decode_int_at_encoded _ _ _ _ He). cbn [assert_ mbind res_bind mret res_ret].
  assert (0 < length e) by (rewrite Het; simpl; lia).
  rewrite !length_app. by bools.
Qed.

(** Wherever an encoded value stands, the decoder reads its canonical form. *)
Lemma encode_decodes v : forall e depth,
  encode_bencode v = Ok e -> nesting v <= depth -> decodes depth e (canonical v).
Proof.
  induction v as [|b|z|b|s|l IHl|d IHd| ] using pyval_nested_ind;
    intros e [|depth] He Hdepth pre post; try (simpl in Hdepth; lia);
    cbn [encode_bencode] in He; apply bind_Ok in He as (e' & He & (u & Hlen & [= ->])%bind_Ok);
    try done.
  - by apply decode_value_at_int.
  - by apply decode_value_at_bytes.
  - apply bind_Ok in He as (b & ->%utf8_encode_Ok & He). by apply decode_value_at_bytes.
  - unfold encode_list in He. apply bind_Ok in He as (parts & Hp%sequence_Ok & (u' & _ & [= <-])%bind_Ok).
    cbn [canonical nesting] in *. apply decode_value_at_list.
    assert (forall v, v ∈ l -> nesting v <= depth) as Hnest.
    { intros v Hv. etrans; [apply foldr_max_elem_of|apply le_S_n, Hdepth].
      by apply (list_elem_of_fmap_2 nesting). }
    clear Hdepth Hlen. revert parts Hp. induction IHl as [|v l Hv IHl IH]; intros [|part parts]; try done.
    intros [= Hpart Hparts]. constructor; [apply Hv; [done|apply Hnest; left]|].
    apply IH; [|done]. intros v' Hv'. apply Hnest. by right.
  - apply encode_dict_Ok in He as (parts & -> & Hparts). rewrite canonical_dict.
    apply decode_value_at_dict; [|rewrite map_values_keys; apply sorted_items_wf].
    assert (forall kv, kv ∈ sorted_items d -> forall vt,
      encode_bencode kv.2 = Ok vt -> decodes depth vt (canonical kv.2)) as Hdec.
    { intros kv Hkv%elem_of_sorted_items vt Hvt. rewrite Forall_forall in IHd.
      apply IHd; [done|done|]. cbn [nesting] in Hdepth.
      etrans; [apply foldr_max_elem_of|apply le_S_n, Hdepth].
      apply list_elem_of_fmap in Hkv as (kv' & -> & Hkv'). apply (list_elem_of_fmap_2 (fun kv => nesting kv.2)), Hkv'. }
    clear -Hparts Hdec. induction Hparts as [|part [k v] parts l (kt & vt & -> & Hk & Hv) Hparts IH];
      [constructor|].
    csimpl. constructor.
    + exists kt, vt. split; [done|]. split; [done|]. apply (Hdec (k, v)); [left|done].
    + apply IH. intros kv Hkv. apply Hdec. by right.
Qed.

(** ** Properties *)

(** C34. Encoding then decoding gives the canonical form of the value back
    (text as UTF-8 bytes, dictionaries sorted by key with one value per key),
    whatever the value, when the recursion limit allows its nesting; nothing is
    left over. *)
Theorem decode_encode_bencode v e depth :
  encode_bencode v = Ok e -> nesting v <= depth ->
  decode_bencode depth e = Ok (canonical v).
Proof.
  intros He Hdepth. pose proof (encode_decodes v e depth He Hdepth [] []) as Hd.
  rewrite app_nil_r in Hd. simpl in Hd. unfold decode_bencode. rewrite Hd.
  assert (length e <> 0).
  { intros Hl. destruct v; cbn [encode_bencode] in He;
      apply bind_Ok in He as (e' & _ & (u & Hlen%assert_Ok%bool_decide_eq_true & [= ->])%bind_Ok); lia. }
  by bools.
Qed.

Lemma decode_encode_bencode_witness :
  decode_bencode 3 (bs "d1:ai-42e1:bl4:spamee") =
  Ok (PDict [(KBytes (bs "a"), PInt (-42)); (KBytes (bs "b"), PList [PBytes (bs "spam")])]).
Proof.
  apply (decode_encode_bencode
    (PDict [(KStr [98%Z], PList [PBytes (bs "spam")]); (KBytes (bs "a"), PInt (-42))]) _ 3).
  - vm_compute. reflexivity.
  - vm_compute. lia.
Defined.

(** Decoding any byte string ends: it returns a bencode value (integers,
    byte strings, lists, dictionaries with distinct byte-string keys) or raises
    the [ValueError] or [RecursionError] its callers catch, never an
    [AssertionError] and never without an answer; with as much recursion depth
    as there are bytes there is no [RecursionError] either. *)
Theorem decode_bencode_total depth data :
  returns (decode_bencode depth data) (fun v => is_decoded v = true)
    (fun e => (exists r, e = ValueError r) \/ (e = RecursionError /\ depth <= length data)).
Proof.
  unfold decode_bencode. apply returns_bind. unfold raise_if at 1.
  case_bool_decide as Hl; [left; eauto|]. simpl. apply returns_bind.
  eapply returns_mono; [apply decode_value_at_returns; lia| |].
  - intros [v n] [Hv Hn]. simpl. unfold raise_if. destruct (negb _); [left; eauto|done].
  - intros e [?|[-> ?]]; [by left|right; split; [done|lia]].
Qed.
