(* ===== verification/NodeIdentity.v ===== *)
(** Node identities ([node_identity.py]): the random, neighbour and
    transaction identifiers, the XOR metric of Kademlia, and the selection of
    the nodes closest to a target.  What [os.urandom] returned is an argument
    of the definitions that call it. *)
From S2P Require Import Prelude Bencode.

(** ASCII text: an IP address as Python's [str]. *)
Abbreviation text := (list Byte.byte) (only parsing).

Definition NODE_ID_LENGTH : nat := 20.
Definition NEIGHBOR_PREFIX_LENGTH : nat := 15.
Definition TRANSACTION_ID_LENGTH : nat := 2.
Definition LOOKUP_TRANSACTION_PREFIX : bytes := bs "L".
Definition LOOKUP_TRANSACTION_ID_LENGTH : nat := 4.
Definition PEER_ID_PREFIX : bytes := bs "-DS0002-".

(** [NodeTuple]: node id, IP address and port. *)
Record node := Node { node_id : bytes; node_ip : text; node_port : Z }.

#[global] Instance node_eq_dec : EqDecision node.
Proof. solve_decision. Defined.

(** ** Operations *)

Definition generate_node_id (random : bytes) : res bytes :=
  assert_ (bool_decide (length random = NODE_ID_LENGTH)) ;; mret random.

Definition neighbor_node_id (remote_id own_id : bytes) : res bytes :=
  assert_ (bool_decide (length remote_id = NODE_ID_LENGTH) &&
           bool_decide (length own_id = NODE_ID_LENGTH)) ;;
  let result := take NEIGHBOR_PREFIX_LENGTH remote_id ++ drop NEIGHBOR_PREFIX_LENGTH own_id in
  assert_ (bool_decide (length result = NODE_ID_LENGTH)) ;;
  assert_ (bool_decide (take NEIGHBOR_PREFIX_LENGTH result =
                        take NEIGHBOR_PREFIX_LENGTH remote_id)) ;;
  mret result.

Definition generate_transaction_id (random : bytes) : res bytes :=
  assert_ (bool_decide (length random = TRANSACTION_ID_LENGTH)) ;; mret random.

Definition is_valid_node_id (value : pyval) : bool :=
  match value with PBytes b => bool_decide (length b = NODE_ID_LENGTH) | _ => false end.

Definition xor_distance (left_id right_id : bytes) : res Z :=
  assert_ (bool_decide (length left_id = NODE_ID_LENGTH) &&
           bool_decide (length right_id = NODE_ID_LENGTH)) ;;
  let result := Z.lxor (be_decode left_id) (be_decode right_id) in
  assert_ (0 <=? result)%Z ;;
  mret result.

(** [sorted(nodes, key=...)] computes every key before it sorts. *)
Definition select_closest_nodes (nodes : list node) (target : bytes) (count : nat)
    : res (list node) :=
  assert_ (bool_decide (length target = NODE_ID_LENGTH)) ;;
  keyed ← sequence ((fun n => k ← xor_distance (node_id n) target; mret (k, n)) <$> nodes);
  let result := take count (sort_by (fun x y : Z * node => (x.1 <=? y.1)%Z) keyed).*2 in
  assert_ (bool_decide (length result <= count)) ;;
  mret result.

Definition lookup_transaction_id (sequence_number : Z) : res bytes :=
  assert_ ((0 <=? sequence_number)%Z &&
    bool_decide (length LOOKUP_TRANSACTION_PREFIX < LOOKUP_TRANSACTION_ID_LENGTH)) ;;
  let counter_length := LOOKUP_TRANSACTION_ID_LENGTH - length LOOKUP_TRANSACTION_PREFIX in
  let result := LOOKUP_TRANSACTION_PREFIX ++
    be_encode counter_length (sequence_number mod Z.shiftl 1 (8 * Z.of_nat counter_length)) in
  assert_ (bool_decide (length result = LOOKUP_TRANSACTION_ID_LENGTH)) ;;
  mret result.

Definition generate_peer_id (random : bytes) : res bytes :=
  assert_ (bool_decide (length PEER_ID_PREFIX < NODE_ID_LENGTH)) ;;
  let result := PEER_ID_PREFIX ++ random in
  assert_ (bool_decide (length result = NODE_ID_LENGTH)) ;;
  mret result.

(** ** Lemmas *)

(** The distance of two ids of the right length. *)
Definition distance (x y : bytes) : Z := Z.lxor (be_decode x) (be_decode y).

Lemma xor_distance_eq x y :
  length x = NODE_ID_LENGTH -> length y = NODE_ID_LENGTH -> xor_distance x y = Ok (distance x y).
Proof.
  intros Hx Hy. unfold xor_distance, distance. bools.
  replace (0 <=? _)%Z with true; [done|]. symmetry. apply Z.leb_le, Z.lxor_nonneg.
  pose proof (be_decode_range x). pose proof (be_decode_range y). lia.
Qed.

Lemma distance_zero x y : length x = length y -> distance x y = 0%Z <-> x = y.
Proof.
  intros Hl. unfold distance. rewrite Z.lxor_eq_0_iff. split; [by apply be_decode_inj|by intros ->].
Qed.

Lemma distance_comm x y : distance x y = distance y x.
Proof. apply Z.lxor_comm. Qed.

(** Seen from one id, ids at the same distance are equal. *)
Lemma distance_inj x y t : length x = length y -> distance x t = distance y t -> x = y.
Proof.
  unfold distance. intros Hl Hd. apply be_decode_inj; [done|].
  apply (f_equal (fun z => Z.lxor z (be_decode t))) in Hd.
  by rewrite !Z.lxor_assoc, !Z.lxor_nilpotent, !Z.lxor_0_r in Hd.
Qed.

Lemma select_closest_nodes_eq nodes target count :
  length target = NODE_ID_LENGTH ->
  Forall (fun n => length (node_id n) = NODE_ID_LENGTH) nodes ->
  select_closest_nodes nodes target count =
    Ok (take count (sort_by (fun x y =>
      distance (node_id x) target <=? distance (node_id y) target)%Z nodes)).
Proof.
  intros Ht Hn. unfold select_closest_nodes. bools.
  assert (sequence ((fun n => k ← xor_distance (node_id n) target; mret (k, n)) <$> nodes) =
    Ok ((fun n => (distance (node_id n) target, n)) <$> nodes)) as ->.
  { apply sequence_Ok. rewrite <-list_fmap_compose. apply list_fmap_ext. intros i n Hi.
    rewrite Forall_forall in Hn. rewrite xor_distance_eq; [done| |done].
    apply Hn. by eapply list_elem_of_lookup_2. }
  cbn [mbind res_bind].
  rewrite (sort_by_fmap (fun n => (distance (node_id n) target, n))
    (fun x y => distance (node_id x) target <=? distance (node_id y) target)%Z) by done.
  rewrite <-list_fmap_compose. rewrite list_fmap_id.
  by rewrite bool_decide_eq_true_2 by (rewrite length_take; lia).
Qed.

Lemma length_lookup_transaction_id n t :
  lookup_transaction_id n = Ok t -> length t = LOOKUP_TRANSACTION_ID_LENGTH.
Proof.
  unfold lookup_transaction_id. intros (_ & _ & Ht)%bind_Ok.
  apply bind_Ok in Ht as (_ & Hl%assert_Ok%bool_decide_eq_true & Ht). by injection Ht as <-.
Qed.

Lemma lookup_transaction_id_eq sequence_number :
  (0 <= sequence_number)%Z ->
  lookup_transaction_id sequence_number = Ok (bs "L" ++ be_encode 3 (sequence_number mod 16777216)).
Proof.
  intros Hs. unfold lookup_transaction_id.
  rewrite (proj2 (Z.leb_le 0 _) Hs). cbn [andb assert_ mbind res_bind].
  rewrite (bool_decide_eq_true_2 (_ < _)) by (by apply Nat.ltb_lt). cbn [assert_ mbind res_bind].
  rewrite bool_decide_eq_true_2; [done|].
  by rewrite length_app, length_be_encode.
Qed.

(** ** Properties *)

(** From well-formed nodes and a target, [select_closest_nodes] returns
    [count] of them (all of them when there are fewer), sorted by XOR distance
    to the target, and no node it leaves out is closer than one it returns. *)
Theorem select_closest_nodes_closest nodes target count :
  length target = NODE_ID_LENGTH ->
  Forall (fun n => length (node_id n) = NODE_ID_LENGTH) nodes ->
  exists result rest,
    select_closest_nodes nodes target count = Ok result /\
    result ++ rest ≡ₚ nodes /\
    length result = min count (length nodes) /\
    StronglySorted (fun x y => distance (node_id x) target <= distance (node_id y) target)%Z result /\
    (forall x y, x ∈ result -> y ∈ rest ->
      (distance (node_id x) target <= distance (node_id y) target)%Z).
Proof.
  intros Ht Hn. set (leb x y := (distance (node_id x) target <=? distance (node_id y) target)%Z).
  assert (forall x y, leb x y = true \/ leb y x = true) as Htot by (unfold leb; lia).
  assert (forall x y z, leb x y = true -> leb y z = true -> leb x z = true) as Htrans
    by (unfold leb; lia).
  exists (take count (sort_by leb nodes)), (drop count (sort_by leb nodes)).
  rewrite take_drop, length_take, length_sort_by.
  split; [by apply select_closest_nodes_eq|]. split; [apply sort_by_Permutation|].
  split; [done|]. split.
  - pose proof (sort_by_Sorted leb Htot Htrans nodes) as Hs.
    rewrite <-(take_drop count (sort_by leb nodes)) in Hs. apply StronglySorted_app in Hs as (_ & Hs & _).
    eapply StronglySorted_impl; [exact Hs|]. intros x y. apply Z.leb_le.
  - intros x y Hx Hy. apply Z.leb_le. eapply (sort_by_take_smallest leb Htot Htrans); eauto.
Qed.

Lemma select_closest_nodes_closest_witness :
  let n (b : byte) := Node (repeat b 20) (bs "1.2.3.4") 6881 in
  let d x := distance (node_id x) (repeat Byte.x04 20) in
  exists result rest,
    select_closest_nodes [n Byte.x09; n Byte.x06; n Byte.x05] (repeat Byte.x04 20) 2 = Ok result /\
    result ++ rest ≡ₚ [n Byte.x09; n Byte.x06; n Byte.x05] /\ length result = 2 /\
    StronglySorted (fun x y => d x <= d y)%Z result /\
    (forall x y, x ∈ result -> y ∈ rest -> (d x <= d y)%Z).
Proof.
  intros n d.
  refine (select_closest_nodes_closest [n Byte.x09; n Byte.x06; n Byte.x05] (repeat Byte.x04 20) 2 _ _);
    [done|by repeat constructor].
Defined.

(** A lookup transaction id is four bytes starting with [L], and two
    sequence numbers get the same id only when they are equal modulo 2^24: the
    ids of any 2^24 consecutive queries are distinct. *)
Theorem lookup_transaction_id_unique m n :
  (0 <= m)%Z -> (0 <= n)%Z ->
  exists s t, lookup_transaction_id m = Ok s /\ lookup_transaction_id n = Ok t /\
    length s = LOOKUP_TRANSACTION_ID_LENGTH /\ take 1 s = LOOKUP_TRANSACTION_PREFIX /\
    (s = t <-> m mod 2 ^ 24 = n mod 2 ^ 24)%Z.
Proof.
  intros Hm Hn. rewrite !lookup_transaction_id_eq by done.
  do 2 eexists. do 2 (split; [done|]). rewrite length_app, length_be_encode.
  do 2 (split; [done|]). change (2 ^ 24)%Z with 16777216%Z.
  split; [|by intros ->]. intros Heq%app_inv_head.
  apply (f_equal be_decode) in Heq. rewrite !be_decode_encode in Heq.
  change (256 ^ Z.of_nat 3)%Z with 16777216%Z in Heq. by rewrite !Z.mod_mod in Heq.
Qed.

Lemma lookup_transaction_id_unique_witness :
  exists s t, lookup_transaction_id 7 = Ok s /\ lookup_transaction_id 16777223 = Ok t /\
    length s = LOOKUP_TRANSACTION_ID_LENGTH /\ take 1 s = LOOKUP_TRANSACTION_PREFIX /\
    (s = t <-> 7 mod 2 ^ 24 = 16777223 mod 2 ^ 24)%Z.
Proof. apply (lookup_transaction_id_unique 7 16777223); lia. Defined.
