(* ===== verification/AddressText.v ===== *)
(** The text of IP addresses.  The dotted quads of IPv4 are modelled; the IPv6
    functions of the C library ([inet_pton], [inet_ntop]), the lenient
    [inet_aton] and [ipaddress.IPv6Address] are the operations of a class
    ([AddressText]) with the behaviour their documentation promises as laws,
    and an instance shows that the laws can hold. *)
From S2P Require Import Prelude Bencode NodeIdentity.

(** The address families of sockets. *)
Inductive family := AF_INET | AF_INET6.

#[global] Instance family_eq_dec : EqDecision family.
Proof. solve_decision. Defined.

(** [l.split(c)] of a one-character separator, and its inverse
    [c.join(parts)]. *)
Fixpoint split_on {A} `{EqDecision A} (c : A) (l : list A) : list (list A) :=
  match l with
  | [] => [[]]
  | x :: l' =>
      if decide (x = c) then [] :: split_on c l'
      else match split_on c l' with
           | [] => [[x]]
           | part :: parts => (x :: part) :: parts
           end
  end.

Fixpoint join_with {A} (c : A) (parts : list (list A)) : list A :=
  match parts with
  | [] => []
  | [part] => part
  | part :: parts' => part ++ c :: join_with c parts'
  end.

Lemma split_on_notin {A} `{EqDecision A} (c : A) part : c ∉ part -> split_on c part = [part].
Proof.
  induction part as [|x part IH]; simpl; [done|].
  rewrite not_elem_of_cons. intros [Hx Hp]. rewrite decide_False by congruence. by rewrite IH.
Qed.

Lemma split_on_app {A} `{EqDecision A} (c : A) part rest :
  c ∉ part -> split_on c (part ++ c :: rest) = part :: split_on c rest.
Proof.
  induction part as [|x part IH]; simpl; intros Hn.
  - by rewrite decide_True.
  - rewrite not_elem_of_cons in Hn. destruct Hn. rewrite decide_False by congruence.
    by rewrite IH.
Qed.

Lemma split_on_join {A} `{EqDecision A} (c : A) parts :
  parts <> [] -> Forall (fun part => c ∉ part) parts -> split_on c (join_with c parts) = parts.
Proof.
  intros Hne Hall. induction Hall as [|part parts Hp Hall IH]; [done|].
  destruct parts as [|part' parts]; [by apply split_on_notin|].
  cbn [join_with] in IH |- *. rewrite split_on_app by done. f_equal. by apply IH.
Qed.

(** ** IPv4 *)

(** The decimal text of an octet. *)
Definition octet_text (b : byte) : text := digits_of (Byte.to_N b).

(** [socket.inet_ntoa] *)
Definition inet_ntoa (packed : bytes) : text := join_with "."%byte (octet_text <$> packed).

Lemma octet_text_digits b : isdigit (octet_text b) = true.
Proof. apply isdigit_digits_of. Qed.

Lemma octet_text_length b : length (octet_text b) <= 3.
Proof. destruct b; vm_compute; lia. Qed.

Lemma octet_text_value b : Z.of_N (value_of (octet_text b)) = b2z b.
Proof. unfold octet_text, b2z. by rewrite value_of_digits. Qed.

Lemma octet_text_notin b c : is_digit c = false -> c ∉ octet_text b.
Proof. intros. apply isdigit_app_notin; [apply octet_text_digits|done]. Qed.

Lemma split_inet_ntoa packed :
  packed <> [] -> split_on "."%byte (inet_ntoa packed) = octet_text <$> packed.
Proof.
  intros Hne. apply split_on_join; [by destruct packed|].
  apply Forall_fmap, Forall_true. intros b. by apply octet_text_notin.
Qed.

Lemma inet_ntoa_no_colon packed : ":"%byte ∉ inet_ntoa packed.
Proof.
  unfold inet_ntoa. induction packed as [|b packed IH]; [apply not_elem_of_nil|].
  assert (":"%byte ∉ octet_text b) as Hb by by apply octet_text_notin.
  destruct packed as [|b' packed]; [done|].
  change (join_with "."%byte (octet_text <$> b :: b' :: packed))
    with (octet_text b ++ "."%byte :: join_with "."%byte (octet_text <$> b' :: packed)).
  rewrite not_elem_of_app, not_elem_of_cons. done.
Qed.

(** ** The operations of the C library and of [ipaddress] *)

(** What the program reads of an [ipaddress.IPv6Address]. *)
Record ipv6_address := Ipv6Address {
  is_global : bool; is_multicast : bool; ipv4_mapped : bool; first_byte : Z }.

(** [inet_aton] and [inet_pton] return [None] where they raise [OSError],
    [parse_ipv6] where [IPv6Address] raises [ValueError]. *)
Class AddressText := {
  inet_aton : text -> option bytes;
  inet_pton6 : text -> option bytes;
  inet_ntop6 : bytes -> text;
  parse_ipv6 : text -> option ipv6_address;
  inet_aton_length ip packed : inet_aton ip = Some packed -> length packed = 4;
  inet_aton_ntoa packed : length packed = 4 -> inet_aton (inet_ntoa packed) = Some packed;
  inet_pton6_length ip packed : inet_pton6 ip = Some packed -> length packed = 16;
  inet_pton6_ntop6 packed : length packed = 16 -> inet_pton6 (inet_ntop6 packed) = Some packed;
  inet_ntop6_colon packed : length packed = 16 -> ":"%byte ∈ inet_ntop6 packed
}.

(** ** An instance: strict dotted quads and IPv6 addresses written in full *)

Definition hex_digits : bytes := bs "0123456789abcdef".
Definition hex_digit (z : Z) : byte := nth (Z.to_nat z) hex_digits "0"%byte.
Definition hex_value (b : byte) : option Z := Z.of_nat <$> find_index b hex_digits.

Definition hex_byte (b : byte) : bytes := [hex_digit (b2z b / 16); hex_digit (b2z b mod 16)].
(** [bytes.hex()] *)
Definition hex (l : bytes) : bytes := concat (hex_byte <$> l).
Definition unhex_byte (hi lo : byte) : option byte :=
  h ← hex_value hi; l ← hex_value lo; Some (z2b (h * 16 + l)).

Lemma unhex_hex_byte b : 
  match hex_byte b with [hi; lo] => unhex_byte hi lo = Some b | _ => False end.
Proof. destruct b; vm_compute; reflexivity. Qed.

(** [bytes.fromhex()] of digits that [hex] writes. *)
Fixpoint fromhex (l : bytes) : option bytes :=
  match l with
  | [] => Some []
  | hi :: lo :: l => b ← unhex_byte hi lo; rest ← fromhex l; Some (b :: rest)
  | _ => None
  end.

Lemma length_hex l : length (hex l) = 2 * length l.
Proof. unfold hex. induction l as [|b l IH]; [done|]. rewrite fmap_cons. cbn [concat]. rewrite length_app, IH. cbn [hex_byte length]. lia. Qed.

Lemma fromhex_hex l : fromhex (hex l) = Some l.
Proof.
  induction l as [|b l IH]; [done|]. pose proof (unhex_hex_byte b) as Hb. unfold hex in *. rewrite fmap_cons. cbn [concat].
  unfold hex_byte in *. cbn [app fromhex]. rewrite Hb. cbn [mbind option_bind]. by rewrite IH.
Qed.

#[global] Instance hex_inj : Inj (=) (=) hex.
Proof. intros x y Hxy. pose proof (fromhex_hex x) as Hx. rewrite Hxy, fromhex_hex in Hx. by injection Hx. Qed.

Definition full_group (hi lo : byte) : bytes := hex_byte hi ++ hex_byte lo.
Fixpoint full_groups (packed : bytes) : list bytes :=
  match packed with hi :: lo :: rest => full_group hi lo :: full_groups rest | _ => [] end.
Definition parse_group (g : bytes) : option bytes :=
  match g with
  | [a; b; c; d] => x ← unhex_byte a b; y ← unhex_byte c d; Some [x; y]
  | _ => None
  end.
Definition full_pton6 (ip : bytes) : option bytes :=
  packed ← @concat byte <$> mapM parse_group (split_on ":"%byte ip);
  if decide (length packed = 16) then Some packed else None.

Definition strict_octet (part : bytes) : option byte :=
  if isdigit part && (Z.of_N (value_of part) <=? 255)%Z
  then Some (z2b (Z.of_N (value_of part))) else None.
Definition strict_aton (ip : bytes) : option bytes :=
  packed ← mapM strict_octet (split_on "."%byte ip);
  if decide (length packed = 4) then Some packed else None.

Lemma strict_octet_text b : strict_octet (octet_text b) = Some b.
Proof.
  unfold strict_octet. rewrite octet_text_digits, octet_text_value.
  pose proof (b2z_range b). rewrite (proj2 (Z.leb_le _ _)) by lia. by rewrite z2b_b2z.
Qed.

Lemma parse_full_group hi lo : parse_group (full_group hi lo) = Some [hi; lo].
Proof.
  pose proof (unhex_hex_byte hi) as Hhi. pose proof (unhex_hex_byte lo) as Hlo.
  unfold full_group, parse_group, hex_byte in *. cbn [app]. by rewrite Hhi, Hlo.
Qed.

Lemma hex_byte_no_colon b : ":"%byte ∉ hex_byte b.
Proof. apply (bool_decide_unpack (_ ∉ _)). by destruct b; vm_compute. Qed.

Lemma full_groups_no_colon packed : Forall (fun g => ":"%byte ∉ g) (full_groups packed).
Proof.
  revert packed. fix IH 1. intros [|hi [|lo rest]]; [constructor..|].
  constructor; [|apply IH]. unfold full_group. rewrite not_elem_of_app.
  split; apply hex_byte_no_colon.
Qed.

Lemma mapM_full_groups packed :
  Nat.Even (length packed) -> @concat byte <$> mapM parse_group (full_groups packed) = Some packed.
Proof.
  revert packed. fix IH 1. intros [|hi [|lo rest]] Heven; [done| |].
  - exfalso. destruct Heven as [n Hn]. cbn in Hn. lia.
  - assert (Nat.Even (length rest)) as Hrest
      by (destruct Heven as [[|n] Hn]; cbn in Hn; [lia|]; exists n; lia).
    specialize (IH rest Hrest). cbn [full_groups mapM]. rewrite parse_full_group.
    destruct (mapM parse_group (full_groups rest)) as [parts|]; [|done].
    cbn in IH |- *. by injection IH as ->.
Qed.

Lemma mapM_strict_octet packed : mapM strict_octet (octet_text <$> packed) = Some packed.
Proof.
  induction packed as [|b packed IH]; [done|].
  rewrite fmap_cons. cbn [mapM]. by rewrite strict_octet_text, IH.
Qed.

#[local, refine] Instance plain_address_text : AddressText := {
  inet_aton := strict_aton;
  inet_pton6 := full_pton6;
  inet_ntop6 packed := join_with ":"%byte (full_groups packed);
  parse_ipv6 ip := packed ← full_pton6 ip;
    Some (Ipv6Address (bool_decide (hd Byte.x00 packed = Byte.x20)) false false (b2z (hd Byte.x00 packed)))
}.
Proof.
  - unfold strict_aton. intros ip packed. destruct (mapM _ _); cbn; [|done].
    case_decide; [|done]. by intros [= <-].
  - intros packed Hl. unfold strict_aton. rewrite split_inet_ntoa by by destruct packed.
    rewrite mapM_strict_octet. cbn. by rewrite decide_True.
  - unfold full_pton6. intros ip packed. destruct (@concat byte <$> _); cbn; [|done].
    case_decide; [|done]. by intros [= <-].
  - intros packed Hl. unfold full_pton6.
    rewrite split_on_join; [|by destruct packed as [|? [|? ?]]|apply full_groups_no_colon].
    rewrite mapM_full_groups by (exists 8; lia). cbn. by rewrite decide_True.
  - intros packed Hl. destruct packed as [|? [|? [|? [|? ?]]]]; try done.
    cbn [full_groups join_with]. rewrite elem_of_app. right.
    destruct (full_groups _); left.
Defined.
