(* ===== verification/Krpc.v ===== *)
(** KRPC messages ([krpc_messages.py]): compact node and peer encodings, the
    routable-address filter, message builders and the readers of received
    messages.  Section [krpc] is stated for any [AddressText]; [hmac_sha1] is
    [hmac.digest(secret, message, "sha1")]. *)
From S2P Require Import Prelude PyDict Bencode NodeIdentity AddressText.
From Stdlib Require Import Btauto.

Definition COMPACT_ADDRESS_LENGTH : nat := 6.
Definition COMPACT_ADDRESS6_LENGTH : nat := 18.
Definition COMPACT_NODE_LENGTH : nat := NODE_ID_LENGTH + COMPACT_ADDRESS_LENGTH.
Definition COMPACT_NODE6_LENGTH : nat := NODE_ID_LENGTH + COMPACT_ADDRESS6_LENGTH.
Definition NODES_KEY : bytes := bs "nodes".
Definition NODES6_KEY : bytes := bs "nodes6".
Definition TOKEN_LENGTH : nat := 8.
Definition ERROR_GENERIC : Z := 201.
Definition ERROR_SERVER : Z := 202.
Definition ERROR_PROTOCOL : Z := 203.
Definition ERROR_METHOD_UNKNOWN : Z := 204.
Definition KNOWN_ERROR_CODES : list Z :=
  [ERROR_GENERIC; ERROR_SERVER; ERROR_PROTOCOL; ERROR_METHOD_UNKNOWN].
Definition QUERY_SAMPLE_INFOHASHES : bytes := bs "sample_infohashes".
Definition MAX_SAMPLE_INTERVAL : Z := 21600.

(** [Message]: a dictionary with bytes keys. *)
Abbreviation message := (list (pykey * pyval)) (only parsing).

Definition address : Type := text * Z.

(** Reading a message back: [m\[key\] == value], [key in m], and the
    dictionary at a key. *)
Definition has_bytes (m : message) (key value : bytes) : bool :=
  match py_get m key with Some (PBytes b) => bool_decide (b = value) | _ => false end.
Definition has_key (m : message) (key : bytes) : bool := bool_decide (is_Some (py_get m key)).
Definition sub_dict (m : message) (key : bytes) : message :=
  match py_get m key with Some (PDict d) => d | _ => [] end.

Definition is_node_id (b : bytes) : bool := bool_decide (length b = NODE_ID_LENGTH).
Lemma is_node_id_true b : is_node_id b = true <-> length b = NODE_ID_LENGTH.
Proof. apply bool_decide_eq_true. Qed.

Lemma is_node_id_of b : length b = NODE_ID_LENGTH -> is_node_id b = true.
Proof. apply is_node_id_true. Qed.

Definition is_nodes_key (b : bytes) : bool :=
  bool_decide (b = NODES_KEY) || bool_decide (b = NODES6_KEY).

(** [range(0, stop, step)] *)
Definition range_step (stop step : nat) : list nat :=
  (fun i => i * step) <$> seq 0 ((stop + step - 1) / step).

(** ** IPv4 addresses the crawler talks to *)

Definition in_list (z : Z) (l : list Z) : bool := existsb (Z.eqb z) l.

Definition is_global_ipv4 (octets : list Z) : res bool :=
  match octets with
  | [first; second; third; _] =>
      Ok (negb (
        in_list first [0; 10; 127] || (224 <=? first)
        || ((first =? 100) && ((64 <=? second) && (second <=? 127)))
        || ((first =? 169) && (second =? 254))
        || ((first =? 172) && ((16 <=? second) && (second <=? 31)))
        || ((first =? 192) && ((second =? 168)
              || ((second =? 0) && in_list third [0; 2])
              || ((second =? 88) && (third =? 99))))
        || ((first =? 198) && (in_list second [18; 19] || ((second =? 51) && (third =? 100))))
        || ((first =? 203) && (second =? 0) && (third =? 113))))%Z
  | _ => Raise AssertionError
  end.

(** ** Builders *)

(** A dictionary literal with bytes keys. *)
Definition literal (items : list (bytes * pyval)) : message :=
  (fun kv => (KBytes kv.1, kv.2)) <$> items.

Definition build_find_node_query (transaction_id node_id target_id : bytes) : res message :=
  assert_ (is_node_id node_id && is_node_id target_id) ;;
  let result := literal [
    (bs "t", PBytes transaction_id);
    (bs "y", PBytes (bs "q"));
    (bs "q", PBytes (bs "find_node"));
    (bs "a", PDict (literal [(bs "id", PBytes node_id); (bs "target", PBytes target_id)]))] in
  assert_ (has_bytes result (bs "y") (bs "q") && has_bytes result (bs "q") (bs "find_node")) ;;
  mret result.

Definition build_ping_response (transaction_id node_id : bytes) : res message :=
  assert_ (is_node_id node_id) ;;
  let result := literal [
    (bs "t", PBytes transaction_id);
    (bs "y", PBytes (bs "r"));
    (bs "r", PDict (literal [(bs "id", PBytes node_id)]))] in
  assert_ (has_bytes result (bs "y") (bs "r") &&
           has_bytes (sub_dict result (bs "r")) (bs "id") node_id) ;;
  mret result.

Definition build_find_node_response (transaction_id node_id compact_nodes nodes_key : bytes)
    : res message :=
  assert_ (is_node_id node_id && is_nodes_key nodes_key) ;;
  let result := literal [
    (bs "t", PBytes transaction_id);
    (bs "y", PBytes (bs "r"));
    (bs "r", PDict (literal [(bs "id", PBytes node_id); (nodes_key, PBytes compact_nodes)]))] in
  assert_ (has_bytes (sub_dict result (bs "r")) nodes_key compact_nodes) ;;
  mret result.

Definition build_get_peers_response
    (transaction_id node_id token compact_nodes nodes_key : bytes) : res message :=
  assert_ (is_node_id node_id && bool_decide (0 < length token) && is_nodes_key nodes_key) ;;
  let result := literal [
    (bs "t", PBytes transaction_id);
    (bs "y", PBytes (bs "r"));
    (bs "r", PDict (literal [(bs "id", PBytes node_id); (bs "token", PBytes token);
                             (nodes_key, PBytes compact_nodes)]))] in
  assert_ (forallb (has_key (sub_dict result (bs "r"))) [bs "id"; bs "token"; nodes_key]) ;;
  mret result.

Definition build_error_response (transaction_id : bytes) (code : Z) (text : bytes) : res message :=
  assert_ (in_list code KNOWN_ERROR_CODES) ;;
  let result := literal [
    (bs "t", PBytes transaction_id);
    (bs "y", PBytes (bs "e"));
    (bs "e", PList [PInt code; PBytes text])] in
  assert_ (has_bytes result (bs "y") (bs "e") &&
           match py_get result (bs "e") with
           | Some (PList [PInt c; PBytes t]) => (c =? code)%Z && bool_decide (t = text)
           | _ => false
           end) ;;
  mret result.

Definition build_get_peers_query (transaction_id node_id info_hash : bytes) : res message :=
  assert_ (is_node_id node_id && is_node_id info_hash) ;;
  let result := literal [
    (bs "t", PBytes transaction_id);
    (bs "y", PBytes (bs "q"));
    (bs "q", PBytes (bs "get_peers"));
    (bs "a", PDict (literal [(bs "id", PBytes node_id); (bs "info_hash", PBytes info_hash)]))] in
  assert_ (has_bytes result (bs "q") (bs "get_peers")) ;;
  mret result.

Definition build_sample_infohashes_query (transaction_id node_id target_id : bytes) : res message :=
  assert_ (is_node_id node_id && is_node_id target_id) ;;
  let result := literal [
    (bs "t", PBytes transaction_id);
    (bs "y", PBytes (bs "q"));
    (bs "q", PBytes QUERY_SAMPLE_INFOHASHES);
    (bs "a", PDict (literal [(bs "id", PBytes node_id); (bs "target", PBytes target_id)]))] in
  assert_ (has_bytes result (bs "q") QUERY_SAMPLE_INFOHASHES) ;;
  mret result.

Definition build_sample_infohashes_response (transaction_id node_id : bytes) (interval : Z)
    (compact_nodes : bytes) (num : Z) (samples nodes_key : bytes) : res message :=
  assert_ (is_node_id node_id && ((0 <=? interval) && (interval <=? MAX_SAMPLE_INTERVAL))%Z
           && is_nodes_key nodes_key) ;;
  assert_ (bool_decide (length samples mod NODE_ID_LENGTH = 0) && (0 <=? num)%Z) ;;
  let result := literal [
    (bs "t", PBytes transaction_id);
    (bs "y", PBytes (bs "r"));
    (bs "r", PDict (literal [(bs "id", PBytes node_id); (bs "interval", PInt interval);
                             (nodes_key, PBytes compact_nodes); (bs "num", PInt num);
                             (bs "samples", PBytes samples)]))] in
  assert_ (forallb (has_key (sub_dict result (bs "r")))
             [bs "interval"; nodes_key; bs "num"; bs "samples"]) ;;
  mret result.

Definition make_token (hmac_sha1 : bytes -> bytes -> bytes) (secret : bytes) (ip : text)
    : res bytes :=
  assert_ (bool_decide (0 < length secret)) ;;
  let result := take TOKEN_LENGTH (hmac_sha1 secret ip) in
  assert_ (bool_decide (length result = TOKEN_LENGTH)) ;;
  mret result.

(** ** Readers *)

Definition decode_samples (data : pyval) : res (list bytes) :=
  match data with
  | PBytes data =>
      let result := (fun offset => slice data offset (offset + NODE_ID_LENGTH)) <$>
        range_step (length data + 1 - NODE_ID_LENGTH) NODE_ID_LENGTH in
      assert_ (bool_decide (length result = length data / NODE_ID_LENGTH)) ;;
      mret result
  | _ => mret []
  end.

Definition read_error_code (m : message) : option Z :=
  match py_get m (bs "e") with
  | Some (PList (PInt code :: _)) => Some code
  | _ => None
  end.

Definition read_announced_port (args : message) (source_port : Z) : res (option Z) :=
  assert_ ((0 <=? source_port) && (source_port <=? 65535))%Z ;;
  let port := match py_get args (bs "implied_port") with
              | Some (PInt implied) =>
                  if (implied =? 0)%Z then py_get args (bs "port") else Some (PInt source_port)
              | _ => py_get args (bs "port")
              end in
  let result := match port with
                | Some (PInt p) => if ((0 <? p) && (p <=? 65535))%Z then Some p else None
                | _ => None
                end in
  assert_ (match result with None => true | Some p => (0 <? p) && (p <=? 65535) end)%Z ;;
  mret result.

Section krpc.
Context `{AddressText}.

(** [struct.pack("!H", port)] and [struct.unpack("!H", data)] are [be_encode 2]
    and [be_decode]. *)
Definition encode_compact_address (ip : text) (port : Z) : res bytes :=
  assert_ ((0 <=? port) && (port <=? 65535))%Z ;;
  packed ← match (if bool_decide (":"%byte ∈ ip) then inet_pton6 ip else inet_aton ip) with
           | Some packed => Ok packed
           | None => Raise OSError
           end;
  let result := packed ++ be_encode 2 port in
  assert_ (bool_decide (length result = COMPACT_ADDRESS_LENGTH) ||
           bool_decide (length result = COMPACT_ADDRESS6_LENGTH)) ;;
  mret result.

Definition decode_compact_address (data : bytes) : res address :=
  assert_ (bool_decide (length data = COMPACT_ADDRESS_LENGTH) ||
           bool_decide (length data = COMPACT_ADDRESS6_LENGTH)) ;;
  let ip := if bool_decide (length data = COMPACT_ADDRESS6_LENGTH)
            then inet_ntop6 (take 16 data) else inet_ntoa (take 4 data) in
  let port := be_decode (drop (length data - 2) data) in
  assert_ ((0 <=? port) && (port <=? 65535))%Z ;;
  mret (ip, port).

Definition encode_compact_nodes (nodes : list node) : res bytes :=
  assert_ (forallb (fun n => is_node_id (node_id n)) nodes) ;;
  parts ← sequence ((fun n =>
    a ← encode_compact_address (node_ip n) (node_port n); mret (node_id n ++ a)) <$> nodes);
  let result := concat parts in
  assert_ (bool_decide (length result = COMPACT_NODE_LENGTH * length nodes) ||
           bool_decide (length result = COMPACT_NODE6_LENGTH * length nodes)) ;;
  mret result.

Definition is_global_ipv6 (ip : text) : res bool :=
  assert_ (bool_decide (":"%byte ∈ ip)) ;;
  match parse_ipv6 ip with
  | None => mret false
  | Some parsed =>
      mret (is_global parsed && negb (is_multicast parsed) && negb (ipv4_mapped parsed)
            && (Z.land (first_byte parsed) 0xE0 =? 0x20)%Z)
  end.

Definition is_routable_address (ip : text) (port : Z) : res bool :=
  if bool_decide (":"%byte ∈ ip) then
    if ((0 <? port) && (port <=? 65535))%Z then is_global_ipv6 ip else mret false
  else
    let parts := split_on "."%byte ip in
    if negb ((0 <? port) && (port <=? 65535))%Z || negb (bool_decide (length parts = 4))
       || negb (forallb (fun part => isdigit part && bool_decide (length part <= 3)) parts)
    then mret false
    else
      let octets := (fun part => Z.of_N (value_of part)) <$> parts in
      if (foldr Z.max 0 octets <=? 255)%Z then is_global_ipv4 octets else mret false.

(** The body of the loop of [decode_compact_nodes]. *)
Definition decode_node_at (data : bytes) (entry_length offset : nat) : res node :=
  let id := slice data offset (offset + NODE_ID_LENGTH) in
  a ← decode_compact_address (slice data (offset + NODE_ID_LENGTH) (offset + entry_length));
  mret (Node id a.1 a.2).

Definition decode_compact_nodes (data : bytes) (entry_length : nat) : res (list node) :=
  nodes ← sequence (decode_node_at data entry_length <$>
    range_step (length data + 1 - entry_length) entry_length);
  assert_ (bool_decide (length nodes = length data / entry_length)) ;;
  mret nodes.

Definition decode_compact_nodes6 (data : bytes) : res (list node) :=
  result ← decode_compact_nodes data COMPACT_NODE6_LENGTH;
  assert_ (bool_decide (length result = length data / COMPACT_NODE6_LENGTH)) ;;
  mret result.

Definition encode_compact_peers (peers : list address) : res (list bytes) :=
  result ← sequence ((fun peer : address => encode_compact_address peer.1 peer.2) <$> peers);
  assert_ (bool_decide (length result = length peers)) ;;
  mret result.

(** [isinstance(item, bytes) and len(item) in (6, 18)] *)
Definition compact_peer_bytes (item : pyval) : option bytes :=
  match item with
  | PBytes b => if bool_decide (length b = COMPACT_ADDRESS_LENGTH) ||
                   bool_decide (length b = COMPACT_ADDRESS6_LENGTH) then Some b else None
  | _ => None
  end.

Definition decode_compact_peers (values : pyval) : res (list address) :=
  match values with
  | PList values =>
      result ← sequence (decode_compact_address <$> omap compact_peer_bytes values);
      assert_ (forallb (fun peer : address => (0 <=? peer.2) && (peer.2 <=? 65535))%Z result) ;;
      mret result
  | _ => mret []
  end.

(** ** Lemmas: compact addresses *)

(** The text of the address a compact form holds. *)
Definition compact_ip (packed : bytes) : text :=
  if bool_decide (length packed = 16) then inet_ntop6 packed else inet_ntoa packed.

Lemma encode_compact_ip packed port :
  length packed = 4 \/ length packed = 16 -> (0 <= port <= 65535)%Z ->
  encode_compact_address (compact_ip packed) port = Ok (packed ++ be_encode 2 port).
Proof.
  intros Hl Hp. unfold encode_compact_address, compact_ip. bools.
  destruct Hl as [Hl|Hl]; rewrite Hl; simpl (bool_decide _).
  - rewrite bool_decide_eq_false_2 by apply inet_ntoa_no_colon.
    rewrite inet_aton_ntoa by done. cbn [mbind res_bind].
    rewrite (bool_decide_eq_true_2 (_ = COMPACT_ADDRESS_LENGTH)); [done|].
    by rewrite length_app, Hl.
  - rewrite bool_decide_eq_true_2 by by apply inet_ntop6_colon.
    rewrite inet_pton6_ntop6 by done. cbn [mbind res_bind].
    rewrite (bool_decide_eq_true_2 (_ = COMPACT_ADDRESS6_LENGTH)); [by rewrite orb_true_r|].
    by rewrite length_app, Hl.
Qed.

Lemma decode_compact_ip packed tail :
  length packed = 4 \/ length packed = 16 -> length tail = 2 ->
  decode_compact_address (packed ++ tail) = Ok (compact_ip packed, be_decode tail).
Proof.
  intros Hl Ht. unfold decode_compact_address, compact_ip. rewrite length_app, Ht.
  pose proof (be_decode_range tail) as Hr. rewrite Ht in Hr. change (256 ^ Z.of_nat 2)%Z with 65536%Z in Hr.
  replace (length packed + 2 - 2) with (length packed) by lia. rewrite drop_app_length.
  destruct Hl as [Hl|Hl]; rewrite Hl; simpl (bool_decide _);
    cbn [orb assert_ mbind res_bind]; rewrite take_app_length' by done; by bools.
Qed.

(** Any six or eighteen bytes are a compact address, and encoding what they
    decode to gives them back. *)
Lemma decode_compact_address_inverse data :
  length data = COMPACT_ADDRESS_LENGTH \/ length data = COMPACT_ADDRESS6_LENGTH ->
  exists ip port, decode_compact_address data = Ok (ip, port) /\ (0 <= port <= 65535)%Z /\
    encode_compact_address ip port = Ok data.
Proof.
  intros Hl. rewrite <-(take_drop (length data - 2) data).
  assert (length (drop (length data - 2) data) = 2) as Htail
    by (rewrite length_drop; destruct Hl as [-> | ->]; done).
  assert (length (take (length data - 2) data) = 4 \/ length (take (length data - 2) data) = 16) as Hpacked
    by (rewrite length_take; destruct Hl as [-> | ->]; auto).
  revert Htail Hpacked. generalize (drop (length data - 2) data) (take (length data - 2) data).
  intros tail packed Htail Hpacked.
  pose proof (be_decode_range tail) as Hr. rewrite Htail in Hr. change (256 ^ Z.of_nat 2)%Z with 65536%Z in Hr.
  eexists _, _. split; [by apply decode_compact_ip|]. split; [lia|].
  rewrite encode_compact_ip by (done || lia). by rewrite <-Htail, be_encode_decode.
Qed.

(** ** Lemmas: entries of a fixed length *)

Lemma range_step_entries len step :
  0 < step -> range_step (len + 1 - step) step = (fun i => i * step) <$> seq 0 (len / step).
Proof.
  intros Hs. unfold range_step. do 2 f_equal.
  destruct (decide (step <= len)) as [Hle|Hlt].
  - f_equal. lia.
  - rewrite !Nat.div_small; [done|lia..].
Qed.

Lemma concat_entries {A} (l : list A) step n :
  n * step <= length l ->
  concat ((fun i => slice l (i * step) (i * step + step)) <$> seq 0 n) = take (n * step) l.
Proof.
  induction n as [|n IH]; intros Hn; [done|].
  rewrite seq_S, fmap_app, concat_app, IH by lia. cbn. rewrite app_nil_r. unfold slice.
  replace (n * step + step - n * step) with step by lia.
  rewrite take_take_drop. f_equal. lia.
Qed.

Lemma entry_length_small e data i :
  0 < e -> i ∈ seq 0 (length data / e) -> i * e + e <= length (data : bytes).
Proof.
  intros He Hi. apply elem_of_seq in Hi. pose proof (Nat.Div0.mul_div_le (length data) e). nia.
Qed.

(** One entry of a compact node list. *)
Definition node_entry (e : nat) (data : bytes) (offset : nat) (n : node) : Prop :=
  length (node_id n) = NODE_ID_LENGTH /\ (0 <= node_port n <= 65535)%Z /\
  (a ← encode_compact_address (node_ip n) (node_port n); mret (node_id n ++ a)) =
    Ok (slice data offset (offset + e)).

Lemma decode_entry e data offset :
  e = COMPACT_NODE_LENGTH \/ e = COMPACT_NODE6_LENGTH -> offset + e <= length data ->
  exists n, decode_node_at data e offset = Ok n /\ node_entry e data offset n.
Proof.
  unfold decode_node_at.
  intros He Hl. assert (NODE_ID_LENGTH <= e) by (destruct He as [-> | ->]; apply Nat.leb_le; done).
  destruct (decode_compact_address_inverse (slice data (offset + NODE_ID_LENGTH) (offset + e)))
    as (ip & port & Hd & Hp & Hen).
  { rewrite length_slice, Nat.min_l by lia.
    destruct He as [-> | ->]; [left|right]; unfold COMPACT_NODE_LENGTH, COMPACT_NODE6_LENGTH; lia. }
  rewrite Hd. eexists. split; [done|]. split; [|split].
  - cbn. rewrite length_slice. lia.
  - done.
  - cbn [node_ip node_port node_id fst snd]. rewrite Hen. cbn. f_equal. unfold slice.
    replace (offset + NODE_ID_LENGTH - offset) with NODE_ID_LENGTH by lia.
    replace (offset + e - offset) with (NODE_ID_LENGTH + (offset + e - (offset + NODE_ID_LENGTH))) by lia.
    by rewrite <-take_take_drop, drop_drop.
Qed.
End krpc.

(** ** The special-purpose IPv4 networks *)

(** A network as its first address and prefix length; membership is equality of
    the prefixes. *)
Definition ipv4_networks : list (bytes * Z) :=
  let net a b c d := [z2b a; z2b b; z2b c; z2b d] in
  [(net 0 0 0 0, 8); (net 10 0 0 0, 8); (net 100 64 0 0, 10); (net 127 0 0 0, 8);
   (net 169 254 0 0, 16); (net 172 16 0 0, 12); (net 192 0 0 0, 24); (net 192 0 2 0, 24);
   (net 192 88 99 0, 24); (net 192 168 0 0, 16); (net 198 18 0 0, 15); (net 198 51 100 0, 24);
   (net 203 0 113 0, 24); (net 224 0 0 0, 3)]%Z.

Definition in_network (packed : bytes) (network : bytes * Z) : bool :=
  (Z.shiftr (be_decode packed) (32 - network.2) =? Z.shiftr (be_decode network.1) (32 - network.2))%Z.

(** The prefix of an address given by its four octets. *)
Definition ipv4_number (x y z w : Z) : Z := (((x * 256 + y) * 256 + z) * 256 + w)%Z.

Lemma in_network_div a b c d network len :
  (0 <= len <= 32)%Z ->
  in_network [a; b; c; d] (network, len) =
  (ipv4_number (b2z a) (b2z b) (b2z c) (b2z d) / 2 ^ (32 - len) =?
   Z.shiftr (be_decode network) (32 - len))%Z.
Proof.
  intros Hl. unfold in_network. cbn [fst snd]. by rewrite (Z.shiftr_div_pow2 (be_decode _)) by lia.
Qed.

Lemma ipv4_prefixes x y z w :
  (0 <= x < 256)%Z -> (0 <= y < 256)%Z -> (0 <= z < 256)%Z -> (0 <= w < 256)%Z ->
  let n := ipv4_number x y z w in
  (n / 536870912 = x / 32 /\ n / 16777216 = x /\ n / 4194304 = x * 4 + y / 64 /\
   n / 1048576 = x * 16 + y / 16 /\ n / 131072 = x * 128 + y / 2 /\
   n / 65536 = x * 256 + y /\ n / 256 = x * 65536 + y * 256 + z)%Z.
Proof. intros Hx Hy Hz Hw n. unfold n, ipv4_number. repeat split; lia_div. Qed.

(** The octet tests that a prefix test amounts to. *)
Lemma ipv4_prefix_tests x y z :
  (0 <= x < 256)%Z -> (0 <= y < 256)%Z -> (0 <= z < 256)%Z ->
  ((x / 32 =? 7) = (224 <=? x) /\
   (x * 4 + y / 64 =? 401) = ((x =? 100) && ((64 <=? y) && (y <=? 127))) /\
   (x * 16 + y / 16 =? 2753) = ((x =? 172) && ((16 <=? y) && (y <=? 31))) /\
   (x * 128 + y / 2 =? 25353) = ((x =? 198) && ((y =? 18) || (y =? 19))) /\
   (x * 256 + y =? 43518) = ((x =? 169) && (y =? 254)) /\
   (x * 256 + y =? 49320) = ((x =? 192) && (y =? 168)) /\
   (x * 65536 + y * 256 + z =? 12582912) = ((x =? 192) && (y =? 0) && (z =? 0)) /\
   (x * 65536 + y * 256 + z =? 12582914) = ((x =? 192) && (y =? 0) && (z =? 2)) /\
   (x * 65536 + y * 256 + z =? 12605539) = ((x =? 192) && (y =? 88) && (z =? 99)) /\
   (x * 65536 + y * 256 + z =? 12989284) = ((x =? 198) && (y =? 51) && (z =? 100)) /\
   (x * 65536 + y * 256 + z =? 13303921) = ((x =? 203) && (y =? 0) && (z =? 113)))%Z.
Proof. intros Hx Hy Hz. repeat split; apply eq_true_iff_eq; lia_div. Qed.

Lemma is_global_ipv4_networks a b c d :
  is_global_ipv4 [b2z a; b2z b; b2z c; b2z d] =
    Ok (negb (existsb (in_network [a; b; c; d]) ipv4_networks)).
Proof.
  unfold is_global_ipv4, ipv4_networks. cbn [existsb]. rewrite !in_network_div by lia.
  pose proof (b2z_range a) as Hx. pose proof (b2z_range b) as Hy.
  pose proof (b2z_range c) as Hz. pose proof (b2z_range d) as Hw.
  revert Hx Hy Hz Hw. generalize (b2z a) (b2z b) (b2z c) (b2z d). intros x y z w Hx Hy Hz Hw.
  do 2 f_equal.
  repeat match goal with |- context [Z.shiftr ?u ?v] =>
    let r := eval vm_compute in (Z.shiftr u v) in change (Z.shiftr u v) with r end.
  repeat match goal with |- context [(2 ^ ?v)%Z] =>
    let r := eval vm_compute in (2 ^ v)%Z in change (2 ^ v)%Z with r end.
  destruct (ipv4_prefixes x y z w Hx Hy Hz Hw) as (-> & -> & -> & -> & -> & -> & ->).
  destruct (ipv4_prefix_tests x y z Hx Hy Hz)
    as (-> & -> & -> & -> & -> & -> & -> & -> & -> & -> & ->).
  unfold in_list. cbn [existsb]. btauto.
Qed.

Section properties.
Context `{AddressText}.

Lemma decode_compact_nodes_entries e data :
  e = COMPACT_NODE_LENGTH \/ e = COMPACT_NODE6_LENGTH ->
  exists nodes, decode_compact_nodes data e = Ok nodes /\
    Forall2 (node_entry e data) ((fun i => i * e) <$> seq 0 (length data / e)) nodes.
Proof.
  intros He. assert (0 < e) as He0 by (by destruct He as [-> | ->]; apply Nat.ltb_lt).
  unfold decode_compact_nodes. rewrite range_step_entries by done.
  destruct (sequence_fmap_Forall2 (decode_node_at data e) (node_entry e data) ((fun i => i * e) <$> seq 0 (length data / e)))
    as (nodes & Hs & Hn).
  { intros offset (i & -> & Hi)%list_elem_of_fmap. apply decode_entry; [done|].
    by apply entry_length_small. }
  exists nodes. split; [|done]. rewrite Hs. cbn [mbind res_bind].
  apply Forall2_length in Hn as Hlen. rewrite length_fmap, length_seq in Hlen. by bools.
Qed.

Lemma encode_compact_entries e data offsets nodes :
  Forall2 (node_entry e data) offsets nodes ->
  forallb (fun n => is_node_id (node_id n)) nodes = true /\
  sequence ((fun n => a ← encode_compact_address (node_ip n) (node_port n);
                      mret (node_id n ++ a)) <$> nodes) =
    Ok ((fun offset => slice data offset (offset + e)) <$> offsets).
Proof.
  induction 1 as [|offset n offsets nodes (Hid & Hp & Hen) _ [IH1 IH2]]; [done|].
  rewrite !fmap_cons. cbn [forallb sequence]. rewrite Hen, IH1, IH2.
  unfold is_node_id. by bools.
Qed.

Lemma encode_compact_nodes_entries e data nodes :
  e = COMPACT_NODE_LENGTH \/ e = COMPACT_NODE6_LENGTH ->
  Forall2 (node_entry e data) ((fun i => i * e) <$> seq 0 (length data / e)) nodes ->
  encode_compact_nodes nodes = Ok (take (length data / e * e) data).
Proof.
  intros He Hn. apply Forall2_length in Hn as Hlen. rewrite length_fmap, length_seq in Hlen.
  destruct (encode_compact_entries e data _ nodes Hn) as [Hid Hs].
  unfold encode_compact_nodes. rewrite Hid, Hs. cbn [assert_ mbind res_bind].
  pose proof (Nat.Div0.mul_div_le (length data) e).
  rewrite <-list_fmap_compose. unfold compose. rewrite concat_entries by lia.
  rewrite length_take, Nat.min_l, <-Hlen by lia.
  replace (bool_decide _ || bool_decide _) with true; [done|]. symmetry.
  rewrite orb_true_iff, !bool_decide_eq_true. destruct He as [-> | ->]; [left|right]; lia.
Qed.

(** C35. A compact node list of either family decodes whatever its bytes: the
    result has one node per whole entry, with ids of 20 bytes and ports of 16
    bits, and encoding it gives back exactly the whole entries of the input. *)
Theorem decode_compact_nodes_exact e data :
  e = COMPACT_NODE_LENGTH \/ e = COMPACT_NODE6_LENGTH ->
  exists nodes, decode_compact_nodes data e = Ok nodes /\
    length nodes = length data / e /\
    Forall (fun n => length (node_id n) = NODE_ID_LENGTH /\ (0 <= node_port n <= 65535)%Z) nodes /\
    encode_compact_nodes nodes = Ok (take (length data / e * e) data).
Proof.
  intros He. destruct (decode_compact_nodes_entries e data He) as (nodes & Hd & Hn).
  exists nodes. split; [done|]. split.
  { apply Forall2_length in Hn. by rewrite length_fmap, length_seq in Hn. }
  split; [|by apply encode_compact_nodes_entries].
  eapply Forall2_Forall_r; [exact Hn|]. apply Forall_true. by intros offset n (? & ? & _).
Qed.

(** A dotted quad is routable exactly when the port is in 1..65535 and the
    address is in none of the special-purpose networks of RFC 6890 (with
    multicast and above). *)
Theorem is_routable_address_ipv4 packed port :
  length packed = 4 ->
  is_routable_address (inet_ntoa packed) port =
    Ok (((0 <? port) && (port <=? 65535))%Z &&
        negb (existsb (in_network packed) ipv4_networks)).
Proof.
  intros Hl. unfold is_routable_address.
  rewrite bool_decide_eq_false_2 by apply inet_ntoa_no_colon.
  rewrite split_inet_ntoa by by destruct packed. cbn zeta.
  destruct ((0 <? port) && (port <=? 65535))%Z; [|done].
  rewrite length_fmap, Hl.
  destruct packed as [|a [|b [|c [|d [|]]]]]; try done. cbn [fmap list_fmap forallb].
  rewrite !octet_text_digits.
  rewrite !(bool_decide_eq_true_2 (length (octet_text _) <= 3)) by apply octet_text_length.
  cbn [negb orb andb bool_decide]. rewrite !octet_text_value.
  pose proof (b2z_range a). pose proof (b2z_range b).
  pose proof (b2z_range c). pose proof (b2z_range d).
  cbn [foldr]. rewrite (proj2 (Z.leb_le _ _)) by lia. apply is_global_ipv4_networks.
Qed.

Lemma decode_samples_bytes data :
  exists samples, decode_samples (PBytes data) = Ok samples /\
    length samples = length data / NODE_ID_LENGTH /\
    Forall (fun s => length s = NODE_ID_LENGTH) samples /\
    concat samples = take (length data / NODE_ID_LENGTH * NODE_ID_LENGTH) data.
Proof.
  pose proof (Nat.Div0.mul_div_le (length data) NODE_ID_LENGTH) as Hle.
  assert (0 < NODE_ID_LENGTH) as H0 by by apply Nat.ltb_lt.
  unfold decode_samples. rewrite range_step_entries, <-list_fmap_compose by done. unfold compose.
  eexists. split; [rewrite length_fmap, length_seq; bools; reflexivity|].
  rewrite length_fmap, length_seq. split; [done|]. split; [|apply concat_entries; lia].
  apply Forall_fmap, Forall_forall. intros i Hi. unfold compose. rewrite length_slice.
  apply entry_length_small in Hi; lia.
Qed.

Lemma decode_compact_peers_total values :
  exists peers, decode_compact_peers values = Ok peers /\
    Forall (fun peer : address => 0 <= peer.2 <= 65535)%Z peers.
Proof.
  unfold decode_compact_peers. destruct values; try (eexists; split; [done|constructor]).
  destruct (sequence_fmap_Forall2 decode_compact_address
    (fun _ (peer : address) => 0 <= peer.2 <= 65535)%Z (omap compact_peer_bytes l))
    as (peers & Hs & Hp).
  { intros b (v & _ & Hv)%list_elem_of_omap. unfold compact_peer_bytes in Hv.
    destruct v; try done. destruct (_ || _) eqn:Hb; [|done]. injection Hv as ->.
    rewrite orb_true_iff, !bool_decide_eq_true in Hb.
    destruct (decode_compact_address_inverse b Hb) as (ip & port & ? & ? & _). by exists (ip, port). }
  rewrite Hs. cbn [mbind res_bind].
  assert (Forall (fun peer : address => 0 <= peer.2 <= 65535)%Z peers) as Hall
    by (eapply Forall2_Forall_r; [exact Hp|]; by apply Forall_true).
  exists peers. split; [|done].
  replace (forallb _ _) with true; [done|]. symmetry. apply forallb_forall.
  rewrite Forall_forall in Hall. intros peer Hin%list_elem_of_In%Hall. lia.
Qed.

(** The address filter gives an answer for every text. *)
Lemma is_routable_address_total ip port : exists b, is_routable_address ip port = Ok b.
Proof.
  unfold is_routable_address. case_bool_decide as Hc.
  - destruct ((0 <? port) && (port <=? 65535))%Z; [|by eexists]. unfold is_global_ipv6.
    rewrite bool_decide_eq_true_2 by done. destruct (parse_ipv6 ip); by eexists.
  - set (parts := split_on _ ip). destruct (_ || _ || _) eqn:Hbad; [by eexists|].
    rewrite !orb_false_iff in Hbad. destruct Hbad as [[_ Hlen%negb_false_iff%bool_decide_eq_true] _].
    destruct parts as [|a [|b [|c [|d [|]]]]]; try done. rewrite !fmap_cons, fmap_nil.
    destruct (_ <=? 255)%Z; by eexists.
Qed.

(** The nodes of a compact list have ids of the right length. *)
Lemma decode_compact_nodes_total e data :
  e = COMPACT_NODE_LENGTH \/ e = COMPACT_NODE6_LENGTH ->
  exists nodes, decode_compact_nodes data e = Ok nodes /\ length nodes = length data / e /\
    Forall (fun n => length (node_id n) = NODE_ID_LENGTH) nodes.
Proof.
  intros He. destruct (decode_compact_nodes_entries e data He) as (nodes & Hn & Hall).
  exists nodes. split; [done|]. split.
  - apply Forall2_length in Hall. by rewrite length_fmap, length_seq in Hall.
  - eapply Forall2_Forall_r; [exact Hall|]. apply Forall_true. by intros offset n (Hid & _).
Qed.

(** The readers of a response's [values] and [samples] accept any bencode
    value: they never raise, they return only addresses with 16-bit ports and
    only 20-byte hashes, and the samples are the whole entries of the bytes. *)
Theorem response_readers_total values :
  (exists peers, decode_compact_peers values = Ok peers /\
     Forall (fun peer : address => 0 <= peer.2 <= 65535)%Z peers) /\
  (exists samples, decode_samples values = Ok samples /\
     Forall (fun s => length s = NODE_ID_LENGTH) samples /\
     (forall data, values = PBytes data ->
        concat samples = take (length data / NODE_ID_LENGTH * NODE_ID_LENGTH) data)).
Proof.
  split.
  - apply decode_compact_peers_total.
  - destruct values; try (eexists; split; [done|]; split; [constructor|done]).
    destruct (decode_samples_bytes b) as (samples & Hd & _ & Hl & Hc).
    exists samples. split; [done|]. split; [done|]. by intros data [= <-].
Qed.
End properties.

Lemma decode_compact_nodes_exact_witness :
  exists nodes,
    @decode_compact_nodes plain_address_text (repeat Byte.x01 55) COMPACT_NODE_LENGTH = Ok nodes /\
    length nodes = 2 /\
    Forall (fun n => length (node_id n) = NODE_ID_LENGTH /\ (0 <= node_port n <= 65535)%Z) nodes /\
    @encode_compact_nodes plain_address_text nodes = Ok (repeat Byte.x01 52).
Proof.
  refine (@decode_compact_nodes_exact plain_address_text COMPACT_NODE_LENGTH (repeat Byte.x01 55) _).
  left. reflexivity.
Defined.

Lemma is_routable_address_ipv4_witness :
  @is_routable_address plain_address_text (bs "8.8.4.4") 6881 = Ok true /\
  @is_routable_address plain_address_text (bs "192.168.1.1") 6881 = Ok false.
Proof.
  split.
  - refine (@is_routable_address_ipv4 plain_address_text [Byte.x08; Byte.x08; Byte.x04; Byte.x04] 6881 _).
    reflexivity.
  - refine (@is_routable_address_ipv4 plain_address_text [Byte.xc0; Byte.xa8; Byte.x01; Byte.x01] 6881 _).
    reflexivity.
Defined.
