(* ===== verification/KrpcReplies.v ===== *)
(** The messages the crawler sends can be built and encoded: each builder of
    [krpc_messages.py] returns on the arguments it is given, and what it returns
    always encodes. *)
From S2P Require Import Prelude PyDict Bencode NodeIdentity AddressText Krpc.

(** ** Values of a message that always encode *)

Lemma small_nat n : (Z.of_nat n < 2 ^ 64)%Z -> small (Z.of_nat n) = true.
Proof. intros Hn. apply Z.ltb_lt. lia. Qed.

(** Bytes of a length that one datagram or a few node lists can have. *)
Definition short (b : bytes) : Prop := (Z.of_nat (length b) <= 100000)%Z.

Lemma encodable_short b : short b -> encodable (PBytes b) = true.
Proof. intros Hb. apply small_nat. unfold short in Hb. lia. Qed.

Lemma short_length b n : length b = n -> (Z.of_nat n <= 100000)%Z -> short b.
Proof. by intros <-. Qed.

Lemma encodable_literal items :
  (forall kv, kv ∈ items -> short kv.1 /\ encodable kv.2 = true) -> encodable (PDict (literal items)) = true.
Proof.
  intros Hi. cbn [encodable]. apply forallb_forall. intros kv Hin%list_elem_of_In.
  apply list_elem_of_fmap in Hin as ([k v] & -> & Hin). destruct (Hi _ Hin) as [Hk Hv].
  simpl in *. rewrite Hv, andb_true_r. by apply encodable_short.
Qed.

Lemma encodable_item k v items :
  (forall kv, kv ∈ items -> short kv.1 /\ encodable kv.2 = true) -> short k -> encodable v = true ->
  forall kv, kv ∈ (k, v) :: items -> short kv.1 /\ encodable kv.2 = true.
Proof. intros Hi Hk Hv kv [->|Hin]%elem_of_cons; auto. Qed.

Lemma encodable_nothing (kv : bytes * pyval) : kv ∈ [] -> short kv.1 /\ encodable kv.2 = true.
Proof. by intros ?%elem_of_nil. Qed.

Lemma node_id_short b : length b = NODE_ID_LENGTH -> short b.
Proof. intros Hb. eapply short_length; [done|]. unfold NODE_ID_LENGTH. lia. Qed.

(** A message literal encodes when its parts do. *)
Ltac is_short := first [assumption | apply node_id_short; assumption | unfold short; vm_compute; discriminate].
Ltac encodes :=
  first [assumption
        |apply encodable_short; is_short
        |apply encodable_literal; repeat (apply encodable_item; [|is_short|encodes]); apply encodable_nothing].

(** [m] is built by [r], and encodes. *)
Definition sends (r : res (list (pykey * pyval))) (m : list (pykey * pyval)) : Prop :=
  r = Ok m /\ encodable (PDict m) = true.

Ltac build r :=
  unfold r; rewrite ?is_node_id_of by done; cbn [andb assert_ mbind res_bind];
  eexists; split; [split; [reflexivity|encodes]|].

Lemma find_node_query_sends t id target :
  short t -> length id = NODE_ID_LENGTH -> length target = NODE_ID_LENGTH ->
  exists m, sends (build_find_node_query t id target) m /\ has_bytes m (bs "q") (bs "find_node") = true.
Proof. intros Ht Hid Htarget. build build_find_node_query. reflexivity. Qed.

Lemma sample_infohashes_query_sends t id target :
  short t -> length id = NODE_ID_LENGTH -> length target = NODE_ID_LENGTH ->
  exists m, sends (build_sample_infohashes_query t id target) m /\
    has_bytes m (bs "q") QUERY_SAMPLE_INFOHASHES = true.
Proof. intros Ht Hid Htarget. build build_sample_infohashes_query. reflexivity. Qed.

Lemma get_peers_query_sends t id h :
  short t -> length id = NODE_ID_LENGTH -> length h = NODE_ID_LENGTH ->
  exists m, sends (build_get_peers_query t id h) m /\ has_bytes m (bs "q") (bs "get_peers") = true.
Proof. intros Ht Hid Hh. build build_get_peers_query. reflexivity. Qed.

Lemma has_bytes_same d key b : py_get d key = Some (PBytes b) -> has_bytes d key b = true.
Proof. unfold has_bytes. intros ->. by apply bool_decide_eq_true_2. Qed.

Lemma ping_response_sends t id :
  short t -> length id = NODE_ID_LENGTH ->
  exists m, sends (build_ping_response t id) m /\
    m = literal [(bs "t", PBytes t); (bs "y", PBytes (bs "r")); (bs "r", PDict (literal [(bs "id", PBytes id)]))].
Proof.
  intros Ht Hid. unfold build_ping_response. rewrite is_node_id_of by done. cbn [assert_ mbind res_bind].
  rewrite (has_bytes_same (sub_dict _ _)) by reflexivity.
  eexists. split; [split; [reflexivity|encodes]|reflexivity].
Qed.

Lemma is_nodes_key_cases key : is_nodes_key key = true -> key = NODES_KEY \/ key = NODES6_KEY.
Proof. unfold is_nodes_key. rewrite orb_true_iff, !bool_decide_eq_true. tauto. Qed.

Lemma find_node_response_sends t id compact key :
  short t -> length id = NODE_ID_LENGTH -> short compact -> is_nodes_key key = true ->
  exists m, sends (build_find_node_response t id compact key) m.
Proof.
  intros Ht Hid Hc Hk. unfold build_find_node_response. rewrite is_node_id_of, Hk by done.
  cbn [andb assert_ mbind res_bind]. apply is_nodes_key_cases in Hk as [-> | ->]; eexists.
  all: rewrite (has_bytes_same (sub_dict _ _)) by reflexivity; split; [reflexivity|encodes].
Qed.

Lemma get_peers_response_sends t id token compact key :
  short t -> length id = NODE_ID_LENGTH -> length token = TOKEN_LENGTH -> short compact ->
  is_nodes_key key = true -> exists m, sends (build_get_peers_response t id token compact key) m.
Proof.
  intros Ht Hid Htoken Hc Hk. unfold build_get_peers_response. rewrite is_node_id_of, Hk by done.
  rewrite bool_decide_eq_true_2 by (rewrite Htoken; unfold TOKEN_LENGTH; lia).
  cbn [andb assert_ mbind res_bind]. assert (short token) by (eapply short_length; [done|by unfold TOKEN_LENGTH]).
  apply is_nodes_key_cases in Hk as [-> | ->]; eexists; (split; [reflexivity|encodes]).
Qed.

Lemma sample_response_sends t id compact num samples key :
  short t -> length id = NODE_ID_LENGTH -> short compact -> (0 <= num <= 100000)%Z ->
  short samples -> length samples mod NODE_ID_LENGTH = 0 -> is_nodes_key key = true ->
  exists m, sends (build_sample_infohashes_response t id 300 compact num samples key) m.
Proof.
  intros Ht Hid Hc Hn Hs Hmod Hk. unfold build_sample_infohashes_response. rewrite is_node_id_of, Hk by done.
  rewrite (bool_decide_eq_true_2 _ Hmod), (proj2 (Z.leb_le 0 num)) by lia.
  cbn [andb assert_ mbind res_bind Z.leb]. 
  assert (encodable (PInt num) = true) by (apply Z.ltb_lt; lia).
  assert (encodable (PInt 300) = true) by done.
  apply is_nodes_key_cases in Hk as [-> | ->]; eexists; (split; [reflexivity|encodes]).
Qed.

Lemma error_response_sends t code text :
  short t -> short text -> code = ERROR_PROTOCOL \/ code = ERROR_METHOD_UNKNOWN ->
  exists m, sends (build_error_response t code text) m.
Proof.
  intros Ht Htext Hcode.
  assert (encodable (PList [PInt code; PBytes text]) = true).
  { cbn [encodable forallb]. rewrite (small_nat (length text)) by (unfold short in Htext; lia).
    by destruct Hcode as [-> | ->]. }
  set (m := literal [(bs "t", PBytes t); (bs "y", PBytes (bs "e")); (bs "e", PList [PInt code; PBytes text])]).
  exists m. split; [|encodes].
  destruct Hcode as [-> | ->];
    (transitivity (assert_ (bool_decide (text = text)) ;; mret m); [reflexivity|by rewrite bool_decide_eq_true_2]).
Qed.

(** ** Compact node lists of one family *)

Section addresses.
Context `{AddressText}.

(** An address that has a compact form. *)
Definition sendable (a : address) : Prop := exists packed, encode_compact_address a.1 a.2 = Ok packed.

Lemma encode_compact_address_length ip port packed :
  encode_compact_address ip port = Ok packed ->
  length packed = if bool_decide (":"%byte ∈ ip) then COMPACT_ADDRESS6_LENGTH else COMPACT_ADDRESS_LENGTH.
Proof.
  unfold encode_compact_address. intros (_ & _ & He)%bind_Ok. apply bind_Ok in He as (b & Hb & He).
  apply bind_Ok in He as (_ & _ & He). injection He as <-. rewrite length_app. change (length (be_encode 2 port)) with 2.
  case_bool_decide.
  - destruct (inet_pton6 ip) eqn:Hp; [|done]. injection Hb as <-. by rewrite (inet_pton6_length _ _ Hp).
  - destruct (inet_aton ip) eqn:Hp; [|done]. injection Hb as <-. by rewrite (inet_aton_length _ _ Hp).
Qed.

(** A node that has a compact form. *)
Definition compact_node (n : node) : Prop :=
  length (node_id n) = NODE_ID_LENGTH /\ sendable (node_ip n, node_port n).

Lemma encode_compact_nodes_family (six : bool) nodes :
  Forall (fun n => compact_node n /\ bool_decide (":"%byte ∈ node_ip n) = six) nodes ->
  exists compact, encode_compact_nodes nodes = Ok compact /\
    length compact = (if six then COMPACT_NODE6_LENGTH else COMPACT_NODE_LENGTH) * length nodes.
Proof.
  intros Hn. set (w := if six then _ else _). unfold encode_compact_nodes.
  rewrite (proj2 (forallb_forall _ _)).
  2: { intros n Hin%list_elem_of_In. rewrite Forall_forall in Hn. apply is_node_id_of. by destruct (Hn n Hin) as [[? _] _]. }
  cbn [assert_ mbind res_bind].
  destruct (sequence_fmap_Forall2 (fun n => a ← encode_compact_address (node_ip n) (node_port n); mret (node_id n ++ a))
    (fun _ part => length part = w) nodes) as (parts & -> & Hparts).
  { intros n Hin. rewrite Forall_forall in Hn. destruct (Hn n Hin) as [[Hid [a Ha]] Hsix]. simpl in Ha.
    rewrite Ha. cbn [mbind res_bind]. eexists. split; [reflexivity|].
    rewrite length_app, Hid, (encode_compact_address_length _ _ _ Ha), Hsix. by destruct six. }
  cbn [mbind res_bind].
  assert (length (concat parts) = w * length nodes) as Hl.
  { clear Hn. induction Hparts as [|n part nodes parts Hp _ IH]; [simpl; lia|]. simpl.
    rewrite length_app, Hp, IH. lia. }
  exists (concat parts). split; [|done]. rewrite Hl.
  replace (bool_decide _ || bool_decide _) with true; [done|]. symmetry.
  rewrite orb_true_iff, !bool_decide_eq_true. unfold w. destruct six; auto.
Qed.

Lemma decode_compact_nodes_good e data :
  e = COMPACT_NODE_LENGTH \/ e = COMPACT_NODE6_LENGTH ->
  exists nodes, decode_compact_nodes data e = Ok nodes /\ length nodes = length data / e /\
    Forall compact_node nodes.
Proof.
  intros He. destruct (decode_compact_nodes_entries e data He) as (nodes & Hn & Hall).
  exists nodes. split; [done|]. split.
  - apply Forall2_length in Hall. by rewrite length_fmap, length_seq in Hall.
  - eapply Forall2_Forall_r; [exact Hall|]. apply Forall_true. intros offset n (Hid & Hp & Hen).
    split; [done|]. unfold sendable. simpl. destruct (encode_compact_address _ _); [by eexists|done].
Qed.

(** A routable address has a port of 16 bits, not 0. *)
Lemma routable_port ip port : is_routable_address ip port = Ok true -> (0 < port <= 65535)%Z.
Proof.
  unfold is_routable_address. case_bool_decide.
  - destruct (_ && _) eqn:Hp; [lia|done].
  - destruct ((0 <? port)%Z && (port <=? 65535)%Z) eqn:Hp; simpl; [lia|done].
Qed.
End addresses.
