(* ===== verification/DhtLookup.v ===== *)
(** The get_peers lookups ([dht_lookup.py]).

    Lookups are mutable objects shared between [active] and the running methods:
    the manager has a heap of them.  Everything runs in the crawler's thread; a
    public method is one computation of [ST manager].  The three callbacks
    ([send_query], [on_peers], [on_finished]) change nothing the manager reads:
    the calls made to them are recorded in order in [events].  Times are in
    microseconds and tokens in millionths of a token, so that the refill
    [elapsed * queries_per_second] is exact; the code computes it in floating
    point. *)
From S2P Require Import Prelude PyDict Bencode NodeIdentity AddressText Krpc.

(** [LookupLimits] *)
Record lookup_limits := LookupLimits {
  alpha : Z; query_timeout : Z; hint_timeout : Z; lookup_deadline : Z; max_queries : Z;
  enough_peers : Z; max_value_responses : Z; max_active : Z; queries_per_second : Z;
  max_per_node : Z; shortlist_size : nat; max_peers : Z }.

Definition DEFAULT_LOOKUP_LIMITS : lookup_limits :=
  LookupLimits 1 1500000 1000000 6000000 16 8 2 256 420 4 32 50.

(** One token. *)
Definition TOKEN : Z := 1000000.

(** [PeerLookup]; the sets and the keys-only dictionary are lists without
    duplicates. *)
Record peer_lookup := PeerLookup {
  lk_hash : bytes; shortlist : list (bytes * node); queried : list address;
  pending : list (bytes * (address * Z)); found_peers : list address; queries_sent : Z;
  value_responses : Z; hint_transaction : option bytes; lk_deadline : Z; finished : bool }.

Definition lookup_eta (l : peer_lookup) : peer_lookup :=
  PeerLookup (lk_hash l) (shortlist l) (queried l) (pending l) (found_peers l) (queries_sent l)
    (value_responses l) (hint_transaction l) (lk_deadline l) (finished l).

Definition set_shortlist : list (bytes * node) -> peer_lookup -> peer_lookup := ltac:(make_setter lookup_eta shortlist).
Definition set_queried : list address -> peer_lookup -> peer_lookup := ltac:(make_setter lookup_eta queried).
Definition set_pending : list (bytes * (address * Z)) -> peer_lookup -> peer_lookup := ltac:(make_setter lookup_eta pending).
Definition set_found_peers : list address -> peer_lookup -> peer_lookup := ltac:(make_setter lookup_eta found_peers).
Definition set_queries_sent : Z -> peer_lookup -> peer_lookup := ltac:(make_setter lookup_eta queries_sent).
Definition set_value_responses : Z -> peer_lookup -> peer_lookup := ltac:(make_setter lookup_eta value_responses).
Definition set_hint_transaction : option bytes -> peer_lookup -> peer_lookup := ltac:(make_setter lookup_eta hint_transaction).
Definition set_finished : bool -> peer_lookup -> peer_lookup := ltac:(make_setter lookup_eta finished).

(** [PeerLookup.__init__] *)
Definition new_lookup (info_hash : bytes) (deadline : Z) : peer_lookup :=
  PeerLookup info_hash [] [] [] [] 0 0 None deadline false.

(** A call of a callback. *)
Inductive event :=
  | Query_sent (transaction_id : bytes) (n : node) (info_hash : bytes)
  | Peers_found (info_hash : bytes) (found : list address)
  | Lookup_finished (info_hash : bytes) (found : list address).

(** [LookupManager]: its mutable attributes. *)
Record manager := Manager {
  lookups : gmap nat peer_lookup; next_lookup : nat;
  active : list (bytes * nat); transactions : list (bytes * bytes); in_flight : list (address * Z);
  tokens : Z; tokens_time : Z; sequence_number : Z; started_total : Z; finished_total : Z;
  with_peers_total : Z; peers_found_total : Z; queries_total : Z; hint_queries : Z;
  hint_answers : Z; hint_values : Z; events : list event }.

Definition manager_eta (m : manager) : manager :=
  Manager (lookups m) (next_lookup m) (active m) (transactions m) (in_flight m) (tokens m)
    (tokens_time m) (sequence_number m) (started_total m) (finished_total m) (with_peers_total m)
    (peers_found_total m) (queries_total m) (hint_queries m) (hint_answers m) (hint_values m)
    (events m).

Definition set_lookups : gmap nat peer_lookup -> manager -> manager := ltac:(make_setter manager_eta lookups).
Definition set_next_lookup : nat -> manager -> manager := ltac:(make_setter manager_eta next_lookup).
Definition set_active : list (bytes * nat) -> manager -> manager := ltac:(make_setter manager_eta active).
Definition set_transactions : list (bytes * bytes) -> manager -> manager := ltac:(make_setter manager_eta transactions).
Definition set_in_flight : list (address * Z) -> manager -> manager := ltac:(make_setter manager_eta in_flight).
Definition set_tokens : Z -> manager -> manager := ltac:(make_setter manager_eta tokens).
Definition set_tokens_time : Z -> manager -> manager := ltac:(make_setter manager_eta tokens_time).
Definition set_sequence_number : Z -> manager -> manager := ltac:(make_setter manager_eta sequence_number).
Definition set_started_total : Z -> manager -> manager := ltac:(make_setter manager_eta started_total).
Definition set_finished_total : Z -> manager -> manager := ltac:(make_setter manager_eta finished_total).
Definition set_with_peers_total : Z -> manager -> manager := ltac:(make_setter manager_eta with_peers_total).
Definition set_peers_found_total : Z -> manager -> manager := ltac:(make_setter manager_eta peers_found_total).
Definition set_queries_total : Z -> manager -> manager := ltac:(make_setter manager_eta queries_total).
Definition set_hint_queries : Z -> manager -> manager := ltac:(make_setter manager_eta hint_queries).
Definition set_hint_answers : Z -> manager -> manager := ltac:(make_setter manager_eta hint_answers).
Definition set_hint_values : Z -> manager -> manager := ltac:(make_setter manager_eta hint_values).
Definition set_events : list event -> manager -> manager := ltac:(make_setter manager_eta events).

Definition the_lookup (o : nat) : ST manager peer_lookup := fun m =>
  match lookups m !! o with Some l => Ok (l, m) | None => Raise KeyError end.
Definition update_lookup (o : nat) (f : peer_lookup -> peer_lookup) : ST manager unit :=
  modify (fun m => set_lookups (alter f o (lookups m)) m).
Definition emit (e : event) : ST manager unit := modify (fun m => set_events (events m ++ [e]) m).

(** [(node\[1\], node\[2\])] *)
Definition node_address (n : node) : address := (node_ip n, node_port n).

Definition accept_every_node (n : node) : bool := true.
Definition is_usable_node (node_filter : node -> bool) (n : node) : bool :=
  is_node_id (node_id n) && node_filter n.

(** The order of [sorted(lookup.found_peers)]. *)
Definition address_leb (x y : address) : bool :=
  if bool_decide (x.1 = y.1) then (x.2 <=? y.2)%Z else bytes_leb x.1 y.1.

(** [{node\[0\]: node for node in nodes}] *)
Definition nodes_by_id (nodes : list node) : list (bytes * node) :=
  foldl (fun d n => dict_set (node_id n) n d) [] nodes.

Section manager.
Context `{AddressText} (node_filter : node -> bool) (on_peers : bool) (limits : lookup_limits).

(** [LookupManager.__init__] *)
Definition new_manager (clock : Z) : manager :=
  Manager ∅ 0 [] [] [] (queries_per_second limits * TOKEN) clock 0 0 0 0 0 0 0 0 0 [].

Definition free_slots : ST manager Z :=
  m ← get_state;
  let used := Z.of_nat (length (active m)) in
  assert_st (used <=? max_active limits)%Z ;;
  let result := (max_active limits - used)%Z in
  assert_st ((0 <=? result) && (result <=? max_active limits))%Z ;;
  mret result.

(** Transaction ids of other types than [bytes] are owned by no lookup. *)
Definition owns_transaction (transaction_id : pyval) (m : manager) : bool :=
  match transaction_id with PBytes t => dict_has t (transactions m) | _ => false end.

Definition refill (now : Z) : ST manager Z :=
  assert_st (0 <=? now)%Z ;;
  m ← get_state;
  let elapsed := Z.max 0 (now - tokens_time m) in
  modify (set_tokens (Z.min (queries_per_second limits * TOKEN)
    (tokens m + elapsed * queries_per_second limits))) ;;
  modify (fun m => set_tokens_time (Z.max (tokens_time m) now) m) ;;
  result ← gets tokens;
  assert_st ((0 <=? result) && (result <=? queries_per_second limits * TOKEN))%Z ;;
  mret result.

Definition add_to_shortlist (o : nat) (nodes : list node) : ST manager unit :=
  for_each nodes (fun n =>
    l ← the_lookup o;
    when_st (is_usable_node node_filter n && negb (bool_decide (node_address n ∈ queried l)))
      (update_lookup o (fun l => set_shortlist (dict_set (node_id n) n (shortlist l)) l))) ;;
  l ← the_lookup o;
  when_st (bool_decide (shortlist_size limits < length (shortlist l))) (
    closest ← lift (select_closest_nodes (shortlist l).*2 (lk_hash l) (shortlist_size limits));
    update_lookup o (set_shortlist (nodes_by_id closest))) ;;
  l ← the_lookup o;
  assert_st (bool_decide (length (shortlist l) <= shortlist_size limits)).

Definition send_to (o : nat) (n : node) (now timeout : Z) : ST manager bytes :=
  l ← the_lookup o;
  assert_st (negb (finished l) && (0 <? timeout)%Z) ;;
  sequence_now ← gets sequence_number;
  transaction_id ← lift (lookup_transaction_id sequence_now);
  modify (fun m => set_sequence_number (sequence_number m + 1)%Z m) ;;
  let addr := node_address n in
  update_lookup o (fun l => set_pending (dict_set transaction_id (addr, (now + timeout)%Z) (pending l)) l) ;;
  update_lookup o (fun l =>
    set_queried (if bool_decide (addr ∈ queried l) then queried l else queried l ++ [addr]) l) ;;
  update_lookup o (fun l => set_queries_sent (queries_sent l + 1)%Z l) ;;
  modify (fun m => set_transactions (dict_set transaction_id (lk_hash l) (transactions m)) m) ;;
  modify (fun m => set_in_flight
    (dict_set addr (default 0%Z (dict_get addr (in_flight m)) + 1)%Z (in_flight m)) m) ;;
  modify (fun m => set_tokens (tokens m - TOKEN)%Z m) ;;
  modify (fun m => set_queries_total (queries_total m + 1)%Z m) ;;
  emit (Query_sent transaction_id n (lk_hash l)) ;;
  m ← get_state;
  assert_st (dict_has transaction_id (transactions m)) ;;
  mret transaction_id.

Definition release_transaction (o : nat) (transaction_id : bytes) : ST manager unit :=
  l ← the_lookup o;
  match dict_get transaction_id (pending l) with
  | None => raise_st AssertionError
  | Some (addr, _) =>
      update_lookup o (fun l => set_pending (dict_del transaction_id (pending l)) l) ;;
      modify (fun m => set_transactions (dict_del transaction_id (transactions m)) m) ;;
      modify (fun m =>
        let remaining := (default 0%Z (dict_get addr (in_flight m)) - 1)%Z in
        set_in_flight (if (0 <? remaining)%Z then dict_set addr remaining (in_flight m)
                       else dict_del addr (in_flight m)) m) ;;
      when_st (bool_decide (hint_transaction l = Some transaction_id))
        (update_lookup o (set_hint_transaction None)) ;;
      m ← get_state;
      assert_st (negb (dict_has transaction_id (transactions m)))
  end.

(** The loop of [top_up]: it stops when no token is left. *)
Fixpoint send_each (o : nat) (nodes : list node) (now : Z) : ST manager Z :=
  match nodes with
  | [] => mret 0%Z
  | n :: nodes' =>
      t ← gets tokens;
      if (t <? TOKEN)%Z then mret 0%Z
      else
        send_to o n now (query_timeout limits) ;;
        sent ← send_each o nodes' now;
        mret (1 + sent)%Z
  end.

Definition candidates (l : peer_lookup) (m : manager) : list node :=
  filter (fun n => negb (bool_decide (node_address n ∈ queried l)) &&
    (default 0 (dict_get (node_address n) (in_flight m)) <? max_per_node limits)%Z = true) (shortlist l).*2.

Definition top_up (o : nat) (now : Z) : ST manager Z :=
  l ← the_lookup o;
  assert_st (negb (finished l)) ;;
  let free := Z.min (alpha limits - Z.of_nat (length (pending l))) (max_queries limits - queries_sent l) in
  if (free <=? 0)%Z then mret 0%Z
  else
    t ← refill now;
    if (t <? TOKEN)%Z then mret 0%Z
    else
      m ← get_state;
      chosen ← lift (select_closest_nodes (candidates l m) (lk_hash l) (Z.to_nat free));
      sent ← send_each o chosen now;
      assert_st ((0 <=? sent) && (sent <=? alpha limits))%Z ;;
      mret sent.

Definition can_query_more (l : peer_lookup) : bool :=
  (queries_sent l <? max_queries limits)%Z &&
  existsb (fun n => negb (bool_decide (node_address n ∈ queried l))) (shortlist l).*2.

Definition finish (o : nat) : ST manager unit :=
  l ← the_lookup o;
  assert_st (negb (finished l)) ;;
  update_lookup o (set_finished true) ;;
  for_each (pending l).*1 (release_transaction o) ;;
  modify (fun m => set_active (dict_del (lk_hash l) (active m)) m) ;;
  modify (fun m => set_finished_total (finished_total m + 1)%Z m) ;;
  let found := sort_by address_leb (found_peers l) in
  modify (fun m => set_peers_found_total (peers_found_total m + Z.of_nat (length found))%Z m) ;;
  modify (fun m => set_with_peers_total
    (with_peers_total m + if bool_decide (found = []) then 0 else 1)%Z m) ;;
  emit (Lookup_finished (lk_hash l) found) ;;
  m ← get_state;
  assert_st (negb (dict_has (lk_hash l) (active m))).

Definition must_finish (l : peer_lookup) (now : Z) : bool :=
  ((lk_deadline l <=? now) || (enough_peers limits <=? Z.of_nat (length (found_peers l)))
   || (max_value_responses limits <=? value_responses l))%Z.

Definition advance (o : nat) (now : Z) : ST manager unit :=
  l ← the_lookup o;
  if finished l then mret tt
  else
    (if must_finish l now then finish o
     else when_st (bool_decide (hint_transaction l = None)) (
       top_up o now ;;
       l ← the_lookup o;
       when_st (bool_decide (pending l = []) && negb (can_query_more l)) (finish o))) ;;
    l ← the_lookup o;
    m ← get_state;
    assert_st (finished l || dict_has (lk_hash l) (active m)).

Definition expire_pending (o : nat) (now : Z) : ST manager Z :=
  l ← the_lookup o;
  let expired := (filter (fun p : bytes * (address * Z) => (p.2.2 <= now)%Z) (pending l)).*1 in
  for_each expired (release_transaction o) ;;
  l ← the_lookup o;
  assert_st (forallb (fun p : bytes * (address * Z) => (now <? p.2.2)%Z) (pending l)) ;;
  mret (Z.of_nat (length expired)).

(** The loop over the peers of a response: it keeps the routable, new ones. *)
Fixpoint collect_peers (o : nat) (values : list address) : ST manager (list address) :=
  match values with
  | [] => mret []
  | peer :: values' =>
      routable ← lift (is_routable_address peer.1 peer.2);
      l ← the_lookup o;
      if routable && negb (bool_decide (peer ∈ found_peers l))
         && (Z.of_nat (length (found_peers l)) <? max_peers limits)%Z
      then
        update_lookup o (fun l => set_found_peers (found_peers l ++ [peer]) l) ;;
        rest ← collect_peers o values';
        mret (peer :: rest)
      else collect_peers o values'
  end.

(** A response dictionary: its peers and its nodes. *)
Definition read_response (o : nat) (h : bytes) (from_hint : bool) (d : list (pykey * pyval))
    : ST manager unit :=
  values ← lift (decode_compact_peers (default PNone (py_get d (bs "values"))));
  when_st (from_hint && negb (bool_decide (values = [])))
    (modify (fun m => set_hint_values (hint_values m + 1)%Z m)) ;;
  new_peers ← collect_peers o values;
  when_st (negb (bool_decide (values = [])))
    (update_lookup o (fun l => set_value_responses (value_responses l + 1)%Z l)) ;;
  when_st (negb (bool_decide (new_peers = [])) && on_peers) (emit (Peers_found h new_peers)) ;;
  (match py_get d (bs "nodes") with
   | Some (PBytes compact) =>
       nodes ← lift (decode_compact_nodes compact COMPACT_NODE_LENGTH);
       add_to_shortlist o nodes
   | _ => mret tt
   end) ;;
  match py_get d (bs "nodes6") with
  | Some (PBytes compact) =>
      nodes ← lift (decode_compact_nodes6 compact);
      add_to_shortlist o nodes
  | _ => mret tt
  end.

(** [clock] is what [self.clock()] returns. *)
Definition handle_response (transaction_id : bytes) (response : pyval) (addr : address) (clock : Z)
    : ST manager unit :=
  m ← get_state;
  assert_st (dict_has transaction_id (transactions m)) ;;
  match dict_get transaction_id (transactions m) with
  | None => raise_st KeyError
  | Some h =>
      match dict_get h (active m) with
      | None => mret tt
      | Some o =>
          l ← the_lookup o;
          if negb (bool_decide (fst <$> dict_get transaction_id (pending l) = Some addr)) then mret tt
          else
            let from_hint := bool_decide (hint_transaction l = Some transaction_id) in
            release_transaction o transaction_id ;;
            when_st from_hint (modify (fun m => set_hint_answers (hint_answers m + 1)%Z m)) ;;
            (match response with
             | PDict d => read_response o h from_hint d
             | _ => mret tt
             end) ;;
            advance o clock ;;
            l ← the_lookup o;
            assert_st (negb (dict_has transaction_id (pending l)))
      end
  end.

Definition handle_error (transaction_id : bytes) (clock : Z) : ST manager unit :=
  m ← get_state;
  assert_st (dict_has transaction_id (transactions m)) ;;
  match dict_get transaction_id (transactions m) with
  | None => raise_st KeyError
  | Some h =>
      (match dict_get h (active m) with
       | Some o =>
           l ← the_lookup o;
           if dict_has transaction_id (pending l)
           then release_transaction o transaction_id ;; advance o clock
           else modify (fun m => set_transactions (dict_del transaction_id (transactions m)) m)
       | None => modify (fun m => set_transactions (dict_del transaction_id (transactions m)) m)
       end) ;;
      m ← get_state;
      assert_st (negb (dict_has transaction_id (transactions m)))
  end.

(** The second half of [start_lookup]: the lookup is made and its first query
    sent. *)
Definition begin_lookup (h : bytes) (seed_nodes : list node) (now : Z) (hint : option node)
    : ST manager bool :=
  m ← get_state;
  let o := next_lookup m in
  modify (set_next_lookup (S o)) ;;
  modify (set_lookups (<[o := new_lookup h (now + lookup_deadline limits)%Z]> (lookups m))) ;;
  add_to_shortlist o seed_nodes ;;
  l ← the_lookup o;
  if bool_decide (hint = None) && bool_decide (shortlist l = []) then mret false
  else
    modify (fun m => set_active (dict_set h o (active m)) m) ;;
    modify (fun m => set_started_total (started_total m + 1)%Z m) ;;
    (match hint with
     | Some n =>
         t ← send_to o n now (hint_timeout limits);
         update_lookup o (set_hint_transaction (Some t)) ;;
         modify (fun m => set_hint_queries (hint_queries m + 1)%Z m)
     | None => top_up o now ;; mret tt
     end) ;;
    m ← get_state;
    assert_st (dict_has h (active m)) ;;
    mret true.

Definition start_lookup (h : bytes) (seed_nodes : list node) (now : Z) (hint : option node)
    : ST manager bool :=
  assert_st (is_node_id h) ;;
  m ← get_state;
  if dict_has h (active m) then mret false
  else
    slots ← free_slots;
    if (slots =? 0)%Z then mret false
    else
      t ← refill now;
      if (t <? TOKEN)%Z then mret false
      else
        let hint := match hint with
          | Some n => if is_usable_node node_filter n then Some n else None
          | None => None
          end in
        m ← get_state;
        match hint with
        | Some n =>
            if (max_per_node limits <=? default 0 (dict_get (node_address n) (in_flight m)))%Z
            then mret false else begin_lookup h seed_nodes now hint
        | None => begin_lookup h seed_nodes now hint
        end.

Definition tick (now : Z) : ST manager unit :=
  assert_st (0 <=? now)%Z ;;
  refill now ;;
  running ← gets (fun m => (active m).*2);
  for_each running (fun o => expire_pending o now ;; advance o now) ;;
  m ← get_state;
  assert_st (forallb (fun o => match lookups m !! o with Some l => negb (finished l) | None => false end)
               (active m).*2).

Definition abort_all : ST manager unit :=
  running ← gets (fun m => (active m).*2);
  for_each running finish ;;
  m ← get_state;
  assert_st (bool_decide (active m = []) && bool_decide (transactions m = [])).

Record lookup_counts := LookupCounts {
  lookups_finished : Z; lookups_with_peers : Z; lookup_peers_found : Z; lookup_queries_sent : Z;
  lookup_hint_queries : Z; lookup_hint_answers : Z; lookup_hint_values : Z; active_lookups : Z }.

Definition manager_counts : ST manager lookup_counts :=
  assert_st (1 <=? max_active limits)%Z ;;
  m ← get_state;
  let result := LookupCounts (finished_total m) (with_peers_total m) (peers_found_total m)
    (queries_total m) (hint_queries m) (hint_answers m) (hint_values m) (Z.of_nat (length (active m))) in
  assert_st ((0 <=? finished_total m) && (0 <=? with_peers_total m) && (0 <=? peers_found_total m)
    && (0 <=? queries_total m) && (0 <=? hint_queries m) && (0 <=? hint_answers m)
    && (0 <=? hint_values m))%Z ;;
  mret result.
End manager.
