(* ===== verification/DhtLookupSafety.v ===== *)
(** The invariant of the lookup manager: the tables of transactions and of
    queries in flight are exactly the pending queries of the active lookups, the
    token bucket bounds the queries, and every started lookup is reported once.
    Every method keeps it and fails no assertion. *)
From S2P Require Import Prelude PyDict Bencode NodeIdentity AddressText Krpc DhtLookup.

Lemma wp_the_lookup o l (Q : peer_lookup -> manager -> Prop) m :
  lookups m !! o = Some l -> Q l m -> wp (the_lookup o) Q m.
Proof. intros Hl HQ. unfold wp, the_lookup. by rewrite Hl. Qed.

(** The lookup object [o] changed to [l]. *)
Definition put_lookup (o : nat) (l : peer_lookup) (m : manager) : manager :=
  set_lookups (<[o := l]> (lookups m)) m.

Lemma wp_update_lookup o l f Q m :
  lookups m !! o = Some l -> Q tt (put_lookup o (f l) m) -> wp (update_lookup o f) Q m.
Proof.
  intros Hl HQ. unfold wp, update_lookup, modify.
  replace (alter f o (lookups m)) with (<[o := f l]> (lookups m)); [done|].
  symmetry. apply map_eq. intros o'. destruct (decide (o = o')) as [<-|Hne].
  - by rewrite lookup_alter_eq, lookup_insert_eq, Hl.
  - by rewrite lookup_alter_ne, lookup_insert_ne.
Qed.

(** Pending queries to an address, of one lookup and of all active ones. *)
Definition flights (a : address) (l : peer_lookup) : Z :=
  Z.of_nat (length (filter (fun p : bytes * (address * Z) => p.2.1 = a) (pending l))).
Definition weight_of (f : peer_lookup -> Z) (m : manager) (o : nat) : Z :=
  match lookups m !! o with Some l => f l | None => 0%Z end.
Definition total_flights (a : address) (m : manager) : Z :=
  sum_over (weight_of (flights a) m) (active m).

Lemma flights_del t a x l :
  dict_wf (pending l) -> dict_get t (pending l) = Some x ->
  flights a (set_pending (dict_del t (pending l)) l) =
    (flights a l - if decide (x.1 = a) then 1 else 0)%Z.
Proof.
  intros Hwf Hg. unfold flights. simpl. revert Hwf Hg. unfold dict_wf.
  induction (pending l) as [|[t' y] d IH]; [done|]. csimpl. rewrite NoDup_cons. intros [Hn Hd].
  unfold dict_del in *. rewrite (filter_cons _ (t', y)). destruct (decide (t = t')) as [<-|Ht]; csimpl.
  - intros [= ->]. rewrite decide_False by (intros Hne; by apply Hne).
    change (filter (fun kv : bytes * (address * Z) => kv.1 <> t) d) with (dict_del t d).
    rewrite dict_del_notin by (by apply dict_get_None). rewrite filter_cons. csimpl.
    repeat case_decide; cbn [length]; lia.
  - intros Hg. rewrite decide_True by congruence. specialize (IH Hd Hg).
    rewrite !filter_cons. csimpl. repeat case_decide; cbn [length] in *; lia.
Qed.

Lemma flights_set t a x l :
  dict_get t (pending l) = None ->
  flights a (set_pending (dict_set t x (pending l)) l) =
    (flights a l + if decide (x.1 = a) then 1 else 0)%Z.
Proof.
  intros Hg. unfold flights. simpl. rewrite dict_set_new, filter_app, length_app by done.
  rewrite filter_cons, filter_nil. simpl. case_decide; simpl; lia.
Qed.

Lemma lookup_transaction_id_distinct s s' t :
  (0 <= s)%Z -> (s < s' < s + 2 ^ 24)%Z -> lookup_transaction_id s = Ok t ->
  lookup_transaction_id s' <> Ok t.
Proof.
  intros Hs Hs' Ht Heq. rewrite <-Heq in Ht. rewrite !lookup_transaction_id_eq in Ht by lia.
  clear Heq. apply (f_equal (fun r => match r with Ok t => t | _ => [] end)) in Ht as Heq.
  apply app_inv_head, (f_equal be_decode) in Heq. rewrite !be_decode_encode in Heq.
  change (256 ^ Z.of_nat 3)%Z with 16777216%Z in Heq. change (2 ^ 24)%Z with 16777216%Z in Hs'.
  rewrite !Z.mod_mod in Heq by done. lia_div.
Qed.

Definition is_sent (e : event) : bool := match e with Query_sent _ _ _ => true | _ => false end.
Definition is_reported (e : event) : bool := match e with Lookup_finished _ _ => true | _ => false end.
(** The number of events of a kind. *)
Definition count_events (p : event -> bool) (l : list event) : Z :=
  Z.of_nat (length (filter (fun e => p e = true) l)).

Lemma count_events_snoc p l e : count_events p (l ++ [e]) = (count_events p l + if p e then 1 else 0)%Z.
Proof.
  unfold count_events. rewrite filter_app, length_app, filter_cons, filter_nil.
  destruct (p e); simpl; lia.
Qed.

Section safety.
Context `{AddressText} (node_filter : node -> bool) (on_peers : bool) (lim : lookup_limits) (t0 T : Z).

(** What the constructor asserts of its limits, and that timeouts are positive. *)
Definition limits_ok : Prop :=
  (1 <= alpha lim)%Z /\ (1 <= max_active lim)%Z /\ (1 <= queries_per_second lim)%Z /\
  (1 <= max_per_node lim)%Z /\ (0 < query_timeout lim)%Z /\ (0 < hint_timeout lim)%Z /\
  (alpha lim * max_active lim <= 2 ^ 24)%Z.

Lemma alpha_small : limits_ok -> (alpha lim <= 2 ^ 24)%Z.
Proof using. intros (? & ? & _ & _ & _ & _ & ?). nia. Qed.

Definition routable (p : address) : Prop := is_routable_address p.1 p.2 = Ok true.
Definition peers_ok (found : list address) : Prop :=
  NoDup found /\ Forall routable found /\ (Z.of_nat (length found) <= Z.max 0 (max_peers lim))%Z.

Definition lookup_wf (l : peer_lookup) : Prop :=
  length (lk_hash l) = NODE_ID_LENGTH /\ dict_wf (pending l) /\ dict_wf (shortlist l) /\
  Forall (fun kn : bytes * node => kn.1 = node_id kn.2 /\ is_usable_node node_filter kn.2 = true) (shortlist l) /\
  length (shortlist l) <= shortlist_size lim /\ peers_ok (found_peers l) /\
  (Z.of_nat (length (pending l)) <= alpha lim)%Z /\
  (0 <= queries_sent l <= Z.max 1 (max_queries lim))%Z /\
  (forall t, hint_transaction l = Some t -> is_Some (dict_get t (pending l))).

Definition at_lookup (m : manager) (h : bytes) (o : nat) (l : peer_lookup) : Prop :=
  dict_get h (active m) = Some o /\ lookups m !! o = Some l.

(** What the callbacks are given: queries go to nodes the filter accepts, the
    peers are routable, and the peers of a finished lookup distinct and no more
    than its limit. *)
Definition event_ok (e : event) : Prop :=
  match e with
  | Query_sent t n h => length t = LOOKUP_TRANSACTION_ID_LENGTH /\
      is_usable_node node_filter n = true /\ length h = NODE_ID_LENGTH
  | Peers_found h found => length h = NODE_ID_LENGTH /\ Forall routable found
  | Lookup_finished h found => length h = NODE_ID_LENGTH /\ peers_ok found
  end.

(** The largest number of queries in flight to one address. *)
Definition flight_bound : Z := (max_per_node lim + alpha lim - 1)%Z.

Record inv_at (fin : option bytes) (m : manager) : Prop := {
  i_tables : dict_wf (active m) /\ dict_wf (transactions m) /\ dict_wf (in_flight m);
  i_current : forall h o, dict_get h (active m) = Some o -> exists l, lookups m !! o = Some l /\
    lk_hash l = h /\ lookup_wf l /\ (fin <> Some h -> finished l = false);
  i_heap : forall o l, lookups m !! o = Some l -> o < next_lookup m;
  i_owner : forall t h, dict_get t (transactions m) = Some h <->
    exists o l, at_lookup m h o l /\ is_Some (dict_get t (pending l));
  i_flights : forall a, default 0%Z (dict_get a (in_flight m)) = total_flights a m;
  i_per_node : forall a n, dict_get a (in_flight m) = Some n -> (0 < n <= flight_bound)%Z;
  i_slots : (Z.of_nat (length (active m)) <= max_active lim)%Z;
  i_tokens : (0 <= tokens m <= queries_per_second lim * TOKEN)%Z;
  i_ids : (0 <= sequence_number m)%Z /\ forall t h, dict_get t (transactions m) = Some h ->
    exists s, (0 <= s < sequence_number m)%Z /\ lookup_transaction_id s = Ok t;
  i_rate : (tokens m + TOKEN * queries_total m <=
    queries_per_second lim * TOKEN + queries_per_second lim * (tokens_time m - t0))%Z;
  i_time : (tokens_time m <= T)%Z;
  i_totals : (started_total m = finished_total m + Z.of_nat (length (active m)) /\
    finished_total m = count_events is_reported (events m) /\
    queries_total m = count_events is_sent (events m))%Z;
  i_events : Forall event_ok (events m);
  i_counters : (0 <= with_peers_total m /\ 0 <= peers_found_total m /\ 0 <= hint_queries m /\
    0 <= hint_answers m /\ 0 <= hint_values m)%Z }.

Definition inv : manager -> Prop := inv_at None.

(** The ids of the next [n] queries belong to no pending query: they come less
    than [2^24] queries after the pending ones. *)
Definition window (n : Z) (m : manager) : Prop :=
  forall t h, dict_get t (transactions m) = Some h -> exists s,
    lookup_transaction_id s = Ok t /\ (0 <= s < sequence_number m)%Z /\ (sequence_number m + n <= s + 2 ^ 24)%Z.

Lemma window_mono n n' m : window n m -> (n' <= n)%Z -> window n' m.
Proof using. intros Hw Hn t h Ht. destruct (Hw t h Ht) as (s & ? & ? & ?). exists s. repeat (split; [done|]). lia. Qed.

Lemma window_fresh n m t :
  window n m -> (0 < n)%Z -> lookup_transaction_id (sequence_number m) = Ok t ->
  dict_get t (transactions m) = None.
Proof using.
  intros Hw Hn Ht. destruct (dict_get t (transactions m)) as [h|] eqn:Hg; [|done].
  destruct (Hw t h Hg) as (s & Hs & Hr & Hle).
  exfalso. eapply (lookup_transaction_id_distinct s (sequence_number m) t); [lia|lia|done|done].
Qed.

(** An id that was used less than [2^24] queries ago and is free again. *)
Definition spent (t : bytes) (n : Z) (m : manager) : Prop :=
  dict_get t (transactions m) = None /\ exists s, lookup_transaction_id s = Ok t /\
    (0 <= s < sequence_number m)%Z /\ (sequence_number m + n <= s + 2 ^ 24)%Z.

(** A step that uses up to [n] ids. *)
Definition keeps (n : Z) (m m' : manager) : Prop :=
  forall k, (n <= k <= 2 ^ 24)%Z -> (window k m -> window (k - n) m') /\
    (forall t, spent t k m -> spent t (k - n) m').

Lemma keeps_trans a b m m1 m2 : (0 <= a)%Z -> (0 <= b)%Z -> keeps a m m1 -> keeps b m1 m2 -> keeps (a + b) m m2.
Proof using.
  intros Ha Hb H1 H2 k Hk. destruct (H1 k) as [W1 S1]; [lia|]. destruct (H2 (k - a)%Z) as [W2 S2]; [lia|].
  replace (k - (a + b))%Z with (k - a - b)%Z by lia. auto.
Qed.

Lemma keeps_mono a b m m' : (0 <= a <= b)%Z -> keeps a m m' -> keeps b m m'.
Proof using.
  intros Hab Hk k Hb. destruct (Hk k) as [W S]; [lia|]. split.
  - intros Hw. eapply window_mono; [by apply W|lia].
  - intros t Ht. destruct (S t Ht) as (? & s & ? & ? & ?). split; [done|]. exists s. split; [done|]. lia.
Qed.

Lemma keeps_same m m' :
  sequence_number m' = sequence_number m ->
  (forall t h, dict_get t (transactions m') = Some h -> dict_get t (transactions m) = Some h) -> keeps 0 m m'.
Proof using.
  intros Hs Ht k Hk. rewrite Z.sub_0_r. split.
  - intros Hw t h Hg. rewrite Hs. by eapply Hw, Ht.
  - intros t [Hn He]. rewrite <-Hs in He. split; [|exact He].
    destruct (dict_get t (transactions m')) eqn:Hg; [|done]. apply Ht in Hg. congruence.
Qed.

Lemma keeps_refl m : keeps 0 m m.
Proof using. by apply keeps_same. Qed.

Lemma keeps_window n m m' : (0 <= n <= 2 ^ 24)%Z -> keeps n m m' -> window n m -> window 0 m'.
Proof using. intros Hn Hk Hw. destruct (Hk n) as [W _]; [lia|]. apply W in Hw. by rewrite Z.sub_diag in Hw. Qed.

Lemma at_lookup_wf d m h o l : inv_at d m -> at_lookup m h o l -> lk_hash l = h /\ lookup_wf l.
Proof using.
  intros Hm [Hg Hl]. destruct (i_current _ _ Hm h o Hg) as (l' & Hl' & ? & ? & _).
  rewrite Hl in Hl'. by injection Hl' as <-.
Qed.

Lemma at_lookup_exists d m h o : inv_at d m -> dict_get h (active m) = Some o -> exists l, at_lookup m h o l.
Proof using. intros Hm Hg. destruct (i_current _ _ Hm h o Hg) as (l & Hl & _). by exists l. Qed.

Lemma active_inj d m h h' o :
  inv_at d m -> dict_get h (active m) = Some o -> dict_get h' (active m) = Some o -> h' = h.
Proof using.
  intros Hm H1 H2. destruct (at_lookup_exists _ _ _ _ Hm H1) as (l & Hat).
  destruct (at_lookup_wf _ _ _ _ _ Hm Hat) as [<- _].
  assert (at_lookup m h' o l) as Hat' by (split; [done|apply Hat]).
  by destruct (at_lookup_wf _ _ _ _ _ Hm Hat') as [<- _].
Qed.

Lemma total_flights_put d m m' h o l l' a :
  inv_at d m -> at_lookup m h o l -> active m' = active m -> lookups m' = <[o := l']> (lookups m) ->
  total_flights a m' = (total_flights a m - flights a l + flights a l')%Z.
Proof using.
  intros Hm [Hg Hl] Ha Hls. unfold total_flights. rewrite Ha.
  rewrite (sum_over_change (weight_of (flights a) m) (weight_of (flights a) m') h o).
  - unfold weight_of at 2 3. by rewrite Hl, Hls, lookup_insert_eq.
  - apply (i_tables _ _ Hm).
  - done.
  - intros h' Hh'. by eapply active_inj.
  - intros o' Hne. unfold weight_of. by rewrite Hls, lookup_insert_ne.
Qed.

(** The shape of every change of one active lookup: what its pending queries
    become, with the tables that follow them. *)
Lemma inv_put_lookup d m m' h o l l' :
  inv_at d m -> at_lookup m h o l ->
  active m' = active m -> lookups m' = <[o := l']> (lookups m) -> next_lookup m' = next_lookup m ->
  lk_hash l' = h -> lookup_wf l' -> (d <> Some h -> finished l' = false) ->
  dict_wf (transactions m') -> dict_wf (in_flight m') ->
  (forall t h', dict_get t (transactions m') = Some h' <->
     if decide (h' = h) then is_Some (dict_get t (pending l')) else dict_get t (transactions m) = Some h') ->
  (forall a, default 0%Z (dict_get a (in_flight m')) =
     (default 0%Z (dict_get a (in_flight m)) - flights a l + flights a l')%Z) ->
  (forall a n, dict_get a (in_flight m') = Some n -> (0 < n <= flight_bound)%Z) ->
  (0 <= tokens m' <= queries_per_second lim * TOKEN)%Z ->
  ((0 <= sequence_number m')%Z /\ forall t h', dict_get t (transactions m') = Some h' ->
    exists s, (0 <= s < sequence_number m')%Z /\ lookup_transaction_id s = Ok t) ->
  (tokens m' + TOKEN * queries_total m' <=
    queries_per_second lim * TOKEN + queries_per_second lim * (tokens_time m' - t0))%Z ->
  (started_total m' = finished_total m' + Z.of_nat (length (active m')) /\
    finished_total m' = count_events is_reported (events m') /\
    queries_total m' = count_events is_sent (events m'))%Z ->
  (tokens_time m' <= T)%Z -> Forall event_ok (events m') ->
  (0 <= with_peers_total m' /\ 0 <= peers_found_total m' /\ 0 <= hint_queries m' /\
    0 <= hint_answers m' /\ 0 <= hint_values m')%Z ->
  inv_at d m'.
Proof using.
  intros Hm Hat Ha Hls Hn Hh Hwf Hfin Wt Wf Htr Hfl Hper Htok Hids Hrate Htot Htm Hev Hcnt.
  pose proof (fun h' => active_inj d m h h' o Hm (proj1 Hat)) as Hinj. destruct (Hat) as [Hg Hl].
  split; try done.
  - rewrite Ha. split; [apply (i_tables _ _ Hm)|done].
  - intros h' o' Hg'. rewrite Ha in Hg'. rewrite Hls. destruct (decide (o = o')) as [<-|Hne].
    + rewrite (Hinj _ Hg'). exists l'. by rewrite lookup_insert_eq.
    + rewrite lookup_insert_ne by done. by apply (i_current _ _ Hm).
  - intros o' l0. rewrite Hls, Hn. destruct (decide (o = o')) as [<-|Hne].
    + intros _. by eapply (i_heap _ _ Hm).
    + rewrite lookup_insert_ne by done. apply (i_heap _ _ Hm).
  - intros t h'. rewrite Htr. unfold at_lookup. rewrite Ha, Hls. case_decide as Hd.
    + subst h'. split.
      * intros Ht. exists o, l'. by rewrite lookup_insert_eq.
      * intros (o' & l0 & [Hg' Hl'] & Ht). assert (o' = o) as -> by congruence.
        rewrite lookup_insert_eq in Hl'. by injection Hl' as <-.
    + rewrite (i_owner _ _ Hm). split; intros (o' & l0 & [Hg' Hl'] & Ht); exists o', l0;
        (split; [split; [done|]|done]); (assert (o <> o') by (intros <-; by apply Hd, Hinj));
        by rewrite ?lookup_insert_ne in * by done.
  - intros a. rewrite Hfl, (i_flights _ _ Hm).
    symmetry. by eapply total_flights_put.
  - rewrite Ha. apply (i_slots _ _ Hm).
Qed.

(** ** Tokens *)

Definition refilled (m m' : manager) : Prop :=
  exists t tt, m' = set_tokens_time tt (set_tokens t m) /\ (tokens_time m <= tt)%Z.

Lemma wp_refill d m now (Q : Z -> manager -> Prop) :
  (1 <= queries_per_second lim)%Z -> inv_at d m -> (0 <= now <= T)%Z ->
  (forall m', inv_at d m' -> refilled m m' -> Q (tokens m') m') -> wp (refill lim now) Q m.
Proof using.
  intros Hq Hm Hnow HQ. unfold refill. apply wp_bind, wp_assert; [lia|]. apply wp_bind, wp_get.
  apply wp_bind, wp_modify, wp_bind, wp_modify, wp_bind, wp_gets.
  destruct (i_tokens _ _ Hm) as [T1 T2]. pose proof (i_rate _ _ Hm) as Hr.
  set (t := Z.min _ _). set (tt := Z.max _ now).
  assert (0 <= t <= queries_per_second lim * TOKEN)%Z as Ht by (unfold t; nia).
  apply wp_bind, wp_assert; [simpl; lia|]. apply wp_ret.
  change (Q (tokens (set_tokens_time tt (set_tokens t m))) (set_tokens_time tt (set_tokens t m))).
  apply HQ; [|exists t, tt; split; [done|unfold tt; simpl; lia]].
  pose proof (i_time _ _ Hm). split; try (by destruct Hm); simpl; [|unfold tt; simpl; lia].
  assert (t <= tokens m + (tt - tokens_time m) * queries_per_second lim)%Z; [|nia].
  unfold t, tt. simpl. etransitivity; [apply Z.le_min_r|].
  apply Z.add_le_mono_l, Z.mul_le_mono_nonneg_r; lia.
Qed.

Lemma refilled_at m m' h o l : refilled m m' -> at_lookup m h o l -> at_lookup m' h o l.
Proof using. by intros (t & tt & -> & _). Qed.

Lemma refilled_window m m' n : refilled m m' -> window n m -> window n m'.
Proof using. by intros (t & tt & -> & _). Qed.

(** ** Sending and releasing *)

(** The lookup after a query to [a] with the id [t]. *)
Definition sent_lookup (t : bytes) (a : address) (expiry : Z) (l : peer_lookup) : peer_lookup :=
  set_queries_sent (queries_sent l + 1)%Z
    (set_queried (if bool_decide (a ∈ queried l) then queried l else queried l ++ [a])
      (set_pending (dict_set t (a, expiry) (pending l)) l)).

Definition in_flight_of (a : address) (m : manager) : Z := default 0%Z (dict_get a (in_flight m)).

(** What sending one query of the lookup [o] of [h] does. *)
Record sent_step (h : bytes) (o : nat) (n : node) (l : peer_lookup) (m m' : manager) (t : bytes) : Prop := {
  ss_lookups : exists expiry, lookups m' = <[o := sent_lookup t (node_address n) expiry l]> (lookups m);
  ss_active : active m' = active m;
  ss_tokens : tokens m' = (tokens m - TOKEN)%Z;
  ss_time : tokens_time m' = tokens_time m;
  ss_flight : forall a, in_flight_of a m' =
    (in_flight_of a m + if decide (a = node_address n) then 1 else 0)%Z;
  ss_pending : dict_get t (pending l) = None;
  ss_new : dict_get t (transactions m) = None;
  ss_transactions : transactions m' = dict_set t h (transactions m);
  ss_events : events m' = events m ++ [Query_sent t n h] }.

Lemma in_flight_nonneg d m a : inv_at d m -> (0 <= in_flight_of a m)%Z.
Proof using.
  intros Hm. unfold in_flight_of. destruct (dict_get a (in_flight m)) as [n|] eqn:Hn; simpl; [|lia].
  apply (i_per_node _ _ Hm) in Hn. lia.
Qed.

Lemma wp_send_to m h o l n now timeout k (Q : bytes -> manager -> Prop) :
  inv m -> at_lookup m h o l -> (0 < timeout)%Z -> (TOKEN <= tokens m)%Z -> window k m ->
  (1 <= k <= 2 ^ 24)%Z -> (Z.of_nat (length (pending l)) < alpha lim)%Z ->
  (queries_sent l < Z.max 1 (max_queries lim))%Z ->
  (in_flight_of (node_address n) m < flight_bound)%Z -> is_usable_node node_filter n = true ->
  (forall t m', inv m' -> keeps 1 m m' -> sent_step h o n l m m' t -> Q t m') ->
  wp (send_to o n now timeout) Q m.
Proof using.
  intros Hm Hat Htime Htok Hw Hk Hp Hqs Hfl Hus HQ. unfold send_to.
  destruct (at_lookup_wf _ _ _ _ _ Hm Hat) as [Hh (W1 & W2 & W3 & W4 & W5 & W6 & W8 & W9 & W10)].
  destruct (Hat) as [Hg Hl].
  assert (finished l = false) as Hf.
  { destruct (i_current _ _ Hm h o Hg) as (l' & Hl' & _ & _ & Hf). rewrite Hl in Hl'.
    injection Hl' as <-. by apply Hf. }
  apply wp_bind, (wp_the_lookup _ l); [done|]. apply wp_bind, wp_assert; [rewrite Hf; simpl; lia|].
  apply wp_bind, wp_gets. destruct (i_ids _ _ Hm) as [Hseq Hids].
  pose proof (lookup_transaction_id_eq _ Hseq) as Ht. revert Ht.
  set (t := bs "L" ++ _). intros Ht. clearbody t.
  assert (dict_get t (transactions m) = None) as Hfresh by (eapply window_fresh; eauto; lia).
  assert (dict_get t (pending l) = None) as Hpt.
  { destruct (dict_get t (pending l)) eqn:Hpt; [|done]. exfalso.
    assert (dict_get t (transactions m) = Some h) by (apply (i_owner _ _ Hm); exists o, l; eauto). congruence. }
  apply wp_bind, (wp_lift _ t); [done|]. apply wp_bind, wp_modify.
  apply wp_bind, (wp_update_lookup _ l); [done|].
  apply wp_bind. eapply wp_update_lookup; [apply lookup_insert_eq|].
  apply wp_bind. eapply wp_update_lookup; [apply lookup_insert_eq|].
  do 4 apply wp_bind, wp_modify. unfold emit. apply wp_bind, wp_modify, wp_bind, wp_get.
  set (a := node_address n) in *. rewrite Hh.
  apply wp_bind, wp_assert; [simpl; apply dict_has_get; rewrite dict_get_set_eq; eauto|]. apply wp_ret.
  match goal with |- Q t ?m1 => set (m' := m1) end.
  set (l' := sent_lookup t a (now + timeout)%Z l).
  assert (lookups m' = <[o := l']> (lookups m)) as Hls by (simpl; by rewrite !insert_insert_eq).
  assert (flights a l' = (flights a l + 1)%Z) as Hfa.
  { pose proof (flights_set t a (a, (now + timeout)%Z) l Hpt) as Hfs. rewrite decide_True in Hfs by done. exact Hfs. }
  assert (forall a', flights a' l' = (flights a' l + if decide (a = a') then 1 else 0)%Z) as Hfs
    by (intros a'; apply (flights_set t a' (a, (now + timeout)%Z) l Hpt)).
  assert (forall a', in_flight_of a' m' = (in_flight_of a' m + if decide (a' = a) then 1 else 0)%Z) as Hfl'.
  { intros a'. unfold in_flight_of, m'. simpl. rewrite dict_get_set. case_decide as Hd; [by subst a'|lia]. }
  assert (lookup_wf l') as Hwf'.
  { split; [done|]. split; [by apply dict_set_wf|]. split; [done|]. split; [done|]. split; [done|].
    split; [done|]. split.
    - simpl. rewrite dict_set_new, length_app by done. simpl. lia.
    - split; [simpl; lia|]. intros t' Ht'. simpl in *. rewrite dict_get_set. destruct (decide (t' = t)); [eauto|by apply W10]. }
  apply HQ.
  - eapply (inv_put_lookup None m m' h o l l'); try done.
    + apply dict_set_wf, (i_tables _ _ Hm).
    + apply dict_set_wf, (i_tables _ _ Hm).
    + intros t' h'. simpl. rewrite !dict_get_set. destruct (decide (t' = t)) as [Ht'|Ht'].
      * subst t'. rewrite Hfresh. case_decide as Hd; [by subst; split; eauto|]. split; [|done]. congruence.
      * case_decide as Hd; [subst h'|done]. rewrite (i_owner _ _ Hm). split.
        -- intros (o' & l0 & [Hg' Hl'] & ?). assert (o' = o) as -> by congruence. congruence.
        -- intros ?. exists o, l. done.
    + intros a'. change (in_flight_of a' m' = (in_flight_of a' m - flights a' l + flights a' l')%Z).
      rewrite Hfl', Hfs. destruct (decide (a' = a)), (decide (a = a')); try congruence; lia.
    + intros a' n'. simpl. rewrite dict_get_set. case_decide as Hd; [|apply (i_per_node _ _ Hm)].
      intros [= <-]. pose proof (in_flight_nonneg _ _ a Hm). unfold in_flight_of in *. lia.
    + simpl. pose proof (i_tokens _ _ Hm). unfold TOKEN in *. lia.
    + simpl. split; [lia|]. intros t' h'. rewrite dict_get_set. case_decide as Hd.
      * subst t'. intros _. exists (sequence_number m). split; [lia|done].
      * intros Hg'. destruct (Hids _ _ Hg') as (s & ? & ?). exists s. split; [lia|done].
    + simpl. pose proof (i_rate _ _ Hm). lia.
    + simpl. destruct (i_totals _ _ Hm) as (? & ? & ?). rewrite !count_events_snoc. simpl. lia.
    + apply (i_time _ _ Hm).
    + simpl. apply Forall_app. split; [apply (i_events _ _ Hm)|]. apply Forall_singleton.
      split; [by eapply length_lookup_transaction_id|]. split; [done|congruence].
    + apply (i_counters _ _ Hm).
  - intros k' Hk'. split.
    + intros Hw' t' h'. simpl. rewrite dict_get_set. case_decide as Hd.
      * subst t'. intros _. exists (sequence_number m). split; [done|]. lia.
      * intros Hg'. destruct (Hw' _ _ Hg') as (s & ? & ? & ?). exists s. split; [done|]. lia.
    + intros t' (Hn' & s & Hs & Hr & Hle). split; [|exists s; split; [done|simpl; lia]].
      simpl. rewrite dict_get_set. case_decide as Hd; [subst t'|done].
      exfalso. eapply (lookup_transaction_id_distinct s (sequence_number m) t); [lia|lia|done|done].
  - split; try done. by exists (now + timeout)%Z.
Qed.

(** The lookup after the end of the query [t]. *)
Definition released_lookup (t : bytes) (l : peer_lookup) : peer_lookup :=
  let l' := set_pending (dict_del t (pending l)) l in
  if bool_decide (hint_transaction l = Some t) then set_hint_transaction None l' else l'.

Record release_step (o : nat) (l l' : peer_lookup) (m m' : manager) : Prop := {
  rs_lookups : lookups m' = <[o := l']> (lookups m);
  rs_active : active m' = active m;
  rs_tokens : tokens m' = tokens m;
  rs_time : tokens_time m' = tokens_time m;
  rs_sequence : sequence_number m' = sequence_number m;
  rs_events : events m' = events m;
  rs_lookup : exists p x, l' = set_hint_transaction x (set_pending p l);
  rs_transactions : forall t, dict_get t (transactions m) = None -> dict_get t (transactions m') = None }.

Lemma release_step_trans o l l1 l2 m m1 m2 :
  release_step o l l1 m m1 -> release_step o l1 l2 m1 m2 -> release_step o l l2 m m2.
Proof using.
  intros [A1 A2 A3 A4 A0 A5 (p1 & x1 & A6) A7] [B1 B2 B3 B4 B0 B5 (p2 & x2 & B6) B7].
  split; [|congruence..| |auto].
  - by rewrite B1, A1, insert_insert_eq.
  - exists p2, x2. by rewrite B6, A6.
Qed.

Lemma flights_member d m h o l a : inv_at d m -> at_lookup m h o l -> (flights a l <= total_flights a m)%Z.
Proof using.
  intros Hm [Hg Hl]. unfold total_flights. rewrite (sum_over_del _ h o) by (done || apply (i_tables _ _ Hm)).
  assert (0 <= sum_over (weight_of (flights a) m) (dict_del h (active m)))%Z.
  { apply sum_over_nonneg. intros o'. unfold weight_of, flights. destruct (lookups m !! o'); lia. }
  unfold weight_of at 1. rewrite Hl. lia.
Qed.

Lemma wp_release d m h o l t (Q : unit -> manager -> Prop) :
  inv_at d m -> at_lookup m h o l -> is_Some (dict_get t (pending l)) ->
  (forall m', inv_at d m' -> keeps 0 m m' ->
     release_step o l (released_lookup t l) m m' -> dict_get t (transactions m') = None -> Q tt m') ->
  wp (release_transaction o t) Q m.
Proof using.
  intros Hm Hat [[a x] Ht] HQ. unfold release_transaction.
  destruct (at_lookup_wf _ _ _ _ _ Hm Hat) as [Hh (W1 & W2 & W3 & W4 & W5 & W6 & W8 & W9 & W10)].
  destruct (Hat) as [Hg Hl].
  apply wp_bind, (wp_the_lookup _ l); [done|]. rewrite Ht.
  apply wp_bind, (wp_update_lookup _ l); [done|]. do 2 apply wp_bind, wp_modify.
  set (l1 := set_pending _ l).
  assert (forall a', flights a' l1 = (flights a' l - if decide (a = a') then 1 else 0)%Z) as Hfs
    by (intros a'; apply (flights_del t a' (a, x) l W2 Ht)).
  assert (1 <= in_flight_of a m)%Z as Hpos.
  { unfold in_flight_of. rewrite (i_flights _ _ Hm). pose proof (flights_member _ _ _ _ _ a Hm Hat) as Hle.
    specialize (Hfs a). rewrite decide_True in Hfs by done.
    assert (0 <= flights a l1)%Z by (unfold flights; lia). lia. }
  assert (lookups (put_lookup o l1 m) !! o = Some l1) as Hl1 by apply lookup_insert_eq.
  apply wp_bind. eapply (wp_mono _ (fun _ m' => m' = put_lookup o (released_lookup t l) (set_in_flight
    (if (0 <? in_flight_of a m - 1)%Z then dict_set a (in_flight_of a m - 1)%Z (in_flight m)
     else dict_del a (in_flight m)) (set_transactions (dict_del t (transactions m)) m)))).
  { apply wp_when; intros Hhint; unfold released_lookup; rewrite Hhint.
    - eapply wp_update_lookup; [exact Hl1|].
      unfold put_lookup. simpl. by rewrite insert_insert_eq.
    - done. }
  intros [] m' Hm'. apply wp_bind, wp_get.
  assert (dict_get t (transactions m') = None) as Hnone by (subst m'; simpl; apply dict_get_del_eq).
  apply wp_assert; [by apply negb_true_iff, dict_has_false|].
  assert (forall a', in_flight_of a' m' = (in_flight_of a' m - if decide (a = a') then 1 else 0)%Z) as Hfl.
  { intros a'. subst m'. unfold in_flight_of at 1. simpl. destruct (Z.ltb_spec 0 (in_flight_of a m - 1)).
    - rewrite dict_get_set. destruct (decide (a' = a)) as [Ha|Ha];
        [subst a'; rewrite decide_True by done|rewrite decide_False by congruence]; simpl; [done|].
      unfold in_flight_of. lia.
    - rewrite dict_get_del. destruct (decide (a' = a)) as [Ha|Ha];
        [subst a'; rewrite decide_True by done|rewrite decide_False by congruence]; simpl; [lia|].
      unfold in_flight_of. lia. }
  set (l' := released_lookup t l) in *.
  assert (pending l' = dict_del t (pending l)) as Hp' by (unfold l', released_lookup; by destruct (bool_decide _)).
  assert (exists x, l' = set_hint_transaction x l1) as [x' Hx'].
  { unfold l', released_lookup. destruct (bool_decide _); [by exists None|]. by exists (hint_transaction l). }
  assert (dict_wf (pending l')) as Wp by (rewrite Hp'; by apply dict_del_wf).
  assert (lookup_wf l') as Hwf'.
  { split; [by rewrite Hx'|]. split; [done|]. do 4 (split; [by rewrite Hx'|]). split.
    - rewrite Hp'. pose proof (length_dict_del t (a, x) (pending l) W2 Ht). lia.
    - split; [by rewrite Hx'|]. intros t' Ht'. rewrite Hp'. unfold l', released_lookup in Ht'.
      case_bool_decide as Hb; simpl in Ht'; [done|]. rewrite dict_get_del_ne; [by apply W10|].
      congruence. }
  apply HQ; [| | |done].
  - eapply (inv_put_lookup d m m' h o l l'); try (by rewrite Hm').
    + done.
    + done.
    + by rewrite Hx'.
    + done.
    + intros Hd. rewrite Hx'. destruct (i_current _ _ Hm h o Hg) as (l0 & Hl0 & _ & _ & Hf).
      rewrite Hl in Hl0. injection Hl0 as <-. by apply Hf.
    + rewrite Hm'. simpl. apply dict_del_wf, (i_tables _ _ Hm).
    + rewrite Hm'. simpl. destruct (_ <? _)%Z; [apply dict_set_wf|apply dict_del_wf]; apply (i_tables _ _ Hm).
    + intros t' h'. rewrite Hp', Hm'. simpl. rewrite !dict_get_del.
      destruct (decide (t' = t)) as [->|Hne].
      * destruct (decide (h' = h)) as [->|Hd]; [split; [done|by intros [? ?]]|]. split; [done|].
        intros Hg'. apply (i_owner _ _ Hm) in Hg' as Hown.
        assert (dict_get t (transactions m) = Some h) by (apply (i_owner _ _ Hm); exists o, l; eauto). congruence.
      * destruct (decide (h' = h)) as [->|Hd]; [|done]. rewrite (i_owner _ _ Hm). split.
        -- intros (o' & l0 & [Hg' Hl'] & ?). assert (o' = o) as -> by congruence. congruence.
        -- intros ?. exists o, l. done.
    + intros a'. change (in_flight_of a' m' = (in_flight_of a' m - flights a' l + flights a' l')%Z).
      assert (flights a' l' = flights a' l1) as -> by (unfold flights; by rewrite Hp').
      rewrite Hfl, Hfs. lia.
    + intros a' n'. rewrite Hm'. simpl. destruct (Z.ltb_spec 0 (in_flight_of a m - 1)).
      * rewrite dict_get_set. case_decide as Hd; [|apply (i_per_node _ _ Hm)]. subst a'. intros [= <-].
        unfold in_flight_of in *. simpl in *. destruct (dict_get a (in_flight m)) as [k|] eqn:Hk; simpl in *; [|lia].
        apply (i_per_node _ _ Hm) in Hk. lia.
      * rewrite dict_get_del. case_decide; [done|]. apply (i_per_node _ _ Hm).
    + rewrite Hm'. apply (i_tokens _ _ Hm).
    + rewrite Hm'. simpl. split; [apply (i_ids _ _ Hm)|]. intros t' h'. rewrite dict_get_del.
      case_decide; [done|]. apply (i_ids _ _ Hm).
    + rewrite Hm'. apply (i_rate _ _ Hm).
    + rewrite Hm'. apply (i_totals _ _ Hm).
    + rewrite Hm'. apply (i_time _ _ Hm).
    + rewrite Hm'. apply (i_events _ _ Hm).
    + rewrite Hm'. apply (i_counters _ _ Hm).
  - apply keeps_same; [by rewrite Hm'|]. intros t' h'. rewrite Hm'. simpl. rewrite dict_get_del. by case_decide.
  - split; try (by rewrite Hm').
    + rewrite Hx'. by exists (dict_del t (pending l)), x'.
    + intros t' Ht'. rewrite Hm'. simpl. rewrite dict_get_del. by case_decide.
Qed.

Lemma wp_release_all d m h o l ts :
  inv_at d m -> at_lookup m h o l -> NoDup ts -> (forall t, t ∈ ts -> is_Some (dict_get t (pending l))) ->
  wp (for_each ts (release_transaction o)) (fun _ m' => exists l', inv_at d m' /\ at_lookup m' h o l' /\
    release_step o l l' m m' /\ keeps 0 m m' /\
    pending l' = filter (fun p : bytes * (address * Z) => p.1 ∉ ts) (pending l)) m.
Proof using.
  intros Hm Hat Hnd. revert m l Hm Hat. induction Hnd as [|t ts Hn Hnd IH]; intros m l Hm Hat Hts; cbn [for_each].
  - apply wp_ret. exists l. split; [done|]. split; [done|]. split; [|split; [apply keeps_refl|]].
    + split; try done; [by rewrite insert_id by apply Hat|].
      exists (pending l), (hint_transaction l). by destruct l.
    + symmetry. apply filter_all. intros p _. apply not_elem_of_nil.
  - apply wp_bind. eapply wp_release; [exact Hm|exact Hat|apply Hts; left|].
    intros m1 Hm1 Hw1 Hr1 _. set (l1 := released_lookup t l) in *.
    assert (pending l1 = dict_del t (pending l)) as Hp1 by (unfold l1, released_lookup; by destruct (bool_decide _)).
    assert (at_lookup m1 h o l1) as Hat1.
    { split; [rewrite (rs_active _ _ _ _ _ Hr1); apply Hat|].
      rewrite (rs_lookups _ _ _ _ _ Hr1). apply lookup_insert_eq. }
    eapply wp_mono; [apply (IH m1 l1); [done|done|]|].
    + intros t' Ht'. rewrite Hp1, dict_get_del_ne; [apply Hts; by right|]. by intros ->.
    + intros [] m2 (l2 & Hm2 & Hat2 & Hr2 & Hw2 & Hp2). exists l2. split; [done|]. split; [done|].
      split; [by eapply release_step_trans|]. split; [by eapply (keeps_trans 0 0)|]. rewrite Hp2, Hp1. unfold dict_del.
      rewrite list_filter_filter. apply list_filter_iff. intros p. rewrite not_elem_of_cons. tauto.
Qed.

(** ** Changes of a lookup that no table sees *)

Lemma inv_put_quiet d m h o l l' :
  inv_at d m -> at_lookup m h o l -> lk_hash l' = lk_hash l -> pending l' = pending l ->
  d = Some h \/ finished l' = finished l -> lookup_wf l' -> inv_at d (put_lookup o l' m).
Proof using.
  intros Hm Hat Hh Hp Hf Hwf. destruct (at_lookup_wf _ _ _ _ _ Hm Hat) as [Hhash _].
  destruct (Hat) as [Hg Hl]. eapply (inv_put_lookup d m _ h o l l'); try done; try (by destruct Hm).
  - congruence.
  - intros Hd. destruct Hf as [?|Hf]; [done|]. rewrite Hf.
    destruct (i_current _ _ Hm h o Hg) as (l0 & Hl0 & _ & _ & Hfin).
    rewrite Hl in Hl0. injection Hl0 as <-. by apply Hfin.
  - apply (i_tables _ _ Hm).
  - apply (i_tables _ _ Hm).
  - intros t h'. rewrite Hp. simpl. case_decide as Hd; [subst h'|done]. rewrite (i_owner _ _ Hm). split.
    + intros (o' & l0 & [Hg' Hl'] & ?). assert (o' = o) as -> by congruence. congruence.
    + intros ?. exists o, l. done.
  - intros a. simpl. unfold flights. rewrite Hp. lia.
Qed.

Lemma at_lookup_put m h o l l' : at_lookup m h o l -> at_lookup (put_lookup o l' m) h o l'.
Proof using. intros [Hg _]. split; [done|]. apply lookup_insert_eq. Qed.

Lemma dict_wf_nodes_by_id nodes d :
  dict_wf d -> dict_wf (foldl (fun d n => dict_set (node_id n) n d) d nodes).
Proof using. revert d. induction nodes as [|n nodes IH]; intros d Hd; simpl; [done|]. by apply IH, dict_set_wf. Qed.

Lemma length_nodes_by_id nodes d :
  length (foldl (fun d n => dict_set (node_id n) n d) d nodes) <= length d + length nodes.
Proof using.
  revert d. induction nodes as [|n nodes IH]; intros d; simpl; [lia|].
  etransitivity; [apply IH|]. rewrite length_dict_set. case_match; lia.
Qed.

Definition shortlist_ok (s : list (bytes * node)) : Prop :=
  dict_wf s /\
  Forall (fun kn : bytes * node => kn.1 = node_id kn.2 /\ is_usable_node node_filter kn.2 = true) s.

Lemma usable_id n : is_usable_node node_filter n = true -> length (node_id n) = NODE_ID_LENGTH.
Proof using. intros [Hid _]%andb_true_iff. by apply is_node_id_true. Qed.

Lemma shortlist_ok_set n s :
  is_usable_node node_filter n = true -> shortlist_ok s -> shortlist_ok (dict_set (node_id n) n s).
Proof using.
  intros Hn [Hs Hall]. split; [by apply dict_set_wf|]. rewrite Forall_forall in *.
  intros kv [->|?]%elem_of_dict_set; auto.
Qed.

Lemma shortlist_ok_nodes nodes s :
  Forall (fun n => is_usable_node node_filter n = true) nodes -> shortlist_ok s ->
  shortlist_ok (foldl (fun d n => dict_set (node_id n) n d) s nodes).
Proof using.
  intros Hn. revert s. induction Hn as [|n nodes Hn Hall IH]; intros s Hs; simpl; [done|].
  by apply IH, shortlist_ok_set.
Qed.

Lemma shortlist_usable s : shortlist_ok s -> Forall (fun n => is_usable_node node_filter n = true) s.*2.
Proof using. intros [_ Hall]. apply Forall_fmap. eapply Forall_impl; [exact Hall|]. by intros kn []. Qed.

Lemma shortlist_nodes s : shortlist_ok s -> Forall (fun n => length (node_id n) = NODE_ID_LENGTH) s.*2.
Proof using. intros Hs. eapply Forall_impl; [by apply shortlist_usable|]. exact usable_id. Qed.

Lemma lookup_wf_shortlist l : lookup_wf l -> shortlist_ok (shortlist l).
Proof using. by intros (_ & _ & ? & ? & _). Qed.

Lemma lookup_wf_set_shortlist l s :
  lookup_wf l -> shortlist_ok s -> length s <= shortlist_size lim -> lookup_wf (set_shortlist s l).
Proof using.
  intros (A & B & _ & _ & _ & C) [Hs1 Hs2] Hlen. split; [exact A|]. split; [exact B|]. split; [exact Hs1|].
  split; [exact Hs2|]. split; [exact Hlen|]. exact C.
Qed.

Lemma put_lookup_put o l l' m : put_lookup o l (put_lookup o l' m) = put_lookup o l m.
Proof using. unfold put_lookup. simpl. by rewrite insert_insert_eq. Qed.

Lemma put_lookup_id o l m : lookups m !! o = Some l -> put_lookup o l m = m.
Proof using. intros Hl. unfold put_lookup. rewrite insert_id by done. by destruct m. Qed.

Lemma wp_add_to_shortlist m o l nodes :
  lookups m !! o = Some l -> lookup_wf l ->
  wp (add_to_shortlist node_filter lim o nodes) (fun _ m' => exists s,
    m' = put_lookup o (set_shortlist s l) m /\ lookup_wf (set_shortlist s l)) m.
Proof using.
  intros Hl Hwf. unfold add_to_shortlist. apply wp_bind.
  set (I m1 := exists s, m1 = put_lookup o (set_shortlist s l) m /\ shortlist_ok s).
  eapply wp_mono; [apply (wp_for_each _ _ I)|].
  - exists (shortlist l). split; [|by apply lookup_wf_shortlist]. symmetry. apply put_lookup_id.
    rewrite Hl. by destruct l.
  - intros n m1 _ (s & -> & Hs). apply wp_bind.
    eapply wp_the_lookup; [apply lookup_insert_eq|]. apply wp_when; [|by exists s].
    intros [Hu _]%andb_true_iff.
    eapply wp_update_lookup; [apply lookup_insert_eq|]. rewrite put_lookup_put.
    exists (dict_set (node_id n) n s). split; [done|]. by apply shortlist_ok_set.
  - intros [] m1 (s & -> & Hs). apply wp_bind. eapply wp_the_lookup; [apply lookup_insert_eq|].
    apply wp_bind. eapply (wp_mono _ (fun _ m1 => exists s, m1 = put_lookup o (set_shortlist s l) m /\
      shortlist_ok s /\ length s <= shortlist_size lim)).
    + apply wp_when; intros Hlen; [|exists s; split; [done|]; split; [done|];
        apply bool_decide_eq_false in Hlen; simpl in Hlen; lia].
      destruct Hwf as [Hh _]. apply wp_bind. eapply wp_lift.
      { apply select_closest_nodes_eq; [done|]. by apply shortlist_nodes. }
      set (closest := take _ _). eapply wp_update_lookup; [apply lookup_insert_eq|]. rewrite put_lookup_put.
      exists (nodes_by_id closest). split; [done|]. split.
      * apply shortlist_ok_nodes; [|split; [apply dict_wf_nil|constructor]].
        apply Forall_take. rewrite sort_by_Permutation. by apply shortlist_usable.
      * etransitivity; [apply length_nodes_by_id|]. simpl. unfold closest. rewrite length_take. lia.
    + intros [] m2 (s' & -> & Hs' & Hlen). apply wp_bind. eapply wp_the_lookup; [apply lookup_insert_eq|].
      apply wp_assert; [by apply bool_decide_eq_true|]. exists s'. split; [done|].
      by apply lookup_wf_set_shortlist.
Qed.

(** ** Topping up *)

(** What a lookup keeps while queries are sent and end. *)
Definition same_core (l l' : peer_lookup) : Prop :=
  lk_hash l' = lk_hash l /\ shortlist l' = shortlist l /\ found_peers l' = found_peers l /\
  value_responses l' = value_responses l /\ lk_deadline l' = lk_deadline l /\ finished l' = finished l.

Lemma same_core_trans l l1 l2 : same_core l l1 -> same_core l1 l2 -> same_core l l2.
Proof using. unfold same_core. intros; destruct_and?; repeat split; congruence. Qed.

(** A step of the lookup [o], the other lookups and the active ones as before. *)
Definition local_step (o : nat) (l' : peer_lookup) (m m' : manager) : Prop :=
  lookups m' = <[o := l']> (lookups m) /\ active m' = active m.

Lemma local_step_trans o l1 l2 m m1 m2 :
  local_step o l1 m m1 -> local_step o l2 m1 m2 -> local_step o l2 m m2.
Proof using. intros [A1 A2] [B1 B2]. split; [by rewrite B1, A1, insert_insert_eq|congruence]. Qed.

Lemma local_step_at m m' h o l l' : at_lookup m h o l -> local_step o l' m m' -> at_lookup m' h o l'.
Proof using. intros [Hg Hl] [Hs Ha]. split; [congruence|]. rewrite Hs. apply lookup_insert_eq. Qed.

Lemma local_step_refl m h o l : at_lookup m h o l -> local_step o l m m.
Proof using. intros [_ Hl]. split; [|done]. by rewrite insert_id. Qed.

Lemma at_lookup_not_finished m h o l : inv m -> at_lookup m h o l -> finished l = false.
Proof using.
  intros Hm [Hg Hl]. destruct (i_current _ _ Hm h o Hg) as (l' & Hl' & _ & _ & Hf).
  rewrite Hl in Hl'. injection Hl' as <-. by apply Hf.
Qed.

Lemma wp_send_each (Hlim : limits_ok) m h o l nodes now k :
  inv m -> at_lookup m h o l -> window k m -> (Z.of_nat (length nodes) <= k <= 2 ^ 24)%Z ->
  (Z.of_nat (length (pending l)) + Z.of_nat (length nodes) <= alpha lim)%Z ->
  (queries_sent l + Z.of_nat (length nodes) <= Z.max 1 (max_queries lim))%Z ->
  (forall n, n ∈ nodes -> in_flight_of (node_address n) m + Z.of_nat (length nodes) <= flight_bound)%Z ->
  (forall n, n ∈ nodes -> is_usable_node node_filter n = true) ->
  wp (send_each lim o nodes now) (fun sent m' => exists l', inv m' /\ at_lookup m' h o l' /\
    local_step o l' m m' /\ keeps (Z.of_nat (length nodes)) m m' /\ same_core l l' /\
    (0 <= sent <= Z.of_nat (length nodes))%Z) m.
Proof using.
  revert m l k. induction nodes as [|n nodes IH]; intros m l k Hm Hat Hw Hk Hp Hq Hfl Hus; cbn [send_each].
  - apply wp_ret. exists l. split; [done|]. split; [done|]. split; [by eapply local_step_refl|].
    split; [apply keeps_refl|]. by repeat split.
  - apply wp_bind, wp_gets. cbn [length] in *. destruct (Z.ltb_spec (tokens m) TOKEN) as [Ht|Ht].
    { apply wp_ret. exists l. split; [done|]. split; [done|]. split; [by eapply local_step_refl|].
      split; [eapply keeps_mono; [|apply keeps_refl]; lia|]. repeat split; lia. }
    apply wp_bind. eapply (wp_send_to m h o l n now); [done|done|apply Hlim|done|exact Hw|lia|lia|lia| |apply Hus; left|].
    { specialize (Hfl n ltac:(left)). unfold flight_bound in *. lia. }
    intros t m1 Hm1 Hk1 [(expiry & Hls) Ha Htok Htime Hflight Hpn Hnew Htr Hev].
    set (l1 := sent_lookup t (node_address n) expiry l) in *.
    assert (local_step o l1 m m1) as Hs1 by done.
    assert (length (pending l1) = S (length (pending l))) as Hlen.
    { unfold l1. simpl. rewrite dict_set_new, length_app by done. simpl. lia. }
    apply wp_bind. eapply wp_mono.
    + apply (IH m1 l1 (k - 1)%Z); [done|by eapply local_step_at| | | | | |intros n' Hn'; apply Hus; by right].
      * destruct (Hk1 k) as [W _]; [lia|]. by apply W.
      * lia.
      * lia.
      * unfold l1. simpl. lia.
      * intros n' Hn'. rewrite Hflight. specialize (Hfl n' ltac:(by right)). case_decide; lia.
    + intros sent m2 (l2 & Hm2 & Hat2 & Hs2 & Hk2 & Hc2 & Hsent). apply wp_ret. exists l2.
      split; [done|]. split; [done|]. split; [by eapply local_step_trans|]. split; [|split; [|lia]].
      * replace (Z.of_nat (S (length nodes))) with (1 + Z.of_nat (length nodes))%Z by lia.
        eapply keeps_trans; [lia|lia|done|done].
      * exact Hc2.
Qed.

Lemma wp_top_up (Hlim : limits_ok) m h o l now :
  inv m -> at_lookup m h o l -> (0 <= now <= T)%Z -> window (alpha lim) m ->
  wp (top_up lim o now) (fun sent m' => exists l', inv m' /\ at_lookup m' h o l' /\
    local_step o l' m m' /\ keeps (alpha lim) m m' /\ same_core l l') m.
Proof using.
  intros Hm Hat Hnow Hw. unfold top_up. pose proof Hlim as (La & Lm & Lq & Ln & Lt & Lh & _). pose proof (alpha_small Hlim) as L24.
  apply wp_bind, (wp_the_lookup _ l); [apply Hat|].
  apply wp_bind, wp_assert; [by rewrite (at_lookup_not_finished _ _ _ _ Hm Hat)|].
  set (free := Z.min _ _). destruct (Z.leb_spec free 0) as [Hf|Hf].
  { apply wp_ret. exists l. split; [done|]. split; [done|]. split; [by eapply local_step_refl|].
    split; [eapply keeps_mono; [|apply keeps_refl]; lia|]. by repeat split. }
  apply wp_bind. eapply wp_refill; [done|exact Hm|done|]. intros m1 Hm1 Href.
  pose proof (refilled_at _ _ _ _ _ Href Hat) as Hat1. pose proof (refilled_window _ _ _ Href Hw) as Hw1.
  assert (local_step o l m m1) as Hs1.
  { destruct Href as (t & tt & -> & _). split; [|done]. by rewrite insert_id by apply Hat. }
  assert (keeps 0 m m1) as Hk1 by (destruct Href as (t & tt & -> & _); by apply keeps_same).
  destruct (Z.ltb_spec (tokens m1) TOKEN) as [Ht|Ht].
  { apply wp_ret. exists l. split; [done|]. split; [done|]. split; [done|].
    split; [eapply keeps_mono; [|exact Hk1]; lia|]. by repeat split. }
  apply wp_bind, wp_get. destruct (at_lookup_wf _ _ _ _ _ Hm Hat) as [_ Hwf].
  pose proof (shortlist_nodes _ (lookup_wf_shortlist _ Hwf)) as Hids.
  pose proof (shortlist_usable _ (lookup_wf_shortlist _ Hwf)) as Hus.
  destruct Hwf as (W1 & W2 & W3 & W4 & W5 & W6 & W8 & W9 & W10).
  set (cand := candidates lim l m1).
  apply wp_bind. eapply wp_lift.
  { apply select_closest_nodes_eq; [done|]. rewrite Forall_forall in *. intros n Hn.
    unfold cand, candidates in Hn. apply list_elem_of_filter in Hn as [_ Hn]. by apply Hids. }
  set (chosen := take _ _).
  assert (Z.of_nat (length chosen) <= free)%Z as Hlen by (unfold chosen; rewrite length_take; lia).
  assert (forall n, n ∈ chosen -> (in_flight_of (node_address n) m1 < max_per_node lim)%Z) as Hcand.
  { intros n Hn%subseteq_take. rewrite sort_by_Permutation in Hn. unfold cand, candidates in Hn.
    apply list_elem_of_filter in Hn as [[_ Hn]%andb_true_iff _]. apply Z.ltb_lt in Hn. exact Hn. }
  apply wp_bind. eapply wp_mono.
  { apply (wp_send_each Hlim m1 h o l chosen now (alpha lim)); try done; try (unfold free in *; lia).
    - intros n Hn%Hcand. unfold flight_bound, free in *. lia.
    - intros n Hn%subseteq_take. rewrite sort_by_Permutation in Hn. unfold cand, candidates in Hn.
      apply list_elem_of_filter in Hn as [_ Hn]. rewrite Forall_forall in Hus. by apply Hus. }
  intros sent m2 (l2 & Hm2 & Hat2 & Hs2 & Hk2 & Hc2 & Hsent).
  apply wp_bind, wp_assert; [unfold free in *; lia|]. apply wp_ret. exists l2.
  split; [done|]. split; [done|]. split; [by eapply local_step_trans|]. split; [|done].
  eapply (keeps_mono (0 + Z.of_nat (length chosen))); [unfold free in *; lia|].
  eapply keeps_trans; [lia|lia|done|done].
Qed.

(** ** Finishing *)

Lemma inv_finishing h m : inv m -> inv_at (Some h) m.
Proof using.
  intros Hm. split; try (by destruct Hm). intros h' o Hg.
  destruct (i_current _ _ Hm h' o Hg) as (l & ? & ? & ? & Hf). exists l.
  split; [done|]. split; [done|]. split; [done|]. intros _. by apply Hf.
Qed.

(** The manager after the lookup [o] of [h] is finished with the peers [found]. *)
Definition finished_manager (h : bytes) (found : list address) (m : manager) : manager :=
  set_events (events m ++ [Lookup_finished h found])
    (set_with_peers_total (with_peers_total m + if bool_decide (found = []) then 0 else 1)%Z
      (set_peers_found_total (peers_found_total m + Z.of_nat (length found))%Z
        (set_finished_total (finished_total m + 1)%Z (set_active (dict_del h (active m)) m)))).

Lemma peers_ok_sorted found : peers_ok found -> peers_ok (sort_by address_leb found).
Proof using. unfold peers_ok. by rewrite sort_by_Permutation. Qed.

Lemma inv_finished h o l found m :
  inv_at (Some h) m -> at_lookup m h o l -> pending l = [] -> peers_ok found ->
  inv (finished_manager h found m).
Proof using.
  intros Hm Hat Hp Hfound. destruct (i_tables _ _ Hm) as (W1 & W2 & W3). destruct (Hat) as [Hg Hl].
  pose proof (length_dict_del h o (active m) W1 Hg) as Hlen.
  assert (forall a, flights a l = 0%Z) as Hfl by (intros a; unfold flights; by rewrite Hp).
  split; try (by destruct Hm); simpl.
  - split; [by apply dict_del_wf|done].
  - intros h' o'. rewrite dict_get_del. case_decide as Hd; [done|]. intros Hg'.
    destruct (i_current _ _ Hm h' o' Hg') as (l' & ? & ? & ? & Hf). exists l'.
    split; [done|]. split; [done|]. split; [done|]. intros _. apply Hf. congruence.
  - intros t h'. rewrite (i_owner _ _ Hm). split; intros (o' & l' & [Hg' Hl'] & Ht); exists o', l';
      (split; [split; [|done]|done]).
    + simpl. rewrite dict_get_del_ne; [done|]. intros ->. assert (o' = o) as -> by congruence.
      assert (l' = l) as -> by congruence. rewrite Hp in Ht. by destruct Ht.
    + simpl in Hg'. rewrite dict_get_del in Hg'. by case_decide.
  - intros a. rewrite (i_flights _ _ Hm). unfold total_flights. simpl.
    rewrite (sum_over_del _ h o) by done. unfold weight_of at 1. rewrite Hl, Hfl. done.
  - pose proof (i_slots _ _ Hm). lia.
  - destruct (i_totals _ _ Hm) as (? & ? & ?). rewrite !count_events_snoc. simpl. lia.
  - apply Forall_app. split; [apply (i_events _ _ Hm)|]. apply Forall_singleton.
    destruct (at_lookup_wf _ _ _ _ _ Hm Hat) as [<- [? _]]. by split.
  - destruct (i_counters _ _ Hm). case_bool_decide; lia.
Qed.

(** What the end of the lookup [o] of [h] does. *)
Record finish_step (h : bytes) (o : nat) (l : peer_lookup) (m m' : manager) : Prop := {
  fs_lookups : exists l', lookups m' = <[o := l']> (lookups m) /\ finished l' = true /\ pending l' = [];
  fs_active : active m' = dict_del h (active m);
  fs_events : events m' = events m ++ [Lookup_finished h (sort_by address_leb (found_peers l))] }.

Lemma wp_finish m h o l :
  inv m -> at_lookup m h o l ->
  wp (finish o) (fun _ m' => inv m' /\ keeps 0 m m' /\ finish_step h o l m m') m.
Proof using.
  intros Hm Hat. unfold finish. destruct (at_lookup_wf _ _ _ _ _ Hm Hat) as [Hh Hwf].
  apply wp_bind, (wp_the_lookup _ l); [apply Hat|].
  apply wp_bind, wp_assert; [by rewrite (at_lookup_not_finished _ _ _ _ Hm Hat)|].
  apply wp_bind, (wp_update_lookup _ l); [apply Hat|]. set (l1 := set_finished true l).
  apply (inv_finishing h) in Hm.
  assert (inv_at (Some h) (put_lookup o l1 m)) as Hm1
    by (eapply (inv_put_quiet _ m h o l l1); [done|done|done|done|by left|exact Hwf]).
  pose proof (at_lookup_put m h o l l1 Hat) as Hat1.
  destruct Hwf as (W1 & W2 & _ & _ & _ & Wp & _). apply wp_bind. eapply wp_mono.
  { apply (wp_release_all (Some h) (put_lookup o l1 m) h o l1 (pending l).*1); [done|done|exact W2|].
    intros t Ht. by apply dict_get_is_Some. }
  intros [] m2 (l2 & Hm2 & Hat2 & [Rl Ra Rt Rti Rs Re (p & x & Hl2) Rtr] & Hk & Hp).
  rewrite filter_none in Hp; [|intros kv Hin Hn; apply Hn, list_elem_of_fmap; eauto].
  do 4 apply wp_bind, wp_modify. unfold emit. apply wp_bind, wp_modify, wp_bind, wp_get. rewrite Hh.
  set (found := sort_by address_leb (found_peers l)).
  match goal with |- wp _ _ ?m0 => change m0 with (finished_manager h found m2) end.
  apply wp_assert; [simpl; apply negb_true_iff, dict_has_false, dict_get_del_eq|].
  split; [eapply inv_finished; [done|done|done|by apply peers_ok_sorted]|]. split; [exact Hk|]. split.
  - exists l2. simpl. rewrite Rl. simpl. rewrite insert_insert_eq. split; [done|]. split; [by rewrite Hl2|done].
  - simpl. by rewrite Ra.
  - simpl. by rewrite Re.
Qed.

(** ** Advancing *)

(** What a step of the lookup [o] of [h] does: the lookup is finished or it goes
    on, and the others are as they were. *)
Definition others_kept (h : bytes) (o : nat) (m m' : manager) : Prop :=
  (forall o', o' <> o -> lookups m' !! o' = lookups m !! o') /\
  (forall h', h' <> h -> dict_get h' (active m') = dict_get h' (active m)).

Lemma local_others o l h m m' : local_step o l m m' -> others_kept h o m m'.
Proof using. intros [Hl Ha]. split; [intros o' Hne; by rewrite Hl, lookup_insert_ne|by rewrite Ha]. Qed.

Lemma finish_others h o l m m' : finish_step h o l m m' -> others_kept h o m m'.
Proof using.
  intros [(l' & Hl & _ & _) Ha _]. split; [intros o' Hne; by rewrite Hl, lookup_insert_ne|].
  intros h' Hne. by rewrite Ha, dict_get_del_ne.
Qed.

Lemma others_trans h o m m1 m2 : others_kept h o m m1 -> others_kept h o m1 m2 -> others_kept h o m m2.
Proof using. intros [A1 A2] [B1 B2]. split; intros; [by rewrite B1, A1|by rewrite B2, A2]. Qed.

(** A lookup that goes on after [advance]: it is neither late nor satisfied. *)
Definition advanced (h : bytes) (o : nat) (now : Z) (m' : manager) : Prop :=
  (exists l', at_lookup m' h o l' /\ must_finish lim l' now = false) \/
  (dict_get h (active m') = None /\ exists l', lookups m' !! o = Some l' /\ finished l' = true /\ pending l' = []).

Lemma must_finish_core l l' now : same_core l l' -> must_finish lim l' now = must_finish lim l now.
Proof using. intros (_ & _ & H3 & H4 & H5 & _). unfold must_finish. by rewrite H3, H4, H5. Qed.

Lemma finish_advanced h o l now m m' : inv m' -> finish_step h o l m m' -> advanced h o now m'.
Proof using.
  intros Hm [(l' & Hl & Hf & Hp) Ha _]. right. split; [rewrite Ha; apply dict_get_del_eq|].
  exists l'. by rewrite Hl, lookup_insert_eq.
Qed.

Lemma wp_advance (Hlim : limits_ok) m h o l now :
  inv m -> at_lookup m h o l -> (0 <= now <= T)%Z -> window (alpha lim) m ->
  wp (advance lim o now) (fun _ m' => inv m' /\ keeps (alpha lim) m m' /\
    others_kept h o m m' /\ advanced h o now m') m.
Proof using.
  intros Hm Hat Hnow Hw. unfold advance. pose proof Hlim as (La & _).
  apply wp_bind, (wp_the_lookup _ l); [apply Hat|]. rewrite (at_lookup_not_finished _ _ _ _ Hm Hat).
  apply wp_bind. eapply (wp_mono _ (fun _ m' => inv m' /\ keeps (alpha lim) m m' /\
    others_kept h o m m' /\ advanced h o now m')).
  - destruct (must_finish lim l now) eqn:Hmust.
    { eapply wp_mono; [by apply wp_finish|]. intros [] m' (Hm' & Hk & Hs). split; [done|].
      split; [by eapply keeps_mono; [|exact Hk]; lia|]. split; [by eapply finish_others|].
      by eapply finish_advanced. }
    apply wp_when; intros _.
    2: { split; [done|]. split; [eapply keeps_mono; [|apply keeps_refl]; lia|].
         split; [by eapply local_others, local_step_refl|]. left. by exists l. }
    apply wp_bind. eapply wp_mono; [by apply (wp_top_up Hlim m h o l now)|].
    intros sent m1 (l1 & Hm1 & Hat1 & Hs1 & Hk1 & Hc1).
    apply wp_bind, (wp_the_lookup _ l1); [apply Hat1|]. apply wp_when; intros _.
    + eapply wp_mono; [by apply wp_finish|]. intros [] m' (Hm' & Hk & Hs). split; [done|]. split.
      { replace (alpha lim) with (alpha lim + 0)%Z by lia. eapply keeps_trans; [lia|lia|done|done]. }
      split; [|by eapply finish_advanced].
      eapply others_trans; [by eapply local_others|by eapply finish_others].
    + split; [done|]. split; [done|]. split; [by eapply local_others|]. left. exists l1. split; [done|].
      by rewrite (must_finish_core _ _ _ Hc1).
  - intros [] m' (Hm' & Hk & Ho & Hadv).
    assert (exists l', lookups m' !! o = Some l' /\
      finished l' || dict_has (lk_hash l') (active m') = true) as (l' & Hl' & Hcase).
    { destruct Hadv as [(l' & Hat' & _)|(_ & l' & Hl' & Hf & _)].
      - exists l'. split; [apply Hat'|]. destruct (at_lookup_wf _ _ _ _ _ Hm' Hat') as [-> _].
        apply orb_true_iff. right. apply dict_has_get. destruct Hat'. eauto.
      - exists l'. by rewrite Hf. }
    apply wp_bind, (wp_the_lookup _ l'); [done|]. apply wp_bind, wp_get, wp_assert; done.
Qed.

Lemma wp_expire_pending m h o l now (Q : Z -> manager -> Prop) :
  inv m -> at_lookup m h o l ->
  (forall n l' m', inv m' -> at_lookup m' h o l' -> keeps 0 m m' -> others_kept h o m m' ->
     Forall (fun p : bytes * (address * Z) => now < p.2.2)%Z (pending l') -> Q n m') ->
  wp (expire_pending o now) Q m.
Proof using.
  intros Hm Hat HQ. unfold expire_pending. destruct (at_lookup_wf _ _ _ _ _ Hm Hat) as [Hh (W1 & W2 & _)].
  apply wp_bind, (wp_the_lookup _ l); [apply Hat|]. set (expired := filter _ (pending l)).
  apply wp_bind. eapply wp_mono.
  { apply (wp_release_all None m h o l expired.*1); [done|done| |].
    - eapply sublist_NoDup; [exact W2|]. apply fmap_sublist, sublist_filter.
    - intros t (kv & -> & Hin)%list_elem_of_fmap. apply list_elem_of_filter in Hin as [_ Hin].
      apply dict_get_is_Some, list_elem_of_fmap. eauto. }
  intros [] m' (l' & Hm' & Hat' & [Rl Ra _ _ _ _ _ _] & Hk & Hp).
  assert (Forall (fun p : bytes * (address * Z) => now < p.2.2)%Z (pending l')) as Hall.
  { rewrite Hp. apply Forall_forall. intros kv [Hn Hin]%list_elem_of_filter.
    destruct (Z.lt_ge_cases now kv.2.2) as [?|Hge]; [done|]. exfalso. apply Hn, list_elem_of_fmap.
    exists kv. split; [done|]. by apply list_elem_of_filter. }
  apply wp_bind, (wp_the_lookup _ l'); [apply Hat'|]. apply wp_bind, wp_assert.
  { apply forallb_forall. rewrite Forall_forall in Hall. intros kv Hin%list_elem_of_In%Hall. lia. }
  apply wp_ret. eapply HQ; [done|done|done| |done]. by apply (local_others o l').
Qed.

(** ** Responses *)

(** The manager while the lookup [o] of [h] of [m] is updated. *)
Definition during (h : bytes) (o : nat) (m m' : manager) : Prop :=
  inv m' /\ (exists l', at_lookup m' h o l') /\ keeps 0 m m' /\ others_kept h o m m'.

Lemma during_refl h o l m : inv m -> at_lookup m h o l -> during h o m m.
Proof using.
  intros Hm Hat. split; [done|]. split; [by exists l|]. split; [apply keeps_refl|].
  by eapply local_others, local_step_refl.
Qed.

Lemma during_put h o m m1 l l' :
  during h o m m1 -> at_lookup m1 h o l -> lk_hash l' = lk_hash l -> pending l' = pending l ->
  finished l' = finished l -> lookup_wf l' -> during h o m (put_lookup o l' m1).
Proof using.
  intros (Hm1 & _ & Hk & Ho) Hat Hh Hp Hf Hwf. split; [by eapply inv_put_quiet; eauto|].
  split; [exists l'; by eapply at_lookup_put|]. split.
  - apply (keeps_trans 0 0 m m1 _); [done|done|done|by apply keeps_same].
  - eapply others_trans; [exact Ho|]. by apply (local_others o l').
Qed.

(** Statistics and events of other kinds. *)
Lemma during_emit h o m m1 found :
  during h o m m1 -> Forall routable found ->
  during h o m (set_events (events m1 ++ [Peers_found h found]) m1).
Proof using.
  intros (Hm1 & Hat & Hk & Ho) Hf. split; [|done]. split; try (by destruct Hm1); simpl.
  - rewrite !count_events_snoc. simpl. destruct (i_totals _ _ Hm1). lia.
  - apply Forall_app. split; [apply (i_events _ _ Hm1)|]. apply Forall_singleton. destruct Hat as [l Hat].
    destruct (at_lookup_wf _ _ _ _ _ Hm1 Hat) as [<- [? _]]. by split.
Qed.

Lemma during_hint h o m m1 (b : bool) :
  during h o m m1 -> during h o m (if b then set_hint_values (hint_values m1 + 1)%Z m1
                                   else set_hint_answers (hint_answers m1 + 1)%Z m1).
Proof using.
  intros (Hm1 & Hat & Hk & Ho). destruct b; (split; [|done]); split; try (by destruct Hm1);
    simpl; destruct (i_counters _ _ Hm1); lia.
Qed.

Lemma lookup_wf_found l f : lookup_wf l -> peers_ok f -> lookup_wf (set_found_peers f l).
Proof using. intros (A & B & C & D & E & _ & F) Hf. do 5 (split; [done|]). by split. Qed.

Lemma wp_collect_peers h o m values m1 :
  during h o m m1 ->
  wp (collect_peers lim o values) (fun found m' => during h o m m' /\ Forall routable found) m1.
Proof using.
  revert m1. induction values as [|peer values IH]; intros m1 Hd; cbn [collect_peers]; [apply wp_ret; split; [done|constructor]|].
  destruct (is_routable_address_total peer.1 peer.2) as [b Hb].
  apply wp_bind, (wp_lift _ b); [done|]. destruct Hd as (Hm1 & (l & Hat) & Hrest).
  pose proof (conj Hm1 (conj (ex_intro _ l Hat) Hrest)) as Hd.
  apply wp_bind, (wp_the_lookup _ l); [apply Hat|]. destruct (b && _ && _) eqn:Hc; [|by apply IH].
  rewrite !andb_true_iff, negb_true_iff, bool_decide_eq_false, Z.ltb_lt in Hc. destruct Hc as [[-> Hn] Hlen].
  apply wp_bind, (wp_update_lookup _ l); [apply Hat|]. apply wp_bind.
  eapply wp_mono; [apply IH|intros rest m2 [Hd2 Hrest2]; apply wp_ret; split; [done|by constructor]].
  destruct (at_lookup_wf _ _ _ _ _ Hm1 Hat) as [_ Hwf]. eapply during_put; [exact Hd|exact Hat|done..|].
  pose proof Hwf as (_ & _ & _ & _ & _ & (N & R & L) & _).
  apply lookup_wf_found; [done|]. split; [|split; [|rewrite length_app; simpl; lia]].
  - apply NoDup_app. split; [done|]. split; [|apply NoDup_singleton].
    intros x Hx ->%list_elem_of_singleton. done.
  - apply Forall_app. split; [done|]. by apply Forall_singleton.
Qed.

Lemma wp_response_nodes h o m nodes m1 :
  during h o m m1 -> wp (add_to_shortlist node_filter lim o nodes) (fun _ => during h o m) m1.
Proof using.
  intros Hd. pose proof Hd as (Hm1 & (l & Hat) & _). destruct (at_lookup_wf _ _ _ _ _ Hm1 Hat) as [_ Hwf].
  eapply wp_mono; [apply (wp_add_to_shortlist m1 o l nodes); [apply Hat|done]|].
  intros [] m2 (s & -> & Hwf'). by eapply during_put.
Qed.

Lemma wp_read_response h o m from_hint d m1 :
  during h o m m1 -> wp (read_response node_filter on_peers lim o h from_hint d) (fun _ => during h o m) m1.
Proof using.
  intros Hd. unfold read_response.
  destruct (decode_compact_peers_total (default PNone (py_get d (bs "values")))) as (values & Hv & _).
  apply wp_bind, (wp_lift _ values); [done|]. apply wp_bind.
  eapply (wp_mono _ (fun _ => during h o m)).
  { apply wp_when; intros _; [apply wp_modify; by apply (during_hint h o m m1 true)|done]. }
  clear m1 Hd. intros [] m1 Hd. apply wp_bind.
  eapply wp_mono; [by apply wp_collect_peers|]. clear m1 Hd. intros new_peers m1 [Hd Hnew]. apply wp_bind.
  eapply (wp_mono _ (fun _ => during h o m)).
  { apply wp_when; intros _; [|done]. pose proof Hd as (Hm1 & (l & Hat) & _).
    apply (wp_update_lookup _ l); [apply Hat|]. destruct (at_lookup_wf _ _ _ _ _ Hm1 Hat) as [_ Hwf].
    by eapply during_put. }
  clear m1 Hd. intros [] m1 Hd. apply wp_bind.
  eapply (wp_mono _ (fun _ => during h o m)).
  { apply wp_when; intros _; [|done]. unfold emit. apply wp_modify. by apply during_emit. }
  clear m1 Hd. intros [] m1 Hd. apply wp_bind.
  eapply (wp_mono _ (fun _ => during h o m)).
  { destruct (py_get d (bs "nodes")) as [v|]; [|done]. destruct v; try done.
    destruct (decode_compact_nodes_total COMPACT_NODE_LENGTH b) as (nodes & Hn & _); [by left|].
    apply wp_bind, (wp_lift _ nodes); [done|]. by apply wp_response_nodes. }
  clear m1 Hd. intros [] m1 Hd.
  destruct (py_get d (bs "nodes6")) as [v|]; [|done]. destruct v; try done.
  destruct (decode_compact_nodes_total COMPACT_NODE6_LENGTH b) as (nodes & Hn & Hlen & _); [by right|].
  apply wp_bind, (wp_lift _ nodes); [|by apply wp_response_nodes].
  unfold decode_compact_nodes6. rewrite Hn. cbn [mbind res_bind]. by rewrite bool_decide_eq_true_2.
Qed.

Lemma transaction_lookup m t h :
  inv m -> dict_get t (transactions m) = Some h ->
  exists o l, at_lookup m h o l /\ is_Some (dict_get t (pending l)).
Proof using. intros Hm Ht. by apply (i_owner _ _ Hm). Qed.

(** A response from another address than the one asked changes nothing. *)
Lemma handle_response_stranger m t h o l response addr clock :
  inv m -> dict_get t (transactions m) = Some h -> at_lookup m h o l ->
  fst <$> dict_get t (pending l) <> Some addr ->
  handle_response node_filter on_peers lim t response addr clock m = Ok (tt, m).
Proof using.
  intros Hm Ht [Hg Hl] Hne. unfold handle_response, get_state, mbind, st_bind, assert_st, the_lookup.
  unfold dict_has. rewrite Ht, Hg, Hl. by rewrite bool_decide_eq_false_2.
Qed.

Lemma wp_handle_response (Hlim : limits_ok) m t response addr clock :
  inv m -> is_Some (dict_get t (transactions m)) -> (0 <= clock <= T)%Z -> window (alpha lim) m ->
  wp (handle_response node_filter on_peers lim t response addr clock)
    (fun _ m' => inv m' /\ keeps (alpha lim) m m') m.
Proof using.
  intros Hm [h Ht] Hclock Hw. pose proof Hlim as (La & _). pose proof (alpha_small Hlim) as L24.
  destruct (transaction_lookup _ _ _ Hm Ht) as (o & l & Hat & Hp). unfold handle_response.
  apply wp_bind, wp_get. apply wp_bind, wp_assert; [apply dict_has_get; eauto|]. rewrite Ht.
  pose proof Hat as [Hg Hl]. rewrite Hg. apply wp_bind, (wp_the_lookup _ l); [done|].
  destruct (negb _).
  { apply wp_ret. split; [done|]. eapply keeps_mono; [|apply keeps_refl]. lia. }
  set (from_hint := bool_decide _). clearbody from_hint.
  destruct (i_ids _ _ Hm) as [_ Hids]. destruct (Hids t h Ht) as (s & Hs & Hid).
  destruct (Hw t h Ht) as (s' & Hid' & Hs' & Hle).
  apply wp_bind. eapply wp_release; [done|done|done|]. intros m1 Hm1 Hk1 Hr1 Hnone.
  set (l1 := released_lookup t l) in *.
  assert (at_lookup m1 h o l1) as Hat1.
  { split; [rewrite (rs_active _ _ _ _ _ Hr1); apply Hat|].
    rewrite (rs_lookups _ _ _ _ _ Hr1). apply lookup_insert_eq. }
  assert (spent t (alpha lim) m1) as Hspent.
  { split; [done|]. exists s'. by rewrite (rs_sequence _ _ _ _ _ Hr1). }
  assert (during h o m1 m1) as Hd by by eapply during_refl.
  assert (window (alpha lim) m1) as Hw1.
  { destruct (Hk1 (alpha lim)) as [W _]; [lia|]. apply W in Hw. by rewrite Z.sub_0_r in Hw. }
  apply wp_bind. eapply (wp_mono _ (fun _ => during h o m1)).
  { apply wp_when; intros _; [apply wp_modify; by apply (during_hint h o m1 m1 false)|done]. }
  intros [] m2 Hd2. apply wp_bind. eapply (wp_mono _ (fun _ => during h o m1)).
  { destruct response; try done. by apply wp_read_response. }
  clear m2 Hd2. intros [] m2 (Hm2 & (l2 & Hat2) & Hk2 & _).
  destruct (Hk2 (alpha lim)) as [Wk Sk]; [lia|]. rewrite Z.sub_0_r in Wk, Sk.
  apply wp_bind. eapply wp_mono; [apply (wp_advance Hlim m2 h o l2); auto|].
  intros [] m3 (Hm3 & Hk3 & _ & Hadv).
  destruct (Hk3 (alpha lim)) as [_ S3]; [lia|]. destruct (S3 t (Sk t Hspent)) as [Hfree _].
  assert (exists l3, lookups m3 !! o = Some l3 /\ dict_get t (pending l3) = None) as (l3 & Hl3 & Hnp).
  { destruct Hadv as [(l3 & Hat3 & _)|(_ & l3 & Hl3 & _ & Hp3)].
    - exists l3. split; [apply Hat3|]. destruct (dict_get t (pending l3)) eqn:Hg3; [|done].
      assert (dict_get t (transactions m3) = Some h); [|congruence].
      apply (i_owner _ _ Hm3). exists o, l3. eauto.
    - exists l3. by rewrite Hp3. }
  apply wp_bind, (wp_the_lookup _ l3); [done|]. apply wp_assert; [by apply negb_true_iff, dict_has_false|].
  split; [done|]. replace (alpha lim) with (0 + (0 + alpha lim))%Z by lia.
  eapply keeps_trans; [lia|lia|exact Hk1|]. eapply keeps_trans; [lia|lia|exact Hk2|done].
Qed.

Lemma wp_handle_error (Hlim : limits_ok) m t clock :
  inv m -> is_Some (dict_get t (transactions m)) -> (0 <= clock <= T)%Z -> window (alpha lim) m ->
  wp (handle_error lim t clock) (fun _ m' => inv m' /\ keeps (alpha lim) m m') m.
Proof using.
  intros Hm [h Ht] Hclock Hw. pose proof Hlim as (La & _). pose proof (alpha_small Hlim) as L24.
  destruct (transaction_lookup _ _ _ Hm Ht) as (o & l & Hat & Hp). unfold handle_error.
  apply wp_bind, wp_get. apply wp_bind, wp_assert; [apply dict_has_get; eauto|]. rewrite Ht.
  pose proof Hat as [Hg Hl]. rewrite Hg. apply wp_bind. apply wp_bind, (wp_the_lookup _ l); [done|].
  rewrite (proj2 (dict_has_get _ _)) by done. destruct (Hw t h Ht) as (s' & Hid' & Hs' & Hle).
  apply wp_bind. eapply wp_release; [done|done|done|]. intros m1 Hm1 Hk1 Hr1 Hnone.
  set (l1 := released_lookup t l) in *.
  assert (at_lookup m1 h o l1) as Hat1.
  { split; [rewrite (rs_active _ _ _ _ _ Hr1); apply Hat|].
    rewrite (rs_lookups _ _ _ _ _ Hr1). apply lookup_insert_eq. }
  assert (spent t (alpha lim) m1) as Hspent.
  { split; [done|]. exists s'. by rewrite (rs_sequence _ _ _ _ _ Hr1). }
  destruct (Hk1 (alpha lim)) as [W _]; [lia|]. rewrite Z.sub_0_r in W.
  eapply wp_mono; [apply (wp_advance Hlim m1 h o l1); auto|]. intros [] m2 (Hm2 & Hk2 & _ & _).
  destruct (Hk2 (alpha lim)) as [_ S2]; [lia|]. destruct (S2 t Hspent) as [Hfree _].
  apply wp_bind, wp_get, wp_assert; [by apply negb_true_iff, dict_has_false|]. split; [done|].
  replace (alpha lim) with (0 + alpha lim)%Z by lia. eapply keeps_trans; [lia|lia|done|done].
Qed.

(** ** Starting *)

Definition inactive (o : nat) (m : manager) : Prop := forall h, dict_get h (active m) <> Some o.

Lemma inv_put_inactive m o l n :
  inv m -> inactive o m -> o < n -> next_lookup m <= n ->
  inv (set_next_lookup n (put_lookup o l m)).
Proof using.
  intros Hm Ho Hn Hle.
  assert (forall h o', dict_get h (active m) = Some o' -> <[o := l]> (lookups m) !! o' = lookups m !! o') as Hsame.
  { intros h o' Hg. rewrite lookup_insert_ne; [done|]. intros <-. by eapply Ho. }
  split; try (by destruct Hm); simpl.
  - intros h o' Hg. rewrite (Hsame h) by done. by apply (i_current _ _ Hm).
  - intros o' l'. destruct (decide (o = o')) as [<-|Hne]; [lia|]. rewrite lookup_insert_ne by done.
    intros Hl'. apply (i_heap _ _ Hm) in Hl'. lia.
  - intros t h. rewrite (i_owner _ _ Hm). unfold at_lookup. simpl.
    split; intros (o' & l' & [Hg Hl'] & ?); exists o', l'; rewrite (Hsame h) in * by done; done.
  - intros a. rewrite (i_flights _ _ Hm). unfold total_flights. simpl. apply sum_over_ext.
    intros h o' Hin. apply elem_of_dict_get in Hin; [|apply (i_tables _ _ Hm)].
    unfold weight_of. simpl. by rewrite (Hsame h).
Qed.

Lemma inv_activate m h o l :
  inv m -> inactive o m -> lookups m !! o = Some l -> lk_hash l = h -> lookup_wf l -> pending l = [] ->
  finished l = false -> dict_get h (active m) = None ->
  (Z.of_nat (length (active m)) < max_active lim)%Z ->
  inv (set_started_total (started_total m + 1)%Z (set_active (dict_set h o (active m)) m)).
Proof using.
  intros Hm Ho Hl Hh Hwf Hp Hf Hg Hlen. destruct (i_tables _ _ Hm) as (W1 & W2 & W3).
  split; try (by destruct Hm); simpl.
  - split; [by apply dict_set_wf|done].
  - intros h' o'. rewrite dict_get_set. case_decide as Hd; [|apply (i_current _ _ Hm)].
    intros [= <-]. subst h'. by exists l.
  - intros t h'. rewrite (i_owner _ _ Hm). unfold at_lookup. simpl. rewrite dict_get_set. case_decide as Hd.
    + subst h'. rewrite Hg. split; [by intros (o' & l' & [? _] & _)|].
      intros (o' & l' & [[= <-] Hl'] & [x Hx]). rewrite Hl in Hl'. injection Hl' as <-. by rewrite Hp in Hx.
    + done.
  - intros a. rewrite (i_flights _ _ Hm). unfold total_flights. simpl. rewrite dict_set_new by done.
    rewrite sum_over_snoc. change (sum_over (weight_of (flights a) m) (active m) =
      (sum_over (weight_of (flights a) m) (active m) + weight_of (flights a) m o)%Z).
    unfold weight_of at 3. rewrite Hl. unfold flights at 3. rewrite Hp. simpl. lia.
  - rewrite dict_set_new, length_app by done. simpl. lia.
  - rewrite dict_set_new, length_app by done. destruct (i_totals _ _ Hm) as (? & ? & ?). simpl. lia.
Qed.

Lemma new_lookup_wf h d : length h = NODE_ID_LENGTH -> (0 <= alpha lim)%Z -> lookup_wf (new_lookup h d).
Proof using.
  intros Hh Ha. split; [done|]. split; [apply dict_wf_nil|]. split; [apply dict_wf_nil|].
  split; [constructor|]. split; [simpl; lia|]. split; [|simpl; split; [lia|]; split; [lia|done]].
  split; [constructor|]. split; [constructor|simpl; lia].
Qed.

Lemma wp_first_query (Hlim : limits_ok) m h o l now hint :
  inv m -> at_lookup m h o l -> pending l = [] -> queries_sent l = 0%Z -> (0 <= now <= T)%Z ->
  (TOKEN <= tokens m)%Z -> window (alpha lim) m ->
  (forall n, hint = Some n -> is_usable_node node_filter n = true /\
     (in_flight_of (node_address n) m < max_per_node lim)%Z) ->
  wp (match hint with
      | Some n =>
          t ← send_to o n now (hint_timeout lim);
          update_lookup o (set_hint_transaction (Some t)) ;;
          modify (fun m => set_hint_queries (hint_queries m + 1)%Z m)
      | None => top_up lim o now ;; mret tt
      end) (fun _ m' => inv m' /\ keeps (alpha lim) m m' /\ active m' = active m) m.
Proof using.
  intros Hm Hat Hp Hq Hnow Htok Hw Hhint. pose proof Hlim as (La & _ & _ & _ & _ & Lh & _). pose proof (alpha_small Hlim) as L24.
  destruct hint as [n|].
  - destruct (Hhint n eq_refl) as [Hus Hfl]. apply wp_bind.
    eapply (wp_send_to m h o l n now); [done|done|done|done|exact Hw|lia|rewrite Hp; simpl; lia|lia| |done|].
    { unfold flight_bound. lia. }
    intros t m1 Hm1 Hk1 [(expiry & Hls) Ha _ _ _ Hpn _ _ _]. set (l1 := sent_lookup t _ expiry l) in *.
    assert (at_lookup m1 h o l1) as Hat1 by (split; [rewrite Ha; apply Hat|rewrite Hls; apply lookup_insert_eq]).
    apply wp_bind, (wp_update_lookup _ l1); [apply Hat1|]. apply wp_modify.
    destruct (at_lookup_wf _ _ _ _ _ Hm1 Hat1) as [_ Hwf].
    assert (lookup_wf (set_hint_transaction (Some t) l1)) as Hwf'.
    { destruct Hwf as (A & B & C & D & E & F & G & I & J). do 8 (split; [done|]).
      intros t' [= <-]. unfold l1. simpl. rewrite dict_get_set_eq. eauto. }
    assert (inv (put_lookup o (set_hint_transaction (Some t) l1) m1)) as Hm2
      by (eapply inv_put_quiet; [done|done|done|done|by right|done]).
    split; [|split; [|done]].
    + split; try (by destruct Hm2). simpl. destruct (i_counters _ _ Hm2). simpl in *. lia.
    + eapply (keeps_mono (1 + 0)); [lia|]. eapply keeps_trans; [lia|lia|exact Hk1|by apply keeps_same].
  - apply wp_bind. eapply wp_mono; [by apply (wp_top_up Hlim m h o l now)|].
    intros sent m1 (l1 & Hm1 & _ & [_ Ha] & Hk1 & _). by apply wp_ret.
Qed.

Lemma wp_begin_lookup (Hlim : limits_ok) m h seed_nodes now hint :
  inv m -> length h = NODE_ID_LENGTH -> dict_get h (active m) = None -> (0 <= now <= T)%Z ->
  (Z.of_nat (length (active m)) < max_active lim)%Z -> (TOKEN <= tokens m)%Z -> window (alpha lim) m ->
  (forall n, hint = Some n -> is_usable_node node_filter n = true /\
     (in_flight_of (node_address n) m < max_per_node lim)%Z) ->
  wp (begin_lookup node_filter lim h seed_nodes now hint) (fun started m' => inv m' /\
    keeps (alpha lim) m m' /\ started = dict_has h (active m')) m.
Proof using.
  intros Hm Hh Hg Hnow Hlen Htok Hw Hhint. pose proof Hlim as (La & _). unfold begin_lookup.
  apply wp_bind, wp_get. do 2 apply wp_bind, wp_modify. set (o := next_lookup m).
  set (l := new_lookup h _). set (m1 := set_lookups _ _).
  assert (inactive o m) as Ho.
  { intros h' Hg'. destruct (at_lookup_exists _ _ _ _ Hm Hg') as (l' & _ & Hl').
    apply (i_heap _ _ Hm) in Hl'. unfold o in Hl'. lia. }
  assert (inv m1) as Hm1.
  { change m1 with (set_next_lookup (S o) (put_lookup o l m)).
    apply inv_put_inactive; [done|done|lia|unfold o; lia]. }
  assert (lookup_wf l) as Hwf by (apply new_lookup_wf; [done|lia]).
  apply wp_bind. eapply wp_mono.
  { apply (wp_add_to_shortlist m1 o l seed_nodes); [apply lookup_insert_eq|done]. }
  intros [] m2 (s & -> & Hwf2). set (l2 := set_shortlist s l) in *.
  assert (inv (put_lookup o l2 m1)) as Hm2.
  { pose proof (inv_put_inactive m1 o l2 (S o) Hm1 Ho ltac:(lia) ltac:(done)) as Hi. exact Hi. }
  apply wp_bind. eapply wp_the_lookup; [apply lookup_insert_eq|].
  destruct (_ && _).
  { apply wp_ret. split; [done|]. split; [eapply keeps_mono; [|by apply keeps_same]; lia|].
    symmetry. by apply dict_has_false. }
  do 2 apply wp_bind, wp_modify.
  assert (inv (set_started_total (started_total (put_lookup o l2 m1) + 1)%Z
    (set_active (dict_set h o (active (put_lookup o l2 m1))) (put_lookup o l2 m1)))) as Hm3.
  { eapply (inv_activate _ h o l2); [done|exact Ho|apply lookup_insert_eq|done|done|done|done|done|done]. }
  set (m3 := set_started_total _ _) in *.
  assert (at_lookup m3 h o l2) as Hat3 by (split; [simpl; apply dict_get_set_eq|apply lookup_insert_eq]).
  apply wp_bind. eapply wp_mono.
  { apply (wp_first_query Hlim m3 h o l2 now hint); done. }
  intros [] m4 (Hm4 & Hk4 & Ha4).
  assert (dict_has h (active m4) = true) as Hin by (apply dict_has_get; rewrite Ha4; destruct Hat3; eauto).
  apply wp_bind, wp_get, wp_bind, wp_assert; [done|]. apply wp_ret. split; [done|]. split; [|done].
  change (keeps (alpha lim) m3 m4) in Hk4. intros k Hk. destruct (Hk4 k Hk) as [W S]. split; [exact W|exact S].
Qed.

Lemma wp_start_lookup (Hlim : limits_ok) m h seed_nodes now hint :
  inv m -> length h = NODE_ID_LENGTH -> (0 <= now <= T)%Z -> window (alpha lim) m ->
  wp (start_lookup node_filter lim h seed_nodes now hint) (fun started m' => inv m' /\
    keeps (alpha lim) m m' /\ (started = true -> dict_get h (active m) = None /\ dict_has h (active m') = true)) m.
Proof using.
  intros Hm Hh Hnow Hw. pose proof Hlim as (La & Lm & Lq & _). unfold start_lookup.
  assert (keeps (alpha lim) m m) as Hrefl by (eapply keeps_mono; [|apply keeps_refl]; lia).
  apply wp_bind, wp_assert; [by apply is_node_id_of|]. apply wp_bind, wp_get.
  destruct (dict_has h (active m)) eqn:Hact; [by apply wp_ret|]. apply dict_has_false in Hact.
  apply wp_bind. unfold free_slots. pose proof (i_slots _ _ Hm) as Hslots.
  apply wp_bind, wp_get, wp_bind, wp_assert; [lia|]. apply wp_bind, wp_assert; [lia|]. apply wp_ret.
  destruct (Z.eqb_spec (max_active lim - Z.of_nat (length (active m))) 0) as [Hz|Hz]; [by apply wp_ret|].
  apply wp_bind. eapply wp_refill; [done|exact Hm|done|]. intros m1 Hm1 Href.
  assert (keeps (alpha lim) m m1) as Hk1.
  { destruct Href as (t & tt & -> & _). eapply keeps_mono; [|by apply keeps_same]. lia. }
  destruct (Z.ltb_spec (tokens m1) TOKEN) as [Ht|Ht]; [by apply wp_ret|].
  set (hint' := match hint with Some n => _ | None => None end).
  assert (forall n, hint' = Some n -> is_usable_node node_filter n = true) as Hus.
  { intros n. unfold hint'. destruct hint as [n'|]; [|done].
    destruct (is_usable_node node_filter n') eqn:Hu; [|done]. by intros [= <-]. }
  clearbody hint'.
  apply wp_bind, wp_get.
  assert (wp (begin_lookup node_filter lim h seed_nodes now hint') (fun started m' => inv m' /\
    keeps (alpha lim) m m' /\ (started = true -> dict_get h (active m) = None /\ dict_has h (active m') = true)) m1 \/
    exists n, hint' = Some n /\ (max_per_node lim <= in_flight_of (node_address n) m1)%Z) as Hbegin.
  { assert ((forall n, hint' = Some n -> (in_flight_of (node_address n) m1 < max_per_node lim)%Z) \/
      exists n, hint' = Some n /\ (max_per_node lim <= in_flight_of (node_address n) m1)%Z) as [Hf|Hf]; [|left|by right].
    { destruct hint' as [n|]; [|by left]. destruct (Z.lt_ge_cases (in_flight_of (node_address n) m1) (max_per_node lim));
        [left; by intros n' [= <-]|right; eauto]. }
    assert (active m1 = active m) as Ha by (by destruct Href as (t & tt & -> & _)).
    eapply wp_mono; [apply (wp_begin_lookup Hlim m1 h seed_nodes now hint'); try done; try (rewrite Ha; (done || lia))|].
    - by eapply refilled_window.
    - intros n Hn. split; [by apply Hus|by apply Hf].
    - intros started m2 (Hm2 & Hk2 & ->). split; [done|]. split; [|done].
      destruct Href as (t & tt & -> & _). intros k Hk. destruct (Hk2 k Hk) as [W S]. split; [exact W|exact S]. }
  destruct hint' as [n|].
  - destruct (Z.leb_spec (max_per_node lim) (default 0%Z (dict_get (node_address n) (in_flight m1)))) as [Hle|Hlt].
    + by apply wp_ret.
    + destruct Hbegin as [Hb|(n' & [= <-] & Hge)]; [exact Hb|]. unfold in_flight_of in Hge. lia.
  - destruct Hbegin as [Hb|(n' & [=] & _)]. exact Hb.
Qed.

(** ** All lookups *)

(** The lookups a loop over the active ones still has to treat; the treated ones
    are gone or satisfy [P]. *)
Definition to_run (P : peer_lookup -> Prop) (rest : list nat) (m : manager) : Prop :=
  NoDup rest /\ (forall o, o ∈ rest -> exists h, dict_get h (active m) = Some o) /\
  (forall h o l, at_lookup m h o l -> o ∈ rest \/ P l).

Lemma active_objects_NoDup m : inv m -> NoDup (active m).*2.
Proof using.
  intros Hm. destruct (i_tables _ _ Hm) as (W & _). pose proof (fun h h' o => active_inj None m h h' o Hm) as Hinj.
  assert (forall h h' o, (h, o) ∈ active m -> (h', o) ∈ active m -> h' = h) as Hinj'.
  { intros h h' o H1 H2. eapply Hinj; by apply elem_of_dict_get. }
  clear Hinj Hm. unfold dict_wf in W. induction (active m) as [|[h o] t IH]; csimpl in *; [constructor|].
  apply NoDup_cons in W as [Hh Ht]. apply NoDup_cons. split.
  - intros ([h' o'] & Heq & Hin)%list_elem_of_fmap. simpl in Heq. subst o'. apply Hh, list_elem_of_fmap.
    exists (h', o). split; [|done]. simpl. eapply Hinj'; [by right|left].
  - apply IH; [done|]. intros h1 h2 o' H1 H2. eapply Hinj'; by right.
Qed.

Lemma to_run_start P m : inv m -> to_run P (active m).*2 m.
Proof using.
  intros Hm. split; [by apply active_objects_NoDup|]. split.
  - intros o ([h o'] & -> & Hin)%list_elem_of_fmap. exists h. apply elem_of_dict_get; [|done].
    apply (i_tables _ _ Hm).
  - intros h o l [Hg _]. left. apply list_elem_of_fmap. exists (h, o). split; [done|]. by apply dict_get_elem_of.
Qed.

Lemma to_run_step P o rest m m' h :
  inv m -> to_run P (o :: rest) m -> dict_get h (active m) = Some o -> others_kept h o m m' ->
  (forall o' l, at_lookup m' h o' l -> o' = o /\ P l) -> to_run P rest m'.
Proof using.
  intros Hm ([Hn Hnd]%NoDup_cons & Hin & Hdone) Hg [Hl Ha] HP. split; [done|]. split.
  - intros o' Ho'. destruct (Hin o') as [h' Hh']; [by right|]. exists h'. rewrite Ha; [done|].
    intros ->. rewrite Hg in Hh'. by injection Hh' as ->.
  - intros h' o' l Hat'. destruct (decide (h' = h)) as [->|Hneh].
    { right. by destruct (HP _ _ Hat'). }
    destruct Hat' as [Hg' Hl']. rewrite Ha in Hg' by done.
    assert (o' <> o) as Hne by (intros ->; by apply Hneh, (active_inj None m h h' o)).
    destruct (Hdone h' o' l) as [[->|?]%elem_of_cons|?]; [|done|by left|by right].
    split; [done|by rewrite <-Hl].
Qed.

Lemma advanced_run P h o now m' :
  advanced h o now m' -> (forall l, must_finish lim l now = false -> P l) ->
  forall o' l, at_lookup m' h o' l -> o' = o /\ P l.
Proof using.
  intros [(l' & [Hg Hl] & Hmf)|(Hnone & _)] HP o' l [Hg' Hl']; [|congruence].
  assert (o' = o) as -> by congruence. split; [done|]. apply HP. congruence.
Qed.

Lemma wp_tick (Hlim : limits_ok) m now :
  inv m -> (0 <= now <= T)%Z -> window (alpha lim * Z.of_nat (length (active m))) m ->
  wp (tick lim now) (fun _ m' => inv m' /\
    keeps (alpha lim * Z.of_nat (length (active m))) m m' /\
    forall h o l, at_lookup m' h o l -> must_finish lim l now = false) m.
Proof using.
  intros Hm Hnow Hw. unfold tick. pose proof Hlim as (La & Lm & Lq & _ & _ & _ & L24).
  apply wp_bind, wp_assert; [lia|]. apply wp_bind. eapply wp_refill; [done|exact Hm|done|].
  intros m1 Hm1 Href. apply wp_bind, wp_gets. pose proof (i_slots _ _ Hm) as Hslots.
  assert (active m1 = active m) as Ha by (by destruct Href as (t & tt & -> & _)).
  assert (keeps 0 m m1) as Hk1 by (destruct Href as (t & tt & -> & _); by apply keeps_same).
  apply (refilled_window _ _ _ Href) in Hw. rewrite Ha.
  set (N := Z.of_nat (length (active m))) in *.
  assert (forall n, (0 <= n <= N)%Z -> (0 <= alpha lim * n <= alpha lim * N)%Z) as Hmul by (intros; nia).
  assert (alpha lim * N <= 2 ^ 24)%Z as HN by nia.
  set (P := fun l => must_finish lim l now = false).
  set (I (rest : list nat) m' := inv m' /\ to_run P rest m' /\ (Z.of_nat (length rest) <= N)%Z /\
    keeps (alpha lim * (N - Z.of_nat (length rest))) m1 m').
  apply wp_bind. eapply wp_mono; [apply (wp_for_each_list _ I)|].
  - split; [done|]. split; [rewrite <-Ha; by apply to_run_start|]. rewrite length_fmap. split; [lia|].
    unfold N. rewrite Z.sub_diag, Z.mul_0_r. apply keeps_refl.
  - intros o rest m2 (Hm2 & Hrun & Hlen & Hk2). cbn [length] in *.
    assert (exists h, dict_get h (active m2) = Some o) as (h & Hg) by (apply Hrun; left).
    destruct (at_lookup_exists _ _ _ _ Hm2 Hg) as (l & Hat). apply wp_bind.
    eapply wp_expire_pending; [done|exact Hat|]. intros n l1 m3 Hm3 Hat3 Hk3 Ho3 _.
    assert (window (alpha lim) m3) as Hw3.
    { specialize (Hmul (N - Z.of_nat (S (length rest)))%Z).
      destruct (Hk2 (alpha lim * N)%Z) as [W2 _]; [lia|]. apply W2 in Hw.
      destruct (Hk3 (alpha lim * N - alpha lim * (N - Z.of_nat (S (length rest))))%Z) as [W3 _]; [lia|].
      apply W3 in Hw. eapply window_mono; [exact Hw|]. nia. }
    eapply wp_mono; [apply (wp_advance Hlim m3 h o l1); auto|].
    intros [] m4 (Hm4 & Hk4 & Ho4 & Hadv). split; [done|]. split; [|split; [lia|]].
    + eapply (to_run_step P o rest m2 m4 h); [done|done|done|by eapply others_trans|].
      by eapply advanced_run.
    + replace (alpha lim * (N - Z.of_nat (length rest)))%Z
        with (alpha lim * (N - Z.of_nat (S (length rest))) + (0 + alpha lim))%Z by lia.
      specialize (Hmul (N - Z.of_nat (S (length rest)))%Z).
      eapply keeps_trans; [lia|lia|exact Hk2|]. eapply keeps_trans; [lia|lia|exact Hk3|exact Hk4].
  - intros [] m2 (Hm2 & (_ & _ & Hdone) & _ & Hk2). simpl in Hk2. rewrite Z.sub_0_r in Hk2.
    assert (forall h o l, at_lookup m2 h o l -> must_finish lim l now = false) as Hall.
    { intros h o l Hat. destruct (Hdone h o l Hat) as [Hn|?]; [by apply not_elem_of_nil in Hn|done]. }
    apply wp_bind, wp_get, wp_assert.
    + apply forallb_forall. intros o ([h o'] & -> & Hin)%list_elem_of_In%list_elem_of_fmap.
      apply elem_of_dict_get in Hin; [|apply (i_tables _ _ Hm2)].
      destruct (at_lookup_exists _ _ _ _ Hm2 Hin) as (l & Hat). destruct (Hat) as [_ Hl]. simpl.
      rewrite Hl. by rewrite (at_lookup_not_finished _ _ _ _ Hm2 Hat).
    + split; [done|]. split; [|done]. specialize (Hmul N).
      replace (alpha lim * N)%Z with (0 + alpha lim * N)%Z by lia. eapply keeps_trans; [lia|lia|done|done].
Qed.

Lemma wp_free_slots (Hlim : limits_ok) m (Q : Z -> manager -> Prop) :
  inv m -> Q (max_active lim - Z.of_nat (length (active m)))%Z m -> wp (free_slots lim) Q m.
Proof using.
  intros Hm HQ. unfold free_slots. pose proof Hlim as (_ & Lm & _). pose proof (i_slots _ _ Hm) as Hslots.
  apply wp_bind, wp_get, wp_bind, wp_assert; [lia|]. apply wp_bind, wp_assert; [lia|]. by apply wp_ret.
Qed.

Lemma wp_manager_counts (Hlim : limits_ok) m (Q : lookup_counts -> manager -> Prop) :
  inv m -> (forall c, Q c m) -> wp (manager_counts lim) Q m.
Proof using.
  intros Hm HQ. unfold manager_counts. pose proof Hlim as (_ & Lm & _).
  destruct (i_totals _ _ Hm) as (_ & Hf & Hq). pose proof (i_counters _ _ Hm) as Hc.
  unfold count_events in *. apply wp_bind, wp_assert; [lia|]. apply wp_bind, wp_get, wp_bind, wp_assert; [lia|].
  apply wp_ret, HQ.
Qed.

Lemma wp_abort_all m :
  inv m -> wp abort_all (fun _ m' => inv m' /\ active m' = [] /\ transactions m' = [] /\ keeps 0 m m') m.
Proof using.
  intros Hm. unfold abort_all. apply wp_bind, wp_gets.
  set (I (rest : list nat) m' := inv m' /\ to_run (fun _ => False) rest m' /\ keeps 0 m m').
  apply wp_bind. eapply wp_mono; [apply (wp_for_each_list _ I)|].
  - split; [done|]. split; [by apply to_run_start|apply keeps_refl].
  - clear Hm. intros o rest m2 (Hm2 & Hrun & Hk2).
    assert (exists h, dict_get h (active m2) = Some o) as (h & Hg) by (apply Hrun; left).
    destruct (at_lookup_exists _ _ _ _ Hm2 Hg) as (l & Hat).
    eapply wp_mono; [by apply (wp_finish m2 h o l)|]. intros [] m3 (Hm3 & Hk3 & Hs). split; [done|]. split.
    + eapply (to_run_step _ o rest m2 m3 h); [done|done|done|by eapply finish_others|].
      intros o' l' [Hg' _]. rewrite (fs_active _ _ _ _ _ Hs), dict_get_del_eq in Hg'. done.
    + by apply (keeps_trans 0 0 m m2 m3).
  - intros [] m2 (Hm2 & (_ & _ & Hdone) & Hk2).
    assert (active m2 = []) as Ha.
    { destruct (active m2) as [|[h o] t] eqn:Ha; [done|].
      assert (dict_get h (active m2) = Some o) as Hg by (rewrite Ha; simpl; by rewrite decide_True).
      destruct (at_lookup_exists _ _ _ _ Hm2 Hg) as (l & Hat).
      destruct (Hdone h o l Hat) as [Hn|[]]. by apply not_elem_of_nil in Hn. }
    assert (transactions m2 = []) as Ht.
    { destruct (transactions m2) as [|[t h] ts] eqn:Ht; [done|].
      assert (dict_get t (transactions m2) = Some h) as Hg by (rewrite Ht; simpl; by rewrite decide_True).
      apply (i_owner _ _ Hm2) in Hg as (o & l & [Hg _] & _). by rewrite Ha in Hg. }
    apply wp_bind, wp_get, wp_assert; [by rewrite Ha, Ht|done].
Qed.

Lemma inv_new_manager clock : limits_ok -> t0 = clock -> (clock <= T)%Z -> inv (new_manager lim clock).
Proof using.
  intros (La & Lm & Lq & Ln & Lt & Lh & L24) -> HT. unfold new_manager.
  split; simpl; try done; try lia.
  - repeat split; apply dict_wf_nil.
  - intros t h. split; [done|]. intros (o & l & [Hg _] & _). done.
  - unfold TOKEN. lia.
Qed.
End safety.
