(* ===== verification/DhtLookupReports.v ===== *)
(** Which lookups end: the hashes of the active lookups and of those that
    [on_finished] has been told about are, after any method of the manager,
    those that were active before and those it started.  The relation [reports]
    holds of each method for its own reasons, without the manager's invariant;
    with the invariant it becomes an equality. *)
From S2P Require Import Prelude PyDict Bencode NodeIdentity AddressText Krpc DhtLookup DhtLookupSafety.

(** The hashes of the results reported in a list of events. *)
Definition finished_hash (e : event) : option bytes :=
  match e with Lookup_finished h _ => Some h | _ => None end.
Definition finished_hashes (es : list event) : list bytes := omap finished_hash es.

Lemma finished_hashes_app es es' : finished_hashes (es ++ es') = finished_hashes es ++ finished_hashes es'.
Proof. apply omap_app. Qed.

Lemma length_finished_hashes es : Z.of_nat (length (finished_hashes es)) = count_events is_reported es.
Proof.
  unfold finished_hashes, count_events. induction es as [|e es IH]; [done|].
  rewrite filter_cons. destruct e; csimpl; [exact IH..|lia].
Qed.

Definition reports (started : list bytes) (m m' : manager) : Prop :=
  dict_wf (active m) -> dict_wf (active m') /\ exists es, events m' = events m ++ es /\
    started_total m' = (started_total m + Z.of_nat (length started))%Z /\
    (active m).*1 ++ started ⊆+ (active m').*1 ++ finished_hashes es.

#[global] Instance reports_preorder : PreOrder (reports []).
Proof.
  split.
  - intros m Hwf. split; [done|]. exists []. rewrite !app_nil_r. split; [done|]. split; [simpl; lia|done].
  - intros m m1 m2 H1 H2 Hwf. destruct (H1 Hwf) as (Hwf1 & es & Hes & Hst & Hsub).
    destruct (H2 Hwf1) as (Hwf2 & es' & Hes' & Hst' & Hsub'). split; [done|]. exists (es ++ es').
    rewrite Hes', Hes, app_assoc. split; [done|]. split; [simpl in *; lia|].
    rewrite finished_hashes_app. rewrite !app_nil_r in *. etrans; [exact Hsub|].
    rewrite (Permutation_app_comm (finished_hashes es)), app_assoc. by apply submseteq_app.
Qed.

Lemma reports_trans started m m1 m2 : reports started m m1 -> reports [] m1 m2 -> reports started m m2.
Proof.
  intros H1 H2 Hwf. destruct (H1 Hwf) as (Hwf1 & es & Hes & Hst & Hsub).
  destruct (H2 Hwf1) as (Hwf2 & es' & Hes' & Hst' & Hsub'). split; [done|]. exists (es ++ es').
  rewrite Hes', Hes, app_assoc. split; [done|]. split; [simpl in *; lia|].
  rewrite finished_hashes_app. rewrite !app_nil_r in Hsub'. etrans; [exact Hsub|].
  rewrite (Permutation_app_comm (finished_hashes es)), app_assoc. by apply submseteq_app.
Qed.

(** Steps that leave the table of active lookups, and report no result. *)
Lemma reports_same m m' es :
  active m' = active m -> started_total m' = started_total m -> events m' = events m ++ es ->
  finished_hashes es = [] -> reports [] m m'.
Proof.
  intros Ha Hs He Hf Hwf. rewrite Ha. split; [done|]. exists es. split; [done|].
  split; [simpl; lia|]. by rewrite Hf.
Qed.

Lemma reports_quiet m m' :
  active m' = active m -> started_total m' = started_total m -> events m' = events m -> reports [] m m'.
Proof. intros. apply (reports_same m m' []); [done..|by rewrite app_nil_r|done]. Qed.

Lemma frames_update_lookup o f : frames (reports []) (update_lookup o f).
Proof. apply frames_modify. intros m. by apply reports_quiet. Qed.

Lemma frames_the_lookup o : frames (reports []) (the_lookup o).
Proof.
  apply (frames_pure _). intros m l m'. unfold the_lookup. by destruct (_ !! _); intros [= _ ->].
Qed.

Lemma frames_emit e : finished_hash e = None -> frames (reports []) (emit e).
Proof.
  intros He. apply frames_modify. intros m. apply (reports_same m _ [e]); [done..|].
  unfold finished_hashes. simpl. by rewrite He.
Qed.

(** Changes of the other fields of the manager. *)
Lemma frames_quiet f :
  (forall m, active (f m) = active m /\ started_total (f m) = started_total m /\ events (f m) = events m) ->
  frames (reports []) (modify f).
Proof. intros Hf. apply frames_modify. intros m. destruct (Hf m) as (? & ? & ?). by apply reports_quiet. Qed.

#[export] Hint Resolve frames_update_lookup frames_the_lookup : frames.
#[export] Hint Extern 2 (frames _ (emit _)) => (apply frames_emit; reflexivity) : frames.
#[export] Hint Extern 2 (frames _ (modify _)) => (apply frames_quiet; done) : frames.

Section reports.
Context `{AddressText} (node_filter : node -> bool) (on_peers : bool) (lim : lookup_limits).

Lemma frames_refill now : frames (reports []) (refill lim now).
Proof. unfold refill. frames_steps. Qed.
#[local] Hint Resolve frames_refill : frames.

Lemma frames_add_to_shortlist o nodes : frames (reports []) (add_to_shortlist node_filter lim o nodes).
Proof. unfold add_to_shortlist. frames_steps. Qed.
#[local] Hint Resolve frames_add_to_shortlist : frames.

Lemma frames_send_to o n now timeout : frames (reports []) (send_to o n now timeout).
Proof. unfold send_to. frames_steps. Qed.
#[local] Hint Resolve frames_send_to : frames.

Lemma frames_release o t : frames (reports []) (release_transaction o t).
Proof. unfold release_transaction. frames_steps. Qed.
#[local] Hint Resolve frames_release : frames.

Lemma frames_send_each o nodes now : frames (reports []) (send_each lim o nodes now).
Proof. induction nodes as [|n nodes IH]; cbn [send_each]; frames_steps. Qed.
#[local] Hint Resolve frames_send_each : frames.

Lemma frames_top_up o now : frames (reports []) (top_up lim o now).
Proof. unfold top_up. frames_steps. Qed.
#[local] Hint Resolve frames_top_up : frames.

(** The lookup that [finish] takes out of the table is the one it reports. *)
Lemma frames_finish o : frames (reports []) (finish o).
Proof.
  unfold finish. apply (frames_bind (reports [])); [frames_steps|]. intros l.
  do 3 (apply (frames_bind (reports [])); [by frames_steps|intros _]). intros m.
  do 4 apply wlp_bind. unfold emit. do 2 apply wlp_bind. apply wlp_assert. intros _ Hwf. simpl. split; [by apply dict_del_wf|]. eexists [_]. split; [reflexivity|].
  split; [simpl; lia|]. rewrite app_nil_r. simpl.
  destruct (dict_get (lk_hash l) (active m)) as [o'|] eqn:Hg.
  - rewrite (dict_keys_del _ _ _ Hwf Hg). done.
  - rewrite dict_del_notin by done. by apply submseteq_inserts_r.
Qed.
#[local] Hint Resolve frames_finish : frames.

Lemma frames_advance o now : frames (reports []) (advance lim o now).
Proof. unfold advance. frames_steps. Qed.
#[local] Hint Resolve frames_advance : frames.

Lemma frames_expire_pending o now : frames (reports []) (expire_pending o now).
Proof. unfold expire_pending. frames_steps. Qed.
#[local] Hint Resolve frames_expire_pending : frames.

Lemma frames_collect_peers o values : frames (reports []) (collect_peers lim o values).
Proof. induction values as [|peer values IH]; cbn [collect_peers]; frames_steps. Qed.
#[local] Hint Resolve frames_collect_peers : frames.

Lemma frames_read_response o h from_hint d :
  frames (reports []) (read_response node_filter on_peers lim o h from_hint d).
Proof. unfold read_response. frames_steps. Qed.
#[local] Hint Resolve frames_read_response : frames.

Lemma frames_handle_response t response addr clock :
  frames (reports []) (handle_response node_filter on_peers lim t response addr clock).
Proof. unfold handle_response. frames_steps. Qed.

Lemma frames_handle_error t clock : frames (reports []) (handle_error lim t clock).
Proof. unfold handle_error. frames_steps. Qed.

Lemma frames_tick now : frames (reports []) (tick lim now).
Proof. unfold tick. frames_steps. Qed.

Lemma frames_abort_all : frames (reports []) abort_all.
Proof. unfold abort_all. frames_steps. Qed.

Lemma frames_free_slots : frames (reports []) (free_slots lim).
Proof. unfold free_slots. frames_steps. Qed.

Lemma frames_manager_counts : frames (reports []) (manager_counts lim).
Proof. unfold manager_counts. frames_steps. Qed.

(** Before a lookup is entered into the table nothing is reported. *)
Definition calm (m m' : manager) : Prop :=
  active m' = active m /\ started_total m' = started_total m /\ events m' = events m.

#[local] Instance calm_preorder : PreOrder calm.
Proof using. split; [done|]. intros m m1 m2 (? & ? & ?) (? & ? & ?). repeat split; congruence. Qed.

Lemma calm_update_lookup o f : frames calm (update_lookup o f).
Proof using. by apply frames_modify. Qed.

Lemma calm_the_lookup o : frames calm (the_lookup o).
Proof using.
  apply (frames_pure _). intros m l m'. unfold the_lookup. by destruct (_ !! _); intros [= _ ->].
Qed.
#[local] Hint Resolve calm_update_lookup calm_the_lookup : frames.
#[local] Hint Extern 1 (frames calm (modify _)) => (apply frames_modify; done) : frames.

Lemma calm_free_slots : frames calm (free_slots lim).
Proof using. unfold free_slots. frames_steps. Qed.

Lemma calm_refill now : frames calm (refill lim now).
Proof using. unfold refill. frames_steps. Qed.

Lemma calm_add_to_shortlist o nodes : frames calm (add_to_shortlist node_filter lim o nodes).
Proof using. unfold add_to_shortlist. frames_steps. Qed.

Lemma reports_calm started m m1 m2 : calm m m1 -> reports started m1 m2 -> reports started m m2.
Proof using. intros (Ha & Hs & He) Hr Hwf. rewrite <-Ha, <-Hs, <-He. apply Hr. by rewrite Ha. Qed.

Lemma frames_first_query o n now :
  frames (reports []) (match n with
    | Some n =>
        t ← send_to o n now (hint_timeout lim);
        update_lookup o (set_hint_transaction (Some t)) ;;
        modify (fun m => set_hint_queries (hint_queries m + 1)%Z m)
    | None => top_up lim o now ;; mret tt
    end).
Proof. frames_steps. Qed.

Lemma reports_begin_lookup h seed_nodes now hint m :
  dict_get h (active m) = None ->
  wlp (begin_lookup node_filter lim h seed_nodes now hint)
    (fun b m' => reports (if b then [h] else []) m m') m.
Proof.
  intros Hn. unfold begin_lookup. do 3 apply wlp_bind. apply wlp_bind.
  eapply wlp_mono; [apply calm_add_to_shortlist|]. intros [] m1 Hm1.
  assert (calm m m1) as Hc by exact Hm1. clear Hm1. apply wlp_bind.
  eapply wlp_mono; [apply calm_the_lookup|]. intros l m2 Hm2. pose proof (transitivity Hc Hm2) as Hc2.
  destruct (_ && _); [eapply reports_calm; [exact Hc2|reflexivity]|].
  do 2 apply wlp_bind. apply wlp_bind.
  match goal with |- wlp _ _ ?m3 => assert (reports [h] m2 m3) as Hm3 end.
  { intros Hwf. destruct Hc2 as (Ha & _). simpl. split; [by apply dict_set_wf|]. exists [].
    rewrite app_nil_r. split; [done|]. split; [simpl; lia|]. simpl. rewrite app_nil_r.
    rewrite dict_set_new by (by rewrite Ha). by rewrite fmap_app. }
  eapply wlp_mono; [apply frames_first_query|]. intros [] m4 Hm4. apply wlp_bind, wlp_bind, wlp_assert.
  intros _. eapply reports_calm; [exact Hc2|]. by eapply reports_trans.
Qed.

Lemma reports_start_lookup h seed_nodes now hint m :
  wlp (start_lookup node_filter lim h seed_nodes now hint)
    (fun b m' => reports (if b then [h] else []) m m') m.
Proof.
  unfold start_lookup. apply wlp_bind, wlp_assert. intros _. apply wlp_bind.
  change (wlp (if dict_has h (active m) then mret false else
    slots ← free_slots lim;
    if (slots =? 0)%Z then mret false
    else
      t ← refill lim now;
      if (t <? TOKEN)%Z then mret false
      else
        let hint := match hint with
          | Some n => if is_usable_node node_filter n then Some n else None
          | None => None
          end in
        m ← get_state;
        match hint with
        | Some n =>
            if (max_per_node lim <=? default 0 (dict_get (node_address n) (in_flight m)))%Z
            then mret false else begin_lookup node_filter lim h seed_nodes now hint
        | None => begin_lookup node_filter lim h seed_nodes now hint
        end) (fun b m' => reports (if b then [h] else []) m m') m).
  destruct (dict_has h (active m)) eqn:Hn; [apply (reflexivity (R := reports []) m)|].
  apply dict_has_false in Hn. apply wlp_bind. eapply wlp_mono; [apply calm_free_slots|].
  intros slots m1 H1. destruct (slots =? 0)%Z; [eapply reports_calm; [exact H1|reflexivity]|].
  apply wlp_bind. eapply wlp_mono; [apply calm_refill|]. intros t m2 H2. pose proof (transitivity H1 H2) as Hc.
  destruct (t <? TOKEN)%Z; [eapply reports_calm; [exact Hc|reflexivity]|].
  assert (forall hint, wlp (begin_lookup node_filter lim h seed_nodes now hint)
    (fun b m' => reports (if b then [h] else []) m m') m2) as Hbegin.
  { intros hint'. eapply wlp_mono; [apply reports_begin_lookup; by destruct Hc as (-> & _)|].
    intros b m3. by apply reports_calm. }
  cbv zeta. apply wlp_bind. destruct (match hint with Some n => _ | None => None end); [|apply Hbegin].
  change (wlp (if (max_per_node lim <=? default 0 (dict_get (node_address n) (in_flight m2)))%Z
    then mret false else begin_lookup node_filter lim h seed_nodes now (Some n))
    (fun b m' => reports (if b then [h] else []) m m') m2).
  destruct (_ <=? _)%Z; [eapply reports_calm; [exact Hc|reflexivity]|apply Hbegin].
Qed.
End reports.

(** With the invariant before and after, no hash is lost. *)
Lemma reports_exact `{AddressText} node_filter lim t0 T T' started m m' :
  inv node_filter lim t0 T m -> inv node_filter lim t0 T' m' -> reports started m m' ->
  exists es, events m' = events m ++ es /\ Forall (event_ok node_filter lim) es /\
    (active m).*1 ++ started ≡ₚ (active m').*1 ++ finished_hashes es.
Proof.
  intros Hm Hm' Hr. destruct (Hr (proj1 (i_tables _ _ _ _ _ _ Hm))) as (_ & es & Hes & Hst & Hsub).
  exists es. split; [done|]. split.
  - pose proof (i_events _ _ _ _ _ _ Hm') as Hev. rewrite Hes, Forall_app in Hev. apply Hev.
  - apply submseteq_length_Permutation; [done|]. rewrite !length_app, !length_fmap.
    pose proof (length_finished_hashes es) as Hf.
    destruct (i_totals _ _ _ _ _ _ Hm) as (A1 & A2 & _). destruct (i_totals _ _ _ _ _ _ Hm') as (B1 & B2 & _).
    rewrite Hes in B2. unfold count_events in *. rewrite filter_app, length_app in B2. lia.
Qed.
