(* ===== verification/DhtLookupAges.v ===== *)
(** How old the pending queries of the lookups are.  A query is sent for a token,
    and tokens come at a fixed rate: so the sequence number of a query lies behind
    the next one by no more than the tokens of the time since it was sent
    ([rated]), and [tick] lets go of the queries whose time is over ([since]).
    Together they bound how many ids are in use, however long the manager runs
    ([window_of_ages]).  The relation [aging] holds of each method for its own
    reasons, without the manager's invariant. *)
From S2P Require Import Prelude PyDict Bencode NodeIdentity AddressText Krpc DhtLookup DhtLookupSafety.
From stdpp Require Import gmap.

(** The query [t] waits in the lookup [o], with its address and its expiry. *)
Definition waiting (m : manager) (o : nat) (t : bytes) (x : address * Z) : Prop :=
  exists l, lookups m !! o = Some l /\ dict_get t (pending l) = Some x.

(** The queries of the active lookups expire after [E]. *)
Definition since (E : Z) (m : manager) : Prop := forall h o t x,
  dict_get h (active m) = Some o -> waiting m o t x -> (E < x.2)%Z.

Lemma since_mono E E' m : since E m -> (E' <= E)%Z -> since E' m.
Proof. intros Hs HE h o t x Hh Hx. specialize (Hs h o t x Hh Hx). lia. Qed.

(** The longest time a query waits. *)
Definition longest_wait (lim : lookup_limits) : Z := Z.max (query_timeout lim) (hint_timeout lim).

(** Of a query that expires at [x.2] and was sent no earlier than a longest wait
    before, no more queries were sent since than there were tokens. *)
Definition rated (lim : lookup_limits) (m : manager) : Prop :=
  (tokens m <= queries_per_second lim * TOKEN)%Z /\ forall o t x, waiting m o t x -> exists s,
    lookup_transaction_id s = Ok t /\ (0 <= s < sequence_number m)%Z /\
    (TOKEN * (sequence_number m - s) + tokens m <=
       queries_per_second lim * TOKEN + queries_per_second lim * (tokens_time m - (x.2 - longest_wait lim)))%Z.

(** What happens to the pending queries when every method is called with a time
    that is not before [E]. *)
Record aging (lim : lookup_limits) (E : Z) (m m' : manager) : Prop := Aging {
  ag_waiting : forall o t x, waiting m' o t x -> (E < x.2)%Z \/ waiting m o t x;
  ag_active : forall h o, dict_get h (active m') = Some o -> dict_get h (active m) = Some o \/ lookups m !! o = None;
  ag_heap : forall o, lookups m' !! o = None -> lookups m !! o = None;
  ag_time : (tokens_time m <= tokens_time m')%Z;
  ag_rated : rated lim m -> rated lim m' }.

#[global] Instance aging_preorder lim E : PreOrder (aging lim E).
Proof.
  split; [by split; auto|]. intros m m1 m2 [W1 A1 H1 T1 R1] [W2 A2 H2 T2 R2]. split; [|..|lia|auto].
  - intros o t x [?|Hx]%W2; [by left|auto].
  - intros h o [Hh|Hn]%A2; [auto|right; auto].
  - auto.
Qed.

(** Queries that wait since [E] go on doing so. *)
Lemma aging_since lim E m m' : since E m -> aging lim E m m' -> since E m'.
Proof.
  intros Hs [W A _ _ _] h o t x Hh Hx. destruct (W o t x Hx) as [?|Hold]; [done|].
  destruct (A h o Hh) as [Hh'|Hn]; [by eapply Hs|]. destruct Hold as (l & Hl & _). congruence.
Qed.

(** ** The changes of the manager *)

(** The queries that wait were waiting, and the rest stays, but for lookups that
    are taken out of the table. *)
Lemma aging_same lim E m m' :
  (forall o, match lookups m' !! o with
     | Some l' => exists l, lookups m !! o = Some l /\ forall t x, dict_get t (pending l') = Some x -> dict_get t (pending l) = Some x
     | None => lookups m !! o = None
     end) ->
  (forall h o, dict_get h (active m') = Some o -> dict_get h (active m) = Some o) ->
  tokens m' = tokens m -> tokens_time m' = tokens_time m -> sequence_number m' = sequence_number m -> aging lim E m m'.
Proof.
  intros Hl Ha Ht Htt Hs. assert (forall o t x, waiting m' o t x -> waiting m o t x) as Hw.
  { intros o t x (l' & Hl' & Hx). specialize (Hl o). rewrite Hl' in Hl. destruct Hl as (l & Hlo & Hsub). exists l. auto. }
  split; [|..|lia|].
  - intros o t x Hx. right. auto.
  - auto.
  - intros o Ho. specialize (Hl o). by rewrite Ho in Hl.
  - intros [Hcap Hr]. unfold rated. rewrite Ht, Htt, Hs. split; [done|]. intros o t x Hx. apply (Hr o t x). auto.
Qed.

(** One lookup lets go of some of its queries. *)
Lemma aging_lookup lim E m o f :
  (forall l t x, dict_get t (pending (f l)) = Some x -> dict_get t (pending l) = Some x) ->
  aging lim E m (set_lookups (alter f o (lookups m)) m).
Proof.
  intros Hf. apply aging_same; try done. intros o'. cbn. destruct (decide (o' = o)) as [->|Hne].
  - rewrite lookup_alter_eq. destruct (lookups m !! o) as [l|]; [|done]. cbn. exists l. split; [done|]. apply Hf.
  - rewrite lookup_alter_ne by done. destruct (lookups m !! o') as [l|]; [|done]. by exists l.
Qed.

Lemma ages_update_lookup lim E o f :
  (forall l t x, dict_get t (pending (f l)) = Some x -> dict_get t (pending l) = Some x) -> frames (aging lim E) (update_lookup o f).
Proof. intros Hf. apply frames_modify. intros m. by apply aging_lookup. Qed.

Lemma ages_the_lookup lim E o : frames (aging lim E) (the_lookup o).
Proof. apply (frames_pure _). intros m l m'. unfold the_lookup. by destruct (_ !! _); intros [= _ ->]. Qed.

(** Changes of the other fields of the manager. *)
Lemma ages_quiet lim E f :
  (forall m, lookups (f m) = lookups m /\ active (f m) = active m /\ tokens (f m) = tokens m /\ tokens_time (f m) = tokens_time m /\
     sequence_number (f m) = sequence_number m) -> frames (aging lim E) (modify f).
Proof.
  intros Hf. apply frames_modify. intros m. destruct (Hf m) as (Hl & Ha & Ht & Htt & Hs). apply aging_same; [|by rewrite Ha|done..].
  intros o. rewrite Hl. destruct (lookups m !! o) as [l|]; [by exists l|done].
Qed.

Lemma ages_del lim E h m : aging lim E m (set_active (dict_del h (active m)) m).
Proof.
  apply aging_same; [|intros h' o'; cbn; rewrite dict_get_del; by case_decide|done..].
  intros o. cbn. destruct (lookups m !! o) as [l|]; [by exists l|done].
Qed.

(** More tokens, and the time they are for. *)
Lemma aging_refill lim E m now : (1 <= queries_per_second lim)%Z ->
  aging lim E m (set_tokens_time (Z.max (tokens_time m) now)
    (set_tokens (Z.min (queries_per_second lim * TOKEN) (tokens m + Z.max 0 (now - tokens_time m) * queries_per_second lim)) m)).
Proof.
  intros Hq. split; cbn; [by right|by left|done|lia|]. intros [Hcap Hr]. split; [cbn; lia|]. cbn.
  intros o t x Hx. destruct (Hr o t x Hx) as (s & Hs & Hlt & Hle). exists s. split; [done|]. split; [done|]. nia.
Qed.

(** A query is sent. *)
Lemma aging_send lim E m o l f t addr now timeout n :
  (E <= now <= tokens_time m)%Z -> (0 < timeout <= longest_wait lim)%Z -> (1 <= queries_per_second lim)%Z ->
  lookup_transaction_id (sequence_number m) = Ok t -> (0 <= sequence_number m)%Z -> lookups m !! o = Some l ->
  pending (f l) = dict_set t (addr, (now + timeout)%Z) (pending l) ->
  lookups n = alter f o (lookups m) -> active n = active m -> tokens n = (tokens m - TOKEN)%Z -> tokens_time n = tokens_time m ->
  sequence_number n = (sequence_number m + 1)%Z -> aging lim E m n.
Proof.
  intros Hnow Htime Hq Ht Hseq Hl Hp Hln Han Htn Httn Hsn.
  assert (forall o' t' x, waiting n o' t' x -> (t' = t /\ x = (addr, now + timeout)%Z) \/ waiting m o' t' x) as Hw.
  { intros o' t' x (l' & Hl' & Hx). rewrite Hln in Hl'. destruct (decide (o' = o)) as [->|Hne].
    - rewrite lookup_alter_eq, Hl in Hl'. injection Hl' as <-. rewrite Hp, dict_get_set in Hx. case_decide as Hd.
      + left. split; [done|]. by injection Hx.
      + right. by exists l.
    - rewrite lookup_alter_ne in Hl' by done. right. by exists l'. }
  split.
  - intros o' t' x [[_ ->]|Hx]%Hw; [left; cbn; lia|by right].
  - rewrite Han. auto.
  - intros o'. rewrite Hln. destruct (decide (o' = o)) as [->|Hne]; [by rewrite lookup_alter_eq, Hl|by rewrite lookup_alter_ne].
  - lia.
  - intros [Hcap Hr]. unfold rated. rewrite Htn, Httn, Hsn. split; [unfold TOKEN in *; lia|].
    intros o' t' x [[-> ->]|Hx]%Hw.
    + exists (sequence_number m). split; [done|]. split; [lia|]. cbn. unfold TOKEN in *. nia.
    + destruct (Hr o' t' x Hx) as (s & Hs & Hlt & Hle). exists s. split; [done|]. split; [lia|]. unfold TOKEN in *. lia.
Qed.

(** ** The methods *)

Lemma wlp_conj {S A} (m : ST S A) Q Q' s : wlp m Q s -> wlp m Q' s -> wlp m (fun a s' => Q a s' /\ Q' a s') s.
Proof. unfold wlp. destruct (m s) as [[a s']|]; auto. Qed.

Lemma wlp_get {S} (Q : S -> S -> Prop) s : Q s s -> wlp get_state Q s.
Proof. done. Qed.

Section ages.
Context `{AddressText} (node_filter : node -> bool) (on_peers : bool) (lim : lookup_limits) (E : Z).
Context (Hq : (1 <= queries_per_second lim)%Z).

Abbreviation ages := (frames (aging lim E)).

#[local] Hint Resolve ages_the_lookup : frames.
#[local] Hint Extern 2 (frames _ (update_lookup _ _)) => (apply ages_update_lookup; intros ? ? ?; done) : frames.
#[local] Hint Extern 2 (frames _ (modify _)) => (apply ages_quiet; done) : frames.
#[local] Hint Extern 2 (frames _ (emit _)) => (apply ages_quiet; done) : frames.

Lemma refill_ages now m :
  wlp (refill lim now) (fun _ m' => aging lim E m m' /\ (now <= tokens_time m')%Z) m.
Proof using Hq.
  unfold refill. apply wlp_bind, wlp_assert. intros _. apply wlp_bind, wlp_get. cbv zeta. apply wlp_bind, wlp_modify, wlp_bind, wlp_modify.
  apply wlp_bind, wlp_gets, wlp_bind, wlp_assert. intros _. apply wlp_ret. split; [by apply (aging_refill lim E m now)|cbn; lia].
Qed.

Lemma ages_refill now : ages (refill lim now).
Proof using Hq. intros m. eapply wlp_mono; [apply refill_ages|]. by intros t m' [? _]. Qed.
#[local] Hint Resolve ages_refill : frames.

Lemma ages_add_to_shortlist o nodes : ages (add_to_shortlist node_filter lim o nodes).
Proof using. unfold add_to_shortlist. frames_steps. Qed.
#[local] Hint Resolve ages_add_to_shortlist : frames.

Lemma ages_release o t : ages (release_transaction o t).
Proof using.
  unfold release_transaction. frames_steps. apply ages_update_lookup. intros l t' x. cbn. rewrite dict_get_del. by case_decide.
Qed.
#[local] Hint Resolve ages_release : frames.

Lemma transaction_id_nonneg s t : lookup_transaction_id s = Ok t -> (0 <= s)%Z.
Proof using.
  clear. unfold lookup_transaction_id, assert_, raise_if. destruct (Z.leb_spec 0 s); [done|]. by intros [= ].
Qed.

(** A query that is sent at a time that is not before [E], when the tokens were
    counted for that time. *)
Lemma send_to_ages o n now timeout m : (E <= now <= tokens_time m)%Z -> (timeout <= longest_wait lim)%Z ->
  wlp (send_to o n now timeout) (fun _ => aging lim E m) m.
Proof using Hq.
  intros Hnow Htime. unfold send_to. apply wlp_bind. unfold wlp at 1, the_lookup. destruct (lookups m !! o) as [l|] eqn:Hl; [|done].
  apply wlp_bind, wlp_assert. intros [_ Ht]%andb_prop. apply wlp_bind, wlp_gets, wlp_bind, wlp_lift. intros t Hid.
  pose proof (transaction_id_nonneg _ _ Hid) as Hs. cbv zeta.
  unfold emit, update_lookup. do 9 (apply wlp_bind, wlp_modify). apply wlp_bind, wlp_get, wlp_bind, wlp_assert.
  intros _. apply wlp_ret.
  eapply (aging_send lim E m o l _ t (node_address n) now timeout); [done|lia|done|done|done|exact Hl| |cbn; by rewrite !alter_alter_eq|done..].
  done.
Qed.

Lemma send_each_ages o nodes now m : (E <= now <= tokens_time m)%Z ->
  wlp (send_each lim o nodes now) (fun _ => aging lim E m) m.
Proof using Hq.
  revert m. induction nodes as [|n nodes IH]; intros m Hnow; cbn [send_each]; [apply wlp_ret; reflexivity|].
  apply wlp_bind, wlp_gets. destruct (_ <? _)%Z; [apply wlp_ret; reflexivity|]. apply wlp_bind.
  eapply wlp_mono; [apply send_to_ages; [done|unfold longest_wait; lia]|]. intros t m1 H1. apply wlp_bind.
  eapply wlp_mono; [apply IH; pose proof (ag_time _ _ _ _ H1); lia|]. intros sent m2 H2. apply wlp_ret. exact (transitivity H1 H2).
Qed.

Lemma ages_top_up o now : (E <= now)%Z -> ages (top_up lim o now).
Proof using Hq.
  intros Hnow. unfold top_up. frames_step; [apply ages_the_lookup|]. frames_step; [by frames_steps|]. cbv zeta.
  destruct (_ <=? _)%Z; [by frames_steps|]. intros m. apply wlp_bind.
  eapply wlp_mono; [apply refill_ages|]. intros t m1 [H1 Ht1]. destruct (_ <? _)%Z; [by apply wlp_ret|].
  apply wlp_bind, wlp_get, wlp_bind, wlp_lift. intros chosen _. apply wlp_bind. eapply wlp_mono; [apply send_each_ages; lia|].
  intros sent m2 H2. apply wlp_bind, wlp_assert. intros _. apply wlp_ret. exact (transitivity H1 H2).
Qed.
#[local] Hint Resolve ages_top_up : frames.

Lemma ages_finish o : ages (finish o).
Proof using. unfold finish. frames_steps. apply frames_modify. intros m. apply ages_del. Qed.
#[local] Hint Resolve ages_finish : frames.

Lemma ages_advance o now : (E <= now)%Z -> ages (advance lim o now).
Proof using Hq. intros Hnow. unfold advance. frames_steps. Qed.
#[local] Hint Resolve ages_advance : frames.

Lemma ages_expire_pending o now : ages (expire_pending o now).
Proof using. unfold expire_pending. frames_steps. Qed.
#[local] Hint Resolve ages_expire_pending : frames.

Lemma ages_collect_peers o values : ages (collect_peers lim o values).
Proof using. induction values as [|peer values IH]; cbn [collect_peers]; frames_steps. Qed.
#[local] Hint Resolve ages_collect_peers : frames.

Lemma ages_read_response o h from_hint d : ages (read_response node_filter on_peers lim o h from_hint d).
Proof using. unfold read_response. frames_steps. Qed.
#[local] Hint Resolve ages_read_response : frames.

Lemma ages_handle_response t response addr clock : (E <= clock)%Z ->
  ages (handle_response node_filter on_peers lim t response addr clock).
Proof using Hq. intros Hc. unfold handle_response. frames_steps. Qed.

Lemma ages_handle_error t clock : (E <= clock)%Z -> ages (handle_error lim t clock).
Proof using Hq. intros Hc. unfold handle_error. frames_steps. Qed.

Lemma ages_tick now : (E <= now)%Z -> ages (tick lim now).
Proof using Hq. intros Hc. unfold tick. frames_steps. Qed.

Lemma ages_abort_all : ages abort_all.
Proof using. unfold abort_all. frames_steps. Qed.

Lemma ages_free_slots : ages (free_slots lim).
Proof using. unfold free_slots. frames_steps. Qed.
#[local] Hint Resolve ages_free_slots : frames.

Lemma ages_manager_counts : ages (manager_counts lim).
Proof using. unfold manager_counts. frames_steps. Qed.

(** A new lookup: nothing waits in it, and no other lookup has its number. *)
Lemma aging_new_lookup m o l h m' : lookups m !! o = None -> pending l = [] ->
  lookups m' = <[o := l]> (lookups m) -> active m' = dict_set h o (active m) \/ active m' = active m ->
  tokens m' = tokens m -> tokens_time m' = tokens_time m -> sequence_number m' = sequence_number m -> aging lim E m m'.
Proof using.
  intros Hnone Hp Hl Ha Ht Htt Hs. assert (forall o' t x, waiting m' o' t x -> waiting m o' t x) as Hw.
  { intros o' t x (l' & Hl' & Hx). rewrite Hl in Hl'. destruct (decide (o = o')) as [->|Hne].
    - rewrite lookup_insert_eq in Hl'. injection Hl' as <-. by rewrite Hp in Hx.
    - rewrite lookup_insert_ne in Hl' by done. by exists l'. }
  split; [|..|lia|].
  - intros o' t x Hx. right. auto.
  - intros h' o' Hg. destruct Ha as [Ha|Ha]; rewrite Ha in Hg; [|by left]. rewrite dict_get_set in Hg. case_decide; [|by left].
    right. by injection Hg as <-.
  - intros o'. rewrite Hl. destruct (decide (o = o')) as [->|Hne]; [by rewrite lookup_insert_eq|by rewrite lookup_insert_ne].
  - intros [Hcap Hr]. unfold rated. rewrite Ht, Htt, Hs. split; [done|]. intros o' t x Hx. apply (Hr o' t x). auto.
Qed.

(** The lookup is entered into the table after its nodes were collected. *)
Lemma aging_enter m m1 o h : aging lim E m m1 -> lookups m !! o = None ->
  aging lim E m (set_active (dict_set h o (active m1)) m1).
Proof using.
  intros [W A H0 Tm R] Hnone. split; [exact W| |exact H0|exact Tm|exact R]. intros h' o'. cbn. rewrite dict_get_set.
  case_decide; [intros [= <-]; by right|apply A].
Qed.

Lemma begin_lookup_ages h seed_nodes now hint m : (E <= now <= tokens_time m)%Z -> lookups m !! next_lookup m = None ->
  wlp (begin_lookup node_filter lim h seed_nodes now hint) (fun _ => aging lim E m) m.
Proof using Hq.
  intros Hnow Hfresh. unfold begin_lookup. apply wlp_bind, wlp_get. cbv zeta. set (o := next_lookup m) in *.
  apply wlp_bind, wlp_modify, wlp_bind, wlp_modify. set (l := new_lookup h _).
  match goal with |- wlp _ _ ?n => assert (aging lim E m n) as H1 by (apply (aging_new_lookup m o l h); first [done|by right]) end.
  apply (wlp_framed (aging lim E) _ _ _ m); [apply ages_add_to_shortlist|exact H1|]. intros [] m2 H2.
  apply (wlp_framed (aging lim E) _ _ _ m); [apply ages_the_lookup|exact H2|]. intros l3 m3 H3.
  destruct (_ && _); [by apply wlp_ret|]. apply wlp_bind, wlp_modify, wlp_bind, wlp_modify.
  match goal with |- wlp _ _ ?n => assert (aging lim E m n /\ (tokens_time m <= tokens_time n)%Z) as [H4 Ht4] end.
  { pose proof (aging_enter m m3 o h H3 Hfresh) as [W A H0 Tm R]. by split; [split|]. }
  apply wlp_bind. eapply (wlp_mono _ (fun _ m5 => aging lim E m m5)).
  - destruct hint as [n|].
    + apply wlp_bind. eapply wlp_mono; [apply send_to_ages; [lia|unfold longest_wait; lia]|]. intros t m5 H5.
      pose proof (transitivity H4 H5) as Hm5. apply (wlp_framed (aging lim E) _ _ _ m); [by frames_steps|exact Hm5|].
      intros [] m6 H6. eapply wlp_mono; [apply (ages_quiet lim E); done|]. intros [] m7 H7. exact (transitivity H6 H7).
    + apply (wlp_framed (aging lim E) _ _ _ m); [apply ages_top_up; lia|exact H4|]. intros sent m5 H5. by apply wlp_ret.
  - intros [] m5 H5. apply wlp_bind, wlp_get, wlp_bind, wlp_assert. intros _. by apply wlp_ret.
Qed.

Lemma start_lookup_ages h seed_nodes now hint m : (E <= now)%Z -> lookups m !! next_lookup m = None ->
  wlp (start_lookup node_filter lim h seed_nodes now hint) (fun _ => aging lim E m) m.
Proof using Hq.
  intros Hnow Hfresh. unfold start_lookup. apply wlp_bind, wlp_assert. intros _. apply wlp_bind, wlp_get.
  destruct (dict_has _ _); [by apply wlp_ret|]. apply wlp_bind. unfold free_slots.
  apply wlp_bind, wlp_get, wlp_bind, wlp_assert. intros _. apply wlp_bind, wlp_assert. intros _. apply wlp_ret.
  destruct (_ =? _)%Z; [by apply wlp_ret|]. apply wlp_bind.
  eapply wlp_mono; [apply (wlp_conj _ (fun _ m' => aging lim E m m' /\ (now <= tokens_time m')%Z)
    (fun _ m' => lookups m' = lookups m /\ next_lookup m' = next_lookup m)); [apply refill_ages|]|].
  { unfold refill. apply wlp_bind, wlp_assert. intros _. apply wlp_bind, wlp_get. cbv zeta. apply wlp_bind, wlp_modify, wlp_bind, wlp_modify.
    apply wlp_bind, wlp_gets, wlp_bind, wlp_assert. intros _. by apply wlp_ret. }
  intros t m1 [[H1 Ht1] [Hl1 Hn1]]. destruct (_ <? _)%Z; [by apply wlp_ret|]. apply wlp_bind, wlp_get. cbv zeta.
  assert (forall hint, wlp (begin_lookup node_filter lim h seed_nodes now hint) (fun _ => aging lim E m) m1) as Hbegin.
  { intros hint'. eapply wlp_mono; [apply begin_lookup_ages; [lia|by rewrite Hl1, Hn1]|]. intros b m2 H2. exact (transitivity H1 H2). }
  destruct (match hint with Some n => _ | None => None end); [|apply Hbegin]. destruct (_ <=? _)%Z; [by apply wlp_ret|apply Hbegin].
Qed.
End ages.

(** ** What [tick] lets go of *)

Lemma the_lookup_wlp o m (Q : peer_lookup -> manager -> Prop) :
  (forall l, lookups m !! o = Some l -> Q l m) -> wlp (the_lookup o) Q m.
Proof. intros HQ. unfold wlp, the_lookup. destruct (lookups m !! o); [by apply HQ|done]. Qed.

(** After its queries were expired nothing waits in a lookup beyond its time. *)
Lemma expire_pending_late o now m : wlp (expire_pending o now) (fun _ m' => forall t x, waiting m' o t x -> (now < x.2)%Z) m.
Proof.
  unfold expire_pending. apply wlp_bind, the_lookup_wlp. intros l0 _. cbv zeta. apply wlp_bind, wlp_mono with (Q := fun _ _ => True).
  { unfold wlp. by destruct (for_each _ _ _) as [[? ?]|]. }
  intros [] m1 _. apply wlp_bind, the_lookup_wlp. intros l Hl. apply wlp_bind, wlp_assert. intros Hall. apply wlp_ret.
  intros t x (l' & Hl' & Hx). rewrite Hl in Hl'. injection Hl' as <-. rewrite forallb_forall in Hall.
  apply dict_get_elem_of, list_elem_of_In, Hall in Hx. by apply Z.ltb_lt.
Qed.

(** After [tick] every query that waits in an active lookup still has time. *)
Lemma tick_since lim now m : (1 <= queries_per_second lim)%Z -> wlp (tick lim now) (fun _ m' => since now m') m.
Proof.
  intros Hq. unfold tick. apply wlp_bind, wlp_assert. intros _. apply wlp_bind.
  eapply wlp_mono; [apply (ages_refill lim now Hq)|]. intros t m1 _. clear t m. apply wlp_bind, wlp_gets. apply wlp_bind.
  set (running := (active m1).*2).
  eapply (wlp_mono _ (fun _ m' => aging lim now m1 m' /\ forall o, o ∈ running -> forall t x, waiting m' o t x -> (now < x.2)%Z)).
  - assert (forall l m2, wlp (for_each l (fun o => expire_pending o now ;; advance lim o now))
      (fun _ m' => aging lim now m2 m' /\ forall o, o ∈ l -> forall t x, waiting m' o t x -> (now < x.2)%Z) m2) as Hloop; [|apply Hloop].
    intros l. induction l as [|o l IH]; intros m2; cbn [for_each].
    { apply wlp_ret. split; [done|]. by intros o ?%elem_of_nil. }
    apply wlp_bind, wlp_bind. eapply wlp_mono; [apply wlp_conj; [apply (ages_expire_pending lim now)|apply expire_pending_late]|].
    intros n m3 [H3 Hlate]. eapply wlp_mono; [apply (ages_advance lim now Hq o now); lia|]. intros [] m4 H4.
    eapply wlp_mono; [apply IH|]. intros [] m5 [H5 Hl]. split; [exact (transitivity H3 (transitivity H4 H5))|].
    intros o' [->|Ho']%elem_of_cons t x Hx; [|by eapply Hl]. destruct (ag_waiting _ _ _ _ (transitivity H4 H5) o t x Hx); [done|].
    by eapply Hlate.
  - intros [] m2 [H2 Hall]. apply wlp_bind, wlp_get, wlp_assert. intros _ h o t x Hh Hx.
    destruct (ag_active _ _ _ _ H2 h o Hh) as [Hact|Hnone].
    + apply (Hall o) with t; [|done]. apply dict_get_elem_of in Hact. unfold running. by apply (list_elem_of_fmap_2 snd) in Hact.
    + destruct (ag_waiting _ _ _ _ H2 o t x Hx) as [?|(l & Hl & _)]; [done|congruence].
Qed.

(** ** How many ids are in use *)

(** The ids that queries of the last [span] of time, the longest wait included,
    can have. *)
Definition ids_in_use (lim : lookup_limits) (span : Z) : Z :=
  (queries_per_second lim * (TOKEN + longest_wait lim + span) / TOKEN)%Z.

(** The pending queries of the active lookups were sent with the last ids, so that
    the next [n] ids belong to none of them. *)
Lemma window_of_ages `{AddressText} node_filter lim t0 T m E span n :
  inv node_filter lim t0 T m -> (1 <= queries_per_second lim)%Z -> rated lim m -> since E m -> (tokens_time m <= E + span)%Z ->
  (ids_in_use lim span + n <= 2 ^ 24)%Z -> window n m.
Proof.
  intros Hm Hq [_ Hr] Hs Ht Hn t h Hth. apply (i_owner _ _ _ _ _ _ Hm) in Hth as (o & l & [Hact Hl] & [x Hx]).
  assert (waiting m o t x) as Hw by by exists l. specialize (Hs h o t x Hact Hw). destruct (Hr o t x Hw) as (s & Hid & Hlt & Hle).
  exists s. split; [done|]. split; [done|]. pose proof (i_tokens _ _ _ _ _ _ Hm) as [Htok _].
  assert (sequence_number m - s <= ids_in_use lim span)%Z; [|lia]. unfold ids_in_use. apply Z.div_le_lower_bound; [unfold TOKEN; lia|].
  assert (queries_per_second lim * (tokens_time m - (x.2 - longest_wait lim)) <= queries_per_second lim * (longest_wait lim + span))%Z by nia.
  lia.
Qed.
