(* ===== verification/DhtLookupTicks.v ===== *)
(** What [tick] does to each active lookup: its overdue queries are let go of, and
    then it is finished and reported, with the peers it has found, or it goes on for
    a reason.  Looking after one lookup leaves the others alone. *)
From S2P Require Import Prelude PyDict Bencode NodeIdentity AddressText Krpc DhtLookup DhtLookupSafety DhtLookupReports DhtLookupAges.
From stdpp Require Import gmap.

(** What a lookup has collected, and whether it is finished. *)
Definition same_result (l l' : peer_lookup) : Prop :=
  lk_hash l' = lk_hash l /\ found_peers l' = found_peers l /\ value_responses l' = value_responses l /\
  lk_deadline l' = lk_deadline l /\ finished l' = finished l.

(** A step that looks after the lookup [o] and reports nothing. *)
Record tends (o : nat) (m m' : manager) : Prop := Tends {
  td_others : forall o', o' <> o -> lookups m' !! o' = lookups m !! o';
  td_result : forall l, lookups m !! o = Some l -> exists l', lookups m' !! o = Some l' /\ same_result l l';
  td_events : exists es, events m' = events m ++ es /\ finished_hashes es = [] }.

#[global] Instance tends_preorder o : PreOrder (tends o).
Proof.
  split.
  - intros m. split; [done| |exists []; by rewrite app_nil_r]. intros l Hl. by exists l.
  - intros m m1 m2 [A1 B1 (es1 & E1 & F1)] [A2 B2 (es2 & E2 & F2)]. split.
    + intros o' Ho. by rewrite A2, A1.
    + intros l Hl. destruct (B1 l Hl) as (l1 & Hl1 & S1). destruct (B2 l1 Hl1) as (l2 & Hl2 & S2). exists l2. split; [done|].
      unfold same_result in *. intuition congruence.
    + exists (es1 ++ es2). rewrite E2, E1, app_assoc, finished_hashes_app, F1, F2. done.
Qed.

Lemma tends_update_lookup o f : (forall l, same_result l (f l)) -> frames (tends o) (update_lookup o f).
Proof.
  intros Hf. apply frames_modify. intros m. split; cbn.
  - intros o' Ho. by rewrite lookup_alter_ne.
  - intros l Hl. exists (f l). by rewrite lookup_alter_eq, Hl.
  - exists []. by rewrite app_nil_r.
Qed.

Lemma tends_the_lookup o o' : frames (tends o) (the_lookup o').
Proof. apply (frames_pure _). intros m l m'. unfold the_lookup. by destruct (_ !! _); intros [= _ ->]. Qed.

Lemma tends_quiet o f : (forall m, lookups (f m) = lookups m /\ events (f m) = events m) -> frames (tends o) (modify f).
Proof.
  intros Hf. apply frames_modify. intros m. destruct (Hf m) as [Hl He]. split; [by rewrite Hl| |exists []; by rewrite He, app_nil_r].
  intros l Hlo. exists l. by rewrite Hl.
Qed.

Lemma tends_emit o e : finished_hash e = None -> frames (tends o) (emit e).
Proof.
  intros He. apply frames_modify. intros m. split; [done|intros l Hl; by exists l|]. exists [e]. split; [done|].
  unfold finished_hashes. cbn. by rewrite He.
Qed.

Section ticks.
Context (lim : lookup_limits).

#[local] Hint Resolve tends_the_lookup : frames.
#[local] Hint Extern 2 (frames _ (update_lookup _ _)) => (apply tends_update_lookup; intros ?; done) : frames.
#[local] Hint Extern 2 (frames _ (modify _)) => (apply tends_quiet; done) : frames.
#[local] Hint Extern 2 (frames _ (emit _)) => (apply tends_emit; reflexivity) : frames.

Lemma tends_release o t : frames (tends o) (release_transaction o t).
Proof using. unfold release_transaction. frames_steps. Qed.
#[local] Hint Resolve tends_release : frames.
Lemma tends_refill o now : frames (tends o) (refill lim now).
Proof using. unfold refill. frames_steps. Qed.
#[local] Hint Resolve tends_refill : frames.
Lemma tends_send_to o n now timeout : frames (tends o) (send_to o n now timeout).
Proof using. unfold send_to. frames_steps. Qed.
#[local] Hint Resolve tends_send_to : frames.
Lemma tends_send_each o nodes now : frames (tends o) (send_each lim o nodes now).
Proof using. induction nodes as [|n nodes IH]; cbn [send_each]; frames_steps. Qed.
#[local] Hint Resolve tends_send_each : frames.
Lemma tends_top_up o now : frames (tends o) (top_up lim o now).
Proof using. unfold top_up. frames_steps. Qed.
Lemma tends_expire_pending o now : frames (tends o) (expire_pending o now).
Proof using. unfold expire_pending. frames_steps. Qed.

(** A lookup goes on: it waits for the node it was told of, or for another answer, or
    it may still ask. *)
Definition goes_on (now : Z) (l : peer_lookup) : Prop :=
  must_finish lim l now = false /\ (hint_transaction l <> None \/ pending l <> [] \/ can_query_more lim l = true).

(** It has nothing left to wait for. *)
Definition exhausted (l : peer_lookup) : Prop := pending l = [] /\ can_query_more lim l = false.

(** What has become of the lookup [o], which was [l], by the events [es]. *)
Definition looked_after (now : Z) (o : nat) (l : peer_lookup) (m' : manager) (es : list event) : Prop :=
  exists l', lookups m' !! o = Some l' /\
    (finished l' = false /\ goes_on now l' /\ filter is_reported es = [] \/
     finished l' = true /\ filter is_reported es = [Lookup_finished (lk_hash l) (sort_by address_leb (found_peers l))] /\
       (must_finish lim l now = true \/ exhausted l')).

Lemma must_finish_same l l' now : same_result l l' -> must_finish lim l' now = must_finish lim l now.
Proof using. intros (_ & Hf & Hv & Hd & _). unfold must_finish. by rewrite Hf, Hv, Hd. Qed.

Lemma no_report es : finished_hashes es = [] -> filter is_reported es = [].
Proof using.
  clear. unfold finished_hashes. induction es as [|e es IH]; [done|]. rewrite filter_cons. intros He.
  destruct e; cbn in He |- *; [by apply IH..|discriminate He].
Qed.

(** [finish] reports the peers that were found. *)
Lemma finish_reports o l m : lookups m !! o = Some l ->
  wlp (finish o) (fun _ m' => (forall o', o' <> o -> lookups m' !! o' = lookups m !! o') /\
    exists l' es, lookups m' !! o = Some l' /\ finished l' = true /\ (pending l = [] -> l' = set_finished true l) /\
      events m' = events m ++ es /\ filter is_reported es = [Lookup_finished (lk_hash l) (sort_by address_leb (found_peers l))]) m.
Proof using.
  clear. intros Hl. unfold finish. apply wlp_bind, the_lookup_wlp. intros l0 Hl0. rewrite Hl in Hl0. injection Hl0 as <-.
  apply wlp_bind, wlp_assert. intros _. apply wlp_bind, wlp_modify. set (m1 := set_lookups _ m).
  assert (lookups m1 !! o = Some (set_finished true l)) as Hl1 by (cbn; by rewrite lookup_alter_eq, Hl).
  apply wlp_bind. eapply (wlp_mono _ (fun _ m2 => tends o m1 m2 /\ (pending l = [] -> m2 = m1))).
  { unfold wlp at 1. pose proof (frames_for_each (tends o) (pending l).*1 (release_transaction o) (tends_release o) m1) as Hrel. unfold wlp in Hrel.
    destruct (for_each _ _ m1) as [[[] m2]|] eqn:Hrun; [|done]. split; [done|]. intros Hp. rewrite Hp in Hrun. by injection Hrun as <-. }
  intros [] m2 [[A B (es & E & F)] Hnil]. destruct (B _ Hl1) as (l' & Hl' & (S1 & S2 & S3 & S4 & S5)).
  apply wlp_bind, wlp_modify, wlp_bind, wlp_modify. cbv zeta. apply wlp_bind, wlp_modify, wlp_bind, wlp_modify.
  unfold emit. apply wlp_bind, wlp_modify, wlp_bind, wlp_get, wlp_assert. intros _. cbn. split.
  - intros o' Ho. rewrite A by done. cbn. by rewrite lookup_alter_ne.
  - exists l'. eexists. split; [done|]. split; [by rewrite S5|]. split.
    + intros Hp. rewrite (Hnil Hp), Hl1 in Hl'. by injection Hl' as <-.
    + rewrite E. cbn. split; [by rewrite <-app_assoc|]. by rewrite filter_app, (no_report es F).
Qed.

(** One turn of the loop of [tick]. *)
Lemma tick_one o l now m : lookups m !! o = Some l -> finished l = false ->
  wlp (expire_pending o now ;; advance lim o now) (fun _ m' => (forall o', o' <> o -> lookups m' !! o' = lookups m !! o') /\
    exists es, events m' = events m ++ es /\ looked_after now o l m' es) m.
Proof using.
  intros Hl Hfin. apply wlp_bind. eapply wlp_mono; [apply tends_expire_pending|]. intros n m1 [A1 B1 (es1 & E1 & F1)].
  destruct (B1 l Hl) as (l1 & Hl1 & S1). unfold advance. apply wlp_bind, the_lookup_wlp. intros l0 Hl0. rewrite Hl1 in Hl0. injection Hl0 as <-.
  assert (finished l1 = false) as -> by (destruct S1 as (_ & _ & _ & _ & ->); done).
  assert (forall m', (forall o', o' <> o -> lookups m' !! o' = lookups m !! o') -> (exists es, events m' = events m ++ es /\ looked_after now o l m' es) ->
    wlp (l ← the_lookup o; m ← get_state; assert_st (finished l || dict_has (lk_hash l) (active m)))
      (fun _ m' => (forall o', o' <> o -> lookups m' !! o' = lookups m !! o') /\ exists es, events m' = events m ++ es /\ looked_after now o l m' es) m') as Hend.
  { intros m' HA HB. apply wlp_bind, the_lookup_wlp. intros l' _. apply wlp_bind, wlp_get, wlp_assert. intros _. by split. }
  apply wlp_bind. rewrite (must_finish_same l l1 now S1). pose proof S1 as (Hh & Hfound & _).
  destruct (must_finish lim l now) eqn:Hmust.
  - eapply wlp_mono; [by apply (finish_reports o l1)|]. intros [] m2 [A2 (l2 & es2 & Hl2 & Hf2 & _ & E2 & R2)].
    apply Hend; [intros o' Ho; by rewrite A2, A1|]. exists (es1 ++ es2). rewrite E2, E1, app_assoc. split; [done|].
    exists l2. split; [done|]. right. split; [done|]. rewrite filter_app, (no_report es1 F1), R2, Hh, Hfound. split; [done|by left].
  - destruct (decide (hint_transaction l1 = None)) as [Hhint|Hhint].
    2: { rewrite bool_decide_eq_false_2 by done. apply wlp_ret, Hend; [done|]. exists es1. split; [done|]. exists l1. split; [done|]. left.
         split; [destruct S1 as (_ & _ & _ & _ & ->); done|]. split; [|by apply no_report]. split; [by rewrite (must_finish_same l l1)|by left]. }
    rewrite bool_decide_eq_true_2 by done. apply wlp_bind. eapply wlp_mono; [apply tends_top_up|].
    intros sent m2 [A2 B2 (es2 & E2 & F2)]. destruct (B2 l1 Hl1) as (l2 & Hl2 & S2).
    pose proof S2 as (Hh2 & Hfound2 & _). apply wlp_bind, the_lookup_wlp. intros l0 Hl0. rewrite Hl2 in Hl0. injection Hl0 as <-.
    assert (forall o', o' <> o -> lookups m2 !! o' = lookups m !! o') as HA by (intros o' Ho; by rewrite A2, A1).
    destruct (bool_decide (pending l2 = []) && negb (can_query_more lim l2)) eqn:Hdone.
    + apply andb_prop in Hdone as [Hp%bool_decide_eq_true Hq%negb_true_iff].
      eapply wlp_mono; [by apply (finish_reports o l2)|]. intros [] m3 [A3 (l3 & es3 & Hl3 & Hf3 & Heq3 & E3 & R3)].
      apply Hend; [intros o' Ho; by rewrite A3, HA|]. exists (es1 ++ es2 ++ es3). rewrite E3, E2, E1, !app_assoc. split; [done|].
      exists l3. split; [done|]. right. split; [done|]. rewrite !filter_app, (no_report es1 F1), (no_report es2 F2), R3, Hh2, Hfound2, Hh, Hfound.
      split; [done|]. right. by rewrite (Heq3 Hp).
    + apply wlp_ret, Hend; [done|]. exists (es1 ++ es2). rewrite E2, E1, app_assoc. split; [done|]. exists l2. split; [done|]. left.
      split; [destruct S2 as (_ & _ & _ & _ & ->), S1 as (_ & _ & _ & _ & ->); done|].
      split; [|by rewrite filter_app, (no_report es1 F1), (no_report es2 F2)].
      split; [by rewrite (must_finish_same l1 l2), (must_finish_same l l1)|]. right.
      apply andb_false_iff in Hdone as [Hp%bool_decide_eq_false|Hq%negb_false_iff]; [by left|by right].
Qed.

(** The events of the turns of the loop, in the order of the lookups. *)
Lemma tick_loop now ls : forall m, NoDup ls ->
  (forall o, o ∈ ls -> exists l, lookups m !! o = Some l /\ finished l = false) ->
  wlp (for_each ls (fun o => expire_pending o now ;; advance lim o now)) (fun _ m' =>
    (forall o, o ∉ ls -> lookups m' !! o = lookups m !! o) /\
    exists ess, events m' = events m ++ concat ess /\ length ess = length ls /\
      forall i o es l, ls !! i = Some o -> ess !! i = Some es -> lookups m !! o = Some l -> looked_after now o l m' es) m.
Proof using.
  induction ls as [|o ls IH]; intros m Hnd Hls; cbn [for_each].
  { apply wlp_ret. split; [done|]. exists []. split; [by rewrite app_nil_r|]. split; [done|]. by intros i o es l Hi. }
  apply NoDup_cons in Hnd as [Hnot Hnd]. destruct (Hls o ltac:(left)) as (l & Hl & Hfin).
  apply wlp_bind. eapply wlp_mono; [by apply (tick_one o l now m)|]. intros [] m1 [A1 (es & E1 & L1)].
  eapply wlp_mono; [apply (IH m1 Hnd)|].
  - intros o' Ho. assert (o' <> o) as Hne by (by intros ->). rewrite A1 by done. apply Hls. by right.
  - intros [] m2 [A2 (ess & E2 & Hlen & H2)]. split.
    + intros o' [Hne Ho]%not_elem_of_cons. by rewrite A2, A1.
    + exists (es :: ess). cbn. rewrite E2, E1, app_assoc. split; [done|]. split; [by rewrite Hlen|].
      intros i o' es' l' Hi Hes Hl'. destruct i as [|i]; cbn in Hi, Hes.
      * injection Hi as <-. injection Hes as <-. rewrite Hl in Hl'. injection Hl' as <-. destruct L1 as (l1 & Hl1 & Hend).
        exists l1. split; [by rewrite A2|done].
      * apply (H2 i o' es'); [done|done|]. rewrite A1; [done|]. intros ->. by apply Hnot, (list_elem_of_lookup_2 _ i).
Qed.

(** The lookups of [m] that [tick] looks after, one by one. *)
Lemma tick_ticks now m : NoDup (active m).*2 ->
  (forall o, o ∈ (active m).*2 -> exists l, lookups m !! o = Some l /\ finished l = false) ->
  wlp (tick lim now) (fun _ m' => exists ess, events m' = events m ++ concat ess /\ length ess = length (active m) /\
    forall i h o es l, active m !! i = Some (h, o) -> ess !! i = Some es -> lookups m !! o = Some l -> looked_after now o l m' es) m.
Proof using.
  intros Hnd Hls. unfold tick. apply wlp_bind, wlp_assert. intros _. apply wlp_bind.
  eapply (wlp_mono _ (fun _ m1 => lookups m1 = lookups m /\ active m1 = active m /\ events m1 = events m)).
  { unfold refill. apply wlp_bind, wlp_assert. intros _. apply wlp_bind, wlp_get. cbv zeta. apply wlp_bind, wlp_modify, wlp_bind, wlp_modify.
    apply wlp_bind, wlp_gets, wlp_bind, wlp_assert. intros _. by apply wlp_ret. }
  intros t m1 (Hl1 & Ha1 & He1). apply wlp_bind, wlp_gets. rewrite Ha1. apply wlp_bind.
  eapply wlp_mono; [apply tick_loop; [done|by rewrite Hl1]|]. intros [] m2 [_ (ess & E2 & Hlen & H2)].
  apply wlp_bind, wlp_get, wlp_assert. intros _. exists ess. rewrite E2, He1. split; [done|].
  split; [by rewrite Hlen, length_fmap|]. intros i h o es l Hi Hes Hl. apply (H2 i o es l); [|done|by rewrite Hl1].
  rewrite list_lookup_fmap, Hi. done.
Qed.
End ticks.

(** The reports of a list of events are those of its parts. *)
Lemma finished_hashes_filter es : finished_hashes es = finished_hashes (filter is_reported es).
Proof.
  unfold finished_hashes. induction es as [|e es IH]; [done|]. rewrite filter_cons. destruct e; cbn; rewrite IH; done.
Qed.

Lemma finished_hashes_concat ess h : h ∈ finished_hashes (concat ess) <-> exists i es, ess !! i = Some es /\ h ∈ finished_hashes es.
Proof.
  induction ess as [|es ess IH]; cbn; [split; [by intros ?%elem_of_nil|by intros (i & es & Hi & _)]|].
  rewrite finished_hashes_app, elem_of_app, IH. split.
  - intros [Hh|(i & es' & Hi & Hh)]; [by exists 0, es|by exists (S i), es'].
  - intros ([|i] & es' & Hi & Hh); [left; by injection Hi as ->|right; by exists i, es'].
Qed.

Section exact.
Context `{AddressText} (node_filter : node -> bool) (lim : lookup_limits) (t0 T : Z).
Abbreviation inv := (inv node_filter lim t0 T).

Lemma active_objects m : inv m -> NoDup (active m).*2 /\
  forall o, o ∈ (active m).*2 -> exists l, lookups m !! o = Some l /\ finished l = false.
Proof using.
  intros Hm. pose proof (proj1 (i_tables _ _ _ _ _ _ Hm)) as Hwf. split.
  - apply NoDup_alt. intros i j o Hi Hj. rewrite list_lookup_fmap in Hi, Hj.
    destruct (active m !! i) as [[h o1]|] eqn:Hi'; [|done]. destruct (active m !! j) as [[h' o2]|] eqn:Hj'; [|done].
    cbn in Hi, Hj. injection Hi as ->. injection Hj as ->.
    assert (dict_get h (active m) = Some o) as H1 by (apply elem_of_dict_get; [done|by eapply list_elem_of_lookup_2]).
    assert (dict_get h' (active m) = Some o) as H2 by (apply elem_of_dict_get; [done|by eapply list_elem_of_lookup_2]).
    pose proof (active_inj _ _ _ _ _ _ _ _ _ Hm H1 H2) as ->. unfold dict_wf in Hwf.
    eapply (NoDup_lookup (active m).*1); [exact Hwf|by rewrite list_lookup_fmap, Hi'|by rewrite list_lookup_fmap, Hj'].
  - intros o Ho. apply list_elem_of_fmap in Ho as ([h o'] & -> & Hin). apply elem_of_dict_get in Hin; [|done].
    destruct (i_current _ _ _ _ _ _ Hm h o' Hin) as (l & Hl & _ & _ & Hf). exists l. split; [done|by apply Hf].
Qed.

(** Each lookup that was active is reported, or is active still. *)
Lemma tick_exact now m m' : inv m -> inv m' -> reports [] m m' -> (exists ess, events m' = events m ++ concat ess /\ length ess = length (active m) /\
    forall i h o es l, active m !! i = Some (h, o) -> ess !! i = Some es -> lookups m !! o = Some l -> looked_after lim now o l m' es) ->
  exists ess, events m' = events m ++ concat ess /\ length ess = length (active m) /\
    (forall h, h ∈ (active m').*1 -> h ∈ (active m).*1) /\
    forall i h o es l, active m !! i = Some (h, o) -> ess !! i = Some es -> lookups m !! o = Some l -> exists l', lookups m' !! o = Some l' /\
      (dict_has h (active m') = true /\ goes_on lim now l' /\ filter is_reported es = [] \/
       dict_has h (active m') = false /\ (must_finish lim l now = true \/ exhausted lim l') /\
         filter is_reported es = [Lookup_finished h (sort_by address_leb (found_peers l))]).
Proof using.
  intros Hm Hm' Hrep (ess & E & Hlen & Hess). pose proof (proj1 (i_tables _ _ _ _ _ _ Hm)) as Hwf.
  destruct (reports_exact _ _ _ _ _ _ _ _ Hm Hm' Hrep) as (es' & E' & _ & Hperm). rewrite app_nil_r in Hperm.
  assert (es' = concat ess) as -> by (rewrite E in E'; by apply app_inv_head in E').
  assert (NoDup ((active m').*1 ++ finished_hashes (concat ess))) as Hnd by (rewrite <-Hperm; exact Hwf).
  apply NoDup_app in Hnd as (_ & Hdis & _). exists ess. split; [done|]. split; [done|]. split.
  { intros h Hh. rewrite Hperm. apply elem_of_app. by left. }
  assert (forall i h o l, active m !! i = Some (h, o) -> lookups m !! o = Some l -> lk_hash l = h) as Hkey.
  { intros i h o l Hi Hl. assert (dict_get h (active m) = Some o) as Hg by (apply elem_of_dict_get; [done|by eapply list_elem_of_lookup_2]).
    destruct (i_current _ _ _ _ _ _ Hm h o Hg) as (l' & Hl' & Hh & _). rewrite Hl in Hl'. injection Hl' as <-. done. }
  intros i h o es l Hi Hes Hl. destruct (Hess i h o es l Hi Hes Hl) as (l' & Hl' & Hcase). exists l'. split; [done|].
  pose proof (Hkey i h o l Hi Hl) as Hh.
  assert (h ∈ (active m').*1 ++ finished_hashes (concat ess)) as Hin.
  { rewrite <-Hperm. apply list_elem_of_fmap. exists (h, o). split; [done|by eapply list_elem_of_lookup_2]. }
  destruct Hcase as [(Hf & Hgo & Hr)|(Hf & Hr & Hwhy)].
  - left. split; [|by split]. apply dict_has_get, dict_get_is_Some. apply elem_of_app in Hin as [?|Hin]; [done|exfalso].
    apply finished_hashes_concat in Hin as (j & es2 & Hj & Hin). rewrite finished_hashes_filter in Hin.
    assert (j < length (active m)) as Hjl by (rewrite <-Hlen; by eapply lookup_lt_Some).
    apply lookup_lt_is_Some_2 in Hjl as [[h2 o2] Hj2].
    assert (exists l2, lookups m !! o2 = Some l2) as [l2 Hl2].
    { destruct (active_objects m Hm) as [_ Hobj]. destruct (Hobj o2) as (l2 & ? & _); [|by exists l2].
      apply list_elem_of_fmap. exists (h2, o2). split; [done|by eapply list_elem_of_lookup_2]. }
    destruct (Hess j h2 o2 es2 l2 Hj2 Hj Hl2) as (_ & _ & [(_ & _ & Hr2)|(_ & Hr2 & _)]); rewrite Hr2 in Hin; [by apply elem_of_nil in Hin|].
    cbn in Hin. rewrite (Hkey j h2 o2 l2 Hj2 Hl2) in Hin. apply list_elem_of_singleton in Hin as <-.
    assert (i = j) as <-; [|rewrite Hes in Hj; injection Hj as <-; by rewrite Hr in Hr2].
    eapply (NoDup_lookup (active m).*1); [exact Hwf|by rewrite list_lookup_fmap, Hi|by rewrite list_lookup_fmap, Hj2].
  - right. rewrite Hh in Hr. split; [|by split]. apply dict_has_false, eq_None_not_Some. rewrite dict_get_is_Some.
    intros Hact. apply (Hdis h Hact). apply finished_hashes_concat. exists i, es. split; [done|]. rewrite finished_hashes_filter, Hr. left.
Qed.
End exact.
