(* ===== verification/DhtLookupTheorems.v ===== *)
(** What the lookup manager promises: calls never fail, its tables are exact and
    bounded, its queries keep to the rate, and its lookups end. *)
From S2P Require Import Prelude PyDict Bencode NodeIdentity AddressText Krpc DhtLookup DhtLookupSafety DhtLookupReports DhtLookupAges DhtLookupTicks.

(** A call of the manager. *)
Inductive lookup_call :=
  | Start_lookup (h : bytes) (seed_nodes : list node) (hint : option node)
  | Handle_response (t : bytes) (response : pyval) (addr : address)
  | Handle_error (t : bytes)
  | Tick
  | Abort_all.

Section theorems.
Context `{AddressText} (node_filter : node -> bool) (on_peers : bool) (lim : lookup_limits).

(** The call made when the clock reads [now]. *)
Definition run_lookup (now : Z) (k : lookup_call) : ST manager unit :=
  match k with
  | Start_lookup h seed_nodes hint => start_lookup node_filter lim h seed_nodes now hint ;; mret tt
  | Handle_response t response addr => handle_response node_filter on_peers lim t response addr now
  | Handle_error t => handle_error lim t now
  | Tick => tick lim now
  | Abort_all => abort_all
  end.

(** The most ids a call can use. *)
Definition ids_of (k : lookup_call) (m : manager) : Z :=
  match k with
  | Tick => alpha lim * Z.of_nat (length (active m))
  | Abort_all => 0
  | _ => alpha lim
  end.

(** What the crawler keeps to: hashes have 20 bytes, only owned transactions are
    reported, and no query is still pending when the 24-bit counter of the
    transaction ids comes round to its id. *)
Definition lookup_allowed (k : lookup_call) (m : manager) : Prop :=
  window (ids_of k m) m /\
  match k with
  | Start_lookup h _ _ => length h = NODE_ID_LENGTH
  | Handle_response t _ _ | Handle_error t => owns_transaction (PBytes t) m = true
  | _ => True
  end.

(** The managers reachable from one made at the time [t0] by calls up to the
    time [T]. *)
Inductive reachable_lookups (t0 T : Z) : manager -> Prop :=
  | reachable_lookups_new : (t0 <= T)%Z -> reachable_lookups t0 T (new_manager lim t0)
  | reachable_lookups_call m now k m' :
      reachable_lookups t0 T m -> lookup_allowed k m -> (0 <= now <= T)%Z ->
      run_lookup now k m = Ok (tt, m') -> reachable_lookups t0 T m'.

Abbreviation inv t0 T := (inv node_filter lim t0 T).

Lemma wp_run_lookup t0 T now k m :
  limits_ok lim -> inv t0 T m -> lookup_allowed k m -> (0 <= now <= T)%Z ->
  wp (run_lookup now k) (fun _ => inv t0 T) m.
Proof using.
  intros Hlim Hm [Hw Hk] Hnow. destruct k; cbn [run_lookup ids_of] in *.
  - apply wp_bind. eapply wp_mono; [by eapply wp_start_lookup|].
    intros b m' [Hm' _]. by apply wp_ret.
  - eapply wp_mono; [eapply wp_handle_response; [done|done| |done|done]|by intros [] m' []].
    by apply dict_has_get.
  - eapply wp_mono; [eapply wp_handle_error; [done|done| |done|done]|by intros [] m' []].
    by apply dict_has_get.
  - eapply wp_mono; [by eapply wp_tick|by intros [] m' []].
  - eapply wp_mono; [by eapply wp_abort_all|by intros [] m' []].
Qed.

Lemma reachable_lookups_inv t0 T m : limits_ok lim -> reachable_lookups t0 T m -> inv t0 T m.
Proof using.
  intros Hlim Hm. induction Hm as [|m now k m' Hm IH Hk Hnow Hrun]; [by apply inv_new_manager|].
  pose proof (wp_run_lookup t0 T now k m Hlim IH Hk Hnow) as Hwp. unfold wp in Hwp. by rewrite Hrun in Hwp.
Qed.

(** Until the counter of the transaction ids has come round once, every call is
    within the rule on ids. *)
Lemma window_first_round t0 T m n :
  limits_ok lim -> reachable_lookups t0 T m -> (sequence_number m + n <= 2 ^ 24)%Z -> window n m.
Proof using.
  intros Hlim Hm%reachable_lookups_inv Hn t h Ht; [|done].
  destruct (i_ids _ _ _ _ _ _ Hm) as [_ Hids]. destruct (Hids t h Ht) as (s & Hs & Hid).
  exists s. split; [done|]. split; [done|lia].
Qed.

(** C30. Every call of the lookup manager that keeps to the rules returns: no
    assertion fails, no key is missing, and the manager it leaves is again one
    on which every allowed call returns. *)
Theorem lookup_calls_succeed t0 T m now k :
  limits_ok lim -> reachable_lookups t0 T m -> lookup_allowed k m -> (0 <= now <= T)%Z ->
  exists m', run_lookup now k m = Ok (tt, m') /\ reachable_lookups t0 T m'.
Proof using.
  intros Hlim Hm Hk Hnow. pose proof (reachable_lookups_inv t0 T m Hlim Hm) as Hinv.
  pose proof (wp_run_lookup t0 T now k m Hlim Hinv Hk Hnow) as Hwp. unfold wp in Hwp.
  destruct (run_lookup now k m) as [[[] m']|] eqn:Hrun; [|done].
  exists m'. split; [done|]. by eapply reachable_lookups_call.
Qed.

(** C31. In a reachable manager the routing table of transactions is exactly the
    pending queries of the active lookups, the table of queries in flight counts
    exactly the pending queries to each address, no more than [max_active]
    lookups run, each with at most [alpha] queries pending and [max_queries]
    sent, and at most [max_per_node + alpha - 1] queries are in flight to one
    address ([max_per_node] of them with the default [alpha = 1]). *)
Theorem lookup_tables_exact t0 T m :
  limits_ok lim -> reachable_lookups t0 T m ->
  (forall t h, dict_get t (transactions m) = Some h <->
     exists o l, at_lookup m h o l /\ is_Some (dict_get t (pending l))) /\
  (forall a, default 0%Z (dict_get a (in_flight m)) = total_flights a m) /\
  (forall a n, dict_get a (in_flight m) = Some n -> (1 <= n <= max_per_node lim + alpha lim - 1)%Z) /\
  (Z.of_nat (length (active m)) <= max_active lim)%Z /\
  (forall h o l, at_lookup m h o l -> lk_hash l = h /\ finished l = false /\
     (Z.of_nat (length (pending l)) <= alpha lim)%Z /\
     (queries_sent l <= Z.max 1 (max_queries lim))%Z /\
     length (shortlist l) <= shortlist_size lim).
Proof using.
  intros Hlim Hm%reachable_lookups_inv; [|done]. split; [apply (i_owner _ _ _ _ _ _ Hm)|].
  split; [apply (i_flights _ _ _ _ _ _ Hm)|]. split; [|split; [apply (i_slots _ _ _ _ _ _ Hm)|]].
  - intros a n Hn%(i_per_node _ _ _ _ _ _ Hm). unfold flight_bound in Hn. lia.
  - intros h o l Hat. destruct (at_lookup_wf _ _ _ _ _ _ _ _ _ Hm Hat) as [Hh (_ & _ & _ & _ & ? & _ & ? & ? & _)].
    split; [done|]. split; [by eapply at_lookup_not_finished|]. split; [done|]. split; [lia|done].
Qed.

(** C32. The queries keep to the token bucket: up to the time [T] the manager
    has asked [send_query] for at most [queries_per_second] queries at once and
    [queries_per_second] more for each second since it was made, every one of
    them to a node that the filter accepts. *)
Theorem lookup_rate_limited t0 T m :
  limits_ok lim -> reachable_lookups t0 T m ->
  (TOKEN * count_events is_sent (events m) <=
     queries_per_second lim * TOKEN + queries_per_second lim * (T - t0))%Z /\
  (forall t n h, Query_sent t n h ∈ events m -> is_usable_node node_filter n = true).
Proof using.
  intros Hlim Hm%reachable_lookups_inv; [|done]. split.
  - destruct (i_totals _ _ _ _ _ _ Hm) as (_ & _ & <-). pose proof (i_rate _ _ _ _ _ _ Hm).
    pose proof (i_tokens _ _ _ _ _ _ Hm). pose proof (i_time _ _ _ _ _ _ Hm).
    assert (1 <= queries_per_second lim)%Z by apply Hlim. nia.
  - intros t n h Hin. pose proof (i_events _ _ _ _ _ _ Hm) as Hev. rewrite Forall_forall in Hev.
    by destruct (Hev _ Hin) as (_ & ? & _).
Qed.

(** C33. Lookups end and are reported once.  [tick] looks after the active lookups
    one after the other: a lookup whose deadline has come, that has found
    [enough_peers] peers or had [max_value_responses] answers with peers, or that has
    no query pending and none left to send, is reported once, under its hash and with
    exactly the peers it has found in address order, and is no longer active; any
    other lookup is not reported and stays active, still waiting for the node it was
    told of or for an answer, or with a query it may send.  A reported result
    lists distinct routable addresses, at most [max_peers]. *)
Theorem lookup_finishes t0 T m now :
  limits_ok lim -> reachable_lookups t0 T m -> lookup_allowed Tick m -> (0 <= now <= T)%Z ->
  exists m' ess, tick lim now m = Ok (tt, m') /\ events m' = events m ++ concat ess /\ length ess = length (active m) /\
    (forall h, h ∈ (active m').*1 -> h ∈ (active m).*1) /\
    (forall i h o es, active m !! i = Some (h, o) -> ess !! i = Some es ->
       exists l l', lookups m !! o = Some l /\ lookups m' !! o = Some l' /\
         if dict_has h (active m') then goes_on lim now l' /\ filter is_reported es = []
         else (must_finish lim l now = true \/ exhausted lim l') /\
           filter is_reported es = [Lookup_finished h (sort_by address_leb (found_peers l))]) /\
    (forall h o l, at_lookup m' h o l -> (now < lk_deadline l)%Z /\
       (Z.of_nat (length (found_peers l)) < enough_peers lim)%Z /\
       (value_responses l < max_value_responses lim)%Z) /\
    (forall h found, Lookup_finished h found ∈ events m' -> NoDup found /\ Forall routable found /\
       (Z.of_nat (length found) <= Z.max 0 (max_peers lim))%Z).
Proof using.
  intros Hlim Hm [Hw _] Hnow. apply reachable_lookups_inv in Hm; [|done]. destruct (active_objects _ _ _ _ m Hm) as [Hnd Hobj].
  pose proof (wp_tick node_filter lim t0 T Hlim m now Hm Hnow Hw) as Hwp. unfold wp in Hwp.
  pose proof (tick_ticks lim now m Hnd Hobj) as Hticks. unfold wlp in Hticks.
  pose proof (frames_tick lim now m) as Hrep. unfold wlp in Hrep.
  destruct (tick lim now m) as [[[] m']|]; [|done]. destruct Hwp as (Hm' & _ & Hall).
  destruct (tick_exact _ _ _ _ now m m' Hm Hm' Hrep Hticks) as (ess & Hev & Hlen & Hsub & Hess).
  exists m', ess. split; [done|]. split; [done|]. split; [done|]. split; [done|]. split; [|split].
  - intros i h o es Hi Hes. destruct (Hobj o) as (l & Hl & _).
    { apply list_elem_of_fmap. exists (h, o). split; [done|by eapply list_elem_of_lookup_2]. }
    destruct (Hess i h o es l Hi Hes Hl) as (l' & Hl' & [(Ha & Hgo & Hr)|(Ha & Hwhy & Hr)]); exists l, l'; by rewrite Ha.
  - intros h o l Hat. specialize (Hall h o l Hat). unfold must_finish in Hall.
    rewrite !orb_false_iff, !Z.leb_gt in Hall. tauto.
  - intros h found Hin. pose proof (i_events _ _ _ _ _ _ Hm') as Hok. rewrite Forall_forall in Hok.
    exact (proj2 (Hok _ Hin)).
Qed.

(** A response is credited only to the address that was asked: one from any
    other address leaves the manager as it was. *)
Theorem stranger_response_ignored t0 T m t response addr now h o l :
  limits_ok lim -> reachable_lookups t0 T m -> dict_get t (transactions m) = Some h ->
  at_lookup m h o l -> fst <$> dict_get t (pending l) <> Some addr ->
  handle_response node_filter on_peers lim t response addr now m = Ok (tt, m).
Proof using.
  intros Hlim Hm%reachable_lookups_inv Ht Hat Hne; [|done]. by eapply handle_response_stranger.
Qed.
End theorems.

(** ** Examples *)

#[local] Existing Instance plain_address_text.

Definition example_hash : bytes := replicate 20 Byte.x42.
Definition example_node : node := Node (replicate 20 Byte.x43) (bs "8.8.8.8") 6881.
Definition example_manager : manager := new_manager DEFAULT_LOOKUP_LIMITS 0.
Definition with_lookup : manager :=
  match run_lookup accept_every_node true DEFAULT_LOOKUP_LIMITS 0
          (Start_lookup example_hash [example_node] None) example_manager with
  | Ok (_, m) => m
  | Raise _ => example_manager
  end.

Lemma default_lookup_limits_ok : limits_ok DEFAULT_LOOKUP_LIMITS.
Proof. repeat split; vm_compute; discriminate. Qed.

Lemma example_manager_reachable :
  reachable_lookups accept_every_node true DEFAULT_LOOKUP_LIMITS 0 5000000 example_manager.
Proof. apply reachable_lookups_new. lia. Qed.

Lemma with_lookup_reachable :
  reachable_lookups accept_every_node true DEFAULT_LOOKUP_LIMITS 0 5000000 with_lookup.
Proof.
  eapply (reachable_lookups_call _ _ _ _ _ example_manager 0 (Start_lookup example_hash [example_node] None)).
  - apply example_manager_reachable.
  - split; [|done]. eapply window_first_round;
      [apply default_lookup_limits_ok|apply example_manager_reachable|vm_compute; discriminate].
  - lia.
  - vm_compute. reflexivity.
Qed.

Lemma with_lookup_window n : (n <= 1000)%Z -> window n with_lookup.
Proof.
  intros Hn. eapply window_first_round; [apply default_lookup_limits_ok|apply with_lookup_reachable|].
  change (sequence_number with_lookup) with 1%Z. lia.
Qed.

Lemma lookup_calls_succeed_witness :
  exists m', run_lookup accept_every_node true DEFAULT_LOOKUP_LIMITS 1000 (Handle_error [Byte.x4c; Byte.x00; Byte.x00; Byte.x00]) with_lookup = Ok (tt, m') /\
    reachable_lookups accept_every_node true DEFAULT_LOOKUP_LIMITS 0 5000000 m'.
Proof.
  refine (lookup_calls_succeed accept_every_node true DEFAULT_LOOKUP_LIMITS 0 5000000 with_lookup 1000 _
    default_lookup_limits_ok with_lookup_reachable _ _); [|lia].
  split; [apply with_lookup_window; vm_compute; discriminate|vm_compute; reflexivity].
Defined.

Lemma lookup_tables_exact_witness :
  default 0%Z (dict_get (node_address example_node) (in_flight with_lookup)) =
    total_flights (node_address example_node) with_lookup /\
  in_flight with_lookup = [(node_address example_node, 1%Z)].
Proof.
  destruct (lookup_tables_exact accept_every_node true DEFAULT_LOOKUP_LIMITS 0 5000000 with_lookup
    default_lookup_limits_ok with_lookup_reachable) as (_ & Hf & _).
  split; [apply Hf|vm_compute; reflexivity].
Defined.

Lemma lookup_rate_limited_witness :
  count_events is_sent (events with_lookup) = 1%Z /\
  (TOKEN * count_events is_sent (events with_lookup) <= 420 * TOKEN + 420 * (5000000 - 0))%Z.
Proof.
  split; [vm_compute; reflexivity|].
  apply (lookup_rate_limited accept_every_node true DEFAULT_LOOKUP_LIMITS 0 5000000 with_lookup
    default_lookup_limits_ok with_lookup_reachable).
Defined.

Lemma lookup_finishes_witness :
  exists m' es, tick DEFAULT_LOOKUP_LIMITS 5000000 with_lookup = Ok (tt, m') /\ dict_has example_hash (active m') = false /\
    filter is_reported es = [Lookup_finished example_hash []] /\ events m' = events with_lookup ++ es.
Proof.
  destruct (lookup_finishes accept_every_node true DEFAULT_LOOKUP_LIMITS 0 5000000 with_lookup 5000000
    default_lookup_limits_ok with_lookup_reachable) as (m' & ess & Hrun & Hev & Hlen & _ & Heach & _).
  - split; [apply with_lookup_window; vm_compute; discriminate|done].
  - lia.
  - destruct ess as [|es [|]]; [done| |done]. exists m', es. split; [done|].
    assert (dict_has example_hash (active m') = false) as Hgone.
    { apply (f_equal (fun r => match r with Ok (_, m) => dict_has example_hash (active m) | Raise _ => true end)) in Hrun.
      etransitivity; [symmetry; exact Hrun|]. vm_compute. reflexivity. }
    destruct (Heach 0 example_hash 0 es eq_refl eq_refl) as (l & l' & Hl & _ & Hcase). rewrite Hgone in Hcase. destruct Hcase as [_ Hr].
    split; [done|]. split; [|by rewrite Hev; change (concat [es]) with (es ++ []); rewrite app_nil_r]. rewrite Hr. vm_compute in Hl. injection Hl as <-. vm_compute. reflexivity.
Defined.

Lemma stranger_response_ignored_witness :
  handle_response accept_every_node true DEFAULT_LOOKUP_LIMITS [Byte.x4c; Byte.x00; Byte.x00; Byte.x00]
    (PDict []) (bs "9.9.9.9", 6881%Z) 1000 with_lookup = Ok (tt, with_lookup).
Proof.
  refine (stranger_response_ignored accept_every_node true DEFAULT_LOOKUP_LIMITS 0 5000000 with_lookup _ _ _ _
    example_hash 0 (default (new_lookup [] 0) (lookups with_lookup !! 0)) default_lookup_limits_ok
    with_lookup_reachable _ _ _); [vm_compute; reflexivity|split; vm_compute; reflexivity|vm_compute; discriminate].
Defined.
