(* ===== verification/PeerWire.v ===== *)
(** Peer wire messages ([peer_wire_messages.py]): the BEP 3 handshake, length
    prefixed frames, BEP 10 extended messages, BEP 9 metadata requests and the
    arithmetic of metadata pieces.  [depth] is the recursion limit left to the
    bencode decoder. *)
From S2P Require Import Prelude PyDict Bencode NodeIdentity Krpc.

Definition HANDSHAKE_LENGTH : nat := 68.
Definition PROTOCOL_NAME : bytes := bs "BitTorrent protocol".
Definition RESERVED_LENGTH : nat := 8.
Definition EXTENSION_RESERVED_INDEX : nat := 5.
Definition EXTENSION_BIT : Z := 0x10.
Definition FRAME_HEADER_LENGTH : nat := 4.
Definition MESSAGE_EXTENDED : Z := 20.
Definition MESSAGE_PIECE : Z := 7.
Definition EXTENDED_HANDSHAKE_ID : Z := 0.
Definition UT_METADATA_LOCAL_ID : Z := 1.
Definition METADATA_PIECE_SIZE : Z := 16384.
Definition MAX_METADATA_SIZE : Z := 4 * 1024 * 1024.
Definition MAX_FRAME_LENGTH : Z := 1024 * 1024.
Definition MSG_TYPE_REQUEST : Z := 0.
Definition MSG_TYPE_DATA : Z := 1.
Definition MSG_TYPE_REJECT : Z := 2.
Definition CLIENT_VERSION : bytes := bs "dht_scraper 2.0".
Definition KEEP_ALIVE_ID : Z := -1.

(** [data\[i\]] of a byte string, as an integer; callers know the length. *)
Definition byte_value (data : bytes) (i : nat) : Z := b2z (nth i data Byte.x00).

(** ** Operations *)

Definition encode_handshake (info_hash peer_id : bytes) : res bytes :=
  assert_ (is_node_id info_hash && is_node_id peer_id) ;;
  let reserved := repeat Byte.x00 RESERVED_LENGTH in
  let reserved := <[EXTENSION_RESERVED_INDEX :=
    z2b (Z.lor (byte_value reserved EXTENSION_RESERVED_INDEX) EXTENSION_BIT)]> reserved in
  let result := [z2b (Z.of_nat (length PROTOCOL_NAME))] ++ PROTOCOL_NAME ++ reserved
                ++ info_hash ++ peer_id in
  assert_ (bool_decide (length result = HANDSHAKE_LENGTH) &&
           bool_decide (slice result 28 48 = info_hash)) ;;
  mret result.

Definition decode_handshake (data : bytes) : res (bytes * bytes * bool) :=
  raise_if (negb (bool_decide (length data = HANDSHAKE_LENGTH))
            || negb (byte_value data 0 =? Z.of_nat (length PROTOCOL_NAME))%Z
            || negb (bool_decide (slice data 1 20 = PROTOCOL_NAME))) (ValueError "bad_handshake") ;;
  let supports_extensions :=
    negb (Z.land (byte_value data (20 + EXTENSION_RESERVED_INDEX)) EXTENSION_BIT =? 0)%Z in
  let info_hash := slice data 28 48 in
  let peer_id := slice data 48 68 in
  assert_ (is_node_id info_hash && is_node_id peer_id) ;;
  mret (info_hash, peer_id, supports_extensions).

(** [struct.pack("!I", n)] *)
Definition pack_u32 (n : Z) : res bytes :=
  raise_if (negb ((0 <=? n) && (n <? 2 ^ 32)))%Z StructError ;; mret (be_encode 4 n).

Definition encode_frame (message_id : Z) (payload : bytes) : res bytes :=
  assert_ ((0 <=? message_id) && (message_id <=? 255))%Z ;;
  header ← pack_u32 (1 + Z.of_nat (length payload));
  let result := header ++ [z2b message_id] ++ payload in
  assert_ (bool_decide (length result = FRAME_HEADER_LENGTH + 1 + length payload)) ;;
  mret result.

Definition decode_frame_length (header : bytes) : res Z :=
  assert_ (bool_decide (length header = FRAME_HEADER_LENGTH)) ;;
  let result := be_decode header in
  assert_ (0 <=? result)%Z ;;
  mret result.

Definition encode_extended_message (extension_id : Z) (payload : list (pykey * pyval))
    (trailing : bytes) : res bytes :=
  assert_ ((0 <=? extension_id) && (extension_id <=? 255))%Z ;;
  body ← encode_bencode (PDict payload);
  result ← encode_frame MESSAGE_EXTENDED ([z2b extension_id] ++ body ++ trailing);
  assert_ ((byte_value result 4 =? MESSAGE_EXTENDED) && (byte_value result 5 =? extension_id))%Z ;;
  mret result.

Definition decode_extended_message (depth : nat) (body : bytes)
    : res (Z * list (pykey * pyval) * bytes) :=
  raise_if (bool_decide (length body < 2)) (ValueError "bad_extended_message") ;;
  let extension_id := byte_value body 0 in
  '(payload, next_index) ← decode_value_at depth body 1;
  match payload with
  | PDict payload =>
      let trailing := drop next_index body in
      assert_ ((0 <=? extension_id) && (extension_id <=? 255))%Z ;;
      mret (extension_id, payload, trailing)
  | _ => Raise (ValueError "bad_extended_message")
  end.

Definition encode_extended_handshake : res bytes :=
  assert_ (0 <? UT_METADATA_LOCAL_ID)%Z ;;
  result ← encode_extended_message EXTENDED_HANDSHAKE_ID
    (literal [(bs "m", PDict (literal [(bs "ut_metadata", PInt UT_METADATA_LOCAL_ID)]));
              (bs "v", PBytes CLIENT_VERSION)]) [];
  assert_ (byte_value result 5 =? EXTENDED_HANDSHAKE_ID)%Z ;;
  mret result.

Definition read_extended_handshake (payload : list (pykey * pyval)) : res (Z * Z) :=
  let their_id := match py_get payload (bs "m") with
                  | Some (PDict extensions) => py_get extensions (bs "ut_metadata")
                  | _ => None
                  end in
  match their_id with
  | Some (PInt their_id) =>
      raise_if (negb ((1 <=? their_id) && (their_id <=? 255)))%Z (ValueError "no_ut_metadata") ;;
      match py_get payload (bs "metadata_size") with
      | Some (PInt metadata_size) =>
          raise_if (metadata_size <=? 0)%Z (ValueError "no_ut_metadata") ;;
          raise_if (MAX_METADATA_SIZE <? metadata_size)%Z (ValueError "too_large") ;;
          assert_ ((1 <=? their_id) && (their_id <=? 255) &&
                   (0 <? metadata_size) && (metadata_size <=? MAX_METADATA_SIZE))%Z ;;
          mret (their_id, metadata_size)
      | _ => Raise (ValueError "no_ut_metadata")
      end
  | _ => Raise (ValueError "no_ut_metadata")
  end.

Definition encode_metadata_request (their_id piece : Z) : res bytes :=
  assert_ ((1 <=? their_id) && (their_id <=? 255) && (0 <=? piece))%Z ;;
  result ← encode_extended_message their_id
    (literal [(bs "msg_type", PInt MSG_TYPE_REQUEST); (bs "piece", PInt piece)]) [];
  assert_ (byte_value result 5 =? their_id)%Z ;;
  mret result.

(** [payload.get(b"total_size")] is absent, [None] or a non-negative integer. *)
Definition decode_metadata_message (payload : list (pykey * pyval)) : res (Z * Z * option Z) :=
  match py_get payload (bs "msg_type"), py_get payload (bs "piece") with
  | Some (PInt msg_type), Some (PInt piece) =>
      raise_if ((msg_type <? 0) || (piece <? 0))%Z (ValueError "bad_piece") ;;
      total_size ← match py_get payload (bs "total_size") with
        | None | Some PNone => mret None
        | Some (PInt total_size) =>
            raise_if (total_size <? 0)%Z (ValueError "bad_piece") ;; mret (Some total_size)
        | Some _ => Raise (ValueError "bad_piece")
        end;
      assert_ ((0 <=? msg_type) && (0 <=? piece))%Z ;;
      mret (msg_type, piece, total_size)
  | _, _ => Raise (ValueError "bad_piece")
  end.

Definition piece_count (metadata_size : Z) : res Z :=
  assert_ (0 <? metadata_size)%Z ;;
  let result := ((metadata_size + METADATA_PIECE_SIZE - 1) / METADATA_PIECE_SIZE)%Z in
  assert_ ((1 <=? result) && ((result - 1) * METADATA_PIECE_SIZE <? metadata_size)
           && (metadata_size <=? result * METADATA_PIECE_SIZE))%Z ;;
  mret result.

Definition expected_piece_length (metadata_size piece : Z) : res Z :=
  assert_ (0 <? metadata_size)%Z ;;
  count ← piece_count metadata_size;
  assert_ ((0 <=? piece) && (piece <? count))%Z ;;
  let result := Z.min METADATA_PIECE_SIZE (metadata_size - piece * METADATA_PIECE_SIZE) in
  assert_ ((0 <? result) && (result <=? METADATA_PIECE_SIZE))%Z ;;
  mret result.

(** ** Lemmas *)

Lemma byte_value_range data i : (0 <= byte_value data i < 256)%Z.
Proof. apply b2z_range. Qed.

Lemma byte_value_app_r x y i : length x <= i -> byte_value (x ++ y) i = byte_value y (i - length x).
Proof. intros. unfold byte_value. by rewrite app_nth2. Qed.

Lemma decode_handshake_returns data :
  returns (decode_handshake data)
    (fun '(h, p, _) => length h = NODE_ID_LENGTH /\ length p = NODE_ID_LENGTH)
    (eq (ValueError "bad_handshake")).
Proof.
  unfold decode_handshake, raise_if. destruct (_ || _) eqn:Hc; [done|].
  rewrite !orb_false_iff, negb_false_iff, bool_decide_eq_true in Hc. destruct Hc as [[Hl _] _].
  assert (length (slice data 28 48) = NODE_ID_LENGTH) as H1 by by rewrite length_slice, Hl.
  assert (length (slice data 48 68) = NODE_ID_LENGTH) as H2 by by rewrite length_slice, Hl.
  cbn [mbind res_bind]. by rewrite !is_node_id_of.
Qed.

Lemma encode_frame_eq message_id payload :
  (0 <= message_id <= 255)%Z -> (1 + Z.of_nat (length payload) < 2 ^ 32)%Z ->
  encode_frame message_id payload =
    Ok (be_encode 4 (1 + Z.of_nat (length payload)) ++ [z2b message_id] ++ payload).
Proof.
  intros Hm Hp. unfold encode_frame, pack_u32. by bools.
Qed.

Lemma encode_frame_Ok message_id payload frame :
  encode_frame message_id payload = Ok frame ->
  (0 <= message_id <= 255)%Z /\ (1 + Z.of_nat (length payload) < 2 ^ 32)%Z /\
  frame = be_encode 4 (1 + Z.of_nat (length payload)) ++ [z2b message_id] ++ payload.
Proof.
  intros Hf. assert (0 <= message_id <= 255 /\ 1 + Z.of_nat (length payload) < 2 ^ 32)%Z as [Hm Hl].
  { unfold encode_frame, pack_u32 in Hf. apply bind_Ok in Hf as (u & Hu%assert_Ok & Hf).
    apply bind_Ok in Hf as (h & (u' & Hu'%raise_if_Ok & _)%bind_Ok & _). lia. }
  split; [done|]. split; [done|]. rewrite encode_frame_eq in Hf by done. by injection Hf as <-.
Qed.

Lemma piece_count_eq metadata_size :
  (0 < metadata_size)%Z ->
  exists count, piece_count metadata_size = Ok count /\ (1 <= count)%Z /\
    ((count - 1) * METADATA_PIECE_SIZE < metadata_size <= count * METADATA_PIECE_SIZE)%Z.
Proof.
  intros Hm. unfold piece_count. set (count := ((_ + _ - 1) / _)%Z).
  assert (1 <= count /\ (count - 1) * METADATA_PIECE_SIZE < metadata_size <= count * METADATA_PIECE_SIZE)%Z
    as (H1 & H2) by (unfold count, METADATA_PIECE_SIZE; lia_div).
  exists count. split; [by bools|done].
Qed.

Lemma expected_piece_length_eq metadata_size piece count :
  piece_count metadata_size = Ok count -> (0 < metadata_size)%Z -> (0 <= piece < count)%Z ->
  expected_piece_length metadata_size piece =
    Ok (Z.min METADATA_PIECE_SIZE (metadata_size - piece * METADATA_PIECE_SIZE)).
Proof.
  intros Hc Hm Hp. destruct (piece_count_eq metadata_size Hm) as (c & Hc' & H1 & H2).
  rewrite Hc in Hc'. injection Hc' as <-.
  unfold expected_piece_length. rewrite Hc. unfold METADATA_PIECE_SIZE in *. bools. done.
Qed.

(** The sum of a function over the pieces [0 .. n-1]. *)
Definition sum_pieces (f : Z -> Z) (n : nat) : Z :=
  foldr Z.add 0%Z ((fun i => f (Z.of_nat i)) <$> seq 0 n).

Lemma sum_pieces_S f n : sum_pieces f (S n) = (sum_pieces f n + f (Z.of_nat n))%Z.
Proof.
  unfold sum_pieces. rewrite seq_S, fmap_app. cbn.
  induction ((fun i => f (Z.of_nat i)) <$> seq 0 n) as [|x l IH]; simpl; lia.
Qed.

Lemma sum_pieces_min n size :
  (0 <= size)%Z -> ((Z.of_nat n - 1) * METADATA_PIECE_SIZE < size)%Z ->
  sum_pieces (fun p => Z.min METADATA_PIECE_SIZE (size - p * METADATA_PIECE_SIZE)) n =
    Z.min size (Z.of_nat n * METADATA_PIECE_SIZE).
Proof.
  unfold METADATA_PIECE_SIZE. intros Hs. induction n as [|n IH]; intros Hn; [unfold sum_pieces; simpl; lia|].
  rewrite sum_pieces_S, IH by lia. lia.
Qed.

Lemma decode_handshake_encoded info_hash peer_id :
  length info_hash = NODE_ID_LENGTH -> length peer_id = NODE_ID_LENGTH ->
  let data := z2b 19 :: PROTOCOL_NAME ++
    [Byte.x00; Byte.x00; Byte.x00; Byte.x00; Byte.x00; Byte.x10; Byte.x00; Byte.x00]
    ++ info_hash ++ peer_id in
  encode_handshake info_hash peer_id = Ok data /\
  decode_handshake data = Ok (info_hash, peer_id, true).
Proof.
  intros Hh Hp data.
  assert (length data = HANDSHAKE_LENGTH) as Hlen.
  { unfold data. cbn [length]. by rewrite !length_app, Hh, Hp. }
  assert (slice data 28 48 = info_hash) as H1
    by (apply (slice_app_middle' (take 28 data) info_hash peer_id); by rewrite ?Hh).
  assert (slice data 48 68 = peer_id) as H2.
  { rewrite <-(app_nil_r data).
    change (data ++ []) with ((z2b 19 :: PROTOCOL_NAME ++
      [Byte.x00; Byte.x00; Byte.x00; Byte.x00; Byte.x00; Byte.x10; Byte.x00; Byte.x00])
      ++ (info_hash ++ peer_id) ++ []).
    rewrite <-app_assoc, app_assoc. apply slice_app_middle'; rewrite !length_app, Hh, ?Hp; done. }
  split.
  - unfold encode_handshake. rewrite !is_node_id_of by done. cbn [andb assert_ mbind res_bind].
    change ([_] ++ PROTOCOL_NAME ++ _ ++ info_hash ++ peer_id) with data. rewrite Hlen, H1. by bools.
  - unfold decode_handshake. rewrite Hlen, H1, H2.
    replace (slice data 1 20) with PROTOCOL_NAME by done.
    rewrite !is_node_id_of by done. reflexivity.
Qed.

(** ** Properties *)

(** A handshake decodes to the info hash and peer id it was built from,
    and announces the extension protocol. *)
Theorem decode_encode_handshake info_hash peer_id :
  length info_hash = NODE_ID_LENGTH -> length peer_id = NODE_ID_LENGTH ->
  exists data, encode_handshake info_hash peer_id = Ok data /\
    length data = HANDSHAKE_LENGTH /\ decode_handshake data = Ok (info_hash, peer_id, true).
Proof.
  intros Hh Hp. destruct (decode_handshake_encoded info_hash peer_id Hh Hp) as [He Hd].
  eexists. split; [exact He|]. split; [|exact Hd]. cbn [length]. by rewrite !length_app, Hh, Hp.
Qed.

Lemma decode_encode_handshake_witness :
  exists data, encode_handshake (repeat Byte.x07 20) (repeat Byte.x08 20) = Ok data /\
    length data = HANDSHAKE_LENGTH /\
    decode_handshake data = Ok (repeat Byte.x07 20, repeat Byte.x08 20, true).
Proof. apply decode_encode_handshake; reflexivity. Defined.

(** An extended message is one frame: its header announces the length of
    the rest, which is the extended message id and a body that decodes to the
    extension id, the canonical form of the dictionary, and the trailing bytes
    exactly as they were given, even when they look like bencode. *)
Theorem decode_encode_extended_message depth extension_id payload trailing frame :
  encode_extended_message extension_id payload trailing = Ok frame ->
  nesting (PDict payload) <= depth ->
  exists header body d,
    frame = header ++ [z2b MESSAGE_EXTENDED] ++ body /\
    decode_frame_length header = Ok (1 + Z.of_nat (length body))%Z /\
    canonical (PDict payload) = PDict d /\
    decode_extended_message depth body = Ok (extension_id, d, trailing).
Proof.
  unfold encode_extended_message. intros Hf Hdepth.
  apply bind_Ok in Hf as (u & Hid%assert_Ok & Hf). apply bind_Ok in Hf as (body & Hb & Hf).
  apply bind_Ok in Hf as (f' & (_ & Hlen & ->)%encode_frame_Ok & (u' & _ & [= <-])%bind_Ok).
  destruct (canonical (PDict payload)) as [| | | | | |d|] eqn:Hc; try done.
  exists (be_encode 4 (1 + Z.of_nat (S (length (body ++ trailing))))),
    (z2b extension_id :: body ++ trailing), d.
  split; [done|]. split; [|split; [done|]]; cbn [length app] in Hlen |- *.
  - unfold decode_frame_length. rewrite length_be_encode, be_decode_encode_small by lia. by bools.
  - pose proof (encode_decodes _ _ _ Hb Hdepth [z2b extension_id] trailing) as Hd. rewrite Hc in Hd.
    assert (2 <= length body).
    { cbn [encode_bencode] in Hb. apply bind_Ok in Hb as (r & _ & (? & Hl%assert_Ok%bool_decide_eq_true & [= ->])%bind_Ok).
      done. }
    unfold decode_extended_message. cbn [app length] in Hd |- *.
    rewrite (bool_decide_eq_false_2 (_ < 2)) by (rewrite ?length_app; lia). cbn [raise_if mbind res_bind].
    rewrite Hd. cbn [mbind res_bind]. unfold byte_value. cbn [nth]. rewrite b2z_z2b, Z.mod_small by lia.
    rewrite Hid. cbn [assert_ mbind res_bind]. do 3 f_equal.
    by apply (drop_app_length (z2b extension_id :: body)).
Qed.

Lemma decode_encode_extended_message_witness :
  let payload := literal [(bs "piece", PInt 0); (bs "msg_type", PInt 1)] in
  exists frame, encode_extended_message 1 payload (bs "d1:ae") = Ok frame /\
  exists header body d,
    frame = header ++ [z2b MESSAGE_EXTENDED] ++ body /\
    decode_frame_length header = Ok (1 + Z.of_nat (length body))%Z /\
    canonical (PDict payload) = PDict d /\
    decode_extended_message 2 body = Ok (1%Z, d, bs "d1:ae").
Proof.
  intros payload.
  destruct (encode_extended_message 1 payload (bs "d1:ae")) as [frame|] eqn:He; [|vm_compute in He; done].
  exists frame. split; [done|].
  apply (decode_encode_extended_message 2 1 payload (bs "d1:ae") frame He). vm_compute. lia.
Defined.

(** The pieces of a metadata size partition it: every piece up to the
    count has an expected length between 1 and 16384, only the last may be
    shorter than 16384, and the lengths add up to the size. *)
Theorem pieces_partition metadata_size :
  (0 < metadata_size)%Z ->
  exists count, piece_count metadata_size = Ok (Z.of_nat count) /\
    (forall i, i < count ->
       exists l, expected_piece_length metadata_size (Z.of_nat i) = Ok l /\
         (0 < l <= METADATA_PIECE_SIZE)%Z /\
         (S i < count -> l = METADATA_PIECE_SIZE)) /\
    sum_pieces (fun i => match expected_piece_length metadata_size i with
                         | Ok l => l | Raise _ => 0%Z end) count = metadata_size.
Proof.
  intros Hm. destruct (piece_count_eq metadata_size Hm) as (count & Hc & H1 & H2).
  exists (Z.to_nat count). rewrite Z2Nat.id by lia. split; [done|]. split.
  - intros i Hi. rewrite (expected_piece_length_eq _ _ count) by (done || lia).
    eexists. split; [done|]. unfold METADATA_PIECE_SIZE in *. lia.
  - transitivity (sum_pieces (fun p =>
      Z.min METADATA_PIECE_SIZE (metadata_size - p * METADATA_PIECE_SIZE)) (Z.to_nat count)).
    + unfold sum_pieces. f_equal. apply list_fmap_ext. intros k i Hi%lookup_seq.
      rewrite (expected_piece_length_eq _ _ count) by (done || lia). done.
    + rewrite sum_pieces_min by lia. lia.
Qed.

Lemma pieces_partition_witness :
  exists count, piece_count 40000 = Ok (Z.of_nat count) /\
    (forall i, i < count ->
       exists l, expected_piece_length 40000 (Z.of_nat i) = Ok l /\
         (0 < l <= METADATA_PIECE_SIZE)%Z /\ (S i < count -> l = METADATA_PIECE_SIZE)) /\
    sum_pieces (fun i => match expected_piece_length 40000 i with
                         | Ok l => l | Raise _ => 0%Z end) count = 40000%Z.
Proof. apply (pieces_partition 40000). lia. Defined.
