(* ===== verification/TorrentInfo.v ===== *)
(** Torrent metadata ([torrent_info_summary.py]): the small record kept of a
    verified info dictionary.  [str.lower] is the only text function of the
    interpreter left abstract (class [LowerCase]); UTF-8 decoding with
    replacement is modelled. *)
From S2P Require Import Prelude PyDict Bencode NodeIdentity Krpc.

Definition MAX_LISTED_FILES : nat := 200.

(** ** Text *)

(** [str.lower]: lowering twice changes nothing, and a line feed, being neither
    cased nor case-ignorable, separates independent texts. *)
Definition newline : list Z := [10%Z].

Class LowerCase := {
  lower : list Z -> list Z;
  lower_idempotent s : lower (lower s) = lower s;
  lower_lines s t : lower (s ++ newline ++ t) = lower s ++ newline ++ lower t
}.

(** An instance: the ASCII letters. *)
Definition ascii_lower_char (c : Z) : Z :=
  if ((65 <=? c) && (c <=? 90))%Z then (c + 32)%Z else c.
#[local, refine] Instance ascii_lower : LowerCase := { lower := fmap ascii_lower_char }.
Proof.
  + intros s. rewrite <-list_fmap_compose. apply list_fmap_ext. intros _ c _.
    unfold compose, ascii_lower_char. destruct ((65 <=? c) && (c <=? 90))%Z eqn:Hc.
    - destruct ((65 <=? c + 32) && (c + 32 <=? 90))%Z eqn:Hc'; [lia|done].
    - by rewrite Hc.
  + intros s t. by rewrite !fmap_app.
Defined.

(** [bytes.decode("utf-8", errors="replace")]: every maximal valid prefix of an
    ill-formed sequence becomes one U+FFFD. *)
Definition replacement : Z := 0xFFFD.
Definition in_range (b : byte) (lo hi : Z) : bool := ((lo <=? b2z b) && (b2z b <=? hi))%Z.
Definition continuation (b : byte) : bool := in_range b 0x80 0xBF.
Definition low6 (b : byte) : Z := (b2z b mod 64)%Z.

(** The range of the second byte after a lead byte of three or four bytes. *)
Definition second_of_three (b0 b1 : byte) : bool :=
  if (b2z b0 =? 0xE0)%Z then in_range b1 0xA0 0xBF
  else if (b2z b0 =? 0xED)%Z then in_range b1 0x80 0x9F
  else continuation b1.
Definition second_of_four (b0 b1 : byte) : bool :=
  if (b2z b0 =? 0xF0)%Z then in_range b1 0x90 0xBF
  else if (b2z b0 =? 0xF4)%Z then in_range b1 0x80 0x8F
  else continuation b1.

Fixpoint utf8_decode_replace (l : bytes) : list Z :=
  match l with
  | [] => []
  | b0 :: l1 =>
      if (b2z b0 <? 0x80)%Z then b2z b0 :: utf8_decode_replace l1
      else if in_range b0 0xC2 0xDF then
        match l1 with
        | b1 :: l2 => if continuation b1
                      then (b2z b0 mod 32 * 64 + low6 b1)%Z :: utf8_decode_replace l2
                      else replacement :: utf8_decode_replace l1
        | [] => [replacement]
        end
      else if in_range b0 0xE0 0xEF then
        match l1 with
        | b1 :: l2 =>
            if second_of_three b0 b1 then
              match l2 with
              | b2 :: l3 => if continuation b2
                  then (b2z b0 mod 16 * 4096 + low6 b1 * 64 + low6 b2)%Z :: utf8_decode_replace l3
                  else replacement :: utf8_decode_replace l2
              | [] => [replacement]
              end
            else replacement :: utf8_decode_replace l1
        | [] => [replacement]
        end
      else if in_range b0 0xF0 0xF4 then
        match l1 with
        | b1 :: l2 =>
            if second_of_four b0 b1 then
              match l2 with
              | b2 :: l3 =>
                  if continuation b2 then
                    match l3 with
                    | b3 :: l4 => if continuation b3
                        then (b2z b0 mod 8 * 262144 + low6 b1 * 4096 + low6 b2 * 64 + low6 b3)%Z
                               :: utf8_decode_replace l4
                        else replacement :: utf8_decode_replace l3
                    | [] => [replacement]
                    end
                  else replacement :: utf8_decode_replace l2
              | [] => [replacement]
              end
            else replacement :: utf8_decode_replace l1
        | [] => [replacement]
        end
      else replacement :: utf8_decode_replace l1
  end.

(** ** Data *)

Record torrent_file := TorrentFile { file_path : list Z; file_length : Z }.

Record torrent_metadata := TorrentMetadata {
  md_info_hash : bytes; md_name : list Z; md_total_size : Z; md_piece_length : Z;
  md_file_count : Z; md_files : list torrent_file; md_is_private : bool;
  md_fetched_at : Z; md_source_peer : option address; md_search_text : list Z }.

#[global] Instance torrent_file_eq_dec : EqDecision torrent_file.
Proof. solve_decision. Defined.
#[global] Instance address_eq_dec : EqDecision address.
Proof. unfold address. solve_decision. Defined.
#[global] Instance torrent_metadata_eq_dec : EqDecision torrent_metadata.
Proof. solve_decision. Defined.

(** [sub in text] *)
Fixpoint is_prefix (sub s : list Z) : bool :=
  match sub, s with
  | [], _ => true
  | c :: sub', d :: s' => (c =? d)%Z && is_prefix sub' s'
  | _ :: _, [] => false
  end.
Fixpoint contains_text (sub s : list Z) : bool :=
  is_prefix sub s || match s with [] => false | _ :: s' => contains_text sub s' end.

(** [separator.join(parts)] *)
Fixpoint join_text (separator : list Z) (parts : list (list Z)) : list Z :=
  match parts with
  | [] => []
  | [part] => part
  | part :: parts' => part ++ separator ++ join_text separator parts'
  end.

(** The truth value of a Python value. *)
Definition truthy (v : pyval) : bool :=
  match v with
  | PNone => false
  | PBool b => b
  | PInt z => negb (z =? 0)%Z
  | PBytes l => negb (bool_decide (l = []))
  | PStr l => negb (bool_decide (l = []))
  | PList l => match l with [] => false | _ => true end
  | PDict d => match d with [] => false | _ => true end
  | POther => true
  end.

(** [d.get(key)] as a value, [None] when absent, and [x or y]. *)
Definition get_value (d : list (pykey * pyval)) (key : bytes) : pyval := default PNone (py_get d key).
Definition or_else (x y : pyval) : pyval := if truthy x then x else y.

(** ** Operations *)

Section summary.
Context `{LowerCase}.

Definition build_search_text (name : list Z) (files : list torrent_file) : res (list Z) :=
  let result := lower (name ++ newline ++ join_text newline (file_path <$> files)) in
  assert_ (contains_text (lower name) result) ;;
  mret result.

(** [TorrentMetadata.__init__] *)
Definition new_metadata (info_hash : bytes) (name : list Z) (total_size piece_length file_count : Z)
    (files : list torrent_file) (is_private : bool) (fetched_at : Z) (source_peer : option address)
    : res torrent_metadata :=
  assert_ (is_node_id info_hash) ;;
  assert_ ((0 <=? total_size) && (0 <? piece_length) && (1 <=? file_count) &&
           ((1 <=? Z.of_nat (length files)) &&
            (Z.of_nat (length files) <=? Z.min file_count (Z.of_nat MAX_LISTED_FILES))))%Z ;;
  search_text ← build_search_text name files;
  assert_ (bool_decide (search_text = lower search_text)) ;;
  mret (TorrentMetadata info_hash name total_size piece_length file_count files is_private
          fetched_at source_peer search_text).

Definition decode_text (value : pyval) : res (list Z) :=
  assert_ (match value with POther => false | _ => true end) ;;
  mret (match value with
        | PBytes b => utf8_decode_replace b
        | PStr s => s
        | _ => []
        end).

Definition decode_utf8_name (info : list (pykey * pyval)) : res (list Z) :=
  name ← decode_text (get_value info (bs "name.utf-8"));
  if bool_decide (name = []) then decode_text (get_value info (bs "name")) else mret name.

(** One iteration of the loop of [read_file_entries]. *)
Definition read_file_entry (item : pyval) : res torrent_file :=
  match item with
  | PDict item =>
      let path_parts := or_else (get_value item (bs "path.utf-8")) (get_value item (bs "path")) in
      match get_value item (bs "length"), path_parts with
      | PInt len, PList parts =>
          raise_if (len <? 0)%Z (ValueError "bad_info_dict") ;;
          path ← sequence (decode_text <$> parts);
          mret (TorrentFile (join_text [47%Z] path) len)
      | _, _ => Raise (ValueError "bad_info_dict")
      end
  | _ => Raise (ValueError "bad_info_dict")
  end.

Definition read_file_entries (info : list (pykey * pyval)) (name : list Z) : res (list torrent_file) :=
  entries ← match get_value info (bs "files") with
    | PNone =>
        match get_value info (bs "length") with
        | PInt len =>
            raise_if (len <? 0)%Z (ValueError "bad_info_dict") ;; mret [TorrentFile name len]
        | _ => Raise (ValueError "bad_info_dict")
        end
    | PList (item :: items) => sequence (read_file_entry <$> item :: items)
    | _ => Raise (ValueError "bad_info_dict")
    end;
  assert_ (bool_decide (1 <= length entries) &&
           forallb (fun entry => 0 <=? file_length entry)%Z entries) ;;
  mret entries.

Definition sum_lengths (entries : list torrent_file) : Z :=
  foldr Z.add 0%Z (file_length <$> entries).

(** [info.get(b"private") == 1]: in Python [True == 1]. *)
Definition equals_one (v : pyval) : bool :=
  match v with PInt z => (z =? 1)%Z | PBool b => b | _ => false end.

Definition summarize_info_dict (info_hash : bytes) (info : pyval) (fetched_at : Z)
    (source_peer : option address) : res torrent_metadata :=
  assert_ (is_node_id info_hash && (0 <=? fetched_at)%Z) ;;
  match info with
  | PDict info =>
      name ← decode_utf8_name info;
      match get_value info (bs "piece length") with
      | PInt piece_length =>
          raise_if (bool_decide (name = []) || (piece_length <=? 0)%Z) (ValueError "bad_info_dict") ;;
          entries ← read_file_entries info name;
          let total_size := sum_lengths entries in
          let is_private := equals_one (get_value info (bs "private")) in
          result ← new_metadata info_hash name total_size piece_length (Z.of_nat (length entries))
                     (take MAX_LISTED_FILES entries) is_private fetched_at source_peer;
          assert_ ((md_total_size result =? total_size) &&
                   (md_file_count result =? Z.of_nat (length entries)))%Z ;;
          mret result
      | _ => Raise (ValueError "bad_info_dict")
      end
  | _ => Raise (ValueError "bad_info_dict")
  end.
End summary.

(** ** Lemmas *)

Definition bad_info_dict : exn := ValueError "bad_info_dict".

Lemma is_prefix_app s t : is_prefix s (s ++ t) = true.
Proof. induction s as [|c s IH]; simpl; [done|]. by rewrite Z.eqb_refl, IH. Qed.

Lemma contains_text_app s t : contains_text s (s ++ t) = true.
Proof. destruct (s ++ t) eqn:He; simpl; rewrite <-He, is_prefix_app; done. Qed.

Lemma sequence_returns {A} (l : list (res A)) (Q : A -> Prop) (E : exn -> Prop) :
  Forall (fun r => returns r Q E) l ->
  returns (sequence l) (fun l' => length l' = length l /\ Forall Q l') E.
Proof.
  induction 1 as [|r l Hr Hl IH]; [done|]. cbn [sequence].
  destruct r as [a|e]; [|done]. destruct (sequence l) as [l'|e]; [|done].
  cbn in Hr, IH |- *. destruct IH. auto with lia.
Qed.

Lemma is_decoded_py_get d key v :
  is_decoded (PDict d) = true -> py_get d key = Some v -> is_decoded v = true.
Proof.
  cbn. rewrite andb_true_iff. intros [Hd _] Hg%dict_get_elem_of.
  rewrite forallb_forall in Hd. specialize (Hd (KBytes key, v)).
  by apply Hd, list_elem_of_In.
Qed.

Lemma is_decoded_get_value d key :
  is_decoded (PDict d) = true -> get_value d key = PNone \/ is_decoded (get_value d key) = true.
Proof.
  intros Hd. unfold get_value. destruct (py_get d key) eqn:Hg; [|by left].
  right. by eapply is_decoded_py_get.
Qed.

Lemma decode_text_returns v E :
  v = PNone \/ is_decoded v = true -> returns (decode_text v) (fun _ => True) E.
Proof. by intros [->|Hv]; [|destruct v]. Qed.

(** A Unicode scalar value, and the bytes of its encoding. *)
Definition is_scalar (c : Z) : Prop := (0 <= c <= 0x10FFFF)%Z /\ is_surrogate c = false.

Lemma b2z_small z : (0 <= z < 256)%Z -> b2z (z2b z) = z.
Proof. intros. rewrite b2z_z2b. by apply Z.mod_small. Qed.

Lemma second_of_three_char c :
  (0x800 <= c < 0x10000)%Z -> is_surrogate c = false ->
  second_of_three (z2b (0xE0 + c / 4096)) (z2b (0x80 + c / 64 mod 64)) = true.
Proof.
  unfold is_surrogate, second_of_three, continuation, in_range. intros Hc Hs.
  rewrite !b2z_small by lia_div.
  destruct (0xE0 + _ =? 0xE0)%Z eqn:H1; [|destruct (0xE0 + _ =? 0xED)%Z eqn:H2]; lia_div.
Qed.

Lemma second_of_four_char c :
  (0x10000 <= c <= 0x10FFFF)%Z ->
  second_of_four (z2b (0xF0 + c / 262144)) (z2b (0x80 + c / 4096 mod 64)) = true.
Proof.
  unfold second_of_four, continuation, in_range. intros Hc.
  rewrite !b2z_small by lia_div.
  destruct (0xF0 + _ =? 0xF0)%Z eqn:H1; [|destruct (0xF0 + _ =? 0xF4)%Z eqn:H2]; lia_div.
Qed.

Lemma utf8_decode_char c rest :
  is_scalar c -> utf8_decode_replace (utf8_char c ++ rest) = c :: utf8_decode_replace rest.
Proof.
  intros [Hc Hs]. unfold utf8_char.
  destruct (c <? 0x80)%Z eqn:H1; [|destruct (c <? 0x800)%Z eqn:H2;
    [|destruct (c <? 0x10000)%Z eqn:H3]];
    cbn [app utf8_decode_replace];
    [|rewrite ?second_of_three_char, ?second_of_four_char by (done || lia)..];
    unfold continuation, in_range, low6;
    rewrite !b2z_small by lia_div;
    repeat match goal with
    | |- context [if ?b then _ else _] =>
        first [ replace b with true by (symmetry; lia_div)
              | replace b with false by (symmetry; lia_div) ]; cbn beta iota
    end; f_equal; lia_div.
Qed.

Section lemmas.
Context `{LowerCase}.

Lemma build_search_text_eq name files :
  build_search_text name files =
    Ok (lower (name ++ newline ++ join_text newline (file_path <$> files))).
Proof. unfold build_search_text. by rewrite lower_lines, contains_text_app. Qed.

(** The condition [TorrentMetadata.__init__] asserts, and its effect. *)
Definition metadata_ok (m : torrent_metadata) : Prop :=
  length (md_info_hash m) = NODE_ID_LENGTH /\ (0 <= md_total_size m)%Z /\
  (0 < md_piece_length m)%Z /\ (1 <= md_file_count m)%Z /\
  (1 <= Z.of_nat (length (md_files m)) <= Z.min (md_file_count m) (Z.of_nat MAX_LISTED_FILES))%Z /\
  lower (md_search_text m) = md_search_text m.

Lemma new_metadata_eq info_hash name total_size piece_length file_count files is_private fetched_at
    source_peer :
  length info_hash = NODE_ID_LENGTH -> (0 <= total_size)%Z -> (0 < piece_length)%Z ->
  (1 <= file_count)%Z ->
  (1 <= Z.of_nat (length files) <= Z.min file_count (Z.of_nat MAX_LISTED_FILES))%Z ->
  let m := TorrentMetadata info_hash name total_size piece_length file_count files is_private
    fetched_at source_peer (lower (name ++ newline ++ join_text newline (file_path <$> files))) in
  new_metadata info_hash name total_size piece_length file_count files is_private fetched_at
    source_peer = Ok m /\ metadata_ok m.
Proof.
  intros Hh Ht Hp Hc Hf m. split.
  - unfold new_metadata. rewrite is_node_id_of by done.
    cbn [assert_ mbind res_bind]. bools. rewrite build_search_text_eq. cbn [mbind res_bind].
    by rewrite lower_idempotent, bool_decide_eq_true_2.
  - unfold metadata_ok, m. cbn. rewrite lower_idempotent. done.
Qed.

Lemma or_else_cases x y : or_else x y = x \/ or_else x y = y.
Proof. unfold or_else. destruct (truthy x); auto. Qed.

Lemma read_file_entry_returns item :
  is_decoded item = true ->
  returns (read_file_entry item) (fun f => 0 <= file_length f)%Z (eq bad_info_dict).
Proof.
  intros Hd. destruct item as [| | | | | |item|]; try done. cbn [read_file_entry].
  destruct (get_value item (bs "length")) as [| |len| | | | |]; try done.
  set (parts := or_else _ _).
  assert (parts = PNone \/ is_decoded parts = true) as Hparts.
  { unfold parts. destruct (or_else_cases (get_value item (bs "path.utf-8")) (get_value item (bs "path")))
      as [-> | ->]; by apply is_decoded_get_value. }
  destruct parts as [| | | | |parts| |]; try done. destruct Hparts as [|Hparts]; [done|].
  unfold raise_if. destruct (len <? 0)%Z eqn:Hlen; [done|]. cbn [mbind res_bind].
  apply returns_bind. eapply returns_mono; [apply (sequence_returns _ (fun _ => True))| |done].
  - apply Forall_fmap, Forall_forall. intros v Hv. apply decode_text_returns. right.
    cbn in Hparts. rewrite forallb_forall in Hparts. by apply Hparts, list_elem_of_In.
  - intros path _. cbn. lia.
Qed.

Lemma read_file_entries_returns info name :
  is_decoded (PDict info) = true ->
  returns (read_file_entries info name)
    (fun entries => 1 <= length entries /\ Forall (fun f => 0 <= file_length f)%Z entries)
    (eq bad_info_dict).
Proof.
  intros Hd. unfold read_file_entries.
  set (Q entries := 1 <= length entries /\ Forall (fun f => 0 <= file_length f)%Z entries).
  apply returns_bind. apply (returns_mono _ Q _ (eq bad_info_dict)).
  - destruct (is_decoded_get_value info (bs "files") Hd) as [->|Hf].
    + destruct (get_value info (bs "length")) as [| |len| | | | |]; try done.
      unfold raise_if. destruct (len <? 0)%Z eqn:Hlen; [done|]. cbn.
      split; [done|]. repeat constructor. cbn. lia.
    + destruct (get_value info (bs "files")) as [| | | | |[|item items]| |]; try done.
      eapply returns_mono; [apply (sequence_returns _ (fun f => 0 <= file_length f)%Z)| |done].
      * apply Forall_fmap, Forall_forall. intros v Hv. apply read_file_entry_returns.
        cbn [is_decoded] in Hf. rewrite forallb_forall in Hf. by apply Hf, list_elem_of_In.
      * intros entries [Hlen Hall]. split; [|done]. rewrite Hlen. cbn. lia.
  - intros entries [Hlen Hall]. rewrite bool_decide_eq_true_2 by done.
    replace (forallb _ _) with true; [done|]. symmetry. apply forallb_forall.
    rewrite Forall_forall in Hall. intros f Hf%list_elem_of_In%Hall. lia.
  - done.
Qed.

Lemma sum_lengths_nonneg entries :
  Forall (fun f => 0 <= file_length f)%Z entries -> (0 <= sum_lengths entries)%Z.
Proof. unfold sum_lengths. induction 1; cbn; lia. Qed.
End lemmas.

(** ** Properties *)

(** Encoding text as UTF-8 and decoding it with replacement gives it back,
    for every text of Unicode scalar values. *)
Theorem utf8_decode_encode s :
  Forall is_scalar s -> exists b, utf8_encode s = Ok b /\ decode_text (PBytes b) = Ok s.
Proof.
  intros Hs. exists (utf8_bytes s). split.
  - unfold utf8_encode. replace (existsb is_surrogate s) with false; [done|].
    induction Hs as [|c s [_ Hc] _ IH]; [done|]. cbn. by rewrite Hc, <-IH.
  - unfold decode_text. cbn. f_equal. unfold utf8_bytes.
    induction Hs as [|c s Hc _ IH]; [done|]. rewrite fmap_cons. cbn [concat].
    by rewrite utf8_decode_char, IH.
Qed.

Lemma utf8_decode_encode_witness :
  exists b, utf8_encode [0x61; 0xE9; 0x20AC; 0x1F600]%Z = Ok b /\
    decode_text (PBytes b) = Ok [0x61; 0xE9; 0x20AC; 0x1F600]%Z.
Proof. apply utf8_decode_encode. repeat constructor; cbn; lia. Defined.

(** What summarizing comes to. *)
Lemma summarize_info_dict_outcome `{LowerCase} info_hash info fetched_at source_peer :
  length info_hash = NODE_ID_LENGTH -> (0 <= fetched_at)%Z -> is_decoded info = true ->
  returns (summarize_info_dict info_hash info fetched_at source_peer)
    (fun m => metadata_ok m /\ md_info_hash m = info_hash /\ md_name m <> [] /\
              md_fetched_at m = fetched_at /\ md_source_peer m = source_peer /\
              exists d entries, info = PDict d /\ read_file_entries d (md_name m) = Ok entries /\
                md_files m = take MAX_LISTED_FILES entries /\
                md_file_count m = Z.of_nat (length entries) /\
                md_total_size m = sum_lengths entries)
    (eq (ValueError "bad_info_dict")).
Proof.
  intros Hh Ht Hd. unfold summarize_info_dict.
  rewrite is_node_id_of by done.
  rewrite (proj2 (Z.leb_le _ _) Ht). cbn [andb assert_ mbind res_bind].
  destruct info as [| | | | | |info|]; try done. apply returns_bind.
  apply (returns_mono _ (fun _ => True) _ (eq bad_info_dict)); [|intros name _|done].
  { unfold decode_utf8_name. apply returns_bind.
    eapply returns_mono; [by apply decode_text_returns, is_decoded_get_value| |done].
    intros name _. case_bool_decide; [|done]. by apply decode_text_returns, is_decoded_get_value. }
  destruct (get_value info (bs "piece length")) as [| |piece_length| | | | |]; try done.
  unfold raise_if. destruct (bool_decide (name = []) || _) eqn:Hc; [done|].
  apply orb_false_iff in Hc as [Hname%bool_decide_eq_false Hpl]. cbn [mbind res_bind].
  destruct (read_file_entries info name) as [entries|e] eqn:He;
    pose proof (read_file_entries_returns info name Hd) as Hr; rewrite He in Hr; [|done].
  destruct Hr as [Hlen Hall]. cbn [mbind res_bind].
  destruct (new_metadata_eq info_hash name (sum_lengths entries) piece_length
    (Z.of_nat (length entries)) (take MAX_LISTED_FILES entries)
    (equals_one (get_value info (bs "private"))) fetched_at source_peer) as [Hm Hok];
    [done|by apply sum_lengths_nonneg|lia|lia| |].
  { rewrite length_take. unfold MAX_LISTED_FILES. lia. }
  rewrite Hm. cbn [mbind res_bind md_total_size md_file_count]. rewrite !Z.eqb_refl.
  cbn. do 5 (split; [done|]). by exists info, entries.
Qed.

(** Whatever was decoded from the bytes of an info dictionary, summarizing
    it returns a record or raises [ValueError("bad_info_dict")], never an
    assertion failure; a record has the given info hash, a positive piece
    length, a non-negative total size, at least one and at most 200 listed
    files and a search text that is in lower case; it lists the first 200 of
    the files read, and counts and adds up all of them. *)
Theorem summarize_info_dict_returns `{LowerCase} info_hash info fetched_at source_peer :
  length info_hash = NODE_ID_LENGTH -> (0 <= fetched_at)%Z -> is_decoded info = true ->
  returns (summarize_info_dict info_hash info fetched_at source_peer)
    (fun m => metadata_ok m /\ md_info_hash m = info_hash /\ md_name m <> [] /\
              md_fetched_at m = fetched_at /\ md_source_peer m = source_peer /\
              exists d entries, info = PDict d /\ read_file_entries d (md_name m) = Ok entries /\
                md_files m = take MAX_LISTED_FILES entries /\
                md_file_count m = Z.of_nat (length entries) /\
                md_total_size m = sum_lengths entries)
    (eq (ValueError "bad_info_dict")).
Proof. apply summarize_info_dict_outcome. Qed.

Definition sample_info : pyval := PDict [
  (KBytes (bs "files"), PList [
     PDict [(KBytes (bs "length"), PInt 7); (KBytes (bs "path"), PList [PBytes (bs "A"); PBytes (bs "b")])];
     PDict [(KBytes (bs "length"), PInt 5); (KBytes (bs "path"), PList [PBytes (bs "c")])]]);
  (KBytes (bs "name"), PBytes (bs "Name"));
  (KBytes (bs "piece length"), PInt 16384)].

Lemma summarize_info_dict_returns_witness :
  returns (@summarize_info_dict ascii_lower (repeat Byte.x01 20) sample_info 5 None)
    (fun m => @metadata_ok ascii_lower m /\ md_info_hash m = repeat Byte.x01 20 /\ md_name m <> [] /\
              md_fetched_at m = 5%Z /\ md_source_peer m = None /\
              exists d entries, sample_info = PDict d /\ read_file_entries d (md_name m) = Ok entries /\
                md_files m = take MAX_LISTED_FILES entries /\
                md_file_count m = Z.of_nat (length entries) /\
                md_total_size m = sum_lengths entries)
    (eq (ValueError "bad_info_dict")).
Proof.
  apply (@summarize_info_dict_returns ascii_lower (repeat Byte.x01 20) sample_info 5 None);
    [reflexivity|lia|vm_compute; reflexivity].
Defined.
