(* ===== verification/Catalog.v ===== *)
(** The torrent catalog ([torrent_catalog.py]): the bounded table of observed
    hashes with their fetch and lookup state, its derived indexes and the queues
    of the search index.

    Entries are mutable objects shared between the tables, so the catalog has a
    heap of them ([heap], from object identities to entries) and its tables hold
    identities.  Every public method holds the catalog's lock while it runs: a
    method is one atomic step, a computation of [ST catalog].  A method that
    takes the time gets what [time.time()] returns ([clock]) and the optional
    argument [now]. *)
From S2P Require Import Prelude PyDict Bencode NodeIdentity AddressText Krpc TorrentInfo.

Definition MAX_CATALOG_ENTRIES : Z := 250000.
Definition MAX_PEERS_PER_HASH : nat := 32.
Definition MAX_FETCH_ATTEMPTS : Z := 3.
Definition MAX_LOOKUPS_PER_HASH : Z := 2.
Definition LOOKUP_RETRY_SECONDS : Z := 30000000.
Definition EVICTION_DIVISOR : Z := 20.
Definition MAX_INDEX_PENDING : Z := 100000.
Definition MAX_ORPHAN_COUNTERS : Z := 100000.

(** ** Data *)

(** [FETCH_STATES] *)
Inductive fetch_state_t := FETCH_PENDING | FETCH_IN_PROGRESS | FETCH_DONE | FETCH_FAILED.
(** [VALID_SOURCES] *)
Inductive source_t := SOURCE_GET_PEERS | SOURCE_ANNOUNCE_PEER | SOURCE_SAMPLE.
(** The keys of [SORT_KEYS]. *)
Inductive sort_key_t :=
  | SORT_NAME | SORT_SIZE | SORT_FILE_COUNT | SORT_SEEN_COUNT | SORT_ANNOUNCE_COUNT | SORT_LAST_SEEN.

#[global] Instance fetch_state_eq_dec : EqDecision fetch_state_t.
Proof. solve_decision. Defined.
#[global] Instance source_eq_dec : EqDecision source_t.
Proof. solve_decision. Defined.

(** The identity of an entry object. *)
Definition oid : Type := nat.

(** A [TorrentMetadata] object: [is] compares the identity. *)
Record metadata_ref := MetadataRef { metadata_id : nat; metadata_value : torrent_metadata }.

#[global] Instance metadata_ref_eq_dec : EqDecision metadata_ref.
Proof. solve_decision. Defined.

(** [IndexBase]: seen and announce counts and first sighting of earlier runs. *)
Definition index_base_t : Type := Z * Z * option Z.

(** [TorrentEntry]; times are in microseconds. *)
Record entry := Entry {
  info_hash : bytes; first_seen : Z; last_seen : Z; seen_count : Z; announce_count : Z;
  peers : option (list (address * unit)); failed_peers : option (list address);
  fetch_state : fetch_state_t; fetch_attempts : Z; last_error : string;
  lookups_started : Z; lookup_in_progress : bool; next_lookup_time : Z;
  metadata : option metadata_ref; index_base : option index_base_t; in_database : bool;
  database_checked : bool; known_from_database : bool; flushed_seen : Z; flushed_announce : Z }.

Definition entry_eta (e : entry) : entry :=
  Entry (info_hash e) (first_seen e) (last_seen e) (seen_count e) (announce_count e)
    (peers e) (failed_peers e) (fetch_state e) (fetch_attempts e) (last_error e)
    (lookups_started e) (lookup_in_progress e) (next_lookup_time e)
    (metadata e) (index_base e) (in_database e)
    (database_checked e) (known_from_database e) (flushed_seen e) (flushed_announce e).

Definition set_last_seen : Z -> entry -> entry := ltac:(make_setter entry_eta last_seen).
Definition set_seen_count : Z -> entry -> entry := ltac:(make_setter entry_eta seen_count).
Definition set_announce_count : Z -> entry -> entry := ltac:(make_setter entry_eta announce_count).
Definition set_peers : option (list (address * unit)) -> entry -> entry := ltac:(make_setter entry_eta peers).
Definition set_failed_peers : option (list address) -> entry -> entry := ltac:(make_setter entry_eta failed_peers).
Definition set_fetch_state : fetch_state_t -> entry -> entry := ltac:(make_setter entry_eta fetch_state).
Definition set_fetch_attempts : Z -> entry -> entry := ltac:(make_setter entry_eta fetch_attempts).
Definition set_last_error : string -> entry -> entry := ltac:(make_setter entry_eta last_error).
Definition set_lookups_started : Z -> entry -> entry := ltac:(make_setter entry_eta lookups_started).
Definition set_lookup_in_progress : bool -> entry -> entry := ltac:(make_setter entry_eta lookup_in_progress).
Definition set_next_lookup_time : Z -> entry -> entry := ltac:(make_setter entry_eta next_lookup_time).
Definition set_metadata : option metadata_ref -> entry -> entry := ltac:(make_setter entry_eta metadata).
Definition set_base : option index_base_t -> entry -> entry := ltac:(make_setter entry_eta index_base).
Definition set_in_database : bool -> entry -> entry := ltac:(make_setter entry_eta in_database).
Definition set_database_checked : bool -> entry -> entry := ltac:(make_setter entry_eta database_checked).
Definition set_known_from_database : bool -> entry -> entry := ltac:(make_setter entry_eta known_from_database).
Definition set_flushed_seen : Z -> entry -> entry := ltac:(make_setter entry_eta flushed_seen).
Definition set_flushed_announce : Z -> entry -> entry := ltac:(make_setter entry_eta flushed_announce).

(** [TorrentEntry.__init__] *)
Definition new_entry (info_hash : bytes) (now : Z) : entry :=
  Entry info_hash now now 0 0 None None FETCH_PENDING 0 "" 0 false 0 None None false true false 0 0.

(** [IndexSnapshot] *)
Record index_snapshot_t := IndexSnapshot {
  snap_info_hash : bytes; snap_metadata : option metadata_ref;
  snap_seen_count : Z; snap_announce_count : Z; snap_first_seen : Z; snap_last_seen : Z;
  snap_base : option index_base_t; snap_entry : oid; snap_seen_delta : Z; snap_announce_delta : Z }.

(** [bool(entry.peers)] *)
Definition has_peers (e : entry) : bool :=
  match peers e with Some (_ :: _) => true | _ => false end.
Definition has_metadata (e : entry) : bool := bool_decide (is_Some (metadata e)).
Definition is_state (s : fetch_state_t) (e : entry) : bool := bool_decide (fetch_state e = s).

(** The limits given to [TorrentCatalog.__init__]; they never change. *)
Record limits := Limits {
  max_entries : Z; max_peers_per_hash : nat; max_fetch_attempts : Z; max_lookups : Z;
  lookup_retry_seconds : Z }.

Abbreviation table := (list (bytes * oid)).

(** [TorrentCatalog]: the state the lock protects. *)
Record catalog := Catalog {
  heap : gmap oid entry; next_oid : oid;
  entries : table; fetched : table; fetchable : table; needs_lookup : table;
  state_counts : fetch_state_t -> Z;
  observations : Z; discovered : Z; evicted : Z; lookups_in_progress : Z;
  index_tracking : bool; index_max_pending : Z;
  index_documents : table; index_counters : table; orphan_counters : list oid; index_dropped : Z;
  check_database : bool; metadata_bytes : Z; known_done : Z; needs_check : table }.

Definition catalog_eta (c : catalog) : catalog :=
  Catalog (heap c) (next_oid c) (entries c) (fetched c) (fetchable c) (needs_lookup c)
    (state_counts c) (observations c) (discovered c) (evicted c) (lookups_in_progress c)
    (index_tracking c) (index_max_pending c) (index_documents c) (index_counters c)
    (orphan_counters c) (index_dropped c) (check_database c) (metadata_bytes c) (known_done c)
    (needs_check c).

Definition set_heap : gmap oid entry -> catalog -> catalog := ltac:(make_setter catalog_eta heap).
Definition set_next_oid : oid -> catalog -> catalog := ltac:(make_setter catalog_eta next_oid).
Definition set_entries : table -> catalog -> catalog := ltac:(make_setter catalog_eta entries).
Definition set_fetched : table -> catalog -> catalog := ltac:(make_setter catalog_eta fetched).
Definition set_fetchable : table -> catalog -> catalog := ltac:(make_setter catalog_eta fetchable).
Definition set_needs_lookup : table -> catalog -> catalog := ltac:(make_setter catalog_eta needs_lookup).
Definition set_state_counts : (fetch_state_t -> Z) -> catalog -> catalog := ltac:(make_setter catalog_eta state_counts).
Definition set_observations : Z -> catalog -> catalog := ltac:(make_setter catalog_eta observations).
Definition set_discovered : Z -> catalog -> catalog := ltac:(make_setter catalog_eta discovered).
Definition set_evicted : Z -> catalog -> catalog := ltac:(make_setter catalog_eta evicted).
Definition set_lookups_in_progress : Z -> catalog -> catalog := ltac:(make_setter catalog_eta lookups_in_progress).
Definition set_index_tracking : bool -> catalog -> catalog := ltac:(make_setter catalog_eta index_tracking).
Definition set_index_max_pending : Z -> catalog -> catalog := ltac:(make_setter catalog_eta index_max_pending).
Definition set_index_documents : table -> catalog -> catalog := ltac:(make_setter catalog_eta index_documents).
Definition set_index_counters : table -> catalog -> catalog := ltac:(make_setter catalog_eta index_counters).
Definition set_orphan_counters : list oid -> catalog -> catalog := ltac:(make_setter catalog_eta orphan_counters).
Definition set_index_dropped : Z -> catalog -> catalog := ltac:(make_setter catalog_eta index_dropped).
Definition set_check_database : bool -> catalog -> catalog := ltac:(make_setter catalog_eta check_database).
Definition set_metadata_bytes : Z -> catalog -> catalog := ltac:(make_setter catalog_eta metadata_bytes).
Definition set_known_done : Z -> catalog -> catalog := ltac:(make_setter catalog_eta known_done).
Definition set_needs_check : table -> catalog -> catalog := ltac:(make_setter catalog_eta needs_check).

(** Compute the fields of a catalog built from explicit fields. *)
Ltac catalog_eval c :=
  eval cbv beta iota delta [
  heap next_oid entries fetched fetchable needs_lookup state_counts observations discovered evicted lookups_in_progress index_tracking index_max_pending index_documents index_counters orphan_counters index_dropped check_database metadata_bytes known_done needs_check
  set_heap set_next_oid set_entries set_fetched set_fetchable set_needs_lookup set_state_counts set_observations set_discovered set_evicted set_lookups_in_progress set_index_tracking set_index_max_pending set_index_documents set_index_counters set_orphan_counters set_index_dropped set_check_database set_metadata_bytes set_known_done set_needs_check] in c.

(** [TorrentCatalog.__init__] *)
Definition new_catalog : catalog :=
  Catalog ∅ 0 [] [] [] [] (fun _ => 0%Z) 0 0 0 0 false MAX_INDEX_PENDING [] [] [] 0 false 0 0 [].

(** A statement of the source on the shared state: [update f] is an assignment
    to attributes of the catalog, [update_entry o f] to attributes of an entry. *)
Definition update (f : catalog -> catalog) : ST catalog unit := modify f.
Definition lookup_entry (o : oid) : ST catalog entry := fun c =>
  match heap c !! o with Some e => Ok (e, c) | None => Raise KeyError end.
Definition update_entry (o : oid) (f : entry -> entry) : ST catalog unit :=
  update (fun c => set_heap (alter f o (heap c)) c).

(** [d.get(info_hash)] of a table. *)
Definition get_oid (t : catalog -> table) (h : bytes) : ST catalog (option oid) :=
  gets (fun c => dict_get h (t c)).

(** The entry objects of a table's values, in order. *)
Definition table_entries (t : table) (c : catalog) : list (oid * entry) :=
  omap (fun ho : bytes * oid => e ← heap c !! ho.2; Some (ho.2, e)) t.

(** ** Functions of the module *)

Definition cumulative_counters (e : entry) : res (Z * Z * Z) :=
  let result := match index_base e with
    | None => (seen_count e, announce_count e, first_seen e)
    | Some (seen, announced, first) =>
        let first := match first with None => first_seen e | Some t => Z.min t (first_seen e) end in
        (seen + seen_count e, announced + announce_count e, first)%Z
    end in
  assert_ (seen_count e <=? result.1.1)%Z ;;
  mret result.

Definition index_snapshot (o : oid) : ST catalog index_snapshot_t :=
  e ← lookup_entry o;
  assert_st (has_metadata e || in_database e) ;;
  let result := IndexSnapshot (info_hash e) (metadata e) (seen_count e) (announce_count e)
    (first_seen e) (last_seen e) (index_base e) o
    (seen_count e - flushed_seen e) (announce_count e - flushed_announce e) in
  assert_st (bool_decide (snap_info_hash result = info_hash e) && (0 <=? snap_seen_delta result)%Z) ;;
  mret result.

Definition rank_key (e : entry) : Z * Z := (seen_count e, last_seen e).

Definition is_evictable (e : entry) : bool :=
  negb (is_state FETCH_IN_PROGRESS e) && negb (lookup_in_progress e).

Definition eviction_key (e : entry) : list Z :=
  [(if has_metadata e then 1 else 0); (if has_peers e then 1 else 0); seen_count e; last_seen e]%Z.

Definition moment_or_now {S} (clock : Z) (now : option Z) : ST S Z :=
  assert_st (match now with None => true | Some t => 0 <=? t end)%Z ;;
  let result := default clock now in
  assert_st (0 <=? result)%Z ;;
  mret result.

(** ** Private methods *)

Definition set_count (s : fetch_state_t) (n : Z) (counts : fetch_state_t -> Z) : fetch_state_t -> Z :=
  fun s' => if decide (s' = s) then n else counts s'.
Definition add_count (s : fetch_state_t) (d : Z) (c : catalog) : catalog :=
  set_state_counts (set_count s (state_counts c s + d)%Z (state_counts c)) c.

Definition set_state_locked (o : oid) (state : fetch_state_t) : ST catalog unit :=
  e ← lookup_entry o;
  update (add_count (fetch_state e) (-1)) ;;
  update_entry o (set_fetch_state state) ;;
  update (add_count state 1) ;;
  counts ← gets state_counts;
  assert_st (1 <=? counts state)%Z.

Definition forget_known_locked (o : oid) : ST catalog unit :=
  e ← lookup_entry o;
  when_st (known_from_database e) (
    update_entry o (set_known_from_database false) ;;
    update (fun c => set_known_done (known_done c - 1)%Z c)) ;;
  known ← gets known_done;
  assert_st (0 <=? known)%Z.

Definition release_metadata_locked (o : oid) : ST catalog unit :=
  e ← lookup_entry o;
  assert_st (is_state FETCH_DONE e) ;;
  update_entry o (fun e => set_failed_peers None (set_peers None (set_in_database true (set_metadata None e)))) ;;
  update (fun c => set_fetched (dict_del (info_hash e) (fetched c)) c) ;;
  t ← gets fetched;
  assert_st (negb (dict_has (info_hash e) t)).

Definition add_orphan_locked (o : oid) : ST catalog unit :=
  update (fun c => set_orphan_counters (orphan_counters c ++ [o]) c) ;;
  orphans ← gets orphan_counters;
  when_st (MAX_ORPHAN_COUNTERS <? Z.of_nat (length orphans))%Z (
    update (fun c => set_orphan_counters (tail (orphan_counters c)) c) ;;
    update (fun c => set_index_dropped (index_dropped c + 1)%Z c)) ;;
  orphans ← gets orphan_counters;
  assert_st (Z.of_nat (length orphans) <=? MAX_ORPHAN_COUNTERS)%Z.

(** Storing into, or removing from, one of the derived tables. *)
Definition put (b : bool) (h : bytes) (o : oid) (t : table) : table :=
  if b then dict_set h o t else dict_del h t.
Definition put_default (b : bool) (h : bytes) (o : oid) (t : table) : table :=
  if b then dict_setdefault h o t else dict_del h t.

Section methods.
Context `{LowerCase} (lim : limits).

(** The conditions under which an entry belongs to each derived table. *)
Definition is_unchecked (e : entry) : bool := is_state FETCH_PENDING e && negb (database_checked e).
Definition is_ready (e : entry) : bool := is_state FETCH_PENDING e && database_checked e.
Definition is_fetchable (e : entry) : bool := is_ready e && has_peers e.
Definition is_lookup_candidate (e : entry) : bool :=
  is_ready e && negb (has_peers e) && negb (lookup_in_progress e)
  && (lookups_started e <? max_lookups lim)%Z.

Definition index_entry_locked (o : oid) : ST catalog unit :=
  e ← lookup_entry o;
  let h := info_hash e in
  update (fun c => set_needs_check (put_default (is_unchecked e) h o (needs_check c)) c) ;;
  update (fun c => set_fetchable (put (is_fetchable e) h o (fetchable c)) c) ;;
  update (fun c => set_needs_lookup (put_default (is_lookup_candidate e) h o (needs_lookup c)) c) ;;
  t ← gets fetchable;
  assert_st (Bool.eqb (dict_has h t) (is_fetchable e)).

Definition assert_invariants_locked : ST catalog unit := fun c =>
  let n s := state_counts c s in
  (assert_st (n FETCH_PENDING + n FETCH_IN_PROGRESS + n FETCH_DONE + n FETCH_FAILED =?
              Z.of_nat (length (entries c)))%Z ;;
   assert_st (Z.of_nat (length (fetched c)) <=? n FETCH_DONE)%Z ;;
   assert_st ((0 <=? lookups_in_progress c) &&
              (Z.of_nat (length (needs_lookup c)) + Z.of_nat (length (fetchable c))
               <=? Z.of_nat (length (entries c))))%Z) c.

Definition drop_unwritten_metadata_locked (o : oid) : ST catalog unit :=
  e ← lookup_entry o;
  current ← get_oid entries (info_hash e);
  when_st (bool_decide (current = Some o) && has_metadata e && is_state FETCH_DONE e) (
    let size := match metadata e with Some m => md_total_size (metadata_value m) | None => 0%Z end in
    update (fun c => set_metadata_bytes (metadata_bytes c - size)%Z c) ;;
    update_entry o (fun e => set_database_checked true (set_metadata None e)) ;;
    update (fun c => set_fetched (dict_del (info_hash e) (fetched c)) c) ;;
    set_state_locked o FETCH_PENDING ;;
    index_entry_locked o) ;;
  e' ← lookup_entry o;
  t ← gets fetched;
  assert_st (negb (dict_has (info_hash e) t) || has_metadata e').

Definition queue_document_locked (o : oid) : ST catalog unit :=
  e ← lookup_entry o;
  assert_st (has_metadata e) ;;
  update (fun c => set_index_counters (dict_del (info_hash e) (index_counters c)) c) ;;
  queued ← get_oid index_documents (info_hash e);
  when_st (bool_decide (queued = None)) (
    update (fun c => set_index_documents (dict_set (info_hash e) o (index_documents c)) c) ;;
    c ← get_state;
    when_st (index_max_pending c <? Z.of_nat (length (index_documents c)))%Z (
      match index_documents c with
      | [] => raise_st KeyError
      | (_, dropped) :: rest =>
          update (set_index_documents rest) ;;
          update (fun c => set_index_dropped (index_dropped c + 1)%Z c) ;;
          drop_unwritten_metadata_locked dropped
      end)) ;;
  c ← get_state;
  assert_st (dict_has (info_hash e) (index_documents c) || (0 <? index_dropped c)%Z).

Definition get_or_create_locked (h : bytes) (now : Z) : ST catalog (oid * bool) :=
  found ← get_oid entries h;
  match found with
  | Some o =>
      e ← lookup_entry o;
      assert_st (bool_decide (info_hash e = h)) ;;
      mret (o, false)
  | None =>
      assert_st (is_node_id h && (0 <=? now)%Z) ;;
      c ← get_state;
      let o := next_oid c in
      update (set_next_oid (S o)) ;;
      update (set_heap (<[o := set_database_checked (negb (check_database c)) (new_entry h now)]> (heap c))) ;;
      update (fun c => set_entries (dict_set h o (entries c)) c) ;;
      update (add_count FETCH_PENDING 1) ;;
      update (fun c => set_discovered (discovered c + 1)%Z c) ;;
      mret (o, true)
  end.

Definition add_peer_locked (o : oid) (peer : address) : ST catalog bool :=
  e ← lookup_entry o;
  if bool_decide (peer ∈ default [] (failed_peers e)) then mret false
  else
    match remember (default [] (peers e)) peer tt (max_peers_per_hash lim) with
    | Raise x => raise_st x
    | Ok (is_new, peers') =>
        update_entry o (set_peers (Some peers')) ;;
        assert_st (bool_decide (length peers' <= max_peers_per_hash lim)) ;;
        mret is_new
    end.

Definition forget_peer_locked (o : oid) (peer : address) : ST catalog unit :=
  update_entry o (fun e => set_peers (dict_del peer <$> peers e) e) ;;
  update_entry o (fun e =>
    let failed := default [] (failed_peers e) in
    set_failed_peers (Some (if bool_decide (peer ∈ failed) then failed else failed ++ [peer])) e) ;;
  e ← lookup_entry o;
  assert_st (bool_decide (peer ∈ default [] (failed_peers e)) &&
             negb (dict_has peer (default [] (peers e)))).

(** The eviction of one victim. *)
Definition evict_entry (victim : oid) : ST catalog unit :=
  e ← lookup_entry victim;
  let h := info_hash e in
  update (fun c => set_entries (dict_del h (entries c)) c) ;;
  update (fun c => set_fetched (dict_del h (fetched c)) c) ;;
  update (fun c => set_fetchable (dict_del h (fetchable c)) c) ;;
  update (fun c => set_needs_lookup (dict_del h (needs_lookup c)) c) ;;
  update (fun c => set_needs_check (dict_del h (needs_check c)) c) ;;
  update (fun c => set_index_counters (dict_del h (index_counters c)) c) ;;
  when_st (bool_decide (is_Some (index_base e)) &&
           ((flushed_seen e <? seen_count e) || (flushed_announce e <? announce_count e))%Z)
    (add_orphan_locked victim) ;;
  when_st (is_state FETCH_DONE e && has_metadata e) (
    let size := match metadata e with Some m => md_total_size (metadata_value m) | None => 0%Z end in
    update (fun c => set_metadata_bytes (metadata_bytes c - size)%Z c)) ;;
  forget_known_locked victim ;;
  update (add_count (fetch_state e) (-1)).

(** The victims [_evict_locked] chooses: first entries seen at most once with
    nothing worth keeping, in insertion order, then those of the lowest value. *)
Definition is_cheap (e : entry) : bool :=
  negb (has_metadata e) && (seen_count e <=? 1)%Z && negb (has_peers e) && is_evictable e.
Definition eviction_leb (x y : oid * entry) : bool := lex_leb (eviction_key x.2) (eviction_key y.2).
Definition victims (wanted : nat) (c : catalog) : list oid :=
  let all := table_entries (entries c) c in
  let cheap := take wanted (filter (fun oe => is_cheap oe.2 = true) all) in
  let taken := info_hash <$> cheap.*2 in
  let remaining := filter (fun oe => (info_hash oe.2 ∉ taken) /\ is_evictable oe.2 = true) all in
  let others := take (wanted - length cheap) (sort_by eviction_leb remaining) in
  (cheap ++ others).*1.

Definition evict_locked : ST catalog nat :=
  let wanted := Z.to_nat (Z.max 1 (max_entries lim / EVICTION_DIVISOR)) in
  chosen ← gets (victims wanted);
  for_each chosen evict_entry ;;
  update (fun c => set_evicted (evicted c + Z.of_nat (length chosen))%Z c) ;;
  assert_st (bool_decide (length chosen <= wanted)) ;;
  mret (length chosen).

Definition record_locked (h : bytes) (source : source_t) (peer : option address) (moment : Z)
    : ST catalog bool :=
  '(o, created) ← get_or_create_locked h moment;
  update_entry o (fun e => set_seen_count (seen_count e + 1)%Z e) ;;
  update_entry o (fun e => set_last_seen (Z.max (last_seen e) moment) e) ;;
  when_st (bool_decide (source = SOURCE_ANNOUNCE_PEER))
    (update_entry o (fun e => set_announce_count (announce_count e + 1)%Z e)) ;;
  e ← lookup_entry o;
  (match peer with
   | Some peer => if is_state FETCH_DONE e then mret tt else (add_peer_locked o peer ;; mret tt)
   | None => mret tt
   end) ;;
  update (fun c => set_needs_lookup (dict_del h (needs_lookup c)) c) ;;
  index_entry_locked o ;;
  e ← lookup_entry o;
  tracking ← gets index_tracking;
  when_st (tracking && (has_metadata e || in_database e))
    (update (fun c => set_index_counters (dict_setdefault h o (index_counters c)) c)) ;;
  update (fun c => set_observations (observations c + 1)%Z c) ;;
  c ← get_state;
  when_st (max_entries lim <? Z.of_nat (length (entries c)))%Z (evict_locked ;; mret tt) ;;
  e ← lookup_entry o;
  assert_st (1 <=? seen_count e)%Z ;;
  mret created.

(** ** Public methods *)

Definition record_hash (h : bytes) (source : source_t) (peer : option address) (clock : Z)
    (now : option Z) : ST catalog bool :=
  assert_st (is_node_id h) ;;
  moment ← moment_or_now clock now;
  created ← record_locked h source peer moment;
  assert_invariants_locked ;;
  mret created.

(** The loops of [record_hashes] and [add_peers] add up the calls that return
    true. *)
Fixpoint count_true {S A} (f : A -> ST S bool) (l : list A) : ST S Z :=
  match l with
  | [] => mret 0%Z
  | x :: l' =>
      b ← f x;
      n ← count_true f l';
      mret ((if b : bool then 1 else 0) + n)%Z
  end.

Definition record_hashes (info_hashes : list bytes) (source : source_t) (clock : Z) (now : option Z)
    : ST catalog Z :=
  assert_st (forallb is_node_id info_hashes) ;;
  moment ← moment_or_now clock now;
  created ← count_true (fun h => record_locked h source None moment) info_hashes;
  assert_invariants_locked ;;
  assert_st ((0 <=? created) && (created <=? Z.of_nat (length info_hashes)))%Z ;;
  mret created.

Definition add_peers (h : bytes) (new_peers : list address) : ST catalog Z :=
  assert_st (is_node_id h) ;;
  found ← get_oid entries h;
  added ← match found with
    | None => mret 0%Z
    | Some o =>
        added ← count_true (add_peer_locked o) new_peers;
        index_entry_locked o ;;
        mret added
    end;
  assert_st ((0 <=? added) && (added <=? Z.of_nat (length new_peers)))%Z ;;
  mret added.

(** The newest entries first, those whose retry time has come, at most
    [limit]. *)
Definition lookup_choice (limit : nat) (moment : Z) (c : catalog) : list oid :=
  (take limit (filter (fun oe : oid * entry => (next_lookup_time oe.2 <= moment)%Z)
    (reverse (table_entries (needs_lookup c) c)))).*1.

Definition hashes_needing_peers (limit : nat) (clock : Z) (now : option Z) : ST catalog (list bytes) :=
  moment ← moment_or_now clock now;
  chosen ← gets (lookup_choice limit moment);
  for_each chosen (fun o =>
    update_entry o (set_lookup_in_progress true) ;;
    update (fun c => set_lookups_in_progress (lookups_in_progress c + 1)%Z c) ;;
    index_entry_locked o) ;;
  c ← get_state;
  let result := omap (fun o => info_hash <$> heap c !! o) chosen in
  assert_st (bool_decide (length result <= limit)) ;;
  mret result.

(** Ending a claimed lookup, in [release_lookup_claim] and
    [add_lookup_result]. *)
Definition end_lookup (o : oid) : ST catalog unit :=
  update_entry o (set_lookup_in_progress false) ;;
  update (fun c => set_lookups_in_progress (lookups_in_progress c - 1)%Z c).

Definition release_lookup_claim (h : bytes) : ST catalog unit :=
  assert_st (is_node_id h) ;;
  found ← get_oid entries h;
  (match found with
   | None => mret tt
   | Some o =>
       e ← lookup_entry o;
       when_st (lookup_in_progress e) (end_lookup o ;; index_entry_locked o)
   end) ;;
  n ← gets lookups_in_progress;
  assert_st (0 <=? n)%Z.

Definition add_lookup_result (h : bytes) (found_peers : list address) (clock : Z) (now : option Z)
    : ST catalog unit :=
  assert_st (is_node_id h) ;;
  moment ← moment_or_now clock now;
  found ← get_oid entries h;
  (match found with
   | None => mret tt
   | Some o =>
       e ← lookup_entry o;
       when_st (lookup_in_progress e) (end_lookup o) ;;
       update_entry o (fun e => set_lookups_started (lookups_started e + 1)%Z e) ;;
       for_each found_peers (fun peer => add_peer_locked o peer ;; mret tt) ;;
       e ← lookup_entry o;
       when_st (negb (has_peers e)) (
         update_entry o (set_next_lookup_time (moment + lookup_retry_seconds lim * lookups_started e)%Z) ;;
         when_st ((max_lookups lim <=? lookups_started e)%Z && is_state FETCH_PENDING e) (
           update_entry o (set_last_error "no_peers") ;;
           set_state_locked o FETCH_FAILED)) ;;
       index_entry_locked o
   end) ;;
  assert_invariants_locked ;;
  n ← gets lookups_in_progress;
  assert_st (0 <=? n)%Z.

Definition fetchable_count : ST catalog nat :=
  assert_st (1 <=? max_entries lim)%Z ;;
  gets (fun c => length (fetchable c)).

(** [heapq.nlargest(limit, ..., key=RANK_ATTRIBUTES)]: the first [limit] of the
    stable sort by decreasing rank. *)
Definition rank_leb (x y : oid * entry) : bool :=
  lex_leb [seen_count y.2; last_seen y.2] [seen_count x.2; last_seen x.2].
Definition best_candidates (limit : nat) (c : catalog) : list oid :=
  (take limit (sort_by rank_leb (table_entries (fetchable c) c))).*1.

(** [\[f(o) for o in l\]] for an [f] with effects. *)
Fixpoint map_st {S A B} (f : A -> ST S B) (l : list A) : ST S (list B) :=
  match l with
  | [] => mret []
  | x :: l' => y ← f x; ys ← map_st f l'; mret (y :: ys)
  end.

Definition next_fetch_candidates (limit : nat) (now : option Z)
    : ST catalog (list (bytes * list address)) :=
  assert_st (match now with None => true | Some t => 0 <=? t end)%Z ;;
  chosen ← gets (best_candidates limit);
  result ← map_st (fun o =>
    set_state_locked o FETCH_IN_PROGRESS ;;
    index_entry_locked o ;;
    e ← lookup_entry o;
    mret (info_hash e, (default [] (peers e)).*1)) chosen;
  assert_invariants_locked ;;
  assert_st (bool_decide (length result <= limit) &&
             forallb (fun hp : bytes * list address => negb (bool_decide (hp.2 = []))) result) ;;
  mret result.

Definition store_metadata (m : metadata_ref) (clock : Z) (now : option Z) : ST catalog bool :=
  moment ← moment_or_now clock now;
  '(o, created) ← get_or_create_locked (md_info_hash (metadata_value m)) moment;
  e ← lookup_entry o;
  when_st (negb (is_state FETCH_DONE e) || known_from_database e)
    (update (fun c => set_metadata_bytes (metadata_bytes c + md_total_size (metadata_value m))%Z c)) ;;
  forget_known_locked o ;;
  update_entry o (fun e => set_last_error "" (set_metadata (Some m) e)) ;;
  set_state_locked o FETCH_DONE ;;
  update (fun c => set_fetched (dict_set (info_hash e) o (fetched c)) c) ;;
  index_entry_locked o ;;
  tracking ← gets index_tracking;
  when_st tracking (queue_document_locked o) ;;
  assert_invariants_locked ;;
  mret created.

Definition mark_fetch_failed (h : bytes) (tried_peers : list address) (reason : string) (clock : Z)
    (now : option Z) : ST catalog fetch_state_t :=
  assert_st (is_node_id h) ;;
  moment ← moment_or_now clock now;
  found ← get_oid entries h;
  match found with
  | None => mret FETCH_FAILED
  | Some o =>
      for_each tried_peers (forget_peer_locked o) ;;
      update_entry o (fun e => set_last_error reason (set_fetch_attempts (fetch_attempts e + 1)%Z e)) ;;
      e ← lookup_entry o;
      (if (max_fetch_attempts lim <=? fetch_attempts e)%Z then set_state_locked o FETCH_FAILED
       else if negb (has_peers e) && (max_lookups lim <=? lookups_started e)%Z
               && negb (lookup_in_progress e)
       then update_entry o (set_last_error "no_peers") ;; set_state_locked o FETCH_FAILED
       else set_state_locked o FETCH_PENDING ;;
            when_st (negb (has_peers e)) (update_entry o (set_next_lookup_time moment))) ;;
      index_entry_locked o ;;
      e ← lookup_entry o;
      assert_invariants_locked ;;
      mret (fetch_state e)
  end.

Definition release_fetch_claim (h : bytes) : ST catalog unit :=
  assert_st (is_node_id h) ;;
  found ← get_oid entries h;
  (match found with
   | None => mret tt
   | Some o =>
       e ← lookup_entry o;
       when_st (is_state FETCH_IN_PROGRESS e)
         (set_state_locked o FETCH_PENDING ;; index_entry_locked o)
   end) ;;
  assert_invariants_locked ;;
  c ← get_state;
  assert_st (match found with
             | None => true
             | Some o => match heap c !! o with
                         | Some e => negb (is_state FETCH_IN_PROGRESS e)
                         | None => false
                         end
             end).

(** ** Reading methods *)

Record counts_t := Counts {
  hashes_seen : Z; hashes_discovered : Z; n_observations : Z; with_metadata : Z;
  n_known_from_database : Z; metadata_in_memory : Z; n_metadata_bytes : Z; fetch_pending : Z;
  fetch_in_progress : Z; fetch_done : Z; fetch_failed : Z; n_fetchable : Z;
  n_lookups_in_progress : Z; n_evicted : Z; capacity : Z }.

Definition snapshot_counts : ST catalog counts_t :=
  assert_st (1 <=? max_entries lim)%Z ;;
  c ← get_state;
  let len (t : table) := Z.of_nat (length t) in
  let result := Counts (len (entries c)) (discovered c) (observations c)
    (state_counts c FETCH_DONE - known_done c) (known_done c) (len (fetched c)) (metadata_bytes c)
    (state_counts c FETCH_PENDING) (state_counts c FETCH_IN_PROGRESS) (state_counts c FETCH_DONE)
    (state_counts c FETCH_FAILED) (len (fetchable c)) (lookups_in_progress c) (evicted c)
    (max_entries lim) in
  assert_st (fetch_pending result + fetch_in_progress result + fetch_done result
             + fetch_failed result =? hashes_seen result)%Z ;;
  mret result.

(** [str.strip()] removes the white space of Unicode at both ends. *)
Definition is_space (c : Z) : bool :=
  (((9 <=? c) && (c <=? 13)) || ((28 <=? c) && (c <=? 32)) || ((0x2000 <=? c) && (c <=? 0x200A))
   || existsb (Z.eqb c) [0x85; 0xA0; 0x1680; 0x2028; 0x2029; 0x202F; 0x205F; 0x3000])%Z.
Fixpoint lstrip (s : list Z) : list Z :=
  match s with [] => [] | c :: s' => if is_space c then lstrip s' else s end.
Definition strip (s : list Z) : list Z := reverse (lstrip (reverse (lstrip s))).

(** The record [_search_record_locked] returns. *)
Record search_record := SearchRecord {
  sr_info_hash : bytes; sr_name : list Z; sr_size : Z; sr_file_count : Z; sr_seen_count : Z;
  sr_announce_count : Z; sr_first_seen : Z; sr_last_seen : Z }.

(** The value [SORT_KEYS\[sort\]] reads; entries of [_fetched] have metadata. *)
Definition sort_value (sort : sort_key_t) (e : entry) : list Z :=
  match metadata e with
  | None => []
  | Some m =>
      match sort with
      | SORT_NAME => lower (md_name (metadata_value m))
      | SORT_SIZE => [md_total_size (metadata_value m)]
      | SORT_FILE_COUNT => [md_file_count (metadata_value m)]
      | SORT_SEEN_COUNT => [seen_count e]
      | SORT_ANNOUNCE_COUNT => [announce_count e]
      | SORT_LAST_SEEN => [last_seen e]
      end
  end.

(** Tuples [(SORT_KEYS\[sort\](entry), entry.seen_count, entry.last_seen)]. *)
Definition sort_tuple_leb (sort : sort_key_t) (x y : entry) : bool :=
  let kx := sort_value sort x in
  let ky := sort_value sort y in
  if bool_decide (kx = ky) then lex_leb [seen_count x; last_seen x] [seen_count y; last_seen y]
  else lex_leb kx ky.

Definition matches_query (needle : list Z) (e : entry) : bool :=
  bool_decide (needle = []) ||
  match metadata e with
  | Some m => contains_text needle (md_search_text (metadata_value m))
  | None => false
  end.

Definition search_record_locked (o : oid) : ST catalog search_record :=
  e ← lookup_entry o;
  match metadata e with
  | None => raise_st AssertionError
  | Some m =>
      match cumulative_counters e with
      | Raise x => raise_st x
      | Ok (seen, announced, first) =>
          let md := metadata_value m in
          mret (SearchRecord (hex (info_hash e)) (md_name md) (md_total_size md) (md_file_count md)
                  seen announced first (last_seen e))
      end
  end.

Definition search_choice (query : list Z) (limit : nat) (sort : option sort_key_t) (descending : bool)
    (c : catalog) : list oid :=
  let needle := lower (strip query) in
  let matching := filter (fun oe => matches_query needle oe.2 = true) (table_entries (fetched c) c) in
  let leb := match sort with
    | None => rank_leb
    | Some sort => fun x y : oid * entry =>
        if descending then sort_tuple_leb sort y.2 x.2 else sort_tuple_leb sort x.2 y.2
    end in
  (take limit (sort_by leb matching)).*1.

Definition search (query : list Z) (limit : nat) (sort : option sort_key_t) (descending : bool)
    : ST catalog (list search_record) :=
  chosen ← gets (search_choice query limit sort descending);
  result ← map_st search_record_locked chosen;
  assert_st (bool_decide (length result <= limit)) ;;
  mret result.

Record detail_record := DetailRecord {
  dr_info_hash : bytes; dr_seen_count : Z; dr_announce_count : Z; dr_first_seen : Z;
  dr_last_seen : Z; dr_fetch_state : fetch_state_t; dr_fetch_attempts : Z; dr_last_error : string;
  dr_lookups_started : Z; dr_peers : list address; dr_metadata : option torrent_metadata }.

Definition detail_record_locked (o : oid) : ST catalog detail_record :=
  e ← lookup_entry o;
  match cumulative_counters e with
  | Raise x => raise_st x
  | Ok (seen, announced, first) =>
      let result := DetailRecord (hex (info_hash e)) seen announced first (last_seen e)
        (fetch_state e) (fetch_attempts e) (last_error e) (lookups_started e)
        (default [] (peers e)).*1 (metadata_value <$> metadata e) in
      assert_st (negb (has_metadata e) || is_state FETCH_DONE e) ;;
      mret result
  end.

Definition torrent_detail (h : bytes) : ST catalog (option detail_record) :=
  assert_st (is_node_id h) ;;
  found ← get_oid entries h;
  result ← (match found with
            | None => mret None
            | Some o => r ← detail_record_locked o; mret (Some r)
            end);
  assert_st (match result with None => true | Some r => bool_decide (dr_info_hash r = hex h) end) ;;
  mret result.

(** ** The queues of the search index *)

Definition enable_index_tracking (max_pending : Z) (check : bool) : ST catalog unit :=
  assert_st (1 <=? max_pending)%Z ;;
  update (set_index_tracking true) ;;
  update (set_index_max_pending max_pending) ;;
  update (set_check_database check).

(** [while self._index_documents and len(result) < limit]: [limit] rounds at
    most. *)
Fixpoint drain_documents (limit : nat) : ST catalog (list index_snapshot_t) :=
  match limit with
  | O => mret []
  | S limit' =>
      documents ← gets index_documents;
      match documents with
      | [] => mret []
      | (_, o) :: rest =>
          update (set_index_documents rest) ;;
          s ← index_snapshot o;
          result ← drain_documents limit';
          mret (s :: result)
      end
  end.

Definition drain_index_documents (limit : nat) : ST catalog (list index_snapshot_t) :=
  result ← drain_documents limit;
  assert_st (bool_decide (length result <= limit)) ;;
  mret result.

(** The two loops of [drain_index_counters].  Each round takes one element off
    its queue, so the length of the queue is enough fuel; [room] is
    [limit - len(result)]. *)
Fixpoint drain_orphans (fuel room : nat) : ST catalog (list index_snapshot_t) :=
  match fuel, room with
  | O, _ | _, O => mret []
  | S fuel', S room' =>
      orphans ← gets orphan_counters;
      match orphans with
      | [] => mret []
      | o :: rest =>
          update (set_orphan_counters rest) ;;
          s ← index_snapshot o;
          if negb (snap_seen_delta s =? 0)%Z || negb (snap_announce_delta s =? 0)%Z
          then result ← drain_orphans fuel' room'; mret (s :: result)
          else drain_orphans fuel' room
      end
  end.

Fixpoint drain_counters (fuel room : nat) : ST catalog (list index_snapshot_t) :=
  match fuel, room with
  | O, _ | _, O => mret []
  | S fuel', S room' =>
      counters ← gets index_counters;
      match counters with
      | [] => mret []
      | (_, o) :: rest =>
          update (set_index_counters rest) ;;
          e ← lookup_entry o;
          if bool_decide (index_base e = None) then
            when_st (has_metadata e) (queue_document_locked o) ;;
            drain_counters fuel' room
          else if ((flushed_seen e <? seen_count e) || (flushed_announce e <? announce_count e))%Z then
            s ← index_snapshot o;
            result ← drain_counters fuel' room';
            mret (s :: result)
          else drain_counters fuel' room
      end
  end.

Definition drain_index_counters (limit : nat) : ST catalog (list index_snapshot_t) :=
  c ← get_state;
  orphans ← drain_orphans (length (orphan_counters c)) limit;
  c ← get_state;
  counters ← drain_counters (length (index_counters c)) (limit - length orphans);
  let result := orphans ++ counters in
  assert_st (bool_decide (length result <= limit)) ;;
  mret result.

Definition requeue_index_documents (snapshots : list index_snapshot_t) : ST catalog unit :=
  for_each (reverse snapshots) (fun s =>
    documents ← gets index_documents;
    when_st (negb (dict_has (snap_info_hash s) documents)) (
      update (fun c => set_index_documents (dict_set (snap_info_hash s) (snap_entry s) (index_documents c)) c) ;;
      update (fun c => set_index_documents (move_to_front (snap_info_hash s) (index_documents c)) c))) ;;
  documents ← gets index_documents;
  assert_st (forallb (fun s => dict_has (snap_info_hash s) documents) snapshots).

Definition requeue_index_counters (snapshots : list index_snapshot_t) : ST catalog unit :=
  for_each snapshots (fun s =>
    current ← get_oid entries (snap_info_hash s);
    if bool_decide (current = Some (snap_entry s)) then
      update (fun c => set_index_counters
        (dict_setdefault (snap_info_hash s) (snap_entry s) (index_counters c)) c)
    else add_orphan_locked (snap_entry s)) ;;
  orphans ← gets orphan_counters;
  assert_st (Z.of_nat (length orphans) <=? MAX_ORPHAN_COUNTERS)%Z.

(** [entry.flushed_seen += ...; entry.flushed_announce += ...] *)
Definition add_flushed (s : index_snapshot_t) : ST catalog unit :=
  update_entry (snap_entry s) (fun e =>
    set_flushed_announce (flushed_announce e + snap_announce_delta s)%Z
      (set_flushed_seen (flushed_seen e + snap_seen_delta s)%Z e)).

Definition mark_counters_written (snapshots : list index_snapshot_t) : ST catalog unit :=
  for_each snapshots add_flushed ;;
  for_each snapshots (fun s =>
    e ← lookup_entry (snap_entry s);
    assert_st (flushed_seen e <=? seen_count e)%Z).

Definition set_index_base (h : bytes) (base : index_base_t) : ST catalog unit :=
  assert_st (is_node_id h) ;;
  found ← get_oid entries h;
  (match found with None => mret tt | Some o => update_entry o (set_base (Some base)) end) ;;
  assert_st (0 <=? base.1.1)%Z.

Definition mark_index_written (s : index_snapshot_t) (base : index_base_t) : ST catalog unit :=
  assert_st (bool_decide (is_Some (snap_metadata s))) ;;
  add_flushed s ;;
  current ← get_oid entries (snap_info_hash s);
  when_st (bool_decide (current = Some (snap_entry s))) (
    update_entry (snap_entry s) (set_base (Some base)) ;;
    e ← lookup_entry (snap_entry s);
    when_st (bool_decide (metadata_id <$> metadata e = metadata_id <$> snap_metadata s)) (
      documents ← gets index_documents;
      update (fun c => set_index_documents (dict_del (info_hash e) (index_documents c)) c) ;;
      when_st (dict_has (info_hash e) documents)
        (update (fun c => set_index_counters
           (dict_setdefault (info_hash e) (snap_entry s) (index_counters c)) c)) ;;
      release_metadata_locked (snap_entry s))) ;;
  assert_invariants_locked ;;
  assert_st (0 <=? base.1.1)%Z.

Definition set_database_check (enabled : bool) : ST catalog unit :=
  update (set_check_database enabled) ;;
  unchecked ← gets (fun c => (needs_check c).*2);
  when_st (negb enabled) (for_each unchecked (fun o =>
    update_entry o (set_database_checked true) ;; index_entry_locked o)) ;;
  assert_invariants_locked ;;
  t ← gets needs_check;
  assert_st (enabled || bool_decide (t = [])).

Definition pending_database_checks (limit : nat) : ST catalog (list bytes) :=
  result ← gets (fun c => take limit (needs_check c).*1);
  assert_st (bool_decide (length result <= limit)) ;;
  mret result.

(** One iteration of [apply_database_checks]; [found] is the dictionary's
    [get]. *)
Definition apply_database_check (found : bytes -> option index_base_t) (h : bytes) : ST catalog unit :=
  unchecked ← get_oid needs_check h;
  update (fun c => set_needs_check (dict_del h (needs_check c)) c) ;;
  match unchecked with
  | None => mret tt
  | Some o =>
      e ← lookup_entry o;
      when_st (negb (database_checked e)) (
        update_entry o (set_database_checked true) ;;
        (match found h with
         | Some base => when_st (is_state FETCH_PENDING e) (
             update_entry o (fun e => set_known_from_database true (set_failed_peers None
               (set_peers None (set_in_database true (set_base (Some base) e))))) ;;
             update (fun c => set_known_done (known_done c + 1)%Z c) ;;
             set_state_locked o FETCH_DONE ;;
             tracking ← gets index_tracking;
             when_st tracking
               (update (fun c => set_index_counters (dict_setdefault h o (index_counters c)) c)))
         | None => mret tt
         end) ;;
        index_entry_locked o)
  end.

Definition apply_database_checks (info_hashes : list bytes) (found : bytes -> option index_base_t)
    : ST catalog unit :=
  assert_st (forallb is_node_id info_hashes) ;;
  for_each info_hashes (apply_database_check found) ;;
  assert_invariants_locked ;;
  c ← get_state;
  assert_st (forallb (fun h => match dict_get h (entries c) with
    | None => true
    | Some o => match heap c !! o with Some e => database_checked e | None => false end
    end) info_hashes).

Definition reset_index_base (h : bytes) : ST catalog unit :=
  assert_st (is_node_id h) ;;
  found ← get_oid entries h;
  (match found with
   | None => mret tt
   | Some o =>
       update_entry o (fun e => set_flushed_announce 0 (set_flushed_seen 0 (set_base None e))) ;;
       update (fun c => set_index_counters (dict_del h (index_counters c)) c) ;;
       e ← lookup_entry o;
       if has_metadata e then queue_document_locked o
       else when_st (in_database e) (
         update_entry o (fun e => set_database_checked true (set_in_database false e)) ;;
         forget_known_locked o ;;
         e ← lookup_entry o;
         when_st (is_state FETCH_DONE e) (set_state_locked o FETCH_PENDING) ;;
         index_entry_locked o)
   end) ;;
  assert_invariants_locked ;;
  c ← get_state;
  assert_st (match found with
             | None => true
             | Some o => match heap c !! o with
                         | Some e => bool_decide (index_base e = None)
                         | None => false
                         end
             end).

Definition index_backlog : ST catalog (Z * Z * Z) :=
  c ← get_state;
  assert_st (1 <=? index_max_pending c)%Z ;;
  let result := (Z.of_nat (length (index_documents c)),
                 Z.of_nat (length (index_counters c) + length (orphan_counters c)),
                 index_dropped c) in
  assert_st (0 <=? result.2)%Z ;;
  mret result.
End methods.
