(* ===== verification/CatalogInvariant.v ===== *)
(** The invariant of the torrent catalog and its preservation.

    [inv] says what every table of [Catalog.catalog] means: the derived tables
    hold exactly the current entries that satisfy their condition, the counters
    count the entries of each state, the queues hold only entries that can be
    written.  Methods re-establish it entry by entry: [inv_at (Some h)] is the
    invariant with the derived tables of the hash [h] out of date, which
    [index_entry_locked] repairs. *)
From S2P Require Import Prelude PyDict Bencode NodeIdentity Krpc TorrentInfo Catalog.

(** ** Symbolic execution *)

Lemma wp_update (f : catalog -> catalog) Q c : Q tt (f c) -> wp (update f) Q c.
Proof. done. Qed.

Lemma wp_lookup_entry o e (Q : entry -> catalog -> Prop) c :
  heap c !! o = Some e -> Q e c -> wp (lookup_entry o) Q c.
Proof. intros He HQ. unfold wp, lookup_entry. by rewrite He. Qed.

Lemma wp_update_entry o e f Q c :
  heap c !! o = Some e -> Q tt (set_heap (<[o := f e]> (heap c)) c) -> wp (update_entry o f) Q c.
Proof.
  intros He HQ. unfold wp, update_entry, update, modify.
  replace (alter f o (heap c)) with (<[o := f e]> (heap c)); [done|].
  symmetry. apply map_eq. intros o'. destruct (decide (o = o')) as [<-|Hne].
  - by rewrite lookup_alter_eq, lookup_insert_eq, He.
  - by rewrite lookup_alter_ne, lookup_insert_ne.
Qed.

(** The entry a derived table with condition [P] must hold for a hash. *)
Definition selected (P : entry -> bool) (c : catalog) (h : bytes) : option oid :=
  match dict_get h (entries c) with
  | Some o => match heap c !! o with
              | Some e => if P e then Some o else None
              | None => None
              end
  | None => None
  end.

(** ** Counting current entries *)

Definition b2n (b : bool) : Z := if b then 1%Z else 0%Z.
Definition weight (P : entry -> bool) (m : gmap oid entry) (o : oid) : Z :=
  match m !! o with Some e => b2n (P e) | None => 0%Z end.
(** The number of current entries that satisfy a condition. *)
Definition total (P : entry -> bool) (c : catalog) : Z := sum_over (weight P (heap c)) (entries c).

Lemma weight_range P m o : (0 <= weight P m o <= 1)%Z.
Proof. unfold weight. destruct (m !! o) as [e|]; [destruct (P e)|]; simpl; lia. Qed.

Lemma NoDup_fmap_fst_filter {A B} (P : A * B -> Prop) `{!forall x, Decision (P x)} (l : list (A * B)) :
  NoDup l.*1 -> NoDup (filter P l).*1.
Proof.
  intros Hl. eapply sublist_NoDup; [exact Hl|]. apply fmap_sublist, sublist_filter.
Qed.

Lemma total_range P c : (0 <= total P c <= Z.of_nat (length (entries c)))%Z.
Proof. apply sum_over_range. intros o. apply weight_range. Qed.

(** A table that holds exactly the current entries with a condition has as many
    of them as there are. *)
Lemma length_selected P c (t : table) :
  dict_wf (entries c) -> dict_wf t -> (forall h, dict_get h t = selected P c h) ->
  Z.of_nat (length t) = total P c.
Proof.
  intros Hwf Ht Hsel.
  set (q := fun ho : bytes * oid => match heap c !! ho.2 with Some e => P e | None => false end).
  transitivity (Z.of_nat (length (filter (fun ho => q ho = true) (entries c)))).
  - f_equal. rewrite <-(length_fmap fst t), <-(length_fmap fst (filter _ (entries c))).
    apply Permutation_length, NoDup_Permutation; [done|by apply NoDup_fmap_fst_filter|].
    intros h. rewrite <-dict_get_is_Some, Hsel, list_elem_of_fmap. unfold selected. split.
    + intros [o' Ho']. destruct (dict_get h (entries c)) as [o|] eqn:Hg; [|done].
      exists (h, o). split; [done|]. apply list_elem_of_filter. split; [|by apply dict_get_elem_of].
      unfold q. simpl. destruct (heap c !! o) as [e|]; [|done]. by destruct (P e).
    + intros ([h' o] & -> & [Hq Hin]%list_elem_of_filter). simpl.
      apply elem_of_dict_get in Hin; [|done]. rewrite Hin. unfold q in Hq. simpl in Hq.
      destruct (heap c !! o) as [e|]; [|done]. rewrite Hq. eauto.
  - unfold total. clear Hsel Hwf Ht. induction (entries c) as [|[h o] es IH]; [done|].
    rewrite sum_over_cons, filter_cons.
    assert (weight P (heap c) o = b2n (q (h, o))) as -> by (unfold weight, q; simpl; by case_match).
    destruct (q (h, o)); [rewrite decide_True by done|rewrite decide_False by done];
      cbn [length b2n]; lia.
Qed.

(** Changing the entry object of one current hash. *)
Lemma total_change P c c' h o e e' :
  dict_wf (entries c) -> dict_get h (entries c) = Some o ->
  (forall h', dict_get h' (entries c) = Some o -> h' = h) ->
  heap c !! o = Some e -> heap c' = <[o := e']> (heap c) -> entries c' = entries c ->
  total P c' = (total P c - b2n (P e) + b2n (P e'))%Z.
Proof.
  intros Hwf Hg Hinj He Hheap Hent. unfold total. rewrite Hent.
  rewrite (sum_over_change (weight P (heap c)) (weight P (heap c')) h o) by
    (try done; intros o' Hne; unfold weight; by rewrite Hheap, lookup_insert_ne).
  unfold weight at 2 3. by rewrite He, Hheap, lookup_insert_eq.
Qed.

(** ** The invariant *)

Section invariant.
Context (lim : limits).

(** What [TorrentCatalog.__init__] asserts of the limits. *)
Definition limits_ok : Prop :=
  (1 <= max_entries lim)%Z /\ 1 <= max_peers_per_hash lim /\ (1 <= max_fetch_attempts lim)%Z /\
  (0 <= max_lookups lim)%Z /\ (0 <= lookup_retry_seconds lim)%Z.

Definition peers_wf (e : entry) : Prop :=
  match peers e with
  | None => True
  | Some d => dict_wf d /\ length d <= max_peers_per_hash lim /\
              (forall p, p ∈ d.*1 -> p ∉ default [] (failed_peers e))
  end.

(** Every entry object, current or evicted. *)
Definition entry_wf (e : entry) : Prop :=
  length (info_hash e) = NODE_ID_LENGTH /\
  (0 <= flushed_seen e <= seen_count e)%Z /\ (0 <= flushed_announce e <= announce_count e)%Z /\
  (forall b, index_base e = Some b -> in_database e = true /\ (0 <= b.1.1)%Z) /\ peers_wf e.

(** A current entry: metadata means the fetch is done, a fetch is done only with
    metadata or a document in the database, a torrent known from the database
    is done without metadata, a running lookup is of a checked entry and one the
    limit allowed, and an entry not checked in the database is pending. *)
Definition current_wf (e : entry) : Prop :=
  (has_metadata e = true -> fetch_state e = FETCH_DONE) /\
  (fetch_state e = FETCH_DONE -> has_metadata e || in_database e = true) /\
  (known_from_database e = true -> fetch_state e = FETCH_DONE /\ has_metadata e = false) /\
  (lookup_in_progress e = true ->
     database_checked e = true /\ (lookups_started e < max_lookups lim)%Z) /\
  (database_checked e = false -> fetch_state e = FETCH_PENDING).

Definition derived_ok (c : catalog) (h : bytes) : Prop :=
  dict_get h (fetchable c) = selected is_fetchable c h /\
  dict_get h (needs_lookup c) = selected (is_lookup_candidate lim) c h /\
  dict_get h (needs_check c) = selected is_unchecked c h.

Definition tables_wf (c : catalog) : Prop :=
  dict_wf (entries c) /\ dict_wf (fetched c) /\ dict_wf (fetchable c) /\ dict_wf (needs_lookup c) /\
  dict_wf (needs_check c) /\ dict_wf (index_documents c) /\ dict_wf (index_counters c).

Record inv_at (dirty : option bytes) (c : catalog) : Prop := {
  inv_tables : tables_wf c;
  inv_current : forall h o, dict_get h (entries c) = Some o ->
    exists e, heap c !! o = Some e /\ info_hash e = h /\ current_wf e;
  inv_heap : forall o e, heap c !! o = Some e -> o < next_oid c /\ entry_wf e;
  inv_derived : forall h, dirty <> Some h -> derived_ok c h;
  inv_sub : forall h o, dict_get h (fetchable c) = Some o \/ dict_get h (needs_lookup c) = Some o \/
      dict_get h (needs_check c) = Some o -> dict_get h (entries c) = Some o;
  inv_fetched : forall h, dict_get h (fetched c) = selected has_metadata c h;
  inv_counts : forall s, state_counts c s = total (is_state s) c;
  inv_lookups : lookups_in_progress c = total lookup_in_progress c;
  inv_known : known_done c = total known_from_database c;
  inv_documents : forall h o, dict_get h (index_documents c) = Some o ->
    exists e, heap c !! o = Some e /\ info_hash e = h /\ has_metadata e = true;
  inv_counters : forall h o, dict_get h (index_counters c) = Some o -> dict_get h (entries c) = Some o;
  inv_orphans : forall o, o ∈ orphan_counters c ->
    exists e, heap c !! o = Some e /\ has_metadata e || in_database e = true /\
      dict_get (info_hash e) (entries c) <> Some o;
  inv_bounds : (Z.of_nat (length (orphan_counters c)) <= MAX_ORPHAN_COUNTERS)%Z /\
    (1 <= index_max_pending c)%Z /\ (0 <= index_dropped c)%Z }.

Definition inv (c : catalog) : Prop := inv_at None c.

Lemma inv_dirty D c h : D = None \/ D = Some h -> inv_at D c -> inv_at (Some h) c.
Proof using. intros HD []. split; try done. intros h' Hh'. apply inv_derived0. destruct HD as [->| ->]; congruence. Qed.

(** The hash of a current object is its own. *)
Lemma current_hash D c h o e :
  inv_at D c -> dict_get h (entries c) = Some o -> heap c !! o = Some e ->
  info_hash e = h /\ current_wf e.
Proof using.
  intros Hc Hg He. destruct (inv_current _ _ Hc h o Hg) as (e0 & He0 & Hh & Hcur).
  rewrite He in He0. injection He0 as <-. done.
Qed.

Lemma current_inj D c h h' o :
  inv_at D c -> dict_get h (entries c) = Some o -> dict_get h' (entries c) = Some o -> h' = h.
Proof using.
  intros Hc H1 H2. destruct (inv_current _ _ Hc h o H1) as (e & He & Hh & _).
  by destruct (current_hash _ _ _ _ _ Hc H2 He) as [<- _].
Qed.

(** The tables that a change of one entry object leaves as they are. *)
Definition same_tables (c c' : catalog) : Prop :=
  next_oid c' = next_oid c /\ entries c' = entries c /\ fetchable c' = fetchable c /\
  needs_lookup c' = needs_lookup c /\ needs_check c' = needs_check c /\
  index_counters c' = index_counters c /\ orphan_counters c' = orphan_counters c /\
  index_max_pending c' = index_max_pending c /\ (index_dropped c <= index_dropped c')%Z.

Lemma selected_ne P c c' h h' o e' :
  entries c' = entries c -> heap c' = <[o := e']> (heap c) ->
  (forall h', dict_get h' (entries c) = Some o -> h' = h) -> h' <> h ->
  selected P c' h' = selected P c h'.
Proof using.
  intros Hent Hheap Hinj Hne. unfold selected. rewrite Hent, Hheap.
  destruct (dict_get h' (entries c)) as [o'|] eqn:Hg; [|done].
  rewrite lookup_insert_ne; [done|]. intros <-. eauto.
Qed.

(** Changing one current entry object, with the counters and the tables of
    fetched entries and queued documents kept up to date. *)
Lemma inv_change D c c' h o e e' :
  inv_at D c -> D = None \/ D = Some h ->
  dict_get h (entries c) = Some o -> heap c !! o = Some e ->
  same_tables c c' -> heap c' = <[o := e']> (heap c) ->
  info_hash e' = h -> entry_wf e' -> current_wf e' ->
  dict_wf (fetched c') ->
  (forall h', dict_get h' (fetched c') =
     if decide (h' = h) then (if has_metadata e' then Some o else None) else dict_get h' (fetched c)) ->
  dict_wf (index_documents c') ->
  (forall h' o', dict_get h' (index_documents c') = Some o' ->
     dict_get h' (index_documents c) = Some o' /\ (o' = o -> has_metadata e' = true)) ->
  (forall s, state_counts c' s = state_counts c s - b2n (is_state s e) + b2n (is_state s e'))%Z ->
  (lookups_in_progress c' =
     lookups_in_progress c - b2n (lookup_in_progress e) + b2n (lookup_in_progress e'))%Z ->
  (known_done c' = known_done c - b2n (known_from_database e) + b2n (known_from_database e'))%Z ->
  inv_at (Some h) c'.
Proof using.
  intros Hc HD Hg He (Hnext & Hent & Hfa & Hnl & Hnc & Hic & Hor & Hmp & Hdr) Hheap Hh Hwf Hcur
    Hfwf Hf Hdwf Hd Hcounts Hlook Hknown.
  pose proof (fun h' => current_inj D c h h' o Hc Hg) as Hinj.
  destruct (inv_tables _ _ Hc) as (W1 & W2 & W3 & W4 & W5 & W6 & W7).
  pose proof (fun P => total_change P c c' h o e e' W1 Hg Hinj He Hheap Hent) as Htot.
  pose proof (fun P h' => selected_ne P c c' h h' o e' Hent Hheap Hinj) as Hsel.
  split.
  - unfold tables_wf. rewrite Hent, Hfa, Hnl, Hnc, Hic. done.
  - intros h' o' Hg'. rewrite Hent in Hg'. rewrite Hheap.
    destruct (decide (o = o')) as [<-|Hne].
    + rewrite lookup_insert_eq. exists e'. split; [done|]. rewrite (Hinj _ Hg'). done.
    + rewrite lookup_insert_ne by done. by apply (inv_current _ _ Hc).
  - intros o' e0. rewrite Hheap, Hnext. destruct (decide (o = o')) as [<-|Hne].
    + rewrite lookup_insert_eq. intros [= <-]. split; [|done]. by apply (inv_heap _ _ Hc o e).
    + rewrite lookup_insert_ne by done. apply (inv_heap _ _ Hc).
  - intros h' Hh'. assert (h' <> h) as Hne by congruence.
    unfold derived_ok. rewrite Hfa, Hnl, Hnc, !Hsel by done. apply (inv_derived _ _ Hc).
    destruct HD as [->| ->]; congruence.
  - intros h' o'. rewrite Hfa, Hnl, Hnc, Hent. apply (inv_sub _ _ Hc).
  - intros h'. rewrite Hf. destruct (decide (h' = h)) as [->|Hne].
    + unfold selected. by rewrite Hent, Hg, Hheap, lookup_insert_eq.
    + rewrite Hsel by done. apply (inv_fetched _ _ Hc).
  - intros s. by rewrite Hcounts, Htot, (inv_counts _ _ Hc).
  - by rewrite Hlook, Htot, (inv_lookups _ _ Hc).
  - by rewrite Hknown, Htot, (inv_known _ _ Hc).
  - intros h' o' Hg'. destruct (Hd h' o' Hg') as [Hg0 Hm].
    destruct (inv_documents _ _ Hc h' o' Hg0) as (e0 & He0 & Hh0 & Hm0). rewrite Hheap.
    destruct (decide (o = o')) as [<-|Hne].
    + rewrite lookup_insert_eq. exists e'. split; [done|]. split; [|by apply Hm].
      rewrite He in He0. injection He0 as <-. rewrite Hh, <-Hh0.
      by destruct (current_hash _ _ _ _ _ Hc Hg He) as [-> _].
    + rewrite lookup_insert_ne by done. eauto.
  - intros h' o'. rewrite Hic, Hent. apply (inv_counters _ _ Hc).
  - intros o' Ho'. rewrite Hor in Ho'. destruct (inv_orphans _ _ Hc o' Ho') as (e0 & He0 & Hm & Hn).
    rewrite Hent, Hheap. destruct (decide (o = o')) as [<-|Hne].
    + exfalso. rewrite He in He0. injection He0 as <-.
      destruct (current_hash _ _ _ _ _ Hc Hg He) as [Heq _]. apply Hn. by rewrite Heq.
    + rewrite lookup_insert_ne by done. eauto.
  - rewrite Hor, Hmp. destruct (inv_bounds _ _ Hc) as (? & ? & ?). lia.
Qed.

(** ** Repairing the derived tables of one hash *)

Lemma table_get_put b h o (t : table) h' :
  dict_get h' (put b h o t) = if decide (h' = h) then (if b then Some o else None) else dict_get h' t.
Proof using. unfold put. destruct b; [apply dict_get_set|apply dict_get_del]. Qed.

Lemma dict_get_put_default b h o (t : table) h' :
  (forall o', dict_get h t = Some o' -> o' = o) ->
  dict_get h' (put_default b h o t) =
    if decide (h' = h) then (if b then Some o else None) else dict_get h' t.
Proof using.
  intros Ho. unfold put_default. destruct b; [|apply dict_get_del].
  rewrite dict_get_setdefault. case_decide; [subst|done].
  destruct (dict_get h t) eqn:Hg; [|done]. simpl. f_equal. by apply Ho.
Qed.

Lemma put_wf b h o (t : table) : dict_wf t -> dict_wf (put b h o t).
Proof using. destruct b; [apply dict_set_wf|apply dict_del_wf]. Qed.
Lemma put_default_wf b h o (t : table) : dict_wf t -> dict_wf (put_default b h o t).
Proof using. destruct b; [apply dict_setdefault_wf|apply dict_del_wf]. Qed.

(** [c'] is [c] with other derived tables. *)
Definition reindexed (c c' : catalog) : Prop :=
  exists t1 t2 t3, c' = set_needs_lookup t3 (set_fetchable t2 (set_needs_check t1 c)).

Lemma wp_index_entry c h o e (Q : unit -> catalog -> Prop) :
  inv_at (Some h) c -> dict_get h (entries c) = Some o -> heap c !! o = Some e ->
  (forall c', reindexed c c' -> inv c' -> Q tt c') ->
  wp (index_entry_locked lim o) Q c.
Proof using.
  intros Hc Hg He HQ. destruct (current_hash _ _ _ _ _ Hc Hg He) as [Hh _].
  set (t1 := put_default (is_unchecked e) h o (needs_check c)).
  set (t2 := put (is_fetchable e) h o (fetchable c)).
  set (t3 := put_default (is_lookup_candidate lim e) h o (needs_lookup c)).
  assert (forall h', dict_get h' t1 = if decide (h' = h) then (if is_unchecked e then Some o else None)
                               else dict_get h' (needs_check c)) as H1.
  { intros h'. apply dict_get_put_default. intros o' Ho'.
    assert (dict_get h (entries c) = Some o') by (apply (inv_sub _ _ Hc); auto). congruence. }
  assert (forall h', dict_get h' t2 = if decide (h' = h) then (if is_fetchable e then Some o else None)
                               else dict_get h' (fetchable c)) as H2 by (intros; apply table_get_put).
  assert (forall h', dict_get h' t3 = if decide (h' = h) then (if is_lookup_candidate lim e then Some o else None)
                               else dict_get h' (needs_lookup c)) as H3.
  { intros h'. apply dict_get_put_default. intros o' Ho'.
    assert (dict_get h (entries c) = Some o') by (apply (inv_sub _ _ Hc); auto). congruence. }
  unfold index_entry_locked. apply wp_bind, (wp_lookup_entry _ e); [done|]. rewrite Hh.
  do 3 apply wp_bind, wp_update. apply wp_bind, wp_gets, wp_assert.
  { cbn. fold t1. fold t2. unfold dict_has. rewrite H2, decide_True by done.
    by destruct (is_fetchable e). }
  change (Q tt (set_needs_lookup t3 (set_fetchable t2 (set_needs_check t1 c)))).
  apply HQ; [by exists t1, t2, t3|].
  destruct (inv_tables _ _ Hc) as (W1 & W2 & W3 & W4 & W5 & W6 & W7).
  destruct Hc. split; try done; simpl.
  - repeat split; try done; [by apply put_wf|by apply put_default_wf..].
  - intros h' _. unfold derived_ok. simpl. rewrite H1, H2, H3. case_decide as Hd.
    + subst h'. unfold selected. simpl. by rewrite Hg, He.
    + apply (inv_derived0 h'). congruence.
  - intros h' o'. rewrite H1, H2, H3. case_decide as Hd; [subst h'|by apply inv_sub0].
    destruct (is_fetchable e), (is_lookup_candidate lim e), (is_unchecked e);
      intros [?|[?|?]]; congruence.
Qed.

(** ** The assertions on the whole catalog *)

Lemma total_states c :
  inv c -> (total (is_state FETCH_PENDING) c + total (is_state FETCH_IN_PROGRESS) c
    + total (is_state FETCH_DONE) c + total (is_state FETCH_FAILED) c = Z.of_nat (length (entries c)))%Z.
Proof using.
  intros Hc. unfold total. rewrite !sum_over_add, <-sum_over_const. apply sum_over_ext.
  intros h o Hin. apply elem_of_dict_get in Hin; [|apply (inv_tables _ _ Hc)].
  destruct (inv_current _ _ Hc h o Hin) as (e & He & _). unfold weight. rewrite He.
  unfold is_state. by destruct (fetch_state e).
Qed.

Lemma length_fetched c : inv c -> (Z.of_nat (length (fetched c)) <= total (is_state FETCH_DONE) c)%Z.
Proof using.
  intros Hc. destruct (inv_tables _ _ Hc) as (W1 & W2 & _).
  rewrite (length_selected has_metadata c (fetched c) W1 W2 (inv_fetched _ _ Hc)).
  apply sum_over_le. intros h o Hin. apply elem_of_dict_get in Hin; [|done].
  destruct (inv_current _ _ Hc h o Hin) as (e & He & _ & Hm & _). unfold weight. rewrite He.
  unfold is_state. destruct (has_metadata e); [rewrite Hm by done; done|].
  by destruct (bool_decide _).
Qed.

Lemma length_derived c :
  inv c -> (Z.of_nat (length (needs_lookup c)) + Z.of_nat (length (fetchable c))
            <= Z.of_nat (length (entries c)))%Z.
Proof using.
  intros Hc. destruct (inv_tables _ _ Hc) as (W1 & _ & W3 & W4 & _).
  rewrite (length_selected is_fetchable c (fetchable c) W1 W3)
    by (intros h; by apply (inv_derived _ _ Hc)).
  rewrite (length_selected (is_lookup_candidate lim) c (needs_lookup c) W1 W4)
    by (intros h; by apply (inv_derived _ _ Hc)).
  unfold total. rewrite sum_over_add, <-sum_over_const. apply sum_over_le. intros h o _.
  unfold weight. destruct (heap c !! o) as [e|]; [|done]. unfold is_fetchable, is_lookup_candidate.
  destruct (is_ready e), (has_peers e), (lookup_in_progress e); simpl; try done;
    by destruct (_ <? _)%Z.
Qed.

Lemma wp_assert_invariants c (Q : unit -> catalog -> Prop) :
  inv c -> Q tt c -> wp assert_invariants_locked Q c.
Proof using.
  intros Hc HQ. unfold assert_invariants_locked.
  apply wp_bind, wp_assert.
  { rewrite !(inv_counts _ _ Hc), total_states by done. apply Z.eqb_refl. }
  apply wp_bind, wp_assert.
  { rewrite (inv_counts _ _ Hc). apply Z.leb_le. by apply length_fetched. }
  apply wp_assert; [|done]. apply andb_true_iff. split; apply Z.leb_le; [|by apply length_derived].
  rewrite (inv_lookups _ _ Hc). apply total_range.
Qed.
End invariant.
