(* ===== verification/CatalogSafety.v ===== *)
(** The methods of the torrent catalog keep its invariant and never fail an
    assertion.  First the private methods, then the public ones; the calling
    rules that the other components follow are the hypotheses. *)
From S2P Require Import Prelude PyDict Bencode NodeIdentity Krpc TorrentInfo Catalog CatalogInvariant.

(** Compute the state of the goal, when the catalog is explicit. *)
Ltac eval_state := cbv beta;
  lazymatch goal with
  | |- wp ?m ?Q ?c => let c' := catalog_eval c in change (wp m Q c')
  | |- inv _ ?c /\ _ => let g := lazymatch goal with |- ?g => g end in
                       let g' := catalog_eval g in change g'
  end.

Section safety.
Context (lim : limits) (Hlim : limits_ok lim).

Abbreviation inv_at := (inv_at lim).
Abbreviation inv := (inv lim).

(** [o] is the current object of [h], with contents [e]. *)
Definition at_entry (c : catalog) (h : bytes) (o : oid) (e : entry) : Prop :=
  dict_get h (entries c) = Some o /\ heap c !! o = Some e.

Lemma at_entry_hash D c h o e : inv_at D c -> at_entry c h o e -> info_hash e = h.
Proof using. intros Hc [Hg He]. by destruct (current_hash _ _ _ _ _ _ Hc Hg He). Qed.

Lemma at_entry_wf D c h o e :
  inv_at D c -> at_entry c h o e -> entry_wf lim e /\ current_wf lim e.
Proof using.
  intros Hc [Hg He]. split; [by apply (inv_heap _ _ _ Hc o e)|].
  by destruct (current_hash _ _ _ _ _ _ Hc Hg He).
Qed.

Lemma at_entry_exists D c h o :
  inv_at D c -> dict_get h (entries c) = Some o -> exists e, at_entry c h o e.
Proof using. intros Hc Hg. destruct (inv_current _ _ _ Hc h o Hg) as (e & He & _). by exists e. Qed.

Lemma total_member P D c h o e : inv_at D c -> at_entry c h o e -> (b2n (P e) <= total P c)%Z.
Proof using.
  intros Hc [Hg He]. unfold total. rewrite (sum_over_del _ h o) by (done || apply (inv_tables _ _ _ Hc)).
  pose proof (sum_over_range (weight P (heap c)) (dict_del h (entries c)) (weight_range P (heap c))).
  unfold weight at 1. rewrite He. lia.
Qed.

(** A change of an entry object that no counter and no other table sees. *)
Definition quiet (e e' : entry) : Prop :=
  info_hash e' = info_hash e /\ fetch_state e' = fetch_state e /\
  has_metadata e' = has_metadata e /\ lookup_in_progress e' = lookup_in_progress e /\
  known_from_database e' = known_from_database e.

Definition set_entry (o : oid) (e : entry) (c : catalog) : catalog :=
  set_heap (<[o := e]> (heap c)) c.

Lemma at_entry_set c h o e e' : at_entry c h o e -> at_entry (set_entry o e' c) h o e'.
Proof using. intros [Hg He]. split; [done|]. simpl. by rewrite lookup_insert_eq. Qed.

Lemma documents_current D c h o e h' o' :
  inv_at D c -> at_entry c h o e -> dict_get h' (index_documents c) = Some o' -> o' = o ->
  h' = h /\ has_metadata e = true.
Proof using.
  intros Hc Hat Hd ->. destruct (inv_documents _ _ _ Hc h' o Hd) as (e0 & He0 & Hh & Hm).
  pose proof (at_entry_hash _ _ _ _ _ Hc Hat) as Hh'. destruct Hat as [_ He]. naive_solver.
Qed.

Lemma inv_quiet D c h o e e' :
  inv_at D c -> D = None \/ D = Some h -> at_entry c h o e -> quiet e e' ->
  entry_wf lim e' -> current_wf lim e' -> inv_at (Some h) (set_entry o e' c).
Proof using.
  intros Hc HD Hat (Qh & Qs & Qm & Ql & Qk) Hwf Hcur.
  pose proof (at_entry_hash _ _ _ _ _ Hc Hat) as Hh. destruct (Hat) as [Hg He].
  eapply (inv_change lim D c _ h o e e'); try done; simpl.
  - congruence.
  - apply (inv_tables _ _ _ Hc).
  - intros h'. case_decide as Hd; [subst h'|done]. rewrite (inv_fetched _ _ _ Hc).
    unfold selected. by rewrite Hg, He, Qm.
  - apply (inv_tables _ _ _ Hc).
  - intros h' o' Hd. split; [done|]. intros Ho'. rewrite Qm.
    by destruct (documents_current _ _ _ _ _ _ _ Hc Hat Hd Ho').
  - intros s. unfold is_state. rewrite Qs. lia.
  - rewrite Ql. lia.
  - rewrite Qk. lia.
Qed.

(** ** Peers *)

(** [e'] is [e] with other peers and failed peers. *)
Definition peers_only (e e' : entry) : Prop :=
  exists p f, e' = set_failed_peers f (set_peers p e).

Lemma peers_only_refl e : peers_only e e.
Proof using. exists (peers e), (failed_peers e). by destruct e. Qed.

Lemma peers_only_set_peers p e : peers_only e (set_peers p e).
Proof using. exists p, (failed_peers e). by destruct e. Qed.

Lemma peers_only_trans e1 e2 e3 : peers_only e1 e2 -> peers_only e2 e3 -> peers_only e1 e3.
Proof using. intros (p & f & ->) (p' & f' & ->). exists p', f'. by destruct e1. Qed.

Lemma peers_only_quiet e e' : peers_only e e' -> quiet e e'.
Proof using. by intros (p & f & ->). Qed.

Lemma peers_only_wf e e' :
  peers_only e e' -> entry_wf lim e -> current_wf lim e -> peers_wf lim e' ->
  entry_wf lim e' /\ current_wf lim e'.
Proof using.
  intros (p & f & ->) (H1 & H2 & H3 & H4 & H5) Hcur Hp. split; [|done].
  exact (conj H1 (conj H2 (conj H3 (conj H4 Hp)))).
Qed.

(** What a sequence of peer updates of the current object [o] of [h] does. *)
Definition peers_step (h : bytes) (o : oid) (c : catalog) (e : entry) (c' : catalog) : Prop :=
  exists e', at_entry c' h o e' /\ peers_only e e' /\ inv_at (Some h) c' /\
    (c' = c \/ c' = set_entry o e' c).

Lemma peers_step_refl h o c e : inv_at (Some h) c -> at_entry c h o e -> peers_step h o c e c.
Proof using. intros Hc Hat. exists e. eauto using peers_only_refl. Qed.

Lemma peers_step_set h o c e c1 e1 e2 :
  at_entry c h o e -> at_entry c1 h o e1 -> peers_only e e1 -> inv_at (Some h) c1 ->
  (c1 = c \/ c1 = set_entry o e1 c) ->
  peers_only e1 e2 -> peers_wf lim e2 -> peers_step h o c e (set_entry o e2 c1).
Proof using.
  intros Hat Hat1 Hp1 Hc1 Heq Hp2 Hwf. exists e2.
  destruct (at_entry_wf _ _ _ _ _ Hc1 Hat1) as [W1 W2].
  destruct (peers_only_wf e1 e2 Hp2 W1 W2 Hwf) as [W1' W2'].
  split; [by eapply at_entry_set|]. split; [by eapply peers_only_trans|].
  split; [eapply inv_quiet; eauto using peers_only_quiet|].
  right. destruct Heq as [->| ->]; [done|]. unfold set_entry. simpl. by rewrite insert_insert_eq.
Qed.

Lemma peers_wf_current c h o e : inv_at (Some h) c -> at_entry c h o e -> peers_wf lim e.
Proof using. intros Hc Hat. apply (at_entry_wf _ _ _ _ _ Hc Hat). Qed.

Lemma peers_default_wf e : peers_wf lim e ->
  dict_wf (default [] (peers e)) /\ length (default [] (peers e)) <= max_peers_per_hash lim /\
  (forall p, p ∈ (default [] (peers e)).*1 -> p ∉ default [] (failed_peers e)).
Proof using.
  unfold peers_wf. destruct (peers e) as [d|]; [done|]. intros _. simpl.
  split; [constructor|]. split; [lia|]. intros p Hp. by apply elem_of_nil in Hp.
Qed.

Lemma wp_add_peer h o peer c e c0 :
  at_entry c h o e -> peers_step h o c e c0 ->
  wp (add_peer_locked lim o peer) (fun _ => peers_step h o c e) c0.
Proof using Hlim.
  intros Hat (e1 & Hat1 & Hp1 & Hc1 & Heq). unfold add_peer_locked.
  apply wp_bind, (wp_lookup_entry _ e1); [apply Hat1|].
  case_bool_decide as Hf; [by exists e1|].
  destruct (peers_default_wf e1 (peers_wf_current _ _ _ _ Hc1 Hat1)) as (Hd & _ & Hdis).
  assert (1 <= max_peers_per_hash lim) as H1 by apply Hlim.
  rewrite (remember_eq _ _ _ _ H1 Hd). apply wp_bind, (wp_update_entry _ e1); [apply Hat1|].
  pose proof (length_last_items (max_peers_per_hash lim)
    (dict_del peer (default [] (peers e1)) ++ [(peer, tt)])) as Hlen.
  apply wp_bind, wp_assert; [apply bool_decide_eq_true; lia|]. apply wp_ret.
  eapply (peers_step_set h o c e c0 e1); try done.
  { apply peers_only_set_peers. }
  unfold peers_wf. simpl. split; [by apply drop_wf, dict_snoc_wf|]. split; [lia|].
  intros p (kv & -> & Hin)%list_elem_of_fmap. unfold last_items in Hin.
  apply subseteq_drop in Hin.
  apply elem_of_app in Hin as [Hin|Hin]; [|by apply list_elem_of_singleton in Hin as ->].
  apply Hdis. unfold dict_del in Hin. apply list_elem_of_filter in Hin as [_ Hin].
  apply list_elem_of_fmap. eauto.
Qed.

Lemma wp_add_peers h o l c e c0 :
  at_entry c h o e -> peers_step h o c e c0 ->
  wp (for_each l (fun peer => add_peer_locked lim o peer ;; mret tt)) (fun _ => peers_step h o c e) c0.
Proof using Hlim.
  intros Hat Hstep. apply wp_for_each; [done|]. intros peer c1 _ Hstep1.
  apply wp_bind. eapply wp_mono; [by apply wp_add_peer|]. done.
Qed.

(** The calls that return true are at most as many as the calls. *)
Lemma wp_count_true {S A} (f : A -> ST S bool) (I : S -> Prop) l s :
  I s -> (forall x s, I s -> wp (f x) (fun _ => I) s) ->
  wp (count_true f l) (fun n s' => (0 <= n <= Z.of_nat (length l))%Z /\ I s') s.
Proof using.
  intros Hs Hf. revert s Hs. induction l as [|x l IH]; intros s Hs; cbn [count_true length];
    [apply wp_ret; split; [lia|done]|].
  apply wp_bind. eapply wp_mono; [by apply Hf|]. intros b s1 Hs1. apply wp_bind.
  eapply wp_mono; [by apply IH|]. intros n s2 [Hn Hs2]. apply wp_ret. destruct b; split; (done || lia).
Qed.

Lemma wp_forget_peer h o peer c e c0 :
  at_entry c h o e -> peers_step h o c e c0 ->
  wp (forget_peer_locked o peer) (fun _ => peers_step h o c e) c0.
Proof using.
  intros Hat (e1 & Hat1 & Hp1 & Hc1 & Heq). unfold forget_peer_locked.
  destruct (peers_default_wf e1 (peers_wf_current _ _ _ _ Hc1 Hat1)) as (Hd & Hl & Hdis).
  apply wp_bind, (wp_update_entry _ e1); [apply Hat1|].
  apply wp_bind. eapply wp_update_entry; [apply lookup_insert_eq|].
  apply wp_bind. eapply wp_lookup_entry; [apply lookup_insert_eq|]. simpl.
  set (failed := if bool_decide (peer ∈ default [] (failed_peers e1)) then _ else _).
  assert (forall p, p ∈ failed <-> p = peer \/ p ∈ default [] (failed_peers e1)) as Hfailed.
  { intros p. unfold failed. case_bool_decide; [split; [by right|by intros [->|]]|].
    rewrite elem_of_app, list_elem_of_singleton. tauto. }
  assert (forall d : list (address * unit), dict_has peer (dict_del peer d) = false) as Hdel
    by (intros d; apply dict_has_false, dict_get_del_eq).
  apply wp_assert.
  { rewrite (bool_decide_eq_true_2 (peer ∈ failed)) by (apply Hfailed; by left).
    destruct (peers e1) as [d|]; simpl; [by rewrite Hdel|done]. }
  simpl. rewrite insert_insert_eq.
  eapply (peers_step_set h o c e c0 e1); try done.
  { by eexists _, _. }
  unfold peers_wf. simpl. destruct (peers e1) as [d|]; simpl in *; [|done].
  split; [by apply dict_del_wf|]. split.
  - etransitivity; [|exact Hl]. unfold dict_del. apply length_filter.
  - intros p Hp. rewrite dict_del_keys, list_elem_of_filter in Hp. destruct Hp as [Hne Hin].
    rewrite Hfailed. intros [?|?]; [done|by eapply Hdis].
Qed.

(** ** Creating an entry *)

Definition created_catalog (h : bytes) (e : entry) (c : catalog) : catalog :=
  set_discovered (discovered c + 1)%Z (add_count FETCH_PENDING 1
    (set_entries (dict_set h (next_oid c) (entries c))
      (set_heap (<[next_oid c := e]> (heap c)) (set_next_oid (S (next_oid c)) c)))).

Lemma new_entry_wf h now b :
  length h = NODE_ID_LENGTH ->
  entry_wf lim (set_database_checked b (new_entry h now)) /\
  current_wf lim (set_database_checked b (new_entry h now)).
Proof using.
  intros Hh. split; [by repeat split|]. by repeat split.
Qed.

Lemma total_create P c h e :
  inv c -> dict_get h (entries c) = None ->
  total P (created_catalog h e c) = (total P c + b2n (P e))%Z.
Proof using.
  intros Hc Hg. unfold total. simpl. rewrite dict_set_new by done. rewrite sum_over_snoc. f_equal.
  - apply sum_over_ext. intros h' o' Hin. unfold weight. rewrite lookup_insert_ne; [done|].
    apply elem_of_dict_get in Hin; [|apply (inv_tables _ _ _ Hc)].
    destruct (at_entry_exists _ _ _ _ Hc Hin) as (e' & _ & He').
    destruct (inv_heap _ _ _ Hc _ _ He'). lia.
  - unfold weight. by rewrite lookup_insert_eq.
Qed.

Lemma inv_create c h e :
  inv c -> dict_get h (entries c) = None -> info_hash e = h -> entry_wf lim e -> current_wf lim e ->
  fetch_state e = FETCH_PENDING -> has_metadata e = false -> lookup_in_progress e = false ->
  known_from_database e = false -> inv_at (Some h) (created_catalog h e c).
Proof using.
  intros Hc Hg Hh Hwf Hcur Hst Hm Hl Hk.
  destruct (inv_tables _ _ _ Hc) as (W1 & W2 & W3 & W4 & W5 & W6 & W7).
  assert (forall o, dict_get h (entries c) <> Some o) as Hnone by congruence.
  assert (forall o e0, heap c !! o = Some e0 -> o <> next_oid c) as Hfresh.
  { intros o e0 He0 ->. destruct (inv_heap _ _ _ Hc _ _ He0). lia. }
  assert (forall h' o, dict_get h' (entries c) = Some o ->
    dict_get h' (dict_set h (next_oid c) (entries c)) = Some o) as Hset.
  { intros h' o Ho. rewrite dict_get_set_ne; [done|]. intros ->. by eapply Hnone. }
  assert (forall o e0, heap c !! o = Some e0 -> <[next_oid c := e]> (heap c) !! o = Some e0) as Hins.
  { intros o e0 He0. rewrite lookup_insert_ne; [done|]. symmetry. by eapply Hfresh. }
  assert (forall P h', h' <> h -> selected P (created_catalog h e c) h' = selected P c h') as Hsel.
  { intros P h' Hne. unfold selected. simpl. rewrite dict_get_set_ne by done.
    destruct (dict_get h' (entries c)) as [o|] eqn:Ho; [|done].
    destruct (at_entry_exists _ _ _ _ Hc Ho) as (e0 & _ & He0). by rewrite He0, (Hins _ _ He0). }
  split.
  - unfold tables_wf. simpl. split; [by apply dict_set_wf|done].
  - intros h' o. simpl. rewrite dict_get_set. case_decide as Hd.
    + subst h'. intros [= <-]. exists e. by rewrite lookup_insert_eq.
    + intros Ho. destruct (inv_current _ _ _ Hc _ _ Ho) as (e0 & He0 & ? & ?).
      exists e0. by rewrite (Hins _ _ He0).
  - intros o e0. simpl. destruct (decide (next_oid c = o)) as [<-|Hne].
    + rewrite lookup_insert_eq. intros [= <-]. split; [lia|done].
    + rewrite lookup_insert_ne by done. intros He0. destruct (inv_heap _ _ _ Hc _ _ He0). split; [lia|done].
  - intros h' Hh'. assert (h' <> h) by congruence. unfold derived_ok. rewrite !Hsel by done.
    by apply (inv_derived _ _ _ Hc).
  - intros h' o Ho. simpl. apply Hset. by apply (inv_sub _ _ _ Hc).
  - intros h'. simpl. rewrite (inv_fetched _ _ _ Hc). destruct (decide (h' = h)) as [->|Hne]; [|by rewrite Hsel].
    unfold selected. simpl. by rewrite Hg, dict_get_set_eq, lookup_insert_eq, Hm.
  - intros s. rewrite total_create by done. simpl. unfold set_count, is_state. rewrite Hst.
    rewrite (inv_counts _ _ _ Hc s), (inv_counts _ _ _ Hc FETCH_PENDING).
    case_decide as Hd; [subst s; done|]. rewrite bool_decide_eq_false_2 by congruence. simpl.
    unfold is_state. lia.
  - rewrite total_create, Hl by done. simpl. rewrite (inv_lookups _ _ _ Hc). lia.
  - rewrite total_create, Hk by done. simpl. rewrite (inv_known _ _ _ Hc). lia.
  - intros h' o Ho. simpl. destruct (inv_documents _ _ _ Hc _ _ Ho) as (e0 & He0 & ?).
    exists e0. by rewrite (Hins _ _ He0).
  - intros h' o Ho. simpl. apply Hset. by apply (inv_counters _ _ _ Hc).
  - intros o Ho. simpl. destruct (inv_orphans _ _ _ Hc _ Ho) as (e0 & He0 & Hm0 & Hn0).
    exists e0. rewrite (Hins _ _ He0). split; [done|]. split; [done|]. rewrite dict_get_set.
    case_decide as Hd; [|done]. intros [= Heq]. by eapply Hfresh.
  - apply (inv_bounds _ _ _ Hc).
Qed.

(** The entry a public method finds or creates, and what is known of it. *)
Definition found_entry (c : catalog) (h : bytes) (c' : catalog) (o : oid) (created : bool) : Prop :=
  exists e, at_entry c' h o e /\ inv_at (Some h) c' /\
    created = negb (dict_has h (entries c)) /\
    if created then
      c' = created_catalog h e c /\ e = set_database_checked (negb (check_database c)) (new_entry h (first_seen e))
    else c' = c.

Lemma wp_get_or_create c h now :
  inv c -> length h = NODE_ID_LENGTH -> (0 <= now)%Z ->
  wp (get_or_create_locked h now) (fun r c' => found_entry c h c' r.1 r.2) c.
Proof using.
  intros Hc Hh Hnow. unfold get_or_create_locked. apply wp_bind, wp_gets.
  destruct (dict_get h (entries c)) as [o|] eqn:Hg.
  - destruct (at_entry_exists _ _ _ _ Hc Hg) as (e & Hat).
    apply wp_bind, (wp_lookup_entry _ e); [apply Hat|].
    apply wp_bind, wp_assert; [apply bool_decide_eq_true; by apply (at_entry_hash _ _ _ _ _ Hc Hat)|].
    apply wp_ret. exists e. split; [done|]. split; [apply (inv_dirty _ None); auto|].
    unfold dict_has. by rewrite Hg.
  - apply wp_bind, wp_assert; [apply andb_true_iff; split; [by apply is_node_id_of|lia]|].
    apply wp_bind, wp_get. do 5 apply wp_bind, wp_update. apply wp_ret. simpl.
    set (e := set_database_checked (negb (check_database c)) (new_entry h now)).
    destruct (new_entry_wf h now (negb (check_database c)) Hh) as [W1 W2].
    exists e. change (at_entry (created_catalog h e c) h (next_oid c) e /\
      inv_at (Some h) (created_catalog h e c) /\ true = negb (dict_has h (entries c)) /\
      created_catalog h e c = created_catalog h e c /\ e = e).
    split.
    { split; simpl; [apply dict_get_set_eq|apply lookup_insert_eq]. }
    split; [by apply inv_create|]. unfold dict_has. by rewrite Hg.
Qed.

(** ** Changing the state of an entry *)

Definition state_set (o : oid) (e : entry) (s : fetch_state_t) (c : catalog) : catalog :=
  add_count s 1 (set_entry o (set_fetch_state s e) (add_count (fetch_state e) (-1) c)).

Lemma state_set_counts o e s c s' :
  state_counts (state_set o e s c) s' =
    (state_counts c s' - b2n (is_state s' e) + b2n (is_state s' (set_fetch_state s e)))%Z.
Proof using.
  simpl. unfold set_count, is_state. simpl.
  destruct (decide (s' = s)) as [->|H1], (decide (s = fetch_state e)) as [H2|H2];
    repeat case_decide; repeat case_bool_decide; simpl; subst; try congruence; try lia.
Qed.

Lemma wp_set_state c o e s (Q : unit -> catalog -> Prop) :
  heap c !! o = Some e -> (b2n (is_state s e) <= state_counts c s)%Z ->
  Q tt (state_set o e s c) -> wp (set_state_locked o s) Q c.
Proof using.
  intros He Hs HQ. unfold set_state_locked. apply wp_bind, (wp_lookup_entry _ e); [done|].
  apply wp_bind, wp_update. apply wp_bind, (wp_update_entry _ e); [done|].
  apply wp_bind, wp_update, wp_bind, wp_gets. apply wp_assert; [|done].
  change ((1 <=? state_counts (state_set o e s c) s)%Z = true).
  rewrite state_set_counts. unfold is_state at 2. simpl. rewrite bool_decide_eq_true_2 by done.
  simpl. lia.
Qed.

Lemma state_count_member D c h o e s :
  inv_at D c -> at_entry c h o e -> (b2n (is_state s e) <= state_counts c s)%Z.
Proof using. intros Hc Hat. rewrite (inv_counts _ _ _ Hc). by eapply total_member. Qed.

Lemma inv_set_state D c h o e s :
  inv_at D c -> D = None \/ D = Some h -> at_entry c h o e -> current_wf lim (set_fetch_state s e) ->
  inv_at (Some h) (state_set o e s c).
Proof using.
  intros Hc HD Hat Hcur. destruct (at_entry_wf _ _ _ _ _ Hc Hat) as [Hwf _].
  pose proof (at_entry_hash _ _ _ _ _ Hc Hat) as Hh. destruct (Hat) as [Hg He].
  eapply (inv_change lim D c _ h o e (set_fetch_state s e)); try done.
  - apply (inv_tables _ _ _ Hc).
  - intros h'. simpl. case_decide as Hd; [subst h'|done]. rewrite (inv_fetched _ _ _ Hc).
    unfold selected. by rewrite Hg, He.
  - apply (inv_tables _ _ _ Hc).
  - intros h' o' Hd. split; [done|]. intros Ho'.
    by destruct (documents_current _ _ _ _ _ _ _ Hc Hat Hd Ho').
  - apply state_set_counts.
  - simpl. lia.
  - simpl. lia.
Qed.

(** Setting the state of a current entry and repairing its derived tables. *)
Lemma wp_transition D c h o e s (Q : unit -> catalog -> Prop) :
  inv_at D c -> D = None \/ D = Some h -> at_entry c h o e -> current_wf lim (set_fetch_state s e) ->
  (forall c', inv c' -> reindexed (state_set o e s c) c' -> Q tt c') ->
  wp (set_state_locked o s ;; index_entry_locked lim o) Q c.
Proof using.
  intros Hc HD Hat Hcur HQ. apply wp_bind. eapply wp_set_state; [apply Hat|by eapply state_count_member|].
  assert (at_entry (state_set o e s c) h o (set_fetch_state s e)) as Hat'.
  { destruct Hat as [Hg He]. split; [done|]. simpl. by rewrite lookup_insert_eq. }
  eapply (wp_index_entry lim (state_set o e s c) h o); [by eapply inv_set_state|apply Hat'|apply Hat'|].
  auto.
Qed.

Lemma wp_index D c h o e (Q : unit -> catalog -> Prop) :
  inv_at D c -> D = None \/ D = Some h -> at_entry c h o e ->
  (forall c', inv c' -> reindexed c c' -> Q tt c') -> wp (index_entry_locked lim o) Q c.
Proof using.
  intros Hc HD Hat HQ. eapply wp_index_entry; [by eapply inv_dirty|apply Hat|apply Hat|]. auto.
Qed.

(** A catalog whose derived tables differ has the same entries. *)
Lemma reindexed_at c c' h o e : reindexed c c' -> at_entry c h o e -> at_entry c' h o e.
Proof using. by intros (t1 & t2 & t3 & ->). Qed.

Lemma reindexed_eq c c' :
  reindexed c c' -> heap c' = heap c /\ entries c' = entries c /\
    index_documents c' = index_documents c /\ index_counters c' = index_counters c.
Proof using. by intros (t1 & t2 & t3 & ->). Qed.

(** ** Eviction *)

Definition removed_catalog (h : bytes) (o : oid) (e : entry) (c : catalog) (orphans : list oid)
    (dropped bytes' known : Z) (m : gmap oid entry) : catalog :=
  add_count (fetch_state e) (-1) (set_known_done known (set_heap m (set_metadata_bytes bytes'
    (set_index_dropped dropped (set_orphan_counters orphans
      (set_index_counters (dict_del h (index_counters c)) (set_needs_check (dict_del h (needs_check c))
        (set_needs_lookup (dict_del h (needs_lookup c)) (set_fetchable (dict_del h (fetchable c))
          (set_fetched (dict_del h (fetched c)) (set_entries (dict_del h (entries c)) c))))))))))).

Lemma total_remove P c h o e e' (m : gmap oid entry) c' :
  inv c -> at_entry c h o e -> m = <[o := e']> (heap c) -> heap c' = m ->
  entries c' = dict_del h (entries c) -> total P c' = (total P c - b2n (P e))%Z.
Proof using.
  intros Hc [Hg He] -> Hm Hent. unfold total. rewrite Hm, Hent.
  rewrite (sum_over_del _ h o (entries c)) by (done || apply (inv_tables _ _ _ Hc)).
  unfold weight at 2. rewrite He.
  rewrite (sum_over_ext _ (weight P (heap c)) (dict_del h (entries c))); [lia|].
  intros h' o' Hin. unfold weight. rewrite lookup_insert_ne; [done|]. intros <-.
  assert (dict_wf (dict_del h (entries c))) as Hwf' by apply dict_del_wf, (inv_tables _ _ _ Hc).
  apply elem_of_dict_get in Hin; [|done]. rewrite dict_get_del in Hin.
  case_decide; [done|]. by pose proof (current_inj _ _ _ _ _ _ Hc Hg Hin).
Qed.

Lemma inv_remove c h o e orphans dropped bytes' :
  inv c -> at_entry c h o e -> lookup_in_progress e = false ->
  (forall o', o' ∈ orphans -> o' ∈ orphan_counters c \/ (o' = o /\ has_metadata e || in_database e = true)) ->
  (Z.of_nat (length orphans) <= MAX_ORPHAN_COUNTERS)%Z -> (index_dropped c <= dropped)%Z ->
  inv (removed_catalog h o e c orphans dropped bytes' (known_done c - b2n (known_from_database e))
    (<[o := set_known_from_database false e]> (heap c))).
Proof using.
  intros Hc Hat Hl Ho Hlen Hdr. set (e' := set_known_from_database false e).
  set (c' := removed_catalog _ _ _ _ _ _ _ _ _).
  destruct (inv_tables _ _ _ Hc) as (W1 & W2 & W3 & W4 & W5 & W6 & W7).
  pose proof (at_entry_hash _ _ _ _ _ Hc Hat) as Hh.
  destruct (at_entry_wf _ _ _ _ _ Hc Hat) as [Hwf Hcur]. destruct (Hat) as [Hg He].
  assert (forall h', h' <> h -> forall o', dict_get h' (entries c) = Some o' -> o <> o') as Hne.
  { intros h' Hh' o' Ho' ->. by pose proof (current_inj _ _ _ _ _ _ Hc Hg Ho'). }
  assert (forall P, total P c' = total P c - b2n (P e))%Z as Htot
    by (intros P; by eapply total_remove).
  assert (forall P h', selected P c' h' = if decide (h' = h) then None else selected P c h') as Hsel.
  { intros P h'. unfold selected. simpl. rewrite dict_get_del. case_decide as Hd; [done|].
    destruct (dict_get h' (entries c)) as [o'|] eqn:Ho'; [|done].
    by rewrite lookup_insert_ne by by eapply Hne. }
  assert (forall (t : table) h' o', dict_get h' (dict_del h t) = Some o' -> h' <> h /\ dict_get h' t = Some o') as Hdel.
  { intros t h' o'. rewrite dict_get_del. by case_decide. }
  split.
  - unfold tables_wf. simpl. by repeat split; try apply dict_del_wf.
  - intros h' o' [Hn Ho']%Hdel. simpl. rewrite lookup_insert_ne by by eapply Hne.
    by apply (inv_current _ _ _ Hc).
  - intros o' e0. simpl. destruct (decide (o = o')) as [<-|Hn].
    + rewrite lookup_insert_eq. intros [= <-]. split; [by apply (inv_heap _ _ _ Hc o e)|exact Hwf].
    + rewrite lookup_insert_ne by done. apply (inv_heap _ _ _ Hc).
  - intros h' _. unfold derived_ok. rewrite !Hsel. simpl. rewrite !dict_get_del.
    case_decide; [done|]. by apply (inv_derived _ _ _ Hc).
  - intros h' o'. simpl. rewrite !dict_get_del. case_decide; [by intros [?|[?|?]]|]. apply (inv_sub _ _ _ Hc).
  - intros h'. rewrite Hsel. simpl. rewrite dict_get_del. case_decide; [done|]. apply (inv_fetched _ _ _ Hc).
  - intros s. rewrite Htot. simpl. unfold set_count, is_state. rewrite !(inv_counts _ _ _ Hc).
    case_decide as Hs; [subst s; rewrite bool_decide_eq_true_2 by done|rewrite bool_decide_eq_false_2 by done];
      simpl; unfold is_state; lia.
  - rewrite Htot, Hl. simpl. rewrite (inv_lookups _ _ _ Hc). lia.
  - rewrite Htot. simpl. by rewrite (inv_known _ _ _ Hc).
  - intros h' o' Hd. simpl. destruct (inv_documents _ _ _ Hc _ _ Hd) as (e0 & He0 & Hh0 & Hm0).
    destruct (decide (o = o')) as [<-|Hn].
    + rewrite lookup_insert_eq. exists e'. rewrite He in He0. by injection He0 as <-.
    + rewrite lookup_insert_ne by done. eauto.
  - intros h' o' [Hn Ho']%Hdel. simpl. rewrite dict_get_del, decide_False by done.
    by apply (inv_counters _ _ _ Hc).
  - intros o' Hin. simpl. destruct (Ho o' Hin) as [Hold|[-> Hm]].
    + destruct (inv_orphans _ _ _ Hc _ Hold) as (e0 & He0 & Hm0 & Hn0).
      destruct (decide (o = o')) as [<-|Hn].
      * exfalso. rewrite He in He0. injection He0 as <-. by rewrite Hh in Hn0.
      * rewrite lookup_insert_ne by done. exists e0. rewrite dict_get_del. by case_decide.
    + rewrite lookup_insert_eq. exists e'. split; [done|]. split; [done|].
      change (info_hash e') with (info_hash e). by rewrite Hh, dict_get_del_eq.
  - simpl. destruct (inv_bounds _ _ _ Hc) as (? & ? & ?). split; [done|]. split; [done|lia].
Qed.

Lemma wp_add_orphan c o (Q : unit -> catalog -> Prop) :
  (Z.of_nat (length (orphan_counters c)) <= MAX_ORPHAN_COUNTERS)%Z ->
  (forall l d, (forall o', o' ∈ l -> o' ∈ orphan_counters c \/ o' = o) ->
     (Z.of_nat (length l) <= MAX_ORPHAN_COUNTERS)%Z -> (index_dropped c <= d)%Z ->
     Q tt (set_index_dropped d (set_orphan_counters l c))) ->
  wp (add_orphan_locked o) Q c.
Proof using.
  intros Hlen HQ. unfold add_orphan_locked. apply wp_bind, wp_update. apply wp_bind, wp_gets. simpl.
  assert (forall o', o' ∈ orphan_counters c ++ [o] -> o' ∈ orphan_counters c \/ o' = o) as Hin
    by (intros o'; by rewrite elem_of_app, list_elem_of_singleton).
  apply wp_bind, wp_when; intros Hm.
  - apply wp_bind, wp_update, wp_update. apply wp_bind, wp_gets. simpl.
    assert (Z.of_nat (length (tail (orphan_counters c ++ [o]))) <= MAX_ORPHAN_COUNTERS)%Z as Hl.
    { destruct (orphan_counters c); simpl in *; [done|]. rewrite length_app. simpl. lia. }
    apply wp_assert; [by apply Z.leb_le|]. apply HQ; [|done|lia].
    intros o' Ho'. apply Hin. destruct (orphan_counters c ++ [o]); [done|by right].
  - apply wp_bind, wp_gets. simpl. apply Z.ltb_ge in Hm. apply wp_assert; [by apply Z.leb_le|].
    apply (HQ (orphan_counters c ++ [o]) (index_dropped c)); [done|done|lia].
Qed.

Definition forgotten (o : oid) (e : entry) (c : catalog) : catalog :=
  set_known_done (known_done c - b2n (known_from_database e))%Z
    (set_entry o (set_known_from_database false e) c).

Lemma wp_forget_known c o e (Q : unit -> catalog -> Prop) :
  heap c !! o = Some e -> (b2n (known_from_database e) <= known_done c)%Z ->
  Q tt (forgotten o e c) -> wp (forget_known_locked o) Q c.
Proof using.
  intros He Hk HQ. unfold forget_known_locked. apply wp_bind, (wp_lookup_entry _ e); [done|].
  apply wp_bind, wp_when; intros Hkn; rewrite Hkn in Hk; simpl in Hk.
  - apply wp_bind, (wp_update_entry _ e); [done|]. apply wp_update. apply wp_bind, wp_gets. simpl.
    apply wp_assert; [lia|]. unfold forgotten in HQ. by rewrite Hkn in HQ.
  - apply wp_bind, wp_gets. apply wp_assert; [lia|].
    assert (forgotten o e c = c) as Heq; [|by rewrite Heq in HQ].
    unfold forgotten, set_entry. rewrite Hkn, Z.sub_0_r.
    replace (set_known_from_database false e) with e by (rewrite <-Hkn; by destruct e).
    rewrite insert_id by done. by destruct c.
Qed.

Lemma wp_evict_entry c h o e :
  inv c -> at_entry c h o e -> is_evictable e = true ->
  wp (evict_entry o) (fun _ c' => inv c' /\ entries c' = dict_del h (entries c) /\
    heap c' = <[o := set_known_from_database false e]> (heap c)) c.
Proof using.
  intros Hc Hat Hev. pose proof (at_entry_hash _ _ _ _ _ Hc Hat) as Hh. destruct (Hat) as [Hg He].
  destruct (at_entry_wf _ _ _ _ _ Hc Hat) as [(_ & _ & _ & Hbase & _) _].
  assert (b2n (known_from_database e) <= known_done c)%Z as Hk
    by (rewrite (inv_known _ _ _ Hc); by eapply total_member).
  destruct (inv_bounds _ _ _ Hc) as (Hlen & _ & _).
  assert (lookup_in_progress e = false) as Hl
    by (unfold is_evictable in Hev; rewrite andb_true_iff, !negb_true_iff in Hev; apply Hev).
  assert (forall l d b c', (forall o', o' ∈ l -> o' ∈ orphan_counters c \/ (o' = o /\ is_Some (index_base e))) ->
    (Z.of_nat (length l) <= MAX_ORPHAN_COUNTERS)%Z -> (index_dropped c <= d)%Z ->
    c' = removed_catalog h o e c l d b (known_done c - b2n (known_from_database e))
           (<[o := set_known_from_database false e]> (heap c)) ->
    inv c' /\ entries c' = dict_del h (entries c) /\
    heap c' = <[o := set_known_from_database false e]> (heap c)) as Hfinal.
  { intros l d b c' Hl1 Hl2 Hd ->. split; [|done]. apply inv_remove; try done.
    intros o' [Ho'|[-> Hb]]%Hl1; [by left|right]. split; [done|].
    destruct Hb as [b' Hb]. rewrite (proj1 (Hbase b' Hb)). by rewrite orb_true_r. }
  destruct c as [? ? ? ? ? ? ? ? ? ? ? ? ? ? ? oc ? ? ? ? ?]. unfold evict_entry. apply wp_bind, (wp_lookup_entry _ e); [done|]. rewrite Hh.
  do 6 (apply wp_bind, wp_update; eval_state). apply wp_bind, wp_when; intros Horphan; [apply wp_add_orphan; [done|];
    intros l d Hl' Hll Hd; apply andb_true_iff in Horphan as [Hb%bool_decide_eq_true _];
    assert (forall o', o' ∈ l -> o' ∈ oc \/ (o' = o /\ is_Some (index_base e))) as Hl2
      by (intros o' [?|?]%Hl'; auto)|];
    eval_state; (apply wp_bind, wp_when; intros _; [apply wp_update|]); eval_state;
    (apply wp_bind; eapply wp_forget_known; [exact He|exact Hk|]); unfold forgotten, set_entry;
    eval_state; apply wp_update; unfold add_count; eval_state.
  all: eapply Hfinal; [| | |reflexivity]; [first [exact Hl2|by left]|done|simpl in *; lia].
Qed.

(** The objects a loop still has to treat: distinct, current, with a
    condition. *)
Definition to_treat (P : entry -> bool) (c : catalog) (l : list oid) : Prop :=
  NoDup l /\ forall o, o ∈ l -> exists h e, at_entry c h o e /\ P e = true.

Lemma to_treat_cons P c o l :
  to_treat P c (o :: l) -> exists h e, at_entry c h o e /\ P e = true /\ (o ∉ l) /\ to_treat P c l.
Proof using.
  intros [[Ho Hl]%NoDup_cons Hin]. destruct (Hin o) as (h & e & Hat & HP); [left|].
  exists h, e. do 3 (split; [done|]). split; [done|]. intros o' Ho'. apply Hin. by right.
Qed.

(** Treating one object keeps the others to be treated. *)
Lemma to_treat_step P c c' h o e' l :
  inv c -> dict_get h (entries c) = Some o -> o ∉ l ->
  (forall h', h' <> h -> dict_get h' (entries c') = dict_get h' (entries c)) ->
  heap c' = <[o := e']> (heap c) -> to_treat P c l -> to_treat P c' l.
Proof using.
  intros Hc Hg Ho Hent Hheap [Hnd Hin]. split; [done|]. intros o' Ho'.
  destruct (Hin o' Ho') as (h' & e & [Hg' He] & HP). exists h', e. split; [|done].
  assert (o <> o') as Hne by (intros ->; done). split.
  - rewrite Hent; [done|]. intros ->. congruence.
  - by rewrite Hheap, lookup_insert_ne.
Qed.

Lemma elem_of_table_entries t c o e :
  (o, e) ∈ table_entries t c <-> exists h, (h, o) ∈ t /\ heap c !! o = Some e.
Proof using.
  unfold table_entries. rewrite list_elem_of_omap. split.
  - intros ([h o'] & Hin & Heq). simpl in Heq. destruct (heap c !! o') as [e'|] eqn:He; [|done].
    simpl in Heq. injection Heq as -> ->. eauto.
  - intros (h & Hin & He). exists (h, o). split; [done|]. simpl. by rewrite He.
Qed.

(** The objects of a table whose bindings are current are distinct. *)
Lemma current_table_NoDup D t c :
  inv_at D c -> dict_wf t -> (forall h o, dict_get h t = Some o -> dict_get h (entries c) = Some o) ->
  NoDup t.*2.
Proof using.
  intros Hc Ht Hcur.
  assert (forall h h' o, (h, o) ∈ t -> (h', o) ∈ t -> h = h') as Hinj.
  { intros h h' o H1 H2. apply elem_of_dict_get in H1, H2; [|done..].
    by eapply current_inj; [exact Hc| |]; apply Hcur. }
  clear Hcur. unfold dict_wf in Ht. induction t as [|[h o] t IH]; csimpl in *; [constructor|].
  apply NoDup_cons in Ht as [Hh Ht]. apply NoDup_cons. split.
  - intros ([h' o'] & -> & Hin)%list_elem_of_fmap. apply Hh, list_elem_of_fmap.
    exists (h', o'). split; [|done]. simpl. symmetry.
    eapply (Hinj _ _ o'); [by right|left].
  - apply IH; [done|]. intros h1 h2 o' H1 H2. eapply Hinj; right; eauto.
Qed.

Lemma table_entries_NoDup t c :
  inv c -> dict_wf t -> (forall h o, dict_get h t = Some o -> dict_get h (entries c) = Some o) ->
  NoDup (table_entries t c).*1.
Proof using.
  intros Hc Ht Hcur. pose proof (current_table_NoDup _ _ _ Hc Ht Hcur) as Hnd.
  clear Hcur Ht. induction t as [|[h o] t IH]; csimpl in *; [constructor|].
  apply NoDup_cons in Hnd as [Ho Hnd]. unfold table_entries. simpl.
  destruct (heap c !! o) as [e|] eqn:He; simpl; [|by apply IH].
  apply NoDup_cons. split; [|by apply IH].
  intros ([o' e'] & -> & Hin)%list_elem_of_fmap.
  apply (elem_of_table_entries t c) in Hin as (h' & Hin & _). apply Ho, list_elem_of_fmap.
  by exists (h', o').
Qed.

(** Some of the entries of such a table, chosen by a condition. *)
Lemma to_treat_table P t c l :
  inv c -> dict_wf t -> (forall h o, dict_get h t = Some o -> dict_get h (entries c) = Some o) ->
  (forall oe, oe ∈ l -> oe ∈ table_entries t c /\ P oe.2 = true) -> NoDup l.*1 -> to_treat P c l.*1.
Proof using.
  intros Hc Ht Hcur Hl Hnd. split; [done|].
  intros o ([o' e] & -> & Hin)%list_elem_of_fmap. destruct (Hl _ Hin) as [Ht' HP].
  apply elem_of_table_entries in Ht' as (h & Hh & He). exists h, e. split; [|done].
  split; [|done]. apply Hcur. by apply elem_of_dict_get.
Qed.

Lemma sublist_fst_NoDup {A B} (l k : list (A * B)) : sublist l k -> NoDup k.*1 -> NoDup l.*1.
Proof using. intros Hs Hk. eapply sublist_NoDup; [exact Hk|]. by apply fmap_sublist. Qed.

Lemma victims_to_treat n c : inv c -> to_treat is_evictable c (victims n c).
Proof using.
  intros Hc. unfold victims. set (all := table_entries (entries c) c).
  set (cheap := take n _). set (remaining := filter _ all). set (others := take _ _).
  assert (NoDup all.*1) as Hall
    by (apply table_entries_NoDup; [done|apply (inv_tables _ _ _ Hc)|done]).
  assert (forall oe, oe ∈ others -> oe ∈ remaining) as Hothers.
  { intros oe Hin%subseteq_take. by apply elem_of_sort_by in Hin. }
  assert (forall oe, oe ∈ cheap -> oe ∈ all /\ is_cheap oe.2 = true) as Hcheap.
  { intros oe Hin%subseteq_take. by apply list_elem_of_filter in Hin as [? ?]. }
  apply (to_treat_table _ (entries c)); [done|apply (inv_tables _ _ _ Hc)|done| |].
  - intros oe [Hin|Hin]%elem_of_app.
    + destruct (Hcheap _ Hin) as [Ha Hch]. split; [done|]. unfold is_cheap in Hch.
      by apply andb_true_iff in Hch as [_ ?].
    + apply Hothers, list_elem_of_filter in Hin as [[_ ?] ?]. done.
  - rewrite fmap_app. apply NoDup_app. split; [|split].
    + eapply sublist_fst_NoDup; [|exact Hall]. etransitivity; [apply sublist_take|apply sublist_filter].
    + intros o ([o1 e1] & -> & H1)%list_elem_of_fmap ([o2 e2] & Heq & H2)%list_elem_of_fmap.
      simpl in Heq. subst o2. apply Hothers, list_elem_of_filter in H2 as [[Hn _] H2].
      apply Hn. apply list_elem_of_fmap. exists e2. split; [done|].
      apply list_elem_of_fmap. exists (o1, e1). split; [|done].
      destruct (Hcheap _ H1) as [H1' _].
      apply elem_of_table_entries in H1' as (? & _ & He1), H2 as (? & _ & He2). simpl. congruence.
    + eapply sublist_fst_NoDup; [apply sublist_take|].
      apply (NoDup_Permutation_proper _ (remaining.*1)); [by rewrite sort_by_Permutation|].
      eapply sublist_fst_NoDup; [apply sublist_filter|done].
Qed.

(** Entry objects outlive eviction, with their counters. *)
Definition seen_kept (c c' : catalog) : Prop :=
  forall o e, heap c !! o = Some e -> exists e', heap c' !! o = Some e' /\ seen_count e' = seen_count e.

(** What makes an entry claimed: a fetch or a lookup that runs. *)
Definition claims_of (e : entry) : fetch_state_t * bool := (fetch_state e, lookup_in_progress e).

Lemma claims_evictable e e' : claims_of e' = claims_of e -> is_evictable e' = is_evictable e.
Proof using. unfold claims_of, is_evictable, is_state. by intros [= -> ->]. Qed.

(** Claimed entries stay in the catalog, and stay claimed. *)
Definition claims_kept (c c' : catalog) : Prop :=
  forall h o e, at_entry c h o e -> is_evictable e = false ->
    exists e', at_entry c' h o e' /\ claims_of e' = claims_of e.

#[global] Instance claims_kept_preorder : PreOrder claims_kept.
Proof using.
  split; [intros c h o e Hat _; by exists e|]. intros c c1 c2 H1 H2 h o e Hat He.
  destruct (H1 h o e Hat He) as (e1 & Hat1 & Hc1). pose proof (claims_evictable _ _ Hc1) as He1. rewrite He in He1.
  destruct (H2 h o e1 Hat1 He1) as (e2 & Hat2 & Hc2). exists e2. split; [done|congruence].
Qed.

(** What eviction leaves: [n] entries fewer, and every claimed one. *)
Definition evicts (n : nat) (c c' : catalog) : Prop :=
  seen_kept c c' /\ length (entries c') + n = length (entries c) /\
  forall h o e, at_entry c h o e -> is_evictable e = false -> at_entry c' h o e.

Lemma wp_evict_all c l :
  inv c -> to_treat is_evictable c l ->
  wp (for_each l evict_entry) (fun _ c' => inv c' /\ evicts (length l) c c') c.
Proof using.
  intros Hc Hl. eapply wp_mono; [apply (wp_for_each_list _
    (fun l' c' => inv c' /\ to_treat is_evictable c' l' /\ length l' <= length l /\
      evicts (length l - length l') c c'))|].
  { split; [done|]. split; [done|]. split; [done|]. split; [intros o e He; eauto|].
    rewrite Nat.sub_diag. split; [lia|done]. }
  2: { intros _ c' (? & _ & _ & He). simpl in He. rewrite Nat.sub_0_r in He. done. }
  clear Hc Hl. intros o l' c1 (Hc & Hl & Hlen & Hk & Hn & Hkept).
  destruct (to_treat_cons _ _ _ _ Hl) as (h & e & Hat & Hev & Ho & Hl'). simpl in *.
  eapply wp_mono; [by apply wp_evict_entry|]. intros _ c' (Hc' & Hent & Hheap). split; [done|].
  split; [|split; [lia|split; [|split]]].
  - eapply to_treat_step; [exact Hc|apply Hat|done| |exact Hheap|done].
    intros h' Hne. by rewrite Hent, dict_get_del_ne.
  - intros o' e0 He0. destruct (Hk _ _ He0) as (e1 & He1 & Hs). rewrite Hheap.
    destruct (decide (o = o')) as [<-|Hne]; [|rewrite lookup_insert_ne by done; eauto].
    rewrite lookup_insert_eq. eexists. split; [done|]. destruct Hat as [_ He]. simpl. congruence.
  - destruct Hat as [Hg _]. pose proof (length_dict_del h o (entries c1) (proj1 (inv_tables _ _ _ Hc)) Hg).
    rewrite Hent. lia.
  - intros h' o' e' Hat' Hev'. destruct (Hkept _ _ _ Hat' Hev') as [Hg1 He1]. destruct Hat as [Hg He].
    assert (o' <> o) as Hne by (intros ->; congruence). split.
    + rewrite Hent, dict_get_del_ne; [done|]. intros ->. congruence.
    + by rewrite Hheap, lookup_insert_ne.
Qed.

Lemma length_victims n c : length (victims n c) <= n.
Proof using. unfold victims. rewrite length_fmap, length_app, !length_take. lia. Qed.

(** The statistics are not part of the invariant. *)
Lemma inv_statistics D c obs disc ev tracking mb :
  inv_at D c -> inv_at D (set_metadata_bytes mb (set_index_tracking tracking
    (set_evicted ev (set_discovered disc (set_observations obs c))))).
Proof using. intros []. by split. Qed.

(** When an entry can be evicted, one is. *)
Lemma victims_nonempty n c h o e :
  inv c -> 0 < n -> at_entry c h o e -> is_evictable e = true -> 0 < length (victims n c).
Proof using.
  intros Hc Hn [Hg He] Hev. unfold victims. set (all := table_entries (entries c) c).
  rewrite length_fmap, length_app. set (cheap := take n (filter _ all)).
  destruct cheap as [|x cheap'] eqn:Hcheap; [|simpl; lia].
  simpl. rewrite Nat.sub_0_r, length_take, length_sort_by.
  match goal with |- context [filter ?P all] => set (rest := filter P all) end.
  assert ((o, e) ∈ rest) as Hin.
  { apply list_elem_of_filter. split; [split; [apply not_elem_of_nil|done]|].
    apply elem_of_table_entries. exists h. split; [by apply dict_get_elem_of|done]. }
  destruct rest; [by apply not_elem_of_nil in Hin|]. simpl. lia.
Qed.

Lemma wp_evict c :
  inv c -> wp (evict_locked lim) (fun _ c' => inv c' /\ exists n, evicts n c c' /\
    ((exists h o e, at_entry c h o e /\ is_evictable e = true) -> 0 < n)) c.
Proof using.
  intros Hc. unfold evict_locked. apply wp_bind, wp_gets.
  set (wanted := Z.to_nat _). pose proof (length_victims wanted c).
  apply wp_bind. eapply wp_mono; [apply wp_evict_all; [done|by apply victims_to_treat]|].
  intros [] c' [Hc' Hk]. apply wp_bind, wp_update.
  apply wp_bind, wp_assert; [by apply bool_decide_eq_true|].
  apply wp_ret. split; [destruct Hc'; by split|]. exists (length (victims wanted c)). split; [exact Hk|].
  intros (h & o & e & Hat & Hev). eapply victims_nonempty; [done| |done..]. unfold wanted. lia.
Qed.

(** Adding a current entry to the counter queue. *)
Lemma inv_add_counter D c h o e :
  inv_at D c -> at_entry c h o e ->
  inv_at D (set_index_counters (dict_setdefault h o (index_counters c)) c).
Proof using.
  intros Hc [Hg He]. destruct (inv_tables _ _ _ Hc) as (W1 & W2 & W3 & W4 & W5 & W6 & W7).
  split; try (by destruct Hc).
  - unfold tables_wf. simpl. by repeat split; try apply dict_setdefault_wf.
  - intros h' o'. simpl. rewrite dict_get_setdefault. case_decide as Hd; [subst h'|apply (inv_counters _ _ _ Hc)].
    destruct (dict_get h (index_counters c)) as [o0|] eqn:H0; simpl; [|congruence].
    intros [= <-]. by apply (inv_counters _ _ _ Hc).
Qed.

(** Taking a hash out of the queue, or out of a derived table. *)
Lemma inv_del_counter D c h :
  inv_at D c -> inv_at D (set_index_counters (dict_del h (index_counters c)) c).
Proof using.
  intros Hc. destruct (inv_tables _ _ _ Hc) as (W1 & W2 & W3 & W4 & W5 & W6 & W7).
  split; try (by destruct Hc).
  - unfold tables_wf. simpl. by repeat split; try apply dict_del_wf.
  - intros h' o'. simpl. rewrite dict_get_del. case_decide; [done|apply (inv_counters _ _ _ Hc)].
Qed.

Lemma inv_del_needs_lookup D c h :
  inv_at D c -> D = None \/ D = Some h ->
  inv_at (Some h) (set_needs_lookup (dict_del h (needs_lookup c)) c).
Proof using.
  intros Hc HD. apply (inv_dirty _ D c h) in Hc; [|done].
  destruct (inv_tables _ _ _ Hc) as (W1 & W2 & W3 & W4 & W5 & W6 & W7).
  split; try (by destruct Hc).
  - unfold tables_wf. simpl. by repeat split; try apply dict_del_wf.
  - intros h' Hh'. destruct ((inv_derived _ _ _ Hc) h' Hh') as (? & ? & ?).
    unfold derived_ok. simpl. rewrite dict_get_del_ne by congruence. done.
  - intros h' o'. simpl. rewrite dict_get_del. case_decide; [|apply (inv_sub _ _ _ Hc)].
    intros [?|[?|?]]; [apply (inv_sub _ _ _ Hc); auto|done|apply (inv_sub _ _ _ Hc); auto].
Qed.

Lemma inv_del_needs_check D c h :
  inv_at D c -> D = None \/ D = Some h ->
  inv_at (Some h) (set_needs_check (dict_del h (needs_check c)) c).
Proof using.
  intros Hc HD. apply (inv_dirty _ D c h) in Hc; [|done].
  destruct (inv_tables _ _ _ Hc) as (W1 & W2 & W3 & W4 & W5 & W6 & W7).
  split; try (by destruct Hc).
  - unfold tables_wf. simpl. by repeat split; try apply dict_del_wf.
  - intros h' Hh'. destruct ((inv_derived _ _ _ Hc) h' Hh') as (? & ? & ?).
    unfold derived_ok. simpl. rewrite dict_get_del_ne by congruence. done.
  - intros h' o'. simpl. rewrite dict_get_del. case_decide; [|apply (inv_sub _ _ _ Hc)].
    intros [?|[?|?]]; [apply (inv_sub _ _ _ Hc); auto..|done].
Qed.

(** ** Recording a sighting *)

(** Updating the current entry of a hash, the catalog then being known only by
    its invariant and that entry. *)
Lemma wp_update_quiet D c h o e f (Q : unit -> catalog -> Prop) :
  inv_at D c -> D = None \/ D = Some h -> at_entry c h o e -> quiet e (f e) ->
  entry_wf lim (f e) -> current_wf lim (f e) ->
  (forall c', inv_at (Some h) c' -> at_entry c' h o (f e) -> c' = set_entry o (f e) c -> Q tt c') ->
  wp (update_entry o f) Q c.
Proof using.
  intros Hc HD Hat Hq Hwf Hcur HQ. eapply wp_update_entry; [apply Hat|].
  apply HQ; [by eapply inv_quiet|by eapply at_entry_set|done].
Qed.

Lemma entry_wf_seen e : entry_wf lim e -> entry_wf lim (set_seen_count (seen_count e + 1) e).
Proof using.
  intros (A & B & C & D & E). split; [exact A|split; [simpl; lia|split; [exact C|exact (conj D E)]]].
Qed.

Lemma entry_wf_announce e : entry_wf lim e -> entry_wf lim (set_announce_count (announce_count e + 1) e).
Proof using.
  intros (A & B & C & D & E). split; [exact A|split; [exact B|split; [simpl; lia|exact (conj D E)]]].
Qed.

(** The catalog [c] while the entry [o] of [h] of [c0] is updated, now to [e]. *)
Definition visit (h : bytes) (o : oid) (c0 c : catalog) (e : entry) : Prop :=
  inv_at (Some h) c /\ at_entry c h o e /\ entries c = entries c0 /\
  (forall o' e', o' <> o -> heap c0 !! o' = Some e' -> heap c !! o' = Some e') /\
  (forall e0, heap c0 !! o = Some e0 -> claims_of e = claims_of e0).

Lemma visit_refl h o c e : inv_at (Some h) c -> at_entry c h o e -> visit h o c c e.
Proof using. intros Hc Hat. split; [done|]. split; [done|]. destruct Hat. by naive_solver. Qed.

Lemma visit_step h o c0 c e c' e' :
  visit h o c0 c e -> inv_at (Some h) c' -> at_entry c' h o e' -> entries c' = entries c ->
  (forall o', o' <> o -> heap c' !! o' = heap c !! o') -> claims_of e' = claims_of e ->
  visit h o c0 c' e'.
Proof using.
  intros (_ & _ & Hent & Hheap & Hev) Hc' Hat' Hent' Hheap' Hev'. split; [done|]. split; [done|].
  split; [congruence|]. split.
  - intros o' e1 Hne He1. rewrite Hheap' by done. by apply Hheap.
  - intros e0 He0. rewrite Hev'. by apply Hev.
Qed.

Lemma quiet_claims e e' : quiet e e' -> claims_of e' = claims_of e.
Proof using. intros (_ & Hs & _ & Hl & _). unfold claims_of. by rewrite Hs, Hl. Qed.

Lemma visit_update h o c0 c e f (Q : unit -> catalog -> Prop) :
  visit h o c0 c e -> quiet e (f e) -> entry_wf lim (f e) ->
  (current_wf lim e -> current_wf lim (f e)) -> (forall c', visit h o c0 c' (f e) -> Q tt c') ->
  wp (update_entry o f) Q c.
Proof using.
  intros Hv Hq Hwf Hcur HQ. destruct Hv as (Hc & Hat & Hrest). pose proof (conj Hc (conj Hat Hrest)) as Hv.
  destruct (at_entry_wf _ _ _ _ _ Hc Hat) as [_ W2].
  eapply wp_update_quiet; [exact Hc|by right|exact Hat|done|done|by apply Hcur|].
  intros c' Hc' Hat' ->. apply HQ. eapply visit_step; [exact Hv|exact Hc'|exact Hat'|done| |by apply quiet_claims].
  intros o' Hne. simpl. by rewrite lookup_insert_ne.
Qed.

(** What recording a sighting of [h] does to the other entries. *)
Definition recorded (c c' : catalog) : Prop :=
  claims_kept c c' /\
  ((Z.of_nat (length (entries c)) <= max_entries lim)%Z ->
   (Z.of_nat (length (entries c')) <= max_entries lim)%Z).

(** After getting or creating the entry of [h]: every old entry is there, and
    the table is no larger or its new entry can be evicted. *)
Lemma found_visit c h c1 o created :
  inv c -> found_entry c h c1 o created -> exists e, visit h o c1 c1 e /\
    created = negb (dict_has h (entries c)) /\
    (forall h' o' e', at_entry c h' o' e' -> at_entry c1 h' o' e') /\
    length (entries c1) <= S (length (entries c)) /\
    (is_evictable e = true \/ length (entries c1) = length (entries c)).
Proof using.
  intros Hc (e & Hat & Hc1 & Hcr & Hcase). exists e. split; [by apply visit_refl|]. split; [done|].
  destruct created; [|subst c1; auto].
  destruct Hcase as [-> ->]. symmetry in Hcr. apply negb_true_iff, dict_has_false in Hcr.
  split; [|split].
  - intros h' o' e' [Hg He]. split; simpl.
    + rewrite dict_get_set_ne; [done|]. congruence.
    + rewrite lookup_insert_ne; [done|]. destruct (inv_heap _ _ _ Hc _ _ He). lia.
  - simpl. rewrite dict_set_new, length_app by done. simpl. lia.
  - by left.
Qed.

Lemma wp_record_evict h o c0 c e :
  inv c -> visit h o c0 c e ->
  wp (when_st (max_entries lim <? Z.of_nat (length (entries c)))%Z (evict_locked lim ;; mret tt))
    (fun _ c' => inv c' /\ seen_kept c c' /\
      claims_kept c0 c' /\
      (is_evictable e = true \/ (Z.of_nat (length (entries c0)) <= max_entries lim)%Z ->
       (Z.of_nat (length (entries c0)) <= max_entries lim + 1)%Z ->
       (Z.of_nat (length (entries c')) <= max_entries lim)%Z)) c.
Proof using.
  intros Hc (_ & Hat & Hent & Hheap & Hev).
  assert (claims_kept c0 c) as Hclaimed.
  { intros h' o' e' [Hg' He'] Hn. destruct (decide (o' = o)) as [->|Hne].
    - exists e. split; [|by apply Hev]. split; [by rewrite Hent|apply Hat].
    - exists e'. split; [|done]. split; [by rewrite Hent|by apply Hheap]. }
  apply wp_when; intros Hover.
  - apply Z.ltb_lt in Hover. rewrite Hent in Hover. apply wp_bind.
    eapply wp_mono; [by apply wp_evict|]. intros _ c' (Hc' & n & (Hk & Hlen & Hkept) & Hn).
    apply wp_ret. split; [done|]. split; [done|]. split.
    + etrans; [exact Hclaimed|]. intros h' o' e' Hat' Hn'. exists e'. split; [by apply Hkept|done].
    + intros Hcase Hmax. assert (0 < n) by (apply Hn; exists h, o, e; destruct Hcase; [done|lia]).
      rewrite Hent in Hlen. lia.
  - apply Z.ltb_ge in Hover. split; [done|]. split; [intros ? ? ?; eauto|]. split.
    + exact Hclaimed.
    + intros _ _. exact Hover.
Qed.

Lemma visit_peers h o c0 c e c' :
  visit h o c0 c e -> peers_step h o c e c' -> exists e', visit h o c0 c' e' /\ peers_only e e'.
Proof using.
  intros Hv (e' & Hat' & Hp & Hc' & Heq). exists e'. split; [|done].
  eapply visit_step; [exact Hv|done|done| | |by apply quiet_claims, peers_only_quiet].
  - by destruct Heq as [->| ->].
  - intros o' Hne. destruct Heq as [->| ->]; [done|]. simpl. by rewrite lookup_insert_ne.
Qed.

(** Updating an entry that has been seen. *)
Definition seen_visit (h : bytes) (o : oid) (c0 c : catalog) : Prop :=
  exists e, visit h o c0 c e /\ (1 <= seen_count e)%Z.

Lemma wp_sighting {A} h o c0 c e source moment (k : ST catalog A) Q :
  visit h o c0 c e -> (forall c', seen_visit h o c0 c' -> wp k Q c') ->
  wp (update_entry o (fun e => set_seen_count (seen_count e + 1)%Z e) ;;
      update_entry o (fun e => set_last_seen (Z.max (last_seen e) moment) e) ;;
      when_st (bool_decide (source = SOURCE_ANNOUNCE_PEER))
        (update_entry o (fun e => set_announce_count (announce_count e + 1)%Z e)) ;;
      k) Q c.
Proof using.
  intros Hv HQ. destruct Hv as (Hc & Hat & Hrest). pose proof (conj Hc (conj Hat Hrest)) as Hv.
  destruct (at_entry_wf _ _ _ _ _ Hc Hat) as [W1 _]. clear Hc Hat Hrest.
  apply wp_bind. eapply visit_update; [exact Hv|done|by apply entry_wf_seen|done|]. clear c Hv. intros c Hv.
  assert (0 <= seen_count e)%Z as Hs by (destruct W1 as (_ & W & _); lia).
  apply entry_wf_seen in W1. set (e1 := set_seen_count _ e) in *.
  assert (1 <= seen_count e1)%Z as Hs1 by (unfold e1; simpl; lia). clear Hs. rename Hs1 into Hs.
  clearbody e1. clear e. apply wp_bind.
  eapply visit_update; [exact Hv|done|exact W1|done|]. clear c Hv. intros c Hv.
  set (e2 := set_last_seen _ e1) in *. change (1 <= seen_count e2)%Z in Hs. change (entry_wf lim e2) in W1.
  clearbody e2. clear e1. apply wp_bind, wp_when; intros _; [|apply HQ; by exists e2].
  eapply visit_update; [exact Hv|done|by apply entry_wf_announce|done|].
  intros c' Hv'. apply HQ. by eexists.
Qed.

Lemma wp_record_peer {A} h o c0 c peer (k : ST catalog A) Q :
  seen_visit h o c0 c -> (forall c', seen_visit h o c0 c' -> wp k Q c') ->
  wp (e ← lookup_entry o;
      (match peer with
       | Some peer => if is_state FETCH_DONE e then mret tt else (add_peer_locked lim o peer ;; mret tt)
       | None => mret tt
       end) ;;
      k) Q c.
Proof using Hlim.
  intros (e & Hv & Hs) HQ. destruct Hv as (Hc & Hat & Hrest). pose proof (conj Hc (conj Hat Hrest)) as Hv.
  apply wp_bind, (wp_lookup_entry _ e); [apply Hat|].
  apply wp_bind.
  destruct peer as [peer|]; [|apply HQ; by exists e]. destruct (is_state FETCH_DONE e); [apply HQ; by exists e|].
  apply wp_bind. eapply wp_mono; [apply (wp_add_peer h o peer c e); [done|by apply peers_step_refl]|].
  intros b c2 Hstep. destruct (visit_peers _ _ _ _ _ _ Hv Hstep) as (e2 & Hv2 & p & f & ->).
  apply wp_ret, HQ. by eexists.
Qed.

Lemma wp_record_index {A} h o c0 c (k : ST catalog A) Q :
  seen_visit h o c0 c -> (forall c', inv c' -> seen_visit h o c0 c' -> wp k Q c') ->
  wp (update (fun c => set_needs_lookup (dict_del h (needs_lookup c)) c) ;;
      index_entry_locked lim o ;;
      e ← lookup_entry o;
      tracking ← gets index_tracking;
      when_st (tracking && (has_metadata e || in_database e))
        (update (fun c => set_index_counters (dict_setdefault h o (index_counters c)) c)) ;;
      update (fun c => set_observations (observations c + 1)%Z c) ;;
      k) Q c.
Proof using.
  intros (e & Hv & Hs) HQ. destruct Hv as (Hc & Hat & Hrest). pose proof (conj Hc (conj Hat Hrest)) as Hv.
  apply wp_bind, wp_update, wp_bind.
  eapply wp_index; [by apply (inv_del_needs_lookup _ _ h Hc); right|by right|exact Hat|].
  intros c2 Hc2 Hre. pose proof (reindexed_at _ _ h o e Hre Hat) as Hat2.
  destruct (reindexed_eq _ _ Hre) as (Hheap & Hent & _). simpl in Hheap, Hent.
  assert (forall c', inv c' -> at_entry c' h o e -> entries c' = entries c2 -> heap c' = heap c2 ->
    seen_visit h o c0 c') as Hvisit.
  { intros c' Hc' Hat' Hent' Hheap'. exists e. split; [|done].
    eapply visit_step; [exact Hv|by apply (inv_dirty _ None); [left|]|exact Hat'|congruence| |done].
    intros o' _. by rewrite Hheap', Hheap. }
  apply wp_bind, (wp_lookup_entry _ e); [apply Hat2|]. apply wp_bind, wp_gets, wp_bind.
  apply wp_when; intros _; [apply wp_update|]; apply wp_bind, wp_update; (apply HQ; [|apply Hvisit; try done]).
  1,2: apply (inv_add_counter _ _ _ _ e Hc2) in Hat2 as Hc3; by destruct Hc3; split.
  all: by destruct Hc2; split.
Qed.

Lemma wp_record c h source peer moment :
  inv c -> length h = NODE_ID_LENGTH -> (0 <= moment)%Z ->
  wp (record_locked lim h source peer moment)
    (fun created c' => inv c' /\ created = negb (dict_has h (entries c)) /\ recorded c c') c.
Proof using Hlim.
  intros Hc Hh Hm. unfold record_locked. apply wp_bind.
  eapply wp_mono; [by apply wp_get_or_create|]. intros [o created] c1 Hfound.
  destruct (found_visit c h c1 o created Hc Hfound) as (e & Hv & Hcr & Hold & Hlen & Hcase). simpl.
  pose proof Hv as (_ & [_ He] & _). clear Hfound.
  eapply wp_sighting; [exact Hv|]. clear Hv.  intros c2 Hv.
  eapply wp_record_peer; [exact Hv|]. clear c2 Hv. intros c2 Hv.
  eapply wp_record_index; [exact Hv|]. clear c2 Hv. intros c2 Hc2 (e2 & Hv & Hs).
  apply wp_bind, wp_get, wp_bind. eapply wp_mono; [by apply (wp_record_evict h o c1 c2 e2)|].
  intros [] c3 (Hc3 & Hk & Hkept & Hbound).
  destruct Hv as (_ & [_ He2] & _ & _ & Hev). destruct (Hk o e2 He2) as (e3 & He3 & Hs3).
  apply wp_bind, (wp_lookup_entry _ e3); [done|]. apply wp_bind, wp_assert; [lia|].
  apply wp_ret. split; [done|]. split; [done|]. split.
  - etrans; [|exact Hkept]. intros h' o' e' Hat' Hn. exists e'. split; [by apply Hold|done].
  - intros Hmax. apply Hbound; [|lia].
    rewrite (claims_evictable e e2) by by apply Hev. destruct Hcase; [by left|right; lia].
Qed.

(** ** Public methods *)

(** The time a method is given. *)
Definition time_ok (clock : Z) (now : option Z) : Prop :=
  (0 <= clock)%Z /\ match now with Some t => (0 <= t)%Z | None => True end.

Lemma wp_moment {S} clock now (Q : Z -> S -> Prop) s :
  time_ok clock now -> (forall m, (0 <= m)%Z -> Q m s) -> wp (moment_or_now clock now) Q s.
Proof using.
  intros [Hc Hn] HQ. unfold moment_or_now. apply wp_bind, wp_assert; [destruct now; [lia|done]|].
  apply wp_bind, wp_assert; [destruct now; simpl; lia|]. apply wp_ret. apply HQ. destruct now; simpl; lia.
Qed.

Lemma wp_record_hash c h source peer clock now :
  inv c -> length h = NODE_ID_LENGTH -> time_ok clock now ->
  wp (record_hash lim h source peer clock now)
    (fun created c' => inv c' /\ created = negb (dict_has h (entries c)) /\ recorded c c') c.
Proof using Hlim.
  intros Hc Hh Ht. unfold record_hash. apply wp_bind, wp_assert; [by apply is_node_id_of|].
  apply wp_bind, wp_moment; [done|]. intros m Hm. apply wp_bind.
  eapply wp_mono; [by apply wp_record|]. intros created c' [Hc' Hcr].
  apply wp_bind. eapply wp_assert_invariants; [exact Hc'|]. by apply wp_ret.
Qed.

Lemma wp_record_hashes c hs source clock now :
  inv c -> Forall (fun h => length h = NODE_ID_LENGTH) hs -> time_ok clock now ->
  wp (record_hashes lim hs source clock now) (fun _ c' => inv c' /\ claims_kept c c') c.
Proof using Hlim.
  intros Hc Hh Ht. unfold record_hashes. apply wp_bind, wp_assert.
  { apply forallb_forall. intros h Hin. apply is_node_id_of.
    rewrite Forall_forall in Hh. by apply Hh, list_elem_of_In. }
  apply wp_bind, wp_moment; [done|]. intros m Hm. apply wp_bind.
  assert (forall l c, Forall (fun h => length h = NODE_ID_LENGTH) l -> inv c ->
    wp (count_true (fun h => record_locked lim h source None m) l)
      (fun n c' => (0 <= n <= Z.of_nat (length l))%Z /\ inv c' /\ claims_kept c c') c) as Hloop.
  { clear -Hlim Hm. intros l c Hl. revert c. induction Hl as [|h l Hh Hl IH]; intros c Hc; cbn [count_true length];
      [apply wp_ret; split; [lia|done]|].
    apply wp_bind. eapply wp_mono; [by apply wp_record|]. intros b c1 (Hc1 & _ & Hk & _). apply wp_bind.
    eapply wp_mono; [by apply IH|]. intros n c2 (Hn & Hc2 & Hk2). apply wp_ret.
    pose proof (transitivity Hk Hk2). destruct b; (split; [lia|done]). }
  eapply wp_mono; [by apply Hloop|]. intros n c' (Hn & Hc' & Hk). apply wp_bind.
  eapply wp_assert_invariants; [exact Hc'|]. apply wp_bind, wp_assert; [lia|]. by apply wp_ret.
Qed.

Lemma wp_add_peers_public c h l :
  inv c -> length h = NODE_ID_LENGTH -> wp (add_peers lim h l) (fun _ => inv) c.
Proof using Hlim.
  intros Hc Hh. unfold add_peers. apply wp_bind, wp_assert; [by apply is_node_id_of|].
  apply wp_bind, wp_gets. apply wp_bind.
  eapply (wp_mono _ (fun n c' => (0 <= n <= Z.of_nat (length l))%Z /\ inv c')).
  { destruct (dict_get h (entries c)) as [o|] eqn:Hg; [|apply wp_ret; split; [lia|done]].
    destruct (at_entry_exists _ _ _ _ Hc Hg) as (e & Hat).
    apply wp_bind. eapply wp_mono.
    - apply (wp_count_true _ (peers_step h o c e)); [apply peers_step_refl; [apply (inv_dirty _ None); auto|done]|].
      intros peer c1 Hstep. by apply wp_add_peer.
    - intros n c1 [Hn (e1 & Hat1 & _ & Hc1 & _)]. apply wp_bind.
      eapply wp_index; [exact Hc1|by right|exact Hat1|]. intros c2 Hc2 _. by apply wp_ret. }
  intros n c' [Hn Hc']. apply wp_bind, wp_assert; [lia|]. by apply wp_ret.
Qed.
End safety.
