(* ===== verification/CatalogMethods.v ===== *)
(** The public methods of the torrent catalog: lookups, fetches and the queues
    of the search index keep the invariant and never fail an assertion. *)
From S2P Require Import Prelude PyDict Bencode NodeIdentity Krpc TorrentInfo Catalog CatalogInvariant CatalogSafety.

Section methods_safety.
Context (lim : limits) (Hlim : limits_ok lim).

Abbreviation inv_at := (inv_at lim).
Abbreviation inv := (inv lim).

Lemma wp_map_st {S A B} (f : A -> ST S B) (I : list A -> S -> Prop) (R : B -> Prop) l s :
  I l s -> (forall x l s, I (x :: l) s -> wp (f x) (fun y s' => I l s' /\ R y) s) ->
  wp (map_st f l) (fun ys s' => I [] s' /\ Forall R ys /\ length ys = length l) s.
Proof using.
  intros Hs Hf. revert s Hs. induction l as [|x l IH]; intros s Hs; cbn [map_st]; [by apply wp_ret|].
  apply wp_bind. eapply wp_mono; [by apply Hf|]. intros y s1 [Hs1 Hy].
  apply wp_bind. eapply wp_mono; [by apply IH|]. intros ys s2 (Hs2 & Hys & Hlen). apply wp_ret.
  split; [done|]. split; [by constructor|]. simpl. lia.
Qed.

(** ** Lookups *)

(** Setting the lookup flag of a current entry and the number of lookups. *)
Lemma inv_set_lookup D c h o e b n :
  inv_at D c -> D = None \/ D = Some h -> at_entry c h o e ->
  (b = true -> database_checked e = true /\ (lookups_started e < max_lookups lim)%Z) ->
  n = (lookups_in_progress c - b2n (lookup_in_progress e) + b2n b)%Z ->
  inv_at (Some h) (set_lookups_in_progress n (set_entry o (set_lookup_in_progress b e) c)).
Proof using.
  intros Hc HD Hat Hb ->. destruct (at_entry_wf _ _ _ _ _ _ Hc Hat) as [Hwf (C1 & C2 & C3 & C4 & C5)].
  pose proof (at_entry_hash _ _ _ _ _ _ Hc Hat) as Hh. destruct (Hat) as [Hg He].
  eapply (inv_change lim D c _ h o e (set_lookup_in_progress b e)); try done.
  - apply (inv_tables _ _ _ Hc).
  - intros h'. simpl. case_decide as Hd; [subst h'|done]. rewrite (inv_fetched _ _ _ Hc).
    unfold selected. by rewrite Hg, He.
  - apply (inv_tables _ _ _ Hc).
  - intros h' o' Hd. split; [done|]. intros Ho'.
    by destruct (documents_current _ _ _ _ _ _ _ _ Hc Hat Hd Ho').
  - intros s. unfold is_state. simpl. lia.
  - simpl. lia.
Qed.

Lemma wp_claim_lookups c l :
  inv c -> to_treat (is_lookup_candidate lim) c l ->
  wp (for_each l (fun o =>
    update_entry o (set_lookup_in_progress true) ;;
    update (fun c => set_lookups_in_progress (lookups_in_progress c + 1)%Z c) ;;
    index_entry_locked lim o)) (fun _ => inv) c.
Proof using.
  intros Hc Hl. eapply wp_mono; [apply (wp_for_each_list _
    (fun l c => inv c /\ to_treat (is_lookup_candidate lim) c l)); [done|]|by intros _ c' []].
  clear c l Hc Hl. intros o l c [Hc Hl].
  destruct (to_treat_cons _ _ _ _ Hl) as (h & e & Hat & HP & Ho & Hl').
  unfold is_lookup_candidate, is_ready in HP.
  rewrite !andb_true_iff, !negb_true_iff, Z.ltb_lt in HP. destruct HP as [[[[_ Hch] _] Hlk] Hst].
  apply wp_bind. eapply wp_update_entry; [apply Hat|]. apply wp_bind, wp_update.
  set (c1 := set_lookups_in_progress _ _).
  assert (inv_at (Some h) c1) as Hc1.
  { eapply (inv_set_lookup None); [exact Hc|by left|exact Hat|done|]. rewrite Hlk. simpl. lia. }
  eapply wp_index; [exact Hc1|by right|split; [apply Hat|apply lookup_insert_eq]|].
  intros c2 Hc2 Hre. split; [done|]. destruct (reindexed_eq _ _ Hre) as (Hheap & Hent & _).
  eapply to_treat_step; [exact Hc|apply Hat|done|intros; by rewrite Hent|exact Hheap|done].
Qed.

Lemma derived_current c h o :
  inv c -> dict_get h (needs_lookup c) = Some o -> dict_get h (entries c) = Some o.
Proof using. intros Hc Ho. apply (inv_sub _ _ _ Hc); auto. Qed.

(** The members of a derived table satisfy its condition. *)
Lemma selected_member P c h o e :
  selected P c h = Some o -> heap c !! o = Some e -> P e = true.
Proof using.
  unfold selected. intros Hs He. destruct (dict_get h (entries c)) as [o'|]; [|done].
  destruct (heap c !! o') as [e'|] eqn:He'; [|done]. destruct (P e') eqn:HP; [|done].
  injection Hs as ->. congruence.
Qed.

Lemma lookup_choice_to_treat limit m c :
  inv c -> to_treat (is_lookup_candidate lim) c (lookup_choice limit m c).
Proof using.
  intros Hc. destruct (inv_tables _ _ _ Hc) as (W1 & W2 & W3 & W4 & _). unfold lookup_choice.
  set (all := table_entries (needs_lookup c) c).
  assert (NoDup all.*1) as Hall by (apply table_entries_NoDup with lim; [done..|]; eauto using derived_current).
  apply (to_treat_table lim _ (needs_lookup c)); [done..|eauto using derived_current| |].
  - intros oe Hin%subseteq_take. apply list_elem_of_filter in Hin as [_ Hin].
    rewrite elem_of_reverse in Hin. split; [exact Hin|]. destruct oe as [o e].
    apply elem_of_table_entries in Hin as (h & Hh & He). apply elem_of_dict_get in Hh; [|done].
    destruct (inv_derived _ _ _ Hc h) as (_ & Hsel & _); [done|]. rewrite Hh in Hsel.
    by eapply selected_member.
  - eapply sublist_fst_NoDup; [apply sublist_take|].
    eapply sublist_fst_NoDup; [apply sublist_filter|].
    by rewrite fmap_reverse, reverse_Permutation.
Qed.

Lemma length_lookup_choice limit m c : length (lookup_choice limit m c) <= limit.
Proof using. unfold lookup_choice. rewrite length_fmap, length_take. lia. Qed.

Lemma length_omap_le {A B} (f : A -> option B) l : length (omap f l) <= length l.
Proof using.
  induction l as [|x l IH]; [done|].
  change (omap f (x :: l)) with (match f x with Some y => y :: omap f l | None => omap f l end).
  destruct (f x); cbn [length]; lia.
Qed.

Lemma wp_hashes_needing_peers c limit clock now :
  inv c -> time_ok clock now -> wp (hashes_needing_peers lim limit clock now) (fun _ => inv) c.
Proof using.
  intros Hc Ht. unfold hashes_needing_peers. apply wp_bind, wp_moment; [done|]. intros m _.
  apply wp_bind, wp_gets. apply wp_bind.
  eapply wp_mono; [apply wp_claim_lookups; [done|by apply lookup_choice_to_treat]|].
  intros [] c' Hc'. apply wp_bind, wp_get. apply wp_bind, wp_assert.
  - apply bool_decide_eq_true. etransitivity; [apply length_omap_le|apply length_lookup_choice].
  - by apply wp_ret.
Qed.

(** Ending a running lookup. *)
Lemma wp_end_lookup D c h o e (Q : unit -> catalog -> Prop) :
  inv_at D c -> D = None \/ D = Some h -> at_entry c h o e -> lookup_in_progress e = true ->
  (forall c', inv_at (Some h) c' -> at_entry c' h o (set_lookup_in_progress false e) -> Q tt c') ->
  wp (end_lookup o) Q c.
Proof using.
  intros Hc HD Hat Hl HQ. unfold end_lookup. apply wp_bind. eapply wp_update_entry; [apply Hat|].
  apply wp_update. apply HQ.
  - eapply inv_set_lookup; [exact Hc|exact HD|exact Hat|done|]. rewrite Hl. simpl. lia.
  - split; [apply Hat|apply lookup_insert_eq].
Qed.

Lemma lookups_nonneg D c : inv_at D c -> (0 <= lookups_in_progress c)%Z.
Proof using. intros Hc. rewrite (inv_lookups _ _ _ Hc). apply total_range. Qed.

Lemma wp_release_lookup_claim c h :
  inv c -> length h = NODE_ID_LENGTH -> wp (release_lookup_claim lim h) (fun _ => inv) c.
Proof using.
  intros Hc Hh. unfold release_lookup_claim. apply wp_bind, wp_assert; [by apply is_node_id_of|].
  apply wp_bind, wp_gets. apply wp_bind. eapply (wp_mono _ (fun _ => inv)).
  - destruct (dict_get h (entries c)) as [o|] eqn:Hg; [|done].
    destruct (at_entry_exists _ _ _ _ _ Hc Hg) as (e & Hat).
    apply wp_bind, (wp_lookup_entry _ e); [apply Hat|]. apply wp_when; intros Hl; [|done].
    apply wp_bind. eapply wp_end_lookup; [exact Hc|by left|exact Hat|done|]. intros c1 Hc1 Hat1.
    eapply wp_index; [exact Hc1|by right|exact Hat1|]. by intros c2 Hc2 _.
  - intros [] c' Hc'. apply wp_bind, wp_gets. apply wp_assert; [|done].
    apply Z.leb_le. by eapply lookups_nonneg.
Qed.

(** The result of a lookup of an unknown hash, or of one whose entry has been
    checked against the database, as every claimed entry has. *)
Definition checked_hash (c : catalog) (h : bytes) : Prop :=
  forall o e, at_entry c h o e -> database_checked e = true.

(** Moving an entry that is not done to another state that is not done. *)
Lemma current_wf_state e s :
  current_wf lim e -> fetch_state e <> FETCH_DONE -> s <> FETCH_DONE ->
  (database_checked e = false -> s = FETCH_PENDING) -> current_wf lim (set_fetch_state s e).
Proof using.
  intros (C1 & C2 & C3 & C4 & C5) H1 H2 H3. split; [|split; [done|split; [|split; [exact C4|exact H3]]]].
  - intros Hm. by apply C1 in Hm.
  - intros Hk. by apply C3 in Hk as [? _].
Qed.

Lemma wp_add_lookup_result c h l clock now :
  inv c -> length h = NODE_ID_LENGTH -> time_ok clock now -> checked_hash c h ->
  wp (add_lookup_result lim h l clock now) (fun _ => inv) c.
Proof using Hlim.
  intros Hc Hh Ht Hchk. unfold add_lookup_result. apply wp_bind, wp_assert; [by apply is_node_id_of|].
  apply wp_bind, wp_moment; [done|]. intros m _. apply wp_bind, wp_gets. apply wp_bind.
  eapply (wp_mono _ (fun _ => inv)).
  2: { intros [] c' Hc'. apply wp_bind. eapply wp_assert_invariants; [exact Hc'|].
       apply wp_bind, wp_gets. apply wp_assert; [|done]. apply Z.leb_le. by eapply lookups_nonneg. }
  destruct (dict_get h (entries c)) as [o|] eqn:Hg; [|done].
  destruct (at_entry_exists _ _ _ _ _ Hc Hg) as (e & Hat). specialize (Hchk o e Hat).
  apply wp_bind, (wp_lookup_entry _ e); [apply Hat|]. apply wp_bind.
  eapply (wp_mono _ (fun _ c1 => exists e, inv_at (Some h) c1 /\ at_entry c1 h o e /\
    database_checked e = true /\ lookup_in_progress e = false)).
  { apply wp_when; intros Hl.
    - eapply wp_end_lookup; [exact Hc|by left|exact Hat|done|]. intros c1 Hc1 Hat1. by eexists.
    - exists e. split; [by apply (inv_dirty _ None); auto|done]. }
  clear c e Hc Hat Hg Hchk. intros [] c (e & Hc & Hat & Hchk & Hl).
  destruct (at_entry_wf _ _ _ _ _ _ Hc Hat) as [W1 (C1 & C2 & C3 & C4 & C5)].
  apply wp_bind. eapply wp_update_quiet; [exact Hc|by right|exact Hat|done|exact W1| |].
  { split; [exact C1|split; [exact C2|split; [exact C3|split; [|exact C5]]]].
    intros Hl'. change (lookup_in_progress e = true) in Hl'. congruence. }
  intros c1 Hc1 Hat1 _. set (e1 := set_lookups_started _ e) in *. apply wp_bind.
  eapply wp_mono; [apply (wp_add_peers lim Hlim h o l c1 e1 c1); [done|by apply peers_step_refl]|].
  intros [] c2 (e2 & Hat2 & Hp & Hc2 & _).
  assert (database_checked e2 = true) as Hch2 by (destruct Hp as (? & ? & ->); done).
  clear c e Hc Hat Hchk Hl W1 C1 C2 C3 C4 C5 c1 e1 Hp Hc1 Hat1.
  apply wp_bind, (wp_lookup_entry _ e2); [apply Hat2|]. apply wp_bind.
  eapply (wp_mono _ (fun _ c1 => exists e, inv_at (Some h) c1 /\ at_entry c1 h o e)).
  2: { intros [] c3 (e3 & Hc3 & Hat3). eapply wp_index; [exact Hc3|by right|exact Hat3|].
       by intros c4 Hc4 _. }
  apply wp_when; intros _; [|by exists e2]. destruct (at_entry_wf _ _ _ _ _ _ Hc2 Hat2) as [W1 W2].
  apply wp_bind. eapply wp_update_quiet; [exact Hc2|by right|exact Hat2|done|exact W1|exact W2|].
  intros c3 Hc3 Hat3 _. set (e3 := set_next_lookup_time _ e2) in *.
  apply wp_when; [|by exists e3]. intros [_ Hp%bool_decide_eq_true]%andb_true_iff.
  change (database_checked e3 = true) in Hch2. change (fetch_state e3 = FETCH_PENDING) in Hp.
  destruct (at_entry_wf _ _ _ _ _ _ Hc3 Hat3) as [W1' W2'].
  apply wp_bind. eapply wp_update_quiet; [exact Hc3|by right|exact Hat3|done|exact W1'|exact W2'|].
  intros c4 Hc4 Hat4 _. eapply wp_set_state; [apply Hat4|by eapply state_count_member|].
  eexists. split.
  - eapply inv_set_state; [exact Hc4|by right|exact Hat4|]. apply current_wf_state; [exact W2'|simpl in *; congruence..].
  - split; [apply Hat4|apply lookup_insert_eq].
Qed.

(** ** Fetches *)

Lemma best_candidates_to_treat limit c :
  inv c -> to_treat is_fetchable c (best_candidates limit c).
Proof using.
  intros Hc. destruct (inv_tables _ _ _ Hc) as (W1 & W2 & W3 & W4 & _). unfold best_candidates.
  assert (forall h o, dict_get h (fetchable c) = Some o -> dict_get h (entries c) = Some o) as Hcur
    by (intros h o Ho; apply (inv_sub _ _ _ Hc); auto).
  pose proof (table_entries_NoDup lim (fetchable c) c Hc W3 Hcur) as Hall.
  apply (to_treat_table lim _ (fetchable c)); [done..| |].
  - intros oe Hin%subseteq_take. apply elem_of_sort_by in Hin. split; [done|]. destruct oe as [o e].
    apply elem_of_table_entries in Hin as (h & Hh & He). apply elem_of_dict_get in Hh; [|done].
    destruct (inv_derived _ _ _ Hc h) as (Hsel & _); [done|]. rewrite Hh in Hsel.
    by eapply selected_member.
  - eapply sublist_fst_NoDup; [apply sublist_take|]. by rewrite sort_by_Permutation.
Qed.

Lemma length_best_candidates limit c : length (best_candidates limit c) <= limit.
Proof using. unfold best_candidates. rewrite length_fmap, length_take. lia. Qed.

(** The claim of one candidate, and of all of them. *)
Definition claim_candidate (o : oid) : ST catalog (bytes * list address) :=
  set_state_locked o FETCH_IN_PROGRESS ;;
  index_entry_locked lim o ;;
  e ← lookup_entry o;
  mret (info_hash e, (default [] (peers e)).*1).

Lemma wp_claim_candidate c h o e :
  inv c -> at_entry c h o e -> is_fetchable e = true ->
  wp (claim_candidate o) (fun r c' => inv c' /\ entries c' = entries c /\
    heap c' = <[o := set_fetch_state FETCH_IN_PROGRESS e]> (heap c) /\
    r = (h, (default [] (peers e)).*1)) c.
Proof using.
  intros Hc Hat HP. pose proof (at_entry_hash _ _ _ _ _ _ Hc Hat) as Hh.
  unfold is_fetchable, is_ready in HP. rewrite !andb_true_iff in HP. destruct HP as [[Hp Hch] Hpeers].
  apply bool_decide_eq_true in Hp. destruct (at_entry_wf _ _ _ _ _ _ Hc Hat) as [_ Hcur].
  unfold claim_candidate. apply wp_bind. eapply wp_set_state; [apply Hat|by eapply state_count_member|].
  set (c1 := state_set _ _ _ _).
  assert (inv_at (Some h) c1) as Hc1.
  { eapply inv_set_state; [exact Hc|by left|exact Hat|]. apply current_wf_state; simpl; congruence. }
  assert (at_entry c1 h o (set_fetch_state FETCH_IN_PROGRESS e)) as Hat1
    by (split; [apply Hat|apply lookup_insert_eq]).
  apply wp_bind. eapply wp_index; [exact Hc1|by right|exact Hat1|]. intros c2 Hc2 Hre.
  apply wp_bind. eapply wp_lookup_entry; [apply (reindexed_at _ _ _ _ _ Hre Hat1)|].
  apply wp_ret. destruct (reindexed_eq _ _ Hre) as (Hheap & Hent & _). split; [done|].
  split; [done|]. split; [done|]. simpl. by rewrite Hh.
Qed.

Lemma wp_claim_candidates c l :
  inv c -> to_treat is_fetchable c l ->
  wp (map_st claim_candidate l) (fun result c' => inv c' /\ entries c' = entries c /\
    (forall o, o ∉ l -> heap c' !! o = heap c !! o) /\
    Forall2 (fun o r => exists h e, at_entry c h o e /\ r = (h, (default [] (peers e)).*1) /\
      heap c' !! o = Some (set_fetch_state FETCH_IN_PROGRESS e)) l result) c.
Proof using.
  revert c. induction l as [|o l IH]; intros c Hc Hl; cbn [map_st]; [apply wp_ret; auto|].
  destruct (to_treat_cons _ _ _ _ Hl) as (h & e & Hat & HP & Ho & Hl'). apply wp_bind.
  eapply wp_mono; [by apply (wp_claim_candidate c h o e)|]. intros r c1 (Hc1 & Hent & Hheap & ->).
  apply wp_bind. eapply wp_mono; [apply IH; [done|]|].
  { eapply to_treat_step; [exact Hc|apply Hat|done|intros; by rewrite Hent|exact Hheap|done]. }
  intros result c2 (Hc2 & Hent2 & Hframe & Hall). apply wp_ret. split; [done|].
  split; [congruence|]. split.
  - intros o' [Hne Hn]%not_elem_of_cons. by rewrite Hframe, Hheap, lookup_insert_ne.
  - constructor.
    + exists h, e. split; [done|]. split; [done|]. by rewrite Hframe, Hheap, lookup_insert_eq.
    + assert (forall o' r, o' ∈ l -> (exists h' e', at_entry c1 h' o' e' /\ r = (h', (default [] (peers e')).*1) /\
        heap c2 !! o' = Some (set_fetch_state FETCH_IN_PROGRESS e')) -> exists h' e', at_entry c h' o' e' /\
        r = (h', (default [] (peers e')).*1) /\ heap c2 !! o' = Some (set_fetch_state FETCH_IN_PROGRESS e')) as Hback.
      { intros o' r Hin (h' & e' & [Hg' He'] & Hr & Hs). exists h', e'. split; [|done].
        rewrite Hent in Hg'. rewrite Hheap, lookup_insert_ne in He' by (intros ->; done). done. }
      clear -Hall Hback. induction Hall as [|o' r l result Hr Hall IH]; constructor.
      * apply Hback; [left|done].
      * apply IH. intros o0 r0 Hin. apply Hback. by right.
Qed.

Lemma claim_candidate_peers c h o e :
  inv c -> at_entry c h o e -> is_fetchable e = true -> (default [] (peers e)).*1 <> [].
Proof using.
  intros _ _ HP. unfold is_fetchable in HP. apply andb_true_iff in HP as [_ HP].
  unfold has_peers in HP. by destruct (peers e) as [[|]|].
Qed.

Lemma wp_next_fetch_candidates c limit now :
  inv c -> match now with Some t => (0 <= t)%Z | None => True end ->
  wp (next_fetch_candidates lim limit now) (fun result c' => inv c' /\ entries c' = entries c /\
    Forall2 (fun o r => exists h e, at_entry c h o e /\ r = (h, (default [] (peers e)).*1) /\
      heap c' !! o = Some (set_fetch_state FETCH_IN_PROGRESS e)) (best_candidates limit c) result) c.
Proof using.
  intros Hc Ht. unfold next_fetch_candidates. apply wp_bind, wp_assert; [destruct now; [lia|done]|].
  apply wp_bind, wp_gets. apply wp_bind. pose proof (best_candidates_to_treat limit c Hc) as Hl.
  eapply wp_mono; [exact (wp_claim_candidates c _ Hc Hl)|].
  intros result c' (Hc' & Hent & _ & Hall). apply wp_bind. eapply wp_assert_invariants; [exact Hc'|].
  pose proof (length_best_candidates limit c). pose proof (Forall2_length _ _ _ Hall).
  apply wp_bind, wp_assert; [|by apply wp_ret].
  rewrite bool_decide_eq_true_2 by lia. apply forallb_forall. intros r Hin%list_elem_of_In.
  apply list_elem_of_lookup_1 in Hin as [i Hi].
  destruct (Forall2_lookup_r _ _ _ _ _ Hall Hi) as (o & Ho & h & e & Hat & -> & _).
  rewrite bool_decide_eq_false_2; [done|]. simpl. eapply claim_candidate_peers; [exact Hc|exact Hat|].
  destruct Hl as [_ Hl]. destruct (Hl o) as (h' & e' & [Hg' He'] & HP); [by eapply list_elem_of_lookup_2|].
  destruct Hat. congruence.
Qed.

(** ** Queued documents *)

Lemma inv_set_documents D c t :
  inv_at D c -> dict_wf t ->
  (forall h o, dict_get h t = Some o -> exists e, heap c !! o = Some e /\ info_hash e = h /\ has_metadata e = true) ->
  inv_at D (set_index_documents t c).
Proof using.
  intros Hc Ht Hd. destruct (inv_tables _ _ _ Hc) as (W1 & W2 & W3 & W4 & W5 & W6 & W7).
  split; try (by destruct Hc).
Qed.

Lemma inv_drop_count D c :
  inv_at D c -> inv_at D (set_index_dropped (index_dropped c + 1)%Z c).
Proof using.
  intros Hc. destruct (inv_bounds _ _ _ Hc) as (B1 & B2 & B3). split; try (by destruct Hc).
  simpl. lia.
Qed.

(** Entry objects keep the base of their counters. *)
Definition base_kept (c c' : catalog) : Prop :=
  forall o e, heap c !! o = Some e -> exists e', heap c' !! o = Some e' /\ index_base e' = index_base e.

Lemma base_kept_refl c c' : heap c' = heap c -> base_kept c c'.
Proof using. intros Hh o e He. rewrite Hh. eauto. Qed.

Lemma wp_drop_unwritten c o e :
  inv c -> heap c !! o = Some e -> has_metadata e = true ->
  (forall h', dict_get h' (index_documents c) <> Some o) ->
  wp (drop_unwritten_metadata_locked lim o) (fun _ c' => inv c' /\
    index_documents c' = index_documents c /\ index_dropped c' = index_dropped c /\ base_kept c c') c.
Proof using.
  intros Hc He Hm Hdoc. unfold drop_unwritten_metadata_locked.
  apply wp_bind, (wp_lookup_entry _ e); [done|]. apply wp_bind, wp_gets. apply wp_bind.
  eapply (wp_mono _ (fun _ c' => inv c' /\ index_documents c' = index_documents c /\
    index_dropped c' = index_dropped c /\ base_kept c c' /\ exists e', heap c' !! o = Some e' /\
      (dict_get (info_hash e) (fetched c') = None \/ has_metadata e' = true))).
  2: { intros [] c' (Hc' & Hd & Hn & Hb & e' & He' & Hf). apply wp_bind, (wp_lookup_entry _ e'); [done|].
       apply wp_bind, wp_gets. apply wp_assert; [|done]. unfold dict_has.
       destruct Hf as [-> | ->]; [done|by rewrite orb_true_r]. }
  apply wp_when; [|by eauto 10 using base_kept_refl]. rewrite !andb_true_iff, !bool_decide_eq_true. intros [[Hcurrent _] Hdone].
  apply bool_decide_eq_true in Hdone.
  set (h := info_hash e) in *.
  assert (at_entry c h o e) as Hat by done.
  destruct (at_entry_wf _ _ _ _ _ _ Hc Hat) as [(W1 & W2 & W3 & W4 & W5) (C1 & C2 & C3 & C4 & C5)].
  apply wp_bind, wp_update. apply wp_bind. eapply wp_update_entry; [exact He|].
  apply wp_bind, wp_update.
  set (e1 := set_database_checked true (set_metadata None e)). set (c1 := set_fetched _ _).
  assert (heap c1 !! o = Some e1) as He1 by apply lookup_insert_eq.
  assert (current_wf lim (set_fetch_state FETCH_PENDING e1)) as Hcur'.
  { split; [done|split; [done|split; [|split; [|done]]]].
    - intros Hk. apply C3 in Hk as [_ Hk]. congruence.
    - intros Hl. destruct (C4 Hl). done. }
  apply wp_bind. eapply wp_set_state; [exact He1| |].
  { unfold is_state. simpl. rewrite bool_decide_eq_false_2 by congruence.
    simpl. rewrite (inv_counts _ _ _ Hc). apply total_range. }
  eapply (wp_index_entry lim _ h o (set_fetch_state FETCH_PENDING e1)); [|exact Hcurrent|apply lookup_insert_eq|].
  - eapply (inv_change lim None c _ h o e (set_fetch_state FETCH_PENDING e1)); try done.
    + by left.
    + simpl. by rewrite insert_insert_eq.
    + simpl. apply dict_del_wf, (inv_tables _ _ _ Hc).
    + intros h'. simpl. by rewrite dict_get_del.
    + apply (inv_tables _ _ _ Hc).
    + intros h' o' Hd. split; [done|]. intros ->. by apply Hdoc in Hd.
    + intros s. rewrite state_set_counts. done.
    + simpl. lia.
    + simpl. lia.
  - intros c2 (t1 & t2 & t3 & ->) Hc2. split; [done|]. split; [done|]. split; [done|]. split.
    { intros o' e0 He0. simpl. rewrite insert_insert_eq. destruct (decide (o = o')) as [<-|Hne].
      - rewrite lookup_insert_eq. eexists. split; [done|]. simpl. congruence.
      - rewrite lookup_insert_ne by done. eauto. }
    eexists. split; [apply lookup_insert_eq|]. left. apply dict_get_del_eq.
Qed.

Lemma wp_queue_document c h o e :
  inv c -> at_entry c h o e -> has_metadata e = true ->
  wp (queue_document_locked lim o) (fun _ c' => inv c' /\ base_kept c c') c.
Proof using.
  intros Hc Hat Hm. pose proof (at_entry_hash _ _ _ _ _ _ Hc Hat) as Hh.
  unfold queue_document_locked. apply wp_bind, (wp_lookup_entry _ e); [apply Hat|].
  apply wp_bind, wp_assert; [done|]. apply wp_bind, wp_update. rewrite Hh.
  apply (inv_del_counter _ _ _ h) in Hc. set (c1 := set_index_counters _ c) in *.
  assert (at_entry c1 h o e) as Hat1 by apply Hat.
  eapply (wp_mono _ (fun _ c' => inv c' /\ base_kept c1 c')); [|done].
  clearbody c1. clear c Hat.
  apply wp_bind, wp_gets. apply wp_bind.
  eapply (wp_mono _ (fun _ c' => inv c' /\ base_kept c1 c' /\
    (dict_has h (index_documents c') = true \/ (0 < index_dropped c')%Z))).
  2: { intros [] c' (Hc' & Hb & Hd). apply wp_bind, wp_get. apply wp_assert; [|done].
       apply orb_true_iff. destruct Hd; [by left|right; lia]. }
  apply wp_when; intros Hq.
  2: { split; [done|]. split; [by apply base_kept_refl|]. left. unfold dict_has. apply bool_decide_eq_false in Hq.
       by destruct (dict_get h (index_documents c1)). }
  apply wp_bind, wp_update. set (docs := dict_set h o (index_documents c1)).
  destruct (inv_tables _ _ _ Hc) as (W1 & W2 & W3 & W4 & W5 & W6 & W7).
  assert (dict_wf docs) as Wd by by apply dict_set_wf.
  assert (forall h' o', dict_get h' docs = Some o' ->
    exists e', heap c1 !! o' = Some e' /\ info_hash e' = h' /\ has_metadata e' = true) as Hdocs.
  { intros h' o'. unfold docs. rewrite dict_get_set. case_decide as Hd; [|apply (inv_documents _ _ _ Hc)].
    subst h'. intros [= <-]. exists e. split; [apply Hat1|done]. }
  assert (inv (set_index_documents docs c1)) as Hc2 by by apply inv_set_documents.
  apply wp_bind, wp_get. simpl. apply wp_when; intros Hover.
  2: { split; [done|]. split; [by apply base_kept_refl|]. left. apply dict_has_get. unfold docs. simpl. rewrite dict_get_set_eq. eauto. }
  clearbody docs. destruct docs as [|[h0 dropped] rest]; [exfalso; apply Z.ltb_lt in Hover; simpl in Hover; destruct (inv_bounds _ _ _ Hc) as (_ & ? & _); lia|].
  apply wp_bind, wp_update, wp_bind, wp_update. simpl. set (c3 := set_index_dropped _ _).
  assert (dict_wf rest) as Wrest by (unfold dict_wf in *; csimpl in Wd; by apply NoDup_cons in Wd as [_ ?]).
  assert (forall h', dict_get h' rest <> None -> h' <> h0) as Hne.
  { intros h' Hs ->. apply Hs. unfold dict_wf in Wd. csimpl in Wd. apply NoDup_cons in Wd as [Hn _].
    by apply dict_get_None. }
  assert (forall h' o', dict_get h' rest = Some o' ->
    exists e', heap c1 !! o' = Some e' /\ info_hash e' = h' /\ has_metadata e' = true) as Hrest.
  { intros h' o' Ho'. apply Hdocs. simpl. rewrite decide_False; [done|]. apply Hne. congruence. }
  assert (inv c3) as Hc3.
  { apply (inv_drop_count _ (set_index_documents rest (set_index_documents ((h0, dropped) :: rest) c1))).
    by apply inv_set_documents. }
  destruct (Hdocs h0 dropped) as (e0 & He0 & Hh0 & Hm0); [simpl; by rewrite decide_True|].
  eapply wp_mono; [apply (wp_drop_unwritten c3 dropped e0); [done|done|done|]|].
  - intros h' Hd. simpl in Hd. destruct (Hrest _ _ Hd) as (e' & He' & Hh' & _).
    apply (Hne h'); congruence.
  - intros [] c4 (Hc4 & Hd4 & Hn4 & Hb4). split; [done|]. split; [exact Hb4|]. right. rewrite Hn4. simpl.
    destruct (inv_bounds _ _ _ Hc) as (_ & _ & ?). lia.
Qed.

(** ** Storing and failing *)

Lemma inv_metadata_bytes D c n : inv_at D c -> inv_at D (set_metadata_bytes n c).
Proof using. intros Hc. by split; destruct Hc. Qed.

Lemma inv_forgotten D c h o e :
  inv_at D c -> D = None \/ D = Some h -> at_entry c h o e -> inv_at (Some h) (forgotten o e c).
Proof using.
  intros Hc HD Hat. destruct (at_entry_wf _ _ _ _ _ _ Hc Hat) as [Hwf (C1 & C2 & C3 & C4 & C5)].
  pose proof (at_entry_hash _ _ _ _ _ _ Hc Hat) as Hh. destruct (Hat) as [Hg He].
  eapply (inv_change lim D c _ h o e (set_known_from_database false e)); try done.
  - apply (inv_tables _ _ _ Hc).
  - intros h'. simpl. case_decide as Hd; [subst h'|done]. rewrite (inv_fetched _ _ _ Hc).
    unfold selected. by rewrite Hg, He.
  - apply (inv_tables _ _ _ Hc).
  - intros h' o' Hd. split; [done|]. intros Ho'.
    by destruct (documents_current _ _ _ _ _ _ _ _ Hc Hat Hd Ho').
  - intros s. unfold is_state. simpl. lia.
  - simpl. lia.
  - simpl. lia.
Qed.

Lemma known_member D c h o e :
  inv_at D c -> at_entry c h o e -> (b2n (known_from_database e) <= known_done c)%Z.
Proof using. intros Hc Hat. rewrite (inv_known _ _ _ Hc). by eapply total_member. Qed.

(** The entry [store_metadata] leaves. *)
Definition stored (m : metadata_ref) (e : entry) : entry :=
  set_fetch_state FETCH_DONE (set_last_error "" (set_metadata (Some m) e)).

Lemma inv_stored c h o e m :
  inv_at (Some h) c -> at_entry c h o e -> known_from_database e = false ->
  database_checked e = true ->
  let e1 := set_last_error "" (set_metadata (Some m) e) in
  inv_at (Some h) (set_fetched (dict_set h o (fetched c)) (state_set o e1 FETCH_DONE (set_entry o e1 c))).
Proof using.
  intros Hc Hat Hk Hchk e1. destruct (at_entry_wf _ _ _ _ _ _ Hc Hat) as [Hwf (C1 & C2 & C3 & C4 & C5)].
  pose proof (at_entry_hash _ _ _ _ _ _ Hc Hat) as Hh. destruct (Hat) as [Hg He].
  eapply (inv_change lim (Some h) c _ h o e (stored m e)); try done.
  - by right.
  - simpl. by rewrite insert_insert_eq.
  - split; [done|split; [done|split; [|split; [exact C4|]]]]; simpl; congruence.
  - simpl. apply dict_set_wf, (inv_tables _ _ _ Hc).
  - intros h'. simpl. by rewrite dict_get_set.
  - apply (inv_tables _ _ _ Hc).
  - intros s. apply (state_set_counts o e1 FETCH_DONE (set_entry o e1 c) s).
  - simpl. lia.
  - simpl. lia.
Qed.

Lemma wp_store_metadata c m clock now :
  inv c -> length (md_info_hash (metadata_value m)) = NODE_ID_LENGTH -> time_ok clock now ->
  checked_hash c (md_info_hash (metadata_value m)) ->
  (dict_get (md_info_hash (metadata_value m)) (entries c) = None -> check_database c = false) ->
  wp (store_metadata lim m clock now) (fun created c' => inv c' /\
    created = negb (dict_has (md_info_hash (metadata_value m)) (entries c))) c.
Proof using.
  unfold store_metadata. generalize (md_info_hash (metadata_value m)) as h.
  intros h Hc Hh Ht Hchk Hnew. apply wp_bind, wp_moment; [done|]. intros t Ht0. apply wp_bind.
  eapply wp_mono; [by apply wp_get_or_create|].
  intros [o created] c1 (e & Hat & Hc1 & Hcr & Hcase). simpl in Hat, Hcr, Hcase.
  assert (database_checked e = true) as Hch.
  { destruct created; [|subst c1; by apply (Hchk o)]. destruct Hcase as [_ ->]. simpl.
    rewrite Hnew; [done|]. unfold dict_has in Hcr. by destruct (dict_get h (entries c)). }
  clear Hcase Hchk Hnew. cbn beta iota.
  apply wp_bind, (wp_lookup_entry _ e); [apply Hat|]. apply wp_bind.
  eapply (wp_mono _ (fun _ c1 => inv_at (Some h) c1 /\ at_entry c1 h o e)).
  { apply wp_when; intros _; [apply wp_update; split; [by apply inv_metadata_bytes|done]|done]. }
  clear c1 Hat Hc1. intros [] c1 [Hc1 Hat]. pose proof (at_entry_hash _ _ _ _ _ _ Hc1 Hat) as He.
  apply wp_bind. eapply wp_forget_known; [apply Hat|by eapply known_member|].
  apply (inv_forgotten _ _ _ _ _ Hc1) in Hat as Hc2; [|by right].
  assert (at_entry (forgotten o e c1) h o (set_known_from_database false e)) as Hat2
    by (split; [apply Hat|apply lookup_insert_eq]).
  revert Hc2 Hat2. generalize (forgotten o e c1). intros c2 Hc2 Hat2. set (e2 := set_known_from_database false e).
  apply wp_bind. eapply wp_update_entry; [apply Hat2|]. set (e3 := set_last_error "" _).
  apply wp_bind. eapply wp_set_state; [apply lookup_insert_eq| |].
  { simpl. change (is_state FETCH_DONE e3) with (is_state FETCH_DONE e2). by eapply state_count_member. }
  apply wp_bind, wp_update. apply wp_bind.
  change (info_hash e) with (info_hash e) in He. rewrite He.
  pose proof (inv_stored c2 h o e2 m Hc2 Hat2 eq_refl Hch) as Hc3.
  eapply (wp_index lim (Some h) _ h o (stored m e2)); [exact Hc3|by right| |].
  { split; [apply Hat2|apply lookup_insert_eq]. }
  intros c4 Hc4 Hre.
  assert (at_entry c4 h o (stored m e2)) as Hat3.
  { eapply reindexed_at; [exact Hre|]. split; [apply Hat2|apply lookup_insert_eq]. }
  apply wp_bind, wp_gets. apply wp_bind.
  eapply (wp_mono _ (fun _ => inv)).
  { apply wp_when; intros _; [|done]. eapply wp_mono; [by eapply wp_queue_document|]. by intros [] c5 []. }
  intros [] c5 Hc5. apply wp_bind. eapply wp_assert_invariants; [exact Hc5|]. by apply wp_ret.
Qed.

(** A hash whose fetch can fail: unknown, or claimed and so not done. *)
Definition fetch_running (c : catalog) (h : bytes) : Prop :=
  forall o e, at_entry c h o e -> fetch_state e <> FETCH_DONE /\ database_checked e = true.

Lemma wp_forget_peers h o l c e :
  at_entry c h o e -> inv_at (Some h) c ->
  wp (for_each l (forget_peer_locked o)) (fun _ => peers_step lim h o c e) c.
Proof using.
  intros Hat Hc. apply wp_for_each; [by apply peers_step_refl|]. intros p c1 _ Hs. by apply wp_forget_peer.
Qed.

Lemma wp_mark_fetch_failed c h tried reason clock now :
  inv c -> length h = NODE_ID_LENGTH -> time_ok clock now -> fetch_running c h ->
  wp (mark_fetch_failed lim h tried reason clock now) (fun s c' => inv c' /\ s <> FETCH_DONE) c.
Proof using Hlim.
  intros Hc Hh Ht Hrun. unfold mark_fetch_failed. apply wp_bind, wp_assert; [by apply is_node_id_of|].
  apply wp_bind, wp_moment; [done|]. intros m _. apply wp_bind, wp_gets.
  destruct (dict_get h (entries c)) as [o|] eqn:Hg; [|by apply wp_ret].
  destruct (at_entry_exists _ _ _ _ _ Hc Hg) as (e & Hat). destruct (Hrun o e Hat) as [Hnd Hch].
  apply (inv_dirty _ None c h) in Hc; [|by left]. apply wp_bind.
  eapply wp_mono; [by apply wp_forget_peers|]. intros [] c1 (e1 & Hat1 & Hp & Hc1 & _).
  assert (fetch_state e1 <> FETCH_DONE /\ database_checked e1 = true) as [Hnd1 Hch1]
    by (destruct Hp as (? & ? & ->); done).
  clear c e Hc Hat Hg Hrun Hnd Hch Hp. destruct (at_entry_wf _ _ _ _ _ _ Hc1 Hat1) as [W1 W2].
  apply wp_bind. eapply wp_update_quiet; [exact Hc1|by right|exact Hat1|done|exact W1|exact W2|].
  intros c2 Hc2 Hat2 _. set (e2 := set_last_error reason _) in *.
  change (fetch_state e2 <> FETCH_DONE) in Hnd1. change (database_checked e2 = true) in Hch1.
  clearbody e2. clear c1 e1 Hc1 Hat1 W1 W2. apply wp_bind, (wp_lookup_entry _ e2); [apply Hat2|].
  destruct (at_entry_wf _ _ _ _ _ _ Hc2 Hat2) as [W1 W2]. apply wp_bind.
  eapply (wp_mono _ (fun _ c' => exists e', inv_at (Some h) c' /\ at_entry c' h o e' /\
    fetch_state e' <> FETCH_DONE)).
  - assert (forall c0 e0 s, inv_at (Some h) c0 -> at_entry c0 h o e0 -> entry_wf lim e0 -> current_wf lim e0 ->
      fetch_state e0 <> FETCH_DONE -> database_checked e0 = true -> s <> FETCH_DONE ->
      inv_at (Some h) (state_set o e0 s c0) /\ at_entry (state_set o e0 s c0) h o (set_fetch_state s e0)) as Hset.
    { intros c0 e0 s Hc0 Hat0 _ V2 N0 K0 Ns. split.
      - eapply inv_set_state; [exact Hc0|by right|exact Hat0|]. apply current_wf_state; [done..|congruence].
      - split; [apply Hat0|apply lookup_insert_eq]. }
    destruct (max_fetch_attempts lim <=? fetch_attempts e2)%Z; [|destruct (negb (has_peers e2) && _ && _)].
    + eapply wp_set_state; [apply Hat2|by eapply state_count_member|]. eexists.
      destruct (Hset c2 e2 FETCH_FAILED) as [? ?]; try done.
    + apply wp_bind. eapply wp_update_quiet; [exact Hc2|by right|exact Hat2|done|exact W1|exact W2|].
      intros c3 Hc3 Hat3 _. eapply wp_set_state; [apply Hat3|by eapply state_count_member|]. eexists.
      destruct (Hset c3 (set_last_error "no_peers" e2) FETCH_FAILED) as [? ?]; try done.
    + apply wp_bind. eapply wp_set_state; [apply Hat2|by eapply state_count_member|].
      destruct (Hset c2 e2 FETCH_PENDING) as [Hc3 Hat3]; try done.
      destruct (at_entry_wf _ _ _ _ _ _ Hc3 Hat3) as [W1' W2'].
      apply wp_when; intros _; [|by eexists].
      eapply wp_update_quiet; [exact Hc3|by right|exact Hat3|done|exact W1'|exact W2'|].
      intros c4 Hc4 Hat4 _. by eexists.
  - intros [] c3 (e3 & Hc3 & Hat3 & Hn3). apply wp_bind.
    eapply wp_index; [exact Hc3|by right|exact Hat3|]. intros c4 Hc4 Hre.
    apply (reindexed_at _ _ _ _ _ Hre) in Hat3.
    apply wp_bind, (wp_lookup_entry _ e3); [apply Hat3|]. apply wp_bind.
    eapply wp_assert_invariants; [exact Hc4|]. by apply wp_ret.
Qed.

Lemma wp_release_fetch_claim c h :
  inv c -> length h = NODE_ID_LENGTH -> wp (release_fetch_claim lim h) (fun _ => inv) c.
Proof using.
  intros Hc Hh. unfold release_fetch_claim. apply wp_bind, wp_assert; [by apply is_node_id_of|].
  apply wp_bind, wp_gets. apply wp_bind.
  eapply (wp_mono _ (fun _ c' => inv c' /\ forall o, dict_get h (entries c) = Some o ->
    exists e, heap c' !! o = Some e /\ fetch_state e <> FETCH_IN_PROGRESS)).
  - destruct (dict_get h (entries c)) as [o|] eqn:Hg; [|done].
    destruct (at_entry_exists _ _ _ _ _ Hc Hg) as (e & Hat).
    apply wp_bind, (wp_lookup_entry _ e); [apply Hat|]. apply wp_when; intros Hs.
    + apply bool_decide_eq_true in Hs. destruct (at_entry_wf _ _ _ _ _ _ Hc Hat) as [_ W2].
      eapply (wp_transition _ None); [exact Hc|by left|exact Hat|apply current_wf_state; congruence|].
      intros c' Hc' Hre. split; [done|]. intros o' [= <-]. destruct (reindexed_eq _ _ Hre) as [-> _].
      eexists. split; [apply lookup_insert_eq|]. done.
    + split; [done|]. intros o' [= <-]. exists e. split; [apply Hat|].
      by apply bool_decide_eq_false in Hs.
  - intros [] c' [Hc' Hs]. apply wp_bind. eapply wp_assert_invariants; [exact Hc'|].
    apply wp_bind, wp_get. apply wp_assert; [|done].
    destruct (dict_get h (entries c)) as [o|]; [|done]. destruct (Hs o eq_refl) as (e & -> & Hn).
    unfold is_state. by rewrite bool_decide_eq_false_2.
Qed.

Lemma wp_snapshot_counts c (Q : counts_t -> catalog -> Prop) :
  inv c ->
  Q (Counts (Z.of_nat (length (entries c))) (discovered c) (observations c)
      (state_counts c FETCH_DONE - known_done c) (known_done c) (Z.of_nat (length (fetched c)))
      (metadata_bytes c) (state_counts c FETCH_PENDING) (state_counts c FETCH_IN_PROGRESS)
      (state_counts c FETCH_DONE) (state_counts c FETCH_FAILED) (Z.of_nat (length (fetchable c)))
      (lookups_in_progress c) (evicted c) (max_entries lim)) c ->
  wp (snapshot_counts lim) Q c.
Proof using Hlim.
  intros Hc HQ. unfold snapshot_counts.
  apply wp_bind, wp_assert; [apply Z.leb_le, Hlim|]. apply wp_bind, wp_get.
  apply wp_bind, wp_assert; [|by apply wp_ret].
  simpl. apply Z.eqb_eq. rewrite !(inv_counts _ _ _ Hc). by apply (total_states lim).
Qed.
End methods_safety.
