(* ===== verification/CatalogIndex.v ===== *)
(** The methods of the torrent catalog that serve the search index: the queues
    of documents and counters, their results written back, and the checks
    against the database keep the invariant and never fail an assertion. *)
From S2P Require Import Prelude PyDict Bencode NodeIdentity Krpc TorrentInfo Catalog CatalogInvariant.
From S2P Require Import CatalogSafety CatalogMethods.

Section index_safety.
Context (lim : limits) (Hlim : limits_ok lim).

Abbreviation inv_at := (inv_at lim).
Abbreviation inv := (inv lim).

(** ** Changes that no table sees *)

(** [e'] is [e] with other flushed counts or another base. *)
Definition inert (e e' : entry) : Prop :=
  exists b s a, e' = set_base b (set_flushed_announce a (set_flushed_seen s e)).

Lemma selected_inert P c o e e' h :
  heap c !! o = Some e -> P e' = P e -> selected P (set_entry o e' c) h = selected P c h.
Proof using.
  intros He HP. unfold selected. simpl. destruct (dict_get h (entries c)) as [o'|]; [|done].
  destruct (decide (o = o')) as [<-|Hne].
  - by rewrite lookup_insert_eq, He, HP.
  - by rewrite lookup_insert_ne.
Qed.

Lemma total_inert P c o e e' :
  heap c !! o = Some e -> P e' = P e -> total P (set_entry o e' c) = total P c.
Proof using.
  intros He HP. unfold total. apply sum_over_ext. intros h o' _. unfold weight. simpl.
  destruct (decide (o = o')) as [<-|Hne].
  - by rewrite lookup_insert_eq, He, HP.
  - by rewrite lookup_insert_ne.
Qed.

Lemma inv_inert D c o e e' :
  inv_at D c -> heap c !! o = Some e -> inert e e' -> entry_wf lim e' -> inv_at D (set_entry o e' c).
Proof using.
  intros Hc He (b & s & a & ->) Hwf. set (e' := set_base _ _) in *.
  assert (forall o' e0, <[o := e']> (heap c) !! o' = Some e0 ->
    exists e1, heap c !! o' = Some e1 /\ (e0 = e1 \/ (o' = o /\ e0 = e' /\ e1 = e))) as Hold.
  { intros o' e0. destruct (decide (o = o')) as [<-|Hne].
    - rewrite lookup_insert_eq. intros [= <-]. exists e. auto.
    - rewrite lookup_insert_ne by done. eauto. }
  assert (forall o' e1, heap c !! o' = Some e1 -> exists e0, <[o := e']> (heap c) !! o' = Some e0 /\
    (e0 = e1 \/ (e0 = e' /\ e1 = e))) as Hnew.
  { intros o' e1 He1. destruct (decide (o = o')) as [<-|Hne].
    - rewrite lookup_insert_eq. eexists. split; [done|]. right. split; [done|congruence].
    - rewrite lookup_insert_ne by done. eauto. }
  split; try (by destruct Hc).
  - intros h o' Ho'. destruct (inv_current _ _ _ Hc h o' Ho') as (e1 & He1 & Hh & Hcur).
    destruct (Hnew _ _ He1) as (e0 & He0 & [->|[-> ->]]); [by exists e1|].
    exists e'. split; [exact He0|]. split; [exact Hh|exact Hcur].
  - intros o' e0 He0. destruct (Hold _ _ He0) as (e1 & He1 & [->|(-> & -> & ->)]);
      [by apply (inv_heap _ _ _ Hc)|]. split; [by apply (inv_heap _ _ _ Hc o e)|done].
  - intros h Hh. unfold derived_ok. rewrite !(selected_inert _ c o e e') by done.
    by apply (inv_derived _ _ _ Hc).
  - intros h. rewrite (selected_inert _ c o e e') by done. apply (inv_fetched _ _ _ Hc).
  - intros s'. rewrite (total_inert _ c o e e') by done. apply (inv_counts _ _ _ Hc).
  - rewrite (total_inert _ c o e e') by done. apply (inv_lookups _ _ _ Hc).
  - rewrite (total_inert _ c o e e') by done. apply (inv_known _ _ _ Hc).
  - intros h o' Ho'. destruct (inv_documents _ _ _ Hc h o' Ho') as (e1 & He1 & Hh & Hm).
    destruct (Hnew _ _ He1) as (e0 & He0 & [->|[-> ->]]); [by exists e1|]. by exists e'.
  - intros o' Ho'. destruct (inv_orphans _ _ _ Hc o' Ho') as (e1 & He1 & Hm & Hn).
    destruct (Hnew _ _ He1) as (e0 & He0 & [->|[-> ->]]); [by exists e1|]. by exists e'.
Qed.

(** ** Snapshots *)

(** A snapshot of an entry object that still describes it, with counter
    differences the entry has not had written yet. *)
Definition snapshot_wf (c : catalog) (s : index_snapshot_t) : Prop :=
  exists e, heap c !! snap_entry s = Some e /\ info_hash e = snap_info_hash s /\
    metadata e = snap_metadata s /\ has_metadata e || in_database e = true /\
    (0 <= snap_seen_delta s /\ flushed_seen e + snap_seen_delta s <= seen_count e)%Z /\
    (0 <= snap_announce_delta s /\ flushed_announce e + snap_announce_delta s <= announce_count e)%Z.

Lemma wp_index_snapshot c o e (Q : index_snapshot_t -> catalog -> Prop) :
  heap c !! o = Some e -> entry_wf lim e -> has_metadata e || in_database e = true ->
  (forall s, snapshot_wf c s -> snap_entry s = o -> Q s c) -> wp (index_snapshot o) Q c.
Proof using.
  intros He (W1 & W2 & W3 & W4 & W5) Hm HQ. unfold index_snapshot.
  apply wp_bind, (wp_lookup_entry _ e); [done|]. apply wp_bind, wp_assert; [done|].
  apply wp_bind, wp_assert.
  { simpl. rewrite bool_decide_eq_true_2 by done. simpl. lia. }
  apply wp_ret, HQ; [|done]. exists e. simpl. repeat (split; [done|]). lia.
Qed.

Lemma inv_del_document c h o rest :
  inv c -> index_documents c = (h, o) :: rest -> inv (set_index_documents rest c).
Proof using.
  intros Hc Hd. destruct (inv_tables _ _ _ Hc) as (_ & _ & _ & _ & _ & W6 & _). rewrite Hd in W6.
  unfold dict_wf in W6. csimpl in W6. apply NoDup_cons in W6 as [Hn Hrest].
  apply inv_set_documents; [done|done|]. intros h' o' Ho'. apply (inv_documents _ _ _ Hc).
  rewrite Hd. simpl. rewrite decide_False; [done|]. intros ->. apply dict_get_None in Hn. congruence.
Qed.

Lemma wp_drain_index_documents c limit :
  inv c -> wp (drain_index_documents limit) (fun result c' => inv c' /\ length result <= limit /\
    heap c' = heap c /\ Forall (fun s => snapshot_wf c' s /\ snap_metadata s <> None) result) c.
Proof using.
  intros Hc. unfold drain_index_documents. apply wp_bind.
  eapply (wp_mono _ (fun result c' => inv c' /\ length result <= limit /\
    heap c' = heap c /\ Forall (fun s => snapshot_wf c' s /\ snap_metadata s <> None) result)).
  2: { intros result c' (Hc' & Hl & Hh & Hs). apply wp_bind, wp_assert; [by apply bool_decide_eq_true|].
       by apply wp_ret. }
  revert c Hc. induction limit as [|limit IH]; intros c Hc; cbn [drain_documents]; [by apply wp_ret|].
  apply wp_bind, wp_gets. destruct (index_documents c) as [|[h o] rest] eqn:Hd.
  { apply wp_ret. split; [done|]. split; [simpl; lia|done]. }
  destruct (inv_documents _ _ _ Hc h o) as (e & He & Hh & Hm); [rewrite Hd; simpl; by rewrite decide_True|].
  destruct (inv_heap _ _ _ Hc _ _ He) as [_ Hwf].
  apply (inv_del_document _ _ _ _ Hc) in Hd as Hc1. apply wp_bind, wp_update. apply wp_bind.
  eapply (wp_index_snapshot _ o e); [exact He|exact Hwf|by rewrite Hm|]. intros s Hs Hse.
  apply wp_bind. eapply wp_mono; [by apply IH|]. intros result c2 (Hc2 & Hl & Hheap & Hall).
  apply wp_ret. split; [done|]. split; [simpl; lia|]. split; [done|]. constructor; [|done].
  unfold snapshot_wf in *. rewrite Hheap. simpl in *. split; [done|].
  destruct Hs as (e0 & He0 & _ & Hmd & _). rewrite <-Hmd. rewrite Hse in He0.
  assert (e0 = e) as -> by congruence. unfold has_metadata in Hm. apply bool_decide_eq_true in Hm.
  destruct Hm as [? ->]. done.
Qed.

Lemma inv_set_orphans c l :
  inv c -> (forall o, o ∈ l -> o ∈ orphan_counters c) -> length l <= length (orphan_counters c) ->
  inv (set_orphan_counters l c).
Proof using.
  intros Hc Hl Hlen. destruct (inv_bounds _ _ _ Hc) as (B1 & B2 & B3). split; try (by destruct Hc).
  - intros o Ho. by apply (inv_orphans _ _ _ Hc), Hl.
  - simpl. split; [lia|done].
Qed.

Lemma wp_drain_orphans fuel room c :
  inv c -> wp (drain_orphans fuel room) (fun result c' => inv c' /\ length result <= room /\
    heap c' = heap c /\ Forall (snapshot_wf c') result) c.
Proof using.
  revert room c. induction fuel as [|fuel IH]; intros room c Hc; cbn [drain_orphans].
  { apply wp_ret. split; [done|]. split; [simpl; lia|done]. }
  destruct room as [|room]; [by apply wp_ret|].
  apply wp_bind, wp_gets. destruct (orphan_counters c) as [|o rest] eqn:Ho.
  { apply wp_ret. split; [done|]. split; [simpl; lia|done]. }
  destruct (inv_orphans _ _ _ Hc o) as (e & He & Hm & _); [rewrite Ho; left|].
  destruct (inv_heap _ _ _ Hc _ _ He) as [_ Hwf].
  assert (inv (set_orphan_counters rest c)) as Hc1.
  { apply inv_set_orphans; [done|rewrite Ho; by right|rewrite Ho; simpl; lia]. }
  apply wp_bind, wp_update. apply wp_bind.
  eapply (wp_index_snapshot _ o e); [exact He|exact Hwf|exact Hm|]. intros s Hs _.
  destruct (negb _ || negb _).
  - apply wp_bind. eapply wp_mono; [by apply IH|]. intros result c2 (Hc2 & Hl & Hheap & Hall).
    apply wp_ret. split; [done|]. split; [simpl; lia|]. split; [done|]. constructor; [|done].
    unfold snapshot_wf in *. by rewrite Hheap.
  - exact (IH (S room) _ Hc1).
Qed.

Lemma inv_counters_tail c h o rest :
  inv c -> index_counters c = (h, o) :: rest ->
  inv (set_index_counters rest c) /\ dict_get h (entries c) = Some o.
Proof using.
  intros Hc Hd. destruct (inv_tables _ _ _ Hc) as (W1 & W2 & W3 & W4 & W5 & W6 & W7).
  rewrite Hd in W7. unfold dict_wf in W7. csimpl in W7. apply NoDup_cons in W7 as [Hn Hrest]. split.
  - split; try (by destruct Hc). intros h' o' Ho'. simpl in Ho'. apply (inv_counters _ _ _ Hc).
    rewrite Hd. simpl. rewrite decide_False; [done|]. intros ->. apply dict_get_None in Hn. congruence.
  - apply (inv_counters _ _ _ Hc). rewrite Hd. simpl. by rewrite decide_True.
Qed.

Lemma wp_drain_counters fuel room c :
  inv c -> wp (drain_counters lim fuel room) (fun result c' => inv c' /\ length result <= room) c.
Proof using.
  revert room c. induction fuel as [|fuel IH]; intros room c Hc; cbn [drain_counters].
  { apply wp_ret. split; [done|]. simpl; lia. }
  destruct room as [|room]; [by apply wp_ret|].
  apply wp_bind, wp_gets. destruct (index_counters c) as [|[h o] rest] eqn:Ho.
  { apply wp_ret. split; [done|]. simpl; lia. }
  destruct (inv_counters_tail _ _ _ _ Hc Ho) as [Hc1 Hg].
  destruct (at_entry_exists _ _ _ _ _ Hc Hg) as (e & Hat).
  destruct (inv_heap _ _ _ Hc _ _ (proj2 Hat)) as [_ Hwf].
  apply wp_bind, wp_update. apply wp_bind, (wp_lookup_entry _ e); [apply Hat|].
  case_bool_decide as Hb.
  - apply wp_bind. eapply (wp_mono _ (fun _ => inv)).
    + apply wp_when; intros Hm; [|done].
      eapply wp_mono; [by apply (wp_queue_document lim _ h o e)|]. by intros [] c2 [].
    + intros [] c2 Hc2. by apply IH.
  - destruct ((_ <? _)%Z || _); [|exact (IH (S room) _ Hc1)]. apply wp_bind.
    eapply (wp_index_snapshot _ o e); [apply Hat|exact Hwf| |].
    + destruct Hwf as (_ & _ & _ & Hbase & _). destruct (index_base e) as [b|] eqn:Hbe; [|done].
      destruct (Hbase b eq_refl) as [-> _]. by rewrite orb_true_r.
    + intros s _ _. apply wp_bind. eapply wp_mono; [exact (IH room _ Hc1)|].
      intros result c2 [Hc2 Hl]. apply wp_ret. split; [done|]. simpl; lia.
Qed.

Lemma wp_drain_index_counters c limit :
  inv c -> wp (drain_index_counters lim limit) (fun result c' => inv c' /\ length result <= limit) c.
Proof using.
  intros Hc. unfold drain_index_counters. apply wp_bind, wp_get. apply wp_bind.
  eapply wp_mono; [by apply wp_drain_orphans|]. intros orphans c1 (Hc1 & Hl1 & _).
  apply wp_bind, wp_get. apply wp_bind. eapply wp_mono; [by apply wp_drain_counters|].
  intros counters c2 [Hc2 Hl2]. assert (length (orphans ++ counters) <= limit) by (rewrite length_app; lia).
  apply wp_bind, wp_assert; [by apply bool_decide_eq_true|]. by apply wp_ret.
Qed.

(** ** Putting snapshots back *)

Lemma dict_get_move_to_front {V} (h k : bytes) (d : list (bytes * V)) :
  dict_get h (move_to_front k d) = dict_get h d.
Proof using.
  unfold move_to_front. destruct (dict_get k d) as [v|] eqn:Hk; [|done]. simpl.
  case_decide as Hh; [by subst|]. by rewrite dict_get_del_ne.
Qed.

Lemma move_to_front_wf {V} (k : bytes) (d : list (bytes * V)) : dict_wf d -> dict_wf (move_to_front k d).
Proof using.
  intros Hd. unfold move_to_front. destruct (dict_get k d) as [v|]; [|done].
  unfold dict_wf. csimpl. apply NoDup_cons. split; [|by apply dict_del_wf].
  apply dict_get_None, dict_get_del_eq.
Qed.

Definition document_wf (c : catalog) (s : index_snapshot_t) : Prop :=
  exists e, heap c !! snap_entry s = Some e /\ info_hash e = snap_info_hash s /\ has_metadata e = true.

Lemma wp_requeue_index_documents c l :
  inv c -> Forall (document_wf c) l -> wp (requeue_index_documents l) (fun _ => inv) c.
Proof using.
  intros Hc Hl. unfold requeue_index_documents. apply wp_bind.
  set (I (rest : list index_snapshot_t) c' := inv c' /\ heap c' = heap c /\
    (forall s, s ∈ rest -> s ∈ l) /\
    (forall s, s ∈ l -> s ∈ rest \/ dict_has (snap_info_hash s) (index_documents c') = true)).
  eapply wp_mono; [apply (wp_for_each_list _ I)|].
  - split; [done|]. split; [done|]. split; intros s Hs; [by rewrite elem_of_reverse in Hs|].
    left. by rewrite elem_of_reverse.
  - clear Hc. intros s rest c1 (Hc & Hheap & Hrest & Hdone). apply wp_bind, wp_gets.
    assert (document_wf c s) as (e & He & Hh & Hm)
      by (rewrite Forall_forall in Hl; apply Hl, Hrest; left).
    assert (forall s', s' ∈ rest -> s' ∈ l) as Hrest' by (intros s' Hs'; apply Hrest; by right).
    apply wp_when; intros Hq.
    + apply wp_bind, wp_update, wp_update.
      set (t1 := dict_set (snap_info_hash s) (snap_entry s) (index_documents c1)).
      change (I rest (set_index_documents (move_to_front (snap_info_hash s) t1) (set_index_documents t1 c1))).
      assert (dict_wf t1) as Wt by apply dict_set_wf, (inv_tables _ _ _ Hc).
      assert (forall h, dict_get h t1 = if decide (h = snap_info_hash s) then Some (snap_entry s)
        else dict_get h (index_documents c1)) as Ht1 by (intros h; apply dict_get_set).
      assert (forall h o, dict_get h t1 = Some o -> exists e, heap c1 !! o = Some e /\ info_hash e = h /\
        has_metadata e = true) as Hdocs.
      { intros h o. rewrite Ht1. case_decide as Hd; [|apply (inv_documents _ _ _ Hc)].
        intros [= <-]. exists e. rewrite Hheap. by subst. }
      split; [|split; [done|split; [done|]]].
      * apply inv_set_documents; [by apply inv_set_documents|by apply move_to_front_wf|].
        intros h o. rewrite dict_get_move_to_front. apply Hdocs.
      * intros s' Hs'. destruct (Hdone s' Hs') as [[->|Hin]%elem_of_cons|Hin]; [right|by left|right];
          simpl; unfold dict_has in *; rewrite dict_get_move_to_front, Ht1; case_decide; done.
    + split; [done|]. split; [done|]. split; [done|]. intros s' Hs'.
      apply negb_false_iff in Hq.
      destruct (Hdone s' Hs') as [[->|Hin]%elem_of_cons|Hin]; auto.
  - intros [] c' (Hc' & _ & _ & Hdone). apply wp_bind, wp_gets. apply wp_assert; [|done].
    apply forallb_forall. intros s Hs%list_elem_of_In. destruct (Hdone s Hs) as [Hn|?]; [|done].
    by apply elem_of_nil in Hn.
Qed.

Definition counters_wf (c : catalog) (s : index_snapshot_t) : Prop :=
  exists e, heap c !! snap_entry s = Some e /\ info_hash e = snap_info_hash s /\
    has_metadata e || in_database e = true.

Lemma wp_requeue_index_counters c l :
  inv c -> Forall (counters_wf c) l -> wp (requeue_index_counters l) (fun _ => inv) c.
Proof using.
  intros Hc Hl. unfold requeue_index_counters. apply wp_bind.
  eapply wp_mono; [apply (wp_for_each _ _ (fun c' => inv c' /\ heap c' = heap c)); [done|]|].
  - clear Hc. intros s c1 Hs [Hc Hheap]. rewrite Forall_forall in Hl.
    destruct (Hl s Hs) as (e & He & Hh & Hm). rewrite <-Hheap in He. apply wp_bind, wp_gets.
    case_bool_decide as Hcur.
    + apply wp_update. split; [|done]. by apply (inv_add_counter lim None c1 _ _ e).
    + destruct (inv_bounds _ _ _ Hc) as (B1 & B2 & B3).
      apply wp_add_orphan; [done|]. intros l' d Hl' Hlen Hd. split; [|done].
      split; try (by destruct Hc).
      * intros o [Ho| ->]%Hl'; [by apply (inv_orphans _ _ _ Hc)|]. exists e. by rewrite Hh.
      * simpl. split; [done|]. split; [done|lia].
  - intros [] c' [Hc' _]. apply wp_bind, wp_gets. apply wp_assert; [|done].
    apply Z.leb_le. apply (inv_bounds _ _ _ Hc').
Qed.

(** ** Results written back *)

(** The differences of the snapshots of one object. *)
Definition pending_seen (o : oid) (l : list index_snapshot_t) : Z :=
  foldr (fun s n => if decide (snap_entry s = o) then (snap_seen_delta s + n)%Z else n) 0%Z l.
Definition pending_announce (o : oid) (l : list index_snapshot_t) : Z :=
  foldr (fun s n => if decide (snap_entry s = o) then (snap_announce_delta s + n)%Z else n) 0%Z l.

(** Snapshots that can be written: of known objects, and together no more than
    each object has left to write. *)
Definition writable (c : catalog) (l : list index_snapshot_t) : Prop :=
  Forall (fun s => is_Some (heap c !! snap_entry s) /\
    (0 <= snap_seen_delta s)%Z /\ (0 <= snap_announce_delta s)%Z) l /\
  forall o e, heap c !! o = Some e ->
    (flushed_seen e + pending_seen o l <= seen_count e)%Z /\
    (flushed_announce e + pending_announce o l <= announce_count e)%Z.

Lemma pending_nonneg c l o : writable c l -> (0 <= pending_seen o l /\ 0 <= pending_announce o l)%Z.
Proof using.
  intros [Hl _]. induction Hl as [|s l (_ & ? & ?) Hl IH]; simpl; [done|].
  repeat case_decide; lia.
Qed.

Definition flushed (s : index_snapshot_t) (e : entry) : entry :=
  set_flushed_announce (flushed_announce e + snap_announce_delta s)%Z
    (set_flushed_seen (flushed_seen e + snap_seen_delta s)%Z e).

Lemma inert_flushed s e : inert e (flushed s e).
Proof using. exists (index_base e), (flushed_seen e + snap_seen_delta s)%Z, (flushed_announce e + snap_announce_delta s)%Z. by destruct e. Qed.

Lemma entry_wf_flushed s e :
  entry_wf lim e -> (0 <= snap_seen_delta s)%Z -> (0 <= snap_announce_delta s)%Z ->
  (flushed_seen e + snap_seen_delta s <= seen_count e)%Z ->
  (flushed_announce e + snap_announce_delta s <= announce_count e)%Z -> entry_wf lim (flushed s e).
Proof using.
  intros (A & B & C & D & E) ????. split; [exact A|]. split; [simpl; lia|]. split; [simpl; lia|].
  exact (conj D E).
Qed.

Lemma wp_mark_counters_written c l :
  inv c -> writable c l -> wp (mark_counters_written l) (fun _ => inv) c.
Proof using.
  intros Hc Hw. unfold mark_counters_written. apply wp_bind.
  eapply wp_mono; [apply (wp_for_each_list _ (fun rest c' => inv c' /\ writable c' rest /\
    forall o, is_Some (heap c !! o) -> is_Some (heap c' !! o)))|].
  - done.
  - clear Hc Hw. intros s rest c1 (Hc & Hw & Hdom).
    pose proof (fun o => pending_nonneg c1 (s :: rest) o Hw) as Hnn.
    destruct Hw as [Hl Hsum]. apply Forall_cons in Hl as [([e He] & H1 & H2) Hl].
    assert (writable c1 rest) as Hw'.
    { split; [done|]. intros o e' He'. destruct (Hsum o e' He') as [S1 S2]. simpl in S1, S2.
      repeat case_decide; lia. }
    pose proof (fun o => pending_nonneg c1 rest o Hw') as Hnn'.
    destruct (Hsum _ _ He) as [S1 S2]. simpl in S1, S2. rewrite !decide_True in S1, S2 by done.
    unfold add_flushed. eapply wp_update_entry; [exact He|]. change (fun e => _) with (flushed s).
    destruct (inv_heap _ _ _ Hc _ _ He) as [_ Hwf]. destruct (Hnn' (snap_entry s)) as [N1 N2].
    split; [|split].
    + apply (inv_inert None c1 _ e); [done|done|apply inert_flushed|apply entry_wf_flushed; (done || lia)].
    + split.
      * eapply Forall_impl; [exact Hl|]. intros s' (Hs & ?). simpl. split; [|done].
        destruct (decide (snap_entry s = snap_entry s')) as [->|Hne];
          [rewrite lookup_insert_eq|rewrite lookup_insert_ne by done]; eauto.
      * intros o e'. simpl. destruct (decide (snap_entry s = o)) as [<-|Hne].
        -- rewrite lookup_insert_eq. intros [= <-]. simpl. lia.
        -- rewrite lookup_insert_ne by done. apply Hw'.
    + intros o Ho. simpl. destruct (decide (snap_entry s = o)) as [<-|Hne];
        [rewrite lookup_insert_eq; eauto|rewrite lookup_insert_ne by done; by apply Hdom].
  - intros [] c' (Hc' & _ & Hdom). eapply wp_mono; [apply (wp_for_each _ _ (eq c')); [done|]|by intros _ c2 <-].
    intros s c2 Hs <-. destruct Hw as [Hl _]. rewrite Forall_forall in Hl.
    destruct (Hl s Hs) as [Hsome _]. apply Hdom in Hsome as [e He].
    destruct (inv_heap _ _ _ Hc' _ _ He) as [_ (_ & W & _)].
    apply wp_bind, (wp_lookup_entry _ e); [done|]. apply wp_assert; [lia|done].
Qed.
End index_safety.
