(* ===== verification/CatalogWrites.v ===== *)
(** The methods of the torrent catalog through which the database changes it:
    documents written, database checks and documents found missing keep the
    invariant and never fail an assertion. *)
From S2P Require Import Prelude PyDict Bencode NodeIdentity Krpc TorrentInfo Catalog CatalogInvariant.
From S2P Require Import CatalogSafety CatalogMethods CatalogIndex.

Section write_safety.
Context (lim : limits) (Hlim : limits_ok lim).

Abbreviation inv_at := (inv_at lim).
Abbreviation inv := (inv lim).

(** A dirty hash whose derived tables are right is clean. *)
Lemma inv_clean c h : inv_at (Some h) c -> derived_ok lim c h -> inv c.
Proof using.
  intros Hc Hh. split; try (by destruct Hc). intros h' _.
  destruct (decide (h' = h)) as [->|Hne]; [done|]. apply (inv_derived _ _ _ Hc). congruence.
Qed.

Lemma selected_at P c h o e : at_entry c h o e -> selected P c h = if P e then Some o else None.
Proof using. intros [Hg He]. unfold selected. by rewrite Hg, He. Qed.

(** A done entry is in none of the derived tables. *)
Lemma done_selected c h o e :
  at_entry c h o e -> fetch_state e = FETCH_DONE ->
  selected is_fetchable c h = None /\ selected (is_lookup_candidate lim) c h = None /\
  selected is_unchecked c h = None.
Proof using.
  intros Hat Hs. rewrite !(selected_at _ _ _ _ _ Hat).
  unfold is_fetchable, is_lookup_candidate, is_ready, is_unchecked, is_state. by rewrite Hs.
Qed.

Lemma wp_set_index_base c h base :
  inv c -> length h = NODE_ID_LENGTH -> (0 <= base.1.1)%Z ->
  (forall o e, at_entry c h o e -> in_database e = true) ->
  wp (set_index_base h base) (fun _ => inv) c.
Proof using.
  intros Hc Hh Hb Hdb. unfold set_index_base. apply wp_bind, wp_assert; [by apply is_node_id_of|].
  apply wp_bind, wp_gets, wp_bind. eapply (wp_mono _ (fun _ => inv)).
  2: { intros [] c' Hc'. apply wp_assert; [by apply Z.leb_le|done]. }
  destruct (dict_get h (entries c)) as [o|] eqn:Hg; [|done].
  destruct (at_entry_exists _ _ _ _ _ Hc Hg) as (e & Hat).
  destruct (at_entry_wf _ _ _ _ _ _ Hc Hat) as [(A & B & C & D & E) _].
  eapply wp_update_entry; [apply Hat|]. apply (inv_inert lim None c o e); [done|apply Hat| |].
  - exists (Some base), (flushed_seen e), (flushed_announce e). by destruct e.
  - split; [exact A|]. split; [exact B|]. split; [exact C|]. split; [|exact E].
    intros b. simpl. intros [= <-]. split; [by eapply Hdb|done].
Qed.

(** The entry [mark_index_written] leaves. *)
Definition released (base : index_base_t) (e : entry) : entry :=
  set_failed_peers None (set_peers None (set_in_database true (set_metadata None (set_base (Some base) e)))).

(** Releasing the metadata of a current entry whose document is written. *)
Lemma inv_released c h o e base docs :
  inv c -> at_entry c h o e -> has_metadata e = true -> (0 <= base.1.1)%Z ->
  docs = dict_del h (index_documents c) ->
  inv (set_fetched (dict_del h (fetched c)) (set_entry o (released base e) (set_index_documents docs c))).
Proof using.
  intros Hc Hat Hm Hb ->. destruct (at_entry_wf _ _ _ _ _ _ Hc Hat) as [(A & B & C & D & E) (C1 & C2 & C3 & C4 & C5)].
  pose proof (at_entry_hash _ _ _ _ _ _ Hc Hat) as Hh. pose proof Hat as [Hg He].
  destruct (inv_tables _ _ _ Hc) as (W1 & W2 & W3 & W4 & W5 & W6 & W7).
  assert (known_from_database e = false) as Hk by (destruct (known_from_database e); [destruct C3; congruence|done]).
  apply (inv_clean _ h).
  - eapply (inv_change lim None c _ h o e (released base e)); try done; auto.
    + split; [exact A|]. split; [exact B|]. split; [exact C|]. split; [|done].
      intros b. simpl. by intros [= <-].
    + split; [done|]. split; [done|]. simpl. rewrite Hk. split; [done|]. by split.
    + simpl. by apply dict_del_wf.
    + intros h'. simpl. by rewrite dict_get_del.
    + simpl. by apply dict_del_wf.
    + intros h' o'. simpl. rewrite dict_get_del. case_decide as Hd; [done|]. intros Ho'. split; [done|].
      intros ->. by destruct (documents_current _ _ _ _ _ _ _ _ Hc Hat Ho' eq_refl).
    + intros s. unfold is_state. simpl. lia.
    + simpl. lia.
    + simpl. lia.
  - specialize (C1 Hm). assert (at_entry (set_fetched (dict_del h (fetched c)) (set_entry o (released base e)
      (set_index_documents (dict_del h (index_documents c)) c))) h o (released base e)) as Hat'.
    { split; [done|]. simpl. by rewrite lookup_insert_eq. }
    destruct (done_selected _ _ _ _ Hat' C1) as (S1 & S2 & S3).
    destruct (done_selected _ _ _ _ Hat C1) as (T1 & T2 & T3).
    destruct (inv_derived _ _ _ Hc h) as (D1 & D2 & D3); [done|].
    unfold derived_ok. rewrite S1, S2, S3. simpl. rewrite D1, D2, D3. done.
Qed.

Lemma wp_mark_index_written c s base :
  inv c -> snapshot_wf c s -> snap_metadata s <> None -> (0 <= base.1.1)%Z ->
  wp (mark_index_written s base) (fun _ => inv) c.
Proof using.
  intros Hc (e & He & Hh & Hm & _ & Hs & Ha) Hsm Hb. unfold mark_index_written.
  assert (is_Some (snap_metadata s)) as Hsome by (destruct (snap_metadata s); [eauto|done]).
  apply wp_bind, wp_assert; [by apply bool_decide_eq_true|]. apply wp_bind.
  unfold add_flushed. eapply wp_update_entry; [exact He|].
  set (o := snap_entry s) in *. set (h := snap_info_hash s) in *.
  change (set_heap _ c) with (set_entry o (flushed s e) c).
  assert (inv (set_entry o (flushed s e) c)) as Hc1.
  { destruct (inv_heap _ _ _ Hc _ _ He) as [_ Hwf].
    apply (inv_inert lim None c o e); [done|done|apply inert_flushed|apply entry_wf_flushed; (done || lia)]. }
  assert (heap (set_entry o (flushed s e) c) !! o = Some (flushed s e)) as He1 by apply lookup_insert_eq.
  revert Hc1 He1. generalize (set_entry o (flushed s e) c). set (e1 := flushed s e).
  assert (info_hash e1 = h) as Hh1 by done. assert (metadata e1 = snap_metadata s) as Hm1 by done.
  clearbody e1. clear c Hc e He Hh Hm Hs Ha. intros c Hc He.
  apply wp_bind, wp_gets, wp_bind. eapply (wp_mono _ (fun _ => inv)).
  2: { intros [] c' Hc'. apply wp_bind. eapply wp_assert_invariants; [exact Hc'|].
       apply wp_assert; [by apply Z.leb_le|done]. }
  apply wp_when; intros Hcur; [|done]. apply bool_decide_eq_true in Hcur.
  assert (at_entry c h o e1) as Hat by done.
  assert (has_metadata e1 = true) as Hhm by (unfold has_metadata; rewrite Hm1; by apply bool_decide_eq_true).
  assert (fetch_state e1 = FETCH_DONE) as Hdone by by destruct (at_entry_wf _ _ _ _ _ _ Hc Hat) as [_ [Hd _]]; apply Hd.
  apply wp_bind. eapply wp_update_entry; [exact He|].
  apply wp_bind. eapply wp_lookup_entry; [apply lookup_insert_eq|].
  apply wp_when; intros Hid.
  2: { apply bool_decide_eq_false in Hid. simpl in Hid. by rewrite Hm1 in Hid. }
  apply wp_bind, wp_gets, wp_bind, wp_update. apply wp_bind.
  change (info_hash (set_base (Some base) e1)) with (info_hash e1). rewrite Hh1.
  set (c1 := if dict_has h (index_documents c) then
    set_index_counters (dict_setdefault h o (index_counters c)) c else c).
  assert (inv c1) as Hc1 by (unfold c1; case_match; [by eapply inv_add_counter|done]).
  assert (at_entry c1 h o e1) as Hat1 by (unfold c1; by case_match).
  assert (index_documents c1 = index_documents c) as Hd1 by (unfold c1; by case_match).
  eapply (wp_mono _ (fun _ c' => c' = set_index_documents (dict_del h (index_documents c))
    (set_entry o (set_base (Some base) e1) c1))).
  { unfold c1. simpl. by destruct (dict_has h (index_documents c)). }
  intros [] c' ->. rewrite <-Hd1. clearbody c1. clear c Hc He Hcur Hat Hid Hd1.
  unfold release_metadata_locked. apply wp_bind. eapply wp_lookup_entry; [apply lookup_insert_eq|].
  apply wp_bind, wp_assert; [by apply bool_decide_eq_true|].
  apply wp_bind. eapply wp_update_entry; [apply lookup_insert_eq|]. apply wp_bind, wp_update, wp_bind, wp_gets.
  change (info_hash (set_base (Some base) e1)) with (info_hash e1). rewrite Hh1.
  apply wp_assert; [simpl; unfold dict_has; by rewrite dict_get_del_eq|].
  pose proof (inv_released c1 h o e1 base _ Hc1 Hat1 Hhm Hb eq_refl) as Hr.
  destruct c1. unfold set_entry in *. simpl in *. by rewrite insert_insert_eq.
Qed.

(** ** Checks against the database *)

Lemma unchecked_current c h o :
  inv c -> dict_get h (needs_check c) = Some o -> exists e, at_entry c h o e /\ is_unchecked e = true.
Proof using.
  intros Hc Ho. assert (dict_get h (entries c) = Some o) as Hg by (apply (inv_sub _ _ _ Hc); auto).
  destruct (at_entry_exists _ _ _ _ _ Hc Hg) as (e & Hat). exists e. split; [done|].
  destruct (inv_derived _ _ _ Hc h) as (_ & _ & Hsel); [done|]. rewrite Ho in Hsel.
  eapply selected_member; [by symmetry|apply Hat].
Qed.

Lemma entry_wf_checked b e : entry_wf lim e -> entry_wf lim (set_database_checked b e).
Proof using. intros (A & B & C & D & E). exact (conj A (conj B (conj C (conj D E)))). Qed.

Lemma current_wf_checked e :
  current_wf lim e -> current_wf lim (set_database_checked true e).
Proof using.
  intros (C1 & C2 & C3 & C4 & C5). split; [exact C1|]. split; [exact C2|]. split; [exact C3|].
  split; [|done]. intros Hl. split; [done|]. by apply C4.
Qed.

Lemma wp_set_database_check c enabled :
  inv c -> wp (set_database_check lim enabled) (fun _ => inv) c.
Proof using.
  intros Hc. unfold set_database_check. apply wp_bind, wp_update, wp_bind, wp_gets.
  assert (inv (set_check_database enabled c)) as Hc1 by (destruct Hc; by split).
  revert Hc1. generalize (set_check_database enabled c). clear c Hc. intros c Hc. apply wp_bind.
  eapply (wp_mono _ (fun _ c' => inv c' /\ (enabled = true \/ needs_check c' = []))).
  2: { intros [] c' [Hc' Hn]. apply wp_bind. eapply wp_assert_invariants; [exact Hc'|].
       apply wp_bind, wp_gets, wp_assert; [|done]. destruct Hn as [->|Hn]; [done|].
       rewrite Hn. by rewrite orb_true_r. }
  apply wp_when; intros He; [|split; [done|left; by apply negb_false_iff]].
  set (I (l : list oid) c' := inv c' /\ to_treat is_unchecked c' l /\
    forall h o, dict_get h (needs_check c') = Some o -> o ∈ l).
  eapply wp_mono; [apply (wp_for_each_list _ I)|].
  - split; [done|]. destruct (inv_tables _ _ _ Hc) as (_ & _ & _ & _ & W & _). split.
    + split.
      * apply (current_table_NoDup lim None _ c); [done..|]. intros h o Ho. apply (inv_sub _ _ _ Hc); auto.
      * intros o ([h o'] & -> & Hin)%list_elem_of_fmap. exists h. apply unchecked_current; [done|].
        by apply elem_of_dict_get.
    + intros h o Ho. apply dict_get_elem_of in Ho. apply list_elem_of_fmap. by exists (h, o).
  - clear c Hc He. intros o l c (Hc & Hl & Hall).
    destruct (to_treat_cons _ _ _ _ Hl) as (h & e & Hat & HP & Ho & Hl').
    destruct (at_entry_wf _ _ _ _ _ _ Hc Hat) as [W1 W2]. apply wp_bind.
    eapply wp_update_quiet; [exact Hc|by left|exact Hat|done|by apply entry_wf_checked|
      by apply current_wf_checked|].
    intros c1 Hc1 Hat1 ->. eapply wp_index; [exact Hc1|by right|exact Hat1|]. intros c2 Hc2 Hre.
    destruct (reindexed_eq _ _ Hre) as (Hheap & Hent & _). split; [done|]. split.
    + eapply to_treat_step; [exact Hc|apply Hat|done|intros; by rewrite Hent|exact Hheap|done].
    + intros h' o' Ho'. destruct (unchecked_current _ _ _ Hc2 Ho') as (e' & [Hg' He'] & HP').
      rewrite Hheap in He'. rewrite Hent in Hg'. simpl in He', Hg'. destruct (decide (o = o')) as [<-|Hne].
      * rewrite lookup_insert_eq in He'. injection He' as <-. unfold is_unchecked in HP'. simpl in HP'.
        by rewrite andb_false_r in HP'.
      * rewrite lookup_insert_ne in He' by done.
        assert (dict_get h' (needs_check c) = Some o') as Hold.
        { destruct (inv_derived _ _ _ Hc h') as (_ & _ & ->); [done|].
          rewrite (selected_at _ _ _ o' e') by done. by rewrite HP'. }
        apply Hall, elem_of_cons in Hold as [->|]; done.
  - intros [] c' (Hc' & _ & Hnone). split; [done|]. right.
    destruct (needs_check c') as [|[h o] t] eqn:Hn; [done|]. exfalso.
    apply (not_elem_of_nil o), (Hnone h). simpl. by rewrite decide_True.
Qed.

(** The entry of a torrent found in the database. *)
Definition found_known (base : index_base_t) (e : entry) : entry :=
  set_fetch_state FETCH_DONE (set_known_from_database true (set_failed_peers None
    (set_peers None (set_in_database true (set_base (Some base) e))))).

Lemma inv_found c h o e base :
  inv_at (Some h) c -> at_entry c h o e -> fetch_state e = FETCH_PENDING ->
  known_from_database e = false -> database_checked e = true -> (0 <= base.1.1)%Z ->
  inv_at (Some h) (add_count FETCH_DONE 1 (set_entry o (found_known base e)
    (add_count FETCH_PENDING (-1) (set_known_done (known_done c + 1)%Z c)))).
Proof using.
  intros Hc Hat Hp Hk Hch Hb.
  destruct (at_entry_wf _ _ _ _ _ _ Hc Hat) as [(A & B & C & D & E) (C1 & C2 & C3 & C4 & C5)].
  assert (has_metadata e = false) as Hm by (destruct (has_metadata e); [by rewrite C1 in Hp|done]).
  pose proof (at_entry_hash _ _ _ _ _ _ Hc Hat) as Hh. pose proof Hat as [Hg He].
  eapply (inv_change lim (Some h) c _ h o e (found_known base e)); try done.
  - by right.
  - split; [exact A|]. split; [exact B|]. split; [exact C|]. split; [|done].
    intros b. simpl. by intros [= <-].
  - split; [done|]. split; [by intros _; apply orb_true_r|]. split; [done|]. split; [exact C4|].
    simpl. congruence.
  - apply (inv_tables _ _ _ Hc).
  - intros h'. simpl. case_decide as Hd; [subst h'|done]. rewrite (inv_fetched _ _ _ Hc).
    rewrite (selected_at _ _ _ _ _ Hat). change (has_metadata (found_known base e)) with (has_metadata e). done.
  - apply (inv_tables _ _ _ Hc).
  - intros h' o' Hd. split; [done|]. intros Ho'.
    by destruct (documents_current _ _ _ _ _ _ _ _ Hc Hat Hd Ho').
  - intros s. unfold is_state. rewrite Hp. simpl. unfold set_count, b2n. repeat case_decide; repeat case_bool_decide; simplify_eq/=; try congruence; lia.
  - simpl. lia.
  - simpl. rewrite Hk. simpl. lia.
Qed.

(** The entry of [h] has been checked against the database. *)
Lemma checked_hash_change c c' h o e' :
  entries c' = entries c -> heap c' = <[o := e']> (heap c) -> database_checked e' = true ->
  checked_hash c h -> checked_hash c' h.
Proof using.
  intros Hent Hheap He' Hch o0 e0 [Hg He]. rewrite Hent in Hg. rewrite Hheap in He.
  destruct (decide (o = o0)) as [<-|Hne].
  - rewrite lookup_insert_eq in He. congruence.
  - rewrite lookup_insert_ne in He by done. by apply (Hch o0).
Qed.

Lemma wp_apply_database_check c found h :
  inv c -> (forall b, found h = Some b -> (0 <= b.1.1)%Z) ->
  wp (apply_database_check lim found h) (fun _ c' => inv c' /\ checked_hash c' h /\
    forall h', checked_hash c h' -> checked_hash c' h') c.
Proof using.
  intros Hc Hb. unfold apply_database_check. apply wp_bind, wp_gets, wp_bind, wp_update.
  destruct (dict_get h (needs_check c)) as [o|] eqn:Ho.
  2: { rewrite dict_del_notin by done.
       replace (set_needs_check (needs_check c) c) with c by (by destruct c).
       split; [done|]. split; [|done]. intros o e Hat.
       destruct (at_entry_wf _ _ _ _ _ _ Hc Hat) as [_ (_ & _ & _ & _ & C5)].
       destruct (inv_derived _ _ _ Hc h) as (_ & _ & Hsel); [done|].
       rewrite Ho, (selected_at _ _ _ _ _ Hat) in Hsel. unfold is_unchecked, is_state in Hsel.
       destruct (database_checked e); [done|]. by rewrite C5 in Hsel. }
  destruct (unchecked_current _ _ _ Hc Ho) as (e & Hat & Hun).
  unfold is_unchecked in Hun. apply andb_true_iff in Hun as [Hp%bool_decide_eq_true Hnc].
  apply negb_true_iff in Hnc.
  apply (inv_del_needs_check lim _ _ h) in Hc as Hc1; [|by left].
  set (c1 := set_needs_check _ c) in *. assert (at_entry c1 h o e) as Hat1 by apply Hat.
  destruct (at_entry_wf _ _ _ _ _ _ Hc1 Hat1) as [W1 W2].
  apply wp_bind, (wp_lookup_entry _ e); [apply Hat1|]. apply wp_when; rewrite Hnc; intros Hn; [|done].
  apply wp_bind. eapply wp_update_quiet; [exact Hc1|by right|exact Hat1|done|by apply entry_wf_checked|
      by apply current_wf_checked|].
  intros c2 Hc2 Hat2 Heq. set (e2 := set_database_checked true e) in *.
  assert (entries c2 = entries c /\ heap c2 = <[o := e2]> (heap c)) as [Hent Hheap] by (by subst).
  clear Heq W1 W2 c1 Hc1 Hat1 Hn. apply wp_bind.
  eapply (wp_mono _ (fun _ c' => exists e', inv_at (Some h) c' /\ at_entry c' h o e' /\
    database_checked e' = true /\ entries c' = entries c /\ heap c' = <[o := e']> (heap c))).
  2: { intros [] c3 (e3 & Hc3 & Hat3 & Hch & Hent3 & Hheap3).
       eapply wp_index; [exact Hc3|by right|exact Hat3|]. intros c4 Hc4 Hre.
       destruct (reindexed_eq _ _ Hre) as (Hh4 & Hent4 & _). split; [done|].
       rewrite Hent3 in Hent4. rewrite Hheap3 in Hh4. split; [|by eauto using checked_hash_change].
       intros o' e' [Hg' He']. rewrite Hent4 in Hg'. destruct Hat as [Hg _].
       assert (o' = o) as -> by congruence. rewrite Hh4, lookup_insert_eq in He'. congruence. }
  destruct (found h) as [base|]; [|by exists e2]. apply wp_when; intros _; [|by exists e2].
  apply wp_bind. eapply wp_update_entry; [apply Hat2|]. apply wp_bind, wp_update, wp_bind.
  destruct (at_entry_wf _ _ _ _ _ _ Hc2 Hat2) as [_ (_ & _ & C3 & _)].
  assert (known_from_database e2 = false) as Hk.
  { destruct (known_from_database e2) eqn:Hk; [|done]. destruct (C3 eq_refl) as [Hd _].
    change (fetch_state e = FETCH_DONE) in Hd. congruence. }
  eapply wp_set_state; [apply lookup_insert_eq| |].
  { change (b2n (is_state FETCH_DONE e2) <= state_counts c2 FETCH_DONE)%Z.
    by eapply state_count_member. }
  pose proof (inv_found c2 h o e2 base Hc2 Hat2 Hp Hk eq_refl (Hb _ eq_refl)) as Hc3.
  set (c3 := add_count FETCH_DONE 1 _) in Hc3. set (c3' := state_set _ _ _ _).
  assert (c3' = c3) as ->.
  { unfold c3', c3, state_set, add_count, set_entry. simpl. change (fetch_state e2) with (fetch_state e).
    rewrite Hp, insert_insert_eq. done. }
  assert (at_entry c3 h o (found_known base e2)) as Hat3 by (split; [apply Hat2|apply lookup_insert_eq]).
  assert (entries c3 = entries c /\ heap c3 = <[o := found_known base e2]> (heap c)) as [Hent3 Hheap3].
  { split; [done|]. simpl. by rewrite Hheap, insert_insert_eq. }
  clearbody c3. apply wp_bind, wp_gets, wp_when; intros _.
  - apply wp_update. exists (found_known base e2). split; [by eapply inv_add_counter|done].
  - by exists (found_known base e2).
Qed.

Lemma wp_apply_database_checks c l found :
  inv c -> Forall (fun h => length h = NODE_ID_LENGTH) l ->
  (forall h b, found h = Some b -> (0 <= b.1.1)%Z) ->
  wp (apply_database_checks lim l found) (fun _ c' => inv c' /\ Forall (checked_hash c') l) c.
Proof using.
  intros Hc Hl Hb. unfold apply_database_checks. apply wp_bind, wp_assert.
  { apply forallb_forall. intros h Hin. apply is_node_id_of.
    rewrite Forall_forall in Hl. by apply Hl, list_elem_of_In. }
  apply wp_bind. eapply wp_mono; [apply (wp_for_each_list _ (fun rest c' => inv c' /\
    forall h, h ∈ l -> h ∈ rest \/ checked_hash c' h))|].
  - split; [done|]. auto.
  - clear c Hc. intros h rest c [Hc Hdone]. eapply wp_mono; [by apply wp_apply_database_check; eauto|].
    intros [] c' (Hc' & Hh & Hkeep). split; [done|]. intros h' Hin.
    destruct (Hdone h' Hin) as [[->|?]%elem_of_cons|?]; auto.
  - intros [] c' [Hc' Hdone]. apply wp_bind. eapply wp_assert_invariants; [exact Hc'|].
    assert (Forall (checked_hash c') l) as Hall.
    { apply Forall_forall. intros h Hh. destruct (Hdone h Hh) as [Hn|?]; [by apply not_elem_of_nil in Hn|done]. }
    apply wp_bind, wp_get, wp_assert; [|done]. apply forallb_forall. intros h Hin%list_elem_of_In.
    destruct (dict_get h (entries c')) as [o|] eqn:Hg; [|done].
    destruct (at_entry_exists _ _ _ _ _ Hc' Hg) as (e & Hat). destruct (Hat) as [_ He]. rewrite He.
    rewrite Forall_forall in Hall. by apply (Hall h Hin o).
Qed.

(** ** Documents found missing *)

(** The entry of a released document that is missing. *)
Definition unwritten (e : entry) : entry :=
  set_known_from_database false (set_database_checked true (set_in_database false e)).

Lemma inv_unwritten c h o e :
  inv c -> at_entry c h o e -> has_metadata e = false -> index_base e = None ->
  fetch_state e = FETCH_DONE ->
  inv_at (Some h) (state_set o (unwritten e) FETCH_PENDING
    (forgotten o (set_database_checked true (set_in_database false e))
      (set_entry o (set_database_checked true (set_in_database false e)) c))).
Proof using.
  intros Hc Hat Hm Hb Hs.
  destruct (at_entry_wf _ _ _ _ _ _ Hc Hat) as [(A & B & C & D & E) (C1 & C2 & C3 & C4 & C5)].
  pose proof (at_entry_hash _ _ _ _ _ _ Hc Hat) as Hh. pose proof Hat as [Hg He].
  eapply (inv_change lim None c _ h o e (set_fetch_state FETCH_PENDING (unwritten e))); try done.
  - by left.
  - simpl. by rewrite !insert_insert_eq.
  - split; [exact A|]. split; [exact B|]. split; [exact C|]. split; [|done].
    intros b. simpl. congruence.
  - split; [simpl; unfold has_metadata in *; simpl; congruence|]. split; [done|]. split; [done|]. split; [|done].
    intros Hl. split; [done|]. by apply C4.
  - apply (inv_tables _ _ _ Hc).
  - intros h'. simpl. case_decide as Hd; [subst h'|done]. rewrite (inv_fetched _ _ _ Hc).
    rewrite (selected_at _ _ _ _ _ Hat). done.
  - apply (inv_tables _ _ _ Hc).
  - intros h' o' Hd. split; [done|]. intros Ho'.
    by destruct (documents_current _ _ _ _ _ _ _ _ Hc Hat Hd Ho').
  - intros s. rewrite state_set_counts. done.
  - simpl. lia.
  - simpl. lia.
Qed.

(** The part of [reset_index_base] for an entry without metadata. *)
Lemma wp_reset_released c h o e (Q : unit -> catalog -> Prop) :
  inv c -> at_entry c h o e -> has_metadata e = false -> index_base e = None ->
  (forall c', inv c' -> base_kept c c' -> Q tt c') ->
  wp (update_entry o (fun e => set_database_checked true (set_in_database false e)) ;;
      forget_known_locked o ;;
      e ← lookup_entry o;
      when_st (is_state FETCH_DONE e) (set_state_locked o FETCH_PENDING) ;;
      index_entry_locked lim o) Q c.
Proof using.
  intros Hc Hat Hm Hb HQ. set (e1 := set_database_checked true (set_in_database false e)).
  set (c1 := set_entry o e1 c).
  assert (at_entry c1 h o e1) as Hat1 by by eapply at_entry_set.
  assert (at_entry (forgotten o e1 c1) h o (unwritten e)) as Hat2.
  { split; [apply Hat|]. simpl. by rewrite lookup_insert_eq. }
  apply wp_bind. eapply wp_update_entry; [apply Hat|]. fold (set_entry o e1 c). fold c1.
  apply wp_bind. eapply wp_forget_known; [apply Hat1|by eapply (known_member lim None c h o e)|].
  apply wp_bind, (wp_lookup_entry _ (unwritten e)); [apply Hat2|]. apply wp_bind.
  assert (forall c' e', inv_at (Some h) c' -> at_entry c' h o e' -> heap c' = <[o := e']> (heap c) ->
    index_base e' = None -> wp (index_entry_locked lim o) Q c') as Hindex.
  { intros c' e' Hc' Hat' Hheap Hb'. eapply wp_index; [exact Hc'|by right|exact Hat'|].
    intros c2 Hc2 Hre. apply HQ; [done|]. destruct (reindexed_eq _ _ Hre) as [Hheap' _].
    intros o' e0 He0. rewrite Hheap', Hheap. destruct (decide (o = o')) as [<-|Hne].
    - rewrite lookup_insert_eq. exists e'. split; [done|]. destruct Hat. congruence.
    - rewrite lookup_insert_ne by done. eauto. }
  apply wp_when; intros Hs.
  - apply bool_decide_eq_true in Hs. change (fetch_state e = FETCH_DONE) in Hs.
    eapply wp_set_state; [apply Hat2|exact (state_count_member lim None c h o e FETCH_PENDING Hc Hat)|].
    eapply Hindex.
    + by eapply inv_unwritten.
    + split; [apply Hat|apply lookup_insert_eq].
    + simpl. by rewrite !insert_insert_eq.
    + done.
  - apply bool_decide_eq_false in Hs. change (fetch_state e <> FETCH_DONE) in Hs.
    destruct (at_entry_wf _ _ _ _ _ _ Hc Hat) as [(A & B & C & D & E) (C1 & C2 & C3 & C4 & C5)].
    assert (known_from_database e = false) as Hk.
    { destruct (known_from_database e); [|done]. by destruct C3. }
    eapply (Hindex (forgotten o e1 c1) (unwritten e)); [|exact Hat2| |done].
    + assert (forgotten o e1 c1 = set_entry o (unwritten e) c) as ->.
      { unfold forgotten, c1, set_entry. change (known_from_database e1) with (known_from_database e).
        rewrite Hk. simpl. rewrite insert_insert_eq, Z.sub_0_r. by destruct c. }
      eapply (inv_quiet lim None c h o e (unwritten e)); [exact Hc|by left|exact Hat| | |].
      * split; [done|]. split; [done|]. split; [done|]. split; [done|]. by rewrite Hk.
      * split; [exact A|]. split; [exact B|]. split; [exact C|]. split; [|exact E].
        intros b. simpl. congruence.
      * split; [exact C1|]. split; [done|]. split; [done|]. split; [|done].
        intros Hl. split; [done|]. by apply C4.
    + simpl. by rewrite insert_insert_eq.
Qed.

Lemma wp_reset_index_base c h :
  inv c -> length h = NODE_ID_LENGTH -> wp (reset_index_base lim h) (fun _ => inv) c.
Proof using Hlim.
  intros Hc Hh. unfold reset_index_base. apply wp_bind, wp_assert; [by apply is_node_id_of|].
  apply wp_bind, wp_gets, wp_bind.
  eapply (wp_mono _ (fun _ c' => inv c' /\ forall o, dict_get h (entries c) = Some o ->
    exists e, heap c' !! o = Some e /\ index_base e = None)).
  2: { intros [] c' [Hc' Hs]. apply wp_bind. eapply wp_assert_invariants; [exact Hc'|].
       apply wp_bind, wp_get. apply wp_assert; [|done].
       destruct (dict_get h (entries c)) as [o|]; [|done]. destruct (Hs o eq_refl) as (e & -> & Hn).
       by apply bool_decide_eq_true. }
  destruct (dict_get h (entries c)) as [o|] eqn:Hg; [|done].
  destruct (at_entry_exists _ _ _ _ _ Hc Hg) as (e & Hat). pose proof Hat as [_ He].
  apply wp_bind. eapply wp_update_entry; [exact He|].
  set (e1 := set_flushed_announce 0 (set_flushed_seen 0 (set_base None e))).
  assert (inv (set_entry o e1 c)) as Hc1.
  { apply (inv_inert lim None c o e); [done|done|by exists None, 0%Z, 0%Z|].
    destruct (inv_heap _ _ _ Hc _ _ He) as [_ (A & B & C & D & E)].
    split; [exact A|]. split; [simpl; lia|]. split; [simpl; lia|]. by split. }
  assert (at_entry (set_entry o e1 c) h o e1) as Hat1 by by eapply at_entry_set.
  change (set_heap _ c) with (set_entry o e1 c). revert Hc1 Hat1. generalize (set_entry o e1 c).
  assert (index_base e1 = None) as Hb1 by done. clearbody e1. clear c e Hc Hat He Hg. intros c Hc Hat.
  apply wp_bind, wp_update. apply (inv_del_counter lim _ _ h) in Hc.
  set (c1 := set_index_counters _ c) in *. assert (at_entry c1 h o e1) as Hat1 by apply Hat.
  clearbody c1. clear c Hat.
  assert (forall c', inv c' -> base_kept c1 c' -> inv c' /\ forall o', Some o = Some o' ->
    exists e, heap c' !! o' = Some e /\ index_base e = None) as Hpost.
  { intros c' Hc' Hk. split; [done|]. intros o' [= <-]. destruct Hat1 as [_ He1].
    destruct (Hk _ _ He1) as (e' & He' & Hb'). exists e'. split; [done|]. congruence. }
  apply wp_bind, (wp_lookup_entry _ e1); [apply Hat1|]. destruct (has_metadata e1) eqn:Hm.
  - eapply wp_mono; [by apply (wp_queue_document lim c1 h o e1)|]. intros [] c' []. by apply Hpost.
  - apply wp_when; intros _; [|by apply Hpost; [|apply base_kept_refl]].
    by eapply wp_reset_released.
Qed.
End write_safety.
