(* ===== verification/CatalogTheorems.v ===== *)
(** What the torrent catalog promises: from the empty catalog, calls that follow
    the calling rules never fail, and its tables always mean what they say. *)
From S2P Require Import Prelude PyDict Bencode NodeIdentity AddressText Krpc TorrentInfo Catalog CatalogInvariant.
From S2P Require Import CatalogSafety CatalogMethods CatalogIndex CatalogWrites.

(** ** The reading methods *)

Section reading_safety.
Context `{LowerCase} (lim : limits).

Abbreviation inv := (inv lim).

Lemma cumulative_counters_returns e :
  entry_wf lim e -> exists r, cumulative_counters e = Ok r /\ (seen_count e <= r.1.1)%Z.
Proof using.
  intros (_ & _ & _ & Hb & _). unfold cumulative_counters.
  destruct (index_base e) as [[[seen announced] first]|]; simpl.
  - destruct (Hb _ eq_refl) as [_ Hs]. simpl in Hs. bools. eexists. split; [done|]. simpl. lia.
  - bools. eexists. split; [done|]. simpl. lia.
Qed.

Lemma wp_search_record c o e (Q : search_record -> catalog -> Prop) :
  heap c !! o = Some e -> entry_wf lim e -> has_metadata e = true ->
  (forall r, sr_info_hash r = hex (info_hash e) -> Q r c) -> wp (search_record_locked o) Q c.
Proof using.
  intros He Hwf Hm HQ. unfold search_record_locked. apply wp_bind, (wp_lookup_entry _ e); [done|].
  apply bool_decide_eq_true in Hm as [m ->].
  destruct (cumulative_counters_returns e Hwf) as ([[seen announced] first] & -> & _).
  apply wp_ret. by apply HQ.
Qed.

Lemma search_choice_fetched query limit sort descending c o :
  inv c -> o ∈ search_choice query limit sort descending c ->
  exists e, heap c !! o = Some e /\ has_metadata e = true.
Proof using.
  intros Hc ([o' e] & -> & Hin%subseteq_take)%list_elem_of_fmap. apply elem_of_sort_by in Hin.
  apply list_elem_of_filter in Hin as [_ Hin]. apply elem_of_table_entries in Hin as (h & Hin & He).
  exists e. split; [done|]. apply elem_of_dict_get in Hin; [|apply (inv_tables _ _ _ Hc)].
  rewrite (inv_fetched _ _ _ Hc) in Hin. by eapply selected_member.
Qed.

Lemma wp_search c query limit sort descending :
  inv c -> wp (search query limit sort descending)
    (fun result c' => c' = c /\ length result <= limit) c.
Proof using.
  intros Hc. unfold search. apply wp_bind, wp_gets.
  assert (length (search_choice query limit sort descending c) <= limit) as Hlen
    by (unfold search_choice; rewrite length_fmap, length_take; lia).
  pose proof (fun o => search_choice_fetched query limit sort descending c o Hc) as Hin.
  revert Hlen Hin. generalize (search_choice query limit sort descending c). intros l Hlen Hin.
  apply wp_bind. eapply wp_mono.
  { apply (wp_map_st _ (fun l' c' => c' = c /\ forall o, o ∈ l' -> o ∈ l) (fun _ => True)); [done|].
    intros o l' c' [-> Hl']. destruct (Hin o) as (e & He & Hm); [apply Hl'; left|].
    eapply wp_search_record; [exact He|by apply (inv_heap _ _ _ Hc o e)|done|]. intros r _.
    split; [|done]. split; [done|]. intros o' Ho'. apply Hl'. by right. }
  intros result c' ([-> _] & _ & Hr). apply wp_bind, wp_assert; [apply bool_decide_eq_true; lia|].
  apply wp_ret. split; [done|lia].
Qed.

Lemma wp_torrent_detail c h :
  inv c -> length h = NODE_ID_LENGTH ->
  wp (torrent_detail h) (fun result c' => c' = c /\
    (is_Some result <-> is_Some (dict_get h (entries c)))) c.
Proof using.
  intros Hc Hh. unfold torrent_detail. apply wp_bind, wp_assert; [by apply is_node_id_of|].
  apply wp_bind, wp_gets, wp_bind. destruct (dict_get h (entries c)) as [o|] eqn:Hg.
  2: { apply wp_ret, wp_bind, wp_assert; [done|]. apply wp_ret. split; [done|].
       split; intros [? ?]; done. }
  destruct (at_entry_exists _ _ _ _ _ Hc Hg) as (e & Hat).
  destruct (at_entry_wf _ _ _ _ _ _ Hc Hat) as [Hwf (C1 & _)].
  pose proof (at_entry_hash _ _ _ _ _ _ Hc Hat) as He.
  apply wp_bind. unfold detail_record_locked. apply wp_bind, (wp_lookup_entry _ e); [apply Hat|].
  destruct (cumulative_counters_returns e Hwf) as ([[seen announced] first] & -> & _).
  apply wp_bind, wp_assert.
  { destruct (has_metadata e); [|done]. unfold is_state. by rewrite bool_decide_eq_true_2 by auto. }
  apply wp_ret, wp_ret, wp_bind, wp_assert; [by apply bool_decide_eq_true; simpl; rewrite He|].
  apply wp_ret. split; [done|]. split; eauto.
Qed.
End reading_safety.

(** ** Calls and their rules *)

(** A call of a method that changes the catalog. *)
Inductive call :=
  | Record_hash (h : bytes) (source : source_t) (peer : option address)
  | Record_hashes (hs : list bytes) (source : source_t)
  | Add_peers (h : bytes) (l : list address)
  | Hashes_needing_peers (limit : nat)
  | Release_lookup_claim (h : bytes)
  | Add_lookup_result (h : bytes) (l : list address)
  | Next_fetch_candidates (limit : nat)
  | Store_metadata (m : metadata_ref)
  | Mark_fetch_failed (h : bytes) (tried : list address) (reason : string)
  | Release_fetch_claim (h : bytes)
  | Enable_index_tracking (max_pending : Z) (check : bool)
  | Drain_index_documents (limit : nat)
  | Drain_index_counters (limit : nat)
  | Requeue_index_documents (l : list index_snapshot_t)
  | Requeue_index_counters (l : list index_snapshot_t)
  | Mark_counters_written (l : list index_snapshot_t)
  | Mark_index_written (s : index_snapshot_t) (base : index_base_t)
  | Set_index_base (h : bytes) (base : index_base_t)
  | Set_database_check (enabled : bool)
  | Apply_database_checks (l : list bytes) (found : list (bytes * index_base_t))
  | Reset_index_base (h : bytes).

(** The method of a call made at the time [now]. *)
Definition run (lim : limits) (now : Z) (k : call) : ST catalog unit :=
  match k with
  | Record_hash h source peer => record_hash lim h source peer now None ;; mret tt
  | Record_hashes hs source => record_hashes lim hs source now None ;; mret tt
  | Add_peers h l => add_peers lim h l ;; mret tt
  | Hashes_needing_peers limit => hashes_needing_peers lim limit now None ;; mret tt
  | Release_lookup_claim h => release_lookup_claim lim h
  | Add_lookup_result h l => add_lookup_result lim h l now None
  | Next_fetch_candidates limit => next_fetch_candidates lim limit None ;; mret tt
  | Store_metadata m => store_metadata lim m now None ;; mret tt
  | Mark_fetch_failed h tried reason => mark_fetch_failed lim h tried reason now None ;; mret tt
  | Release_fetch_claim h => release_fetch_claim lim h
  | Enable_index_tracking n check => enable_index_tracking n check
  | Drain_index_documents limit => drain_index_documents limit ;; mret tt
  | Drain_index_counters limit => drain_index_counters lim limit ;; mret tt
  | Requeue_index_documents l => requeue_index_documents l
  | Requeue_index_counters l => requeue_index_counters l
  | Mark_counters_written l => mark_counters_written l
  | Mark_index_written s base => mark_index_written s base
  | Set_index_base h base => set_index_base h base
  | Set_database_check enabled => set_database_check lim enabled
  | Apply_database_checks l found => apply_database_checks lim l (fun h => dict_get h found)
  | Reset_index_base h => reset_index_base lim h
  end.

Definition is_hash (h : bytes) : Prop := length h = NODE_ID_LENGTH.

(** What the callers keep to.  Hashes have 20 bytes; a result is reported for a
    hash that was claimed, so that its entry, if it is still there, has been
    checked against the database and is not done when its fetch fails; what is
    written back are snapshots of entry objects that still have what the
    snapshot has; counts in the database are not negative. *)
Definition allowed (c : catalog) (k : call) : Prop :=
  match k with
  | Record_hash h _ _ | Add_peers h _ | Release_lookup_claim h | Release_fetch_claim h
  | Reset_index_base h => is_hash h
  | Record_hashes hs _ => Forall is_hash hs
  | Add_lookup_result h _ => is_hash h /\ checked_hash c h
  | Store_metadata m =>
      let h := md_info_hash (metadata_value m) in
      is_hash h /\ checked_hash c h /\ (dict_get h (entries c) = None -> check_database c = false)
  | Mark_fetch_failed h _ _ => is_hash h /\ fetch_running c h
  | Enable_index_tracking n _ => (1 <= n)%Z
  | Requeue_index_documents l => Forall (document_wf c) l
  | Requeue_index_counters l => Forall (counters_wf c) l
  | Mark_counters_written l => writable c l
  | Mark_index_written s base => snapshot_wf c s /\ snap_metadata s <> None /\ (0 <= base.1.1)%Z
  | Set_index_base h base =>
      is_hash h /\ (0 <= base.1.1)%Z /\ forall o e, at_entry c h o e -> in_database e = true
  | Apply_database_checks l found =>
      Forall is_hash l /\ Forall (fun hb : bytes * index_base_t => (0 <= hb.2.1.1)%Z) found
  | _ => True
  end.

(** The catalogs that sequences of allowed calls reach from an empty one. *)
Inductive reachable (lim : limits) : catalog -> Prop :=
  | reachable_new : reachable lim new_catalog
  | reachable_call c now k c' :
      reachable lim c -> allowed c k -> (0 <= now)%Z -> run lim now k c = Ok (tt, c') ->
      reachable lim c'.

Lemma inv_new_catalog lim : inv lim new_catalog.
Proof.
  split; simpl; try done.
  - repeat split; apply dict_wf_nil.
  - by intros h o [?|[?|?]].
  - intros o Ho. by apply not_elem_of_nil in Ho.
Qed.

Lemma wp_forget_result {S A} (m : ST S A) (Q : S -> Prop) s :
  wp m (fun _ => Q) s -> wp (m ;; mret tt) (fun _ => Q) s.
Proof. intros Hm. apply wp_bind. eapply wp_mono; [exact Hm|]. auto. Qed.

Lemma wp_run lim now k c :
  limits_ok lim -> inv lim c -> allowed c k -> (0 <= now)%Z -> wp (run lim now k) (fun _ => inv lim) c.
Proof.
  intros Hlim Hc Hk Hnow. assert (time_ok now None) as Ht by done.
  destruct k; cbn [run allowed] in *; try apply wp_forget_result.
  - eapply wp_mono; [by apply wp_record_hash|]. by intros ? ? [].
  - eapply wp_mono; [by apply wp_record_hashes|]. by intros ? ? [].
  - by apply wp_add_peers_public.
  - by apply wp_hashes_needing_peers.
  - by apply wp_release_lookup_claim.
  - destruct Hk. by apply wp_add_lookup_result.
  - eapply wp_mono; [by apply wp_next_fetch_candidates|]. by intros ? ? [].
  - destruct Hk as (? & ? & ?). eapply wp_mono; [by apply wp_store_metadata|]. by intros ? ? [].
  - destruct Hk as [? ?]. eapply wp_mono; [by apply wp_mark_fetch_failed|]. by intros ? ? [].
  - by apply wp_release_fetch_claim.
  - apply wp_bind, wp_assert; [lia|]. apply wp_bind, wp_update, wp_bind, wp_update, wp_update.
    destruct (inv_bounds _ _ _ Hc) as (? & ? & ?). by split; destruct Hc.
  - eapply wp_mono; [by apply wp_drain_index_documents|]. by intros ? ? [].
  - eapply wp_mono; [by apply wp_drain_index_counters|]. by intros ? ? [].
  - by apply wp_requeue_index_documents.
  - by apply wp_requeue_index_counters.
  - by apply wp_mark_counters_written.
  - destruct Hk as (? & ? & ?). by apply wp_mark_index_written.
  - destruct Hk as (? & ? & ?). by apply wp_set_index_base.
  - by apply wp_set_database_check.
  - destruct Hk as [Hl Hf]. eapply wp_mono; [apply wp_apply_database_checks; [done..|]|by intros ? ? []].
    intros h b Hb%dict_get_elem_of. rewrite Forall_forall in Hf. exact (Hf _ Hb).
  - by apply wp_reset_index_base.
Qed.

Lemma reachable_inv lim c : limits_ok lim -> reachable lim c -> inv lim c.
Proof.
  intros Hlim Hc. induction Hc as [|c now k c' Hc IH Hk Hnow Hrun]; [apply inv_new_catalog|].
  pose proof (wp_run lim now k c Hlim IH Hk Hnow) as Hwp. unfold wp in Hwp. by rewrite Hrun in Hwp.
Qed.

(** ** Helpers of the theorems *)

(** The current entries, and those with a condition. *)
Definition current_entries (c : catalog) : list entry := (table_entries (entries c) c).*2.

Lemma total_filter lim P c :
  inv lim c -> total P c = Z.of_nat (length (filter (fun e => P e = true) (current_entries c))).
Proof.
  intros Hc. unfold total, current_entries.
  assert (forall h o, (h, o) ∈ entries c -> is_Some (heap c !! o)) as Hsome.
  { intros h o Hin. apply elem_of_dict_get in Hin; [|apply (inv_tables _ _ _ Hc)].
    destruct (inv_current _ _ _ Hc h o Hin) as (e & He & _). eauto. }
  clear Hc. induction (entries c) as [|[h o] t IH]; [done|].
  rewrite sum_over_cons, IH by (intros h' o' Hin; apply (Hsome h'); by right).
  destruct (Hsome h o) as [e He]; [left|]. unfold table_entries. csimpl. rewrite He. csimpl.
  rewrite filter_cons. unfold weight. rewrite He. destruct (P e); cbn [b2n]; [|done].
  rewrite decide_True by done. cbn [length]. unfold table_entries. lia.
Qed.

Lemma best_candidates_best limit c o o' e e' :
  o ∈ best_candidates limit c -> heap c !! o = Some e ->
  (o', e') ∈ table_entries (fetchable c) c -> o' ∉ best_candidates limit c ->
  rank_leb (o, e) (o', e') = true.
Proof.
  intros ([o0 e0] & -> & Hin)%list_elem_of_fmap He Hin' Hout. simpl in He.
  assert (heap c !! o0 = Some e0) as He0.
  { apply subseteq_take, elem_of_sort_by, elem_of_table_entries in Hin as (h & _ & ?). done. }
  assert (e0 = e) as -> by congruence.
  eapply (sort_by_take_smallest rank_leb); [| |exact Hin|].
  - intros x y. apply lex_leb_total.
  - intros x y z Hxy Hyz. unfold rank_leb in *. by eapply lex_leb_trans.
  - apply (elem_of_sort_by rank_leb) in Hin'.
    rewrite <-(take_drop limit (sort_by rank_leb _)), elem_of_app in Hin'.
    destruct Hin' as [Hin'|Hin']; [|exact Hin']. exfalso. apply Hout, list_elem_of_fmap.
    by exists (o', e').
Qed.

Lemma length_table_entries t c :
  (forall h o, (h, o) ∈ t -> is_Some (heap c !! o)) -> length (table_entries t c) = length t.
Proof.
  induction t as [|[h o] t IH]; intros Ht; [done|]. unfold table_entries in *.
  destruct (Ht h o) as [e He]; [left|]. csimpl. rewrite He. csimpl. f_equal. apply IH.
  intros h' o' Hin. apply (Ht h'). by right.
Qed.

Lemma length_fetchable_entries lim c :
  inv lim c -> length (table_entries (fetchable c) c) = length (fetchable c).
Proof.
  intros Hc. apply length_table_entries. intros h o Hin.
  apply elem_of_dict_get in Hin; [|apply (inv_tables _ _ _ Hc)].
  destruct (inv_current _ _ _ Hc h o) as (e & He & _); [|eauto]. apply (inv_sub _ _ _ Hc); auto.
Qed.

(** What [wp_next_fetch_candidates] relates, by the hashes of the result. *)
Definition claimed_list (c c' : catalog) (l : list oid) (result : list (bytes * list address)) : Prop :=
  Forall2 (fun o r => exists h e, at_entry c h o e /\ r = (h, (default [] (peers e)).*1) /\
    heap c' !! o = Some (set_fetch_state FETCH_IN_PROGRESS e)) l result.

Lemma claimed_list_lookup c c' l result i h :
  claimed_list c c' l result -> result.*1 !! i = Some h ->
  exists o e, l !! i = Some o /\ at_entry c h o e /\ result !! i = Some (h, (default [] (peers e)).*1) /\
    heap c' !! o = Some (set_fetch_state FETCH_IN_PROGRESS e).
Proof.
  intros Hall Hi. rewrite list_lookup_fmap in Hi. destruct (result !! i) as [r|] eqn:Hr; [|done].
  destruct (Forall2_lookup_r _ _ _ _ _ Hall Hr) as (o & Ho & h' & e & Hat & -> & Hs).
  simpl in Hi. injection Hi as ->. eauto 10.
Qed.

Lemma claimed_list_NoDup c c' l result :
  claimed_list c c' l result -> NoDup l -> NoDup result.*1.
Proof.
  intros Hall Hnd. apply NoDup_alt. intros i j h Hi Hj.
  destruct (claimed_list_lookup _ _ _ _ _ _ Hall Hi) as (o & e & Ho & [Hg _] & _).
  destruct (claimed_list_lookup _ _ _ _ _ _ Hall Hj) as (o' & e' & Ho' & [Hg' _] & _).
  assert (o' = o) as -> by congruence. by eapply NoDup_lookup.
Qed.

Lemma claimed_list_member c c' l result o h e :
  (exists lim, inv lim c) -> claimed_list c c' l result -> o ∈ l -> at_entry c h o e -> h ∈ result.*1.
Proof.
  intros [lim Hc] Hall [i Hi]%list_elem_of_lookup_1 [Hg He].
  destruct (Forall2_lookup_l _ _ _ _ _ Hall Hi) as (r & Hr & h' & e' & [Hg' _] & -> & _).
  rewrite (current_inj _ _ _ h h' o Hc Hg Hg') in *. apply list_elem_of_fmap.
  eexists. split; [|by eapply list_elem_of_lookup_2]. done.
Qed.

(** ** Examples *)

Definition default_limits : limits :=
  Limits MAX_CATALOG_ENTRIES MAX_PEERS_PER_HASH MAX_FETCH_ATTEMPTS MAX_LOOKUPS_PER_HASH LOOKUP_RETRY_SECONDS.
Definition hash_a : bytes := replicate 20 Byte.x0a.
Definition hash_b : bytes := replicate 20 Byte.x0b.
Definition peer_a : address := (bs "203.0.114.7", 6881%Z).

Lemma default_limits_ok : limits_ok default_limits.
Proof. repeat split; vm_compute; first [discriminate|lia]. Qed.

(** The catalog after a call, for calls that return. *)
Definition after (lim : limits) (k : call) (c : catalog) : catalog :=
  match run lim 0 k c with Ok (_, c') => c' | Raise _ => c end.
Definition sighted : catalog :=
  after default_limits (Record_hash hash_a SOURCE_ANNOUNCE_PEER (Some peer_a)) new_catalog.
Definition claimed : catalog := after default_limits (Next_fetch_candidates 1) sighted.

Lemma reachable_sighted : reachable default_limits sighted.
Proof.
  eapply (reachable_call _ _ 0 (Record_hash hash_a SOURCE_ANNOUNCE_PEER (Some peer_a)));
    [apply reachable_new|done|done|vm_compute; reflexivity].
Qed.

Lemma reachable_claimed : reachable default_limits claimed.
Proof.
  eapply (reachable_call _ _ 0 (Next_fetch_candidates 1));
    [apply reachable_sighted|done|done|vm_compute; reflexivity].
Qed.

(** ** Theorems *)

(** C1. From an empty catalog, a method called by the calling rules returns: no
    assertion of the module fails and no key is missing, whatever the calls
    before it were, and the catalog it leaves is again one on which every
    allowed call returns. *)
Theorem catalog_calls_succeed lim c now k :
  limits_ok lim -> reachable lim c -> allowed c k -> (0 <= now)%Z ->
  exists c', run lim now k c = Ok (tt, c') /\ reachable lim c'.
Proof.
  intros Hlim Hc Hk Hnow. pose proof (reachable_inv lim c Hlim Hc) as Hinv.
  pose proof (wp_run lim now k c Hlim Hinv Hk Hnow) as Hwp. unfold wp in Hwp.
  destruct (run lim now k c) as [[[] c']|] eqn:Hrun; [|done].
  exists c'. split; [done|]. by eapply reachable_call.
Qed.

Lemma catalog_calls_succeed_witness :
  exists c', run default_limits 5 (Mark_fetch_failed hash_a [peer_a] "timeout") claimed = Ok (tt, c') /\
    reachable default_limits c'.
Proof.
  apply (catalog_calls_succeed default_limits claimed 5 (Mark_fetch_failed hash_a [peer_a] "timeout")
    default_limits_ok reachable_claimed); [|lia].
  split; [reflexivity|]. intros o e [Hg He]. vm_compute in Hg. injection Hg as <-.
  vm_compute in He. injection He as <-. by split.
Defined.

(** C2. In a reachable catalog the derived tables hold exactly the current
    entries they are named for: fetchable entries are pending, checked against
    the database and have peers; entries that need a lookup are pending, checked,
    without peers, with no lookup running and lookups left; unchecked entries are
    pending; fetched entries have metadata.  The counters are the numbers of
    current entries in each state and with a lookup running. *)
Theorem catalog_tables_exact lim c :
  limits_ok lim -> reachable lim c ->
  (forall h o e, at_entry c h o e ->
    (dict_get h (fetchable c) = Some o <->
      fetch_state e = FETCH_PENDING /\ database_checked e = true /\ has_peers e = true) /\
    (dict_get h (needs_lookup c) = Some o <->
      fetch_state e = FETCH_PENDING /\ database_checked e = true /\ has_peers e = false /\
      lookup_in_progress e = false /\ (lookups_started e < max_lookups lim)%Z) /\
    (dict_get h (needs_check c) = Some o <->
      fetch_state e = FETCH_PENDING /\ database_checked e = false) /\
    (dict_get h (fetched c) = Some o <-> is_Some (metadata e))) /\
  (forall h, dict_get h (entries c) = None ->
    dict_get h (fetchable c) = None /\ dict_get h (needs_lookup c) = None /\
    dict_get h (needs_check c) = None /\ dict_get h (fetched c) = None) /\
  (forall s, state_counts c s =
    Z.of_nat (length (filter (fun e => is_state s e = true) (current_entries c)))) /\
  lookups_in_progress c =
    Z.of_nat (length (filter (fun e => lookup_in_progress e = true) (current_entries c))).
Proof.
  intros Hlim Hc%reachable_inv; [|done]. split; [|split; [|split]].
  - intros h o e Hat. destruct (inv_derived _ _ _ Hc h) as (-> & -> & ->); [done|].
    rewrite (inv_fetched _ _ _ Hc), !(selected_at _ _ _ _ _ Hat).
    assert (forall b : bool, (if b then Some o else None) = Some o <-> b = true) as Hb by by intros [].
    rewrite !Hb. unfold is_fetchable, is_lookup_candidate, is_unchecked, is_ready, is_state, has_metadata.
    rewrite !andb_true_iff, !negb_true_iff, !bool_decide_eq_true, Z.ltb_lt. tauto.
  - intros h Hh. destruct (inv_derived _ _ _ Hc h) as (-> & -> & ->); [done|].
    rewrite (inv_fetched _ _ _ Hc). unfold selected. by rewrite Hh.
  - intros s. rewrite (inv_counts _ _ _ Hc). by eapply total_filter.
  - rewrite (inv_lookups _ _ _ Hc). by eapply total_filter.
Qed.

Lemma catalog_tables_exact_witness :
  dict_get hash_a (fetchable sighted) = Some 0 /\
  forall h, dict_get h (entries sighted) = None -> dict_get h (fetchable sighted) = None.
Proof.
  destruct (catalog_tables_exact default_limits sighted default_limits_ok reachable_sighted) as (H1 & H2 & _).
  split; [|intros h Hh; by apply H2].
  destruct (H1 hash_a 0 (default (new_entry [] 0) (heap sighted !! 0))) as ([_ Hf] & _).
  - split; vm_compute; reflexivity.
  - apply Hf. vm_compute. auto.
Defined.

(** C28. [next_fetch_candidates] returns as many hashes as there are fetchable
    entries, up to the limit, each once, with the peers its entry knows; it
    claims them, and every fetchable entry it leaves has been seen no more often
    than each one it takes, and no later when they were seen equally often. *)
Theorem next_fetch_candidates_best lim c limit :
  limits_ok lim -> reachable lim c ->
  exists result c', next_fetch_candidates lim limit None c = Ok (result, c') /\
    length result = Nat.min limit (length (fetchable c)) /\ NoDup result.*1 /\
    (forall h l, (h, l) ∈ result -> exists o e, at_entry c h o e /\ is_fetchable e = true /\
      l = (default [] (peers e)).*1 /\ at_entry c' h o (set_fetch_state FETCH_IN_PROGRESS e)) /\
    (forall h o e h' o' e', at_entry c h o e -> h ∈ result.*1 ->
      at_entry c h' o' e' -> is_fetchable e' = true -> h' ∉ result.*1 ->
      (seen_count e' < seen_count e \/
       seen_count e' = seen_count e /\ last_seen e' <= last_seen e)%Z).
Proof.
  intros Hlim Hc%reachable_inv; [|done].
  pose proof (wp_next_fetch_candidates lim c limit None Hc I) as Hwp. unfold wp in Hwp.
  destruct (next_fetch_candidates lim limit None c) as [[result c']|]; [|done].
  destruct Hwp as (Hc' & Hent & Hall). exists result, c'. split; [done|].
  pose proof (best_candidates_to_treat lim limit c Hc) as [Hnd Htreat].
  assert (forall o r, o ∈ best_candidates limit c -> heap c !! o = Some r -> is_fetchable r = true) as Hf.
  { intros o r Ho Hr. destruct (Htreat o Ho) as (h & e & [_ He] & HP). congruence. }
  split; [|split; [|split]].
  - rewrite <-(Forall2_length _ _ _ Hall). unfold best_candidates.
    by rewrite length_fmap, length_take, length_sort_by, (length_fetchable_entries lim).
  - by eapply claimed_list_NoDup.
  - intros h l [i Hi]%list_elem_of_lookup_1.
    destruct (claimed_list_lookup c c' _ result i h Hall) as (o & e & Ho & Hat & Hr & Hs);
      [by rewrite list_lookup_fmap, Hi|].
    exists o, e. split; [done|]. split; [|split; [congruence|]].
    + eapply Hf; [by eapply list_elem_of_lookup_2|apply Hat].
    + split; [rewrite Hent; apply Hat|done].
  - intros h o e h' o' e' Hat [i Hi]%list_elem_of_lookup_1 Hat' HP' Hout.
    destruct (claimed_list_lookup c c' _ result i h Hall Hi) as (o1 & e1 & Ho1 & [Hg1 He1] & _).
    destruct (Hat) as [Hg He]. assert (o1 = o) as -> by congruence.
    assert (rank_leb (o, e) (o', e') = true) as Hrank.
    { apply (best_candidates_best limit c); [by eapply list_elem_of_lookup_2|done| |].
      - apply elem_of_table_entries. exists h'. split; [|apply Hat']. apply dict_get_elem_of.
        destruct (inv_derived _ _ _ Hc h') as (-> & _); [done|].
        by rewrite (selected_at _ _ _ _ _ Hat'), HP'.
      - intros Hin. apply Hout. eapply (claimed_list_member c c'); [by exists lim|exact Hall|exact Hin|exact Hat']. }
    unfold rank_leb in Hrank. cbn in Hrank. lia.
Qed.

Lemma next_fetch_candidates_best_witness :
  exists result c', next_fetch_candidates default_limits 5 None sighted = Ok (result, c') /\
    length result = 1.
Proof.
  destruct (next_fetch_candidates_best default_limits sighted 5 default_limits_ok reachable_sighted)
    as (result & c' & Hrun & Hlen & _).
  exists result, c'. split; [exact Hrun|]. rewrite Hlen. vm_compute. reflexivity.
Defined.

(** C29. Recording a sighting reports whether the hash is new, never evicts an
    entry whose fetch or lookup is running, and never makes the table larger
    than its limit. *)
Theorem record_hash_bounded lim c h source peer now :
  limits_ok lim -> reachable lim c -> is_hash h -> (0 <= now)%Z ->
  exists c', record_hash lim h source peer now None c = Ok (negb (dict_has h (entries c)), c') /\
    (forall h' o e, at_entry c h' o e ->
       fetch_state e = FETCH_IN_PROGRESS \/ lookup_in_progress e = true ->
       dict_get h' (entries c') = Some o) /\
    ((Z.of_nat (length (entries c)) <= max_entries lim)%Z ->
     (Z.of_nat (length (entries c')) <= max_entries lim)%Z).
Proof.
  intros Hlim Hc%reachable_inv Hh Hnow; [|done].
  pose proof (wp_record_hash lim Hlim c h source peer now None Hc Hh (conj Hnow I)) as Hwp.
  unfold wp in Hwp. destruct (record_hash _ _ _ _ _ _ c) as [[created c']|]; [|done].
  destruct Hwp as (_ & -> & Hkept & Hbound). exists c'. split; [done|]. split; [|done].
  intros h' o e Hat Hclaim. destruct (Hkept h' o e Hat) as (e' & [Hg _] & _); [|done].
  unfold is_evictable, is_state. destruct Hclaim as [->| ->]; [done|apply andb_false_r].
Qed.

Lemma record_hash_bounded_witness :
  exists c', record_hash default_limits hash_b SOURCE_GET_PEERS None 7 None claimed = Ok (true, c') /\
    dict_get hash_a (entries c') = Some 0 /\
    (Z.of_nat (length (entries c')) <= max_entries default_limits)%Z.
Proof.
  destruct (record_hash_bounded default_limits claimed hash_b SOURCE_GET_PEERS None 7 default_limits_ok
    reachable_claimed eq_refl ltac:(lia)) as (c' & Hrun & Hkept & Hbound).
  exists c'. split; [exact Hrun|]. split.
  - apply (Hkept hash_a 0 (default (new_entry [] 0) (heap claimed !! 0))).
    + split; vm_compute; reflexivity.
    + left. vm_compute. reflexivity.
  - apply Hbound. vm_compute. discriminate.
Defined.

(** ** Two behaviours of the queues *)

Definition metadata_a : metadata_ref :=
  MetadataRef 0 (TorrentMetadata hash_a [97%Z] 1 16384 1 [] false 0 None [97%Z]).

(** A torrent that is fetched, written to the database and seen again. *)
Definition written_and_seen (lim : limits) : ST catalog unit :=
  enable_index_tracking 10 false ;;
  record_hash lim hash_a SOURCE_ANNOUNCE_PEER (Some peer_a) 0 None ;;
  next_fetch_candidates lim 1 None ;;
  store_metadata lim metadata_a 0 None ;;
  written ← drain_index_documents 1;
  for_each written (fun s => mark_index_written s (0, 0, None)%Z) ;;
  record_hash lim hash_a SOURCE_GET_PEERS None 0 None ;;
  mret tt.

Definition one_entry_limits : limits := Limits 1 32 3 2 30000000.

(** An entry evicted while its counters are being written, in a write that then
    fails, is queued twice: by the eviction and by the failure. *)
Definition counted_twice : ST catalog (list index_snapshot_t) :=
  let lim := one_entry_limits in
  written_and_seen lim ;;
  failed ← drain_index_counters lim 10;
  record_hash lim hash_b SOURCE_ANNOUNCE_PEER (Some peer_a) 0 None ;;
  requeue_index_counters failed ;;
  drain_index_counters lim 10.

(** After that the next write gets the same difference twice, and
    [mark_counters_written] fails its assertion after it. *)
Example orphan_counted_twice :
  (match counted_twice new_catalog with
   | Ok (l, _) => (snap_info_hash <$> l, snap_seen_delta <$> l)
   | Raise _ => ([], [])
   end) = ([hash_a; hash_a], [1; 1]%Z) /\
  (l ← counted_twice; mark_counters_written l) new_catalog = Raise AssertionError.
Proof. vm_compute. split; reflexivity. Qed.

(** A torrent whose two lookups are used up, the second having found a peer, and
    whose document the database then misses. *)
Definition document_missing : ST catalog unit :=
  let lim := default_limits in
  enable_index_tracking 10 false ;;
  record_hash lim hash_a SOURCE_GET_PEERS None 0 None ;;
  hashes_needing_peers lim 1 0 None ;;
  add_lookup_result lim hash_a [] 0 None ;;
  hashes_needing_peers lim 1 30000000 None ;;
  add_lookup_result lim hash_a [peer_a] 30000000 None ;;
  next_fetch_candidates lim 1 None ;;
  store_metadata lim metadata_a 0 None ;;
  written ← drain_index_documents 1;
  for_each written (fun s => mark_index_written s (0, 0, None)%Z) ;;
  reset_index_base lim hash_a.

(** [reset_index_base] makes such a torrent pending, to be fetched again, but
    it is neither fetchable nor to be looked up: nothing fetches it before a
    new sighting brings a peer. *)
Lemma reset_entry_not_fetched_again :
  match document_missing new_catalog with
  | Ok (_, c) => state_counts c FETCH_PENDING = 1%Z /\ length (entries c) = 1 /\
                 fetchable c = [] /\ needs_lookup c = [] /\ needs_check c = []
  | Raise _ => False
  end.
Proof. vm_compute. repeat split; reflexivity. Qed.
