(* ===== verification/CatalogSearch.v ===== *)
(** What a search of the catalog finds: the fetched torrents whose text has the words
    looked for, the best of them in the order asked for. *)
From S2P Require Import Prelude PyDict Bencode NodeIdentity AddressText Krpc TorrentInfo Catalog CatalogInvariant CatalogSafety.
From S2P Require Import CatalogMethods CatalogIndex CatalogWrites CatalogTheorems.
From stdpp Require Import gmap.

(** ** Records of entries *)

(** The detail record of an entry. *)
Definition detail_of (e : entry) (r : detail_record) : Prop := exists seen announced first,
  cumulative_counters e = Ok (seen, announced, first) /\
  r = DetailRecord (hex (info_hash e)) seen announced first (last_seen e) (fetch_state e) (fetch_attempts e) (last_error e)
    (lookups_started e) (default [] (peers e)).*1 (metadata_value <$> metadata e).

(** A search record shows part of a detail record. *)
Definition part_of (s : search_record) (r : detail_record) : Prop :=
  sr_info_hash s = dr_info_hash r /\ sr_seen_count s = dr_seen_count r /\ sr_announce_count s = dr_announce_count r /\
  sr_first_seen s = dr_first_seen r /\ sr_last_seen s = dr_last_seen r /\
  exists m, dr_metadata r = Some m /\ sr_name s = md_name m /\ sr_size s = md_total_size m /\ sr_file_count s = md_file_count m.

(** ** The order *)

Section order.
Context `{LowerCase}.

Lemma sort_tuple_total sort x y : sort_tuple_leb sort x y = true \/ sort_tuple_leb sort y x = true.
Proof using.
  unfold sort_tuple_leb. destruct (decide (sort_value sort x = sort_value sort y)) as [->|Hne].
  - rewrite !bool_decide_eq_true_2 by done. apply lex_leb_total.
  - rewrite !bool_decide_eq_false_2 by congruence. apply lex_leb_total.
Qed.

Lemma sort_tuple_trans sort x y z : sort_tuple_leb sort x y = true -> sort_tuple_leb sort y z = true -> sort_tuple_leb sort x z = true.
Proof using.
  unfold sort_tuple_leb. repeat case_bool_decide; try congruence; try (eauto using lex_leb_trans).
  all: intros Hxy Hyz; try (by rewrite ?H0, ?H1, ?H2 in *); exfalso; eauto using lex_leb_antisym.
  all: match goal with Hn : ?a <> ?b |- _ => apply Hn; apply lex_leb_antisym; congruence end.
Qed.

(** The order of the answers: without a column by sightings, the most first, and by
    a column upwards or downwards. *)
Definition search_leb (sort : option sort_key_t) (descending : bool) (x y : oid * entry) : bool :=
  match sort with
  | None => rank_leb x y
  | Some sort => if descending then sort_tuple_leb sort y.2 x.2 else sort_tuple_leb sort x.2 y.2
  end.

Lemma search_leb_total sort descending x y : search_leb sort descending x y = true \/ search_leb sort descending y x = true.
Proof using. destruct sort as [sort|]; cbn [search_leb]; [destruct descending; apply sort_tuple_total|apply lex_leb_total]. Qed.

Lemma search_leb_trans sort descending x y z :
  search_leb sort descending x y = true -> search_leb sort descending y z = true -> search_leb sort descending x z = true.
Proof using.
  destruct sort as [sort|]; cbn [search_leb]; [destruct descending; eauto using sort_tuple_trans|]. unfold rank_leb. eauto using lex_leb_trans.
Qed.
End order.

(** ** What is found *)

Section found.
Context `{LowerCase} (lim : limits).
Abbreviation inv := (inv lim).

(** A torrent of the catalog whose metadata is in memory. *)
Definition fetched_entry (c : catalog) (o : oid) (e : entry) : Prop :=
  has_metadata e = true /\ exists h, dict_get h (entries c) = Some o /\ heap c !! o = Some e.

Record catalog_found (query : list Z) (limit : nat) (sort : option sort_key_t) (descending : bool) (c : catalog)
    (chosen : list (oid * entry)) : Prop := CatalogFound {
  cf_limit : length chosen <= limit;
  cf_once : NoDup chosen.*1;
  cf_match : forall o e, (o, e) ∈ chosen -> fetched_entry c o e /\ matches_query (lower (strip query)) e = true;
  cf_order : StronglySorted (fun x y => search_leb sort descending x y = true) chosen;
  cf_best : forall o e, fetched_entry c o e -> matches_query (lower (strip query)) e = true ->
    (o, e) ∈ chosen \/ length chosen = limit /\ Forall (fun x => search_leb sort descending x (o, e) = true) chosen }.

Lemma fetched_table c o e : inv c -> (o, e) ∈ table_entries (fetched c) c <-> fetched_entry c o e.
Proof using.
  intros Hc. pose proof (inv_tables _ _ _ Hc) as Htables. rewrite elem_of_table_entries. split.
  - intros (h & Hin & He). apply elem_of_dict_get in Hin; [|apply Htables]. rewrite (inv_fetched _ _ _ Hc) in Hin.
    unfold selected in Hin. destruct (dict_get h (entries c)) as [o'|] eqn:Hg; [|done]. destruct (heap c !! o') as [e'|] eqn:He'; [|done].
    destruct (has_metadata e') eqn:Hm; [|done]. injection Hin as ->. assert (e' = e) as -> by congruence. split; [done|]. by exists h.
  - intros (Hm & h & Hg & He). exists h. split; [|done]. apply dict_get_elem_of. rewrite (inv_fetched _ _ _ Hc).
    unfold selected. by rewrite Hg, He, Hm.
Qed.

(** The entries behind [search_choice]. *)
Definition chosen_entries (query : list Z) (limit : nat) (sort : option sort_key_t) (descending : bool) (c : catalog) : list (oid * entry) :=
  take limit (sort_by (search_leb sort descending)
    (filter (fun oe => matches_query (lower (strip query)) oe.2 = true) (table_entries (fetched c) c))).

Lemma search_choice_entries query limit sort descending c :
  search_choice query limit sort descending c = (chosen_entries query limit sort descending c).*1.
Proof using. by destruct sort. Qed.

Lemma chosen_found query limit sort descending c : inv c ->
  catalog_found query limit sort descending c (chosen_entries query limit sort descending c).
Proof using.
  intros Hc. unfold chosen_entries. set (matching := filter _ _). set (leb := search_leb sort descending).
  assert (forall o e, (o, e) ∈ matching <-> fetched_entry c o e /\ matches_query (lower (strip query)) e = true) as Hin.
  { intros o e. unfold matching. rewrite list_elem_of_filter, (fetched_table c o e Hc). cbn. tauto. }
  assert (forall x y, leb x y = true \/ leb y x = true) as Htotal by apply search_leb_total.
  assert (forall x y z, leb x y = true -> leb y z = true -> leb x z = true) as Htrans by apply search_leb_trans. split.
  - rewrite length_take. lia.
  - eapply sublist_fst_NoDup; [apply sublist_take|]. rewrite sort_by_Permutation. eapply sublist_fst_NoDup; [apply sublist_filter|].
    apply table_entries_NoDup with lim; [done|apply (inv_tables _ _ _ Hc)|]. intros h o Ho.
    rewrite (inv_fetched _ _ _ Hc) in Ho. unfold selected in Ho. destruct (dict_get h (entries c)) as [o'|]; [|done].
    by repeat case_match; simplify_eq.
  - intros o e Ho%subseteq_take. by apply elem_of_sort_by, Hin in Ho.
  - pose proof (sort_by_Sorted leb Htotal Htrans matching) as Hs. rewrite <-(take_drop limit (sort_by leb matching)) in Hs.
    by apply StronglySorted_app_1_l in Hs.
  - intros o e He Hm. pose proof (proj2 (Hin o e) (conj He Hm)) as Ho. apply (elem_of_sort_by leb) in Ho.
    rewrite <-(take_drop limit (sort_by leb matching)) in Ho. apply elem_of_app in Ho as [Ho|Ho]; [by left|right]. split.
    + rewrite length_take. apply Nat.min_l. destruct (decide (limit <= length (sort_by leb matching))) as [|Hd]; [done|].
      rewrite drop_ge in Ho by lia. by apply elem_of_nil in Ho.
    + apply Forall_forall. intros x Hx. eapply sort_by_take_smallest; [| |exact Hx|exact Ho]; done.
Qed.

(** The record of an entry with metadata. *)
Definition shows (r : search_record) (e : entry) : Prop := exists d, detail_of e d /\ part_of r d.

Lemma wp_search_finds query limit sort descending c : inv c ->
  wp (search query limit sort descending) (fun shown c' => c' = c /\ exists chosen,
    catalog_found query limit sort descending c chosen /\ Forall2 shows shown chosen.*2) c.
Proof using.
  intros Hc. pose proof (chosen_found query limit sort descending c Hc) as Hfound. unfold search. apply wp_bind, wp_gets.
  rewrite search_choice_entries. revert Hfound. generalize (chosen_entries query limit sort descending c). intros chosen Hfound.
  assert (forall l, (forall o e, (o, e) ∈ l -> (o, e) ∈ chosen) ->
    wp (map_st search_record_locked l.*1) (fun shown c' => c' = c /\ Forall2 shows shown l.*2) c) as Hmap.
  { induction l as [|[o e] l IH]; intros Hl; cbn [map_st fmap list_fmap fst snd]; [by apply wp_ret|].
    destruct (cf_match _ _ _ _ _ _ Hfound o e) as [(Hm & h & Hg & He) _]; [apply Hl; left|]. apply wp_bind.
    unfold search_record_locked at 1. apply wp_bind, (wp_lookup_entry _ e); [done|]. apply bool_decide_eq_true in Hm as [m Hm]. rewrite Hm.
    destruct (cumulative_counters_returns lim e) as ([[seen announced] first] & Hcum & _); [by apply (inv_heap _ _ _ Hc o e)|].
    rewrite Hcum. apply wp_ret, wp_bind. eapply wp_mono; [apply IH; intros o' e' Hin; apply Hl; by right|]. intros shown c' [-> Hshown].
    apply wp_ret. split; [done|]. constructor; [|done]. eexists. split; [by exists seen, announced, first|]. cbn. rewrite Hm.
    repeat split. by eexists. }
  apply wp_bind. eapply wp_mono; [by apply (Hmap chosen)|]. intros shown c' [-> Hshown]. apply wp_bind, wp_assert.
  { apply bool_decide_eq_true. rewrite (Forall2_length _ _ _ Hshown), length_fmap. apply Hfound. }
  apply wp_ret. split; [done|]. by exists chosen.
Qed.
End found.

(** C36. A search of the catalog finds what it should.  In a reachable catalog it
    returns, changes nothing, and shows, each once and with the counters and
    metadata of its entry, torrents whose metadata is in memory and whose text has
    the query in lower case without white space around it, in the order asked for;
    a torrent that matches and is not shown comes after all that are, which are then
    as many as were asked for. *)
Theorem catalog_search_finds `{LowerCase} lim c query limit sort descending :
  limits_ok lim -> reachable lim c ->
  exists shown chosen, search query limit sort descending c = Ok (shown, c) /\
    Forall2 shows shown chosen.*2 /\ length chosen <= limit /\ NoDup chosen.*1 /\
    StronglySorted (fun x y => search_leb sort descending x y = true) chosen /\
    (forall o e, (o, e) ∈ chosen -> fetched_entry c o e /\ matches_query (lower (strip query)) e = true) /\
    forall o e, fetched_entry c o e -> matches_query (lower (strip query)) e = true ->
      (o, e) ∈ chosen \/ length chosen = limit /\ Forall (fun x => search_leb sort descending x (o, e) = true) chosen.
Proof.
  intros Hlim Hc. pose proof (wp_search_finds lim query limit sort descending c (reachable_inv _ _ Hlim Hc)) as Hwp.
  unfold wp in Hwp. destruct (search query limit sort descending c) as [[shown c']|e]; [|done].
  destruct Hwp as (-> & chosen & [? ? ? ? ?] & Hshown). by exists shown, chosen.
Qed.

(** ** Examples *)

#[local] Existing Instance ascii_lower.

(** The torrent of the claimed hash, fetched. *)
Definition fetched_catalog : catalog := after default_limits (Store_metadata metadata_a) claimed.

Lemma reachable_fetched : reachable default_limits fetched_catalog.
Proof.
  eapply (reachable_call _ _ 0 (Store_metadata metadata_a)); [apply reachable_claimed| |done|vm_compute; reflexivity].
  split; [done|split].
  - intros x e [Hg He]. vm_compute in Hg. injection Hg as <-. vm_compute in He. by injection He as <-.
  - intros Hn. vm_compute in Hn. discriminate.
Qed.

Lemma catalog_search_finds_witness :
  exists shown (chosen : list (oid * entry)), search [32; 65]%Z 20 (Some SORT_SIZE) true fetched_catalog = Ok (shown, fetched_catalog) /\
    Forall2 shows shown chosen.*2 /\ length chosen <= 20.
Proof.
  destruct (catalog_search_finds default_limits fetched_catalog [32; 65]%Z 20 (Some SORT_SIZE) true default_limits_ok reachable_fetched)
    as (shown & chosen & Hrun & Hshown & Hlen & _).
  exact (ex_intro _ shown (ex_intro _ chosen (conj Hrun (conj Hshown Hlen)))).
Defined.

Example searches : let names r := match r with Ok (shown, _) => sr_name <$> shown | Raise _ => [] end in
  names (search [32; 65]%Z 20 None true fetched_catalog) = [[97%Z]] /\ names (search [] 20 None true fetched_catalog) = [[97%Z]] /\
  names (search [66]%Z 20 None true fetched_catalog) = [] /\ names (search [] 0 None true fetched_catalog) = [].
Proof. vm_compute. repeat split; reflexivity. Qed.
