(* ===== verification/CatalogInterface.v ===== *)
(** What the crawler and the fetch engine need of the torrent catalog: the
    operations they call, and what they promise them.  Their theorems are proved
    for any catalog that keeps these promises; [CatalogClaims] and
    [CatalogFetches] show that the torrent catalog does. *)
From S2P Require Import Prelude NodeIdentity Krpc TorrentInfo Catalog.

(** The methods of [TorrentCatalog] that [dht_crawler.py] calls, on a state [K]
    that also holds what the catalog's clock reads. *)
Class CrawlerCatalog (K : Type) := {
  catalog_record_hash : bytes -> source_t -> option address -> ST K unit;
  catalog_record_hashes : list bytes -> source_t -> ST K unit;
  catalog_add_peers : bytes -> list address -> ST K unit;
  catalog_add_lookup_result : bytes -> list address -> ST K unit;
  catalog_fetchable_count : ST K Z;
  catalog_hashes_needing_peers : Z -> ST K (list bytes);
  catalog_release_lookup_claim : bytes -> ST K unit }.

(** [catalog_ok P k]: the catalog is in order, and [P] holds of hashes that it
    has given out to be looked up and that have not been given back.  Every call
    that keeps to the rules returns and leaves the catalog in order; the hashes
    given out are new claims; a claim ends when its result or its release is
    reported. *)
Class CrawlerCatalogLaws (K : Type) `{CrawlerCatalog K} := {
  catalog_ok : (bytes -> Prop) -> K -> Prop;
  catalog_ok_mono (P P' : bytes -> Prop) k :
    (forall h, P' h -> P h) -> catalog_ok P k -> catalog_ok P' k;
  law_record_hash P k h source peer :
    length h = NODE_ID_LENGTH -> catalog_ok P k ->
    wp (catalog_record_hash h source peer) (fun _ => catalog_ok P) k;
  law_record_hashes P k hs source :
    Forall (fun h => length h = NODE_ID_LENGTH) hs -> catalog_ok P k ->
    wp (catalog_record_hashes hs source) (fun _ => catalog_ok P) k;
  law_add_peers P k h found :
    length h = NODE_ID_LENGTH -> catalog_ok P k ->
    wp (catalog_add_peers h found) (fun _ => catalog_ok P) k;
  law_add_lookup_result (P : bytes -> Prop) k h found :
    length h = NODE_ID_LENGTH -> P h -> catalog_ok P k ->
    wp (catalog_add_lookup_result h found) (fun _ => catalog_ok (fun h' => P h' /\ h' <> h)) k;
  law_fetchable_count P k :
    catalog_ok P k -> wp catalog_fetchable_count (fun n k' => (0 <= n)%Z /\ catalog_ok P k') k;
  law_hashes_needing_peers (P : bytes -> Prop) k n :
    (1 <= n)%Z -> catalog_ok P k ->
    wp (catalog_hashes_needing_peers n) (fun hs k' =>
      NoDup hs /\ (Z.of_nat (length hs) <= n)%Z /\
      Forall (fun h => length h = NODE_ID_LENGTH /\ ~ P h) hs /\
      catalog_ok (fun h => P h \/ h ∈ hs) k') k;
  law_release_lookup_claim (P : bytes -> Prop) k h :
    length h = NODE_ID_LENGTH -> P h -> catalog_ok P k ->
    wp (catalog_release_lookup_claim h) (fun _ => catalog_ok (fun h' => P h' /\ h' <> h)) k }.

(** The methods of [TorrentCatalog] that [fetch_engine.py] calls. *)
Class FetchCatalog (K : Type) := {
  catalog_next_fetch_candidates : Z -> ST K (list (bytes * list address));
  catalog_store_metadata : torrent_metadata -> ST K unit;
  catalog_mark_fetch_failed : bytes -> list address -> string -> ST K unit;
  catalog_release_fetch_claim : bytes -> ST K unit }.

(** [fetches_ok P k]: the catalog is in order, and [P] holds of exactly the hashes
    it has given out to be fetched and has not been given back.  The hashes given
    out are new claims, each with the distinct peers it is known to be at; a claim
    ends when its metadata, its failure or its release is reported. *)
Class FetchCatalogLaws (K : Type) `{FetchCatalog K} `{LowerCase} := {
  fetches_ok : (bytes -> Prop) -> K -> Prop;
  fetches_ok_iff (P P' : bytes -> Prop) k :
    (forall h, P h <-> P' h) -> fetches_ok P k -> fetches_ok P' k;
  law_next_fetch_candidates (P : bytes -> Prop) k n :
    (1 <= n)%Z -> fetches_ok P k ->
    wp (catalog_next_fetch_candidates n) (fun l k' =>
      NoDup l.*1 /\ (Z.of_nat (length l) <= n)%Z /\
      Forall (fun hp => length hp.1 = NODE_ID_LENGTH /\ ~ P hp.1 /\ hp.2 <> [] /\ NoDup hp.2) l /\
      fetches_ok (fun h => P h \/ h ∈ l.*1) k') k;
  law_store_metadata (P : bytes -> Prop) k m :
    metadata_ok m -> P (md_info_hash m) -> fetches_ok P k ->
    wp (catalog_store_metadata m) (fun _ => fetches_ok (fun h => P h /\ h <> md_info_hash m)) k;
  law_mark_fetch_failed (P : bytes -> Prop) k h tried reason :
    length h = NODE_ID_LENGTH -> P h -> fetches_ok P k ->
    wp (catalog_mark_fetch_failed h tried reason) (fun _ => fetches_ok (fun h' => P h' /\ h' <> h)) k;
  law_release_fetch_claim (P : bytes -> Prop) k h :
    length h = NODE_ID_LENGTH -> P h -> fetches_ok P k ->
    wp (catalog_release_fetch_claim h) (fun _ => fetches_ok (fun h' => P h' /\ h' <> h)) k }.
