(* ===== verification/CatalogClaims.v ===== *)
(** Claimed lookups of the torrent catalog: which methods keep the lookup flag of
    an entry, and the catalog as the [CrawlerCatalog] of the crawler, shared with
    the other threads. *)
From S2P Require Import Prelude PyDict Bencode NodeIdentity AddressText Krpc TorrentInfo Catalog.
From S2P Require Import CatalogInterface CatalogInvariant CatalogSafety CatalogMethods CatalogIndex.
From S2P Require Import CatalogWrites CatalogTheorems.

(** What a method leaves alone: whether every entry keeps its object, the objects
    whose lookup it may end, and the objects whose fetch it may begin or end. *)
Record scope := Scope { entries_stay : Prop; lookup_ends : oid -> Prop; fetch_changes : oid -> Prop }.

(** The objects stay, new ones are not being fetched, and apart from the
    exceptions a running lookup goes on and a fetch goes on or does not begin. *)
Definition stays (X : scope) (c c' : catalog) : Prop :=
  (forall o e, heap c !! o = Some e -> o < next_oid c) ->
  (forall o e, heap c' !! o = Some e -> o < next_oid c') /\
  (entries_stay X -> forall h o, dict_get h (entries c) = Some o -> dict_get h (entries c') = Some o) /\
  (forall o e, heap c !! o = Some e -> exists e', heap c' !! o = Some e' /\ info_hash e' = info_hash e /\
    (lookup_ends X o \/ (lookup_in_progress e = true -> lookup_in_progress e' = true)) /\
    (fetch_changes X o \/ is_state FETCH_IN_PROGRESS e' = is_state FETCH_IN_PROGRESS e)) /\
  (forall o e', heap c' !! o = Some e' -> heap c !! o = None ->
    fetch_changes X o \/ is_state FETCH_IN_PROGRESS e' = false).

(** Every entry stays where it is, and a running lookup of an object other than
    [X] goes on. *)
Abbreviation lookups_kept X := (stays (Scope True (fun o => Some o = X) (fun _ => True))).

Lemma lookups_go_on X c c' :
  lookups_kept X c c' -> (forall o e, heap c !! o = Some e -> o < next_oid c) ->
  (forall o e, heap c' !! o = Some e -> o < next_oid c') /\
  (forall h o, dict_get h (entries c) = Some o -> dict_get h (entries c') = Some o) /\
  (forall o e, heap c !! o = Some e -> exists e', heap c' !! o = Some e' /\
    (Some o <> X -> lookup_in_progress e = true -> lookup_in_progress e' = true)).
Proof.
  intros Hk Hlt. destruct (Hk Hlt) as (H1 & H2 & H3 & _). split; [done|]. split; [by apply H2|].
  intros o e He. destruct (H3 o e He) as (e' & He' & _ & [Ho|Hl] & _); exists e'; (split; [done|]); [by intros|auto].
Qed.

#[global] Instance stays_preorder X : PreOrder (stays X).
Proof.
  split.
  { intros c Hlt. split; [done|]. split; [done|]. split; [|congruence].
    intros o e He. exists e. split; [done|]. split; [done|]. split; by right. }
  intros c c1 c2 H1 H2 Hlt. destruct (H1 Hlt) as (Hlt1 & E1 & K1 & N1).
  destruct (H2 Hlt1) as (Hlt2 & E2 & K2 & N2). split; [done|]. split; [auto|]. split.
  - intros o e He. destruct (K1 o e He) as (e1 & He1 & I1 & F1 & G1).
    destruct (K2 o e1 He1) as (e2 & He2 & I2 & F2 & G2). exists e2. split; [done|]. split; [congruence|].
    split; [tauto|]. destruct G1 as [?|G1]; [by left|]. destruct G2 as [?|G2]; [by left|]. right. congruence.
  - intros o e2 He2 Hn. destruct (heap c1 !! o) as [e1|] eqn:He1; [|by apply (N2 o)].
    destruct (N1 o e1 He1 Hn) as [?|N]; [by left|]. destruct (K2 o e1 He1) as (e2' & He2' & _ & _ & G).
    assert (e2' = e2) as -> by congruence. destruct G as [?|G]; [by left|]. right. congruence.
Qed.

(** Changes of the tables other than the entries. *)
Lemma kept_update X f :
  (forall c, heap (f c) = heap c /\ entries (f c) = entries c /\ next_oid (f c) = next_oid c) ->
  frames (stays X) (update f).
Proof.
  intros Hf. apply frames_modify. intros c Hlt. destruct (Hf c) as (-> & -> & ->). split; [done|].
  split; [done|]. split; [|congruence]. intros o e He. exists e. split; [done|]. split; [done|]. split; by right.
Qed.

(** Changes of the table of entries. *)
Lemma kept_update_entries X f :
  (forall c, heap (f c) = heap c /\ next_oid (f c) = next_oid c) -> (entries_stay X -> False) ->
  frames (stays X) (update f).
Proof.
  intros Hf Hx. apply frames_modify. intros c Hlt. destruct (Hf c) as (-> & ->). split; [done|].
  split; [done|]. split; [|congruence]. intros o e He. exists e. split; [done|]. split; [done|]. split; by right.
Qed.

(** Changes of an entry that leave its running lookup and its fetch. *)
Lemma kept_update_entry X o f :
  (forall e, info_hash (f e) = info_hash e) ->
  lookup_ends X o \/ (forall e, lookup_in_progress e = true -> lookup_in_progress (f e) = true) ->
  fetch_changes X o \/ (forall e, is_state FETCH_IN_PROGRESS (f e) = is_state FETCH_IN_PROGRESS e) ->
  frames (stays X) (update_entry o f).
Proof.
  intros Hh Hl Hf. apply frames_modify. intros c Hlt. simpl.
  assert (forall o', alter f o (heap c) !! o' = if decide (o = o') then f <$> heap c !! o' else heap c !! o') as Hal.
  { intros o'. case_decide as Hd; [subst; by rewrite lookup_alter_eq|by rewrite lookup_alter_ne]. }
  split; [|split; [done|split]].
  - intros o' e. rewrite Hal. case_decide; [|apply Hlt]. intros (e0 & He & _)%fmap_Some. exact (Hlt _ _ He).
  - intros o' e He. rewrite Hal, He. case_decide as Hd.
    + subst o'. exists (f e). split; [done|]. split; [done|]. split; [destruct Hl as [?|Hl]|destruct Hf as [?|Hf]]; auto.
    + exists e. split; [done|]. split; [done|]. split; by right.
  - intros o' e' He' Hn. rewrite Hal, Hn in He'. by case_decide.
Qed.

Lemma kept_lookup_entry X o : frames (stays X) (lookup_entry o).
Proof. apply (frames_pure _). intros c e c'. unfold lookup_entry. by destruct (_ !! _); intros [= _ ->]. Qed.

Lemma kept_get_oid X t h : frames (stays X) (get_oid t h).
Proof. unfold get_oid. frames_steps. Qed.

#[export] Hint Resolve kept_lookup_entry kept_get_oid : frames.
#[export] Hint Extern 1 (frames (stays _) (update _)) => (apply kept_update; done) : frames.
#[export] Hint Extern 1 (frames (stays _) (update_entry _ _)) =>
  (apply kept_update_entry; [done|first [by right|left; exact I]|by right]) : frames.

(** ** Changes of the state of a fetch *)

(** The object is not being fetched. *)
Definition idle (X : scope) (o : oid) (c : catalog) : Prop :=
  fetch_changes X o \/ forall e, heap c !! o = Some e -> is_state FETCH_IN_PROGRESS e = false.

Definition heap_bounded (c : catalog) : Prop := forall o e, heap c !! o = Some e -> o < next_oid c.

(** What is left alone from a state in which the object is idle. *)
Definition frames_idle (X : scope) (o : oid) {A} (m : ST catalog A) : Prop :=
  forall c, heap_bounded c -> idle X o c -> wlp m (fun _ => stays X c) c.

Lemma stays_idle X o c c' : heap_bounded c -> idle X o c -> stays X c c' -> idle X o c'.
Proof.
  intros Hlt [?|Hi] Hs; [by left|]. destruct (Hs Hlt) as (_ & _ & K & N).
  destruct (heap c !! o) as [e|] eqn:He.
  - destruct (K o e He) as (e' & He' & _ & _ & [?|G]); [by left|]. right. intros e0 He0.
    assert (e0 = e') as -> by congruence. rewrite G. by apply Hi.
  - destruct (heap c' !! o) as [e'|] eqn:He'; [|right; intros; congruence].
    destruct (N o e' He' He) as [?|G]; [by left|]. right. intros e0 He0. by assert (e0 = e') as -> by congruence.
Qed.

Lemma idle_frames X o {A} (m : ST catalog A) : frames (stays X) m -> frames_idle X o m.
Proof. intros Hm c _ _. apply Hm. Qed.

Lemma idle_bind X o {A B} (m : ST catalog A) (k : A -> ST catalog B) :
  frames_idle X o m -> (forall x, frames_idle X o (k x)) -> frames_idle X o (m ≫= k).
Proof.
  intros Hm Hk c Hlt Hi. apply wlp_bind. eapply wlp_mono; [by apply Hm|]. intros x c1 H1.
  pose proof (H1 Hlt) as (Hlt1 & _). eapply wlp_mono; [apply Hk; [done|exact (stays_idle X o c c1 Hlt Hi H1)]|].
  intros y c2 H2. exact (transitivity H1 H2).
Qed.

Lemma idle_update_state X o s : s <> FETCH_IN_PROGRESS -> frames_idle X o (update_entry o (set_fetch_state s)).
Proof.
  intros Hs c Hlt Hi. apply wlp_modify. intros _. simpl.
  assert (forall o', alter (set_fetch_state s) o (heap c) !! o' =
    if decide (o = o') then set_fetch_state s <$> heap c !! o' else heap c !! o') as Hal.
  { intros o'. case_decide as Hd; [subst; by rewrite lookup_alter_eq|by rewrite lookup_alter_ne]. }
  split; [|split; [done|split]].
  - intros o' e'. rewrite Hal. case_decide; [|apply Hlt]. intros (e0 & He & _)%fmap_Some. exact (Hlt _ _ He).
  - intros o' e' He. rewrite Hal, He. case_decide as Hd.
    + subst o'. exists (set_fetch_state s e'). split; [done|]. split; [done|]. split; [by right|].
      destruct Hi as [?|Hi]; [by left|]. right. rewrite (Hi e' He). by apply bool_decide_eq_false.
    + exists e'. split; [done|]. split; [done|]. split; by right.
  - intros o' e' He' Hn. rewrite Hal, Hn in He'. by case_decide.
Qed.

Lemma idle_set_state X o s : s <> FETCH_IN_PROGRESS -> frames_idle X o (set_state_locked o s).
Proof.
  intros Hs. unfold set_state_locked. apply idle_bind; [apply idle_frames, kept_lookup_entry|]. intros e.
  apply idle_bind; [apply idle_frames; by apply kept_update|]. intros _.
  apply idle_bind; [by apply idle_update_state|]. intros _. apply idle_frames. frames_steps.
Qed.

(** A program that reads an entry, and changes its fetch only if it is not being
    fetched. *)
Lemma frames_guard X o {A} (k : entry -> ST catalog A) :
  (forall e, is_state FETCH_IN_PROGRESS e = false -> frames_idle X o (k e)) ->
  (forall e, is_state FETCH_IN_PROGRESS e = true -> frames (stays X) (k e)) ->
  frames (stays X) (e ← lookup_entry o; k e).
Proof.
  intros Hidle Hbusy c. apply wlp_bind. unfold wlp at 1, lookup_entry. destruct (heap c !! o) as [e|] eqn:He; [|done].
  destruct (is_state FETCH_IN_PROGRESS e) eqn:Hst; [by apply Hbusy|].
  unfold wlp. destruct (k e c) as [[x c']|] eqn:Hk; [|done]. intros Hlt.
  assert (idle X o c) as Hi by (right; intros e' He'; congruence).
  pose proof (Hidle e Hst c Hlt Hi) as Hw. unfold wlp in Hw. rewrite Hk in Hw. by apply Hw.
Qed.

Lemma kept_set_state X o s : fetch_changes X o -> frames (stays X) (set_state_locked o s).
Proof.
  intros Hx. unfold set_state_locked. apply (frames_bind _); [apply kept_lookup_entry|]. intros e.
  apply (frames_bind _); [by apply kept_update|]. intros _.
  apply (frames_bind _); [apply kept_update_entry; [done|by right|by left]|]. intros _. frames_steps.
Qed.

(** The state of a fetch is set to something other than in progress. *)
Ltac idle_step :=
  lazymatch goal with
  | |- frames_idle _ _ (set_state_locked _ _) => by apply idle_set_state
  | |- frames_idle _ _ (_ ≫= _) => apply idle_bind; [|intros ?]
  | |- frames_idle _ _ (when_st ?b _) => destruct b; [unfold when_st|apply idle_frames; apply (frames_ret _)]
  | |- frames_idle _ _ (match ?x with _ => _ end) => destruct x
  | |- frames_idle _ _ _ => apply idle_frames
  end.

(** The state of an entry that is being fetched is no other. *)
Lemma busy_state e s : is_state FETCH_IN_PROGRESS e = true -> s <> FETCH_IN_PROGRESS -> is_state s e = false.
Proof. intros Hb%bool_decide_eq_true Hs. unfold is_state. apply bool_decide_eq_false. congruence. Qed.
Section kept.
Context (lim : limits) (X : scope).


Lemma kept_forget_known o : frames (stays X) (forget_known_locked o).
Proof. unfold forget_known_locked. frames_steps. Qed.
#[local] Hint Resolve kept_forget_known : frames.

Lemma kept_index_entry o : frames (stays X) (index_entry_locked lim o).
Proof. unfold index_entry_locked. frames_steps. Qed.
#[local] Hint Resolve kept_index_entry : frames.

Lemma kept_add_peer o peer : frames (stays X) (add_peer_locked lim o peer).
Proof. unfold add_peer_locked. frames_steps. Qed.
#[local] Hint Resolve kept_add_peer : frames.

Lemma kept_count_true {A} (f : A -> ST catalog bool) l :
  (forall x, frames (stays X) (f x)) -> frames (stays X) (count_true f l).
Proof. intros Hf. induction l as [|x l IH]; cbn [count_true]; frames_steps. Qed.

Lemma kept_map_st {A B} (f : A -> ST catalog B) l :
  (forall x, frames (stays X) (f x)) -> frames (stays X) (map_st f l).
Proof. intros Hf. induction l as [|x l IH]; cbn [map_st]; frames_steps. Qed.

Lemma kept_assert_invariants : frames (stays X) assert_invariants_locked.
Proof.
  apply (frames_pure _). intros c u c'. unfold assert_invariants_locked, assert_st, mbind, st_bind.
  repeat case_match; try done; congruence.
Qed.
#[local] Hint Resolve kept_assert_invariants : frames.

Lemma kept_moment clock now : frames (stays X) (moment_or_now clock now).
Proof. unfold moment_or_now. frames_steps. Qed.
#[local] Hint Resolve kept_moment : frames.

Lemma kept_add_peers h l : frames (stays X) (add_peers lim h l).
Proof. unfold add_peers. frames_steps. apply kept_count_true. auto with frames. Qed.

Lemma kept_hashes_needing_peers limit clock now :
  frames (stays X) (hashes_needing_peers lim limit clock now).
Proof. unfold hashes_needing_peers. frames_steps. Qed.
#[local] Hint Resolve kept_add_peers kept_hashes_needing_peers : frames.

(** A new object is at a fresh identity, and its hash was unknown. *)
Lemma kept_get_or_create h now : frames (stays X) (get_or_create_locked h now).
Proof.
  intros c. unfold get_or_create_locked. apply wlp_bind.
  change (wlp (match dict_get h (entries c) with
    | Some o => e ← lookup_entry o; assert_st (bool_decide (info_hash e = h)) ;; mret (o, false)
    | None => assert_st (is_node_id h && (0 <=? now)%Z) ;;
        c ← get_state;
        let o := next_oid c in
        update (set_next_oid (S o)) ;;
        update (set_heap (<[o := set_database_checked (negb (check_database c)) (new_entry h now)]> (heap c))) ;;
        update (fun c => set_entries (dict_set h o (entries c)) c) ;;
        update (add_count FETCH_PENDING 1) ;;
        update (fun c => set_discovered (discovered c + 1)%Z c) ;;
        mret (o, true)
    end) (fun _ => stays X c) c).
  destruct (dict_get h (entries c)) as [o|] eqn:Hg.
  { revert c Hg. intros c _. revert c.
    change (frames (stays X) (e ← lookup_entry o; assert_st (bool_decide (info_hash e = h)) ;; mret (o, false))).
    frames_steps. }
  apply wlp_bind, wlp_assert. intros _ Hlt. simpl. split; [|split; [|split]].
  - intros o e. destruct (decide (o = next_oid c)) as [->|Hne]; [lia|].
    rewrite lookup_insert_ne by done. intros He%Hlt. lia.
  - intros _ h' o Ho. rewrite dict_get_set_ne by congruence. done.
  - intros o e He. rewrite lookup_insert_ne; [|apply Hlt in He; unfold oid in *; lia].
    exists e. split; [done|]. split; [done|]. split; by right.
  - intros o e'. destruct (decide (o = next_oid c)) as [->|Hne]; [|rewrite lookup_insert_ne by done; congruence].
    rewrite lookup_insert_eq. intros [= <-] _. by right.
Qed.
#[local] Hint Resolve kept_get_or_create : frames.

Lemma kept_drop_unwritten o : frames (stays X) (drop_unwritten_metadata_locked lim o).
Proof.
  unfold drop_unwritten_metadata_locked. apply frames_guard; intros e He.
  - apply idle_bind; [apply idle_frames; frames_steps|]. intros current. repeat idle_step; frames_steps.
  - rewrite (busy_state e FETCH_DONE) by done. apply (frames_bind _); [frames_steps|]. intros current.
    rewrite andb_false_r. frames_steps; done.
Qed.
#[local] Hint Resolve kept_drop_unwritten : frames.

Lemma kept_queue_document o : frames (stays X) (queue_document_locked lim o).
Proof. unfold queue_document_locked. frames_steps. Qed.
#[local] Hint Resolve kept_queue_document : frames.

Lemma kept_forget_peer o peer : frames (stays X) (forget_peer_locked o peer).
Proof. unfold forget_peer_locked. frames_steps. Qed.
#[local] Hint Resolve kept_forget_peer : frames.

Lemma kept_add_orphan o : frames (stays X) (add_orphan_locked o).
Proof. unfold add_orphan_locked. frames_steps. Qed.
#[local] Hint Resolve kept_add_orphan : frames.

Lemma kept_release_metadata o : frames (stays X) (release_metadata_locked o).
Proof. unfold release_metadata_locked. frames_steps. Qed.
#[local] Hint Resolve kept_release_metadata : frames.

Lemma kept_index_snapshot o : frames (stays X) (index_snapshot o).
Proof. unfold index_snapshot. frames_steps. Qed.
#[local] Hint Resolve kept_index_snapshot : frames.

(** ** The methods of the other threads *)

Lemma kept_next_fetch_candidates limit now :
  (forall o, fetch_changes X o) -> frames (stays X) (next_fetch_candidates lim limit now).
Proof.
  intros Hx. unfold next_fetch_candidates. frames_steps. apply kept_map_st. intros o.
  frames_steps; by apply kept_set_state.
Qed.

Lemma kept_store_metadata m clock now :
  (forall o, fetch_changes X o) -> frames (stays X) (store_metadata lim m clock now).
Proof. intros Hx. unfold store_metadata. frames_steps; by apply kept_set_state. Qed.

Lemma kept_mark_fetch_failed h tried reason clock now :
  (forall o, fetch_changes X o) -> frames (stays X) (mark_fetch_failed lim h tried reason clock now).
Proof. intros Hx. unfold mark_fetch_failed. frames_steps; by apply kept_set_state. Qed.

Lemma kept_release_fetch_claim h :
  (forall o, fetch_changes X o) -> frames (stays X) (release_fetch_claim lim h).
Proof. intros Hx. unfold release_fetch_claim. frames_steps; by apply kept_set_state. Qed.

Lemma kept_enable_index_tracking n check : frames (stays X) (enable_index_tracking n check).
Proof. unfold enable_index_tracking. frames_steps. Qed.

Lemma kept_drain_documents limit : frames (stays X) (drain_documents limit).
Proof. induction limit as [|limit IH]; cbn [drain_documents]; frames_steps. Qed.

Lemma kept_drain_orphans fuel : forall room, frames (stays X) (drain_orphans fuel room).
Proof. induction fuel as [|fuel IH]; intros [|room]; cbn [drain_orphans]; frames_steps. Qed.

Lemma kept_drain_counters fuel : forall room, frames (stays X) (drain_counters lim fuel room).
Proof. induction fuel as [|fuel IH]; intros [|room]; cbn [drain_counters]; frames_steps. Qed.
#[local] Hint Resolve kept_drain_documents kept_drain_orphans kept_drain_counters : frames.

Lemma kept_drain_index_documents limit : frames (stays X) (drain_index_documents limit).
Proof. unfold drain_index_documents. frames_steps. Qed.

Lemma kept_drain_index_counters limit : frames (stays X) (drain_index_counters lim limit).
Proof. unfold drain_index_counters. frames_steps. Qed.

Lemma kept_requeue_documents l : frames (stays X) (requeue_index_documents l).
Proof. unfold requeue_index_documents. frames_steps. Qed.

Lemma kept_requeue_counters l : frames (stays X) (requeue_index_counters l).
Proof. unfold requeue_index_counters. frames_steps. Qed.

Lemma kept_mark_counters_written l : frames (stays X) (mark_counters_written l).
Proof. unfold mark_counters_written, add_flushed. frames_steps. Qed.

Lemma kept_mark_index_written s base : frames (stays X) (mark_index_written s base).
Proof. unfold mark_index_written, add_flushed. frames_steps. Qed.

Lemma kept_set_index_base h base : frames (stays X) (set_index_base h base).
Proof. unfold set_index_base. frames_steps. Qed.

Lemma kept_set_database_check enabled : frames (stays X) (set_database_check lim enabled).
Proof. unfold set_database_check. frames_steps. Qed.

Lemma kept_apply_database_check found h : frames (stays X) (apply_database_check lim found h).
Proof.
  unfold apply_database_check. apply (frames_bind _); [frames_steps|]. intros [o|]; [|frames_steps].
  apply (frames_bind _); [frames_steps|]. intros _. apply frames_guard; intros e He.
  - repeat idle_step; frames_steps.
  - rewrite (busy_state e FETCH_PENDING) by done. frames_steps; done.
Qed.
#[local] Hint Resolve kept_apply_database_check : frames.

Lemma kept_apply_database_checks l found : frames (stays X) (apply_database_checks lim l found).
Proof. unfold apply_database_checks. frames_steps. Qed.

Lemma kept_reset_state o :
  frames (stays X) (e ← lookup_entry o;
    when_st (is_state FETCH_DONE e) (set_state_locked o FETCH_PENDING) ;; index_entry_locked lim o).
Proof.
  apply frames_guard; intros e He.
  - repeat idle_step; frames_steps.
  - rewrite (busy_state e FETCH_DONE) by done. frames_steps; done.
Qed.
#[local] Hint Resolve kept_reset_state : frames.

Lemma kept_reset_index_base h : frames (stays X) (reset_index_base lim h).
Proof.
  unfold reset_index_base. apply (frames_bind _); [frames_steps|]. intros _.
  apply (frames_bind _); [frames_steps|]. intros [o|]; [|frames_steps].
  apply (frames_bind _); [|intros _; frames_steps]. do 2 (apply (frames_bind _); [frames_steps|]; intros _).
  apply (frames_bind _); [frames_steps|]. intros e. destruct (has_metadata e); [frames_steps|].
  apply (frames_when _). intros _. do 2 (apply (frames_bind _); [frames_steps|]; intros _).
  apply kept_reset_state.
Qed.
End kept.

#[export] Hint Resolve kept_index_entry kept_add_peers kept_hashes_needing_peers kept_next_fetch_candidates
  kept_store_metadata kept_mark_fetch_failed kept_release_fetch_claim kept_enable_index_tracking
  kept_drain_index_documents kept_drain_index_counters kept_requeue_documents kept_requeue_counters
  kept_mark_counters_written kept_mark_index_written kept_set_index_base kept_set_database_check
  kept_apply_database_checks kept_reset_index_base kept_assert_invariants kept_moment kept_add_peer
  kept_set_state kept_forget_known kept_get_or_create kept_add_orphan kept_queue_document
  kept_drop_unwritten kept_forget_peer kept_release_metadata : frames.
#[export] Hint Extern 0 (fetch_changes _ _) => exact I : frames.

(** ** Running lookups *)

Definition running (c : catalog) (h : bytes) : Prop :=
  exists o e, at_entry c h o e /\ lookup_in_progress e = true.

Section running.
Context (lim : limits) (Hlim : limits_ok lim).

Lemma running_hash c h : inv lim c -> running c h -> length h = NODE_ID_LENGTH.
Proof using.
  intros Hc (o & e & Hat & _). rewrite <-(at_entry_hash _ _ _ _ _ _ Hc Hat).
  by destruct (at_entry_wf _ _ _ _ _ _ Hc Hat) as [[? _] _].
Qed.

Lemma running_checked c h : inv lim c -> running c h -> checked_hash c h.
Proof using.
  intros Hc (o & e & Hat & Hl) o' e' [Hg' He']. destruct (Hat) as [Hg He].
  assert (o' = o) as -> by congruence. assert (e' = e) as -> by congruence.
  destruct (at_entry_wf _ _ _ _ _ _ Hc Hat) as [_ (_ & _ & _ & C & _)]. by apply C.
Qed.

Lemma running_kept (X : option oid) c c' h :
  inv lim c -> lookups_kept X c c' -> dict_get h (entries c) <> X -> running c h -> running c' h.
Proof using.
  intros Hc Hk HX (o & e & [Hg He] & Hl). apply lookups_go_on in Hk as (_ & Hent & Hheap).
  2: { intros o' e' He'. by destruct (inv_heap _ _ _ Hc _ _ He'). }
  destruct (Hheap o e He) as (e' & He' & Hl'). exists o, e'. split; [split; [by apply Hent|done]|].
  apply Hl'; [|done]. by rewrite <-Hg.
Qed.

Lemma running_claims c c' h : claims_kept c c' -> running c h -> running c' h.
Proof using.
  intros Hk (o & e & Hat & Hl). destruct (Hk h o e Hat) as (e' & Hat' & [= _ Hl']).
  - unfold is_evictable. by rewrite Hl, andb_false_r.
  - exists o, e'. split; [done|congruence].
Qed.

(** A method that keeps the lookups of all entries but [X]. *)
Lemma wp_running {A} (m : ST catalog A) X (Q : A -> catalog -> Prop) c :
  inv lim c -> wp m (fun a c' => inv lim c' /\ Q a c') c -> wlp m (fun _ => lookups_kept X c) c ->
  wp m (fun a c' => inv lim c' /\ Q a c' /\
    forall h, dict_get h (entries c) <> X -> running c h -> running c' h) c.
Proof using.
  intros Hc Hm Hk. eapply wp_mono; [exact (wp_wlp _ _ _ _ Hm Hk)|]. intros a c' [[Hc' HQ] Hk'].
  split; [done|]. split; [done|]. intros h HX. by eapply running_kept.
Qed.

(** ** What ends a lookup *)

Lemma kept_moment_eq clock now : frames eq (moment_or_now (S := catalog) clock now).
Proof using. unfold moment_or_now. frames_steps. Qed.

Lemma kept_end_lookup o : frames (lookups_kept (Some o)) (end_lookup o).
Proof using.
  unfold end_lookup. apply (frames_bind (lookups_kept (Some o))); [|intros _; by apply kept_update].
  apply kept_update_entry; [done|by left|by right].
Qed.
#[local] Hint Resolve kept_end_lookup : frames.

Lemma kept_release_lookup_claim h c :
  wlp (release_lookup_claim lim h) (fun _ => lookups_kept (dict_get h (entries c)) c) c.
Proof using.
  unfold release_lookup_claim. apply wlp_bind, wlp_assert. intros _. apply wlp_bind.
  change (wlp ((match dict_get h (entries c) with
    | None => mret tt
    | Some o => e ← lookup_entry o; when_st (lookup_in_progress e) (end_lookup o ;; index_entry_locked lim o)
    end) ;; n ← gets lookups_in_progress; assert_st (0 <=? n)%Z)
    (fun _ => lookups_kept (dict_get h (entries c)) c) c).
  generalize (dict_get h (entries c)). intros found. revert c.
  match goal with |- forall c, wlp ?m _ _ => change (frames (lookups_kept found) m) end.
  destruct found as [o|]; frames_steps.
Qed.

Lemma kept_add_lookup_result h l clock now c :
  wlp (add_lookup_result lim h l clock now) (fun _ => lookups_kept (dict_get h (entries c)) c) c.
Proof using.
  unfold add_lookup_result. apply wlp_bind, wlp_assert. intros _. apply wlp_bind.
  eapply wlp_mono; [apply kept_moment_eq|]. intros m c1 <-. apply wlp_bind.
  match goal with |- wlp (get_oid _ _) (fun a s' => wlp (@?k a) _ _) _ =>
    change (wlp (k (dict_get h (entries c))) (fun _ => lookups_kept (dict_get h (entries c)) c) c) end.
  cbv beta. generalize (dict_get h (entries c)). intros found. revert c.
  match goal with |- forall c, wlp ?m _ _ => change (frames (lookups_kept found) m) end.
  destruct found as [o|]; frames_steps.
Qed.
(** ** Claiming lookups *)

Lemma NoDup_omap_inj {A B} (f : A -> option B) l :
  NoDup l -> (forall x y b, x ∈ l -> y ∈ l -> f x = Some b -> f y = Some b -> x = y) -> NoDup (omap f l).
Proof using.
  induction 1 as [|x l Hx Hnd IH]; intros Hinj; [constructor|]. csimpl.
  assert (NoDup (omap f l)) as Hl by (apply IH; intros; eapply Hinj; [by right|by right|done|done]).
  destruct (f x) as [b|] eqn:Hb; [|done]. apply NoDup_cons. split; [|done].
  intros (y & Hy & Hfy)%list_elem_of_omap. assert (x = y) as -> by (eapply Hinj; [left|by right|done|done]). done.
Qed.

(** A claim sets the lookup flag of its object. *)
Definition flagged (l : list oid) (c c' : catalog) : Prop :=
  forall o, o ∈ l -> is_Some (heap c !! o) -> exists e, heap c' !! o = Some e /\ lookup_in_progress e = true.

Definition claim_lookup (o : oid) : ST catalog unit :=
  update_entry o (set_lookup_in_progress true) ;;
  update (fun c => set_lookups_in_progress (lookups_in_progress c + 1)%Z c) ;;
  index_entry_locked lim o.

Lemma kept_claim_lookup o : frames (lookups_kept None) (claim_lookup o).
Proof using. unfold claim_lookup. frames_steps. Qed.

Lemma flag_claim_lookup o c :
  (forall o e, heap c !! o = Some e -> o < next_oid c) -> wlp (claim_lookup o) (fun _ => flagged [o] c) c.
Proof using.
  intros Hlt. unfold claim_lookup. apply wlp_bind. unfold update_entry, update.
  change (wlp (update (fun c => set_lookups_in_progress (lookups_in_progress c + 1)%Z c) ;; index_entry_locked lim o)
    (fun _ => flagged [o] c) (set_heap (alter (set_lookup_in_progress true) o (heap c)) c)).
  assert (frames (lookups_kept None) (update (fun c => set_lookups_in_progress (lookups_in_progress c + 1)%Z c) ;;
    index_entry_locked lim o)) as Hf by frames_steps.
  pose proof (kept_update_entry (Scope True (fun o => Some o = None) (fun _ => True)) o (set_lookup_in_progress true)
    ltac:(done) ltac:(by right) ltac:(by right) c) as Hu.
  eapply wlp_mono; [apply Hf|]. cbv beta. intros u c' Hk. apply lookups_go_on in Hk as (_ & _ & Hk).
  2: { apply Hu. exact Hlt. }
  intros o' ->%list_elem_of_singleton [e He]. destruct (Hk o (set_lookup_in_progress true e)) as (e' & He' & Hl).
  - simpl. by rewrite lookup_alter_eq, He.
  - exists e'. split; [done|by apply Hl].
Qed.

Lemma flag_claim_lookups l : forall c,
  (forall o e, heap c !! o = Some e -> o < next_oid c) ->
  wlp (for_each l claim_lookup) (fun _ c' => lookups_kept None c c' /\ flagged l c c') c.
Proof using.
  induction l as [|o l IH]; intros c Hlt; cbn [for_each].
  { apply (conj (reflexivity (R := lookups_kept None) c)). by intros o ?%elem_of_nil. }
  apply wlp_bind. pose proof (kept_claim_lookup o c) as Hk. pose proof (flag_claim_lookup o c Hlt) as Hf.
  unfold wlp at 1. unfold wlp in Hk, Hf. destruct (claim_lookup o c) as [[u c1]|]; [|done].
  pose proof (lookups_go_on None c c1 Hk Hlt) as (Hlt1 & Hent1 & Hheap1). eapply wlp_mono; [by apply IH|].
  intros u' c2 [Hk2 Hf2]. split; [exact (transitivity Hk Hk2)|]. intros o' Hin [e He].
  destruct (Hheap1 o' e He) as (e1 & He1 & _). apply elem_of_cons in Hin as [->|Hin]; [|apply Hf2; [done|by exists e1]].
  destruct (Hf o) as (e1' & He1' & Hl); [left|by exists e|].
  destruct (lookups_go_on None c1 c2 Hk2 Hlt1) as (_ & _ & Hheap2). destruct (Hheap2 o e1' He1') as (e2 & He2 & Hl2). exists e2. auto.
Qed.

Lemma wp_hashes_claimed c limit clock :
  inv lim c -> (0 <= clock)%Z ->
  wp (hashes_needing_peers lim limit clock None) (fun hs c' => inv lim c' /\
    NoDup hs /\ length hs <= limit /\ Forall (fun h => ~ running c h) hs /\
    (forall h, running c h \/ h ∈ hs -> running c' h)) c.
Proof using.
  intros Hc Hclock. unfold hashes_needing_peers. apply wp_bind, wp_moment; [done|]. intros m _.
  apply wp_bind, wp_gets. set (chosen := lookup_choice limit m c). apply wp_bind.
  pose proof (lookup_choice_to_treat lim limit m c Hc) as Htreat. fold chosen in Htreat.
  assert (forall o e, heap c !! o = Some e -> o < next_oid c) as Hlt
    by (intros o e He; by destruct (inv_heap _ _ _ Hc _ _ He)).
  change (wp (for_each chosen claim_lookup) (fun _ c' => wp (c ← get_state;
    let result := omap (fun o => info_hash <$> heap c !! o) chosen in
    assert_st (bool_decide (length result <= limit)) ;; mret result) (fun hs c' => inv lim c' /\
    NoDup hs /\ length hs <= limit /\ Forall (fun h => ~ running c h) hs /\
    (forall h, running c h \/ h ∈ hs -> running c' h)) c') c).
  eapply wp_mono; [apply wp_wlp; [exact (wp_claim_lookups lim c chosen Hc Htreat)|by apply flag_claim_lookups]|].
  intros u c' (Hc' & Hk & Hf). cbv beta. destruct Htreat as [Hnd Hcand]. pose proof (lookups_go_on None c c' Hk Hlt) as (_ & Hent & Hheap).
  assert (length (omap (fun o => info_hash <$> heap c' !! o) chosen) <= limit) as Hlen.
  { etransitivity; [apply length_omap_le|apply length_lookup_choice]. }
  apply wp_bind, wp_get. cbv zeta. apply wp_bind, wp_assert; [by apply bool_decide_eq_true|]. apply wp_ret.
  assert (forall o h, o ∈ chosen -> info_hash <$> heap c' !! o = Some h -> exists e e',
    at_entry c h o e /\ at_entry c' h o e' /\ is_lookup_candidate lim e = true /\ lookup_in_progress e' = true) as Hres.
  { intros o h Hin Hh. destruct (Hcand o Hin) as (h' & e & Hat & HP). destruct (Hf o Hin) as (e' & He' & Hl).
    { destruct Hat as [_ He]. by exists e. }
    assert (at_entry c' h' o e') as Hat' by (split; [apply Hent, Hat|done]).
    rewrite He' in Hh. injection Hh as <-. rewrite (at_entry_hash _ _ _ _ _ _ Hc' Hat'). by exists e, e'. }
  split; [done|]. split; [|split; [done|split]].
  - apply NoDup_omap_inj; [done|]. intros o o' h Ho Ho' Hh Hh'.
    destruct (Hres _ _ Ho Hh) as (e & _ & [Hg _] & _). destruct (Hres _ _ Ho' Hh') as (e' & _ & [Hg' _] & _). congruence.
  - apply Forall_forall. intros h (o & Ho & Hh)%list_elem_of_omap (o' & e' & [Hg' He'] & Hl).
    destruct (Hres _ _ Ho Hh) as (e & _ & [Hg He] & _ & HP & _). assert (e' = e) as -> by congruence.
    unfold is_lookup_candidate in HP. rewrite Hl in HP. by rewrite andb_false_r in HP.
  - intros h [Hrun|(o & Ho & Hh)%list_elem_of_omap].
    { apply (running_kept None c); [done|exact Hk| |exact Hrun]. destruct Hrun as (o & e & [-> _] & _). done. }
    destruct (Hres _ _ Ho Hh) as (_ & e' & _ & Hat' & _ & Hl). by exists o, e'.
Qed.
End running.

(** ** The shared catalog

    The crawler's thread calls methods of a catalog that other threads use as
    well.  Every method holds the lock, so that a run is a sequence of whole
    methods: before each call of the crawler the others make theirs, any that
    the rules allow in the state they find, the end of a lookup excepted. *)

(** The calls that end a lookup: only the crawler makes them. *)
Definition ends_lookup (k : call) : bool :=
  match k with Release_lookup_claim _ | Add_lookup_result _ _ => true | _ => false end.

(** Calls made one after the other at the given times, each allowed when its
    turn comes, and none of them of a kind that is somebody else's. *)
Fixpoint follows (reserved : call -> bool) (lim : limits) (c : catalog) (calls : list (Z * call)) : Prop :=
  match calls with
  | [] => True
  | (now, k) :: calls' => allowed c k /\ (0 <= now)%Z /\ reserved k = false /\
      forall c', run lim now k c = Ok (tt, c') -> follows reserved lim c' calls'
  end.

Record shared_catalog := Shared { contents : catalog; turn : nat }.
Definition set_contents (c : catalog) (s : shared_catalog) : shared_catalog := Shared c (turn s).
Definition next_turn (s : shared_catalog) : shared_catalog := Shared (contents s) (S (turn s)).

Section shared.
Context (lim : limits) (Hlim : limits_ok lim) (wall : nat -> Z) (Hwall : forall n, (0 <= wall n)%Z)
  (others : nat -> catalog -> list (Z * call))
  (Hothers : forall n c, inv lim c -> follows ends_lookup lim c (others n c)).

Definition others_turn : ST shared_catalog unit :=
  s ← get_state;
  for_each (others (turn s) (contents s)) (fun tk => zoom contents set_contents (run lim tk.1 tk.2)) ;;
  modify next_turn.

(** A call of the crawler, after those of the others. *)
Definition locked {A} (m : Z -> ST catalog A) : ST shared_catalog A :=
  others_turn ;;
  now ← gets (fun s => wall (turn s));
  zoom contents set_contents (m now).

#[local] Instance shared_calls : CrawlerCatalog shared_catalog := {
  catalog_record_hash h source peer := locked (fun now => record_hash lim h source peer now None ;; mret tt);
  catalog_record_hashes hs source := locked (fun now => record_hashes lim hs source now None ;; mret tt);
  catalog_add_peers h l := locked (fun _ => add_peers lim h l ;; mret tt);
  catalog_add_lookup_result h l := locked (fun now => add_lookup_result lim h l now None);
  catalog_fetchable_count := locked (fun _ => n ← fetchable_count lim; mret (Z.of_nat n));
  catalog_hashes_needing_peers n := locked (fun now => hashes_needing_peers lim (Z.to_nat n) now None);
  catalog_release_lookup_claim h := locked (fun _ => release_lookup_claim lim h) }.

(** A call that ends no lookup. *)
Lemma wp_run_running now k c :
  inv lim c -> allowed c k -> (0 <= now)%Z -> ends_lookup k = false ->
  wp (run lim now k) (fun _ c' => inv lim c' /\ forall h, running c h -> running c' h) c.
Proof using Hlim.
  intros Hc Hk Hnow Hend.
  assert (frames (lookups_kept None) (run lim now k) ->
    wp (run lim now k) (fun _ c' => inv lim c' /\ forall h, running c h -> running c' h) c) as Hkept.
  { intros Hf. eapply wp_mono; [apply (wp_wlp _ _ _ _ (wp_run lim now k c Hlim Hc Hk Hnow) (Hf c))|].
    intros u c' [Hc' Hkept]. split; [done|]. intros h Hr. apply (running_kept lim None c); [done..| |done].
    destruct Hr as (o & e & [-> _] & _). done. }
  destruct k; try discriminate; try (apply Hkept; cbn [run]; frames_steps; fail); cbn [run allowed] in *; apply wp_bind.
  - eapply wp_mono; [by apply wp_record_hash|]. intros b c' (Hc' & _ & Hcl & _). apply wp_ret.
    split; [done|]. intros h'. by apply running_claims.
  - eapply wp_mono; [by apply wp_record_hashes|]. intros b c' (Hc' & Hcl). apply wp_ret.
    split; [done|]. intros h'. by apply running_claims.
Qed.

Definition shared_ok (P : bytes -> Prop) (s : shared_catalog) : Prop :=
  inv lim (contents s) /\ forall h, P h -> running (contents s) h.

Lemma wp_others_turn P s : shared_ok P s -> wp others_turn (fun _ => shared_ok P) s.
Proof using Hlim Hothers.
  intros Hs. unfold others_turn. apply wp_bind, wp_get. pose proof (Hothers (turn s) (contents s) (proj1 Hs)) as Hf.
  apply wp_bind. eapply (wp_mono _ (fun _ => shared_ok P)); [|by intros u s' Hs'].
  revert Hf. generalize (others (turn s) (contents s)). intros calls. revert s Hs.
  induction calls as [|[now k] calls IH]; intros s Hs Hf; cbn [for_each]; [done|].
  destruct Hf as (Hk & Hnow & Hend & Hrest). destruct Hs as [Hc HP]. apply wp_bind, wp_zoom. cbn [fst snd].
  pose proof (wp_run_running now k (contents s) Hc Hk Hnow Hend) as Hrun. unfold wp at 1. unfold wp in Hrun.
  destruct (run lim now k (contents s)) as [[[] c']|] eqn:Hr; [|done]. destruct Hrun as [Hc' Hkept].
  apply IH; [|by apply Hrest]. split; [done|]. intros h Hh. apply Hkept. by apply HP.
Qed.

Lemma wp_locked {A} (m : Z -> ST catalog A) P (Q : A -> shared_catalog -> Prop) s :
  shared_ok P s ->
  (forall now c, (0 <= now)%Z -> inv lim c -> (forall h, P h -> running c h) ->
     wp (m now) (fun a c' => forall n, Q a (Shared c' n)) c) ->
  wp (locked m) Q s.
Proof using Hlim Hothers Hwall.
  intros Hs Hm. unfold locked. apply wp_bind. eapply wp_mono; [by apply wp_others_turn|]. clear s Hs.
  intros u s [Hc HP]. apply wp_bind, wp_gets, wp_zoom. eapply wp_mono; [by apply Hm|]. intros a c' HQ. apply HQ.
Qed.

(** The laws of the interface. *)
Lemma shared_record P s h source peer :
  length h = NODE_ID_LENGTH -> shared_ok P s ->
  wp (catalog_record_hash h source peer) (fun _ => shared_ok P) s.
Proof using Hlim Hothers Hwall.
  intros Hh Hs. eapply wp_locked; [exact Hs|]. intros now c Hnow Hc HP. apply wp_bind.
  eapply wp_mono; [by apply wp_record_hash|]. intros b c' (Hc' & _ & Hk & _). apply wp_ret. intros n.
  split; [done|]. intros h' Hh'. by eapply running_claims, HP.
Qed.

Lemma shared_record_hashes P s hs source :
  Forall (fun h => length h = NODE_ID_LENGTH) hs -> shared_ok P s ->
  wp (catalog_record_hashes hs source) (fun _ => shared_ok P) s.
Proof using Hlim Hothers Hwall.
  intros Hh Hs. eapply wp_locked; [exact Hs|]. intros now c Hnow Hc HP. apply wp_bind.
  eapply wp_mono; [by apply wp_record_hashes|]. intros b c' (Hc' & Hk). apply wp_ret. intros n.
  split; [done|]. intros h' Hh'. by eapply running_claims, HP.
Qed.

Lemma running_current c h : running c h -> dict_get h (entries c) <> None.
Proof using. by intros (o & e & [-> _] & _). Qed.

Lemma shared_add_peers P s h found :
  length h = NODE_ID_LENGTH -> shared_ok P s -> wp (catalog_add_peers h found) (fun _ => shared_ok P) s.
Proof using Hlim Hothers Hwall.
  intros Hh Hs. eapply wp_locked; [exact Hs|]. intros now c Hnow Hc HP. apply wp_bind.
  eapply wp_mono; [apply (wp_wlp _ (fun _ => inv lim)); [by apply wp_add_peers_public|apply kept_add_peers]|].
  intros b c' [Hc' Hk]. apply wp_ret. intros n. split; [done|]. intros h' Hh'%HP.
  eapply running_kept; [exact Hc|exact Hk|by apply running_current|done].
Qed.

(** Ending the lookup of [h] leaves the others. *)
Lemma shared_end (m : ST catalog unit) (P : bytes -> Prop) h c :
  inv lim c -> P h -> (forall h, P h -> running c h) ->
  wp m (fun _ => inv lim) c -> wlp m (fun _ => lookups_kept (dict_get h (entries c)) c) c ->
  wp m (fun _ c' => forall n, shared_ok (fun h' => P h' /\ h' <> h) (Shared c' n)) c.
Proof using.
  intros Hc Hh HP Hwp Hk. eapply wp_mono; [exact (wp_wlp _ _ _ _ Hwp Hk)|]. intros u c' [Hc' Hk'] n.
  split; [done|]. intros h' [Hh' Hne]. eapply running_kept; [exact Hc|exact Hk'| |by apply HP].
  destruct (HP h' Hh') as (o & e & [Hg _] & _). intros Heq. rewrite Hg in Heq.
  by apply Hne, (current_inj _ _ c h h' o Hc).
Qed.

Lemma shared_add_lookup_result (P : bytes -> Prop) s h found :
  length h = NODE_ID_LENGTH -> P h -> shared_ok P s ->
  wp (catalog_add_lookup_result h found) (fun _ => shared_ok (fun h' => P h' /\ h' <> h)) s.
Proof using Hlim Hothers Hwall.
  intros Hh Hp Hs. eapply wp_locked; [exact Hs|]. intros now c Hnow Hc HP.
  apply shared_end; [done..| |apply kept_add_lookup_result].
  apply wp_add_lookup_result; [done..|]. by eapply running_checked; [|apply HP].
Qed.

Lemma shared_release (P : bytes -> Prop) s h :
  length h = NODE_ID_LENGTH -> P h -> shared_ok P s ->
  wp (catalog_release_lookup_claim h) (fun _ => shared_ok (fun h' => P h' /\ h' <> h)) s.
Proof using Hlim Hothers Hwall.
  intros Hh Hp Hs. eapply wp_locked; [exact Hs|]. intros now c Hnow Hc HP.
  apply shared_end; [done..| |apply kept_release_lookup_claim]. by apply wp_release_lookup_claim.
Qed.

Lemma shared_fetchable_count P s :
  shared_ok P s -> wp catalog_fetchable_count (fun n s' => (0 <= n)%Z /\ shared_ok P s') s.
Proof using Hlim Hothers Hwall.
  intros Hs. eapply wp_locked; [exact Hs|]. intros now c Hnow Hc HP. apply wp_bind. unfold fetchable_count.
  apply wp_bind, wp_assert; [apply Z.leb_le, Hlim|]. apply wp_gets, wp_ret. intros n. split; [lia|done].
Qed.

Lemma shared_hashes (P : bytes -> Prop) s n :
  (1 <= n)%Z -> shared_ok P s ->
  wp (catalog_hashes_needing_peers n) (fun hs s' =>
    NoDup hs /\ (Z.of_nat (length hs) <= n)%Z /\ Forall (fun h => length h = NODE_ID_LENGTH /\ ~ P h) hs /\
    shared_ok (fun h => P h \/ h ∈ hs) s') s.
Proof using Hlim Hothers Hwall.
  intros Hn Hs. eapply wp_locked; [exact Hs|]. intros now c Hnow Hc HP.
  eapply wp_mono; [by apply wp_hashes_claimed|]. intros hs c' (Hc' & Hnd & Hlen & Hnew & Hrun) turn'.
  split; [done|]. split; [lia|]. split.
  - apply Forall_forall. intros h Hin. rewrite Forall_forall in Hnew. split; [|intros ?%HP; by apply (Hnew h)].
    eapply running_hash; [exact Hc'|]. apply Hrun. by right.
  - split; [done|]. intros h [Hh|Hh]; apply Hrun; [left; by apply HP|by right].
Qed.

Lemma shared_ok_mono (P P' : bytes -> Prop) s : (forall h, P' h -> P h) -> shared_ok P s -> shared_ok P' s.
Proof using. intros HP [Hc Hr]. split; [done|]. intros h Hh. by apply Hr, HP. Qed.

#[local] Instance shared_laws : CrawlerCatalogLaws shared_catalog := {
  catalog_ok := shared_ok;
  catalog_ok_mono := shared_ok_mono;
  law_record_hash := shared_record;
  law_record_hashes := shared_record_hashes;
  law_add_peers := shared_add_peers;
  law_add_lookup_result := shared_add_lookup_result;
  law_fetchable_count := shared_fetchable_count;
  law_hashes_needing_peers := shared_hashes;
  law_release_lookup_claim := shared_release }.
End shared.

(** ** Theorems *)

(** hashes_needing_peers gives out distinct hashes, no more than its limit,
    none of which was being looked up before and all of which are afterwards: two
    threads are never given the same hash. *)
Theorem lookup_claims_exclusive lim c limit now :
  limits_ok lim -> reachable lim c -> (0 <= now)%Z ->
  exists hs c', hashes_needing_peers lim limit now None c = Ok (hs, c') /\
    NoDup hs /\ length hs <= limit /\ (forall h, h ∈ hs -> ~ running c h /\ running c' h) /\
    forall h, running c h -> running c' h.
Proof.
  intros Hlim Hc%reachable_inv Hnow; [|done]. pose proof (wp_hashes_claimed lim c limit now Hc Hnow) as Hwp.
  unfold wp in Hwp. destruct (hashes_needing_peers lim limit now None c) as [[hs c']|]; [|done].
  destruct Hwp as (_ & Hnd & Hlen & Hnew & Hrun). rewrite Forall_forall in Hnew.
  exists hs, c'. split; [done|]. split; [done|]. split; [done|]. split; auto.
Qed.

(** Nothing but its own end ends a lookup: whatever allowed call a thread
    makes, other than the two that end a lookup, it returns and every lookup that
    was running still runs; in particular the eviction of old entries never
    takes an entry whose lookup is running. *)
Theorem running_lookups_survive lim c now k :
  limits_ok lim -> reachable lim c -> allowed c k -> (0 <= now)%Z -> ends_lookup k = false ->
  exists c', run lim now k c = Ok (tt, c') /\ forall h, running c h -> running c' h.
Proof.
  intros Hlim Hc%reachable_inv Hk Hnow Hend; [|done]. pose proof (wp_run_running lim Hlim now k c Hc Hk Hnow Hend) as Hwp.
  unfold wp in Hwp. destruct (run lim now k c) as [[[] c']|]; [|done]. destruct Hwp as [_ Hrun]. by exists c'.
Qed.

Lemma one_entry_limits_ok : limits_ok one_entry_limits.
Proof. repeat split; vm_compute; first [discriminate|lia]. Qed.

(** In a catalog with room for one entry, a hash that was seen, and its lookup
    claimed. *)
Definition unfetched : catalog := after one_entry_limits (Record_hash hash_a SOURCE_GET_PEERS None) new_catalog.
Definition looked_up : catalog := after one_entry_limits (Hashes_needing_peers 1) unfetched.

Lemma reachable_unfetched : reachable one_entry_limits unfetched.
Proof.
  eapply (reachable_call _ _ 0 (Record_hash hash_a SOURCE_GET_PEERS None));
    [apply reachable_new|done|done|vm_compute; reflexivity].
Qed.

Lemma reachable_looked_up : reachable one_entry_limits looked_up.
Proof.
  eapply (reachable_call _ _ 0 (Hashes_needing_peers 1)); [apply reachable_unfetched|done|done|vm_compute; reflexivity].
Qed.

Lemma looked_up_running : running looked_up hash_a.
Proof.
  exists 0, (default (new_entry [] 0) (heap looked_up !! 0)). repeat split; vm_compute; reflexivity.
Qed.

Lemma lookup_claims_exclusive_witness :
  exists hs c', hashes_needing_peers one_entry_limits 3 0 None unfetched = Ok (hs, c') /\
    forall h, h ∈ hs -> ~ running unfetched h /\ running c' h.
Proof.
  destruct (lookup_claims_exclusive one_entry_limits unfetched 3 0 one_entry_limits_ok reachable_unfetched ltac:(lia))
    as (hs & c' & Hrun & _ & _ & Hnew & _). by exists hs, c'.
Defined.

Lemma running_lookups_survive_witness :
  exists c', run one_entry_limits 9 (Record_hash hash_b SOURCE_GET_PEERS None) looked_up = Ok (tt, c') /\
    running c' hash_a /\ dict_get hash_b (entries c') = None.
Proof.
  destruct (running_lookups_survive one_entry_limits looked_up 9 (Record_hash hash_b SOURCE_GET_PEERS None)
    one_entry_limits_ok reachable_looked_up eq_refl ltac:(lia) eq_refl) as (c' & Hrun & Hkept).
  exists c'. split; [exact Hrun|]. split; [apply Hkept, looked_up_running|].
  vm_compute in Hrun. injection Hrun as <-. vm_compute. reflexivity.
Defined.
