(* ===== verification/DhtCrawler.v ===== *)
(** The DHT crawler ([dht_crawler.py]): its families, its rate limit per
    address, the answers to queries, the crawl queue and the start of lookups.

    The crawler owns its lookup manager ([lookup_manager]) and shares the
    catalog ([catalog], of any type [K] with the operations of
    [CrawlerCatalog]).  The manager calls back into the crawler:
    [run_lookups] runs a method of the manager and then delivers the calls it
    made to [send_query], [on_peers] and [on_finished], in their order; none of
    them reads or writes the manager.  What the operating system answers is an
    [environment], read one answer after the other ([readings] counts them);
    [datagrams] is the log of what [sendto] accepted.  Times are in
    microseconds. *)
From S2P Require Import Prelude PyDict Bencode NodeIdentity AddressText Krpc DhtLookup CatalogInterface.

Definition SECOND : Z := 1000000.
Definition RECENT_NODES_SIZE : nat := 8.
Definition RECENT_HASHES_SIZE : nat := 64.
Definition SAMPLES_PER_RESPONSE : nat := 20.
Definition OWN_SAMPLE_INTERVAL : Z := 300.
Definition BOOTSTRAP_RETRY_SECONDS : Z := 2 * SECOND.
Definition MAX_DATAGRAM_SIZE : Z := 65535.
Definition MAX_RECEIVE_PER_SOCKET : nat := 1000.
Definition MAX_BACKOFF_ENTRIES : nat := Z.to_nat 50000.
Definition TOKEN_SECRET_LENGTH : nat := 16.
Definition LOOKUP_SEED_SCAN : nat := 2000.
Definition LOOKUP_SEED_COUNT : nat := 16.
Definition HINT_NODES_SIZE : nat := Z.to_nat 65536.
Definition SOCKET_AFFINITY_SIZE : nat := Z.to_nat 65536.
Definition PER_ADDRESS_WINDOW_SECONDS : Z := 10 * SECOND.
Definition PER_ADDRESS_MAX_PACKETS : Z := 40.
Definition SEND_WINDOW_ENTRIES : nat := Z.to_nat 65536.

(** [NodeSocket]; [udp_socket] is the identity of the socket object. *)
Record node_socket := NodeSocket {
  udp_socket : nat; own_id : bytes; socket_port : Z; socket_family : family }.

#[global] Instance node_socket_eq_dec : EqDecision node_socket.
Proof. solve_decision. Defined.

Definition own_id_suffixes (nodes : list node_socket) : res (list bytes) :=
  assert_ (forallb (fun n => is_node_id (own_id n)) nodes) ;;
  let result := (fun n => drop NEIGHBOR_PREFIX_LENGTH (own_id n)) <$> nodes in
  assert_ (forallb (fun suffix : bytes =>
    bool_decide (length suffix = NODE_ID_LENGTH - NEIGHBOR_PREFIX_LENGTH)) result) ;;
  mret result.

Definition next_batch_time (due now interval : Z) : res Z :=
  assert_ ((0 <? interval) && (due <=? now))%Z ;;
  let result := (if interval <? now - due then now + interval else due + interval)%Z in
  assert_ (now - interval <? result)%Z ;;
  mret result.

(** [resolve_addresses], given the addresses [getaddrinfo] found, [None] when it
    raised [OSError]: the distinct ones in their order as text. *)
Definition resolve_addresses (host : text) (port : Z) (infos : option (list text)) : res (list text) :=
  assert_ (negb (bool_decide (host = [])) && ((0 <? port) && (port <=? 65535))%Z) ;;
  match infos with
  | None => Raise OSError
  | Some ips => mret (sort_by bytes_leb (remove_dups ips))
  end.

Definition address_family (ip : text) : family :=
  if bool_decide (":"%byte ∈ ip) then AF_INET6 else AF_INET.

(** The counters of [stats]. *)
Inductive counter :=
  | packets_sent | packets_received | queries_received | responses_received | errors_received
  | samples_received | sample_responses | announced_peers | lookups_started_count
  | sample_queries_sent | find_node_sent | packets_throttled.

#[global] Instance counter_eq_dec : EqDecision counter.
Proof. solve_decision. Defined.

(** [FamilyState]; the sockets in rotation are the position of [socket_cycle],
    and [last_bootstrap_time] is [None] for minus infinity. *)
Record family_state := FamilyState {
  sockets : list node_socket; socket_cycle : nat; node_queue : list node;
  recent_nodes : list node; last_bootstrap_time : option Z }.

Definition new_family_state (members : list node_socket) : family_state :=
  FamilyState members 0 [] [] None.

Definition nodes_key (f : family) : bytes :=
  match f with AF_INET6 => NODES6_KEY | AF_INET => NODES_KEY end.

Definition family_eta (f : family_state) : family_state :=
  FamilyState (sockets f) (socket_cycle f) (node_queue f) (recent_nodes f) (last_bootstrap_time f).
Definition set_socket_cycle : nat -> family_state -> family_state := ltac:(make_setter family_eta socket_cycle).
Definition set_node_queue : list node -> family_state -> family_state := ltac:(make_setter family_eta node_queue).
Definition set_recent_nodes : list node -> family_state -> family_state := ltac:(make_setter family_eta recent_nodes).
Definition set_last_bootstrap_time : option Z -> family_state -> family_state := ltac:(make_setter family_eta last_bootstrap_time).

(** [append] on a deque with a length limit: the oldest item leaves a full one. *)
Definition push_bounded {A} (maxlen : nat) (x : A) (q : list A) : list A :=
  drop (length (q ++ [x]) - maxlen) (q ++ [x]).

(** The arguments of the constructor. *)
Record config := Config {
  node_sockets : list node_socket; bootstrap_nodes : list (text * Z); batch_size : Z;
  interval : Z; max_queue : nat; lookup_fetchable_target : Z; limits : lookup_limits }.

(** What the operating system answers to the [n]th request: the monotonic clock,
    [os.urandom] of a length, whether [sendto] raises [OSError], and the
    addresses [getaddrinfo] finds for a host, [None] for an [OSError]. *)
Record environment := Environment {
  clock_at : nat -> Z; random_at : nat -> nat -> bytes; send_fails : nat -> bool;
  getaddrinfo : nat -> text -> Z -> family -> option (list text) }.

(** A call of [sendto] that was accepted: the time [allow_send] read for it, by
    which socket, what, to whom. *)
Record datagram := Datagram_sent {
  sent_at : Z; sent_by : node_socket; sent_data : bytes; sent_to : address }.

Section state.
Context {K : Type}.

Record crawler := Crawler {
  families : list (family * family_state); resolved_bootstrap_hosts : list (family * list (text * list text));
  token_secret : bytes; recent_hashes : list bytes; sample_backoff : list (address * Z);
  fallback_sent : list (address * unit); recently_queued : list (address * unit);
  hint_nodes : list (bytes * node); socket_affinity : list (address * node_socket);
  send_windows : list (text * (Z * Z)); stats : counter -> Z; lookup_manager : manager;
  catalog : K; selector_open : bool; readings : nat; datagrams : list datagram }.

Definition crawler_eta (s : crawler) : crawler :=
  Crawler (families s) (resolved_bootstrap_hosts s) (token_secret s) (recent_hashes s)
    (sample_backoff s) (fallback_sent s) (recently_queued s) (hint_nodes s) (socket_affinity s)
    (send_windows s) (stats s) (lookup_manager s) (catalog s) (selector_open s) (readings s) (datagrams s).

Definition set_families : list (family * family_state) -> crawler -> crawler := ltac:(make_setter crawler_eta families).
Definition set_resolved : list (family * list (text * list text)) -> crawler -> crawler := ltac:(make_setter crawler_eta resolved_bootstrap_hosts).
Definition set_recent_hashes : list bytes -> crawler -> crawler := ltac:(make_setter crawler_eta recent_hashes).
Definition set_sample_backoff : list (address * Z) -> crawler -> crawler := ltac:(make_setter crawler_eta sample_backoff).
Definition set_fallback_sent : list (address * unit) -> crawler -> crawler := ltac:(make_setter crawler_eta fallback_sent).
Definition set_recently_queued : list (address * unit) -> crawler -> crawler := ltac:(make_setter crawler_eta recently_queued).
Definition set_hint_nodes : list (bytes * node) -> crawler -> crawler := ltac:(make_setter crawler_eta hint_nodes).
Definition set_socket_affinity : list (address * node_socket) -> crawler -> crawler := ltac:(make_setter crawler_eta socket_affinity).
Definition set_send_windows : list (text * (Z * Z)) -> crawler -> crawler := ltac:(make_setter crawler_eta send_windows).
Definition set_stats : (counter -> Z) -> crawler -> crawler := ltac:(make_setter crawler_eta stats).
Definition set_lookup_manager : manager -> crawler -> crawler := ltac:(make_setter crawler_eta lookup_manager).
Definition set_catalog : K -> crawler -> crawler := ltac:(make_setter crawler_eta catalog).
Definition set_selector_open : bool -> crawler -> crawler := ltac:(make_setter crawler_eta selector_open).
Definition set_readings : nat -> crawler -> crawler := ltac:(make_setter crawler_eta readings).
Definition set_datagrams : list datagram -> crawler -> crawler := ltac:(make_setter crawler_eta datagrams).

(** One answer of the environment. *)
Definition reading {A} (answers : nat -> A) : ST crawler A :=
  n ← gets readings;
  modify (set_readings (S n)) ;;
  mret (answers n).

(** [self.stats\[key\] += n] *)
Definition count (key : counter) (n : Z) : ST crawler unit :=
  modify (fun s => set_stats (fun c => if decide (c = key) then (stats s c + n)%Z else stats s c) s).

(** [remember] on a table of the crawler. *)
Definition remember_in {L V} `{EqDecision L} (get : crawler -> list (L * V))
    (put : list (L * V) -> crawler -> crawler) (key : L) (value : V) (limit : nat) : ST crawler bool :=
  table ← gets get;
  r ← lift (remember table key value limit);
  modify (put r.2) ;;
  mret r.1.

(** [self.families\[f\]], a [KeyError] for a family without sockets. *)
Definition the_family (f : family) : ST crawler family_state := fun s =>
  match dict_get f (families s) with Some st => Ok (st, s) | None => Raise KeyError end.
Definition update_family (f : family) (g : family_state -> family_state) : ST crawler unit :=
  st ← the_family f;
  modify (fun s => set_families (dict_set f (g st) (families s)) s).

(** A call of a method of the catalog. *)
Definition call_catalog {A} (m : ST K A) : ST crawler A := zoom catalog set_catalog m.
End state.
Arguments crawler : clear implicits.

Section crawler.
Context `{AddressText} {K : Type} `{CrawlerCatalog K}.
Context (hmac_sha1 : bytes -> bytes -> bytes) (env : environment) (cfg : config) (depth : nat).

Definition read_clock : ST (crawler K) Z := reading (clock_at env).
Definition urandom (n : nat) : ST (crawler K) bytes := reading (fun k => random_at env k n).

(** ** Filters *)

Definition has_family (f : family) : bool :=
  bool_decide (f ∈ (socket_family <$> node_sockets cfg)).
Definition own_suffixes : list bytes :=
  (fun n => drop NEIGHBOR_PREFIX_LENGTH (own_id n)) <$> node_sockets cfg.

(** The sender of a message is a node when its id and address pass the filter:
    a valid id that is no neighbour of ours, a family with sockets (those are
    the keys of [self.families], which never change) and a routable address. *)
Definition is_foreign_node (id : pyval) (addr : address) : res (option node) :=
  match id with
  | PBytes b =>
      if is_node_id b && negb (bool_decide (drop NEIGHBOR_PREFIX_LENGTH b ∈ own_suffixes))
         && has_family (address_family addr.1)
      then routable ← is_routable_address addr.1 addr.2;
           mret (if routable : bool then Some (Node b addr.1 addr.2) else None)
      else mret None
  | _ => mret None
  end.

(** [is_foreign_node] as the filter of the lookup manager. *)
Definition lookup_filter (n : node) : bool :=
  match is_foreign_node (PBytes (node_id n)) (node_address n) with
  | Ok (Some _) => true
  | _ => false
  end.

(** ** Sending *)

Definition pick_node_socket (f : family) : ST (crawler K) (option node_socket) :=
  found ← gets (fun s => dict_get f (families s));
  match found with
  | None => mret None
  | Some st =>
      match sockets st !! (socket_cycle st mod length (sockets st)) with
      | None => raise_st KeyError
      | Some n =>
          update_family f (set_socket_cycle (S (socket_cycle st))) ;;
          assert_st (bool_decide (socket_family n = f)) ;;
          mret (Some n)
      end
  end.

Definition allow_send (ip : text) : ST (crawler K) bool :=
  now ← read_clock;
  window ← gets (fun s => dict_get ip (send_windows s));
  match window with
  | Some (start, n) =>
      if (PER_ADDRESS_WINDOW_SECONDS <=? now - start)%Z then
        remember_in send_windows set_send_windows ip (now, 1%Z) SEND_WINDOW_ENTRIES ;; mret true
      else if (PER_ADDRESS_MAX_PACKETS <=? n)%Z then mret false
      else
        modify (fun s => set_send_windows (dict_set ip (start, (n + 1)%Z) (send_windows s)) s) ;;
        assert_st (n + 1 <=? PER_ADDRESS_MAX_PACKETS)%Z ;;
        mret true
  | None => remember_in send_windows set_send_windows ip (now, 1%Z) SEND_WINDOW_ENTRIES ;; mret true
  end.

Definition send_message (n : node_socket) (m : list (pykey * pyval)) (addr : address)
    : ST (crawler K) bool :=
  assert_st (bool_decide (n ∈ node_sockets cfg)) ;;
  asked ← gets readings;
  allowed ← allow_send addr.1;
  if negb allowed then count packets_throttled 1 ;; mret false
  else
    payload ← lift (encode_bencode (PDict m));
    fails ← reading (send_fails env);
    if (fails : bool) then mret false
    else
      modify (fun s => set_datagrams
        (datagrams s ++ [Datagram_sent (clock_at env asked) n payload addr]) s) ;;
      count packets_sent 1 ;;
      sent ← gets (fun s => stats s packets_sent);
      assert_st (1 <=? sent)%Z ;;
      mret true.

Definition send_find_node (n : node_socket) (target : node) : ST (crawler K) unit :=
  assert_st (is_node_id (node_id target) && ((0 <=? node_port target) && (node_port target <=? 65535))%Z) ;;
  random ← urandom TRANSACTION_ID_LENGTH;
  transaction_id ← lift (generate_transaction_id random);
  id ← lift (neighbor_node_id (node_id target) (own_id n));
  random ← urandom NODE_ID_LENGTH;
  target_id ← lift (generate_node_id random);
  query ← lift (build_find_node_query transaction_id id target_id);
  send_message n query (node_address target) ;;
  count find_node_sent 1 ;;
  assert_st (has_bytes query (bs "q") (bs "find_node")).

Definition send_sample_infohashes (n : node_socket) (target : node) : ST (crawler K) unit :=
  assert_st (is_node_id (node_id target) && ((0 <=? node_port target) && (node_port target <=? 65535))%Z) ;;
  random ← urandom TRANSACTION_ID_LENGTH;
  transaction_id ← lift (generate_transaction_id random);
  id ← lift (neighbor_node_id (node_id target) (own_id n));
  random ← urandom NODE_ID_LENGTH;
  target_id ← lift (generate_node_id random);
  query ← lift (build_sample_infohashes_query transaction_id id target_id);
  send_message n query (node_address target) ;;
  count sample_queries_sent 1 ;;
  assert_st (has_bytes query (bs "q") QUERY_SAMPLE_INFOHASHES).

Definition send_crawl_query (target : node) : ST (crawler K) unit :=
  picked ← pick_node_socket (address_family (node_ip target));
  match picked with
  | None => mret tt
  | Some n =>
      backoff ← gets (fun s => dict_get (node_address target) (sample_backoff s));
      (match backoff with
       | None => send_sample_infohashes n target
       | Some backoff_until =>
           now ← read_clock;
           if (now <? backoff_until)%Z then send_find_node n target else send_sample_infohashes n target
       end) ;;
      sent ← gets (fun s => stats s packets_sent);
      assert_st (0 <=? sent)%Z
  end.

Definition send_lookup_query (transaction_id : bytes) (target : node) (h : bytes) : ST (crawler K) unit :=
  assert_st (bool_decide (length transaction_id = LOOKUP_TRANSACTION_ID_LENGTH) && is_node_id h) ;;
  known ← gets (fun s => dict_get (node_address target) (socket_affinity s));
  picked ← match known with
           | Some n => mret (Some n)
           | None => pick_node_socket (address_family (node_ip target))
           end;
  match picked with
  | None => mret tt
  | Some n =>
      id ← lift (neighbor_node_id (node_id target) (own_id n));
      query ← lift (build_get_peers_query transaction_id id h);
      send_message n query (node_address target) ;;
      assert_st (has_bytes query (bs "q") (bs "get_peers"))
  end.

(** ** The lookup manager's callbacks *)

Definition deliver (e : event) : ST (crawler K) unit :=
  match e with
  | Query_sent transaction_id n h => send_lookup_query transaction_id n h
  | Peers_found h found => call_catalog (catalog_add_peers h found)
  | Lookup_finished h found => call_catalog (catalog_add_lookup_result h found)
  end.

(** A method of the manager, with the calls it makes to its callbacks. *)
Definition run_lookups {A} (m : ST manager A) : ST (crawler K) A :=
  before ← gets (fun s => length (events (lookup_manager s)));
  a ← zoom lookup_manager set_lookup_manager m;
  made ← gets (fun s => drop before (events (lookup_manager s)));
  for_each made deliver ;;
  mret a.

(** ** Nodes and datagrams *)

Definition add_node (id : pyval) (addr : address) : ST (crawler K) unit :=
  let f := address_family addr.1 in
  known ← gets (fun s : crawler K => dict_has f (families s));
  foreign ← lift (if (known : bool) then is_foreign_node id addr else mret None);
  match foreign with
  | None => mret tt
  | Some n =>
      is_new ← remember_in recently_queued set_recently_queued addr tt MAX_BACKOFF_ENTRIES;
      if negb is_new then mret tt
      else
        update_family f (fun st => set_node_queue (push_bounded (max_queue cfg) n (node_queue st)) st) ;;
        update_family f (fun st => set_recent_nodes (push_bounded RECENT_NODES_SIZE n (recent_nodes st)) st) ;;
        st ← the_family f;
        assert_st (bool_decide (length (node_queue st) <= max_queue cfg))
  end.

Definition record_hash (h : bytes) (source : Catalog.source_t) (peer : option address) : ST (crawler K) unit :=
  assert_st (is_node_id h) ;;
  call_catalog (catalog_record_hash h source peer) ;;
  modify (fun s => set_recent_hashes (push_bounded RECENT_HASHES_SIZE h (recent_hashes s)) s) ;;
  recorded ← gets recent_hashes;
  assert_st (bool_decide (last recorded = Some h)).

(** [max(0, min(seconds, MAX_SAMPLE_INTERVAL))] of the interval a response
    asks for, in microseconds. *)
Definition backoff_of (response : list (pykey * pyval)) : Z :=
  let seconds := match py_get response (bs "interval") with Some (PInt i) => i | _ => 0%Z end in
  (Z.max 0 (Z.min seconds MAX_SAMPLE_INTERVAL) * SECOND)%Z.

Definition handle_samples (response : list (pykey * pyval)) (addr : address) (sender : option node)
    : ST (crawler K) unit :=
  samples ← lift (decode_samples (default PNone (py_get response (bs "samples"))));
  call_catalog (catalog_record_hashes samples Catalog.SOURCE_SAMPLE) ;;
  modify (fun s => set_recent_hashes
    (foldl (fun q h => push_bounded RECENT_HASHES_SIZE h q) (recent_hashes s) samples) s) ;;
  (match sender with
   | None => mret tt
   | Some n => for_each samples (fun h => remember_in hint_nodes set_hint_nodes h n HINT_NODES_SIZE ;; mret tt)
   end) ;;
  count sample_responses 1 ;;
  now ← read_clock;
  remember_in sample_backoff set_sample_backoff addr (now + backoff_of response)%Z MAX_BACKOFF_ENTRIES ;;
  count samples_received (Z.of_nat (length samples)) ;;
  kept ← gets (fun s => dict_has addr (sample_backoff s));
  assert_st kept.

(** The loop over the node lists of a response. *)
Definition add_response_nodes (response : list (pykey * pyval)) : ST (crawler K) unit :=
  for_each [(NODES_KEY, fun data => decode_compact_nodes data COMPACT_NODE_LENGTH);
            (NODES6_KEY, decode_compact_nodes6)] (fun kd =>
    match py_get response kd.1 with
    | Some (PBytes compact) =>
        nodes ← lift (kd.2 compact);
        for_each nodes (fun n => add_node (PBytes (node_id n)) (node_address n))
    | _ => mret tt
    end).

Definition handle_response (m : list (pykey * pyval)) (addr : address) : ST (crawler K) unit :=
  assert_st (has_bytes m (bs "y") (bs "r")) ;;
  count responses_received 1 ;;
  let response := default PNone (py_get m (bs "r")) in
  let transaction_id := default PNone (py_get m (bs "t")) in
  manager ← gets lookup_manager;
  match transaction_id, owns_transaction transaction_id manager with
  | PBytes t, true =>
      now ← read_clock;
      run_lookups (DhtLookup.handle_response lookup_filter true (limits cfg) t response addr now)
  | _, _ =>
      match response with
      | PDict d =>
          sender ← lift (is_foreign_node (default PNone (py_get d (bs "id"))) addr);
          (match sender with
           | Some n => update_family (address_family addr.1)
               (fun st => set_recent_nodes (push_bounded RECENT_NODES_SIZE n (recent_nodes st)) st)
           | None => mret tt
           end) ;;
          add_response_nodes d ;;
          when_st (has_key d (bs "samples")) (handle_samples d addr sender) ;;
          received ← gets (fun s => stats s responses_received);
          assert_st (1 <=? received)%Z
      | _ => mret tt
      end
  end.

Definition handle_error (m : list (pykey * pyval)) (addr : address) (n : node_socket) : ST (crawler K) unit :=
  assert_st (has_bytes m (bs "y") (bs "e")) ;;
  count errors_received 1 ;;
  let transaction_id := default PNone (py_get m (bs "t")) in
  manager ← gets lookup_manager;
  match transaction_id, owns_transaction transaction_id manager with
  | PBytes t, true =>
      now ← read_clock;
      run_lookups (DhtLookup.handle_error (limits cfg) t now)
  | _, _ =>
      when_st (bool_decide (read_error_code m = Some ERROR_METHOD_UNKNOWN)) (
        now ← read_clock;
        remember_in sample_backoff set_sample_backoff addr (now + MAX_SAMPLE_INTERVAL * SECOND)%Z MAX_BACKOFF_ENTRIES ;;
        st ← the_family (socket_family n);
        when_st (bool_decide (length (node_queue st) * 2 < max_queue cfg)) (
          is_new ← remember_in fallback_sent set_fallback_sent addr tt MAX_BACKOFF_ENTRIES;
          when_st is_new (send_find_node n (Node (own_id n) addr.1 addr.2)))) ;;
      received ← gets (fun s => stats s errors_received);
      assert_st (1 <=? received)%Z
  end.

(** ** Queries *)

Definition handle_ping_query (t reply_id : bytes) (addr : address) (n : node_socket) : ST (crawler K) unit :=
  assert_st (is_node_id reply_id) ;;
  response ← lift (build_ping_response t reply_id);
  send_message n response addr ;; mret tt.

Definition handle_find_node_query (t reply_id : bytes) (addr : address) (n : node_socket) : ST (crawler K) unit :=
  assert_st (is_node_id reply_id) ;;
  st ← the_family (socket_family n);
  compact ← lift (encode_compact_nodes (recent_nodes st));
  response ← lift (build_find_node_response t reply_id compact (nodes_key (socket_family n)));
  send_message n response addr ;; mret tt.

Definition read_info_hash (t : bytes) (args : list (pykey * pyval)) (addr : address) (n : node_socket)
    : ST (crawler K) (option bytes) :=
  match py_get args (bs "info_hash") with
  | Some (PBytes h) =>
      if is_node_id h then mret (Some h)
      else
        response ← lift (build_error_response t ERROR_PROTOCOL (bs "invalid info_hash"));
        send_message n response addr ;; mret None
  | _ =>
      response ← lift (build_error_response t ERROR_PROTOCOL (bs "invalid info_hash"));
      send_message n response addr ;; mret None
  end.

Definition handle_get_peers_query (t reply_id : bytes) (args : list (pykey * pyval)) (addr : address)
    (n : node_socket) : ST (crawler K) unit :=
  assert_st (is_node_id reply_id) ;;
  info_hash ← read_info_hash t args addr n;
  match info_hash with
  | None => mret tt
  | Some h =>
      record_hash h Catalog.SOURCE_GET_PEERS None ;;
      secret ← gets token_secret;
      token ← lift (make_token hmac_sha1 secret addr.1);
      st ← the_family (socket_family n);
      compact ← lift (encode_compact_nodes (recent_nodes st));
      response ← lift (build_get_peers_response t reply_id token compact (nodes_key (socket_family n)));
      send_message n response addr ;; mret tt
  end.

Definition handle_announce_peer_query (t reply_id : bytes) (args : list (pykey * pyval)) (addr : address)
    (n : node_socket) : ST (crawler K) unit :=
  assert_st (is_node_id reply_id) ;;
  info_hash ← read_info_hash t args addr n;
  match info_hash with
  | None => mret tt
  | Some h =>
      secret ← gets token_secret;
      token ← lift (make_token hmac_sha1 secret addr.1);
      let token_valid := has_bytes args (bs "token") token in
      port ← lift (if token_valid then read_announced_port args addr.2 else mret None);
      peer ← lift (match port with
                   | Some p => routable ← is_routable_address addr.1 p;
                               mret (if routable : bool then Some (addr.1, p) else None)
                   | None => mret None
                   end);
      when_st (bool_decide (is_Some peer)) (count announced_peers 1) ;;
      record_hash h Catalog.SOURCE_ANNOUNCE_PEER peer ;;
      if negb token_valid then
        response ← lift (build_error_response t ERROR_PROTOCOL (bs "bad token"));
        send_message n response addr ;; mret tt
      else
        response ← lift (build_ping_response t reply_id);
        send_message n response addr ;; mret tt
  end.

(** [list(self.recent_hashes)\[-SAMPLES_PER_RESPONSE:\]] *)
Definition last_samples (hashes : list bytes) : list bytes :=
  drop (length hashes - SAMPLES_PER_RESPONSE) hashes.

Definition handle_sample_infohashes_query (t reply_id : bytes) (addr : address) (n : node_socket)
    : ST (crawler K) unit :=
  assert_st (is_node_id reply_id) ;;
  hashes ← gets recent_hashes;
  st ← the_family (socket_family n);
  compact ← lift (encode_compact_nodes (recent_nodes st));
  response ← lift (build_sample_infohashes_response t reply_id OWN_SAMPLE_INTERVAL compact
    (Z.of_nat (length hashes)) (concat (last_samples hashes)) (nodes_key (socket_family n)));
  send_message n response addr ;; mret tt.

(** The id of the reply: near the sender's id, or near the info hash of a query
    that has one. *)
Definition reply_id_for (m args : list (pykey * pyval)) (n : node_socket) : res bytes :=
  reply_id ← match py_get args (bs "id") with
             | Some (PBytes id) => if is_node_id id then neighbor_node_id id (own_id n) else mret (own_id n)
             | _ => mret (own_id n)
             end;
  if has_bytes m (bs "q") (bs "get_peers") || has_bytes m (bs "q") (bs "announce_peer") then
    match py_get args (bs "info_hash") with
    | Some (PBytes h) => if is_node_id h then neighbor_node_id h (own_id n) else mret reply_id
    | _ => mret reply_id
    end
  else mret reply_id.

Definition answer_query (m args : list (pykey * pyval)) (t reply_id : bytes) (addr : address)
    (n : node_socket) : ST (crawler K) unit :=
  if has_bytes m (bs "q") (bs "ping") then handle_ping_query t reply_id addr n
  else if has_bytes m (bs "q") (bs "find_node") then handle_find_node_query t reply_id addr n
  else if has_bytes m (bs "q") (bs "get_peers") then handle_get_peers_query t reply_id args addr n
  else if has_bytes m (bs "q") (bs "announce_peer") then handle_announce_peer_query t reply_id args addr n
  else if has_bytes m (bs "q") QUERY_SAMPLE_INFOHASHES then handle_sample_infohashes_query t reply_id addr n
  else
    response ← lift (build_error_response t ERROR_METHOD_UNKNOWN (bs "Method Unknown"));
    send_message n response addr ;; mret tt.

Definition handle_query (m : list (pykey * pyval)) (addr : address) (n : node_socket) : ST (crawler K) unit :=
  assert_st (has_bytes m (bs "y") (bs "q")) ;;
  count queries_received 1 ;;
  match py_get m (bs "t"), py_get m (bs "a") with
  | Some (PBytes t), Some (PDict args) =>
      reply_id ← lift (reply_id_for m args n);
      answer_query m args t reply_id addr n ;;
      add_node (default PNone (py_get args (bs "id"))) addr ;;
      received ← gets (fun s => stats s queries_received);
      assert_st (1 <=? received)%Z
  | _, _ => mret tt
  end.

Definition handle_datagram (data : bytes) (addr : address) (n : node_socket) : ST (crawler K) unit :=
  assert_st (bool_decide (n ∈ node_sockets cfg)) ;;
  count packets_received 1 ;;
  remember_in socket_affinity set_socket_affinity addr n SOCKET_AFFINITY_SIZE ;;
  match decode_bencode depth data with
  | Raise (ValueError _) | Raise RecursionError => mret tt
  | Raise e => raise_st e
  | Ok (PDict m) =>
      (if has_bytes m (bs "y") (bs "r") then handle_response m addr
       else if has_bytes m (bs "y") (bs "q") then handle_query m addr n
       else if has_bytes m (bs "y") (bs "e") then handle_error m addr n
       else mret tt) ;;
      received ← gets (fun s => stats s packets_received);
      assert_st (1 <=? received)%Z
  | Ok _ => mret tt
  end.

(** ** The crawl *)

(** One bootstrap host of a family: its name is resolved unless it is known (and
    was found, or some host was), and every socket asks every address. *)
Definition bootstrap_host (f : family) (retry_failed : bool) (hp : text * Z) : ST (crawler K) unit :=
  resolved ← gets (fun s => default [] (dict_get f (resolved_bootstrap_hosts s)));
  when_st (match dict_get hp.1 resolved with
           | None => true
           | Some addresses => retry_failed && bool_decide (addresses = [])
           end) (
    infos ← reading (fun k => getaddrinfo env k hp.1 hp.2 f);
    addresses ← match resolve_addresses hp.1 hp.2 infos with
                | Ok addresses => mret addresses
                | Raise OSError => mret []
                | Raise e => raise_st e
                end;
    modify (fun s => set_resolved
      (dict_set f (dict_set hp.1 addresses resolved) (resolved_bootstrap_hosts s)) s)) ;;
  resolved ← gets (fun s => default [] (dict_get f (resolved_bootstrap_hosts s)));
  st ← the_family f;
  for_each (default [] (dict_get hp.1 resolved)) (fun ip =>
    for_each (sockets st) (fun n => send_find_node n (Node (own_id n) ip hp.2))).

Definition bootstrap_family (f : family) : ST (crawler K) unit :=
  the_family f ;;
  now ← read_clock;
  update_family f (set_last_bootstrap_time (Some now)) ;;
  resolved ← gets (fun s => default [] (dict_get f (resolved_bootstrap_hosts s)));
  let retry_failed := negb (existsb (fun r : text * list text => negb (bool_decide (r.2 = []))) resolved) in
  for_each (bootstrap_nodes cfg) (bootstrap_host f retry_failed).

(** Without a list of families every family is asked. *)
Definition bootstrap (some : option (list family)) : ST (crawler K) unit :=
  assert_st (negb (bool_decide (bootstrap_nodes cfg = []))) ;;
  known ← gets (fun s => (families s).*1);
  for_each (default known some) bootstrap_family ;;
  all ← gets (fun s => (families s).*2);
  assert_st (bool_decide (is_Some some) ||
             forallb (fun st => bool_decide (is_Some (last_bootstrap_time st))) all).

(** The loop [while state.node_queue and count < limit]. *)
Fixpoint crawl_queue (f : family) (limit : nat) : ST (crawler K) Z :=
  match limit with
  | O => mret 0%Z
  | S limit' =>
      st ← the_family f;
      match node_queue st with
      | [] => mret 0%Z
      | n :: queue =>
          update_family f (set_node_queue queue) ;;
          send_crawl_query n ;;
          sent ← crawl_queue f limit';
          mret (1 + sent)%Z
      end
  end.

Fixpoint crawl_families (all : list family) : ST (crawler K) Z :=
  match all with
  | [] => mret 0%Z
  | f :: all' =>
      st ← the_family f;
      sent ← crawl_queue f (Z.to_nat (batch_size cfg * Z.of_nat (length (sockets st))));
      rest ← crawl_families all';
      mret (sent + rest)%Z
  end.

Definition is_starving (now : Z) (st : family_state) : bool :=
  bool_decide (node_queue st = []) &&
  match last_bootstrap_time st with
  | None => true
  | Some t => (BOOTSTRAP_RETRY_SECONDS <=? now - t)%Z
  end.

Definition crawl_step : ST (crawler K) Z :=
  assert_st (1 <=? batch_size cfg)%Z ;;
  now ← read_clock;
  starving ← gets (fun s => (filter (fun fs : family * family_state => is_starving now fs.2 = true) (families s)).*1);
  when_st (negb (bool_decide (starving = []))) (bootstrap (Some starving)) ;;
  all ← gets (fun s => (families s).*1);
  sent ← crawl_families all;
  assert_st ((0 <=? sent) && (sent <=? batch_size cfg * Z.of_nat (length (node_sockets cfg))))%Z ;;
  mret sent.

Definition seed_nodes (h : bytes) : ST (crawler K) (list node) :=
  assert_st (is_node_id h) ;;
  all ← gets (fun s => (families s).*2);
  let queued := concat ((fun st => take (LOOKUP_SEED_SCAN / length all) (node_queue st)) <$> all) in
  let recent := concat (recent_nodes <$> all) in
  closest ← lift (select_closest_nodes queued h LOOKUP_SEED_COUNT);
  let result := closest ++ recent in
  assert_st (bool_decide (length result <= LOOKUP_SEED_COUNT + RECENT_NODES_SIZE * length all)) ;;
  mret result.

(** The loop over the claimed hashes: a lookup that cannot start gives its claim
    back. *)
Fixpoint start_each (hashes : list bytes) (now : Z) : ST (crawler K) Z :=
  match hashes with
  | [] => mret 0%Z
  | h :: hashes' =>
      hint ← gets (fun s => dict_get h (hint_nodes s));
      seeds ← match hint with
              | Some n => st ← the_family (address_family (node_ip n)); mret (recent_nodes st)
              | None => seed_nodes h
              end;
      started ← run_lookups (start_lookup lookup_filter (limits cfg) h seeds now hint);
      when_st (negb started) (call_catalog (catalog_release_lookup_claim h)) ;;
      rest ← start_each hashes' now;
      mret (if started : bool then 1 + rest else rest)%Z
  end.

Definition start_pending_lookups (now : Z) : ST (crawler K) Z :=
  assert_st (0 <=? now)%Z ;;
  fetchable ← call_catalog catalog_fetchable_count;
  let room := (lookup_fetchable_target cfg - fetchable)%Z in
  free ← run_lookups (free_slots (limits cfg));
  left ← run_lookups (refill (limits cfg) now);
  let slots := Z.min free (Z.min room (left / TOKEN)) in
  if (slots <=? 0)%Z then mret 0%Z
  else
    hashes ← call_catalog (catalog_hashes_needing_peers slots);
    started ← start_each hashes now;
    count lookups_started_count started ;;
    assert_st (started <=? slots)%Z ;;
    mret started.

(** ** The loop of the thread *)

(** What [recvfrom] does: a datagram and its sender, or an error. *)
Inductive received := Received (data : bytes) (addr : address) | Would_block | Connection_reset | Receive_error.

(** The loop over one readable socket; a list of results that ends stands for
    [BlockingIOError]. *)
Fixpoint drain_socket (n : node_socket) (fuel : nat) (results : list received) : ST (crawler K) Z :=
  match fuel, results with
  | S fuel', Received data addr :: results' =>
      handle_datagram data addr n ;;
      handled ← drain_socket n fuel' results';
      mret (1 + handled)%Z
  | S fuel', Connection_reset :: results' => drain_socket n fuel' results'
  | _, _ => mret 0%Z
  end.

Fixpoint drain_sockets (ready : list (node_socket * list received)) : ST (crawler K) Z :=
  match ready with
  | [] => mret 0%Z
  | nr :: ready' =>
      handled ← drain_socket nr.1 MAX_RECEIVE_PER_SOCKET nr.2;
      rest ← drain_sockets ready';
      mret (handled + rest)%Z
  end.

(** [ready]: the sockets that [select] returns and what each then receives. *)
Definition receive_pending (timeout : Z) (ready : list (node_socket * list received)) : ST (crawler K) Z :=
  assert_st (0 <=? timeout)%Z ;;
  modify (set_selector_open true) ;;
  handled ← drain_sockets ready;
  assert_st (0 <=? handled)%Z ;;
  mret handled.

Definition close : ST (crawler K) unit :=
  assert_st (negb (bool_decide (node_sockets cfg = []))) ;;
  modify (set_selector_open false).

Record crawler_stats := CrawlerStats {
  counters : counter -> Z; queue_size : Z; queue_size6 : Z; lookup_stats : lookup_counts }.

(** [self.node_queue] is the queue of the first family. *)
Definition snapshot_stats : ST (crawler K) crawler_stats :=
  s ← get_state;
  looked ← run_lookups (manager_counts (limits cfg));
  mret (CrawlerStats (stats s)
    (match families s with (_, st) :: _ => Z.of_nat (length (node_queue st)) | [] => 0%Z end)
    (match dict_get AF_INET6 (families s) with Some st => Z.of_nat (length (node_queue st)) | None => 0%Z end)
    looked).

(** One turn of the loop of [run], given the time of the next batch; it returns
    the new one. *)
Definition run_turn (next_send : Z) (ready : list (node_socket * list received)) : ST (crawler K) Z :=
  now ← read_clock;
  next_send ← (if (next_send <=? now)%Z then
    crawl_step ;;
    run_lookups (tick (limits cfg) now) ;;
    start_pending_lookups now ;;
    lift (next_batch_time next_send now (interval cfg))
  else mret next_send);
  now ← read_clock;
  receive_pending (Z.max 0 (Z.min (interval cfg) (next_send - now))) ready ;;
  mret next_send.

Fixpoint run_turns (next_send : Z) (turns : list (list (node_socket * list received))) : ST (crawler K) unit :=
  match turns with
  | [] => mret tt
  | ready :: turns' => next_send ← run_turn next_send ready; run_turns next_send turns'
  end.

(** [run], stopped after the given turns. *)
Definition run (turns : list (list (node_socket * list received))) : ST (crawler K) crawler_stats :=
  bootstrap None ;;
  next_send ← read_clock;
  run_turns next_send turns ;;
  run_lookups abort_all ;;
  close ;;
  snapshot_stats.

(** ** The constructor *)

Definition family_members (f : family) : list node_socket :=
  filter (fun n => socket_family n = f) (node_sockets cfg).

Definition initial_families : list (family * family_state) :=
  (fun f => (f, new_family_state (family_members f))) <$>
    filter (fun f => family_members f <> []) [AF_INET; AF_INET6].

(** [DhtCrawler.__init__]; it reads the token secret and the clock. *)
Definition new_crawler (k : K) : res (crawler K) :=
  assert_ (bool_decide (1 <= length (node_sockets cfg)) && (1 <=? batch_size cfg)%Z
    && (0 <? interval cfg)%Z && bool_decide (1 <= max_queue cfg) && (0 <=? lookup_fetchable_target cfg)%Z) ;;
  assert_ (bool_decide (0 < length (bootstrap_nodes cfg))) ;;
  own_id_suffixes (node_sockets cfg) ;;
  let lim := limits cfg in
  assert_ ((1 <=? alpha lim) && (1 <=? max_active lim) && (0 <? queries_per_second lim) && (1 <=? max_per_node lim))%Z ;;
  assert_ (negb (bool_decide (initial_families = []))) ;;
  mret (Crawler initial_families ((fun fs => (fs.1, [])) <$> initial_families)
    (random_at env 0 TOKEN_SECRET_LENGTH) [] [] [] [] [] [] [] (fun _ => 0%Z)
    (new_manager lim (clock_at env 1)) k false 2 []).
End crawler.
