(* ===== verification/DhtCrawlerSafety.v ===== *)
(** The crawler never fails: its invariant, and the methods of [dht_crawler.py]
    that do not run the lookup manager.  Every lemma has the same shape: from a
    state that is in order ([ok]) the method returns in a state that is. *)
From S2P Require Import Prelude PyDict Bencode NodeIdentity AddressText Krpc KrpcReplies DhtLookup.
From S2P Require Import DhtLookupSafety CatalogInterface DhtCrawler.

(** What the operating system keeps to: the clock does not go back, and
    [os.urandom] returns as many bytes as it is asked for. *)
Definition env_ok (env : environment) : Prop :=
  (forall n, 0 <= clock_at env n)%Z /\ (forall n m, n <= m -> (clock_at env n <= clock_at env m)%Z) /\
  (forall n len, length (random_at env n len) = len).

(** What the arguments of the constructor keep to. *)
Definition cfg_ok (cfg : config) : Prop :=
  node_sockets cfg <> [] /\ Forall (fun n => length (own_id n) = NODE_ID_LENGTH) (node_sockets cfg) /\
  (1 <= batch_size cfg)%Z /\ (0 < interval cfg)%Z /\ 1 <= max_queue cfg /\
  (0 <= lookup_fetchable_target cfg)%Z /\ bootstrap_nodes cfg <> [] /\
  Forall (fun hp : text * Z => hp.1 <> [] /\ 0 < hp.2 <= 65535)%Z (bootstrap_nodes cfg) /\ limits_ok (limits cfg).

Section safety.
Context `{AddressText} {K : Type} `{CrawlerCatalogLaws K}.
Context (hmac_sha1 : bytes -> bytes -> bytes) (env : environment) (cfg : config) (depth : nat).
Context (Henv : env_ok env) (Hcfg : cfg_ok cfg)
  (Hhmac : forall secret message, TOKEN_LENGTH <= length (hmac_sha1 secret message)).

Abbreviation minv T m := (inv (lookup_filter cfg) (limits cfg) (clock_at env 1) T m).

(** A node the crawler keeps: it has a compact form, it can be asked, its family
    has sockets, and it passes the filter. *)
Definition good_node (n : node) : Prop :=
  compact_node n /\ (0 < node_port n <= 65535)%Z /\ has_family cfg (address_family (node_ip n)) = true /\
  lookup_filter cfg n = true.

Definition family_ok (f : family) (st : family_state) : Prop :=
  sockets st = family_members cfg f /\ length (node_queue st) <= max_queue cfg /\
  length (recent_nodes st) <= RECENT_NODES_SIZE /\
  Forall (fun n => good_node n /\ address_family (node_ip n) = f) (node_queue st) /\
  Forall (fun n => good_node n /\ address_family (node_ip n) = f) (recent_nodes st).

(** A crawler in order; [P] holds of the claimed hashes. *)
Record crawler_at (P : bytes -> Prop) (s : crawler K) : Prop := {
  c_keys : (families s).*1 = (initial_families cfg).*1;
  c_family : forall f st, dict_get f (families s) = Some st -> family_ok f st;
  c_secret : length (token_secret s) = TOKEN_SECRET_LENGTH;
  c_hashes : Forall (fun h => length h = NODE_ID_LENGTH) (recent_hashes s) /\
    length (recent_hashes s) <= RECENT_HASHES_SIZE;
  c_backoff : table_ok MAX_BACKOFF_ENTRIES (sample_backoff s);
  c_fallback : table_ok MAX_BACKOFF_ENTRIES (fallback_sent s);
  c_queued : table_ok MAX_BACKOFF_ENTRIES (recently_queued s);
  c_hints : table_ok HINT_NODES_SIZE (hint_nodes s) /\
    forall h n, dict_get h (hint_nodes s) = Some n -> good_node n;
  c_affinity : table_ok SOCKET_AFFINITY_SIZE (socket_affinity s) /\
    forall a n, dict_get a (socket_affinity s) = Some n -> n ∈ node_sockets cfg;
  c_windows : table_ok SEND_WINDOW_ENTRIES (send_windows s) /\
    forall ip w, dict_get ip (send_windows s) = Some w -> (1 <= w.2 <= PER_ADDRESS_MAX_PACKETS)%Z;
  c_stats : forall c, (0 <= stats s c)%Z;
  c_manager : minv (clock_at env (readings s)) (lookup_manager s);
  c_catalog : catalog_ok P (catalog s) }.

(** The claims of a crawler between two calls: the active lookups. *)
Definition claims (s : crawler K) (h : bytes) : Prop := h ∈ (active (lookup_manager s)).*1.
Definition crawler_ok (s : crawler K) : Prop := crawler_at (claims s) s.

(** What steps do to the readings and the counters, and those that leave the
    manager alone. *)
Definition later (s s' : crawler K) : Prop :=
  readings s <= readings s' /\ (forall c, stats s c <= stats s' c)%Z.
Definition moved (s s' : crawler K) : Prop := later s s' /\ lookup_manager s' = lookup_manager s.

#[global] Instance later_preorder : PreOrder later.
Proof using. split; [by split|]. intros s s1 s2 [R1 S1] [R2 S2]. split; [lia|]. intros c. specialize (S1 c). specialize (S2 c). lia. Qed.

#[global] Instance moved_preorder : PreOrder moved.
Proof using.
  split; [by split|]. intros s s1 s2 [L1 E1] [L2 E2]. split; [exact (transitivity L1 L2)|congruence].
Qed.

(** The state [s], reached from [s0], is in order. *)
Definition ok (P : bytes -> Prop) (s0 s : crawler K) : Prop := crawler_at P s /\ moved s0 s.

Lemma ok_refl P s : crawler_at P s -> ok P s s.
Proof using. by intros ?; split. Qed.

Lemma ok_trans P s0 s s' : moved s0 s -> ok P s s' -> ok P s0 s'.
Proof using. intros M1 [? M2]. split; [done|]. exact (transitivity M1 M2). Qed.

Lemma ok_at P s0 s : ok P s0 s -> crawler_at P s.
Proof using. by intros []. Qed.

(** ** Elementary steps *)

Lemma clock_nonneg n : (0 <= clock_at env n)%Z.
Proof using Henv. apply Henv. Qed.
Lemma clock_mono n m : n <= m -> (clock_at env n <= clock_at env m)%Z.
Proof using Henv. apply Henv. Qed.

(** The invariant of the manager allows any later time. *)
Lemma minv_later T T' m : minv T m -> (T <= T')%Z -> minv T' m.
Proof using. intros Hm HT. split; try (by destruct Hm). pose proof (i_time _ _ _ _ _ _ Hm). lia. Qed.

Lemma wp_reading {A} (f : nat -> A) P s0 s (Q : A -> crawler K -> Prop) :
  ok P s0 s -> (forall s', ok P s0 s' -> readings s' = S (readings s) -> Q (f (readings s)) s') ->
  wp (reading f) Q s.
Proof using Henv.
  intros [Hs [[Hr Hst] Hm]] HQ. unfold reading. apply wp_bind, wp_gets, wp_bind, wp_modify, wp_ret.
  apply HQ; [|done]. split.
  - split; try (by destruct Hs). simpl. eapply minv_later; [apply (c_manager _ _ Hs)|]. apply clock_mono. lia.
  - split; [|done]. split; [simpl; lia|done].
Qed.

Lemma wp_read_clock P s0 s (Q : Z -> crawler K -> Prop) :
  ok P s0 s ->
  (forall now s', ok P s0 s' -> (0 <= now <= clock_at env (readings s'))%Z -> now = clock_at env (readings s) ->
     Q now s') -> wp (read_clock env) Q s.
Proof using Henv.
  intros Hs HQ. eapply wp_reading; [exact Hs|]. intros s' Hs' Hr. apply HQ; [done| |done].
  split; [apply clock_nonneg|apply clock_mono; lia].
Qed.

Lemma wp_urandom P s0 s n (Q : bytes -> crawler K -> Prop) :
  ok P s0 s -> (forall r s', ok P s0 s' -> length r = n -> Q r s') -> wp (urandom env n) Q s.
Proof using Henv. intros Hs HQ. eapply wp_reading; [exact Hs|]. intros s' Hs' _. apply HQ; [done|apply Henv]. Qed.

Lemma wp_count P s0 s key n (Q : unit -> crawler K -> Prop) :
  ok P s0 s -> (0 <= n)%Z ->
  (forall s', ok P s0 s' -> later s s' -> (n <= stats s' key)%Z -> Q tt s') -> wp (count key n) Q s.
Proof using.
  intros [Hs [[Hr Hst] Hm]] Hn HQ. unfold count. apply wp_modify. pose proof (c_stats _ _ Hs) as H0'.
  assert (forall c, stats s c <= (if decide (c = key) then stats s c + n else stats s c))%Z as Hle
    by (intros c; case_decide; lia).
  apply HQ.
  - split.
    + split; try (by destruct Hs). simpl. intros c. specialize (Hle c). specialize (H0' c). lia.
    + split; [|done]. split; [done|]. intros c. simpl. specialize (Hle c). specialize (Hst c). lia.
  - split; [done|exact Hle].
  - simpl. rewrite decide_True by done. specialize (H0' key). lia.
Qed.

(** Looking at the state. *)
Lemma has_family_member f : has_family cfg f = true <-> family_members cfg f <> [].
Proof using.
  unfold has_family, family_members. rewrite bool_decide_eq_true, list_elem_of_fmap. split.
  - intros (n & -> & Hn) Hnil. assert (n ∈ @nil node_socket) as ?%elem_of_nil; [|done].
    rewrite <-Hnil. by apply list_elem_of_filter.
  - intros Hne. destruct (filter _ _) as [|n l] eqn:Hf; [done|].
    assert (n ∈ n :: l) as Hin by left. rewrite <-Hf in Hin. apply list_elem_of_filter in Hin as [<- ?]. eauto.
Qed.

Lemma initial_keys f : f ∈ (initial_families cfg).*1 <-> has_family cfg f = true.
Proof using.
  rewrite has_family_member. unfold initial_families. rewrite <-list_fmap_compose. unfold compose. simpl.
  rewrite list_fmap_id, list_elem_of_filter. split; [by intros [? _]|]. intros Hne. split; [done|].
  destruct f; [left|right; left].
Qed.

Lemma initial_keys_NoDup : NoDup (initial_families cfg).*1.
Proof using.
  unfold initial_families. rewrite <-list_fmap_compose. unfold compose. simpl. rewrite list_fmap_id.
  apply NoDup_filter, NoDup_cons. split; [by rewrite list_elem_of_singleton|apply NoDup_singleton].
Qed.

Lemma family_known P s f : crawler_at P s -> has_family cfg f = true ->
  exists st, dict_get f (families s) = Some st /\ family_ok f st.
Proof using.
  intros Hs Hf. apply initial_keys in Hf. rewrite <-(c_keys _ _ Hs) in Hf.
  apply dict_get_is_Some in Hf as [st Hst]. exists st. split; [done|]. by apply (c_family _ _ Hs).
Qed.

Lemma family_unknown P s f st : crawler_at P s -> dict_get f (families s) = Some st -> has_family cfg f = true.
Proof using.
  intros Hs Hst. apply initial_keys. rewrite <-(c_keys _ _ Hs). apply dict_get_is_Some. by exists st.
Qed.

Lemma wp_the_family f P s (Q : family_state -> crawler K -> Prop) :
  crawler_at P s -> has_family cfg f = true ->
  (forall st, dict_get f (families s) = Some st -> family_ok f st -> Q st s) -> wp (the_family f) Q s.
Proof using.
  intros Hs Hf HQ. destruct (family_known _ _ _ Hs Hf) as (st & Hst & Hok).
  unfold wp, the_family. rewrite Hst. by apply HQ.
Qed.

Lemma wp_update_family_at f g st P s0 s (Q : unit -> crawler K -> Prop) :
  ok P s0 s -> dict_get f (families s) = Some st -> family_ok f (g st) ->
  (forall s', ok P s0 s' -> Q tt s') -> wp (update_family f g) Q s.
Proof using.
  intros [Hs Hm] Hst Hg HQ. unfold update_family. apply wp_bind.
  unfold wp at 1, the_family. rewrite Hst. apply wp_modify, HQ. split; [|done].
  split; try (by destruct Hs); simpl.
  - rewrite <-(c_keys _ _ Hs). apply dict_set_keys_old. by rewrite Hst.
  - intros f' st'. rewrite dict_get_set. case_decide as Hd; [|apply (c_family _ _ Hs)].
    subst f'. by intros [= <-].
Qed.

Lemma wp_update_family f g P s0 s (Q : unit -> crawler K -> Prop) :
  ok P s0 s -> has_family cfg f = true -> (forall st, family_ok f st -> family_ok f (g st)) ->
  (forall s', ok P s0 s' -> Q tt s') -> wp (update_family f g) Q s.
Proof using.
  intros Hs Hf Hg HQ. destruct (family_known _ _ _ (ok_at _ _ _ Hs) Hf) as (st & Hst & Hok).
  eapply wp_update_family_at; eauto.
Qed.

(** [remember] on a table: the caller says that the new table keeps the state in
    order. *)
Lemma wp_remember_in {L V} `{EqDecision L} (get : crawler K -> list (L * V)) put key value limit s
    (Q : bool -> crawler K -> Prop) :
  1 <= limit -> table_ok limit (get s) ->
  (forall t, table_ok limit t -> dict_get key t = Some value ->
     (forall k v, dict_get k t = Some v -> k = key /\ v = value \/ dict_get k (get s) = Some v) ->
     Q (negb (dict_has key (get s))) (put t s)) ->
  wp (remember_in get put key value limit) Q s.
Proof using.
  intros Hl [Hwf _] HQ. unfold remember_in. apply wp_bind, wp_gets, wp_bind.
  destruct (remember_table (get s) key value limit Hl Hwf) as (t & Ht & Hok & Hk & Hall).
  eapply wp_lift; [exact Ht|]. apply wp_bind, wp_modify, wp_ret. by apply HQ.
Qed.

(** ** Sending *)

Lemma socket_id n : n ∈ node_sockets cfg -> length (own_id n) = NODE_ID_LENGTH.
Proof using Hcfg.
  destruct Hcfg as (_ & Hids & _). rewrite Forall_forall in Hids. apply Hids.
Qed.

Lemma socket_has_family n : n ∈ node_sockets cfg -> has_family cfg (socket_family n) = true.
Proof using. intros Hn. apply bool_decide_eq_true, list_elem_of_fmap. by exists n. Qed.

Lemma wp_pick_node_socket f P s0 s :
  ok P s0 s -> wp (pick_node_socket f) (fun r s' => ok P s0 s' /\ forall n, r = Some n -> n ∈ node_sockets cfg) s.
Proof using.
  intros Hs. unfold pick_node_socket. apply wp_bind, wp_gets.
  destruct (dict_get f (families s)) as [st|] eqn:Hf; [|by apply wp_ret].
  pose proof (family_unknown _ _ _ _ (ok_at _ _ _ Hs) Hf) as Hhas.
  pose proof (c_family _ _ (ok_at _ _ _ Hs) _ _ Hf) as (Hsock & _).
  apply has_family_member in Hhas as Hne.
  destruct (sockets st !! (socket_cycle st mod length (sockets st))) as [n|] eqn:Hn.
  - apply wp_bind. eapply wp_update_family; [exact Hs|done|by intros st' Hok|]. intros s' Hs'.
    rewrite Hsock in Hn. apply list_elem_of_lookup_2, list_elem_of_filter in Hn as [Hfam Hin].
    apply wp_bind, wp_assert; [by apply bool_decide_eq_true|]. apply wp_ret. split; [done|]. by intros n' [= <-].
  - exfalso. apply lookup_ge_None in Hn. rewrite Hsock in Hn.
    assert (length (family_members cfg f) <> 0) as Hl by (by destruct (family_members cfg f)).
    pose proof (Nat.mod_upper_bound (socket_cycle st) _ Hl). lia.
Qed.

Lemma ok_put_window P s0 s t :
  ok P s0 s -> table_ok SEND_WINDOW_ENTRIES t ->
  (forall ip w, dict_get ip t = Some w -> (1 <= w.2 <= PER_ADDRESS_MAX_PACKETS)%Z) ->
  ok P s0 (set_send_windows t s).
Proof using. intros [Hs Hm] Ht Hw. split; [|done]. by split; try (by destruct Hs). Qed.

Lemma wp_allow_send ip P s0 s : ok P s0 s -> wp (allow_send env ip) (fun _ => ok P s0) s.
Proof using Henv.
  intros Hs. unfold allow_send. apply wp_bind. eapply wp_read_clock; [exact Hs|].
  intros now s' Hs' _ _. clear s Hs. rename s' into s, Hs' into Hs. apply wp_bind, wp_gets.
  pose proof (c_windows _ _ (ok_at _ _ _ Hs)) as [Htab Hall].
  assert (wp (remember_in send_windows set_send_windows ip (now, 1%Z) SEND_WINDOW_ENTRIES ;; mret true)
            (fun _ => ok P s0) s) as Hopen.
  { apply wp_bind. eapply wp_remember_in; [unfold SEND_WINDOW_ENTRIES; lia|done|].
    intros t Ht _ Hk. apply wp_ret, ok_put_window; [done..|].
    intros k w [[-> ->]|Hw]%Hk; [unfold PER_ADDRESS_MAX_PACKETS; simpl; lia|by apply (Hall k)]. }
  destruct (dict_get ip (send_windows s)) as [[start n]|] eqn:Hw; [|exact Hopen].
  destruct (_ <=? _)%Z; [exact Hopen|]. specialize (Hall _ _ Hw). simpl in Hall.
  destruct (Z.leb_spec PER_ADDRESS_MAX_PACKETS n); [by apply wp_ret|].
  apply wp_bind, wp_modify. apply wp_bind, wp_assert; [lia|]. apply wp_ret, ok_put_window; [done| |].
  - destruct Htab as [Hwf Hl]. split; [by apply dict_set_wf|]. rewrite length_dict_set.
    rewrite (proj2 (dict_has_get ip (send_windows s))) by eauto. done.
  - intros k w. rewrite dict_get_set. case_decide; [|apply (c_windows _ _ (ok_at _ _ _ Hs))].
    intros [= <-]. simpl. lia.
Qed.

Lemma wp_send_message n m addr P s0 s :
  n ∈ node_sockets cfg -> encodable (PDict m) = true -> ok P s0 s ->
  wp (send_message env cfg n m addr) (fun _ => ok P s0) s.
Proof using Henv.
  intros Hn Hm Hs. unfold send_message. apply wp_bind, wp_assert; [by apply bool_decide_eq_true|].
  apply wp_bind, wp_gets, wp_bind. generalize (readings s). intros asked.
  eapply wp_mono; [by apply wp_allow_send|]. clear s Hs. intros allowed s Hs.
  destruct allowed; simpl negb; cbv iota.
  - destruct (encode_encodable _ Hm) as [payload Hp]. apply wp_bind, (wp_lift _ payload); [done|].
    apply wp_bind. eapply wp_reading; [exact Hs|]. clear Hs. intros s1 Hs _.
    destruct (send_fails env _); [by apply wp_ret|]. apply wp_bind, wp_modify.
    match goal with |- wp _ _ ?s2 => assert (ok P s0 s2) as Hs2 end.
    { destruct Hs as [Hs Hmv]. split; [|done]. by split; try (by destruct Hs). }
    apply wp_bind. eapply wp_count; [exact Hs2|lia|]. intros s3 Hs3 _ Hst.
    apply wp_bind, wp_gets, wp_bind, wp_assert; [lia|]. by apply wp_ret.
  - apply wp_bind. eapply wp_count; [exact Hs|lia|]. intros s1 Hs1 _ _. by apply wp_ret.
Qed.

Lemma neighbor_node_id_returns remote own :
  length remote = NODE_ID_LENGTH -> length own = NODE_ID_LENGTH ->
  exists id, neighbor_node_id remote own = Ok id /\ length id = NODE_ID_LENGTH /\
    take NEIGHBOR_PREFIX_LENGTH id = take NEIGHBOR_PREFIX_LENGTH remote.
Proof using.
  intros Hr Ho. unfold neighbor_node_id. bools. unfold NODE_ID_LENGTH, NEIGHBOR_PREFIX_LENGTH in *.
  assert (length (take 15 remote ++ drop 15 own) = 20) as Hl.
  { rewrite length_app, length_take, length_drop. lia. }
  assert (take 15 (take 15 remote ++ drop 15 own) = take 15 remote) as Ht.
  { rewrite take_app_le by (rewrite length_take; lia). by rewrite take_take. }
  rewrite Ht. bools. by eexists.
Qed.

Lemma random_short P s0 s n (Q : bytes -> crawler K -> Prop) :
  ok P s0 s -> (Z.of_nat n <= 100000)%Z ->
  (forall r s', ok P s0 s' -> length r = n -> short r -> Q r s') -> wp (urandom env n) Q s.
Proof using Henv.
  intros Hs Hn HQ. eapply wp_urandom; [exact Hs|]. intros r s' Hs' Hr. apply HQ; [done..|].
  unfold short. lia.
Qed.

(** The two queries of the crawl differ in the builder and the counter. *)
Lemma wp_send_find_node n target P s0 s :
  n ∈ node_sockets cfg -> length (node_id target) = NODE_ID_LENGTH -> (0 <= node_port target <= 65535)%Z ->
  ok P s0 s -> wp (send_find_node env cfg n target) (fun _ => ok P s0) s.
Proof using Henv Hcfg.
  intros Hn Hid Hport Hs. unfold send_find_node. apply wp_bind, wp_assert.
  { rewrite is_node_id_of by done. simpl. lia. }
  apply wp_bind. eapply random_short; [exact Hs|by unfold TRANSACTION_ID_LENGTH|]. clear s Hs.
  intros t s Hs Ht Hts. apply wp_bind, (wp_lift _ t); [unfold generate_transaction_id; by bools|].
  destruct (neighbor_node_id_returns (node_id target) (own_id n) Hid (socket_id _ Hn)) as (id & Hnid & Hl & _).
  apply wp_bind, (wp_lift _ id); [done|]. apply wp_bind.
  eapply random_short; [exact Hs|by unfold NODE_ID_LENGTH|]. clear s Hs. intros r s Hs Hr _.
  apply wp_bind, (wp_lift _ r); [unfold generate_node_id; by bools|].
  destruct (find_node_query_sends t id r Hts Hl Hr) as (m & [Hm He] & Hq).
  apply wp_bind, (wp_lift _ m); [done|]. apply wp_bind. eapply wp_mono; [by apply wp_send_message|].
  clear s Hs. intros sent s Hs. apply wp_bind. eapply wp_count; [exact Hs|lia|]. intros s' Hs' _ _. by apply wp_assert.
Qed.

Lemma wp_send_sample_infohashes n target P s0 s :
  n ∈ node_sockets cfg -> length (node_id target) = NODE_ID_LENGTH -> (0 <= node_port target <= 65535)%Z ->
  ok P s0 s -> wp (send_sample_infohashes env cfg n target) (fun _ => ok P s0) s.
Proof using Henv Hcfg.
  intros Hn Hid Hport Hs. unfold send_sample_infohashes. apply wp_bind, wp_assert.
  { rewrite is_node_id_of by done. simpl. lia. }
  apply wp_bind. eapply random_short; [exact Hs|by unfold TRANSACTION_ID_LENGTH|]. clear s Hs.
  intros t s Hs Ht Hts. apply wp_bind, (wp_lift _ t); [unfold generate_transaction_id; by bools|].
  destruct (neighbor_node_id_returns (node_id target) (own_id n) Hid (socket_id _ Hn)) as (id & Hnid & Hl & _).
  apply wp_bind, (wp_lift _ id); [done|]. apply wp_bind.
  eapply random_short; [exact Hs|by unfold NODE_ID_LENGTH|]. clear s Hs. intros r s Hs Hr _.
  apply wp_bind, (wp_lift _ r); [unfold generate_node_id; by bools|].
  destruct (sample_infohashes_query_sends t id r Hts Hl Hr) as (m & [Hm He] & Hq).
  apply wp_bind, (wp_lift _ m); [done|]. apply wp_bind. eapply wp_mono; [by apply wp_send_message|].
  clear s Hs. intros sent s Hs. apply wp_bind. eapply wp_count; [exact Hs|lia|]. intros s' Hs' _ _. by apply wp_assert.
Qed.

Lemma wp_send_crawl_query n P s0 s :
  good_node n -> ok P s0 s -> wp (send_crawl_query env cfg n) (fun _ => ok P s0) s.
Proof using Henv Hcfg.
  intros ([Hid _] & Hport & _) Hs. unfold send_crawl_query. apply wp_bind.
  eapply wp_mono; [by apply wp_pick_node_socket|]. clear s Hs. intros picked s [Hs Hin].
  destruct picked as [x|]; [|by apply wp_ret]. specialize (Hin x eq_refl). apply wp_bind, wp_gets, wp_bind.
  eapply (wp_mono _ (fun _ => ok P s0)).
  - destruct (dict_get _ _); [|apply wp_send_sample_infohashes; [done|done|lia|done]].
    apply wp_bind. eapply wp_read_clock; [exact Hs|]. intros now s' Hs' _ _.
    destruct (_ <? _)%Z; [apply wp_send_find_node|apply wp_send_sample_infohashes]; (done || lia).
  - intros [] s' Hs'. apply wp_bind, wp_gets, wp_assert; [|done].
    pose proof (c_stats _ _ (ok_at _ _ _ Hs') packets_sent). lia.
Qed.

Lemma wp_send_lookup_query t n h P s0 s :
  length t = LOOKUP_TRANSACTION_ID_LENGTH -> length h = NODE_ID_LENGTH -> length (node_id n) = NODE_ID_LENGTH ->
  ok P s0 s -> wp (send_lookup_query env cfg t n h) (fun _ => ok P s0) s.
Proof using Henv Hcfg.
  intros Ht Hh Hid Hs. unfold send_lookup_query. apply wp_bind, wp_assert.
  { rewrite is_node_id_of by done. by rewrite bool_decide_eq_true_2. }
  apply wp_bind, wp_gets, wp_bind.
  eapply (wp_mono _ (fun r s' => ok P s0 s' /\ forall n, r = Some n -> n ∈ node_sockets cfg)).
  { destruct (dict_get _ _) as [x|] eqn:Hx; [|by apply wp_pick_node_socket]. apply wp_ret. split; [done|].
    intros n' [= <-]. by apply (c_affinity _ _ (ok_at _ _ _ Hs)) in Hx. }
  clear s Hs. intros picked s [Hs Hin]. destruct picked as [x|]; [|by apply wp_ret].
  specialize (Hin x eq_refl).
  destruct (neighbor_node_id_returns (node_id n) (own_id x) Hid (socket_id _ Hin)) as (id & Hnid & Hl & _).
  apply wp_bind, (wp_lift _ id); [done|].
  destruct (get_peers_query_sends t id h) as (m & [Hm He] & Hq); [|done..|].
  { eapply short_length; [done|by unfold LOOKUP_TRANSACTION_ID_LENGTH]. }
  apply wp_bind, (wp_lift _ m); [done|]. apply wp_bind. eapply wp_mono; [by apply wp_send_message|].
  intros sent s' Hs'. by apply wp_assert.
Qed.

(** ** Nodes *)

(** The source of a datagram: a port of 16 bits, and for a routable address a
    text that the C library reads back. *)
Definition source_ok (a : address) : Prop :=
  (0 <= a.2 <= 65535)%Z /\ (is_routable_address a.1 a.2 = Ok true -> sendable a).

Lemma is_foreign_node_returns id a :
  exists r, is_foreign_node cfg id a = Ok r /\ forall n, r = Some n ->
    id = PBytes (node_id n) /\ node_address n = a /\ length (node_id n) = NODE_ID_LENGTH /\
    has_family cfg (address_family a.1) = true /\ is_routable_address a.1 a.2 = Ok true.
Proof using.
  unfold is_foreign_node. destruct id; try (by exists None).
  destruct (_ && _ && _) eqn:Hc; [|by exists None]. rewrite !andb_true_iff in Hc.
  destruct Hc as [[Hid%is_node_id_true _] Hf]. destruct (is_routable_address_total a.1 a.2) as [r Hr].
  rewrite Hr. cbn [mbind res_bind]. eexists. split; [reflexivity|].
  destruct r; [|done]. intros n [= <-]. split; [done|]. split; [by destruct a|]. done.
Qed.

Lemma foreign_filter id a n : is_foreign_node cfg id a = Ok (Some n) -> lookup_filter cfg n = true.
Proof using.
  intros Hn. destruct (is_foreign_node_returns id a) as (r & Hr & Hgood). rewrite Hn in Hr. injection Hr as <-.
  destruct (Hgood n eq_refl) as (-> & <- & _). unfold lookup_filter. by rewrite Hn.
Qed.

Lemma foreign_good n a :
  lookup_filter cfg n = true -> node_address n = a -> length (node_id n) = NODE_ID_LENGTH ->
  has_family cfg (address_family a.1) = true ->
  is_routable_address a.1 a.2 = Ok true -> source_ok a -> good_node n.
Proof using.
  intros Hfilter <- Hid Hf Hr [Hp Hsend]. split; [split; [done|by apply Hsend]|].
  split; [|done]. by apply routable_port in Hr.
Qed.

Lemma push_bounded_Forall {A} (Q : A -> Prop) n x (q : list A) : Forall Q q -> Q x -> Forall Q (push_bounded n x q).
Proof using. intros Hq Hx. apply Forall_drop, Forall_app. split; [done|by constructor]. Qed.

Lemma length_push_bounded {A} n (x : A) q : length (push_bounded n x q) <= n.
Proof using. unfold push_bounded. rewrite length_drop. lia. Qed.

Lemma last_push_bounded {A} n (x : A) q : 1 <= n -> last (push_bounded n x q) = Some x.
Proof using.
  intros Hn. unfold push_bounded. rewrite length_app. simpl. rewrite drop_app_le by lia. by rewrite last_snoc.
Qed.

Lemma family_ok_queue f st n :
  good_node n -> address_family (node_ip n) = f -> family_ok f st ->
  family_ok f (set_node_queue (push_bounded (max_queue cfg) n (node_queue st)) st).
Proof using.
  intros Hn Hf (A & B & C & D & E). split; [done|]. split; [apply length_push_bounded|].
  split; [done|]. split; [|done]. by apply push_bounded_Forall.
Qed.

Lemma family_ok_recent f st n :
  good_node n -> address_family (node_ip n) = f -> family_ok f st ->
  family_ok f (set_recent_nodes (push_bounded RECENT_NODES_SIZE n (recent_nodes st)) st).
Proof using.
  intros Hn Hf (A & B & C & D & E). split; [done|]. split; [done|].
  split; [apply length_push_bounded|]. split; [done|]. by apply push_bounded_Forall.
Qed.

(** The tables of the crawler, changed one at a time. *)
Ltac one_field := intros [Hs Hm]; intros; split; [by split; try (by destruct Hs)|done].

Lemma ok_put_hashes P s0 s q :
  ok P s0 s -> Forall (fun h => length h = NODE_ID_LENGTH) q -> length q <= RECENT_HASHES_SIZE ->
  ok P s0 (set_recent_hashes q s).
Proof using. one_field. Qed.

Lemma ok_put_backoff P s0 s t : ok P s0 s -> table_ok MAX_BACKOFF_ENTRIES t -> ok P s0 (set_sample_backoff t s).
Proof using. one_field. Qed.

Lemma ok_put_fallback P s0 s t : ok P s0 s -> table_ok MAX_BACKOFF_ENTRIES t -> ok P s0 (set_fallback_sent t s).
Proof using. one_field. Qed.

Lemma ok_put_queued P s0 s t : ok P s0 s -> table_ok MAX_BACKOFF_ENTRIES t -> ok P s0 (set_recently_queued t s).
Proof using. one_field. Qed.

Lemma ok_put_hints P s0 s t :
  ok P s0 s -> table_ok HINT_NODES_SIZE t -> (forall h n, dict_get h t = Some n -> good_node n) ->
  ok P s0 (set_hint_nodes t s).
Proof using. one_field. Qed.

Lemma ok_put_affinity P s0 s t :
  ok P s0 s -> table_ok SOCKET_AFFINITY_SIZE t -> (forall a n, dict_get a t = Some n -> n ∈ node_sockets cfg) ->
  ok P s0 (set_socket_affinity t s).
Proof using. one_field. Qed.

Lemma wp_call_catalog_claims {A} (m : ST K A) (R : A -> Prop) P (P' : A -> bytes -> Prop) s0 s :
  ok P s0 s -> wp m (fun a k => catalog_ok (P' a) k /\ R a) (catalog s) ->
  wp (call_catalog m) (fun a s' => ok (P' a) s0 s' /\ R a) s.
Proof using.
  intros [Hs Hm] Hwp. apply wp_zoom. eapply wp_mono; [exact Hwp|]. intros a k [Hk HR].
  split; [|done]. split; [|done]. by split; try (by destruct Hs).
Qed.

Lemma wp_call_catalog {A} (m : ST K A) (R : A -> Prop) P P' s0 s :
  ok P s0 s -> wp m (fun a k => catalog_ok P' k /\ R a) (catalog s) ->
  wp (call_catalog m) (fun a s' => ok P' s0 s' /\ R a) s.
Proof using. apply (wp_call_catalog_claims m R P (fun _ => P')). Qed.

Lemma backoff_entries : 1 <= MAX_BACKOFF_ENTRIES.
Proof using. unfold MAX_BACKOFF_ENTRIES. lia. Qed.

Lemma wp_add_node id a P s0 s :
  source_ok a -> ok P s0 s -> wp (add_node cfg id a) (fun _ => ok P s0) s.
Proof using.
  intros Ha Hs. unfold add_node. apply wp_bind, wp_gets.
  destruct (is_foreign_node_returns id a) as (r & Hr & Hgood). apply wp_bind.
  eapply (wp_lift _ (if dict_has (address_family a.1) (families s) then r else None));
    [by destruct (dict_has _ _)|].
  destruct (dict_has _ _), r as [n|]; try by apply wp_ret.
  destruct (Hgood n eq_refl) as (_ & Hn & Hid & Hf & Hrt).
  pose proof (foreign_good n a (foreign_filter _ _ _ Hr) Hn Hid Hf Hrt Ha) as Hok.
  assert (address_family (node_ip n) = address_family a.1) as Hfn by by rewrite <-Hn.
  apply wp_bind. eapply wp_remember_in; [apply backoff_entries|apply (c_queued _ _ (ok_at _ _ _ Hs))|].
  intros t Ht _ _. apply (ok_put_queued _ _ _ _ Hs) in Ht. revert Ht.
  generalize (set_recently_queued t s), (negb (negb (dict_has a (recently_queued s)))).
  clear s Hs t. intros s old Hs. destruct old; [by apply wp_ret|].
  apply wp_bind. eapply wp_update_family; [exact Hs|done|by intros; apply family_ok_queue|].
  clear s Hs. intros s Hs.
  apply wp_bind. eapply wp_update_family; [exact Hs|done|by intros; apply family_ok_recent|].
  clear s Hs. intros s Hs. apply wp_bind. eapply wp_the_family; [apply Hs|done|].
  intros st _ (_ & Hl & _). apply wp_assert; [by apply bool_decide_eq_true|done].
Qed.

Lemma wp_crawler_record_hash h source peer P s0 s :
  length h = NODE_ID_LENGTH -> ok P s0 s -> wp (record_hash h source peer) (fun _ => ok P s0) s.
Proof using.
  intros Hh Hs. unfold record_hash. apply wp_bind, wp_assert; [by apply is_node_id_of|].
  apply wp_bind. eapply wp_mono; [apply (wp_call_catalog _ (fun _ => True) P P); [exact Hs|]|].
  { eapply wp_mono; [apply law_record_hash; [done|apply Hs]|]. by intros ? k Hk. }
  clear s Hs. intros u s [Hs _]. apply wp_bind, wp_modify, wp_bind, wp_gets. simpl.
  rewrite last_push_bounded by (unfold RECENT_HASHES_SIZE; lia).
  apply wp_assert; [by apply bool_decide_eq_true|].
  apply ok_put_hashes; [done| |apply length_push_bounded].
  apply push_bounded_Forall; [apply (c_hashes _ _ (ok_at _ _ _ Hs))|done].
Qed.

(** A loop whose body keeps the state in order. *)
Lemma wp_loop {A} (l : list A) (f : A -> ST (crawler K) unit) P s0 s :
  (forall x s, x ∈ l -> ok P s0 s -> wp (f x) (fun _ => ok P s0) s) -> ok P s0 s ->
  wp (for_each l f) (fun _ => ok P s0) s.
Proof using. intros Hf Hs. by apply wp_for_each. Qed.

Lemma foldl_push_Forall (Q : bytes -> Prop) n l q :
  Forall Q l -> Forall Q q -> length q <= n ->
  Forall Q (foldl (fun q h => push_bounded n h q) q l) /\ length (foldl (fun q h => push_bounded n h q) q l) <= n.
Proof using.
  intros Hl. revert q. induction Hl as [|h l Hh Hl IH]; intros q Hq Hn; simpl; [done|].
  apply IH; [by apply push_bounded_Forall|apply length_push_bounded].
Qed.

Lemma wp_handle_samples d a sender P s0 s :
  (forall n, sender = Some n -> good_node n) -> ok P s0 s ->
  wp (handle_samples env d a sender) (fun _ => ok P s0) s.
Proof using Henv.
  intros Hsender Hs. unfold handle_samples.
  assert (exists samples, decode_samples (default PNone (py_get d (bs "samples"))) = Ok samples /\
    Forall (fun h => length h = NODE_ID_LENGTH) samples) as (samples & Hd & Hall).
  { destruct (default _ _) as [| | |b| | | |]; try (by exists []; split; [|constructor]).
    destruct (decode_samples_bytes b) as (l & ? & _ & ? & _). by exists l. }
  apply wp_bind, (wp_lift _ samples); [done|]. apply wp_bind.
  eapply wp_mono; [apply (wp_call_catalog _ (fun _ => True) P P); [exact Hs|]|].
  { eapply wp_mono; [apply law_record_hashes; [done|apply Hs]|]. by intros ? k Hk. }
  clear s Hs. intros u s [Hs _]. apply wp_bind, wp_modify. cbv beta.
  destruct (c_hashes _ _ (ok_at _ _ _ Hs)) as [Hh Hl].
  destruct (foldl_push_Forall _ RECENT_HASHES_SIZE samples (recent_hashes s) Hall Hh Hl) as [Hh' Hl'].
  pose proof (ok_put_hashes _ _ _ _ Hs Hh' Hl') as Hs'. revert Hs'. generalize (set_recent_hashes
    (foldl (fun q h => push_bounded RECENT_HASHES_SIZE h q) (recent_hashes s) samples) s).
  clear s Hs Hh Hl Hh' Hl'. intros s Hs. apply wp_bind.
  eapply (wp_mono _ (fun _ => ok P s0)).
  { destruct sender as [n|]; [|by apply wp_ret]. apply wp_loop; [|done]. clear s Hs. intros h s _ Hs.
    pose proof (c_hints _ _ (ok_at _ _ _ Hs)) as [Htab Hgood]. apply wp_bind.
    eapply wp_remember_in; [unfold HINT_NODES_SIZE; lia|exact Htab|]. intros t Ht _ Hk.
    apply wp_ret, ok_put_hints; [done..|]. intros h' n' [[_ ->]|Hn']%Hk; [by apply Hsender|by eapply Hgood]. }
  clear s Hs. intros u' s Hs. apply wp_bind. eapply wp_count; [exact Hs|lia|]. intros s1 Hs1 _ _. clear s Hs. rename s1 into s, Hs1 into Hs.
  apply wp_bind. eapply wp_read_clock; [exact Hs|]. intros now s' Hs' _ _. clear s Hs. rename s' into s, Hs' into Hs.
  apply wp_bind. eapply wp_remember_in; [apply backoff_entries|apply (c_backoff _ _ (ok_at _ _ _ Hs))|].
  intros t Ht Hk _. apply (ok_put_backoff _ _ _ _ Hs) in Ht. apply wp_bind. unfold count. apply wp_modify.
  apply wp_bind, wp_gets, wp_assert; [simpl; apply dict_has_get; eauto|].
  assert (wp (count samples_received (Z.of_nat (length samples))) (fun _ => ok P s0) (set_sample_backoff t s)) as Hc.
  { eapply wp_count; [exact Ht|lia|auto]. }
  exact Hc.
Qed.

Lemma compact_node_source n : compact_node n -> source_ok (node_address n).
Proof using.
  intros [_ [packed Hp]]. split; [|by exists packed]. simpl in *. unfold encode_compact_address in Hp.
  apply bind_Ok in Hp as (_ & Hr%assert_Ok & _). simpl. lia.
Qed.

Lemma wp_add_response_nodes d P s0 s : ok P s0 s -> wp (add_response_nodes cfg d) (fun _ => ok P s0) s.
Proof using.
  intros Hs. apply wp_loop; [|done]. clear s Hs. intros [key decoder] s Hin Hs. simpl.
  destruct (py_get d key) as [v|]; [|by apply wp_ret]. destruct v as [| | |data| | | |]; try by apply wp_ret.
  assert (exists nodes, decoder data = Ok nodes /\ Forall compact_node nodes) as (nodes & Hd & Hall).
  { rewrite !elem_of_cons, elem_of_nil in Hin. destruct Hin as [[= _ ->]|[[= _ ->]|[]]].
    - destruct (decode_compact_nodes_good COMPACT_NODE_LENGTH data) as (l & ? & _ & ?); [by left|eauto].
    - destruct (decode_compact_nodes_good COMPACT_NODE6_LENGTH data) as (l & Hl & Hlen & ?); [by right|].
      exists l. split; [|done]. unfold decode_compact_nodes6. rewrite Hl. cbn [mbind res_bind].
      by rewrite bool_decide_eq_true_2. }
  apply wp_bind, (wp_lift _ nodes); [done|]. apply wp_loop; [|done]. clear s Hs. intros n s Hn Hs.
  apply wp_add_node; [|done]. rewrite Forall_forall in Hall. by apply compact_node_source, Hall.
Qed.

(** ** Queries *)

Lemma recent_nodes_compact f st : family_ok f st ->
  exists compact, encode_compact_nodes (recent_nodes st) = Ok compact /\ short compact.
Proof using.
  intros (_ & _ & Hl & _ & Hall).
  destruct (encode_compact_nodes_family (bool_decide (f = AF_INET6)) (recent_nodes st)) as (compact & Hc & Hlen).
  - eapply Forall_impl; [exact Hall|]. intros n [[Hn _] Hf]. split; [done|]. subst f. unfold address_family.
    by destruct (bool_decide _).
  - exists compact. split; [done|]. unfold short. rewrite Hlen. unfold RECENT_NODES_SIZE in Hl.
    destruct (bool_decide _); [change COMPACT_NODE6_LENGTH with 38|change COMPACT_NODE_LENGTH with 26]; lia.
Qed.

Lemma nodes_key_ok f : is_nodes_key (nodes_key f) = true.
Proof using. by destruct f. Qed.

Lemma wp_send n r addr P s0 s :
  n ∈ node_sockets cfg -> (exists m, sends r m) -> ok P s0 s ->
  wp (response ← lift r; send_message env cfg n response addr ;; mret tt) (fun _ => ok P s0) s.
Proof using Henv.
  intros Hn (m & Hr & Hm) Hs. apply wp_bind, (wp_lift _ m); [done|]. apply wp_bind.
  eapply wp_mono; [by apply wp_send_message|]. intros sent s' Hs'. by apply wp_ret.
Qed.

Lemma wp_ping_query t reply_id addr n P s0 s :
  n ∈ node_sockets cfg -> short t -> length reply_id = NODE_ID_LENGTH -> ok P s0 s ->
  wp (handle_ping_query env cfg t reply_id addr n) (fun _ => ok P s0) s.
Proof using Henv.
  intros Hn Ht Hid Hs. unfold handle_ping_query. apply wp_bind, wp_assert; [by apply is_node_id_of|].
  apply wp_send; [done| |done]. destruct (ping_response_sends t reply_id) as (m & Hm & _); eauto.
Qed.

Lemma wp_find_node_query t reply_id addr n P s0 s :
  n ∈ node_sockets cfg -> short t -> length reply_id = NODE_ID_LENGTH -> ok P s0 s ->
  wp (handle_find_node_query env cfg t reply_id addr n) (fun _ => ok P s0) s.
Proof using Henv.
  intros Hn Ht Hid Hs. unfold handle_find_node_query. apply wp_bind, wp_assert; [by apply is_node_id_of|].
  apply wp_bind. eapply wp_the_family; [apply Hs|by apply socket_has_family|]. intros st _ Hst.
  destruct (recent_nodes_compact _ _ Hst) as (compact & Hc & Hshort).
  apply wp_bind, (wp_lift _ compact); [done|]. apply wp_send; [done| |done].
  by apply find_node_response_sends; [..|apply nodes_key_ok].
Qed.

(** What [read_info_hash] returns: the info hash of the query, if it is valid. *)
Definition valid_info_hash (args : list (pykey * pyval)) : option bytes :=
  match py_get args (bs "info_hash") with
  | Some (PBytes h) => if is_node_id h then Some h else None
  | _ => None
  end.

Lemma valid_info_hash_length args h : valid_info_hash args = Some h -> length h = NODE_ID_LENGTH.
Proof using.
  unfold valid_info_hash. destruct (py_get args _) as [[]|]; try done.
  destruct (is_node_id b) eqn:Hb; [|done]. intros [= <-]. by apply is_node_id_true.
Qed.

Lemma wp_read_info_hash t args addr n P s0 s :
  n ∈ node_sockets cfg -> short t -> ok P s0 s ->
  wp (read_info_hash env cfg t args addr n) (fun r s' => ok P s0 s' /\ r = valid_info_hash args) s.
Proof using Henv.
  intros Hn Ht Hs. unfold read_info_hash, valid_info_hash.
  assert (wp (response ← lift (build_error_response t ERROR_PROTOCOL (bs "invalid info_hash"));
              send_message env cfg n response addr ;; mret None)
    (fun (r : option bytes) s' => ok P s0 s' /\ r = None) s) as Herr.
  { destruct (error_response_sends t ERROR_PROTOCOL (bs "invalid info_hash")) as (m & Hr & Hm);
      [done|by unfold short|by left|].
    apply wp_bind, (wp_lift _ m); [done|]. apply wp_bind. eapply wp_mono; [by apply wp_send_message|].
    intros sent s' Hs'. by apply wp_ret. }
  destruct (py_get args _) as [v|]; [|exact Herr]. destruct v; try exact Herr.
  destruct (is_node_id b); [|exact Herr]. by apply wp_ret.
Qed.

Lemma make_token_returns secret ip :
  length secret = TOKEN_SECRET_LENGTH -> exists token, make_token hmac_sha1 secret ip = Ok token /\
    length token = TOKEN_LENGTH.
Proof using Hhmac.
  intros Hs. unfold make_token. rewrite (bool_decide_eq_true_2 (0 < length secret)) by (rewrite Hs; unfold TOKEN_SECRET_LENGTH; lia).
  cbn [assert_ mbind res_bind]. assert (length (take TOKEN_LENGTH (hmac_sha1 secret ip)) = TOKEN_LENGTH) as Hl
    by (rewrite length_take; specialize (Hhmac secret ip); lia).
  rewrite bool_decide_eq_true_2 by done. by eexists.
Qed.

Lemma wp_get_peers_query t reply_id args addr n P s0 s :
  n ∈ node_sockets cfg -> short t -> length reply_id = NODE_ID_LENGTH -> ok P s0 s ->
  wp (handle_get_peers_query hmac_sha1 env cfg t reply_id args addr n) (fun _ => ok P s0) s.
Proof using Henv Hhmac.
  intros Hn Ht Hid Hs. unfold handle_get_peers_query. apply wp_bind, wp_assert; [by apply is_node_id_of|].
  apply wp_bind. eapply wp_mono; [by apply wp_read_info_hash|]. clear s Hs. intros r s [Hs ->].
  destruct (valid_info_hash args) as [h|] eqn:Hh; [|by apply wp_ret]. apply valid_info_hash_length in Hh.
  apply wp_bind. eapply wp_mono; [by apply wp_crawler_record_hash|]. clear s Hs. intros u s Hs.
  apply wp_bind, wp_gets. destruct (make_token_returns _ addr.1 (c_secret _ _ (ok_at _ _ _ Hs))) as (token & Htok & Hl).
  apply wp_bind, (wp_lift _ token); [done|].
  apply wp_bind. eapply wp_the_family; [apply Hs|by apply socket_has_family|]. intros st _ Hst.
  destruct (recent_nodes_compact _ _ Hst) as (compact & Hc & Hshort).
  apply wp_bind, (wp_lift _ compact); [done|]. apply wp_send; [done| |done].
  by apply get_peers_response_sends; [..|apply nodes_key_ok].
Qed.

Lemma read_announced_port_returns args port :
  (0 <= port <= 65535)%Z -> exists r, read_announced_port args port = Ok r.
Proof using.
  intros Hp. unfold read_announced_port.
  replace ((0 <=? port) && (port <=? 65535))%Z with true by lia. cbn [assert_ mbind res_bind]. cbv zeta.
  assert (forall v : option pyval, let result := match v with
      | Some (PInt p) => if ((0 <? p) && (p <=? 65535))%Z then Some p else None
      | _ => None
      end in
    (match result with None => true | Some p => (0 <? p) && (p <=? 65535) end)%Z = true) as Hr.
  { intros [[]|]; try done. simpl. by destruct (_ && _)%Z eqn:?. }
  rewrite Hr. by eexists.
Qed.

Lemma wp_announce_peer_query t reply_id args addr n P s0 s :
  n ∈ node_sockets cfg -> short t -> length reply_id = NODE_ID_LENGTH -> (0 <= addr.2 <= 65535)%Z -> ok P s0 s ->
  wp (handle_announce_peer_query hmac_sha1 env cfg t reply_id args addr n) (fun _ => ok P s0) s.
Proof using Henv Hhmac.
  intros Hn Ht Hid Hport Hs. unfold handle_announce_peer_query. apply wp_bind, wp_assert; [by apply is_node_id_of|].
  apply wp_bind. eapply wp_mono; [by apply wp_read_info_hash|]. clear s Hs. intros r s [Hs ->].
  destruct (valid_info_hash args) as [h|] eqn:Hh; [|by apply wp_ret]. apply valid_info_hash_length in Hh.
  apply wp_bind, wp_gets. destruct (make_token_returns _ addr.1 (c_secret _ _ (ok_at _ _ _ Hs))) as (token & Htok & _).
  apply wp_bind, (wp_lift _ token); [done|]. set (valid := has_bytes args (bs "token") token).
  assert (exists port, (if valid then read_announced_port args addr.2 else mret None) = Ok port) as [port Hp].
  { destruct valid; [by apply read_announced_port_returns|by exists None]. }
  cbv zeta. apply wp_bind, (wp_lift _ port); [exact Hp|].
  assert (exists peer, match port with
    | Some p => routable ← is_routable_address addr.1 p; mret (if routable : bool then Some (addr.1, p) else None)
    | None => mret None end = Ok peer) as [peer Hpeer].
  { destruct port as [p|]; [|by exists None]. destruct (is_routable_address_total addr.1 p) as [b ->]. by eexists. }
  apply wp_bind, (wp_lift _ peer); [exact Hpeer|]. apply wp_bind.
  eapply (wp_mono _ (fun _ => ok P s0)).
  { apply wp_when; intros _; [|done]. eapply wp_count; [exact Hs|lia|auto]. }
  clear s Hs Htok. intros u s Hs. apply wp_bind. eapply wp_mono; [by apply wp_crawler_record_hash|].
  clear u s Hs. intros u s Hs. destruct (negb valid).
  - apply wp_send; [done| |done]. apply error_response_sends; [done|by unfold short|by left].
  - apply wp_send; [done| |done]. destruct (ping_response_sends t reply_id) as (m & Hm & _); eauto.
Qed.

Lemma length_concat_ids (l : list bytes) :
  Forall (fun h => length h = NODE_ID_LENGTH) l -> length (concat l) = length l * NODE_ID_LENGTH.
Proof using. induction 1 as [|h l Hh _ IH]; [done|]. cbn [concat length]. rewrite length_app, Hh, IH, Nat.mul_succ_l. lia. Qed.

Lemma wp_sample_infohashes_query t reply_id addr n P s0 s :
  n ∈ node_sockets cfg -> short t -> length reply_id = NODE_ID_LENGTH -> ok P s0 s ->
  wp (handle_sample_infohashes_query env cfg t reply_id addr n) (fun _ => ok P s0) s.
Proof using Henv.
  intros Hn Ht Hid Hs. unfold handle_sample_infohashes_query. apply wp_bind, wp_assert; [by apply is_node_id_of|].
  apply wp_bind, wp_gets. destruct (c_hashes _ _ (ok_at _ _ _ Hs)) as [Hh Hl].
  apply wp_bind. eapply wp_the_family; [apply Hs|by apply socket_has_family|]. intros st _ Hst.
  destruct (recent_nodes_compact _ _ Hst) as (compact & Hc & Hshort).
  apply wp_bind, (wp_lift _ compact); [done|]. apply wp_send; [done| |done].
  assert (Forall (fun h => length h = NODE_ID_LENGTH) (last_samples (recent_hashes s))) as Hh'
    by by apply Forall_drop.
  apply length_concat_ids in Hh'. unfold RECENT_HASHES_SIZE in Hl.
  apply sample_response_sends; [done|done|done|lia| | |apply nodes_key_ok].
  - unfold short. rewrite Hh'. unfold last_samples. rewrite length_drop. unfold NODE_ID_LENGTH. lia.
  - rewrite Hh'. apply Nat.Div0.mod_mul.
Qed.

Lemma reply_id_returns m args n :
  n ∈ node_sockets cfg -> exists id, reply_id_for m args n = Ok id /\ length id = NODE_ID_LENGTH.
Proof using Hcfg.
  intros Hn. pose proof (socket_id n Hn) as Hown. unfold reply_id_for.
  assert (forall r, (exists id, r = Ok id /\ length id = NODE_ID_LENGTH) -> exists id,
    (reply_id ← r;
     if has_bytes m (bs "q") (bs "get_peers") || has_bytes m (bs "q") (bs "announce_peer") then
       match py_get args (bs "info_hash") with
       | Some (PBytes h) => if is_node_id h then neighbor_node_id h (own_id n) else mret reply_id
       | _ => mret reply_id
       end
     else mret reply_id) = Ok id /\ length id = NODE_ID_LENGTH) as Hrest.
  { intros r (id & -> & Hid). cbn [mbind res_bind]. destruct (_ || _); [|by exists id].
    destruct (py_get args _) as [[| | |b| | | |]|]; try by exists id. destruct (is_node_id b) eqn:Hb; [|by exists id].
    apply is_node_id_true in Hb. destruct (neighbor_node_id_returns b _ Hb Hown) as (x & ? & ? & _). by exists x. }
  apply Hrest. destruct (py_get args (bs "id")) as [[| | |b| | | |]|]; try by exists (own_id n).
  destruct (is_node_id b) eqn:Hb; [|by exists (own_id n)].
  apply is_node_id_true in Hb. destruct (neighbor_node_id_returns b _ Hb Hown) as (x & ? & ? & _). by exists x.
Qed.

Lemma wp_answer_query m args t reply_id addr n P s0 s :
  n ∈ node_sockets cfg -> short t -> length reply_id = NODE_ID_LENGTH -> (0 <= addr.2 <= 65535)%Z -> ok P s0 s ->
  wp (answer_query hmac_sha1 env cfg m args t reply_id addr n) (fun _ => ok P s0) s.
Proof using Henv Hhmac.
  intros. unfold answer_query.
  destruct (has_bytes _ _ _); [by apply wp_ping_query|]. destruct (has_bytes _ _ _); [by apply wp_find_node_query|].
  destruct (has_bytes _ _ _); [by apply wp_get_peers_query|].
  destruct (has_bytes _ _ _); [by apply wp_announce_peer_query|].
  destruct (has_bytes _ _ _); [by apply wp_sample_infohashes_query|].
  apply wp_send; [done| |done]. apply error_response_sends; [done|by unfold short|by right].
Qed.

Lemma wp_handle_query m addr n P s0 s :
  n ∈ node_sockets cfg -> source_ok addr -> has_bytes m (bs "y") (bs "q") = true ->
  (forall t, py_get m (bs "t") = Some (PBytes t) -> short t) -> ok P s0 s ->
  wp (handle_query hmac_sha1 env cfg m addr n) (fun _ => ok P s0) s.
Proof using Henv Hcfg Hhmac.
  intros Hn Ha Hq Ht Hs. unfold handle_query. apply wp_bind, wp_assert; [done|].
  apply wp_bind. eapply wp_count; [exact Hs|lia|]. intros s1 Hs1 _ Hcount.
  destruct (py_get m (bs "t")) as [[| | |t| | | |]|]; try by apply wp_ret.
  destruct (py_get m (bs "a")) as [[| | | | | |args|]|]; try by apply wp_ret.
  specialize (Ht t eq_refl). destruct (reply_id_returns m args n Hn) as (id & Hid & Hl).
  apply wp_bind, (wp_lift _ id); [done|]. apply wp_bind.
  eapply wp_mono; [apply (wp_answer_query _ _ _ _ _ _ P s1); [done..|apply Ha|by apply ok_refl, (ok_at P s0)]|].
  intros u s2 Hs2. apply wp_bind. eapply wp_mono; [apply (wp_add_node _ _ P s1); [done|exact Hs2]|]. clear u s2 Hs2. intros u s2 Hs2.
  apply wp_bind, wp_gets. destruct Hs2 as [Hs2 Hm2].
  apply wp_assert; [|split; [done|]; etrans; [apply Hs1|exact Hm2]].
  destruct Hm2 as [[_ Hst] _]. specialize (Hst queries_received). lia.
Qed.
End safety.
