(* ===== verification/DhtCrawlerLookups.v ===== *)
(** The crawler never fails: the methods that run the lookup manager, the crawl
    and the loop of the thread.  Running a method of the manager delivers its
    calls; the claims of the catalog follow the active lookups. *)
From S2P Require Import Prelude PyDict Bencode NodeIdentity AddressText Krpc KrpcReplies DhtLookup.
From S2P Require Import DhtLookupSafety DhtLookupReports DhtLookupAges CatalogInterface DhtCrawler DhtCrawlerSafety.

Section lookups.
Context `{AddressText} {K : Type} `{CrawlerCatalogLaws K}.
Context (hmac_sha1 : bytes -> bytes -> bytes) (env : environment) (cfg : config) (depth : nat).
Context (Henv : env_ok env) (Hcfg : cfg_ok cfg)
  (Hhmac : forall secret message, TOKEN_LENGTH <= length (hmac_sha1 secret message)).
(** A time that has passed: queries are sent later. *)
Context (E : Z).

Abbreviation minv T m := (inv (lookup_filter cfg) (limits cfg) (clock_at env 1) T m).
Abbreviation crawler_at := (crawler_at env cfg).
Abbreviation crawler_ok := (crawler_ok env cfg).
Abbreviation ok := (ok env cfg).

Lemma lim_ok : limits_ok (limits cfg).
Proof using Hcfg. apply Hcfg. Qed.

Lemma crawler_at_mono (P P' : bytes -> Prop) s : crawler_at P s -> (forall h, P' h -> P h) -> crawler_at P' s.
Proof using.
  intros Hs HP. split; try (by destruct Hs). eapply catalog_ok_mono; [exact HP|apply (c_catalog _ _ _ _ Hs)].
Qed.

Lemma ok_mono (P P' : bytes -> Prop) s0 s : ok P s0 s -> (forall h, P' h -> P h) -> ok P' s0 s.
Proof using. intros [Hs Hm] HP. split; [by eapply crawler_at_mono|done]. Qed.

(** A step that leaves the manager alone keeps the crawler in order. *)
Lemma ok_crawler_ok s s' : ok (claims s) s s' -> crawler_ok s' /\ later s s' /\ lookup_manager s' = lookup_manager s.
Proof using.
  intros [Hs [Hl Hm]]. split; [|done]. eapply crawler_at_mono; [exact Hs|].
  unfold claims. by rewrite Hm.
Qed.

(** ** Delivering the manager's calls *)

Lemma wp_deliver_all es : forall P s0 s,
  Forall (event_ok (lookup_filter cfg) (limits cfg)) es -> NoDup (finished_hashes es) ->
  (forall h, h ∈ finished_hashes es -> P h) -> ok P s0 s ->
  wp (for_each es (deliver env cfg)) (fun _ s' => ok (fun h => P h /\ h ∉ finished_hashes es) s0 s') s.
Proof using Henv Hcfg.
  induction es as [|e es IH]; intros P s0 s Hev Hnd HP Hs; cbn [for_each].
  { apply wp_ret. eapply ok_mono; [exact Hs|]. by intros h []. }
  inversion_clear Hev as [|? ? He Hes]. apply wp_bind.
  destruct e as [t n h|h found|h found]; cbn [deliver event_ok] in *.
  - destruct He as (Ht & [Hid%is_node_id_true _]%andb_true_iff & Hh).
    eapply wp_mono; [by apply (wp_send_lookup_query env cfg Henv Hcfg t n h P s0)|]. intros u s1 Hs1.
    by apply IH.
  - destruct He as [Hh _]. eapply wp_mono; [apply (wp_call_catalog env cfg _ (fun _ => True) P P s0); [exact Hs|]|].
    { eapply wp_mono; [apply law_add_peers; [done|apply Hs]|]. by intros ? k Hk. }
    intros u s1 [Hs1 _]. by apply IH.
  - destruct He as [Hh _]. change (finished_hashes (Lookup_finished h found :: es)) with (h :: finished_hashes es) in *.
    apply NoDup_cons in Hnd as [Hn Hnd].
    eapply wp_mono; [apply (wp_call_catalog env cfg _ (fun _ => True) P (fun h' => P h' /\ h' <> h) s0); [exact Hs|]|].
    { eapply wp_mono; [apply law_add_lookup_result; [done|apply HP; left|apply Hs]|]. by intros ? k Hk. }
    intros u s1 [Hs1 _]. eapply wp_mono; [apply IH; [done|done| |exact Hs1]|].
    + intros h' Hh'. split; [apply HP; by right|]. by intros ->.
    + intros u' s2 Hs2. eapply ok_mono; [exact Hs2|]. intros h' [Hh' Hnot].
      rewrite not_elem_of_cons in Hnot. tauto.
Qed.

(** The claims after a method of the manager: of its lookups, those that are
    still active. *)
Definition still_claimed (P : bytes -> Prop) (mine : list bytes) (s' : crawler K) (h : bytes) : Prop :=
  P h /\ (h ∈ mine -> claims s' h).

Lemma wp_run_lookups {A} (m : ST manager A) (started : A -> list bytes) (Q : A -> manager -> Prop) P s :
  crawler_at P s ->
  wp m (fun a m' => minv (clock_at env (readings s)) m' /\ Q a m' /\
    NoDup ((active (lookup_manager s)).*1 ++ started a) /\
    forall h, h ∈ (active (lookup_manager s)).*1 ++ started a -> P h) (lookup_manager s) ->
  wlp m (fun a m' => reports (started a) (lookup_manager s) m') (lookup_manager s) ->
  wp (run_lookups env cfg m) (fun a s' =>
    crawler_at (still_claimed P ((active (lookup_manager s)).*1 ++ started a) s') s' /\
    later s s' /\ Q a (lookup_manager s') /\
    forall h, claims s' h -> h ∈ (active (lookup_manager s)).*1 ++ started a) s.
Proof using Henv Hcfg.
  intros Hs Hwp Hrep. unfold run_lookups. apply wp_bind, wp_gets, wp_bind, wp_zoom.
  eapply wp_mono; [apply (wp_wlp _ _ _ _ Hwp Hrep)|]. clear Hwp Hrep.
  intros a m' [(Hm' & HQ & Hnd & HP) Hr].
  destruct (reports_exact _ _ _ _ _ _ _ _ (c_manager _ _ _ _ Hs) Hm' Hr) as (es & Hes & Hev & Hperm).
  set (s1 := set_lookup_manager m' s).
  assert (crawler_at P s1) as Hs1 by (by split; try (by destruct Hs)).
  apply wp_bind, wp_gets. change (events (lookup_manager s1)) with (events m').
  rewrite Hes, drop_app_length. apply wp_bind.
  set (mine := (active (lookup_manager s)).*1 ++ started a) in *.
  assert (NoDup ((active m').*1 ++ finished_hashes es)) as Hnd' by by rewrite <-Hperm.
  apply NoDup_app in Hnd' as (_ & Hdis & Hnd').
  eapply wp_mono; [apply (wp_deliver_all es P s1 s1); [done|done| |by apply ok_refl]|].
  { intros h Hh. apply HP. rewrite Hperm. apply elem_of_app. by right. }
  intros u s2 [Hs2 [Hl2 Hm2]]. apply wp_ret. split; [|split; [exact Hl2|split; [by rewrite Hm2|]]].
  - eapply crawler_at_mono; [exact Hs2|]. intros h [Hh Hmine]. split; [done|]. intros Hfin.
    assert (h ∈ mine) as Hin by (rewrite Hperm; apply elem_of_app; by right).
    specialize (Hmine Hin). unfold claims in Hmine. rewrite Hm2 in Hmine. by apply (Hdis h).
  - intros h Hh. unfold claims in Hh. rewrite Hm2 in Hh. change (h ∈ mine). rewrite Hperm. apply elem_of_app. by left.
Qed.

(** The ids that a step of the crawler uses, and how its queries age. *)
Definition uses (n : Z) (s s' : crawler K) : Prop :=
  keeps n (lookup_manager s) (lookup_manager s') /\ aging (limits cfg) E (lookup_manager s) (lookup_manager s').
Definition crawler_window (n : Z) (s : crawler K) : Prop := window n (lookup_manager s) /\ (E <= clock_at env (readings s))%Z.

Lemma uses_same s s' : lookup_manager s' = lookup_manager s -> uses 0 s s'.
Proof using. unfold uses. intros ->. split; [apply keeps_refl|reflexivity]. Qed.

Lemma uses_mono n n' s s' : (0 <= n <= n')%Z -> uses n s s' -> uses n' s s'.
Proof using. intros Hn [Hk Ha]. split; [by eapply keeps_mono|done]. Qed.

Lemma uses_trans a b s s1 s2 : (0 <= a)%Z -> (0 <= b)%Z -> uses a s s1 -> uses b s1 s2 -> uses (a + b) s s2.
Proof using. intros Ha Hb [K1 A1] [K2 A2]. split; [by eapply keeps_trans|exact (transitivity A1 A2)]. Qed.

Lemma passed_later (s s' : crawler K) : later s s' -> (E <= clock_at env (readings s))%Z -> (E <= clock_at env (readings s'))%Z.
Proof using Henv. intros [Hr _] HE. pose proof (proj1 (proj2 Henv) _ _ Hr). lia. Qed.

Lemma uses_window a n s s' : (0 <= a <= n)%Z -> (n <= 2 ^ 24)%Z -> uses a s s' -> later s s' -> crawler_window n s ->
  crawler_window (n - a) s'.
Proof using Henv.
  intros Ha Hn [Hu _] Hl [Hw HE]. split; [destruct (Hu n) as [W _]; [lia|auto]|by eapply passed_later].
Qed.

Lemma crawler_window_mono n n' s : crawler_window n s -> (n' <= n)%Z -> crawler_window n' s.
Proof using. intros [Hw HE] Hn. split; [by eapply window_mono|done]. Qed.

(** A method of the manager that starts no lookup. *)
Lemma wp_run_quiet {A} (m : ST manager A) n (Q : A -> manager -> Prop) s :
  crawler_ok s -> frames (reports []) m -> frames (aging (limits cfg) E) m ->
  wp m (fun a m' => minv (clock_at env (readings s)) m' /\ keeps n (lookup_manager s) m' /\ Q a m') (lookup_manager s) ->
  wp (run_lookups env cfg m) (fun a s' => crawler_ok s' /\ later s s' /\ uses n s s' /\ Q a (lookup_manager s')) s.
Proof using Henv Hcfg.
  intros Hs Hf Hag Hwp. eapply wp_mono.
  - apply (wp_run_lookups m (fun _ => []) (fun a m' => (keeps n (lookup_manager s) m' /\ aging (limits cfg) E (lookup_manager s) m') /\ Q a m')
      (claims s)); [done| |apply Hf].
    eapply wp_mono; [apply (wp_wlp _ _ _ _ Hwp (Hag (lookup_manager s)))|]. intros a m' [(Hm' & Hk & HQ) Ha]. split; [done|]. split; [done|].
    rewrite app_nil_r. split; [apply (i_tables _ _ _ _ _ _ (c_manager _ _ _ _ Hs))|done].
  - intros a s' (Hs' & Hl & [Hk HQ] & Hsub). split; [|done]. eapply crawler_at_mono; [exact Hs'|].
    intros h Hh. split; [|done]. apply Hsub in Hh. by rewrite app_nil_r in Hh.
Qed.

Lemma rate_positive : (1 <= queries_per_second (limits cfg))%Z.
Proof using Hcfg. apply lim_ok. Qed.

Lemma alpha_bounds : (1 <= alpha (limits cfg) <= 2 ^ 24)%Z.
Proof using Hcfg. pose proof (alpha_small _ lim_ok). pose proof lim_ok as (? & _). lia. Qed.

(** ** Responses, errors and datagrams *)

Lemma wp_crawler_response m addr s :
  crawler_ok s -> source_ok addr -> has_bytes m (bs "y") (bs "r") = true ->
  crawler_window (alpha (limits cfg)) s ->
  wp (handle_response env cfg m addr) (fun _ s' => crawler_ok s' /\ later s s' /\ uses (alpha (limits cfg)) s s') s.
Proof using Henv Hcfg.
  intros Hs Ha Hr Hw. pose proof alpha_bounds as La. unfold handle_response. apply wp_bind, wp_assert; [done|].
  apply wp_bind. eapply (wp_count env cfg (claims s) s); [by apply ok_refl|lia|]. intros s1 Hs1 _ Hcount.
  apply wp_bind, wp_gets. destruct (ok_crawler_ok _ _ Hs1) as (Hok1 & Hl1 & Hm1).
  assert (wp (match default PNone (py_get m (bs "r")) with
    | PDict d =>
        sender ← lift (is_foreign_node cfg (default PNone (py_get d (bs "id"))) addr);
        (match sender with
         | Some n => update_family (address_family addr.1)
             (fun st => set_recent_nodes (push_bounded RECENT_NODES_SIZE n (recent_nodes st)) st)
         | None => mret tt
         end) ;;
        add_response_nodes cfg d ;;
        when_st (has_key d (bs "samples")) (handle_samples env d addr sender) ;;
        received ← gets (fun s => stats s responses_received);
        assert_st (1 <=? received)%Z
    | _ => mret tt
    end) (fun _ s' => crawler_ok s' /\ later s s' /\ uses (alpha (limits cfg)) s s') s1) as Hplain.
  { eapply (wp_mono _ (fun _ => ok (claims s) s)).
    2: { intros u s' Hs'. destruct (ok_crawler_ok _ _ Hs') as (? & ? & ?). split; [done|]. split; [done|].
         eapply uses_mono; [|by apply uses_same]. lia. }
    destruct (default _ _) as [| | | | | |d|]; try by apply wp_ret.
    destruct (is_foreign_node_returns cfg (default PNone (py_get d (bs "id"))) addr) as (r & Hr' & Hgood).
    apply wp_bind, (wp_lift _ r); [done|]. apply wp_bind.
    assert (forall n, r = Some n -> good_node cfg n /\ address_family (node_ip n) = address_family addr.1 /\
      has_family cfg (address_family addr.1) = true) as Hnode.
    { intros n Hn. destruct (Hgood n Hn) as (_ & Hna & Hid & Hf & Hrt).
      split; [eapply foreign_good; [eapply (foreign_filter cfg); by rewrite Hr', Hn|done..]|]. split; [by rewrite <-Hna|done]. }
    assert (ok (claims s) s1 s1) as Hs1' by (apply ok_refl, Hs1).
    eapply (wp_mono _ (fun _ => ok (claims s) s1)).
    { destruct r as [n|]; [|by apply wp_ret]. destruct (Hnode n eq_refl) as (Hn & Hf & Hhas).
      eapply wp_update_family; [exact Hs1'|done|by intros; apply family_ok_recent|auto]. }
    clear Hs1'. intros u s2 Hs2. apply wp_bind. eapply wp_mono; [by apply wp_add_response_nodes|].
    clear u s2 Hs2. intros u s2 Hs2. apply wp_bind. eapply (wp_mono _ (fun _ => ok (claims s) s1)).
    { apply wp_when; intros _; [|done]. apply wp_handle_samples; [done| |done]. intros n Hn. by apply Hnode. }
    clear u s2 Hs2. intros u s2 [Hs2 Hm2]. apply wp_bind, wp_gets.
    apply wp_assert; [|split; [done|]; etrans; [apply Hs1|exact Hm2]].
    destruct Hm2 as [[_ Hst] _]. specialize (Hst responses_received). lia. }
  destruct (default PNone (py_get m (bs "t"))) as [| | |t| | | |]; try exact Hplain.
  rewrite Hm1. destruct (owns_transaction (PBytes t) (lookup_manager s)) eqn:Howns; [|exact Hplain].
  apply wp_bind. eapply (wp_read_clock env cfg Henv (claims s1) s1); [by apply ok_refl|].
  intros now s2 Hs2 Hnow Hread. destruct (ok_crawler_ok _ _ Hs2) as (Hok2 & Hl2 & Hm2).
  destruct Hw as [Hw HE]. assert (E <= now)%Z as HEnow by (rewrite Hread; by apply (passed_later s)).
  assert (lookup_manager s2 = lookup_manager s) as Hms by congruence.
  eapply wp_mono; [apply (wp_run_quiet _ (alpha (limits cfg)) (fun _ _ => True)); [done|apply frames_handle_response|by apply ages_handle_response; [apply rate_positive|]|]|].
  { rewrite Hms. eapply wp_mono; [apply wp_handle_response;
      [apply lim_ok|rewrite <-Hms; apply Hok2|by apply dict_has_get|exact Hnow|exact Hw]|]. by intros u m' [? ?]. }
  intros u s3 (Hok3 & Hl3 & Hu & _). split; [done|]. split; [|unfold uses in *; by rewrite <-Hms].
  exact (transitivity Hl1 (transitivity Hl2 Hl3)).
Qed.

Lemma wp_crawler_error m addr n s :
  crawler_ok s -> source_ok addr -> n ∈ node_sockets cfg -> has_bytes m (bs "y") (bs "e") = true ->
  crawler_window (alpha (limits cfg)) s ->
  wp (handle_error env cfg m addr n) (fun _ s' => crawler_ok s' /\ later s s' /\ uses (alpha (limits cfg)) s s') s.
Proof using Henv Hcfg.
  intros Hs [Hport _] Hn Hr Hw. pose proof alpha_bounds as La. unfold handle_error. apply wp_bind, wp_assert; [done|].
  apply wp_bind. eapply (wp_count env cfg (claims s) s); [by apply ok_refl|lia|]. intros s1 Hs1 _ Hcount.
  apply wp_bind, wp_gets. destruct (ok_crawler_ok _ _ Hs1) as (Hok1 & Hl1 & Hm1).
  assert (wp (when_st (bool_decide (read_error_code m = Some ERROR_METHOD_UNKNOWN)) (
        now ← read_clock env;
        remember_in sample_backoff set_sample_backoff addr (now + MAX_SAMPLE_INTERVAL * SECOND)%Z MAX_BACKOFF_ENTRIES ;;
        st ← the_family (socket_family n);
        when_st (bool_decide (length (node_queue st) * 2 < max_queue cfg)) (
          is_new ← remember_in fallback_sent set_fallback_sent addr tt MAX_BACKOFF_ENTRIES;
          when_st is_new (send_find_node env cfg n (Node (own_id n) addr.1 addr.2)))) ;;
      received ← gets (fun s => stats s errors_received);
      assert_st (1 <=? received)%Z)
    (fun _ s' => crawler_ok s' /\ later s s' /\ uses (alpha (limits cfg)) s s') s1) as Hplain.
  { eapply (wp_mono _ (fun _ => ok (claims s) s)).
    2: { intros u s' Hs'. destruct (ok_crawler_ok _ _ Hs') as (? & ? & ?). split; [done|]. split; [done|].
         eapply uses_mono; [|by apply uses_same]. lia. }
    assert (ok (claims s) s1 s1) as Hs1' by (apply ok_refl, Hs1). apply wp_bind.
    eapply (wp_mono _ (fun _ => ok (claims s) s1)).
    { apply wp_when; intros _; [|done]. apply wp_bind. eapply wp_read_clock; [done|exact Hs1'|].
      clear Hs1'. intros now s2 Hs2 _ _. apply wp_bind.
      eapply wp_remember_in; [apply backoff_entries|apply (c_backoff _ _ _ _ (ok_at _ _ _ _ _ Hs2))|].
      intros t Ht _ _. apply (ok_put_backoff _ _ _ _ _ _ Hs2) in Ht. apply wp_bind.
      eapply wp_the_family; [apply Ht|by apply socket_has_family|]. intros st _ _.
      apply wp_when; intros _; [|done]. apply wp_bind.
      eapply wp_remember_in; [apply backoff_entries|apply (c_fallback _ _ _ _ (ok_at _ _ _ _ _ Ht))|].
      intros t' Ht' _ _. apply (ok_put_fallback _ _ _ _ _ _ Ht) in Ht'.
      apply wp_when; intros _; [|done].
      by apply wp_send_find_node; [done|done|done|by apply (socket_id cfg Hcfg)|..]. }
    intros u s2 [Hs2 Hm2]. apply wp_bind, wp_gets.
    apply wp_assert; [|split; [done|]; etrans; [apply Hs1|exact Hm2]].
    destruct Hm2 as [[_ Hst] _]. specialize (Hst errors_received). lia. }
  destruct (default PNone (py_get m (bs "t"))) as [| | |t| | | |]; try exact Hplain.
  rewrite Hm1. destruct (owns_transaction (PBytes t) (lookup_manager s)) eqn:Howns; [|exact Hplain].
  apply wp_bind. eapply (wp_read_clock env cfg Henv (claims s1) s1); [by apply ok_refl|].
  intros now s2 Hs2 Hnow Hread. destruct (ok_crawler_ok _ _ Hs2) as (Hok2 & Hl2 & Hm2).
  destruct Hw as [Hw HE]. assert (E <= now)%Z as HEnow by (rewrite Hread; by apply (passed_later s)).
  assert (lookup_manager s2 = lookup_manager s) as Hms by congruence.
  eapply wp_mono; [apply (wp_run_quiet _ (alpha (limits cfg)) (fun _ _ => True)); [done|apply frames_handle_error|by apply ages_handle_error; [apply rate_positive|]|]|].
  { rewrite Hms. eapply wp_mono; [eapply wp_handle_error;
      [apply lim_ok|rewrite <-Hms; apply Hok2|by apply dict_has_get|exact Hnow|exact Hw]|]. by intros u m' [? ?]. }
  intros u s3 (Hok3 & Hl3 & Hu & _). split; [done|]. split; [|unfold uses in *; by rewrite <-Hms].
  exact (transitivity Hl1 (transitivity Hl2 Hl3)).
Qed.

(** A datagram that one [recvfrom] returns. *)
Definition datagram_ok (data : bytes) (addr : address) : Prop :=
  (Z.of_nat (length data) <= MAX_DATAGRAM_SIZE)%Z /\ source_ok addr.

Lemma wp_handle_datagram data addr n s :
  crawler_ok s -> datagram_ok data addr -> n ∈ node_sockets cfg -> crawler_window (alpha (limits cfg)) s ->
  wp (handle_datagram hmac_sha1 env cfg depth data addr n)
    (fun _ s' => crawler_ok s' /\ later s s' /\ uses (alpha (limits cfg)) s s') s.
Proof using Henv Hcfg Hhmac.
  intros Hs [Hlen Ha] Hn Hw. pose proof alpha_bounds as La. unfold handle_datagram.
  apply wp_bind, wp_assert; [by apply bool_decide_eq_true|]. apply wp_bind.
  eapply (wp_count env cfg (claims s) s); [by apply ok_refl|lia|]. intros s1 Hs1 _ Hcount. apply wp_bind.
  pose proof (c_affinity _ _ _ _ (ok_at _ _ _ _ _ Hs1)) as [Htab Hknown].
  eapply wp_remember_in; [unfold SOCKET_AFFINITY_SIZE; lia|exact Htab|]. intros t Ht _ Hk.
  assert (ok (claims s) s (set_socket_affinity t s1)) as Hs2.
  { apply ok_put_affinity; [done..|]. intros a x [[_ ->]|Hx]%Hk; [done|by eapply Hknown]. }
  change (1 <= stats (set_socket_affinity t s1) packets_received)%Z in Hcount.
  revert Hs2 Hcount. generalize (set_socket_affinity t s1). clear s1 Hs1 Htab Hknown t Ht Hk. intros s1 Hs1 Hcount.
  destruct (ok_crawler_ok _ _ Hs1) as (Hok1 & Hl1 & Hm1).
  assert (wp (mret tt) (fun (_ : unit) s' => crawler_ok s' /\ later s s' /\ uses (alpha (limits cfg)) s s') s1) as Hret.
  { apply wp_ret. split; [done|]. split; [done|]. eapply uses_mono; [|by apply uses_same]. lia. }
  destruct (decode_bencode depth data) as [v|e] eqn:Hd.
  2: { destruct (decode_bencode_raises _ _ _ Hd) as [[r ->]| ->]; exact Hret. }
  destruct v as [| | | | | |m|]; try exact Hret. apply wp_bind.
  assert (crawler_window (alpha (limits cfg)) s1) as Hw1 by (split; [by rewrite Hm1; apply Hw|by apply (passed_later s), Hw]).
  eapply (wp_mono _ (fun _ s' => crawler_ok s' /\ later s1 s' /\ uses (alpha (limits cfg)) s1 s')).
  - assert (crawler_ok s1 /\ later s1 s1 /\ uses (alpha (limits cfg)) s1 s1) as Hrefl.
    { split; [done|]. split; [done|]. eapply uses_mono; [|by apply uses_same]. lia. }
    destruct (has_bytes m (bs "y") (bs "r")) eqn:Hr; [by apply wp_crawler_response|].
    destruct (has_bytes m (bs "y") (bs "q")) eqn:Hq; [|destruct (has_bytes m (bs "y") (bs "e")) eqn:He;
      [by apply wp_crawler_error|by apply wp_ret]].
    eapply wp_mono; [apply (wp_handle_query hmac_sha1 env cfg Henv Hcfg Hhmac m addr n (claims s1) s1);
      [done..| |by apply ok_refl]|].
    + intros t Ht. pose proof (decode_bencode_entry_length _ _ _ _ _ Hd Ht).
      unfold short, MAX_DATAGRAM_SIZE in *. lia.
    + intros u s2 Hs2. destruct (ok_crawler_ok _ _ Hs2) as (? & ? & ?). split; [done|]. split; [done|].
      eapply uses_mono; [|by apply uses_same]. lia.
  - intros u s2 (Hok2 & Hl2 & Hu2). apply wp_bind, wp_gets. apply wp_assert.
    + destruct Hl2 as [_ Hst]. specialize (Hst packets_received). lia.
    + split; [done|]. split; [exact (transitivity Hl1 Hl2)|]. unfold uses in *. by rewrite <-Hm1.
Qed.

(** ** The crawl *)

Lemma wp_bootstrap_host f retry hp P s0 s :
  has_family cfg f = true -> hp.1 <> [] -> (0 < hp.2 <= 65535)%Z -> ok P s0 s ->
  wp (bootstrap_host env cfg f retry hp) (fun _ => ok P s0) s.
Proof using Henv Hcfg.
  intros Hf Hhost Hport Hs. unfold bootstrap_host. apply wp_bind, wp_gets, wp_bind.
  eapply (wp_mono _ (fun _ => ok P s0)).
  { apply wp_when; intros _; [|done]. apply wp_bind. eapply wp_reading; [done|exact Hs|].
    intros s1 [Hs1 Hm1] _. generalize (getaddrinfo env (readings s) hp.1 hp.2 f). intros infos. apply wp_bind.
    eapply (wp_mono _ (fun _ s2 => s2 = s1)).
    { unfold resolve_addresses. rewrite bool_decide_eq_false_2 by done.
      replace ((0 <? hp.2) && (hp.2 <=? 65535))%Z with true by lia. cbn [andb negb assert_ mbind res_bind].
      by destruct infos. }
    intros addresses s2 ->. apply wp_modify. split; [|done]. by split; try (by destruct Hs1). }
  clear s Hs. intros u s Hs. apply wp_bind, wp_gets, wp_bind.
  eapply wp_the_family; [apply Hs|done|]. intros st _ (Hsock & _). apply wp_loop; [|done].
  intros ip s1 _ Hs1. apply wp_loop; [|done]. clear s1 Hs1. intros n s1 Hn Hs1.
  rewrite Hsock in Hn. apply list_elem_of_filter in Hn as [_ Hn].
  apply wp_send_find_node; [done|done|done|by apply (socket_id cfg Hcfg)|simpl; lia|done].
Qed.

Lemma wp_bootstrap_family f P s0 s :
  has_family cfg f = true -> ok P s0 s -> wp (bootstrap_family env cfg f) (fun _ => ok P s0) s.
Proof using Henv Hcfg.
  intros Hf Hs. unfold bootstrap_family. apply wp_bind. eapply wp_the_family; [apply Hs|done|]. intros _ _ _.
  apply wp_bind. eapply wp_read_clock; [done|exact Hs|]. intros now s1 Hs1 _ _. clear s Hs.
  apply wp_bind. eapply wp_update_family; [exact Hs1|done|by intros st Hst|]. clear s1 Hs1. intros s Hs.
  apply wp_bind, wp_gets. apply wp_loop; [|done]. intros hp s1 Hhp Hs1.
  destruct Hcfg as (_ & _ & _ & _ & _ & _ & _ & Hports & _). rewrite Forall_forall in Hports.
  destruct (Hports hp Hhp). by apply wp_bootstrap_host.
Qed.

(** Sending leaves the families as they are. *)
Definition same_families (s s' : crawler K) : Prop := families s' = families s.

#[local] Instance same_families_preorder : PreOrder same_families.
Proof using. split; [done|]. intros s s1 s2 E1 E2. unfold same_families in *. congruence. Qed.

#[local] Hint Extern 1 (frames same_families (modify _)) => (apply frames_modify; done) : frames.

Lemma frames_reading {A} (f : nat -> A) : frames same_families (reading f).
Proof using. unfold reading. frames_steps. Qed.
Lemma frames_count key n : frames same_families (count key n).
Proof using. unfold count. frames_steps. Qed.
#[local] Hint Resolve frames_reading frames_count : frames.

Lemma frames_allow_send ip : frames same_families (allow_send env ip).
Proof using. unfold allow_send, read_clock, remember_in. frames_steps. Qed.
#[local] Hint Resolve frames_allow_send : frames.

Lemma frames_send_message n m addr : frames same_families (send_message env cfg n m addr).
Proof using. unfold send_message. frames_steps. Qed.
#[local] Hint Resolve frames_send_message : frames.

Lemma frames_send_find_node n x : frames same_families (send_find_node env cfg n x).
Proof using. unfold send_find_node, urandom. frames_steps. Qed.
#[local] Hint Resolve frames_send_find_node : frames.

Lemma frames_the_family f : frames same_families (the_family f).
Proof using.
  apply (frames_pure _). intros s st s'. unfold the_family. by destruct (dict_get _ _); intros [= _ ->].
Qed.
#[local] Hint Resolve frames_the_family : frames.

Lemma frames_bootstrap_host f retry hp : frames same_families (bootstrap_host env cfg f retry hp).
Proof using. unfold bootstrap_host. frames_steps. Qed.
#[local] Hint Resolve frames_bootstrap_host : frames.

(** Asking a family marks the time; the other families keep theirs. *)
Definition marked (f : family) (s : crawler K) : Prop :=
  exists st, dict_get f (families s) = Some st /\ is_Some (last_bootstrap_time st).

Lemma bootstrap_family_marks f s :
  wlp (bootstrap_family env cfg f) (fun _ s' => marked f s' /\ forall f', marked f' s -> marked f' s') s.
Proof using.
  unfold bootstrap_family, read_clock. apply wlp_bind. eapply wlp_mono; [apply frames_the_family|].
  intros st s1 E1. apply wlp_bind. eapply wlp_mono; [apply frames_reading|]. intros now s2 E2.
  assert (families s2 = families s) as Hfam by (unfold same_families in *; congruence). clear E1 E2 s1.
  apply wlp_bind. unfold update_family. apply wlp_bind. unfold wlp, the_family.
  destruct (dict_get f (families s2)) as [st'|] eqn:Hst; [|done]. cbn [modify].
  change (wlp (for_each (bootstrap_nodes cfg) (bootstrap_host env cfg f
    (negb (existsb (fun r : text * list text => negb (bool_decide (r.2 = [])))
      (default [] (dict_get f (resolved_bootstrap_hosts s2)))))))
    (fun _ s' => marked f s' /\ forall f', marked f' s -> marked f' s')
    (set_families (dict_set f (set_last_bootstrap_time (Some now) st') (families s2)) s2)).
  eapply wlp_mono; [apply (frames_for_each same_families); intros hp; apply frames_bootstrap_host|].
  intros u s3 E3. unfold same_families in E3. simpl in E3. unfold marked. rewrite E3. split.
  - exists (set_last_bootstrap_time (Some now) st'). by rewrite dict_get_set_eq.
  - intros f' (st0 & Hg & Hb). rewrite dict_get_set, Hfam. case_decide; eauto.
Qed.

Lemma wp_bootstrap some P s0 s :
  (forall fs, some = Some fs -> Forall (fun f => has_family cfg f = true) fs) -> ok P s0 s ->
  wp (bootstrap env cfg some) (fun _ => ok P s0) s.
Proof using Henv Hcfg.
  intros Hsome Hs. unfold bootstrap. apply wp_bind, wp_assert.
  { apply negb_true_iff, bool_decide_eq_false. apply Hcfg. }
  apply wp_bind, wp_gets. apply wp_bind.
  set (l := default (families s).*1 some).
  assert (Forall (fun f => has_family cfg f = true) l) as Hl.
  { unfold l. destruct some as [fs|]; [by apply Hsome|]. simpl. rewrite (c_keys _ _ _ _ (ok_at _ _ _ _ _ Hs)).
    apply Forall_forall. intros f. by apply initial_keys. }
  eapply (wp_mono _ (fun _ s' => ok P s0 s' /\ forall f, f ∈ l -> marked f s')).
  - clearbody l. clear Hsome. revert s Hs. induction l as [|f l IH] using rev_ind; intros s Hs.
    { apply wp_ret. split; [done|]. by intros f ?%elem_of_nil. }
    apply Forall_app in Hl as [Hl [Hf _]%Forall_cons].
    unfold wp. rewrite for_each_app. apply (wp_bind (for_each l _) (fun _ => for_each [f] _)).
    eapply wp_mono; [by apply IH|]. intros u s1 [Hs1 Hm1]. cbn [for_each]. apply wp_bind.
    eapply wp_mono; [apply wp_wlp; [exact (wp_bootstrap_family f P s0 s1 Hf Hs1)|apply bootstrap_family_marks]|].
    intros u' s2 [Hs2 [Hm2 Hk]]. apply wp_ret. split; [done|]. intros f' [Hin| ->%list_elem_of_singleton]%elem_of_app; auto.
  - intros u s1 [Hs1 Hm1]. apply wp_bind, wp_gets. apply wp_assert; [|done].
    destruct some as [fs|]; [done|]. simpl. apply forallb_forall. intros st Hin%list_elem_of_In.
    apply list_elem_of_fmap in Hin as ([f st'] & -> & Hin). apply bool_decide_eq_true.
    pose proof (c_keys _ _ _ _ (ok_at _ _ _ _ _ Hs1)) as Hkeys.
    assert (dict_wf (families s1)) as Hwf.
    { unfold dict_wf. rewrite Hkeys. apply initial_keys_NoDup. }
    apply elem_of_dict_get in Hin; [|done]. destruct (Hm1 f) as (st0 & Hg & Hb).
    + unfold l. simpl. rewrite (c_keys _ _ _ _ (ok_at _ _ _ _ _ Hs)), <-Hkeys.
      apply dict_get_is_Some. by exists st'.
    + simpl in *. congruence.
Qed.

Lemma wp_crawl_queue f limit P s0 s :
  has_family cfg f = true -> ok P s0 s ->
  wp (crawl_queue env cfg f limit) (fun sent s' => ok P s0 s' /\ (0 <= sent <= Z.of_nat limit)%Z) s.
Proof using Henv Hcfg.
  intros Hf. revert s. induction limit as [|limit IH]; intros s Hs; cbn [crawl_queue].
  { apply wp_ret. split; [done|lia]. }
  apply wp_bind. eapply wp_the_family; [apply Hs|done|]. intros st Hst (Hsock & Hlq & Hlr & Hq & Hr).
  destruct (node_queue st) as [|n queue] eqn:Hqueue; [apply wp_ret; split; [done|lia]|].
  apply Forall_cons in Hq as [[Hn _] Hq]. apply wp_bind.
  eapply (wp_update_family_at env cfg f _ st); [exact Hs|exact Hst| |].
  { split; [done|]. simpl. split; [simpl in Hlq; lia|done]. }
  clear s Hs Hst. intros s Hs. apply wp_bind. eapply wp_mono; [by apply wp_send_crawl_query|].
  clear s Hs. intros u s Hs. apply wp_bind. eapply wp_mono; [by apply IH|].
  clear s Hs. intros sent s [Hs Hsent]. apply wp_ret. split; [done|lia].
Qed.

Lemma length_members :
  length (family_members cfg AF_INET) + length (family_members cfg AF_INET6) = length (node_sockets cfg).
Proof.
  unfold family_members. induction (node_sockets cfg) as [|n l IH]; [done|]. rewrite !filter_cons.
  destruct (socket_family n); repeat case_decide; try done; simpl; lia.
Qed.

Definition members_of (l : list family) : nat := sum_list_with (fun f => length (family_members cfg f)) l.

Lemma members_of_initial : members_of (initial_families cfg).*1 = length (node_sockets cfg).
Proof.
  rewrite <-length_members. unfold members_of, initial_families. rewrite !filter_cons, filter_nil.
  destruct (decide (family_members cfg AF_INET <> [])) as [| ->%dec_stable];
    destruct (decide (family_members cfg AF_INET6 <> [])) as [| ->%dec_stable]; simpl; lia.
Qed.

Lemma wp_crawl_families l P s0 s :
  Forall (fun f => has_family cfg f = true) l -> ok P s0 s ->
  wp (crawl_families env cfg l)
    (fun sent s' => ok P s0 s' /\ (0 <= sent <= batch_size cfg * Z.of_nat (members_of l))%Z) s.
Proof using Henv Hcfg.
  intros Hl. revert s. induction Hl as [|f l Hf _ IH]; intros s Hs; cbn [crawl_families].
  { apply wp_ret. split; [done|]. change (members_of []) with 0. lia. }
  apply wp_bind. eapply wp_the_family; [apply Hs|done|]. intros st _ (Hsock & _). rewrite Hsock.
  apply wp_bind. eapply wp_mono; [by apply wp_crawl_queue|]. clear s Hs. intros sent s [Hs Hsent].
  apply wp_bind. eapply wp_mono; [by apply IH|]. clear s Hs. intros rest s [Hs Hrest]. apply wp_ret. split; [done|].
  destruct Hcfg as (_ & _ & Hbatch & _). unfold members_of in *. simpl. rewrite Z2Nat.id in Hsent by lia. lia.
Qed.

Lemma wp_crawl_step P s0 s : ok P s0 s -> wp (crawl_step env cfg) (fun _ => ok P s0) s.
Proof using Henv Hcfg.
  intros Hs. unfold crawl_step. destruct Hcfg as (_ & _ & Hbatch & _). apply wp_bind, wp_assert; [lia|].
  apply wp_bind. eapply wp_read_clock; [done|exact Hs|].
  intros now s1 Hs1 _ _. clear s Hs. rename s1 into s, Hs1 into Hs. apply wp_bind, wp_gets, wp_bind.
  set (starving := (filter _ (families s)).*1).
  assert (Forall (fun f => has_family cfg f = true) starving) as Hstarving.
  { apply Forall_forall. intros f Hin. apply initial_keys. rewrite <-(c_keys _ _ _ _ (ok_at _ _ _ _ _ Hs)).
    apply list_elem_of_fmap in Hin as (fs & -> & [_ Hin]%list_elem_of_filter). by apply list_elem_of_fmap_2. }
  clearbody starving. eapply (wp_mono _ (fun _ => ok P s0)).
  { apply wp_when; intros _; [|done]. apply wp_bootstrap; [|done]. by intros fs [= <-]. }
  clear s Hs. intros u s Hs. apply wp_bind, wp_gets. rewrite (c_keys _ _ _ _ (ok_at _ _ _ _ _ Hs)).
  apply wp_bind. eapply wp_mono; [apply wp_crawl_families; [|exact Hs]|].
  { apply Forall_forall. intros f. by apply initial_keys. }
  clear s Hs. intros sent s [Hs Hsent]. rewrite members_of_initial in Hsent.
  apply wp_bind, wp_assert; [lia|]. by apply wp_ret.
Qed.
End lookups.
