(* ===== verification/DhtCrawlerRun.v ===== *)
(** The crawler never fails: starting lookups, and the loop of the thread.  A
    turn of the loop uses at most [turn_ids] transaction ids, and at its start those
    of the pending queries are among the last [ids_in_use]; so the ids suffice for
    as many turns as the thread makes, if the limits leave room for one. *)
From S2P Require Import Prelude PyDict Bencode NodeIdentity AddressText Krpc KrpcReplies DhtLookup.
From S2P Require Import DhtLookupSafety DhtLookupReports DhtLookupAges CatalogInterface DhtCrawler DhtCrawlerSafety.
From S2P Require Import DhtCrawlerLookups.

Section run.
Context `{AddressText} {K : Type} `{CrawlerCatalogLaws K}.
Context (hmac_sha1 : bytes -> bytes -> bytes) (env : environment) (cfg : config) (depth : nat).
Context (Henv : env_ok env) (Hcfg : cfg_ok cfg)
  (Hhmac : forall secret message, TOKEN_LENGTH <= length (hmac_sha1 secret message)).
Context (E : Z).

Abbreviation minv T m := (inv (lookup_filter cfg) (limits cfg) (clock_at env 1) T m).
Abbreviation crawler_at := (crawler_at env cfg).
Abbreviation crawler_ok := (crawler_ok env cfg).
Abbreviation ok := (ok env cfg).
Abbreviation alpha := (alpha (limits cfg)).
Abbreviation max_active := (max_active (limits cfg)).
Abbreviation crawler_window := (crawler_window env E).
Abbreviation uses := (uses cfg E).

(** A crawler in order that has used at most [n] ids since [s]. *)
Definition went (n : Z) (s s' : crawler K) : Prop := crawler_ok s' /\ later s s' /\ uses n s s'.

Lemma went_refl n s : (0 <= n)%Z -> crawler_ok s -> went n s s.
Proof using. intros Hn Hs. split; [done|]. split; [done|]. eapply uses_mono; [|by apply uses_same]. lia. Qed.

Lemma went_trans a b s s1 s2 : (0 <= a)%Z -> (0 <= b)%Z -> went a s s1 -> went b s1 s2 -> went (a + b) s s2.
Proof using.
  intros Ha Hb (_ & L1 & U1) (Hok & L2 & U2). split; [done|].
  split; [exact (transitivity L1 L2)|by eapply uses_trans].
Qed.

Lemma went_mono a b s s' : (0 <= a <= b)%Z -> went a s s' -> went b s s'.
Proof using. intros Hab (? & ? & ?). split; [done|]. split; [done|]. by eapply uses_mono. Qed.

Lemma ok_went s s' : ok (claims s) s s' -> went 0 s s'.
Proof using. intros (? & ? & ?)%ok_crawler_ok. split; [done|]. split; [done|]. by apply uses_same. Qed.

(** A method that needs at most [n] ids returns, in order. *)
Definition runs {A} (n : Z) (m : ST (crawler K) A) (Q : A -> crawler K -> Prop) (s : crawler K) : Prop :=
  crawler_ok s -> crawler_window n s -> wp m (fun a s' => went n s s' /\ Q a s') s.

Lemma runs_bind {A B} (m : ST (crawler K) A) (f : A -> ST (crawler K) B) a b Q R s :
  (0 <= a)%Z -> (0 <= b)%Z -> (a + b <= 2 ^ 24)%Z -> runs a m Q s ->
  (forall x s1, went a s s1 -> Q x s1 -> runs b (f x) R s1) -> runs (a + b) (m ≫= f) R s.
Proof using Henv.
  intros Ha Hb Hab Hm Hf Hs Hw. apply wp_bind. eapply wp_mono; [apply Hm; [done|eapply crawler_window_mono; [exact Hw|lia]]|].
  intros x s1 [Hwent HQ]. pose proof Hwent as (Hs1 & Hl & Hu). eapply wp_mono; [apply (Hf x s1 Hwent HQ Hs1)|].
  - replace b with (a + b - a)%Z by lia. eapply (uses_window env cfg Henv E a (a + b)%Z s); [lia|lia|done|done|done].
  - intros r s2 [H2 HR]. split; [|done]. by eapply went_trans.
Qed.

Lemma runs_mono {A} (m : ST (crawler K) A) a b (Q Q' : A -> crawler K -> Prop) s :
  (0 <= a <= b)%Z -> runs a m Q s -> (forall x s', went a s s' -> Q x s' -> Q' x s') -> runs b m Q' s.
Proof using.
  intros Hab Hm HQ Hs Hw. eapply wp_mono; [apply Hm; [done|eapply crawler_window_mono; [exact Hw|lia]]|].
  intros x s' [Hwent Hx]. split; [by eapply went_mono|auto].
Qed.

(** Steps that leave the manager alone use no ids. *)
Lemma runs_ok {A} (m : ST (crawler K) A) (Q : A -> crawler K -> Prop) s :
  (ok (claims s) s s -> wp m (fun a s' => ok (claims s) s s' /\ Q a s') s) -> runs 0 m Q s.
Proof using.
  intros Hm Hs _. eapply wp_mono; [by apply Hm, ok_refl|]. intros a s' [Hs' HQ]. split; [by apply ok_went|done].
Qed.

(** Those and one more step that uses none. *)
Lemma runs_bind_0 {A B} (m : ST (crawler K) A) (f : A -> ST (crawler K) B) b Q R s :
  (0 <= b <= 2 ^ 24)%Z -> runs 0 m Q s ->
  (forall x s1, went 0 s s1 -> Q x s1 -> runs b (f x) R s1) -> runs b (m ≫= f) R s.
Proof using Henv. intros Hb. replace b with (0 + b)%Z at 2 by lia. apply runs_bind; lia. Qed.

Lemma runs_ret {A} n (a : A) (Q : A -> crawler K -> Prop) s : (0 <= n)%Z -> Q a s -> runs n (mret a) Q s.
Proof using. intros Hn HQ Hs _. apply wp_ret. split; [by apply went_refl|done]. Qed.

Lemma runs_gets {A B} (g : crawler K -> A) (f : A -> ST (crawler K) B) n R s :
  runs n (f (g s)) R s -> runs n (x ← gets g; f x) R s.
Proof using. done. Qed.

Lemma runs_assert {B} (c : bool) (m : ST (crawler K) B) n R s :
  c = true -> runs n m R s -> runs n (assert_st c ;; m) R s.
Proof using. by intros ->. Qed.

(** ** The manager on its own *)

Lemma runs_quiet {A} (m : ST manager A) n (Q : A -> manager -> Prop) s :
  frames (reports []) m -> frames (aging (limits cfg) E) m ->
  (crawler_ok s -> crawler_window n s ->
   wp m (fun a m' => minv (clock_at env (readings s)) m' /\ keeps n (lookup_manager s) m' /\ Q a m') (lookup_manager s)) ->
  runs n (run_lookups env cfg m) (fun a s' => Q a (lookup_manager s')) s.
Proof using Henv Hcfg.
  intros Hf Ha Hwp Hs Hw. eapply wp_mono; [apply (wp_run_quiet env cfg Henv Hcfg E m n Q); auto|].
  intros a s' (? & ? & ? & ?). done.
Qed.

Lemma runs_refill now s :
  (0 <= now <= clock_at env (readings s))%Z ->
  runs 0 (run_lookups env cfg (refill (limits cfg) now)) (fun t _ => 0 <= t)%Z s.
Proof using Henv Hcfg.
  intros Hnow. apply (runs_quiet _ _ (fun t _ => 0 <= t)%Z); [apply frames_refill|apply ages_refill, rate_positive, Hcfg|]. intros Hs _.
  eapply wp_refill; [apply Hcfg|apply (c_manager _ _ _ _ Hs)|exact Hnow|]. intros m' Hm' (t & tt & -> & _).
  split; [done|]. split; [by apply keeps_same|]. apply (i_tokens _ _ _ _ _ _ Hm').
Qed.

Lemma runs_free_slots s :
  runs 0 (run_lookups env cfg (free_slots (limits cfg))) (fun n _ => n <= max_active)%Z s.
Proof using Henv Hcfg.
  apply (runs_quiet _ _ (fun n _ => n <= max_active)%Z); [apply frames_free_slots|apply ages_free_slots|]. intros Hs _.
  eapply wp_free_slots; [apply Hcfg|apply (c_manager _ _ _ _ Hs)|]. split; [apply (c_manager _ _ _ _ Hs)|].
  split; [apply keeps_refl|lia].
Qed.

Lemma runs_manager_counts s :
  runs 0 (run_lookups env cfg (manager_counts (limits cfg)))
    (fun _ s' => lookup_manager s' = lookup_manager s) s.
Proof using Henv Hcfg.
  apply (runs_quiet _ _ (fun _ m' => m' = lookup_manager s)); [apply frames_manager_counts|apply ages_manager_counts|]. intros Hs _.
  eapply wp_manager_counts; [apply Hcfg|apply (c_manager _ _ _ _ Hs)|]. intros c.
  split; [apply (c_manager _ _ _ _ Hs)|]. split; [apply keeps_refl|done].
Qed.

Lemma limits_bounds : (1 <= alpha /\ 1 <= max_active /\ alpha * max_active <= 2 ^ 24)%Z.
Proof using Hcfg. destruct (lim_ok cfg Hcfg) as (? & ? & _ & _ & _ & _ & ?). lia. Qed.

(** After [tick] the pending queries still have time, and the tokens are those of
    its time if they were of none later. *)
Lemma runs_tick now s :
  (0 <= now <= clock_at env (readings s))%Z -> (E <= now)%Z -> (tokens_time (lookup_manager s) <= now)%Z ->
  runs (alpha * max_active) (run_lookups env cfg (tick (limits cfg) now))
    (fun _ s' => since now (lookup_manager s') /\ (tokens_time (lookup_manager s') <= now)%Z) s.
Proof using Henv Hcfg.
  intros Hnow HE Htime Hs Hw. pose proof limits_bounds as (La & _).
  pose proof (i_slots _ _ _ _ _ _ (c_manager _ _ _ _ Hs)) as Hslots.
  revert Hs Hw. change (runs (alpha * max_active) (run_lookups env cfg (tick (limits cfg) now))
    (fun _ s' => since now (lookup_manager s') /\ (tokens_time (lookup_manager s') <= now)%Z) s).
  apply (runs_mono _ (alpha * Z.of_nat (length (active (lookup_manager s)))) _
    (fun _ s' => since now (lookup_manager s') /\ (tokens_time (lookup_manager s') <= now)%Z)); [nia| |done].
  apply (runs_quiet _ _ (fun _ m' => since now m' /\ (tokens_time m' <= now)%Z)); [apply frames_tick|by apply ages_tick, HE; apply rate_positive|].
  intros Hs [Hw _]. assert (minv now (lookup_manager s)) as Hinv by (destruct (c_manager _ _ _ _ Hs); by split).
  eapply wp_mono; [apply (wp_wlp _ _ _ _ (wp_tick _ _ _ _ (lim_ok cfg Hcfg) _ now Hinv ltac:(lia) Hw)
    (tick_since (limits cfg) now _ (rate_positive cfg Hcfg)))|].
  intros u m' [(Hm' & Hk & _) Hsince]. pose proof (i_time _ _ _ _ _ _ Hm') as Ht.
  split; [destruct Hm'; split; try done; lia|]. by split.
Qed.

Lemma runs_abort_all s :
  runs 0 (run_lookups env cfg abort_all) (fun _ s' => active (lookup_manager s') = []) s.
Proof using Henv Hcfg.
  apply (runs_quiet _ _ (fun _ m' => active m' = [])); [apply frames_abort_all|apply ages_abort_all|]. intros Hs _.
  eapply wp_mono; [eapply wp_abort_all, (c_manager _ _ _ _ Hs)|]. intros u m' (? & ? & _ & ?). done.
Qed.
(** ** Starting lookups *)

Lemma families_ok P s st : crawler_at P s -> st ∈ (families s).*2 -> exists f, family_ok cfg f st.
Proof using.
  intros Hs Hin. apply list_elem_of_fmap in Hin as ([f st'] & -> & Hin). exists f.
  apply (c_family _ _ _ _ Hs). apply elem_of_dict_get; [|done]. unfold dict_wf.
  rewrite (c_keys _ _ _ _ Hs). apply initial_keys_NoDup.
Qed.

Lemma length_recent_nodes (all : list family_state) :
  (forall st, st ∈ all -> length (recent_nodes st) <= RECENT_NODES_SIZE) ->
  length (concat (recent_nodes <$> all)) <= RECENT_NODES_SIZE * length all.
Proof using.
  intros Hall. induction all as [|st all IH]; [done|]. cbn [fmap list_fmap concat length]. rewrite length_app.
  pose proof (Hall st ltac:(left)). specialize (IH ltac:(intros; apply Hall; by right)). lia.
Qed.

Lemma wp_seed_nodes h P s (Q : list node -> crawler K -> Prop) :
  crawler_at P s -> length h = NODE_ID_LENGTH -> (forall seeds, Q seeds s) -> wp (seed_nodes h) Q s.
Proof using.
  intros Hs Hh HQ. unfold seed_nodes. apply wp_bind, wp_assert; [by apply is_node_id_of|]. apply wp_bind, wp_gets.
  cbv zeta. set (all := (families s).*2).
  assert (forall st, st ∈ all -> exists f, family_ok cfg f st) as Hall by (intros st; by apply (families_ok P)).
  apply wp_bind. eapply wp_lift.
  - apply select_closest_nodes_eq; [done|]. apply Forall_forall. intros n Hn.
    apply list_elem_of_In, in_concat in Hn as (l & Hl%list_elem_of_In & Hn%list_elem_of_In).
    apply list_elem_of_fmap in Hl as (st & -> & Hst). destruct (Hall st Hst) as (f & _ & _ & _ & Hq & _).
    apply elem_of_take in Hn as (i & Hn & _). apply list_elem_of_lookup_2 in Hn.
    rewrite Forall_forall in Hq. by apply Hq.
  - apply wp_bind, wp_assert; [|by apply wp_ret]. apply bool_decide_eq_true. rewrite length_app, length_take.
    assert (length (concat (recent_nodes <$> all)) <= RECENT_NODES_SIZE * length all); [|lia].
    apply length_recent_nodes. intros st Hst. by destruct (Hall st Hst) as (f & _ & _ & ? & _).
Qed.

(** The nodes a lookup starts from: reading them changes nothing. *)
Lemma wp_seeds h hint P s (Q : list node -> crawler K -> Prop) :
  crawler_at P s -> length h = NODE_ID_LENGTH -> (forall n, hint = Some n -> good_node cfg n) ->
  (forall seeds, Q seeds s) ->
  wp (match hint with
      | Some n => st ← the_family (address_family (node_ip n)); mret (recent_nodes st)
      | None => seed_nodes h
      end) Q s.
Proof using.
  intros Hs Hh Hhint HQ. destruct hint as [n|]; [|by eapply wp_seed_nodes].
  destruct (Hhint n eq_refl) as (_ & _ & Hf & _). apply wp_bind. eapply wp_the_family; [exact Hs|exact Hf|].
  intros st _ _. by apply wp_ret.
Qed.

(** The claims while lookups are being started: those of the active lookups, and
    the hashes whose turn is still to come. *)
Definition starting (hashes : list bytes) (s : crawler K) : Prop :=
  crawler_at (fun h => claims s h \/ h ∈ hashes) s /\ NoDup hashes /\
  Forall (fun h => length h = NODE_ID_LENGTH /\ ~ claims s h) hashes.

Lemma starting_nil s : starting [] s <-> crawler_ok s.
Proof using.
  split.
  - intros (Hs & _). eapply crawler_at_mono; [exact Hs|]. by left.
  - intros Hs. split; [|split; [apply NoDup_nil_2|done]]. eapply crawler_at_mono; [exact Hs|].
    by intros h [?|?%elem_of_nil].
Qed.

Lemma wp_start_one h hashes now seeds hint s :
  starting (h :: hashes) s -> (0 <= now <= clock_at env (readings s))%Z -> (E <= now)%Z -> crawler_window alpha s ->
  wp (run_lookups env cfg (start_lookup (lookup_filter cfg) (limits cfg) h seeds now hint))
    (fun started s' => starting (if started then hashes else h :: hashes) s' /\ later s s' /\ uses alpha s s') s.
Proof using Henv Hcfg.
  intros (Hs & Hnd & Hall) Hnow HE [Hw _]. pose proof Hall as [[Hh Hn] Hrest]%Forall_cons.
  pose proof Hnd as [Hnot Hnd']%NoDup_cons. assert (dict_get h (active (lookup_manager s)) = None) as Hnone.
  { apply eq_None_not_Some. by rewrite dict_get_is_Some. }
  eapply wp_mono; [apply (wp_run_lookups env cfg Henv Hcfg _ (fun b : bool => if b then [h] else [])
    (fun _ m' => keeps alpha (lookup_manager s) m' /\ aging (limits cfg) E (lookup_manager s) m') (fun h' => claims s h' \/ h' ∈ h :: hashes))|].
  - exact Hs.
  - eapply wp_mono; [apply wp_wlp; [apply wp_start_lookup;
      [apply lim_ok, Hcfg|apply (c_manager _ _ _ _ Hs)|exact Hh|exact Hnow|exact Hw]|
      apply (start_lookup_ages _ _ E (rate_positive cfg Hcfg)); [exact HE|]]|].
    { destruct (lookups (lookup_manager s) !! next_lookup (lookup_manager s)) eqn:Hl; [|done].
      apply (i_heap _ _ _ _ _ _ (c_manager _ _ _ _ Hs)) in Hl. lia. }
    intros started m' [(Hm' & Hk & _) Hag]. split; [done|]. split; [done|].
    pose proof (i_tables _ _ _ _ _ _ (c_manager _ _ _ _ Hs)) as [Hwf _]. split.
    + apply NoDup_app. split; [exact Hwf|]. destruct started; [|split; [by intros ? _ ?%elem_of_nil|apply NoDup_nil_2]].
      split; [|apply NoDup_singleton]. intros h' Hh' ->%list_elem_of_singleton. by apply Hn.
    + intros h' [Hh'|Hh']%elem_of_app; [by left|]. destruct started; [|by apply elem_of_nil in Hh'].
      apply list_elem_of_singleton in Hh' as ->. right. left.
  - apply reports_start_lookup.
  - intros started s' (Hs' & Hl & Hk & Hsub). split; [|split; [exact Hl|exact Hk]].
    assert (forall h', h' ∈ hashes -> ~ (h' ∈ (active (lookup_manager s)).*1 ++ (if started then [h] else []))) as Hmine.
    { intros h' Hin [Hact|Hst]%elem_of_app; rewrite Forall_forall in Hrest; [by apply (Hrest h')|].
      destruct started; [|by apply elem_of_nil in Hst]. by apply list_elem_of_singleton in Hst as ->. }
    assert (starting hashes s' /\ (started = false -> ~ claims s' h)) as [Hst Hno].
    { split; [split; [|split; [done|]]|].
      - eapply crawler_at_mono; [exact Hs'|]. intros h' [Hc|Hin]; split.
        + apply Hsub in Hc as [?|Hin]%elem_of_app; [by left|]. destruct started; [|by apply elem_of_nil in Hin].
          apply list_elem_of_singleton in Hin as ->. right. left.
        + done.
        + right. by right.
        + intros Hin'. by apply Hmine in Hin'.
      - eapply Forall_impl; [apply Forall_forall; intros h' Hin; exact Hin|]. intros h' Hin.
        rewrite Forall_forall in Hrest. split; [by apply Hrest|]. intros Hc%Hsub. exact (Hmine h' Hin Hc).
      - intros ->. intros Hc%Hsub. rewrite app_nil_r in Hc. by apply Hn. }
    destruct started; [done|]. specialize (Hno eq_refl). destruct Hst as (_ & _ & Hst). split; [|split; [done|]].
    + eapply crawler_at_mono; [exact Hs'|]. intros h' [Hc|Hin]; split; [|done|by right|].
      * apply Hsub in Hc. rewrite app_nil_r in Hc. by left.
      * intros Hact. rewrite app_nil_r in Hact. rewrite Forall_forall in Hall. by destruct (Hall h' Hin) as [_ []].
    + by constructor.
Qed.
(** A lookup that did not start gives its claim back. *)
Lemma wp_release_claim h hashes s :
  starting (h :: hashes) s ->
  wp (call_catalog (catalog_release_lookup_claim h)) (fun _ s' => starting hashes s' /\ moved s s') s.
Proof using Henv Hcfg.
  intros (Hs & [Hnot Hnd]%NoDup_cons & [[Hh Hn] Hrest]%Forall_cons).
  set (P := fun h' => claims s h' \/ h' ∈ h :: hashes) in *.
  eapply wp_mono; [apply (wp_call_catalog env cfg _ (fun _ => True) P (fun h' => P h' /\ h' <> h) s); [by apply ok_refl|]|].
  - eapply wp_mono; [apply (law_release_lookup_claim P); [done|unfold P; right; left|apply (c_catalog _ _ _ _ Hs)]|]. by intros u k Hk.
  - intros u s' [[Hs' Hm] _]. split; [|done]. assert (forall h', claims s' h' <-> claims s h') as Hc.
    { intros h'. unfold claims. by destruct Hm as [_ ->]. }
    split; [|split; [done|]].
    + eapply crawler_at_mono; [exact Hs'|]. intros h' [Hc'%Hc|Hin]; (split; [|intros ->; done]); [by left|right; by right].
    + eapply Forall_impl; [exact Hrest|]. intros h' [Hl Hnc]. split; [done|]. by rewrite Hc.
Qed.

Lemma later_clock now (s s' : crawler K) :
  later s s' -> (0 <= now <= clock_at env (readings s))%Z -> (0 <= now <= clock_at env (readings s'))%Z.
Proof using Henv.
  intros [Hr _] Hnow. destruct Henv as (_ & Hmono & _). specialize (Hmono _ _ Hr). lia.
Qed.

Lemma wp_start_each now hashes : forall s,
  starting hashes s -> (0 <= now <= clock_at env (readings s))%Z -> (E <= now)%Z ->
  (alpha * Z.of_nat (length hashes) <= 2 ^ 24)%Z -> crawler_window (alpha * Z.of_nat (length hashes)) s ->
  wp (start_each env cfg hashes now) (fun n s' =>
    went (alpha * Z.of_nat (length hashes)) s s' /\ (0 <= n <= Z.of_nat (length hashes))%Z) s.
Proof using Henv Hcfg.
  pose proof limits_bounds as (La & _).
  induction hashes as [|h hashes IH]; intros s Hs Hnow HE Hbound Hw; cbn [start_each].
  { apply wp_ret. split; [apply went_refl; [lia|by apply starting_nil]|done]. }
  replace (alpha * Z.of_nat (length (h :: hashes)))%Z with (alpha + alpha * Z.of_nat (length hashes))%Z in *
    by (simpl length; lia).
  pose proof Hs as (Hat & _ & [[Hh _] _]%Forall_cons). apply wp_bind, wp_gets. apply wp_bind.
  eapply wp_seeds; [exact Hat|exact Hh|by apply (c_hints _ _ _ _ Hat)|]. intros seeds. apply wp_bind.
  eapply wp_mono; [apply wp_start_one; [exact Hs|exact Hnow|exact HE|by eapply crawler_window_mono; [exact Hw|lia]]|].
  intros started s1 (Hs1 & Hl1 & Hu1). apply wp_bind.
  eapply (wp_mono _ (fun _ s2 => starting hashes s2 /\ moved s1 s2)).
  { apply wp_when; intros Hb; destruct started; try discriminate; [by apply wp_release_claim|by split]. }
  intros u s2 [Hs2 [Hl2 Hm2]]. pose proof (transitivity Hl1 Hl2) as Hl.
  assert (uses alpha s s2) as Hu by (unfold DhtCrawlerLookups.uses in *; by rewrite Hm2).
  apply wp_bind. eapply wp_mono; [apply IH; [exact Hs2|by eapply later_clock|exact HE|lia|]|].
  - replace (alpha * Z.of_nat (length hashes))%Z with (alpha + alpha * Z.of_nat (length hashes) - alpha)%Z by lia.
    eapply (uses_window env cfg Henv E alpha _ s); [lia|lia|exact Hu|exact Hl|exact Hw].
  - intros rest s3 [(Hok & Hl3 & Hu3) Hrest]. apply wp_ret. split.
    + split; [done|]. split; [exact (transitivity Hl Hl3)|]. eapply (uses_trans cfg E _ _ s s2); [lia|lia|done|done].
    + simpl length. destruct started; lia.
Qed.

Lemma wp_start_hashes slots now s :
  (0 <= now <= clock_at env (readings s))%Z -> (E <= now)%Z -> (1 <= slots <= max_active)%Z ->
  runs (alpha * max_active) (
    hashes ← call_catalog (catalog_hashes_needing_peers slots);
    started ← start_each env cfg hashes now;
    count lookups_started_count started ;;
    assert_st (started <=? slots)%Z ;;
    mret started) (fun _ _ => True) s.
Proof using Henv Hcfg.
  intros Hnow HE Hslots Hs Hw. pose proof limits_bounds as (La & Lm & L24). apply wp_bind.
  eapply wp_mono; [apply (wp_call_catalog_claims env cfg _ (fun hs => NoDup hs /\ (Z.of_nat (length hs) <= slots)%Z /\
    Forall (fun h => length h = NODE_ID_LENGTH /\ ~ claims s h) hs) (claims s) (fun hs h => claims s h \/ h ∈ hs) s)|].
  { by apply ok_refl. }
  { eapply wp_mono; [apply law_hashes_needing_peers; [lia|apply (c_catalog _ _ _ _ Hs)]|]. by intros hs k (? & ? & ? & ?). }
  intros hs s1 [[Hs1 [Hl1 Hm1]] (Hnd & Hlen & Hall)]. assert (forall h, claims s1 h <-> claims s h) as Hc.
  { intros h. unfold claims. by rewrite Hm1. }
  apply wp_bind. eapply wp_mono; [apply wp_start_each; [|by eapply later_clock|exact HE|nia|]|].
  - split; [|split; [done|]].
    + eapply crawler_at_mono; [exact Hs1|]. intros h [?%Hc|?]; auto.
    + eapply Forall_impl; [exact Hall|]. intros h [? Hn]. split; [done|]. by rewrite Hc.
  - split; [rewrite Hm1; eapply window_mono; [apply Hw|nia]|eapply passed_later; [exact Henv|exact Hl1|apply Hw]].
  - intros n s2 [Hw2 Hn]. assert (went (alpha * max_active) s s2) as Hwent.
    { destruct Hw2 as (? & Hl2 & Hu2). split; [done|]. split; [exact (transitivity Hl1 Hl2)|].
      eapply (uses_mono cfg E (alpha * Z.of_nat (length hs))%Z); [nia|]. unfold DhtCrawlerLookups.uses in *. by rewrite <-Hm1. }
    pose proof Hwent as (Hok2 & _). apply wp_bind.
    eapply (wp_count env cfg (claims s2) s2); [by apply ok_refl|lia|]. intros s3 Hs3 _ _.
    apply wp_bind, wp_assert; [lia|]. apply wp_ret. split; [|done].
    replace (alpha * max_active)%Z with (alpha * max_active + 0)%Z by lia.
    eapply went_trans; [nia|lia|exact Hwent|by apply ok_went].
Qed.

Lemma runs_start_pending now s :
  (0 <= now <= clock_at env (readings s))%Z -> (E <= now)%Z ->
  runs (alpha * max_active) (start_pending_lookups env cfg now) (fun _ _ => True) s.
Proof using Henv Hcfg.
  intros Hnow HE. pose proof limits_bounds as (La & Lm & L24). unfold start_pending_lookups.
  assert (0 <= alpha * max_active <= 2 ^ 24)%Z as Hb by nia. apply runs_assert; [lia|].
  apply (runs_bind_0 _ _ _ (fun _ _ => True)); [done| |].
  { apply runs_ok. intros Hs. eapply wp_mono; [apply (wp_call_catalog env cfg _ (fun _ => True) (claims s) (claims s) s); [done|]|].
    - eapply wp_mono; [apply law_fetchable_count, (c_catalog _ _ _ _ (ok_at _ _ _ _ _ Hs))|]. by intros n k [_ ?].
    - done. }
  intros fetchable s1 (_ & Hl1 & _) _. apply (later_clock _ _ _ Hl1) in Hnow. clear Hl1 s.
  eapply runs_bind_0; [done|apply runs_free_slots|]. intros free s2 (_ & Hl2 & _) Hfree.
  apply (later_clock _ _ _ Hl2) in Hnow. clear Hl2 s1.
  eapply runs_bind_0; [done|by apply runs_refill|]. intros left s3 (_ & Hl3 & _) Hleft.
  apply (later_clock _ _ _ Hl3) in Hnow. clear Hl3 s2. cbv zeta.
  destruct (Z.leb_spec (Z.min free (Z.min (lookup_fetchable_target cfg - fetchable) (left / TOKEN))) 0).
  { apply runs_ret; [lia|done]. }
  apply wp_start_hashes; [done|done|lia].
Qed.

(** ** The loop of the thread *)

(** What [recvfrom] may return on a socket, and what a turn may receive: [select]
    names a socket once. *)
Definition result_ok (r : received) : Prop :=
  match r with Received data addr => datagram_ok data addr | _ => True end.
Definition ready_ok (ready : list (node_socket * list received)) : Prop :=
  NoDup ready.*1 /\ Forall (fun nr : node_socket * list received => nr.1 ∈ node_sockets cfg /\ Forall result_ok nr.2) ready.

(** The ids that the datagrams of a turn use at most. *)
Definition receive_ids : Z := (alpha * Z.of_nat (MAX_RECEIVE_PER_SOCKET * length (node_sockets cfg)))%Z.

Lemma runs_clock {B} (f : Z -> ST (crawler K) B) n R s :
  (0 <= n <= 2 ^ 24)%Z ->
  (forall now s1, went 0 s s1 -> (0 <= now <= clock_at env (readings s1))%Z -> runs n (f now) R s1) ->
  runs n (now ← read_clock env; f now) R s.
Proof using Henv.
  intros Hn Hf. apply (runs_bind_0 _ _ _ (fun now s1 => 0 <= now <= clock_at env (readings s1))%Z); [done| |auto].
  apply runs_ok. intros Hs. eapply wp_read_clock; [done|exact Hs|]. by intros now s1 Hs1 Hnow _.
Qed.

Lemma runs_drain_socket n fuel : forall results s,
  n ∈ node_sockets cfg -> Forall result_ok results -> (alpha * Z.of_nat fuel <= 2 ^ 24)%Z ->
  runs (alpha * Z.of_nat fuel) (drain_socket hmac_sha1 env cfg depth n fuel results) (fun h _ => 0 <= h)%Z s.
Proof using Henv Hcfg Hhmac.
  pose proof limits_bounds as (La & _).
  induction fuel as [|fuel IH]; intros results s Hn Hall Hb; cbn [drain_socket].
  { apply runs_ret; [lia|done]. }
  replace (alpha * _)%Z with (alpha + (alpha * Z.of_nat fuel + 0))%Z in * by lia.
  destruct results as [|r results]; [apply runs_ret; [lia|done]|].
  apply Forall_cons in Hall as [Hr Hall]. destruct r as [data addr| | |]; try (apply runs_ret; [lia|done]).
  - apply (runs_bind _ _ _ _ (fun _ _ => True)); [lia|lia|lia| |].
    { intros Hs Hw. eapply wp_mono; [by apply (wp_handle_datagram hmac_sha1 env cfg depth Henv Hcfg Hhmac E)|]. by intros u s1 (? & ? & ?). }
    intros u s1 _ _. apply (runs_bind _ _ _ _ (fun h _ => 0 <= h)%Z); [lia|lia|lia|apply IH; [done|done|lia]|].
    intros handled s2 _ Hh. apply runs_ret; lia.
  - apply (runs_mono _ (alpha * Z.of_nat fuel) _ (fun h _ => 0 <= h)%Z); [lia|apply IH; [done|done|lia]|done].
Qed.

Lemma runs_drain_sockets ready : forall s,
  Forall (fun nr : node_socket * list received => nr.1 ∈ node_sockets cfg /\ Forall result_ok nr.2) ready ->
  (alpha * Z.of_nat (MAX_RECEIVE_PER_SOCKET * length ready) <= 2 ^ 24)%Z ->
  runs (alpha * Z.of_nat (MAX_RECEIVE_PER_SOCKET * length ready)) (drain_sockets hmac_sha1 env cfg depth ready) (fun h _ => 0 <= h)%Z s.
Proof using Henv Hcfg Hhmac.
  pose proof limits_bounds as (La & _).
  induction ready as [|[n results] ready IH]; intros s Hall Hb; cbn [drain_sockets].
  { apply runs_ret; [lia|done]. }
  apply Forall_cons in Hall as [[Hn Hr] Hall]. cbn [fst snd] in *.
  replace (alpha * _)%Z with (alpha * Z.of_nat MAX_RECEIVE_PER_SOCKET + (alpha * Z.of_nat (MAX_RECEIVE_PER_SOCKET * length ready) + 0))%Z in * by (cbn [length]; lia).
  assert (0 <= alpha * Z.of_nat MAX_RECEIVE_PER_SOCKET)%Z by lia. assert (0 <= alpha * Z.of_nat (MAX_RECEIVE_PER_SOCKET * length ready))%Z by lia.
  apply (runs_bind _ _ _ _ (fun h _ => 0 <= h)%Z); [lia|lia|lia|apply runs_drain_socket; [done|done|lia]|].
  intros handled s1 _ Hh. apply (runs_bind _ _ _ _ (fun h _ => 0 <= h)%Z); [lia|lia|lia|apply IH; [done|lia]|].
  intros rest s2 _ Hrest. apply runs_ret; lia.
Qed.

(** [select] names no more sockets than there are. *)
Lemma length_ready ready : ready_ok ready -> length ready <= length (node_sockets cfg).
Proof using.
  intros [Hnd Hall]. rewrite <-(length_fmap fst). apply submseteq_length, NoDup_submseteq; [done|].
  intros n (nr & -> & Hin)%list_elem_of_fmap. rewrite Forall_forall in Hall. by apply Hall.
Qed.

Lemma set_selector_went b s : crawler_ok s -> went 0 s (set_selector_open b s).
Proof using.
  intros Hs. apply ok_went. split; [|done]. by split; try (by destruct Hs).
Qed.

Lemma runs_set_selector b s :
  runs 0 (modify (set_selector_open b)) (fun _ s' => lookup_manager s' = lookup_manager s) s.
Proof using. intros Hs _. apply wp_modify. split; [by apply set_selector_went|done]. Qed.

Lemma runs_receive_pending timeout ready s :
  ready_ok ready -> (0 <= timeout)%Z -> (receive_ids <= 2 ^ 24)%Z ->
  runs receive_ids (receive_pending hmac_sha1 env cfg depth timeout ready) (fun _ _ => True) s.
Proof using Henv Hcfg Hhmac.
  intros Hall Ht Hb. pose proof limits_bounds as (La & _). unfold receive_pending. apply runs_assert; [lia|].
  pose proof (length_ready ready Hall) as Hlen. destruct Hall as [_ Hall]. unfold receive_ids in *.
  set (many := MAX_RECEIVE_PER_SOCKET) in *. assert (many * length ready <= many * length (node_sockets cfg)) as Hmany by (apply Nat.mul_le_mono_l, Hlen).
  assert (0 <= alpha * Z.of_nat (many * length ready) <= alpha * Z.of_nat (many * length (node_sockets cfg)))%Z as Hn by nia.
  eapply runs_bind_0; [lia|apply runs_set_selector|]. intros u s1 _ _.
  apply (runs_mono _ (alpha * Z.of_nat (many * length ready) + 0) _ (fun _ _ => True)); [lia| |done].
  apply (runs_bind _ _ _ _ (fun h _ => 0 <= h)%Z); [lia|lia|lia|apply runs_drain_sockets; [done|lia]|].
  intros handled s2 _ Hh. apply runs_assert; [lia|]. by apply runs_ret.
Qed.
End run.

(** ** The loop of the thread *)

Lemma next_batch_time_returns due now interval :
  (0 < interval)%Z -> (due <= now)%Z -> exists t, next_batch_time due now interval = Ok t /\ (t <= now + interval)%Z.
Proof.
  intros Hi Hd. unfold next_batch_time. rewrite (proj2 (Z.ltb_lt _ _) Hi), (proj2 (Z.leb_le _ _) Hd).
  cbn [andb assert_ mbind res_bind]. cbv zeta. destruct (Z.ltb_spec interval (now - due));
    rewrite (proj2 (Z.ltb_lt _ _)) by lia; eexists; (split; [reflexivity|lia]).
Qed.

(** The ids that a turn uses at most, and that the limits leave room for them beside
    those of the queries that may still be pending. *)
Definition turn_ids (cfg : config) : Z := (2 * (alpha (limits cfg) * max_active (limits cfg)) + receive_ids cfg)%Z.
Definition ids_suffice (cfg : config) : Prop := (ids_in_use (limits cfg) (interval cfg) + turn_ids cfg <= 2 ^ 24)%Z.

Section loop.
Context `{AddressText} {K : Type} `{CrawlerCatalogLaws K}.
Context (hmac_sha1 : bytes -> bytes -> bytes) (env : environment) (cfg : config) (depth : nat).
Context (Henv : env_ok env) (Hcfg : cfg_ok cfg)
  (Hhmac : forall secret message, TOKEN_LENGTH <= length (hmac_sha1 secret message)).
Context (Hids : ids_suffice cfg).

Abbreviation minv T m := (inv (lookup_filter cfg) (limits cfg) (clock_at env 1) T m).
Abbreviation crawler_ok := (crawler_ok env cfg).
Abbreviation ok := (ok env cfg).
Abbreviation tick_ids := (alpha (limits cfg) * max_active (limits cfg))%Z.

(** The crawler between two turns, if the next batch is due at [next]: the ids are
    free that a tick may need, and the pending queries have time until the batch
    before. *)
Record in_step (next : Z) (s : crawler K) : Prop := InStep {
  is_ok : crawler_ok s;
  is_window : window tick_ids (lookup_manager s);
  is_rated : rated (limits cfg) (lookup_manager s);
  is_since : since (next - interval cfg) (lookup_manager s);
  is_passed : (next - interval cfg <= clock_at env (readings s))%Z }.

Lemma turn_bounds : (0 <= tick_ids /\ 0 <= receive_ids cfg /\ 0 <= ids_in_use (limits cfg) 0 <= ids_in_use (limits cfg) (interval cfg) /\
  ids_in_use (limits cfg) (interval cfg) + 2 * tick_ids + receive_ids cfg <= 2 ^ 24)%Z.
Proof using Hcfg Hids.
  clear Hhmac. pose proof (limits_bounds cfg Hcfg) as (La & Lm & _). pose proof (lim_ok cfg Hcfg) as (_ & _ & Lq & _ & Lt & _).
  assert (0 < interval cfg)%Z as Hint by apply Hcfg. unfold ids_suffice, turn_ids in Hids. unfold receive_ids in *.
  split; [nia|]. split; [nia|]. split; [|lia]. unfold ids_in_use, longest_wait, TOKEN. split.
  - apply Z.div_pos; [nia|lia].
  - apply Z.div_le_mono; [lia|]. nia.
Qed.

(** The queries wait no longer than they may, so the ids of a turn are free. *)
Lemma free_ids E span n s : crawler_ok s -> rated (limits cfg) (lookup_manager s) -> since E (lookup_manager s) ->
  (tokens_time (lookup_manager s) <= E + span)%Z -> (E <= clock_at env (readings s))%Z -> (ids_in_use (limits cfg) span + n <= 2 ^ 24)%Z ->
  crawler_window env E n s.
Proof using Hcfg.
  intros Hs Hr He Ht HE Hn. split; [|exact HE]. eapply window_of_ages; [apply (c_manager _ _ _ _ Hs)|by apply rate_positive|done..].
Qed.

(** After a part of a turn that was sure of its ids. *)
Lemma in_step_after E next a n s s' : crawler_window env E n s -> went env cfg E a s s' -> (0 <= a)%Z -> (a + tick_ids <= n <= 2 ^ 24)%Z ->
  rated (limits cfg) (lookup_manager s) -> since E (lookup_manager s) -> (next - interval cfg <= E)%Z -> in_step next s'.
Proof using Henv Hcfg Hids.
  intros Hw (Hok & Hl & Hu) Ha Hn Hr Hs HE. pose proof turn_bounds as (B1 & _). pose proof (uses_window env cfg Henv E a n s s' ltac:(lia) ltac:(lia) Hu Hl Hw) as [Hw' HE'].
  destruct Hu as [_ Hag]. split; [done|eapply window_mono; [exact Hw'|lia]|by apply (ag_rated _ _ _ _ Hag)| |lia].
  eapply since_mono; [by eapply aging_since|done].
Qed.

Lemma receive_in_step E next timeout ready s : ready_ok cfg ready -> (0 <= timeout)%Z ->
  crawler_ok s -> crawler_window env E (receive_ids cfg + tick_ids) s -> rated (limits cfg) (lookup_manager s) -> since E (lookup_manager s) ->
  (next - interval cfg <= E)%Z ->
  wp (receive_pending hmac_sha1 env cfg depth timeout ready) (fun _ s' => in_step next s') s.
Proof using Henv Hcfg Hhmac Hids.
  intros Hready Ht Hs Hw Hr He HE. pose proof turn_bounds as (B1 & B2 & B3 & B4).
  eapply wp_mono; [apply (runs_receive_pending hmac_sha1 env cfg depth Henv Hcfg Hhmac E timeout ready); [done|done|lia|done|]|].
  - eapply crawler_window_mono; [exact Hw|lia].
  - intros handled s' [Hwent _]. eapply in_step_after; [exact Hw|exact Hwent|lia|lia|done..].
Qed.

(** A turn that sends a batch. *)
Lemma batch_in_step next now s : in_step next s -> now = clock_at env (readings s) -> (next <= now)%Z ->
  forall s1, ok (claims s) s s1 -> (now <= clock_at env (readings s1))%Z ->
  wp (crawl_step env cfg ;; run_lookups env cfg (tick (limits cfg) now) ;; start_pending_lookups env cfg now ;;
      lift (next_batch_time next now (interval cfg)))
    (fun next' s' => crawler_ok s' /\ crawler_window env now (receive_ids cfg + tick_ids) s' /\ rated (limits cfg) (lookup_manager s') /\
       since now (lookup_manager s') /\ (next' - interval cfg <= now)%Z) s1.
Proof using Henv Hcfg Hids.
  intros [Hs Hw Hr He Hp] -> Hle s1 Hs1 Hnow1. set (now := clock_at env (readings s)) in *. pose proof turn_bounds as (B1 & B2 & B3 & B4).
  assert (0 <= now)%Z as Hpos by apply Henv. pose proof (i_time _ _ _ _ _ _ (c_manager _ _ _ _ Hs)) as Htime.
  apply wp_bind. eapply wp_mono; [by apply (wp_crawl_step env cfg Henv Hcfg)|]. clear s1 Hs1 Hnow1. intros sent s1 Hs1.
  destruct (ok_crawler_ok _ _ _ _ Hs1) as (Hok1 & Hl1 & Hm1). assert (now <= clock_at env (readings s1))%Z as Hnow1.
  { by eapply passed_later; [exact Henv|exact Hl1|]. }
  apply wp_bind. eapply wp_mono; [apply (runs_tick env cfg Henv Hcfg now now s1); [lia|lia|by rewrite Hm1|done|split; [by rewrite Hm1|done]]|].
  intros [] s2 [(Hok2 & Hl2 & [_ Hag2]) [He2 Ht2]]. rewrite Hm1 in Hag2.
  pose proof (passed_later env Henv now _ _ Hl2 Hnow1) as Hnow2. pose proof (ag_rated _ _ _ _ Hag2 Hr) as Hr2.
  assert (crawler_window env now (2 ^ 24 - ids_in_use (limits cfg) 0) s2) as Hw2 by (apply (free_ids now 0); [done|done|done|lia|done|lia]).
  apply wp_bind. eapply wp_mono; [apply (runs_start_pending env cfg Henv Hcfg now now s2); [lia|lia|done|]|].
  { eapply crawler_window_mono; [exact Hw2|lia]. }
  intros started s3 [(Hok3 & Hl3 & Hu3) _]. destruct (next_batch_time_returns next now (interval cfg)) as (t & Ht & Htle); [apply Hcfg|done|].
  eapply wp_lift; [exact Ht|]. split; [done|].
  pose proof (uses_window env cfg Henv now tick_ids (2 ^ 24 - ids_in_use (limits cfg) 0)%Z s2 s3 ltac:(lia) ltac:(lia) Hu3 Hl3 Hw2) as Hw3.
  split; [eapply crawler_window_mono; [exact Hw3|lia]|]. destruct Hu3 as [_ Hag3]. split; [by apply (ag_rated _ _ _ _ Hag3)|].
  split; [by eapply aging_since|lia].
Qed.

Lemma wp_run_turn next ready s : ready_ok cfg ready -> in_step next s ->
  wp (run_turn hmac_sha1 env cfg depth next ready) in_step s.
Proof using Henv Hcfg Hhmac Hids.
  intros Hready Hstep. pose proof Hstep as [Hs Hw Hr He Hp]. pose proof turn_bounds as (B1 & B2 & B3 & B4). unfold run_turn.
  apply wp_bind. eapply (wp_read_clock env cfg Henv (claims s) s); [by apply ok_refl|]. intros now s1 Hs1 Hnow Hread.
  apply wp_bind. eapply (wp_mono _ (fun next' s2 => crawler_ok s2 /\ exists E, crawler_window env E (receive_ids cfg + tick_ids) s2 /\
    rated (limits cfg) (lookup_manager s2) /\ since E (lookup_manager s2) /\ (next' - interval cfg <= E)%Z)).
  - destruct (Z.leb_spec next now) as [Hle|Hgt].
    + eapply wp_mono; [by apply (batch_in_step next now s); [| | |exact Hs1|apply Hnow]|]. intros next' s2 (? & ? & ? & ? & ?).
      split; [done|]. by exists now.
    + apply wp_ret. destruct (ok_crawler_ok _ _ _ _ Hs1) as (Hok1 & Hl1 & Hm1). split; [done|]. exists (next - interval cfg)%Z.
      rewrite Hm1. split; [|by split; [|split]]. apply (free_ids _ (interval cfg)); rewrite ?Hm1; [done|done|done| | |lia].
      * pose proof (i_time _ _ _ _ _ _ (c_manager _ _ _ _ Hs)). lia.
      * by eapply passed_later; [exact Henv|exact Hl1|].
  - intros next' s2 (Hok2 & E & Hw2 & Hr2 & He2 & HE). apply wp_bind.
    eapply (wp_read_clock env cfg Henv (claims s2) s2); [by apply ok_refl|]. intros now' s3 Hs3 _ _.
    destruct (ok_crawler_ok _ _ _ _ Hs3) as (Hok3 & Hl3 & Hm3). apply wp_bind.
    eapply wp_mono; [apply (receive_in_step E next'); [done|lia|done| |by rewrite Hm3|by rewrite Hm3|done]|].
    + destruct Hw2 as [Hw2 HE2]. split; [by rewrite Hm3|by eapply passed_later].
    + intros handled s4 H4. by apply wp_ret.
Qed.

Lemma wp_run_turns turns : forall next s, Forall (ready_ok cfg) turns -> in_step next s ->
  wp (run_turns hmac_sha1 env cfg depth next turns) (fun _ s' => exists next', in_step next' s') s.
Proof using Henv Hcfg Hhmac Hids.
  induction turns as [|ready turns IH]; intros next s Hall Hs; cbn [run_turns]; [apply wp_ret; eauto|].
  apply Forall_cons in Hall as [Hr Hall]. apply wp_bind. eapply wp_mono; [by apply wp_run_turn|]. intros next' s1 Hs1. by apply IH.
Qed.

(** A crawler that has just been made, and has asked for nodes. *)
Definition fresh (s : crawler K) : Prop := crawler_ok s /\ rated (limits cfg) (lookup_manager s) /\ forall E, since E (lookup_manager s).

Lemma fresh_in_step next s : fresh s -> (next - interval cfg <= clock_at env (readings s))%Z -> in_step next s.
Proof using.
  intros (Hs & Hr & He) Hp. split; try done.
  intros t h Ht. apply (i_owner _ _ _ _ _ _ (c_manager _ _ _ _ Hs)) in Ht as (o & l & [Hact Hl] & [x Hx]).
  assert (waiting (lookup_manager s) o t x) as Hw by by exists l. pose proof (He x.2 h o t x Hact Hw). lia.
Qed.

Lemma wp_bootstrap_fresh s : fresh s -> wp (bootstrap env cfg None) (fun _ s' => fresh s' /\ later s s') s.
Proof using Henv Hcfg.
  intros (Hs & Hr & He). eapply wp_mono; [by apply (wp_bootstrap env cfg Henv Hcfg None (claims s) s s); [|by apply ok_refl]|].
  intros u s' Hs'. destruct (ok_crawler_ok _ _ _ _ Hs') as (Hok & Hl & Hm). split; [|done]. split; [done|]. by rewrite Hm.
Qed.

(** The first batch is due at once. *)
Lemma wp_turns_from_fresh turns s : fresh s -> Forall (ready_ok cfg) turns ->
  wp (bootstrap env cfg None ;; next ← read_clock env; run_turns hmac_sha1 env cfg depth next turns)
    (fun _ s' => exists next', in_step next' s') s.
Proof using Henv Hcfg Hhmac Hids.
  intros Hfresh Hall. apply wp_bind. eapply wp_mono; [by apply wp_bootstrap_fresh|]. intros u s0 [Hs _].
  pose proof Hs as (Hok & _). apply wp_bind. eapply (wp_read_clock env cfg Henv (claims s0) s0); [by apply ok_refl|].
  intros next s1 Hs1 Hnext _. destruct (ok_crawler_ok _ _ _ _ Hs1) as (Hok1 & _ & Hm1).
  apply wp_run_turns; [done|apply fresh_in_step].
  - unfold fresh. rewrite Hm1. by split; [|apply Hs].
  - assert (0 < interval cfg)%Z by apply Hcfg. lia.
Qed.

Lemma runs_snapshot_stats E s :
  runs env cfg E 0 (snapshot_stats env cfg) (fun _ s' => lookup_manager s' = lookup_manager s) s.
Proof using Henv Hcfg.
  unfold snapshot_stats. intros Hs. revert Hs. change (runs env cfg E 0 (looked ← run_lookups env cfg (manager_counts (limits cfg));
    mret (CrawlerStats (stats s)
      (match families s with (_, st) :: _ => Z.of_nat (length (node_queue st)) | [] => 0%Z end)
      (match dict_get AF_INET6 (families s) with Some st => Z.of_nat (length (node_queue st)) | None => 0%Z end)
      looked)) (fun _ s' => lookup_manager s' = lookup_manager s) s).
  eapply (runs_bind_0 env cfg Henv); [lia|by apply runs_manager_counts|]. intros c s1 _ Hm. by apply runs_ret.
Qed.

(** A program that starts as one that is known. *)
Lemma wp_start {S A B C D} (m : ST S A) (r : ST S B) (k : B -> ST S C) (rest : C -> ST S D) Q Q' s :
  wp (m ;; b ← r; k b) Q s -> (forall c s', Q c s' -> wp (rest c) Q' s') -> wp (m ;; b ← r; c ← k b; rest c) Q' s.
Proof using.
  clear. unfold wp, mbind, st_bind. intros Hm Hrest. destruct (m s) as [[a s1]|]; [|done]. destruct (r s1) as [[b s2]|]; [|done].
  destruct (k b s2) as [[c s3]|]; [|done]. by apply Hrest.
Qed.

(** The whole run, with no lookup left. *)
Lemma wp_crawler_run turns s : fresh s -> Forall (ready_ok cfg) turns ->
  wp (run hmac_sha1 env cfg depth turns) (fun _ s' => crawler_ok s' /\ active (lookup_manager s') = []) s.
Proof using Henv Hcfg Hhmac Hids.
  intros Hfresh Hall. pose proof (wp_turns_from_fresh turns s Hfresh Hall) as Hturns. unfold run.
  apply (wp_start _ _ _ _ _ _ _ Hturns). clear Hturns. intros u2 s2 [next' Hstep]. pose proof Hstep as [Hs2 Hw _ _ HE].
  assert (runs env cfg (next' - interval cfg) 0 (run_lookups env cfg abort_all ;; close cfg ;; snapshot_stats env cfg)
    (fun _ s' => active (lookup_manager s') = []) s2) as Hend.
  { eapply (runs_bind_0 env cfg Henv); [lia|by apply runs_abort_all|]. intros u4 s4 _ Hactive.
    apply (runs_bind_0 env cfg Henv _ _ _ _ (fun _ s5 => active (lookup_manager s5) = [])); [lia| |].
    - unfold close. apply runs_assert; [apply negb_true_iff, bool_decide_eq_false, Hcfg|].
      eapply (runs_mono env cfg); [|apply runs_set_selector|]; [lia|]. by intros u5 s5 _ ->.
    - intros u5 s5 _ Hactive5. eapply (runs_mono env cfg); [|apply runs_snapshot_stats|]; [lia|]. by intros st s6 _ ->. }
  eapply wp_mono; [apply Hend; [done|split; [eapply window_mono; [exact Hw|apply turn_bounds]|done]]|]. intros st s' [(Hok' & _) Hact]. done.
Qed.

(** ** The constructor *)

Lemma own_id_suffixes_returns : own_id_suffixes (node_sockets cfg) = Ok (own_suffixes cfg).
Proof using Hcfg.
  pose proof (socket_id cfg Hcfg) as Hid. unfold own_id_suffixes.
  assert (forallb (fun n => is_node_id (own_id n)) (node_sockets cfg) = true) as ->.
  { apply forallb_forall. intros n Hn%list_elem_of_In. by apply is_node_id_of, Hid. }
  cbn [assert_ mbind res_bind]. cbv zeta.
  assert (forall l : list bytes, (forall x, x ∈ l -> length x = NODE_ID_LENGTH - NEIGHBOR_PREFIX_LENGTH) ->
    forallb (fun suffix : bytes => bool_decide (length suffix = NODE_ID_LENGTH - NEIGHBOR_PREFIX_LENGTH)) l = true) as Hall.
  { intros l Hl. apply forallb_forall. intros x Hx%list_elem_of_In. by apply bool_decide_eq_true, Hl. }
  rewrite Hall; [done|]. intros x (n & -> & Hn)%list_elem_of_fmap. by rewrite length_drop, Hid.
Qed.

Lemma initial_families_ok f st : dict_get f (initial_families cfg) = Some st -> family_ok cfg f st.
Proof using Hcfg.
  intros Hg%dict_get_elem_of. apply list_elem_of_fmap in Hg as (f' & [= <- ->] & _).
  split; [done|]. split; [simpl; lia|]. split; [unfold RECENT_NODES_SIZE; simpl; lia|]. split; constructor.
Qed.

Lemma new_crawler_at k :
  catalog_ok (fun _ => False) k -> exists s, new_crawler env cfg k = Ok s /\ fresh s.
Proof using Henv Hcfg.
  intros Hk. pose proof Hcfg as (Hsock & Howns & Hbatch & Hint & Hqueue & Htarget & Hboot & _ & Hlim).
  pose proof Hlim as (La & Lm & Lq & Ln & _). unfold new_crawler.
  replace (bool_decide (1 <= length (node_sockets cfg))) with true
    by (symmetry; apply bool_decide_eq_true; destruct (node_sockets cfg); [done|simpl; lia]).
  rewrite (bool_decide_eq_true_2 _ Hqueue).
  replace (_ && _)%Z with true by (simpl; lia). cbn [assert_ mbind res_bind].
  rewrite (bool_decide_eq_true_2 (0 < length (bootstrap_nodes cfg)))
    by (destruct (bootstrap_nodes cfg); [done|simpl; lia]). cbn [assert_ mbind res_bind].
  rewrite own_id_suffixes_returns.
  cbn [mbind res_bind]. cbv zeta. replace (_ && _)%Z with true by lia. cbn [assert_ mbind res_bind].
  assert (initial_families cfg <> []) as Hfam.
  { destruct (node_sockets cfg) as [|n l] eqn:Hn; [done|].
    assert (socket_family n ∈ (initial_families cfg).*1) as Hin.
    { apply initial_keys, socket_has_family. rewrite Hn. left. }
    intros Hnil. rewrite Hnil in Hin. by apply elem_of_nil in Hin. }
  rewrite bool_decide_eq_false_2 by done. cbn [negb assert_ mbind res_bind].
  eexists. split; [reflexivity|].
  split; [|by split; [split; [cbn; lia|by intros o t x (l & Hl & _)]|intros E h o t x Hh _]]. pose proof (proj1 (proj2 Henv) 1 2 ltac:(lia)) as Hclock.
  split; simpl; try (split; [apply dict_wf_nil|simpl; lia]); try done;
    try (split; [split; [apply dict_wf_nil|simpl; lia]|done]).
  - apply initial_families_ok.
  - apply Henv.
  - split; [constructor|unfold RECENT_HASHES_SIZE; lia].
  - by apply inv_new_manager.
  - eapply catalog_ok_mono; [|exact Hk]. by intros h ?%elem_of_nil.
Qed.

End loop.
