(* ===== verification/DhtCrawlerTraffic.v ===== *)
(** What the crawler sends: how often to one address, and in answer to what.
    These are statements on the log of accepted datagrams, for every step that
    returns; they need nothing of the crawler's invariant. *)
From S2P Require Import Prelude PyDict Bencode NodeIdentity AddressText Krpc DhtLookup CatalogInterface.
From S2P Require Import DhtCrawlerSafety DhtCrawler.

(** ** Windows of one address *)

Definition WINDOW : Z := PER_ADDRESS_WINDOW_SECONDS.

(** How many times of a list satisfy a condition. *)
Definition how_many (P : Z -> Prop) `{!forall t, Decision (P t)} (ts : list Z) : Z :=
  Z.of_nat (length (filter P ts)).

Lemma how_many_snoc P `{!forall t, Decision (P t)} ts t :
  how_many P (ts ++ [t]) = (how_many P ts + if decide (P t) then 1 else 0)%Z.
Proof. unfold how_many. rewrite filter_app, length_app, filter_cons, filter_nil. case_decide; simpl; lia. Qed.

Lemma how_many_mono P Q `{!forall t, Decision (P t)} `{!forall t, Decision (Q t)} ts :
  (forall t, t ∈ ts -> P t -> Q t) -> (how_many P ts <= how_many Q ts)%Z.
Proof.
  unfold how_many. induction ts as [|t ts IH]; intros HPQ; [done|]. rewrite !filter_cons.
  assert (P t -> Q t) by (apply HPQ; left).
  assert (Z.of_nat (length (filter P ts)) <= Z.of_nat (length (filter Q ts)))%Z
    by (apply IH; intros; apply HPQ; [by right|done]).
  repeat case_decide; simpl; try lia. tauto.
Qed.

Lemma how_many_none P `{!forall t, Decision (P t)} ts : (forall t, t ∈ ts -> ~ P t) -> how_many P ts = 0%Z.
Proof.
  unfold how_many. induction ts as [|t ts IH]; intros HP; [done|]. rewrite filter_cons, decide_False by (apply HP; left).
  apply IH. intros t' Ht'. apply HP. by right.
Qed.

Lemma how_many_split P Q R `{!forall t, Decision (P t)} `{!forall t, Decision (Q t)} `{!forall t, Decision (R t)} ts :
  (forall t, P t -> Q t \/ R t) -> (how_many P ts <= how_many Q ts + how_many R ts)%Z.
Proof.
  intros HP. unfold how_many. induction ts as [|t ts IH]; [done|]. rewrite !filter_cons. specialize (HP t).
  repeat case_decide; simpl; try lia. tauto.
Qed.

(** The times of the datagrams to an address whose window opened at [start] with
    [n] datagrams counted since: at most [n] since then, at most a full window
    in any interval of that length before, and at most two in any interval. *)
Record in_window (now start n : Z) (ts : list Z) : Prop := {
  w_start : (start <= now)%Z;
  w_count : (n <= PER_ADDRESS_MAX_PACKETS)%Z;
  w_times : Forall (fun t => t <= now /\ t < start + WINDOW)%Z ts;
  w_since : (how_many (fun t => start <= t)%Z ts <= n)%Z;
  w_before : forall a, (start - WINDOW < a)%Z ->
    (how_many (fun t => a <= t < start)%Z ts <= PER_ADDRESS_MAX_PACKETS)%Z;
  w_any : forall a, (how_many (fun t => a <= t < a + WINDOW)%Z ts <= 2 * PER_ADDRESS_MAX_PACKETS)%Z }.

Lemma in_window_later now now' start n ts :
  (now <= now')%Z -> in_window now start n ts -> in_window now' start n ts.
Proof.
  intros Hn Hw. split; try (by destruct Hw).
  - pose proof (w_start _ _ _ _ Hw). lia.
  - eapply Forall_impl; [apply (w_times _ _ _ _ Hw)|]. simpl. lia.
Qed.

(** One more datagram in an open window. *)
Lemma in_window_send now start n ts :
  in_window now start n ts -> (now - start < WINDOW)%Z -> (n < PER_ADDRESS_MAX_PACKETS)%Z ->
  in_window now start (n + 1) (ts ++ [now]).
Proof.
  intros [H1 H2 H3 H4 H5 H6] Hopen Hn. split; [done|lia| | | |].
  - apply Forall_app. split; [done|]. apply Forall_singleton. lia.
  - rewrite how_many_snoc. case_decide; lia.
  - intros a Ha. rewrite how_many_snoc, decide_False by lia. specialize (H5 a Ha). lia.
  - intros a. rewrite how_many_snoc. case_decide as Hd; [|specialize (H6 a); lia].
    assert (how_many (fun t => a <= t < a + WINDOW)%Z ts <=
      how_many (fun t => a <= t < start)%Z ts + how_many (fun t => start <= t)%Z ts)%Z
      by (apply how_many_split; lia).
    specialize (H5 a ltac:(lia)). lia.
Qed.

(** The first datagram of a new window. *)
Lemma in_window_open now start n ts :
  in_window now start n ts -> (WINDOW <= now - start)%Z -> in_window now now 1 (ts ++ [now]).
Proof.
  intros [H1 H2 H3 H4 H5 H6] Hold. rewrite Forall_forall in H3.
  assert (0 < WINDOW)%Z as Hw by done. assert (1 <= PER_ADDRESS_MAX_PACKETS)%Z as Hmax by done.
  assert (forall a, (now - WINDOW < a)%Z -> (how_many (fun t => a <= t)%Z ts <= PER_ADDRESS_MAX_PACKETS)%Z) as Hrecent.
  { intros a Ha. assert (how_many (fun t => a <= t)%Z ts <= how_many (fun t => start <= t)%Z ts)%Z
      by (apply how_many_mono; lia). lia. }
  split; [lia|lia| | | |].
  - apply Forall_app. split; [|apply Forall_singleton; lia]. apply Forall_forall. intros t Ht. apply H3 in Ht. lia.
  - rewrite how_many_snoc, how_many_none; [case_decide; lia|]. intros t Ht. apply H3 in Ht. lia.
  - intros a Ha. rewrite how_many_snoc, decide_False by lia. specialize (Hrecent a Ha).
    assert (how_many (fun t => a <= t < now)%Z ts <= how_many (fun t => a <= t)%Z ts)%Z by (apply how_many_mono; lia). lia.
  - intros a. rewrite how_many_snoc. case_decide as Hd; [|specialize (H6 a); lia]. specialize (Hrecent a ltac:(lia)).
    assert (how_many (fun t => a <= t < a + WINDOW)%Z ts <= how_many (fun t => a <= t)%Z ts)%Z
      by (apply how_many_mono; lia). lia.
Qed.

Lemma in_window_first now : in_window now now 1 [now].
Proof.
  assert (0 < WINDOW)%Z as Hw by done. assert (1 <= PER_ADDRESS_MAX_PACKETS)%Z as Hmax by done.
  assert (forall P `{!forall t, Decision (P t)}, (how_many P [now] <= 1)%Z) as Hone.
  { intros P ?. unfold how_many. rewrite filter_cons, filter_nil. case_decide; simpl; lia. }
  split; [lia|lia|apply Forall_singleton; lia|apply Hone| |].
  - intros a Ha. etrans; [apply Hone|lia].
  - intros a. etrans; [apply Hone|lia].
Qed.

(** A datagram that was allowed and not sent. *)
Lemma in_window_unsent now start n ts t : in_window now start n (ts ++ [t]) -> in_window now start n ts.
Proof.
  intros [H1 H2 H3 H4 H5 H6]. rewrite how_many_snoc in H4. split; [done|done| | | |].
  - by apply Forall_app in H3 as [? _].
  - case_decide; lia.
  - intros a Ha. specialize (H5 a Ha). rewrite how_many_snoc in H5. case_decide; lia.
  - intros a. specialize (H6 a). rewrite how_many_snoc in H6. case_decide; lia.
Qed.

(** ** All addresses *)

(** The times of the datagrams to an address. *)
Definition sent_times (ip : text) (ds : list datagram) : list Z :=
  sent_at <$> filter (fun d => (sent_to d).1 = ip) ds.

Lemma sent_times_snoc ip ds d :
  sent_times ip (ds ++ [d]) = sent_times ip ds ++ if decide ((sent_to d).1 = ip) then [sent_at d] else [].
Proof. unfold sent_times. rewrite filter_app, fmap_app, filter_cons, filter_nil. by case_decide. Qed.

Definition rate_ok (now : Z) (ds : list datagram) (ws : list (text * (Z * Z))) : Prop :=
  forall ip, match dict_get ip ws with
             | None => sent_times ip ds = []
             | Some (start, n) => in_window now start n (sent_times ip ds)
             end.

Lemma rate_ok_later now now' ds ws : (now <= now')%Z -> rate_ok now ds ws -> rate_ok now' ds ws.
Proof.
  intros Hn Hr ip. specialize (Hr ip). destruct (dict_get ip ws) as [[start n]|]; [|done]. by eapply in_window_later.
Qed.

(** A new window value for one address that has room for one datagram. *)
Definition room_for (now : Z) (ip : text) (ds : list datagram) (ws : list (text * (Z * Z))) : Prop :=
  forall d, sent_at d = now -> (sent_to d).1 = ip -> rate_ok now (ds ++ [d]) ws.

Lemma rate_ok_put now ip start n ds ws ws' :
  rate_ok now ds ws -> in_window now start n (sent_times ip ds ++ [now]) ->
  dict_get ip ws' = Some (start, n) -> (forall ip', ip' <> ip -> dict_get ip' ws' = dict_get ip' ws) ->
  rate_ok now ds ws' /\ room_for now ip ds ws'.
Proof.
  intros Hr Hw Hip Hne. split.
  - intros ip'. destruct (decide (ip' = ip)) as [->|Hd]; [|rewrite Hne by done; apply Hr].
    rewrite Hip. by eapply in_window_unsent.
  - intros d Ht Hto ip'. rewrite sent_times_snoc. destruct (decide (ip' = ip)) as [->|Hd].
    + rewrite Hip, decide_True, Ht by done. done.
    + rewrite Hne, decide_False by congruence. rewrite app_nil_r. apply Hr.
Qed.

(** Before the table is full, [remember] forgets nothing. *)
Lemma remember_not_full {L V} `{EqDecision L} (t : list (L * V)) key value limit r :
  dict_wf t -> remember t key value limit = Ok r ->
  dict_wf r.2 /\ (1 <= limit -> length t <= limit -> length t <= length r.2) /\
  (length r.2 < limit -> dict_get key r.2 = Some value /\
     forall k, k <> key -> dict_get k r.2 = dict_get k t).
Proof.
  intros Hwf Hr. assert (1 <= limit) as Hl.
  { unfold remember in Hr. apply bind_Ok in Hr as (_ & Hl%assert_Ok & _). by apply bool_decide_eq_true in Hl. }
  rewrite remember_eq in Hr by done. injection Hr as <-. cbn [snd].
  set (d := dict_del key t ++ [(key, value)]). assert (dict_wf d) as Hd by by apply dict_snoc_wf.
  assert (length t <= length d) as Hlen.
  { unfold d. rewrite length_app. simpl. destruct (dict_get key t) as [v|] eqn:Hk; [|rewrite dict_del_notin by done; lia].
    pose proof (length_dict_del key v t Hwf Hk). lia. }
  split; [by apply drop_wf|]. rewrite length_last_items. split; [lia|]. intros Hlt.
  assert (last_items limit d = d) as ->.
  { unfold last_items. replace (length d - limit) with 0 by lia. done. }
  unfold d. split.
  - rewrite dict_get_app, dict_get_del_eq. simpl. by rewrite decide_True.
  - intros k Hk. rewrite dict_get_app, dict_get_del_ne by done. destruct (dict_get k t); [done|].
    simpl. by rewrite decide_False.
Qed.

(** ** Steps *)

Section traffic.
Context `{AddressText} {K : Type} `{CrawlerCatalog K}.
Context (hmac_sha1 : bytes -> bytes -> bytes) (env : environment) (cfg : config) (depth : nat).
Context (Hclock : forall n m, n <= m -> (clock_at env n <= clock_at env m)%Z).

(** What a step does to the log: while the table of windows has room (it never
    shrinks), the rate to every address stays within its limit. *)
Definition rated (s s' : crawler K) : Prop :=
  table_ok SEND_WINDOW_ENTRIES (send_windows s) ->
  table_ok SEND_WINDOW_ENTRIES (send_windows s') /\ readings s <= readings s' /\
  length (send_windows s) <= length (send_windows s') /\
  (length (send_windows s') < SEND_WINDOW_ENTRIES ->
   rate_ok (clock_at env (readings s)) (datagrams s) (send_windows s) ->
   rate_ok (clock_at env (readings s')) (datagrams s') (send_windows s')).

#[local] Instance rated_preorder : PreOrder rated.
Proof using.
  split; [intros s Ht; by do 3 (split; [done|])|]. intros s s1 s2 H1 H2 Ht.
  destruct (H1 Ht) as (T1 & R1 & L1 & K1). destruct (H2 T1) as (T2 & R2 & L2 & K2).
  split; [done|]. split; [lia|]. split; [lia|]. intros Hlt Hr. apply K2; [done|]. apply K1; [lia|done].
Qed.

Lemma rated_same s s' :
  send_windows s' = send_windows s -> datagrams s' = datagrams s -> readings s <= readings s' -> rated s s'.
Proof using Hclock.
  intros Hw Hd Hr Ht. rewrite Hw, Hd. split; [done|]. split; [done|]. split; [done|]. intros _.
  apply rate_ok_later, Hclock, Hr.
Qed.

Lemma rated_modify f :
  (forall s, send_windows (f s) = send_windows s /\ datagrams (f s) = datagrams s /\ readings (f s) = readings s) ->
  frames rated (modify f).
Proof using Hclock.
  intros Hf. apply frames_modify. intros s. destruct (Hf s) as (? & ? & Hr). apply rated_same; [done..|]. by rewrite Hr.
Qed.
#[local] Hint Extern 1 (frames rated (modify _)) => (apply rated_modify; done) : frames.

Lemma rated_reading {A} (f : nat -> A) : frames rated (reading f).
Proof using Hclock.
  intros s. unfold reading. apply wlp_bind, wlp_bind. apply rated_same; [done|done|]. simpl. lia.
Qed.
#[local] Hint Resolve rated_reading : frames.

Lemma rated_count key n : frames rated (count key n).
Proof using Hclock. unfold count. frames_steps. Qed.
#[local] Hint Resolve rated_count : frames.

Lemma rated_zoom {A T} (get : crawler K -> T) put (m : ST T A) :
  (forall t s, send_windows (put t s) = send_windows s /\ datagrams (put t s) = datagrams s /\
     readings (put t s) = readings s) -> frames rated (zoom get put m).
Proof using Hclock.
  intros Hf s. unfold wlp, zoom. destruct (m (get s)) as [[a t]|]; [|done].
  destruct (Hf t s) as (? & ? & Hr). apply rated_same; [done..|]. by rewrite Hr.
Qed.
#[local] Hint Extern 1 (frames rated (zoom _ _ _)) => (apply rated_zoom; done) : frames.

Lemma rated_remember_in {L V} `{EqDecision L} (get : crawler K -> list (L * V)) put key value limit :
  (forall t s, send_windows (put t s) = send_windows s /\ datagrams (put t s) = datagrams s /\
     readings (put t s) = readings s) -> frames rated (remember_in get put key value limit).
Proof using Hclock.
  intros Hf. unfold remember_in. frames_steps.
Qed.
#[local] Hint Extern 1 (frames rated (remember_in _ _ _ _ _)) => (apply rated_remember_in; done) : frames.

Lemma rated_the_family f : frames rated (the_family f).
Proof using. apply (frames_pure _). intros s st s'. unfold the_family. by destruct (dict_get _ _); intros [= _ ->]. Qed.
#[local] Hint Resolve rated_the_family : frames.

Lemma rated_update_family f g : frames rated (update_family f g).
Proof using Hclock. unfold update_family. frames_steps. Qed.
#[local] Hint Resolve rated_update_family : frames.

(** ** Sending *)

(** What [allow_send] leaves when it read the time [now]. *)
Definition allowed_at (now : Z) (ip : text) (s : crawler K) (allowed : bool) (s' : crawler K) : Prop :=
  datagrams s' = datagrams s /\ readings s' = S (readings s) /\
  table_ok SEND_WINDOW_ENTRIES (send_windows s') /\ length (send_windows s) <= length (send_windows s') /\
  (length (send_windows s') < SEND_WINDOW_ENTRIES -> rate_ok now (datagrams s) (send_windows s) ->
   rate_ok now (datagrams s) (send_windows s') /\
   (allowed = true -> room_for now ip (datagrams s) (send_windows s'))).

(** Opening a window: there was none, or the last one is over. *)
Lemma open_window now ip (s : crawler K) n :
  table_ok SEND_WINDOW_ENTRIES (send_windows s) -> readings s = S n ->
  (forall start n, dict_get ip (send_windows s) = Some (start, n) -> (WINDOW <= now - start)%Z) ->
  wlp (remember_in send_windows set_send_windows ip (now, 1%Z) SEND_WINDOW_ENTRIES ;; mret true)
    (fun b s' => datagrams s' = datagrams s /\ readings s' = S n /\
      table_ok SEND_WINDOW_ENTRIES (send_windows s') /\ length (send_windows s) <= length (send_windows s') /\
      (length (send_windows s') < SEND_WINDOW_ENTRIES -> rate_ok now (datagrams s) (send_windows s) ->
       rate_ok now (datagrams s) (send_windows s') /\
       (b = true -> room_for now ip (datagrams s) (send_windows s')))) s.
Proof using.
  intros [Hwf Hlen] Hn Hold. assert (1 <= SEND_WINDOW_ENTRIES) as Hpos by (unfold SEND_WINDOW_ENTRIES; lia).
  apply wlp_bind. unfold remember_in.
  apply wlp_bind, wlp_bind, wlp_lift. intros r Hr. apply wlp_bind.
  destruct (remember_not_full _ _ _ _ _ Hwf Hr) as (Hwf' & Hgrow & Hget).
  assert (length r.2 <= SEND_WINDOW_ENTRIES) as Hlen'.
  { destruct (remember_table (send_windows s) ip (now, 1%Z) SEND_WINDOW_ENTRIES Hpos Hwf) as (t & Ht & [_ Ht'] & _).
    rewrite Ht in Hr. by injection Hr as <-. }
  split; [done|]. split; [done|]. split; [done|]. split; [by apply Hgrow|].
  intros Hlt Hrate. destruct (Hget Hlt) as [Hip Hne].
  destruct (rate_ok_put now ip now 1 (datagrams s) (send_windows s) r.2 Hrate) as [H1 H2]; [|done|done|by split].
  specialize (Hrate ip). destruct (dict_get ip (send_windows s)) as [[start m]|] eqn:Hg.
  - eapply in_window_open; [exact Hrate|]. by eapply Hold.
  - rewrite Hrate. apply in_window_first.
Qed.

Lemma rated_allow_send ip (s : crawler K) :
  table_ok SEND_WINDOW_ENTRIES (send_windows s) ->
  wlp (allow_send env ip) (allowed_at (clock_at env (readings s)) ip s) s.
Proof using.
  intros Ht. unfold allow_send. set (now := clock_at env (readings s)). set (s1 := set_readings (S (readings s)) s).
  change (wlp (match dict_get ip (send_windows s) with
    | Some (start, n) =>
        if (PER_ADDRESS_WINDOW_SECONDS <=? now - start)%Z then
          remember_in send_windows set_send_windows ip (now, 1%Z) SEND_WINDOW_ENTRIES ;; mret true
        else if (PER_ADDRESS_MAX_PACKETS <=? n)%Z then mret false
        else
          modify (fun s => set_send_windows (dict_set ip (start, (n + 1)%Z) (send_windows s)) s) ;;
          assert_st (n + 1 <=? PER_ADDRESS_MAX_PACKETS)%Z ;;
          mret true
    | None => remember_in send_windows set_send_windows ip (now, 1%Z) SEND_WINDOW_ENTRIES ;; mret true
    end) (allowed_at now ip s) s1).
  destruct (dict_get ip (send_windows s)) as [[start n]|] eqn:Hg.
  - destruct (Z.leb_spec PER_ADDRESS_WINDOW_SECONDS (now - start)) as [Hle|Hlt].
    { apply (open_window now ip s1 (readings s)); [done|done|]. intros start' n' Hg'. simpl in Hg'.
      rewrite Hg in Hg'. by injection Hg' as <- <-. }
    destruct (Z.leb_spec PER_ADDRESS_MAX_PACKETS n) as [Hfull|Hroom]; [by apply (conj eq_refl)|].
    do 2 apply wlp_bind. apply wlp_assert. intros _. split; [done|]. split; [done|]. simpl.
    destruct Ht as [Hwf Hlen]. assert (length (dict_set ip (start, (n + 1)%Z) (send_windows s)) = length (send_windows s)) as Hl.
    { rewrite length_dict_set. by rewrite (proj2 (dict_has_get ip (send_windows s))) by eauto. }
    split; [split; [by apply dict_set_wf|by rewrite Hl]|]. rewrite Hl. split; [done|]. intros _ Hrate.
    destruct (rate_ok_put now ip start (n + 1) (datagrams s) (send_windows s)
      (dict_set ip (start, (n + 1)%Z) (send_windows s)) Hrate) as [H1 H2]; [| | |by split].
    + specialize (Hrate ip). rewrite Hg in Hrate. by apply in_window_send.
    + apply dict_get_set_eq.
    + intros ip' Hne. by rewrite dict_get_set_ne.
  - apply (open_window now ip s1 (readings s)); [done|done|]. intros start' n' Hg'. simpl in Hg'. congruence.
Qed.

Lemma frames_rated {A} (m : ST (crawler K) A) :
  (forall s, table_ok SEND_WINDOW_ENTRIES (send_windows s) -> wlp m (fun _ => rated s) s) -> frames rated m.
Proof using.
  intros Hm s. unfold wlp. destruct (m s) as [[a s']|] eqn:Hs; [|done]. intros Ht.
  specialize (Hm s Ht). unfold wlp in Hm. rewrite Hs in Hm. by apply Hm.
Qed.

Lemma rated_send_message n m addr : frames rated (send_message env cfg n m addr).
Proof using Hclock.
  apply frames_rated. intros s Ht. unfold send_message. apply wlp_bind, wlp_assert. intros _. apply wlp_bind.
  change (wlp (allowed ← allow_send env addr.1;
    if negb allowed then count packets_throttled 1 ;; mret false
    else
      payload ← lift (encode_bencode (PDict m));
      fails ← reading (send_fails env);
      if (fails : bool) then mret false
      else
        modify (fun s' => set_datagrams
          (datagrams s' ++ [Datagram_sent (clock_at env (readings s)) n payload addr]) s') ;;
        count packets_sent 1 ;;
        sent ← gets (fun s => stats s packets_sent);
        assert_st (1 <=? sent)%Z ;;
        mret true) (fun _ => rated s) s).
  apply wlp_bind. eapply wlp_mono; [by apply rated_allow_send|]. intros allowed s1 (Hd & Hr & Ht1 & Hl & Hok).
  assert (forall s2, send_windows s2 = send_windows s1 -> readings s1 <= readings s2 ->
    (length (send_windows s1) < SEND_WINDOW_ENTRIES ->
     rate_ok (clock_at env (readings s)) (datagrams s) (send_windows s) ->
     rate_ok (clock_at env (readings s)) (datagrams s2) (send_windows s1)) -> rated s s2) as Hfinish.
  { intros s2 Hw2 Hr2 Hrate _. rewrite Hw2. split; [done|]. split; [lia|]. split; [done|]. intros Hlt Hrs.
    eapply rate_ok_later; [apply (Hclock (readings s)); lia|auto]. }
  destruct allowed; simpl negb; cbv iota.
  2: { apply wlp_bind. unfold count. apply Hfinish; [done|done|]. intros Hlt Hrs. simpl. rewrite Hd. by apply Hok. }
  apply wlp_bind, wlp_lift. intros payload _. apply wlp_bind. unfold reading at 1.
  change (wlp (if send_fails env (readings s1) then mret false
    else
      modify (fun s' => set_datagrams
        (datagrams s' ++ [Datagram_sent (clock_at env (readings s)) n payload addr]) s') ;;
      count packets_sent 1 ;;
      sent ← gets (fun s => stats s packets_sent);
      assert_st (1 <=? sent)%Z ;;
      mret true) (fun _ => rated s) (set_readings (S (readings s1)) s1)).
  destruct (send_fails env (readings s1)).
  { apply Hfinish; [done|simpl; lia|]. intros Hlt Hrs. simpl. rewrite Hd. by apply Hok. }
  do 4 apply wlp_bind. apply wlp_assert. intros _. apply Hfinish; [done|simpl; lia|]. intros Hlt Hrs. simpl.
  rewrite Hd. by apply Hok.
Qed.
#[local] Hint Resolve rated_send_message : frames.

(** ** Every method *)

Lemma rated_send_find_node n x : frames rated (send_find_node env cfg n x).
Proof using Hclock. unfold send_find_node, urandom. frames_steps. Qed.
#[local] Hint Resolve rated_send_find_node : frames.

Lemma rated_send_sample_infohashes n x : frames rated (send_sample_infohashes env cfg n x).
Proof using Hclock. unfold send_sample_infohashes, urandom. frames_steps. Qed.
#[local] Hint Resolve rated_send_sample_infohashes : frames.

Lemma rated_pick_node_socket f : frames rated (pick_node_socket f).
Proof using Hclock. unfold pick_node_socket. frames_steps. Qed.
#[local] Hint Resolve rated_pick_node_socket : frames.

Lemma rated_send_crawl_query x : frames rated (send_crawl_query env cfg x).
Proof using Hclock. unfold send_crawl_query, read_clock. frames_steps. Qed.
#[local] Hint Resolve rated_send_crawl_query : frames.

Lemma rated_send_lookup_query t x h : frames rated (send_lookup_query env cfg t x h).
Proof using Hclock. unfold send_lookup_query. frames_steps. Qed.
#[local] Hint Resolve rated_send_lookup_query : frames.

Lemma rated_deliver e : frames rated (deliver env cfg e).
Proof using Hclock. unfold deliver, call_catalog. frames_steps. Qed.
#[local] Hint Resolve rated_deliver : frames.

Lemma rated_run_lookups {A} (m : ST manager A) : frames rated (run_lookups env cfg m).
Proof using Hclock. unfold run_lookups. frames_steps. Qed.
#[local] Hint Resolve rated_run_lookups : frames.

Lemma rated_add_node id a : frames rated (add_node cfg id a).
Proof using Hclock. unfold add_node. frames_steps. Qed.
#[local] Hint Resolve rated_add_node : frames.

Lemma rated_record_hash h source peer : frames rated (record_hash h source peer).
Proof using Hclock. unfold record_hash, call_catalog. frames_steps. Qed.
#[local] Hint Resolve rated_record_hash : frames.

Lemma rated_handle_samples d a sender : frames rated (handle_samples env d a sender).
Proof using Hclock. unfold handle_samples, call_catalog, read_clock. frames_steps. Qed.
#[local] Hint Resolve rated_handle_samples : frames.

Lemma rated_add_response_nodes d : frames rated (add_response_nodes cfg d).
Proof using Hclock. unfold add_response_nodes. frames_steps. Qed.
#[local] Hint Resolve rated_add_response_nodes : frames.

Lemma rated_handle_response m a : frames rated (handle_response env cfg m a).
Proof using Hclock. unfold handle_response, read_clock. frames_steps. Qed.
#[local] Hint Resolve rated_handle_response : frames.

Lemma rated_handle_error m a n : frames rated (handle_error env cfg m a n).
Proof using Hclock. unfold handle_error, read_clock. frames_steps. Qed.
#[local] Hint Resolve rated_handle_error : frames.

Lemma rated_ping_query t id a n : frames rated (handle_ping_query env cfg t id a n).
Proof using Hclock. unfold handle_ping_query. frames_steps. Qed.
#[local] Hint Resolve rated_ping_query : frames.

Lemma rated_find_node_query t id a n : frames rated (handle_find_node_query env cfg t id a n).
Proof using Hclock. unfold handle_find_node_query. frames_steps. Qed.
#[local] Hint Resolve rated_find_node_query : frames.

Lemma rated_read_info_hash t args a n : frames rated (read_info_hash env cfg t args a n).
Proof using Hclock. unfold read_info_hash. frames_steps. Qed.
#[local] Hint Resolve rated_read_info_hash : frames.

Lemma rated_get_peers_query t id args a n : frames rated (handle_get_peers_query hmac_sha1 env cfg t id args a n).
Proof using Hclock. unfold handle_get_peers_query. frames_steps. Qed.
#[local] Hint Resolve rated_get_peers_query : frames.

Lemma rated_announce_peer_query t id args a n : frames rated (handle_announce_peer_query hmac_sha1 env cfg t id args a n).
Proof using Hclock. unfold handle_announce_peer_query. frames_steps. Qed.
#[local] Hint Resolve rated_announce_peer_query : frames.

Lemma rated_sample_query t id a n : frames rated (handle_sample_infohashes_query env cfg t id a n).
Proof using Hclock. unfold handle_sample_infohashes_query. frames_steps. Qed.
#[local] Hint Resolve rated_sample_query : frames.

Lemma rated_answer_query m args t id a n : frames rated (answer_query hmac_sha1 env cfg m args t id a n).
Proof using Hclock. unfold answer_query. frames_steps. Qed.
#[local] Hint Resolve rated_answer_query : frames.

Lemma rated_handle_query m a n : frames rated (handle_query hmac_sha1 env cfg m a n).
Proof using Hclock. unfold handle_query. frames_steps. Qed.
#[local] Hint Resolve rated_handle_query : frames.

Lemma rated_handle_datagram data a n : frames rated (handle_datagram hmac_sha1 env cfg depth data a n).
Proof using Hclock. unfold handle_datagram. frames_steps. Qed.
#[local] Hint Resolve rated_handle_datagram : frames.

Lemma rated_bootstrap_host f retry hp : frames rated (bootstrap_host env cfg f retry hp).
Proof using Hclock. unfold bootstrap_host. frames_steps. Qed.
#[local] Hint Resolve rated_bootstrap_host : frames.

Lemma rated_bootstrap_family f : frames rated (bootstrap_family env cfg f).
Proof using Hclock. unfold bootstrap_family, read_clock. frames_steps. Qed.
#[local] Hint Resolve rated_bootstrap_family : frames.

Lemma rated_bootstrap some : frames rated (bootstrap env cfg some).
Proof using Hclock. unfold bootstrap. frames_steps. Qed.
#[local] Hint Resolve rated_bootstrap : frames.

Lemma rated_crawl_queue f limit : frames rated (crawl_queue env cfg f limit).
Proof using Hclock. induction limit as [|limit IH]; cbn [crawl_queue]; frames_steps. Qed.
#[local] Hint Resolve rated_crawl_queue : frames.

Lemma rated_crawl_families l : frames rated (crawl_families env cfg l).
Proof using Hclock. induction l as [|f l IH]; cbn [crawl_families]; frames_steps. Qed.
#[local] Hint Resolve rated_crawl_families : frames.

Lemma rated_crawl_step : frames rated (crawl_step env cfg).
Proof using Hclock. unfold crawl_step, read_clock. frames_steps. Qed.
#[local] Hint Resolve rated_crawl_step : frames.

Lemma rated_seed_nodes h : frames rated (seed_nodes h).
Proof using Hclock. unfold seed_nodes. frames_steps. Qed.
#[local] Hint Resolve rated_seed_nodes : frames.

Lemma rated_start_each now hashes : frames rated (start_each env cfg hashes now).
Proof using Hclock. induction hashes as [|h hashes IH]; cbn [start_each]; unfold call_catalog; frames_steps. Qed.
#[local] Hint Resolve rated_start_each : frames.

Lemma rated_start_pending now : frames rated (start_pending_lookups env cfg now).
Proof using Hclock. unfold start_pending_lookups, call_catalog. frames_steps. Qed.
#[local] Hint Resolve rated_start_pending : frames.

Lemma rated_drain_socket n fuel : forall results, frames rated (drain_socket hmac_sha1 env cfg depth n fuel results).
Proof using Hclock. induction fuel as [|fuel IH]; intros [|r results]; cbn [drain_socket]; frames_steps. Qed.
#[local] Hint Resolve rated_drain_socket : frames.

Lemma rated_drain_sockets ready : frames rated (drain_sockets hmac_sha1 env cfg depth ready).
Proof using Hclock. induction ready as [|nr ready IH]; cbn [drain_sockets]; frames_steps. Qed.
#[local] Hint Resolve rated_drain_sockets : frames.

Lemma rated_receive_pending timeout ready : frames rated (receive_pending hmac_sha1 env cfg depth timeout ready).
Proof using Hclock. unfold receive_pending. frames_steps. Qed.
#[local] Hint Resolve rated_receive_pending : frames.

Lemma rated_run_turn next_send ready : frames rated (run_turn hmac_sha1 env cfg depth next_send ready).
Proof using Hclock. unfold run_turn, read_clock. frames_steps. Qed.
#[local] Hint Resolve rated_run_turn : frames.

Lemma rated_run_turns turns : forall next_send, frames rated (run_turns hmac_sha1 env cfg depth next_send turns).
Proof using Hclock. induction turns as [|ready turns IH]; intros next_send; cbn [run_turns]; frames_steps. Qed.
#[local] Hint Resolve rated_run_turns : frames.

Lemma rated_run turns : frames rated (run hmac_sha1 env cfg depth turns).
Proof using Hclock. unfold run, read_clock, close, snapshot_stats. frames_steps. Qed.
End traffic.

(** ** Answers *)

(** A message that answers the transaction [t], and is no query itself. *)
Definition is_reply (t : bytes) (m : list (pykey * pyval)) : Prop :=
  py_get m (bs "t") = Some (PBytes t) /\ has_bytes m (bs "y") (bs "q") = false.

Definition replies (t : bytes) (r : res (list (pykey * pyval))) : Prop := forall m, r = Ok m -> is_reply t m.

Ltac is_built r :=
  intros m Hm; unfold r in Hm;
  repeat first [apply bind_Ok in Hm as (_ & _ & Hm) | progress cbv zeta in Hm];
  injection Hm as <-; split; reflexivity.

Lemma ping_replies t id : replies t (build_ping_response t id).
Proof. is_built build_ping_response. Qed.
Lemma find_node_replies t id compact key : replies t (build_find_node_response t id compact key).
Proof. is_built build_find_node_response. Qed.
Lemma get_peers_replies t id token compact key : replies t (build_get_peers_response t id token compact key).
Proof. is_built build_get_peers_response. Qed.
Lemma error_replies t code txt : replies t (build_error_response t code txt).
Proof. is_built build_error_response. Qed.
Lemma sample_replies t id interval compact num samples key :
  replies t (build_sample_infohashes_response t id interval compact num samples key).
Proof. is_built build_sample_infohashes_response. Qed.

Section answers.
Context `{AddressText} {K : Type} `{CrawlerCatalog K}.
Context (hmac_sha1 : bytes -> bytes -> bytes) (env : environment) (cfg : config) (depth : nat).

(** At most one datagram, to [addr] by the socket [n], a reply to [t]. *)
Definition answers (t : bytes) (addr : address) (n : node_socket) (s s' : crawler K) : Prop :=
  exists ds, datagrams s' = datagrams s ++ ds /\ length ds <= 1 /\
    Forall (fun d => sent_by d = n /\ sent_to d = addr /\
      exists m, encode_bencode (PDict m) = Ok (sent_data d) /\ is_reply t m) ds.

Definition silent (s s' : crawler K) : Prop := datagrams s' = datagrams s.

#[local] Instance silent_preorder : PreOrder silent.
Proof using. split; [done|]. unfold silent. intros s s1 s2 E1 E2. congruence. Qed.

Lemma answers_none t addr n s s' : silent s s' -> answers t addr n s s'.
Proof using. intros Hs. exists []. rewrite app_nil_r. by repeat split; try constructor. Qed.

Lemma answers_after t addr n s s1 s2 : silent s s1 -> answers t addr n s1 s2 -> answers t addr n s s2.
Proof using. intros Hs (ds & Hd & Hrest). exists ds. by rewrite Hd, Hs. Qed.

Lemma answers_before t addr n s s1 s2 : answers t addr n s s1 -> silent s1 s2 -> answers t addr n s s2.
Proof using. intros (ds & Hd & Hrest) Hs. exists ds. by rewrite Hs, Hd. Qed.

(** A step that sends nothing, and one that answers. *)
Lemma answers_bind {A B} (m : ST (crawler K) A) (f : A -> ST (crawler K) B) t addr n s :
  frames silent m -> (forall a s1, wlp (f a) (fun _ => answers t addr n s1) s1) ->
  wlp (m ≫= f) (fun _ => answers t addr n s) s.
Proof using.
  intros Hm Hf. apply wlp_bind. eapply wlp_mono; [apply Hm|]. intros a s1 Hs. eapply wlp_mono; [apply Hf|].
  intros b s2. by apply answers_after.
Qed.

#[local] Hint Extern 1 (frames silent (modify _)) => (apply frames_modify; done) : frames.

Lemma silent_reading {A} (f : nat -> A) : frames silent (reading f).
Proof using. unfold reading. frames_steps. Qed.
Lemma silent_count key k : frames silent (count key k).
Proof using. unfold count. frames_steps. Qed.
Lemma silent_zoom {A T} (get : crawler K -> T) put (m : ST T A) :
  (forall t s, silent s (put t s)) -> frames silent (zoom get put m).
Proof using. intros Hf s. unfold wlp, zoom. destruct (m (get s)) as [[a t]|]; [apply Hf|done]. Qed.
#[local] Hint Resolve silent_reading silent_count : frames.
#[local] Hint Extern 1 (frames silent (zoom _ _ _)) => (apply silent_zoom; done) : frames.
Lemma silent_remember {L V} `{EqDecision L} (get : crawler K -> list (L * V)) put key value limit :
  (forall t s, silent s (put t s)) -> frames silent (remember_in get put key value limit).
Proof using. intros Hf. unfold remember_in. frames_steps. Qed.
#[local] Hint Extern 1 (frames silent (remember_in _ _ _ _ _)) => (apply silent_remember; done) : frames.
Lemma silent_the_family f : frames silent (the_family f).
Proof using. apply (frames_pure _). intros s st s'. unfold the_family. by destruct (dict_get _ _); intros [= _ ->]. Qed.
#[local] Hint Resolve silent_the_family : frames.
Lemma silent_update_family f g : frames silent (update_family f g).
Proof using. unfold update_family. frames_steps. Qed.
#[local] Hint Resolve silent_update_family : frames.
Lemma silent_record_hash h source peer : frames silent (record_hash h source peer).
Proof using. unfold record_hash, call_catalog. frames_steps. Qed.
#[local] Hint Resolve silent_record_hash : frames.
Lemma silent_add_node id a : frames silent (add_node cfg id a).
Proof using. unfold add_node. frames_steps. Qed.
#[local] Hint Resolve silent_add_node : frames.
Lemma silent_allow_send ip : frames silent (allow_send env ip).
Proof using. unfold allow_send, read_clock. frames_steps. Qed.
#[local] Hint Resolve silent_allow_send : frames.

Lemma answers_send t addr n m s : is_reply t m -> wlp (send_message env cfg n m addr) (fun _ => answers t addr n s) s.
Proof using.
  intros Hm. unfold send_message. apply answers_bind; [frames_steps|]. intros u s1.
  apply answers_bind; [frames_steps|]. intros asked s2. apply answers_bind; [frames_steps|]. intros allowed s3.
  destruct allowed; simpl negb; cbv iota.
  2: { eapply wlp_mono; [|intros b s4; apply answers_none].
       apply (frames_bind silent); [frames_steps|intros; frames_steps]. }
  apply wlp_bind, wlp_lift. intros payload Hp. apply answers_bind; [frames_steps|]. intros fails s4.
  destruct fails; [by apply answers_none|]. apply wlp_bind.
  set (s5 := set_datagrams (datagrams s4 ++ [Datagram_sent (clock_at env asked) n payload addr]) s4). assert (answers t addr n s4 s5) as Hs5.
  { exists [Datagram_sent (clock_at env asked) n payload addr]. split; [done|]. split; [done|].
    apply Forall_singleton. split; [done|]. split; [done|]. by exists m. }
  change (wlp (count packets_sent 1 ;; sent ← gets (fun s => stats s packets_sent); assert_st (1 <=? sent)%Z ;; mret true)
    (fun _ => answers t addr n s4) s5).
  eapply (wlp_mono _ (fun _ => silent s5)).
  { apply (frames_bind silent); [frames_steps|intros; frames_steps]. }
  intros b s6 Hs6. exact (answers_before _ _ _ _ _ _ Hs5 Hs6).
Qed.

Lemma answers_reply {A} t addr n r (a : A) s :
  replies t r -> wlp (response ← lift r; send_message env cfg n response addr ;; mret a) (fun _ => answers t addr n s) s.
Proof using.
  intros Hr. apply wlp_bind, wlp_lift. intros m Hm%Hr. apply wlp_bind.
  eapply wlp_mono; [by apply answers_send|]. by intros b s1 Hs1.
Qed.

Lemma answers_read_info_hash {A} t args addr n (f : option bytes -> ST (crawler K) A) s :
  (forall b s1, wlp (f None) (fun _ s2 => silent s1 s2) s1 /\ wlp (f (Some b)) (fun _ => answers t addr n s1) s1) ->
  wlp (info_hash ← read_info_hash env cfg t args addr n; f info_hash) (fun _ => answers t addr n s) s.
Proof using.
  intros Hf. assert (wlp (info_hash ← (response ← lift (build_error_response t ERROR_PROTOCOL (bs "invalid info_hash"));
      send_message env cfg n response addr ;; mret None); f info_hash) (fun _ => answers t addr n s) s) as Herr.
  { apply wlp_bind, wlp_bind, wlp_lift. intros m Hm%error_replies. apply wlp_bind.
    eapply wlp_mono; [by apply answers_send|]. intros b s1 Hs1.
    change (wlp (f None) (fun _ => answers t addr n s) s1). eapply wlp_mono; [apply (Hf [] s1)|].
    intros a s2 Hs2. exact (answers_before _ _ _ _ _ _ Hs1 Hs2). }
  unfold read_info_hash. destruct (py_get args (bs "info_hash")) as [[| | |h| | | |]|]; try exact Herr.
  destruct (is_node_id h); [|exact Herr]. apply (Hf h s).
Qed.

Lemma answers_query m args t id addr n s :
  wlp (answer_query hmac_sha1 env cfg m args t id addr n) (fun _ => answers t addr n s) s.
Proof using.
  unfold answer_query. repeat destruct (has_bytes _ _ _); [..|apply answers_reply, error_replies];
    [unfold handle_ping_query|unfold handle_find_node_query|unfold handle_get_peers_query
    |unfold handle_announce_peer_query|unfold handle_sample_infohashes_query];
    (apply answers_bind; [frames_steps|]; intros u s1).
  - apply answers_reply, ping_replies.
  - apply answers_bind; [frames_steps|]. intros st s2. apply answers_bind; [frames_steps|]. intros compact s3.
    apply answers_reply, find_node_replies.
  - apply answers_read_info_hash. intros h s2. split; [done|].
    apply answers_bind; [frames_steps|]. intros u1 s3. apply answers_bind; [frames_steps|]. intros secret s4.
    apply answers_bind; [frames_steps|]. intros token s5. apply answers_bind; [frames_steps|]. intros st s6.
    apply answers_bind; [frames_steps|]. intros compact s7. apply answers_reply, get_peers_replies.
  - apply answers_read_info_hash. intros h s2. split; [done|].
    apply answers_bind; [frames_steps|]. intros secret s4. apply answers_bind; [frames_steps|]. intros token s5.
    cbv zeta. apply answers_bind; [frames_steps|]. intros port s6. apply answers_bind; [frames_steps|]. intros peer s7.
    apply answers_bind; [frames_steps|]. intros u1 s8. apply answers_bind; [frames_steps|]. intros u2 s9.
    destruct (negb _); apply answers_reply; [apply error_replies|apply ping_replies].
  - apply answers_bind; [frames_steps|]. intros st s2. apply answers_bind; [frames_steps|]. intros compact s3.
    apply answers_bind; [frames_steps|]. intros hashes s4. apply answers_reply, sample_replies.
Qed.

Lemma answers_handle_query m addr n s :
  wlp (handle_query hmac_sha1 env cfg m addr n)
    (fun _ s' => datagrams s' = datagrams s \/
      exists t, py_get m (bs "t") = Some (PBytes t) /\ answers t addr n s s') s.
Proof using.
  unfold handle_query. apply wlp_bind, wlp_assert. intros _. apply wlp_bind.
  eapply wlp_mono; [apply silent_count|]. intros u s1 Hs1.
  destruct (py_get m (bs "t")) as [[| | |t| | | |]|]; try by left.
  destruct (py_get m (bs "a")) as [[| | | | | |args|]|]; try by left.
  apply wlp_bind, wlp_lift. intros id _. apply wlp_bind. eapply wlp_mono; [apply answers_query|]. intros u2 s2 Hs2.
  eapply (wlp_mono _ (fun _ s3 => silent s2 s3)).
  { apply (frames_bind silent); [frames_steps|intros; frames_steps]. }
  intros u3 s3 Hs3. right. exists t. split; [done|]. eapply answers_after; [exact Hs1|]. exact (answers_before _ _ _ _ _ _ Hs2 Hs3).
Qed.
End answers.
