(* ===== verification/DhtCrawlerTheorems.v ===== *)
(** The theorems about the crawler's thread: whatever datagrams arrive it runs to
    its end, its state stays bounded, it never sends one address more than its
    limit in a window, it answers a query at most once, and it records a peer exactly
    for the token of its address and a port that can be reached. *)
From S2P Require Import Prelude PyDict Bencode NodeIdentity AddressText Krpc KrpcReplies DhtLookup.
From S2P Require Import DhtLookupSafety DhtLookupAges DhtLookupTheorems CatalogInterface Catalog CatalogInvariant.
From S2P Require Import CatalogSafety CatalogTheorems CatalogClaims DhtCrawler DhtCrawlerSafety.
From S2P Require Import DhtCrawlerLookups DhtCrawlerRun DhtCrawlerTraffic.

(** ** Announces *)

Section announces.
Context `{AddressText} {K : Type} `{CrawlerCatalog K}.
Context (hmac_sha1 : bytes -> bytes -> bytes) (env : environment) (cfg : config).

(** Steps that leave the catalog and the token secret. *)
Definition aside (s s' : crawler K) : Prop := catalog s' = catalog s /\ token_secret s' = token_secret s.

#[local] Instance aside_preorder : PreOrder aside.
Proof using. split; [done|]. unfold aside. intros s s1 s2 [? ?] [? ?]. split; congruence. Qed.

#[local] Hint Extern 1 (frames aside (modify _)) => (apply frames_modify; done) : frames.

Lemma aside_reading {A} (f : nat -> A) : frames aside (reading f).
Proof using. unfold reading. frames_steps. Qed.
Lemma aside_count key k : frames aside (count key k).
Proof using. unfold count. frames_steps. Qed.
#[local] Hint Resolve aside_reading aside_count : frames.
Lemma aside_allow_send ip : frames aside (allow_send env ip).
Proof using. unfold allow_send, read_clock, remember_in. frames_steps. Qed.
#[local] Hint Resolve aside_allow_send : frames.
Lemma aside_send_message n m addr : frames aside (send_message env cfg n m addr).
Proof using. unfold send_message. frames_steps. Qed.
#[local] Hint Resolve aside_send_message : frames.

(** What the catalog is told of an announce: the hash, with a peer when the token
    is the sender's and the port it names can be reached. *)
Lemma announce_records t id args addr n h s :
  valid_info_hash args = Some h ->
  wlp (handle_announce_peer_query hmac_sha1 env cfg t id args addr n) (fun _ s' =>
    exists token port peer, make_token hmac_sha1 (token_secret s) addr.1 = Ok token /\
      (if has_bytes args (bs "token") token then read_announced_port args addr.2 else mret None) = Ok port /\
      match port with
      | Some p => routable ← is_routable_address addr.1 p; mret (if routable : bool then Some (addr.1, p) else None)
      | None => mret None
      end = Ok peer /\
      exists k', catalog_record_hash h SOURCE_ANNOUNCE_PEER peer (catalog s) = Ok (tt, k') /\ catalog s' = k') s.
Proof using.
  intros Hh. unfold handle_announce_peer_query. apply wlp_bind, wlp_assert. intros _.
  assert (read_info_hash env cfg t args addr n = mret (Some h)) as ->.
  { unfold valid_info_hash in Hh. unfold read_info_hash. destruct (py_get args (bs "info_hash")) as [[| | |b| | | |]|]; try done.
    destruct (is_node_id b); [|done]. by injection Hh as ->. }
  apply wlp_bind, wlp_ret. apply wlp_bind, wlp_gets. apply wlp_bind, wlp_lift. intros token Htoken.
  cbv zeta. apply wlp_bind, wlp_lift. intros port Hport. apply wlp_bind, wlp_lift. intros peer Hpeer.
  apply wlp_bind. eapply wlp_mono; [apply (frames_when aside); intros _; apply aside_count|]. intros u s1 [Hc1 _].
  apply wlp_bind. unfold record_hash. apply wlp_bind, wlp_assert. intros _. apply wlp_bind.
  unfold call_catalog, wlp at 1, zoom. rewrite Hc1.
  destruct (catalog_record_hash h SOURCE_ANNOUNCE_PEER peer (catalog s)) as [[[] k']|] eqn:Hk; [|done].
  apply wlp_bind, wlp_modify, wlp_bind, wlp_gets, wlp_assert. intros _.
  set (s2 := set_recent_hashes _ _). assert (catalog s2 = k') as Hs2 by done. clearbody s2.
  eapply (wlp_mono _ (fun _ => aside s2)).
  { destruct (negb _); (apply (frames_bind aside); [frames_steps|intros response]); frames_steps. }
  intros u2 s3 [Hc3 _]. exists token, port, peer. do 3 (split; [done|]). exists k'. split; [done|congruence].
Qed.
End announces.

(** ** Theorems *)

(** The limits of the program leave room for the ids, with as many sockets as it can
    have and a batch every three hours or more often. *)
Lemma default_ids_suffice cfg : DhtCrawler.limits cfg = DEFAULT_LOOKUP_LIMITS -> length (node_sockets cfg) <= 2 * 64 ->
  (interval cfg <= 3 * 3600 * SECOND)%Z -> ids_suffice cfg.
Proof.
  intros Hlim Hsock Hint. unfold ids_suffice, turn_ids, receive_ids, ids_in_use, MAX_RECEIVE_PER_SOCKET. rewrite Hlim.
  change (queries_per_second DEFAULT_LOOKUP_LIMITS) with 420%Z. change (longest_wait DEFAULT_LOOKUP_LIMITS) with 1500000%Z.
  change (alpha DEFAULT_LOOKUP_LIMITS) with 1%Z. change (max_active DEFAULT_LOOKUP_LIMITS) with 256%Z.
  assert (420 * (TOKEN + 1500000 + interval cfg) / TOKEN <= 420 * (TOKEN + 1500000 + 3 * 3600 * SECOND) / TOKEN)%Z as Hdiv.
  { apply Z.div_le_mono; [unfold TOKEN; lia|]. lia. }
  change (420 * (TOKEN + 1500000 + 3 * 3600 * SECOND) / TOKEN)%Z with 4537050%Z in Hdiv. lia.
Qed.

(** C3. The crawler's thread runs to its end.  With any arguments the
    constructor accepts, whatever datagrams the sockets receive, whatever
    [sendto], the resolver and the random numbers answer, and whatever allowed
    calls other threads make on the shared catalog in between, [run] returns its
    counters after any number of turns: no exception leaves it, no assertion fails,
    and at the end no lookup is left.  The limits must leave room for the ids of one
    turn beside those of the queries that may still be pending ([ids_suffice]; the
    default limits do with up to 128 sockets and an interval of up to three hours,
    [default_ids_suffice]); then the ids may wrap around as often as they will. *)
Theorem crawler_run_returns `{AddressText} hmac_sha1 env cfg depth lim wall others turns :
  env_ok env -> cfg_ok cfg -> (forall secret message, TOKEN_LENGTH <= length (hmac_sha1 secret message)) ->
  CatalogInvariant.limits_ok lim -> (forall n, (0 <= wall n)%Z) ->
  (forall n c, CatalogInvariant.inv lim c -> follows ends_lookup lim c (others n c)) ->
  ids_suffice cfg -> Forall (ready_ok cfg) turns ->
  exists s st s', new_crawler env cfg (Shared new_catalog 0) = Ok s /\
    run (H0 := shared_calls lim wall others) hmac_sha1 env cfg depth turns s = Ok (st, s') /\
    active (lookup_manager s') = [] /\ CatalogInvariant.inv lim (contents (catalog s')).
Proof.
  intros Henv Hcfg Hhmac Hlim Hwall Hothers Hids Hturns.
  set (Hlaws := shared_laws lim Hlim wall Hwall others Hothers).
  destruct (new_crawler_at (H1 := Hlaws) env cfg Henv Hcfg (Shared new_catalog 0)) as (s & Hs & Hfresh); [by split; [apply inv_new_catalog|]|].
  pose proof (wp_crawler_run (H1 := Hlaws) hmac_sha1 env cfg depth Henv Hcfg Hhmac Hids turns s Hfresh Hturns) as Hrun. unfold wp in Hrun.
  destruct (run _ _ _ _ _ _) as [[st s']|] eqn:Hr; [|done]. destruct Hrun as [Hok Hact].
  exists s, st, s'. split; [exact Hs|]. split; [exact Hr|]. split; [exact Hact|]. apply (c_catalog _ _ _ _ Hok).
Qed.

(** C5. The crawler's state stays bounded: after any number of turns of the loop, if
    the limits leave room for the ids of a turn ([ids_suffice]), the
    queue and the recent nodes of a family hold no more nodes than their limits,
    all of that family and accepted by the filter, the tables keep to their
    sizes, no more lookups are active than [max_active], and each of them is
    claimed in the catalog. *)
Theorem crawler_state_bounded `{AddressText} hmac_sha1 env cfg depth lim wall others turns :
  env_ok env -> cfg_ok cfg -> (forall secret message, TOKEN_LENGTH <= length (hmac_sha1 secret message)) ->
  CatalogInvariant.limits_ok lim -> (forall n, (0 <= wall n)%Z) ->
  (forall n c, CatalogInvariant.inv lim c -> follows ends_lookup lim c (others n c)) ->
  ids_suffice cfg -> Forall (ready_ok cfg) turns ->
  exists s s', new_crawler env cfg (Shared new_catalog 0) = Ok s /\
    (bootstrap env cfg None ;; next_send ← read_clock env;
     run_turns (H0 := shared_calls lim wall others) hmac_sha1 env cfg depth next_send turns) s = Ok (tt, s') /\
    (forall f st, dict_get f (families s') = Some st ->
       length (node_queue st) <= max_queue cfg /\ length (recent_nodes st) <= RECENT_NODES_SIZE /\
       forall n, n ∈ node_queue st ++ recent_nodes st ->
         address_family (node_ip n) = f /\ lookup_filter cfg n = true) /\
    length (recent_hashes s') <= RECENT_HASHES_SIZE /\ length (sample_backoff s') <= MAX_BACKOFF_ENTRIES /\
    length (fallback_sent s') <= MAX_BACKOFF_ENTRIES /\ length (recently_queued s') <= MAX_BACKOFF_ENTRIES /\
    length (hint_nodes s') <= HINT_NODES_SIZE /\ length (socket_affinity s') <= SOCKET_AFFINITY_SIZE /\
    length (send_windows s') <= SEND_WINDOW_ENTRIES /\
    (Z.of_nat (length (active (lookup_manager s'))) <= max_active (DhtCrawler.limits cfg))%Z /\
    forall h, h ∈ (active (lookup_manager s')).*1 -> running (contents (catalog s')) h.
Proof.
  intros Henv Hcfg Hhmac Hlim Hwall Hothers Hids Hturns.
  set (Hlaws := shared_laws lim Hlim wall Hwall others Hothers).
  destruct (new_crawler_at (H1 := Hlaws) env cfg Henv Hcfg (Shared new_catalog 0)) as (s & Hs & Hfresh); [by split; [apply inv_new_catalog|]|].
  pose proof (wp_turns_from_fresh (H1 := Hlaws) hmac_sha1 env cfg depth Henv Hcfg Hhmac Hids turns s Hfresh Hturns) as Hrun. unfold wp in Hrun.
  match type of Hrun with match ?m with _ => _ end => destruct m as [[[] s']|] eqn:Hr; [|done] end. destruct Hrun as (next & [Hok _ _ _ _]).
  exists s, s'. split; [exact Hs|]. split; [exact Hr|]. split.
  - intros f st Hst. destruct (c_family _ _ _ _ Hok f st Hst) as (_ & Hq & Hrn & Hall1 & Hall2).
    split; [done|]. split; [done|]. intros n Hn. assert (Forall (fun n => good_node cfg n /\ address_family (node_ip n) = f)
      (node_queue st ++ recent_nodes st)) as Hall by (by apply Forall_app).
    rewrite Forall_forall in Hall. destruct (Hall n Hn) as [(_ & _ & _ & ?) ?]. done.
  - split; [apply (c_hashes _ _ _ _ Hok)|]. split; [apply (c_backoff _ _ _ _ Hok)|].
    split; [apply (c_fallback _ _ _ _ Hok)|]. split; [apply (c_queued _ _ _ _ Hok)|].
    split; [apply (c_hints _ _ _ _ Hok)|]. split; [apply (c_affinity _ _ _ _ Hok)|].
    split; [apply (c_windows _ _ _ _ Hok)|]. split; [apply (i_slots _ _ _ _ _ _ (c_manager _ _ _ _ Hok))|].
    apply (c_catalog _ _ _ _ Hok).
Qed.

Lemma new_crawler_silent `{AddressText} {K} env cfg (k : K) s :
  new_crawler env cfg k = Ok s -> send_windows s = [] /\ datagrams s = [].
Proof.
  unfold new_crawler. intros (_ & _ & Hs)%bind_Ok. apply bind_Ok in Hs as (_ & _ & Hs).
  apply bind_Ok in Hs as (_ & _ & Hs). cbv zeta in Hs. apply bind_Ok in Hs as (_ & _ & Hs).
  apply bind_Ok in Hs as (_ & _ & Hs). by injection Hs as <-.
Qed.

(** C4. No address is flooded: in the window of an address, which is open for ten
    seconds, at most 40 datagrams are sent to it, and in any interval of ten seconds
    a run sends at most 80 to one address (two windows of 40), whatever the datagrams
    received ask for, as long as the table of windows has never been full.  The
    README promises 40 in any ten seconds; because the windows are fixed, the end of
    one and the beginning of the next may be full ([eighty_in_ten_seconds]). *)
Theorem send_rate_limited `{AddressText} {K} `{CrawlerCatalog K} hmac_sha1 env cfg depth (k : K) turns s st s' :
  (forall n m, n <= m -> (clock_at env n <= clock_at env m)%Z) ->
  new_crawler env cfg k = Ok s -> run hmac_sha1 env cfg depth turns s = Ok (st, s') ->
  length (send_windows s') < SEND_WINDOW_ENTRIES ->
  forall ip,
    (forall start n, dict_get ip (send_windows s') = Some (start, n) ->
       how_many (fun t => start <= t)%Z (sent_times ip (datagrams s')) <= n <= PER_ADDRESS_MAX_PACKETS)%Z /\
    forall a, (how_many (fun t => a <= t < a + PER_ADDRESS_WINDOW_SECONDS)%Z (sent_times ip (datagrams s'))
      <= 2 * PER_ADDRESS_MAX_PACKETS)%Z.
Proof.
  intros Hclock Hs Hrun Hroom ip. destruct (new_crawler_silent _ _ _ _ Hs) as [Hw Hd].
  pose proof (rated_run hmac_sha1 env cfg depth Hclock turns s) as Hr. unfold wlp in Hr. rewrite Hrun in Hr.
  destruct Hr as (_ & _ & _ & Hrate).
  { rewrite Hw. split; [apply dict_wf_nil|simpl; lia]. }
  specialize (Hrate Hroom). rewrite Hw, Hd in Hrate. specialize (Hrate ltac:(by intros ip')). specialize (Hrate ip).
  destruct (dict_get ip (send_windows s')) as [[start n]|].
  - split; [|apply (w_any _ _ _ _ Hrate)]. intros start' n' [= <- <-]. split; [apply (w_since _ _ _ _ Hrate)|apply (w_count _ _ _ _ Hrate)].
  - split; [done|]. intros a. rewrite Hrate. vm_compute. discriminate.
Qed.

(** C6. A query is answered at most once, to its sender, by the socket that
    received it, with the transaction id of the query and never with a query:
    the crawler amplifies nothing and cannot be made to query a third party. *)
Theorem query_answered_once `{AddressText} {K} `{CrawlerCatalog K} hmac_sha1 env cfg m addr n (s s' : crawler K) :
  handle_query hmac_sha1 env cfg m addr n s = Ok (tt, s') ->
  exists ds, datagrams s' = datagrams s ++ ds /\ length ds <= 1 /\
    forall d, d ∈ ds -> sent_to d = addr /\ sent_by d = n /\
      exists t reply, py_get m (bs "t") = Some (PBytes t) /\ encode_bencode (PDict reply) = Ok (sent_data d) /\
        py_get reply (bs "t") = Some (PBytes t) /\ has_bytes reply (bs "y") (bs "q") = false.
Proof.
  intros Hrun. pose proof (answers_handle_query hmac_sha1 env cfg m addr n s) as Ha. unfold wlp in Ha.
  rewrite Hrun in Ha. destruct Ha as [Hd|(t & Ht & ds & Hd & Hl & Hall)].
  - exists []. rewrite app_nil_r. split; [done|]. split; [simpl; lia|]. by intros d ?%elem_of_nil.
  - exists ds. split; [done|]. split; [done|]. intros d Hin. rewrite Forall_forall in Hall.
    destruct (Hall d Hin) as (Hby & Hto & reply & He & Hr1 & Hr2). split; [done|]. split; [done|].
    by exists t, reply.
Qed.

(** The port an announce names: the one it was sent from if [implied_port] is a number
    other than zero, and otherwise the number under [port]; it must be one of a port. *)
Definition names_port (args : message) (source_port port : Z) : Prop :=
  (0 < port <= 65535)%Z /\
  ((exists i, py_get args (bs "implied_port") = Some (PInt i) /\ i <> 0%Z) /\ port = source_port \/
   (forall i, py_get args (bs "implied_port") = Some (PInt i) -> i = 0%Z) /\ py_get args (bs "port") = Some (PInt port)).

Lemma read_announced_port_names args source_port r : read_announced_port args source_port = Ok r ->
  forall port, r = Some port <-> names_port args source_port port.
Proof.
  unfold read_announced_port, names_port. set (v := match py_get args (bs "implied_port") with Some (PInt _) => _ | _ => _ end).
  intros Hr port. apply bind_Ok in Hr as ([] & _ & Hr). apply bind_Ok in Hr as ([] & _ & Hr). injection Hr as <-.
  assert ((0 < port <= 65535)%Z /\ v = Some (PInt port) <-> match v with
    | Some (PInt p) => if ((0 <? p) && (p <=? 65535))%Z then Some p else None | _ => None end = Some port) as <-.
  { split.
    - intros [Hp ->]. by replace ((0 <? port) && (port <=? 65535))%Z with true by lia.
    - destruct v as [[]|]; try done. destruct (_ && _)%Z eqn:Hp; [|done]. intros [= <-]. split; [lia|done]. }
  apply and_iff_compat_l. unfold v. clear v. destruct (py_get args (bs "implied_port")) as [[| |i| | | | |]|];
    try (split; [by right|intros [[(? & ? & ?) _]|[_ ?]]; [done|done]]).
  destruct (Z.eqb_spec i 0) as [->|Hi]; split.
  - intros H. right. split; [by intros ? [= <-]|done].
  - intros [[(? & [= <-] & ?) _]|[_ ?]]; done.
  - intros [= <-]. left. split; [by exists i|done].
  - intros [[_ ->]|[H _]]; [done|]. by specialize (H i eq_refl).
Qed.

(** C7. A peer is recorded exactly for the token of its address: an announce of a
    valid hash is recorded once, and with a peer if and only if its token is the one
    this crawler gives to the sender's address and the port it names can be reached
    there; the peer is then the sender's address with that port. *)
Theorem announce_needs_token `{AddressText} {K} `{CrawlerCatalog K} hmac_sha1 env cfg t id args addr n h (s s' : crawler K) :
  valid_info_hash args = Some h -> handle_announce_peer_query hmac_sha1 env cfg t id args addr n s = Ok (tt, s') ->
  exists token peer, make_token hmac_sha1 (token_secret s) addr.1 = Ok token /\
    catalog_record_hash h SOURCE_ANNOUNCE_PEER peer (catalog s) = Ok (tt, catalog s') /\
    forall ip port, peer = Some (ip, port) <->
      has_bytes args (bs "token") token = true /\ ip = addr.1 /\ names_port args addr.2 port /\ is_routable_address ip port = Ok true.
Proof.
  intros Hh Hrun. pose proof (announce_records hmac_sha1 env cfg t id args addr n h s Hh) as Ha. unfold wlp in Ha.
  rewrite Hrun in Ha. destruct Ha as (token & port & peer & Htoken & Hport & Hpeer & k' & Hk & Hs').
  exists token, peer. split; [done|]. split; [by rewrite Hs'|]. intros ip p.
  destruct (has_bytes args (bs "token") token).
  - pose proof (read_announced_port_names args addr.2 port Hport) as Hnames. destruct port as [q|].
    + apply bind_Ok in Hpeer as (routable & Hq & Hpeer). injection Hpeer as <-. split.
      * destruct routable; [|done]. intros [= <- <-]. split; [done|]. split; [done|]. by split; [apply Hnames|].
      * intros (_ & -> & Hp%Hnames & Hr). injection Hp as ->. rewrite Hq in Hr. by injection Hr as ->.
    + injection Hpeer as <-. split; [done|]. intros (_ & _ & Hp%Hnames & _). done.
  - injection Hport as <-. injection Hpeer as <-. split; [done|]. by intros [? _].
Qed.

(** ** Examples *)

#[local] Existing Instance plain_address_text.

Definition example_socket : node_socket := NodeSocket 0 (replicate 20 Byte.x11) 6881 AF_INET.
Definition example_config : config :=
  Config [example_socket] [(bs "8.8.8.8", 6881%Z)] 1 SECOND 10 100 DEFAULT_LOOKUP_LIMITS.
Definition example_environment : environment :=
  Environment (fun n => Z.of_nat n * 100000)%Z (fun _ len => replicate len Byte.x07) (fun _ => false)
    (fun _ host _ _ => Some [host]).
Definition example_hmac (secret message : bytes) : bytes := replicate 20 Byte.x21.

(** Another thread that records a hash before the first call of the crawler. *)
Definition example_others (n : nat) (c : Catalog.catalog) : list (Z * call) :=
  if decide (n = 0) then [(0%Z, Record_hash hash_b SOURCE_GET_PEERS None)] else [].

#[local] Instance example_catalog : CrawlerCatalog shared_catalog :=
  shared_calls default_limits (fun _ => 0%Z) example_others.

Definition example_sender : address := (bs "9.9.9.9", 6881%Z).
Definition ping_datagram : bytes := bs "d1:ad2:id20:abcdefghij0123456789e1:q4:ping1:t2:aa1:y1:qe".
Definition garbage_datagram : bytes := bs "d1:al".
Definition example_turns : list (list (node_socket * list received)) :=
  [[(example_socket, [Received ping_datagram example_sender; Connection_reset;
                      Received garbage_datagram example_sender; Would_block])]; []].

Lemma example_environment_ok : env_ok example_environment.
Proof.
  split; [|split]; simpl; [lia|lia|]. intros _ len. apply length_replicate.
Qed.

Lemma example_config_ok : cfg_ok example_config.
Proof.
  split; [done|]. split; [by apply Forall_singleton|]. split; [done|]. split; [done|]. split; [simpl; lia|].
  split; [done|]. split; [done|]. split; [by apply Forall_singleton|]. apply default_lookup_limits_ok.
Qed.

Lemma example_others_ok n c : CatalogInvariant.inv default_limits c -> follows ends_lookup default_limits c (example_others n c).
Proof. intros _. unfold example_others. case_decide; [|done]. by repeat split. Qed.

Lemma example_turns_ok : Forall (ready_ok example_config) example_turns.
Proof.
  assert (source_ok example_sender) as Hs.
  { split; [vm_compute; by split|]. intros _. vm_compute. by eexists. }
  repeat first [apply NoDup_nil_2|apply NoDup_singleton|constructor]; vm_compute; try done; first [left|by eexists].
Qed.

Lemma crawler_run_returns_witness :
  exists s st s', new_crawler example_environment example_config (Shared new_catalog 0) = Ok s /\
    run example_hmac example_environment example_config 100 example_turns s = Ok (st, s') /\
    active (lookup_manager s') = [] /\ CatalogInvariant.inv default_limits (contents (catalog s')).
Proof.
  apply (crawler_run_returns example_hmac example_environment example_config 100 default_limits (fun _ => 0%Z)
    example_others example_turns example_environment_ok example_config_ok).
  - intros secret message. vm_compute. lia.
  - apply default_limits_ok.
  - lia.
  - apply example_others_ok.
  - vm_compute. discriminate.
  - apply example_turns_ok.
Defined.

(** The crawler after a computation that returns. *)
Definition ended {A S} (r : res (A * S)) (s : S) : S := match r with Ok (_, s') => s' | Raise _ => s end.

Definition example_new : crawler shared_catalog :=
  match new_crawler example_environment example_config (Shared new_catalog 0) with
  | Ok s => s
  | Raise _ => Crawler [] [] [] [] [] [] [] [] [] [] (fun _ => 0%Z) (new_manager DEFAULT_LOOKUP_LIMITS 0)
                 (Shared new_catalog 0) false 0 []
  end.

(** The ping of the example is answered, after the queries of the bootstrap and
    of the first crawl. *)
Example ping_is_answered :
  let s' := ended (run example_hmac example_environment example_config 100 example_turns example_new) example_new in
  (fun d => ((sent_to d).1, sent_data d)) <$> drop 1 (datagrams s') =
    [(bs "9.9.9.9", bs "d1:rd2:id20:abcdefghij01234" ++ replicate 5 Byte.x11 ++ bs "e1:t2:aa1:y1:re")].
Proof. vm_compute. reflexivity. Qed.

Lemma crawler_state_bounded_witness :
  exists s s', new_crawler example_environment example_config (Shared new_catalog 0) = Ok s /\
    (bootstrap example_environment example_config None ;; next_send ← read_clock example_environment;
     run_turns example_hmac example_environment example_config 100 next_send example_turns) s = Ok (tt, s') /\
    (forall st, dict_get AF_INET (families s') = Some st -> length (node_queue st) <= 10) /\
    (Z.of_nat (length (active (lookup_manager s'))) <= max_active DEFAULT_LOOKUP_LIMITS)%Z.
Proof.
  destruct (crawler_state_bounded example_hmac example_environment example_config 100 default_limits (fun _ => 0%Z)
    example_others example_turns example_environment_ok example_config_ok) as (s & s' & Hs & Hr & Hf & Hrest).
  - intros secret message. vm_compute. lia.
  - apply default_limits_ok.
  - lia.
  - apply example_others_ok.
  - vm_compute. discriminate.
  - apply example_turns_ok.
  - exists s, s'. split; [exact Hs|]. split; [exact Hr|]. split; [|apply Hrest].
    intros st Hst. apply (Hf AF_INET st Hst).
Defined.

Lemma send_rate_limited_witness :
  let s' := ended (run example_hmac example_environment example_config 100 example_turns example_new) example_new in
  sent_times (bs "9.9.9.9") (datagrams s') = [1200000]%Z /\
  forall a, (how_many (fun t => a <= t < a + PER_ADDRESS_WINDOW_SECONDS)%Z
    (sent_times (bs "9.9.9.9") (datagrams s')) <= 80)%Z.
Proof.
  intros s'. split; [vm_compute; reflexivity|].
  assert (exists st, run example_hmac example_environment example_config 100 example_turns example_new = Ok (st, s'))
    as [st Hrun] by (eexists; vm_compute; reflexivity).
  refine (proj2 (send_rate_limited example_hmac example_environment example_config 100 (Shared new_catalog 0) example_turns
    example_new st s' _ _ Hrun _ (bs "9.9.9.9"))).
  - intros n m Hnm. simpl. lia.
  - vm_compute. reflexivity.
  - apply Nat.ltb_lt. vm_compute. reflexivity.
Defined.

(** A window that opens early and is filled at its end, and the next one: 79 datagrams
    may be sent within a tenth of a second. *)
Fixpoint ask_to_send (env : environment) (ip : text) (n : nat) : ST (crawler shared_catalog) Z :=
  match n with
  | O => mret 0%Z
  | S n => allowed ← allow_send env ip; rest ← ask_to_send env ip n; mret (Z.b2z allowed + rest)%Z
  end.

Example eighty_in_ten_seconds :
  let clock n := if decide (n <= 2) then 0%Z else if decide (n <= 41) then 9900000%Z else 10000000%Z in
  let env := Environment clock (random_at example_environment) (fun _ => false) (getaddrinfo example_environment) in
  match ask_to_send env (bs "9.9.9.9") 100 example_new with Ok (sent, _) => sent = 80%Z | Raise _ => False end.
Proof. vm_compute. reflexivity. Qed.

Definition ping_query : list (pykey * pyval) :=
  match decode_bencode 100 ping_datagram with Ok (PDict m) => m | _ => [] end.

Lemma query_answered_once_witness :
  let s' := ended (handle_query example_hmac example_environment example_config ping_query example_sender
    example_socket example_new) example_new in
  length (datagrams s') = 1 /\ forall d, d ∈ datagrams s' -> sent_to d = example_sender.
Proof.
  intros s'. split; [vm_compute; reflexivity|].
  destruct (query_answered_once example_hmac example_environment example_config ping_query example_sender
    example_socket example_new s') as (ds & Hd & _ & Hall); [vm_compute; reflexivity|].
  change (datagrams example_new) with (@nil datagram) in Hd. rewrite Hd. intros d Hin. by apply Hall.
Defined.

(** An announce with the token of its address, of a port the sender can be
    reached at. *)
Definition announce_args : list (pykey * pyval) :=
  literal [(bs "id", PBytes (bs "abcdefghij0123456789")); (bs "info_hash", PBytes hash_a);
           (bs "port", PInt 6881); (bs "token", PBytes (replicate TOKEN_LENGTH Byte.x21))].

Lemma announce_needs_token_witness :
  let s' := ended (handle_announce_peer_query example_hmac example_environment example_config (bs "aa") hash_b
    announce_args example_sender example_socket example_new) example_new in
  exists token, make_token example_hmac (token_secret example_new) (bs "9.9.9.9") = Ok token /\
    catalog_record_hash hash_a SOURCE_ANNOUNCE_PEER (Some (bs "9.9.9.9", 6881%Z)) (catalog example_new) =
      Ok (tt, catalog s').
Proof.
  intros s'. destruct (announce_needs_token example_hmac example_environment example_config (bs "aa") hash_b announce_args
    example_sender example_socket hash_a example_new s') as (token & peer & Htoken & Hk & Hpeer);
    [vm_compute; reflexivity|vm_compute; reflexivity|].
  exists token. split; [exact Htoken|]. assert (peer = Some (bs "9.9.9.9", 6881%Z)) as Heq; [|by rewrite Heq in Hk].
  apply Hpeer. split; [vm_compute in Htoken; injection Htoken as <-; vm_compute; reflexivity|]. split; [reflexivity|].
  split; [|vm_compute; reflexivity]. split; [lia|]. right. split; [|vm_compute; reflexivity]. intros i Hi. vm_compute in Hi. discriminate Hi.
Defined.
