(* ===== verification/Tasks.v ===== *)
(** Coroutines: code of the event loop's thread that reads and writes a state,
    may raise, and whose state is still there when it raises, so that
    [finally] and [except] clauses run on it.  With their triples, and the
    relation of two tasks that take the same steps on two related states. *)
From S2P Require Import Prelude.

(** A task run from a state: its outcome, and the state it leaves. *)
Definition task (S A : Type) : Type := S -> res A * S.

#[global] Instance task_ret {S} : MRet (task S) := fun A a s => (Ok a, s).
#[global] Instance task_bind {S} : MBind (task S) := fun A B f m s =>
  match m s with (Ok a, s') => f a s' | (Raise e, s') => (Raise e, s') end.

Definition throw {S A} (e : exn) : task S A := fun s => (Raise e, s).
Definition reads {S A} (f : S -> A) : task S A := fun s => (Ok (f s), s).
Definition change {S} (f : S -> S) : task S unit := fun s => (Ok tt, f s).
(** A call that does not touch the state. *)
Definition call {S A} (r : res A) : task S A := fun s => (r, s).
Definition check {S} (c : bool) : task S unit := call (assert_ c).

(** [try: m except: h], where [h] sees the exception and may raise it again. *)
Definition catch {S A} (m : task S A) (h : exn -> task S A) : task S A := fun s =>
  match m s with (Ok a, s') => (Ok a, s') | (Raise e, s') => h e s' end.

(** [try: m finally: f] *)
Definition finally {S A} (m : task S A) (f : task S unit) : task S A := fun s =>
  let '(r, s') := m s in
  match f s' with (Ok _, s'') => (r, s'') | (Raise e, s'') => (Raise e, s'') end.

(** [if condition: m] *)
Definition when {S} (c : bool) (m : task S unit) : task S unit := if c then m else mret tt.

(** [for x in l: f(x)] *)
Fixpoint each {S A} (f : A -> task S unit) (l : list A) : task S unit :=
  match l with [] => mret tt | x :: l => f x ;; each f l end.

Lemma call_then {S A B} (r : res A) a (f : A -> task S B) s : r = Ok a -> (call r ≫= f) s = f a s.
Proof. by intros ->. Qed.

Lemma reads_then {S A B} (g : S -> A) (f : A -> task S B) s : (reads g ≫= f) s = f (g s) s.
Proof. done. Qed.

(** ** Triples *)

(** [m] from [s] either returns with [Q] or raises with [E]. *)
Definition tri {S A} (m : task S A) (Q : A -> S -> Prop) (E : exn -> S -> Prop) (s : S) : Prop :=
  match m s with (Ok a, s') => Q a s' | (Raise e, s') => E e s' end.

Section triples.
Context {S : Type}.
Implicit Types (s : S) (E : exn -> S -> Prop).

Lemma tri_mono {A} (m : task S A) (Q Q' : A -> S -> Prop) E E' s :
  tri m Q E s -> (forall a s', Q a s' -> Q' a s') -> (forall e s', E e s' -> E' e s') -> tri m Q' E' s.
Proof. unfold tri. destruct (m s) as [[a|e] s']; auto. Qed.

Lemma tri_bind {A B} (m : task S A) (f : A -> task S B) Q E s :
  tri m (fun a s' => tri (f a) Q E s') E s -> tri (m ≫= f) Q E s.
Proof. unfold tri, mbind, task_bind. by destruct (m s) as [[a|e] s']. Qed.

Lemma tri_ret {A} (a : A) (Q : A -> S -> Prop) E s : Q a s -> tri (mret a) Q E s.
Proof. done. Qed.

Lemma tri_throw {A} e (Q : A -> S -> Prop) E s : E e s -> tri (throw e) Q E s.
Proof. done. Qed.

Lemma tri_reads {A} (f : S -> A) (Q : A -> S -> Prop) E s : Q (f s) s -> tri (reads f) Q E s.
Proof. done. Qed.

Lemma tri_change f (Q : unit -> S -> Prop) E s : Q tt (f s) -> tri (change f) Q E s.
Proof. done. Qed.

Lemma tri_call {A} (r : res A) (Q : A -> S -> Prop) E s :
  returns r (fun a => Q a s) (fun e => E e s) -> tri (call r) Q E s.
Proof. done. Qed.

Lemma tri_call_Ok {A} (r : res A) a (Q : A -> S -> Prop) E s : r = Ok a -> Q a s -> tri (call r) Q E s.
Proof. by intros ->. Qed.

Lemma tri_check c (Q : unit -> S -> Prop) E s : c = true -> Q tt s -> tri (check c) Q E s.
Proof. by intros ->. Qed.

Lemma tri_catch {A} (m : task S A) h Q E s :
  tri m Q (fun e s' => tri (h e) Q E s') s -> tri (catch m h) Q E s.
Proof. unfold tri, catch. by destruct (m s) as [[a|e] s']. Qed.

Lemma tri_finally {A} (m : task S A) f (Q : A -> S -> Prop) E s :
  tri m (fun a s' => tri f (fun _ s'' => Q a s'') E s')
        (fun e s' => tri f (fun _ s'' => E e s'') E s') s ->
  tri (finally m f) Q E s.
Proof.
  unfold tri, finally. destruct (m s) as [[a|e] s']; destruct (f s') as [[u|e'] s'']; done.
Qed.

Lemma tri_when (c : bool) (m : task S unit) Q E s :
  (c = true -> tri m Q E s) -> (c = false -> Q tt s) -> tri (when c m) Q E s.
Proof. intros Hm Hq. destruct c; [by apply Hm|by apply tri_ret, Hq]. Qed.

(** A loop with an invariant on the elements still to come. *)
Lemma tri_each {A} (f : A -> task S unit) (I : list A -> S -> Prop) E l s :
  I l s -> (forall x l s, I (x :: l) s -> tri (f x) (fun _ => I l) E s) ->
  tri (each f l) (fun _ => I []) E s.
Proof.
  intros Hs Hf. revert s Hs. induction l as [|x l IH]; intros s Hs; cbn [each]; [done|].
  apply tri_bind. eapply tri_mono; [by apply Hf| |done]. intros [] s' Hs'. by apply IH.
Qed.

Lemma tri_and {A} (m : task S A) Q E Q' E' s :
  tri m Q E s -> tri m Q' E' s ->
  tri m (fun a s' => Q a s' /\ Q' a s') (fun e s' => E e s' /\ E' e s') s.
Proof. unfold tri. destruct (m s) as [[a|e] s']; auto. Qed.
End triples.

(** ** Two tasks in step *)

(** From related states the two tasks return related values, or raise the same
    exception, in related states; nothing is asked of the first when the
    second raises and [lax] holds. *)
Definition in_step {S T A B} (lax : Prop) (R : S -> T -> Prop) (V : A -> B -> Prop)
    (m : task S A) (n : task T B) : Prop := forall s t, R s t ->
  match n t, m s with
  | (Ok b, t'), (Ok a, s') => V a b /\ R s' t'
  | (Raise e, t'), (Raise e', s') => lax \/ e' = e /\ R s' t'
  | (Raise _, _), (Ok _, _) => lax
  | (Ok _, _), (Raise _, _) => False
  end.

Section in_step.
Context {S T : Type} (lax : Prop) (R : S -> T -> Prop).

Lemma step_bind {A B A' B'} (V : A -> B -> Prop) (W : A' -> B' -> Prop)
    (m : task S A) (n : task T B) (f : A -> task S A') (g : B -> task T B') :
  in_step lax R V m n -> (forall a b, V a b -> in_step lax R W (f a) (g b)) ->
  in_step lax R W (m ≫= f) (n ≫= g).
Proof.
  intros Hm Hf s t Hs. specialize (Hm s t Hs). unfold mbind, task_bind.
  destruct (n t) as [[b|e] t'], (m s) as [[a|e'] s']; try done.
  - destruct Hm as [HV HR]. by apply (Hf a b HV).
  - destruct (f a s') as [[]]; auto.
Qed.

Lemma step_ret {A B} (V : A -> B -> Prop) a b : V a b -> in_step lax R V (mret a) (mret b).
Proof. done. Qed.

Lemma step_throw {A B} (V : A -> B -> Prop) e : in_step lax R V (throw e) (throw e).
Proof. intros s t Hs. simpl. auto. Qed.

Lemma step_call {A} (r : res A) : in_step lax R eq (call r) (call r).
Proof. intros s t Hs. unfold call. destruct r; auto. Qed.

Lemma step_catch {A B} (V : A -> B -> Prop) (m : task S A) (n : task T B) h k :
  (lax -> forall e t a t', h e t <> (Ok a, t')) -> (lax -> forall e t b t', k e t <> (Ok b, t')) ->
  in_step lax R V m n -> (forall e, in_step lax R V (h e) (k e)) ->
  in_step lax R V (catch m h) (catch n k).
Proof.
  intros Hh Hk Hm Hc s t Hs. specialize (Hm s t Hs). unfold catch.
  destruct (n t) as [[b|e] t'] eqn:Hn, (m s) as [[a|e'] s'] eqn:Hms; try done.
  - destruct (k e t') as [[b|]] eqn:?; [|done]. exfalso. by eapply Hk.
  - destruct Hm as [Hl|[-> HR]]; [|by apply Hc].
    destruct (k e t') as [[b|]] eqn:?; [exfalso; by eapply Hk|].
    destruct (h e' s') as [[a|]] eqn:?; [exfalso; by eapply Hh|]. by left.
Qed.
End in_step.

(** Symbolic execution of a task, one construct at a time. *)
Ltac tri_step :=
  lazymatch goal with
  | |- tri (_ ≫= _) _ _ _ => apply tri_bind
  | |- tri (mret _) _ _ _ => apply tri_ret
  | |- tri (throw _) _ _ _ => apply tri_throw
  | |- tri (reads _) _ _ _ => apply tri_reads
  | |- tri (change _) _ _ _ => apply tri_change
  | |- tri (catch _ _) _ _ _ => apply tri_catch
  | |- tri (finally _ _) _ _ _ => apply tri_finally
  end.
Ltac tri_steps := repeat tri_step; cbn beta.
