(* ===== verification/MetadataSession.v ===== *)
(** Metadata sessions ([metadata_fetcher.py]): what a session needs of a byte
    stream, and the session itself: the BEP 3 handshake, the BEP 10 extended
    handshake and the BEP 9 exchange of metadata pieces, for any stream.

    Times are integers of microseconds on the event loop's clock.  [fuel]
    bounds the frames a session reads: every turn of its loops consumes at
    least one byte of the stream. *)
From S2P Require Import Prelude PyDict Bencode NodeIdentity Krpc PeerWire Tasks.

Definition PIECE_WINDOW : nat := 8.

(** [FetchTimeouts], in microseconds. *)
Record FetchTimeouts : Type := {
  connect : Z;
  handshake : Z;
  piece : Z;
  session : Z;
  utp_connect : Z;
}.

Definition DEFAULT_TIMEOUTS : FetchTimeouts :=
  {| connect := 1000000; handshake := 4000000; piece := 5000000;
     session := 15000000; utp_connect := 2000000 |}.

Definition FETCH_REASONS : list string := [
  "connect"; "connect_timeout"; "closed"; "closed_on_handshake"; "timeout"; "stopped"; "bad_handshake"; "hash_mismatch";
  "no_extensions"; "no_ut_metadata"; "too_large"; "reject"; "bad_piece"; "sha1_mismatch"; "frame_too_large";
  "bad_extended_message"; "encryption_failed"; "local_error"]%string.

(** [MetadataFetchError(reason)], whose constructor asserts its reason. *)
Definition fetch_error (reason : string) : exn :=
  if bool_decide (reason ∈ FETCH_REASONS) then MetadataFetchError reason else AssertionError.

(** ** The stream of a session *)

(** [ByteStream], and the clock of the loop it lives on.  [write] and [close]
    return at once. *)
Class ByteStream (S : Type) : Type := {
  loop_time : S -> Z;
  read_exactly : nat -> Z -> string -> task S bytes;
  write : bytes -> task S unit;
  close : task S unit;
}.

Section session.
Context {S : Type} `{!ByteStream S}.
(** [hashlib.sha1(data).digest()] *)
Variable sha1 : bytes -> bytes.
(** The recursion limit left to the bencode decoder. *)
Variable depth : nat.

Definition now : task S Z := reads loop_time.
Definition send (data : bytes) : task S unit :=
  check (negb (bool_decide (data = []))) ;; write data.

(** ** Frames *)

Definition read_frame (deadline : Z) : task S (Z * bytes) :=
  check (0 <=? deadline)%Z ;;
  header ← read_exactly FRAME_HEADER_LENGTH deadline "closed";
  length ← call (decode_frame_length header);
  if (length =? 0)%Z then mret (KEEP_ALIVE_ID, [])
  else if (MAX_FRAME_LENGTH <? length)%Z then throw (fetch_error "frame_too_large")
  else
    body ← read_exactly (Z.to_nat length) deadline "closed";
    let result := (byte_value body 0, drop 1 body) in
    check ((0 <=? result.1) && (result.1 <=? 255))%Z ;;
    mret result.

(** The clauses [except ValueError] and [except (ValueError, RecursionError)]
    around a call: the exceptions they catch become a [MetadataFetchError]. *)
Definition value_error_as {A} (reason : string) (r : res A) : res A :=
  match r with Raise (ValueError _) => Raise (fetch_error reason) | _ => r end.
Definition decode_error_as {A} (reason : string) (r : res A) : res A :=
  match r with
  | Raise (ValueError _) | Raise RecursionError => Raise (fetch_error reason)
  | _ => r
  end.
(** [except ValueError as error: raise MetadataFetchError(str(error))] *)
Definition value_error_named {A} (r : res A) : res A :=
  match r with Raise (ValueError reason) => Raise (fetch_error reason) | _ => r end.

(** ** Handshakes *)

Definition read_handshake (info_hash : bytes) (deadline : Z) : task S unit :=
  check (is_node_id info_hash) ;;
  data ← read_exactly HANDSHAKE_LENGTH deadline "closed_on_handshake";
  '(remote_hash, _, supports_extensions) ← call (value_error_as "bad_handshake" (decode_handshake data));
  if negb (bool_decide (remote_hash = info_hash)) then throw (fetch_error "hash_mismatch")
  else if negb supports_extensions then throw (fetch_error "no_extensions")
  else mret tt.

(** [receive_extended]: frames are skipped until an extended message with the
    wanted id. *)
Fixpoint receive_extended (fuel : nat) (extension_id deadline : Z)
    : task S (list (pykey * pyval) * bytes) :=
  check ((0 <=? extension_id) && (extension_id <=? 255))%Z ;;
  match fuel with
  | O => throw Diverge
  | Datatypes.S fuel =>
      '(message_id, body) ← read_frame deadline;
      if negb (message_id =? MESSAGE_EXTENDED)%Z then receive_extended fuel extension_id deadline
      else
        '(received_id, payload, trailing) ←
          call (decode_error_as "bad_extended_message" (decode_extended_message depth body));
        if (received_id =? extension_id)%Z then mret (payload, trailing)
        else receive_extended fuel extension_id deadline
  end.

Definition receive_extended_handshake (fuel : nat) (deadline : Z) : task S (Z * Z) :=
  check (0 <=? deadline)%Z ;;
  '(payload, _) ← receive_extended fuel EXTENDED_HANDSHAKE_ID deadline;
  result ← call (value_error_named (read_extended_handshake payload));
  check ((1 <=? result.1) && (result.1 <=? 255) && (0 <? result.2))%Z ;;
  mret result.

(** ** Pieces *)

Fixpoint receive_piece (fuel : nat) (outstanding : gset Z) (metadata_size deadline : Z)
    : task S (Z * bytes) :=
  check (negb (bool_decide (outstanding = ∅)) && (0 <? metadata_size)%Z) ;;
  match fuel with
  | O => throw Diverge
  | Datatypes.S fuel =>
      '(payload, data) ← receive_extended (Datatypes.S fuel) UT_METADATA_LOCAL_ID deadline;
      '(msg_type, piece, total_size) ←
        call (value_error_as "bad_piece" (decode_metadata_message payload));
      if negb (bool_decide (piece ∈ outstanding)) then receive_piece fuel outstanding metadata_size deadline
      else if (msg_type =? MSG_TYPE_REJECT)%Z then throw (fetch_error "reject")
      else if negb (msg_type =? MSG_TYPE_DATA)%Z then receive_piece fuel outstanding metadata_size deadline
      else
        expected ← call (expected_piece_length metadata_size piece);
        if negb (Z.of_nat (length data) =? expected)%Z
           || match total_size with Some t => negb (t =? metadata_size)%Z | None => false end
        then throw (fetch_error "bad_piece")
        else mret (piece, data)
  end.

(** The inner loop of [request_pieces]: requests are written until all are out
    or [PIECE_WINDOW] of them are unanswered; it makes at most [PIECE_WINDOW]
    turns. *)
Fixpoint fill_window (turns : nat) (their_id count : Z) (outstanding : gset Z) (next_piece : Z)
    : task S (gset Z * Z) :=
  if ((next_piece <? count)%Z && bool_decide (size outstanding < PIECE_WINDOW)) then
    match turns with
    | O => throw Diverge
    | Datatypes.S turns =>
        request ← call (encode_metadata_request their_id next_piece);
        send request ;;
        fill_window turns their_id count ({[next_piece]} ∪ outstanding) (next_piece + 1)
    end
  else mret (outstanding, next_piece).

(** The outer loop of [request_pieces]: [pieces] has the pieces received. *)
Fixpoint collect_pieces (fuel : nat) (their_id metadata_size : Z) (timeouts : FetchTimeouts)
    (session_deadline count : Z) (pieces : gmap Z bytes) (outstanding : gset Z) (next_piece : Z)
    : task S (gmap Z bytes) :=
  if (Z.of_nat (size pieces) <? count)%Z then
    match fuel with
    | O => throw Diverge
    | Datatypes.S fuel =>
        '(outstanding, next_piece) ← fill_window PIECE_WINDOW their_id count outstanding next_piece;
        time ← now;
        '(piece, data) ← receive_piece (Datatypes.S fuel) outstanding metadata_size
                           (Z.min session_deadline (time + timeouts.(piece)));
        collect_pieces fuel their_id metadata_size timeouts session_deadline count
          (<[piece := data]> pieces) (outstanding ∖ {[piece]}) next_piece
    end
  else mret pieces.

(** [b"".join(pieces[index] for index in range(count))] *)
Definition join_pieces (pieces : gmap Z bytes) (count : Z) : res bytes :=
  parts ← sequence ((fun index => match pieces !! Z.of_nat index with
                                  | Some data => Ok data
                                  | None => Raise KeyError
                                  end) <$> seq 0 (Z.to_nat count));
  mret (concat parts).

Definition request_pieces (fuel : nat) (their_id metadata_size : Z) (timeouts : FetchTimeouts)
    (session_deadline : Z) : task S bytes :=
  check ((1 <=? their_id) && (their_id <=? 255) && (0 <? metadata_size))%Z ;;
  count ← call (piece_count metadata_size);
  pieces ← collect_pieces fuel their_id metadata_size timeouts session_deadline count ∅ ∅ 0;
  result ← call (join_pieces pieces count);
  check (Z.of_nat (length result) =? metadata_size)%Z ;;
  mret result.

(** ** Sessions *)

(** [random] is what [generate_peer_id] draws. *)
Definition opening_messages (info_hash random : bytes) : res bytes :=
  assert_ (is_node_id info_hash) ;;
  peer_id ← generate_peer_id random;
  handshake ← encode_handshake info_hash peer_id;
  extended ← encode_extended_handshake;
  let result := handshake ++ extended in
  assert_ (bool_decide (HANDSHAKE_LENGTH < length result)) ;;
  mret result.

Definition run_session (fuel : nat) (random info_hash : bytes) (timeouts : FetchTimeouts)
    (session_deadline : Z) (send_handshakes : bool) : task S bytes :=
  check (is_node_id info_hash) ;;
  (if send_handshakes then data ← call (opening_messages info_hash random); send data else mret tt) ;;
  time ← now;
  let handshake_deadline := Z.min session_deadline (time + timeouts.(handshake)) in
  read_handshake info_hash handshake_deadline ;;
  '(their_id, metadata_size) ← receive_extended_handshake fuel handshake_deadline;
  result ← request_pieces fuel their_id metadata_size timeouts session_deadline;
  check (Z.of_nat (length result) =? metadata_size)%Z ;;
  mret result.

Definition verify_metadata (info_hash metadata : bytes) : res unit :=
  assert_ (is_node_id info_hash) ;;
  raise_if (negb (bool_decide (sha1 metadata = info_hash))) (fetch_error "sha1_mismatch").
End session.
