(* ===== verification/MetadataSessionSafety.v ===== *)
(** What a metadata session keeps, over any stream that keeps its promises:
    it ends by its deadline, whatever the peer sends it fails only with a named
    [MetadataFetchError], it holds at most [PIECE_WINDOW] unanswered requests
    and returns metadata of the announced size. *)
From S2P Require Import Prelude PyDict Bencode NodeIdentity Krpc PeerWire Tasks MetadataSession.

(** A [MetadataFetchError] with one of the known reasons. *)
Definition named (e : exn) : Prop := exists reason, reason ∈ FETCH_REASONS /\ e = MetadataFetchError reason.

(** From [t] the clock has gone to [t'], no further than the deadline. *)
Definition by_deadline (deadline t t' : Z) : Prop := (t <= t' <= Z.max t deadline)%Z.

(** What a stream promises to a session, in the states [ok]: a read returns
    the bytes it was asked for, by its deadline, or fails with a named error;
    [unread] bounds the bytes that are still to come. *)
Class ByteStreamLaws {S} (stream : ByteStream S) : Type := {
  ok : S -> Prop;
  unread : S -> nat;
  law_read s n deadline reason :
    ok s -> 0 < n -> reason ∈ FETCH_REASONS ->
    tri (read_exactly n deadline reason)
      (fun data s' => length data = n /\ ok s' /\ unread s' + n <= unread s /\
                      by_deadline deadline (loop_time s) (loop_time s'))
      (fun e s' => named e /\ ok s' /\ unread s' <= unread s /\
                   by_deadline deadline (loop_time s) (loop_time s')) s;
  law_write s data :
    ok s -> data <> [] ->
    tri (write data) (fun _ t => ok t /\ unread t = unread s /\ loop_time t = loop_time s) (fun _ _ => False) s;
}.

Lemma fetch_error_known reason : reason ∈ FETCH_REASONS -> fetch_error reason = MetadataFetchError reason.
Proof. intros Hr. unfold fetch_error. by rewrite bool_decide_eq_true_2. Qed.

Lemma named_fetch_error reason : reason ∈ FETCH_REASONS -> named (fetch_error reason).
Proof. intros Hr. exists reason. by rewrite fetch_error_known. Qed.

(** The reason is one of the list, by looking it up. *)
Ltac known := by apply (bool_decide_unpack _); vm_compute.

Lemma by_deadline_trans D t1 t2 t3 : by_deadline D t1 t2 -> by_deadline D t2 t3 -> by_deadline D t1 t3.
Proof. unfold by_deadline. lia. Qed.

Lemma by_deadline_le D D' t t' : (D <= D')%Z -> by_deadline D t t' -> by_deadline D' t t'.
Proof. unfold by_deadline. lia. Qed.

(** ** Calls of a session that cannot fail *)

Definition request_payload (piece : Z) : list (pykey * pyval) :=
  literal [(bs "msg_type", PInt MSG_TYPE_REQUEST); (bs "piece", PInt piece)].

Definition request_body_short (piece : nat) : bool :=
  match encode_bencode (PDict (request_payload (Z.of_nat piece))) with
  | Ok body => (Z.of_nat (length body) <? 100)%Z
  | Raise _ => false
  end.

Lemma request_bodies_short : forallb request_body_short (seq 0 256) = true.
Proof. vm_compute. reflexivity. Qed.

Lemma piece_count_small metadata_size count :
  (0 < metadata_size <= MAX_METADATA_SIZE)%Z -> piece_count metadata_size = Ok count -> (1 <= count <= 256)%Z.
Proof.
  intros Hm Hc. destruct (piece_count_eq metadata_size) as (c & Hc' & H1 & H2); [lia|].
  rewrite Hc in Hc'. injection Hc' as <-. unfold MAX_METADATA_SIZE, METADATA_PIECE_SIZE in *. lia.
Qed.

Lemma encode_extended_message_eq extension_id payload trailing body :
  (0 <= extension_id <= 255)%Z -> encode_bencode (PDict payload) = Ok body ->
  (Z.of_nat (length body) + Z.of_nat (length trailing) < 2 ^ 32 - 2)%Z ->
  encode_extended_message extension_id payload trailing =
    Ok (be_encode 4 (2 + Z.of_nat (length (body ++ trailing)))
        ++ [z2b MESSAGE_EXTENDED; z2b extension_id] ++ body ++ trailing).
Proof.
  intros Hid Hb Hlen. unfold encode_extended_message. rewrite Hb.
  replace ((0 <=? extension_id)%Z && (extension_id <=? 255)%Z) with true by lia.
  cbn [assert_ mbind res_bind].
  rewrite encode_frame_eq; [|done|cbn [app length]; rewrite length_app; lia].
  cbn [mbind res_bind]. rewrite (byte_value_app_r _ _ 4), (byte_value_app_r _ _ 5) by (rewrite length_be_encode; lia).
  rewrite length_be_encode. cbn [app Nat.sub].
  unfold byte_value. cbn [nth]. rewrite !b2z_z2b, !Z.mod_small by (unfold MESSAGE_EXTENDED; lia).
  rewrite !Z.eqb_refl. cbn [andb assert_ mbind res_bind mret res_ret length]. do 3 f_equal. lia.
Qed.

Lemma encode_metadata_request_Ok their_id piece :
  (1 <= their_id <= 255)%Z -> (0 <= piece < 256)%Z ->
  exists body, encode_bencode (PDict (request_payload piece)) = Ok body /\
    encode_metadata_request their_id piece =
      Ok (be_encode 4 (2 + Z.of_nat (length body)) ++ [z2b MESSAGE_EXTENDED; z2b their_id] ++ body).
Proof.
  intros Hid Hp. pose proof request_bodies_short as Hall. rewrite forallb_forall in Hall.
  specialize (Hall (Z.to_nat piece)). rewrite in_seq in Hall. unfold request_body_short in Hall.
  rewrite Z2Nat.id in Hall by lia.
  destruct (encode_bencode (PDict (request_payload piece))) as [body|] eqn:Hb; [|exfalso; specialize (Hall ltac:(lia)); done].
  exists body. split; [done|]. specialize (Hall ltac:(lia)). unfold encode_metadata_request.
  replace ((1 <=? their_id)%Z && (their_id <=? 255)%Z && (0 <=? piece)%Z) with true by lia.
  cbn [assert_ mbind res_bind]. fold (request_payload piece).
  rewrite (encode_extended_message_eq _ _ _ body) by (done || (cbn [length]; lia)).
  cbn [mbind res_bind]. rewrite byte_value_app_r by (rewrite length_be_encode; lia).
  rewrite length_be_encode. cbn [app Nat.sub]. unfold byte_value. cbn [nth]. rewrite b2z_z2b, Z.mod_small by lia.
  rewrite Z.eqb_refl. cbn [assert_ mbind res_bind]. by rewrite app_nil_r.
Qed.

Lemma length_peer_id_prefix : length PEER_ID_PREFIX <= NODE_ID_LENGTH.
Proof. apply (bool_decide_unpack _). vm_compute. done. Qed.

(** What [generate_peer_id] draws fills the peer id up. *)
Definition random_ok (random : bytes) : Prop := length PEER_ID_PREFIX + length random = NODE_ID_LENGTH.

Lemma opening_messages_Ok info_hash random :
  length info_hash = NODE_ID_LENGTH -> random_ok random ->
  exists handshake extended, encode_handshake info_hash (PEER_ID_PREFIX ++ random) = Ok handshake /\
    length handshake = HANDSHAKE_LENGTH /\
    encode_extended_handshake = Ok extended /\ opening_messages info_hash random = Ok (handshake ++ extended).
Proof.
  intros Hh Hr.
  assert (length (PEER_ID_PREFIX ++ random) = NODE_ID_LENGTH) as Hp by by rewrite length_app.
  destruct (decode_handshake_encoded info_hash _ Hh Hp) as [He _].
  destruct encode_extended_handshake as [ext|] eqn:Hext; [|vm_compute in Hext; done].
  match type of He with _ = Ok ?d => assert (length d = HANDSHAKE_LENGTH) as Hlen end.
  { cbn [length]. by rewrite !length_app, Hh, Hr. }
  eexists _, ext. split; [exact He|]. split; [exact Hlen|].
  split; [done|]. unfold opening_messages, generate_peer_id.
  rewrite is_node_id_of, (bool_decide_eq_true_2 (length PEER_ID_PREFIX < NODE_ID_LENGTH)) by (done || (apply (bool_decide_unpack _); vm_compute; done)).
  cbn [assert_ mbind res_bind]. rewrite bool_decide_eq_true_2 by done. cbn [assert_ mbind res_bind mret res_ret].
  rewrite He, Hext. cbn [mbind res_bind]. rewrite bool_decide_eq_true_2; [done|].
  rewrite length_app, Hlen.
  assert (0 < length ext) by (vm_compute in Hext; injection Hext as <-; cbn; lia). lia.
Qed.

(** ** The steps of a session keep to the deadline and to the named errors *)

Section safety.
Context {S : Type} `{stream : !ByteStream S} `{!ByteStreamLaws stream}.
Variable depth : nat.
Implicit Types (s t : S) (D : Z).

(** The stream has gone on from [s] to [t], by the deadline. *)
Definition goes_on (D : Z) (s t : S) : Prop :=
  ok t /\ unread t <= unread s /\ by_deadline D (loop_time s) (loop_time t).
Definition fails_named (D : Z) (s : S) (e : exn) (t : S) : Prop := named e /\ goes_on D s t.

Lemma goes_on_refl D s : ok s -> goes_on D s s.
Proof. intros. split; [done|]. split; [done|]. unfold by_deadline. lia. Qed.

Lemma goes_on_trans D s1 s2 s3 : goes_on D s1 s2 -> goes_on D s2 s3 -> goes_on D s1 s3.
Proof.
  intros (? & ? & ?) (? & ? & ?). split; [done|]. split; [lia|]. by eapply by_deadline_trans.
Qed.

Lemma goes_on_le D D' s t : (D <= D')%Z -> goes_on D s t -> goes_on D' s t.
Proof. intros ? (? & ? & ?). split; [done|]. split; [done|]. by eapply by_deadline_le. Qed.

Lemma goes_on_ok D s t : goes_on D s t -> ok t.
Proof. by intros []. Qed.

Lemma fails_named_trans D s0 s1 e s2 : goes_on D s0 s1 -> fails_named D s1 e s2 -> fails_named D s0 e s2.
Proof. intros ? []. split; [done|]. by eapply goes_on_trans. Qed.

(** A step taken after the stream has gone on from [s0] to [s1]. *)
Lemma tri_after {A} D s0 s1 (m : task S A) (Q Q' : A -> S -> Prop) :
  goes_on D s0 s1 -> tri m Q (fails_named D s1) s1 -> (forall a t, Q a t -> Q' a t) ->
  tri m Q' (fails_named D s0) s1.
Proof. intros H01 Hm HQ. eapply tri_mono; [exact Hm|done|]. intros e t. by apply fails_named_trans. Qed.

Lemma tri_raises {A} D s0 s reason (Q : A -> S -> Prop) :
  goes_on D s0 s -> reason ∈ FETCH_REASONS -> tri (throw (fetch_error reason)) Q (fails_named D s0) s.
Proof. intros. apply tri_throw. split; [by apply named_fetch_error|done]. Qed.

Lemma tri_send data D s : ok s -> data <> [] ->
  tri (send data) (fun _ t => goes_on D s t /\ unread t = unread s /\ loop_time t = loop_time s) (fails_named D s) s.
Proof.
  intros Hs Hd. unfold send. apply tri_bind, tri_check; [by rewrite bool_decide_eq_false_2|].
  eapply tri_mono; [by apply law_write| |done]. intros _ t (Hok & Hu & Ht).
  split; [|done]. split; [done|]. rewrite Hu, Ht. split; [done|]. unfold by_deadline. lia.
Qed.

Lemma tri_read n D reason s :
  ok s -> 0 < n -> reason ∈ FETCH_REASONS ->
  tri (read_exactly n D reason)
    (fun data t => length data = n /\ goes_on D s t /\ unread t + n <= unread s) (fails_named D s) s.
Proof.
  intros Hs Hn Hr. eapply tri_mono; [by apply law_read| |].
  - intros data t (? & ? & ? & ?). split; [done|]. split; [|done]. split; [done|]. split; [lia|done].
  - intros e t (? & ? & ? & ?). split; [done|]. by split.
Qed.

Lemma value_error_as_returns {A} reason (r : res A) (Q : A -> Prop) :
  reason ∈ FETCH_REASONS ->
  returns r Q (fun e => exists x, e = ValueError x) -> returns (value_error_as reason r) Q named.
Proof. intros Hr. destruct r as [a|e]; [done|]. intros [x ->]. by apply named_fetch_error. Qed.

Lemma decode_error_as_returns {A} reason (r : res A) (Q : A -> Prop) :
  reason ∈ FETCH_REASONS ->
  returns r Q (fun e => e = RecursionError \/ exists x, e = ValueError x) -> returns (decode_error_as reason r) Q named.
Proof. intros Hr. destruct r as [a|e]; [done|]. intros [->|[x ->]]; by apply named_fetch_error. Qed.

(** A call of the session that is itself pure. *)
Lemma tri_pure {A} (r : res A) (Q : A -> Prop) D s :
  ok s -> returns r Q named -> tri (call r) (fun a t => Q a /\ t = s) (fails_named D s) s.
Proof.
  intros Hs. destruct r as [a|e]; [done|]. intros Hn. split; [done|by apply goes_on_refl].
Qed.

Lemma tri_read_frame D s :
  ok s -> (0 <= D)%Z ->
  tri (read_frame D) (fun _ t => goes_on D s t /\ unread t < unread s) (fails_named D s) s.
Proof.
  intros Hs HD. unfold read_frame. apply tri_bind, tri_check; [lia|]. apply tri_bind.
  eapply tri_mono; [apply tri_read; [done|unfold FRAME_HEADER_LENGTH; lia|known]| |done].
  intros header s1 (Hl & H1 & Hu). pose proof (goes_on_ok _ _ _ H1) as Hs1. apply tri_bind.
  unfold decode_frame_length. rewrite bool_decide_eq_true_2 by done.
  pose proof (be_decode_range header) as Hr. replace (0 <=? be_decode header)%Z with true by lia.
  cbn [assert_ mbind res_bind]. apply tri_call. cbn [returns mret res_ret].
  unfold FRAME_HEADER_LENGTH in *. case_match; [split; [done|lia]|]. case_match.
  - apply tri_raises; [done|known].
  - apply tri_bind. eapply (tri_after D); [done|apply tri_read; [done|lia|known]|].
    intros body s2 (Hb & H2 & Hu2). apply tri_bind, tri_check.
    { pose proof (byte_value_range body 0). cbn [fst snd]. lia. }
    apply tri_ret. split; [by eapply goes_on_trans|lia].
Qed.

Lemma decode_extended_message_returns body :
  returns (decode_extended_message depth body)
    (fun '(i, _, _) => (0 <= i <= 255)%Z) (fun e => e = RecursionError \/ exists x, e = ValueError x).
Proof.
  unfold decode_extended_message, raise_if. destruct (bool_decide _) eqn:Hl; [simpl; eauto|].
  apply bool_decide_eq_false in Hl. cbn [mbind res_bind]. apply returns_bind.
  eapply returns_mono; [apply (decode_value_at_returns depth body 1); lia| |].
  - intros [v n] _. pose proof (byte_value_range body 0) as Hb. destruct v; simpl; eauto.
    by replace (_ && _) with true by lia; simpl; lia.
  - intros e [?|[? _]]; auto.
Qed.

Lemma tri_receive_extended fuel id D s :
  ok s -> (0 <= D)%Z -> (0 <= id <= 255)%Z -> unread s < fuel ->
  tri (receive_extended depth fuel id D) (fun _ t => goes_on D s t /\ unread t < unread s) (fails_named D s) s.
Proof.
  intros Hs HD Hid. revert s Hs. induction fuel as [|fuel IH]; intros s Hs Hf; [lia|].
  cbn [receive_extended]. apply tri_bind, tri_check; [lia|]. apply tri_bind.
  eapply tri_mono; [by apply tri_read_frame| |done]. intros [message_id body] s1 (H1 & Hu1).
  assert (tri (receive_extended depth fuel id D)
    (fun _ t => goes_on D s t /\ unread t < unread s) (fails_named D s) s1) as Hrec.
  { eapply (tri_after D); [done|apply IH; [by eapply goes_on_ok|lia]|].
    intros a t (H2 & Hu2). split; [by eapply goes_on_trans|lia]. }
  case_match; [done|]. apply tri_bind.
  eapply (tri_after D); [done|apply (tri_pure _ (fun '(i, _, _) => 0 <= i <= 255)%Z); [by eapply goes_on_ok|]|].
  { apply decode_error_as_returns; [known|]. apply decode_extended_message_returns. }
  intros [[received_id payload] trailing] t [_ ->]. case_match; [|done]. by apply tri_ret.
Qed.

Lemma read_extended_handshake_returns payload :
  returns (value_error_named (read_extended_handshake payload))
    (fun '(i, size) => (1 <= i <= 255)%Z /\ (0 < size <= MAX_METADATA_SIZE)%Z) named.
Proof.
  assert (named (fetch_error "no_ut_metadata")) as H1 by (apply named_fetch_error; known).
  assert (named (fetch_error "too_large")) as H2 by (apply named_fetch_error; known).
  unfold read_extended_handshake. cbv zeta.
  set (their_id := match py_get payload (bs "m") with Some (PDict e) => py_get e (bs "ut_metadata") | _ => None end).
  destruct their_id as [v|]; [destruct v; try done|done].
  unfold raise_if. destruct (negb _) eqn:?; [done|]. cbn [mbind res_bind].
  destruct (py_get payload (bs "metadata_size")) as [v|]; [destruct v; try exact H1|exact H1].
  destruct (_ <=? 0)%Z eqn:?; [exact H1|]. cbn [mbind res_bind]. destruct (MAX_METADATA_SIZE <? _)%Z eqn:?; [exact H2|].
  cbn [mbind res_bind]. unfold MAX_METADATA_SIZE in *.
  replace (_ && _) with true by lia. simpl. lia.
Qed.

Lemma tri_receive_extended_handshake fuel D s :
  ok s -> (0 <= D)%Z -> unread s < fuel ->
  tri (receive_extended_handshake depth fuel D)
    (fun '(i, size) t => ((1 <= i <= 255)%Z /\ (0 < size <= MAX_METADATA_SIZE)%Z) /\ goes_on D s t)
    (fails_named D s) s.
Proof.
  intros Hs HD Hf. unfold receive_extended_handshake. apply tri_bind, tri_check; [lia|]. apply tri_bind.
  eapply tri_mono; [apply tri_receive_extended; unfold EXTENDED_HANDSHAKE_ID; done || lia| |done].
  intros [payload trailing] s1 (H1 & _). apply tri_bind.
  eapply (tri_after D); [done|apply tri_pure; [by eapply goes_on_ok|apply read_extended_handshake_returns]|].
  intros [i size] t [Hi ->]. apply tri_bind, tri_check; [cbn [fst snd]; lia|]. by apply tri_ret.
Qed.

Lemma tri_read_handshake info_hash D s :
  ok s -> length info_hash = NODE_ID_LENGTH ->
  tri (read_handshake info_hash D) (fun _ t => goes_on D s t) (fails_named D s) s.
Proof.
  intros Hs Hh. unfold read_handshake. apply tri_bind, tri_check; [by apply is_node_id_of|]. apply tri_bind.
  eapply tri_mono; [apply tri_read; [done|unfold HANDSHAKE_LENGTH; lia|known]| |done].
  intros data s1 (_ & H1 & _). apply tri_bind.
  eapply (tri_after D); [done|apply (tri_pure _ (fun _ => True)); [by eapply goes_on_ok|]|].
  { apply value_error_as_returns; [known|]. eapply returns_mono; [apply decode_handshake_returns|done|].
    intros e <-. eauto. }
  intros [[remote_hash peer_id] supports] t [_ ->].
  case_match; [by apply tri_raises; [|known]|]. case_match; [by apply tri_raises; [|known]|].
  by apply tri_ret.
Qed.

(** ** The exchange of pieces *)

Definition piece_size (metadata_size piece : Z) : Z :=
  Z.min METADATA_PIECE_SIZE (metadata_size - piece * METADATA_PIECE_SIZE).

(** The state of [request_pieces]: the pieces before [next_piece] have been
    requested, each is either received, with its expected length, or
    outstanding, and at most [PIECE_WINDOW] are outstanding. *)
Record holding (metadata_size count : Z) (pieces : gmap Z bytes) (outstanding : gset Z) (next_piece : Z) : Prop := {
  hold_next : (0 <= next_piece <= count)%Z;
  hold_requested p : is_Some (pieces !! p) \/ p ∈ outstanding <-> (0 <= p < next_piece)%Z;
  hold_disjoint p : p ∈ outstanding -> pieces !! p = None;
  hold_length p data : pieces !! p = Some data -> Z.of_nat (length data) = piece_size metadata_size p;
  hold_window : size outstanding <= PIECE_WINDOW;
}.

Lemma fails_named_le D D' s e t : (D <= D')%Z -> fails_named D s e t -> fails_named D' s e t.
Proof. intros ? []. split; [done|]. by eapply goes_on_le. Qed.

Definition range (count : Z) : gset Z := list_to_set (Z.of_nat <$> seq 0 (Z.to_nat count)).

Lemma elem_of_range count p : p ∈ range count <-> (0 <= p < count)%Z.
Proof.
  unfold range. rewrite elem_of_list_to_set, list_elem_of_fmap. split.
  - intros (n & -> & Hn%elem_of_seq). lia.
  - intros Hp. exists (Z.to_nat p). rewrite elem_of_seq. lia.
Qed.

Lemma size_range count : (0 <= count)%Z -> Z.of_nat (size (range count)) = count.
Proof.
  intros Hc. unfold range. rewrite size_list_to_set, length_fmap, length_seq; [lia|].
  apply NoDup_fmap; [intros ???; lia|apply NoDup_seq].
Qed.

(** As long as a piece is missing, one is outstanding or can be requested. *)
Lemma holding_pending metadata_size count pieces outstanding next_piece :
  holding metadata_size count pieces outstanding next_piece -> (Z.of_nat (size pieces) < count)%Z ->
  (next_piece < count)%Z \/ outstanding <> ∅.
Proof.
  intros [Hn Hr Hd _ _] Hs. destruct (decide (outstanding = ∅)) as [->|]; [left|by right].
  assert (dom pieces = range next_piece) as Hdom.
  { apply set_eq. intros p. rewrite elem_of_dom, elem_of_range, <-Hr. set_solver. }
  rewrite <-size_dom, Hdom, size_range in Hs by lia. done.
Qed.

(** When no piece is missing, none is outstanding and all are there. *)
Lemma holding_complete metadata_size count pieces outstanding next_piece :
  holding metadata_size count pieces outstanding next_piece -> (count <= Z.of_nat (size pieces))%Z ->
  forall p, (0 <= p < count)%Z -> is_Some (pieces !! p).
Proof.
  intros [Hn Hr Hd _ _] Hs p Hp. apply elem_of_dom.
  assert (dom pieces ⊆ range count) as Hsub.
  { intros q Hq%elem_of_dom. apply elem_of_range.
    assert (0 <= q < next_piece)%Z by (apply Hr; by left). lia. }
  destruct (decide (p ∈ dom pieces)) as [|Hnot]; [done|exfalso].
  assert (size (dom pieces) < size (range count)) as Hlt.
  { apply subset_size. split; [done|]. intros Hsup. apply Hnot, Hsup. by apply elem_of_range. }
  pose proof (size_range count) as Hsize. rewrite size_dom in Hlt. lia.
Qed.

Lemma holding_request metadata_size count pieces outstanding next_piece :
  holding metadata_size count pieces outstanding next_piece ->
  (next_piece < count)%Z -> size outstanding < PIECE_WINDOW ->
  holding metadata_size count pieces ({[next_piece]} ∪ outstanding) (next_piece + 1) /\
  size ({[next_piece]} ∪ outstanding) = Datatypes.S (size outstanding).
Proof.
  intros [Hn Hr Hd Hl Hw] Hc Ho.
  assert ((next_piece ∉ outstanding) /\ pieces !! next_piece = None) as [Hni Hnp].
  { pose proof (proj1 (Hr next_piece)) as Hx. split; [intros ?|].
    - assert (0 <= next_piece < next_piece)%Z by auto. lia.
    - destruct (pieces !! next_piece) eqn:?; [|done].
      assert (0 <= next_piece < next_piece)%Z by (apply Hx; eauto). lia. }
  assert (size ({[next_piece]} ∪ outstanding) = Datatypes.S (size outstanding)) as Hsz.
  { rewrite size_union by set_solver. by rewrite size_singleton. }
  split; [|done]. split; [lia| | |done|lia].
  - intros p. rewrite elem_of_union, elem_of_singleton. specialize (Hr p).
    destruct (decide (p = next_piece)) as [->|Hne]; [split; [lia|tauto]|].
    split; [intros [?|[?|?]]; [|done|]; assert (0 <= p < next_piece)%Z by tauto; lia|].
    intros ?. assert (0 <= p < next_piece)%Z by lia. tauto.
  - intros p. rewrite elem_of_union, elem_of_singleton. intros [->|]; auto.
Qed.

Lemma holding_receive metadata_size count pieces outstanding next_piece piece data :
  holding metadata_size count pieces outstanding next_piece -> piece ∈ outstanding ->
  Z.of_nat (length data) = piece_size metadata_size piece ->
  holding metadata_size count (<[piece := data]> pieces) (outstanding ∖ {[piece]}) next_piece.
Proof.
  intros [Hn Hr Hd Hl Hw] Hp Hdata. split; [done| | | |].
  - intros p. specialize (Hr p). rewrite elem_of_difference, elem_of_singleton.
    destruct (decide (p = piece)) as [->|].
    + rewrite lookup_insert_eq. naive_solver.
    + rewrite lookup_insert_ne by done. naive_solver.
  - intros p. rewrite elem_of_difference, elem_of_singleton. intros [? ?].
    rewrite lookup_insert_ne by done. auto.
  - intros p data'. destruct (decide (p = piece)) as [->|].
    + rewrite lookup_insert_eq. by intros [= <-].
    + rewrite lookup_insert_ne by done. apply Hl.
  - etrans; [|exact Hw]. apply subseteq_size. set_solver.
Qed.

Lemma holding_start metadata_size count : (0 <= count)%Z -> holding metadata_size count ∅ ∅ 0.
Proof.
  intros Hc. split; [lia| | | |].
  - intros p. rewrite lookup_empty. split; [intros [[? ?]|?]; [done|set_solver]|lia].
  - intros p ?. set_solver.
  - intros p data. by rewrite lookup_empty.
  - rewrite size_empty. unfold PIECE_WINDOW. lia.
Qed.

(** The stream has written, and nothing else. *)
Definition only_wrote (s t : S) : Prop := ok t /\ unread t = unread s /\ loop_time t = loop_time s.

Lemma only_wrote_goes_on D s t : only_wrote s t -> goes_on D s t.
Proof. intros (? & Hu & Ht). split; [done|]. rewrite Hu, Ht. split; [done|]. unfold by_deadline. lia. Qed.

Lemma tri_fill_window turns their_id metadata_size count pieces outstanding next_piece D s :
  ok s -> (1 <= their_id <= 255)%Z -> (count <= 256)%Z -> PIECE_WINDOW <= turns + size outstanding ->
  holding metadata_size count pieces outstanding next_piece ->
  tri (fill_window turns their_id count outstanding next_piece)
    (fun '(o, n) t => holding metadata_size count pieces o n /\ ((n < count)%Z -> size o = PIECE_WINDOW) /\
                      only_wrote s t) (fails_named D s) s.
Proof.
  intros Hs Hid Hc. revert s outstanding next_piece Hs.
  induction turns as [|turns IH]; intros s outstanding next_piece Hs Ht Hh; cbn [fill_window];
    destruct (_ && _) eqn:Hgo.
  - apply andb_true_iff in Hgo as [_ Hgo%bool_decide_eq_true]. lia.
  - apply tri_ret. split; [done|]. split; [|done]. intros. apply hold_window in Hh.
    rewrite andb_false_iff, bool_decide_eq_false in Hgo. destruct Hgo; lia.
  - apply andb_true_iff in Hgo as [Hn Hgo%bool_decide_eq_true]. apply Z.ltb_lt in Hn.
    destruct (holding_request _ _ _ _ _ Hh Hn Hgo) as [Hh' Hsz].
    destruct (encode_metadata_request_Ok their_id next_piece) as (body & _ & He); [done|apply hold_next in Hh; lia|].
    apply tri_bind. eapply tri_call_Ok; [exact He|]. apply tri_bind.
    eapply tri_mono; [apply tri_send; [done|]| |done]; [intros Hnil; apply (f_equal length) in Hnil; rewrite length_app, length_be_encode in Hnil; done|].
    intros u s1 (H1 & Hu & Ht1).
    eapply (tri_after D); [done|apply IH; [by eapply goes_on_ok|lia|done]|].
    intros [o n] t (? & ? & (? & Hu2 & Ht2)). split; [done|]. split; [done|]. split; [done|]. by rewrite Hu2, Ht2.
  - apply tri_ret. split; [done|]. split; [|done]. intros. apply hold_window in Hh.
    rewrite andb_false_iff, bool_decide_eq_false in Hgo. destruct Hgo; lia.
Qed.

Lemma decode_metadata_message_returns payload :
  returns (decode_metadata_message payload) (fun '(t, p, _) => (0 <= t)%Z /\ (0 <= p)%Z)
    (fun e => exists x, e = ValueError x).
Proof.
  unfold decode_metadata_message, raise_if.
  destruct (py_get payload (bs "msg_type")) as [v|]; [destruct v|]; try (by eexists).
  destruct (py_get payload (bs "piece")) as [v|]; [destruct v|]; try (by eexists).
  destruct (_ || _) eqn:Hc; [by eexists|]. cbn [mbind res_bind]. apply returns_bind.
  replace (_ && _) with true by lia.
  destruct (py_get payload (bs "total_size")) as [v|]; [destruct v|]; try (by eexists); cbn; try lia.
  destruct (z1 <? 0)%Z; [by eexists|]. cbn. lia.
Qed.

Lemma tri_receive_piece fuel outstanding metadata_size count D s :
  ok s -> (0 <= D)%Z -> unread s < fuel -> outstanding <> ∅ -> (0 < metadata_size)%Z ->
  piece_count metadata_size = Ok count -> (forall p, p ∈ outstanding -> (0 <= p < count)%Z) ->
  tri (receive_piece depth fuel outstanding metadata_size D)
    (fun '(piece, data) t => (piece ∈ outstanding /\ Z.of_nat (length data) = piece_size metadata_size piece) /\
       goes_on D s t /\ unread t < unread s) (fails_named D s) s.
Proof.
  intros Hs HD Hf Ho Hm Hc Hp. revert s Hs Hf. induction fuel as [|fuel IH]; intros s Hs Hf; [lia|].
  cbn [receive_piece]. apply tri_bind, tri_check; [rewrite bool_decide_eq_false_2 by done; lia|].
  apply tri_bind. eapply tri_mono; [apply tri_receive_extended; unfold UT_METADATA_LOCAL_ID; done || lia| |done].
  intros [payload data] s1 (H1 & Hu1).
  assert (tri (receive_piece depth fuel outstanding metadata_size D)
    (fun '(piece, data) t => (piece ∈ outstanding /\ Z.of_nat (length data) = piece_size metadata_size piece) /\
       goes_on D s t /\ unread t < unread s) (fails_named D s) s1) as Hrec.
  { eapply (tri_after D); [done|apply IH; [by eapply goes_on_ok|lia]|].
    intros [piece data'] t (? & H2 & ?). split; [done|]. split; [by eapply goes_on_trans|lia]. }
  apply tri_bind. eapply (tri_after D); [done|apply (tri_pure _ (fun '(t, p, _) => 0 <= t /\ 0 <= p)%Z); [by eapply goes_on_ok|]|].
  { apply value_error_as_returns; [known|apply decode_metadata_message_returns]. }
  intros [[msg_type piece] total_size] t [_ ->].
  case_bool_decide as Hin; [cbn [negb]|done].
  case_match; [by apply tri_raises; [|known]|]. case_match; [done|].
  apply tri_bind. eapply tri_call_Ok; [by apply (expected_piece_length_eq _ _ count); auto|].
  destruct (negb _ || _) eqn:Hbad; [by apply tri_raises; [|known]|].
  apply tri_ret. split; [|by split]. split; [done|]. unfold piece_size.
  apply orb_false_iff in Hbad as [Hbad _]. lia.
Qed.

Lemma tri_collect_pieces fuel their_id metadata_size timeouts count D s :
  (1 <= their_id <= 255)%Z -> (0 < metadata_size <= MAX_METADATA_SIZE)%Z ->
  piece_count metadata_size = Ok count -> (0 <= timeouts.(piece))%Z -> (0 <= D)%Z ->
  forall pieces outstanding next_piece,
  ok s -> (0 <= loop_time s)%Z -> unread s < fuel -> holding metadata_size count pieces outstanding next_piece ->
  tri (collect_pieces depth fuel their_id metadata_size timeouts D count pieces outstanding next_piece)
    (fun all t => (exists o n, holding metadata_size count all o n /\ (count <= Z.of_nat (size all))%Z) /\ goes_on D s t)
    (fails_named D s) s.
Proof.
  intros Hid Hm Hc Hpt HD. pose proof (piece_count_small _ _ Hm Hc) as Hcount.
  revert s. induction fuel as [|fuel IH]; intros s pieces outstanding next_piece Hs Ht Hf Hh; [lia|].
  cbn [collect_pieces]. case_match eqn:Hmore; [|apply tri_ret; split; [|by apply goes_on_refl]; exists outstanding, next_piece; split; [done|lia]].
  apply Z.ltb_lt in Hmore. apply tri_bind.
  eapply tri_mono; [eapply (tri_fill_window _ _ _ _ _ _ _ D); [done..|lia|unfold PIECE_WINDOW; lia|exact Hh]| |done].
  intros [o n] s1 (Hh1 & Hfull & Hw). pose proof (only_wrote_goes_on D _ _ Hw) as H1. destruct Hw as (Hs1 & Hu1 & Ht1).
  apply tri_bind. unfold now. apply tri_reads. apply tri_bind.
  eapply tri_mono; [eapply (tri_receive_piece _ _ _ count (Z.min D (loop_time s1 + piece timeouts)))| |].
  - done.
  - lia.
  - lia.
  - destruct (holding_pending _ _ _ _ _ Hh1 Hmore) as [Hn|]; [|done].
    intros ->. specialize (Hfull Hn). by rewrite size_empty in Hfull.
  - lia.
  - done.
  - intros p Hp. pose proof (hold_next _ _ _ _ _ Hh1).
    assert (0 <= p < n)%Z by (apply (hold_requested _ _ _ _ _ Hh1 p); by right). lia.
  - intros [piece data] s2 ([Hin Hl] & H2 & Hu2). pose proof (goes_on_ok _ _ _ H2) as Hs2.
    assert (goes_on D s s2) as H02 by (eapply goes_on_trans; [exact H1|eapply goes_on_le; [|exact H2]; lia]).
    eapply (tri_after D); [exact H02|apply IH; [done| |lia|by apply holding_receive]|].
    + destruct H2 as (_ & _ & ?). unfold by_deadline in *. lia.
    + intros all t (? & H3). split; [done|]. by eapply goes_on_trans.
  - intros e t He. eapply fails_named_trans; [exact H1|]. eapply fails_named_le; [|exact He]. lia.
Qed.

(** The pieces from [0] on, each the data of [f]. *)
Lemma join_pieces_eq pieces count (f : nat -> bytes) :
  (forall i, (Z.of_nat i < count)%Z -> pieces !! Z.of_nat i = Some (f i)) ->
  join_pieces pieces count = Ok (concat (f <$> seq 0 (Z.to_nat count))).
Proof.
  intros Hf. unfold join_pieces.
  match goal with |- context [sequence ?l] =>
    replace l with (Ok (A := bytes) <$> (f <$> seq 0 (Z.to_nat count))) end.
  - rewrite (proj2 (sequence_Ok _ _) eq_refl). done.
  - rewrite <-list_fmap_compose. apply list_fmap_ext. intros k i Hi%lookup_seq. cbn.
    rewrite (Hf i) by lia. done.
Qed.

Lemma length_concat_seq (f : nat -> bytes) (g : Z -> Z) n :
  (forall i, i < n -> Z.of_nat (length (f i)) = g (Z.of_nat i)) ->
  Z.of_nat (length (concat (f <$> seq 0 n))) = sum_pieces g n.
Proof.
  intros Hf. induction n as [|n IH]; [done|].
  rewrite seq_S, fmap_app, concat_app, length_app, sum_pieces_S, Nat2Z.inj_add, IH by auto.
  cbn. rewrite app_nil_r, Hf by lia. done.
Qed.

Lemma join_pieces_length metadata_size count pieces outstanding next_piece :
  (0 < metadata_size)%Z -> piece_count metadata_size = Ok count ->
  holding metadata_size count pieces outstanding next_piece -> (count <= Z.of_nat (size pieces))%Z ->
  exists data, join_pieces pieces count = Ok data /\ Z.of_nat (length data) = metadata_size.
Proof.
  intros Hm Hc Hh Hall. pose proof (holding_complete _ _ _ _ _ Hh Hall) as Hp.
  destruct (piece_count_eq metadata_size Hm) as (c & Hc' & H1 & H2).
  rewrite Hc in Hc'. injection Hc' as <-.
  set (f := fun i : nat => default [] (pieces !! Z.of_nat i)).
  assert (forall i : nat, (Z.of_nat i < count)%Z -> pieces !! Z.of_nat i = Some (f i)) as Hf.
  { intros i Hi. destruct (Hp (Z.of_nat i)) as [d Hd]; [lia|]. unfold f. by rewrite Hd. }
  eexists. split; [by apply join_pieces_eq|].
  rewrite (length_concat_seq f (piece_size metadata_size)).
  - unfold piece_size. rewrite sum_pieces_min by lia. lia.
  - intros i Hi. apply (hold_length _ _ _ _ _ Hh). apply Hf. lia.
Qed.

Lemma tri_request_pieces fuel their_id metadata_size timeouts D s :
  ok s -> (0 <= loop_time s)%Z -> (0 <= D)%Z -> (0 <= timeouts.(piece))%Z -> unread s < fuel ->
  (1 <= their_id <= 255)%Z -> (0 < metadata_size <= MAX_METADATA_SIZE)%Z ->
  tri (request_pieces depth fuel their_id metadata_size timeouts D)
    (fun data t => Z.of_nat (length data) = metadata_size /\ goes_on D s t) (fails_named D s) s.
Proof.
  intros Hs Ht HD Hp Hf Hid Hm. unfold request_pieces. apply tri_bind, tri_check; [lia|].
  destruct (piece_count_eq metadata_size) as (count & Hc & H1 & H2); [lia|].
  apply tri_bind. eapply tri_call_Ok; [exact Hc|]. apply tri_bind.
  eapply tri_mono; [apply tri_collect_pieces; try done; apply holding_start; lia| |done].
  intros all t [(o & n & Hh & Hall) Hg].
  destruct (join_pieces_length metadata_size count all o n) as (data & Hj & Hl); [lia|done..|].
  apply tri_bind. eapply tri_call_Ok; [exact Hj|]. apply tri_bind, tri_check; [lia|]. by apply tri_ret.
Qed.

(** A session ends by its deadline, with metadata or with a named error. *)
Lemma tri_run_session fuel random info_hash timeouts D send_handshakes s :
  ok s -> (0 <= loop_time s)%Z -> (0 <= D)%Z -> (0 <= timeouts.(piece))%Z -> (0 <= timeouts.(handshake))%Z ->
  unread s < fuel -> length info_hash = NODE_ID_LENGTH -> random_ok random ->
  tri (run_session depth fuel random info_hash timeouts D send_handshakes)
    (fun data t => (0 < length data)%nat /\ goes_on D s t) (fails_named D s) s.
Proof.
  intros Hs Ht HD Hp Hhs Hf Hh Hr. unfold run_session. apply tri_bind, tri_check; [by apply is_node_id_of|].
  apply tri_bind. apply (tri_mono _ (fun _ t => only_wrote s t) _ (fails_named D s)); [| |done].
  { destruct send_handshakes; [|by apply tri_ret].
    destruct (opening_messages_Ok info_hash random Hh Hr) as (h & ext & _ & Hlen & _ & Ho).
    apply tri_bind. eapply tri_call_Ok; [exact Ho|].
    eapply tri_mono; [apply tri_send; [done|by destruct h]| |done].
    intros u t (H1 & ? & ?). split; [by eapply goes_on_ok|done]. }
  intros u s1 Hw. pose proof (only_wrote_goes_on D _ _ Hw) as H1. destruct Hw as (Hs1 & Hu1 & Ht1).
  apply tri_bind. unfold now. apply tri_reads. cbv zeta. set (D' := Z.min D _).
  assert (0 <= D' <= D)%Z as HD' by lia.
  apply tri_bind. eapply tri_mono; [by apply (tri_read_handshake info_hash D' s1)| |].
  2: { intros e t He. eapply fails_named_trans; [exact H1|]. eapply fails_named_le; [|exact He]. lia. }
  intros v s2 H2'. pose proof (goes_on_ok _ _ _ H2') as Hs2.
  assert (goes_on D s s2) as H2 by (eapply goes_on_trans; [exact H1|eapply goes_on_le; [|exact H2']; lia]).
  apply tri_bind. eapply tri_mono; [apply (tri_receive_extended_handshake fuel D' s2); [done|lia|]| |].
  { destruct H2 as (_ & ? & _). lia. }
  2: { intros e t He. eapply fails_named_trans; [exact H2|]. eapply fails_named_le; [|exact He]. lia. }
  intros [their_id metadata_size] s3 [[Hid Hm] H3'].
  assert (goes_on D s s3) as H3 by (eapply goes_on_trans; [exact H2|eapply goes_on_le; [|exact H3']; lia]).
  apply tri_bind. eapply (tri_after D); [exact H3|apply tri_request_pieces; try done|].
  - by eapply goes_on_ok.
  - destruct H3 as (_ & _ & ?). unfold by_deadline in *. lia.
  - destruct H3 as (_ & ? & _). lia.
  - intros data t [Hl Hg]. apply tri_bind, tri_check; [lia|]. apply tri_ret. split; [lia|]. by eapply goes_on_trans.
Qed.
End safety.
