(* ===== verification/MetadataSessionRelation.v ===== *)
(** A session does not see which stream it runs on: on two streams whose reads
    and writes stay in step, it takes the same steps. *)
From S2P Require Import Prelude PyDict Bencode NodeIdentity Krpc PeerWire Tasks MetadataSession.

Section relation.
Context {S T : Type} `{streamS : !ByteStream S} `{streamT : !ByteStream T}.
Variables (depth : nat) (timeouts : FetchTimeouts).
Variables (lax : Prop) (R : S -> T -> Prop).
(** The deadlines that a session on the one and on the other stream uses. *)
Variable deadlines : Z -> Z -> Prop.
Hypothesis deadlines_nonneg : forall d e, deadlines d e -> (0 <= d)%Z /\ (0 <= e)%Z.
Hypothesis deadlines_handshake : forall d e s t, deadlines d e -> R s t ->
  deadlines (Z.min d (loop_time s + timeouts.(handshake))) (Z.min e (loop_time t + timeouts.(handshake))).
Hypothesis deadlines_piece : forall d e s t, deadlines d e -> R s t ->
  deadlines (Z.min d (loop_time s + timeouts.(piece))) (Z.min e (loop_time t + timeouts.(piece))).
Hypothesis reads_in_step : forall n d e reason, deadlines d e ->
  in_step lax R eq (read_exactly n d reason) (read_exactly n e reason).
Hypothesis writes_in_step : forall data, data <> [] -> in_step lax R eq (write (S := S) data) (write (S := T) data).

Abbreviation steps := (in_step lax R).

Lemma step_same {A B} (m : task S A) (n : task T A) (f : A -> task S B) (g : A -> task T B) :
  steps eq m n -> (forall a, steps eq (f a) (g a)) -> steps eq (m ≫= f) (n ≫= g).
Proof. intros Hm Hf. apply (step_bind _ _ eq); [done|]. intros a ? <-. apply Hf. Qed.

Lemma step_check c : steps eq (check (S := S) c) (check (S := T) c).
Proof. apply step_call. Qed.

Lemma step_check_nonneg d e : deadlines d e -> steps eq (check (S := S) (0 <=? d)%Z) (check (S := T) (0 <=? e)%Z).
Proof.
  intros [Hd He]%deadlines_nonneg. rewrite (proj2 (Z.leb_le 0 d) Hd), (proj2 (Z.leb_le 0 e) He). apply step_call.
Qed.

Lemma step_send data : steps eq (send (S := S) data) (send (S := T) data).
Proof.
  unfold send. destruct (decide (data = [])) as [Hd|Hd].
  - rewrite bool_decide_eq_true_2 by done. intros s t Hs. right. done.
  - apply step_same; [apply step_check|]. intros _. by apply writes_in_step.
Qed.

(** A clock that is read before a step with the deadline made from it. *)
Lemma step_now {B} (f g : Z -> Z) (m : Z -> task S B) (n : Z -> task T B) :
  (forall s t, R s t -> deadlines (f (loop_time s)) (g (loop_time t))) ->
  (forall d e, deadlines d e -> steps eq (m d) (n e)) ->
  steps eq (time ← now; m (f time)) (time ← now; n (g time)).
Proof. intros Hf Hm s t Hs. unfold mbind, task_bind, now, reads. by apply Hm; [apply Hf|]. Qed.

Lemma step_read_frame d e : deadlines d e -> steps eq (read_frame (S := S) d) (read_frame (S := T) e).
Proof.
  intros Hd. unfold read_frame. apply step_same; [by apply step_check_nonneg|]. intros _.
  apply step_same; [by apply reads_in_step|]. intros header.
  apply step_same; [apply step_call|]. intros length.
  case_match; [by apply step_ret|]. case_match; [apply step_throw|].
  apply step_same; [by apply reads_in_step|]. intros body.
  apply step_same; [apply step_check|]. intros _. by apply step_ret.
Qed.

Lemma step_read_handshake info_hash d e :
  deadlines d e -> steps eq (read_handshake (S := S) info_hash d) (read_handshake (S := T) info_hash e).
Proof.
  intros Hd. unfold read_handshake. apply step_same; [apply step_check|]. intros _.
  apply step_same; [by apply reads_in_step|]. intros data.
  apply step_same; [apply step_call|]. intros [[remote_hash peer_id] supports].
  case_match; [apply step_throw|]. case_match; [apply step_throw|]. by apply step_ret.
Qed.

Lemma step_receive_extended fuel id d e :
  deadlines d e -> steps eq (receive_extended (S := S) depth fuel id d) (receive_extended (S := T) depth fuel id e).
Proof.
  intros Hd. induction fuel as [|fuel IH]; cbn [receive_extended];
    (apply step_same; [apply step_check|]; intros _); [apply step_throw|].
  apply step_same; [by apply step_read_frame|]. intros [message_id body]. case_match; [done|].
  apply step_same; [apply step_call|]. intros [[received_id payload] trailing].
  case_match; [by apply step_ret|done].
Qed.

Lemma step_receive_extended_handshake fuel d e :
  deadlines d e ->
  steps eq (receive_extended_handshake (S := S) depth fuel d) (receive_extended_handshake (S := T) depth fuel e).
Proof.
  intros Hd. unfold receive_extended_handshake. apply step_same; [by apply step_check_nonneg|]. intros _.
  apply step_same; [by apply step_receive_extended|]. intros [payload trailing].
  apply step_same; [apply step_call|]. intros result.
  apply step_same; [apply step_check|]. intros _. by apply step_ret.
Qed.

Lemma step_receive_piece fuel outstanding metadata_size d e :
  deadlines d e ->
  steps eq (receive_piece (S := S) depth fuel outstanding metadata_size d)
    (receive_piece (S := T) depth fuel outstanding metadata_size e).
Proof.
  intros Hd. induction fuel as [|fuel IH]; cbn [receive_piece];
    (apply step_same; [apply step_check|]; intros _); [apply step_throw|].
  apply step_same; [by apply step_receive_extended|]. intros [payload data].
  apply step_same; [apply step_call|]. intros [[msg_type piece] total_size].
  case_match; [done|]. case_match; [apply step_throw|]. case_match; [done|].
  apply step_same; [apply step_call|]. intros expected.
  case_match; [apply step_throw|by apply step_ret].
Qed.

Lemma step_fill_window turns their_id count outstanding next_piece :
  steps eq (fill_window (S := S) turns their_id count outstanding next_piece)
    (fill_window (S := T) turns their_id count outstanding next_piece).
Proof.
  revert outstanding next_piece. induction turns as [|turns IH]; intros outstanding next_piece;
    cbn [fill_window]; case_match; try (by apply step_ret); [apply step_throw|].
  apply step_same; [apply step_call|]. intros request. apply step_same; [apply step_send|]. done.
Qed.

Lemma step_collect_pieces fuel their_id metadata_size d e count pieces outstanding next_piece :
  deadlines d e ->
  steps eq
    (collect_pieces (S := S) depth fuel their_id metadata_size timeouts d count pieces outstanding next_piece)
    (collect_pieces (S := T) depth fuel their_id metadata_size timeouts e count pieces outstanding next_piece).
Proof.
  intros Hd. revert pieces outstanding next_piece. induction fuel as [|fuel IH]; intros pieces outstanding next_piece;
    cbn [collect_pieces]; case_match; try (by apply step_ret); [apply step_throw|].
  apply step_same; [apply step_fill_window|]. intros [o n].
  apply (step_now (fun t => Z.min d (t + piece timeouts))%Z (fun t => Z.min e (t + piece timeouts))%Z
    (fun d' => '(p, data) ← receive_piece depth (Datatypes.S fuel) o metadata_size d';
       collect_pieces depth fuel their_id metadata_size timeouts d count (<[p:=data]> pieces) (o ∖ {[p]}) n)
    (fun e' => '(p, data) ← receive_piece depth (Datatypes.S fuel) o metadata_size e';
       collect_pieces depth fuel their_id metadata_size timeouts e count (<[p:=data]> pieces) (o ∖ {[p]}) n)).
  - intros s t. by apply deadlines_piece.
  - intros d' e' Hd'. apply step_same; [by apply step_receive_piece|]. intros [p data]. apply IH.
Qed.

Lemma step_request_pieces fuel their_id metadata_size d e :
  deadlines d e ->
  steps eq (request_pieces (S := S) depth fuel their_id metadata_size timeouts d)
    (request_pieces (S := T) depth fuel their_id metadata_size timeouts e).
Proof.
  intros Hd. unfold request_pieces. apply step_same; [apply step_check|]. intros _.
  apply step_same; [apply step_call|]. intros count.
  apply step_same; [by apply step_collect_pieces|]. intros pieces.
  apply step_same; [apply step_call|]. intros result.
  apply step_same; [apply step_check|]. intros _. by apply step_ret.
Qed.

Lemma step_run_session fuel random info_hash d e send_handshakes :
  deadlines d e ->
  steps eq (run_session (S := S) depth fuel random info_hash timeouts d send_handshakes)
    (run_session (S := T) depth fuel random info_hash timeouts e send_handshakes).
Proof.
  intros Hd. unfold run_session. apply step_same; [apply step_check|]. intros _.
  apply step_same.
  { destruct send_handshakes; [|by apply step_ret].
    apply step_same; [apply step_call|]. intros data. apply step_send. }
  intros _.
  apply (step_now (fun t => Z.min d (t + handshake timeouts))%Z (fun t => Z.min e (t + handshake timeouts))%Z
    (fun d' => read_handshake info_hash d' ;; '(i, size) ← receive_extended_handshake depth fuel d';
       result ← request_pieces depth fuel i size timeouts d; check (Z.of_nat (length result) =? size)%Z ;; mret result)
    (fun e' => read_handshake info_hash e' ;; '(i, size) ← receive_extended_handshake depth fuel e';
       result ← request_pieces depth fuel i size timeouts e; check (Z.of_nat (length result) =? size)%Z ;; mret result)).
  - intros s t. by apply deadlines_handshake.
  - intros d' e' Hd'. apply step_same; [by apply step_read_handshake|]. intros _.
    apply step_same; [by apply step_receive_extended_handshake|]. intros [i size].
    apply step_same; [by apply step_request_pieces|]. intros result.
    apply step_same; [apply step_check|]. intros _. by apply step_ret.
Qed.
End relation.
