(* ===== verification/MetadataPeer.v ===== *)
(** A conforming peer, and what a session makes of it.  The reference stream is
    a [script]: the bytes the peer sends, all of them there, and the log of
    what the session writes.  A session on the bytes of a peer that completes
    both handshakes and answers every request returns the peer's metadata. *)
From S2P Require Import Prelude PyDict Bencode NodeIdentity Krpc PeerWire Tasks MetadataSession.
From S2P Require Import MetadataSessionSafety.

(** ** The reference stream *)

Record script : Type := { coming : bytes; log : bytes }.

Definition script_read (n : nat) (deadline : Z) (closed_reason : string) : task script bytes := fun s =>
  if negb (bool_decide (0 < n) && bool_decide (closed_reason ∈ FETCH_REASONS)) then (Raise AssertionError, s)
  else if bool_decide (n <= length s.(coming)) then
    (Ok (take n s.(coming)), {| coming := drop n s.(coming); log := s.(log) |})
  else (Raise (fetch_error (if bool_decide (s.(coming) = []) then closed_reason else "closed")),
        {| coming := []; log := s.(log) |}).

#[export] Instance ScriptStream : ByteStream script := {|
  loop_time _ := 0%Z;
  read_exactly := script_read;
  write data := change (fun s => {| coming := s.(coming); log := s.(log) ++ data |});
  close := mret tt;
|}.

(** [m] on a script that starts with [data] consumes it, writes [out] and
    returns [a]. *)
Definition consumes {A} (m : task script A) (data out : bytes) (a : A) : Prop :=
  forall rest before, m {| coming := data ++ rest; log := before |} =
    (Ok a, {| coming := rest; log := before ++ out |}).

Lemma consumes_ret {A} (a : A) : consumes (mret a) [] [] a.
Proof. intros rest before. by rewrite app_nil_r. Qed.

Lemma consumes_bind {A B} (m : task script A) (f : A -> task script B) data1 data2 out1 out2 a b :
  consumes m data1 out1 a -> consumes (f a) data2 out2 b -> consumes (m ≫= f) (data1 ++ data2) (out1 ++ out2) b.
Proof.
  intros Hm Hf rest before. unfold mbind, task_bind. rewrite <-app_assoc, Hm, Hf. by rewrite app_assoc.
Qed.

(** What follows a step that consumes [data], on a script that starts with it. *)
Lemma consumes_then {A B} (m : task script A) (f : A -> task script B) data out a rest before :
  consumes m data out a ->
  (m ≫= f) {| coming := data ++ rest; log := before |} = f a {| coming := rest; log := before ++ out |}.
Proof. intros Hm. unfold mbind, task_bind. by rewrite Hm. Qed.

(** A first step that only reads. *)
Lemma consumes_first {A B} (m : task script A) (f : A -> task script B) data1 data2 out a b :
  consumes m data1 [] a -> consumes (f a) data2 out b -> consumes (m ≫= f) (data1 ++ data2) out b.
Proof. apply (consumes_bind m f data1 data2 []). Qed.

(** A last step that reads nothing more. *)
Lemma consumes_last {A B} (m : task script A) (f : A -> task script B) data a b :
  consumes m data [] a -> consumes (f a) [] [] b -> consumes (m ≫= f) data [] b.
Proof. intros Hm Hf. rewrite <-(app_nil_r data). by eapply consumes_first. Qed.

(** A first step that only computes, and a first step that only writes. *)
Lemma consumes_call {A B} (r : res A) (f : A -> task script B) a data out b :
  r = Ok a -> consumes (f a) data out b -> consumes (call r ≫= f) data out b.
Proof. intros -> Hf. exact Hf. Qed.

Lemma consumes_check {B} c (f : unit -> task script B) data out b :
  c = true -> consumes (f tt) data out b -> consumes (check c ≫= f) data out b.
Proof. intros -> Hf. exact Hf. Qed.

Lemma consumes_now {B} (f : Z -> task script B) data out b : consumes (f 0%Z) data out b -> consumes (now ≫= f) data out b.
Proof. done. Qed.

Lemma consumes_read n deadline reason data :
  length data = n -> 0 < n -> reason ∈ FETCH_REASONS ->
  consumes (read_exactly n deadline reason) data [] data.
Proof.
  intros Hl Hn Hr rest before. cbn [read_exactly ScriptStream]. unfold script_read.
  rewrite !(bool_decide_eq_true_2 (_ < _)), (bool_decide_eq_true_2 (_ ∈ _)) by done. cbn [andb negb coming log].
  rewrite bool_decide_eq_true_2 by (rewrite length_app; lia).
  by rewrite take_app_length', drop_app_length', app_nil_r by done.
Qed.

Lemma consumes_send {B} data (f : unit -> task script B) data' out b :
  data <> [] -> consumes (f tt) data' out b -> consumes (send data ≫= f) data' (data ++ out) b.
Proof.
  intros Hd Hf. change data' with ([] ++ data'). eapply consumes_bind; [|exact Hf].
  intros rest before. unfold send. by rewrite bool_decide_eq_false_2.
Qed.

(** ** Frames *)

Inductive frame : Type :=
  | KeepAlive
  | Message (id : Z) (body : bytes).

Definition frame_bytes (f : frame) : bytes :=
  match f with
  | KeepAlive => be_encode 4 0
  | Message id body => be_encode 4 (1 + Z.of_nat (length body)) ++ z2b id :: body
  end.

Definition frame_ok (f : frame) : Prop :=
  match f with
  | KeepAlive => True
  | Message id body => (0 <= id <= 255)%Z /\ (1 + Z.of_nat (length body) <= MAX_FRAME_LENGTH)%Z
  end.

Definition frame_content (f : frame) : Z * bytes :=
  match f with KeepAlive => (KEEP_ALIVE_ID, []) | Message id body => (id, body) end.

Lemma decode_frame_length_eq n : (0 <= n < 2 ^ 32)%Z -> decode_frame_length (be_encode 4 n) = Ok n.
Proof.
  intros Hn. unfold decode_frame_length. rewrite length_be_encode, be_decode_encode_small by lia.
  rewrite bool_decide_eq_true_2 by done. replace (0 <=? n)%Z with true by lia. done.
Qed.

Lemma consumes_frame f deadline :
  frame_ok f -> (0 <= deadline)%Z -> consumes (read_frame deadline) (frame_bytes f) [] (frame_content f).
Proof.
  intros Hf Hd. unfold read_frame. apply consumes_check; [lia|].
  destruct f as [|id body]; cbn [frame_bytes frame_content].
  - eapply consumes_last; [apply consumes_read; [done|unfold FRAME_HEADER_LENGTH; lia|known]|].
    eapply consumes_call; [by apply decode_frame_length_eq|]. apply consumes_ret.
  - destruct Hf as [Hid Hl]. unfold MAX_FRAME_LENGTH in Hl.
    eapply consumes_first; [apply consumes_read; [done|unfold FRAME_HEADER_LENGTH; lia|known]|].
    eapply consumes_call; [apply decode_frame_length_eq; lia|].
    unfold MAX_FRAME_LENGTH. destruct (_ =? 0)%Z eqn:?; [lia|]. destruct (_ <? _)%Z eqn:?; [lia|].
    eapply consumes_last; [apply consumes_read; [cbn [length]; lia|lia|known]|].
    apply consumes_check; [pose proof (byte_value_range (z2b id :: body) 0); cbn [fst snd]; lia|].
    unfold byte_value. cbn [nth drop]. rewrite b2z_z2b, Z.mod_small by lia. apply consumes_ret.
Qed.

Section peer.
Variable depth : nat.

(** A frame that [receive_extended] passes over while it waits for [want]. *)
Definition passed_over (want : Z) (f : frame) : Prop :=
  frame_ok f /\
  match f with
  | KeepAlive => True
  | Message id body =>
      id <> MESSAGE_EXTENDED \/
      exists id' payload trailing, decode_extended_message depth body = Ok (id', payload, trailing) /\ id' <> want
  end.

(** An extended message of the wanted id with this content. *)
Definition extended (want : Z) (payload : list (pykey * pyval)) (trailing : bytes) (f : frame) : Prop :=
  frame_ok f /\ exists body, f = Message MESSAGE_EXTENDED body /\
    decode_extended_message depth body = Ok (want, payload, trailing).

Definition frames_bytes (fs : list frame) : bytes := concat (frame_bytes <$> fs).

Lemma consumes_extended fuel want deadline passed f payload trailing :
  Forall (passed_over want) passed -> extended want payload trailing f ->
  (0 <= deadline)%Z -> (0 <= want <= 255)%Z -> length passed < fuel ->
  consumes (receive_extended depth fuel want deadline) (frames_bytes passed ++ frame_bytes f) [] (payload, trailing).
Proof.
  intros Hp Hf Hd Hw. revert fuel. induction Hp as [|g passed [Hok Hg] _ IH]; intros fuel Hfuel.
  - destruct fuel as [|fuel]; [lia|]. cbn [receive_extended]. destruct Hf as [Hok (body & -> & He)].
    apply consumes_check; [lia|]. cbn [frames_bytes fmap list_fmap concat app].
    eapply consumes_last; [by apply consumes_frame|]. cbn [frame_content].
    rewrite Z.eqb_refl. cbn [negb]. eapply consumes_call; [by rewrite He|]. cbv beta iota. rewrite Z.eqb_refl. apply consumes_ret.
  - destruct fuel as [|fuel]; [cbn in Hfuel; lia|]. cbn [receive_extended]. cbn [length] in Hfuel.
    apply consumes_check; [lia|]. unfold frames_bytes. rewrite fmap_cons. cbn [concat]. rewrite <-app_assoc.
    eapply consumes_first; [by apply consumes_frame|].
    specialize (IH fuel ltac:(lia)). destruct g as [|id body]; cbn [frame_content].
    + exact IH.
    + destruct (Z.eqb_spec id MESSAGE_EXTENDED) as [->|Hne]; cbn [negb]; [|exact IH].
      destruct Hg as [|(id' & payload' & trailing' & He & Hne)]; [done|].
      eapply consumes_call; [by rewrite He|]. cbv beta iota. apply Z.eqb_neq in Hne. rewrite Hne. exact IH.
Qed.

(** ** The metadata of the peer *)

Variable metadata : bytes.
Let size : Z := Z.of_nat (length metadata).

(** Piece [p] of the metadata. *)
Definition piece_of (p : Z) : bytes :=
  slice metadata (Z.to_nat (p * METADATA_PIECE_SIZE)) (Z.to_nat (p * METADATA_PIECE_SIZE + METADATA_PIECE_SIZE)).

(** A data message for piece [p]. *)
Definition serves (p : Z) (f : frame) : Prop :=
  exists payload total_size, extended UT_METADATA_LOCAL_ID payload (piece_of p) f /\
    decode_metadata_message payload = Ok (MSG_TYPE_DATA, p, total_size) /\
    (total_size = None \/ total_size = Some size).

Lemma length_piece_of p count :
  (0 < size)%Z -> piece_count size = Ok count -> (0 <= p < count)%Z ->
  Z.of_nat (length (piece_of p)) = piece_size size p.
Proof.
  intros Hs Hc Hp. destruct (piece_count_eq size Hs) as (c & Hc' & H1 & H2). rewrite Hc in Hc'. injection Hc' as <-.
  unfold piece_of, piece_size. rewrite length_slice. unfold METADATA_PIECE_SIZE in *. fold size. unfold size in *. lia.
Qed.

Lemma concat_pieces n :
  concat ((fun i : nat => piece_of (Z.of_nat i)) <$> seq 0 n) = take (n * Z.to_nat METADATA_PIECE_SIZE) metadata.
Proof.
  induction n as [|n IH]; [done|]. rewrite seq_S, fmap_app, concat_app, IH. cbn. rewrite app_nil_r.
  unfold piece_of, slice.
  replace (Z.to_nat (Z.of_nat n * METADATA_PIECE_SIZE)) with (n * Z.to_nat METADATA_PIECE_SIZE)
    by (rewrite Z2Nat.inj_mul, Nat2Z.id by (unfold METADATA_PIECE_SIZE; lia); done).
  replace (Z.to_nat (Z.of_nat n * METADATA_PIECE_SIZE + METADATA_PIECE_SIZE) - n * Z.to_nat METADATA_PIECE_SIZE)
    with (Z.to_nat METADATA_PIECE_SIZE)
    by (rewrite Z2Nat.inj_add, Z2Nat.inj_mul, Nat2Z.id by (unfold METADATA_PIECE_SIZE; lia); lia).
  rewrite take_take_drop. f_equal. lia.
Qed.

(** ** The exchange of pieces with a peer that answers every request *)

Definition request_bytes (their_id p : Z) : bytes :=
  match encode_metadata_request their_id p with Ok request => request | Raise _ => [] end.
(** The requests for the pieces from [n] up to [m]. *)
Definition requests (their_id n m : Z) : bytes := concat (request_bytes their_id <$> seqZ n (m - n)).

Lemma requests_app their_id n m k :
  (n <= m <= k)%Z -> requests their_id n k = requests their_id n m ++ requests their_id m k.
Proof.
  intros Hn. unfold requests. rewrite <-concat_app, <-fmap_app. do 2 f_equal.
  replace (k - n)%Z with ((m - n) + (k - m))%Z by lia. rewrite seqZ_app by lia. do 2 f_equal. lia.
Qed.

Lemma requests_nil their_id n : requests their_id n n = [].
Proof. unfold requests. by rewrite Z.sub_diag. Qed.

Lemma requests_cons their_id n m :
  (n < m)%Z -> requests their_id n m = request_bytes their_id n ++ requests their_id (n + 1) m.
Proof.
  intros Hn. rewrite (requests_app _ n (n + 1) m) by lia. f_equal. unfold requests.
  replace (n + 1 - n)%Z with 1%Z by lia. rewrite seqZ_cons, (seqZ_nil (Z.succ n)) by lia.
  apply app_nil_r.
Qed.

Variables (their_id count : Z).
Hypothesis Hid : (1 <= their_id <= 255)%Z.
Hypothesis Hsize : (0 < size <= MAX_METADATA_SIZE)%Z.
Hypothesis Hcount : piece_count size = Ok count.

Lemma consumes_fill turns pieces outstanding n :
  PIECE_WINDOW <= turns + base.size outstanding -> holding size count pieces outstanding n ->
  exists o m, consumes (fill_window turns their_id count outstanding n) [] (requests their_id n m) (o, m) /\
    holding size count pieces o m /\ (n <= m)%Z /\ ((m < count)%Z -> base.size o = PIECE_WINDOW).
Proof using Hid Hsize Hcount.
  assert (count <= 256)%Z as Hc by (by apply (piece_count_small size count)).
  revert outstanding n. induction turns as [|turns IH]; intros outstanding n Ht Hh; cbn [fill_window];
    destruct (_ && _) eqn:Hgo.
  1: apply andb_true_iff in Hgo as [_ Hgo%bool_decide_eq_true]; lia.
  1,3: exists outstanding, n; rewrite requests_nil; split; [apply consumes_ret|split; [done|split; [lia|]]];
    intros; apply hold_window in Hh; rewrite andb_false_iff, bool_decide_eq_false in Hgo; destruct Hgo; lia.
  apply andb_true_iff in Hgo as [Hn Hgo%bool_decide_eq_true]. apply Z.ltb_lt in Hn.
  destruct (holding_request _ _ _ _ _ Hh Hn Hgo) as [Hh' Hsz].
  destruct (encode_metadata_request_Ok their_id n) as (body & _ & He); [done|apply hold_next in Hh; lia|].
  destruct (IH ({[n]} ∪ outstanding) (n + 1)%Z ltac:(lia) Hh') as (o & m & Hc' & Hm & Hle & Hfull).
  exists o, m. split; [|split; [done|split; [lia|done]]]. rewrite requests_cons by lia.
  unfold request_bytes. eapply consumes_call; [exact He|]. rewrite He. apply consumes_send; [|done].
  intros Hnil. apply (f_equal length) in Hnil. by rewrite length_app, length_be_encode in Hnil.
Qed.

Lemma consumes_piece fuel outstanding deadline passed f p :
  Forall (passed_over UT_METADATA_LOCAL_ID) passed -> serves p f -> p ∈ outstanding -> (0 <= p < count)%Z ->
  (0 <= deadline)%Z -> length passed < fuel ->
  consumes (receive_piece depth fuel outstanding size deadline) (frames_bytes passed ++ frame_bytes f) [] (p, piece_of p).
Proof using Hid Hsize Hcount.
  intros Hp (payload & total_size & Hf & Hdec & Htotal) Hin Hpc Hd Hfuel.
  destruct fuel as [|fuel]; [lia|]. cbn [receive_piece].
  apply consumes_check; [rewrite bool_decide_eq_false_2 by set_solver; lia|].
  eapply consumes_last; [by eapply consumes_extended; unfold UT_METADATA_LOCAL_ID|]. cbv beta iota.
  eapply consumes_call; [by rewrite Hdec|]. cbv beta iota.
  rewrite bool_decide_eq_true_2 by done. cbn [negb]. unfold MSG_TYPE_DATA, MSG_TYPE_REJECT at 1. cbn [Z.eqb negb Pos.eqb].
  eapply consumes_call; [by apply (expected_piece_length_eq _ _ count); auto; lia|].
  pose proof (length_piece_of p count ltac:(lia) Hcount Hpc) as Hl. unfold piece_size in Hl.
  rewrite Hl, Z.eqb_refl. cbn [negb orb].
  destruct Htotal as [->| ->]; [apply consumes_ret|]. rewrite Z.eqb_refl. apply consumes_ret.
Qed.

(** One answer: frames that are passed over, then a data message. *)
Definition answer_bytes (b : list frame * frame) : bytes := frames_bytes b.1 ++ frame_bytes b.2.
Definition answer_for (p : Z) (b : list frame * frame) : Prop :=
  Forall (passed_over UT_METADATA_LOCAL_ID) b.1 /\ serves p b.2.

(** The pieces still to come are the ones missing, each within the window. *)
Record remaining (pieces : gmap Z bytes) (rest : list Z) : Prop := {
  rem_nodup : NoDup rest;
  rem_missing p : p ∈ rest <-> (0 <= p < count)%Z /\ pieces !! p = None;
  rem_window i p : rest !! i = Some p -> (p < Z.of_nat (base.size pieces + i + PIECE_WINDOW))%Z;
  rem_data p data : pieces !! p = Some data -> data = piece_of p;
}.

Lemma remaining_receive pieces p rest :
  remaining pieces (p :: rest) -> remaining (<[p := piece_of p]> pieces) rest.
Proof.
  intros [Hnd Hmiss Hwin Hdata]. apply NoDup_cons in Hnd as [Hp Hnd].
  assert (pieces !! p = None) as Hnone by (apply Hmiss; by left). split; [done| | |].
  - intros q. specialize (Hmiss q). rewrite elem_of_cons in Hmiss. destruct (decide (q = p)) as [->|Hne].
    + rewrite lookup_insert_eq. split; [done|]. by intros [_ ?].
    + rewrite lookup_insert_ne by done. tauto.
  - intros i q Hq. rewrite map_size_insert_None by done. specialize (Hwin (Datatypes.S i) q Hq). lia.
  - intros q data. destruct (decide (q = p)) as [->|Hne].
    + rewrite lookup_insert_eq. by intros [= <-].
    + rewrite lookup_insert_ne by done. apply Hdata.
Qed.

Lemma remaining_size pieces outstanding n rest :
  holding size count pieces outstanding n -> remaining pieces rest ->
  (Z.of_nat (base.size pieces) + Z.of_nat (length rest) = count)%Z.
Proof.
  intros Hh [Hnd Hmiss _ _]. pose proof (hold_next _ _ _ _ _ Hh) as Hn.
  rewrite <-(size_range count) by lia.
  replace (range count) with (dom pieces ∪ list_to_set rest).
  - rewrite size_union, size_list_to_set, size_dom by (done || (intros p Hp%elem_of_dom Hq%elem_of_list_to_set;
      apply Hmiss in Hq as [_ Hq]; rewrite Hq in Hp; by destruct Hp)). lia.
  - apply set_eq. intros p. rewrite elem_of_union, elem_of_dom, elem_of_list_to_set, Hmiss, elem_of_range.
    destruct (pieces !! p) eqn:Hp.
    + split; [intros _|by intros _; left]. assert (0 <= p < n)%Z by (apply (hold_requested _ _ _ _ _ Hh); left; eauto). lia.
    + split; [by intros [[? ?]|[? _]]|by right].
Qed.

(** The outstanding pieces are those requested and not received. *)
Lemma outstanding_size pieces outstanding n :
  holding size count pieces outstanding n -> (Z.of_nat (base.size pieces) + Z.of_nat (base.size outstanding) = n)%Z.
Proof.
  intros Hh. pose proof (hold_next _ _ _ _ _ Hh) as Hn. rewrite <-(size_range n) by lia.
  replace (range n) with (dom pieces ∪ outstanding).
  - rewrite size_union, size_dom; [lia|]. intros p Hp%elem_of_dom Hq.
    apply (hold_disjoint _ _ _ _ _ Hh) in Hq. rewrite Hq in Hp. by destruct Hp.
  - apply set_eq. intros p. rewrite elem_of_union, elem_of_dom, elem_of_range. apply (hold_requested _ _ _ _ _ Hh).
Qed.

(** The frames of the answers, which bound the turns of the session's loops. *)
Definition answer_frames (batches : list (list frame * frame)) : nat :=
  sum_list ((fun b => S (length b.1)) <$> batches).

Lemma answer_frames_cons b batches : answer_frames (b :: batches) = S (length b.1) + answer_frames batches.
Proof. done. Qed.

Lemma consumes_collect fuel timeouts D rest batches pieces outstanding n :
  holding size count pieces outstanding n -> remaining pieces rest -> Forall2 answer_for rest batches ->
  (0 <= D)%Z -> (0 <= timeouts.(piece))%Z -> answer_frames batches < fuel ->
  exists all, consumes (collect_pieces depth fuel their_id size timeouts D count pieces outstanding n)
      (concat (answer_bytes <$> batches)) (requests their_id n count) all /\
    (forall p, (0 <= p < count)%Z -> all !! p = Some (piece_of p)).
Proof using Hid Hsize Hcount.
  intros Hh Hrem Hall HD Hpt. revert fuel pieces outstanding n Hh Hrem.
  induction Hall as [|p b rest batches [Hpassed Hserves] _ IH]; intros fuel pieces outstanding n Hh Hrem Hfuel;
    pose proof (remaining_size _ _ _ _ Hh Hrem) as Hsz; cbn [length] in Hsz.
  - exists pieces. destruct fuel as [|fuel]; [cbn in Hfuel; lia|]. cbn [collect_pieces].
    destruct (_ <? _)%Z eqn:?; [lia|]. pose proof (outstanding_size _ _ _ Hh). pose proof (hold_next _ _ _ _ _ Hh).
    replace n with count by lia. rewrite requests_nil. split; [apply consumes_ret|].
    intros q Hq. destruct (pieces !! q) as [data|] eqn:Hd; [by rewrite (rem_data _ _ Hrem q data)|].
    assert (q ∈ []) as Hin by (by apply (rem_missing _ _ Hrem)). by apply elem_of_nil in Hin.
  - destruct fuel as [|fuel]; [lia|]. rewrite answer_frames_cons in Hfuel.
    cbn [collect_pieces]. destruct (_ <? _)%Z eqn:?; [|lia].
    destruct (consumes_fill PIECE_WINDOW pieces outstanding n ltac:(lia) Hh) as (o & m & Hfill & Hh' & Hnm & Hfull).
    assert ((0 <= p < count)%Z /\ pieces !! p = None) as [Hp Hnone] by (apply (rem_missing _ _ Hrem); left).
    pose proof (rem_window _ _ Hrem 0 p eq_refl) as Hwin. pose proof (outstanding_size _ _ _ Hh') as Hosz.
    pose proof (hold_next _ _ _ _ _ Hh') as Hm.
    assert (p < m)%Z as Hpm by (destruct (decide (m < count)%Z) as [Hmc|]; [specialize (Hfull Hmc)|]; lia).
    assert (p ∈ o) as Hin.
    { destruct (proj2 (hold_requested _ _ _ _ _ Hh' p)) as [[? Hs]|]; [lia|by rewrite Hnone in Hs|done]. }
    pose proof (holding_receive _ _ _ _ _ p (piece_of p) Hh' Hin (length_piece_of p count ltac:(lia) Hcount Hp)) as Hh''.
    destruct (IH fuel _ _ _ Hh'' (remaining_receive _ _ _ Hrem)) as (all & Hc & Hdata); [lia|].
    exists all. split; [|done]. rewrite fmap_cons. cbn [concat]. rewrite (requests_app _ n m count) by lia.
    change (answer_bytes b ++ concat (answer_bytes <$> batches)) with ([] ++ (answer_bytes b ++ concat (answer_bytes <$> batches))).
    eapply consumes_bind; [exact Hfill|]. cbv beta iota. apply consumes_now.
    apply (consumes_first _ _ _ _ _ (p, piece_of p)); [|exact Hc]. apply consumes_piece; done || lia.
Qed.

Lemma consumes_request_pieces fuel timeouts D order batches :
  remaining ∅ order -> Forall2 answer_for order batches ->
  (0 <= D)%Z -> (0 <= timeouts.(piece))%Z -> answer_frames batches < fuel ->
  consumes (request_pieces depth fuel their_id size timeouts D)
    (concat (answer_bytes <$> batches)) (requests their_id 0 count) metadata.
Proof using Hid Hsize Hcount.
  intros Hrem Hall HD Hpt Hfuel. unfold request_pieces. apply consumes_check; [lia|].
  eapply consumes_call; [exact Hcount|]. pose proof (piece_count_small _ _ Hsize Hcount) as Hc.
  destruct (consumes_collect fuel timeouts D order batches ∅ ∅ 0) as (all & Hcol & Hdata); try done.
  { apply holding_start. lia. }
  rewrite <-(app_nil_r (concat _)), <-(app_nil_r (requests _ _ _)). eapply consumes_bind; [exact Hcol|].
  assert (concat ((fun i : nat => piece_of (Z.of_nat i)) <$> seq 0 (Z.to_nat count)) = metadata) as Hjoin.
  { rewrite concat_pieces. apply take_ge. destruct (piece_count_eq size) as (c & Hc' & _ & H2); [lia|].
    rewrite Hcount in Hc'. injection Hc' as <-. unfold METADATA_PIECE_SIZE, size in *. lia. }
  eapply consumes_call.
  { rewrite (join_pieces_eq _ _ (fun i => piece_of (Z.of_nat i))); [by rewrite Hjoin|]. intros i Hi. apply Hdata. lia. }
  apply consumes_check; [unfold size; lia|]. apply consumes_ret.
Qed.
End peer.

(** ** A conforming peer *)

(** What a conforming peer sends to a session that asks it for [metadata]: a
    handshake for the info hash that announces the extension protocol, an
    extended handshake with its id for [ut_metadata] and the metadata's size,
    and an answer to each of the requests, in any order within the window of
    requests; between these, frames that a session passes over. *)
Record conversation : Type := {
  their_handshake : bytes;
  before_extended : list frame;
  extended_handshake : frame;
  order : list Z;
  answers : list (list frame * frame);
}.

Definition conversation_bytes (c : conversation) : bytes :=
  c.(their_handshake) ++ (frames_bytes c.(before_extended) ++ frame_bytes c.(extended_handshake))
  ++ concat (answer_bytes <$> c.(answers)).
Definition conversation_frames (c : conversation) : nat :=
  max (S (length c.(before_extended))) (answer_frames c.(answers)).

Record conforms (depth : nat) (info_hash metadata : bytes) (their_id : Z) (c : conversation) : Prop := {
  conf_size : (0 < Z.of_nat (length metadata) <= MAX_METADATA_SIZE)%Z;
  conf_handshake : length c.(their_handshake) = HANDSHAKE_LENGTH /\
    exists peer_id, decode_handshake c.(their_handshake) = Ok (info_hash, peer_id, true);
  conf_before : Forall (passed_over depth EXTENDED_HANDSHAKE_ID) c.(before_extended);
  conf_extended : exists payload trailing,
    extended depth EXTENDED_HANDSHAKE_ID payload trailing c.(extended_handshake) /\
    read_extended_handshake payload = Ok (their_id, Z.of_nat (length metadata));
  conf_order : exists count, piece_count (Z.of_nat (length metadata)) = Ok count /\
    NoDup c.(order) /\ (forall p, p ∈ c.(order) <-> (0 <= p < count)%Z) /\
    (forall i p, c.(order) !! i = Some p -> (p < Z.of_nat (i + PIECE_WINDOW))%Z);
  conf_answers : Forall2 (answer_for depth metadata) c.(order) c.(answers);
}.

(** The requests of all the pieces of the metadata, in order. *)
Definition all_requests (their_id : Z) (metadata : bytes) : bytes :=
  match piece_count (Z.of_nat (length metadata)) with
  | Ok count => requests their_id 0 count
  | Raise _ => []
  end.

Lemma consumes_session depth info_hash metadata their_id c fuel random opening timeouts D send_handshakes :
  conforms depth info_hash metadata their_id c ->
  length info_hash = NODE_ID_LENGTH -> opening_messages info_hash random = Ok opening -> opening <> [] ->
  (0 <= D)%Z -> (0 <= timeouts.(handshake))%Z -> (0 <= timeouts.(piece))%Z -> conversation_frames c < fuel ->
  consumes (run_session depth fuel random info_hash timeouts D send_handshakes) (conversation_bytes c)
    ((if send_handshakes then opening else []) ++ all_requests their_id metadata) metadata.
Proof.
  intros [Hsize [Hlen [peer_id Hhs]] Hbefore (payload & trailing & Hext & Hread) (count & Hcount & Hnd & Hin & Hwin) Hans]
    Hh Ho Hne HD Hht Hpt Hfuel.
  unfold run_session. apply consumes_check; [by apply is_node_id_of|].
  change (conversation_bytes c) with ([] ++ conversation_bytes c).
  eapply (consumes_bind _ _ _ _ _ _ tt).
  { destruct send_handshakes; [|apply consumes_ret].
    eapply consumes_call; [exact Ho|]. intros rest before. unfold send. by rewrite bool_decide_eq_false_2. }
  apply consumes_now. unfold conversation_frames in Hfuel.
  assert (1 <= their_id <= 255)%Z as Hid.
  { pose proof (read_extended_handshake_returns payload) as Hr. rewrite Hread in Hr. cbn in Hr. lia. }
  eapply (consumes_first _ _ _ _ _ tt).
  { unfold read_handshake. apply consumes_check; [by apply is_node_id_of|].
    eapply consumes_last; [apply consumes_read; [exact Hlen|unfold HANDSHAKE_LENGTH; lia|known]|].
    eapply consumes_call; [by rewrite Hhs|]. cbv beta iota.
    rewrite bool_decide_eq_true_2 by done. apply consumes_ret. }
  eapply consumes_first.
  { unfold receive_extended_handshake. apply consumes_check; [lia|].
    eapply consumes_last; [eapply consumes_extended; try done; unfold EXTENDED_HANDSHAKE_ID; lia|]. cbv beta iota.
    eapply consumes_call; [by rewrite Hread|]. apply consumes_check; [cbn [fst snd]; lia|]. apply consumes_ret. }
  cbv beta iota. unfold all_requests. rewrite Hcount.
  rewrite <-(app_nil_r (concat _)), <-(app_nil_r (requests _ _ _)).
  eapply consumes_bind.
  { eapply (consumes_request_pieces _ metadata their_id count); try done; [|lia].
    split; [done| | |]; [intros p; rewrite Hin, lookup_empty; tauto| |intros p data; by rewrite lookup_empty].
    intros i p Hp. rewrite map_size_empty. by apply Hwin. }
  apply consumes_check; [lia|]. apply consumes_ret.
Qed.
