(* ===== verification/PeerStream.v ===== *)
(** Fetches over TCP ([metadata_fetcher.py]): the deadline-bound reads of
    [PeerStream], [open_tcp_stream] and [fetch_metadata].

    A [peer_net] is one attempt as its coroutine sees it: the loop's clock, the
    socket, the reader of the connection, and what the network will do: how
    the connection attempt ends, and what arrives when.  The loop runs a
    coroutine as soon as what it waits for has happened.  Making the socket may
    fail and so may the connection; [setblocking], [setsockopt] and handing the
    connected socket to asyncio are taken not to. *)
From S2P Require Import Prelude PyDict Bencode NodeIdentity AddressText Krpc PeerWire Tasks MetadataSession.
From S2P Require Import MetadataSessionSafety.

(** The [errno] of an [OSError]. *)
Inductive errno : Type :=
  | EMFILE | ENFILE | ENOBUFS | ENOMEM | EADDRNOTAVAIL | ETIMEDOUT | OtherErrno.
#[global] Instance errno_eq_dec : EqDecision errno.
Proof. solve_decision. Defined.

Definition LOCAL_ERRNOS : list errno := [EMFILE; ENFILE; ENOBUFS; ENOMEM; EADDRNOTAVAIL].

Definition connect_error_reason (error : errno) : res string :=
  let result := (if bool_decide (error ∈ LOCAL_ERRNOS) then "local_error" else "connect")%string in
  assert_ (bool_decide (result ∈ FETCH_REASONS)) ;;
  mret result.

(** ** The stream reader *)

(** What arrives on a connection: bytes, the peer's end of stream, or the loss
    of the connection. *)
Inductive arrival : Type :=
  | Data (data : bytes)
  | Eof
  | Lost (error : errno).

(** [asyncio.StreamReader] *)
Record reader : Type := {
  buffer : bytes;
  at_eof : bool;
  exception : option errno;
}.

(** [feed_data], [feed_eof] and [set_exception]: nothing is fed after an end. *)
Definition receive (r : reader) (a : arrival) : reader :=
  match r.(exception), a with
  | Some _, _ => r
  | None, Lost error => {| buffer := r.(buffer); at_eof := r.(at_eof); exception := Some error |}
  | None, Eof => {| buffer := r.(buffer); at_eof := true; exception := None |}
  | None, Data data =>
      if r.(at_eof) then r
      else {| buffer := r.(buffer) ++ data; at_eof := false; exception := None |}
  end.

Inductive read_outcome : Type :=
  | Complete (data : bytes)
  | Incomplete (partial : bytes)
  | Failed (error : errno)
  | TimedOut.

(** One pass of the loop of [readexactly]: what it returns or raises, or
    nothing when it waits for more. *)
Definition try_read (n : nat) (r : reader) : option (read_outcome * reader) :=
  match r.(exception) with
  | Some error => Some (Failed error, r)
  | None =>
      if bool_decide (n <= length r.(buffer)) then
        Some (Complete (take n r.(buffer)),
              {| buffer := drop n r.(buffer); at_eof := r.(at_eof); exception := None |})
      else if r.(at_eof) then
        Some (Incomplete r.(buffer), {| buffer := []; at_eof := true; exception := None |})
      else None
  end.

(** What has arrived by a time is in the reader. *)
Fixpoint feed (time : Z) (incoming : list (Z * arrival)) (r : reader) : list (Z * arrival) * reader :=
  match incoming with
  | (t, a) :: rest => if (t <=? time)%Z then feed time rest (receive r a) else (incoming, r)
  | [] => (incoming, r)
  end.

(** [within(reader.readexactly(n), deadline - time)]: the outcome, the time it
    is known and what is left. *)
Fixpoint readexactly (n : nat) (deadline time : Z) (incoming : list (Z * arrival)) (r : reader)
    : read_outcome * (Z * list (Z * arrival) * reader) :=
  match try_read n r with
  | Some (outcome, r') => (outcome, (time, incoming, r'))
  | None =>
      match incoming with
      | (t, a) :: rest =>
          if (t <? deadline)%Z then readexactly n deadline (Z.max time t) rest (receive r a)
          else (TimedOut, (deadline, incoming, r))
      | [] => (TimedOut, (deadline, incoming, r))
      end
  end.

(** ** The connection *)

Inductive socket_state : Type :=
  | Unopened
  | Connecting (f : family)
  | Streaming (f : family)
  | Closed.

Record peer_net : Type := {
  clock : Z;
  (** what [socket.socket] raises *)
  socket_error : option errno;
  (** when, from its start, the connection attempt ends, and its error *)
  connecting : option (Z * option errno);
  incoming : list (Z * arrival);
  stream_reader : reader;
  written : bytes;
  sock : socket_state;
}.

Definition net_eta (n : peer_net) : peer_net :=
  {| clock := clock n; socket_error := socket_error n; connecting := connecting n; incoming := incoming n;
     stream_reader := stream_reader n; written := written n; sock := sock n |}.
Definition set_clock : Z -> peer_net -> peer_net := ltac:(make_setter net_eta clock).
Definition set_incoming : list (Z * arrival) -> peer_net -> peer_net := ltac:(make_setter net_eta incoming).
Definition set_reader : reader -> peer_net -> peer_net := ltac:(make_setter net_eta stream_reader).
Definition set_written : bytes -> peer_net -> peer_net := ltac:(make_setter net_eta written).
Definition set_sock : socket_state -> peer_net -> peer_net := ltac:(make_setter net_eta sock).

Section tcp.
(** Python 3.11 and later, where [asyncio.TimeoutError] is the [TimeoutError]
    that an [OSError] of [ETIMEDOUT] is. *)
Variable one_timeout_error : bool.

Definition is_timeout_error (error : errno) : bool :=
  one_timeout_error && bool_decide (error = ETIMEDOUT).

(** [within(reader.readexactly(length), remaining)] *)
Definition within_readexactly (length : nat) (remaining : Z) : task peer_net read_outcome := fun n =>
  let '(waiting, r) := feed n.(clock) n.(incoming) n.(stream_reader) in
  let '(outcome, (time, rest, r)) := readexactly length (n.(clock) + remaining) n.(clock) waiting r in
  (Ok outcome, set_clock time (set_incoming rest (set_reader r n))).

(** [PeerStream.read_exactly] *)
Definition peer_read_exactly (length : nat) (deadline : Z) (closed_reason : string) : task peer_net bytes :=
  check (bool_decide (0 < length) && bool_decide (closed_reason ∈ FETCH_REASONS)) ;;
  time ← reads clock;
  let remaining := (deadline - time)%Z in
  if (remaining <=? 0)%Z then throw (fetch_error "timeout")
  else
    outcome ← within_readexactly length remaining;
    match outcome with
    | Complete result => check (bool_decide (Datatypes.length result = length)) ;; mret result
    | Incomplete partial => throw (fetch_error (if bool_decide (partial = []) then closed_reason else "closed"))
    | TimedOut => throw (fetch_error "timeout")
    | Failed error => throw (fetch_error (if is_timeout_error error then "timeout" else closed_reason))
    end.

(** [PeerStream.write] and [PeerStream.close]: the transport is aborted. *)
#[export] Instance PeerStream : ByteStream peer_net := {|
  loop_time := clock;
  read_exactly := peer_read_exactly;
  write data := change (fun n => set_written (n.(written) ++ data) n);
  close := change (set_sock Closed);
|}.

(** ** Connecting *)

Inductive connect_outcome : Type :=
  | Connected
  | ConnectTimedOut
  | ConnectFailed (error : errno).

(** [within(sock_connect(sock, address), timeout)] *)
Definition within_connect (timeout : Z) : task peer_net connect_outcome := fun n =>
  match n.(connecting) with
  | Some (delay, error) =>
      if (delay <? timeout)%Z then
        (Ok (match error with Some e => ConnectFailed e | None => Connected end),
         set_clock (n.(clock) + Z.max 0 delay)%Z n)
      else (Ok ConnectTimedOut, set_clock (n.(clock) + timeout)%Z n)
  | None => (Ok ConnectTimedOut, set_clock (n.(clock) + timeout)%Z n)
  end.

(** The clause [except BaseException: sock.close(); raise]. *)
Definition closing_on_error (m : task peer_net unit) : task peer_net unit :=
  catch m (fun e => change (set_sock Closed) ;; throw e).

Definition open_tcp_stream (addr : address) (timeout : Z) : task peer_net unit :=
  check (0 <? timeout)%Z ;;
  let family := if bool_decide (":"%byte ∈ addr.1) then AF_INET6 else AF_INET in
  failed ← reads socket_error;
  match failed with
  | Some error => reason ← call (connect_error_reason error); throw (fetch_error reason)
  | None =>
      change (set_sock (Connecting family)) ;;
      closing_on_error (
        outcome ← within_connect timeout;
        match outcome with
        | ConnectTimedOut => throw (fetch_error "connect_timeout")
        | ConnectFailed error =>
            if is_timeout_error error then throw (fetch_error "connect_timeout")
            else reason ← call (connect_error_reason error); throw (fetch_error reason)
        | Connected => change (set_sock (Streaming family))
        end)
  end.

(** ** Fetches *)

Variable sha1 : bytes -> bytes.
Variable depth : nat.

Definition fetch_metadata (fuel : nat) (random info_hash : bytes) (addr : address) (timeouts : FetchTimeouts)
    : task peer_net bytes :=
  check (is_node_id info_hash) ;;
  time ← now;
  let session_deadline := (time + timeouts.(session))%Z in
  open_tcp_stream addr timeouts.(connect) ;;
  metadata ← finally (run_session depth fuel random info_hash timeouts session_deadline true)
                     close;
  call (verify_metadata sha1 info_hash metadata) ;;
  check (negb (bool_decide (metadata = []))) ;;
  mret metadata.
End tcp.
