(* ===== verification/PeerStreamTheorems.v ===== *)
(** Fetches over TCP: [PeerStream] keeps the promises of a session's stream,
    and a fetch ends in time, closes its socket, and returns verified metadata
    or a named error. *)
From S2P Require Import Prelude PyDict Bencode NodeIdentity AddressText Krpc PeerWire Tasks MetadataSession.
From S2P Require Import MetadataSessionSafety MetadataSessionRelation MetadataPeer PeerStream.

Definition arrival_length (a : Z * arrival) : nat :=
  match a.2 with Data data => length data | _ => 0 end.
Definition pending (incoming : list (Z * arrival)) (r : reader) : nat :=
  length r.(buffer) + sum_list (arrival_length <$> incoming).

Lemma pending_receive t a rest r : pending rest (receive r a) <= pending ((t, a) :: rest) r.
Proof.
  unfold pending, receive. cbn. unfold arrival_length at 2. cbn.
  destruct (exception r); [lia|]. destruct a; cbn; try lia.
  destruct (at_eof r); cbn; rewrite ?length_app; lia.
Qed.

Lemma feed_pending time incoming r :
  let '(rest, r') := feed time incoming r in pending rest r' <= pending incoming r.
Proof.
  revert r. induction incoming as [|[t a] rest IH]; intros r; simpl; [done|].
  destruct (t <=? time)%Z; [|done]. specialize (IH (receive r a)).
  destruct (feed time rest (receive r a)) as [rest' r']. pose proof (pending_receive t a rest r). lia.
Qed.

(** What a read can end with: the bytes asked for, which are consumed, or one
    of the failures, by the deadline. *)
Lemma readexactly_spec n deadline time incoming r :
  (time <= deadline)%Z ->
  let '(outcome, (time', rest, r')) := readexactly n deadline time incoming r in
  (time <= time' <= deadline)%Z /\
  match outcome with
  | Complete data => length data = n /\ pending rest r' + n <= pending incoming r
  | _ => pending rest r' <= pending incoming r
  end.
Proof.
  revert time r. induction incoming as [|[t a] rest IH]; intros time r Ht; cbn [readexactly];
    unfold try_read; destruct (exception r) eqn:He; try (split; [lia|done]).
  - case_bool_decide.
    + split; [lia|]. rewrite length_take. split; [lia|]. unfold pending. cbn. rewrite length_drop. lia.
    + destruct (at_eof r); (split; [lia|]); unfold pending; cbn; lia.
  - case_bool_decide.
    + split; [lia|]. rewrite length_take. split; [lia|]. unfold pending. cbn. rewrite length_drop. lia.
    + destruct (at_eof r); [split; [lia|]; unfold pending; cbn; lia|].
      destruct (Z.ltb_spec t deadline); [|split; [lia|done]].
      specialize (IH (Z.max time t) (receive r a) ltac:(lia)).
      destruct (readexactly n deadline (Z.max time t) rest (receive r a)) as [outcome [[time' rest'] r']].
      destruct IH as [IHt IH]. split; [lia|]. pose proof (pending_receive t a rest r).
      destruct outcome; [destruct IH; split; [done|]|..]; lia.
Qed.

Section laws.
Context (one_timeout_error : bool).

#[export] Program Instance PeerStreamLaws : ByteStreamLaws (PeerStream one_timeout_error) := {|
  ok n := exists f, n.(sock) = Streaming f;
  unread n := pending n.(incoming) n.(stream_reader);
|}.
Next Obligation.
  intros n len deadline reason Hok Hlen Hr. cbn [read_exactly PeerStream loop_time]. unfold peer_read_exactly.
  apply tri_bind, tri_check; [by rewrite !bool_decide_eq_true_2|].
  apply tri_bind, tri_reads. case_match eqn:Hrem.
  { apply tri_throw. split; [apply named_fetch_error; known|]. split; [done|]. split; [done|]. unfold by_deadline. lia. }
  apply tri_bind. unfold tri at 1, within_readexactly.
  pose proof (feed_pending (clock n) (incoming n) (stream_reader n)) as Hfeed.
  destruct (feed (clock n) (incoming n) (stream_reader n)) as [waiting r].
  pose proof (readexactly_spec len (clock n + (deadline - clock n)) (clock n) waiting r ltac:(lia)) as Hspec.
  destruct (readexactly len _ (clock n) waiting r) as [outcome [[time rest] r']].
  destruct Hspec as [Ht Hspec].
  assert (forall reason' n', reason' ∈ FETCH_REASONS -> (exists f, sock n' = Streaming f) ->
    pending (incoming n') (stream_reader n') <= pending (incoming n) (stream_reader n) ->
    by_deadline deadline (clock n) (clock n') ->
    tri (throw (A := bytes) (fetch_error reason')) (fun data s' => length data = len /\ (exists f, sock s' = Streaming f) /\
        pending (incoming s') (stream_reader s') + len <= pending (incoming n) (stream_reader n) /\
        by_deadline deadline (clock n) (clock s'))
      (fun e s' => named e /\ (exists f, sock s' = Streaming f) /\
        pending (incoming s') (stream_reader s') <= pending (incoming n) (stream_reader n) /\
        by_deadline deadline (clock n) (clock s')) n') as Hfail.
  { intros reason' n' ????. apply tri_throw. split; [by apply named_fetch_error|done]. }
  assert (by_deadline deadline (clock n) time) as Hby by (unfold by_deadline; lia).
  destruct outcome as [data|partial|error|].
  - destruct Hspec as [Hl Hp]. apply tri_bind, tri_check; [by apply bool_decide_eq_true|].
    apply tri_ret. cbn. split; [done|]. split; [done|]. split; [lia|done].
  - apply Hfail; [case_bool_decide; [done|known]|done|cbn; lia|done].
  - apply Hfail; [case_match; [known|done]|done|cbn; lia|done].
  - apply Hfail; [known|done|cbn; lia|done].
Qed.
Next Obligation. intros n data Hok _. done. Qed.
End laws.

(** ** Fetches *)

Record timeouts_ok (timeouts : FetchTimeouts) : Prop := {
  connect_pos : (0 < timeouts.(connect))%Z;
  handshake_nonneg : (0 <= timeouts.(handshake))%Z;
  piece_nonneg : (0 <= timeouts.(piece))%Z;
  session_nonneg : (0 <= timeouts.(session))%Z;
}.

Section fetches.
Context (one_timeout_error : bool) (sha1 : bytes -> bytes) (depth : nat).

Lemma connect_error_reason_Ok error :
  exists reason, connect_error_reason error = Ok reason /\ reason ∈ FETCH_REASONS.
Proof. unfold connect_error_reason. case_bool_decide; eexists; (split; [reflexivity|known]). Qed.

(** [open_tcp_stream] ends within its timeout, with an open connection or with
    a named error and no open socket. *)
Lemma tri_open_tcp_stream addr timeout n :
  n.(sock) = Unopened -> (0 < timeout)%Z ->
  tri (open_tcp_stream one_timeout_error addr timeout)
    (fun _ n' => (clock n <= clock n' <= clock n + timeout)%Z /\ (exists f, sock n' = Streaming f) /\
                 incoming n' = incoming n /\ stream_reader n' = stream_reader n /\ written n' = written n)
    (fun e n' => (clock n <= clock n' <= clock n + timeout)%Z /\ (sock n' = Unopened \/ sock n' = Closed) /\ named e) n.
Proof.
  intros Hs Ht. unfold open_tcp_stream. apply tri_bind, tri_check; [lia|]. cbv zeta.
  apply tri_bind, tri_reads. destruct (socket_error n) as [error|].
  { destruct (connect_error_reason_Ok error) as (reason & Hr & Hin).
    apply tri_bind. eapply tri_call_Ok; [exact Hr|]. apply tri_throw.
    split; [lia|]. split; [by left|]. by apply named_fetch_error. }
  apply tri_bind, tri_change. unfold closing_on_error. apply tri_catch, tri_bind.
  set (f := if bool_decide _ then _ else _).
  apply (tri_mono _ (fun _ n' => (clock n <= clock n' <= clock n + timeout)%Z /\
    incoming n' = incoming n /\ stream_reader n' = stream_reader n /\ written n' = written n) _ (fun _ _ => False)); [| |done].
  { unfold tri, within_connect. cbn. destruct (connecting n) as [[delay error]|]; [|cbn; split; [lia|done]].
    destruct (Z.ltb_spec delay timeout); cbn; (split; [lia|done]). }
  intros outcome n' (Hc & Hi & Hr & Hw).
  assert (forall reason, reason ∈ FETCH_REASONS ->
    tri (throw (fetch_error reason))
      (fun (_ : ()) n' => (clock n <= clock n' <= clock n + timeout)%Z /\ (exists f, sock n' = Streaming f) /\
                   incoming n' = incoming n /\ stream_reader n' = stream_reader n /\ written n' = written n)
      (fun e s' => tri (change (set_sock Closed) ;; throw e)
        (fun (_ : ()) n' => (clock n <= clock n' <= clock n + timeout)%Z /\ (exists f, sock n' = Streaming f) /\
                   incoming n' = incoming n /\ stream_reader n' = stream_reader n /\ written n' = written n)
        (fun e n' => (clock n <= clock n' <= clock n + timeout)%Z /\ (sock n' = Unopened \/ sock n' = Closed) /\ named e) s') n')
    as Hfail.
  { intros reason Hin. apply tri_throw, tri_bind, tri_change, tri_throw. cbn.
    split; [done|]. split; [by right|]. by apply named_fetch_error. }
  destruct outcome as [| |error].
  - apply tri_change. cbn. split; [done|]. split; [by eexists|done].
  - apply Hfail. known.
  - case_match; [apply Hfail; known|].
    destruct (connect_error_reason_Ok error) as (reason & He & Hin).
    apply tri_bind. eapply tri_call_Ok; [exact He|]. by apply Hfail.
Qed.

(** What is common to the fetches over TCP: a session [m] between the opening
    of the connection and the check of the metadata. *)
Definition fetch_with (m : Z -> task peer_net bytes) (info_hash : bytes) (addr : address) (timeouts : FetchTimeouts)
    : task peer_net bytes :=
  check (is_node_id info_hash) ;;
  time ← reads clock;
  open_tcp_stream one_timeout_error addr timeouts.(connect) ;;
  metadata ← finally (m (time + timeouts.(session))%Z) (change (set_sock Closed));
  call (verify_metadata sha1 info_hash metadata) ;;
  check (negb (bool_decide (metadata = []))) ;;
  mret metadata.

(** How a fetch ends: in time, its socket closed, with verified metadata or
    with a named error. *)
Definition fetch_ends (info_hash : bytes) (timeouts : FetchTimeouts) (n : peer_net) (end_ : res bytes * peer_net) : Prop :=
  let '(outcome, n') := end_ in
  (clock n <= clock n' <= clock n + Z.max timeouts.(connect) timeouts.(session))%Z /\
  (sock n' = Unopened \/ sock n' = Closed) /\
  match outcome with
  | Ok metadata => metadata <> [] /\ sha1 metadata = info_hash
  | Raise e => exists reason, reason ∈ FETCH_REASONS /\ e = MetadataFetchError reason
  end.

Lemma fetch_with_ends m info_hash addr timeouts n :
  length info_hash = NODE_ID_LENGTH -> (0 < timeouts.(connect))%Z -> sock n = Unopened ->
  (forall D n1, (exists f, sock n1 = Streaming f) -> (clock n <= clock n1)%Z ->
     incoming n1 = incoming n -> stream_reader n1 = stream_reader n -> (D = clock n + timeouts.(session))%Z ->
     tri (m D) (fun data n2 => 0 < length data /\ goes_on (stream := PeerStream one_timeout_error) D n1 n2)
       (fails_named (stream := PeerStream one_timeout_error) D n1) n1) ->
  fetch_ends info_hash timeouts n (fetch_with m info_hash addr timeouts n).
Proof.
  intros Hh Hc Hs Hm.
  set (post n' := (clock n <= clock n' <= clock n + Z.max timeouts.(connect) timeouts.(session))%Z /\
    (sock n' = Unopened \/ sock n' = Closed)).
  enough (tri (fetch_with m info_hash addr timeouts)
    (fun metadata n' => post n' /\ metadata <> [] /\ sha1 metadata = info_hash)
    (fun e n' => post n' /\ named e) n) as Htri.
  { unfold tri in Htri. unfold fetch_ends. destruct (fetch_with _ _ _ _ n) as [[d|e] n'];
      destruct Htri as [[? ?] ?]; done. }
  unfold fetch_with. apply tri_bind, tri_check; [by apply is_node_id_of|].
  apply tri_bind, tri_reads. apply tri_bind. eapply tri_mono; [by apply tri_open_tcp_stream| |].
  2: { intros e n' (H1 & H2 & H3). unfold post. split; [split; [lia|done]|done]. }
  intros u n1 (H1 & Hsock & Hi & Hrd & _). apply tri_bind, tri_finally.
  assert (forall n2, goes_on (stream := PeerStream one_timeout_error) (clock n + session timeouts) n1 n2 -> post (set_sock Closed n2)) as Hpost.
  { intros n2 (_ & _ & Hby). unfold post, by_deadline in *. cbn in *. split; [lia|by right]. }
  eapply tri_mono; [apply Hm; try done; lia| |].
  - intros metadata n2 [Hl Hg]. apply tri_change. apply tri_bind.
    assert (metadata <> []) as Hne by (destruct metadata; [cbn in Hl; lia|done]).
    unfold verify_metadata. rewrite is_node_id_of by done. cbn [assert_ mbind res_bind].
    case_bool_decide as Hsha; cbn [negb raise_if].
    + apply tri_call. cbn [returns]. apply tri_bind, tri_check; [by rewrite bool_decide_eq_false_2|].
      apply tri_ret. split; [by apply Hpost|done].
    + apply tri_call. split; [by apply Hpost|]. apply named_fetch_error. known.
  - intros e n2 [Hn Hg]. apply tri_change. split; [by apply Hpost|done].
Qed.

(** C19. A fetch over TCP ends, whatever the network and the peer do: within
    the longer of its connect and its session timeout, with its socket closed
    (or never opened), and either with metadata that has the SHA-1 it was asked
    for or with a [MetadataFetchError] of a known reason, never with an
    exception of the decoders, of a failed assertion or of the loop. *)
Theorem fetch_metadata_outcome fuel random info_hash addr timeouts n :
  length info_hash = NODE_ID_LENGTH -> random_ok random -> timeouts_ok timeouts ->
  (0 <= clock n)%Z -> sock n = Unopened -> pending (incoming n) (stream_reader n) < fuel ->
  let '(outcome, n') := fetch_metadata one_timeout_error sha1 depth fuel random info_hash addr timeouts n in
  (clock n <= clock n' <= clock n + Z.max timeouts.(connect) timeouts.(session))%Z /\
  (sock n' = Unopened \/ sock n' = Closed) /\
  match outcome with
  | Ok metadata => metadata <> [] /\ sha1 metadata = info_hash
  | Raise e => exists reason, reason ∈ FETCH_REASONS /\ e = MetadataFetchError reason
  end.
Proof.
  intros Hh Hr [Hc Hhs Hp Hss] Ht Hs Hf.
  apply (fetch_with_ends (fun D => run_session (ByteStream0 := PeerStream one_timeout_error) depth fuel random info_hash timeouts D true)
    info_hash addr timeouts n); try done.
  intros D n1 Hsock Hclock Hi Hrd ->. apply tri_run_session; try done; cbn; [lia|lia|by rewrite Hi, Hrd].
Qed.

(** ** A connection on which everything arrives in time *)

Section in_time.
(** All of it arrives by [T], on a connection that is open from [start] on. *)
Variables (start T : Z).

Definition arrival_data (a : Z * arrival) : bytes :=
  match a.2 with Data data => data | _ => [] end.
Definition content (incoming : list (Z * arrival)) (r : reader) : bytes :=
  r.(buffer) ++ concat (arrival_data <$> incoming).
Definition data_by (a : Z * arrival) : Prop := (a.1 <= T)%Z /\ exists data, a.2 = Data data.
Definition reading (r : reader) : Prop := r.(exception) = None /\ r.(at_eof) = false.

Lemma receive_data t data rest r :
  reading r -> reading (receive r (Data data)) /\ content rest (receive r (Data data)) = content ((t, Data data) :: rest) r.
Proof.
  intros [He Ha]. unfold receive, content, reading. rewrite He, Ha. cbn. split; [done|]. by rewrite <-app_assoc.
Qed.

Lemma feed_data time incoming r :
  Forall data_by incoming -> reading r ->
  let '(rest, r') := feed time incoming r in
  Forall data_by rest /\ reading r' /\ content rest r' = content incoming r.
Proof.
  intros Hall. revert r. induction Hall as [|[t a] rest [Ht [data Ha]] Hall IH]; intros r Hr; simpl; [done|].
  cbn in Ha. subst a. destruct (t <=? time)%Z; [|split; [|done]; constructor; [split; [done|by eexists]|done]].
  destruct (receive_data t data rest r Hr) as [Hr' Hc]. specialize (IH _ Hr').
  destruct (feed time rest (receive r (Data data))) as [rest' r']. destruct IH as (? & ? & ->). done.
Qed.

Lemma readexactly_data n deadline time incoming r :
  Forall data_by incoming -> reading r -> (T < deadline)%Z -> (time <= T)%Z -> n <= length (content incoming r) ->
  exists time' rest r',
    readexactly n deadline time incoming r = (Complete (take n (content incoming r)), (time', rest, r')) /\
    (time <= time' <= T)%Z /\ Forall data_by rest /\ reading r' /\ content rest r' = drop n (content incoming r).
Proof.
  intros Hall Hr HT. revert time r Hr. induction Hall as [|[t a] rest [Ht [data Ha]] Hall IH]; intros time r Hr Htime Hn;
    cbn [readexactly]; unfold try_read; rewrite (proj1 Hr).
  - unfold content in *. cbn in *. rewrite app_nil_r in *. rewrite bool_decide_eq_true_2 by done.
    do 3 eexists. split; [done|]. split; [lia|]. split; [constructor|]. split; [by destruct Hr|]. cbn. by rewrite app_nil_r.
  - cbn in Ha. subst a. case_bool_decide as Hb.
    + do 3 eexists. split; [unfold content; by rewrite take_app_le|]. split; [lia|].
      split; [constructor; [split; [done|by eexists]|done]|]. split; [by destruct Hr|].
      unfold content. by rewrite drop_app_le.
    + rewrite (proj2 Hr). destruct (receive_data t data rest r Hr) as [Hr' Hc].
      destruct (Z.ltb_spec t deadline); [|cbn in Ht; lia]. rewrite <-Hc. cbn in Ht.
      destruct (IH (Z.max time t) _ Hr') as (time' & rest' & r' & -> & ? & ?); [lia|by rewrite Hc|].
      do 3 eexists. split; [done|]. split; [lia|done].
Qed.

(** The connection [n] carries the bytes of the script [s]. *)
Record carries (n : peer_net) (s : script) : Prop := {
  car_sock : exists f, n.(sock) = Streaming f;
  car_clock : (start <= n.(clock) <= T)%Z;
  car_incoming : Forall data_by n.(incoming);
  car_reader : reading n.(stream_reader);
  car_content : content n.(incoming) n.(stream_reader) = s.(coming);
  car_written : n.(written) = s.(log);
}.

Definition later (d e : Z) : Prop := (T < d)%Z /\ (0 <= d)%Z /\ (0 <= e)%Z.

Lemma carries_read n d e reason :
  later d e ->
  in_step True carries eq (read_exactly (ByteStream := PeerStream one_timeout_error) n d reason)
    (read_exactly (ByteStream := ScriptStream) n e reason).
Proof.
  intros (Hd & _ & _) net s [[f Hs] Hc Hi Hr Hcont Hw]. cbn [read_exactly ScriptStream PeerStream].
  unfold script_read, peer_read_exactly, mbind, task_bind, check, call, reads.
  destruct (bool_decide (0 < n) && bool_decide (reason ∈ FETCH_REASONS)); cbn [negb assert_]; [|by left].
  destruct (_ <=? 0)%Z eqn:Hrem; [lia|]. case_bool_decide as Hn.
  2: { cbn. repeat case_match; auto. }
  unfold within_readexactly. pose proof (feed_data (clock net) (incoming net) (stream_reader net) Hi Hr) as Hfeed.
  destruct (feed (clock net) (incoming net) (stream_reader net)) as [waiting r]. destruct Hfeed as (Hw' & Hr' & Hc').
  destruct (readexactly_data n (clock net + (d - clock net)) (clock net) waiting r) as (time & rest & r' & -> & Ht & Hall & Hread & Hdrop);
    [done|done|lia|lia|by rewrite Hc', Hcont|].
  rewrite Hc', Hcont in *. rewrite bool_decide_eq_true_2 by (rewrite length_take; lia). cbn.
  split; [done|]. split; cbn; [by eexists|lia|done..].
Qed.

Lemma carries_write data :
  in_step True carries eq (write (ByteStream := PeerStream one_timeout_error) data) (write (ByteStream := ScriptStream) data).
Proof. intros n s [[f Hs] Hc Hi Hr Hcont Hw]. split; [done|]. split; cbn; [by eexists|done..|by rewrite Hw]. Qed.
End in_time.

Lemma open_tcp_stream_connects addr timeout n delay :
  n.(socket_error) = None -> n.(connecting) = Some (delay, None) -> (0 <= delay < timeout)%Z ->
  exists f, open_tcp_stream one_timeout_error addr timeout n =
    (Ok tt, set_sock (Streaming f) (set_clock (n.(clock) + delay)%Z (set_sock (Connecting f) n))).
Proof.
  intros He Hc Hd. exists (if bool_decide (":"%byte ∈ addr.1) then AF_INET6 else AF_INET).
  unfold open_tcp_stream, check, call, reads, change, closing_on_error, catch, within_connect, mbind, task_bind.
  replace (0 <? timeout)%Z with true by lia. cbn [assert_]. rewrite He. cbn [connecting set_sock]. rewrite Hc.
  replace (delay <? timeout)%Z with true by lia. cbn [clock set_sock]. by rewrite Z.max_r by lia.
Qed.

(** The connection is accepted after [delay] and everything the peer sends,
    [total], arrives by [T], before any deadline of a session. *)
Record in_time (timeouts : FetchTimeouts) (n : peer_net) (delay T : Z) (total : bytes) : Prop := {
  it_socket : n.(socket_error) = None;
  it_connecting : n.(connecting) = Some (delay, None);
  it_delay : (0 <= delay < timeouts.(connect))%Z;
  it_incoming : Forall (data_by T) n.(incoming);
  it_reader : n.(stream_reader) = Build_reader [] false None;
  it_total : concat (arrival_data <$> n.(incoming)) = total;
  it_clock : (0 <= clock n)%Z;
  it_after : (clock n + delay <= T)%Z;
  it_session : (T < clock n + timeouts.(session))%Z;
  it_handshake : (T < clock n + delay + timeouts.(handshake))%Z;
  it_piece : (T < clock n + delay + timeouts.(piece))%Z;
}.

Lemma later_handshake timeouts n delay T total d e s t :
  in_time timeouts n delay T total -> (0 <= timeouts.(handshake))%Z -> later T d e -> carries (clock n + delay) T s t ->
  later T (Z.min d (clock s + timeouts.(handshake))) (Z.min e (0 + timeouts.(handshake))).
Proof. intros [] ? (? & ? & ?) [_ ? _ _ _ _]. unfold later. lia. Qed.

Lemma later_piece timeouts n delay T total d e s t :
  in_time timeouts n delay T total -> (0 <= timeouts.(piece))%Z -> later T d e -> carries (clock n + delay) T s t ->
  later T (Z.min d (clock s + timeouts.(piece))) (Z.min e (0 + timeouts.(piece))).
Proof. intros [] ? (? & ? & ?) [_ ? _ _ _ _]. unfold later. lia. Qed.

(** A session that stays in step with one on the script of what the peer sends
    does over TCP what it does on the script. *)
Lemma fetch_with_in_time m (ms : task script bytes) info_hash addr timeouts n delay T total metadata rest out :
  length info_hash = NODE_ID_LENGTH -> sha1 metadata = info_hash -> metadata <> [] ->
  in_time timeouts n delay T total ->
  in_step True (carries (clock n + delay) T) eq (m (clock n + timeouts.(session))%Z) ms ->
  ms {| coming := total; log := n.(written) |} = (Ok metadata, {| coming := rest; log := n.(written) ++ out |}) ->
  exists n', fetch_with m info_hash addr timeouts n = (Ok metadata, n') /\
    n'.(sock) = Closed /\ (n'.(clock) <= T)%Z /\ n'.(written) = n.(written) ++ out.
Proof.
  intros Hh Hsha Hne [Herr Hconn Hdelay Hall Hreader Hdata Ht0 HT1 HT2 HT3 HT4] Hstep Hscript.
  destruct (open_tcp_stream_connects addr timeouts.(connect) n delay Herr Hconn Hdelay) as [f Hopen].
  set (n1 := set_sock _ _) in Hopen.
  assert (carries (clock n + delay) T n1 {| coming := total; log := written n |}) as Hcar.
  { split; cbn; [by eexists|lia|done|by rewrite Hreader| |done]. by rewrite Hreader, <-Hdata. }
  specialize (Hstep n1 _ Hcar). rewrite Hscript in Hstep.
  destruct (m (clock n + session timeouts)%Z n1) as [[d|e] n2] eqn:Hrun; [|done].
  destruct Hstep as [-> [_ Hclk _ _ _ Hw]].
  exists (set_sock Closed n2). split; [|split; [done|split; [cbn; lia|exact Hw]]].
  unfold fetch_with, mbind, task_bind, check, call, reads, finally, change.
  rewrite is_node_id_of by done. cbn [assert_]. rewrite Hopen, Hrun.
  unfold verify_metadata. rewrite is_node_id_of, (bool_decide_eq_true_2 (sha1 metadata = info_hash)) by done.
  cbn [assert_ mbind res_bind negb raise_if]. by rewrite bool_decide_eq_false_2.
Qed.

(** C18. When the connection is accepted and a conforming peer's side of the
    conversation arrives in time, in whatever segments, the fetch returns the
    peer's metadata: the session has written its opening messages and asked for
    every piece once, in order, and the socket is closed. *)
Theorem conforming_peer_fetched fuel random info_hash addr timeouts n metadata their_id c opening delay T :
  conforms depth info_hash metadata their_id c -> sha1 metadata = info_hash ->
  length info_hash = NODE_ID_LENGTH -> random_ok random -> opening_messages info_hash random = Ok opening ->
  timeouts_ok timeouts -> in_time timeouts n delay T (conversation_bytes c) -> conversation_frames c < fuel ->
  exists n', fetch_metadata one_timeout_error sha1 depth fuel random info_hash addr timeouts n = (Ok metadata, n') /\
    n'.(sock) = Closed /\ (n'.(clock) <= T)%Z /\
    n'.(written) = n.(written) ++ opening ++ all_requests their_id metadata.
Proof.
  intros Hconf Hsha Hh Hr Ho [Hc Hhs Hp Hss] Htime Hfuel.
  destruct (opening_messages_Ok info_hash random Hh Hr) as (hs & ext & _ & Hlen & _ & Ho').
  rewrite Ho in Ho'. injection Ho' as ->. assert (hs ++ ext <> []) as Hne by (by destruct hs).
  apply (fetch_with_in_time (fun D => run_session (ByteStream0 := PeerStream one_timeout_error) depth fuel random info_hash timeouts D true)
    (run_session depth fuel random info_hash timeouts 0 true) info_hash addr timeouts n delay T
    (conversation_bytes c) metadata []); try done.
  - intros ->. destruct Hconf as [Hsz _ _ _ _ _]. cbn in Hsz. lia.
  - apply (step_run_session depth timeouts True _ (later T)).
    + by intros d e (? & ? & ?).
    + intros d e s t. by eapply later_handshake.
    + intros d e s t. by eapply later_piece.
    + intros m d e reason. apply carries_read.
    + intros data _. apply carries_write.
    + destruct Htime. unfold later. lia.
  - pose proof (consumes_session depth info_hash metadata their_id c fuel random (hs ++ ext) timeouts 0 true
      Hconf Hh Ho Hne ltac:(lia) Hhs Hp Hfuel [] (written n)) as Hscript. by rewrite app_nil_r in Hscript.
Qed.
End fetches.

(** ** A conversation *)

Definition example_hash : bytes := bs "d4:name1:xe123456789".
Definition example_sha1 (data : bytes) : bytes := take 20 (data ++ bs "12345678901234567890").
Definition example_metadata : bytes := bs "d4:name1:xe".
Definition example_conversation : conversation := {|
  their_handshake := z2b 19 :: bs "BitTorrent protocol" ++ repeat (z2b 16) 8 ++ example_hash ++ repeat Byte.x08 20;
  before_extended := [KeepAlive; Message 4 (be_encode 4 0)];
  extended_handshake := Message 20 (z2b 0 :: bs "d1:md11:ut_metadatai3ee13:metadata_sizei11ee");
  order := [0%Z];
  answers := [([KeepAlive; Message 20 (z2b 7 :: bs "de")],
               Message 20 (z2b 1 :: bs "d8:msg_typei1e5:piecei0e10:total_sizei11ee" ++ example_metadata))];
|}.
Definition example_net : peer_net := {|
  clock := 5; socket_error := None; connecting := Some (10%Z, None);
  incoming := [(20%Z, Data (take 30 (conversation_bytes example_conversation)));
               (40%Z, Data (drop 30 (conversation_bytes example_conversation)))];
  stream_reader := Build_reader [] false None; written := []; sock := Unopened |}.
Definition example_address : address := (bs "10.0.0.1", 6881%Z).

Lemma example_conforms : conforms 5 example_hash example_metadata 3 example_conversation.
Proof.
  split.
  - vm_compute. done.
  - split; [done|]. eexists. vm_compute. reflexivity.
  - repeat constructor; try (vm_compute; done).
  - exists (literal [(bs "m", PDict (literal [(bs "ut_metadata", PInt 3)])); (bs "metadata_size", PInt 11)]), [].
    split; [|reflexivity]. split; [split; done|]. eexists. split; [reflexivity|]. vm_compute. reflexivity.
  - exists 1%Z. split; [vm_compute; reflexivity|]. split; [apply NoDup_singleton|]. split.
    + intros p. cbn. rewrite list_elem_of_singleton. lia.
    + intros [|i] p Hi; cbn in Hi; [injection Hi as <-; vm_compute; done|done].
  - constructor; [|constructor]. split.
    + constructor; [split; done|]. constructor; [|constructor]. split; [split; done|].
      right. exists 7%Z, [], []. split; [vm_compute; reflexivity|done].
    + exists (literal [(bs "msg_type", PInt 1); (bs "piece", PInt 0); (bs "total_size", PInt 11)]), (Some 11%Z).
      split; [|split; [reflexivity|by right]]. split; [split; done|]. eexists. split; [reflexivity|].
      vm_compute. reflexivity.
Qed.

Lemma example_timeouts : timeouts_ok DEFAULT_TIMEOUTS.
Proof. by split. Qed.

Lemma fetch_metadata_outcome_witness :
  exists outcome n', fetch_metadata true example_sha1 5 300 (bs "123456789012") example_hash example_address
    DEFAULT_TIMEOUTS example_net = (outcome, n') /\ sock n' = Closed /\ outcome = Ok example_metadata.
Proof.
  pose proof (fetch_metadata_outcome true example_sha1 5 300 (bs "123456789012") example_hash example_address
    DEFAULT_TIMEOUTS example_net eq_refl eq_refl example_timeouts ltac:(done) eq_refl ltac:(vm_compute; lia)) as H.
  destruct (fetch_metadata _ _ _ _ _ _ _ _ _) as [outcome n'] eqn:Hf.
  exists outcome, n'. vm_compute in Hf. injection Hf as <- <-. done.
Defined.

Lemma conforming_peer_fetched_witness :
  exists n', fetch_metadata true example_sha1 5 20 (bs "123456789012") example_hash example_address
    DEFAULT_TIMEOUTS example_net = (Ok example_metadata, n') /\ sock n' = Closed /\ (clock n' <= 40)%Z /\
    exists opening, written n' = opening ++ all_requests 3 example_metadata.
Proof.
  destruct (opening_messages_Ok example_hash (bs "123456789012") eq_refl eq_refl) as (hs & ext & _ & _ & _ & Ho).
  destruct (conforming_peer_fetched true example_sha1 5 20 (bs "123456789012") example_hash example_address
    DEFAULT_TIMEOUTS example_net example_metadata 3 example_conversation (hs ++ ext) 10 40 example_conforms
    eq_refl eq_refl eq_refl Ho example_timeouts) as (n' & Hf & Hs & Hc & Hw).
  - split; try done. repeat constructor; try done; by eexists.
  - vm_compute. lia.
  - exists n'. split; [exact Hf|]. split; [exact Hs|]. split; [exact Hc|]. by exists (hs ++ ext).
Defined.
