(* ===== verification/StreamEncryption.v ===== *)
(** Message stream encryption, outgoing side ([stream_encryption.py]): the RC4
    cipher, the Diffie-Hellman exchange of [negotiate_encryption], the
    [EncryptedStream] it ends with, and the fetch over it.

    What [os.urandom] returns is an argument; SHA-1 is a parameter. *)
From S2P Require Import Prelude PyDict Bencode NodeIdentity AddressText Krpc PeerWire Tasks MetadataSession PeerStream.
From Stdlib Require Import Zpow_facts.

Definition DH_PRIME : Z :=
  0xFFFFFFFFFFFFFFFFC90FDAA22168C234C4C6628B80DC1CD129024E088A67CC74020BBEA63B139B22514A08798E3404DDEF9519B3CD3A431B302B0A6DF25F14374FE1356D6D51C245E485B576625E7EC6F44C42E9A63A36210000000000090563.
Definition DH_GENERATOR : Z := 2.
Definition DH_KEY_LENGTH : nat := 96.
Definition PRIVATE_KEY_BYTES : nat := 20.
Definition VERIFICATION_CONSTANT : bytes := repeat Byte.x00 8.
Definition CRYPTO_PLAINTEXT : Z := 1.
Definition CRYPTO_RC4 : Z := 2.
Definition MAX_PAD_LENGTH : nat := 512.
Definition OUR_PAD_MAX : nat := 64.
Definition RC4_DISCARD : nat := 1024.

(** ** RC4 *)

(** [Rc4]: the permutation of the bytes, as integers, and the two indices. *)
Record rc4 : Type := Rc4 { state : list Z; index_i : Z; index_j : Z }.

(** [state\[i\]] for an index in range. *)
Definition entry (state : list Z) (i : Z) : Z := nth (Z.to_nat i) state 0%Z.

(** [state\[i\], state\[j\] = state\[j\], state\[i\]] *)
Definition swap (state : list Z) (i j : Z) : list Z :=
  <[Z.to_nat j := entry state i]> (<[Z.to_nat i := entry state j]> state).

(** One turn of the loop of the key schedule. *)
Definition schedule_step (key : bytes) (s : list Z * Z) (i : nat) : list Z * Z :=
  let '(state, j) := s in
  let j := Z.land (j + entry state (Z.of_nat i) + byte_value key (i mod length key)) 0xFF in
  (swap state (Z.of_nat i) j, j).

Definition all_bytes : list Z := Z.of_nat <$> seq 0 256.

(** [Rc4.__init__] *)
Definition new_rc4 (key : bytes) : res rc4 :=
  assert_ (bool_decide (1 <= length key) && bool_decide (length key <= 256)) ;;
  let '(state, _) := foldl (schedule_step key) (all_bytes, 0%Z) (seq 0 256) in
  assert_ (bool_decide (sort_by Z.leb state = all_bytes)) ;;
  mret (Rc4 state 0 0).

(** One turn of the loop of [crypt]: the next byte of the key stream. *)
Definition next_key (c : rc4) : Z * rc4 :=
  let i := Z.land (c.(index_i) + 1) 0xFF in
  let j := Z.land (c.(index_j) + entry c.(state) i) 0xFF in
  let state := swap c.(state) i j in
  (entry state (Z.land (entry state i + entry state j) 0xFF), Rc4 state i j).

(** [Rc4.crypt]: the output, and the cipher it leaves. *)
Fixpoint crypt (c : rc4) (data : bytes) : bytes * rc4 :=
  match data with
  | [] => ([], c)
  | b :: data =>
      let '(k, c) := next_key c in
      let '(output, c) := crypt c data in
      (z2b (Z.lxor (b2z b) k) :: output, c)
  end.

Definition mse_cipher (key : bytes) : res rc4 :=
  assert_ (bool_decide (length key = 20)) ;;
  result ← new_rc4 key;
  let '(_, result) := crypt result (repeat Byte.x00 RC4_DISCARD) in
  assert_ (result.(index_i) =? Z.of_nat RC4_DISCARD mod 256)%Z ;;
  mret result.

(** ** The stream that decrypts reads and encrypts writes *)

Record encrypted (S : Type) : Type := Encrypted {
  inner : S;
  encryptor : option rc4;
  decryptor : option rc4;
}.
Arguments Encrypted {S} inner encryptor decryptor.
Arguments inner {S} e.
Arguments encryptor {S} e.
Arguments decryptor {S} e.

(** [cipher.crypt(data) if cipher is not None else data] *)
Definition crypt_with (cipher : option rc4) (data : bytes) : bytes * option rc4 :=
  match cipher with
  | Some c => let '(output, c') := crypt c data in (output, Some c')
  | None => (data, None)
  end.

Section encryption.
Context {S : Type} `{!ByteStream S}.

Definition encrypted_read (length : nat) (deadline : Z) (closed_reason : string) : task (encrypted S) bytes := fun e =>
  if negb (bool_decide (0 < length)) then (Raise AssertionError, e)
  else
    match read_exactly length deadline closed_reason e.(inner) with
    | (Ok data, s) =>
        let '(result, decryptor) := crypt_with e.(decryptor) data in
        (assert_ (bool_decide (Datatypes.length result = length)) ;; mret result,
         Encrypted s e.(encryptor) decryptor)
    | (Raise error, s) => (Raise error, Encrypted s e.(encryptor) e.(decryptor))
    end.

(** A call on the stream inside. *)
Definition on_inner {A} (m : task S A) : task (encrypted S) A := fun e =>
  let '(r, s) := m e.(inner) in (r, Encrypted s e.(encryptor) e.(decryptor)).

Definition encrypted_write (data : bytes) : task (encrypted S) unit := fun e =>
  let '(output, encryptor) := crypt_with e.(encryptor) data in
  on_inner (write output) (Encrypted e.(inner) encryptor e.(decryptor)).

#[export] Instance EncryptedStream : ByteStream (encrypted S) := {|
  loop_time e := loop_time e.(inner);
  read_exactly := encrypted_read;
  write := encrypted_write;
  close := on_inner close;
|}.

(** What runs on the encrypted stream, as a task of the stream inside. *)
Definition run_encrypted {A} (ciphers : option rc4 * option rc4) (m : task (encrypted S) A) : task S A := fun s =>
  let '(r, e) := m (Encrypted s ciphers.1 ciphers.2) in (r, e.(inner)).

(** ** The negotiation *)

(** [hashlib.sha1(data).digest()] *)
Variable hash : bytes -> bytes.

Definition sha1 (parts : list bytes) : res bytes :=
  assert_ (negb (bool_decide (parts = []))) ;;
  let result := hash (concat parts) in
  assert_ (bool_decide (length result = 20)) ;;
  mret result.

(** [n.to_bytes(DH_KEY_LENGTH, "big")] *)
Definition dh_bytes (n : Z) : res bytes :=
  raise_if (negb ((0 <=? n) && (n <? 256 ^ Z.of_nat DH_KEY_LENGTH)))%Z OverflowError ;;
  mret (be_encode DH_KEY_LENGTH n).

Definition xor_bytes (x y : bytes) : bytes :=
  zip_with (fun a b => z2b (Z.lxor (b2z a) (b2z b))) x y.

(** The loop that looks for the marker; [turns] is how many more bytes may be
    read before [scanned >= MAX_PAD_LENGTH]. *)
Fixpoint find_marker (turns : nat) (marker window : bytes) (deadline : Z) : task S unit :=
  if bool_decide (window = marker) then mret tt
  else match turns with
       | O => throw (fetch_error "encryption_failed")
       | Datatypes.S turns =>
           next ← read_exactly 1 deadline "closed";
           find_marker turns marker (drop 1 window ++ next) deadline
       end.

(** [negotiate_encryption]: the ciphers of the stream that it returns.
    [private_key] and [pad] are what [os.urandom] returns. *)
Definition negotiate_encryption (private_key pad info_hash initial_payload : bytes) (deadline : Z)
    : task S (option rc4 * option rc4) :=
  check (is_node_id info_hash && bool_decide (0 < length initial_payload)
         && (Z.of_nat (length initial_payload) <=? 0xFFFF)%Z) ;;
  let private := be_decode private_key in
  public ← call (dh_bytes (Zpow_mod DH_GENERATOR private DH_PRIME));
  send (public ++ pad) ;;
  remote ← read_exactly DH_KEY_LENGTH deadline "closed_on_handshake";
  secret ← call (dh_bytes (Zpow_mod (be_decode remote) private DH_PRIME));
  key_a ← call (sha1 [bs "keyA"; secret; info_hash]);
  encryptor ← call (mse_cipher key_a);
  key_b ← call (sha1 [bs "keyB"; secret; info_hash]);
  decryptor ← call (mse_cipher key_b);
  req2 ← call (sha1 [bs "req2"; info_hash]);
  req3 ← call (sha1 [bs "req3"; secret]);
  let obfuscated := xor_bytes req2 req3 in
  let header := VERIFICATION_CONSTANT ++ be_encode 4 (Z.lor CRYPTO_RC4 CRYPTO_PLAINTEXT) ++ be_encode 2 0
                ++ be_encode 2 (Z.of_nat (length initial_payload)) in
  req1 ← call (sha1 [bs "req1"; secret]);
  let '(header, encryptor) := crypt encryptor header in
  let '(payload, encryptor) := crypt encryptor initial_payload in
  send (req1 ++ obfuscated ++ header ++ payload) ;;
  let '(marker, _) := crypt decryptor VERIFICATION_CONSTANT in
  window ← read_exactly (length marker) deadline "closed";
  find_marker MAX_PAD_LENGTH marker window deadline ;;
  let '(_, decryptor) := crypt decryptor VERIFICATION_CONSTANT in
  reply ← read_exactly 6 deadline "closed";
  let '(reply, decryptor) := crypt decryptor reply in
  let select := be_decode (take 4 reply) in
  let pad_length := be_decode (drop 4 reply) in
  if (negb ((select =? CRYPTO_PLAINTEXT) || (select =? CRYPTO_RC4)) || (Z.of_nat MAX_PAD_LENGTH <? pad_length))%Z
  then throw (fetch_error "encryption_failed")
  else
    decryptor ← (if (pad_length =? 0)%Z then mret decryptor
                 else padding ← read_exactly (Z.to_nat pad_length) deadline "closed";
                      mret (crypt decryptor padding).2);
    mret (if (select =? CRYPTO_RC4)%Z then (Some encryptor, Some decryptor) else (None, None)).
End encryption.

(** ** Encrypted fetches *)

Section fetch.
Variables (one_timeout_error : bool) (hash : bytes -> bytes) (depth : nat).
#[local] Instance tcp_stream : ByteStream peer_net := PeerStream one_timeout_error.

Definition fetch_metadata_encrypted (fuel : nat) (random private_key pad info_hash : bytes) (addr : address)
    (timeouts : FetchTimeouts) : task peer_net bytes :=
  check (is_node_id info_hash) ;;
  start ← now;
  let session_deadline := (start + timeouts.(session))%Z in
  open_tcp_stream one_timeout_error addr timeouts.(connect) ;;
  metadata ← finally (
    time ← now;
    let handshake_deadline := Z.min session_deadline (time + timeouts.(handshake)) in
    opening ← call (opening_messages info_hash random);
    ciphers ← negotiate_encryption hash private_key pad info_hash opening handshake_deadline;
    run_encrypted ciphers (run_session depth fuel random info_hash timeouts session_deadline false))
    close;
  call (verify_metadata hash info_hash metadata) ;;
  check (negb (bool_decide (metadata = []))) ;;
  mret metadata.
End fetch.
