(* ===== verification/StreamEncryptionSafety.v ===== *)
(** Encryption of streams: the RC4 key schedule keeps a permutation, the cipher
    works on bytes one at a time and is its own inverse, an [EncryptedStream]
    keeps the promises of the stream inside, and an encrypted fetch ends in
    time with verified metadata or a named error. *)
From S2P Require Import Prelude PyDict Bencode NodeIdentity AddressText Krpc PeerWire Tasks MetadataSession.
From S2P Require Import MetadataSessionSafety PeerStream PeerStreamTheorems StreamEncryption.
From Stdlib Require Import Zpow_facts.

(** ** RC4 *)

Definition permuted (state : list Z) : Prop :=
  length state = 256 /\ NoDup state /\ Forall (fun x => 0 <= x < 256)%Z state.

Lemma land_byte z : (0 <= Z.land z 0xFF < 256)%Z.
Proof. change 0xFF%Z with (Z.ones 8). rewrite Z.land_ones by lia. apply Z.mod_pos_bound. lia. Qed.

Lemma entry_lookup state i : permuted state -> (0 <= i < 256)%Z -> state !! Z.to_nat i = Some (entry state i).
Proof. intros (Hl & _ & _) Hi. unfold entry. rewrite nth_lookup.
  destruct (lookup_lt_is_Some_2 state (Z.to_nat i)) as [x Hx]; [lia|]. by rewrite Hx. Qed.

(** The position that a swap takes an item from. *)
Definition exchange (i j k : nat) : nat := if decide (k = j) then i else if decide (k = i) then j else k.

Lemma exchange_inj i j k k' : exchange i j k = exchange i j k' -> k = k'.
Proof. unfold exchange. repeat case_decide; congruence. Qed.

Lemma swap_lookup state i j k :
  permuted state -> (0 <= i < 256)%Z -> (0 <= j < 256)%Z ->
  swap state i j !! k = state !! exchange (Z.to_nat i) (Z.to_nat j) k.
Proof.
  intros Hp Hi Hj. pose proof Hp as (Hl & _ & _). unfold swap, exchange. case_decide as Hkj; [subst k|].
  - rewrite list_lookup_insert_eq by (rewrite length_insert; lia). by rewrite entry_lookup.
  - rewrite list_lookup_insert_ne by done. case_decide as Hki; [subst k|by rewrite list_lookup_insert_ne].
    rewrite list_lookup_insert_eq by lia. by rewrite entry_lookup.
Qed.

Lemma swap_permuted state i j :
  permuted state -> (0 <= i < 256)%Z -> (0 <= j < 256)%Z -> permuted (swap state i j).
Proof.
  intros Hp Hi Hj. pose proof Hp as (Hl & Hnd & Hall).
  split; [unfold swap; by rewrite !length_insert|]. split.
  - rewrite NoDup_alt in Hnd |- *. intros a b x. rewrite !swap_lookup by done. intros Ha Hb.
    apply (exchange_inj (Z.to_nat i) (Z.to_nat j)). by eapply Hnd.
  - apply Forall_forall. intros x [k Hk]%list_elem_of_lookup. rewrite swap_lookup in Hk by done.
    rewrite Forall_lookup in Hall. eauto.
Qed.

Lemma all_bytes_permuted : permuted all_bytes.
Proof.
  split; [done|]. split; [apply NoDup_fmap; [intros ???; lia|apply NoDup_seq]|].
  apply Forall_forall. intros x (n & -> & Hn%elem_of_seq)%list_elem_of_fmap. lia.
Qed.

(** A permutation of the bytes sorts to all of them in order. *)
Lemma permuted_sorted state : permuted state -> sort_by Z.leb state = all_bytes.
Proof.
  intros (Hl & Hnd & Hall). destruct all_bytes_permuted as (Hl' & Hnd' & _).
  assert (state ≡ₚ all_bytes) as Hperm.
  { apply submseteq_length_Permutation; [|by rewrite Hl, Hl'].
    apply NoDup_submseteq; [done|]. intros x Hx. rewrite Forall_forall in Hall. specialize (Hall x Hx).
    unfold all_bytes. apply list_elem_of_fmap. exists (Z.to_nat x). rewrite elem_of_seq. lia. }
  apply (StronglySorted_unique Z.le).
  - eapply StronglySorted_impl; [apply sort_by_Sorted; [intros x y; lia|intros x y z; lia]|]. intros x y Hxy. simpl in Hxy. lia.
  - unfold all_bytes. apply (StronglySorted_impl (fun x y => Z.leb x y = true)); [|intros x y Hxy; simpl in Hxy; lia].
    replace (Z.of_nat <$> seq 0 256) with (sort_by Z.leb (Z.of_nat <$> seq 0 256)) by (vm_compute; reflexivity).
    apply sort_by_Sorted; [intros x y; lia|intros x y z; lia].
  - by rewrite sort_by_Permutation.
Qed.

Lemma schedule_permuted key l s :
  permuted s.1 -> Forall (fun i => i < 256) l -> permuted (foldl (schedule_step key) s l).1.
Proof.
  intros Hs Hl. revert s Hs. induction Hl as [|i l Hi Hl IH]; intros s Hs; [done|]. cbn [foldl].
  apply IH. destruct s as [state j]. cbn in *. apply swap_permuted; [done|lia|apply land_byte].
Qed.

Lemma new_rc4_Ok key : 1 <= length key <= 256 -> exists c, new_rc4 key = Ok c /\ index_i c = 0%Z.
Proof.
  intros Hk. unfold new_rc4. rewrite !bool_decide_eq_true_2 by lia. cbn [andb assert_ mbind res_bind].
  pose proof (schedule_permuted key (seq 0 256) (all_bytes, 0%Z) all_bytes_permuted) as Hp.
  destruct (foldl _ _ _) as [state j]. rewrite permuted_sorted, bool_decide_eq_true_2.
  - eexists. done.
  - done.
  - apply Hp. apply Forall_forall. intros i Hi%elem_of_seq. lia.
Qed.

(** ** The cipher *)

Lemma crypt_cons c b data :
  crypt c (b :: data) =
    (z2b (Z.lxor (b2z b) (next_key c).1) :: (crypt (next_key c).2 data).1, (crypt (next_key c).2 data).2).
Proof. cbn [crypt]. destruct (next_key c) as [k c']. cbn. by destruct (crypt c' data). Qed.

Lemma length_crypt c data : length (crypt c data).1 = length data.
Proof. revert c. induction data as [|b data IH]; intros c; [done|]. rewrite crypt_cons. cbn. by rewrite IH. Qed.

Lemma crypt_app c x y :
  crypt c (x ++ y) = ((crypt c x).1 ++ (crypt (crypt c x).2 y).1, (crypt (crypt c x).2 y).2).
Proof.
  revert c. induction x as [|b x IH]; intros c; [cbn; by destruct (crypt c y)|].
  rewrite <-app_comm_cons, !crypt_cons, IH. done.
Qed.

(** The cipher that is left depends only on how much went through it. *)
Lemma crypt_cipher c x y : length x = length y -> (crypt c x).2 = (crypt c y).2.
Proof.
  revert c y. induction x as [|a x IH]; intros c [|b y] Hl; try done. rewrite !crypt_cons. cbn. apply IH. cbn in Hl. lia.
Qed.

Lemma lxor_byte_cancel b k : z2b (Z.lxor (b2z (z2b (Z.lxor (b2z b) k))) k) = b.
Proof.
  apply b2z_inj. rewrite !b2z_z2b. rewrite <-(Z.mod_small (b2z b) 256) at 2 by apply b2z_range.
  change 256%Z with (2 ^ 8)%Z. apply Z.bits_inj'. intros n Hn.
  destruct (decide (n < 8)%Z).
  - rewrite !Z.mod_pow2_bits_low, Z.lxor_spec, Z.mod_pow2_bits_low, Z.lxor_spec by lia.
    by rewrite xorb_assoc, xorb_nilpotent, xorb_false_r.
  - by rewrite !Z.mod_pow2_bits_high by lia.
Qed.

(** Two ciphers in the same state undo each other. *)
Lemma crypt_crypt c data : (crypt c (crypt c data).1).1 = data.
Proof.
  revert c. induction data as [|b data IH]; intros c; [done|]. rewrite !crypt_cons. cbn [fst].
  rewrite crypt_cons. cbn [fst]. by rewrite lxor_byte_cancel, IH.
Qed.

Lemma crypt_index c data : index_i c = (index_i c mod 256)%Z ->
  index_i (crypt c data).2 = ((index_i c + Z.of_nat (length data)) mod 256)%Z.
Proof.
  revert c. induction data as [|b data IH]; intros c Hc; [cbn; by rewrite Z.add_0_r|].
  rewrite crypt_cons. cbn [snd length].
  assert (index_i (next_key c).2 = (index_i c + 1) mod 256)%Z as Hi.
  { unfold next_key. cbn. change 255%Z with (Z.ones 8). by rewrite Z.land_ones by lia. }
  rewrite IH; rewrite Hi; [|by rewrite Z.mod_mod by lia].
  rewrite Z.add_mod_idemp_l by lia. f_equal. lia.
Qed.

Lemma mse_cipher_Ok key : length key = 20 -> exists c, mse_cipher key = Ok c.
Proof.
  intros Hk. unfold mse_cipher. rewrite bool_decide_eq_true_2 by done. cbn [assert_ mbind res_bind].
  destruct (new_rc4_Ok key ltac:(lia)) as (c & -> & Hi). cbn [mbind res_bind].
  pose proof (crypt_index c (repeat Byte.x00 RC4_DISCARD)) as Hc. rewrite Hi, repeat_length in Hc.
  destruct (crypt c _) as [out c']. cbn [snd] in Hc. rewrite Hc by done. eexists. done.
Qed.

(** ** The promises of the encrypted stream *)

Lemma length_crypt_with cipher data : length (crypt_with cipher data).1 = length data.
Proof.
  destruct cipher as [c|]; [|done]. cbn. pose proof (length_crypt c data). by destruct (crypt c data).
Qed.

Section encrypted_stream.
Context {S : Type} {stream : ByteStream S} {laws : ByteStreamLaws stream}.
Implicit Types (s t : S) (D : Z).

#[export] Program Instance EncryptedStreamLaws : ByteStreamLaws (EncryptedStream (S := S)) := {|
  ok e := ok e.(inner);
  unread e := unread e.(inner);
|}.
Next Obligation.
  intros [s enc dec] n deadline reason Hok Hn Hr. cbn [inner] in *. unfold tri.
  cbn [read_exactly EncryptedStream]. unfold encrypted_read. rewrite bool_decide_eq_true_2 by done. cbn [negb inner decryptor encryptor].
  pose proof (law_read s n deadline reason Hok Hn Hr) as Hread. unfold tri in Hread.
  destruct (read_exactly n deadline reason s) as [[data|e] s']; [|done]. destruct Hread as [Hl Hread].
  pose proof (length_crypt_with dec data) as Hlen. destruct (crypt_with dec data) as [result dec'].
  cbn [fst] in Hlen. rewrite bool_decide_eq_true_2 by congruence. cbn. split; [congruence|done].
Qed.
Next Obligation.
  intros [s enc dec] data Hok Hd. cbn in *. unfold tri, encrypted_write, on_inner. cbn.
  pose proof (length_crypt_with enc data) as Hlen. destruct (crypt_with enc data) as [output enc']. cbn.
  assert (output <> []) as Ho by (cbn in Hlen; by destruct output, data).
  pose proof (law_write s output Hok Ho) as Hw. unfold tri in Hw. by destruct (write output s) as [[[]|] s'].
Qed.

Lemma tri_run_encrypted {A} ciphers (m : task (encrypted S) A) Q D s :
  tri m (fun a e => Q a (inner e)) (fails_named D (Encrypted s ciphers.1 ciphers.2)) (Encrypted s ciphers.1 ciphers.2) ->
  tri (run_encrypted ciphers m) Q (fails_named D s) s.
Proof.
  unfold tri, run_encrypted. destruct (m _) as [[a|e] t]; done.
Qed.

(** ** The negotiation *)

Variable hash : bytes -> bytes.
Hypothesis length_hash : forall data, length (hash data) = 20.

Lemma sha1_Ok x l : sha1 hash (x :: l) = Ok (hash (concat (x :: l))).
Proof using length_hash. unfold sha1. rewrite bool_decide_eq_true_2 by done. done. Qed.

Lemma dh_bytes_Ok a m : dh_bytes (Zpow_mod a m DH_PRIME) = Ok (be_encode DH_KEY_LENGTH (a ^ m mod DH_PRIME)).
Proof.
  rewrite Zpow_mod_correct by done. unfold dh_bytes, raise_if.
  pose proof (Z.mod_pos_bound (a ^ m) DH_PRIME ltac:(done)) as Hb.
  assert (DH_PRIME < 256 ^ Z.of_nat DH_KEY_LENGTH)%Z as Hp by (vm_compute; done).
  destruct (negb _) eqn:Hn; [lia|]. done.
Qed.

Lemma tri_find_marker turns marker window D s :
  ok s -> tri (find_marker turns marker window D) (fun _ t => goes_on D s t) (fails_named D s) s.
Proof.
  revert window s. induction turns as [|turns IH]; intros window s Hs; cbn [find_marker];
    (case_bool_decide; [by apply tri_ret, goes_on_refl|]).
  - apply tri_raises; [by apply goes_on_refl|known].
  - apply tri_bind. eapply tri_mono; [apply tri_read; [done|lia|known]| |done].
    intros next s1 (_ & H1 & _). eapply (tri_after D); [done|apply IH; by eapply goes_on_ok|].
    intros a t H2. by eapply goes_on_trans.
Qed.

Lemma tri_negotiate private_key pad info_hash payload D s :
  ok s -> length info_hash = NODE_ID_LENGTH -> 0 < length payload -> (Z.of_nat (length payload) <= 0xFFFF)%Z ->
  tri (negotiate_encryption hash private_key pad info_hash payload D) (fun _ t => goes_on D s t) (fails_named D s) s.
Proof using length_hash.
  intros Hs Hh Hp1 Hp2. unfold negotiate_encryption. apply tri_bind, tri_check.
  { rewrite is_node_id_of, bool_decide_eq_true_2 by done. lia. }
  cbv zeta. rewrite dh_bytes_Ok. apply tri_bind. eapply tri_call_Ok; [done|].
  apply tri_bind. eapply tri_mono; [apply tri_send; [done|]| |done].
  { intros Hnil. apply (f_equal length) in Hnil. by rewrite length_app, length_be_encode in Hnil. }
  intros _ s1 (H1 & _). pose proof (goes_on_ok _ _ _ H1) as Hs1.
  apply tri_bind. eapply (tri_after D); [exact H1|apply tri_read; [done|unfold DH_KEY_LENGTH; lia|known]|].
  intros remote s2 (_ & H2' & _). assert (goes_on D s s2) as H2 by (by eapply goes_on_trans).
  pose proof (goes_on_ok _ _ _ H2) as Hs2. clear s1 Hs1 H1 H2'.
  rewrite dh_bytes_Ok. apply tri_bind. eapply tri_call_Ok; [done|]. set (secret := be_encode DH_KEY_LENGTH _).
  rewrite !sha1_Ok.
  destruct (mse_cipher_Ok (hash (concat [bs "keyA"; secret; info_hash])) (length_hash _)) as [ea Hea].
  destruct (mse_cipher_Ok (hash (concat [bs "keyB"; secret; info_hash])) (length_hash _)) as [db Hdb].
  apply tri_bind. eapply tri_call_Ok; [done|]. apply tri_bind. eapply tri_call_Ok; [exact Hea|].
  apply tri_bind. eapply tri_call_Ok; [done|]. apply tri_bind. eapply tri_call_Ok; [exact Hdb|].
  apply tri_bind. eapply tri_call_Ok; [done|]. apply tri_bind. eapply tri_call_Ok; [done|].
  cbv zeta. apply tri_bind. eapply tri_call_Ok; [done|].
  destruct (crypt ea _) as [header ea1]. destruct (crypt ea1 payload) as [cpayload ea2].
  apply tri_bind. eapply (tri_after D); [exact H2|apply tri_send; [done|]|].
  { intros Hnil. apply (f_equal length) in Hnil. by rewrite length_app, length_hash in Hnil. }
  intros _ s3 (H3' & _). assert (goes_on D s s3) as H3 by (by eapply goes_on_trans).
  pose proof (goes_on_ok _ _ _ H3) as Hs3. clear s2 Hs2 H2 H3'.
  destruct (crypt db VERIFICATION_CONSTANT) as [marker db1] eqn:Hm.
  pose proof (length_crypt db VERIFICATION_CONSTANT) as Hlm. rewrite Hm in Hlm. cbn in Hlm.
  apply tri_bind. eapply (tri_after D); [exact H3|apply tri_read; [done|lia|known]|].
  intros window s4 (_ & H4' & _). assert (goes_on D s s4) as H4 by (by eapply goes_on_trans).
  pose proof (goes_on_ok _ _ _ H4) as Hs4. clear s3 Hs3 H3 H4'.
  apply tri_bind. eapply (tri_after D); [exact H4|by apply tri_find_marker|].
  intros u s5 H5'. assert (goes_on D s s5) as H5 by (by eapply goes_on_trans).
  pose proof (goes_on_ok _ _ _ H5) as Hs5. clear s4 Hs4 H4 H5'.
  apply tri_bind. eapply (tri_after D); [exact H5|apply tri_read; [done|lia|known]|].
  intros reply s6 (_ & H6' & _). assert (goes_on D s s6) as H6 by (by eapply goes_on_trans).
  pose proof (goes_on_ok _ _ _ H6) as Hs6. clear s5 Hs5 H5 H6'.
  destruct (crypt db1 reply) as [plain db2].
  destruct (negb _ || _)%bool eqn:Hbad; [by apply tri_raises; [|known]|].
  apply tri_bind. destruct (_ =? 0)%Z eqn:Hz; [apply tri_ret, tri_ret; done|].
  apply tri_bind. eapply (tri_after D); [exact H6|apply tri_read; [done| |known]|].
  - pose proof (be_decode_range (drop 4 plain)). lia.
  - intros padding s7 (_ & H7 & _). apply tri_ret, tri_ret. by eapply goes_on_trans.
Qed.
End encrypted_stream.
