(* ===== verification/StreamEncryptionTheorems.v ===== *)
(** Encrypted fetches: they end in time with verified metadata or a named
    error, and with a peer that answers the negotiation they do what a session
    on the plain text does: both sides derive the same secret, and what goes
    over the connection is the ciphertext of the session. *)
From S2P Require Import Prelude PyDict Bencode NodeIdentity AddressText Krpc PeerWire Tasks MetadataSession.
From S2P Require Import MetadataSessionSafety MetadataSessionRelation MetadataPeer PeerStream PeerStreamTheorems.
From S2P Require Import StreamEncryption StreamEncryptionSafety.
From Stdlib Require Import Zpow_facts.

Lemma length_opening info_hash random opening :
  length info_hash = NODE_ID_LENGTH -> random_ok random -> opening_messages info_hash random = Ok opening ->
  0 < length opening /\ (Z.of_nat (length opening) <= 0xFFFF)%Z.
Proof.
  intros Hh Hr Ho. destruct (opening_messages_Ok info_hash random Hh Hr) as (hs & ext & _ & Hl & He & Ho').
  rewrite Ho in Ho'. injection Ho' as ->. rewrite length_app, Hl.
  assert (length ext = 51) as -> by (vm_compute in He; injection He as <-; done). vm_compute. split; [lia|done].
Qed.

(** The session of an encrypted fetch, on an open connection. *)
Definition encrypted_session {S} `{!ByteStream S} (hash : bytes -> bytes) (depth fuel : nat)
    (random private_key pad info_hash : bytes) (timeouts : FetchTimeouts) (session_deadline : Z) : task S bytes :=
  time ← now;
  let handshake_deadline := Z.min session_deadline (time + timeouts.(handshake)) in
  opening ← call (opening_messages info_hash random);
  ciphers ← negotiate_encryption hash private_key pad info_hash opening handshake_deadline;
  run_encrypted ciphers (run_session depth fuel random info_hash timeouts session_deadline false).

Section fetch.
Context (one_timeout_error : bool) (hash : bytes -> bytes) (depth : nat).
Hypothesis length_hash : forall data, length (hash data) = 20.
#[local] Instance tcp : ByteStream peer_net := PeerStream one_timeout_error.

Lemma fetch_metadata_encrypted_eq fuel random private_key pad info_hash addr timeouts n :
  fetch_metadata_encrypted one_timeout_error hash depth fuel random private_key pad info_hash addr timeouts n =
    fetch_with one_timeout_error hash
      (encrypted_session hash depth fuel random private_key pad info_hash timeouts) info_hash addr timeouts n.
Proof. unfold fetch_metadata_encrypted, fetch_with, encrypted_session, now. reflexivity. Qed.

(** C21. An encrypted fetch ends the way a plain one does, whatever the network
    and the peer do: in time, its socket closed, with metadata of the wanted
    SHA-1 or with a [MetadataFetchError] of a known reason; in particular no
    assertion about ciphers, keys or lengths fails during the negotiation. *)
Theorem encrypted_fetch_outcome fuel random private_key pad info_hash addr timeouts n :
  length info_hash = NODE_ID_LENGTH -> random_ok random -> timeouts_ok timeouts ->
  (0 <= clock n)%Z -> sock n = Unopened -> pending (incoming n) (stream_reader n) < fuel ->
  let '(outcome, n') :=
    fetch_metadata_encrypted one_timeout_error hash depth fuel random private_key pad info_hash addr timeouts n in
  (clock n <= clock n' <= clock n + Z.max timeouts.(connect) timeouts.(session))%Z /\
  (sock n' = Unopened \/ sock n' = Closed) /\
  match outcome with
  | Ok metadata => metadata <> [] /\ hash metadata = info_hash
  | Raise e => exists reason, reason ∈ FETCH_REASONS /\ e = MetadataFetchError reason
  end.
Proof using length_hash.
  intros Hh Hr [Hc Hhs Hp Hss] Ht Hs Hf.
  rewrite fetch_metadata_encrypted_eq.
  refine (fetch_with_ends one_timeout_error hash _ info_hash addr timeouts n Hh Hc Hs _).
  intros D n1 Hsock Hclock Hi Hrd ->. unfold encrypted_session. apply tri_bind. unfold now. apply tri_reads. cbv zeta.
  set (D := (clock n + session timeouts)%Z). set (D' := Z.min D _).
  destruct (opening_messages_Ok info_hash random Hh Hr) as (hs & ext & _ & _ & _ & Ho).
  destruct (length_opening info_hash random _ Hh Hr Ho) as [Hl1 Hl2].
  apply tri_bind. eapply tri_call_Ok; [exact Ho|]. apply tri_bind.
  eapply tri_mono; [by apply (tri_negotiate hash length_hash)| |].
  2: { intros e t He. eapply fails_named_le; [|exact He]. lia. }
  intros ciphers n2 H2'. assert (goes_on D n1 n2) as H2 by (eapply goes_on_le; [|exact H2']; lia).
  eapply (tri_after D); [exact H2|apply tri_run_encrypted|intros a t Ha; exact Ha].
  assert (0 <= loop_time n2)%Z as Ht2.
  { destruct H2 as (_ & _ & ?). unfold by_deadline in *. cbn in *. lia. }
  eapply tri_mono; [apply (tri_run_session (stream := EncryptedStream)) with (D := D)| |]; try done.
  - by destruct H2.
  - lia.
  - destruct H2 as (_ & Hu & _). cbn in Hu |- *. rewrite Hi, Hrd in Hu. lia.
  - intros data [t enc dec] [Hl Hg]. split; [done|]. eapply goes_on_trans; [exact H2|]. exact Hg.
Qed.
End fetch.

(** ** A peer that answers the negotiation *)

(** What the responder chooses: its private key, its padding before and after
    the marker, and the method. *)
Record responder : Type := {
  their_private : Z;
  pad_b : bytes;
  method : Z;
  pad_d : bytes;
}.

Section negotiation.
Variable hash : bytes -> bytes.
Hypothesis length_hash : forall data, length (hash data) = 20.

Definition power_bytes (base exponent : Z) : bytes := be_encode DH_KEY_LENGTH (base ^ exponent mod DH_PRIME).

(** The secret as the responder computes it, from the public key it was sent. *)
Definition shared_secret (our_public : bytes) (r : responder) : bytes :=
  power_bytes (be_decode our_public) r.(their_private).

(** The cipher of a direction: [label] is [keyA] or [keyB]. *)
Definition stream_cipher (label : string) (secret info_hash : bytes) : rc4 :=
  match mse_cipher (hash (bs label ++ secret ++ info_hash)) with Ok c => c | Raise _ => Rc4 [] 0 0 end.

Definition reply_plain (r : responder) : bytes :=
  VERIFICATION_CONSTANT ++ (be_encode 4 r.(method) ++ be_encode 2 (Z.of_nat (length r.(pad_d)))) ++ r.(pad_d).

(** What the responder sends: its public key, padding, and the encrypted reply. *)
Definition negotiation_reply (secret info_hash : bytes) (r : responder) : bytes :=
  power_bytes DH_GENERATOR r.(their_private) ++ r.(pad_b) ++ (crypt (stream_cipher "keyB" secret info_hash) (reply_plain r)).1.

(** The fields are in their ranges, and the marker is not met by chance before
    its place. *)
Record responder_ok (secret info_hash : bytes) (r : responder) : Prop := {
  resp_private : (0 <= r.(their_private))%Z;
  resp_pad_b : length r.(pad_b) <= MAX_PAD_LENGTH;
  resp_method : r.(method) = CRYPTO_PLAINTEXT \/ r.(method) = CRYPTO_RC4;
  resp_pad_d : length r.(pad_d) <= MAX_PAD_LENGTH;
  resp_marker k : k < length r.(pad_b) ->
    let marker := (crypt (stream_cipher "keyB" secret info_hash) VERIFICATION_CONSTANT).1 in
    take 8 (drop k (r.(pad_b) ++ marker)) <> marker;
}.

Definition offer (payload : bytes) : bytes :=
  VERIFICATION_CONSTANT ++ be_encode 4 (Z.lor CRYPTO_RC4 CRYPTO_PLAINTEXT) ++ be_encode 2 0
  ++ be_encode 2 (Z.of_nat (length payload)).

(** What the session writes: its public key and padding, then, under the
    shared secret, the hashes and the encrypted offer and payload. *)
Definition hello (our_public pad secret info_hash payload : bytes) : bytes :=
  (our_public ++ pad) ++
  (hash (bs "req1" ++ secret) ++ xor_bytes (hash (bs "req2" ++ info_hash)) (hash (bs "req3" ++ secret)) ++
   (crypt (stream_cipher "keyA" secret info_hash) (offer payload ++ payload)).1).

(** The ciphers of the stream after the negotiation. *)
Definition agreed (secret info_hash payload : bytes) (r : responder) : option rc4 * option rc4 :=
  if (r.(method) =? CRYPTO_RC4)%Z then
    (Some (crypt (stream_cipher "keyA" secret info_hash) (offer payload ++ payload)).2,
     Some (crypt (stream_cipher "keyB" secret info_hash) (reply_plain r)).2)
  else (None, None).

Lemma stream_cipher_eq label secret info_hash :
  mse_cipher (hash (bs label ++ secret ++ info_hash)) = Ok (stream_cipher label secret info_hash).
Proof using length_hash.
  unfold stream_cipher. destruct (mse_cipher_Ok (hash (bs label ++ secret ++ info_hash)) (length_hash _)) as [c Hc].
  by rewrite Hc.
Qed.

Lemma power_bytes_range a m : (0 <= a ^ m mod DH_PRIME < 256 ^ Z.of_nat DH_KEY_LENGTH)%Z.
Proof.
  pose proof (Z.mod_pos_bound (a ^ m) DH_PRIME ltac:(done)) as Hb.
  assert (DH_PRIME < 256 ^ Z.of_nat DH_KEY_LENGTH)%Z as Hp by (vm_compute; done). lia.
Qed.

Lemma decode_power_bytes a m : be_decode (power_bytes a m) = (a ^ m mod DH_PRIME)%Z.
Proof. apply be_decode_encode_small, power_bytes_range. Qed.

(** Both sides compute the same secret. *)
Lemma secrets_agree a b : (0 <= a)%Z -> (0 <= b)%Z ->
  power_bytes (be_decode (power_bytes DH_GENERATOR b)) a = power_bytes (be_decode (power_bytes DH_GENERATOR a)) b.
Proof.
  intros Ha Hb. unfold power_bytes at 1 3. rewrite !decode_power_bytes. f_equal.
  rewrite <-!Zpower_mod by done. rewrite <-!Z.pow_mul_r by done. by rewrite Z.mul_comm.
Qed.

Lemma consumes_find_marker pad marker turns D :
  length marker = 8 -> length pad <= turns ->
  (forall k, k < length pad -> take 8 (drop k (pad ++ marker)) <> marker) ->
  consumes (find_marker turns marker (take 8 (pad ++ marker)) D) (drop 8 (pad ++ marker)) [] tt.
Proof.
  intros Hm. revert turns. induction pad as [|b pad IH]; intros turns Hl Hno.
  - cbn [app]. rewrite take_ge, drop_ge by lia. destruct turns; cbn [find_marker];
      (rewrite bool_decide_eq_true_2 by done; apply consumes_ret).
  - destruct turns as [|turns]; [cbn in Hl; lia|]. cbn [find_marker].
    rewrite bool_decide_eq_false_2 by (apply (Hno 0); cbn; lia).
    assert (exists x l, drop 7 (pad ++ marker) = x :: l) as (x & l & Hx).
    { destruct (drop 7 (pad ++ marker)) as [|x l] eqn:Hd; [|eauto].
      apply (f_equal length) in Hd. rewrite length_drop, length_app, Hm in Hd. cbn in Hd. lia. }
    assert (drop 8 ((b :: pad) ++ marker) = [x] ++ drop 8 (pad ++ marker)) as ->.
    { cbn [app]. change (drop 8 (b :: pad ++ marker)) with (drop 7 (pad ++ marker)). rewrite Hx.
      change 8 with (7 + 1). rewrite <-drop_drop, Hx. done. }
    eapply consumes_first; [apply consumes_read; [done|lia|known]|].
    assert (drop 1 (take 8 ((b :: pad) ++ marker)) ++ [x] = take 8 (pad ++ marker)) as ->.
    { cbn [app]. change (drop 1 (take 8 (b :: pad ++ marker))) with (take 7 (pad ++ marker)).
      change 8 with (7 + 1). rewrite <-(take_drop 7 (pad ++ marker)) at 2.
      rewrite take_app_add' by (rewrite length_take, length_app; lia). by rewrite Hx. }
    apply IH; [cbn in Hl; lia|]. intros k Hk. apply (Hno (S k)). cbn. lia.
Qed.

Lemma consumes_send_last {B} data (f : unit -> task script B) data' b :
  data <> [] -> consumes (f tt) data' [] b -> consumes (send data ≫= f) data' data b.
Proof. intros Hd Hf. pose proof (consumes_send data f data' [] b Hd Hf) as H. by rewrite app_nil_r in H. Qed.

Lemma crypt_eta c data : crypt c data = ((crypt c data).1, (crypt c data).2).
Proof. by destruct (crypt c data). Qed.

Lemma consumes_negotiate private_key pad info_hash payload r D :
  let our_public := power_bytes DH_GENERATOR (be_decode private_key) in
  let secret := shared_secret our_public r in
  responder_ok secret info_hash r -> length info_hash = NODE_ID_LENGTH ->
  0 < length payload -> (Z.of_nat (length payload) <= 0xFFFF)%Z ->
  consumes (negotiate_encryption hash private_key pad info_hash payload D)
    (negotiation_reply secret info_hash r) (hello our_public pad secret info_hash payload)
    (agreed secret info_hash payload r).
Proof using length_hash.
  intros our_public secret [Hpriv Hpb Hmeth Hpd Hmark] Hh Hp1 Hp2.
  set (db := stream_cipher "keyB" secret info_hash) in *. set (ea := stream_cipher "keyA" secret info_hash).
  set (marker := (crypt db VERIFICATION_CONSTANT).1) in *. cbv zeta in Hmark.
  assert (length marker = 8) as Hlm by (unfold marker; by rewrite length_crypt).
  set (db1 := (crypt db VERIFICATION_CONSTANT).2).
  set (plain := be_encode 4 (method r) ++ be_encode 2 (Z.of_nat (length (pad_d r)))).
  assert (length plain = 6) as Hlp by (unfold plain; by rewrite length_app, !length_be_encode).
  set (db2 := (crypt db1 plain).2).
  assert ((crypt db (reply_plain r)).1 = marker ++ (crypt db1 plain).1 ++ (crypt db2 (pad_d r)).1) as Hreply.
  { unfold reply_plain. fold plain. rewrite crypt_app. cbn [fst]. fold marker db1. by rewrite crypt_app. }
  unfold negotiation_reply, hello. fold db ea. rewrite Hreply.
  unfold negotiate_encryption. apply consumes_check.
  { by rewrite is_node_id_of, bool_decide_eq_true_2, (proj2 (Z.leb_le _ _) Hp2) by done. }
  cbv zeta. eapply consumes_call; [apply dh_bytes_Ok|]. fold (power_bytes DH_GENERATOR (be_decode private_key)). fold our_public.
  apply consumes_send.
  { intros Hnil. apply (f_equal length) in Hnil. by rewrite length_app in Hnil. }
  eapply consumes_first; [apply consumes_read; [apply length_be_encode|unfold DH_KEY_LENGTH; lia|known]|].
  eapply consumes_call; [apply dh_bytes_Ok|].
  match goal with |- context [be_encode DH_KEY_LENGTH ?e] => assert (be_encode DH_KEY_LENGTH e = secret) as -> end.
  { apply secrets_agree; [apply be_decode_range|done]. }
  rewrite !(sha1_Ok hash length_hash). cbn [concat]. rewrite !app_nil_r.
  eapply consumes_call; [done|]. eapply consumes_call; [apply stream_cipher_eq|]. fold ea.
  eapply consumes_call; [done|]. eapply consumes_call; [apply stream_cipher_eq|]. fold db.
  eapply consumes_call; [done|]. eapply consumes_call; [done|]. eapply consumes_call; [done|].
  fold (offer payload). rewrite (crypt_eta ea), (crypt_eta _ payload). cbv iota beta.
  assert ((crypt ea (offer payload ++ payload)).1 = (crypt ea (offer payload)).1 ++ (crypt (crypt ea (offer payload)).2 payload).1) as ->
    by by rewrite crypt_app.
  apply consumes_send_last.
  { intros Hnil. apply (f_equal length) in Hnil. by rewrite length_app, length_hash in Hnil. }
  rewrite (crypt_eta db VERIFICATION_CONSTANT). cbv iota beta. fold marker db1. rewrite Hlm.
  set (X := pad_b r ++ marker).
  replace (pad_b r ++ marker ++ (crypt db1 plain).1 ++ (crypt db2 (pad_d r)).1)
    with (take 8 X ++ drop 8 X ++ (crypt db1 plain).1 ++ (crypt db2 (pad_d r)).1)
    by (unfold X; by rewrite (app_assoc (take 8 _)), take_drop, <-app_assoc).
  eapply consumes_first; [apply consumes_read; [unfold X; rewrite length_take, length_app; lia|lia|known]|].
  eapply consumes_first; [by apply consumes_find_marker|].
  eapply consumes_first; [apply consumes_read; [by rewrite length_crypt|lia|known]|].
  rewrite (crypt_eta db1), crypt_crypt. cbv iota beta.
  rewrite (crypt_cipher db1 _ plain) by by rewrite length_crypt. fold db2.
  assert (be_decode (take 4 plain) = method r) as ->.
  { unfold plain. rewrite take_app_length' by (by rewrite length_be_encode). apply be_decode_encode_small.
    change (256 ^ Z.of_nat 4)%Z with 4294967296%Z. unfold CRYPTO_PLAINTEXT, CRYPTO_RC4 in Hmeth. lia. }
  assert (be_decode (drop 4 plain) = Z.of_nat (length (pad_d r))) as ->.
  { unfold plain. rewrite drop_app_length' by (by rewrite length_be_encode). apply be_decode_encode_small.
    change (256 ^ Z.of_nat 2)%Z with 65536%Z. unfold MAX_PAD_LENGTH in Hpd. lia. }
  assert ((method r =? CRYPTO_PLAINTEXT)%Z || (method r =? CRYPTO_RC4)%Z = true) as ->
    by (destruct Hmeth as [-> | ->]; done).
  destruct (Z.of_nat MAX_PAD_LENGTH <? Z.of_nat (length (pad_d r)))%Z eqn:?; [lia|]. cbn [negb orb].
  rewrite <-(app_nil_r (crypt db2 (pad_d r)).1).
  eapply (consumes_first _ _ _ _ _ (crypt db2 (pad_d r)).2).
  - destruct (_ =? 0)%Z eqn:Hz.
    + assert (pad_d r = []) as -> by (apply nil_length_inv; lia). apply consumes_ret.
    + eapply consumes_last; [apply consumes_read; [rewrite length_crypt; lia|lia|known]|].
      rewrite (crypt_cipher db2 _ (pad_d r)) by by rewrite length_crypt. apply consumes_ret.
  - unfold agreed. fold ea db. rewrite crypt_app. cbn [snd].
    assert ((crypt db (reply_plain r)).2 = (crypt db2 (pad_d r)).2) as ->
      by (unfold reply_plain; fold plain; by rewrite !crypt_app).
    apply consumes_ret.
Qed.
End negotiation.

(** ** A session over an encrypted stream is the session over the plain text *)

Lemma crypt_with_app cipher x y :
  crypt_with cipher (x ++ y) =
    ((crypt_with cipher x).1 ++ (crypt_with (crypt_with cipher x).2 y).1, (crypt_with (crypt_with cipher x).2 y).2).
Proof.
  destruct cipher as [c|]; [|done]. cbn. rewrite crypt_app. destruct (crypt c x) as [ox c']. cbn.
  by destruct (crypt c' y).
Qed.

Lemma crypt_with_crypt cipher data : (crypt_with cipher (crypt_with cipher data).1).1 = data.
Proof.
  destruct cipher as [c|]; [|done]. cbn. pose proof (crypt_crypt c data). destruct (crypt c data) as [out c'].
  cbn in *. by destruct (crypt c out).
Qed.

Lemma crypt_with_cipher cipher x y : length x = length y -> (crypt_with cipher x).2 = (crypt_with cipher y).2.
Proof.
  intros Hl. destruct cipher as [c|]; [|done]. cbn. pose proof (crypt_cipher c x y Hl).
  destruct (crypt c x), (crypt c y). cbn in *. congruence.
Qed.

Lemma crypt_with_eta cipher data : crypt_with cipher data = ((crypt_with cipher data).1, (crypt_with cipher data).2).
Proof. by destruct (crypt_with cipher data). Qed.

(** An encrypted script whose bytes are the ciphertext of the plain script, and
    whose log is the ciphertext of the plain log. *)
Record ciphered (cipher : option rc4) (before : bytes) (e : encrypted script) (s : script) : Prop := {
  ci_coming : coming (inner e) = (crypt_with (decryptor e) (coming s)).1;
  ci_log : log (inner e) = before ++ (crypt_with cipher (log s)).1;
  ci_encryptor : encryptor e = (crypt_with cipher (log s)).2;
}.

Lemma ciphered_read cipher before n d e reason :
  in_step False (ciphered cipher before) eq (read_exactly (S := encrypted script) n d reason) (read_exactly (S := script) n e reason).
Proof.
  intros [s' enc dec] s [Hc Hl He]. cbn [inner decryptor encryptor] in *.
  cbn [read_exactly EncryptedStream ScriptStream]. unfold encrypted_read, script_read.
  destruct (bool_decide (0 < n)) eqn:Hn; cbn [negb andb inner decryptor encryptor]; [|right; by split].
  cbn [read_exactly ScriptStream]. unfold script_read. rewrite Hn. cbn [andb].
  destruct (bool_decide (reason ∈ _)); cbn [negb]; [|right; by split].
  assert (length (coming s') = length (coming s)) as Hlen by by rewrite Hc, length_crypt_with.
  rewrite Hlen. destruct (decide (n <= length (coming s))) as [Hle|Hle].
  - rewrite bool_decide_eq_true_2 by done. rewrite <-(take_drop n (coming s)), crypt_with_app in Hc. cbn [fst] in Hc.
    assert (length (crypt_with dec (take n (coming s))).1 = n) as Hln
      by (rewrite length_crypt_with, length_take; lia).
    rewrite Hc, take_app_length', drop_app_length' by done.
    rewrite crypt_with_eta, crypt_with_crypt. cbv beta iota.
    rewrite (crypt_with_cipher dec (crypt_with dec (take n (coming s))).1 (take n (coming s))) by by rewrite length_crypt_with.
    rewrite bool_decide_eq_true_2 by (rewrite length_take; lia). cbn [assert_ mbind res_bind mret res_ret].
    split; [done|]. by split.
  - rewrite bool_decide_eq_false_2 by done. right. split.
    + assert (coming s' = [] <-> coming s = []) as Hnil.
      { split; intros H; apply nil_length_inv; rewrite H in Hlen; cbn in Hlen; congruence. }
      f_equal. rewrite (bool_decide_ext _ _ Hnil). done.
    + split; cbn; [|done..]. by destruct dec.
Qed.

Lemma ciphered_write cipher before data :
  in_step False (ciphered cipher before) eq (write (S := encrypted script) data) (write (S := script) data).
Proof.
  intros [s' enc dec] s [Hc Hl He]. cbn [inner encryptor decryptor] in *.
  cbn [write EncryptedStream ScriptStream]. unfold encrypted_write, on_inner, change. cbn [encryptor inner decryptor].
  rewrite crypt_with_eta. cbn [write ScriptStream inner]. unfold change. split; [done|].
  subst enc. split; cbn [coming log inner decryptor encryptor].
  - done.
  - rewrite crypt_with_app. cbn [fst]. by rewrite Hl, app_assoc.
  - by rewrite crypt_with_app.
Qed.

Lemma run_encrypted_script depth fuel random info_hash metadata their_id c opening timeouts D ciphers before :
  conforms depth info_hash metadata their_id c ->
  length info_hash = NODE_ID_LENGTH -> opening_messages info_hash random = Ok opening -> opening <> [] ->
  (0 <= D)%Z -> (0 <= timeouts.(handshake))%Z -> (0 <= timeouts.(piece))%Z -> conversation_frames c < fuel ->
  run_encrypted ciphers (run_session depth fuel random info_hash timeouts D false)
    {| coming := (crypt_with ciphers.2 (conversation_bytes c)).1; log := before |} =
  (Ok metadata, {| coming := []; log := before ++ (crypt_with ciphers.1 (all_requests their_id metadata)).1 |}).
Proof.
  intros Hconf Hh Ho Hne HD Hhs Hp Hfuel.
  pose proof (consumes_session depth info_hash metadata their_id c fuel random opening timeouts D false
    Hconf Hh Ho Hne HD Hhs Hp Hfuel [] []) as Hplain. rewrite app_nil_r in Hplain. cbn [app] in Hplain.
  assert (in_step False (ciphered ciphers.1 before) eq
    (run_session (S := encrypted script) depth fuel random info_hash timeouts D false)
    (run_session (S := script) depth fuel random info_hash timeouts D false)) as Hstep.
  { apply (step_run_session depth timeouts False _ (fun d e => 0 <= d /\ 0 <= e)%Z); [done|cbn; lia|cbn; lia| | |done].
    - intros n d e reason _. apply ciphered_read.
    - intros data _. apply ciphered_write. }
  destruct ciphers as [enc dec]. cbn [fst snd] in *. unfold run_encrypted. cbn [fst snd].
  specialize (Hstep (Encrypted {| coming := (crypt_with dec (conversation_bytes c)).1; log := before |} enc dec)
    {| coming := conversation_bytes c; log := [] |}).
  rewrite Hplain in Hstep.
  destruct (run_session depth fuel random info_hash timeouts D false (Encrypted _ enc dec)) as [[m|e] e'] eqn:Hrun;
    lapply Hstep; try (split; cbn; [done| |]; destruct enc; by rewrite ?app_nil_r); clear Hstep; [|done].
  intros [-> [Hc Hl _]]. cbn [coming log] in Hc, Hl.
  destruct (inner e') as [in_coming in_log]. cbn in Hc, Hl. subst. do 2 f_equal. by destruct (decryptor e').
Qed.

(** ** Encrypted sessions on streams in step *)

Section relation.
Context {S T : Type} `{streamS : !ByteStream S} `{streamT : !ByteStream T}.
Variables (depth : nat) (timeouts : FetchTimeouts) (hash : bytes -> bytes).
Variables (lax : Prop) (R : S -> T -> Prop) (deadlines : Z -> Z -> Prop).
Hypothesis deadlines_nonneg : forall d e, deadlines d e -> (0 <= d)%Z /\ (0 <= e)%Z.
Hypothesis deadlines_handshake : forall d e s t, deadlines d e -> R s t ->
  deadlines (Z.min d (loop_time s + timeouts.(handshake))) (Z.min e (loop_time t + timeouts.(handshake))).
Hypothesis deadlines_piece : forall d e s t, deadlines d e -> R s t ->
  deadlines (Z.min d (loop_time s + timeouts.(piece))) (Z.min e (loop_time t + timeouts.(piece))).
Hypothesis reads_in_step : forall n d e reason, deadlines d e ->
  in_step lax R eq (read_exactly n d reason) (read_exactly n e reason).
Hypothesis writes_in_step : forall data, data <> [] -> in_step lax R eq (write (S := S) data) (write (S := T) data).

Lemma step_find_marker turns marker window d e : deadlines d e ->
  in_step lax R eq (find_marker (S := S) turns marker window d) (find_marker (S := T) turns marker window e).
Proof using reads_in_step.
  intros Hd. revert window. induction turns as [|turns IH]; intros window; cbn [find_marker];
    case_match; try (by apply step_ret); [apply step_throw|].
  apply (step_same lax R); [by apply reads_in_step|]. done.
Qed.

Lemma step_negotiate private_key pad info_hash payload d e : deadlines d e ->
  in_step lax R eq (negotiate_encryption (S := S) hash private_key pad info_hash payload d)
    (negotiate_encryption (S := T) hash private_key pad info_hash payload e).
Proof using reads_in_step writes_in_step.
  intros Hd. unfold negotiate_encryption.
  repeat lazymatch goal with
    | |- in_step _ _ _ (check _ ≫= _) _ => apply (step_same lax R); [apply step_call|intros ?]
    | |- in_step _ _ _ (call _ ≫= _) _ => apply (step_same lax R); [apply step_call|intros ?]
    | |- in_step _ _ _ (send _ ≫= _) _ => apply (step_same lax R); [by apply step_send|intros ?]
    | |- in_step _ _ _ (find_marker _ _ _ _ ≫= _) _ => apply (step_same lax R); [by apply step_find_marker|intros ?]
    | |- in_step _ _ _ (read_exactly _ _ _ ≫= _) _ => apply (step_same lax R); [by apply reads_in_step|intros ?]
    | |- in_step _ _ _ (match crypt ?c ?x with _ => _ end) _ => destruct (crypt c x)
    | |- in_step _ _ _ (let _ := _ in _) _ => cbv zeta
    end.
  case_match; [apply step_throw|].
  apply (step_same lax R); [|intros ?; by apply step_ret]. case_match; [by apply step_ret|].
  apply (step_same lax R); [by apply reads_in_step|intros ?; by apply step_ret].
Qed.

(** Encrypted streams with the same ciphers over streams in step. *)
Definition wrapped (e : encrypted S) (f : encrypted T) : Prop :=
  R (inner e) (inner f) /\ encryptor e = encryptor f /\ decryptor e = decryptor f.

Lemma wrapped_read n d e reason : deadlines d e ->
  in_step lax wrapped eq (read_exactly (S := encrypted S) n d reason) (read_exactly (S := encrypted T) n e reason).
Proof using reads_in_step.
  intros Hd [s enc dec] [t enc' dec'] (HR & He & Hdec). cbn in HR, He, Hdec. subst enc' dec'.
  cbn [read_exactly EncryptedStream]. unfold encrypted_read. destruct (negb _); [right; by split|].
  cbn [inner encryptor decryptor]. pose proof (reads_in_step n d e reason Hd s t HR) as Hr.
  destruct (read_exactly n e reason t) as [[b|err] t'], (read_exactly n d reason s) as [[a|err'] s']; try done.
  - destruct Hr as [-> HR']. destruct (crypt_with dec b) as [out dec'].
    destruct (bool_decide _); [split; [done|by split]|right; by split].
  - destruct (crypt_with dec a) as [out dec']. destruct (bool_decide _); [done|by left].
  - destruct Hr as [|[-> HR']]; [by left|right; by split].
Qed.

Lemma wrapped_write data : data <> [] ->
  in_step lax wrapped eq (write (S := encrypted S) data) (write (S := encrypted T) data).
Proof using writes_in_step.
  intros Hne [s enc dec] [t enc' dec'] (HR & He & Hdec). cbn in HR, He, Hdec. subst enc' dec'.
  cbn [write EncryptedStream]. unfold encrypted_write, on_inner. cbn [inner encryptor decryptor].
  pose proof (length_crypt_with enc data) as Hl. destruct (crypt_with enc data) as [out enc'].
  cbn [inner encryptor decryptor]. assert (out <> []) as Ho by (cbn in Hl; by destruct out, data).
  pose proof (writes_in_step out Ho s t HR) as Hw.
  destruct (write out t) as [[b|err] t'], (write out s) as [[a|err'] s']; try done.
  - destruct Hw as [-> ?]. split; [done|by split].
  - destruct Hw as [|[-> ?]]; [by left|right; split; [done|by split]].
Qed.

Lemma step_encrypted_session fuel random private_key pad info_hash d e : deadlines d e ->
  in_step lax R eq (encrypted_session (S := S) hash depth fuel random private_key pad info_hash timeouts d)
    (encrypted_session (S := T) hash depth fuel random private_key pad info_hash timeouts e).
Proof using All.
  intros Hd. unfold encrypted_session.
  apply (step_now lax R deadlines (fun t => Z.min d (t + handshake timeouts))%Z (fun t => Z.min e (t + handshake timeouts))%Z
    (fun d' => opening ← call (opening_messages info_hash random);
       ciphers ← negotiate_encryption hash private_key pad info_hash opening d';
       run_encrypted ciphers (run_session depth fuel random info_hash timeouts d false))
    (fun e' => opening ← call (opening_messages info_hash random);
       ciphers ← negotiate_encryption hash private_key pad info_hash opening e';
       run_encrypted ciphers (run_session depth fuel random info_hash timeouts e false))).
  - intros s t. by apply deadlines_handshake.
  - intros d' e' Hd'. apply (step_same lax R); [apply step_call|]. intros opening.
    apply (step_same lax R); [by apply step_negotiate|]. intros [enc dec] s t HR.
    assert (in_step lax wrapped eq
      (run_session (S := encrypted S) depth fuel random info_hash timeouts d false)
      (run_session (S := encrypted T) depth fuel random info_hash timeouts e false)) as Hstep.
    { apply (step_run_session depth timeouts lax wrapped deadlines); [done| | | | |done].
      - intros d0 e0 e1 f1 Hd0 (HR1 & _). by apply deadlines_handshake.
      - intros d0 e0 e1 f1 Hd0 (HR1 & _). by apply deadlines_piece.
      - intros n d0 e0 reason. apply wrapped_read.
      - intros data. apply wrapped_write. }
    specialize (Hstep (Encrypted s enc dec) (Encrypted t enc dec)). unfold run_encrypted. cbn [fst snd].
    lapply Hstep; [clear Hstep|by split].
    destruct (run_session depth fuel random info_hash timeouts e false _) as [[b|err] f'];
      destruct (run_session depth fuel random info_hash timeouts d false _) as [[a|err'] g']; try done.
    + by intros [-> [? _]].
    + intros [|[-> [? _]]]; [by left|by right].
Qed.
End relation.

(** ** Encrypted fetches from a conforming peer *)

(** The session of an encrypted fetch on the bytes of a peer that answers the
    negotiation, then talks under the method it has chosen. *)
Lemma encrypted_session_script hash depth fuel random private_key pad info_hash metadata their_id c opening timeouts D r before :
  (forall data, length (hash data) = 20) ->
  let our_public := power_bytes DH_GENERATOR (be_decode private_key) in
  let secret := shared_secret our_public r in
  let ciphers := agreed hash secret info_hash opening r in
  responder_ok hash secret info_hash r -> conforms depth info_hash metadata their_id c ->
  length info_hash = NODE_ID_LENGTH -> random_ok random -> opening_messages info_hash random = Ok opening ->
  (0 <= D)%Z -> (0 <= timeouts.(handshake))%Z -> (0 <= timeouts.(piece))%Z -> conversation_frames c < fuel ->
  encrypted_session (S := script) hash depth fuel random private_key pad info_hash timeouts D
    {| coming := negotiation_reply hash secret info_hash r ++ (crypt_with ciphers.2 (conversation_bytes c)).1; log := before |} =
  (Ok metadata, {| coming := [];
    log := before ++ hello hash our_public pad secret info_hash opening
           ++ (crypt_with ciphers.1 (all_requests their_id metadata)).1 |}).
Proof.
  intros Hhash our_public secret ciphers Hr Hconf Hh Hrand Ho HD Hhs Hp Hfuel.
  destruct (length_opening info_hash random opening Hh Hrand Ho) as [Hl1 Hl2].
  assert (opening <> []) as Hne by (intros ->; cbn in Hl1; lia).
  unfold encrypted_session, now. rewrite reads_then. cbv zeta. rewrite (call_then _ opening) by done.
  rewrite (consumes_then _ _ _ _ _ _ _
    (consumes_negotiate hash Hhash private_key pad info_hash opening r _ Hr Hh Hl1 Hl2)).
  rewrite (run_encrypted_script depth fuel random info_hash metadata their_id c opening) by done.
  by rewrite <-app_assoc.
Qed.

(** C20. When the connection is accepted and a peer that answers the
    negotiation, under the secret that it computes from the public key it was
    sent, then holds its side of a conforming conversation in the ciphertext of the
    method it has chosen, and all of it arrives in time, in whatever segments, the
    encrypted fetch returns the peer's metadata and closes the socket; what it has
    written is its public key, the hashes and the offer under that same secret,
    and the requests for every piece in that ciphertext. *)
Theorem encrypted_peer_fetched one_timeout_error hash depth fuel random private_key pad info_hash addr timeouts n
    metadata their_id c opening r delay T :
  let our_public := power_bytes DH_GENERATOR (be_decode private_key) in
  let secret := shared_secret our_public r in
  let ciphers := agreed hash secret info_hash opening r in
  (forall data, length (hash data) = 20) -> responder_ok hash secret info_hash r ->
  conforms depth info_hash metadata their_id c -> hash metadata = info_hash ->
  length info_hash = NODE_ID_LENGTH -> random_ok random -> opening_messages info_hash random = Ok opening ->
  timeouts_ok timeouts ->
  in_time timeouts n delay T
    (negotiation_reply hash secret info_hash r ++ (crypt_with ciphers.2 (conversation_bytes c)).1) ->
  conversation_frames c < fuel ->
  exists n', fetch_metadata_encrypted one_timeout_error hash depth fuel random private_key pad info_hash addr timeouts n =
      (Ok metadata, n') /\
    n'.(sock) = Closed /\ (n'.(clock) <= T)%Z /\
    n'.(written) = n.(written) ++ hello hash our_public pad secret info_hash opening
                   ++ (crypt_with ciphers.1 (all_requests their_id metadata)).1.
Proof.
  intros our_public secret ciphers Hhash Hr Hconf Hsha Hh Hrand Ho [Hc Hhs Hp Hss] Htime Hfuel.
  rewrite fetch_metadata_encrypted_eq.
  refine (fetch_with_in_time one_timeout_error hash _
    (encrypted_session (S := script) hash depth fuel random private_key pad info_hash timeouts 0)
    info_hash addr timeouts n delay T _ metadata [] _ Hh Hsha _ Htime _ _).
  - intros ->. destruct Hconf as [Hsz _ _ _ _ _]. cbn in Hsz. lia.
  - apply (step_encrypted_session depth timeouts hash True _ (later T)).
    + by intros d e (? & ? & ?).
    + intros d e s t. by eapply later_handshake.
    + intros d e s t. by eapply later_piece.
    + intros m d e reason. apply carries_read.
    + intros data _. apply carries_write.
    + destruct Htime. unfold later. lia.
  - by apply encrypted_session_script.
Qed.

(** ** An encrypted conversation *)

Lemma length_example_sha1 data : length (example_sha1 data) = 20.
Proof. unfold example_sha1. rewrite length_take, length_app. change (length (bs "12345678901234567890")) with 20. lia. Qed.

Definition example_key : bytes := repeat Byte.x00 19 ++ [Byte.x03].
Definition example_responder : responder := {| their_private := 5; pad_b := []; method := CRYPTO_RC4; pad_d := [Byte.x01] |}.
Definition example_secret : bytes := shared_secret (power_bytes DH_GENERATOR (be_decode example_key)) example_responder.
Definition example_sent (opening : bytes) : bytes :=
  negotiation_reply example_sha1 example_secret example_hash example_responder ++
  (crypt_with (agreed example_sha1 example_secret example_hash opening example_responder).2
     (conversation_bytes example_conversation)).1.
Definition example_encrypted_net (sent : bytes) : peer_net := {|
  clock := 5; socket_error := None; connecting := Some (10%Z, None);
  incoming := [(20%Z, Data (take 50 sent)); (40%Z, Data (drop 50 sent))];
  stream_reader := Build_reader [] false None; written := []; sock := Unopened |}.

Lemma example_in_time sent : in_time DEFAULT_TIMEOUTS (example_encrypted_net sent) 10 40 sent.
Proof.
  split; try done.
  - constructor; [split; [done|by eexists]|constructor; [split; [done|by eexists]|constructor]].
  - cbn. rewrite app_nil_r. apply (take_drop 50).
Qed.

Lemma example_responder_ok : responder_ok example_sha1 example_secret example_hash example_responder.
Proof.
  split; [done|cbn; unfold MAX_PAD_LENGTH; lia|by right|cbn; unfold MAX_PAD_LENGTH; lia|].
  intros k Hk. cbn in Hk. lia.
Qed.

Lemma encrypted_peer_fetched_witness :
  exists opening n', opening_messages example_hash (bs "123456789012") = Ok opening /\
    fetch_metadata_encrypted true example_sha1 5 20 (bs "123456789012") example_key [] example_hash example_address
      DEFAULT_TIMEOUTS (example_encrypted_net (example_sent opening)) = (Ok example_metadata, n') /\ sock n' = Closed.
Proof.
  destruct (opening_messages_Ok example_hash (bs "123456789012") eq_refl eq_refl) as (hs & ext & _ & _ & _ & Ho).
  destruct (encrypted_peer_fetched true example_sha1 5 20 (bs "123456789012") example_key [] example_hash example_address
    DEFAULT_TIMEOUTS (example_encrypted_net (example_sent (hs ++ ext))) example_metadata 3 example_conversation (hs ++ ext)
    example_responder 10 40 length_example_sha1 example_responder_ok example_conforms eq_refl eq_refl eq_refl Ho
    example_timeouts (example_in_time _)) as (n' & Hf & Hs & _).
  - vm_compute. lia.
  - exists (hs ++ ext), n'. split; [exact Ho|]. split; [exact Hf|exact Hs].
Defined.

Lemma encrypted_fetch_outcome_witness :
  exists outcome n', fetch_metadata_encrypted true example_sha1 5 300 (bs "123456789012") example_key [] example_hash
    example_address DEFAULT_TIMEOUTS example_net = (outcome, n') /\ (sock n' = Unopened \/ sock n' = Closed) /\
    (clock n' <= 15000005)%Z.
Proof.
  pose proof (encrypted_fetch_outcome true example_sha1 5 length_example_sha1 300 (bs "123456789012") example_key []
    example_hash example_address DEFAULT_TIMEOUTS example_net eq_refl eq_refl example_timeouts ltac:(done) eq_refl
    ltac:(vm_compute; lia)) as H.
  destruct (fetch_metadata_encrypted _ _ _ _ _ _ _ _ _ _) as [outcome n'].
  exists outcome, n'. split; [done|]. destruct H as (Hc & Hs & _). split; [exact Hs|]. cbn in Hc. lia.
Defined.
