(* ===== verification/Utp.v ===== *)
(** uTP connections ([utp_transport.py]): the packet header, the outgoing
    connection with its sequence numbers, its reassembly buffer and its
    resending, the socket that dispatches to it, and fetches over it.

    A [utp] is one connection as the loop sees it: the connection object, its
    socket's table of connections, the clock, and the datagrams that will
    arrive.  Other connections of the socket are other objects; of them only
    their keys in the table matter here. *)
From S2P Require Import Prelude PyDict Bencode NodeIdentity AddressText Krpc PeerWire Tasks MetadataSession.

Definition ST_DATA : Z := 0.
Definition ST_FIN : Z := 1.
Definition ST_STATE : Z := 2.
Definition ST_RESET : Z := 3.
Definition ST_SYN : Z := 4.
Definition UTP_VERSION : Z := 1.
Definition HEADER_SIZE : nat := 20.
Definition SEQUENCE_MASK : Z := 0xFFFF.
Definition TIMESTAMP_MASK : Z := 0xFFFFFFFF.
Definition MAX_PAYLOAD : nat := 1200.
Definition RECEIVE_WINDOW : Z := Z.shiftl 1 20.
Definition MAX_OUT_OF_ORDER : nat := 1024.
Definition INITIAL_RESEND_SECONDS : Z := 1000000.
Definition MAX_RESENDS : Z := 4.
Definition RESEND_CHECK_SECONDS : Z := 250000.

(** ** Packets *)

(** [UtpPacket] *)
Record utp_packet : Type := UtpPacket {
  packet_type : Z;
  connection_id : Z;
  timestamp : Z;
  timestamp_difference : Z;
  window : Z;
  pkt_seq_nr : Z;
  pkt_ack_nr : Z;
  payload : bytes;
}.

(** A field of [struct.pack("!BBHIIIHH", ...)]: an integer that does not fit
    is a [struct.error]. *)
Definition pack_field (size : nat) (n : Z) : res bytes :=
  raise_if (negb ((0 <=? n) && (n <? 256 ^ Z.of_nat size)))%Z StructError ;; mret (be_encode size n).

Definition encode_utp_packet (packet_type connection_id timestamp timestamp_difference window seq_nr ack_nr : Z)
    (payload : bytes) : res bytes :=
  assert_ ((ST_DATA <=? packet_type) && (packet_type <=? ST_SYN)
           && (0 <=? connection_id) && (connection_id <=? SEQUENCE_MASK))%Z ;;
  fields ← sequence [
    pack_field 1 (Z.lor (Z.shiftl packet_type 4) UTP_VERSION); pack_field 1 0; pack_field 2 connection_id;
    pack_field 4 (Z.land timestamp TIMESTAMP_MASK); pack_field 4 (Z.land timestamp_difference TIMESTAMP_MASK);
    pack_field 4 window; pack_field 2 (Z.land seq_nr SEQUENCE_MASK); pack_field 2 (Z.land ack_nr SEQUENCE_MASK)];
  let result := concat fields ++ payload in
  assert_ (bool_decide (length result = HEADER_SIZE + length payload)) ;;
  mret result.

(** The loop over the extension headers: where the payload starts.  Every turn
    moves the offset on by two at least, so the length of the data is enough
    turns. *)
Fixpoint skip_extensions (turns : nat) (data : bytes) (extension : Z) (offset : nat) : option nat :=
  if (extension =? 0)%Z then Some offset
  else match turns with
       | O => None
       | S turns =>
           if bool_decide (length data < offset + 2) then None
           else
             let size := Z.to_nat (byte_value data (offset + 1)) in
             if bool_decide (length data < offset + 2 + size) then None
             else skip_extensions turns data (byte_value data offset) (offset + 2 + size)
       end.

Definition decode_utp_packet (data : bytes) : option utp_packet :=
  if bool_decide (length data < HEADER_SIZE) then None
  else
    let type_version := byte_value data 0 in
    let extension := byte_value data 1 in
    if (negb (Z.land type_version 0x0F =? UTP_VERSION) || (ST_SYN <? Z.shiftr type_version 4))%Z then None
    else
      match skip_extensions (length data) data extension HEADER_SIZE with
      | None => None
      | Some offset =>
          Some (UtpPacket (Z.shiftr type_version 4) (be_decode (slice data 2 4)) (be_decode (slice data 4 8))
                  (be_decode (slice data 8 12)) (be_decode (slice data 12 16)) (be_decode (slice data 16 18))
                  (be_decode (slice data 18 20)) (drop offset data))
      end.

(** [later != earlier and ((later - earlier) & SEQUENCE_MASK) < 0x8000] *)
Definition is_after (later earlier : Z) : bool :=
  negb (later =? earlier)%Z && (Z.land (later - earlier) SEQUENCE_MASK <? 0x8000)%Z.

Definition sequence_after (later earlier : Z) : res bool :=
  assert_ ((0 <=? later) && (later <=? SEQUENCE_MASK) && (0 <=? earlier) && (earlier <=? SEQUENCE_MASK))%Z ;;
  mret (is_after later earlier).

(** [(n + 1) & SEQUENCE_MASK] *)
Definition next_seq (n : Z) : Z := Z.land (n + 1) SEQUENCE_MASK.

(** ** The connection *)

(** An entry of [unacked]: the packet, when it was last sent, and how often it
    has been sent again. *)
Record unacked_entry : Type := Unacked { packet : bytes; sent_at : Z; resends : Z }.

Record utp : Type := {
  (** the connection *)
  address_of : address;
  recv_id : Z;
  send_id : Z;
  seq_nr : Z;
  ack_nr : Z;
  connected_state : bool;
  closed : bool;
  error : option string;
  reply_micro : Z;
  ubuffer : bytes;
  received_any : bool;
  out_of_order : gmap Z bytes;
  eof_seq : option Z;
  unacked : list (Z * unacked_entry);
  (** the future [connected]: not done, or its result *)
  connected : option bool;
  readable : bool;
  ack_scheduled : bool;
  (** when [check_resend] is due *)
  resend_timer : option Z;
  (** the socket and the loop *)
  connections : list (text * Z * Z);
  transport_open : bool;
  packets_sent : list (bytes * address);
  uclock : Z;
  datagrams_due : list (Z * (address * bytes));
}.

Definition utp_eta (u : utp) : utp :=
  {| address_of := address_of u; recv_id := recv_id u; send_id := send_id u; seq_nr := seq_nr u; ack_nr := ack_nr u;
     connected_state := connected_state u; closed := closed u; error := error u; reply_micro := reply_micro u;
     ubuffer := ubuffer u; received_any := received_any u; out_of_order := out_of_order u; eof_seq := eof_seq u;
     unacked := unacked u; connected := connected u; readable := readable u; ack_scheduled := ack_scheduled u;
     resend_timer := resend_timer u; connections := connections u; transport_open := transport_open u;
     packets_sent := packets_sent u; uclock := uclock u; datagrams_due := datagrams_due u |}.
Definition set_seq_nr : Z -> utp -> utp := ltac:(make_setter utp_eta seq_nr).
Definition set_ack_nr : Z -> utp -> utp := ltac:(make_setter utp_eta ack_nr).
Definition set_connected_state : bool -> utp -> utp := ltac:(make_setter utp_eta connected_state).
Definition set_closed : bool -> utp -> utp := ltac:(make_setter utp_eta closed).
Definition set_error : option string -> utp -> utp := ltac:(make_setter utp_eta error).
Definition set_reply_micro : Z -> utp -> utp := ltac:(make_setter utp_eta reply_micro).
Definition set_ubuffer : bytes -> utp -> utp := ltac:(make_setter utp_eta ubuffer).
Definition set_received_any : bool -> utp -> utp := ltac:(make_setter utp_eta received_any).
Definition set_out_of_order : gmap Z bytes -> utp -> utp := ltac:(make_setter utp_eta out_of_order).
Definition set_eof_seq : option Z -> utp -> utp := ltac:(make_setter utp_eta eof_seq).
Definition set_unacked : list (Z * unacked_entry) -> utp -> utp := ltac:(make_setter utp_eta unacked).
Definition set_connected : option bool -> utp -> utp := ltac:(make_setter utp_eta connected).
Definition set_readable : bool -> utp -> utp := ltac:(make_setter utp_eta readable).
Definition set_ack_scheduled : bool -> utp -> utp := ltac:(make_setter utp_eta ack_scheduled).
Definition set_resend_timer : option Z -> utp -> utp := ltac:(make_setter utp_eta resend_timer).
Definition set_connections : list (text * Z * Z) -> utp -> utp := ltac:(make_setter utp_eta connections).
Definition set_transport_open : bool -> utp -> utp := ltac:(make_setter utp_eta transport_open).
Definition set_packets_sent : list (bytes * address) -> utp -> utp := ltac:(make_setter utp_eta packets_sent).
Definition set_uclock : Z -> utp -> utp := ltac:(make_setter utp_eta uclock).
Definition set_datagrams_due : list (Z * (address * bytes)) -> utp -> utp := ltac:(make_setter utp_eta datagrams_due).

Definition key_of (u : utp) : text * Z * Z := (u.(address_of), u.(recv_id)).

(** [microseconds]: the clock counts microseconds already. *)
Definition microseconds (clock : Z) : Z := Z.land clock TIMESTAMP_MASK.

(** [UtpSocket.send]: [packets_sent] has what the counter counts. *)
Definition socket_send (packet : bytes) : task utp unit :=
  u ← reads (fun u => u);
  when u.(transport_open) (change (set_packets_sent (u.(packets_sent) ++ [(packet, u.(address_of))]))).

(** [UtpSocket.forget] *)
Definition forget : task utp unit :=
  change (fun u => set_connections (filter (fun k => k <> key_of u) u.(connections)) u).

Definition send_packet (packet_type seq_nr : Z) (payload : bytes) : task utp bytes :=
  u ← reads (fun u => u);
  check (negb u.(closed) || (packet_type =? ST_RESET)%Z) ;;
  let connection_id := if (packet_type =? ST_SYN)%Z then u.(recv_id) else u.(send_id) in
  let window := Z.max 0 (RECEIVE_WINDOW - Z.of_nat (length u.(ubuffer))) in
  packet ← call (encode_utp_packet packet_type connection_id (microseconds u.(uclock)) u.(reply_micro) window
                   seq_nr u.(ack_nr) payload);
  socket_send packet ;;
  check (bool_decide (HEADER_SIZE <= length packet)) ;;
  mret packet.

(** [arm_resend] *)
Definition arm_resend : task utp unit :=
  u ← reads (fun u => u);
  check (negb (bool_decide (u.(unacked) = [])) || u.(closed)) ;;
  when (bool_decide (u.(resend_timer) = None) && negb u.(closed))
    (change (set_resend_timer (Some (u.(uclock) + RESEND_CHECK_SECONDS)%Z))).

(** [self.unacked\[self.seq_nr\] = \[packet, time.monotonic(), 0\]], and the
    sequence number moved on. *)
Definition await_ack (packet : bytes) : task utp unit :=
  change (fun u => set_unacked (dict_set u.(seq_nr) (Unacked packet u.(uclock) 0) u.(unacked)) u) ;;
  change (fun u => set_seq_nr (next_seq u.(seq_nr)) u).

Definition send_syn : task utp unit :=
  u ← reads (fun u => u);
  check (negb u.(connected_state)) ;;
  packet ← send_packet ST_SYN u.(seq_nr) [];
  await_ack packet ;;
  arm_resend ;;
  u ← reads (fun u => u);
  check (negb (bool_decide (u.(unacked) = []))).

(** [data\[start:start + MAX_PAYLOAD\]] for [start in range(0, len(data), MAX_PAYLOAD)] *)
Fixpoint payloads (turns : nat) (data : bytes) : list bytes :=
  match turns, data with
  | _, [] | O, _ => []
  | S turns, _ => take MAX_PAYLOAD data :: payloads turns (drop MAX_PAYLOAD data)
  end.

Fixpoint send_payloads (parts : list bytes) : task utp unit :=
  match parts with
  | [] => mret tt
  | part :: parts =>
      u ← reads (fun u => u);
      packet ← send_packet ST_DATA u.(seq_nr) part;
      await_ack packet ;;
      send_payloads parts
  end.

(** [UtpConnection.write] *)
Definition utp_write (data : bytes) : task utp unit :=
  check (negb (bool_decide (data = []))) ;;
  u ← reads (fun u => u);
  if u.(closed) then mret tt
  else
    send_payloads (payloads (length data) data) ;;
    arm_resend ;;
    u ← reads (fun u => u);
    check (negb (bool_decide (u.(unacked) = []))).

(** [UtpConnection.close] *)
Definition utp_close (send_reset : bool) : task utp unit :=
  u ← reads (fun u => u);
  if u.(closed) then mret tt
  else
    when (send_reset && u.(connected_state))
      (send_packet ST_STATE u.(seq_nr) [] ;; send_packet ST_RESET u.(seq_nr) [] ;; mret tt) ;;
    change (set_closed true) ;;
    change (set_resend_timer None) ;;
    forget ;;
    u ← reads (fun u => u);
    check u.(closed).

(** [self.connected.set_result(value)] unless it is done *)
Definition set_connected_result (value : bool) : task utp unit :=
  u ← reads (fun u => u);
  when (bool_decide (u.(connected) = None)) (change (set_connected (Some value))).

Definition fail_connection (reason : string) : task utp unit :=
  check (bool_decide (reason ∈ ["closed"; "timeout"; "connect_timeout"]%string)) ;;
  change (fun u => set_error (match u.(error) with Some e => Some e | None => Some reason end) u) ;;
  set_connected_result false ;;
  change (set_readable true) ;;
  utp_close false ;;
  u ← reads (fun u => u);
  check u.(closed).

(** ** Receiving *)

(** The keys of [unacked] that [sequence_after] puts behind the acknowledged
    number. *)
Fixpoint acked_keys (ack_nr : Z) (keys : list Z) : res (list Z) :=
  match keys with
  | [] => mret []
  | seq_nr :: keys =>
      after ← sequence_after seq_nr ack_nr;
      acked ← acked_keys ack_nr keys;
      mret (if (after : bool) then acked else seq_nr :: acked)
  end.

Definition acknowledge (ack_nr : Z) : task utp unit :=
  check ((0 <=? ack_nr) && (ack_nr <=? SEQUENCE_MASK))%Z ;;
  u ← reads (fun u => u);
  acked ← call (acked_keys ack_nr u.(unacked).*1);
  change (fun u => set_unacked (foldr dict_del u.(unacked) acked) u) ;;
  u ← reads (fun u => u);
  left ← call (acked_keys ack_nr u.(unacked).*1);
  check (bool_decide (left = [])).

Definition deliver (seq_nr : Z) (payload : bytes) : task utp unit :=
  u ← reads (fun u => u);
  check (seq_nr =? next_seq u.(ack_nr))%Z ;;
  change (set_ack_nr seq_nr) ;;
  when (negb (bool_decide (payload = [])))
    (change (fun u => set_ubuffer (u.(ubuffer) ++ payload) u) ;; change (set_received_any true)) ;;
  change (set_readable true) ;;
  u ← reads (fun u => u);
  check (u.(ack_nr) =? seq_nr)%Z.

(** The loop of [data_received]; every turn pops an entry of [out_of_order]. *)
Fixpoint deliver_following (turns : nat) : task utp unit :=
  u ← reads (fun u => u);
  let following := next_seq u.(ack_nr) in
  match u.(out_of_order) !! following with
  | None => mret tt
  | Some payload =>
      match turns with
      | O => throw Diverge
      | S turns =>
          change (fun u => set_out_of_order (delete following u.(out_of_order)) u) ;;
          deliver following payload ;;
          deliver_following turns
      end
  end.

Definition schedule_ack : task utp unit :=
  u ← reads (fun u => u);
  check u.(connected_state) ;;
  when (negb u.(ack_scheduled)) (change (set_ack_scheduled true)).

Definition data_received (seq_nr : Z) (payload : bytes) : task utp unit :=
  check ((0 <=? seq_nr) && (seq_nr <=? SEQUENCE_MASK))%Z ;;
  u ← reads (fun u => u);
  (if (seq_nr =? next_seq u.(ack_nr))%Z then
     deliver seq_nr payload ;; deliver_following (size u.(out_of_order))
   else
     after ← call (sequence_after seq_nr u.(ack_nr));
     when (after && bool_decide (size u.(out_of_order) < MAX_OUT_OF_ORDER))
       (change (set_out_of_order (<[seq_nr := payload]> u.(out_of_order))))) ;;
  schedule_ack ;;
  u ← reads (fun u => u);
  check (bool_decide (u.(out_of_order) !! next_seq u.(ack_nr) = None)).

Definition packet_received (p : utp_packet) : task utp unit :=
  u ← reads (fun u => u);
  if u.(closed) then mret tt
  else
    change (set_reply_micro (Z.land (microseconds u.(uclock) - p.(timestamp)) TIMESTAMP_MASK)) ;;
    if (p.(packet_type) =? ST_RESET)%Z then fail_connection "closed"
    else if negb u.(connected_state) then
      if negb (p.(packet_type) =? ST_STATE)%Z then mret tt
      else
        change (set_ack_nr (Z.land (p.(pkt_seq_nr) - 1) SEQUENCE_MASK)) ;;
        change (set_connected_state true) ;;
        acknowledge p.(pkt_ack_nr) ;;
        set_connected_result true
    else
      acknowledge p.(pkt_ack_nr) ;;
      (if (p.(packet_type) =? ST_DATA)%Z then data_received p.(pkt_seq_nr) p.(payload)
       else when (p.(packet_type) =? ST_FIN)%Z
              (change (set_eof_seq (Some p.(pkt_seq_nr))) ;; data_received p.(pkt_seq_nr) [])) ;;
      u ← reads (fun u => u);
      check u.(connected_state).

(** [send_ack] *)
Definition send_ack : task utp unit :=
  change (set_ack_scheduled false) ;;
  u ← reads (fun u => u);
  when (negb u.(closed)) (send_packet ST_STATE u.(seq_nr) [] ;; mret tt) ;;
  u ← reads (fun u => u);
  check (negb u.(ack_scheduled)).

(** The loop of [check_resend] over [unacked.values()]: whether it came to its
    end, or returned having failed the connection. *)
Fixpoint resend_entries (now : Z) (entries : list (Z * unacked_entry)) : task utp bool :=
  match entries with
  | [] => mret true
  | (seq_nr, entry) :: entries =>
      if (now - entry.(sent_at) <? INITIAL_RESEND_SECONDS * 2 ^ entry.(resends))%Z then resend_entries now entries
      else if (MAX_RESENDS <=? entry.(resends))%Z then
        u ← reads (fun u => u);
        fail_connection (if negb u.(connected_state) then "connect_timeout" else "timeout") ;;
        mret false
      else
        change (fun u => set_unacked (dict_set seq_nr (Unacked entry.(packet) now (entry.(resends) + 1)) u.(unacked)) u) ;;
        socket_send entry.(packet) ;;
        resend_entries now entries
  end.

Definition check_resend : task utp unit :=
  change (set_resend_timer None) ;;
  u ← reads (fun u => u);
  if u.(closed) then mret tt
  else
    finished ← resend_entries u.(uclock) u.(unacked);
    if negb finished then mret tt
    else
      u ← reads (fun u => u);
      when (negb (bool_decide (u.(unacked) = []))) arm_resend ;;
      u ← reads (fun u => u);
      check (negb u.(closed)).

(** [UtpSocket.datagram_received]: what is for another connection of the table
    does not reach this one. *)
Definition datagram_received (data : bytes) (from : address) : task utp unit :=
  match decode_utp_packet data with
  | None => mret tt
  | Some p =>
      u ← reads (fun u => u);
      when (bool_decide ((from, p.(connection_id)) ∈ u.(connections)) && bool_decide ((from, p.(connection_id)) = key_of u))
        (packet_received p)
  end.

(** ** The loop *)

(** What the loop runs next: the callback of a datagram or of the timer, or
    the timeout of the coroutine that waits. *)
Inductive loop_event : Type :=
  | Arrives (time : Z) (from : address) (data : bytes) (rest : list (Z * (address * bytes)))
  | ResendDue (time : Z)
  | TimeIsUp.

Definition next_event (deadline : Z) (u : utp) : loop_event :=
  let timer := match u.(resend_timer) with Some r => if (r <? deadline)%Z then Some r else None | None => None end in
  let otherwise := match timer with Some r => ResendDue r | None => TimeIsUp end in
  match u.(datagrams_due) with
  | (t, (from, data)) :: rest =>
      if ((t <? deadline) && match timer with Some r => t <=? r | None => true end)%Z
      then Arrives t from data rest else otherwise
  | [] => otherwise
  end.

(** A callback of the loop: what it raises goes to the loop's exception
    handler.  What it scheduled with [call_soon] runs in the next pass, before
    the coroutine that waits in [within] is back. *)
Definition callback (m : task utp unit) : task utp unit :=
  catch m (fun _ => mret tt) ;;
  u ← reads (fun u => u);
  when u.(ack_scheduled) (catch send_ack (fun _ => mret tt)).

(** How often the timer can go off before the deadline, when it is set again
    every time. *)
Definition firings (deadline clock : Z) (timer : option Z) : nat :=
  match timer with
  | Some r => if (Z.max r clock <? deadline)%Z
              then S (Z.to_nat ((deadline - 1 - Z.max r clock) / RESEND_CHECK_SECONDS)) else 0
  | None => 0
  end.

(** How many events there can be before the deadline. *)
Definition events_before (deadline : Z) (u : utp) : nat :=
  length u.(datagrams_due) + firings deadline u.(uclock) u.(resend_timer).

Definition handle_event (event : loop_event) : task utp unit :=
  u ← reads (fun u => u);
  match event with
  | Arrives t from data rest =>
      change (set_uclock (Z.max u.(uclock) t)) ;; change (set_datagrams_due rest) ;;
      callback (datagram_received data from)
  | ResendDue t => change (set_uclock (Z.max u.(uclock) t)) ;; callback check_resend
  | TimeIsUp => mret tt
  end.

(** The loop runs until [ready] or the deadline: whether it is [ready]. *)
Fixpoint run_loop (turns : nat) (ready : utp -> bool) (deadline : Z) : task utp bool :=
  u ← reads (fun u => u);
  if ready u then mret true
  else
    match next_event deadline u, turns with
    | TimeIsUp, _ => change (set_uclock (Z.max u.(uclock) deadline)) ;; mret false
    | _, O => throw Diverge
    | event, S turns => handle_event event ;; run_loop turns ready deadline
    end.

(** [within(..., timeout)] *)
Definition within (ready : utp -> bool) (timeout : Z) : task utp bool :=
  u ← reads (fun u => u);
  let deadline := (u.(uclock) + timeout)%Z in
  run_loop (events_before deadline u) ready deadline.

(** ** Reading *)

(** [self.error is not None or (self.eof_seq is not None and self.ack_nr == self.eof_seq)] *)
Definition ended (u : utp) : bool :=
  negb (bool_decide (u.(error) = None)) || bool_decide (u.(eof_seq) = Some u.(ack_nr)).

(** The loop of [read_exactly]: a turn that waits, and is woken, has seen an
    event of the loop. *)
Fixpoint fill_buffer (turns : nat) (length : nat) (deadline : Z) (closed_reason : string) : task utp unit :=
  u ← reads (fun u => u);
  if bool_decide (length <= Datatypes.length u.(ubuffer)) then mret tt
  else if ended u then
    throw (fetch_error (if bool_decide (u.(error) = Some "timeout") then "timeout"
                        else if negb u.(received_any) then closed_reason else "closed"))
  else
    let remaining := (deadline - u.(uclock))%Z in
    if (remaining <=? 0)%Z then throw (fetch_error "timeout")
    else
      match turns with
      | O => throw Diverge
      | S turns =>
          change (set_readable false) ;;
          woken ← within readable remaining;
          if (woken : bool) then fill_buffer turns length deadline closed_reason
          else throw (fetch_error "timeout")
      end.

(** [UtpConnection.read_exactly] *)
Definition utp_read_exactly (length : nat) (deadline : Z) (closed_reason : string) : task utp bytes :=
  check (bool_decide (0 < length)) ;;
  u ← reads (fun u => u);
  fill_buffer (S (events_before deadline u)) length deadline closed_reason ;;
  u ← reads (fun u => u);
  let result := take length u.(ubuffer) in
  change (set_ubuffer (drop length u.(ubuffer))) ;;
  check (bool_decide (Datatypes.length result = length)) ;;
  mret result.

#[export] Instance UtpStream : ByteStream utp := {|
  loop_time := uclock;
  read_exactly := utp_read_exactly;
  write := utp_write;
  close := utp_close true;
|}.

(** ** The socket *)

(** The loop of [UtpSocket.connect] over the ids in use. *)
Fixpoint free_id (turns : nat) (table : list (text * Z * Z)) (addr : address) (recv_id : Z) : res Z :=
  if bool_decide ((addr, recv_id) ∈ table) then
    match turns with
    | O => Raise Diverge
    | S turns => free_id turns table addr (next_seq recv_id)
    end
  else mret recv_id.

(** [UtpConnection(self, address, recv_id)] *)
Definition new_connection (addr : address) (recv_id : Z) (u : utp) : utp :=
  {| address_of := addr; recv_id := recv_id; send_id := next_seq recv_id; seq_nr := 1; ack_nr := 0;
     connected_state := false; closed := false; error := None; reply_micro := 0; ubuffer := [];
     received_any := false; out_of_order := ∅; eof_seq := None; unacked := []; connected := None;
     readable := false; ack_scheduled := false; resend_timer := None; connections := u.(connections);
     transport_open := u.(transport_open); packets_sent := u.(packets_sent); uclock := u.(uclock);
     datagrams_due := u.(datagrams_due) |}.

(** [UtpSocket.connect]; [random] is what [os.urandom(2)] draws. *)
Definition connect_utp (random : bytes) (addr : address) (timeout : Z) : task utp unit :=
  check (0 <? timeout)%Z ;;
  u ← reads (fun u => u);
  id ← call (free_id (length u.(connections)) u.(connections) addr (be_decode random));
  check ((0 <=? id) && (id <=? SEQUENCE_MASK))%Z ;;
  change (new_connection addr id) ;;
  change (fun u => set_connections (u.(connections) ++ [key_of u]) u) ;;
  send_syn ;;
  done ← within (fun u => negb (bool_decide (u.(connected) = None))) timeout;
  if negb done then utp_close false ;; throw (fetch_error "connect_timeout")
  else
    u ← reads (fun u => u);
    if bool_decide (u.(connected) = Some true) then check u.(connected_state)
    else
      throw (fetch_error match u.(error) with
                         | Some e => if bool_decide (e ∈ ["closed"; "connect_timeout"]%string) then e else "connect"
                         | None => "connect"
                         end).

(** [UtpSocket.close], of a socket that has had no other connection. *)
Definition socket_close : task utp unit :=
  u ← reads (fun u => u);
  when (bool_decide (key_of u ∈ u.(connections))) (utp_close true) ;;
  change (set_transport_open false) ;;
  u ← reads (fun u => u);
  check (bool_decide (u.(connections) = [])).

Section fetch.
(** [hashlib.sha1(data).digest()] *)
Variable sha1 : bytes -> bytes.
(** The recursion limit left to the bencode decoder. *)
Variable depth : nat.

(** [fetch_metadata_utp]: [owned] when the call opens a socket for itself. *)
Definition fetch_metadata_utp (fuel : nat) (owned : bool) (random2 random info_hash : bytes) (addr : address)
    (timeouts : FetchTimeouts) : task utp bytes :=
  check (is_node_id info_hash) ;;
  time ← now;
  let session_deadline := (time + timeouts.(session))%Z in
  metadata ← finally
    (connect_utp random2 addr timeouts.(utp_connect) ;;
     finally (run_session depth fuel random info_hash timeouts session_deadline true) close)
    (when owned socket_close);
  call (verify_metadata sha1 info_hash metadata) ;;
  check (negb (bool_decide (metadata = []))) ;;
  mret metadata.
End fetch.
