(* ===== verification/UtpSafety.v ===== *)
(** What a uTP connection keeps: its invariant, that no callback of it fails
    an assertion, and that it keeps the promises of a byte stream. *)
From S2P Require Import Prelude PyDict Bencode NodeIdentity AddressText Krpc PeerWire Tasks MetadataSession.
From S2P Require Import MetadataSessionSafety Utp.

(** ** Sequence numbers *)

Lemma next_seq_mod n : next_seq n = ((n + 1) mod 65536)%Z.
Proof. unfold next_seq, SEQUENCE_MASK. change 0xFFFF%Z with (Z.ones 16). by rewrite Z.land_ones. Qed.

Lemma mask_range n : (0 <= Z.land n SEQUENCE_MASK <= SEQUENCE_MASK)%Z.
Proof.
  unfold SEQUENCE_MASK. change 0xFFFF%Z with (Z.ones 16). rewrite Z.land_ones by lia.
  change (Z.ones 16) with 65535%Z. pose proof (Z.mod_pos_bound n (2 ^ 16) ltac:(lia)). lia.
Qed.

Definition in_16 (n : Z) : Prop := (0 <= n <= SEQUENCE_MASK)%Z.

Lemma next_seq_range n : in_16 (next_seq n).
Proof. apply mask_range. Qed.

Lemma sequence_after_Ok later earlier :
  in_16 later -> in_16 earlier -> sequence_after later earlier = Ok (is_after later earlier).
Proof.
  unfold in_16. intros ??. unfold sequence_after.
  replace ((0 <=? later) && (later <=? SEQUENCE_MASK) && (0 <=? earlier) && (earlier <=? SEQUENCE_MASK))%Z
    with true by lia. done.
Qed.

(** ** Packets *)

Lemma pack_field_Ok size n : (0 <= n < 256 ^ Z.of_nat size)%Z -> pack_field size n = Ok (be_encode size n).
Proof. intros Hn. unfold pack_field. by replace ((0 <=? n) && (n <? 256 ^ Z.of_nat size))%Z with true by lia. Qed.

Lemma timestamp_mask_range n : (0 <= Z.land n TIMESTAMP_MASK < 2 ^ 32)%Z.
Proof.
  unfold TIMESTAMP_MASK. change 0xFFFFFFFF%Z with (Z.ones 32). rewrite Z.land_ones by lia.
  by apply Z.mod_pos_bound.
Qed.

(** What [encode_utp_packet] builds, field by field. *)
Definition packet_bytes (packet_type connection_id timestamp timestamp_difference window seq_nr ack_nr : Z)
    (payload : bytes) : bytes :=
  be_encode 1 (Z.lor (Z.shiftl packet_type 4) UTP_VERSION) ++ be_encode 1 0 ++ be_encode 2 connection_id ++
  be_encode 4 (Z.land timestamp TIMESTAMP_MASK) ++ be_encode 4 (Z.land timestamp_difference TIMESTAMP_MASK) ++
  be_encode 4 window ++ be_encode 2 (Z.land seq_nr SEQUENCE_MASK) ++ be_encode 2 (Z.land ack_nr SEQUENCE_MASK) ++
  payload.

Lemma length_packet_bytes ty id t d w s a payload :
  length (packet_bytes ty id t d w s a payload) = HEADER_SIZE + length payload.
Proof. unfold packet_bytes. rewrite !length_app, !length_be_encode. unfold HEADER_SIZE. lia. Qed.

Definition packet_type_ok (ty : Z) : Prop := (ST_DATA <= ty <= ST_SYN)%Z.

Lemma first_byte_range ty : packet_type_ok ty -> (0 <= Z.lor (Z.shiftl ty 4) UTP_VERSION < 256)%Z.
Proof.
  unfold packet_type_ok, ST_DATA, ST_SYN. intros Ht.
  assert (ty = 0 \/ ty = 1 \/ ty = 2 \/ ty = 3 \/ ty = 4)%Z as [->|[->|[->|[->| ->]]]] by lia; vm_compute; split; congruence.
Qed.

Lemma encode_utp_packet_Ok ty id t d w s a payload :
  packet_type_ok ty -> in_16 id -> (0 <= w < 2 ^ 32)%Z ->
  encode_utp_packet ty id t d w s a payload = Ok (packet_bytes ty id t d w s a payload).
Proof.
  unfold packet_type_ok, in_16. intros Ht Hi Hw. unfold encode_utp_packet.
  replace ((ST_DATA <=? ty) && (ty <=? ST_SYN) && (0 <=? id) && (id <=? SEQUENCE_MASK))%Z with true by lia.
  cbn [assert_ mbind res_bind sequence].
  pose proof (mask_range s). pose proof (mask_range a). pose proof (timestamp_mask_range t).
  pose proof (timestamp_mask_range d). pose proof (first_byte_range ty Ht). unfold SEQUENCE_MASK in *.
  rewrite !pack_field_Ok by (cbn -[Z.land Z.lor]; lia).
  cbn [assert_ mbind res_bind mret res_ret]. rewrite bool_decide_eq_true_2.
  - cbn [assert_ mbind res_bind mret res_ret concat]. rewrite app_nil_r. unfold packet_bytes. by rewrite <-!app_assoc.
  - rewrite length_app. f_equal.
Qed.

(** ** The invariant *)

Definition key_range (entry : Z * unacked_entry) : Prop := in_16 entry.1.

Definition CONNECTION_ERRORS : list string := ["closed"; "timeout"; "connect_timeout"]%string.

Record utp_inv (u : utp) : Prop := {
  inv_recv : in_16 u.(recv_id);
  inv_send : in_16 u.(send_id);
  inv_seq : in_16 u.(seq_nr);
  inv_ack : in_16 u.(ack_nr);
  (** what is next in order is never kept waiting *)
  inv_next : u.(out_of_order) !! next_seq u.(ack_nr) = None;
  inv_unconnected : u.(connected_state) = false -> u.(out_of_order) = ∅;
  inv_unacked : Forall key_range u.(unacked);
  inv_connected : u.(connected) = Some true -> u.(connected_state) = true;
  inv_failed : u.(connected) = Some false -> u.(closed) = true;
  inv_scheduled : u.(ack_scheduled) = true -> u.(connected_state) = true;
  (** a closed connection has no timer and is forgotten *)
  inv_closed : u.(closed) = true -> u.(resend_timer) = None /\ key_of u ∉ u.(connections);
  inv_error : match u.(error) with Some e => e ∈ CONNECTION_ERRORS /\ u.(closed) = true | None => True end;
}.

(** The keys of the table that are not this connection's. *)
Definition others (u : utp) : list (text * Z * Z) := filter (fun k => k <> key_of u) u.(connections).

Definition kept (m : gmap Z bytes) : nat := map_fold (fun _ (d : bytes) n => length d + n) 0 m.
Definition datagram_bytes (d : Z * (address * bytes)) : nat := length d.2.2.
Definition incoming_bytes (l : list (Z * (address * bytes))) : nat := list_sum (datagram_bytes <$> l).

(** The bytes that are still to be read: those in the buffers and at most those
    of the datagrams. *)
Definition utp_unread (u : utp) : nat :=
  length u.(ubuffer) + kept u.(out_of_order) + incoming_bytes u.(datagrams_due).

Lemma kept_insert m k d : m !! k = None -> kept (<[k := d]> m) = length d + kept m.
Proof. intros Hk. unfold kept. rewrite map_fold_insert_L; [done|intros; lia|done]. Qed.

Lemma kept_delete m k d : m !! k = Some d -> kept m = length d + kept (delete k m).
Proof. intros Hk. unfold kept. rewrite (map_fold_delete_L _ _ k d m); [done|intros; lia|done]. Qed.

Lemma kept_insert_le m k d : kept (<[k := d]> m) <= length d + kept m.
Proof.
  destruct (m !! k) as [d'|] eqn:Hk; [|by rewrite kept_insert].
  rewrite <-insert_delete_eq, kept_insert by apply lookup_delete_eq. rewrite (kept_delete m k d') by done. lia.
Qed.

Lemma incoming_bytes_cons d l : incoming_bytes (d :: l) = datagram_bytes d + incoming_bytes l.
Proof. done. Qed.

(** What a callback, or an operation of the session, leaves alone: whose
    connection it is, the rest of the table, the clock, what is to come, and
    the socket; at most [n] bytes more can be read. *)
Record still (n : nat) (u u' : utp) : Prop := {
  still_inv : utp_inv u';
  still_key : key_of u' = key_of u;
  still_others : others u' = others u;
  still_unread : utp_unread u' <= utp_unread u + n;
  still_clock : u'.(uclock) = u.(uclock);
  still_due : u'.(datagrams_due) = u.(datagrams_due);
  still_open : u'.(transport_open) = u.(transport_open);
}.

Lemma still_refl u : utp_inv u -> still 0 u u.
Proof. split; try done. lia. Qed.

Lemma still_trans n m u1 u2 u3 : still n u1 u2 -> still m u2 u3 -> still (n + m) u1 u3.
Proof. intros [_ K1 O1 R1 C1 D1 T1] [I2 K2 O2 R2 C2 D2 T2]. split; first [done|congruence|lia]. Qed.

Definition sent (ps : list (bytes * address)) (u : utp) : utp := set_packets_sent ps u.

Lemma socket_send_eq packet u : exists ps, socket_send packet u = (Ok tt, sent ps u).
Proof.
  unfold socket_send, when, mbind, task_bind, reads, change. destruct (transport_open u); [by eexists|].
  exists (packets_sent u). by destruct u.
Qed.

Lemma window_range u : (0 <= Z.max 0 (RECEIVE_WINDOW - Z.of_nat (length (ubuffer u))) < 2 ^ 32)%Z.
Proof. unfold RECEIVE_WINDOW. change (Z.shiftl 1 20) with 1048576%Z. lia. Qed.

(** A packet is sent, and nothing else happens. *)
Lemma send_packet_eq ty seq payload u :
  in_16 u.(recv_id) -> in_16 u.(send_id) -> packet_type_ok ty -> closed u = false \/ ty = ST_RESET ->
  exists packet ps, send_packet ty seq payload u = (Ok packet, sent ps u).
Proof.
  intros Hr Hs Ht Hc. unfold send_packet, check, call, mbind, task_bind, reads.
  replace (negb (closed u) || (ty =? ST_RESET)%Z) with true by (destruct Hc as [->| ->]; by rewrite ?orb_true_r).
  cbn [assert_]. rewrite encode_utp_packet_Ok; [|done|by destruct (_ =? _)%Z|apply window_range].
  set (p := packet_bytes _ _ _ _ _ _ _ _). destruct (socket_send_eq p u) as [ps ->].
  rewrite bool_decide_eq_true_2 by (unfold p; rewrite length_packet_bytes; lia). by eexists _, ps.
Qed.

Lemma inv_sent ps u : utp_inv u -> utp_inv (sent ps u).
Proof. by intros []. Qed.

Lemma still_sent ps u : utp_inv u -> still 0 u (sent ps u).
Proof. intros H. split; try done; [by apply inv_sent|by rewrite Nat.add_0_r]. Qed.

(** ** Closing *)

Definition forgotten (u : utp) : utp :=
  set_connections (others u) (set_resend_timer None (set_closed true u)).

Lemma not_in_others u : key_of u ∉ others u.
Proof. unfold others. rewrite list_elem_of_filter. by intros []. Qed.

Lemma others_forgotten u : others (forgotten u) = others u.
Proof. unfold others at 1, forgotten, key_of. cbn. unfold others, key_of. rewrite list_filter_filter. apply list_filter_iff. tauto. Qed.

Lemma utp_inv_forgotten u :
  utp_inv u -> utp_inv (forgotten u).
Proof.
  intros [H1 H2 H3 H4 H5 H6 H7 H8 H8' H9 H10 H11]. split; try done.
  - intros _. split; [done|]. exact (not_in_others u).
  - cbn. destruct (error u); [|done]. split; [by destruct H11|done].
Qed.

Lemma still_forgotten u : utp_inv u -> still 0 u (forgotten u).
Proof. intros H. split; try done; [by apply utp_inv_forgotten|apply others_forgotten|by rewrite Nat.add_0_r]. Qed.

(** [close] sends, when asked, a last acknowledgement and a reset. *)
Lemma utp_close_eq send_reset u :
  in_16 u.(recv_id) -> in_16 u.(send_id) -> closed u = false ->
  exists ps, utp_close send_reset u = (Ok tt, forgotten (sent ps u)).
Proof.
  intros Hr Hs Hc. unfold utp_close, mbind, task_bind, reads, check, call, change, forget. rewrite Hc.
  assert (exists ps, when (send_reset && connected_state u)
      (send_packet ST_STATE (seq_nr u) [] ;; send_packet ST_RESET (seq_nr u) [] ;; mret tt) u = (Ok tt, sent ps u))
    as [ps Hwhen].
  { unfold when. destruct (_ && _); [|exists (packets_sent u); by destruct u].
    destruct (send_packet_eq ST_STATE (seq_nr u) [] u) as (p1 & ps1 & H1); [done|done| |by left|].
    { unfold packet_type_ok, ST_STATE, ST_DATA, ST_SYN. lia. }
    destruct (send_packet_eq ST_RESET (seq_nr u) [] (sent ps1 u)) as (p2 & ps2 & H2); [done|done| |by right|].
    { unfold packet_type_ok, ST_RESET, ST_DATA, ST_SYN. lia. }
    exists ps2. unfold mbind, task_bind. by rewrite H1, H2. }
  unfold mbind, task_bind in Hwhen. rewrite Hwhen. exists ps. done.
Qed.

Lemma tri_close send_reset u :
  utp_inv u ->
  tri (utp_close send_reset) (fun _ u' => still 0 u u' /\ u'.(closed) = true) (fun _ _ => False) u.
Proof.
  intros Hu. destruct (closed u) eqn:Hc.
  - unfold tri, utp_close, mbind, task_bind, reads. rewrite Hc. split; [by apply still_refl|done].
  - destruct (utp_close_eq send_reset u) as [ps Heq]; [apply Hu|apply Hu|done|]. unfold tri. rewrite Heq.
    split; [|done]. apply (still_trans 0 0 u (sent ps u)); [by apply still_sent|apply still_forgotten]. by apply inv_sent.
Qed.

(** [fail] records the first error, wakes whoever waits, and closes. *)
Lemma fail_connection_eq reason u :
  utp_inv u -> closed u = false -> reason ∈ CONNECTION_ERRORS ->
  exists ps, fail_connection reason u =
    (Ok tt, forgotten (sent ps (set_readable true (set_connected (Some (default false (connected u)))
                                  (set_error (Some reason) u))))).
Proof.
  intros Hu Hc Hr. unfold fail_connection, mbind, task_bind, reads, check, call, change.
  assert (error u = None) as He.
  { pose proof (inv_error u Hu) as He. destruct (error u); [|done]. destruct He. congruence. }
  rewrite bool_decide_eq_true_2 by done. cbn [assert_]. rewrite He. unfold set_connected_result, when, mbind, task_bind, reads, change.
  set (u1 := set_error (Some reason) u).
  assert (forall b, exists ps, utp_close false (set_readable true (set_connected b u1)) =
    (Ok tt, forgotten (sent ps (set_readable true (set_connected b u1))))) as Hclose.
  { intros b. apply utp_close_eq; [apply Hu|apply Hu|done]. }
  change (connected u1) with (connected u). destruct (connected u) as [b|] eqn:Hb; cbn [default id].
  - rewrite bool_decide_eq_false_2 by done. destruct (Hclose (Some b)) as [ps Hps]. exists ps.
    assert (set_connected (Some b) u1 = u1) as Hsame by (rewrite <-Hb; by destruct u).
    rewrite Hsame in *. cbn [mret task_ret]. rewrite Hps. done.
  - rewrite bool_decide_eq_true_2 by done. destruct (Hclose (Some false)) as [ps Hps]. exists ps. by rewrite Hps.
Qed.

Lemma tri_fail reason u :
  utp_inv u -> closed u = false -> reason ∈ CONNECTION_ERRORS ->
  tri (fail_connection reason) (fun _ u' => still 0 u u' /\ u'.(resend_timer) = None /\ u'.(closed) = true)
    (fun _ _ => False) u.
Proof.
  intros Hu Hc Hr. destruct (fail_connection_eq reason u Hu Hc Hr) as [ps Heq]. unfold tri. rewrite Heq.
  split; [|done]. destruct Hu. set (u1 := sent _ _). split; try done; [|exact (others_forgotten u1)|by rewrite Nat.add_0_r].
  split; try done.
  - cbn. destruct (connected u) as [[]|]; cbn; auto; done.
  - intros _. split; [done|]. exact (not_in_others u1).
Qed.

(** ** Receiving *)

Lemma acked_keys_eq ack keys :
  in_16 ack -> Forall in_16 keys -> acked_keys ack keys = Ok (filter (fun k => is_after k ack = false) keys).
Proof.
  intros Ha. induction 1 as [|k keys Hk Hkeys IH]; [done|]. cbn [acked_keys].
  rewrite sequence_after_Ok, IH by done. cbn [mbind res_bind mret res_ret].
  destruct (is_after k ack) eqn:Hk'; [by rewrite filter_cons_False by congruence|by rewrite filter_cons_True].
Qed.

Lemma foldr_dict_del {V} (d : list (Z * V)) keys :
  foldr dict_del d keys = filter (fun kv => kv.1 ∉ keys) d.
Proof.
  induction keys as [|k keys IH]; cbn [foldr].
  - rewrite filter_all; [done|]. intros ??. apply not_elem_of_nil.
  - rewrite IH. unfold dict_del. rewrite list_filter_filter. apply list_filter_iff.
    intros kv. rewrite not_elem_of_cons. done.
Qed.

Lemma filter_ext_elem {A} (P Q : A -> Prop) `{!forall x, Decision (P x), !forall x, Decision (Q x)} (l : list A) :
  (forall x, x ∈ l -> P x <-> Q x) -> filter P l = filter Q l.
Proof.
  intros Hiff. induction l as [|x l IH]; [done|]. rewrite !filter_cons, IH by (intros; apply Hiff; set_solver).
  pose proof (Hiff x (list_elem_of_here _ _)). by repeat case_decide; intuition.
Qed.

(** What stays unacknowledged is what comes after the acknowledged number. *)
Definition unacked_after (ack : Z) (l : list (Z * unacked_entry)) : list (Z * unacked_entry) :=
  filter (fun kv => is_after kv.1 ack = true) l.

Lemma acknowledge_eq ack u :
  in_16 ack -> Forall key_range u.(unacked) ->
  acknowledge ack u = (Ok tt, set_unacked (unacked_after ack u.(unacked)) u).
Proof.
  intros Ha Hu. unfold acknowledge, mbind, task_bind, reads, check, call, change.
  replace ((0 <=? ack) && (ack <=? SEQUENCE_MASK))%Z with true by (unfold in_16 in Ha; lia). cbn [assert_].
  assert (Forall in_16 (unacked u).*1) as Hkeys by by apply Forall_fmap.
  rewrite acked_keys_eq by done. cbn [unacked set_unacked].
  assert (foldr dict_del (unacked u) (filter (fun k => is_after k ack = false) (unacked u).*1) = unacked_after ack (unacked u)) as ->.
  { rewrite foldr_dict_del. apply filter_ext_elem. intros [k e] Hin. rewrite list_elem_of_filter.
    assert (k ∈ (unacked u).*1) by (apply list_elem_of_fmap; by exists (k, e)).
    cbn. destruct (is_after k ack); intuition congruence. }
  assert (Forall in_16 (unacked_after ack (unacked u)).*1) as Hafter.
  { apply Forall_fmap, Forall_forall. intros kv [_ Hin]%list_elem_of_filter.
    by apply (Forall_forall key_range (unacked u)). }
  rewrite acked_keys_eq by done. rewrite bool_decide_eq_true_2; [done|].
  apply filter_none. intros k (kv & -> & Hkv)%list_elem_of_fmap. apply list_elem_of_filter in Hkv as [Hkv _]. congruence.
Qed.

(** ** Receiving data *)

(** A data packet's place in [out_of_order], or what is delivered of it. *)
Definition delivered (seq : Z) (data : bytes) (u : utp) : utp :=
  set_readable true (let u := set_ack_nr seq u in
    if bool_decide (data = []) then u else set_received_any true (set_ubuffer (u.(ubuffer) ++ data) u)).

Lemma deliver_eq data u :
  deliver (next_seq u.(ack_nr)) data u = (Ok tt, delivered (next_seq u.(ack_nr)) data u).
Proof.
  unfold deliver, mbind, task_bind, reads, check, call, change, when, delivered.
  rewrite Z.eqb_refl. cbn [assert_]. destruct (bool_decide (data = [])); cbn; by rewrite Z.eqb_refl.
Qed.

(** What reordering never touches. *)
Definition unordered (u : utp) :=
  (key_of u, (send_id u, seq_nr u, connected_state u, (closed u, error u, unacked u, connected u)),
   (resend_timer u, connections u, transport_open u, (uclock u, datagrams_due u, eof_seq u))).

Lemma unordered_delivered seq data u : unordered (delivered seq data u) = unordered u.
Proof. unfold delivered. by case_bool_decide. Qed.

Lemma out_of_order_delivered seq data u : out_of_order (delivered seq data u) = out_of_order u.
Proof. unfold delivered. by case_bool_decide. Qed.

Lemma ack_nr_delivered seq data u : ack_nr (delivered seq data u) = seq.
Proof. unfold delivered. by case_bool_decide. Qed.

Lemma ubuffer_delivered seq data u : ubuffer (delivered seq data u) = ubuffer u ++ data.
Proof. unfold delivered. case_bool_decide as Hd; [|done]. cbn. by rewrite Hd, app_nil_r. Qed.

Lemma unread_delivered seq data u : utp_unread (delivered seq data u) = utp_unread u + length data.
Proof.
  unfold utp_unread. rewrite ubuffer_delivered, out_of_order_delivered, length_app.
  assert (datagrams_due (delivered seq data u) = datagrams_due u) as -> by (unfold delivered; by case_bool_decide). lia.
Qed.

(** The loop delivers all that follows in order: it comes to an end, at a
    number that is not kept, having delivered what it has removed. *)
Lemma tri_deliver_following (I : utp -> Prop) turns u :
  (forall v data, I v -> out_of_order v !! next_seq (ack_nr v) = Some data ->
     I (delivered (next_seq (ack_nr v)) data (set_out_of_order (delete (next_seq (ack_nr v)) (out_of_order v)) v))) ->
  I u -> size (out_of_order u) <= turns ->
  tri (deliver_following turns) (fun _ u' => I u' /\ out_of_order u' !! next_seq (ack_nr u') = None) (fun _ _ => False) u.
Proof.
  intros Hstep. revert u. induction turns as [|turns IH]; intros u Hu Hsize; cbn [deliver_following];
    apply tri_bind, tri_reads; cbv zeta; destruct (out_of_order u !! next_seq (ack_nr u)) as [data|] eqn:Hd; try done.
  - apply tri_throw. assert (out_of_order u = ∅) as Hem by (apply map_size_empty_inv; lia). by rewrite Hem in Hd.
  - apply tri_bind, tri_change. apply tri_bind.
    set (v := set_out_of_order _ u). change (next_seq (ack_nr u)) with (next_seq (ack_nr v)) at 1.
    unfold tri at 1. rewrite deliver_eq. apply IH; [exact (Hstep u data Hu Hd)|].
    rewrite out_of_order_delivered. cbn. rewrite map_size_delete_Some by by rewrite Hd. lia.
Qed.

(** [data_received]: what is in order is delivered with all that follows it,
    what is ahead is kept as long as there is room, what is old is dropped. *)
Lemma tri_data_received (I : utp -> Prop) seq data u :
  in_16 seq -> in_16 (ack_nr u) -> out_of_order u !! next_seq (ack_nr u) = None ->
  (forall v, I v -> connected_state v = true) -> (forall v, I v -> I (set_ack_scheduled true v)) ->
  (forall v d, I v -> out_of_order v !! next_seq (ack_nr v) = Some d ->
     I (delivered (next_seq (ack_nr v)) d (set_out_of_order (delete (next_seq (ack_nr v)) (out_of_order v)) v))) ->
  (seq = next_seq (ack_nr u) -> I (delivered seq data u)) ->
  (seq <> next_seq (ack_nr u) -> is_after seq (ack_nr u) = true -> size (out_of_order u) < MAX_OUT_OF_ORDER ->
     I (set_out_of_order (<[seq := data]> (out_of_order u)) u)) ->
  (seq <> next_seq (ack_nr u) -> is_after seq (ack_nr u) = false \/ MAX_OUT_OF_ORDER <= size (out_of_order u) -> I u) ->
  tri (data_received seq data) (fun _ u' => I u' /\ out_of_order u' !! next_seq (ack_nr u') = None) (fun _ _ => False) u.
Proof.
  intros Hseq Hack Hnext Hconn Hsched Hloop Hin Hahead Hold. unfold data_received.
  apply tri_bind, tri_check; [unfold in_16 in *; lia|]. apply tri_bind, tri_reads, tri_bind.
  apply (tri_mono _ (fun _ u' => I u' /\ out_of_order u' !! next_seq (ack_nr u') = None) _ (fun _ _ => False)); [| |done].
  - destruct (Z.eqb_spec seq (next_seq (ack_nr u))) as [->|Hne].
    + apply tri_bind. unfold tri at 1. rewrite deliver_eq. apply tri_deliver_following; [done|by apply Hin|].
      by rewrite out_of_order_delivered.
    + apply tri_bind. eapply tri_call_Ok; [by apply sequence_after_Ok|].
      destruct (is_after seq (ack_nr u)) eqn:Ha; cbn [andb when]; [|apply tri_ret; auto].
      case_bool_decide as Hsize; [|apply tri_ret; split; [apply Hold; [done|right; lia]|done]].
      apply tri_change. split; [by apply Hahead|]. cbn. by rewrite lookup_insert_ne.
  - intros _ v [HI Hv]. apply tri_bind. unfold schedule_ack. apply tri_bind, tri_reads, tri_bind, tri_check; [by apply Hconn|].
    apply (tri_mono _ (fun _ u' => I u' /\ out_of_order u' !! next_seq (ack_nr u') = None) _ (fun _ _ => False)); [| |done].
    + unfold when. destruct (negb _); [|by apply tri_ret]. apply tri_change. auto.
    + intros _ w [Hw1 Hw2]. apply tri_bind, tri_reads, tri_check; [by apply bool_decide_eq_true_2|done].
Qed.

(** The invariant while the entries of [out_of_order] that follow are
    delivered; [n] bytes have come in. *)
Record reordering (u : utp) (n : nat) (v : utp) : Prop := {
  reo_same : unordered v = unordered u;
  reo_ack : in_16 v.(ack_nr);
  reo_unread : utp_unread v <= utp_unread u + n;
}.

Lemma reordering_inv u n v :
  utp_inv u -> connected_state u = true -> reordering u n v -> out_of_order v !! next_seq (ack_nr v) = None -> utp_inv v.
Proof.
  intros [] Hc [Hsame Hack _] Hnext. destruct u, v. unfold unordered, key_of in *. cbn in *. simplify_eq.
  by split; try congruence.
Qed.

Lemma reordering_still u n v :
  reordering u n v -> utp_inv v ->
  still n u v /\ resend_timer v = resend_timer u /\ connected_state v = connected_state u.
Proof.
  intros [Hsame _ Hun] Hv. destruct u, v. unfold unordered, key_of in *. cbn in *. simplify_eq. by split.
Qed.

Lemma tri_data_received_safe seq data u :
  utp_inv u -> connected_state u = true -> in_16 seq ->
  tri (data_received seq data) (fun _ u' => still (length data) u u' /\ resend_timer u' = resend_timer u /\ u'.(connected_state) = true) (fun _ _ => False) u.
Proof.
  intros Hu Hc Hseq. eapply tri_mono; [apply (tri_data_received (reordering u (length data))); try done| |done].
  - apply Hu.
  - apply Hu.
  - intros v [Hv _ _]. destruct u, v. unfold unordered in Hv. cbn in *. by simplify_eq.
  - intros v [? ? ?]. by split.
  - intros v d [Hsame Hack Hun] Hd. split.
    + by rewrite unordered_delivered.
    + rewrite ack_nr_delivered. apply next_seq_range.
    + rewrite unread_delivered. unfold utp_unread in *. rewrite (kept_delete _ _ _ Hd) in Hun.
      cbn [ubuffer out_of_order datagrams_due set_out_of_order]. lia.
  - intros ->. split; [by rewrite unordered_delivered|rewrite ack_nr_delivered; apply next_seq_range|by rewrite unread_delivered].
  - intros _ _ _. split; [done|apply Hu|]. unfold utp_unread. cbn [ubuffer out_of_order datagrams_due set_out_of_order].
    pose proof (kept_insert_le (out_of_order u) seq data). lia.
  - intros _ _. split; [done|apply Hu|lia].
  - intros _ v [Hv Hnext]. pose proof (reordering_inv _ _ _ Hu Hc Hv Hnext) as Hinv.
    destruct (reordering_still _ _ _ Hv Hinv) as (? & ? & ?). split; [done|]. split; congruence.
Qed.

(** The timer is not set. *)
Definition unarmed (u u' : utp) : Prop := u'.(resend_timer) = u.(resend_timer) \/ u'.(resend_timer) = None.

Lemma still_le n m u u' : n <= m -> still n u u' -> still m u u'.
Proof. intros Hnm []. split; try done. lia. Qed.

Lemma still_set_reply n u : utp_inv u -> still 0 u (set_reply_micro n u).
Proof. intros []. split; try done; by rewrite Nat.add_0_r. Qed.

Lemma still_unacked_after ack u : utp_inv u -> still 0 u (set_unacked (unacked_after ack (unacked u)) u).
Proof.
  intros []. split; try done; [|by rewrite Nat.add_0_r]. split; try done. cbn.
  apply Forall_forall. intros kv [_ Hin]%list_elem_of_filter. by apply (Forall_forall key_range (unacked u)).
Qed.

Lemma still_set_eof n u : utp_inv u -> still 0 u (set_eof_seq n u).
Proof. intros []. split; try done; by rewrite Nat.add_0_r. Qed.

(** The connection is established: what the peer will send first is known. *)
Lemma still_established seq u :
  utp_inv u -> connected_state u = false -> in_16 seq -> still 0 u (set_connected_state true (set_ack_nr seq u)).
Proof.
  intros [] Hc Hs. split; try done; [|by rewrite Nat.add_0_r]. split; try done. cbn.
  by rewrite inv_unconnected0.
Qed.

Lemma tri_set_connected_result u :
  utp_inv u -> connected_state u = true ->
  tri (set_connected_result true) (fun _ u' => still 0 u u' /\ resend_timer u' = resend_timer u) (fun _ _ => False) u.
Proof.
  intros Hu Hc. unfold set_connected_result. apply tri_bind, tri_reads. unfold when.
  destruct (bool_decide _); [|apply tri_ret; split; [by apply still_refl|done]].
  apply tri_change. destruct Hu. split; [|done]. split; try done; by rewrite Nat.add_0_r.
Qed.

Lemma tri_packet_received p u :
  utp_inv u -> in_16 p.(pkt_seq_nr) -> in_16 p.(pkt_ack_nr) ->
  tri (packet_received p) (fun _ u' => still (length p.(payload)) u u' /\ unarmed u u') (fun _ _ => False) u.
Proof.
  intros Hu Hseq Hack. unfold packet_received. apply tri_bind, tri_reads. destruct (closed u) eqn:Hcl.
  { apply tri_ret. split; [|by left]. eapply still_le; [|by apply still_refl]. lia. }
  apply tri_bind, tri_change. set (v := set_reply_micro _ u).
  assert (closed v = closed u) as Hcl' by done. assert (connected_state v = connected_state u) as Hcs by done.
  assert (still 0 u v) as Huv by by apply still_set_reply. pose proof (still_inv _ _ _ Huv) as Hv.
  assert (forall n w, n <= length (payload p) -> still n v w -> unarmed v w -> still (length (payload p)) u w /\ unarmed u w) as Hthen.
  { intros n w Hn Hw ?. split; [|done]. eapply still_le; [exact Hn|]. exact (still_trans 0 n _ _ _ Huv Hw). }
  clearbody v. rewrite <-Hcl' in Hcl. rewrite <-Hcs. clear Hcl' Hcs.
  case_match.
  { eapply tri_mono; [apply tri_fail; [done|done|known]| |done].
    intros _ w (HH1 & HH2 & _). eapply Hthen; [|exact HH1|by right]. lia. }
  destruct (connected_state v) eqn:Hc; cbn [negb].
  - apply tri_bind. unfold tri at 1. rewrite acknowledge_eq by apply Hv || done.
    pose proof (still_unacked_after (pkt_ack_nr p) v Hv) as Hva. set (w := set_unacked _ v) in *.
    apply tri_bind. apply (tri_mono _ (fun _ u' => still (length (payload p)) v u' /\ unarmed v u' /\ connected_state u' = true)
      _ (fun _ _ => False)); [| |done].
    + case_match; [|unfold when; case_match].
      * eapply tri_mono; [apply tri_data_received_safe; [apply Hva|done|done]| |done].
        intros _ x (HH1 & HH2 & HH3). split; [exact (still_trans 0 _ _ _ _ Hva HH1)|]. split; [left; by rewrite HH2|done].
      * apply tri_bind, tri_change. pose proof (still_set_eof (Some (pkt_seq_nr p)) w (still_inv _ _ _ Hva)) as Hwe.
        eapply tri_mono; [apply tri_data_received_safe; [apply Hwe|done|done]| |done].
        intros _ x (HH1 & HH2 & HH3). split; [|split; [left; by rewrite HH2|done]].
        eapply still_le; [|exact (still_trans 0 0 _ _ _ Hva (still_trans 0 _ _ _ _ Hwe HH1))]. cbn. lia.
      * apply tri_ret. split; [|by split; [left|]]. eapply still_le; [|exact Hva]. lia.
    + intros _ x (HH1 & HH2 & HH3). apply tri_bind, tri_reads, tri_check; [done|]. by eapply Hthen; [|exact HH1|].
  - case_match; [apply tri_ret; eapply Hthen; [|by apply still_refl|by left]; lia|].
    apply tri_bind, tri_change, tri_bind, tri_change.
    pose proof (still_established (Z.land (pkt_seq_nr p - 1) SEQUENCE_MASK) v Hv Hc (mask_range _)) as Hve.
    set (w := set_connected_state true _) in *. pose proof (still_inv _ _ _ Hve) as Hw.
    apply tri_bind. unfold tri at 1. rewrite acknowledge_eq by apply Hw || done.
    pose proof (still_unacked_after (pkt_ack_nr p) w Hw) as Hwa. set (x := set_unacked _ w) in *.
    eapply tri_mono; [apply tri_set_connected_result; [apply Hwa|done]| |done].
    intros _ y [HH1 HH2]. eapply Hthen; [|exact (still_trans 0 0 _ _ _ Hve (still_trans 0 0 _ _ _ Hwa HH1))|left; by rewrite HH2].
    lia.
Qed.

(** ** The other callbacks *)

Lemma packet_types_ok : Forall packet_type_ok [ST_DATA; ST_STATE; ST_RESET; ST_SYN].
Proof. repeat constructor; unfold packet_type_ok, ST_DATA, ST_STATE, ST_RESET, ST_SYN; lia. Qed.

Lemma packet_type_known ty : ty ∈ [ST_DATA; ST_STATE; ST_RESET; ST_SYN] -> packet_type_ok ty.
Proof. apply Forall_forall, packet_types_ok. Qed.

Lemma tri_send_packet ty seq payload u :
  utp_inv u -> ty ∈ [ST_DATA; ST_STATE; ST_RESET; ST_SYN] -> closed u = false ->
  tri (send_packet ty seq payload) (fun _ u' => exists ps, u' = sent ps u) (fun _ _ => False) u.
Proof.
  intros Hu Ht Hc.
  destruct (send_packet_eq ty seq payload u) as (p & ps & Heq);
    [apply Hu|apply Hu|by apply packet_type_known|by left|]. unfold tri. rewrite Heq. by exists ps.
Qed.

Lemma tri_send_ack u :
  utp_inv u ->
  tri send_ack (fun _ u' => exists ps, u' = sent ps (set_ack_scheduled false u)) (fun _ _ => False) u.
Proof.
  intros Hu. unfold send_ack. apply tri_bind, tri_change, tri_bind, tri_reads, tri_bind.
  set (v := set_ack_scheduled false u).
  apply (tri_mono _ (fun _ u' => exists ps, u' = sent ps v) _ (fun _ _ => False)); [| |done].
  - unfold when. destruct (closed v) eqn:Hc; cbn [negb].
    + apply tri_ret. exists (packets_sent v). by destruct v.
    + apply tri_bind. eapply tri_mono; [apply tri_send_packet; [|set_solver|done]| |done].
      * destruct Hu. by split.
      * intros p u' Hps. by apply tri_ret.
  - intros _ u' [ps ->]. apply tri_bind, tri_reads, tri_check; [done|]. by exists ps.
Qed.

Lemma still_unscheduled ps u : utp_inv u -> still 0 u (sent ps (set_ack_scheduled false u)).
Proof. intros []. split; try done; by rewrite Nat.add_0_r. Qed.

Lemma key_range_dict_set k e l : in_16 k -> Forall key_range l -> Forall key_range (dict_set k e l).
Proof.
  intros Hk Hl. apply Forall_forall. intros kv [->|Hin]%elem_of_dict_set; [done|].
  by apply (Forall_forall key_range l).
Qed.

Lemma still_set_unacked l u : utp_inv u -> Forall key_range l -> still 0 u (set_unacked l u).
Proof. intros [] Hl. split; try done; by rewrite Nat.add_0_r. Qed.

(** The resending of what is overdue: it comes to its end, or has failed the
    connection. *)
Lemma tri_resend_entries now entries u :
  utp_inv u -> closed u = false -> Forall key_range entries ->
  tri (resend_entries now entries)
    (fun finished u' => still 0 u u' /\ unarmed u u' /\ u'.(closed) = negb finished) (fun _ _ => False) u.
Proof.
  intros Hu Hc Hall. revert u Hu Hc. induction Hall as [|[k e] entries Hk Hall IH]; intros u Hu Hc; cbn [resend_entries].
  { apply tri_ret. split; [by apply still_refl|]. split; [by left|done]. }
  case_match; [by apply IH|]. case_match.
  - apply tri_bind, tri_reads, tri_bind.
    eapply tri_mono; [apply tri_fail; [done|done|destruct (connected_state u); known]| |done].
    intros _ v (HS & HT & Hcl). apply tri_ret. split; [done|]. split; [by right|done].
  - apply tri_bind, tri_change, tri_bind.
    assert (still 0 u (set_unacked (dict_set k {| packet := packet e; sent_at := now; resends := resends e + 1 |} (unacked u)) u)) as HS.
    { apply still_set_unacked; [done|]. apply key_range_dict_set; [done|apply Hu]. }
    set (v := set_unacked _ u) in *. destruct (socket_send_eq (packet e) v) as [ps Hps]. unfold tri at 1. rewrite Hps.
    eapply tri_mono; [apply (IH (sent ps v))|..]; [apply inv_sent, HS|done| |done].
    intros finished w (HS' & HT & Hcl). split; [|split; [done|done]].
    exact (still_trans 0 0 _ _ _ HS (still_trans 0 0 _ _ _ (still_sent ps v (still_inv _ _ _ HS)) HS')).
Qed.

Lemma still_set_timer t u : utp_inv u -> closed u = false -> still 0 u (set_resend_timer t u).
Proof. intros [] Hc. split; try done; [|by rewrite Nat.add_0_r]. split; try done. cbn. congruence. Qed.

Lemma still_clear_timer u : utp_inv u -> still 0 u (set_resend_timer None u).
Proof.
  intros []. split; try done; [|by rewrite Nat.add_0_r]. split; try done. cbn. intros Hc.
  by destruct (inv_closed0 Hc).
Qed.

(** The timer is off, or set for the next check. *)
Definition rearmed (u u' : utp) : Prop :=
  u'.(resend_timer) = None \/ u'.(resend_timer) = Some (u.(uclock) + RESEND_CHECK_SECONDS)%Z.

Lemma tri_arm_resend u :
  utp_inv u -> unacked u <> [] ->
  tri arm_resend (fun _ u' => still 0 u u' /\ (u' = u \/ u' = set_resend_timer (Some (uclock u + RESEND_CHECK_SECONDS)%Z) u))
    (fun _ _ => False) u.
Proof.
  intros Hu Hn. unfold arm_resend. apply tri_bind, tri_reads, tri_bind, tri_check.
  { by rewrite bool_decide_eq_false_2. }
  unfold when. destruct (closed u) eqn:Hc; [rewrite andb_false_r; apply tri_ret; split; [by apply still_refl|by left]|].
  case_bool_decide; cbn [andb negb]; [|apply tri_ret; split; [by apply still_refl|by left]].
  apply tri_change. split; [by apply still_set_timer|by right].
Qed.

Lemma tri_check_resend u :
  utp_inv u -> tri check_resend (fun _ u' => still 0 u u' /\ rearmed u u') (fun _ _ => False) u.
Proof.
  intros Hu. unfold check_resend. apply tri_bind, tri_change.
  pose proof (still_clear_timer u Hu) as HS. set (v := set_resend_timer None u) in *.
  apply tri_bind, tri_reads. destruct (closed v) eqn:Hc; [apply tri_ret; split; [done|by left]|].
  apply tri_bind. eapply tri_mono; [apply tri_resend_entries; [apply HS|done|apply HS]| |done].
  intros finished w (HS' & HT & Hcl). pose proof (still_trans 0 0 _ _ _ HS HS') as HS2.
  assert (resend_timer w = None) as Hw by (destruct HT; done).
  destruct finished; cbn [negb] in *; [|apply tri_ret; split; [done|by left]].
  apply tri_bind, tri_reads, tri_bind.
  apply (tri_mono _ (fun _ x => still 0 u x /\ rearmed u x /\ closed x = false) _ (fun _ _ => False)); [| |done].
  - unfold when. case_bool_decide; cbn [negb]; [apply tri_ret; split; [done|]; split; [by left|done]|].
    eapply tri_mono; [apply tri_arm_resend; [apply HS'|done]| |done].
    intros _ x [HS3 Hx]. split; [exact (still_trans 0 0 _ _ _ HS2 HS3)|].
    destruct Hx as [->| ->]; (split; [|done]); [by left|right]. cbn. by rewrite (still_clock _ _ _ HS2).
  - intros _ x (HS3 & HR & Hx). apply tri_bind, tri_reads, tri_check; [by rewrite Hx|done].
Qed.

(** ** Datagrams *)

Lemma be_decode_in_16 data a : in_16 (be_decode (slice data a (a + 2))).
Proof.
  pose proof (be_decode_range (slice data a (a + 2))) as Hr.
  assert (length (slice data a (a + 2)) <= 2) as Hl by (rewrite length_slice; lia).
  assert (256 ^ Z.of_nat (length (slice data a (a + 2))) <= 256 ^ 2)%Z by (apply Z.pow_le_mono_r; lia).
  unfold in_16, SEQUENCE_MASK. lia.
Qed.

Lemma decode_utp_packet_fields data p :
  decode_utp_packet data = Some p ->
  in_16 p.(pkt_seq_nr) /\ in_16 p.(pkt_ack_nr) /\ length p.(payload) <= length data.
Proof.
  unfold decode_utp_packet. case_bool_decide; [done|]. cbv zeta. case_match; [done|]. case_match; [|done].
  intros [= <-]. split; [apply be_decode_in_16|]. split; [apply be_decode_in_16|]. cbn [payload]. rewrite length_drop. lia.
Qed.

Lemma tri_datagram_received data from u :
  utp_inv u ->
  tri (datagram_received data from) (fun _ u' => still (length data) u u' /\ unarmed u u') (fun _ _ => False) u.
Proof.
  intros Hu. assert (still (length data) u u /\ unarmed u u) as Hsame.
  { split; [|by left]. eapply still_le; [|by apply still_refl]. lia. }
  unfold datagram_received. destruct (decode_utp_packet data) as [p|] eqn:Hp; [|by apply tri_ret].
  apply tri_bind, tri_reads. unfold when. case_match; [|by apply tri_ret].
  destruct (decode_utp_packet_fields _ _ Hp) as (Hseq & Hack & Hl).
  eapply tri_mono; [by apply tri_packet_received| |done]. intros _ v [HS HT]. split; [|done]. by eapply still_le.
Qed.

(** A callback that raises nothing, with the acknowledgement it schedules. *)
Lemma tri_callback_then m (P : utp -> Prop) u :
  (forall v, P v -> utp_inv v) -> (forall v ps, P v -> P (sent ps (set_ack_scheduled false v))) ->
  tri m (fun _ v => P v) (fun _ _ => False) u -> tri (callback m) (fun _ v => P v) (fun _ _ => False) u.
Proof.
  intros Hinv HP Hm. unfold callback. apply tri_bind, tri_catch. eapply tri_mono; [exact Hm| |done].
  intros u1 v Hv. apply tri_bind, tri_reads. unfold when. destruct (ack_scheduled v); [|by apply tri_ret].
  apply tri_catch. eapply tri_mono; [by apply tri_send_ack, Hinv| |done]. intros u2 w [ps ->]. by apply HP.
Qed.

Lemma tri_callback m n (T : utp -> utp -> Prop) u :
  (forall v ps, T u v -> T u (sent ps (set_ack_scheduled false v))) ->
  tri m (fun _ v => still n u v /\ T u v) (fun _ _ => False) u ->
  tri (callback m) (fun _ v => still n u v /\ T u v) (fun _ _ => False) u.
Proof.
  intros HT. apply tri_callback_then; [by intros v [[] _]|].
  intros v ps [HS Hv]. split; [|by apply HT]. rewrite <-(Nat.add_0_r n).
  eapply still_trans; [exact HS|apply still_unscheduled, HS].
Qed.

(** ** The loop *)

Lemma firings_later deadline clock clock' timer timer' :
  (clock <= clock')%Z -> timer' = timer \/ timer' = None ->
  firings deadline clock' timer' <= firings deadline clock timer.
Proof.
  intros Hc [->| ->]; [|cbn; lia]. unfold firings. destruct timer as [r|]; [|done].
  destruct (Z.ltb_spec (Z.max r clock') deadline), (Z.ltb_spec (Z.max r clock) deadline); try lia.
  apply le_n_S, Z2Nat.inj_le; unfold RESEND_CHECK_SECONDS; [apply Z.div_pos; lia..|]. apply Z.div_le_mono; lia.
Qed.

Lemma firings_again deadline clock r clock' timer' :
  (clock' = Z.max clock r)%Z -> (r < deadline)%Z -> (clock < deadline)%Z ->
  timer' = None \/ timer' = Some (clock' + RESEND_CHECK_SECONDS)%Z ->
  firings deadline clock' timer' < firings deadline clock (Some r).
Proof.
  intros -> Hr Hc Ht. unfold firings at 2. destruct (Z.ltb_spec (Z.max r clock) deadline); [|lia].
  destruct Ht as [->| ->]; [cbn; lia|]. unfold firings.
  replace (Z.max (Z.max clock r + RESEND_CHECK_SECONDS) (Z.max clock r))%Z with (Z.max r clock + RESEND_CHECK_SECONDS)%Z
    by (unfold RESEND_CHECK_SECONDS; lia).
  case_match; [|lia]. apply -> Nat.succ_lt_mono. unfold RESEND_CHECK_SECONDS in *. apply Nat.lt_le_trans
    with (S (Z.to_nat ((deadline - 1 - (Z.max r clock + 250000)) / 250000))); [lia|].
  rewrite <-Z2Nat.inj_succ by (apply Z.div_pos; lia). apply Z2Nat.inj_le; [|apply Z.div_pos; lia|].
  - assert (0 <= (deadline - 1 - (Z.max r clock + 250000)) / 250000)%Z by (apply Z.div_pos; lia). lia.
  - replace (deadline - 1 - Z.max r clock)%Z with (deadline - 1 - (Z.max r clock + 250000) + 1 * 250000)%Z by lia.
    rewrite Z.div_add by lia. lia.
Qed.

(** What waiting leaves alone. *)
Record waits (u u' : utp) : Prop := {
  wait_inv : utp_inv u';
  wait_key : key_of u' = key_of u;
  wait_others : others u' = others u;
  wait_unread : utp_unread u' <= utp_unread u;
  wait_open : u'.(transport_open) = u.(transport_open);
}.

Lemma waits_refl u : utp_inv u -> waits u u.
Proof. by split. Qed.

Lemma waits_trans u1 u2 u3 : waits u1 u2 -> waits u2 u3 -> waits u1 u3.
Proof. intros [_ K1 O1 R1 T1] [I2 K2 O2 R2 T2]. split; first [done|congruence|lia]. Qed.

Lemma still_waits u u' : still 0 u u' -> waits u u'.
Proof. intros []. split; try done. lia. Qed.

(** The clock and the datagrams have moved on. *)
Lemma inv_at clock due u : utp_inv u -> utp_inv (set_datagrams_due due (set_uclock clock u)).
Proof. by intros []. Qed.

(** What is next runs, and there are fewer events to come. *)
Lemma tri_handle_event deadline u :
  utp_inv u -> (uclock u < deadline)%Z -> next_event deadline u <> TimeIsUp ->
  tri (handle_event (next_event deadline u))
    (fun _ v => waits u v /\ (uclock u <= uclock v < deadline)%Z /\ events_before deadline v < events_before deadline u)
    (fun _ _ => False) u.
Proof.
  intros Hu Hclock Hne. unfold handle_event. apply tri_bind, tri_reads.
  destruct (next_event deadline u) as [t from data rest|r|] eqn:Hev; [..|done].
  - assert (datagrams_due u = (t, (from, data)) :: rest /\ (t < deadline)%Z) as [Hdue Ht].
    { unfold next_event in Hev. destruct (datagrams_due u) as [|[t' [from' data']] rest']; [by repeat case_match|].
      destruct (Z.ltb_spec t' deadline); cbn [andb] in Hev; [|by repeat case_match].
      repeat case_match; simplify_eq; done. }
    apply tri_bind, tri_change, tri_bind, tri_change. set (v := set_datagrams_due _ _).
    assert (utp_unread u = length data + utp_unread v) as Hun.
    { unfold utp_unread. rewrite Hdue, incoming_bytes_cons.
      cbn [ubuffer out_of_order datagrams_due set_datagrams_due set_uclock v]. unfold datagram_bytes. cbn [snd]. lia. }
    eapply tri_mono; [apply (tri_callback _ (length data) unarmed); [done|apply tri_datagram_received; by apply inv_at]| |done].
    intros _ w [HS HT]. split; [|split].
    + destruct HS as [? Hk Ho Hr _ _ Htr]. split; try done. rewrite Hun. lia.
    + rewrite (still_clock _ _ _ HS). cbn. lia.
    + unfold events_before. rewrite (still_due _ _ _ HS), (still_clock _ _ _ HS), Hdue. cbn [length datagrams_due set_datagrams_due uclock set_uclock v].
      pose proof (firings_later deadline (uclock u) (Z.max (uclock u) t) (resend_timer u) (resend_timer w) ltac:(lia) HT). lia.
  - assert (resend_timer u = Some r /\ (r < deadline)%Z) as [Htimer Hr].
    { unfold next_event in Hev. destruct (resend_timer u) as [r'|]; [|by repeat case_match].
      destruct (Z.ltb_spec r' deadline); [|by repeat case_match]. repeat case_match; by simplify_eq. }
    apply tri_bind, tri_change. set (v := set_uclock _ _).
    eapply tri_mono; [apply (tri_callback _ 0 rearmed); [done|apply tri_check_resend; by destruct Hu]| |done].
    intros _ w [HS HT]. split; [|split].
    + destruct HS as [? Hk Ho Hrd _ _ Htr]. split; try done. change (utp_unread u) with (utp_unread v). lia.
    + rewrite (still_clock _ _ _ HS). cbn. lia.
    + unfold events_before. rewrite (still_due _ _ _ HS), (still_clock _ _ _ HS), Htimer.
      apply Nat.add_lt_mono_l. eapply firings_again; [|done|done|exact HT]. cbn. lia.
Qed.

Lemma no_event_left deadline u :
  (uclock u < deadline)%Z -> events_before deadline u = 0 -> next_event deadline u = TimeIsUp.
Proof.
  unfold events_before, next_event, firings. intros Hc He. destruct (datagrams_due u); [|done].
  destruct (resend_timer u) as [r|]; [|done]. destruct (Z.ltb_spec r deadline); [|done].
  destruct (Z.ltb_spec (Z.max r (uclock u)) deadline); [done|lia].
Qed.

(** Waiting ends, with enough turns, by the deadline. *)
Lemma tri_run_loop turns ready deadline u :
  utp_inv u -> (uclock u < deadline)%Z -> events_before deadline u <= turns ->
  tri (run_loop turns ready deadline)
    (fun b v => waits u v /\ (uclock u <= uclock v <= deadline)%Z /\
       if (b : bool) then ready v = true /\ (uclock v < deadline)%Z /\
         events_before deadline v + (if ready u then 0 else 1) <= events_before deadline u
       else True) (fun _ _ => False) u.
Proof.
  revert u. induction turns as [|turns IH]; intros u Hu Hc Hturns; cbn [run_loop]; apply tri_bind, tri_reads;
    (destruct (ready u) eqn:Hready; [apply tri_ret; split; [by apply waits_refl|]; split; [lia|]; split; [done|lia]|]).
  - rewrite no_event_left by lia. apply tri_bind, tri_change, tri_ret. split; [by destruct Hu|]. split; [cbn; lia|done].
  - pose proof (tri_handle_event deadline u Hu Hc) as Hevent.
    destruct (next_event deadline u) as [t from data rest|r|] eqn:Hev.
    3: { apply tri_bind, tri_change, tri_ret. split; [by destruct Hu|]. split; [cbn; lia|done]. }
    all: apply tri_bind; (eapply tri_mono; [by apply Hevent| |done]); intros _ v (Hv & Hvc & Hevs);
      (eapply tri_mono; [apply IH; [apply Hv|lia|lia]| |done]);
      intros b w (Hw & Hwc & Hb); (split; [by eapply waits_trans|]); (split; [lia|]);
      destruct b; [|done]; destruct Hb as (? & ? & Hb); (split; [done|]); (split; [done|]); destruct (ready v); lia.
Qed.

Lemma tri_within ready timeout u :
  utp_inv u -> (0 < timeout)%Z ->
  tri (within ready timeout)
    (fun b v => waits u v /\ (uclock u <= uclock v <= uclock u + timeout)%Z /\
       if (b : bool) then ready v = true /\ (uclock v < uclock u + timeout)%Z /\
         events_before (uclock u + timeout) v + (if ready u then 0 else 1) <= events_before (uclock u + timeout) u
       else True) (fun _ _ => False) u.
Proof.
  intros Hu Ht. unfold within. apply tri_bind, tri_reads. cbv zeta. apply tri_run_loop; [done|lia|done].
Qed.

(** ** Reading *)

(** A wait of [read_exactly]: the waiting itself, from the cleared event on. *)
Lemma waits_cleared u v : waits (set_readable false u) v -> waits u v.
Proof. by intros []. Qed.

Lemma inv_cleared b u : utp_inv u -> utp_inv (set_readable b u).
Proof. by intros []. Qed.

Lemma tri_fill_buffer turns n D reason u :
  utp_inv u -> reason ∈ FETCH_REASONS -> events_before D u < turns ->
  tri (fill_buffer turns n D reason)
    (fun _ v => waits u v /\ by_deadline D (uclock u) (uclock v) /\ n <= length (ubuffer v))
    (fun e v => named e /\ waits u v /\ by_deadline D (uclock u) (uclock v)) u.
Proof.
  intros Hu Hr. revert u Hu. induction turns as [|turns IH]; intros u Hu Hturns; [lia|]. cbn [fill_buffer].
  assert (by_deadline D (uclock u) (uclock u)) as Hnow by (unfold by_deadline; lia).
  assert (forall reason', reason' ∈ FETCH_REASONS -> tri (throw (A := unit) (fetch_error reason'))
    (fun _ v => waits u v /\ by_deadline D (uclock u) (uclock v) /\ n <= length (ubuffer v))
    (fun e v => named e /\ waits u v /\ by_deadline D (uclock u) (uclock v)) u) as Hthrow.
  { intros reason' Hin. apply tri_throw. split; [by apply named_fetch_error|]. split; [by apply waits_refl|done]. }
  apply tri_bind, tri_reads. case_bool_decide; [apply tri_ret; split; [by apply waits_refl|done]|].
  case_match; [apply Hthrow; case_bool_decide; [known|]; case_match; [done|known]|]. cbv zeta.
  destruct (Z.leb_spec (D - uclock u) 0) as [|Hc]; [apply Hthrow; known|].
  apply tri_bind, tri_change, tri_bind. set (u1 := set_readable false u).
  eapply tri_mono; [apply (tri_within readable (D - uclock u) u1); [by apply inv_cleared|done]| |done].
  change (uclock u1) with (uclock u). replace (uclock u + (D - uclock u))%Z with D by lia.
  intros [|] v (Hv%waits_cleared & Hvc & Hb).
  - destruct Hb as (_ & Hvd & Hevs). change (events_before D u1) with (events_before D u) in Hevs.
    change (readable u1) with false in Hevs. cbn match in Hevs.
    eapply tri_mono; [apply IH; [apply Hv|lia]|..].
    + intros _ w (Hw & Hby & Hn). split; [by eapply waits_trans|]. split; [|done]. unfold by_deadline in *. lia.
    + intros e w (Hn & Hw & Hby). split; [done|]. split; [by eapply waits_trans|]. unfold by_deadline in *. lia.
  - apply tri_throw. split; [apply named_fetch_error; known|]. split; [done|]. unfold by_deadline. lia.
Qed.

Lemma tri_utp_read n D reason u :
  utp_inv u -> 0 < n -> reason ∈ FETCH_REASONS ->
  tri (utp_read_exactly n D reason)
    (fun data v => length data = n /\ waits u v /\ utp_unread v + n <= utp_unread u /\ by_deadline D (uclock u) (uclock v))
    (fun e v => named e /\ waits u v /\ by_deadline D (uclock u) (uclock v)) u.
Proof.
  intros Hu Hn Hr. unfold utp_read_exactly. apply tri_bind, tri_check; [by apply bool_decide_eq_true_2|].
  apply tri_bind, tri_reads, tri_bind. eapply tri_mono; [apply tri_fill_buffer; [done|done|lia]| |done].
  intros _ v (Hv & Hby & Hl). apply tri_bind, tri_reads. cbv zeta. apply tri_bind, tri_change, tri_bind, tri_check.
  { apply bool_decide_eq_true_2. rewrite length_take. lia. }
  apply tri_ret. split; [rewrite length_take; lia|]. set (w := set_ubuffer _ v).
  assert (utp_unread w + n = utp_unread v) as Hw.
  { unfold utp_unread. cbn [ubuffer out_of_order datagrams_due set_ubuffer w]. rewrite length_drop. lia. }
  split; [|split; [apply wait_unread in Hv; lia|done]]. destruct Hv as [Hi Hk Ho Hun Htr]. split; try done; [by destruct Hi|etrans; [|exact Hun]; lia].
Qed.

(** ** Writing *)

(** Packets have gone out and wait to be acknowledged. *)
Record wrote (u v : utp) : Prop := {
  wrote_still : still 0 u v;
  wrote_unread : utp_unread v = utp_unread u;
  wrote_closed : v.(closed) = u.(closed);
}.

Lemma wrote_refl u : utp_inv u -> wrote u u.
Proof. intros. split; [by apply still_refl|done|done]. Qed.

Lemma wrote_trans u1 u2 u3 : wrote u1 u2 -> wrote u2 u3 -> wrote u1 u3.
Proof. intros [S1 U1 C1] [S2 U2 C2]. split; [exact (still_trans 0 0 _ _ _ S1 S2)|congruence|congruence]. Qed.

Lemma tri_await_ack packet u :
  utp_inv u -> tri (await_ack packet) (fun _ v => wrote u v /\ unacked v <> []) (fun _ _ => False) u.
Proof.
  intros []. unfold await_ack. apply tri_bind, tri_change, tri_change. split.
  - split; [|done|done]. split; try done; [|by rewrite Nat.add_0_r]. split; try done; [apply next_seq_range|].
    by apply key_range_dict_set.
  - cbn. destruct (unacked u) as [|[k e] l]; [done|]. cbn. by case_decide.
Qed.

Lemma tri_send_payloads parts u :
  utp_inv u -> closed u = false ->
  tri (send_payloads parts) (fun _ v => wrote u v /\ (parts <> [] -> unacked v <> [])) (fun _ _ => False) u.
Proof.
  revert u. induction parts as [|part parts IH]; intros u Hu Hc; cbn [send_payloads].
  { apply tri_ret. split; [by apply wrote_refl|done]. }
  apply tri_bind, tri_reads, tri_bind. eapply tri_mono; [apply tri_send_packet; [done|set_solver|done]| |done].
  intros packet _ [ps ->]. apply tri_bind.
  assert (wrote u (sent ps u)) as H1 by (split; [by apply still_sent|done|done]).
  eapply tri_mono; [apply tri_await_ack, H1| |done]. intros _ v [H2 Hv].
  pose proof (wrote_trans _ _ _ H1 H2) as H3.
  destruct parts as [|part' parts]; [by apply tri_ret|].
  eapply tri_mono; [apply IH; [apply H2|by rewrite (wrote_closed _ _ H2)]| |done].
  intros _ w [Hw Hne]. split; [by eapply wrote_trans|]. intros _. by apply Hne.
Qed.

Lemma tri_utp_write data u :
  utp_inv u -> data <> [] -> tri (utp_write data) (fun _ v => wrote u v) (fun _ _ => False) u.
Proof.
  intros Hu Hd. unfold utp_write. apply tri_bind, tri_check; [by rewrite bool_decide_eq_false_2|].
  apply tri_bind, tri_reads. destruct (closed u) eqn:Hc; [apply tri_ret; by apply wrote_refl|].
  apply tri_bind. eapply tri_mono; [by apply tri_send_payloads| |done]. intros _ v [Hv Hne].
  assert (unacked v <> []) as Hun by (apply Hne; by destruct data). clear Hne.
  apply tri_bind. eapply tri_mono; [apply tri_arm_resend; [apply Hv|done]| |done].
  intros _ w [HS Hw]. apply tri_bind, tri_reads, tri_check.
  { rewrite bool_decide_eq_false_2; [done|]. by destruct Hw as [->| ->]. }
  eapply wrote_trans; [exact Hv|]. by destruct Hw as [->| ->]; split.
Qed.

(** ** The promises of a byte stream *)

Section laws.
(** The connection, the other connections of its socket, and its transport. *)
Context (key : text * Z * Z) (table : list (text * Z * Z)) (is_open : bool).

Record open_connection (u : utp) : Prop := {
  oc_inv : utp_inv u;
  oc_key : key_of u = key;
  oc_others : others u = table;
  oc_open : u.(transport_open) = is_open;
}.

Lemma waits_open u v : open_connection u -> waits u v -> open_connection v.
Proof. intros [] []. split; [done|congruence..]. Qed.

#[export] Program Instance UtpStreamLaws : ByteStreamLaws UtpStream := {|
  ok := open_connection;
  unread := utp_unread;
|}.
Next Obligation.
  intros u n deadline reason Hok Hn Hr. eapply tri_mono; [apply tri_utp_read; [apply Hok|done|done]|..].
  - intros data v (Hl & Hw & Hun & Hby). split; [done|]. split; [by eapply waits_open|done].
  - intros e v (He & Hw & Hby). split; [done|]. split; [by eapply waits_open|]. split; [apply Hw|done].
Qed.
Next Obligation.
  intros u data Hok Hd. eapply tri_mono; [apply tri_utp_write; [apply Hok|done]| |done].
  intros _ v [HS Hun _]. split; [eapply waits_open; [done|by apply still_waits]|]. split; [done|apply HS].
Qed.
End laws.
