(* ===== verification/UtpTheorems.v ===== *)
(** Fetches over uTP: they end in time, their connection closed and forgotten,
    with verified metadata or a named error. *)
From S2P Require Import Prelude PyDict Bencode NodeIdentity AddressText Krpc PeerWire Tasks MetadataSession.
From S2P Require Import MetadataSessionSafety MetadataPeer PeerStream PeerStreamTheorems Utp UtpSafety.

(** ** Connection ids *)

(** The ids tried are different as long as there are no more than [65536]. *)
Lemma free_id_misses turns table addr id :
  in_16 id ->
  match free_id turns table addr id with
  | Ok id' => in_16 id' /\ (addr, id') ∉ table
  | Raise _ => forall i, i <= turns -> (addr, ((id + Z.of_nat i) mod 65536)%Z) ∈ table
  end.
Proof.
  revert id. induction turns as [|turns IH]; intros id Hid; cbn [free_id]; case_bool_decide as Hin; try done;
    assert ((id + 0) mod 65536 = id)%Z as H0 by (unfold in_16, SEQUENCE_MASK in Hid; lia_div).
  - intros i Hi. replace i with 0 by lia. rewrite Nat2Z.inj_0. by rewrite H0.
  - specialize (IH (next_seq id) (next_seq_range id)). destruct (free_id _ _ _ _) as [id'|e]; [done|].
    intros [|i] Hi; [by rewrite Nat2Z.inj_0, H0|]. specialize (IH i ltac:(lia)).
    rewrite next_seq_mod in IH. replace ((id + Z.of_nat (S i)) mod 65536)%Z with (((id + 1) mod 65536 + Z.of_nat i) mod 65536)%Z; [done|].
    rewrite Z.add_mod_idemp_l by lia. f_equal. lia.
Qed.

Lemma free_id_Ok table addr id :
  in_16 id -> (Z.of_nat (length table) < 65536)%Z ->
  exists id', free_id (length table) table addr id = Ok id' /\ in_16 id' /\ (addr, id') ∉ table.
Proof.
  intros Hid Hlen. pose proof (free_id_misses (length table) table addr id Hid) as Hm.
  destruct (free_id _ _ _ _) as [id'|e]; [by exists id'|exfalso].
  set (tried := (fun i => (addr, ((id + Z.of_nat i) mod 65536)%Z)) <$> seq 0 (S (length table))).
  assert (length tried <= length table); [|unfold tried in *; rewrite length_fmap, length_seq in *; lia].
  apply submseteq_length, NoDup_submseteq.
  - apply NoDup_fmap_2_strong; [|apply NoDup_seq]. intros i j Hi%elem_of_seq Hj%elem_of_seq Heq. injection Heq as Heq. lia_div.
  - intros k (i & -> & Hi%elem_of_seq)%list_elem_of_fmap. apply Hm. lia.
Qed.

(** ** Connecting *)

Lemma inv_new addr id u : in_16 id -> utp_inv (new_connection addr id u).
Proof.
  intros Hid. split; try done. apply next_seq_range.
Qed.

Lemma others_added u : key_of u ∉ u.(connections) ->
  others (set_connections (u.(connections) ++ [key_of u]) u) = u.(connections).
Proof.
  intros Hk. unfold others. change (key_of (set_connections _ u)) with (key_of u).
  cbn [connections set_connections]. rewrite filter_app, filter_cons_False by tauto. rewrite filter_nil, app_nil_r.
  apply filter_all. by intros k Hin ->.
Qed.

(** A closed connection is out of the table. *)
Lemma closed_connections key table is_open u :
  open_connection key table is_open u -> closed u = true -> u.(connections) = table /\ u.(resend_timer) = None.
Proof.
  intros [Hi _ Ho _] Hc. destruct (inv_closed u Hi Hc) as [Ht Hk]. split; [|done]. rewrite <-Ho. unfold others.
  symmetry. apply filter_all. by intros k Hin ->.
Qed.

Lemma tri_send_syn u :
  utp_inv u -> closed u = false -> connected_state u = false ->
  tri send_syn (fun _ v => wrote u v) (fun _ _ => False) u.
Proof.
  intros Hu Hc Hcs. unfold send_syn. apply tri_bind, tri_reads, tri_bind, tri_check; [by rewrite Hcs|].
  apply tri_bind. eapply tri_mono; [apply tri_send_packet; [done|set_solver|done]| |done].
  intros packet _ [ps ->]. apply tri_bind.
  assert (wrote u (sent ps u)) as Hsent by (split; [by apply still_sent|done|done]).
  eapply tri_mono; [apply tri_await_ack, Hsent| |done]. intros _ v [Hv Hne]. apply tri_bind.
  eapply tri_mono; [apply tri_arm_resend; [apply Hv|done]| |done]. intros _ w [HS Hw].
  apply tri_bind, tri_reads, tri_check; [rewrite bool_decide_eq_false_2; [done|]; by destruct Hw as [->| ->]|].
  eapply wrote_trans; [exact Hsent|]. eapply wrote_trans; [exact Hv|]. by destruct Hw as [->| ->]; split.
Qed.

Section fetches.
Context (sha1 : bytes -> bytes) (depth : nat).

(** What connecting leaves of the socket: this connection has a key that was
    not in the table, and the table is otherwise as it was. *)
Definition on_socket (addr : address) (u v : utp) : Prop :=
  exists id, (addr, id) ∉ u.(connections) /\ open_connection (addr, id) u.(connections) u.(transport_open) v.

Lemma tri_connect_utp random addr timeout u :
  (0 < timeout)%Z -> length random = 2 -> (Z.of_nat (length u.(connections)) < 65536)%Z ->
  tri (connect_utp random addr timeout)
    (fun _ v => on_socket addr u v /\ utp_unread v <= incoming_bytes u.(datagrams_due) /\
       (uclock u <= uclock v <= uclock u + timeout)%Z)
    (fun e v => named e /\ on_socket addr u v /\ closed v = true /\ (uclock u <= uclock v <= uclock u + timeout)%Z) u.
Proof.
  intros Ht Hr Hlen. unfold connect_utp. apply tri_bind, tri_check; [lia|]. apply tri_bind, tri_reads.
  assert (in_16 (be_decode random)) as Hid.
  { pose proof (be_decode_range random) as Hb. rewrite Hr in Hb. unfold in_16, SEQUENCE_MASK. lia. }
  destruct (free_id_Ok (connections u) addr _ Hid Hlen) as (id & Hfree & Hid' & Hnew).
  apply tri_bind. eapply tri_call_Ok; [exact Hfree|]. apply tri_bind, tri_check; [unfold in_16 in Hid'; lia|].
  apply tri_bind, tri_change, tri_bind, tri_change.
  set (c := new_connection addr id u). set (c1 := set_connections _ c).
  assert (open_connection (addr, id) (connections u) (transport_open u) c1) as Hc1.
  { split; try done; [|by apply (others_added c)]. destruct (inv_new addr id u Hid'). by split. }
  apply tri_bind. eapply tri_mono; [apply tri_send_syn; [apply Hc1|done|done]| |done]. intros u0 w Hw.
  pose proof (still_waits _ _ (wrote_still _ _ Hw)) as Hcw.
  assert (uclock w = uclock u) as Hwc by apply (still_clock _ _ _ (wrote_still _ _ Hw)).
  apply tri_bind. clear Hw.
  eapply tri_mono; [apply tri_within; [apply Hcw|done]| |done].
  intros is_done v (Hwv & Hvc & Hready). rewrite Hwc in Hvc.
  assert (open_connection (addr, id) (connections u) (transport_open u) v) as Hv.
  { eapply waits_open; [exact Hc1|]. by eapply waits_trans. }
  assert (forall e v', named e -> open_connection (addr, id) (connections u) (transport_open u) v' -> closed v' = true ->
    uclock v' = uclock v -> named e /\ on_socket addr u v' /\ closed v' = true /\
    (uclock u <= uclock v' <= uclock u + timeout)%Z) as Hfail.
  { intros e v' He Ho Hcl ->. split; [done|]. split; [by exists id|done]. }
  destruct is_done; cbn [negb].
  - apply tri_bind, tri_reads. destruct (decide (connected v = Some true)) as [Htrue|Hfalse].
    + rewrite bool_decide_eq_true_2 by done. apply tri_check; [by apply (inv_connected v), Htrue; apply Hv|].
      split; [by exists id|]. split; [|lia]. transitivity (utp_unread c1); [|done].
      transitivity (utp_unread w); [apply Hwv|apply Hcw].
    + rewrite bool_decide_eq_false_2 by done. apply tri_throw. apply Hfail; [|done| |done].
      * apply named_fetch_error. destruct (error v) as [e|] eqn:He; [|known].
        destruct (decide (e ∈ ["closed"; "connect_timeout"]%string)) as [Hin|]; [|rewrite bool_decide_eq_false_2 by done; known].
        rewrite bool_decide_eq_true_2 by done. apply list_elem_of_In in Hin. destruct Hin as [<-|[<-|[]]]; known.
      * apply (inv_failed v); [apply Hv|]. destruct Hready as [Hready _].
        destruct (connected v) as [[]|]; [done|done|by rewrite bool_decide_eq_true_2 in Hready].
  - apply tri_bind. eapply tri_mono; [apply tri_close, Hv| |done]. intros _ v' [HS Hcl].
    apply tri_throw. apply Hfail; [apply named_fetch_error; known| |done|apply (still_clock _ _ _ HS)].
    eapply waits_open; [exact Hv|by apply still_waits].
Qed.

(** The socket of a fetch that opened it for itself is closed at its end. *)
Lemma tri_socket_close addr owned u v :
  on_socket addr u v -> closed v = true -> (owned = true -> u.(connections) = []) ->
  tri (when owned socket_close)
    (fun _ w => on_socket addr (set_transport_open (u.(transport_open) && negb owned) u) w /\ closed w = true /\
                uclock w = uclock v) (fun _ _ => False) v.
Proof.
  intros (id & Hnew & Hv) Hc Hown. destruct (closed_connections _ _ _ _ Hv Hc) as [Hconns _].
  apply tri_when; intros ->; rewrite ?andb_true_r, ?andb_false_r.
  - unfold socket_close. apply tri_bind, tri_reads, tri_bind, tri_when; intros Hk.
    { apply bool_decide_eq_true in Hk. rewrite (oc_key _ _ _ _ Hv), Hconns in Hk. done. }
    apply tri_bind, tri_change, tri_bind, tri_reads, tri_check.
    { apply bool_decide_eq_true_2. cbn. rewrite Hconns. auto. }
    split; [|done]. exists id. split; [done|]. destruct Hv as [Hi Hk' Ho _]. split; [by destruct Hi|done..].
  - split; [|done]. exists id. split; [done|]. by destruct Hv.
Qed.

(** C27. A fetch over uTP ends, whatever the network and the peer do: within the
    longer of its connect and its session timeout, with its connection closed,
    its timer cancelled and the socket's table as it was before, and either with
    metadata that has the SHA-1 it was asked for or with a [MetadataFetchError]
    of a known reason; every loop on the way, the search for a free connection
    id included, comes to its end. *)
Theorem fetch_metadata_utp_outcome fuel owned random2 random info_hash addr timeouts u :
  length info_hash = NODE_ID_LENGTH -> random_ok random -> length random2 = 2 ->
  (0 < timeouts.(utp_connect))%Z -> (0 <= timeouts.(handshake))%Z -> (0 <= timeouts.(piece))%Z ->
  (0 <= timeouts.(session))%Z -> (0 <= uclock u)%Z ->
  (Z.of_nat (length u.(connections)) < 65536)%Z -> (owned = true -> u.(connections) = []) ->
  incoming_bytes u.(datagrams_due) < fuel ->
  let '(outcome, u') := fetch_metadata_utp sha1 depth fuel owned random2 random info_hash addr timeouts u in
  (uclock u <= uclock u' <= uclock u + Z.max timeouts.(utp_connect) timeouts.(session))%Z /\
  u'.(closed) = true /\ u'.(resend_timer) = None /\ u'.(connections) = u.(connections) /\
  u'.(transport_open) = u.(transport_open) && negb owned /\
  match outcome with
  | Ok metadata => metadata <> [] /\ sha1 metadata = info_hash
  | Raise e => exists reason, reason ∈ FETCH_REASONS /\ e = MetadataFetchError reason
  end.
Proof.
  intros Hh Hr Hr2 Hc Hhs Hp Hs H0 Hlen Hown Hfuel.
  set (D := (uclock u + timeouts.(session))%Z).
  set (end_ w := on_socket addr (set_transport_open (u.(transport_open) && negb owned) u) w /\ closed w = true /\
    (uclock u <= uclock w <= uclock u + Z.max timeouts.(utp_connect) timeouts.(session))%Z).
  enough (tri (fetch_metadata_utp sha1 depth fuel owned random2 random info_hash addr timeouts)
    (fun metadata w => end_ w /\ metadata <> [] /\ sha1 metadata = info_hash) (fun e w => end_ w /\ named e) u) as Htri.
  { assert (forall w, end_ w -> (uclock u <= uclock w <= uclock u + Z.max timeouts.(utp_connect) timeouts.(session))%Z /\
      w.(closed) = true /\ w.(resend_timer) = None /\ w.(connections) = u.(connections) /\
      w.(transport_open) = u.(transport_open) && negb owned) as Hend.
    { intros w ((id & _ & Hw) & Hcl & Ht). destruct (closed_connections _ _ _ _ Hw Hcl). repeat split; try done; [lia..|apply Hw]. }
    unfold tri in Htri. destruct (fetch_metadata_utp _ _ _ _ _ _ _ _ _ u) as [[d|e] w]; destruct Htri as [Hw Hrest];
      destruct (Hend w Hw) as (? & ? & ? & ? & ?); by do 5 (split; [done|]). }
  unfold fetch_metadata_utp. apply tri_bind, tri_check; [by apply is_node_id_of|].
  apply tri_bind. unfold now. apply tri_reads. cbv zeta. apply tri_bind, tri_finally.
  assert (forall v, on_socket addr u v -> closed v = true ->
    (uclock u <= uclock v <= uclock u + Z.max timeouts.(utp_connect) timeouts.(session))%Z ->
    tri (when owned socket_close) (fun _ w => end_ w) (fun _ _ => False) v) as Hsocket.
  { intros v Hv Hcl Ht. eapply tri_mono; [by apply (tri_socket_close addr owned u)| |done].
    intros _ w (H1w & H2w & H3w). split; [done|]. split; [done|]. by rewrite H3w. }
  apply tri_bind. eapply tri_mono; [by apply (tri_connect_utp random2 addr)|..].
  2: { intros e v (He & Hv & Hcl & Ht). eapply tri_mono; [apply Hsocket; [done|done|lia]|by intros|done]. }
  intros _ v ((id & Hnew & Hv) & Hun & Ht). apply tri_finally.
  assert (forall w, goes_on (ByteStreamLaws0 := UtpStreamLaws (addr, id) u.(connections) u.(transport_open)) D v w ->
    tri close (fun _ w' => on_socket addr u w' /\ closed w' = true /\
      (uclock u <= uclock w' <= uclock u + Z.max timeouts.(utp_connect) timeouts.(session))%Z) (fun _ _ => False) w) as Hclose.
  { intros w (Hw & _ & Hby). eapply tri_mono; [apply tri_close, Hw| |done]. intros _ w' [HS Hcl].
    split; [exists id; split; [done|]; eapply waits_open; [exact Hw|by apply still_waits]|]. split; [done|].
    rewrite (still_clock _ _ _ HS). cbn in Hby. unfold by_deadline, D in Hby. lia. }
  eapply tri_mono; [apply (tri_run_session (ByteStreamLaws0 := UtpStreamLaws (addr, id) u.(connections) u.(transport_open))
    depth fuel random info_hash timeouts D true v); try done; cbn; unfold D; lia|..].
  - intros metadata w [Hl Hg]. eapply tri_mono; [by apply Hclose| |done]. intros _ w' (H1w & H2w & H3w).
    eapply tri_mono; [by apply Hsocket| |done]. intros u1 x Hx. apply tri_bind.
    assert (metadata <> []) as Hne by (destruct metadata; [cbn in Hl; lia|done]).
    unfold verify_metadata. rewrite is_node_id_of by done. cbn [assert_ mbind res_bind].
    case_bool_decide as Hsha; cbn [negb raise_if]; apply tri_call; cbn [returns].
    + apply tri_bind, tri_check; [by rewrite bool_decide_eq_false_2|]. by apply tri_ret.
    + split; [done|]. apply named_fetch_error. known.
  - intros e w [Hn Hg]. eapply tri_mono; [by apply Hclose| |done]. intros _ w' (H1w & H2w & H3w).
    eapply tri_mono; [by apply Hsocket| |done]. by intros.
Qed.
End fetches.

(** ** A fetch *)

(** The peer answers the [SYN], and its side of the conversation comes in two
    packets, the second one first. *)
Definition example_utp_address : address := (bs "10.0.0.2", 6881%Z).
Definition example_datagram (ty seq : Z) (data : bytes) : address * bytes :=
  (example_utp_address, packet_bytes ty 500 0 0 0 seq 1 data).
Definition example_utp (datagrams : list (Z * (address * bytes))) : utp :=
  set_datagrams_due datagrams (new_connection example_utp_address 0
    {| address_of := example_utp_address; recv_id := 0; send_id := 0; seq_nr := 0; ack_nr := 0; connected_state := false;
       closed := true; error := None; reply_micro := 0; ubuffer := []; received_any := false; out_of_order := ∅;
       eof_seq := None; unacked := []; connected := None; readable := false; ack_scheduled := false; resend_timer := None;
       connections := [(example_utp_address, 499%Z)]; transport_open := true; packets_sent := []; uclock := 5;
       datagrams_due := [] |}).
Definition example_datagrams : list (Z * (address * bytes)) :=
  let data := conversation_bytes example_conversation in
  [(20%Z, example_datagram ST_STATE 65535 []); (30%Z, example_datagram ST_DATA 0 (drop 40 data));
   (40%Z, example_datagram ST_DATA 65535 (take 40 data))].

Lemma fetch_metadata_utp_outcome_witness :
  exists u', fetch_metadata_utp example_sha1 5 400 false (be_encode 2 499) (bs "123456789012") example_hash
    example_utp_address DEFAULT_TIMEOUTS (example_utp example_datagrams) = (Ok example_metadata, u') /\
    closed u' = true /\ connections u' = [(example_utp_address, 499%Z)].
Proof.
  pose proof (fetch_metadata_utp_outcome example_sha1 5 400 false (be_encode 2 499) (bs "123456789012") example_hash
    example_utp_address DEFAULT_TIMEOUTS (example_utp example_datagrams) eq_refl eq_refl eq_refl ltac:(done) ltac:(done)
    ltac:(done) ltac:(done) ltac:(done) ltac:(done) ltac:(done) ltac:(vm_compute; lia)) as H.
  destruct (fetch_metadata_utp _ _ _ _ _ _ _ _ _ _) as [outcome u'] eqn:Hf.
  assert (outcome = Ok example_metadata) as ->.
  { apply (f_equal fst) in Hf. cbn [fst] in Hf. rewrite <-Hf. vm_compute. reflexivity. }
  exists u'. split; [reflexivity|]. destruct H as (_ & Hc & _ & Ht & _). split; [exact Hc|exact Ht].
Defined.
