(* ===== verification/UtpReassembly.v ===== *)
(** The order of what a uTP connection receives: whatever the network does to
    the peer's packets, what a session can read is a prefix of what the peer
    sent, and is all of it that has arrived without a gap. *)
From S2P Require Import Prelude PyDict Bencode NodeIdentity AddressText Krpc PeerWire Tasks MetadataSession.
From S2P Require Import MetadataSessionSafety Utp UtpSafety.

(** [packet_received] for the packets, one after the other. *)
Fixpoint receive_all (packets : list utp_packet) : task utp unit :=
  match packets with
  | [] => mret tt
  | p :: packets => packet_received p ;; receive_all packets
  end.

(** ** The promise *)

(** The parts of a stream up to the first that has not arrived. *)
Fixpoint longest_prefix (arrived : nat -> bool) (i : nat) (parts : list bytes) : list bytes :=
  match parts with
  | part :: parts => if arrived i then part :: longest_prefix arrived (S i) parts else []
  | [] => []
  end.

Lemma longest_prefix_take arrived i parts k :
  k <= length parts -> (forall j, j < k -> arrived (i + j) = true) -> (k < length parts -> arrived (i + k) = false) ->
  longest_prefix arrived i parts = take k parts.
Proof.
  revert i k. induction parts as [|part parts IH]; intros i k Hk Hyes Hno; cbn [longest_prefix]; [by destruct k|].
  destruct k as [|k]; cbn [take].
  - rewrite Nat.add_0_r in Hno. rewrite Hno; [done|cbn; lia].
  - pose proof (Hyes 0 ltac:(lia)) as H0. rewrite Nat.add_0_r in H0. rewrite H0. f_equal. cbn [length] in *.
    apply IH; [lia| |].
    + intros j Hj. rewrite Nat.add_succ_comm. apply Hyes. lia.
    + intros Hlt. rewrite Nat.add_succ_comm. apply Hno. lia.
Qed.

Section stream.
(** What the peer sends, cut into packets, and the sequence number of the first. *)
Context (stream : list bytes) (first : Z).

Definition seq_of (i : nat) : Z := ((first + Z.of_nat i) mod 65536)%Z.

Lemma seq_of_range i : in_16 (seq_of i).
Proof. unfold seq_of, in_16, SEQUENCE_MASK. pose proof (Z.mod_pos_bound (first + Z.of_nat i) 65536). lia. Qed.

Lemma seq_of_inj i j : (Z.of_nat i < 65536)%Z -> (Z.of_nat j < 65536)%Z -> seq_of i = seq_of j -> i = j.
Proof. unfold seq_of. intros. lia_div. Qed.

Lemma next_seq_of i : next_seq (seq_of i) = seq_of (S i).
Proof. unfold seq_of. rewrite next_seq_mod, Z.add_mod_idemp_l by lia. f_equal. lia. Qed.

Lemma next_seq_inj a b : in_16 a -> in_16 b -> next_seq a = next_seq b -> a = b.
Proof. unfold in_16, SEQUENCE_MASK. rewrite !next_seq_mod. intros. lia_div. Qed.

(** Within half of the numbers, [sequence_after] tells what is ahead. *)
Lemma is_after_seq_of ack i k :
  in_16 ack -> next_seq ack = seq_of k -> (Z.of_nat i < 32767)%Z -> (Z.of_nat k < 32768)%Z ->
  is_after (seq_of i) ack = bool_decide (k <= i).
Proof.
  intros Ha Hk Hi Hk'. unfold is_after, SEQUENCE_MASK in *. change 0xFFFF%Z with (Z.ones 16).
  rewrite Z.land_ones by lia. change (2 ^ 16)%Z with 65536%Z. rewrite next_seq_mod in Hk.
  unfold in_16, SEQUENCE_MASK, seq_of in *.
  assert (ack = (first + Z.of_nat k - 1) mod 65536)%Z as -> by lia_div.
  assert (((first + Z.of_nat i) mod 65536 - (first + Z.of_nat k - 1) mod 65536) mod 65536
          = (Z.of_nat i - Z.of_nat k + 1) mod 65536)%Z as ->.
  { rewrite Zminus_mod_idemp_l, Zminus_mod_idemp_r. f_equal. lia. }
  case_bool_decide as Hki; [|destruct (decide (S i = k)) as [<-|]].
  - rewrite (Z.mod_small (_ - _ + 1)) by lia.
    destruct (Z.eqb_spec ((first + Z.of_nat i) mod 65536) ((first + Z.of_nat k - 1) mod 65536)) as [He|]; [|lia].
    exfalso. lia_div.
  - replace (first + Z.of_nat (S i) - 1)%Z with (first + Z.of_nat i)%Z by lia. by rewrite Z.eqb_refl.
  - replace (Z.of_nat i - Z.of_nat k + 1)%Z with (Z.of_nat i - Z.of_nat k + 65537 + (-1) * 65536)%Z by lia.
    rewrite Z.mod_add, (Z.mod_small (_ - _ + 65537)) by lia. apply andb_false_iff. right. lia.
Qed.

(** ** Reassembly *)

(** The state after the packets of [got] have come in: the first [k] packets
    are delivered, [base] being what has been read of them, those ahead are
    kept; none has been dropped when all fit. *)
Record assembling (base : bytes) (k : nat) (got : nat -> Prop) (u : utp) : Prop := {
  as_ack : in_16 u.(ack_nr) /\ next_seq u.(ack_nr) = seq_of k;
  as_delivered : k <= length stream;
  as_data : base ++ u.(ubuffer) = concat (take k stream);
  as_kept s d : u.(out_of_order) !! s = Some d -> exists i, k <= i /\ s = seq_of i /\ stream !! i = Some d;
  as_got j : j < k \/ (j < length stream /\ is_Some (u.(out_of_order) !! seq_of j)) -> got j;
  as_all j : length stream <= MAX_OUT_OF_ORDER -> j < length stream -> got j -> j < k \/ is_Some (u.(out_of_order) !! seq_of j);
}.

Context (Hshort : (Z.of_nat (length stream) < 32768)%Z).

(** What is next in order is delivered, and no longer kept. *)
Definition delivering (seq : Z) (d : bytes) (u : utp) : utp :=
  delivered seq d (set_out_of_order (delete seq u.(out_of_order)) u).

Lemma assembling_deliver base k got d u :
  assembling base k got u -> stream !! k = Some d ->
  assembling base (S k) (fun j => got j \/ j = k) (delivering (seq_of k) d u).
Proof.
  intros [[Ha Hn] Hk Hd Hkept Hgot Hall] Hs. pose proof (lookup_lt_Some _ _ _ Hs) as Hlt.
  unfold delivering. split; rewrite ?ack_nr_delivered, ?ubuffer_delivered, ?out_of_order_delivered; try done;
    cbn [out_of_order ubuffer set_out_of_order].
  - split; [apply seq_of_range|apply next_seq_of].
  - rewrite (take_S_r _ _ d) by done. rewrite concat_app, app_assoc, Hd. cbn. by rewrite app_nil_r.
  - intros s d' [Hne Hsd]%lookup_delete_Some. destruct (Hkept s d' Hsd) as (i & Hi & -> & Hl). exists i. split; [|done].
    destruct (decide (i = k)) as [->|]; [done|lia].
  - intros j [Hj|[Hj [d' [_ Hd']%lookup_delete_Some]]]; [|by left; apply Hgot; right; eauto].
    destruct (decide (j = k)) as [->|]; [by right|]. left. apply Hgot. left. lia.
  - intros j Hlen Hjl [Hj|Hj]; destruct (decide (j = k)) as [->|Hne]; [left; lia| |left; lia|done].
    destruct (Hall j Hlen Hjl Hj) as [?|[d' Hd']]; [left; lia|]. right. exists d'. apply lookup_delete_Some. split; [|done].
    intros Hjk%seq_of_inj; lia.
Qed.

Lemma assembling_equiv base k (got got' : nat -> Prop) u :
  (forall j, got j <-> got' j) -> assembling base k got u -> assembling base k got' u.
Proof.
  intros Hg [? ? ? ? Hgot Hall]. split; try done; [intros j Hj; by apply Hg, Hgot|].
  intros j Hl Hj Hj'. by apply Hall, Hg.
Qed.

(** The number that is next is among those kept: it is delivered. *)
Lemma assembling_follow base k got d u :
  assembling base k got u -> u.(out_of_order) !! next_seq u.(ack_nr) = Some d ->
  assembling base (S k) got (delivering (next_seq u.(ack_nr)) d u).
Proof.
  intros Hu Hd. destruct (as_ack _ _ _ _ Hu) as [Ha Hn]. rewrite Hn in *.
  destruct (as_kept _ _ _ _ Hu _ _ Hd) as (i & Hi & Heq & Hs). pose proof (lookup_lt_Some _ _ _ Hs) as Hlt.
  pose proof (as_delivered _ _ _ _ Hu) as Hk. assert (k = i) as -> by (apply seq_of_inj; [lia|lia|done]).
  eapply assembling_equiv; [|by apply assembling_deliver]. intros j. split; [intros [?| ->]; [done|]|by left].
  apply (as_got _ _ _ _ Hu). right. split; [done|by rewrite Hd].
Qed.

(** What is ahead is kept. *)
Lemma assembling_keep base k got i d u :
  assembling base k got u -> stream !! i = Some d -> k < i ->
  assembling base k (fun j => got j \/ j = i) (set_out_of_order (<[seq_of i := d]> u.(out_of_order)) u).
Proof.
  intros [[Ha Hn] Hk Hd Hkept Hgot Hall] Hs Hki. pose proof (lookup_lt_Some _ _ _ Hs) as Hlt.
  split; try done; cbn [out_of_order set_out_of_order].
  - intros s d' [[<- <-]|[_ Hsd]]%lookup_insert_Some; [exists i; split; [lia|done]|by apply Hkept].
  - intros j [Hj|[Hj [d' [[Heq _]|[_ Hd']]%lookup_insert_Some]]]; [left; apply Hgot; by left| |left; apply Hgot; eauto].
    right. symmetry. apply seq_of_inj; [lia|lia|done].
  - intros j Hlen Hjl [Hj| ->]; [|right; rewrite lookup_insert_eq; eauto].
    destruct (Hall j Hlen Hjl Hj) as [|Hsome]; [by left|right].
    destruct (decide (seq_of i = seq_of j)) as [->|]; [rewrite lookup_insert_eq; eauto|by rewrite lookup_insert_ne].
Qed.

(** What is kept fits, when all the packets do. *)
Lemma assembling_size base k got u :
  assembling base k got u -> u.(out_of_order) !! seq_of k = None -> size u.(out_of_order) <= length stream - S k.
Proof.
  intros Hu Hnone. set (ahead := list_to_set (C := gset Z) (seq_of <$> seq (S k) (length stream - S k))).
  assert (dom u.(out_of_order) ⊆ ahead) as Hsub.
  { intros s [d Hd]%elem_of_dom. destruct (as_kept _ _ _ _ Hu _ _ Hd) as (i & Hi & -> & Hs).
    apply lookup_lt_Some in Hs. apply elem_of_list_to_set, list_elem_of_fmap. exists i. split; [done|].
    apply elem_of_seq. destruct (decide (i = k)) as [->|]; [congruence|lia]. }
  apply subseteq_size in Hsub. rewrite size_dom in Hsub. etrans; [exact Hsub|]. unfold ahead.
  rewrite size_list_to_set, length_fmap, length_seq; [done|]. apply NoDup_fmap_2_strong; [|apply NoDup_seq].
  intros i j Hi%elem_of_seq Hj%elem_of_seq Heq. apply seq_of_inj in Heq; lia.
Qed.

(** Whoever waits to read is woken, or there is nothing new to read. *)
Definition woken (u v : utp) : Prop := readable v = true \/ ubuffer v = ubuffer u.

Lemma readable_delivered seq d u : readable (delivered seq d u) = true.
Proof. unfold delivered. by case_bool_decide. Qed.

(** A packet of the stream. *)
Lemma tri_data_received_stream base k got i d u :
  utp_inv u -> connected_state u = true -> assembling base k got u -> stream !! i = Some d ->
  tri (data_received (seq_of i) d)
    (fun _ v => (unordered v = unordered u /\ woken u v) /\ (exists k', assembling base k' (fun j => got j \/ j = i) v) /\
       out_of_order v !! next_seq (ack_nr v) = None) (fun _ _ => False) u.
Proof.
  intros Hu Hc Has Hs. destruct (as_ack _ _ _ _ Has) as [Ha Hn]. pose proof (lookup_lt_Some _ _ _ Hs) as Hlt.
  pose proof (as_delivered _ _ _ _ Has) as Hk. pose proof (inv_next u Hu) as Hnone. rewrite Hn in Hnone.
  assert (is_after (seq_of i) (ack_nr u) = bool_decide (k <= i)) as Hafter by (apply is_after_seq_of; [done|done|lia|lia]).
  eapply tri_mono; [apply (tri_data_received (fun v => (unordered v = unordered u /\ woken u v) /\
    exists k', assembling base k' (fun j => got j \/ j = i) v))| |done]; rewrite ?Hn; try done.
  - apply seq_of_range.
  - intros v [[Hv _] _]. destruct u, v. unfold unordered in Hv. cbn in *. by simplify_eq.
  - intros v [Hv (k' & Hv')]. split; [done|]. exists k'. by destruct Hv'.
  - intros v d' [[Hv _] (k' & Hv')] Hd'. split; [rewrite unordered_delivered; split; [done|left; apply readable_delivered]|]. exists (S k'). by apply assembling_follow.
  - intros Heq. apply seq_of_inj in Heq as ->; [|lia|lia]. split; [rewrite unordered_delivered; split; [done|left; apply readable_delivered]|]. exists (S k).
    pose proof (assembling_deliver _ _ _ _ _ Has Hs) as Hdel. unfold delivering in Hdel.
    rewrite delete_id in Hdel by done. by replace (set_out_of_order (out_of_order u) u) with u in Hdel by (by destruct u).
  - intros Hne Haf _. split; [by split; [|right]|]. exists k. apply assembling_keep; [done|done|].
    rewrite Hafter in Haf. apply bool_decide_eq_true in Haf. destruct (decide (i = k)) as [->|]; [done|lia].
  - intros Hne Hdrop. split; [by split; [|right]|]. exists k. destruct Has as [? ? ? ? Hgot Hall]. split; try done; [by left; apply Hgot|].
    intros j Hlen Hjl [Hj| ->]; [by apply Hall|]. destruct (decide (i < k)) as [|Hik]; [by left|exfalso].
    rewrite Hafter, bool_decide_eq_true_2 in Hdrop by lia. destruct Hdrop as [|Hfull]; [done|].
    assert (assembling base k got u) as Has' by done.
    pose proof (assembling_size _ _ _ _ Has' Hnone). lia.
  - intros _ v [[Hv Hk'] Hnext]. done.
Qed.

(** ** Packets *)

(** A packet that carries the [i]-th part of the stream, or none of it. *)
Definition carries_part (i : nat) (p : utp_packet) : Prop :=
  p.(packet_type) = ST_DATA /\ p.(pkt_seq_nr) = seq_of i /\ stream !! i = Some p.(payload).
Definition of_stream (p : utp_packet) : Prop :=
  in_16 p.(pkt_seq_nr) /\ in_16 p.(pkt_ack_nr) /\ (p.(packet_type) = ST_STATE \/ exists i, carries_part i p).

Record established (u : utp) : Prop := {
  es_inv : utp_inv u;
  es_connected : u.(connected_state) = true;
  es_closed : u.(closed) = false;
  es_eof : u.(eof_seq) = None;
}.

Lemma tri_packet_of_stream base k got p u :
  established u -> assembling base k got u -> of_stream p ->
  tri (packet_received p)
    (fun _ v => established v /\ (woken u v /\ unordered v = unordered (set_unacked (unacked_after p.(pkt_ack_nr) (unacked u)) u)) /\
       exists k', assembling base k' (fun j => got j \/ carries_part j p) v)
    (fun _ _ => False) u.
Proof.
  intros [Hu Hc Hcl Heof] Has (Hseq & Hack & Hp).
  pose proof (tri_packet_received p u Hu Hseq Hack) as Hsafe.
  enough (tri (packet_received p) (fun _ v => connected_state v = true /\ closed v = false /\ eof_seq v = None /\
    (woken u v /\ unordered v = unordered (set_unacked (unacked_after p.(pkt_ack_nr) (unacked u)) u)) /\ exists k', assembling base k' (fun j => got j \/ carries_part j p) v) (fun _ _ => False) u) as Hrest.
  { eapply tri_mono; [exact (tri_and _ _ _ _ _ _ Hsafe Hrest)| |by intros e v []].
    intros _ v [[HS _] (? & ? & ? & ? & ?)]. split; [split; try done; apply HS|done]. }
  clear Hsafe. unfold packet_received. apply tri_bind, tri_reads. rewrite Hcl. apply tri_bind, tri_change.
  set (v := set_reply_micro _ u). assert (p.(packet_type) <> ST_RESET) as Hnr.
  { destruct Hp as [->|(i & -> & _)]; done. }
  destruct (Z.eqb_spec (packet_type p) ST_RESET); [done|]. rewrite Hc. cbn [negb].
  assert (utp_inv v) as Hv by (by destruct Hu). apply tri_bind. unfold tri at 1. rewrite acknowledge_eq by apply Hv || done.
  pose proof (still_inv _ _ _ (still_unacked_after (pkt_ack_nr p) v Hv)) as Hw. set (w := set_unacked _ v) in *.
  assert (assembling base k got w) as Hasw by (by destruct Has).
  apply tri_bind. apply (tri_mono _ (fun _ x => (unordered x = unordered w /\ woken w x) /\ exists k', assembling base k' (fun j => got j \/ carries_part j p) x) _ (fun _ _ => False)); [| |done].
  - destruct Hp as [Hst|(i & Hd & Hs & Hpl)].
    + rewrite Hst. cbn [Z.eqb ST_STATE ST_DATA ST_FIN when]. apply tri_ret. split; [by split; [|right]|]. exists k.
      eapply assembling_equiv; [|exact Hasw]. intros j. split; [by left|]. intros [?|(Hd & _)]; [done|]. by rewrite Hst in Hd.
    + rewrite Hd, Hs. cbn [Z.eqb ST_DATA]. eapply tri_mono; [by eapply tri_data_received_stream| |done].
      intros _ x (H1x & (k' & H2x) & _). split; [done|]. exists k'. eapply assembling_equiv; [|exact H2x].
      intros j. split; intros [?|Hj]; try (by left); right; [by subst j|].
      destruct Hj as (_ & Hj & Hjl). rewrite Hs in Hj. apply lookup_lt_Some in Hjl, Hpl. apply seq_of_inj in Hj; [done|lia|lia].
  - intros _ x ((H1x & Hwk) & H2x). apply tri_bind, tri_reads.
    assert (connected_state x = true /\ closed x = false /\ eof_seq x = None) as (? & ? & ?).
    { destruct x, u. unfold unordered in H1x. cbn in *. by simplify_eq. }
    apply tri_check; done.
Qed.

Lemma tri_receive_all packets base k got u :
  established u -> assembling base k got u -> Forall of_stream packets ->
  tri (receive_all packets)
    (fun _ v => established v /\
       exists k', assembling base k' (fun j => got j \/ exists p, p ∈ packets /\ carries_part j p) v) (fun _ _ => False) u.
Proof.
  intros Hu Has Hall. revert k got u Hu Has. induction Hall as [|p packets Hp Hall IH]; intros k got u Hu Has; cbn [receive_all].
  - apply tri_ret. split; [done|]. exists k. eapply assembling_equiv; [|exact Has]. intros j. split; [by left|].
    intros [?|(p & Hp & _)]; [done|]. by apply not_elem_of_nil in Hp.
  - apply tri_bind. eapply tri_mono; [by eapply tri_packet_of_stream| |done]. intros _ v (Hv & _ & k' & Hk').
    eapply tri_mono; [by eapply IH| |done]. intros _ w (Hw & k'' & Hk''). split; [done|]. exists k''.
    eapply assembling_equiv; [|exact Hk'']. intros j. setoid_rewrite elem_of_cons. naive_solver.
Qed.

(** Which parts have arrived in some packets. *)
#[export] Instance carries_part_dec i p : Decision (carries_part i p).
Proof. unfold carries_part. apply _. Defined.
Definition arrived (packets : list utp_packet) (i : nat) : bool := bool_decide (Exists (carries_part i) packets).

(** The connection has just been established: nothing has come in. *)
Definition just_established (u : utp) : Prop :=
  established u /\ u.(ubuffer) = [] /\ u.(out_of_order) = ∅ /\ next_seq u.(ack_nr) = seq_of 0.

Lemma just_established_assembling u : just_established u -> assembling [] 0 (fun _ => False) u.
Proof.
  intros (Hu & Hb & Ho & Hn). split; rewrite ?Hb, ?Ho; try done.
  - split; [apply Hu|done].
  - lia.
  - intros j [?|[_ [d Hd]]]; [lia|done].
Qed.

(** C23. A uTP connection delivers the peer's bytes in order and once: however
    the packets of a stream come in, reordered, repeated or not at all, with
    acknowledgements between them and sequence numbers that wrap around, no
    callback fails, and what can be read is a prefix of the stream; when all of
    it fits into the reordering buffer, it is exactly what has arrived before
    the first part that has not. *)
Theorem utp_delivers_in_order packets u :
  just_established u -> Forall of_stream packets ->
  exists k v, receive_all packets u = (Ok tt, v) /\ k <= length stream /\ v.(ubuffer) = concat (take k stream) /\
    v.(closed) = false /\
    (length stream <= MAX_OUT_OF_ORDER -> v.(ubuffer) = concat (longest_prefix (arrived packets) 0 stream)).
Proof.
  intros Hu Hall. pose proof (tri_receive_all packets [] 0 _ u (proj1 Hu) (just_established_assembling u Hu) Hall) as Htri.
  unfold tri in Htri. destruct (receive_all packets u) as [[[]|e] v]; [|done]. destruct Htri as (Hv & k & Hk).
  exists k, v. split; [done|]. pose proof (as_delivered _ _ _ _ Hk) as Hlen. pose proof (as_data _ _ _ _ Hk) as Hdata. cbn in Hdata.
  split; [done|]. split; [done|]. split; [apply Hv|]. intros Hfits. rewrite Hdata. f_equal. symmetry.
  apply longest_prefix_take; [done|..]; cbn [Nat.add].
  - intros j Hj. apply bool_decide_eq_true_2. destruct (as_got _ _ _ _ Hk j) as [[]|(p & Hp & Hpart)]; [by left|].
    apply Exists_exists. by exists p.
  - intros Hlt. apply bool_decide_eq_false_2. intros (p & Hp & Hpart)%Exists_exists.
    destruct (as_all _ _ _ _ Hk k Hfits Hlt) as [|[d Hd]]; [by right; exists p|lia|].
    rewrite <-(proj2 (as_ack _ _ _ _ Hk)) in Hd. by rewrite (inv_next v (es_inv _ Hv)) in Hd.
Qed.
End stream.

(** Three parts from number 65534 on: the last arrives first, and the first
    twice. *)
Definition example_parts : list bytes := [bs "abc"; bs "de"; bs "f"].
Definition example_part (i : nat) : utp_packet :=
  UtpPacket ST_DATA 500 0 0 0 (seq_of 65534 i) 1 (default [] (example_parts !! i)).
Definition example_established : utp :=
  {| address_of := (bs "10.0.0.2", 6881%Z); recv_id := 500; send_id := 501; seq_nr := 2; ack_nr := 65533; connected_state := true;
     closed := false; error := None; reply_micro := 0; ubuffer := []; received_any := false; out_of_order := ∅;
     eof_seq := None; unacked := []; connected := Some true; readable := false; ack_scheduled := false; resend_timer := None;
     connections := []; transport_open := true; packets_sent := []; uclock := 5; datagrams_due := [] |}.

Lemma utp_delivers_in_order_witness :
  exists v, receive_all [example_part 2; example_part 0; example_part 0; example_part 1] example_established = (Ok tt, v) /\
    ubuffer v = bs "abcdef".
Proof.
  destruct (utp_delivers_in_order example_parts 65534 ltac:(done)
    [example_part 2; example_part 0; example_part 0; example_part 1] example_established) as (k & v & Hr & _ & _ & _ & Hv).
  - repeat split; done.
  - assert (forall i d, example_parts !! i = Some d -> of_stream example_parts 65534 (example_part i)) as Hpart.
    { intros i d Hd. split; [apply seq_of_range|]. split; [done|]. right. exists i. split; [done|]. split; [done|].
      cbn [payload example_part]. by rewrite Hd. }
    repeat (apply Forall_cons_2; [by eapply Hpart|]). apply Forall_nil_2.
  - exists v. split; [exact Hr|]. rewrite Hv by (cbn; unfold MAX_OUT_OF_ORDER; lia). vm_compute. reflexivity.
Defined.
