(* ===== verification/UtpPeer.v ===== *)
(** A peer that keeps to the protocol, over uTP: its packets come in any order,
    some more than once, all of them in time.  A session then reads what it
    would read from the peer's bytes alone, and the fetch returns the peer's
    metadata. *)
From S2P Require Import Prelude PyDict Bencode NodeIdentity AddressText Krpc PeerWire Tasks MetadataSession.
From S2P Require Import MetadataSessionSafety MetadataSessionRelation MetadataPeer PeerStream PeerStreamTheorems.
From S2P Require Import Utp UtpSafety UtpTheorems UtpReassembly.

(** How long a packet is resent before the connection is given up: 1, 2, 4, 8
    and 16 seconds. *)
Definition GIVE_UP : Z := 31000000.

Section peer.
(** The peer's bytes, cut into packets that all fit into the reordering buffer,
    and the sequence number of the first. *)
Context (stream : list bytes) (first : Z) (Hfits : length stream <= MAX_OUT_OF_ORDER).
(** Its address and the connection's id; the connection attempt starts at
    [start], and all has arrived by [T]. *)
Context (addr : address) (id start T : Z) (Hpatience : (T < start + GIVE_UP)%Z).
(** The other connections of the socket. *)
Context (table : list (text * Z * Z)) (Hfree : (addr, id) ∉ table).

Definition brings (i : nat) (d : Z * (address * bytes)) : Prop :=
  exists p, decode_utp_packet d.2.2 = Some p /\ carries_part stream first i p.
Definition in_stream (d : Z * (address * bytes)) : Prop :=
  (d.1 <= T)%Z /\ d.2.1 = addr /\ exists p, decode_utp_packet d.2.2 = Some p /\ p.(connection_id) = id /\
    (p.(packet_type) = ST_STATE \/ exists i, carries_part stream first i p).

(** A packet is never given up before [start + GIVE_UP]. *)
Definition patient (kv : Z * unacked_entry) : Prop :=
  (0 <= kv.2.(resends) <= MAX_RESENDS)%Z /\
  (start + (2 ^ kv.2.(resends) - 1) * INITIAL_RESEND_SECONDS <= kv.2.(sent_at))%Z.

Lemma length_stream_small : (Z.of_nat (length stream) < 32768)%Z.
Proof. unfold MAX_OUT_OF_ORDER in Hfits. lia. Qed.

(** ** Resending *)

(** What resending keeps, as long as nothing is given up. *)
Record resend_stable (P : utp -> Prop) : Prop := {
  rs_inv v : P v -> utp_inv v;
  rs_closed v : P v -> v.(closed) = false;
  rs_patient v : P v -> Forall patient v.(unacked);
  rs_clock v : P v -> (v.(uclock) <= T)%Z;
  rs_unacked l v : P v -> Forall key_range l -> Forall patient l -> P (set_unacked l v);
  rs_sent ps v : P v -> P (sent ps v);
  rs_timer t v : P v -> P (set_resend_timer t v);
}.

Lemma patient_again k e now :
  patient (k, e) -> (now <= T)%Z ->
  (now - e.(sent_at) <? INITIAL_RESEND_SECONDS * 2 ^ e.(resends))%Z = false ->
  (MAX_RESENDS <=? e.(resends))%Z = false /\ patient (k, Unacked e.(packet) now (e.(resends) + 1)).
Proof.
  unfold patient, INITIAL_RESEND_SECONDS, MAX_RESENDS, GIVE_UP in *. cbn [snd resends sent_at]. intros [Hr Hs] Hn Hdue.
  assert (resends e = 4 \/ resends e < 4)%Z as [Hr4|Hr4] by lia; [rewrite Hr4 in *; lia|].
  split; [lia|]. split; [lia|]. rewrite Z.pow_add_r by lia. lia.
Qed.

Lemma Forall_dict_set {V} (Q : Z * V -> Prop) k v l : Q (k, v) -> Forall Q l -> Forall Q (dict_set k v l).
Proof.
  intros Hq Hl. apply Forall_forall. intros kv [->|Hin]%elem_of_dict_set; [done|]. by apply (Forall_forall Q l).
Qed.

Lemma tri_resend_patient P now entries u :
  resend_stable P -> (now <= T)%Z -> Forall patient entries -> Forall key_range entries -> P u ->
  tri (resend_entries now entries) (fun finished v => finished = true /\ P v) (fun _ _ => False) u.
Proof.
  intros HP Hnow Hpat. revert u. induction Hpat as [|[k e] entries Hk Hpat IH]; intros u Hall Hu; cbn [resend_entries].
  { by apply tri_ret. }
  apply Forall_cons in Hall as [Hkr Hall]. case_match eqn:Hdue; [by apply IH|].
  destruct (patient_again k e now Hk Hnow Hdue) as [-> Hagain]. apply tri_bind, tri_change, tri_bind.
  set (v := set_unacked _ u). assert (P v) as Hv.
  { apply (rs_unacked P HP); [done|..]; apply Forall_dict_set; try done; [|by apply (rs_patient P HP)].
    apply (rs_inv P HP u Hu). }
  destruct (socket_send_eq (packet e) v) as [ps Hps]. unfold tri at 1. rewrite Hps. apply IH; [done|]. by apply (rs_sent P HP).
Qed.

Lemma tri_check_resend_patient P u :
  resend_stable P -> P u -> tri check_resend (fun _ v => P v) (fun _ _ => False) u.
Proof.
  intros HP Hu. unfold check_resend. apply tri_bind, tri_change. set (v := set_resend_timer None u).
  assert (P v) as Hv by by apply (rs_timer P HP). apply tri_bind, tri_reads. rewrite (rs_closed P HP v Hv).
  apply tri_bind. eapply tri_mono; [apply (tri_resend_patient P); [done|by apply (rs_clock P HP)|by apply (rs_patient P HP)| |done]| |done].
  { apply (rs_inv P HP v Hv). }
  intros finished w [-> Hw]. cbn [negb]. apply tri_bind, tri_reads, tri_bind.
  apply (tri_mono _ (fun _ x => P x) _ (fun _ _ => False)); [| |done].
  - apply tri_when; intros Hne; [|done]. apply negb_true_iff, bool_decide_eq_false in Hne.
    eapply tri_mono; [apply tri_arm_resend; [by apply (rs_inv P HP)|done]| |done].
    intros _ x [_ [->| ->]]; [done|]. by apply (rs_timer P HP).
  - intros _ x Hx. apply tri_bind, tri_reads, tri_check; [by rewrite (rs_closed P HP x Hx)|done].
Qed.

(** ** The connection while the stream comes in *)

(** [base] has been read of the stream; every part has come in or will. *)
Record flowing (base : bytes) (u : utp) : Prop := {
  fl_established : established u;
  fl_parts : exists k got, assembling stream first base k got u /\
    forall i, i < length stream -> got i \/ Exists (brings i) u.(datagrams_due);
  fl_due : Forall in_stream u.(datagrams_due);
  fl_key : key_of u = (addr, id) /\ u.(connections) = table ++ [(addr, id)];
  fl_clock : (start <= u.(uclock) <= T)%Z;
  fl_unacked : Forall patient u.(unacked);
}.

(** Whoever waits to read sees no difference. *)
Definition same_reading (u v : utp) : Prop := readable v = readable u /\ ubuffer v = ubuffer u.

Lemma flowing_stable base u : flowing base u -> resend_stable (fun v => flowing base v /\ same_reading u v).
Proof.
  intros _. split.
  - by intros v [[[]] _].
  - by intros v [[[]] _].
  - by intros v [[] _].
  - intros v [[_ _ _ _ [_ ?] _] _]. done.
  - intros l v [[[[] ? ? ?] (k & got & [] & ?) ? ? ? ?] ?] Hk Hp. split; [|done]. split; try done; first [exists k, got; by split|by split; [split|..]].
  - intros ps v [[[[] ? ? ?] (k & got & [] & ?) ? ? ? ?] ?]. split; [|done]. split; try done; first [exists k, got; by split|by split; [split|..]].
  - intros t v [[[[] ? Hcl ?] (k & got & [] & ?) ? ? ? ?] ?]. split; [|done]. split; try done; [|exists k, got; by split].
    split; try done. split; try done. cbn. by rewrite Hcl.
Qed.

Lemma unacked_after_patient ack l : Forall patient l -> Forall patient (unacked_after ack l).
Proof.
  intros Hl. apply Forall_forall. intros kv [_ Hin]%list_elem_of_filter. by apply (Forall_forall patient l).
Qed.

(** A datagram of the peer. *)
Lemma tri_datagram_flowing base t from data rest u :
  flowing base u -> u.(datagrams_due) = (t, (from, data)) :: rest ->
  tri (handle_event (Arrives t from data rest)) (fun _ v => flowing base v /\ woken u v) (fun _ _ => False) u.
Proof.
  intros [Hest (k & got & Has & Hparts) Hdue Hkey Hclock Hun] Heq. rewrite Heq in Hdue, Hparts.
  apply Forall_cons in Hdue as [(Ht & Hfrom & p & Hp & Hid & Hkind) Hrest]. cbn [fst snd] in *. subst from.
  unfold handle_event. apply tri_bind, tri_reads, tri_bind, tri_change, tri_bind, tri_change.
  set (v := set_datagrams_due _ _). apply (tri_callback_then _ (fun w => flowing base w /\ woken u w)).
  { by intros w [[[]] _]. }
  { intros w ps [[[[] ? ? ?] (k' & got' & [] & ?) ? ? ? ?] ?]. split; [|done]. split; try done; first [exists k', got'; by split|by split; [split|..]]. }
  unfold datagram_received. rewrite Hp. apply tri_bind, tri_reads. rewrite Hid.
  change (key_of v) with (key_of u). change (connections v) with (connections u). destruct Hkey as [Hkey Htable].
  rewrite !bool_decide_eq_true_2 by (rewrite ?Htable; set_solver). cbn [andb when].
  destruct (decode_utp_packet_fields _ _ Hp) as (Hseq & Hack & _).
  assert (established v) as Hv by (destruct Hest as [[] ? ? ?]; by split; [split|..]).
  assert (assembling stream first base k got v) as Hasv by (by destruct Has).
  eapply tri_mono; [apply (tri_packet_of_stream stream first length_stream_small base k got p v Hv Hasv)| |done].
  { by split. }
  intros _ w (Hw & [Hwk Hsame] & k' & Hk').
  assert (key_of w = key_of u /\ connections w = connections u /\ uclock w = uclock v /\ datagrams_due w = rest /\
    unacked w = unacked_after (pkt_ack_nr p) (unacked u)) as (Hw1 & Hw2 & Hw3 & Hw4 & Hw5).
  { destruct w, u. unfold unordered, key_of in *. cbn in *. by simplify_eq. }
  split; [|exact Hwk]. split; try done.
  - exists k', (fun j => got j \/ carries_part stream first j p). split; [done|]. rewrite Hw4. intros i Hi.
    destruct (Hparts i Hi) as [|[(p' & Hp' & Hpart)|]%Exists_cons]; [auto| |auto].
    cbn [fst snd] in Hp'. rewrite Hp in Hp'. injection Hp' as ->. auto.
  - by rewrite Hw4.
  - by rewrite Hw1, Hw2.
  - rewrite Hw3. cbn. lia.
  - rewrite Hw5. by apply unacked_after_patient.
Qed.

(** The timer, when it goes off before the next datagram. *)
Lemma tri_timer_flowing base r u :
  flowing base u -> (r <= T)%Z ->
  tri (handle_event (ResendDue r)) (fun _ v => flowing base v /\ same_reading u v) (fun _ _ => False) u.
Proof.
  intros Hu Hr. unfold handle_event. apply tri_bind, tri_reads, tri_bind, tri_change. set (v := set_uclock _ u).
  assert (flowing base v) as Hv.
  { destruct Hu as [[[] ? ? ?] (k & got & [] & ?) ? ? ? ?]. split; try done; first [exists k, got; by split|by split; [split|..]|cbn; lia]. }
  apply (tri_callback_then _ (fun w => flowing base w /\ same_reading v w)).
  { by intros w [[[]] _]. }
  { intros w ps [[[[] ? ? ?] (k' & got' & [] & ?) ? ? ? ?] ?]. split; [|done]. split; try done; first [exists k', got'; by split|by split; [split|..]]. }
  apply tri_check_resend_patient; [by apply flowing_stable|]. done.
Qed.

(** ** Reading *)

(** What is still to be read of the stream. *)
Definition yet (base : bytes) : bytes := drop (length base) (concat stream).

Lemma flowing_prefix base u : flowing base u -> exists k, base ++ ubuffer u = concat (take k stream).
Proof. intros [_ (k & got & [_ _ Hd _ _ _] & _) _ _ _ _]. by exists k. Qed.

Lemma flowing_buffer base u : flowing base u -> exists more, yet base = ubuffer u ++ more.
Proof.
  intros (k & Hk)%flowing_prefix. exists (concat (drop k stream)). unfold yet.
  rewrite <-(take_drop k stream) at 1. rewrite concat_app, <-Hk, <-app_assoc. by rewrite drop_app_length.
Qed.

(** With nothing more to come, all of it has come. *)
Lemma flowing_all base u : flowing base u -> u.(datagrams_due) = [] -> ubuffer u = yet base.
Proof.
  intros Hu Hnone. destruct (fl_parts _ _ Hu) as (k & got & Has & Hparts).
  assert (k = length stream) as ->.
  { pose proof (as_delivered _ _ _ _ _ _ Has) as Hk. destruct (decide (k = length stream)) as [|Hne]; [done|exfalso].
    destruct (Hparts k) as [Hgot|Hex]; [lia| |rewrite Hnone in Hex; by apply Exists_nil in Hex].
    destruct (as_all _ _ _ _ _ _ Has k Hfits) as [|[d Hd]]; [lia|done|lia|].
    rewrite <-(proj2 (as_ack _ _ _ _ _ _ Has)) in Hd.
    by rewrite (inv_next u (es_inv _ (fl_established _ _ Hu))) in Hd. }
  pose proof (as_data _ _ _ _ _ _ Has) as Hd. rewrite firstn_all in Hd. unfold yet. rewrite <-Hd. by rewrite drop_app_length.
Qed.

(** What is next is a datagram of the peer or the timer, in time. *)
Lemma next_event_flowing base D u :
  flowing base u -> (T < D)%Z ->
  match next_event D u with
  | Arrives t from data rest => u.(datagrams_due) = (t, (from, data)) :: rest
  | ResendDue r => u.(datagrams_due) = [] \/ (r <= T)%Z
  | TimeIsUp => u.(datagrams_due) = []
  end.
Proof.
  intros Hu HT. pose proof (fl_due _ _ Hu) as Hdue. unfold next_event.
  destruct (datagrams_due u) as [|[t [from data]] rest]; [destruct (resend_timer u) as [r|]; [destruct (r <? D)%Z|]; cbn; auto|].
  apply Forall_cons in Hdue as [[Ht _] _]. cbn in Ht.
  destruct (Z.ltb_spec t D); [cbn [andb]|lia]. destruct (resend_timer u) as [r|]; [|done].
  destruct (Z.ltb_spec r D); [|done]. destruct (Z.leb_spec t r); [done|right; lia].
Qed.

Lemma tri_run_loop_flowing turns base D u :
  flowing base u -> (T < D)%Z -> length (ubuffer u) < length (yet base) -> readable u = false ->
  events_before D u <= turns ->
  tri (run_loop turns readable D) (fun b v => b = true /\ flowing base v /\ events_before D v < events_before D u)
    (fun _ _ => False) u.
Proof.
  intros Hu HD. revert u Hu. induction turns as [|turns IH]; intros u Hu Hshort Hr Hturns; cbn [run_loop];
    apply tri_bind, tri_reads; rewrite Hr; pose proof (next_event_flowing base D u Hu HD) as Hnext;
    pose proof (flowing_all base u Hu) as Hall; pose proof (es_inv _ (fl_established _ _ Hu)) as Hinv;
    assert (uclock u < D)%Z as Hclock by (destruct (fl_clock _ _ Hu); lia).
  - rewrite no_event_left in * by lia. rewrite Hall in Hshort by done. lia.
  - pose proof (tri_handle_event D u Hinv Hclock) as Hsafe.
    assert (tri (handle_event (next_event D u)) (fun _ v => flowing base v /\ woken u v) (fun _ _ => False) u) as Hev.
    { destruct (next_event D u) as [t from data rest|r|].
      - by apply tri_datagram_flowing.
      - destruct Hnext as [Hnone|Hrt]; [rewrite (Hall Hnone) in Hshort; lia|].
        eapply tri_mono; [by apply tri_timer_flowing| |done]. intros _ v [Hv [_ Hb]]. split; [done|by right].
      - rewrite Hall in Hshort by done. lia. }
    destruct (next_event D u) as [t from data rest|r|] eqn:Hne; [..|rewrite Hall in Hshort by done; lia].
    all: apply tri_bind; eapply tri_mono; [exact (tri_and _ _ _ _ _ _ (Hsafe ltac:(done)) Hev)| |by intros e v []];
      intros _ v [(Hwv & Hvc & Hevs) [Hv Hwoken]];
      destruct (readable v) eqn:Hrv.
    1, 3: destruct turns; cbn [run_loop]; apply tri_bind, tri_reads; rewrite Hrv; by apply tri_ret.
    all: destruct Hwoken as [Hrv'|Hb]; [congruence|];
      eapply tri_mono; [apply IH; [done|by rewrite Hb|done|lia]| |done]; intros b w (? & ? & ?); split; [done|]; split; [done|lia].
Qed.

Lemma flowing_not_ended base u : flowing base u -> ended u = false.
Proof.
  intros [[Hi _ Hc He] _ _ _ _ _]. unfold ended. rewrite He. pose proof (inv_error u Hi) as Herr.
  destruct (error u); [destruct Herr; congruence|]. done.
Qed.

Lemma flowing_cleared base b u : flowing base u -> flowing base (set_readable b u).
Proof.
  intros [[[] ? ? ?] (k & got & [] & ?) ? ? ? ?]. split; try done; first [exists k, got; by split|by split; [split|..]].
Qed.

Lemma tri_fill_buffer_flowing turns base n D reason u :
  flowing base u -> (T < D)%Z -> n <= length (yet base) -> events_before D u < turns ->
  tri (fill_buffer turns n D reason) (fun _ v => flowing base v /\ n <= length (ubuffer v)) (fun _ _ => False) u.
Proof.
  intros Hu HD Hn. revert u Hu. induction turns as [|turns IH]; intros u Hu Hturns; [lia|]. cbn [fill_buffer].
  apply tri_bind, tri_reads. case_bool_decide as Hb; [by apply tri_ret|]. rewrite (flowing_not_ended base) by done. cbv zeta.
  destruct (fl_clock _ _ Hu) as [Hc1 Hc2]. destruct (Z.leb_spec (D - uclock u) 0); [lia|].
  apply tri_bind, tri_change, tri_bind. unfold within. apply tri_bind, tri_reads. cbv zeta.
  change (uclock (set_readable false u)) with (uclock u). replace (uclock u + (D - uclock u))%Z with D by lia.
  eapply tri_mono; [apply (tri_run_loop_flowing _ base D); [by apply flowing_cleared|done|cbn; lia|done|done]| |done].
  intros b v (-> & Hv & Hevs). apply IH; [done|]. change (events_before D (set_readable false u)) with (events_before D u) in Hevs. lia.
Qed.

(** A read returns what is next of the stream. *)
Lemma tri_read_flowing base n D reason u :
  flowing base u -> (T < D)%Z -> 0 < n <= length (yet base) ->
  tri (utp_read_exactly n D reason)
    (fun data v => data = take n (yet base) /\ exists base', flowing base' v /\ yet base' = drop n (yet base)) (fun _ _ => False) u.
Proof.
  intros Hu HD [Hpos Hn]. unfold utp_read_exactly. apply tri_bind, tri_check; [by apply bool_decide_eq_true_2|].
  apply tri_bind, tri_reads, tri_bind. eapply tri_mono; [apply (tri_fill_buffer_flowing _ base); [done|done|done|lia]| |done].
  intros _ v [Hv Hl]. apply tri_bind, tri_reads. cbv zeta. apply tri_bind, tri_change, tri_bind, tri_check.
  { apply bool_decide_eq_true_2. rewrite length_take. lia. }
  apply tri_ret. destruct (flowing_buffer base v Hv) as [more Hmore]. split; [rewrite Hmore; by rewrite take_app_le|].
  exists (base ++ take n (ubuffer v)). split; [|unfold yet; rewrite length_app, length_take, Nat.min_l by lia; by rewrite drop_drop].
  destruct Hv as [[[] ? ? ?] (k & got & [] & ?) ? ? ? ?]. split; try done.
  exists k, got. split; [|done]. split; try done. cbn [ubuffer set_ubuffer]. by rewrite <-app_assoc, take_drop.
Qed.

(** ** Writing *)

Lemma patient_now k packet u : (start <= uclock u)%Z -> patient (k, Unacked packet (uclock u) 0).
Proof. intros. unfold patient, MAX_RESENDS, INITIAL_RESEND_SECONDS. cbn. lia. Qed.

Lemma flowing_await base packet u :
  flowing base u ->
  flowing base (set_seq_nr (next_seq u.(seq_nr)) (set_unacked (dict_set u.(seq_nr) (Unacked packet u.(uclock) 0) u.(unacked)) u)).
Proof.
  intros [[[] ? ? ?] (k & got & [] & ?) ? ? [? ?] ?]. split; try done; [|exists k, got; by split|].
  - split; try done. split; try done; [apply next_seq_range|by apply key_range_dict_set].
  - apply Forall_dict_set; [by apply patient_now|done].
Qed.

Lemma tri_send_payloads_flowing base parts u :
  flowing base u -> tri (send_payloads parts) (fun _ v => flowing base v) (fun _ _ => False) u.
Proof.
  revert u. induction parts as [|part parts IH]; intros u Hu; cbn [send_payloads]; [by apply tri_ret|].
  apply tri_bind, tri_reads, tri_bind.
  eapply tri_mono; [apply tri_send_packet; [apply (fl_established _ _ Hu)|set_solver|apply (fl_established _ _ Hu)]| |done].
  intros packet _ [ps ->]. apply tri_bind. unfold await_ack. apply tri_bind, tri_change, tri_change.
  apply IH. apply (flowing_await base packet (sent ps u)). by apply (rs_sent _ (flowing_stable base u Hu)).
Qed.

Lemma tri_write_flowing base data u :
  flowing base u -> data <> [] -> tri (utp_write data) (fun _ v => flowing base v) (fun _ _ => False) u.
Proof.
  intros Hu Hd. unfold utp_write. apply tri_bind, tri_check; [by rewrite bool_decide_eq_false_2|].
  apply tri_bind, tri_reads. rewrite (es_closed _ (fl_established _ _ Hu)). apply tri_bind.
  pose proof (tri_send_payloads (payloads (length data) data) u (es_inv _ (fl_established _ _ Hu))
    (es_closed _ (fl_established _ _ Hu))) as Hsafe.
  eapply tri_mono; [exact (tri_and _ _ _ _ _ _ Hsafe (tri_send_payloads_flowing base _ u Hu))| |by intros e v []].
  intros _ v [[_ Hne] Hv]. assert (unacked v <> []) as Hun by (apply Hne; by destruct data). apply tri_bind.
  eapply tri_mono; [apply tri_arm_resend; [apply (fl_established _ _ Hv)|done]| |done]. intros _ w [_ Hw].
  apply tri_bind, tri_reads, tri_check; [rewrite bool_decide_eq_false_2; [done|]; by destruct Hw as [->| ->]|].
  destruct Hw as [->| ->]; [done|]. by apply (rs_timer _ (flowing_stable base v Hv)).
Qed.

(** ** A session in step with one on the peer's bytes *)

Definition carries_utp (u : utp) (s : script) : Prop := exists base, flowing base u /\ s.(coming) = yet base.

Lemma carries_utp_read n d e reason :
  later T d e ->
  in_step True carries_utp eq (read_exactly (ByteStream := UtpStream) n d reason)
    (read_exactly (ByteStream := ScriptStream) n e reason).
Proof.
  intros (Hd & _ & _) u s (base & Hu & Hs). cbn [read_exactly ScriptStream UtpStream]. unfold script_read.
  destruct (decide (0 < n /\ reason ∈ FETCH_REASONS /\ n <= length (coming s))) as [(Hn & Hr & Hl)|Hno].
  - rewrite !bool_decide_eq_true_2 by done. cbn [andb negb]. rewrite Hs in Hl |- *.
    pose proof (tri_read_flowing base n d reason u Hu Hd (conj Hn Hl)) as Htri. unfold tri in Htri.
    destruct (utp_read_exactly n d reason u) as [[data|] v]; [|done]. destruct Htri as [-> (base' & Hv & Hy)].
    split; [done|]. exists base'. by rewrite Hy.
  - destruct (bool_decide (0 < n) && bool_decide (reason ∈ FETCH_REASONS)) eqn:Hb; cbn [negb].
    + apply andb_true_iff in Hb as [Hb1%bool_decide_eq_true Hb2%bool_decide_eq_true].
      rewrite bool_decide_eq_false_2 by tauto. destruct (utp_read_exactly n d reason u) as [[]]; auto.
    + destruct (utp_read_exactly n d reason u) as [[]]; auto.
Qed.

Lemma carries_utp_write data :
  data <> [] ->
  in_step True carries_utp eq (write (ByteStream := UtpStream) data) (write (ByteStream := ScriptStream) data).
Proof.
  intros Hd u s (base & Hu & Hs). cbn. pose proof (tri_write_flowing base data u Hu Hd) as Htri. unfold tri in Htri.
  destruct (utp_write data u) as [[[]|] v]; [|done]. split; [done|]. by exists base.
Qed.

(** ** Connecting *)

(** The peer's answer to the [SYN], and what comes after it. *)
Context (t0 : Z) (answer : bytes) (answered : utp_packet) (rest : list (Z * (address * bytes))).
Context (Hanswer : decode_utp_packet answer = Some answered) (Hstate : answered.(packet_type) = ST_STATE)
  (Hanswer_id : answered.(connection_id) = id) (Hfirst : answered.(pkt_seq_nr) = first) (Ht0 : (t0 <= T)%Z).
Context (Hrest : Forall in_stream rest) (Hall : forall i, i < length stream -> Exists (brings i) rest).

(** The [SYN] is out, and the answer is to come. *)
Record knocking (u : utp) : Prop := {
  kn_inv : utp_inv u;
  kn_state : u.(connected_state) = false /\ u.(closed) = false /\ u.(eof_seq) = None /\ u.(ubuffer) = [];
  kn_connected : u.(connected) = None;
  kn_due : u.(datagrams_due) = (t0, (addr, answer)) :: rest;
  kn_key : key_of u = (addr, id) /\ u.(connections) = table ++ [(addr, id)];
  kn_clock : (start <= u.(uclock) <= t0)%Z;
  kn_unacked : Forall patient u.(unacked);
}.

Lemma knocking_stable : resend_stable knocking.
Proof.
  split.
  - by intros v [].
  - by intros v [_ (? & ? & ?)].
  - by intros v [].
  - intros v [_ _ _ _ _ [] _]. lia.
  - intros l v [[] ? ? ? ? ? ?] Hk Hp. split; try done; by split.
  - intros ps v [[] ? ? ? ? ? ?]. split; try done; by split.
  - intros t v [[] (? & Hc & ?) ? ? ? ? ?]. split; try done. split; try done. cbn. by rewrite Hc.
Qed.

Lemma tri_timer_knocking r u :
  knocking u -> (r <= t0)%Z -> tri (handle_event (ResendDue r)) (fun _ v => knocking v) (fun _ _ => False) u.
Proof.
  intros Hu Hr. unfold handle_event. apply tri_bind, tri_reads, tri_bind, tri_change. set (v := set_uclock _ u).
  assert (knocking v) as Hv by (destruct Hu as [[] ? ? ? ? ? ?]; split; try done; cbn; lia).
  apply (tri_callback_then _ knocking); [by intros w []| |by apply tri_check_resend_patient; [apply knocking_stable|]].
  intros w ps [[] ? ? ? ? ? ?]. split; try done; by split.
Qed.

Definition connected_by (u : utp) : Prop := flowing [] u /\ u.(connected) = Some true.

Lemma first_in_16 : in_16 first.
Proof. destruct (decode_utp_packet_fields _ _ Hanswer) as (Hs & _ & _). by rewrite <-Hfirst. Qed.

(** The answer comes in: the connection is established. *)
Lemma tri_answer u :
  knocking u ->
  tri (handle_event (Arrives t0 addr answer rest)) (fun _ v => connected_by v) (fun _ _ => False) u.
Proof.
  intros [Hinv (Hcs & Hcl & Heof & Hbuf) Hco Hdue [Hkey Htable] Hclock Hun]. unfold handle_event.
  apply tri_bind, tri_reads, tri_bind, tri_change, tri_bind, tri_change. set (v := set_datagrams_due _ _).
  apply (tri_callback_then _ connected_by).
  { by intros w [[[]] _]. }
  { intros w ps [[[[] ? ? ?] (k' & got' & [] & ?) ? ? ? ?] ?]. split; [|done].
    split; try done; first [exists k', got'; by split|by split; [split|..]]. }
  unfold datagram_received. rewrite Hanswer. apply tri_bind, tri_reads. rewrite Hanswer_id.
  change (key_of v) with (key_of u). change (connections v) with (connections u).
  rewrite !bool_decide_eq_true_2 by (rewrite ?Htable; set_solver). cbn [andb when].
  unfold packet_received. apply tri_bind, tri_reads. change (closed v) with (closed u). rewrite Hcl.
  apply tri_bind, tri_change. rewrite Hstate. cbn [Z.eqb ST_STATE ST_RESET connected_state set_reply_micro set_datagrams_due set_uclock v].
  rewrite Hcs. cbn [negb]. apply tri_bind, tri_change, tri_bind, tri_change.
  set (w := set_connected_state true _). destruct (decode_utp_packet_fields _ _ Hanswer) as (_ & Hack & _).
  apply tri_bind. unfold tri at 1. rewrite acknowledge_eq; [|done|apply Hinv].
  unfold set_connected_result. apply tri_bind, tri_reads. change (connected (set_unacked _ w)) with (connected u). rewrite Hco.
  cbn [when bool_decide]. rewrite bool_decide_eq_true_2 by done. cbn [when]. apply tri_change.
  set (x := set_connected _ _). pose proof (mask_range (pkt_seq_nr answered - 1)) as Hm.
  assert (out_of_order u = ∅) as Hooo by by apply (inv_unconnected u).
  assert (next_seq (ack_nr x) = seq_of first 0) as Hnext.
  { cbn. rewrite Hfirst, next_seq_mod. unfold seq_of, SEQUENCE_MASK. change 0xFFFF%Z with (Z.ones 16). rewrite Z.land_ones by lia.
    change (2 ^ 16)%Z with 65536%Z. rewrite Z.add_mod_idemp_l by lia. f_equal. lia. }
  split; [|done]. split.
  - split; try done. destruct Hinv. split; try done; cbn.
    + by rewrite Hooo.
    + apply Forall_forall. intros kv [_ Hin]%list_elem_of_filter. by apply (Forall_forall key_range (unacked u)).
  - exists 0, (fun _ => False). split; [|intros i Hi; right; by apply Hall].
    split; try done; cbn; rewrite ?Hooo, ?Hbuf; try done; [lia|intros j [?|[_ [d Hd]]]; [lia|done]].
  - done.
  - done.
  - cbn. lia.
  - by apply unacked_after_patient.
Qed.

Lemma next_event_knocking D u :
  knocking u -> (t0 < D)%Z ->
  match next_event D u with
  | Arrives t from data more => t = t0 /\ from = addr /\ data = answer /\ more = rest
  | ResendDue r => (r <= t0)%Z
  | TimeIsUp => False
  end.
Proof.
  intros Hu HT. unfold next_event. rewrite (kn_due _ Hu). destruct (Z.ltb_spec t0 D); [cbn [andb]|lia].
  destruct (resend_timer u) as [r|]; [|done]. destruct (Z.ltb_spec r D); [|done].
  destruct (Z.leb_spec t0 r); [done|lia].
Qed.

Lemma tri_run_loop_knocking turns D u :
  knocking u -> (t0 < D)%Z -> events_before D u <= turns ->
  tri (run_loop turns (fun u => negb (bool_decide (u.(connected) = None))) D) (fun b v => b = true /\ connected_by v)
    (fun _ _ => False) u.
Proof.
  intros Hu HD. revert u Hu. induction turns as [|turns IH]; intros u Hu Hturns; cbn [run_loop];
    apply tri_bind, tri_reads; rewrite (kn_connected _ Hu), bool_decide_eq_true_2 by done; cbn [negb];
    pose proof (next_event_knocking D u Hu HD) as Hnext;
    assert (uclock u < D)%Z as Hclock by (destruct (kn_clock _ Hu); lia).
  - rewrite no_event_left in Hnext by lia. done.
  - pose proof (tri_handle_event D u (kn_inv _ Hu) Hclock) as Hsafe.
    destruct (next_event D u) as [t from data more|r|]; [..|done]; apply tri_bind.
    + destruct Hnext as (-> & -> & -> & ->). eapply tri_mono; [by apply tri_answer| |done].
      intros _ v [Hv Hco]. destruct turns; cbn [run_loop]; apply tri_bind, tri_reads; rewrite Hco; by apply tri_ret.
    + eapply tri_mono; [exact (tri_and _ _ _ _ _ _ (Hsafe ltac:(done)) (tri_timer_knocking r u Hu Hnext))| |by intros e v []].
      intros _ v [(_ & _ & Hevs) Hv]. apply IH; [done|lia].
Qed.

Lemma tri_send_syn_knocking u :
  knocking u -> tri send_syn (fun _ v => knocking v) (fun _ _ => False) u.
Proof.
  intros Hu. pose proof Hu as [Hinv (Hcs & Hcl & _) _ _ _ [Hc _] _]. unfold send_syn.
  apply tri_bind, tri_reads, tri_bind, tri_check; [by rewrite Hcs|].
  apply tri_bind. eapply tri_mono; [apply tri_send_packet; [done|set_solver|done]| |done].
  intros packet _ [ps ->]. apply tri_bind. unfold await_ack. apply tri_bind, tri_change, tri_change. apply tri_bind.
  set (v := set_seq_nr _ _). assert (knocking v) as Hv.
  { destruct Hu as [[] ? ? ? ? ? ?]. split; try done.
    - split; try done; [apply next_seq_range|by apply key_range_dict_set].
    - cbn. apply Forall_dict_set; [by apply patient_now|done]. }
  assert (unacked v <> []) as Hne by (cbn; destruct (unacked u) as [|[]]; cbn; [done|by case_decide]).
  clearbody v. eapply tri_mono; [apply tri_arm_resend; [apply Hv|done]| |done]. intros _ w [_ Hw].
  apply tri_bind, tri_reads, tri_check; [rewrite bool_decide_eq_false_2; [done|]; by destruct Hw as [->| ->]|].
  destruct Hw as [->| ->]; [done|]. by apply (rs_timer _ knocking_stable).
Qed.

Lemma tri_connect_in_time random2 timeout u :
  be_decode random2 = id -> length random2 = 2 -> u.(connections) = table -> uclock u = start ->
  u.(datagrams_due) = (t0, (addr, answer)) :: rest -> (start <= t0 < start + timeout)%Z ->
  tri (connect_utp random2 addr timeout) (fun _ v => flowing [] v) (fun _ _ => False) u.
Proof.
  intros Hid Hr Htable Hstart Hdue Ht. unfold connect_utp. apply tri_bind, tri_check; [lia|]. apply tri_bind, tri_reads.
  assert (in_16 id) as Hid16.
  { rewrite <-Hid. pose proof (be_decode_range random2) as Hb. rewrite Hr in Hb. unfold in_16, SEQUENCE_MASK. lia. }
  apply tri_bind. rewrite Hid, Htable. eapply tri_call_Ok.
  { unfold free_id. destruct (length table); by rewrite bool_decide_eq_false_2. }
  apply tri_bind, tri_check; [unfold in_16 in Hid16; lia|]. apply tri_bind, tri_change, tri_bind, tri_change.
  set (c := set_connections _ _). assert (knocking c) as Hc.
  { pose proof (inv_new addr id u Hid16) as []. split; try done; [|cbn; lia]. split; [done|]. cbn. by rewrite Htable. }
  apply tri_bind. eapply tri_mono; [by apply tri_send_syn_knocking| |done]. intros u1 v Hv.
  apply tri_bind. unfold within. apply tri_bind, tri_reads. cbv zeta.
  eapply tri_mono; [apply tri_run_loop_knocking; [done|destruct (kn_clock _ Hv); lia|done]| |done].
  intros b w [-> [Hw Hco]]. cbn [negb]. apply tri_bind, tri_reads. rewrite bool_decide_eq_true_2 by exact Hco.
  apply tri_check; [exact (es_connected _ (fl_established _ _ Hw))|done].
Qed.

(** ** Fetching *)

Context (sha1 : bytes -> bytes) (depth : nat).

Lemma tri_close_flowing base u :
  flowing base u ->
  tri (utp_close true) (fun _ v => closed v = true /\ uclock v = uclock u /\ v.(connections) = table /\ key_of v = (addr, id))
    (fun _ _ => False) u.
Proof.
  intros [Hest _ _ [Hk Ht] _ _].
  destruct (utp_close_eq true u) as [ps Heq]; [apply Hest|apply Hest|apply Hest|]. unfold tri. rewrite Heq.
  split; [done|]. split; [done|]. split; [|done]. cbn. unfold others. change (key_of (sent ps u)) with (key_of u).
  change (connections (sent ps u)) with (connections u). rewrite Hk, Ht, filter_app, filter_cons_False by tauto.
  rewrite filter_nil, app_nil_r. apply filter_all. by intros k Hin ->.
Qed.

(** A session on the peer's bytes, and the fetch it is part of. *)
Lemma tri_fetch_in_time fuel owned random2 random info_hash timeouts metadata logged u :
  length info_hash = NODE_ID_LENGTH -> sha1 metadata = info_hash -> metadata <> [] ->
  (0 <= timeouts.(handshake))%Z -> (0 <= timeouts.(piece))%Z -> (0 <= start)%Z ->
  (T < start + timeouts.(session))%Z -> (T < start + timeouts.(handshake))%Z -> (T < start + timeouts.(piece))%Z ->
  be_decode random2 = id -> length random2 = 2 -> u.(connections) = table -> uclock u = start ->
  (owned = true -> table = []) ->
  u.(datagrams_due) = (t0, (addr, answer)) :: rest -> (start <= t0 < start + timeouts.(utp_connect))%Z ->
  run_session depth fuel random info_hash timeouts 0 true {| coming := concat stream; log := [] |} = (Ok metadata, logged) ->
  tri (fetch_metadata_utp sha1 depth fuel owned random2 random info_hash addr timeouts)
    (fun data v => data = metadata /\ (closed v = true /\ v.(connections) = table) /\ (uclock v <= T)%Z) (fun _ _ => False) u.
Proof.
  intros Hh Hsha Hne Hhs Hpc Hst HT1 HT2 HT3 Hid Hr Htable Hstart Hown Hdue Ht Hscript.
  unfold fetch_metadata_utp. apply tri_bind, tri_check; [by apply is_node_id_of|].
  apply tri_bind. unfold now. apply tri_reads. cbv zeta. cbn [loop_time UtpStream]. rewrite Hstart. apply tri_bind, tri_finally, tri_bind.
  eapply tri_mono; [by apply tri_connect_in_time| |done]. intros u1 v Hv. apply tri_finally.
  assert (in_step True carries_utp eq (run_session (ByteStream0 := UtpStream) depth fuel random info_hash timeouts (start + session timeouts) true)
    (run_session (ByteStream0 := ScriptStream) depth fuel random info_hash timeouts 0 true)) as Hstep.
  { apply (step_run_session depth timeouts True _ (later T)).
    - by intros d e (? & ? & ?).
    - intros d e w s (? & ? & ?) (base & Hw & _). pose proof (fl_clock _ _ Hw). unfold later. cbn. lia.
    - intros d e w s (? & ? & ?) (base & Hw & _). pose proof (fl_clock _ _ Hw). unfold later. cbn. lia.
    - intros n d e reason. apply carries_utp_read.
    - intros data. apply carries_utp_write.
    - unfold later. lia. }
  assert (carries_utp v {| coming := concat stream; log := [] |}) as Hcar by (exists []; done).
  specialize (Hstep v _ Hcar). rewrite Hscript in Hstep.
  unfold tri at 1. destruct (run_session _ _ _ _ _ _ _ v) as [[data|e] w]; [|done]. destruct Hstep as [-> (base & Hw & _)].
  eapply tri_mono; [by eapply tri_close_flowing| |done]. intros u2 x (Hcl & Hclock & Htx & Hkx).
  apply (tri_mono _ (fun _ y => (closed y = true /\ y.(connections) = table) /\ uclock y = uclock x) _ (fun _ _ => False)); [| |done].
  - apply tri_when; intros Ho; [|done]. specialize (Hown Ho). unfold socket_close. apply tri_bind, tri_reads, tri_bind, tri_when; intros Hk.
    { apply bool_decide_eq_true in Hk. rewrite Hkx, Htx in Hk. done. }
    apply tri_bind, tri_change, tri_bind, tri_reads, tri_check; [|done]. apply bool_decide_eq_true_2. cbn. by rewrite Htx.
  - intros u3 y [Hy Hyc]. apply tri_bind. unfold verify_metadata. rewrite is_node_id_of by done. cbn [assert_ mbind res_bind].
    rewrite bool_decide_eq_true_2 by done. cbn [negb raise_if]. apply tri_call. cbn [returns]. apply tri_bind, tri_check; [by rewrite bool_decide_eq_false_2|].
    apply tri_ret. split; [done|]. split; [done|]. rewrite Hyc, Hclock. apply (fl_clock _ _ Hw).
Qed.
End peer.

(** ** The claim *)

(** The peer at [addr] answers the [SYN] of the connection [id] in time, and
    sends [data] cut into packets, numbered from that of its answer on, that all
    arrive by [T], before any deadline: in whatever order, as often as it
    likes, with acknowledgements between them. *)
Record delivers (timeouts : FetchTimeouts) (addr : address) (id T : Z) (data : bytes) (u : utp) : Prop := {
  dl_datagrams : exists t0 answer answered rest stream,
    u.(datagrams_due) = (t0, (addr, answer)) :: rest /\ decode_utp_packet answer = Some answered /\
    answered.(packet_type) = ST_STATE /\ answered.(connection_id) = id /\
    (uclock u <= t0 < uclock u + timeouts.(utp_connect))%Z /\ (t0 <= T)%Z /\
    concat stream = data /\ length stream <= MAX_OUT_OF_ORDER /\
    Forall (in_stream stream answered.(pkt_seq_nr) addr id T) rest /\
    forall i, i < length stream -> Exists (brings stream answered.(pkt_seq_nr) i) rest;
  dl_clock : (0 <= uclock u)%Z;
  dl_patience : (T < uclock u + GIVE_UP)%Z;
  dl_session : (T < uclock u + timeouts.(session))%Z;
  dl_handshake : (T < uclock u + timeouts.(handshake))%Z;
  dl_piece : (T < uclock u + timeouts.(piece))%Z;
}.

(** C22. When a conforming peer answers the connection and its side of the
    conversation arrives in time over uTP, cut into at most 1024 packets that come
    in any order and more than once, the fetch returns the peer's metadata: the
    connection is closed and forgotten, by the time the last packet has come. *)
Theorem conforming_peer_fetched_utp sha1 depth fuel owned random2 random info_hash addr timeouts u metadata their_id c T :
  conforms depth info_hash metadata their_id c -> sha1 metadata = info_hash ->
  length info_hash = NODE_ID_LENGTH -> random_ok random -> length random2 = 2 ->
  (0 <= timeouts.(handshake))%Z -> (0 <= timeouts.(piece))%Z ->
  (addr, be_decode random2) ∉ u.(connections) -> (owned = true -> u.(connections) = []) ->
  delivers timeouts addr (be_decode random2) T (conversation_bytes c) u -> conversation_frames c < fuel ->
  exists u', fetch_metadata_utp sha1 depth fuel owned random2 random info_hash addr timeouts u = (Ok metadata, u') /\
    u'.(closed) = true /\ u'.(connections) = u.(connections) /\ (uclock u' <= T)%Z.
Proof.
  intros Hconf Hsha Hh Hr Hr2 Hhs Hp Hfree Hown [(t0 & answer & answered & rest & stream & Hdue & Hans & Hst & Hid & Ht0 & HtT &
    Hdata & Hfits & Hrest & Hall) H0 HT1 HT2 HT3 HT4] Hfuel.
  destruct (opening_messages_Ok info_hash random Hh Hr) as (hs & ext & _ & Hlen & _ & Ho).
  assert (hs ++ ext <> []) as Hne by (by destruct hs).
  pose proof (consumes_session depth info_hash metadata their_id c fuel random (hs ++ ext) timeouts 0 true
    Hconf Hh Ho Hne ltac:(lia) Hhs Hp Hfuel [] []) as Hscript. rewrite app_nil_r, <-Hdata in Hscript.
  assert (metadata <> []) as Hmd by (intros ->; destruct Hconf as [Hsz _ _ _ _ _]; cbn in Hsz; lia).
  pose proof (tri_fetch_in_time stream (pkt_seq_nr answered) Hfits addr (be_decode random2) (uclock u) T HT1
    (connections u) Hfree t0 answer answered rest Hans Hst Hid eq_refl HtT Hrest Hall sha1 depth fuel owned random2
    random info_hash timeouts metadata _ u Hh Hsha Hmd Hhs Hp H0 HT2 HT3 HT4 eq_refl Hr2 eq_refl eq_refl Hown Hdue Ht0 Hscript) as Htri.
  unfold tri in Htri. destruct (fetch_metadata_utp _ _ _ _ _ _ _ _ _ u) as [[d|e] v]; [|done].
  destruct Htri as (-> & [Hcl Hco] & Hclock). by exists v.
Qed.

Lemma conforming_peer_fetched_utp_witness :
  exists u', fetch_metadata_utp example_sha1 5 20 false (be_encode 2 500) (bs "123456789012") example_hash
    example_utp_address DEFAULT_TIMEOUTS (example_utp example_datagrams) = (Ok example_metadata, u') /\
    closed u' = true /\ (uclock u' <= 40)%Z.
Proof.
  destruct (conforming_peer_fetched_utp example_sha1 5 20 false (be_encode 2 500) (bs "123456789012") example_hash
    example_utp_address DEFAULT_TIMEOUTS (example_utp example_datagrams) example_metadata 3 example_conversation 40
    example_conforms eq_refl eq_refl eq_refl eq_refl ltac:(done) ltac:(done)) as (u' & Hf & Hc & _ & Ht).
  - vm_compute. intros Hin. apply list_elem_of_singleton in Hin. discriminate.
  - done.
  - split; try done.
    exists 20%Z, (packet_bytes ST_STATE 500 0 0 0 65535 1 []), (UtpPacket ST_STATE 500 0 0 0 65535 1 []), (tail example_datagrams),
      [take 40 (conversation_bytes example_conversation); drop 40 (conversation_bytes example_conversation)].
    split; [reflexivity|]. split; [vm_compute; reflexivity|]. split; [done|]. split; [done|]. split; [done|]. split; [done|].
    split; [vm_compute; reflexivity|]. split; [vm_compute; lia|].
    set (data := conversation_bytes example_conversation).
    assert (carries_part [take 40 data; drop 40 data] 65535 0 (UtpPacket ST_DATA 500 0 0 0 65535 1 (take 40 data))) as Hfirst by done.
    assert (carries_part [take 40 data; drop 40 data] 65535 1 (UtpPacket ST_DATA 500 0 0 0 0 1 (drop 40 data))) as Hsecond by done.
    assert (decode_utp_packet (packet_bytes ST_DATA 500 0 0 0 65535 1 (take 40 data)) = Some (UtpPacket ST_DATA 500 0 0 0 65535 1 (take 40 data)))
      as Hdecode1 by (vm_compute; reflexivity).
    assert (decode_utp_packet (packet_bytes ST_DATA 500 0 0 0 0 1 (drop 40 data)) = Some (UtpPacket ST_DATA 500 0 0 0 0 1 (drop 40 data)))
      as Hdecode2 by (vm_compute; reflexivity).
    split.
    + constructor; [|constructor; [|constructor]]; (split; [done|]); (split; [done|]); eexists; (split; [eassumption|]);
        (split; [reflexivity|]); right; eexists; eassumption.
    + intros [|[|i]] Hi; [| |cbn in Hi; lia].
      * apply Exists_cons_tl, Exists_cons_hd. eexists. split; [exact Hdecode1|exact Hfirst].
      * apply Exists_cons_hd. eexists. split; [exact Hdecode2|exact Hsecond].
  - vm_compute. lia.
  - exists u'. split; [exact Hf|]. split; [exact Hc|exact Ht].
Defined.
