(* ===== verification/CatalogFetches.v ===== *)
(** Claimed fetches of the torrent catalog: the fetches in progress are exactly
    those given out by [next_fetch_candidates] and not yet ended, whatever the
    other threads do; and the catalog as the [FetchCatalog] of the fetch engine,
    shared with the other threads. *)
From S2P Require Import Prelude PyDict Bencode NodeIdentity AddressText Krpc TorrentInfo Catalog.
From S2P Require Import CatalogInterface CatalogInvariant CatalogSafety CatalogMethods CatalogIndex.
From S2P Require Import CatalogWrites CatalogTheorems CatalogClaims.

(** Nothing is said about lookups; no fetch begins or ends. *)
Abbreviation fetches_kept E := (stays (Scope E (fun _ => True) (fun _ => False))).

Section kept.
Context (lim : limits).

Lemma fetches_kept_end_lookup E o : frames (fetches_kept E) (end_lookup o).
Proof. unfold end_lookup. frames_steps. Qed.

Lemma fetches_kept_release_lookup_claim E h : frames (fetches_kept E) (release_lookup_claim lim h).
Proof. unfold release_lookup_claim. pose proof (fetches_kept_end_lookup E). frames_steps. Qed.

Lemma fetches_kept_no_peers E o m :
  frames (fetches_kept E) (e ← lookup_entry o;
    when_st (negb (has_peers e)) (
      update_entry o (set_next_lookup_time (m + lookup_retry_seconds lim * lookups_started e)%Z) ;;
      when_st ((max_lookups lim <=? lookups_started e)%Z && is_state FETCH_PENDING e) (
        update_entry o (set_last_error "no_peers") ;;
        set_state_locked o FETCH_FAILED)) ;;
    index_entry_locked lim o).
Proof.
  apply frames_guard; intros e He.
  - repeat idle_step; frames_steps.
  - rewrite (busy_state e FETCH_PENDING) by done. rewrite andb_false_r. frames_steps; done.
Qed.

Lemma fetches_kept_add_lookup_result E h l clock now : frames (fetches_kept E) (add_lookup_result lim h l clock now).
Proof.
  unfold add_lookup_result. pose proof (fetches_kept_end_lookup E).
  do 3 (apply (frames_bind _); [frames_steps|intros ?]). apply (frames_bind _); [|intros ?; frames_steps].
  match goal with |- frames _ (match ?x with _ => _ end) => destruct x as [o|] end; [|frames_steps].
  do 4 (apply (frames_bind _); [frames_steps|intros ?]). apply fetches_kept_no_peers.
Qed.

(** Recording a sighting, which may evict entries. *)
Lemma fetches_kept_evict_entry o : frames (fetches_kept False) (evict_entry o).
Proof.
  unfold evict_entry. apply (frames_bind _); [frames_steps|]. intros e.
  apply (frames_bind _); [by apply kept_update_entries|]. intros _. frames_steps.
Qed.

Lemma fetches_kept_record h source peer m : frames (fetches_kept False) (record_locked lim h source peer m).
Proof.
  unfold record_locked, evict_locked. pose proof fetches_kept_evict_entry. frames_steps.
Qed.

Lemma fetches_kept_record_hash h source peer clock now :
  frames (fetches_kept False) (record_hash lim h source peer clock now).
Proof. unfold record_hash. pose proof fetches_kept_record. frames_steps. Qed.

Lemma fetches_kept_record_hashes hs source clock now :
  frames (fetches_kept False) (record_hashes lim hs source clock now).
Proof.
  unfold record_hashes. frames_steps. apply kept_count_true. intros h. apply fetches_kept_record.
Qed.
End kept.

(** ** What ends a fetch *)

(** The fetch of one object may end. *)
Abbreviation fetches_but o := (stays (Scope True (fun _ => True) (fun o' => o' = o))).

Lemma stays_more X X' c c' :
  (entries_stay X' -> entries_stay X) -> (forall o, lookup_ends X o -> lookup_ends X' o) ->
  (forall o, fetch_changes X o -> fetch_changes X' o) -> stays X c c' -> stays X' c c'.
Proof.
  intros HE HL HF Hs Hlt. destruct (Hs Hlt) as (H1 & H2 & H3 & H4). split; [done|]. split; [auto|]. split.
  - intros o e He. destruct (H3 o e He) as (e' & He' & Hh & Hl & Hf). exists e'. split; [done|]. split; [done|].
    split; [destruct Hl|destruct Hf]; auto.
  - intros o e' He' Hn. destruct (H4 o e' He' Hn); auto.
Qed.

(** The program leaves the object idle, and every other fetch alone. *)
Definition ends (o : oid) {A} (m : ST catalog A) : Prop := forall c, heap_bounded c ->
  wlp m (fun _ c' => fetches_but o c c' /\ forall e, heap c' !! o = Some e -> is_state FETCH_IN_PROGRESS e = false) c.

Lemma ends_before o {A B} (m : ST catalog A) (k : A -> ST catalog B) :
  frames (fetches_but o) m -> (forall x, ends o (k x)) -> ends o (m ≫= k).
Proof.
  intros Hm Hk c Hlt. apply wlp_bind. eapply wlp_mono; [apply Hm|]. intros x c1 H1.
  pose proof (H1 Hlt) as (Hlt1 & _). eapply wlp_mono; [by apply Hk|]. intros y c2 [H2 Hi]. split; [|done].
  exact (transitivity H1 H2).
Qed.

Lemma ends_after o {A B} (m : ST catalog A) (k : A -> ST catalog B) :
  ends o m -> (forall x, frames (fetches_kept True) (k x)) -> ends o (m ≫= k).
Proof.
  intros Hm Hk c Hlt. apply wlp_bind. eapply wlp_mono; [by apply Hm|]. intros x c1 [H1 Hi].
  pose proof (H1 Hlt) as (Hlt1 & _). eapply wlp_mono; [by apply Hk|]. intros y c2 H2. split.
  - assert (fetches_but o c1 c2) as H2' by (by eapply stays_more; [..|exact H2]). exact (transitivity H1 H2').
  - destruct (stays_idle _ o c1 c2 Hlt1 (or_intror Hi) H2) as [[]|Hi']. exact Hi'.
Qed.

Lemma ends_set_state o s : s <> FETCH_IN_PROGRESS -> ends o (set_state_locked o s).
Proof.
  intros Hs. unfold set_state_locked. apply ends_before; [apply kept_lookup_entry|]. intros e.
  apply ends_before; [by apply kept_update|]. intros _. apply ends_after; [|intros _; frames_steps].
  intros c Hlt. pose proof (kept_update_entry (Scope True (fun _ => True) (fun o' => o' = o)) o (set_fetch_state s)
    ltac:(done) ltac:(by right) ltac:(by left) c) as Hk.
  apply wlp_modify. split; [exact Hk|]. intros e'. simpl. rewrite lookup_alter_eq.
  intros (e0 & _ & ->)%fmap_Some. by apply bool_decide_eq_false.
Qed.

Section ends.
Context (lim : limits).

(** [store_metadata] for a hash that has an entry. *)
Definition store_found (m : metadata_ref) (o : oid) (created : bool) : ST catalog bool :=
  e ← lookup_entry o;
  when_st (negb (is_state FETCH_DONE e) || known_from_database e)
    (update (fun c => set_metadata_bytes (metadata_bytes c + md_total_size (metadata_value m))%Z c)) ;;
  forget_known_locked o ;;
  update_entry o (fun e => set_last_error "" (set_metadata (Some m) e)) ;;
  set_state_locked o FETCH_DONE ;;
  update (fun c => set_fetched (dict_set (info_hash e) o (fetched c)) c) ;;
  index_entry_locked lim o ;;
  tracking ← gets index_tracking;
  when_st tracking (queue_document_locked lim o) ;;
  assert_invariants_locked ;;
  mret created.

Lemma ends_store_found m o created : ends o (store_found m o created).
Proof.
  unfold store_found. do 4 (apply ends_before; [solve [frames_steps]|intros ?]).
  apply ends_after; [by apply ends_set_state|]. intros _. frames_steps.
Qed.

(** The end of a failed fetch: the state that follows depends on what is left to
    try. *)
Lemma ends_mark_failed o e m :
  ends o (if (max_fetch_attempts lim <=? fetch_attempts e)%Z then set_state_locked o FETCH_FAILED
     else if negb (has_peers e) && (max_lookups lim <=? lookups_started e)%Z && negb (lookup_in_progress e)
     then update_entry o (set_last_error "no_peers") ;; set_state_locked o FETCH_FAILED
     else set_state_locked o FETCH_PENDING ;;
          when_st (negb (has_peers e)) (update_entry o (set_next_lookup_time m))).
Proof.
  destruct (_ <=? _)%Z; [by apply ends_set_state|]. destruct (_ && _).
  - apply ends_before; [frames_steps|]. intros _. by apply ends_set_state.
  - apply ends_after; [by apply ends_set_state|]. intros _. frames_steps.
Qed.

Lemma ends_release o e : is_state FETCH_IN_PROGRESS e = true ->
  ends o (when_st (is_state FETCH_IN_PROGRESS e) (set_state_locked o FETCH_PENDING ;; index_entry_locked lim o)).
Proof. intros ->. apply ends_after; [by apply ends_set_state|]. intros _. frames_steps. Qed.

(** ** The fetches of the catalog *)

Definition fetching (c : catalog) (h : bytes) : Prop :=
  exists o e, at_entry c h o e /\ is_state FETCH_IN_PROGRESS e = true.

(** Exactly the fetches of [P] are in progress, each that of a current entry. *)
Definition fetches_exact (P : bytes -> Prop) (c : catalog) : Prop :=
  (forall h, P h -> fetching c h) /\
  (forall o e, heap c !! o = Some e -> is_state FETCH_IN_PROGRESS e = true ->
     P (info_hash e) /\ dict_get (info_hash e) (entries c) = Some o).

Lemma inv_bounded c : inv lim c -> heap_bounded c.
Proof. intros Hc o e He. by destruct (inv_heap _ _ _ Hc _ _ He). Qed.

Lemma exact_fetching P c : inv lim c -> fetches_exact P c -> forall h, fetching c h <-> P h.
Proof.
  intros Hc [HP HP'] h. split; [|apply HP]. intros (o & e & Hat & Hs).
  rewrite <-(at_entry_hash _ _ _ _ _ _ Hc Hat). by apply (HP' o e (proj2 Hat)).
Qed.

(** A fetch in progress was so before. *)
Lemma fetch_before E c c' o e' :
  heap_bounded c -> fetches_kept E c c' -> heap c' !! o = Some e' -> is_state FETCH_IN_PROGRESS e' = true ->
  exists e, heap c !! o = Some e /\ is_state FETCH_IN_PROGRESS e = true /\ info_hash e' = info_hash e.
Proof.
  intros Hlt Hk He' Hs. destruct (Hk Hlt) as (_ & _ & K & N). destruct (heap c !! o) as [e|] eqn:He.
  - destruct (K o e He) as (e0 & He0 & Hh & _ & [[]|Hf]). assert (e0 = e') as -> by congruence.
    exists e. split; [done|]. split; congruence.
  - destruct (N o e' He' He) as [[]|Hf]. congruence.
Qed.

Lemma exact_kept P c c' :
  heap_bounded c -> fetches_kept True c c' -> fetches_exact P c -> fetches_exact P c'.
Proof.
  intros Hlt Hk [HP HP']. destruct (Hk Hlt) as (_ & Hent & K & _). split.
  - intros h Hh. destruct (HP h Hh) as (o & e & [Hg He] & Hs).
    destruct (K o e He) as (e' & He' & _ & _ & [[]|Hf]).
    exists o, e'. split; [split; [by apply Hent|done]|congruence].
  - intros o e' He' Hs. destruct (fetch_before True c c' o e') as (e & He & Hs0 & Hh); [done..|]. rewrite Hh.
    destruct (HP' o e He Hs0) as [? Hg]. split; [done|by apply Hent].
Qed.

(** Recording a sighting evicts no entry that is being fetched. *)
Lemma exact_recorded P c c' :
  heap_bounded c -> claims_kept c c' -> fetches_kept False c c' -> fetches_exact P c -> fetches_exact P c'.
Proof.
  intros Hlt Hcl Hk [HP HP'].
  assert (forall h o e, at_entry c h o e -> is_state FETCH_IN_PROGRESS e = true ->
    exists e', at_entry c' h o e' /\ is_state FETCH_IN_PROGRESS e' = true) as Hfwd.
  { intros h o e Hat Hs. destruct (Hcl h o e Hat) as (e' & Hat' & [= Hf _]); [by unfold is_evictable; rewrite Hs|].
    exists e'. split; [done|]. unfold is_state in *. by rewrite Hf. }
  split.
  - intros h Hh. destruct (HP h Hh) as (o & e & Hat & Hs). destruct (Hfwd h o e Hat Hs) as (e' & ? & ?). by exists o, e'.
  - intros o e' He' Hs. destruct (fetch_before False c c' o e') as (e & He & Hs0 & Hh); [done..|]. rewrite Hh.
    destruct (HP' o e He Hs0) as [? Hg]. split; [done|].
    destruct (Hfwd (info_hash e) o e (conj Hg He) Hs0) as (e1 & [Hg1 _] & _). done.
Qed.

(** The end of the fetch of [h]. *)
Lemma exact_ended P c c' h o :
  inv lim c -> dict_get h (entries c) = Some o -> fetches_but o c c' ->
  (forall e, heap c' !! o = Some e -> is_state FETCH_IN_PROGRESS e = false) ->
  fetches_exact P c -> fetches_exact (fun h' => P h' /\ h' <> h) c'.
Proof.
  intros Hc Hg Hk Hi [HP HP']. destruct (Hk (inv_bounded c Hc)) as (_ & Hent & K & N). split.
  - intros h' [Hh Hne]. destruct (HP h' Hh) as (o' & e & [Hg' He] & Hs).
    destruct (K o' e He) as (e' & He' & _ & _ & [Ho|Hf]).
    { cbn in Ho. subst o'. by destruct Hne; apply (current_inj _ _ c h h' o Hc). }
    exists o', e'. split; [split; [by apply Hent|done]|congruence].
  - intros o' e' He' Hs. destruct (decide (o' = o)) as [->|Hne]; [rewrite (Hi e' He') in Hs; done|].
    destruct (heap c !! o') as [e|] eqn:He.
    + destruct (K o' e He) as (e0 & He0 & Hh & _ & [?|Hf]); [done|]. assert (e0 = e') as -> by congruence.
      rewrite Hh. assert (is_state FETCH_IN_PROGRESS e = true) as Hs0 by congruence.
      destruct (HP' o' e He Hs0) as [Hp Hg']. split; [|by apply Hent]. split; [done|]. intros Heq. congruence.
    + destruct (N o' e' He' He) as [?|Hf]; [done|congruence].
Qed.

(** The candidates are new fetches, and the others go on. *)
Lemma stays_candidates limit now c :
  wlp (next_fetch_candidates lim limit now)
    (fun _ => stays (Scope True (fun _ => True) (fun o => o ∈ best_candidates limit c)) c) c.
Proof.
  unfold next_fetch_candidates. apply wlp_bind, wlp_assert. intros _. apply wlp_bind, wlp_gets.
  generalize (best_candidates limit c). intros chosen. revert c.
  match goal with |- forall c, wlp ?m _ _ =>
    change (frames (stays (Scope True (fun _ => True) (fun o => o ∈ chosen))) m) end.
  apply (frames_bind _); [|intros ?; frames_steps].
  assert (forall l, (forall o, o ∈ l -> o ∈ chosen) -> frames (stays (Scope True (fun _ => True) (fun o => o ∈ chosen)))
    (map_st (fun o => set_state_locked o FETCH_IN_PROGRESS ;; index_entry_locked lim o ;;
      e ← lookup_entry o; mret (info_hash e, (default [] (peers e)).*1)) l)) as Hl; [|by apply Hl].
  induction l as [|o l IH]; intros Hl; cbn [map_st]; [frames_steps|].
  apply (frames_bind _).
  { apply (frames_bind _); [apply kept_set_state, Hl; left|]. intros ?. frames_steps. }
  intros x. apply (frames_bind _); [apply IH; intros o' Ho'; apply Hl; by right|]. intros ?. frames_steps.
Qed.

Lemma fetchable_idle e : is_fetchable e = true -> is_state FETCH_IN_PROGRESS e = false.
Proof.
  unfold is_fetchable, is_ready. intros Hf. apply andb_true_iff in Hf as [Hf _].
  apply andb_true_iff in Hf as [Hf%bool_decide_eq_true _]. apply bool_decide_eq_false. congruence.
Qed.

Lemma wp_claimed_fetches (P : bytes -> Prop) c limit :
  inv lim c -> fetches_exact P c ->
  wp (next_fetch_candidates lim limit None) (fun l c' => inv lim c' /\
    NoDup l.*1 /\ length l <= limit /\
    Forall (fun hp => length hp.1 = NODE_ID_LENGTH /\ ~ P hp.1 /\ hp.2 <> [] /\ NoDup hp.2) l /\
    fetches_exact (fun h => P h \/ h ∈ l.*1) c') c.
Proof.
  intros Hc [HP HP']. pose proof (wp_next_fetch_candidates lim c limit None Hc I) as Hwp.
  eapply wp_mono; [exact (wp_wlp _ _ _ _ Hwp (stays_candidates limit None c))|].
  intros l c' [(Hc' & Hent & Hall) Hk]. destruct (Hk (inv_bounded c Hc)) as (_ & _ & K & N). cbn in K, N.
  pose proof (best_candidates_to_treat lim limit c Hc) as [Hnd Htreat].
  assert (forall o e, o ∈ best_candidates limit c -> heap c !! o = Some e -> is_fetchable e = true) as Hf.
  { intros o e Ho He. destruct (Htreat o Ho) as (h & e' & [_ He'] & Hp). congruence. }
  split; [done|]. split; [by eapply claimed_list_NoDup|]. split.
  { rewrite <-(Forall2_length _ _ _ Hall). apply length_best_candidates. }
  split; [|split].
  - apply Forall_forall. intros [h peers0] Hin. apply list_elem_of_lookup_1 in Hin as [i Hi].
    destruct (Forall2_lookup_r _ _ _ _ _ Hall Hi) as (o & Ho & h' & e & Hat & [= -> ->] & _). cbn.
    apply list_elem_of_lookup_2 in Ho. pose proof (Hf o e Ho (proj2 Hat)) as He.
    destruct (at_entry_wf _ _ _ _ _ _ Hc Hat) as [(Hlen & _ & _ & _ & Hpw) _].
    rewrite (at_entry_hash _ _ _ _ _ _ Hc Hat) in Hlen. split; [done|].
    split; [|split; [exact (claim_candidate_peers lim c _ o e Hc Hat He)|]].
    + intros (o' & e' & [Hg' He'] & Hs)%HP. destruct Hat as [Hg Hee]. assert (o' = o) as -> by congruence.
      assert (e' = e) as -> by congruence. rewrite (fetchable_idle e He) in Hs. done.
    + unfold peers_wf in Hpw. destruct (peers e) as [d|]; [apply Hpw|constructor].
  - intros h [(o & e & [Hg He] & Hs)%HP|Hin].
    + destruct (K o e He) as (e' & He' & _ & _ & [Ho|Hst]).
      { pose proof (fetchable_idle e (Hf o e Ho He)). congruence. }
      exists o, e'. split; [split; [by rewrite Hent|done]|congruence].
    + apply list_elem_of_lookup_1 in Hin as [i Hi].
      destruct (claimed_list_lookup c c' _ l i h Hall Hi) as (o & e & _ & [Hg _] & _ & Hs).
      exists o, (set_fetch_state FETCH_IN_PROGRESS e). split; [split; [by rewrite Hent|done]|]. by apply bool_decide_eq_true.
  - intros o e' He' Hs. destruct (decide (o ∈ best_candidates limit c)) as [Ho|Ho].
    + destruct (Htreat o Ho) as (h & e & Hat & _).
      assert (h ∈ l.*1) as Hin by exact (claimed_list_member c c' _ l o h e (ex_intro _ lim Hc) Hall Ho Hat).
      destruct (K o e (proj2 Hat)) as (e0 & He0 & Hh & _). assert (e0 = e') as -> by congruence.
      rewrite Hh, (at_entry_hash _ _ _ _ _ _ Hc Hat). split; [by right|]. rewrite Hent. apply Hat.
    + destruct (heap c !! o) as [e|] eqn:He.
      * destruct (K o e He) as (e0 & He0 & Hh & _ & [?|Hst]); [done|]. assert (e0 = e') as -> by congruence.
        rewrite Hh, Hent. destruct (HP' o e He) as [? ?]; [congruence|]. split; [by left|done].
      * destruct (N o e' He' He) as [?|Hst]; [done|congruence].
Qed.

(** A method that ends the fetch of [h]. *)
Lemma wp_ended {A} (m : ST catalog A) (P : bytes -> Prop) h c :
  inv lim c -> P h -> fetches_exact P c -> wp m (fun _ => inv lim) c ->
  (forall o, dict_get h (entries c) = Some o -> fetching c h -> wlp m (fun _ c' => fetches_but o c c' /\
     forall e, heap c' !! o = Some e -> is_state FETCH_IN_PROGRESS e = false) c) ->
  wp m (fun _ c' => inv lim c' /\ fetches_exact (fun h' => P h' /\ h' <> h) c') c.
Proof.
  intros Hc Hh HP Hm Hend. pose proof (proj1 HP h Hh) as Hf. destruct (Hf) as (o & e & [Hg He] & Hs).
  eapply wp_mono; [exact (wp_wlp _ _ _ _ Hm (Hend o Hg Hf))|]. intros x c' (Hc' & Hk & Hi).
  split; [done|]. exact (exact_ended P c c' h o Hc Hg Hk Hi HP).
Qed.

Lemma fetching_checked c h : inv lim c -> fetching c h -> checked_hash c h /\ fetch_running c h.
Proof.
  intros Hc (o & e & Hat & Hs%bool_decide_eq_true).
  destruct (at_entry_wf _ _ _ _ _ _ Hc Hat) as [_ (_ & _ & _ & _ & Hchk)]. destruct Hat as [Hg He].
  assert (database_checked e = true) as Hd by (destruct (database_checked e) eqn:Hd; [done|]; rewrite Hchk in Hs by done; done).
  split; intros o' e' [Hg' He']; assert (o' = o) as -> by congruence; assert (e' = e) as -> by congruence; [done|].
  split; [congruence|done].
Qed.

Lemma wlp_moment_eq {A} clock now (k : Z -> ST catalog A) (Q : A -> catalog -> Prop) c :
  (forall m, wlp (k m) Q c) -> wlp (moment_or_now clock now ≫= k) Q c.
Proof.
  intros Hk. apply wlp_bind. eapply wlp_mono; [apply kept_moment_eq|]. intros m c1 <-. apply Hk.
Qed.

Context (Hlim : limits_ok lim).

Lemma wp_store_fetched (P : bytes -> Prop) m clock c :
  inv lim c -> P (md_info_hash (metadata_value m)) -> fetches_exact P c -> (0 <= clock)%Z ->
  wp (store_metadata lim m clock None)
    (fun _ c' => inv lim c' /\ fetches_exact (fun h => P h /\ h <> md_info_hash (metadata_value m)) c') c.
Proof using.
  intros Hc Hh HP Hclock. pose proof (proj1 HP _ Hh) as Hf. destruct (fetching_checked c _ Hc Hf) as [Hchk _].
  destruct (Hf) as (o0 & e0 & Hat0 & _). apply wp_ended; [done..| |].
  - eapply wp_mono; [apply wp_store_metadata; [done| |done|done|]|by intros x c' []].
    + rewrite <-(at_entry_hash _ _ _ _ _ _ Hc Hat0). by destruct (at_entry_wf _ _ _ _ _ _ Hc Hat0) as [[? _] _].
    + destruct Hat0 as [-> _]. done.
  - intros o Hg _. unfold store_metadata. apply wlp_moment_eq. intros mom. apply wlp_bind.
    unfold get_or_create_locked. apply wlp_bind. unfold get_oid at 1. apply wlp_gets. rewrite Hg.
    apply wlp_bind. unfold wlp at 1, lookup_entry. destruct (heap c !! o) as [e|] eqn:He; [|done].
    apply wlp_bind, wlp_assert. intros _. apply wlp_ret. apply (ends_store_found m o false). by apply inv_bounded.
Qed.

Lemma wp_mark_fetched (P : bytes -> Prop) h tried reason clock c :
  inv lim c -> P h -> fetches_exact P c -> (0 <= clock)%Z ->
  wp (mark_fetch_failed lim h tried reason clock None)
    (fun _ c' => inv lim c' /\ fetches_exact (fun h' => P h' /\ h' <> h) c') c.
Proof using Hlim.
  intros Hc Hh HP Hclock. pose proof (proj1 HP _ Hh) as Hf. destruct (fetching_checked c _ Hc Hf) as [_ Hrun].
  destruct (Hf) as (o0 & e0 & Hat0 & _). apply wp_ended; [done..| |].
  - eapply wp_mono; [apply wp_mark_fetch_failed; [done|done| |done|done]|by intros x c' []].
    rewrite <-(at_entry_hash _ _ _ _ _ _ Hc Hat0). by destruct (at_entry_wf _ _ _ _ _ _ Hc Hat0) as [[? _] _].
  - intros o Hg _. unfold mark_fetch_failed. apply wlp_bind, wlp_assert. intros _. apply wlp_moment_eq. intros mom.
    apply wlp_bind. unfold get_oid at 1. apply wlp_gets. rewrite Hg.
    match goal with |- wlp ?p _ _ => enough (ends o p) as He by (by apply He, inv_bounded) end.
    apply ends_before; [frames_steps|]. intros _. apply ends_before; [frames_steps|]. intros _.
    apply ends_before; [frames_steps|]. intros e. apply ends_after; [apply ends_mark_failed|]. intros _. frames_steps.
Qed.

Lemma wp_release_fetched (P : bytes -> Prop) h c :
  inv lim c -> P h -> fetches_exact P c ->
  wp (release_fetch_claim lim h) (fun _ c' => inv lim c' /\ fetches_exact (fun h' => P h' /\ h' <> h) c') c.
Proof using.
  intros Hc Hh HP. pose proof (proj1 HP _ Hh) as Hf. destruct (Hf) as (o0 & e0 & Hat0 & _).
  apply wp_ended; [done..| |].
  - apply wp_release_fetch_claim; [done|].
    rewrite <-(at_entry_hash _ _ _ _ _ _ Hc Hat0). by destruct (at_entry_wf _ _ _ _ _ _ Hc Hat0) as [[? _] _].
  - intros o Hg (o' & e & [Hg' He] & Hs). assert (o' = o) as -> by congruence.
    unfold release_fetch_claim. apply wlp_bind, wlp_assert. intros _. apply wlp_bind.
    unfold get_oid at 1. apply wlp_gets. rewrite Hg.
    assert (ends o (when_st (is_state FETCH_IN_PROGRESS e) (set_state_locked o FETCH_PENDING ;; index_entry_locked lim o) ;;
      assert_invariants_locked ;; c ← get_state; assert_st (match heap c !! o with
        | Some e => negb (is_state FETCH_IN_PROGRESS e) | None => false end))) as Hend.
    { apply ends_after; [by apply ends_release|]. intros _. frames_steps. }
    specialize (Hend c (inv_bounded c Hc)). unfold wlp in Hend |- *.
    unfold mbind at 1, st_bind at 1, mbind at 1, st_bind at 1, lookup_entry. rewrite He. exact Hend.
Qed.

(** ** The shared catalog *)

(** The calls that begin or end a fetch: only the fetch engine makes them. *)
Definition changes_fetches (k : call) : bool :=
  match k with
  | Next_fetch_candidates _ | Store_metadata _ | Mark_fetch_failed _ _ _ | Release_fetch_claim _ => true
  | _ => false
  end.

(** A call of another thread leaves the fetches as they are. *)
Lemma wp_run_fetches P now k c :
  inv lim c -> fetches_exact P c -> allowed c k -> (0 <= now)%Z -> changes_fetches k = false ->
  wp (run lim now k) (fun _ c' => inv lim c' /\ fetches_exact P c') c.
Proof using Hlim.
  intros Hc HP Hk Hnow Hch. pose proof (inv_bounded c Hc) as Hlt.
  assert (frames (fetches_kept True) (run lim now k) ->
    wp (run lim now k) (fun _ c' => inv lim c' /\ fetches_exact P c') c) as Hkept.
  { intros Hf. eapply wp_mono; [exact (wp_wlp _ _ _ _ (wp_run lim now k c Hlim Hc Hk Hnow) (Hf c))|].
    intros u c' [Hc' Hs]. split; [done|]. by eapply exact_kept. }
  pose proof (fetches_kept_release_lookup_claim lim True). pose proof (fetches_kept_add_lookup_result lim True).
  destruct k; try discriminate; try (apply Hkept; cbn [run]; frames_steps; fail); cbn [run allowed] in *; apply wp_bind.
  - eapply wp_mono; [apply wp_wlp; [by apply wp_record_hash|apply fetches_kept_record_hash]|].
    intros b c' [(Hc' & _ & Hcl & _) Hs]. apply wp_ret. split; [done|]. by eapply exact_recorded.
  - eapply wp_mono; [apply wp_wlp; [by apply wp_record_hashes|apply fetches_kept_record_hashes]|].
    intros b c' [(Hc' & Hcl) Hs]. apply wp_ret. split; [done|]. by eapply exact_recorded.
Qed.
End ends.

Section shared.
Context `{LowerCase} (lim : limits) (Hlim : limits_ok lim) (wall : nat -> Z) (Hwall : forall n, (0 <= wall n)%Z)
  (others : nat -> catalog -> list (Z * call))
  (Hothers : forall n c, inv lim c -> follows changes_fetches lim c (others n c)).

(** The object that [store_metadata] is given is a new one; the turn of the call
    tells it from the others. *)
#[local] Instance shared_fetches : FetchCatalog shared_catalog := {
  catalog_next_fetch_candidates n :=
    locked lim wall others (fun _ => next_fetch_candidates lim (Z.to_nat n) None);
  catalog_store_metadata m := s ← get_state;
    locked lim wall others (fun now => store_metadata lim (MetadataRef (turn s) m) now None ;; mret tt);
  catalog_mark_fetch_failed h tried reason :=
    locked lim wall others (fun now => mark_fetch_failed lim h tried reason now None ;; mret tt);
  catalog_release_fetch_claim h := locked lim wall others (fun _ => release_fetch_claim lim h) }.

Definition fetches_shared (P : bytes -> Prop) (s : shared_catalog) : Prop :=
  inv lim (contents s) /\ fetches_exact P (contents s).

Lemma wp_others_fetches P s : fetches_shared P s -> wp (others_turn lim others) (fun _ => fetches_shared P) s.
Proof using Hlim Hothers.
  intros Hs. unfold others_turn. apply wp_bind, wp_get. pose proof (Hothers (turn s) (contents s) (proj1 Hs)) as Hf.
  apply wp_bind. eapply (wp_mono _ (fun _ => fetches_shared P)); [|by intros u s' Hs'].
  revert Hf. generalize (others (turn s) (contents s)). intros calls. revert s Hs.
  induction calls as [|[now k] calls IH]; intros s Hs Hf; cbn [for_each]; [done|].
  destruct Hf as (Hk & Hnow & Hch & Hrest). destruct Hs as [Hc HP]. apply wp_bind, wp_zoom. cbn [fst snd].
  pose proof (wp_run_fetches lim Hlim P now k (contents s) Hc HP Hk Hnow Hch) as Hrun.
  unfold wp at 1. unfold wp in Hrun.
  destruct (run lim now k (contents s)) as [[[] c']|] eqn:Hr; [|done]. apply IH; [|by apply Hrest]. exact Hrun.
Qed.

Lemma wp_locked_fetches {A} (m : Z -> ST catalog A) P (Q : A -> shared_catalog -> Prop) s :
  fetches_shared P s ->
  (forall now c, (0 <= now)%Z -> inv lim c -> fetches_exact P c ->
     wp (m now) (fun a c' => forall n, Q a (Shared c' n)) c) ->
  wp (locked lim wall others m) Q s.
Proof using Hlim Hothers Hwall.
  intros Hs Hm. unfold locked. apply wp_bind. eapply wp_mono; [by apply wp_others_fetches|]. clear s Hs.
  intros u s [Hc HP]. apply wp_bind, wp_gets, wp_zoom. eapply wp_mono; [by apply Hm|]. intros a c' HQ. apply HQ.
Qed.

Lemma fetches_shared_iff (P P' : bytes -> Prop) s :
  (forall h, P h <-> P' h) -> fetches_shared P s -> fetches_shared P' s.
Proof using.
  intros HP [Hc [H1 H2]]. split; [done|]. split; [intros h Hh; by apply H1, HP|].
  intros o e He Hs. destruct (H2 o e He Hs) as [Hp Hg]. split; [by apply HP|done].
Qed.

Lemma shared_candidates (P : bytes -> Prop) s n :
  (1 <= n)%Z -> fetches_shared P s ->
  wp (catalog_next_fetch_candidates n) (fun l s' =>
    NoDup l.*1 /\ (Z.of_nat (length l) <= n)%Z /\
    Forall (fun hp => length hp.1 = NODE_ID_LENGTH /\ ~ P hp.1 /\ hp.2 <> [] /\ NoDup hp.2) l /\
    fetches_shared (fun h => P h \/ h ∈ l.*1) s') s.
Proof using Hlim Hothers Hwall.
  intros Hn Hs. eapply wp_locked_fetches; [exact Hs|]. intros now c Hnow Hc HP.
  eapply wp_mono; [by apply (wp_claimed_fetches lim P)|]. intros l c' (Hc' & Hnd & Hlen & Hall & HP') m.
  split; [done|]. split; [lia|]. by split.
Qed.

Lemma shared_store (P : bytes -> Prop) s m :
  metadata_ok m -> P (md_info_hash m) -> fetches_shared P s ->
  wp (catalog_store_metadata m) (fun _ => fetches_shared (fun h => P h /\ h <> md_info_hash m)) s.
Proof using Hlim Hothers Hwall.
  intros _ Hh Hs. cbn [catalog_store_metadata shared_fetches]. apply wp_bind, wp_get.
  eapply wp_locked_fetches; [exact Hs|]. intros now c Hnow Hc HP. apply wp_bind.
  eapply wp_mono; [by apply (wp_store_fetched lim P (MetadataRef (turn s) m))|]. intros b c' Hc' . apply wp_ret.
  intros n. exact Hc'.
Qed.

Lemma shared_mark (P : bytes -> Prop) s h tried reason :
  length h = NODE_ID_LENGTH -> P h -> fetches_shared P s ->
  wp (catalog_mark_fetch_failed h tried reason) (fun _ => fetches_shared (fun h' => P h' /\ h' <> h)) s.
Proof using Hlim Hothers Hwall.
  intros _ Hh Hs. eapply wp_locked_fetches; [exact Hs|]. intros now c Hnow Hc HP. apply wp_bind.
  eapply wp_mono; [by apply (wp_mark_fetched lim Hlim P)|]. intros b c' Hc'. apply wp_ret. intros n. exact Hc'.
Qed.

Lemma shared_release_fetch (P : bytes -> Prop) s h :
  length h = NODE_ID_LENGTH -> P h -> fetches_shared P s ->
  wp (catalog_release_fetch_claim h) (fun _ => fetches_shared (fun h' => P h' /\ h' <> h)) s.
Proof using Hlim Hothers Hwall.
  intros _ Hh Hs. eapply wp_locked_fetches; [exact Hs|]. intros now c Hnow Hc HP.
  eapply wp_mono; [by apply (wp_release_fetched lim P)|]. intros u c' Hc' n. exact Hc'.
Qed.

#[local] Instance shared_fetch_laws : FetchCatalogLaws shared_catalog := {
  fetches_ok := fetches_shared;
  fetches_ok_iff := fetches_shared_iff;
  law_next_fetch_candidates := shared_candidates;
  law_store_metadata := shared_store;
  law_mark_fetch_failed := shared_mark;
  law_release_fetch_claim := shared_release_fetch }.
End shared.
