(* ===== verification/FetchEngine.v ===== *)
(** The fetch engine ([fetch_engine.py]): jobs that try the peers of a claimed
    torrent, a few at a time and staggered, attempts that wait for a connection
    slot, fetch over TCP, over an encrypted stream and over uTP, and check what
    they got, the main task that claims what there is to fetch and cancels
    everything when it stops.

    The loop's thread is a sequence of steps: a step runs one task from where it
    was to its next [await].  Which step comes when is up to the loop and to what
    the engine waits for, so the steps are events; [enabled] says which may come
    next.  The catalog is the [FetchCatalog] of the interface. *)
From S2P Require Import Prelude PyDict Semaphore Bencode NodeIdentity Krpc TorrentInfo Catalog CatalogInterface.
From S2P Require Import Tasks MetadataSession.

Definition DEFAULT_MAX_CONNECTIONS : Z := 256.
Definition MAX_CONNECTIONS_LIMIT : Z := 1024.
Definition PEER_PARALLELISM : Z := 3.
Definition STAGGER_SECONDS : Z := 300000.
Definition LOCAL_ERROR_PAUSE_SECONDS : Z := 1000000.
Definition FILE_LIMIT_CEILING : Z := 10240.
Definition UNBLAMED_REASONS : list string := ["local_error"; "stopped"]%string.
Definition UNREACHABLE_SECONDS : Z := 600000000.
Definition UNREACHABLE_ENTRIES : nat := Z.to_nat 65536.
Definition UTP_AFTER_REASONS : list string := ["connect"]%string.
Definition UTP_MAX_CONNECTIONS : Z := 48.

(** ** The open file limit *)

(** [raise_open_file_limit], on a system with the [resource] module: the limits
    it reads, [RLIM_INFINITY], and what writing new limits answers. *)
Definition raise_open_file_limit (wanted : Z) (get_limit : Z * Z) (infinite : Z)
    (set_limit : Z * Z -> res unit) : res Z :=
  assert_ (1 <=? wanted)%Z ;;
  let '(soft, hard) := get_limit in
  let ceiling := if (hard =? infinite)%Z then FILE_LIMIT_CEILING else Z.min FILE_LIMIT_CEILING hard in
  let target := Z.min wanted ceiling in
  if (wanted <=? soft)%Z || (target <=? soft)%Z then mret soft
  else match set_limit (target, hard) with
       | Raise (ValueError _) | Raise OSError => mret soft
       | Raise e => Raise e
       | Ok _ => assert_ (soft <? target)%Z ;; mret target
       end.

(** ** State *)

(** The arguments of the constructor, but for the catalog, the stop event and
    the fetch functions; of the optional ones whether they are given. *)
Record options : Type := Options {
  max_connections : Z; peer_parallelism : Z; stagger_seconds : Z; local_error_pause : Z;
  has_retry : bool; has_utp : bool; utp_after_reasons : list string }.

Definition options_ok (o : options) : bool :=
  (1 <=? max_connections o)%Z && (max_connections o <=? MAX_CONNECTIONS_LIMIT)%Z &&
  (1 <=? peer_parallelism o)%Z && (0 <=? stagger_seconds o)%Z.

(** [AttemptOutcome]: the metadata, or [None] and why not. *)
Definition attempt_outcome : Type := option torrent_metadata * string.

(** Where the coroutine [attempt] is: not started, at [slots.acquire()], in
    [fetch_with_retry] at its first or its second fetch, in [fetch_over_utp] with
    the outcome over TCP, or at its end. *)
Inductive stage : Type :=
  | Created
  | Acquiring
  | Over_tcp
  | Over_encrypted
  | Over_utp (result : attempt_outcome)
  | Ended (result : res attempt_outcome).

#[global] Instance stage_eq_dec : EqDecision stage.
Proof. solve_decision. Defined.

(** A task of [attempt]: its arguments, where it is, and whether its cancellation
    was asked for. *)
Record attempt_task : Type := Attempt {
  at_hash : bytes; at_peer : address; at_stage : stage; at_cancelled : bool }.

(** A task of [run_job]: its local variables, whether its body has started, the
    end of its wait when it has one, and whether its cancellation was asked for. *)
Record job_task : Type := Job {
  job_hash : bytes; job_waiting : list address; job_running : list (nat * address);
  job_blamed : list address; job_reason : string; job_metadata : option torrent_metadata;
  job_started : bool; job_wakeup : option Z; job_cancelled : bool }.

Definition new_job (info_hash : bytes) (peers : list address) : job_task :=
  Job info_hash (reverse peers) [] [] "stopped" None false None false.

(** A key of [unreachable]: the host, or the host and its port. *)
Definition unreachable_key : Type := text + address.

#[global] Instance unreachable_key_eq_dec : EqDecision unreachable_key.
Proof. unfold unreachable_key. solve_decision. Defined.

Section state.
Context {K : Type}.

(** [FetchEngine], with the loop's clock and tasks.  [utp_slots] is there when
    the uTP socket is.  [crashed] are the exceptions that ended a task and that
    nobody retrieves. *)
Record engine : Type := Engine {
  catalog_state : K; clock : Z; slots : semaphore; utp_slots : option semaphore;
  attempts : Z; successes : Z; failures : Z; encrypted_attempts : Z; encrypted_successes : Z;
  utp_attempts : Z; utp_successes : Z; reasons : list (string * Z);
  active : Z; waiting : Z; max_active : Z; pause_until : Z; unreachable : list (unreachable_key * Z);
  jobs : list (nat * job_task); tasks : list (nat * attempt_task); next_job : nat; next_task : nat;
  stopping : bool; crashed : list exn }.

Definition engine_eta (s : engine) : engine :=
  Engine (catalog_state s) (clock s) (slots s) (utp_slots s) (attempts s) (successes s) (failures s)
    (encrypted_attempts s) (encrypted_successes s) (utp_attempts s) (utp_successes s) (reasons s)
    (active s) (waiting s) (max_active s) (pause_until s) (unreachable s) (jobs s) (tasks s)
    (next_job s) (next_task s) (stopping s) (crashed s).

Definition set_catalog_state : K -> engine -> engine := ltac:(make_setter engine_eta catalog_state).
Definition set_clock : Z -> engine -> engine := ltac:(make_setter engine_eta clock).
Definition set_slots : semaphore -> engine -> engine := ltac:(make_setter engine_eta slots).
Definition set_utp_slots : option semaphore -> engine -> engine := ltac:(make_setter engine_eta utp_slots).
Definition set_attempts : Z -> engine -> engine := ltac:(make_setter engine_eta attempts).
Definition set_successes : Z -> engine -> engine := ltac:(make_setter engine_eta successes).
Definition set_failures : Z -> engine -> engine := ltac:(make_setter engine_eta failures).
Definition set_encrypted_attempts : Z -> engine -> engine := ltac:(make_setter engine_eta encrypted_attempts).
Definition set_encrypted_successes : Z -> engine -> engine := ltac:(make_setter engine_eta encrypted_successes).
Definition set_utp_attempts : Z -> engine -> engine := ltac:(make_setter engine_eta utp_attempts).
Definition set_utp_successes : Z -> engine -> engine := ltac:(make_setter engine_eta utp_successes).
Definition set_reasons : list (string * Z) -> engine -> engine := ltac:(make_setter engine_eta reasons).
Definition set_active : Z -> engine -> engine := ltac:(make_setter engine_eta active).
Definition set_waiting : Z -> engine -> engine := ltac:(make_setter engine_eta waiting).
Definition set_max_active : Z -> engine -> engine := ltac:(make_setter engine_eta max_active).
Definition set_pause_until : Z -> engine -> engine := ltac:(make_setter engine_eta pause_until).
Definition set_unreachable : list (unreachable_key * Z) -> engine -> engine := ltac:(make_setter engine_eta unreachable).
Definition set_jobs : list (nat * job_task) -> engine -> engine := ltac:(make_setter engine_eta jobs).
Definition set_tasks : list (nat * attempt_task) -> engine -> engine := ltac:(make_setter engine_eta tasks).
Definition set_next_job : nat -> engine -> engine := ltac:(make_setter engine_eta next_job).
Definition set_next_task : nat -> engine -> engine := ltac:(make_setter engine_eta next_task).
Definition set_stopping : bool -> engine -> engine := ltac:(make_setter engine_eta stopping).
Definition set_crashed : list exn -> engine -> engine := ltac:(make_setter engine_eta crashed).
End state.
Arguments engine : clear implicits.

Section operations.
Context {K : Type} `{FetchCatalog K} `{LowerCase} (sha1 : bytes -> bytes) (depth : nat) (opts : options).
Implicit Types (s : engine K) (a : attempt_task) (j : job_task).

(** [FetchEngine.__init__], and [main] up to its loop: [utp_opened] tells whether
    [open_utp_socket] returned a socket rather than raise [OSError]. *)
Definition new_engine (catalog : K) (time : Z) (utp_opened : bool) : res (engine K) :=
  assert_ (options_ok opts) ;;
  mret (Engine catalog time (Semaphore (max_connections opts) [])
    (if has_utp opts && utp_opened then Some (Semaphore UTP_MAX_CONNECTIONS []) else None)
    0 0 0 0 0 0 0 [] 0 0 0 0 [] [] [] 0 0 false []).

(** A method of the catalog: it runs with the catalog's lock. *)
Definition on_catalog {A} (m : ST K A) : task (engine K) A := fun s =>
  match m (catalog_state s) with Ok (a, k) => (Ok a, set_catalog_state k s) | Raise e => (Raise e, s) end.

(** An exception that ends a task nobody waits for. *)
Definition crash (e : exn) : task (engine K) unit := change (fun s => set_crashed (crashed s ++ [e]) s).

(** ** Reasons and reachability *)

Definition count_reason (reason : string) : task (engine K) string :=
  check (negb (bool_decide (reason = ""%string))) ;;
  change (fun s => set_reasons (dict_set reason (default 0 (dict_get reason (reasons s)) + 1)%Z (reasons s)) s) ;;
  mret reason.

Definition remember_in (key : unreachable_key) (expiry : Z) : task (engine K) unit :=
  s ← reads (fun s => s);
  '(_, table) ← call (remember (unreachable s) key expiry UNREACHABLE_ENTRIES);
  change (set_unreachable table).

Definition remember_unreachable (peer : address) (reason : string) : task (engine K) unit :=
  s ← reads (fun s => s);
  let expiry := (clock s + UNREACHABLE_SECONDS)%Z in
  (if bool_decide (reason = "connect_timeout"%string) then remember_in (inl peer.1) expiry
   else when (bool_decide (reason = "connect"%string)) (remember_in (inr peer) expiry)) ;;
  s ← reads (fun s => s);
  check (bool_decide (length (unreachable s) <= UNREACHABLE_ENTRIES)).

Definition is_known_unreachable (peer : address) (now : Z) (table : list (unreachable_key * Z)) : bool :=
  (now <? default 0 (dict_get (inl peer.1) table))%Z || (now <? default 0 (dict_get (inr peer) table))%Z.

(** ** Attempts *)

Definition set_stage (id : nat) a (st : stage) : task (engine K) unit :=
  change (fun s => set_tasks (dict_set id (Attempt (at_hash a) (at_peer a) st (at_cancelled a)) (tasks s)) s).

(** The [except] clauses of [verified]. *)
Definition failed_outcome (peer : address) (transport : string) (e : exn) : task (engine K) attempt_outcome :=
  match e with
  | MetadataFetchError reason =>
      when (bool_decide (transport = "tcp"%string)) (remember_unreachable peer reason) ;;
      counted ← count_reason (if bool_decide (transport = "tcp"%string) then reason else String.append "utp_" reason);
      mret (None, counted)
  | ValueError _ | RecursionError => counted ← count_reason "bad_info_dict"; mret (None, counted)
  | _ => counted ← count_reason "unexpected"; mret (None, counted)
  end.

(** [verified]: [fetch] is what the fetch it awaits returned or raised, with the
    route, and [wall] what [time.time()] reads. *)
Definition verified (info_hash : bytes) (peer : address) (fetch : res (bytes * string))
    (transport : string) (wall : Z) : task (engine K) attempt_outcome :=
  check (is_node_id info_hash && bool_decide (transport ∈ ["tcp"; "utp"]%string)) ;;
  result ← catch (
    '(raw, route) ← call fetch;
    when (negb (bool_decide (sha1 raw = info_hash))) (throw (MetadataFetchError "sha1_mismatch")) ;;
    info ← call (decode_bencode depth raw);
    metadata ← call (summarize_info_dict info_hash info wall (Some peer));
    change (fun s => set_encrypted_successes
      (encrypted_successes s + if bool_decide (route = "encrypted"%string) then 1 else 0)%Z s) ;;
    change (fun s => set_utp_successes
      (utp_successes s + if bool_decide (route = "utp"%string) then 1 else 0)%Z s) ;;
    mret (Some metadata, "ok"%string))
  (failed_outcome peer transport);
  check (bool_decide (is_Some result.1) || negb (bool_decide (result.2 = "ok"%string))) ;;
  mret result.

(** [attempt] after [slots.acquire()], up to the fetch it awaits. *)
Definition attempt_acquired (id : nat) a : task (engine K) unit :=
  change (fun s => set_waiting (waiting s - 1)%Z s) ;;
  change (fun s => set_active (active s + 1)%Z s) ;;
  change (fun s => set_attempts (attempts s + 1)%Z s) ;;
  change (fun s => set_max_active (Z.max (max_active s) (active s)) s) ;;
  set_stage id a Over_tcp.

(** [attempt] from its start. *)
Definition attempt_started (id : nat) a : task (engine K) unit :=
  change (fun s => set_waiting (waiting s + 1)%Z s) ;;
  s ← reads (fun s => s);
  let '(got, sem) := acquire id (slots s) in
  change (set_slots sem) ;;
  if got then attempt_acquired id a else set_stage id a Acquiring.

(** [attempt] from its wait for a slot, once it was handed one. *)
Definition slot_granted (id : nat) a : task (engine K) unit :=
  change (fun s => set_slots (acquired id (slots s)) s) ;;
  attempt_acquired id a.

(** The end of [attempt]. *)
Definition attempt_returns (id : nat) a (result : attempt_outcome) : task (engine K) unit :=
  check (bool_decide (is_Some result.1) || negb (bool_decide (result.2 = "ok"%string))) ;;
  set_stage id a (Ended (Ok result)).

Definition leave_slot : task (engine K) unit :=
  change (fun s => set_active (active s - 1)%Z s) ;;
  change (fun s => set_slots (release (slots s)) s).

Definition change_utp_slots (f : semaphore -> semaphore) : task (engine K) unit :=
  change (fun s => set_utp_slots (f <$> utp_slots s) s).

(** [attempt] once [fetch_with_retry] has ended: the slot is given back, and the
    fetch over uTP begins when it may help.  [utp_slots] has a free slot then, and
    [async with] takes it at once. *)
Definition attempt_fetched (id : nat) a (fetch : res (bytes * string)) (wall : Z) : task (engine K) unit :=
  result ← finally (verified (at_hash a) (at_peer a) fetch "tcp" wall) leave_slot;
  s ← reads (fun s => s);
  let utp_free := match utp_slots s with
    | Some sem => negb (locked sem) && negb (bool_decide (":"%byte ∈ (at_peer a).1))
    | None => false end in
  if bool_decide (result.1 = None) && bool_decide (result.2 ∈ utp_after_reasons opts) && has_utp opts && utp_free
  then change_utp_slots (fun sem => (acquire id sem).2) ;;
       change (fun s => set_utp_attempts (utp_attempts s + 1)%Z s) ;;
       set_stage id a (Over_utp result)
  else attempt_returns id a result.

(** [attempt] once [fetch_over_utp] has ended. *)
Definition attempt_fetched_utp (id : nat) a (result : attempt_outcome) (fetch : res bytes) (wall : Z)
    : task (engine K) unit :=
  utp_result ← finally
    (verified (at_hash a) (at_peer a) ((fun raw => (raw, "utp"%string)) <$> fetch) "utp" wall)
    (change_utp_slots release);
  when (bool_decide (is_Some utp_result.1))
    (change (fun s => set_unreachable (dict_del (inr (at_peer a)) (unreachable s)) s)) ;;
  attempt_returns id a
    (if bool_decide (is_Some utp_result.1) || negb (bool_decide (utp_result.2 = "utp_connect_timeout"%string))
     then utp_result else result).

(** What a fetch function returned or raised, to the attempt that awaits it;
    [fetch_with_retry] passes on what its first fetch came to, or goes on to its
    second. *)
Definition fetch_ended (id : nat) a (fetch : res bytes) (wall : Z) : task (engine K) unit :=
  match at_stage a with
  | Over_tcp =>
      if bool_decide (fetch = Raise (MetadataFetchError "closed_on_handshake")) && has_retry opts
      then change (fun s => set_encrypted_attempts (encrypted_attempts s + 1)%Z s) ;;
           set_stage id a Over_encrypted
      else attempt_fetched id a ((fun raw => (raw, "tcp"%string)) <$> fetch) wall
  | Over_encrypted => attempt_fetched id a ((fun raw => (raw, "encrypted"%string)) <$> fetch) wall
  | Over_utp result => attempt_fetched_utp id a result fetch wall
  | _ => mret tt
  end.

(** [CancelledError] at the [await] where the attempt is: the [finally] clauses it
    goes through. *)
Definition attempt_unwinds (id : nat) (st : stage) : task (engine K) unit :=
  match st with
  | Acquiring =>
      change (fun s => set_slots (leave_queue id (slots s)) s) ;;
      change (fun s => set_waiting (waiting s - 1)%Z s)
  | Over_tcp | Over_encrypted => leave_slot
  | Over_utp _ => change_utp_slots release
  | _ => mret tt
  end.

Definition attempt_cancelled (id : nat) a : task (engine K) unit :=
  attempt_unwinds id (at_stage a) ;;
  change (fun s => set_tasks (dict_del id (tasks s)) s).

(** A step of an attempt; an exception that leaves it is what its task raises. *)
Definition attempt_step (id : nat) (f : attempt_task -> task (engine K) unit) : task (engine K) unit :=
  s ← reads (fun s => s);
  match dict_get id (tasks s) with
  | Some a => catch (f a) (fun e => set_stage id a (Ended (Raise e)))
  | None => mret tt
  end.

(** [task.cancel()]: it does nothing to a task that has ended, and cancels the
    future that the task waits for. *)
Definition cancel_attempt (id : nat) : task (engine K) unit :=
  s ← reads (fun s => s);
  match dict_get id (tasks s) with
  | Some a =>
      match at_stage a with
      | Ended _ => mret tt
      | _ =>
          change (fun s => set_tasks (dict_set id (Attempt (at_hash a) (at_peer a) (at_stage a) true) (tasks s)) s) ;;
          when (bool_decide (dict_get id (waiters (slots s)) = Some Pending))
            (change (fun s => set_slots (leave_queue id (slots s)) s))
      end
  | None => mret tt
  end.

(** ** Jobs *)

Definition set_job (id : nat) j : task (engine K) unit := change (fun s => set_jobs (dict_set id j (jobs s)) s).
Definition del_job (id : nat) : task (engine K) unit := change (fun s => set_jobs (dict_del id (jobs s)) s).

Definition finish_job (info_hash : bytes) (metadata : option torrent_metadata) (blamed : list address)
    (reason : string) : task (engine K) unit :=
  check (is_node_id info_hash) ;;
  match metadata with
  | Some m =>
      on_catalog (catalog_store_metadata m) ;;
      change (fun s => set_successes (successes s + 1)%Z s)
  | None =>
      if negb (bool_decide (blamed = []))
      then on_catalog (catalog_mark_fetch_failed info_hash blamed reason) ;;
           change (fun s => set_failures (failures s + 1)%Z s)
      else on_catalog (catalog_release_fetch_claim info_hash)
  end ;;
  s ← reads (fun s => s);
  check ((0 <=? successes s) && (0 <=? failures s))%Z.

(** [run_job] after its loop. *)
Definition job_returns (id : nat) j : task (engine K) unit :=
  each cancel_attempt (job_running j).*1 ;;
  finish_job (job_hash j) (job_metadata j) (job_blamed j) (job_reason j) ;;
  check (bool_decide (job_running j = []) || bool_decide (is_Some (job_metadata j))) ;;
  del_job id.

(** [loop.create_task(self.attempt(...))] *)
Definition create_attempt (info_hash : bytes) (peer : address) : task (engine K) nat :=
  id ← reads next_task;
  change (set_next_task (S id)) ;;
  change (fun s => set_tasks (dict_set id (Attempt info_hash peer Created false) (tasks s)) s) ;;
  mret id.

(** [asyncio.wait], up to its wait. *)
Definition job_waits (id : nat) j (timeout : option Z) : task (engine K) unit :=
  call (raise_if (bool_decide (job_running j = [])) (ValueError "Set of Tasks/Futures is empty.")) ;;
  s ← reads (fun s => s);
  set_job id (Job (job_hash j) (job_waiting j) (job_running j) (job_blamed j) (job_reason j) (job_metadata j)
    true ((fun t => (clock s + t)%Z) <$> timeout) (job_cancelled j)).

Definition has_room (running : list (nat * address)) : bool :=
  (Z.of_nat (length running) <? peer_parallelism opts)%Z.

(** The loop of [run_job], up to its wait or to the end of the job: [peers] is
    its local variable [waiting]. *)
Fixpoint job_loop (id : nat) j (peers : list address) : task (engine K) unit :=
  let j := Job (job_hash j) peers (job_running j) (job_blamed j) (job_reason j) (job_metadata j)
             (job_started j) (job_wakeup j) (job_cancelled j) in
  if bool_decide (job_metadata j = None) &&
     (negb (bool_decide (peers = [])) || negb (bool_decide (job_running j = []))) then
    match peers with
    | peer :: peers =>
        if has_room (job_running j) then
          s ← reads (fun s => s);
          if is_known_unreachable peer (clock s) (unreachable s) then
            reason ← count_reason "skipped_unreachable";
            job_loop id (Job (job_hash j) peers (job_running j) (job_blamed j ++ [peer]) reason (job_metadata j)
              (job_started j) (job_wakeup j) (job_cancelled j)) peers
          else
            task ← create_attempt (job_hash j) peer;
            let running := dict_set task peer (job_running j) in
            job_waits id (Job (job_hash j) peers running (job_blamed j) (job_reason j) (job_metadata j)
              (job_started j) (job_wakeup j) (job_cancelled j))
              (if negb (bool_decide (peers = [])) && has_room running then Some (stagger_seconds opts) else None)
        else job_waits id j None
    | [] => job_waits id j None
    end
  else job_returns id j.

(** [run_job] from its start. *)
Definition job_starts (id : nat) j : task (engine K) unit :=
  check (is_node_id (job_hash j) && negb (bool_decide (job_waiting j = []))) ;;
  job_loop id j (job_waiting j).

(** The loop over the tasks that are done. *)
Fixpoint take_outcomes (done : list nat) j : task (engine K) job_task :=
  match done with
  | [] => mret j
  | id :: done =>
      match dict_get id (job_running j) with
      | None => throw KeyError
      | Some peer =>
          s ← reads (fun s => s);
          let running := dict_del id (job_running j) in
          '(outcome, attempt_reason) ← call (match dict_get id (tasks s) with
            | Some (Attempt _ _ (Ended result) _) => result
            | _ => Raise (ValueError "InvalidStateError")
            end);
          change (fun s => set_tasks (dict_del id (tasks s)) s) ;;
          match outcome with
          | Some m =>
              take_outcomes done (Job (job_hash j) (job_waiting j) running (job_blamed j) (job_reason j)
                (Some (default m (job_metadata j))) (job_started j) (job_wakeup j) (job_cancelled j))
          | None =>
              when (bool_decide (attempt_reason = "local_error"%string))
                (change (fun s => set_pause_until (clock s + local_error_pause opts)%Z s)) ;;
              take_outcomes done (Job (job_hash j) (job_waiting j) running
                (if bool_decide (attempt_reason ∈ UNBLAMED_REASONS) then job_blamed j else job_blamed j ++ [peer])
                attempt_reason (job_metadata j) (job_started j) (job_wakeup j) (job_cancelled j))
          end
      end
  end.

(** [run_job] from its wait: [done] are the tasks of [running] that have ended,
    in the order in which the set is gone through. *)
Definition job_wakes (id : nat) (done : list nat) j : task (engine K) unit :=
  j ← take_outcomes done j;
  job_loop id j (job_waiting j).

(** [except asyncio.CancelledError]; a job that has not started has nothing to
    catch it with. *)
Definition job_is_cancelled (id : nat) j : task (engine K) unit :=
  when (job_started j)
    (each cancel_attempt (job_running j).*1 ;;
     on_catalog (catalog_release_fetch_claim (job_hash j))) ;;
  del_job id.

(** A step of a job; the job is gone when an exception leaves it. *)
Definition job_step (id : nat) (f : job_task -> task (engine K) unit) : task (engine K) unit :=
  s ← reads (fun s => s);
  match dict_get id (jobs s) with
  | Some j => catch (f j) (fun e => del_job id ;; crash e)
  | None => mret tt
  end.

(** ** The main task *)

Definition create_job (candidate : bytes * list address) : task (engine K) unit :=
  id ← reads next_job;
  change (set_next_job (S id)) ;;
  set_job id (new_job candidate.1 candidate.2).

(** A turn of the loop of [main]. *)
Definition schedule : task (engine K) unit :=
  s ← reads (fun s => s);
  let free := (max_connections opts - active s - waiting s)%Z in
  when ((0 <? free)%Z && (pause_until s <=? clock s)%Z)
    (candidates ← on_catalog (catalog_next_fetch_candidates free);
     each create_job candidates).

Definition cancel_job (id : nat) : task (engine K) unit :=
  s ← reads (fun s => s);
  match dict_get id (jobs s) with
  | Some j => set_job id (Job (job_hash j) (job_waiting j) (job_running j) (job_blamed j) (job_reason j)
                (job_metadata j) (job_started j) (job_wakeup j) true)
  | None => mret tt
  end.

(** The [finally] clause of [main], up to its wait for the jobs. *)
Definition stop_jobs : task (engine K) unit :=
  s ← reads (fun s => s);
  change (set_stopping true) ;;
  each cancel_job (jobs s).*1.

(** [main] from its sleep: another turn, or its end when the stop event is set;
    an exception of the catalog ends it as well. *)
Definition main_wakes (stop : bool) : task (engine K) unit :=
  if stop then stop_jobs else catch schedule (fun e => crash e ;; stop_jobs).

(** ** Statistics *)

(** [snapshot_counts]; the packets sent are those of the uTP socket. *)
Definition snapshot_counts (packets_sent : Z) s : res (list (string * Z)) :=
  assert_ (1 <=? max_connections opts)%Z ;;
  let result := [
    ("fetch_attempts", attempts s); ("fetch_successes", successes s); ("fetch_failures", failures s);
    ("fetch_encrypted_attempts", encrypted_attempts s); ("fetch_encrypted_successes", encrypted_successes s);
    ("fetch_utp_attempts", utp_attempts s); ("fetch_utp_successes", utp_successes s);
    ("utp_packets_sent", match utp_slots s with Some _ => packets_sent | None => 0 end);
    ("fetch_workers", max_connections opts); ("fetch_connections", active s);
    ("fetch_connections_max", max_active s); ("fetch_queue_size", waiting s)]%Z%string in
  let result := fold_left (fun d rc => dict_set (String.append "fetch_fail_" rc.1) rc.2 d) (reasons s) result in
  assert_ (default 0 (dict_get "fetch_connections"%string result)
           <=? default 0 (dict_get "fetch_workers"%string result))%Z ;;
  mret result.

(** ** Steps *)

Inductive event : Type :=
  | Time_passes (duration : Z)
  | Main_wakes (stop : bool)
  | Job_starts (id : nat)
  | Job_wakes (id : nat) (done : list nat)
  | Job_cancelled (id : nat)
  | Attempt_starts (id : nat)
  | Slot_granted (id : nat)
  | Fetch_ended (id : nat) (fetch : res bytes) (wall : Z)
  | Attempt_cancelled (id : nat).

Definition handle (ev : event) : task (engine K) unit :=
  match ev with
  | Time_passes duration => change (fun s => set_clock (clock s + duration)%Z s)
  | Main_wakes stop => main_wakes stop
  | Job_starts id => job_step id (job_starts id)
  | Job_wakes id done => job_step id (job_wakes id done)
  | Job_cancelled id => job_step id (job_is_cancelled id)
  | Attempt_starts id => attempt_step id (attempt_started id)
  | Slot_granted id => attempt_step id (slot_granted id)
  | Fetch_ended id fetch wall => attempt_step id (fun a => fetch_ended id a fetch wall)
  | Attempt_cancelled id => attempt_step id (attempt_cancelled id)
  end.

Definition is_ended s (id : nat) : bool :=
  match dict_get id (tasks s) with Some (Attempt _ _ (Ended _) _) => true | _ => false end.
Definition is_fetching (st : stage) : bool :=
  match st with Over_tcp | Over_encrypted | Over_utp _ => true | _ => false end.

(** What a fetch comes to: bytes, a [MetadataFetchError] of a known reason (its
    constructor asserts that), or another exception. *)
Definition fetch_result_ok (fetch : res bytes) : bool :=
  match fetch with Raise (MetadataFetchError reason) => bool_decide (reason ∈ FETCH_REASONS) | _ => true end.

(** The events that may come next.  The main task sleeps between its turns, and
    the loop starts the jobs of a turn before that sleep ends.  A job waits until
    a task of its [running] has ended or its time is over; a cancelled task is
    next run with its [CancelledError], except that a fetch may end at the very
    moment it is cancelled. *)
Definition enabled s (ev : event) : bool :=
  match ev with
  | Time_passes duration => (0 <=? duration)%Z
  | Main_wakes _ => negb (stopping s) && forallb (fun ij => job_started ij.2) (jobs s)
  | Job_starts id =>
      match dict_get id (jobs s) with Some j => negb (job_started j) && negb (job_cancelled j) | None => false end
  | Job_wakes id done =>
      match dict_get id (jobs s) with
      | Some j =>
          job_started j && negb (job_cancelled j) && bool_decide (NoDup done) &&
          forallb (fun t => dict_has t (job_running j) && is_ended s t) done &&
          forallb (fun t => negb (is_ended s t) || bool_decide (t ∈ done)) (job_running j).*1 &&
          (negb (bool_decide (done = [])) ||
           match job_wakeup j with Some t => (t <=? clock s)%Z | None => false end)
      | None => false
      end
  | Job_cancelled id => match dict_get id (jobs s) with Some j => job_cancelled j | None => false end
  | Attempt_starts id =>
      match dict_get id (tasks s) with
      | Some a => bool_decide (at_stage a = Created) && negb (at_cancelled a) | None => false end
  | Slot_granted id =>
      match dict_get id (tasks s) with
      | Some a => bool_decide (at_stage a = Acquiring) && negb (at_cancelled a) &&
                  bool_decide (dict_get id (waiters (slots s)) = Some Woken)
      | None => false end
  | Fetch_ended id fetch wall =>
      match dict_get id (tasks s) with
      | Some a => is_fetching (at_stage a) && fetch_result_ok fetch && (0 <=? wall)%Z | None => false end
  | Attempt_cancelled id =>
      match dict_get id (tasks s) with Some a => at_cancelled a && negb (is_ended s id) | None => false end
  end.
End operations.
