(* ===== verification/FetchEngineSafety.v ===== *)
(** The invariant of the fetch engine: the slots, the counters, the tasks and the
    jobs fit together, and the hashes of the jobs are exactly what the catalog
    has given out.  Every operation runs without an exception from a state in
    order, and the parts below put it back in order. *)
From S2P Require Import Prelude PyDict Semaphore Bencode NodeIdentity Krpc TorrentInfo Catalog CatalogInterface.
From S2P Require Import Tasks MetadataSession FetchEngine.

Section safety.
Context {K : Type} `{FL : FetchCatalogLaws K} (sha1 : bytes -> bytes) (depth : nat) (opts : options).
Implicit Types (s : engine K) (a : attempt_task) (j : job_task) (h : bytes).

Abbreviation never := (fun (_ : exn) (_ : engine K) => False).

(** ** What the parts promise *)

(** The stages in which an attempt is counted: it holds a slot, it waits for one,
    it holds one of uTP. *)
Definition over_slot a : Z := match at_stage a with Over_tcp | Over_encrypted => 1 | _ => 0 end.
Definition at_acquire a : Z := match at_stage a with Acquiring => 1 | _ => 0 end.
Definition over_utp a : Z := match at_stage a with Over_utp _ => 1 | _ => 0 end.

(** Slots and counters are those of the tasks; the queue of the slots is made of
    tasks that wait, and of every one that is not cancelled. *)
Record slots_ok s : Prop := SlotsOk {
  so_tasks : dict_wf (tasks s);
  so_next : forall id, is_Some (dict_get id (tasks s)) -> id < next_task s;
  so_sem : semaphore_ok (slots s);
  so_shares : (shares (slots s) + active s)%Z = max_connections opts;
  so_active : active s = sum_over over_slot (tasks s);
  so_waiting : waiting s = sum_over at_acquire (tasks s);
  so_waiters id : id ∈ (waiters (slots s)).*1 -> exists a, dict_get id (tasks s) = Some a /\ at_stage a = Acquiring;
  so_queued id a : dict_get id (tasks s) = Some a -> at_stage a = Acquiring -> at_cancelled a = false ->
    id ∈ (waiters (slots s)).*1;
  so_utp : match utp_slots s with
    | Some sem => waiters sem = [] /\ (0 <= value sem)%Z /\ (value sem + sum_over over_utp (tasks s) = UTP_MAX_CONNECTIONS)%Z
    | None => sum_over over_utp (tasks s) = 0%Z end;
  so_max : (active s <= max_active s <= max_connections opts)%Z }.

(** An outcome is metadata of the torrent, or a reason other than ["ok"]. *)
Definition outcome_ok h (r : attempt_outcome) : Prop :=
  match r.1 with Some m => metadata_ok m /\ md_info_hash m = h | None => r.2 <> "ok"%string end.

Definition stage_ok h (st : stage) : Prop :=
  match st with
  | Over_utp r => outcome_ok h r | Ended (Ok r) => outcome_ok h r | Ended (Raise _) => False | _ => True
  end.

Definition attempt_ok a : Prop := length (at_hash a) = NODE_ID_LENGTH /\ stage_ok (at_hash a) (at_stage a).

(** The tasks of [running] are attempts of the job that nobody cancelled. *)
Definition runs s j : Prop := forall t p, dict_get t (job_running j) = Some p ->
  exists a, dict_get t (tasks s) = Some a /\ at_hash a = job_hash j /\ at_peer a = p /\ at_cancelled a = false.

(** A job between two steps, and what also holds in the middle of its step. *)
Definition job_loose s j : Prop :=
  length (job_hash j) = NODE_ID_LENGTH /\ dict_wf (job_running j) /\ runs s j /\
  (Z.of_nat (length (job_running j)) <= peer_parallelism opts)%Z /\
  (forall m, job_metadata j = Some m -> metadata_ok m /\ md_info_hash m = job_hash j).
Definition job_strict j : Prop :=
  job_metadata j = None /\
  (if job_started j then job_running j <> []
   else job_running j = [] /\ job_waiting j <> [] /\ job_cancelled j = false /\ job_wakeup j = None) /\
  (job_wakeup j <> None -> job_waiting j <> [] /\ has_room opts (job_running j) = true).

(** The jobs, but for the one in the middle of its step. *)
Record jobs_ok (X : option nat) s : Prop := JobsOk {
  jo_jobs : dict_wf (jobs s);
  jo_next : forall id, is_Some (dict_get id (jobs s)) -> id < next_job s;
  jo_loose id j : dict_get id (jobs s) = Some j -> job_loose s j;
  jo_strict id j : dict_get id (jobs s) = Some j -> Some id <> X -> job_strict j;
  jo_hashes id id' j j' : dict_get id (jobs s) = Some j -> dict_get id' (jobs s) = Some j' ->
    job_hash j = job_hash j' -> id = id';
  jo_apart id id' j j' t : dict_get id (jobs s) = Some j -> dict_get id' (jobs s) = Some j' ->
    is_Some (dict_get t (job_running j)) -> is_Some (dict_get t (job_running j')) -> id = id';
  jo_attempts id a : dict_get id (tasks s) = Some a -> attempt_ok a }.

(** What the engine has claimed. *)
Definition claimed s h : Prop := exists id j, dict_get id (jobs s) = Some j /\ job_hash j = h.

Definition counts_ok s : Prop :=
  crashed s = [] /\ table_ok UNREACHABLE_ENTRIES (unreachable s) /\ (0 <= successes s)%Z /\ (0 <= failures s)%Z.

Definition engine_ok (X : option nat) s : Prop :=
  slots_ok s /\ jobs_ok X s /\ counts_ok s /\ fetches_ok (claimed s) (catalog_state s).

(** ** Changes of other fields *)

(** What the invariant depends on, but for the tables of jobs and tasks. *)
Definition same_slots s s' : Prop :=
  slots s' = slots s /\ utp_slots s' = utp_slots s /\ active s' = active s /\ waiting s' = waiting s /\
  max_active s' = max_active s.
Definition same_tables s s' : Prop :=
  tasks s' = tasks s /\ next_task s' = next_task s /\ jobs s' = jobs s /\ next_job s' = next_job s /\
  catalog_state s' = catalog_state s /\ stopping s' = stopping s /\ clock s' = clock s.

(** A change of reasons, reachability and counters. *)
Definition quiet s s' : Prop := same_slots s s' /\ same_tables s s' /\ (counts_ok s -> counts_ok s').

Lemma quiet_refl s : quiet s s.
Proof using. split; [by repeat split|]. split; [by repeat split|done]. Qed.

Lemma quiet_trans s s1 s2 : quiet s s1 -> quiet s1 s2 -> quiet s s2.
Proof using.
  intros ((a1 & a2 & a3 & a4 & a5) & (b1 & b2 & b3 & b4 & b5 & b6 & b7) & c1)
    ((d1 & d2 & d3 & d4 & d5) & (e1 & e2 & e3 & e4 & e5 & e6 & e7) & f1).
  split; [repeat split; congruence|]. split; [repeat split; congruence|auto].
Qed.

Lemma slots_ok_same s s' :
  same_slots s s' -> tasks s' = tasks s -> next_task s' = next_task s -> slots_ok s -> slots_ok s'.
Proof using.
  intros (H1 & H2 & H3 & H4 & H5) H6 H7 []. by split; rewrite ?H1, ?H2, ?H3, ?H4, ?H5, ?H6, ?H7.
Qed.

Lemma jobs_ok_same X s s' :
  tasks s' = tasks s -> jobs s' = jobs s -> next_job s' = next_job s -> jobs_ok X s -> jobs_ok X s'.
Proof using.
  intros H1 H2 H3 [A1 A2 A3 A4 A5 A6 A7].
  split; rewrite ?H1, ?H2, ?H3; try done. intros id j Hj. specialize (A3 id j Hj).
  unfold job_loose, runs in *. by rewrite H1.
Qed.

Lemma engine_ok_quiet X s s' : quiet s s' -> engine_ok X s -> engine_ok X s'.
Proof using.
  intros (Hs & (T1 & T2 & T3 & T4 & T5 & _) & Hc) (H1 & H2 & H3 & H4).
  split; [by eapply slots_ok_same|]. split; [by eapply jobs_ok_same|]. split; [by apply Hc|].
  eapply fetches_ok_iff; [|by rewrite T5]. intros h. unfold claimed. by rewrite T3.
Qed.

(** Operations that only make quiet changes. *)
Definition quietly {A} (m : task (engine K) A) (Q : A -> Prop) : Prop := forall s,
  counts_ok s -> tri m (fun x s' => Q x /\ quiet s s') never s.

Lemma quietly_bind {A B} (m : task (engine K) A) (f : A -> task (engine K) B) Q R :
  quietly m Q -> (forall x, Q x -> quietly (f x) R) -> quietly (m ≫= f) R.
Proof using.
  intros Hm Hf s Hs. apply tri_bind. eapply tri_mono; [by apply Hm| |done]. intros x s1 [Hx H1].
  eapply tri_mono; [apply Hf; [done|by apply H1]| |done]. intros b s2 [Hb H2]. split; [done|]. by eapply quiet_trans.
Qed.

Lemma quietly_ret {A} (x : A) (Q : A -> Prop) : Q x -> quietly (mret x) Q.
Proof using. intros Hx s Hs. apply tri_ret. split; [done|apply quiet_refl]. Qed.

Lemma quietly_change f : (forall s, quiet s (f s)) -> quietly (change f) (fun _ => True).
Proof using. intros Hf s Hs. by apply tri_change. Qed.

Lemma quietly_count_reason reason : reason <> ""%string -> quietly (count_reason reason) (eq reason).
Proof using.
  intros Hr s Hs. unfold count_reason. apply tri_bind, tri_check; [by rewrite bool_decide_eq_false_2|].
  tri_steps. split; [done|]. split; [by repeat split|]. split; [by repeat split|done].
Qed.

Lemma quietly_remember_in key expiry : quietly (remember_in (K := K) key expiry) (fun _ => True).
Proof using.
  intros s Hs. unfold remember_in. apply tri_bind, tri_reads. pose proof Hs as (H1 & [Hwf Hlen] & H3 & H4).
  destruct (remember_table (unreachable s) key expiry UNREACHABLE_ENTRIES) as (table & Hr & Ht & _);
    [apply Nat2Z.inj_le; unfold UNREACHABLE_ENTRIES; lia|done|].
  apply tri_bind. eapply tri_call_Ok; [exact Hr|]. apply tri_change. split; [done|].
  split; [by repeat split|]. split; [by repeat split|]. intros _. by split.
Qed.

Lemma quietly_remember_unreachable peer reason :
  quietly (remember_unreachable (K := K) peer reason) (fun _ => True).
Proof using.
  intros s Hs. unfold remember_unreachable. apply tri_bind, tri_reads. apply tri_bind.
  eapply (tri_mono _ (fun _ s' => True /\ quiet s s') _ never); [|intros u s' [_ Hq]|done].
  - destruct (bool_decide (reason = "connect_timeout"%string)); [by apply quietly_remember_in|].
    apply tri_when; intros _; [by apply quietly_remember_in|]. split; [done|apply quiet_refl].
  - apply tri_bind, tri_reads, tri_check; [|done]. apply bool_decide_eq_true. apply Hq, Hs.
Qed.

Lemma quietly_call {A} (r : res A) x (Q : A -> Prop) : r = Ok x -> Q x -> quietly (call r) Q.
Proof using. intros -> Hx s Hs. split; [done|apply quiet_refl]. Qed.

Lemma quietly_check c : c = true -> quietly (check c) (fun _ => True).
Proof using. intros ->. by apply (quietly_call _ tt). Qed.

Lemma quietly_when (c : bool) m : (c = true -> quietly m (fun _ => True)) -> quietly (when c m) (fun _ => True).
Proof using. intros Hm. destruct c; [by apply Hm|by apply quietly_ret]. Qed.

(** ** Verification *)

(** The exceptions of a fetch that [verified] sees. *)
Definition fetch_raises (e : exn) : Prop := forall reason, e = MetadataFetchError reason -> reason ∈ FETCH_REASONS.

Lemma known_not_empty reason : reason ∈ FETCH_REASONS -> reason <> ""%string /\ reason <> "ok"%string.
Proof using. 
  intros Hin. apply (bool_decide_eq_true_2 (reason ∈ FETCH_REASONS)) in Hin.
  split; intros ->; vm_compute in Hin; discriminate.
Qed.

(** The [except] clauses of [verified]. *)
Lemma quietly_failed peer transport e :
  fetch_raises e ->
  quietly (failed_outcome peer transport e) (fun r : attempt_outcome => r.1 = None /\ r.2 <> "ok"%string).
Proof using.
  intros He.
  assert (forall reason, reason <> ""%string -> reason <> "ok"%string ->
    quietly (counted ← count_reason reason; mret (None, counted))
      (fun r : attempt_outcome => r.1 = None /\ r.2 <> "ok"%string)) as Hcount.
  { intros reason H1 H2. eapply quietly_bind; [by apply quietly_count_reason|].
    intros counted <-. by apply quietly_ret. }
  destruct e; try (by apply Hcount).
  destruct (known_not_empty reason) as [H1 H2]; [by apply He|].
  eapply quietly_bind; [apply quietly_when; intros _; apply quietly_remember_unreachable|]. intros _ _.
  destruct (bool_decide (transport = "tcp"%string)); by apply Hcount.
Qed.

(** What [verified] comes to: metadata of a torrent whose bytes have the SHA-1 of
    the info hash, or a reason. *)
Definition verified_ok h (peer : address) (fetch : res (bytes * string)) (wall : Z) (r : attempt_outcome) : Prop :=
  match r.1 with
  | Some m => metadata_ok m /\ md_info_hash m = h /\ md_source_peer m = Some peer /\
      exists raw route info, fetch = Ok (raw, route) /\ sha1 raw = h /\
        decode_bencode depth raw = Ok info /\ summarize_info_dict h info wall (Some peer) = Ok m
  | None => r.2 <> "ok"%string
  end.

Lemma quietly_verified h peer fetch transport wall :
  length h = NODE_ID_LENGTH -> (0 <= wall)%Z -> transport ∈ ["tcp"; "utp"]%string ->
  (forall e, fetch = Raise e -> fetch_raises e) ->
  quietly (verified sha1 depth h peer fetch transport wall) (verified_ok h peer fetch wall).
Proof using.
  intros Hh Hwall Htr Hf. unfold verified. eapply quietly_bind.
  { apply quietly_check. rewrite is_node_id_of by done. by apply bool_decide_eq_true. }
  intros _ _. eapply (quietly_bind _ _ (verified_ok h peer fetch wall)).
  - intros s Hs. apply tri_catch.
    assert (forall e, fetch_raises e ->
      tri (failed_outcome peer transport e) (fun r s' => verified_ok h peer fetch wall r /\ quiet s s') never s) as Hfail.
    { intros e He. eapply tri_mono; [by apply quietly_failed| |done].
      intros r s' [[Hr1 Hr2] Hq]. unfold verified_ok. by rewrite Hr1. }
    destruct fetch as [[raw route]|e]; [|by apply Hfail; apply Hf].
    apply tri_bind, tri_ret. cbv beta iota. apply tri_bind.
    destruct (decide (sha1 raw = h)) as [Hsha|Hsha].
    2: { rewrite bool_decide_eq_false_2 by done. apply tri_throw, Hfail.
      intros reason [= <-]. apply list_elem_of_In. cbn. tauto. }
    rewrite bool_decide_eq_true_2 by done. apply tri_ret. apply tri_bind, tri_call.
    destruct (decode_bencode depth raw) as [info|e] eqn:Hd; cbn [returns].
    2: { apply Hfail. by destruct (decode_bencode_raises _ _ _ Hd) as [[r ->]| ->]. }
    pose proof (decode_bencode_decoded _ _ _ Hd) as Hdec. apply tri_bind, tri_call.
    pose proof (summarize_info_dict_outcome h info wall (Some peer) Hh Hwall Hdec) as Hsum.
    destruct (summarize_info_dict h info wall (Some peer)) as [m|e] eqn:Hm; cbn [returns] in *.
    2: { apply Hfail. by subst e. }
    destruct Hsum as (Hok & Hhash & _ & _ & Hsrc & _). tri_steps. split.
    + split; [done|]. split; [done|]. split; [done|]. by exists raw, route, info.
    + split; [by repeat split|]. split; [by repeat split|]. intros Hc. exact Hc.
  - intros r Hr. eapply quietly_bind; [apply quietly_check|by intros _ _; apply quietly_ret].
    unfold verified_ok in Hr. destruct r as [[m|] reason]; [done|]. cbn in *. by rewrite bool_decide_eq_false_2.
Qed.

(** ** The tasks *)

(** Task [id] becomes [o], and the slots change with it. *)
Lemma slots_ok_put s s' id (o : option attempt_task) :
  let old := dict_get id (tasks s) in
  slots_ok s -> tasks s' = dict_put id o (tasks s) ->
  next_task s <= next_task s' -> (is_Some o -> id < next_task s') ->
  semaphore_ok (slots s') -> (shares (slots s') + active s')%Z = max_connections opts ->
  active s' = (active s - weight over_slot old + weight over_slot o)%Z ->
  waiting s' = (waiting s - weight at_acquire old + weight at_acquire o)%Z ->
  (forall id', id' ∈ (waiters (slots s')).*1 ->
     id' <> id /\ id' ∈ (waiters (slots s)).*1 \/ id' = id /\ exists a, o = Some a /\ at_stage a = Acquiring) ->
  (forall id', id' <> id -> id' ∈ (waiters (slots s)).*1 -> id' ∈ (waiters (slots s')).*1) ->
  (forall a, o = Some a -> at_stage a = Acquiring -> at_cancelled a = false -> id ∈ (waiters (slots s')).*1) ->
  match utp_slots s, utp_slots s' with
  | Some sem, Some sem' => waiters sem' = [] /\ (0 <= value sem')%Z /\
      value sem' = (value sem + weight over_utp old - weight over_utp o)%Z
  | None, None => weight over_utp o = 0%Z
  | _, _ => False end ->
  (active s' <= max_active s' <= max_connections opts)%Z ->
  slots_ok s'.
Proof using.
  intros old [A1 A2 A3 A4 A5 A6 A7 A8 A9 A10] Ht Hn Hid Hsem Hsh Hact Hwait Hw1 Hw2 Hw3 Hutp Hmax. split.
  - rewrite Ht. by apply dict_put_wf.
  - intros id'. rewrite Ht, dict_get_put. case_decide as Hd; [subst; auto|]. intros Hx%A2. lia.
  - done.
  - done.
  - rewrite Ht, sum_over_put, Hact, A5 by done. done.
  - rewrite Ht, sum_over_put, Hwait, A6 by done. done.
  - intros id' Hin0. destruct (Hw1 id' Hin0) as [[Hne Hin]|[-> (a & -> & Ha)]].
    + destruct (A7 id' Hin) as (a & Ha & Hst). exists a. by rewrite Ht, dict_get_put, decide_False by done.
    + exists a. by rewrite Ht, dict_get_put, decide_True.
  - intros id' a. rewrite Ht, dict_get_put. case_decide as Hd; [subst id'; apply Hw3|]. intros Ha Hst Hc.
    by apply Hw2, (A8 id' a).
  - rewrite Ht, sum_over_put by done. fold old. revert A9 Hutp.
    destruct (utp_slots s) as [sem|], (utp_slots s') as [sem'|]; try done.
    + intros (B1 & B2 & B3) (C1 & C2 & C3). split; [done|]. split; [done|]. lia.
    + intros B C. assert (0 <= weight over_utp old <= 0)%Z; [|lia]. subst old.
      destruct (dict_get id (tasks s)) as [a|] eqn:Ha; [|done]. cbn.
      assert (forall a, 0 <= over_utp a)%Z as Hpos by (intros a'; unfold over_utp; destruct (at_stage a'); lia).
      rewrite (sum_over_del over_utp id a) in B by done.
      pose proof (sum_over_nonneg over_utp (dict_del id (tasks s)) Hpos). specialize (Hpos a). lia.
  - done.
Qed.

(** The jobs do not see a change of other tasks, or of where their own are. *)
Lemma jobs_ok_put X s s' id (o : option attempt_task) :
  jobs_ok X s -> tasks s' = dict_put id o (tasks s) -> jobs s' = jobs s -> next_job s' = next_job s ->
  (forall a', o = Some a' -> attempt_ok a') ->
  (forall i j a, dict_get i (jobs s) = Some j -> is_Some (dict_get id (job_running j)) ->
     dict_get id (tasks s) = Some a -> at_cancelled a = false ->
     exists a', o = Some a' /\ at_hash a' = at_hash a /\ at_peer a' = at_peer a /\ at_cancelled a' = false) ->
  jobs_ok X s'.
Proof using.
  intros [A1 A2 A3 A4 A5 A6 A7] Ht Hj Hn Ho Hrun. split; rewrite ?Hj, ?Hn; try done.
  - intros i j Hi. destruct (A3 i j Hi) as (B1 & B2 & B3 & B4). split; [done|]. split; [done|]. split; [|done].
    intros t p Hp. destruct (B3 t p Hp) as (a & Ha & C1 & C2 & C3). rewrite Ht, dict_get_put. case_decide as Hd.
    + subst t. destruct (Hrun i j a Hi) as (a' & -> & D1 & D2 & D3); [by eexists|done..|].
      exists a'. split; [done|]. split; [congruence|]. split; congruence.
    + by exists a.
  - intros i a. rewrite Ht, dict_get_put. case_decide as Hd; [auto|apply A7].
Qed.

(** ** Attempts *)

Definition with_stage a (st : stage) : attempt_task := Attempt (at_hash a) (at_peer a) st (at_cancelled a).

(** Nothing but the slots, the counters and the tasks is touched. *)
Definition same_jobs s s' : Prop :=
  jobs s' = jobs s /\ next_job s' = next_job s /\ catalog_state s' = catalog_state s /\
  (counts_ok s -> counts_ok s').

Ltac untouched := split; [done|split; [done|split; [done|exact (fun H => H)]]].

Lemma engine_ok_stage X s s' id a st :
  engine_ok X s -> dict_get id (tasks s) = Some a -> stage_ok (at_hash a) st ->
  tasks s' = dict_set id (with_stage a st) (tasks s) -> same_jobs s s' -> slots_ok s' -> engine_ok X s'.
Proof using.
  intros (H1 & H2 & H3 & H4) Ha Hst Ht (J1 & J2 & J3 & J4) Hs. split; [done|]. split; [|split; [auto|]].
  - eapply (jobs_ok_put _ s s' id (Some (with_stage a st))); [done..| |].
    + intros a' [= <-]. split; [|done]. by apply (jo_attempts _ _ H2 id a).
    + intros i j a' _ _ Ha' Hc. assert (a' = a) as -> by congruence. by exists (with_stage a st).
  - eapply fetches_ok_iff; [|by rewrite J3]. intros h. unfold claimed. by rewrite J1.
Qed.

Lemma active_bound s : slots_ok s -> (0 <= active s <= max_connections opts)%Z.
Proof using.
  intros [A1 A2 (B1 & _) A4 A5 A6 A7 A8 A9 A10]. split; [|lia]. rewrite A5. apply sum_over_nonneg.
  intros a. unfold over_slot. destruct (at_stage a); lia.
Qed.

Lemma shares_nonneg (sem : semaphore) : semaphore_ok sem -> (0 <= shares sem)%Z.
Proof using.
  intros (Hv & _). unfold shares. pose proof (sum_over_nonneg is_woken (waiters sem)) as Hn.
  assert (0 <= sum_over is_woken (waiters sem))%Z; [|lia]. apply Hn. by intros [].
Qed.

Lemma not_waiting s id a :
  slots_ok s -> dict_get id (tasks s) = Some a -> at_stage a <> Acquiring -> dict_get id (waiters (slots s)) = None.
Proof using.
  intros Hs Ha Hst. apply dict_get_None. intros Hin. destruct (so_waiters s Hs id Hin) as (a' & Ha' & Hst').
  congruence.
Qed.

Lemma utp_unchanged s id a st :
  slots_ok s -> dict_get id (tasks s) = Some a -> over_utp (with_stage a st) = over_utp a ->
  match utp_slots s with
  | Some sem => waiters sem = [] /\ (0 <= value sem)%Z /\
      value sem = (value sem + weight over_utp (dict_get id (tasks s)) - weight over_utp (Some (with_stage a st)))%Z
  | None => weight over_utp (Some (with_stage a st)) = 0%Z end.
Proof using.
  intros Hs Ha Hst. pose proof (so_utp s Hs) as Hu. rewrite Ha. cbn [weight]. rewrite Hst.
  destruct (utp_slots s) as [sem|]; [split; [apply Hu|]; split; [apply Hu|lia]|].
  rewrite (sum_over_del over_utp id a) in Hu by (try done; apply Hs).
  pose proof (sum_over_nonneg over_utp (dict_del id (tasks s))) as Hn.
  assert (forall a, 0 <= over_utp a)%Z as Hpos by (intros a'; unfold over_utp; destruct (at_stage a'); lia).
  specialize (Hn Hpos). pose proof (Hpos a). lia.
Qed.

Lemma tri_attempt_started X s id a :
  engine_ok X s -> dict_get id (tasks s) = Some a -> at_stage a = Created -> at_cancelled a = false ->
  tri (attempt_started id a) (fun _ s' => engine_ok X s') never s.
Proof using.
  intros Hs Ha Hst Hc. pose proof Hs as (Hsl & _). unfold attempt_started. apply tri_bind, tri_change, tri_bind, tri_reads.
  cbn [slots set_waiting].
  destruct (acquire_ok id (slots s)) as [Hok Hcase]; [apply Hsl|eapply not_waiting; [done..|congruence]|].
  destruct (acquire id (slots s)) as [got sem]. cbn [fst snd] in *. apply tri_bind, tri_change.
  pose proof (so_shares s Hsl) as Hsh. pose proof (so_max s Hsl). pose proof (active_bound s Hsl).
  pose proof (shares_nonneg sem Hok).
  assert (id < next_task s) as Hid by (apply Hsl; by eexists).
  destruct got; destruct Hcase as [Hsem Hws].
  - unfold attempt_acquired, set_stage. do 4 apply tri_bind, tri_change. apply tri_change.
    eapply (engine_ok_stage X s _ id a Over_tcp); [done..| |]; [untouched|].
    eapply (slots_ok_put s _ id (Some (with_stage a Over_tcp))); try done; cbn.
    + lia.
    + rewrite Ha. cbn. unfold over_slot. rewrite Hst. lia.
    + rewrite Ha. cbn. unfold at_acquire. rewrite Hst. lia.
    + rewrite Hws. intros id' Hin. left. split; [|done]. intros ->.
      destruct (so_waiters s Hsl id Hin) as (a' & ? & ?). congruence.
    + by rewrite Hws.
    + intros a' [= <-]. done.
    + eapply (utp_unchanged s id a Over_tcp) in Ha; [|done|by unfold over_utp; rewrite Hst].
      by destruct (utp_slots s).
    + lia.
  - unfold set_stage. apply tri_change.
    eapply (engine_ok_stage X s _ id a Acquiring); [done..| |]; [untouched|].
    eapply (slots_ok_put s _ id (Some (with_stage a Acquiring))); try done; cbn.
    + lia.
    + rewrite Ha. cbn. unfold over_slot. rewrite Hst. lia.
    + rewrite Ha. cbn. unfold at_acquire. rewrite Hst. lia.
    + rewrite Hws, fmap_app. intros id' [Hin| ->%list_elem_of_singleton]%elem_of_app; [left|right].
      * split; [|done]. intros ->. destruct (so_waiters s Hsl id Hin) as (a' & ? & ?). congruence.
      * split; [done|]. by exists (with_stage a Acquiring).
    + rewrite Hws, fmap_app. intros id' _ Hin. apply elem_of_app. by left.
    + intros a' _ _ _. rewrite Hws, fmap_app. apply elem_of_app. right. by apply list_elem_of_singleton.
    + eapply (utp_unchanged s id a Acquiring) in Ha; [|done|by unfold over_utp; rewrite Hst].
      by destruct (utp_slots s).
Qed.

Lemma tri_slot_granted X s id a :
  engine_ok X s -> dict_get id (tasks s) = Some a -> at_stage a = Acquiring ->
  dict_get id (waiters (slots s)) = Some Woken ->
  tri (slot_granted id a) (fun _ s' => engine_ok X s') never s.
Proof using.
  intros Hs Ha Hst Hw. pose proof Hs as (Hsl & _). unfold slot_granted. apply tri_bind, tri_change.
  destruct (acquired_ok id (slots s)) as (Hok & Hsem & Hws); [apply Hsl|done|].
  unfold attempt_acquired, set_stage. do 4 apply tri_bind, tri_change. apply tri_change.
  pose proof (so_shares s Hsl). pose proof (so_max s Hsl). pose proof (active_bound s Hsl).
  pose proof (shares_nonneg _ Hok). assert (id < next_task s) as Hid by (apply Hsl; by eexists).
  eapply (engine_ok_stage X s _ id a Over_tcp); [done..| |]; [untouched|].
  eapply (slots_ok_put s _ id (Some (with_stage a Over_tcp))); try done; cbn.
  - lia.
  - rewrite Ha. cbn. unfold over_slot. rewrite Hst. lia.
  - rewrite Ha. cbn. unfold at_acquire. rewrite Hst. lia.
  - rewrite Hws. intros id' [Hne Hin]%list_elem_of_filter. by left.
  - rewrite Hws. intros id' Hne Hin. by apply list_elem_of_filter.
  - by intros a' [= <-].
  - eapply (utp_unchanged s id a Over_tcp) in Ha; [|done|by unfold over_utp; rewrite Hst]. by destruct (utp_slots s).
  - lia.
Qed.

(** An attempt that leaves its slot: it goes to another stage, or it is gone. *)
Lemma slots_ok_leave s s' id a (o : option attempt_task) :
  slots_ok s -> dict_get id (tasks s) = Some a -> over_slot a = 1%Z ->
  tasks s' = dict_put id o (tasks s) -> next_task s' = next_task s ->
  slots s' = release (slots s) -> active s' = (active s - 1)%Z -> waiting s' = waiting s ->
  max_active s' = max_active s -> weight over_slot o = 0%Z -> weight at_acquire o = 0%Z ->
  match utp_slots s, utp_slots s' with
  | Some sem, Some sem' => waiters sem' = [] /\ (0 <= value sem')%Z /\ value sem' = (value sem - weight over_utp o)%Z
  | None, None => weight over_utp o = 0%Z
  | _, _ => False end ->
  slots_ok s'.
Proof using.
  intros Hsl Ha Hst Ht Hn Hslots Hact Hwait Hmax Ho1 Ho2 Hutp.
  destruct (release_ok (slots s)) as (Hok & Hsem & Hws); [apply Hsl|].
  pose proof (so_shares s Hsl). pose proof (so_max s Hsl). pose proof (active_bound s Hsl).
  assert (at_acquire a = 0 /\ over_utp a = 0)%Z as [Hq Hu]
    by (revert Hst; unfold over_slot, at_acquire, over_utp; by destruct (at_stage a)).
  assert (forall x, o = Some x -> at_stage x <> Acquiring) as Hno.
  { intros x -> Hx. cbn in Ho2. unfold at_acquire in Ho2. by rewrite Hx in Ho2. }
  eapply (slots_ok_put s s' id o); rewrite ?Hn, ?Hslots, ?Hact, ?Hwait, ?Hmax, ?Ha; cbn [weight]; try done.
  - intros _. apply Hsl. by eexists.
  - lia.
  - lia.
  - lia.
  - rewrite Hws. intros id' Hin. left. split; [|done]. intros ->.
    destruct (so_waiters s Hsl id Hin) as (a' & Ha' & Hst'). assert (a' = a) as -> by congruence.
    unfold at_acquire in Hq. by rewrite Hst' in Hq.
  - by rewrite Hws.
  - intros x Hx Hx'. by destruct (Hno x Hx).
  - destruct (utp_slots s) as [sem|], (utp_slots s') as [sem'|]; try done.
    split; [apply Hutp|]. split; [apply Hutp|]. rewrite Hu. lia.
  - lia.
Qed.

Lemma verified_outcome h peer fetch wall r : verified_ok h peer fetch wall r -> outcome_ok h r.
Proof using. unfold verified_ok, outcome_ok. destruct r.1; [|done]. by intros (? & ? & _). Qed.

(** The end of an attempt, from a state in which only its stage is left to
    change. *)
Lemma tri_attempt_returns s id a r Q :
  outcome_ok (at_hash a) r ->
  Q (set_tasks (dict_set id (with_stage a (Ended (Ok r))) (tasks s)) s) ->
  tri (attempt_returns id a r) (fun _ => Q) never s.
Proof using.
  intros Hr HQ. unfold attempt_returns, set_stage. apply tri_bind, tri_check; [|by apply tri_change].
  unfold outcome_ok in Hr. destruct r as [[m|] reason]; [done|]. cbn in *. by rewrite bool_decide_eq_false_2.
Qed.

Lemma fetch_raises_map {A B} (f : A -> B) (fetch : res A) :
  (forall e, fetch = Raise e -> fetch_raises e) -> forall e, f <$> fetch = Raise e -> fetch_raises e.
Proof using. intros Hf e He. destruct fetch; [done|]. injection He as ->. by apply Hf. Qed.

Lemma tri_attempt_fetched X s id a fetch wall :
  engine_ok X s -> dict_get id (tasks s) = Some a -> over_slot a = 1%Z -> (0 <= wall)%Z ->
  (forall e, fetch = Raise e -> fetch_raises e) ->
  tri (attempt_fetched sha1 depth opts id a fetch wall) (fun _ s' => engine_ok X s') never s.
Proof using.
  intros Hs Ha Hst Hwall Hf. unfold attempt_fetched. apply tri_bind, tri_finally.
  destruct (jo_attempts _ _ (proj1 (proj2 Hs)) id a Ha) as [Hh _].
  eapply tri_mono; [apply (quietly_verified (at_hash a) (at_peer a) fetch "tcp" wall); [done..| |done|apply Hs]| |done].
  { left. }
  intros r s1 [Hr%verified_outcome Hq].
  assert (tasks s1 = tasks s) as Ht by apply Hq. apply (engine_ok_quiet X) in Hq; [|done]. rewrite <-Ht in Ha.
  clear s Hs Ht. rename Hq into Hs. pose proof Hs as (Hsl & _).
  unfold leave_slot. apply tri_bind, tri_change, tri_change. apply tri_bind, tri_reads.
  match goal with |- tri (if ?b then _ else _) _ _ _ => destruct b eqn:Hb end.
  - repeat rewrite andb_true_iff in Hb. destruct Hb as [[[Hnone%bool_decide_eq_true _] _] Hfree].
    cbn [utp_slots set_slots set_active] in Hfree. unfold change_utp_slots, set_stage.
    do 2 apply tri_bind, tri_change. apply tri_change.
    eapply (engine_ok_stage X s1 _ id a (Over_utp r)); [done..| |]; [untouched|].
    eapply (slots_ok_leave s1 _ id a (Some (with_stage a (Over_utp r)))); try done; cbn.
    destruct (utp_slots s1) as [sem|] eqn:Hu; [|done]. apply andb_true_iff in Hfree as [Hl%negb_true_iff _].
    pose proof (so_utp s1 Hsl) as Hutp. rewrite Hu in Hutp. cbn [fmap option_fmap option_map]. unfold acquire. rewrite Hl.
    cbn. unfold locked in Hl. apply orb_false_iff in Hl as [Hv%Z.eqb_neq _]. split; [apply Hutp|]. lia.
  - apply (tri_attempt_returns _ id a r (engine_ok X)); [done|].
    eapply (engine_ok_stage X s1 _ id a (Ended (Ok r))); [done..| |]; [untouched|].
    eapply (slots_ok_leave s1 _ id a (Some (with_stage a (Ended (Ok r))))); try done; cbn.
    pose proof (so_utp s1 Hsl) as Hutp. destruct (utp_slots s1) as [sem|]; [|done].
    split; [apply Hutp|]. split; [apply Hutp|]. lia.
Qed.

(** An attempt that leaves uTP. *)
Lemma slots_ok_leave_utp s s' id a (o : option attempt_task) :
  slots_ok s -> dict_get id (tasks s) = Some a -> over_utp a = 1%Z ->
  tasks s' = dict_put id o (tasks s) -> next_task s' = next_task s -> slots s' = slots s ->
  active s' = active s -> waiting s' = waiting s -> max_active s' = max_active s ->
  utp_slots s' = release <$> utp_slots s ->
  weight over_slot o = 0%Z -> weight at_acquire o = 0%Z -> weight over_utp o = 0%Z ->
  slots_ok s'.
Proof using.
  intros Hsl Ha Hst Ht Hn Hslots Hact Hwait Hmax Hu Ho1 Ho2 Ho3.
  assert (at_acquire a = 0 /\ over_slot a = 0)%Z as [Hq Hv]
    by (revert Hst; unfold over_slot, at_acquire, over_utp; by destruct (at_stage a)).
  eapply (slots_ok_put s s' id o); rewrite ?Hn, ?Hslots, ?Hact, ?Hwait, ?Hmax, ?Ha; cbn [weight]; try done.
  - intros _. apply Hsl. by eexists.
  - apply Hsl.
  - apply Hsl.
  - lia.
  - lia.
  - intros id' Hin. left. split; [|done]. intros ->.
    destruct (so_waiters s Hsl id Hin) as (a' & Ha' & Hst'). assert (a' = a) as -> by congruence.
    unfold at_acquire in Hq. by rewrite Hst' in Hq.
  - intros x -> Hx. unfold at_acquire in Ho2. cbn in Ho2. by rewrite Hx in Ho2.
  - pose proof (so_utp s Hsl) as Hutp. rewrite Hu. destruct (utp_slots s) as [sem|]; [|done].
    destruct Hutp as (U1 & U2 & U3). cbn. unfold release, wake_up_next. cbn. rewrite U1. cbn.
    split; [done|]. lia.
  - apply Hsl.
Qed.

Lemma tri_attempt_fetched_utp X s id a r fetch wall :
  engine_ok X s -> dict_get id (tasks s) = Some a -> at_stage a = Over_utp r -> (0 <= wall)%Z ->
  (forall e, fetch = Raise e -> fetch_raises e) ->
  tri (attempt_fetched_utp sha1 depth id a r fetch wall) (fun _ s' => engine_ok X s') never s.
Proof using.
  intros Hs Ha Hst Hwall Hf. unfold attempt_fetched_utp. apply tri_bind, tri_finally.
  destruct (jo_attempts _ _ (proj1 (proj2 Hs)) id a Ha) as [Hh Hr]. rewrite Hst in Hr. cbn in Hr.
  eapply tri_mono; [apply (quietly_verified (at_hash a) (at_peer a) _ "utp" wall); [done..| |by apply fetch_raises_map|apply Hs]| |done].
  { right. left. }
  intros r' s1 [Hr'%verified_outcome Hq].
  assert (tasks s1 = tasks s) as Ht by apply Hq. apply (engine_ok_quiet X) in Hq; [|done]. rewrite <-Ht in Ha.
  clear s Hs Ht. rename Hq into Hs. pose proof Hs as (Hsl & _).
  assert (over_utp a = 1%Z) as Hov by (unfold over_utp; by rewrite Hst).
  unfold change_utp_slots. apply tri_change. apply tri_bind.
  set (final := if bool_decide (is_Some r'.1) || negb (bool_decide (r'.2 = "utp_connect_timeout"%string)) then r' else r).
  assert (outcome_ok (at_hash a) final) as Hfinal by (unfold final; destruct (_ || _); done).
  apply tri_when; intros _; [apply tri_change|];
    (apply (tri_attempt_returns _ id a final (engine_ok X)); [done|]);
    (eapply (engine_ok_stage X s1 _ id a (Ended (Ok final))); [done..| |]).
  - split; [done|]. split; [done|]. split; [done|]. intros (B1 & [B2 B3] & B4). split; [done|]. split; [|done].
    split; [by apply dict_del_wf|]. etransitivity; [|exact B3]. apply length_filter.
  - eapply (slots_ok_leave_utp s1 _ id a (Some (with_stage a (Ended (Ok final))))); done.
  - untouched.
  - eapply (slots_ok_leave_utp s1 _ id a (Some (with_stage a (Ended (Ok final))))); done.
Qed.

Lemma fetch_result_raises fetch : fetch_result_ok fetch = true -> forall e, fetch = Raise e -> fetch_raises e.
Proof using. intros Hf e He reason ->. subst fetch. by apply bool_decide_eq_true in Hf. Qed.

Lemma tri_fetch_ended X s id a fetch wall :
  engine_ok X s -> dict_get id (tasks s) = Some a -> is_fetching (at_stage a) = true -> (0 <= wall)%Z ->
  fetch_result_ok fetch = true ->
  tri (fetch_ended sha1 depth opts id a fetch wall) (fun _ s' => engine_ok X s') never s.
Proof using.
  intros Hs Ha Hst Hwall Hf0. pose proof (fetch_result_raises fetch Hf0) as Hf. unfold fetch_ended.
  destruct (at_stage a) as [| | | |r|] eqn:Hstage; try done.
  - destruct (bool_decide _ && _).
    + unfold set_stage. apply tri_bind, tri_change, tri_change. pose proof Hs as (Hsl & _).
      eapply (engine_ok_stage X s _ id a Over_encrypted); [done..| |]; [untouched|].
      eapply (slots_ok_put s _ id (Some (with_stage a Over_encrypted))); try done; cbn; rewrite ?Ha; cbn;
        unfold over_slot, at_acquire; rewrite ?Hstage; cbn; try lia; try apply Hsl.
      * intros _. apply Hsl. by eexists.
      * intros id' Hin. left. split; [|done]. intros ->. destruct (so_waiters s Hsl id Hin) as (a' & ? & ?). congruence.
      * by intros a' [= <-].
      * eapply (utp_unchanged s id a Over_encrypted) in Ha as Hu; [|done|by unfold over_utp; rewrite Hstage].
        rewrite Ha in Hu. by destruct (utp_slots s).
    + apply tri_attempt_fetched; [done..| |done|by apply fetch_raises_map]. unfold over_slot. by rewrite Hstage.
  - apply tri_attempt_fetched; [done..| |done|by apply fetch_raises_map]. unfold over_slot. by rewrite Hstage.
  - by apply tri_attempt_fetched_utp.
Qed.

(** A task that is gone was not one of a job. *)
Lemma engine_ok_gone X s s' id a :
  engine_ok X s -> dict_get id (tasks s) = Some a -> at_cancelled a = true ->
  tasks s' = dict_del id (tasks s) -> same_jobs s s' -> slots_ok s' -> engine_ok X s'.
Proof using.
  intros (H1 & H2 & H3 & H4) Ha Hc Ht (J1 & J2 & J3 & J4) Hs. split; [done|]. split; [|split; [auto|]].
  - eapply (jobs_ok_put _ s s' id None); [done..|]. intros i j a' _ _ Ha' Hc'. congruence.
  - eapply fetches_ok_iff; [|by rewrite J3]. intros h. unfold claimed. by rewrite J1.
Qed.

Lemma slots_ok_gave_up s s' id a (o : option attempt_task) :
  slots_ok s -> dict_get id (tasks s) = Some a -> at_stage a = Acquiring ->
  tasks s' = dict_put id o (tasks s) -> next_task s' = next_task s -> slots s' = leave_queue id (slots s) ->
  utp_slots s' = utp_slots s -> active s' = active s -> waiting s' = (waiting s - 1 + weight at_acquire o)%Z ->
  max_active s' = max_active s -> weight over_slot o = 0%Z -> weight over_utp o = 0%Z ->
  (forall a', o = Some a' -> at_cancelled a' = true) ->
  slots_ok s'.
Proof using.
  intros Hsl Ha Hst Ht Hn Hslots Hu Hact Hwait Hmax Ho1 Ho3 Hc.
  destruct (leave_queue_ok id (slots s)) as (Hok & Hsem & Hws); [apply Hsl|].
  assert (over_slot a = 0 /\ over_utp a = 0 /\ at_acquire a = 1)%Z as (Hv & Hw & Hq)
    by (unfold over_slot, at_acquire, over_utp; by rewrite Hst).
  pose proof (so_shares s Hsl).
  eapply (slots_ok_put s s' id o); rewrite ?Hn, ?Hslots, ?Hact, ?Hwait, ?Hmax, ?Ha; cbn [weight]; try done.
  - intros _. apply Hsl. by eexists.
  - lia.
  - lia.
  - lia.
  - rewrite Hws. intros id' [Hne Hin]%list_elem_of_filter. by left.
  - rewrite Hws. intros id' Hne Hin. by apply list_elem_of_filter.
  - intros x Hx _ Hx'. by rewrite (Hc x Hx) in Hx'.
  - pose proof (so_utp s Hsl) as Hutp. rewrite Hu. destruct (utp_slots s) as [sem|]; [|done].
    split; [apply Hutp|]. split; [apply Hutp|]. lia.
  - apply Hsl.
Qed.

Lemma tri_attempt_unwinds s id a :
  slots_ok s -> dict_get id (tasks s) = Some a -> is_ended s id = false ->
  tri (attempt_unwinds id (at_stage a)) (fun _ s' =>
    tasks s' = tasks s /\ same_jobs s s' /\ slots_ok (set_tasks (dict_del id (tasks s')) s')) never s.
Proof using.
  intros Hsl Ha He. unfold is_ended in He. rewrite Ha in He.
  destruct a as [h p st c]. cbn [at_stage] in *. destruct st as [| | | |r|]; try done; cbn [attempt_unwinds].
  - apply tri_ret. split; [done|]. split; [untouched|].
    eapply (slots_ok_put s _ id None); try done; cbn; rewrite ?Ha; cbn; try lia; try apply Hsl.
    + intros id' Hin. left. split; [|done]. intros ->. destruct (so_waiters s Hsl id Hin) as (a' & Ha' & Hst'). rewrite Ha in Ha'. by injection Ha' as <-.
    + pose proof (so_utp s Hsl) as Hutp. destruct (utp_slots s) as [sem|]; [|done].
      split; [apply Hutp|]. split; [apply Hutp|]. lia.
  - apply tri_bind, tri_change, tri_change. split; [done|]. split; [untouched|].
    eapply (slots_ok_gave_up s _ id _ None); try done. cbn. lia.
  - unfold leave_slot. apply tri_bind, tri_change, tri_change. split; [done|]. split; [untouched|].
    eapply (slots_ok_leave s _ id _ None); try done; cbn.
    pose proof (so_utp s Hsl) as Hutp. destruct (utp_slots s) as [sem|]; [|done].
    split; [apply Hutp|]. split; [apply Hutp|]. lia.
  - unfold leave_slot. apply tri_bind, tri_change, tri_change. split; [done|]. split; [untouched|].
    eapply (slots_ok_leave s _ id _ None); try done; cbn.
    pose proof (so_utp s Hsl) as Hutp. destruct (utp_slots s) as [sem|]; [|done].
    split; [apply Hutp|]. split; [apply Hutp|]. lia.
  - unfold change_utp_slots. apply tri_change. split; [done|]. split; [untouched|].
    by eapply (slots_ok_leave_utp s _ id _ None).
Qed.

Lemma tri_attempt_cancelled X s id a :
  engine_ok X s -> dict_get id (tasks s) = Some a -> at_cancelled a = true -> is_ended s id = false ->
  tri (attempt_cancelled id a) (fun _ s' => engine_ok X s') never s.
Proof using.
  intros Hs Ha Hc He. unfold attempt_cancelled. apply tri_bind.
  eapply tri_mono; [apply tri_attempt_unwinds; [apply Hs|done..]| |done]. intros u s1 (Ht & Hj & Hsl).
  apply tri_change. eapply (engine_ok_gone X s _ id a); [done..| | |exact Hsl]; [cbn; by rewrite Ht|exact Hj].
Qed.

Lemma tri_attempt_step s id f :
  (forall a, dict_get id (tasks s) = Some a -> tri (f a) (fun _ s' => engine_ok None s') never s) ->
  engine_ok None s -> tri (attempt_step id f) (fun _ s' => engine_ok None s') never s.
Proof using.
  intros Hf Hs. unfold attempt_step. apply tri_bind, tri_reads. destruct (dict_get id (tasks s)) as [a|]; [|done].
  apply tri_catch. eapply tri_mono; [by apply Hf|done|done].
Qed.

(** ** Jobs *)

(** The state with the local variables of a job in its table, and the state
    without the job. *)
Definition with_job (id : nat) j s : engine K := set_jobs (dict_set id j (jobs s)) s.
Definition without_job (id : nat) s : engine K := set_jobs (dict_del id (jobs s)) s.

(** In the middle of a step of job [id]. *)
Definition mid (id : nat) j s : Prop := engine_ok (Some id) (with_job id j s).

Lemma mid_quiet id j s s' : quiet s s' -> mid id j s -> mid id j s'.
Proof using.
  intros (Hs & (T1 & T2 & T3 & T4 & T5 & T6 & T7) & Hc). apply engine_ok_quiet.
  split; [exact Hs|]. split; [|exact Hc]. repeat split; try done. cbn. by rewrite T3.
Qed.

Lemma tri_quietly_mid {A} (m : task (engine K) A) Q id j s R :
  quietly m Q -> mid id j s -> (forall x s', Q x -> mid id j s' -> R x s') -> tri m R never s.
Proof using.
  intros Hm Hs HR. eapply tri_mono; [apply Hm; apply Hs| |done]. intros x s' [Hx Hq].
  apply HR; [done|]. by eapply mid_quiet.
Qed.

(** The state at the end of a job, before its claim is given back. *)
Definition leaving (id : nat) h s : Prop :=
  slots_ok s /\ jobs_ok None (without_job id s) /\ counts_ok s /\
  fetches_ok (fun h' => claimed (without_job id s) h' \/ h' = h) (catalog_state s) /\
  ~ claimed (without_job id s) h /\ length h = NODE_ID_LENGTH.

Lemma mid_leaving id j s :
  mid id j s -> leaving id (job_hash j) s /\
  forall i k t, dict_get i (jobs (without_job id s)) = Some k -> t ∈ (job_running j).*1 ->
    dict_get t (job_running k) = None.
Proof using.
  intros (H1 & [J1 J2 J3 J4 J5 J6 J7] & H3 & H4). cbn in *.
  assert (forall i k, dict_get i (dict_del id (jobs s)) = Some k ->
    i <> id /\ dict_get i (dict_set id j (jobs s)) = Some k) as Hother.
  { intros i k. rewrite dict_get_del. case_decide; [done|]. by rewrite dict_get_set_ne by done. }
  pose proof (dict_get_set_eq id j (jobs s)) as Hself.
  assert (dict_wf (dict_del id (jobs s))) as Hwf by (rewrite <-(dict_del_set id j); by apply dict_del_wf).
  split.
  - split; [apply (slots_ok_same (with_job id j s)); [by repeat split|done..]|]. split; [|split; [done|split; [|split]]].
    + split; cbn; try done.
      * intros i [k [_ Hk]%Hother]. apply J2. by eexists.
      * intros i k [_ Hk]%Hother. by apply (J3 i).
      * intros i k [Hne Hk]%Hother _. apply (J4 i); [done|congruence].
      * intros i i' k k' [_ Hk]%Hother [_ Hk']%Hother. by apply J5.
      * intros i i' k k' t [_ Hk]%Hother [_ Hk']%Hother. by apply J6.
    + eapply fetches_ok_iff; [|exact H4]. intros h. unfold claimed. cbn. split.
      * intros (i & k & Hk & <-). destruct (decide (i = id)) as [->|Hne].
        { right. rewrite dict_get_set_eq in Hk. by injection Hk as <-. }
        left. exists i, k. rewrite dict_get_set_ne in Hk by done. by rewrite dict_get_del_ne.
      * intros [(i & k & [_ Hk]%Hother & <-)| ->]; [by exists i, k|by exists id, j].
    + intros (i & k & [Hne Hk]%Hother & Hh). apply Hne. by apply (J5 i id k j).
    + by apply (J3 id j).
  - intros i k t [Hne Hk]%Hother Ht. apply dict_get_is_Some in Ht. apply eq_None_not_Some. intros Hk'.
    apply Hne. by apply (J6 i id k j t).
Qed.

(** Cancelled tasks stay where they are, and the slots they waited for are left. *)
Definition cancels (l : list nat) s s' : Prop := forall t,
  (t ∉ l -> dict_get t (tasks s') = dict_get t (tasks s)) /\
  (forall a', dict_get t (tasks s') = Some a' ->
     exists a, dict_get t (tasks s) = Some a /\ at_hash a' = at_hash a /\ at_peer a' = at_peer a /\ at_stage a' = at_stage a).

Lemma tri_cancel_attempt s t :
  slots_ok s ->
  tri (cancel_attempt t) (fun _ s' => slots_ok s' /\ same_jobs s s' /\ cancels [t] s s') never s.
Proof using.
  intros Hsl. unfold cancel_attempt. apply tri_bind, tri_reads.
  assert (cancels [t] s s) as Hrefl by (intros t'; split; [done|]; intros a' Ha'; by exists a').
  destruct (dict_get t (tasks s)) as [a|] eqn:Ha; [|by split; [|split; [untouched|]]].
  set (a' := Attempt (at_hash a) (at_peer a) (at_stage a) true).
  assert (forall sl, cancels [t] s (set_slots sl (set_tasks (dict_set t a' (tasks s)) s))) as Hcan.
  { intros sl t'. cbn. split.
    - rewrite list_elem_of_singleton. intros Ht. by rewrite dict_get_set_ne.
    - intros x. rewrite dict_get_set. case_decide; [|by exists x]. subst t'. intros [= <-]. by exists a. }
  assert (tri (change (fun s => set_tasks (dict_set t a' (tasks s)) s) ;;
    when (bool_decide (dict_get t (waiters (slots s)) = Some Pending))
      (change (fun s => set_slots (leave_queue t (slots s)) s)))
    (fun _ s' => slots_ok s' /\ same_jobs s s' /\ cancels [t] s s') never s) as Hgo.
  { apply tri_bind, tri_change, tri_when; intros Hw.
    - apply bool_decide_eq_true in Hw. apply tri_change.
      split; [|split; [untouched|apply Hcan]].
      assert (at_stage a = Acquiring) as Hst.
      { destruct (so_waiters s Hsl t) as (a0 & Ha0 & Hst); [apply dict_get_is_Some; by eexists|]. congruence. }
      eapply (slots_ok_gave_up s _ t a (Some a')); try done; cbn; unfold over_slot, over_utp, at_acquire; cbn;
        rewrite ?Hst; try done; [lia|by intros x [= <-]].
    - split; [|split; [untouched|apply (Hcan (slots s))]].
      eapply (slots_ok_put s _ t (Some a')); try done; cbn; rewrite ?Ha; try apply Hsl.
      + intros _. apply Hsl. by eexists.
      + cbn. unfold over_slot, a'. cbn. lia.
      + cbn. unfold at_acquire, a'. cbn. lia.
      + intros t' Hin. destruct (decide (t' = t)) as [->|Hne]; [|by left]. right. split; [done|]. exists a'. split; [done|].
        destruct (so_waiters s Hsl t Hin) as (a0 & Ha0 & Hst). cbn. congruence.
      + by intros x [= <-].
      + pose proof (so_utp s Hsl) as Hutp. destruct (utp_slots s) as [sem|] eqn:Hnone.
        * split; [apply Hutp|]. split; [apply Hutp|]. cbn. unfold over_utp, a'. cbn. lia.
        * eapply (utp_unchanged s t a (at_stage a)) in Ha as Hu; [|done|done]. rewrite Hnone in Hu. exact Hu. }
  destruct (at_stage a); try exact Hgo. by split; [|split; [untouched|]].
Qed.

Lemma jobs_ok_cancels X s s' l :
  jobs_ok X s -> jobs s' = jobs s -> next_job s' = next_job s -> cancels l s s' ->
  (forall i k t, dict_get i (jobs s) = Some k -> t ∈ l -> dict_get t (job_running k) = None) ->
  jobs_ok X s'.
Proof using.
  intros [A1 A2 A3 A4 A5 A6 A7] Hj Hn Hc Hl. split; rewrite ?Hj, ?Hn; try done.
  - intros i k Hk. destruct (A3 i k Hk) as (B1 & B2 & B3 & B4). split; [done|]. split; [done|]. split; [|done].
    intros t p Hp. destruct (B3 t p Hp) as (a & Ha & B). exists a. split; [|done].
    rewrite (proj1 (Hc t)); [done|]. intros Ht. by rewrite (Hl i k t Hk Ht) in Hp.
  - intros t a' Ha'. destruct (proj2 (Hc t) a' Ha') as (a & Ha & C1 & C2 & C3).
    destruct (A7 t a Ha) as [D1 D2]. split; [congruence|]. by rewrite C1, C3.
Qed.

Lemma cancels_app l l' s s1 s2 : cancels l s s1 -> cancels l' s1 s2 -> cancels (l ++ l') s s2.
Proof using.
  intros H1 H2 t. split.
  - rewrite elem_of_app. intros Ht. rewrite (proj1 (H2 t)) by tauto. apply H1. tauto.
  - intros a2 Ha2. destruct (proj2 (H2 t) a2 Ha2) as (a1 & Ha1 & ? & ? & ?).
    destruct (proj2 (H1 t) a1 Ha1) as (a & Ha & ? & ? & ?). exists a. split; [done|].
    split; [congruence|]. split; congruence.
Qed.

Lemma same_jobs_trans s s1 s2 : same_jobs s s1 -> same_jobs s1 s2 -> same_jobs s s2.
Proof using.
  intros (A1 & A2 & A3 & A4) (B1 & B2 & B3 & B4). split; [congruence|]. split; [congruence|].
  split; [congruence|auto].
Qed.

Lemma tri_cancel_all l : forall s, slots_ok s ->
  tri (each cancel_attempt l) (fun _ s' => slots_ok s' /\ same_jobs s s' /\ cancels l s s') never s.
Proof using.
  induction l as [|t l IH]; intros s Hs; cbn [each].
  - apply tri_ret. split; [done|]. split; [untouched|]. intros t. split; [done|]. intros a' Ha'. by exists a'.
  - apply tri_bind. eapply tri_mono; [by apply tri_cancel_attempt| |done]. intros _ s1 (H1 & H2 & H3).
    eapply tri_mono; [by apply IH| |done]. intros _ s2 (D1 & D2 & D3). split; [done|].
    split; [by eapply same_jobs_trans|]. exact (cancels_app [t] l s s1 s2 H3 D3).
Qed.

Lemma tri_cancel_running id h l s :
  leaving id h s ->
  (forall i k t, dict_get i (jobs (without_job id s)) = Some k -> t ∈ l -> dict_get t (job_running k) = None) ->
  tri (each cancel_attempt l) (fun _ s' => leaving id h s') never s.
Proof using.
  intros (H1 & H2 & H3 & H4 & H5 & H6) Hl. eapply tri_mono; [by apply tri_cancel_all| |done].
  intros _ s' (D1 & (J1 & J2 & J3 & J4) & D3).
  split; [done|]. split; [|split; [auto|]].
  - eapply (jobs_ok_cancels None (without_job id s) _ l); [done|cbn; by rewrite J1|done| |done]. exact D3.
  - assert (forall h', claimed (without_job id s') h' <-> claimed (without_job id s) h') as Hcl
      by (intros h'; unfold claimed; cbn; by rewrite J1).
    split; [|split; [by rewrite Hcl|done]]. eapply fetches_ok_iff; [|by rewrite J3]. intros h'. cbv beta. by rewrite Hcl.
Qed.

(** A call that gives the claim back. *)
Lemma tri_on_catalog {A} (m : ST K A) (Q : A -> K -> Prop) s :
  wp m Q (catalog_state s) -> tri (on_catalog m) (fun x s' => exists k, s' = set_catalog_state k s /\ Q x k) never s.
Proof using. unfold wp, tri, on_catalog. destruct (m (catalog_state s)) as [[x k]|]; [|done]. intros HQ. by exists k. Qed.

Lemma engine_ok_left id h s k :
  leaving id h s ->
  fetches_ok (fun h' => (claimed (without_job id s) h' \/ h' = h) /\ h' <> h) k ->
  engine_ok None (without_job id (set_catalog_state k s)).
Proof using.
  intros (H1 & H2 & H3 & H4 & H5 & H6) Hk. split; [by apply (slots_ok_same s)|].
  split; [by apply (jobs_ok_same None (without_job id s))|]. split; [exact H3|].
  eapply fetches_ok_iff; [|exact Hk]. intros h'. unfold claimed in *. cbn in *.
  split; [by intros [[?| ->] ?]|]. intros Hc. split; [by left|]. intros ->. by apply H5.
Qed.

Lemma tri_finish_job id h metadata blamed reason s :
  leaving id h s -> (forall m, metadata = Some m -> metadata_ok m /\ md_info_hash m = h) ->
  tri (finish_job h metadata blamed reason) (fun _ s' => engine_ok None (without_job id s')) never s.
Proof using.
  intros Hs Hm. pose proof Hs as (_ & _ & Hc & Hf & _ & Hh). unfold finish_job.
  apply tri_bind, tri_check; [by apply is_node_id_of|]. apply tri_bind.
  eapply (tri_mono _ (fun _ s' => engine_ok None (without_job id s') /\ counts_ok s') _ never); [| |done].
  - assert (forall k f, fetches_ok (fun h' => (claimed (without_job id s) h' \/ h' = h) /\ h' <> h) k ->
      (forall s, quiet s (f s)) -> (forall s, without_job id (f s) = f (without_job id s)) ->
      engine_ok None (without_job id (f (set_catalog_state k s))) /\ counts_ok (f (set_catalog_state k s))) as Hend.
    { intros k f Hk Hq Hw. split; [|by apply Hq]. rewrite Hw.
      eapply engine_ok_quiet; [apply Hq|]. by eapply engine_ok_left. }
    destruct metadata as [m|]; [|destruct (negb _)].
    + destruct (Hm m eq_refl) as [Hok Hhash]. apply tri_bind. eapply tri_mono; [apply tri_on_catalog|..|done].
      { apply law_store_metadata; [done| |exact Hf]. rewrite Hhash. by right. }
      intros _ s' (k & -> & Hk). rewrite Hhash in Hk. apply tri_change.
      apply (Hend k (fun s => set_successes (successes s + 1)%Z s)); [done| |done].
      intros s0. split; [by repeat split|]. split; [by repeat split|]. intros (B1 & B2 & B3 & B4).
      split; [done|]. split; [done|]. cbn. split; [lia|done].
    + apply tri_bind. eapply tri_mono; [apply tri_on_catalog|..|done].
      { apply law_mark_fetch_failed; [done| |exact Hf]. by right. }
      intros _ s' (k & -> & Hk). apply tri_change.
      apply (Hend k (fun s => set_failures (failures s + 1)%Z s)); [done| |done].
      intros s0. split; [by repeat split|]. split; [by repeat split|]. intros (B1 & B2 & B3 & B4).
      split; [done|]. split; [done|]. cbn. split; [done|lia].
    + eapply tri_mono; [apply tri_on_catalog|..|done].
      { apply law_release_fetch_claim; [done| |exact Hf]. by right. }
      intros _ s' (k & -> & Hk). apply (Hend k (fun s => s)); [done|apply quiet_refl|done].
  - intros _ s' [He (_ & _ & B3 & B4)]. apply tri_bind, tri_reads, tri_check; [|done].
    apply andb_true_iff. split; by apply Z.leb_le.
Qed.

(** The end of a job. *)
Lemma tri_job_returns id j s :
  mid id j s -> (job_metadata j = None -> job_running j = []) ->
  tri (job_returns id j) (fun _ s' => engine_ok None s') never s.
Proof using.
  intros Hs Hrun. destruct (mid_leaving id j s Hs) as [Hl Hapart]. unfold job_returns. apply tri_bind.
  destruct (jo_loose _ _ (proj1 (proj2 Hs)) id j) as (_ & _ & _ & _ & Hm); [apply dict_get_set_eq|].
  eapply tri_mono; [by eapply tri_cancel_running| |done]. intros u1 s1 H1. apply tri_bind.
  eapply tri_mono; [by apply (tri_finish_job id)| |done]. intros u2 s2 H2. apply tri_bind, tri_check.
  - destruct (job_metadata j); [by rewrite orb_true_r|]. by rewrite Hrun.
  - by apply tri_change.
Qed.

Lemma job_as_stored id j s : dict_get id (jobs s) = Some j -> engine_ok None s -> mid id j s.
Proof using.
  intros Hj (H1 & H2 & H3 & H4). unfold mid, with_job.
  assert (dict_set id j (jobs s) = jobs s) as He by by apply dict_set_same.
  rewrite He. split; [by apply (slots_ok_same s)|]. split; [|by split].
  apply (jobs_ok_same _ s); try done. destruct H2 as [A1 A2 A3 A4 A5 A6 A7]. split; try done.
  intros i k Hk _. by apply (A4 i).
Qed.

Lemma tri_job_is_cancelled id j s :
  dict_get id (jobs s) = Some j -> job_cancelled j = true -> engine_ok None s ->
  tri (job_is_cancelled id j) (fun _ s' => engine_ok None s') never s.
Proof using.
  intros Hj Hc Hs. unfold job_is_cancelled. apply tri_bind.
  destruct (jo_strict _ _ (proj1 (proj2 Hs)) id j Hj) as (_ & Hst & _); [done|].
  destruct (job_started j); [|by destruct Hst as (_ & _ & Hc' & _); rewrite Hc in Hc'].
  destruct (mid_leaving id j s (job_as_stored id j s Hj Hs)) as [Hl Hapart]. apply tri_when; [|done]. intros _.
  apply tri_bind. eapply tri_mono; [by eapply tri_cancel_running| |done]. intros u1 s1 H1.
  pose proof H1 as (_ & _ & _ & Hf & _ & Hh).
  eapply tri_mono; [apply tri_on_catalog|..|done].
  { apply law_release_fetch_claim; [done| |exact Hf]. by right. }
  intros u2 s2 (k & -> & Hk). apply tri_change. exact (engine_ok_left id _ s1 k H1 Hk).
Qed.

(** A job fits in when its tasks are there and are its own. *)
Definition apart (id : nat) (running : list (nat * address)) s : Prop :=
  forall i k t, dict_get i (jobs (without_job id s)) = Some k -> t ∈ running.*1 -> dict_get t (job_running k) = None.

Lemma mid_elim id j s :
  mid id j s -> leaving id (job_hash j) s /\ apart id (job_running j) s /\ job_loose s j /\
  id < next_job s /\ dict_wf (dict_set id j (jobs s)).
Proof using.
  intros Hs. destruct (mid_leaving id j s Hs) as [Hl Ha]. destruct Hs as (H1 & [J1 J2 J3 J4 J5 J6 J7] & H3 & H4).
  split; [done|]. split; [exact Ha|]. split; [apply (J3 id j), dict_get_set_eq|].
  split; [|done]. apply J2. cbn. rewrite dict_get_set_eq. by eexists.
Qed.

Lemma mid_intro id j s :
  leaving id (job_hash j) s -> apart id (job_running j) s -> job_loose s j -> id < next_job s ->
  dict_wf (dict_set id j (jobs s)) -> mid id j s.
Proof using.
  intros (H1 & [J1 J2 J3 J4 J5 J6 J7] & H3 & H4 & H5 & H6) Ha Hj Hid Hwf. unfold mid, with_job. cbn in *.
  assert (forall i k, dict_get i (dict_set id j (jobs s)) = Some k ->
    i = id /\ k = j \/ i <> id /\ dict_get i (dict_del id (jobs s)) = Some k) as Hget.
  { intros i k. rewrite dict_get_set, dict_get_del. case_decide; [intros [= <-]; by left|by right]. }
  assert (forall i k, i <> id -> dict_get i (dict_del id (jobs s)) = Some k -> job_hash k <> job_hash j) as Hnew.
  { intros i k Hne Hk Hh. apply H5. by exists i, k. }
  assert (forall i k t, i <> id -> dict_get i (dict_del id (jobs s)) = Some k -> is_Some (dict_get t (job_running j)) ->
    is_Some (dict_get t (job_running k)) -> False) as Hap.
  { intros i k t Hne Hk Ht%dict_get_is_Some [p Hp]. by rewrite (Ha i k t Hk Ht) in Hp. }
  split; [by apply (slots_ok_same s)|]. split; [|split; [exact H3|]].
  - split; cbn.
    + done.
    + intros i [k Hk]. destruct (Hget i k Hk) as [[-> _]|[_ Hk']]; [done|]. apply J2. by eexists.
    + intros i k Hk. destruct (Hget i k Hk) as [[-> ->]|[_ Hk']]; [done|]. by apply (J3 i).
    + intros i k Hk HX. destruct (Hget i k Hk) as [[-> ->]|[_ Hk']]; [done|]. by apply (J4 i).
    + intros i i' k k' Hk Hk' Hh. destruct (Hget i k Hk) as [[-> ->]|[Hne Hk1]], (Hget i' k' Hk') as [[-> ->]|[Hne' Hk1']];
        [done|by destruct (Hnew i' k')|by destruct (Hnew i k)|by apply (J5 i i' k k')].
    + intros i i' k k' t Hk Hk' Ht Ht'.
      destruct (Hget i k Hk) as [[-> ->]|[Hne Hk1]], (Hget i' k' Hk') as [[-> ->]|[Hne' Hk1']];
        [done|by destruct (Hap i' k' t)|by destruct (Hap i k t)|by apply (J6 i i' k k' t)].
    + done.
  - eapply fetches_ok_iff; [|exact H4]. intros h. unfold claimed. cbn. split.
    + intros [(i & k & Hk & <-)| ->]; [|exists id, j; by rewrite dict_get_set_eq].
      rewrite dict_get_del in Hk. case_decide; [done|]. exists i, k. by rewrite dict_get_set_ne.
    + intros (i & k & Hk & <-). destruct (Hget i k Hk) as [[-> ->]|[Hne Hk']]; [by right|]. left. by exists i, k.
Qed.

Lemma dict_set_wf_any id j j' s : dict_wf (dict_set id j (jobs s)) -> dict_wf (dict_set id j' (jobs s)).
Proof using.
  unfold dict_wf. enough ((dict_set id j (jobs s)).*1 = (dict_set id j' (jobs s)).*1) as -> by done.
  induction (jobs s) as [|[i k] l IH]; [done|]. csimpl. case_decide; csimpl; [done|by rewrite IH].
Qed.

(** The local variables of a job that the invariant does not read may change. *)
Lemma mid_same id j j' s :
  job_hash j' = job_hash j -> job_running j' = job_running j -> job_metadata j' = job_metadata j ->
  mid id j s -> mid id j' s.
Proof using.
  intros Eh Er Em Hs. destruct (mid_elim id j s Hs) as (H1 & H2 & H3 & H4 & H5).
  apply mid_intro; rewrite ?Eh, ?Er; try done; [|by eapply dict_set_wf_any].
  unfold job_loose, runs in *. by rewrite Eh, Er, Em.
Qed.

(** A job at its wait. *)
Lemma tri_job_waits id j timeout s :
  mid id j s -> job_metadata j = None -> job_running j <> [] ->
  (timeout <> None -> job_waiting j <> [] /\ has_room opts (job_running j) = true) ->
  tri (job_waits id j timeout) (fun _ s' => engine_ok None s') never s.
Proof using.
  intros Hs Hm Hr Ht. unfold job_waits. apply tri_bind. rewrite bool_decide_eq_false_2 by done. apply tri_ret.
  apply tri_bind, tri_reads. unfold set_job. apply tri_change.
  set (j' := Job _ _ _ _ _ _ _ _ _). assert (mid id j' s) as Hs' by by apply (mid_same id j).
  destruct Hs' as (H1 & H2 & H3). split; [done|]. split; [|done].
  destruct H2 as [J1 J2 J3 J4 J5 J6 J7]. split; try done. intros i k Hk _.
  destruct (decide (i = id)) as [->|Hne]; [|by apply (J4 i k Hk); congruence].
  cbn in Hk. rewrite dict_get_set_eq in Hk. injection Hk as <-. split; [done|]. split; [done|].
  intros Hw. apply Ht. intros ->. by apply Hw.
Qed.

Lemma leaving_put id h s s' t (o : option attempt_task) :
  leaving id h s -> slots_ok s' -> tasks s' = dict_put t o (tasks s) -> same_jobs s s' ->
  (forall a', o = Some a' -> attempt_ok a') ->
  (forall i k, dict_get i (jobs (without_job id s)) = Some k -> dict_get t (job_running k) = None) ->
  leaving id h s'.
Proof using.
  intros (H1 & H2 & H3 & H4 & H5 & H6) Hs Ht (J1 & J2 & J3 & J4) Ho Hr.
  split; [done|]. split; [|split; [auto|]].
  - eapply (jobs_ok_put None (without_job id s) _ t o); try done; [cbn; by rewrite J1|].
    intros i k a Hk [p Hp] _ _. by rewrite (Hr i k Hk) in Hp.
  - assert (forall h', claimed (without_job id s') h' <-> claimed (without_job id s) h') as Hcl
      by (intros h'; unfold claimed; cbn; by rewrite J1).
    split; [|split; [by rewrite Hcl|done]]. eapply fetches_ok_iff; [|by rewrite J3]. intros h'. cbv beta. by rewrite Hcl.
Qed.

(** The task of a job is not the next new one. *)
Lemma running_old id j s t :
  mid id j s -> is_Some (dict_get t (job_running j)) -> t < next_task s.
Proof using.
  intros Hs [p Hp]. destruct (mid_elim id j s Hs) as ((H1 & _) & _ & (_ & _ & Hr & _) & _).
  destruct (Hr t p Hp) as (a & Ha & _). apply (so_next s H1). by eexists.
Qed.

Definition with_running (running : list (nat * address)) j : job_task :=
  Job (job_hash j) (job_waiting j) running (job_blamed j) (job_reason j) (job_metadata j)
    (job_started j) (job_wakeup j) (job_cancelled j).

Lemma tri_create_attempt id j peer s Q :
  mid id j s -> has_room opts (job_running j) = true ->
  (forall t s', mid id (with_running (dict_set t peer (job_running j)) j) s' -> Q t s') ->
  tri (create_attempt (job_hash j) peer) Q never s.
Proof using.
  intros Hs Hroom HQ. unfold create_attempt. apply tri_bind, tri_reads, tri_bind, tri_change, tri_bind, tri_change, tri_ret.
  cbn [tasks set_next_task]. apply HQ. clear HQ. set (t := next_task s).
  destruct (mid_elim id j s Hs) as (Hl & Hap & (L1 & L2 & L3 & L4 & L5) & Hid & Hwf).
  pose proof Hl as (Hsl & Hjobs & _). assert (dict_get t (tasks s) = None) as Hnew.
  { apply eq_None_not_Some. intros Ht%(so_next s Hsl). subst t. lia. }
  assert (dict_get t (job_running j) = None) as Hnot.
  { apply eq_None_not_Some. intros Ht%(running_old id j s t Hs). subst t. lia. }
  set (a := Attempt (job_hash j) peer Created false).
  apply mid_intro; cbn [job_hash job_running with_running].
  - eapply (leaving_put id _ s _ t (Some a)); [done| |done|untouched| |].
    + eapply (slots_ok_put s _ t (Some a)); try done; cbn; rewrite ?Hnew; cbn; try apply Hsl; try lia.
      * intros t' Hin. left. split; [|done]. intros ->.
        destruct (so_waiters s Hsl t Hin) as (a' & Ha' & _). congruence.
      * by intros a' [= <-].
      * pose proof (so_utp s Hsl) as Hutp. destruct (utp_slots s) as [sem|]; [|done].
        split; [apply Hutp|]. split; [apply Hutp|]. lia.
    + by intros a' [= <-].
    + intros i k Hk. apply eq_None_not_Some. intros [p Hp].
      destruct (jo_loose _ _ Hjobs i k Hk) as (_ & _ & Hr & _). destruct (Hr t p Hp) as (a' & Ha' & _).
      cbn in Ha'. congruence.
  - intros i k t' Hk. cbn in Hk. rewrite dict_set_new, fmap_app by done.
    intros [Hin| ->%list_elem_of_singleton]%elem_of_app; [by apply (Hap i k t')|].
    apply eq_None_not_Some. intros [p Hp]. destruct (jo_loose _ _ Hjobs i k Hk) as (_ & _ & Hr & _).
    destruct (Hr t p Hp) as (a' & Ha' & _). cbn in Ha'. congruence.
  - split; [done|]. split; [by apply dict_set_wf|]. cbn. split; [|split; [|done]].
    + intros t' p. cbn [with_running job_running]. rewrite dict_get_set. case_decide as Hd.
      * subst t'. intros [= <-]. exists a. cbn. by rewrite dict_get_set_eq.
      * intros Hp. destruct (L3 t' p Hp) as (a' & Ha' & Hrest). exists a'. cbn. by rewrite dict_get_set_ne.
    + rewrite dict_set_new, length_app by done. cbn [length]. unfold has_room in Hroom. lia.
  - done.
  - by eapply dict_set_wf_any.
Qed.

Context (Hopts : options_ok opts = true).

Lemma options_positive : (1 <= max_connections opts)%Z /\ (1 <= peer_parallelism opts)%Z.
Proof using Hopts. unfold options_ok in Hopts. repeat rewrite andb_true_iff, ?Z.leb_le in Hopts. lia. Qed.

(** The loop of a job goes on to its next wait, or to its end. *)
Lemma tri_job_loop id : forall peers j s,
  mid id j s -> tri (job_loop opts id j peers) (fun _ s' => engine_ok None s') never s.
Proof using Hopts.
  induction peers as [|peer peers IH]; intros j s Hs; cbn [job_loop].
  - set (j' := Job _ _ _ _ _ _ _ _ _). assert (mid id j' s) as Hs' by by apply (mid_same id j).
    cbn [job_metadata job_running j']. destruct (job_metadata j) as [m|] eqn:Hm.
    { rewrite bool_decide_eq_false_2 by done. cbn [andb]. apply tri_job_returns; [done|]. subst j'. cbn. congruence. }
    destruct (decide (job_running j = [])) as [Hr|Hr].
    + rewrite (bool_decide_eq_true_2 (job_running j = [])) by done. cbn [negb orb andb].
      rewrite bool_decide_eq_true_2 by done. cbn [negb orb andb]. by apply tri_job_returns.
    + rewrite (bool_decide_eq_false_2 (job_running j = [])) by done. rewrite !bool_decide_eq_true_2 by done.
      cbn [negb orb andb]. by apply tri_job_waits.
  - set (j' := Job _ _ _ _ _ _ _ _ _). assert (mid id j' s) as Hs' by by apply (mid_same id j).
    cbn [job_metadata job_running job_hash job_blamed job_started job_wakeup job_cancelled j'].
    destruct (job_metadata j) as [m|] eqn:Hm.
    { rewrite bool_decide_eq_false_2 by done. cbn [andb]. apply tri_job_returns; [done|]. subst j'. cbn. congruence. }
    rewrite bool_decide_eq_true_2 by done. rewrite (bool_decide_eq_false_2 (peer :: peers = [])) by done.
    cbn [andb orb negb]. destruct (has_room opts (job_running j)) eqn:Hroom.
    + apply tri_bind, tri_reads. destruct (is_known_unreachable _ _ _).
      * apply tri_bind. eapply tri_quietly_mid; [by apply quietly_count_reason|exact Hs'|].
        intros reason s1 <- Hs1. apply IH. by eapply (mid_same id j').
      * apply tri_bind. eapply (tri_create_attempt id j'); [done|done|]. intros t s1 Hs1.
        apply tri_job_waits; [by apply (mid_same id (with_running (dict_set t peer (job_running j')) j'))|done| |].
        -- cbn. intros Hn. pose proof (dict_get_set_eq t peer (job_running j)) as Hg. by rewrite Hn in Hg.
        -- cbn. destruct (negb (bool_decide (peers = [])) && _) eqn:Hb; [|done]. intros _.
           apply andb_true_iff in Hb as [Hp%negb_true_iff%bool_decide_eq_false ?]. done.
    + apply tri_job_waits; [done|done| |done]. cbn. intros Hn. unfold has_room in Hroom. rewrite Hn in Hroom.
      apply Z.ltb_ge in Hroom. cbn [length] in Hroom. pose proof options_positive. lia.
Qed.

(** The outcome of a task of the job that has ended. *)
Lemma ended_outcome id j s t :
  mid id j s -> is_Some (dict_get t (job_running j)) -> is_ended s t = true ->
  exists h p r c, dict_get t (tasks s) = Some (Attempt h p (Ended (Ok r)) c) /\ outcome_ok (job_hash j) r.
Proof using.
  intros Hs [p Hp] He. destruct (mid_elim id j s Hs) as ((_ & Hjobs & _) & _ & (_ & _ & L3 & _) & _).
  destruct (L3 t p Hp) as (a & Ha & Hh & _). unfold is_ended in He. rewrite Ha in He.
  destruct (jo_attempts _ _ Hjobs t a Ha) as [_ Hst]. destruct a as [h' p' st c]. cbn in *.
  destruct st as [| | | | |[r|e]]; try done. subst h'. by exists (job_hash j), p', r, c.
Qed.

(** A task that has ended is taken out of [running]. *)
Lemma mid_taken id j s t h p r c :
  mid id j s -> is_Some (dict_get t (job_running j)) -> dict_get t (tasks s) = Some (Attempt h p (Ended (Ok r)) c) ->
  mid id (with_running (dict_del t (job_running j)) j) (set_tasks (dict_del t (tasks s)) s).
Proof using.
  intros Hs Hrun Ha. destruct (mid_elim id j s Hs) as (Hl & Hap & (L1 & L2 & L3 & L4 & L5) & Hid & Hwf).
  pose proof Hl as (Hsl & Hjobs & _). apply mid_intro; cbn [job_hash job_running with_running].
  - eapply (leaving_put id _ s _ t None); [done| |done|untouched|done|].
    + eapply (slots_ok_put s _ t None); try done; cbn; rewrite ?Ha; cbn; try apply Hsl; try lia.
      * intros t' Hin. left. split; [|done]. intros ->.
        destruct (so_waiters s Hsl t Hin) as (a' & Ha' & Hst). rewrite Ha in Ha'. by injection Ha' as <-.
      * pose proof (so_utp s Hsl) as Hutp. destruct (utp_slots s) as [sem|]; [|done].
        split; [apply Hutp|]. split; [apply Hutp|]. lia.
    + intros i k Hk. apply (Hap i k t Hk). by apply dict_get_is_Some.
  - intros i k t' Hk Ht'. rewrite dict_del_keys in Ht'. apply list_elem_of_filter in Ht' as [_ Ht']. by apply (Hap i k t').
  - split; [done|]. split; [by apply dict_del_wf|]. cbn. split; [|split; [|done]].
    + intros t' q. cbn [with_running job_running]. rewrite dict_get_del. case_decide as Hd; [done|]. intros Hq.
      destruct (L3 t' q Hq) as (a' & Ha' & Hrest). exists a'. cbn. by rewrite dict_get_del_ne.
    + etransitivity; [|exact L4]. apply inj_le. apply length_filter.
  - done.
  - by eapply dict_set_wf_any.
Qed.

Lemma tri_take_outcomes id done : forall j s,
  mid id j s -> NoDup done ->
  (forall t, t ∈ done -> is_Some (dict_get t (job_running j)) /\ is_ended s t = true) ->
  tri (take_outcomes opts done j) (fun j' s' => mid id j' s') never s.
Proof using.
  induction done as [|t done IH]; intros j s Hs Hnd Hdone; cbn [take_outcomes]; [done|].
  apply NoDup_cons in Hnd as [Ht Hnd]. destruct (Hdone t) as [Hrun He]; [left|].
  destruct (ended_outcome id j s t Hs Hrun He) as (h & p & r & c & Ha & Hr).
  pose proof (mid_taken id j s t h p r c Hs Hrun Ha) as Hs1. destruct Hrun as [peer Hp]. rewrite Hp.
  apply tri_bind, tri_reads, tri_bind. rewrite Ha. apply tri_ret. destruct r as [outcome reason]. cbv beta iota.
  apply tri_bind, tri_change.
  assert (forall t', t' ∈ done -> is_Some (dict_get t' (dict_del t (job_running j))) /\
    forall s', tasks s' = dict_del t (tasks s) -> is_ended s' t' = true) as Hrest.
  { intros t' Ht'. destruct (Hdone t') as [H1 H2]; [by right|]. assert (t' <> t) by (by intros ->).
    rewrite dict_get_del_ne by done. split; [done|]. intros s' Hs'. unfold is_ended. rewrite Hs'.
    by rewrite dict_get_del_ne. }
  destruct outcome as [m|].
  - apply IH; [|done|intros t' Ht'; destruct (Hrest t' Ht'); auto].
    destruct (mid_elim _ _ _ Hs1) as (H1 & H2 & (L1 & L2 & L3 & L4 & L5) & H4 & H5).
    apply mid_intro; try done; [|by eapply dict_set_wf_any].
    split; [done|]. split; [done|]. split; [done|]. split; [done|]. cbn. intros m' [= <-].
    destruct (job_metadata j) as [m0|] eqn:Hm; [|done]. apply L5. by cbn.
  - apply tri_bind, tri_when; intros _; [apply tri_change|];
      (apply IH; [|done|intros t' Ht'; destruct (Hrest t' Ht'); auto]);
      apply (mid_same id (with_running (dict_del t (job_running j)) j)); try done.
    eapply mid_quiet; [|exact Hs1]. split; [by repeat split|]. split; [by repeat split|]. exact (fun H => H).
Qed.

Lemma tri_job_wakes id done j s :
  mid id j s -> NoDup done ->
  (forall t, t ∈ done -> is_Some (dict_get t (job_running j)) /\ is_ended s t = true) ->
  tri (job_wakes opts id done j) (fun _ s' => engine_ok None s') never s.
Proof using Hopts.
  intros Hs Hnd Hdone. unfold job_wakes. apply tri_bind. eapply tri_mono; [by eapply tri_take_outcomes| |done].
  intros j' s' Hs'. by apply tri_job_loop.
Qed.

Lemma tri_job_starts id j s :
  dict_get id (jobs s) = Some j -> job_started j = false -> engine_ok None s ->
  tri (job_starts opts id j) (fun _ s' => engine_ok None s') never s.
Proof using Hopts.
  intros Hj Hst Hs. pose proof Hs as (_ & Hjobs & _). unfold job_starts.
  destruct (jo_strict _ _ Hjobs id j Hj) as (_ & Hnew & _); [done|]. rewrite Hst in Hnew. destruct Hnew as (_ & Hw & _).
  destruct (jo_loose _ _ Hjobs id j Hj) as (Hh & _). apply tri_bind, tri_check.
  - rewrite is_node_id_of by done. by rewrite bool_decide_eq_false_2.
  - apply tri_job_loop. by apply job_as_stored.
Qed.

Lemma tri_job_step s id f :
  (forall j, dict_get id (jobs s) = Some j -> tri (f j) (fun _ s' => engine_ok None s') never s) ->
  engine_ok None s -> tri (job_step id f) (fun _ s' => engine_ok None s') never s.
Proof using.
  intros Hf Hs. unfold job_step. apply tri_bind, tri_reads. destruct (dict_get id (jobs s)) as [j|]; [|done].
  apply tri_catch. eapply tri_mono; [by apply Hf|done|done].
Qed.

(** ** The main task *)

(** Candidates that are still to get their job. *)
Definition scheduling (l : list (bytes * list address)) s : Prop :=
  slots_ok s /\ jobs_ok None s /\ counts_ok s /\
  fetches_ok (fun h => claimed s h \/ h ∈ l.*1) (catalog_state s) /\ NoDup l.*1 /\
  Forall (fun hp => length hp.1 = NODE_ID_LENGTH /\ ~ claimed s hp.1 /\ hp.2 <> []) l.

Lemma tri_create_job x l s :
  scheduling (x :: l) s -> tri (create_job x) (fun _ s' => scheduling l s') never s.
Proof using Hopts.
  destruct x as [h peers]. intros (H1 & [J1 J2 J3 J4 J5 J6 J7] & H3 & H4 & Hnd & Hall).
  apply Forall_cons in Hall as [(Hh & Hnew & Hp) Hall]. cbn in *. apply NoDup_cons in Hnd as [Hin Hnd].
  unfold create_job, set_job. apply tri_bind, tri_reads, tri_bind, tri_change, tri_change. cbn.
  assert (dict_get (next_job s) (jobs s) = None) as Hfresh
    by (apply eq_None_not_Some; intros Hx%J2; lia).
  assert (forall i k, dict_get i (dict_set (next_job s) (new_job h peers) (jobs s)) = Some k ->
    i = next_job s /\ k = new_job h peers \/ i <> next_job s /\ dict_get i (jobs s) = Some k) as Hget.
  { intros i k. rewrite dict_get_set. case_decide; [intros [= <-]; by left|by right]. }
  split; [by apply (slots_ok_same s)|]. split; [|split; [exact H3|split; [|split; [done|]]]].
  - split; cbn; try done.
    + by apply dict_set_wf.
    + intros i [k Hk]. destruct (Hget i k Hk) as [[-> _]|[_ Hk']]; [lia|].
      assert (i < next_job s); [|lia]. apply J2. by eexists.
    + intros i k Hk. destruct (Hget i k Hk) as [[-> ->]|[_ Hk']]; [|by apply (J3 i)].
      split; [done|]. split; [constructor|]. split; [by intros t p|]. split; [|done]. pose proof options_positive. cbn. lia.
    + intros i k Hk _. destruct (Hget i k Hk) as [[-> ->]|[_ Hk']]; [|by apply (J4 i)].
      split; [done|]. split; [|done]. split; [done|]. split; [|done]. cbn.
      intros Hr. apply Hp. apply (f_equal reverse) in Hr. by rewrite reverse_involutive in Hr.
    + intros i i' k k' Hk Hk' Heq.
      destruct (Hget i k Hk) as [[-> ->]|[Hne Hk1]], (Hget i' k' Hk') as [[-> ->]|[Hne' Hk1']]; [done| | |by eapply J5].
      * destruct Hnew. by exists i', k'.
      * destruct Hnew. by exists i, k.
    + intros i i' k k' t Hk Hk' Ht Ht'.
      destruct (Hget i k Hk) as [[-> ->]|[Hne Hk1]], (Hget i' k' Hk') as [[-> ->]|[Hne' Hk1']];
        [done|by destruct Ht|by destruct Ht'|by eapply J6].
  - eapply fetches_ok_iff; [|exact H4]. intros h'. unfold claimed. cbn. rewrite elem_of_cons. split.
    + intros [(i & k & Hk & <-)|[->|?]]; [| |by right]; left.
      * exists i, k. split; [|done]. rewrite dict_get_set_ne; [done|]. intros ->. congruence.
      * exists (next_job s), (new_job h peers). by rewrite dict_get_set_eq.
    + intros [(i & k & Hk & <-)|?]; [|by right; right].
      destruct (Hget i k Hk) as [[-> ->]|[_ Hk']]; [by right; left|]. left. by exists i, k.
  - apply Forall_forall. intros [h' p'] Hin'. rewrite Forall_forall in Hall.
    destruct (Hall _ Hin') as (? & Hc & ?). split; [done|]. split; [|done]. intros (i & k & Hk & Heq). cbn in *.
    destruct (Hget i k Hk) as [[-> ->]|[_ Hk']]; [|apply Hc; by exists i, k].
    cbn in Heq. subst h'. apply Hin, list_elem_of_fmap. by exists (h, p').
Qed.

Lemma tri_schedule s :
  engine_ok None s -> tri (schedule opts) (fun _ s' => engine_ok None s') never s.
Proof using Hopts.
  intros (H1 & H2 & H3 & H4). unfold schedule. apply tri_bind, tri_reads, tri_when; intros Hfree; [|done].
  apply andb_true_iff in Hfree as [Hfree%Z.ltb_lt _]. apply tri_bind.
  eapply tri_mono; [apply tri_on_catalog, law_next_fetch_candidates; [lia|exact H4]| |done].
  intros l s' (k & -> & Hnd & _ & Hall & Hk).
  eapply tri_mono; [apply (tri_each create_job scheduling never)|..|done].
  - split; [by apply (slots_ok_same s)|]. split; [by apply (jobs_ok_same None s)|]. split; [exact H3|].
    split; [exact Hk|]. split; [done|]. eapply Forall_impl; [exact Hall|]. intros [h p] (? & ? & ? & _). done.
  - intros x l' s'. apply tri_create_job.
  - intros u s' (D1 & D2 & D3 & D4 & _). split; [done|]. split; [done|]. split; [done|].
    eapply fetches_ok_iff; [|exact D4]. intros h. cbn. split; [|by left]. intros [?|Hin]; [done|].
    by apply elem_of_nil in Hin.
Qed.

Definition all_started s : Prop := forall i j, dict_get i (jobs s) = Some j -> job_started j = true.

Lemma tri_cancel_job s id :
  engine_ok None s -> all_started s ->
  tri (cancel_job id) (fun _ s' => engine_ok None s' /\ all_started s') never s.
Proof using.
  intros Hs Hall. unfold cancel_job. apply tri_bind, tri_reads. destruct (dict_get id (jobs s)) as [j|] eqn:Hj; [|done].
  unfold set_job. apply tri_change. set (j' := Job _ _ _ _ _ _ _ _ _).
  assert (mid id j' s) as Hm by (apply (mid_same id j); [done..|by apply job_as_stored]).
  pose proof (Hall id j Hj) as Hst. split.
  - destruct Hm as (H1 & H2 & H3). split; [done|]. split; [|done]. destruct H2 as [J1 J2 J3 J4 J5 J6 J7].
    split; try done. intros i k Hk _. destruct (decide (i = id)) as [->|Hne]; [|by apply (J4 i k Hk); congruence].
    cbn in Hk. rewrite dict_get_set_eq in Hk. injection Hk as <-.
    destruct (jo_strict _ _ (proj1 (proj2 Hs)) id j Hj) as (B1 & B2 & B3); [done|]. split; [done|]. split; [|done].
    cbn. by rewrite Hst in B2 |- *.
  - intros i k. cbn. rewrite dict_get_set. case_decide; [by intros [= <-]|apply Hall].
Qed.

Lemma tri_stop_jobs s :
  engine_ok None s -> all_started s -> tri stop_jobs (fun _ s' => engine_ok None s') never s.
Proof using.
  intros Hs Hall. unfold stop_jobs. apply tri_bind, tri_reads, tri_bind, tri_change.
  eapply tri_mono; [apply (tri_each cancel_job (fun _ s' => engine_ok None s' /\ all_started s') never)|by intros u s' []|done].
  - split; [|done]. destruct Hs as (H1 & H2 & H3 & H4). split; [by apply (slots_ok_same s)|].
    split; [by apply (jobs_ok_same None s)|]. by split.
  - intros x l s' [? ?]. by apply tri_cancel_job.
Qed.

(** ** Every step *)

Lemma all_started_forallb s : engine_ok None s -> forallb (fun ij => job_started ij.2) (jobs s) = true -> all_started s.
Proof using.
  intros Hs Hall i j Hj%dict_get_elem_of. rewrite forallb_forall in Hall.
  apply (Hall (i, j)). by apply list_elem_of_In.
Qed.

(** In order, an enabled step returns and leaves the engine in order. *)
Lemma tri_handle s ev :
  engine_ok None s -> enabled s ev = true ->
  tri (handle sha1 depth opts ev) (fun _ s' => engine_ok None s') never s.
Proof using Hopts.
  intros Hs He. destruct ev as [d|stop|id|id done|id|id|id|id fetch wall|id]; cbn [handle enabled] in *.
  - apply tri_change. destruct Hs as (H1 & H2 & H3 & H4). split; [by apply (slots_ok_same s)|].
    split; [by apply (jobs_ok_same None s)|]. by split.
  - apply andb_true_iff in He as [_ Hall%all_started_forallb]; [|done]. destruct stop; cbn [main_wakes]; [by apply tri_stop_jobs|].
    apply tri_catch. eapply tri_mono; [by apply tri_schedule|done|done].
  - apply tri_job_step; [|done]. intros j Hj. rewrite Hj in He. apply andb_true_iff in He as [Hst%negb_true_iff _].
    by apply tri_job_starts.
  - apply tri_job_step; [|done]. intros j Hj. rewrite Hj in He. repeat rewrite andb_true_iff in He.
    destruct He as [[[[_ Hnd%bool_decide_eq_true] Hdone] _] _]. apply tri_job_wakes; [by apply job_as_stored|done|].
    intros t Ht. rewrite forallb_forall in Hdone. apply list_elem_of_In in Ht. apply Hdone in Ht.
    apply andb_true_iff in Ht as [Hhas ?]. split; [by apply dict_has_get|done].
  - apply tri_job_step; [|done]. intros j Hj. rewrite Hj in He. by apply tri_job_is_cancelled.
  - apply tri_attempt_step; [|done]. intros a Ha. rewrite Ha in He.
    apply andb_true_iff in He as [Hst%bool_decide_eq_true Hc%negb_true_iff]. by apply tri_attempt_started.
  - apply tri_attempt_step; [|done]. intros a Ha. rewrite Ha in He. repeat rewrite andb_true_iff in He.
    destruct He as [[Hst%bool_decide_eq_true _] Hw%bool_decide_eq_true]. by apply tri_slot_granted.
  - apply tri_attempt_step; [|done]. intros a Ha. rewrite Ha in He. repeat rewrite andb_true_iff in He.
    destruct He as [[Hst Hf] Hw%Z.leb_le]. by apply tri_fetch_ended.
  - apply tri_attempt_step; [|done]. intros a Ha. rewrite Ha in He.
    apply andb_true_iff in He as [Hc He%negb_true_iff]. by apply tri_attempt_cancelled.
Qed.

Lemma new_engine_ok k time utp_opened s :
  fetches_ok (fun _ => False) k -> new_engine opts k time utp_opened = Ok s -> engine_ok None s.
Proof using Hopts.
  intros Hk. unfold new_engine. rewrite Hopts. intros [= <-]. pose proof options_positive.
  split; [|split; [|split]].
  - split; cbn; try done; try lia.
    + by apply dict_wf_nil.
    + split; [cbn; lia|]. split; [by apply dict_wf_nil|]. by intros _ [id Hid].
    + unfold shares. cbn. lia.
    + by intros id ?%elem_of_nil.
    + destruct (has_utp opts && utp_opened); done.
  - split; cbn; try done. by apply dict_wf_nil.
  - split; [done|]. split; [|done]. split; [by apply dict_wf_nil|cbn; lia].
  - eapply fetches_ok_iff; [|exact Hk]. intros h. split; [done|]. by intros (? & ? & ? & _).
Qed.
End safety.
