(* ===== verification/FetchEngineProgress.v ===== *)
(** The work left to the fetch engine: a number that every step of an attempt or
    of a job lowers, and a step that can be taken as long as a job is left. *)
From S2P Require Import Prelude PyDict Semaphore Bencode NodeIdentity Krpc TorrentInfo Catalog CatalogInterface.
From S2P Require Import Tasks MetadataSession FetchEngine FetchEngineSafety.

(** What is left to an attempt, and to a job besides its running attempts. *)
Definition stage_work (st : stage) : Z :=
  match st with
  | Created => 6 | Acquiring => 5 | Over_tcp => 4 | Over_encrypted => 3 | Over_utp _ => 2 | Ended _ => 1
  end.
Definition attempt_work (a : attempt_task) : Z := stage_work (at_stage a).
Definition job_work (j : job_task) : Z :=
  (8 * Z.of_nat (length (job_waiting j)) + if job_started j then 2 else 3)%Z.
Definition work {K} (s : engine K) : Z := (sum_over job_work (jobs s) + sum_over attempt_work (tasks s))%Z.

(** The steps that are not a turn of the main task or the mere passage of time. *)
Definition is_step (ev : event) : bool :=
  match ev with Time_passes _ | Main_wakes _ => false | _ => true end.

Section progress.
Context {K : Type} `{FL : FetchCatalogLaws K} (sha1 : bytes -> bytes) (depth : nat) (opts : options).
Implicit Types (s : engine K) (a : attempt_task) (j : job_task) (h : bytes).

Abbreviation whatever := (fun (_ : exn) (_ : engine K) => True).

Lemma attempt_work_pos a : (1 <= attempt_work a)%Z.
Proof using. unfold attempt_work. destruct (at_stage a); cbn; lia. Qed.

(** ** Attempts *)

(** What a step does to the tables: the attempt goes on, or it is gone. *)
Definition effect (id : nat) a s s' : Prop :=
  jobs s' = jobs s /\
  ((exists st, tasks s' = dict_set id (with_stage a st) (tasks s) /\ (stage_work st < stage_work (at_stage a))%Z) \/
   tasks s' = dict_del id (tasks s)).

Lemma effect_work id a s s' :
  dict_wf (tasks s) -> dict_get id (tasks s) = Some a -> effect id a s s' -> (work s' < work s)%Z.
Proof using.
  intros Hwf Ha [Hj [(st & Ht & Hst)|Ht]]; unfold work; rewrite Hj, Ht.
  - rewrite (sum_over_set attempt_work id a) by done. unfold attempt_work at 2 3. cbn. lia.
  - rewrite (sum_over_del attempt_work id a (tasks s)) by done. pose proof (attempt_work_pos a). lia.
Qed.

Lemma effect_attempt_started s id a :
  at_stage a = Created -> tri (attempt_started id a) (fun _ => effect id a s) whatever s.
Proof using.
  intros Hst. unfold attempt_started. apply tri_bind, tri_change, tri_bind, tri_reads.
  destruct (acquire id _) as [got sem]. apply tri_bind, tri_change. unfold attempt_acquired, set_stage.
  destruct got; [do 4 apply tri_bind, tri_change|]; apply tri_change; (split; [done|]); left.
  - exists Over_tcp. split; [done|]. rewrite Hst. cbn. lia.
  - exists Acquiring. split; [done|]. rewrite Hst. cbn. lia.
Qed.

Lemma effect_slot_granted s id a :
  at_stage a = Acquiring -> tri (slot_granted id a) (fun _ => effect id a s) whatever s.
Proof using.
  intros Hst. unfold slot_granted, attempt_acquired, set_stage. do 5 apply tri_bind, tri_change. apply tri_change.
  split; [done|]. left. exists Over_tcp. split; [done|]. rewrite Hst. cbn. lia.
Qed.

Lemma effect_attempt_cancelled s id a : tri (attempt_cancelled id a) (fun _ => effect id a s) whatever s.
Proof using.
  unfold attempt_cancelled, leave_slot, change_utp_slots. apply tri_bind.
  destruct (at_stage a); cbn [attempt_unwinds]; tri_steps; (split; [done|by right]).
Qed.

Lemma effect_attempt_returns s s0 id a r :
  jobs s0 = jobs s -> tasks s0 = tasks s -> (1 < stage_work (at_stage a))%Z ->
  tri (attempt_returns id a r) (fun _ => effect id a s) whatever s0.
Proof using.
  intros Hj Ht Hst. unfold attempt_returns, set_stage. apply tri_bind. unfold check, call. apply tri_call.
  destruct (assert_ _); cbn [returns]; [|done]. apply tri_change. split; [done|]. left. exists (Ended (Ok r)).
  cbn. by rewrite Ht.
Qed.

Lemma effect_attempt_fetched s id a fetch wall :
  counts_ok s -> attempt_ok a -> (2 < stage_work (at_stage a))%Z -> (0 <= wall)%Z ->
  (forall e, fetch = Raise e -> fetch_raises e) ->
  tri (attempt_fetched sha1 depth opts id a fetch wall) (fun _ => effect id a s) whatever s.
Proof using.
  intros Hs [Hh _] Hst Hwall Hf. unfold attempt_fetched. apply tri_bind, tri_finally.
  eapply tri_mono; [apply (quietly_verified sha1 depth (at_hash a) (at_peer a) fetch "tcp" wall); [done..| |done|done]| |done].
  { left. }
  intros r s1 [_ (_ & (Ht & _ & Hj & _) & _)]. unfold leave_slot, change_utp_slots, set_stage.
  apply tri_bind, tri_change, tri_change, tri_bind, tri_reads.
  match goal with |- tri (if ?b then _ else _) _ _ _ => destruct b end.
  - do 2 apply tri_bind, tri_change. apply tri_change. split; [done|]. left. exists (Over_utp r). cbn. by rewrite Ht.
  - apply effect_attempt_returns; [done..|lia].
Qed.

Lemma effect_attempt_fetched_utp s id a r fetch wall :
  counts_ok s -> attempt_ok a -> at_stage a = Over_utp r -> (0 <= wall)%Z ->
  (forall e, fetch = Raise e -> fetch_raises e) ->
  tri (attempt_fetched_utp sha1 depth id a r fetch wall) (fun _ => effect id a s) whatever s.
Proof using.
  intros Hs [Hh _] Hst Hwall Hf. unfold attempt_fetched_utp. apply tri_bind, tri_finally.
  eapply tri_mono; [apply (quietly_verified sha1 depth (at_hash a) (at_peer a) _ "utp" wall); [done..| |by apply fetch_raises_map|done]| |done].
  { right. left. }
  intros r' s1 [_ (_ & (Ht & _ & Hj & _) & _)]. unfold change_utp_slots. apply tri_change, tri_bind, tri_when; intros _;
    [apply tri_change|]; (apply effect_attempt_returns; [done..|rewrite Hst; cbn; lia]).
Qed.

Lemma effect_fetch_ended s id a fetch wall :
  counts_ok s -> attempt_ok a -> is_fetching (at_stage a) = true -> (0 <= wall)%Z -> fetch_result_ok fetch = true ->
  tri (fetch_ended sha1 depth opts id a fetch wall) (fun _ => effect id a s) whatever s.
Proof using.
  intros Hs Ha Hst Hwall Hf0. pose proof (fetch_result_raises fetch Hf0) as Hf. unfold fetch_ended.
  destruct (at_stage a) as [| | | |r|] eqn:Hstage; try done.
  - destruct (bool_decide _ && _).
    + unfold set_stage. apply tri_bind, tri_change, tri_change. split; [done|]. left. exists Over_encrypted.
      split; [done|]. rewrite Hstage. cbn. lia.
    + apply effect_attempt_fetched; [done..|rewrite Hstage; cbn; lia|done|by apply fetch_raises_map].
  - apply effect_attempt_fetched; [done..|rewrite Hstage; cbn; lia|done|by apply fetch_raises_map].
  - by apply effect_attempt_fetched_utp.
Qed.

(** ** Jobs *)

(** The work but for what is left to one job. *)
Definition rest (id : nat) s : Z :=
  (sum_over job_work (dict_del id (jobs s)) + sum_over attempt_work (tasks s))%Z.

Lemma work_rest id j s : dict_wf (jobs s) -> dict_get id (jobs s) = Some j -> work s = (rest id s + job_work j)%Z.
Proof using. intros Hwf Hj. unfold work, rest. rewrite (sum_over_del job_work id j (jobs s)) by done. lia. Qed.

Lemma work_set id j s :
  dict_wf (jobs s) -> work (set_jobs (dict_set id j (jobs s)) s) = (rest id s + job_work j)%Z.
Proof using.
  intros Hwf. rewrite (work_rest id j) by (cbn; auto using dict_set_wf, dict_get_set_eq).
  unfold rest. cbn [jobs tasks set_jobs]. by rewrite dict_del_set.
Qed.

(** The tables are in order: what the sums need. *)
Definition tables_wf s : Prop := dict_wf (jobs s) /\ dict_wf (tasks s).

(** The part does not touch the jobs, and adds at most [n] to the work of the
    tasks. *)
Definition adds (n : Z) s s' : Prop :=
  jobs s' = jobs s /\ dict_wf (tasks s') /\
  (sum_over attempt_work (tasks s') <= sum_over attempt_work (tasks s) + n)%Z.

Lemma adds_trans n m s s1 s2 : adds n s s1 -> adds m s1 s2 -> adds (n + m) s s2.
Proof using. intros (A1 & A2 & A3) (B1 & B2 & B3). split; [congruence|]. split; [done|lia]. Qed.

Lemma adds_same s s' : jobs s' = jobs s -> tasks s' = tasks s -> tables_wf s -> adds 0 s s'.
Proof using. intros Hj Ht [_ Hw]. split; [done|]. rewrite Ht. split; [done|lia]. Qed.

Lemma adds_rest n id s s' : adds n s s' -> (rest id s' <= rest id s + n)%Z.
Proof using. intros (Hj & _ & Hs). unfold rest. rewrite Hj. lia. Qed.

Lemma adds_wf n s s' : adds n s s' -> tables_wf s -> tables_wf s'.
Proof using. intros (Hj & Hw & _) [H1 _]. split; [by rewrite Hj|done]. Qed.

Lemma tri_check_any {A} c (k : unit -> task (engine K) A) (Q : A -> engine K -> Prop) s :
  (c = true -> tri (k tt) Q whatever s) -> tri (check c ≫= k) Q whatever s.
Proof using. intros Hk. apply tri_bind. unfold check, call. apply tri_call. destruct c; cbn; [by apply Hk|done]. Qed.

Lemma adds_cancel_all l : forall s, tables_wf s -> tri (each cancel_attempt l) (fun _ => adds 0 s) whatever s.
Proof using.
  induction l as [|t l IH]; intros s Hs; cbn [each]; [apply tri_ret; by apply adds_same|].
  apply tri_bind. eapply (tri_mono _ (fun _ => adds 0 s) _ whatever); [| |done].
  - unfold cancel_attempt. apply tri_bind, tri_reads. destruct (dict_get t (tasks s)) as [a|] eqn:Ha; [|by apply adds_same].
    assert (forall sl, adds 0 s (set_slots sl (set_tasks (dict_set t (Attempt (at_hash a) (at_peer a) (at_stage a) true) (tasks s)) s))) as Hset.
    { intros sl. split; [done|]. split; [apply dict_set_wf, Hs|]. cbn [tasks set_slots set_tasks].
      rewrite (sum_over_set attempt_work t a) by (done || apply Hs). unfold attempt_work at 2 3. cbn. lia. }
    destruct (at_stage a) eqn:Hst; try (by apply adds_same);
      (apply tri_bind, tri_change, tri_when; intros _; [apply tri_change; apply Hset|apply (Hset (slots s))]).
  - intros u s1 H1. eapply tri_mono; [apply IH; by eapply adds_wf| |done]. intros u' s2 H2. exact (adds_trans 0 0 s s1 s2 H1 H2).
Qed.

Lemma adds_on_catalog {A} (m : ST K A) s : tables_wf s -> tri (on_catalog m) (fun _ => adds 0 s) whatever s.
Proof using. intros Hs. unfold tri, on_catalog. destruct (m (catalog_state s)) as [[x k]|]; [|done]. by apply adds_same. Qed.

Lemma adds_finish_job h metadata blamed reason s :
  tables_wf s -> tri (finish_job h metadata blamed reason) (fun _ => adds 0 s) whatever s.
Proof using.
  intros Hs. unfold finish_job. apply tri_check_any. intros _. apply tri_bind.
  eapply (tri_mono _ (fun _ => adds 0 s) _ whatever); [| |done].
  - destruct metadata as [m|]; [|destruct (negb _)].
    + apply tri_bind. eapply tri_mono; [by apply adds_on_catalog| |done]. intros u s1 H1. apply tri_change.
      apply (adds_trans 0 0 s s1 _ H1), adds_same; [done|done|exact (adds_wf 0 s s1 H1 Hs)].
    + apply tri_bind. eapply tri_mono; [by apply adds_on_catalog| |done]. intros u s1 H1. apply tri_change.
      apply (adds_trans 0 0 s s1 _ H1), adds_same; [done|done|exact (adds_wf 0 s s1 H1 Hs)].
    + by apply adds_on_catalog.
  - intros u s1 H1. apply tri_bind, tri_reads. unfold check, call. apply tri_call. by destruct (assert_ _).
Qed.

Lemma work_job_returns id j s : tables_wf s -> tri (job_returns id j) (fun _ s' => (work s' <= rest id s)%Z) whatever s.
Proof using.
  intros Hs. unfold job_returns. apply tri_bind. eapply tri_mono; [by apply adds_cancel_all| |done]. intros u s1 H1.
  apply tri_bind. eapply tri_mono; [apply adds_finish_job; exact (adds_wf 0 s s1 H1 Hs)| |done]. intros u' s2 H2.
  apply tri_check_any. intros _. apply tri_change. pose proof (adds_trans 0 0 s s1 s2 H1 H2) as H3.
  apply (adds_rest _ id) in H3. unfold work, rest in *. cbn [jobs tasks set_jobs]. lia.
Qed.

Lemma work_job_waits id j timeout s :
  tables_wf s -> tri (job_waits id j timeout)
    (fun _ s' => (work s' <= rest id s + 8 * Z.of_nat (length (job_waiting j)) + 2)%Z) whatever s.
Proof using.
  intros Hs. unfold job_waits. apply tri_bind. unfold raise_if. destruct (bool_decide _); [done|]. apply tri_ret.
  apply tri_bind, tri_reads, tri_change. rewrite work_set by apply Hs. unfold job_work. cbn. lia.
Qed.

Lemma adds_create_attempt h peer s :
  tables_wf s -> tri (create_attempt h peer) (fun _ => adds 6 s) whatever s.
Proof using.
  intros [H1 H2]. unfold create_attempt. apply tri_bind, tri_reads, tri_bind, tri_change, tri_bind, tri_change, tri_ret.
  split; [done|]. cbn [tasks set_tasks set_next_task]. split; [by apply dict_set_wf|].
  pose proof (sum_over_put attempt_work (next_task s) (Some (Attempt h peer Created false)) (tasks s) H2) as Hp.
  cbn [dict_put] in Hp. rewrite Hp. unfold weight. change (attempt_work (Attempt h peer Created false)) with 6%Z.
  destruct (dict_get (next_task s) (tasks s)) as [a|]; [pose proof (attempt_work_pos a)|]; lia.
Qed.

Lemma adds_count_reason reason s :
  tables_wf s -> tri (count_reason (K := K) reason) (fun _ => adds 0 s) whatever s.
Proof using.
  intros Hs. unfold count_reason. apply tri_check_any. intros _. apply tri_bind, tri_change, tri_ret. by apply adds_same.
Qed.

(** The loop of a job: a peer that is taken is worth more than its attempt. *)
Lemma work_job_loop id : forall peers j s, tables_wf s ->
  tri (job_loop opts id j peers) (fun _ s' =>
    (work s' <= rest id s + 8 * Z.of_nat (length peers) + 2)%Z /\
    (job_metadata j = None -> peers <> [] -> has_room opts (job_running j) = true ->
     (work s' < rest id s + 8 * Z.of_nat (length peers) + 2)%Z)) whatever s.
Proof using.
  induction peers as [|peer peers IH]; intros j s Hs; cbn [job_loop].
  - set (j' := Job _ _ _ _ _ _ _ _ _). destruct (_ && _).
    + eapply tri_mono; [by apply work_job_waits| |done]. cbn. intros u s' Hw. split; [lia|done].
    + eapply tri_mono; [by apply work_job_returns| |done]. cbn. intros u s' Hw. split; [lia|done].
  - set (j' := Job _ _ _ _ _ _ _ _ _).
    cbn [job_metadata job_running job_hash job_blamed job_started job_wakeup job_cancelled j'].
    destruct (bool_decide (job_metadata j = None)) eqn:Hm; cbn [andb].
    2: { apply bool_decide_eq_false in Hm. eapply tri_mono; [by apply work_job_returns| |done].
      cbn [length]. intros u s' Hw. split; [lia|done]. }
    rewrite (bool_decide_eq_false_2 (peer :: peers = [])) by done. cbn [negb orb].
    destruct (has_room opts (job_running j)).
    2: { eapply tri_mono; [by apply work_job_waits| |done]. cbn [length job_waiting j'].
      intros u s' Hw. split; [lia|done]. }
    apply tri_bind, tri_reads. destruct (is_known_unreachable _ _ _).
    + apply tri_bind. eapply tri_mono; [by apply adds_count_reason| |done]. intros reason s1 H1.
      eapply tri_mono; [apply IH; exact (adds_wf 0 s s1 H1 Hs)| |done].
      intros u s' [Hw _]. apply (adds_rest _ id) in H1. cbn [length]. split; intros; lia.
    + apply tri_bind. eapply tri_mono; [by apply adds_create_attempt| |done]. intros t s1 H1.
      eapply tri_mono; [apply work_job_waits; exact (adds_wf 6 s s1 H1 Hs)| |done].
      intros u s' Hw. apply (adds_rest _ id) in H1. cbn [job_waiting length] in *. split; intros; lia.
Qed.

(** The tasks that are done, taken out one by one. *)
Lemma work_take_outcomes id done : forall j s, tables_wf s ->
  tri (take_outcomes opts done j) (fun j' s' =>
    tables_wf s' /\ (rest id s' <= rest id s - Z.of_nat (length done))%Z /\ job_waiting j' = job_waiting j /\
    (done = [] -> j' = j)) whatever s.
Proof using.
  induction done as [|t done IH]; intros j s Hs; cbn [take_outcomes].
  { apply tri_ret. split; [done|]. cbn. split; [lia|done]. }
  destruct (dict_get t (job_running j)) as [peer|]; [|done]. apply tri_bind, tri_reads, tri_bind, tri_call.
  destruct (dict_get t (tasks s)) as [[h p st c]|] eqn:Ha; [|done].
  destruct st as [| | | | |[[outcome reason]|e]]; try done. cbn [returns]. apply tri_bind, tri_change.
  set (s1 := set_tasks _ s).
  assert (tables_wf s1) as Hs1 by (split; [apply Hs|by apply dict_del_wf, Hs]).
  assert (rest id s1 = rest id s - 1)%Z as Hr.
  { unfold rest. subst s1. cbn [jobs tasks set_tasks]. rewrite (sum_over_del attempt_work t _ (tasks s)) by (apply Hs || exact Ha).
    unfold attempt_work at 2. cbn [at_stage stage_work]. lia. }
  destruct outcome as [m|].
  - eapply tri_mono; [by apply IH| |done]. intros j' s' (H1 & H2 & H3 & _). split; [done|]. cbn [length job_waiting] in *.
    split; [lia|done].
  - apply tri_bind, tri_when; intros _; [apply tri_change|];
      (eapply tri_mono; [by apply IH| |done]; intros j' s' (H1 & H2 & H3 & _); split; [done|]; cbn [length job_waiting] in *);
      (split; [|done]); [change (rest id (set_pause_until _ s1)) with (rest id s1) in H2|]; lia.
Qed.

Lemma work_job_wakes id done j s :
  tables_wf s -> job_started j = true -> (done <> [] \/ job_metadata j = None /\ job_waiting j <> [] /\ has_room opts (job_running j) = true) ->
  tri (job_wakes opts id done j) (fun _ s' => (work s' < rest id s + job_work j)%Z) whatever s.
Proof using.
  intros Hs Hst Hcase. unfold job_wakes. apply tri_bind. eapply tri_mono; [by apply (work_take_outcomes id)| |done].
  intros j' s1 (H1 & H2 & H3 & H4). eapply tri_mono; [by apply work_job_loop| |done]. intros u s' [Hw Hw'].
  unfold job_work. rewrite Hst, H3 in *. destruct done as [|t done]; cbn [length] in *; [|lia].
  rewrite (H4 eq_refl) in Hw'. destruct Hcase as [[]|(E1 & E2 & E3)]; [done|]. specialize (Hw' E1 E2 E3). lia.
Qed.

Lemma work_job_starts id j s :
  tables_wf s -> job_started j = false ->
  tri (job_starts opts id j) (fun _ s' => (work s' < rest id s + job_work j)%Z) whatever s.
Proof using.
  intros Hs Hst. unfold job_starts. apply tri_check_any. intros _. eapply tri_mono; [by apply work_job_loop| |done].
  intros u s' [Hw _]. unfold job_work. rewrite Hst. lia.
Qed.

Lemma work_job_is_cancelled id j s :
  tables_wf s -> tri (job_is_cancelled id j) (fun _ s' => (work s' < rest id s + job_work j)%Z) whatever s.
Proof using.
  intros Hs. unfold job_is_cancelled. apply tri_bind.
  eapply (tri_mono _ (fun _ => adds 0 s) _ whatever); [| |done].
  - apply tri_when; intros _; [|by apply adds_same]. apply tri_bind.
    eapply tri_mono; [by apply adds_cancel_all| |done]. intros u s1 H1.
    eapply tri_mono; [apply adds_on_catalog; exact (adds_wf 0 s s1 H1 Hs)| |done]. intros u' s2 H2.
    exact (adds_trans 0 0 s s1 s2 H1 H2).
  - intros u s1 H1. apply tri_change. apply (adds_rest _ id) in H1. unfold work, rest in *. cbn [jobs tasks set_jobs].
    assert (0 < job_work j)%Z by (unfold job_work; destruct (job_started j); lia). lia.
Qed.

(** ** Steps *)

Context (Hopts : options_ok opts = true).

Lemma engine_tables X s : engine_ok opts X s -> tables_wf s.
Proof using. intros (H1 & H2 & _). split; [apply H2|apply H1]. Qed.

(** A part that never raises, with what is left when it does not. *)
Lemma tri_and_never {A} (m : task (engine K) A) (Q Q' : A -> engine K -> Prop) s :
  tri m Q (fun _ _ => False) s -> tri m Q' whatever s -> tri m (fun x s' => Q x s' /\ Q' x s') (fun _ _ => False) s.
Proof using. intros H1 H2. eapply tri_mono; [exact (tri_and _ _ _ _ _ s H1 H2)|done|by intros e s' []]. Qed.

Lemma attempt_step_runs s id f a (Q : engine K -> Prop) :
  dict_get id (tasks s) = Some a -> tri (f a) (fun _ => Q) (fun _ _ => False) s ->
  tri (attempt_step id f) (fun _ => Q) (fun _ _ => False) s.
Proof using.
  intros Ha Hf. unfold attempt_step. apply tri_bind, tri_reads. rewrite Ha. apply tri_catch.
  eapply tri_mono; [exact Hf|done|done].
Qed.

Lemma job_step_runs s id f j (Q : engine K -> Prop) :
  dict_get id (jobs s) = Some j -> tri (f j) (fun _ => Q) (fun _ _ => False) s ->
  tri (job_step id f) (fun _ => Q) (fun _ _ => False) s.
Proof using.
  intros Hj Hf. unfold job_step. apply tri_bind, tri_reads. rewrite Hj. apply tri_catch.
  eapply tri_mono; [exact Hf|done|done].
Qed.

(** A step of an attempt lowers the work. *)
Lemma attempt_step_lowers s id f a :
  engine_ok opts None s -> dict_get id (tasks s) = Some a ->
  tri (f a) (fun _ s' => engine_ok opts None s') (fun _ _ => False) s -> tri (f a) (fun _ => effect id a s) whatever s ->
  tri (attempt_step id f) (fun _ s' => engine_ok opts None s' /\ (work s' < work s)%Z) (fun _ _ => False) s.
Proof using.
  intros Hs Ha H1 H2. eapply attempt_step_runs; [exact Ha|].
  eapply tri_mono; [exact (tri_and_never _ _ _ s H1 H2)| |done]. intros u s' [Hs' He]. split; [done|].
  by eapply effect_work; [eapply engine_tables|..].
Qed.

(** A step of a job lowers the work. *)
Lemma job_step_lowers s id f j :
  engine_ok opts None s -> dict_get id (jobs s) = Some j ->
  tri (f j) (fun _ s' => engine_ok opts None s') (fun _ _ => False) s ->
  tri (f j) (fun _ s' => (work s' < rest id s + job_work j)%Z) whatever s ->
  tri (job_step id f) (fun _ s' => engine_ok opts None s' /\ (work s' < work s)%Z) (fun _ _ => False) s.
Proof using.
  intros Hs Hj H1 H2. eapply job_step_runs; [exact Hj|].
  rewrite (work_rest id j s (proj1 (engine_tables _ s Hs)) Hj). exact (tri_and_never _ _ _ s H1 H2).
Qed.

Lemma step_lowers_work s ev :
  engine_ok opts None s -> enabled s ev = true -> is_step ev = true ->
  tri (handle sha1 depth opts ev) (fun _ s' => engine_ok opts None s' /\ (work s' < work s)%Z) (fun _ _ => False) s.
Proof using Hopts.
  intros Hs He Hev. pose proof (engine_tables _ s Hs) as Hw.
  destruct ev as [d|stop|id|id done|id|id|id|id fetch wall|id]; try discriminate Hev; cbn [handle enabled] in *.
  - destruct (dict_get id (jobs s)) as [j|] eqn:Hj; [|done]. apply andb_true_iff in He as [Hst%negb_true_iff _].
    eapply job_step_lowers; [done|exact Hj|by apply tri_job_starts|by apply work_job_starts].
  - destruct (dict_get id (jobs s)) as [j|] eqn:Hj; [|done]. repeat rewrite andb_true_iff in He.
    destruct He as [[[[[Hst _] Hnd%bool_decide_eq_true] Hdone] _] Hwake].
    eapply job_step_lowers; [done|exact Hj| |].
    + apply tri_job_wakes; [done|by apply job_as_stored|done|]. intros t Ht. rewrite forallb_forall in Hdone.
      apply list_elem_of_In in Ht. apply Hdone in Ht. apply andb_true_iff in Ht as [Hhas ?]. split; [by apply dict_has_get|done].
    + apply work_job_wakes; [done|done|]. destruct (jo_strict _ _ _ (proj1 (proj2 Hs)) id j Hj) as (Hm & _ & Hwk); [done|].
      apply orb_true_iff in Hwake as [Hd%negb_true_iff%bool_decide_eq_false|Ht]; [by left|]. right. split; [done|].
      apply Hwk. by destruct (job_wakeup j).
  - destruct (dict_get id (jobs s)) as [j|] eqn:Hj; [|done].
    eapply job_step_lowers; [done|exact Hj|by apply tri_job_is_cancelled|by apply work_job_is_cancelled].
  - destruct (dict_get id (tasks s)) as [a|] eqn:Ha; [|done].
    apply andb_true_iff in He as [Hst%bool_decide_eq_true Hc%negb_true_iff].
    eapply attempt_step_lowers; [done|exact Ha|by apply tri_attempt_started|by apply effect_attempt_started].
  - destruct (dict_get id (tasks s)) as [a|] eqn:Ha; [|done]. repeat rewrite andb_true_iff in He.
    destruct He as [[Hst%bool_decide_eq_true _] Hwk%bool_decide_eq_true].
    eapply attempt_step_lowers; [done|exact Ha|by apply tri_slot_granted|by apply effect_slot_granted].
  - destruct (dict_get id (tasks s)) as [a|] eqn:Ha; [|done]. repeat rewrite andb_true_iff in He.
    destruct He as [[Hst Hf] Hwall%Z.leb_le].
    eapply attempt_step_lowers; [done|exact Ha|by apply tri_fetch_ended|].
    apply effect_fetch_ended; [apply Hs|by eapply (jo_attempts _ _ _ (proj1 (proj2 Hs)))|done..].
  - destruct (dict_get id (tasks s)) as [a|] eqn:Ha; [|done]. apply andb_true_iff in He as [Hc He%negb_true_iff].
    eapply attempt_step_lowers; [done|exact Ha|by apply tri_attempt_cancelled|by apply effect_attempt_cancelled].
Qed.

(** ** A step is possible *)

Lemma some_ended s l : (exists t, t ∈ l /\ is_ended s t = true) -> filter (fun t => is_ended s t = true) l <> [].
Proof using.
  intros (t & Ht & He) Hn. assert (t ∈ filter (fun t => is_ended s t = true) l) as Hin by by apply list_elem_of_filter.
  rewrite Hn in Hin. by apply elem_of_nil in Hin.
Qed.

(** Some attempt holds a slot, or was handed one. *)
Lemma slot_moves s :
  slots_ok opts s -> pending (slots s) -> exists ev, enabled s ev = true /\ is_step ev = true.
Proof using Hopts.
  intros Hs Hp. pose proof (options_positive opts Hopts) as [Hmax _].
  assert (woken (slots s) \/ (0 < active s)%Z) as [[id Hid]|Hact].
  { destruct (so_sem _ s Hs) as (Hv & _ & Hw). destruct (Z_lt_le_dec 0 (active s)) as [|Ha]; [by right|]. left.
    pose proof (so_shares _ s Hs) as Hsh. unfold shares in Hsh.
    destruct (Z_lt_le_dec 0 (value (slots s))) as [Hv'|Hv']; [by apply Hw|].
    assert (0 < sum_over is_woken (waiters (slots s)))%Z as Hpos by lia. revert Hpos. unfold woken.
    destruct (so_sem _ s Hs) as (_ & Hwf & _). revert Hwf. generalize (waiters (slots s)). intros ws Hwf.
    induction ws as [|[i [|]] ws IH]; [done| |].
    - rewrite sum_over_cons. cbn [is_woken]. unfold dict_wf in *. apply NoDup_cons in Hwf as [Hi Hwf]. intros Hpos.
      destruct IH as [k Hk]; [done|lia|]. exists k. simpl. rewrite decide_False; [done|]. intros ->. apply Hi.
      apply dict_get_is_Some. by eexists.
    - intros _. exists i. simpl. by rewrite decide_True. }
  - destruct (so_waiters _ s Hs id) as (a & Ha & Hst); [apply dict_get_is_Some; by eexists|].
    destruct (at_cancelled a) eqn:Hc.
    + exists (Attempt_cancelled id). split; [|done]. cbn. unfold is_ended. rewrite Ha, Hc.
      destruct a as [h p st c]. cbn in Hst. by subst st.
    + exists (Slot_granted id). split; [|done]. cbn. by rewrite Ha, Hc, Hid, Hst, !bool_decide_eq_true_2.
  - rewrite (so_active _ s Hs) in Hact. destruct Hs as [Hwf _ _ _ _ _ _ _ _ _].
    assert (exists id a, dict_get id (tasks s) = Some a /\ over_slot a = 1%Z) as (id & a & Ha & Hov).
    { revert Hwf Hact. generalize (tasks s). intros ts. unfold dict_wf. induction ts as [|[i a] ts IH]; [done|].
      rewrite sum_over_cons. csimpl. rewrite NoDup_cons. intros [Hi Hwf] Hpos. destruct (Z.eq_dec (over_slot a) 1) as [Ho|Ho].
      - exists i, a. by rewrite decide_True.
      - assert (over_slot a = 0%Z) as Hzero by (unfold over_slot in *; by destruct (at_stage a)).
        destruct IH as (k & b & Hk & Hb); [done|lia|]. exists k, b. split; [|done]. rewrite decide_False; [done|].
        intros ->. apply Hi. apply dict_get_is_Some. by eexists. }
    exists (Fetch_ended id (Ok []) 0). split; [|done]. cbn. rewrite Ha. unfold over_slot in Hov. by destruct (at_stage a).
Qed.

(** As long as a job is left some step can be taken. *)
Lemma job_moves s :
  engine_ok opts None s -> jobs s <> [] -> exists ev, enabled s ev = true /\ is_step ev = true.
Proof using Hopts.
  intros Hs Hne. pose proof Hs as (Hsl & Hjobs & _). destruct (jobs s) as [|[id j0] l] eqn:Hl; [done|].
  assert (is_Some (dict_get id (jobs s))) as [j Hj] by (rewrite Hl; simpl; rewrite decide_True by done; by eexists).
  destruct (jo_strict _ _ _ Hjobs id j Hj) as (Hm & Hst & Hwk); [done|].
  destruct (jo_loose _ _ _ Hjobs id j Hj) as (_ & Hwf & Hruns & _).
  destruct (job_cancelled j) eqn:Hc; [exists (Job_cancelled id); cbn; by rewrite Hj|].
  destruct (job_started j) eqn:Hstarted; [|exists (Job_starts id); cbn; by rewrite Hj, Hstarted, Hc].
  set (done := filter (fun t => is_ended s t = true) (job_running j).*1).
  destruct (decide (done = [])) as [Hd|Hd].
  2: { exists (Job_wakes id done). split; [|done]. cbn. rewrite Hj, Hstarted, Hc. cbn [negb andb].
    repeat rewrite andb_true_iff. split; [split; [split|]|].
    - apply bool_decide_eq_true. by apply NoDup_filter.
    - apply forallb_forall. intros t Ht. apply list_elem_of_In, list_elem_of_filter in Ht as [He Ht].
      rewrite He, andb_true_r. apply dict_has_get. by apply dict_get_is_Some.
    - apply forallb_forall. intros t Ht. apply list_elem_of_In in Ht. destruct (is_ended s t) eqn:He; [|done].
      apply bool_decide_eq_true. by apply list_elem_of_filter.
    - by rewrite bool_decide_eq_false_2. }
  destruct (job_running j) as [|[t p] r] eqn:Hr; [done|].
  destruct (Hruns t p) as (a & Ha & _ & _ & Hcan); [rewrite Hr; simpl; by rewrite decide_True|].
  assert (is_ended s t = false) as He.
  { destruct (is_ended s t) eqn:He; [|done]. exfalso. apply (some_ended s (job_running j).*1); [|by rewrite Hr].
    exists t. rewrite Hr. split; [left|done]. }
  destruct a as [h q st c]. cbn in Hcan. subst c. unfold is_ended in He. rewrite Ha in He. destruct st; try done.
  - exists (Attempt_starts t). split; [|done]. cbn. by rewrite Ha.
  - pose proof (so_queued _ s Hsl t _ Ha eq_refl eq_refl) as Hq. apply dict_get_is_Some in Hq as [[|] Hw].
    + apply slot_moves; [done|]. by exists t.
    + exists (Slot_granted t). split; [|done]. cbn. by rewrite Ha, Hw.
  - exists (Fetch_ended t (Ok []) 0). split; [|done]. cbn. by rewrite Ha.
  - exists (Fetch_ended t (Ok []) 0). split; [|done]. cbn. by rewrite Ha.
  - exists (Fetch_ended t (Ok []) 0). split; [|done]. cbn. by rewrite Ha.
Qed.
End progress.
