(* ===== verification/FetchEngineTheorems.v ===== *)
(** The theorems about the fetch engine: its steps return, its limits are kept
    and counted, its jobs come to an end, and what it fetches in the catalog is
    what it has jobs for. *)
From S2P Require Import Prelude PyDict Semaphore Bencode NodeIdentity Krpc TorrentInfo Catalog CatalogInterface.
From S2P Require Import CatalogInvariant CatalogTheorems CatalogClaims CatalogFetches.
From S2P Require Import Tasks MetadataSession FetchEngine FetchEngineSafety FetchEngineProgress.

Section engine.
Context {K : Type} `{FL : FetchCatalogLaws K} (sha1 : bytes -> bytes) (depth : nat) (opts : options).
Implicit Types (s : engine K).

(** A sequence of enabled steps. *)
Inductive steps : list event -> engine K -> engine K -> Prop :=
  | steps_none s : steps [] s s
  | steps_more ev evs s s1 s2 r :
      enabled s ev = true -> handle sha1 depth opts ev s = (r, s1) -> steps evs s1 s2 -> steps (ev :: evs) s s2.

(** The states that the engine can come to, started with the given catalog. *)
Definition engine_reachable (k : K) s : Prop :=
  exists time utp_opened s0 evs, new_engine opts k time utp_opened = Ok s0 /\ steps evs s0 s.

(** The steps run one after the other, each only when it may come next. *)
Fixpoint replay (evs : list event) s : option (engine K) :=
  match evs with
  | [] => Some s
  | ev :: evs => if enabled s ev then replay evs (handle sha1 depth opts ev s).2 else None
  end.

Lemma replay_steps evs s s' : replay evs s = Some s' -> steps evs s s'.
Proof using.
  revert s. induction evs as [|ev evs IH]; intros s; cbn [replay]; [intros [= <-]; constructor|].
  destruct (enabled s ev) eqn:He; [|done]. intros Hr. econstructor; [done|apply surjective_pairing|by apply IH].
Qed.

Context (Hopts : options_ok opts = true).

Lemma step_ok s ev :
  engine_ok opts None s -> enabled s ev = true ->
  exists s', handle sha1 depth opts ev s = (Ok tt, s') /\ engine_ok opts None s'.
Proof using Hopts.
  intros Hs He. pose proof (tri_handle sha1 depth opts Hopts s ev Hs He) as Ht. unfold tri in Ht.
  destruct (handle sha1 depth opts ev s) as [[[]|e] s']; [|done]. by exists s'.
Qed.

Lemma steps_ok evs s s' : steps evs s s' -> engine_ok opts None s -> engine_ok opts None s'.
Proof using Hopts.
  induction 1 as [|ev evs s s1 s2 r He Hh _ IH]; [done|]. intros Hs. apply IH.
  destruct (step_ok s ev Hs He) as (s' & Hh' & Hs'). congruence.
Qed.

Lemma reachable_ok k s : fetches_ok (fun _ => False) k -> engine_reachable k s -> engine_ok opts None s.
Proof using Hopts.
  intros Hk (time & utp_opened & s0 & evs & Hn & Hs). eapply steps_ok; [exact Hs|].
  by eapply new_engine_ok.
Qed.

(** Steps of the jobs and of the attempts use up the work that is left. *)
Lemma steps_lower_work evs s s' :
  steps evs s s' -> engine_ok opts None s -> Forall (fun ev => is_step ev = true) evs ->
  (Z.of_nat (length evs) + work s' <= work s)%Z.
Proof using Hopts.
  induction 1 as [|ev evs s s1 s2 r He Hh _ IH]; [cbn [length]; lia|]. intros Hs [Hev Hevs]%Forall_cons.
  pose proof (step_lowers_work sha1 depth opts Hopts s ev Hs He Hev) as Ht. unfold tri in Ht. rewrite Hh in Ht.
  destruct r as [[]|]; [|done]. destruct Ht as [Hs1 Hw]. specialize (IH Hs1 Hevs). cbn [length]. lia.
Qed.

Lemma work_nonneg s : (0 <= work s)%Z.
Proof using.
  unfold work. pose proof (sum_over_nonneg job_work (jobs s)) as H1.
  pose proof (sum_over_nonneg attempt_work (tasks s)) as H2.
  assert (forall j, (0 <= job_work j)%Z) as Hj by (intros j; unfold job_work; destruct (job_started j); lia).
  assert (forall a, (0 <= attempt_work a)%Z) as Ha by (intros a; pose proof (attempt_work_pos a); lia).
  specialize (H1 Hj). specialize (H2 Ha). lia.
Qed.

(** ** Counting *)

(** How many attempts are at a stage. *)
Definition attempts_at (p : stage -> bool) s : nat := length (filter (fun ia => p (at_stage ia.2) = true) (tasks s)).

Lemma sum_over_attempts (f : attempt_task -> Z) (p : stage -> bool) (l : list (nat * attempt_task)) :
  (forall a, f a = if p (at_stage a) then 1 else 0)%Z ->
  sum_over f l = Z.of_nat (length (filter (fun ia => p (at_stage ia.2) = true) l)).
Proof using.
  intros Hf. induction l as [|[i a] l IH]; [done|]. rewrite sum_over_cons, IH, Hf, filter_cons. cbn [snd].
  destruct (p (at_stage a)); [rewrite decide_True by done|rewrite decide_False by done]; cbn [length]; lia.
Qed.

Definition is_over_tcp (st : stage) : bool := match st with Over_tcp | Over_encrypted => true | _ => false end.
Definition is_acquiring (st : stage) : bool := match st with Acquiring => true | _ => false end.
Definition is_over_utp (st : stage) : bool := match st with Over_utp _ => true | _ => false end.

(** The counters of reasons keep their names apart from the others. *)
Lemma dict_get_fold_counts (rs : list (string * Z)) k d :
  (forall r, String.append "fetch_fail_" r <> k) ->
  dict_get k (fold_left (fun d rc => dict_set (String.append "fetch_fail_" rc.1) rc.2 d) rs d) = dict_get k d.
Proof using.
  intros Hk. revert d. induction rs as [|[r n] rs IH]; intros d; cbn [fold_left fst snd]; [done|].
  rewrite IH, dict_get_set, decide_False; [done|]. intros ->. by eapply Hk.
Qed.

Lemma snapshot_counts_returns packets s :
  (active s <= max_connections opts)%Z -> exists counts, snapshot_counts opts packets s = Ok counts /\
    dict_get "fetch_connections"%string counts = Some (active s) /\
    dict_get "fetch_queue_size"%string counts = Some (waiting s).
Proof using Hopts.
  intros Ha. pose proof (options_positive opts Hopts) as [Hmax _]. unfold snapshot_counts.
  rewrite (proj2 (Z.leb_le 1 (max_connections opts))) by lia. cbn [assert_ mbind res_bind]. cbv zeta.
  match goal with |- context [fold_left ?f ?l ?d] => set (counts := fold_left f l d) end.
  assert (dict_get "fetch_connections"%string counts = Some (active s)) as Hc by (unfold counts; by rewrite dict_get_fold_counts).
  assert (dict_get "fetch_workers"%string counts = Some (max_connections opts)) as Hw
    by (unfold counts; by rewrite dict_get_fold_counts).
  assert (dict_get "fetch_queue_size"%string counts = Some (waiting s)) as Hq by (unfold counts; by rewrite dict_get_fold_counts).
  clearbody counts. rewrite Hc, Hw. unfold default, from_option, id. apply Z.leb_le in Ha. rewrite Ha. by exists counts.
Qed.

(** ** What [verified] counts *)

Abbreviation whatever := (fun (_ : exn) (_ : engine K) => True).

Definition counted (reason : string) s s' : Prop :=
  reasons s' = dict_set reason (default 0 (dict_get reason (reasons s)) + 1)%Z (reasons s).

Lemma counted_failed peer transport e s :
  tri (failed_outcome peer transport e) (fun r s' => r.1 = None /\ counted r.2 s s') whatever s.
Proof using.
  assert (forall reason s0, reasons s0 = reasons s -> tri (counted ← count_reason reason; mret (None, counted))
    (fun (r : attempt_outcome) s' => r.1 = None /\ counted r.2 s s') whatever s0) as Hcount.
  { intros reason s0 Hs. unfold count_reason, check. apply tri_bind, tri_bind, tri_call. destruct (assert_ _); [|done].
    cbn [returns]. apply tri_bind, tri_change, tri_ret, tri_ret. split; [done|]. unfold counted. cbn. by rewrite Hs. }
  unfold failed_outcome. destruct e; try (by apply Hcount). apply tri_bind.
  eapply (tri_mono _ (fun _ s' => reasons s' = reasons s) _ whatever); [|intros u s0 Hs; by apply Hcount|done].
  apply tri_when; intros _; [|done]. unfold remember_unreachable, remember_in. apply tri_bind, tri_reads, tri_bind.
  eapply (tri_mono _ (fun _ s' => reasons s' = reasons s) _ whatever); [|intros u s0 Hs|done].
  - assert (forall key expiry, tri (remember_in key expiry) (fun _ s' => reasons s' = reasons s) whatever s) as Hr.
    { intros key expiry. unfold remember_in. apply tri_bind, tri_reads, tri_bind, tri_call.
      by destruct (remember _ _ _ _) as [[? ?]|]. }
    destruct (bool_decide _); [apply Hr|]. apply tri_when; intros _; [apply Hr|done].
  - apply tri_bind, tri_reads. unfold check. apply tri_call. by destruct (assert_ _).
Qed.

Lemma counted_verified h peer fetch transport time s :
  tri (verified sha1 depth h peer fetch transport time) (fun r s' =>
    match r.1 with
    | Some m => r.2 = "ok"%string /\ reasons s' = reasons s
    | None => counted r.2 s s' /\ forall raw route info, fetch = Ok (raw, route) -> sha1 raw = h ->
        decode_bencode depth raw = Ok info -> exists e, summarize_info_dict h info time (Some peer) = Raise e
    end) whatever s.
Proof using.
  unfold verified, check. apply tri_bind, tri_call. destruct (assert_ _); [|done]. cbn [returns].
  apply tri_bind. eapply (tri_mono _ _ _ whatever); [|intros r s' Hr|done].
  2: { apply tri_bind, tri_call. destruct (assert_ _); [|done]. cbn [returns]. apply tri_ret. exact Hr. }
  apply tri_catch.
  assert (forall e, (forall raw route info, fetch = Ok (raw, route) -> sha1 raw = h ->
      decode_bencode depth raw = Ok info -> exists e, summarize_info_dict h info time (Some peer) = Raise e) ->
    tri (failed_outcome peer transport e) (fun r s' => match r.1 with
      | Some m => r.2 = "ok"%string /\ reasons s' = reasons s
      | None => counted r.2 s s' /\ forall raw route info, fetch = Ok (raw, route) -> sha1 raw = h ->
          decode_bencode depth raw = Ok info -> exists e, summarize_info_dict h info time (Some peer) = Raise e
      end) whatever s) as Hfail.
  { intros e He. eapply tri_mono; [apply counted_failed| |done]. intros r s' [-> Hc]. done. }
  destruct fetch as [[raw route]|e]; [|by apply Hfail].
  apply tri_bind, tri_ret. cbv beta iota. apply tri_bind, tri_when; intros Hsha.
  { apply negb_true_iff, bool_decide_eq_false in Hsha. apply tri_throw, Hfail. intros ? ? ? [= <- <-] ?. done. }
  apply tri_bind, tri_call. destruct (decode_bencode depth raw) as [info|e] eqn:Hd; cbn [returns].
  2: { apply Hfail. intros ? ? ? [= <- <-] _. by rewrite Hd. }
  apply tri_bind, tri_call. destruct (summarize_info_dict h info time (Some peer)) as [m|e] eqn:Hm; cbn [returns].
  2: { apply Hfail. intros ? ? ? [= <- <-] _. rewrite Hd. intros [= <-]. by exists e. }
  apply tri_bind, tri_change, tri_bind, tri_change, tri_ret. done.
Qed.
End engine.

(** ** Theorems *)

Section shared.
Context `{LowerCase} (sha1 : bytes -> bytes) (depth : nat) (opts : options) (lim : limits) (wall : nat -> Z)
  (others : nat -> catalog -> list (Z * CatalogTheorems.call)).

(** The states of the engine that shares an empty catalog with other threads. *)
Definition engine_runs_to (s : engine shared_catalog) : Prop :=
  engine_reachable (H := shared_fetches lim wall others) sha1 depth opts (Shared new_catalog 0) s.

(** The other threads make any calls that the rules allow, but leave the fetches
    to the engine. *)
Definition others_allowed : Prop :=
  forall n c, CatalogInvariant.inv lim c -> follows changes_fetches lim c (others n c).

(** The limits and the arguments are such that both constructors accept them. *)
Definition accepted : Prop :=
  options_ok opts = true /\ CatalogInvariant.limits_ok lim /\ (forall n, (0 <= wall n)%Z).

Lemma shared_new : fetches_shared lim (fun _ => False) (Shared new_catalog 0).
Proof. split; [apply inv_new_catalog|]. split; [done|]. by intros o e. Qed.

Lemma runs_to_ok s (Hacc : accepted) (Ho : others_allowed) :
  engine_runs_to s ->
  engine_ok (FL := shared_fetch_laws lim (proj1 (proj2 Hacc)) wall (proj2 (proj2 Hacc)) others Ho) opts None s.
Proof. intros Hs. eapply reachable_ok; [apply Hacc|apply shared_new|exact Hs]. Qed.

(** C14. The fetch engine and the catalog go together.  Whatever the peers, the
    fetches, the clock and the other threads do, every step of the engine
    returns: no assertion fails, no task ends with an exception nobody sees, and
    the catalog is in order.  No two jobs are for one torrent, and after every
    step the torrents being fetched in the catalog are exactly those that the
    engine has a job for, so that no claim is lost or given out twice. *)
Theorem engine_steps_return s ev :
  accepted -> others_allowed -> engine_runs_to s -> enabled s ev = true ->
  exists s', handle (H := shared_fetches lim wall others) sha1 depth opts ev s = (Ok tt, s') /\
    crashed s' = [] /\ CatalogInvariant.inv lim (contents (catalog_state s')) /\
    (forall id id' j j', dict_get id (jobs s') = Some j -> dict_get id' (jobs s') = Some j' ->
       job_hash j = job_hash j' -> id = id') /\
    forall h, fetching (contents (catalog_state s')) h <->
      exists id j, dict_get id (jobs s') = Some j /\ job_hash j = h.
Proof.
  intros Hacc Ho Hs He. pose proof (runs_to_ok s Hacc Ho Hs) as Hok.
  destruct (step_ok sha1 depth opts (proj1 Hacc) s ev Hok He) as (s' & Hh & _ & Hj & Hc & Hinv & Hex).
  exists s'. split; [exact Hh|]. split; [apply Hc|]. split; [exact Hinv|]. split; [apply (jo_hashes _ _ _ Hj)|].
  intros h. apply (exact_fetching lim _ _ Hinv Hex).
Qed.

(** C15. The engine comes to rest.  From any state it can come to, its jobs and
    attempts take a bounded number of steps among themselves, whatever order they
    come in: no more than the work left in that state.  When none of them can take
    a step any more no job is left and no torrent is being fetched in the
    catalog, so that [main] gets past its wait for the jobs. *)
Theorem engine_comes_to_rest s evs s' :
  accepted -> others_allowed -> engine_runs_to s ->
  steps (H := shared_fetches lim wall others) sha1 depth opts evs s s' -> Forall (fun ev => is_step ev = true) evs ->
  (Z.of_nat (length evs) <= work s)%Z /\
  ((forall ev, is_step ev = true -> enabled s' ev = false) ->
   jobs s' = [] /\ forall h, ~ fetching (contents (catalog_state s')) h).
Proof.
  intros Hacc Ho Hs Hst Hevs. pose proof (runs_to_ok s Hacc Ho Hs) as Hok.
  pose proof (steps_ok sha1 depth opts (proj1 Hacc) evs s s' Hst Hok) as Hok'. split.
  - pose proof (steps_lower_work sha1 depth opts (proj1 Hacc) evs s s' Hst Hok Hevs). pose proof (work_nonneg s'). lia.
  - intros Hend. destruct (decide (jobs s' = [])) as [Hj|Hj].
    + split; [done|]. intros h Hf. destruct Hok' as (_ & _ & _ & Hinv & Hex). apply (exact_fetching lim _ _ Hinv Hex) in Hf.
      destruct Hf as (id & j & Hg & _). by rewrite Hj in Hg.
    + destruct (job_moves opts (proj1 Hacc) s' Hok' Hj) as (ev & He & Hstep). by rewrite Hend in He.
Qed.

(** C16. The engine keeps to its limits, and its counters count.  In any state it
    can come to, the attempts that fetch over TCP are those counted in [active]
    and the ones that wait for a slot those counted in [waiting]; no more than
    [max_connections] fetch over TCP, no more than [UTP_MAX_CONNECTIONS] over
    uTP, and no job runs more than [peer_parallelism] at a time; the table of
    unreachable peers keeps to its size; and the statistics can be read. *)
Theorem engine_limits_kept s packets :
  accepted -> others_allowed -> engine_runs_to s ->
  active s = Z.of_nat (attempts_at is_over_tcp s) /\ waiting s = Z.of_nat (attempts_at is_acquiring s) /\
  (active s <= max_active s <= max_connections opts)%Z /\
  (Z.of_nat (attempts_at is_over_utp s) <= UTP_MAX_CONNECTIONS)%Z /\
  (forall id j, dict_get id (jobs s) = Some j -> (Z.of_nat (length (job_running j)) <= peer_parallelism opts)%Z) /\
  length (unreachable s) <= UNREACHABLE_ENTRIES /\
  exists counts, snapshot_counts opts packets s = Ok counts /\
    dict_get "fetch_connections"%string counts = Some (active s) /\
    dict_get "fetch_queue_size"%string counts = Some (waiting s).
Proof.
  intros Hacc Ho Hs. destruct (runs_to_ok s Hacc Ho Hs) as (Hsl & Hj & (_ & [_ Hun] & _) & _).
  assert (forall (p : stage -> bool) (f : attempt_task -> Z), (forall a, f a = if p (at_stage a) then 1 else 0)%Z ->
    sum_over f (tasks s) = Z.of_nat (attempts_at p s)) as Hsum by (intros p f; apply sum_over_attempts).
  rewrite <-(Hsum is_over_tcp over_slot), <-(Hsum is_acquiring at_acquire), <-(Hsum is_over_utp over_utp)
    by (intros a; unfold over_slot, at_acquire, over_utp; by destruct (at_stage a)).
  pose proof (so_max _ _ Hsl) as Hmax. split; [apply (so_active _ _ Hsl)|]. split; [apply (so_waiting _ _ Hsl)|].
  split; [done|]. split.
  { pose proof (so_utp _ _ Hsl) as Hu. destruct (utp_slots s) as [sem|]; [lia|]. rewrite Hu. done. }
  split; [intros id j Hg; by apply (jo_loose _ _ _ Hj id j)|]. split; [exact Hun|].
  apply snapshot_counts_returns; [apply Hacc|lia].
Qed.

(** C17. Only what hashes to the info hash is taken for the torrent's metadata.
    Whatever a fetch comes to, [verified] returns an outcome and never raises; the
    outcome holds metadata exactly when the fetch returned bytes whose SHA-1 is
    the info hash, that decode and that have a valid summary, and the metadata is
    then that summary, with the peer as its source; else a reason is counted. *)
Theorem verified_exact s h peer fetch transport time :
  accepted -> others_allowed -> engine_runs_to s ->
  length h = NODE_ID_LENGTH -> (0 <= time)%Z -> transport ∈ ["tcp"; "utp"]%string ->
  (match fetch with Raise e => fetch_result_ok (Raise e) = true | Ok _ => True end) ->
  exists outcome reason s', verified sha1 depth h peer fetch transport time s = (Ok (outcome, reason), s') /\
    (forall m, outcome = Some m <-> exists raw route info, fetch = Ok (raw, route) /\ sha1 raw = h /\
       decode_bencode depth raw = Ok info /\ summarize_info_dict h info time (Some peer) = Ok m) /\
    match outcome with
    | Some m => reason = "ok"%string /\ md_info_hash m = h /\ md_source_peer m = Some peer /\ reasons s' = reasons s
    | None => reason <> "ok"%string /\
        reasons s' = dict_set reason (default 0 (dict_get reason (reasons s)) + 1)%Z (reasons s)
    end.
Proof.
  intros Hacc Ho Hs Hh Ht Htr Hf. pose proof (runs_to_ok s Hacc Ho Hs) as Hok.
  assert (forall e, fetch = Raise e -> fetch_raises e) as Hraises.
  { intros e ->. intros reason ->. by apply bool_decide_eq_true in Hf. }
  pose proof (quietly_verified sha1 depth h peer fetch transport time Hh Ht Htr Hraises s (proj1 (proj2 (proj2 Hok)))) as H1.
  pose proof (counted_verified sha1 depth h peer fetch transport time s) as H2. unfold tri in H1, H2.
  destruct (verified _ _ _ _ _ _ _ s) as [[[outcome reason]|e] s']; [|done]. exists outcome, reason, s'. split; [done|].
  destruct H1 as [H1 _]. unfold verified_ok in H1. cbn [fst snd] in H1, H2. destruct outcome as [m|].
  - destruct H1 as (Hm & Hmh & Hmp & raw & route & info & Hraw & Hsha & Hdec & Hsum). split; [|by destruct H2].
    intros m'. split; [intros [= <-]; by exists raw, route, info|]. intros (raw' & route' & info' & E1 & E2 & E3 & E4).
    simplify_eq. congruence.
  - destruct H2 as [Hc Hno]. split; [|done]. intros m. split; [done|].
    intros (raw & route & info & E1 & E2 & E3 & E4). destruct (Hno raw route info E1 E2 E3) as [e He]. congruence.
Qed.
End shared.

(** ** Examples *)

Definition example_options : options :=
  Options 1 PEER_PARALLELISM STAGGER_SECONDS LOCAL_ERROR_PAUSE_SECONDS true true UTP_AFTER_REASONS.
Definition example_raw : bytes := bs "d6:lengthi5e4:name1:x12:piece lengthi16384e6:pieces20:aaaaaaaaaaaaaaaaaaaae".
Definition example_digest (data : bytes) : bytes := take 20 (data ++ bs "12345678901234567890").
Definition example_torrent : bytes := example_digest example_raw.

(** The first call of the engine finds a sighting that another thread recorded. *)
Definition example_sightings (n : nat) (c : catalog) : list (Z * CatalogTheorems.call) :=
  if decide (n = 0) then [(0%Z, Record_hash example_torrent SOURCE_ANNOUNCE_PEER (Some peer_a))] else [].

Lemma example_sightings_ok : others_allowed default_limits example_sightings.
Proof. intros n c _. unfold example_sightings. case_decide; [|done]. by repeat split. Qed.

Lemma example_accepted : accepted example_options default_limits (fun _ => 0%Z).
Proof. split; [done|]. split; [apply default_limits_ok|lia]. Qed.

#[local] Existing Instance ascii_lower.
#[local] Instance example_fetches : FetchCatalog shared_catalog :=
  shared_fetches default_limits (fun _ => 0%Z) example_sightings.

Definition example_start : engine shared_catalog :=
  Engine (Shared new_catalog 0) 0 (Semaphore 1 []) (Some (Semaphore UTP_MAX_CONNECTIONS []))
    0 0 0 0 0 0 0 [] 0 0 0 0 [] [] [] 0 0 false [].

Definition example_after (evs : list event) : engine shared_catalog :=
  default example_start (replay example_digest 100 example_options evs example_start).

(** The torrent is claimed, and its one peer is fetched from. *)
Definition example_fetching : engine shared_catalog :=
  example_after [Main_wakes false; Job_starts 0; Attempt_starts 0].
Definition example_end : list event := [Fetch_ended 0 (Ok example_raw) 0; Job_wakes 0 [0]].
Definition example_rest : engine shared_catalog :=
  default example_fetching (replay example_digest 100 example_options example_end example_fetching).

Lemma example_replayed evs s :
  is_Some (replay example_digest 100 example_options evs s) ->
  steps example_digest 100 example_options evs s (default s (replay example_digest 100 example_options evs s)).
Proof. intros [s' Hs]. rewrite Hs. by eapply replay_steps. Qed.

Lemma example_runs : engine_runs_to example_digest 100 example_options default_limits (fun _ => 0%Z) example_sightings
  example_fetching.
Proof.
  exists 0%Z, true, example_start, [Main_wakes false; Job_starts 0; Attempt_starts 0].
  split; [reflexivity|]. apply example_replayed. vm_compute. by eexists.
Qed.

Lemma engine_steps_return_witness :
  exists s', handle example_digest 100 example_options (Fetch_ended 0 (Ok example_raw) 0) example_fetching = (Ok tt, s') /\
    crashed s' = [] /\ fetching (contents (catalog_state s')) example_torrent.
Proof.
  destruct (engine_steps_return example_digest 100 example_options default_limits (fun _ => 0%Z) example_sightings
    example_fetching (Fetch_ended 0 (Ok example_raw) 0) example_accepted example_sightings_ok example_runs
    ltac:(vm_compute; reflexivity)) as (s' & Hs & Hc & _ & _ & Hf).
  exists s'. split; [exact Hs|]. split; [exact Hc|]. apply Hf.
  pose proof (f_equal (fun r => job_hash <$> dict_get 0 (jobs r.2)) Hs) as Hj. cbn [snd] in Hj.
  assert (job_hash <$> dict_get 0 (jobs s') = Some example_torrent) as Hg by (rewrite <-Hj; vm_compute; reflexivity).
  destruct (dict_get 0 (jobs s')) as [j|] eqn:He; [|discriminate Hg]. exists 0, j. split; [exact He|]. by injection Hg.
Defined.

Lemma engine_comes_to_rest_witness :
  (2 <= work example_fetching)%Z /\ forall h, ~ fetching (contents (catalog_state example_rest)) h.
Proof.
  destruct (engine_comes_to_rest example_digest 100 example_options default_limits (fun _ => 0%Z) example_sightings
    example_fetching example_end example_rest example_accepted example_sightings_ok example_runs) as [Hw Hrest].
  - apply example_replayed. vm_compute. by eexists.
  - by repeat constructor.
  - split; [exact Hw|]. apply Hrest.
    assert (jobs example_rest = []) as Hj by (vm_compute; reflexivity).
    assert (tasks example_rest = []) as Ht by (vm_compute; reflexivity).
    intros ev Hev. by destruct ev; cbn [enabled]; rewrite ?Hj, ?Ht.
Defined.

Lemma engine_limits_kept_witness :
  active example_fetching = 1%Z /\ (max_active example_fetching <= 1)%Z.
Proof.
  destruct (engine_limits_kept example_digest 100 example_options default_limits (fun _ => 0%Z) example_sightings
    example_fetching 0 example_accepted example_sightings_ok example_runs) as (Ha & _ & [_ Hm] & _).
  split; [|exact Hm]. rewrite Ha. vm_compute. reflexivity.
Defined.

Lemma verified_exact_witness :
  exists m reason s', verified example_digest 100 example_torrent peer_a (Ok (example_raw, "tcp"%string)) "tcp" 0
      example_fetching = (Ok (Some m, reason), s') /\ reason = "ok"%string /\ md_info_hash m = example_torrent.
Proof.
  destruct (verified_exact example_digest 100 example_options default_limits (fun _ => 0%Z) example_sightings
    example_fetching example_torrent peer_a (Ok (example_raw, "tcp"%string)) "tcp" 0 example_accepted
    example_sightings_ok example_runs) as (outcome & reason & s' & Hv & _ & Hm).
  - reflexivity.
  - lia.
  - left.
  - exact I.
  - assert (is_Some outcome) as [m ->].
    { apply (f_equal (fun r => match r.1 with Ok (Some _, _) => true | _ => false end)) in Hv.
      destruct outcome as [m|]; [by exists m|]. vm_compute in Hv. discriminate Hv. }
    exists m, reason, s'. split; [exact Hv|]. split; apply Hm.
Defined.
