(* ===== verification/TypoIndex.v ===== *)
(** The functions of [torrent_database.py] on texts: the terms of a text, the
    neighbours of a term by one deletion that the typo index stores, the test for
    one edit, the lookup of misspelt terms, and the text of the queries.

    A term is a list of code points.  What the interpreter knows of Unicode is the
    class [TextFunctions]. *)
From S2P Require Import Prelude PyDict Bencode TorrentInfo.

Definition MIN_TERM_LENGTH : nat := 3.
Definition MAX_TERM_LENGTH : nat := 32.
Definition MIN_TYPO_LENGTH : nat := 4.
Definition MAX_TYPO_TERMS : nat := 20.
Definition MAX_QUERY_TERMS : nat := 16.

(** The code points of ASCII text. *)
Definition chars (s : string) : list Z := b2z <$> bs s.

(** [unicodedata.normalize("NFKD", text)], [unicodedata.combining], the case
    folding of one character ([str.casefold] folds each by itself), whether a
    character matches [\w] and is no underscore, and [str.isdigit] of one.
    Folding keeps at least one character and folds nothing twice; the characters
    of the query language are no part of words. *)
Class TextFunctions := {
  nfkd : list Z -> list Z;
  combining : Z -> bool;
  fold_char : Z -> list Z;
  is_word : Z -> bool;
  is_digit_char : Z -> bool;
  fold_char_some c : fold_char c <> [];
  fold_char_folded c d : d ∈ fold_char c -> fold_char d = [d];
  is_word_query c : c ∈ [40; 41; 42; 34; 58]%Z -> is_word c = false }.

(** An instance: ASCII text. *)
Definition ascii_word (c : Z) : bool :=
  (((48 <=? c) && (c <=? 57)) || ((65 <=? c) && (c <=? 90)) || ((97 <=? c) && (c <=? 122)))%Z.
Definition ascii_digit (c : Z) : bool := ((48 <=? c) && (c <=? 57))%Z.
#[local, refine] Instance ascii_text : TextFunctions := {
  nfkd s := s; combining _ := false; fold_char c := [ascii_lower_char c]; is_word := ascii_word; is_digit_char := ascii_digit }.
Proof.
  - done.
  - intros c d ->%list_elem_of_singleton. unfold ascii_lower_char.
    destruct ((65 <=? c) && (c <=? 90))%Z eqn:Hc; [|by rewrite Hc].
    destruct ((65 <=? c + 32) && (c + 32 <=? 90))%Z eqn:Hd; [lia|done].
  - intros c Hc. rewrite !elem_of_cons in Hc. destruct Hc as [->|[->|[->|[->|[->|[]%elem_of_nil]]]]]; done.
Defined.

(** ** Terms *)

(** [sorted] of texts goes by code point. *)
Definition text_leb : list Z -> list Z -> bool := lex_leb.

Section terms.
Context `{TextFunctions}.

Definition casefold (s : list Z) : list Z := concat (fold_char <$> s).

(** [TERM_PATTERN.findall]: the longest runs of word characters. *)
Fixpoint findall (s : list Z) : list (list Z) :=
  match s with
  | [] => []
  | c :: s' =>
      let rest := findall s' in
      let continues := match s' with d :: _ => is_word d | [] => false end in
      if is_word c then
        match continues, rest with
        | true, t :: ts => (c :: t) :: ts
        | _, _ => [c] :: rest
        end
      else rest
  end.

Definition text_terms (text : list Z) : res (list (list Z)) :=
  let decomposed := nfkd text in
  let stripped := filter (fun character => combining character = false) decomposed in
  let result := findall (casefold stripped) in
  assert_ (forallb (fun term => bool_decide (term = casefold term)) result) ;;
  mret result.

(** [deletions]: a set, here without duplicates and in the order of [sorted]. *)
Definition sorted_set (l : list (list Z)) : list (list Z) := sort_by text_leb (remove_dups l).
Definition deletions (term : list Z) : res (list (list Z)) :=
  assert_ (bool_decide (1 <= length term)) ;;
  let result := sorted_set ((fun index => take index term ++ drop (index + 1) term) <$> seq 0 (length term)) in
  assert_ (forallb (fun variant => bool_decide (length variant + 1 = length term)) result) ;;
  mret result.

(** The [while] loop of [within_one_edit]: where the shorter text stops being the
    beginning of the longer. *)
Fixpoint common_prefix (shorter longer : list Z) : nat :=
  match shorter, longer with
  | a :: shorter', b :: longer' => if bool_decide (a = b) then S (common_prefix shorter' longer') else 0
  | _, _ => 0
  end.

Definition within_one_edit (first second : list Z) : bool :=
  if bool_decide (1 < (length first - length second) + (length second - length first)) then false
  else if bool_decide (length first = length second) then
    let differences := filter (fun index => first !! index <> second !! index) (seq 0 (length first)) in
    let swapped := match differences with
      | [i; j] => bool_decide (j = i + 1) && bool_decide (first !! i = second !! j) && bool_decide (first !! j = second !! i)
      | _ => false end in
    bool_decide (length differences <= 1) || swapped
  else
    let '(shorter, longer) := if bool_decide (length first < length second) then (first, second) else (second, first) in
    let index := common_prefix shorter longer in
    bool_decide (drop index shorter = drop (index + 1) longer).

(** Rows of the table [terms]: a variant and the term it comes from. *)
Definition term_row : Type := list Z * list Z.

Definition rows_of_term (term : list Z) : res (list term_row) :=
  if bool_decide (MIN_TERM_LENGTH <= length term <= MAX_TERM_LENGTH) then
    variants ← deletions term;
    mret ((term, term) :: ((fun variant => (variant, term)) <$> variants))
  else mret [].
Definition term_rows (terms : list (list Z)) : res (list term_row) :=
  rows ← sequence (rows_of_term <$> sorted_set terms);
  mret (concat rows).

(** [typo_terms] on the table [terms]: the query reads the terms of the variants,
    each once, in the order of their bytes in UTF-8, which is that of code
    points. *)
Definition no_typo_lookup (term : list Z) : bool :=
  bool_decide (length term < MIN_TYPO_LENGTH) || (negb (bool_decide (term = [])) && forallb is_digit_char term).
Definition typo_terms (table : list term_row) (term : list Z) : res (list (list Z)) :=
  if no_typo_lookup term then mret []
  else
    neighbours ← deletions term;
    let variants := sorted_set (term :: neighbours) in
    let rows := sorted_set (filter (fun row => row.1 ∈ variants) table).*2 in
    let result := take MAX_TYPO_TERMS (filter (fun row => row <> term /\ within_one_edit term row = true) rows) in
    assert_ (bool_decide (length result <= MAX_TYPO_TERMS)) ;;
    mret result.

(** ** Queries *)

Definition quoted (term : list Z) : list Z := [34%Z] ++ term ++ [34%Z].

(** [match_expression]: a group per term, of the term and its alternatives; the
    last term stands for all words that begin with it. *)
Definition match_group (last : bool) (term : list Z) (others : list (list Z)) : list Z :=
  chars "(" ++ join_text (chars " OR ") ((quoted term ++ if last then chars "*" else []) :: (quoted <$> others)) ++ chars ")".
Definition match_expression (terms : list (list Z)) (alternatives : option (list (list (list Z)))) : res (list Z) :=
  assert_ (bool_decide (1 <= length terms) &&
           match alternatives with Some l => bool_decide (length l = length terms) | None => true end) ;;
  let groups := imap (fun position term =>
    match_group (bool_decide (position = length terms - 1)) term
      (match alternatives with Some l => default [] (l !! position) | None => [] end)) terms in
  let result := join_text (chars " AND ") groups in
  assert_ (bool_decide (length (filter (fun c => c ∈ chars "(") result) = length terms)) ;;
  mret result.
End terms.

(** ** Sorted lists without duplicates *)

Lemma StronglySorted_filter {A} (R : A -> A -> Prop) (P : A -> Prop) `{!forall x, Decision (P x)} (l : list A) :
  StronglySorted R l -> StronglySorted R (filter P l).
Proof.
  induction 1 as [|x l Hs IH Hx]; [constructor|]. rewrite filter_cons. case_decide; [|done]. constructor; [done|].
  rewrite Forall_forall in *. intros y [_ Hy]%list_elem_of_filter. auto.
Qed.

Lemma elem_of_sorted_set x l : x ∈ sorted_set l <-> x ∈ l.
Proof. unfold sorted_set. by rewrite elem_of_sort_by, elem_of_remove_dups. Qed.

(** [sorted] of a set lists it in strictly increasing order. *)
Definition text_lt (s t : list Z) : Prop := text_leb s t = true /\ s <> t.

Lemma sorted_set_increasing l : StronglySorted text_lt (sorted_set l).
Proof.
  unfold sorted_set. assert (NoDup (sort_by text_leb (remove_dups l))) as Hnd
    by (rewrite sort_by_Permutation; apply NoDup_remove_dups).
  pose proof (sort_by_Sorted text_leb lex_leb_total lex_leb_trans (remove_dups l)) as Hs. revert Hnd Hs.
  generalize (sort_by text_leb (remove_dups l)). intros k Hnd. induction 1 as [|x k Hs IH Hx]; [constructor|].
  apply NoDup_cons in Hnd as [Hn Hnd]. constructor; [by apply IH|]. rewrite Forall_forall in *.
  intros y Hy. split; [by apply Hx|]. by intros ->.
Qed.

(** ** One edit *)

(** At most one character was replaced, left out, added or swapped with the next
    one. *)
Inductive one_edit : list Z -> list Z -> Prop :=
  | edit_none s : one_edit s s
  | edit_replace s c d t : one_edit (s ++ c :: t) (s ++ d :: t)
  | edit_swap s c d t : one_edit (s ++ c :: d :: t) (s ++ d :: c :: t)
  | edit_leave_out s c t : one_edit (s ++ c :: t) (s ++ t)
  | edit_add s c t : one_edit (s ++ t) (s ++ c :: t).

Lemma common_prefix_le s l : common_prefix s l <= length s.
Proof.
  revert l. induction s as [|a s IH]; intros [|b l]; cbn [common_prefix length]; try lia.
  case_bool_decide; [|lia]. specialize (IH l). lia.
Qed.

Lemma take_common_prefix s l : take (common_prefix s l) s = take (common_prefix s l) l.
Proof.
  revert l. induction s as [|a s IH]; intros [|b l]; cbn [common_prefix]; try done.
  case_bool_decide; [|done]. subst b. cbn [take]. by rewrite IH.
Qed.

(** The loop finds the place of a character left out, or an earlier one where
    leaving it out gives the same. *)
Lemma drop_common_prefix s c t :
  drop (common_prefix (s ++ t) (s ++ c :: t)) (s ++ t) = drop (common_prefix (s ++ t) (s ++ c :: t) + 1) (s ++ c :: t).
Proof.
  induction s as [|a s IH]; cbn [app common_prefix].
  - revert c. induction t as [|b t IH]; intros c; cbn [common_prefix]; [done|].
    case_bool_decide; [|done]. subst b. cbn [drop Nat.add]. apply IH.
  - rewrite bool_decide_eq_true_2 by done. cbn [drop Nat.add]. exact IH.
Qed.

Lemma longer_by_one shorter longer :
  length longer = length shorter + 1 ->
  drop (common_prefix shorter longer) shorter = drop (common_prefix shorter longer + 1) longer <->
  exists s c t, shorter = s ++ t /\ longer = s ++ c :: t.
Proof.
  intros Hlen. split.
  - intros Hd. set (n := common_prefix shorter longer) in *.
    pose proof (common_prefix_le shorter longer) as Hn. fold n in Hn.
    destruct (lookup_lt_is_Some_2 longer n) as [c Hc]; [lia|].
    exists (take n shorter), c, (drop n shorter). split; [by rewrite take_drop|].
    unfold n at 1. rewrite take_common_prefix. fold n. rewrite Hd, Nat.add_1_r.
    by rewrite (take_drop_middle longer n c Hc).
  - intros (s & c & t & -> & ->). apply drop_common_prefix.
Qed.

(** The places where two texts differ. *)
Definition differences (s t : list Z) : list nat := filter (fun index => s !! index <> t !! index) (seq 0 (length s)).

Lemma differences_cons a s b t :
  differences (a :: s) (b :: t) = (if decide (a = b) then [] else [0]) ++ (S <$> differences s t).
Proof.
  unfold differences. cbn [length seq]. rewrite filter_cons. cbn [lookup list_lookup].
  assert (forall k n, filter (fun i => (a :: s) !! i <> (b :: t) !! i) (seq (S k) n) =
    S <$> filter (fun i => s !! i <> t !! i) (seq k n)) as Hseq.
  { intros k n. revert k. induction n as [|n IH]; intros k; [done|]. cbn [seq]. rewrite !filter_cons, IH.
    cbn [lookup list_lookup]. by destruct (decide (s !! k <> t !! k)). }
  rewrite Hseq. destruct (decide (a = b)) as [->|Hab].
  - by rewrite decide_False by (intros []; done).
  - by rewrite decide_True by congruence.
Qed.

Lemma differences_nil s t : length s = length t -> differences s t = [] <-> s = t.
Proof.
  revert t. induction s as [|a s IH]; intros [|b t]; cbn [length]; try done. intros Hl. rewrite differences_cons.
  destruct (decide (a = b)) as [->|Hab]; cbn [app].
  - split; [intros Hn%fmap_nil_inv; apply IH in Hn as ->; [done|lia]|].
    intros [= Hst]. apply IH in Hst as ->; [done|lia].
  - split; [done|]. intros [= ]. done.
Qed.

(** One difference, or two in a row with the characters swapped. *)
Lemma differences_one s t : length s = length t ->
  length (differences s t) <= 1 <-> s = t \/ exists u c d v, s = u ++ c :: v /\ t = u ++ d :: v.
Proof.
  revert t. induction s as [|a s IH]; intros [|b t]; cbn [length]; try done.
  { intros _. split; [by left|cbn; lia]. }
  intros Hl. rewrite differences_cons. destruct (decide (a = b)) as [->|Hab]; cbn [app].
  - rewrite length_fmap, IH by lia. split.
    + intros [->|(u & c & d & v & -> & ->)]; [by left|]. right. by exists (b :: u), c, d, v.
    + intros [[= ->]|([|x u] & c & d & v & [= ] & [= ])]; [by left|left; congruence|right]. subst. by exists u, c, d, v.
  - cbn [length]. rewrite length_fmap. split.
    + intros Hle. right. assert (differences s t = []) as Hn by (apply length_zero_iff_nil; lia).
      apply differences_nil in Hn as ->; [|lia]. by exists [], a, b, t.
    + intros [[= ]|([|x u] & c & d & v & [= ] & [= ])]; [done| |congruence]. subst.
      assert (differences v v = []) as -> by by apply differences_nil. cbn. lia.
Qed.

Lemma differences_elem s t k : k ∈ differences s t <-> s !! k <> t !! k /\ k < length s.
Proof. unfold differences. rewrite list_elem_of_filter, elem_of_seq. split; (intros [? ?]; split; [done|lia]). Qed.

Lemma same_elsewhere s t k : length s = length t -> k ∉ differences s t -> s !! k = t !! k.
Proof.
  intros Hl Hk. destruct (decide (s !! k = t !! k)) as [|Hd]; [done|]. exfalso. apply Hk, differences_elem. split; [done|].
  destruct (decide (k < length s)) as [|Hge]; [done|]. by rewrite (lookup_ge_None_2 s k), (lookup_ge_None_2 t k) in Hd by lia.
Qed.

Lemma split_two (s : list Z) i c d :
  s !! i = Some c -> s !! (i + 1) = Some d -> s = take i s ++ c :: d :: drop (i + 2) s.
Proof.
  intros Hc Hd. rewrite <-(take_drop_middle s i c Hc) at 1. do 2 f_equal.
  rewrite <-(take_drop_middle (drop (S i) s) 0 d) at 1; [|by rewrite lookup_drop, Nat.add_0_r, <-Nat.add_1_r].
  cbn [take app]. f_equal. rewrite drop_drop. by replace (S i + 1) with (i + 2) by lia.
Qed.

Lemma differences_app u s t : differences (u ++ s) (u ++ t) = Nat.add (length u) <$> differences s t.
Proof.
  induction u as [|a u IH]; cbn [app length]; [by rewrite list_fmap_id|].
  rewrite differences_cons, decide_True, IH by done. cbn [app]. rewrite <-list_fmap_compose. by apply list_fmap_ext.
Qed.

Lemma differences_swap u c d v :
  differences (u ++ c :: d :: v) (u ++ d :: c :: v) = if decide (c = d) then [] else [length u; length u + 1].
Proof.
  rewrite differences_app, !differences_cons.
  assert (differences v v = []) as -> by by apply differences_nil.
  destruct (decide (c = d)) as [->|Hcd]; [by rewrite decide_True|]. rewrite decide_False by congruence.
  cbn. by rewrite Nat.add_0_r.
Qed.

Lemma swapped_iff s t i j :
  length s = length t -> differences s t = [i; j] ->
  j = i + 1 /\ s !! i = t !! j /\ s !! j = t !! i <-> exists u c d v, s = u ++ c :: d :: v /\ t = u ++ d :: c :: v.
Proof.
  intros Hl Hd. assert (forall k, k <> i -> k <> j -> s !! k = t !! k) as Hsame.
  { intros k Hi Hj. apply same_elsewhere; [done|]. rewrite Hd, !elem_of_cons. intros [?|[?|[]%elem_of_nil]]; done. }
  assert (i ∈ differences s t /\ j ∈ differences s t) as [[Hi Hil]%differences_elem [Hj Hjl]%differences_elem]
    by (rewrite Hd; split; [left|right; left]).
  split.
  - intros (-> & H1 & H2). destruct (lookup_lt_is_Some_2 s i Hil) as [c Hc]. destruct (lookup_lt_is_Some_2 s (i + 1) Hjl) as [d He].
    exists (take i s), c, d, (drop (i + 2) s). split; [by apply split_two|].
    rewrite (split_two t i d c) by congruence. f_equal; [|do 2 f_equal]; apply list_eq; intros k.
    + destruct (decide (k < i)) as [Hk|Hk]; [rewrite !lookup_take_lt by done; symmetry; apply Hsame; lia|].
      by rewrite !lookup_ge_None_2 by (rewrite length_take; lia).
    + rewrite !lookup_drop. symmetry. apply Hsame; lia.
  - intros (u & c & d & v & -> & ->). rewrite differences_swap in Hd. destruct (decide (c = d)); [done|].
    injection Hd as <- <-. split; [done|]. rewrite !lookup_app_r by lia. rewrite !Nat.sub_diag.
    by replace (length u + 1 - length u) with 1 by lia.
Qed.

Lemma length_one_edit s t : one_edit s t -> length s <= length t + 1 /\ length t <= length s + 1.
Proof. intros []; rewrite ?length_app; cbn [length]; lia. Qed.

Lemma one_edit_same_length s t : length s = length t ->
  one_edit s t <-> length (differences s t) <= 1 \/ exists u c d v, s = u ++ c :: d :: v /\ t = u ++ d :: c :: v.
Proof.
  intros Hl. rewrite differences_one by done. split.
  - destruct 1; [left; by left|left; right; eauto 10|right; eauto 10|..];
      rewrite !length_app in Hl; cbn [length] in Hl; lia.
  - intros [[->|(u & c & d & v & -> & ->)]|(u & c & d & v & -> & ->)]; constructor.
Qed.

Lemma one_edit_shorter s t : length t = length s + 1 ->
  one_edit s t <-> exists u c v, s = u ++ v /\ t = u ++ c :: v.
Proof.
  intros Hl. split; [|intros (u & c & v & -> & ->); constructor].
  destruct 1; rewrite ?length_app in Hl; cbn [length] in Hl; try lia. eauto.
Qed.

Lemma one_edit_sym s t : one_edit s t -> one_edit t s.
Proof. destruct 1; constructor. Qed.

Lemma within_one_edit_spec s t : within_one_edit s t = true <-> one_edit s t.
Proof.
  unfold within_one_edit. case_bool_decide as Hfar.
  { split; [done|]. intros H%length_one_edit. lia. }
  case_bool_decide as Hl.
  - rewrite (one_edit_same_length s t Hl). fold (differences s t). rewrite orb_true_iff, bool_decide_eq_true.
    destruct (differences s t) as [|i [|j [|k l]]] eqn:Hd; cbn [length]; try (split; [intros [?|?]; [by left|done]|left; lia]).
    + rewrite !andb_true_iff, !bool_decide_eq_true, <-(swapped_iff s t i j Hl Hd). naive_solver.
    + split; [intros [?|?]; [lia|done]|]. intros [?|(u & c & d & v & -> & ->)]; [lia|]. exfalso.
      rewrite differences_swap in Hd. by destruct (decide (c = d)).
  - case_bool_decide as Hlt.
    + rewrite bool_decide_eq_true. rewrite longer_by_one by lia. by rewrite one_edit_shorter by lia.
    + rewrite bool_decide_eq_true. rewrite longer_by_one by lia. rewrite <-one_edit_shorter by lia.
      split; apply one_edit_sym.
Qed.

(** ** The typo index *)

(** [v] is [t] without one character. *)
Definition deletes (t v : list Z) : Prop := exists u c w, t = u ++ c :: w /\ v = u ++ w.

Lemma deletes_length t v : deletes t v -> length v + 1 = length t.
Proof. intros (u & c & w & -> & ->). rewrite !length_app. cbn [length]. lia. Qed.

Lemma deletions_exact t : t <> [] -> exists l, deletions t = Ok l /\ forall v, v ∈ l <-> deletes t v.
Proof.
  intros Ht. set (l := (fun index => take index t ++ drop (index + 1) t) <$> seq 0 (length t)).
  assert (forall v, v ∈ l <-> deletes t v) as Hl.
  { intros v. unfold l. rewrite list_elem_of_fmap. split.
    - intros (i & -> & Hi%elem_of_seq). destruct (lookup_lt_is_Some_2 t i) as [c Hc]; [lia|].
      exists (take i t), c, (drop (i + 1) t). split; [|done]. by rewrite Nat.add_1_r, take_drop_middle.
    - intros (u & c & w & -> & ->). exists (length u). rewrite elem_of_seq, length_app. cbn [length]. split; [|lia].
      by rewrite take_app_length, drop_app_ge, Nat.add_sub' by lia. }
  exists (sorted_set l). split; [|intros v; by rewrite elem_of_sorted_set].
  unfold deletions. fold l. destruct t as [|c t]; [done|]. rewrite bool_decide_eq_true_2 by (cbn [length]; lia).
  cbn [assert_ mbind res_bind]. rewrite (proj2 (forallb_forall _ _)); [done|].
  intros v Hv%list_elem_of_In%elem_of_sorted_set%Hl%deletes_length. by apply bool_decide_eq_true.
Qed.

(** Two terms within one edit have a variant in common. *)
Lemma variant_in_common s t : one_edit s t ->
  exists v, (v = s \/ deletes s v) /\ (v = t \/ deletes t v).
Proof.
  destruct 1 as [s|s c d t|s c d t|s c t|s c t].
  - exists s. split; by left.
  - exists (s ++ t). split; right; by eexists _, _, _.
  - exists (s ++ d :: t). split; right; [by exists s, c, (d :: t)|].
    exists (s ++ [d]), c, t. by rewrite <-!app_assoc.
  - exists (s ++ t). split; [right; by exists s, c, t|by left].
  - exists (s ++ t). split; [by left|right; by exists s, c, t].
Qed.

Definition indexed_length (t : list Z) : Prop := MIN_TERM_LENGTH <= length t <= MAX_TERM_LENGTH.

(** The table holds the variants of the given terms, as far as their length is
    indexed. *)
Definition indexes (T : list Z -> Prop) (table : list term_row) : Prop := forall v t,
  (v, t) ∈ table <-> T t /\ indexed_length t /\ (v = t \/ deletes t v).

Lemma sequence_fmap_Ok {A B} (f : A -> res B) (Q : A -> B -> Prop) l :
  (forall x, x ∈ l -> exists y, f x = Ok y /\ Q x y) ->
  exists ys, sequence (f <$> l) = Ok ys /\ Forall2 Q l ys.
Proof.
  induction l as [|x l IH]; intros Hf; [by exists []|]. destruct (Hf x) as (y & Hy & HQ); [left|].
  destruct IH as (ys & Hys & Hall); [intros z Hz; apply Hf; by right|]. exists (y :: ys).
  rewrite fmap_cons. cbn [sequence]. rewrite Hy, Hys. split; [done|by constructor].
Qed.

Lemma elem_of_concat_Forall2 {A B} (Q : A -> list B -> Prop) l ys b :
  Forall2 Q l ys -> b ∈ concat ys <-> exists x y, x ∈ l /\ Q x y /\ y ∈ ys /\ b ∈ y.
Proof.
  intros Hall. rewrite list_elem_of_In, in_concat. split.
  - intros (y & Hy%list_elem_of_In & Hb%list_elem_of_In). apply list_elem_of_lookup in Hy as [i Hi].
    destruct (Forall2_lookup_r _ _ _ _ _ Hall Hi) as (x & Hx & HQ). exists x, y.
    split; [by eapply list_elem_of_lookup_2|]. split; [done|]. split; [by eapply list_elem_of_lookup_2|done].
  - intros (x & y & _ & _ & Hy & Hb). exists y. by rewrite <-!list_elem_of_In.
Qed.

Lemma term_rows_exact ts : exists rows, term_rows ts = Ok rows /\ indexes (fun t => t ∈ ts) rows.
Proof.
  unfold term_rows.
  destruct (sequence_fmap_Ok rows_of_term (fun term (rows : list term_row) => forall v t, (v, t) ∈ rows <->
      t = term /\ indexed_length t /\ (v = t \/ deletes t v)) (sorted_set ts)) as (rows & Hrows & Hall).
  - intros term _. unfold rows_of_term. case_bool_decide as Hlen.
    + destruct (deletions_exact term) as (l & -> & Hl); [intros ->; unfold MIN_TERM_LENGTH in Hlen; cbn in Hlen; lia|]. eexists. split; [reflexivity|].
      intros v t. rewrite elem_of_cons, list_elem_of_fmap. split.
      * intros [[= -> ->]|(w & [= -> ->] & Hw%Hl)]; [by auto|]. auto.
      * intros (-> & _ & [->|Hv]); [by left|right]. exists v. by rewrite Hl.
    + exists []. split; [done|]. intros v t. rewrite elem_of_nil. split; [done|]. by intros (-> & ? & _).
  - rewrite Hrows. cbn [mbind res_bind]. exists (concat rows). split; [done|]. intros v t.
    rewrite (elem_of_concat_Forall2 _ _ _ _ Hall). split.
    + intros (x & y & Hx & HQ & _ & Hb). rewrite elem_of_sorted_set in Hx. apply HQ in Hb as (-> & ? & ?). split; [exact Hx|]. by split.
    + intros (Ht & Hlen & Hv). rewrite <-elem_of_sorted_set in Ht. apply list_elem_of_lookup in Ht as [i Hi].
      destruct (Forall2_lookup_l _ _ _ _ _ Hall Hi) as (y & Hy & HQ). exists t, y.
      split; [by eapply list_elem_of_lookup_2|]. split; [done|]. split; [by eapply list_elem_of_lookup_2|]. by apply HQ.
Qed.

Section typo_terms.
Context `{TextFunctions}.

(** The lookup finds every indexed term within one edit, in order, and no other. *)
Lemma typo_terms_exact T table term :
  indexes T table ->
  exists found, typo_terms table term = Ok (take MAX_TYPO_TERMS found) /\ StronglySorted text_lt found /\
    forall t, t ∈ found <->
      MIN_TYPO_LENGTH <= length term /\ forallb is_digit_char term = false /\
      T t /\ indexed_length t /\ t <> term /\ one_edit term t.
Proof.
  intros HT. unfold typo_terms, no_typo_lookup.
  destruct (bool_decide (length term < MIN_TYPO_LENGTH) || _) eqn:Hskip.
  { exists []. split; [done|]. split; [constructor|]. intros t. rewrite elem_of_nil. split; [done|].
    intros (Hlen & Hd & _). apply orb_true_iff in Hskip as [Hs%bool_decide_eq_true|[_ Hs]%andb_true_iff]; [lia|congruence]. }
  apply orb_false_iff in Hskip as [Hlen%bool_decide_eq_false Hd].
  assert (term <> []) as Hne by (intros ->; apply Hlen; unfold MIN_TYPO_LENGTH; cbn; lia).
  rewrite bool_decide_eq_false_2 in Hd by done. cbn [negb andb] in Hd.
  destruct (deletions_exact term Hne) as (l & -> & Hl). cbn [mbind res_bind].
  set (rows := sorted_set _.*2). set (found := filter _ rows). exists found.
  rewrite bool_decide_eq_true_2 by (rewrite length_take; lia). split; [done|].
  split; [apply StronglySorted_filter, sorted_set_increasing|]. intros t. unfold found, rows.
  rewrite list_elem_of_filter, elem_of_sorted_set, list_elem_of_fmap, within_one_edit_spec.
  split.
  - intros ([Hn He] & [v t'] & -> & [_ Hin]%list_elem_of_filter). apply HT in Hin as (Ht & Hlt & _).
    cbn [snd] in *. split; [lia|done].
  - intros (_ & _ & Ht & Hlt & Hn & He). split; [done|]. destruct (variant_in_common term t He) as (v & Hv1 & Hv2).
    exists (v, t). split; [done|]. apply list_elem_of_filter. cbn [fst]. split; [|by apply HT].
    rewrite elem_of_sorted_set, elem_of_cons, Hl. exact Hv1.
Qed.
End typo_terms.

(** ** Terms and queries *)

Section queries.
Context `{TextFunctions}.

(** A word of the tokenizer. *)
Definition word (t : list Z) : Prop := t <> [] /\ Forall (fun c => is_word c = true) t.

Lemma findall_words s t : t ∈ findall s -> word t /\ forall c, c ∈ t -> c ∈ s.
Proof.
  revert t. induction s as [|c s IH]; intros t; cbn [findall]; [by intros []%elem_of_nil|].
  destruct (is_word c) eqn:Hc; [|intros Ht; destruct (IH t Ht); split; [done|]; intros d Hd; right; auto].
  assert (forall ts, t ∈ [c] :: ts -> (t ∈ ts -> t ∈ findall s) -> word t /\ forall d, d ∈ t -> d ∈ c :: s) as Hnew.
  { intros ts [->|Ht]%elem_of_cons Hts.
    - split; [split; [done|by constructor]|]. intros d ->%list_elem_of_singleton. left.
    - destruct (IH t (Hts Ht)). split; [done|]. intros d Hd. right. auto. }
  destruct (match s with d :: _ => is_word d | [] => false end); [|intros Ht; by eapply Hnew].
  destruct (findall s) as [|u us]; [intros Ht; by eapply Hnew|]. intros [->|Ht]%elem_of_cons.
  - destruct (IH u) as [[_ Hu] Hin]; [left|]. split; [split; [done|by constructor]|].
    intros d [->|Hd]%elem_of_cons; [left|right; auto].
  - destruct (IH t) as [Hw Hin]; [by right|]. split; [done|]. intros d Hd. right. auto.
Qed.

Lemma casefold_folded s c : c ∈ casefold s -> fold_char c = [c].
Proof.
  unfold casefold. intros (l & Hl%list_elem_of_In & Hc%list_elem_of_In)%list_elem_of_In%in_concat.
  apply list_elem_of_fmap in Hl as (d & -> & _). by eapply fold_char_folded.
Qed.

Lemma casefold_same s : (forall c, c ∈ s -> fold_char c = [c]) -> casefold s = s.
Proof.
  induction s as [|c s IH]; intros Hs; [done|]. unfold casefold in *. rewrite fmap_cons. cbn [concat].
  rewrite Hs, IH by (try intros d Hd; try apply Hs; by constructor). done.
Qed.

(** The terms of a text. *)
Definition tokens (text : list Z) : list (list Z) :=
  findall (casefold (filter (fun character => combining character = false) (nfkd text))).

Lemma text_terms_returns s : text_terms s = Ok (tokens s) /\ Forall word (tokens s).
Proof.
  unfold text_terms, tokens. set (folded := casefold _).
  rewrite (proj2 (forallb_forall _ _)).
  - split; [done|]. apply Forall_forall. intros t Ht. by apply findall_words in Ht as [? _].
  - intros t Ht%list_elem_of_In. apply bool_decide_eq_true. symmetry. apply casefold_same.
    intros c Hc. apply findall_words in Ht as [_ Ht]. eapply casefold_folded. by apply Ht.
Qed.

(** Counting the brackets of a query. *)
Definition brackets (s : list Z) : nat := length (filter (fun c => c ∈ chars "(") s).

Lemma brackets_app s t : brackets (s ++ t) = brackets s + brackets t.
Proof. unfold brackets. by rewrite filter_app, length_app. Qed.

Lemma brackets_word t : Forall (fun c => is_word c = true) t -> brackets t = 0.
Proof.
  intros Ht. unfold brackets. rewrite filter_none; [done|]. intros c Hc Hin.
  rewrite Forall_forall in Ht. specialize (Ht c Hc). apply list_elem_of_singleton in Hin as ->.
  rewrite is_word_query in Ht; [done|]. left.
Qed.

Lemma brackets_join sep l n :
  brackets sep = 0 -> Forall (fun s => brackets s = n) l -> brackets (join_text sep l) = n * length l.
Proof.
  intros Hsep. induction 1 as [|s l Hs Hl IH]; [cbn; lia|]. destruct l as [|t l]; cbn [join_text length] in *; [lia|].
  rewrite !brackets_app, Hsep, IH. lia.
Qed.

Lemma brackets_quoted t : word t -> brackets (quoted t) = 0.
Proof. intros [_ Ht]. unfold quoted. rewrite !brackets_app, (brackets_word t Ht). done. Qed.

Lemma brackets_group last term others :
  word term -> Forall word others -> brackets (match_group last term others) = 1.
Proof.
  intros Hterm Hothers. unfold match_group. rewrite !brackets_app. rewrite (brackets_join _ _ 0); [done|done|].
  constructor.
  - rewrite brackets_app, (brackets_quoted _ Hterm). by destruct last.
  - apply Forall_fmap. eapply Forall_impl; [exact Hothers|]. intros t. apply brackets_quoted.
Qed.

(** The text of a query can be built for any words. *)
Lemma match_expression_returns terms alternatives :
  terms <> [] -> Forall word terms ->
  (forall l, alternatives = Some l -> length l = length terms /\ Forall (Forall word) l) ->
  exists q, match_expression terms alternatives = Ok q.
Proof.
  intros Hne Hw Halt. unfold match_expression.
  assert (bool_decide (1 <= length terms) = true) as -> by (apply bool_decide_eq_true; destruct terms; [done|cbn; lia]).
  assert (match alternatives with Some l => bool_decide (length l = length terms) | None => true end = true) as ->.
  { destruct alternatives as [l|]; [|done]. apply bool_decide_eq_true. by apply Halt. }
  cbn [andb assert_ mbind res_bind]. set (groups := imap _ terms).
  assert (Forall (fun s => brackets s = 1) groups) as Hg.
  { apply Forall_lookup. intros i g Hi. unfold groups in Hi. rewrite list_lookup_imap in Hi.
    apply fmap_Some in Hi as (term & Ht & ->). rewrite Forall_lookup in Hw. apply brackets_group; [by eapply Hw|].
    destruct alternatives as [l|]; [|constructor]. destruct (l !! i) as [others|] eqn:Ho; [|constructor].
    destruct (Halt l eq_refl) as [_ Hl]. rewrite Forall_lookup in Hl. by eapply Hl. }
  fold (brackets (join_text (chars " AND ") groups)). rewrite (brackets_join (chars " AND ") groups 1 eq_refl Hg).
  unfold groups. rewrite length_imap, Nat.mul_1_l, bool_decide_eq_true_2 by done. by eexists.
Qed.
End queries.

(** ** Theorems *)

(** The typo test is right: [within_one_edit] holds of two terms exactly when
    one of them is the other with at most one character replaced, left out or
    added, or with two neighbours swapped. *)
Theorem within_one_edit_exact s t : within_one_edit s t = true <-> one_edit s t.
Proof. apply within_one_edit_spec. Qed.
