(* ===== verification/TorrentDatabase.v ===== *)
(** The search database ([torrent_database.py]): the tables of its SQLite file, the
    writer with its transactions, and the queries.

    The file holds ordinary tables: lists of rows.  Each statement that the code
    executes is a function on them; any of them may fail instead ([fault] tells
    which, by its number), and a failing one raises [sqlite3.Error] and changes
    nothing.  A transaction that does not come to its end is rolled back, also when
    its [COMMIT] fails: a [COMMIT] that fails because the file is busy would leave
    the transaction active in SQLite, but a file in WAL mode has one writer here.
    Sums of counters and sizes are exact integers; SQLite goes over to floating point
    where one leaves 64 bits.  FTS5 is the parameter [matches]: which rows of its table an
    expression matches. *)
From S2P Require Import Prelude PyDict Bencode NodeIdentity AddressText Krpc TorrentInfo Catalog Tasks TypoIndex.

Definition SCHEMA_VERSION : Z := 1.
Definition MAX_SEARCHABLE_FILES : nat := 20.
Definition MAX_LOOKUP_PARAMETERS : nat := Z.to_nat 500.
Definition MAX_SQLITE_INTEGER : Z := 2 ^ 63 - 1.

(** ** Data *)

(** A document, as [build_document] makes it and [get_document] returns it. *)
Record document := Document {
  doc_info_hash : bytes; doc_name : list Z; doc_size : Z; doc_file_count : Z; doc_piece_length : Z;
  doc_is_private : bool; doc_fetched_at : Z; doc_seen_count : Z; doc_announce_count : Z;
  doc_first_seen : Z; doc_last_seen : Z; doc_files : list (list Z * Z) }.

(** An update of counters, as [build_counter_update] makes it. *)
Record counter_update := CounterUpdate {
  cu_info_hash : bytes; cu_seen_delta : Z; cu_announce_delta : Z; cu_last_seen : Z }.

(** [Counters]: seen count, announce count, first sighting. *)
Definition counters : Type := Z * Z * Z.

(** A row of the table [torrents]; the JSON text of the files stands for them. *)
Record row := Row { row_id : Z; row_document : document }.

#[global] Instance document_eq_dec : EqDecision document.
Proof. solve_decision. Defined.
#[global] Instance row_eq_dec : EqDecision row.
Proof. solve_decision. Defined.

(** A row of [torrents_fts]: the row id, the name, the paths. *)
Definition fts_row : Type := Z * (list Z * list Z).

(** The tables of the file; [totals] is the one row of its table, when there. *)
Record tables := Tables {
  torrents : list row; torrents_fts : list fts_row; terms : list term_row;
  totals : option (Z * Z * Z) }.

Definition no_tables : tables := Tables [] [] [] None.

Definition tables_eta (t : tables) : tables := Tables (torrents t) (torrents_fts t) (terms t) (totals t).
Definition set_torrents : list row -> tables -> tables := ltac:(make_setter tables_eta torrents).
Definition set_torrents_fts : list fts_row -> tables -> tables := ltac:(make_setter tables_eta torrents_fts).
Definition set_terms : list term_row -> tables -> tables := ltac:(make_setter tables_eta terms).
Definition set_totals : option (Z * Z * Z) -> tables -> tables := ltac:(make_setter tables_eta totals).

(** [TorrentDatabase] and its file: the schema version and the number of objects
    the file reports, what is committed, whether the writer is open, the tables as
    its transaction has changed them, and how many statements were executed. *)
Record database := Database {
  user_version : Z; objects : Z; committed : tables; opened : bool; working : option tables;
  statements : nat }.

Definition database_eta (d : database) : database :=
  Database (user_version d) (objects d) (committed d) (opened d) (working d) (statements d).
Definition set_user_version : Z -> database -> database := ltac:(make_setter database_eta user_version).
Definition set_objects : Z -> database -> database := ltac:(make_setter database_eta objects).
Definition set_committed : tables -> database -> database := ltac:(make_setter database_eta committed).
Definition set_opened : bool -> database -> database := ltac:(make_setter database_eta opened).
Definition set_working : option tables -> database -> database := ltac:(make_setter database_eta working).
Definition set_statements : nat -> database -> database := ltac:(make_setter database_eta statements).

Definition in_transaction (d : database) : bool := bool_decide (is_Some (working d)).

Section operations.
Context `{TextFunctions} (matches : list Z -> fts_row -> bool) (fault : nat -> bool).

(** ** Statements *)

Definition statement {A} (m : task database A) : task database A :=
  n ← reads statements;
  change (set_statements (S n)) ;;
  if fault n then throw SqliteError else m.

(** What the writer sees and changes; without a transaction a statement commits
    by itself. *)
Definition current (d : database) : tables := default (committed d) (working d).
Definition write (f : tables -> tables) : task database unit :=
  change (fun d => match working d with
    | Some t => set_working (Some (f t)) d
    | None => set_committed (f (committed d)) d
    end).

(** A Python integer as a parameter of a statement. *)
Definition bind (z : Z) : res unit :=
  raise_if (negb ((- 2 ^ 63 <=? z) && (z <=? MAX_SQLITE_INTEGER))%Z) OverflowError.

(** [transaction]: an exception of the body, or one of [ROLLBACK] in its place,
    goes on to the caller. *)
Definition roll_back : task database unit :=
  n ← reads statements;
  change (set_statements (S n)) ;;
  change (set_working None) ;;
  if fault n then throw SqliteError else mret tt.
Definition commit : task database unit :=
  n ← reads statements;
  change (set_statements (S n)) ;;
  if fault n then change (set_working None) ;; throw SqliteError
  else change (fun d => set_working None (set_committed (current d) d)).
Definition transaction {A} (body : task database A) : task database A :=
  d ← reads (fun d => d);
  check (opened d && negb (in_transaction d)) ;;
  statement (change (fun d => set_working (Some (committed d)) d)) ;;
  result ← catch body (fun e => roll_back ;; throw e);
  commit ;;
  d ← reads (fun d => d);
  check (negb (in_transaction d)) ;;
  mret result.

(** ** Opening *)

(** The update of [TOTALS_SQL] at each start: the rows added since the totals were
    last brought up to date are counted. *)
Definition max_id (l : list row) : Z := foldr Z.max 0%Z (row_id <$> l).
Definition sum_sizes (l : list row) : Z := foldr Z.add 0%Z ((fun r => doc_size (row_document r)) <$> l).
Definition refresh_totals (t : tables) : tables :=
  let '(documents, size, last_id) := default (0, 0, 0)%Z (totals t) in
  let newer := filter (fun r => (last_id < row_id r)%Z) (torrents t) in
  set_totals (Some (documents + Z.of_nat (length newer), size + sum_sizes newer, Z.max last_id (max_id (torrents t)))%Z) t.

Definition open_writer : task database bool :=
  d ← reads (fun d => d);
  check (negb (opened d)) ;;
  statement (mret tt) ;;
  version ← statement (reads user_version);
  objects ← statement (reads objects);
  when (negb ((version =? 0) || (version =? SCHEMA_VERSION)) || ((version =? 0) && (0 <? objects)))%Z (throw SqliteError) ;;
  statement (mret tt) ;;
  statement (mret tt) ;;
  let created := (version =? 0)%Z in
  when created (statement (change (fun d =>
    set_user_version SCHEMA_VERSION (set_objects 1 (set_committed no_tables d))))) ;;
  statement (change (fun d => set_committed (refresh_totals (committed d)) d)) ;;
  change (set_opened true) ;;
  mret created.

Definition close : task database unit := change (fun d => set_opened false (set_working None d)).

(** ** Writing *)

Definition find_row (info_hash : bytes) (t : tables) : option row :=
  head (filter (fun r => doc_info_hash (row_document r) = info_hash) (torrents t)).

Definition row_counters (r : row) : counters :=
  (doc_seen_count (row_document r), doc_announce_count (row_document r), doc_first_seen (row_document r)).

Definition with_counters (seen announced first last : Z) (d : document) : document :=
  Document (doc_info_hash d) (doc_name d) (doc_size d) (doc_file_count d) (doc_piece_length d) (doc_is_private d)
    (doc_fetched_at d) seen announced first last (doc_files d).

(** The [UPDATE] of [write_documents], and that of [update_counters], on a row. *)
Definition plus_document (added d : document) : document :=
  with_counters (doc_seen_count d + doc_seen_count added) (doc_announce_count d + doc_announce_count added)
    (Z.min (doc_first_seen d) (doc_first_seen added)) (Z.max (doc_last_seen d) (doc_last_seen added)) d.
Definition plus_counters (u : counter_update) (d : document) : document :=
  with_counters (doc_seen_count d + cu_seen_delta u) (doc_announce_count d + cu_announce_delta u) (doc_first_seen d)
    (Z.max (doc_last_seen d) (cu_last_seen u)) d.

(** An [UPDATE] of the rows with a condition. *)
Definition update_rows (which : row -> bool) (f : document -> document) (t : tables) : tables :=
  set_torrents ((fun r => if which r then Row (row_id r) (f (row_document r)) else r) <$> torrents t) t.

(** [INSERT OR IGNORE] *)
Definition insert_terms (rows : list term_row) (t : tables) : tables :=
  set_terms (fold_left (fun l r => if bool_decide (r ∈ l) then l else l ++ [r]) rows (terms t)) t.

(** [insert_document]; SQLite gives a new row the number after the highest. *)
Definition insert_document (document : document) : task database unit :=
  d ← reads (fun d => d);
  check (opened d && in_transaction d) ;;
  each (fun z => call (bind z)) [doc_size document; doc_file_count document; doc_piece_length document;
    doc_seen_count document; doc_announce_count document] ;;
  let id := (max_id (torrents (current d)) + 1)%Z in
  statement (
    call (raise_if (bool_decide (is_Some (find_row (doc_info_hash document) (current d)))) SqliteError) ;;
    write (fun t => set_torrents (torrents t ++ [Row id document]) t)) ;;
  let paths := (take MAX_SEARCHABLE_FILES (doc_files document)).*1 in
  statement (write (fun t => set_torrents_fts (torrents_fts t ++ [(id, (doc_name document, join_text newline paths))]) t)) ;;
  name_terms ← call (text_terms (doc_name document));
  path_terms ← call (sequence (text_terms <$> paths));
  rows ← call (term_rows (name_terms ++ concat path_terms));
  statement (write (insert_terms rows)) ;;
  statement (write (fun t => set_totals
    ((fun x => (x.1.1 + 1, x.1.2 + doc_size document, Z.max x.2 id)%Z) <$> totals t) t)).

Fixpoint write_each (documents : list document) (previous : list (bytes * counters))
    : task database (list (bytes * counters)) :=
  match documents with
  | [] => mret previous
  | document :: documents =>
      found ← statement (reads (fun d => find_row (doc_info_hash document) (current d)));
      match found with
      | None => insert_document document ;; write_each documents previous
      | Some r =>
          each (fun z => call (bind z)) [doc_seen_count document; doc_announce_count document] ;;
          statement (write (update_rows (fun x => (row_id x =? row_id r)%Z) (plus_document document))) ;;
          write_each documents (dict_set (doc_info_hash document) (row_counters r) previous)
      end
  end.

Definition write_documents (documents : list document) : task database (list (bytes * counters)) :=
  d ← reads (fun d => d);
  check (opened d && forallb (fun document => bool_decide (length (doc_info_hash document) = 40)) documents) ;;
  previous ← transaction (write_each documents []);
  check (bool_decide (length previous <= length documents)) ;;
  mret previous.

Fixpoint update_each (updates : list counter_update) (missing : list bytes) : task database (list bytes) :=
  match updates with
  | [] => mret missing
  | u :: updates =>
      each (fun z => call (bind z)) [cu_seen_delta u; cu_announce_delta u] ;;
      rowcount ← statement (
        d ← reads (fun d => d);
        let which r := bool_decide (doc_info_hash (row_document r) = cu_info_hash u) in
        write (update_rows which (plus_counters u)) ;;
        mret (length (filter (fun r => which r = true) (torrents (current d)))));
      update_each updates (if bool_decide (rowcount = 0) then missing ++ [cu_info_hash u] else missing)
  end.

Definition update_counters (updates : list counter_update) : task database (list bytes) :=
  d ← reads opened;
  check d ;;
  missing ← transaction (update_each updates []);
  check (bool_decide (length missing <= length updates)) ;;
  mret missing.

(** ** Reading *)

(** [connect_reader]: opening the file, and its pragma. *)
Definition connect_reader : task database unit := statement (mret tt) ;; statement (mret tt).

(** A query of a reader. *)
Definition query {A} (f : tables -> A) : task database A := statement (reads (fun d => f (committed d))).

(** [range(0, len(l), n)] with the slices of length [n]. *)
Fixpoint chunks {A} (fuel n : nat) (l : list A) : list (list A) :=
  match fuel, l with
  | S fuel, _ :: _ => take n l :: chunks fuel n (drop n l)
  | _, _ => []
  end.

Definition select_counters (chunk : list bytes) (t : tables) : list (bytes * counters) :=
  (fun r => (doc_info_hash (row_document r), row_counters r)) <$>
  filter (fun r => doc_info_hash (row_document r) ∈ chunk) (torrents t).

Fixpoint lookup_chunks (l : list (list bytes)) (result : list (bytes * counters)) : task database (list (bytes * counters)) :=
  match l with
  | [] => mret result
  | chunk :: l =>
      rows ← query (select_counters chunk);
      lookup_chunks l (fold_left (fun result kv => dict_set kv.1 kv.2 result) rows result)
  end.

(** [lookup_counters], on a reader of its own unless it is given one. *)
Definition lookup_counters (info_hashes : list bytes) (reader : bool) : task database (list (bytes * counters)) :=
  check (forallb (fun h => bool_decide (length h = 40)) info_hashes) ;;
  when (negb reader) connect_reader ;;
  result ← lookup_chunks (chunks (length info_hashes) MAX_LOOKUP_PARAMETERS info_hashes) [];
  check (bool_decide (length result <= length info_hashes)) ;;
  mret result.

Definition count_documents : task database Z :=
  connect_reader ;;
  result ← query (fun t => Z.of_nat (length (torrents t)));
  check (0 <=? result)%Z ;;
  mret result.

Definition document_totals (reader : bool) : task database (Z * Z) :=
  when (negb reader) connect_reader ;;
  found ← query totals;
  match found with
  | None => throw TypeError
  | Some (count, size, _) => check ((0 <=? count) && (0 <=? size))%Z ;; mret (count, size)
  end.

Definition get_document (info_hash : bytes) : task database (option document) :=
  check (bool_decide (length info_hash = 40)) ;;
  connect_reader ;;
  found ← query (find_row info_hash);
  match found with
  | None => mret None
  | Some r =>
      check (bool_decide (doc_info_hash (row_document r) = info_hash)) ;;
      mret (Some (row_document r))
  end.

(** ** Searching *)

(** [COLLATE NOCASE] takes the letters of ASCII for equal. *)
Definition nocase (name : list Z) : list Z := ascii_lower_char <$> name.

Definition sort_column (sort : sort_key_t) (d : document) : list Z :=
  match sort with
  | SORT_NAME => nocase (doc_name d)
  | SORT_SIZE => [doc_size d]
  | SORT_FILE_COUNT => [doc_file_count d]
  | SORT_SEEN_COUNT => [doc_seen_count d]
  | SORT_ANNOUNCE_COUNT => [doc_announce_count d]
  | SORT_LAST_SEEN => [doc_last_seen d]
  end.

(** [order_clause]: the sort column, then the ones of the rank that are not it. *)
Definition order_columns (sort : option sort_key_t) (d : document) : list (list Z) :=
  match sort with
  | None | Some SORT_SEEN_COUNT => [[doc_seen_count d]; [doc_last_seen d]]
  | Some SORT_LAST_SEEN => [[doc_last_seen d]; [doc_seen_count d]]
  | Some sort => [sort_column sort d; [doc_seen_count d]; [doc_last_seen d]]
  end.
Fixpoint columns_leb (x y : list (list Z)) : bool :=
  match x, y with
  | a :: x', b :: y' => if bool_decide (a = b) then columns_leb x' y' else lex_leb a b
  | _, _ => true
  end.
Definition order_clause (sort : option sort_key_t) (descending : bool) (x y : row) : bool :=
  let cx := order_columns sort (row_document x) in
  let cy := order_columns sort (row_document y) in
  if bool_decide (sort = None) || descending then columns_leb cy cx else columns_leb cx cy.

Definition search_record_of (r : row) : res search_record :=
  let d := row_document r in
  assert_ (bool_decide (length (doc_info_hash d) = 40)) ;;
  mret (SearchRecord (doc_info_hash d) (doc_name d) (doc_size d) (doc_file_count d) (doc_seen_count d)
    (doc_announce_count d) (doc_first_seen d) (doc_last_seen d)).

(** [t.id IN (SELECT rowid FROM torrents_fts WHERE torrents_fts MATCH ?)] *)
Definition is_match (t : tables) (expression : list Z) (r : row) : bool :=
  existsb (fun f => (f.1 =? row_id r)%Z && matches expression f) (torrents_fts t).
Definition in_name (expression : list Z) : list Z := chars "name : (" ++ expression ++ chars ")".

(** The order of [run_match] without a sort column: matches of the name first. *)
Definition name_first (t : tables) (expression : list Z) (x y : row) : bool :=
  let named r := is_match t (in_name expression) r in
  if Bool.eqb (named x) (named y) then order_clause None true x y else named x.

Definition match_rows (expression : list Z) (limit : nat) (sort : option sort_key_t) (descending : bool) (t : tables)
    : list row :=
  let order := match sort with None => name_first t expression | Some _ => order_clause sort descending end in
  take limit (sort_by order (filter (fun r => is_match t expression r = true) (torrents t))).

Definition run_match (expression : list Z) (limit : nat) (sort : option sort_key_t) (descending : bool)
    : task database (list search_record) :=
  check (negb (bool_decide (expression = [])) && bool_decide (1 <= limit)) ;;
  rows ← query (match_rows expression limit sort descending);
  result ← call (sequence (search_record_of <$> rows));
  check (bool_decide (length result <= limit)) ;;
  mret result.

(** [typo_terms] on a reader. *)
Definition lookup_typos (term : list Z) : task database (list (list Z)) :=
  if no_typo_lookup term then mret []
  else found ← query (fun t => typo_terms (terms t) term); call found.

Fixpoint map_task {S A B} (f : A -> task S B) (l : list A) : task S (list B) :=
  match l with
  | [] => mret []
  | x :: l => y ← f x; ys ← map_task f l; mret (y :: ys)
  end.

Definition search (text : list Z) (limit : nat) (sort : option sort_key_t) (descending : bool)
    : task database (list search_record) :=
  check (bool_decide (1 <= limit)) ;;
  words ← call (text_terms text);
  let terms := take MAX_QUERY_TERMS words in
  connect_reader ;;
  found ← (if bool_decide (terms = []) then
      rows ← query (fun t => take limit (sort_by (order_clause sort descending) (torrents t)));
      call (sequence (search_record_of <$> rows))
    else
      expression ← call (match_expression terms None);
      run_match expression limit sort descending);
  found ← (if negb (bool_decide (terms = [])) && bool_decide (length found < limit) then
      alternatives ← map_task lookup_typos terms;
      let any := existsb (fun l => negb (bool_decide (l = []))) alternatives in
      if any && negb (bool_decide (sort = None)) then
        expression ← call (match_expression terms (Some alternatives));
        run_match expression limit sort descending
      else if any then
        expression ← call (match_expression terms (Some alternatives));
        extra ← run_match expression limit None true;
        mret (found ++ take (limit - length found)
          (filter (fun r => sr_info_hash r ∉ (sr_info_hash <$> found)) extra))
      else mret found
    else mret found);
  check (bool_decide (length found <= limit)) ;;
  mret found.
End operations.
