(* ===== verification/TorrentDatabaseSafety.v ===== *)
(** The search database keeps its tables in order: what a statement, a transaction
    and a write do to them, whichever statements fail. *)
From S2P Require Import Prelude PyDict Bencode NodeIdentity AddressText Krpc TorrentInfo Catalog Tasks TypoIndex.
From S2P Require Import TorrentDatabase.

Section safety.
Context `{TextFunctions} (fault : nat -> bool).
Implicit Types (d : database) (t : tables) (doc : document).

(** ** Statements that may fail *)

(** Everything but the tables and the number of statements stays. *)
Definition kept d d' : Prop :=
  committed d' = committed d /\ opened d' = opened d /\ user_version d' = user_version d /\
  objects d' = objects d /\ statements d <= statements d'.

(** An exception is one of SQLite, and one of the statements has failed. *)
Definition failed d (e : exn) d' : Prop :=
  e = SqliteError /\ exists n, statements d <= n < statements d' /\ fault n = true.

Lemma kept_refl d : kept d d.
Proof using. by repeat split. Qed.

Lemma kept_trans d d1 d2 : kept d d1 -> kept d1 d2 -> kept d d2.
Proof using. intros (? & ? & ? & ? & ?) (? & ? & ? & ? & ?). repeat split; congruence || lia. Qed.

Lemma failed_later d d1 e d2 : statements d <= statements d1 -> failed d1 e d2 -> failed d e d2.
Proof using. intros Hle [-> (n & Hn & Hf)]. split; [done|]. exists n. split; [lia|done]. Qed.

(** A part of a transaction: from the tables [t] it comes to [x] and the tables
    [t'], or fails. *)
Definition yields {A} (m : task database A) t (x : A) t' : Prop :=
  forall d, opened d = true -> working d = Some t ->
  tri m (fun y d' => y = x /\ working d' = Some t' /\ kept d d') (fun e d' => failed d e d' /\ kept d d') d.

Lemma yields_bind {A B} (m : task database A) (f : A -> task database B) t x t1 y t2 :
  yields m t x t1 -> yields (f x) t1 y t2 -> yields (m ≫= f) t y t2.
Proof using.
  intros Hm Hf d Ho Hw. apply tri_bind. eapply tri_mono; [by apply Hm| |done].
  intros x' d1 (-> & Hw1 & Hk). assert (opened d1 = true) as Ho1 by (destruct Hk as (_ & -> & _); done).
  eapply tri_mono; [by apply Hf|..].
  - intros y' d2 (-> & Hw2 & Hk2). split; [done|]. split; [done|]. by eapply kept_trans.
  - intros e d2 [Hf2 Hk2]. split; [|by eapply kept_trans]. eapply failed_later; [|exact Hf2]. apply Hk.
Qed.

Lemma yields_ret {A} (x : A) t : yields (mret x) t x t.
Proof using. intros d Ho Hw. apply tri_ret. split; [done|]. split; [done|apply kept_refl]. Qed.

Lemma yields_call {A} (r : res A) x t : r = Ok x -> yields (call r) t x t.
Proof using. intros -> d Ho Hw. split; [done|]. split; [done|apply kept_refl]. Qed.

Lemma yields_reads {A} (f : database -> A) x t :
  (forall d, opened d = true -> working d = Some t -> f d = x) -> yields (reads f) t x t.
Proof using.
  intros Hf d Ho Hw. apply tri_reads. split; [by apply Hf|]. split; [done|apply kept_refl].
Qed.

Lemma yields_check c t : c = true -> yields (check c) t tt t.
Proof using. intros ->. by apply yields_call. Qed.

Lemma yields_write f t : yields (write f) t tt (f t).
Proof using. intros d Ho Hw. apply tri_change. rewrite Hw. split; [done|]. split; [done|]. by repeat split. Qed.

Lemma yields_statement {A} (m : task database A) t x t' : yields m t x t' -> yields (statement fault m) t x t'.
Proof using.
  intros Hm d Ho Hw. unfold statement. apply tri_bind, tri_reads, tri_bind, tri_change.
  set (d1 := set_statements _ d). assert (kept d d1) as Hk1.
  { split; [done|]. split; [done|]. split; [done|]. split; [done|]. unfold d1. cbn. lia. }
  destruct (fault (statements d)) eqn:Hfault.
  - apply tri_throw. split; [|done]. split; [done|]. exists (statements d). split; [unfold d1; cbn; lia|done].
  - eapply tri_mono; [by apply Hm|..].
    + intros y d2 (-> & Hw2 & Hk2). split; [done|]. split; [done|]. by eapply kept_trans.
    + intros e d2 [Hf2 Hk2]. split; [|by eapply kept_trans]. eapply failed_later; [|exact Hf2]. apply Hk1.
Qed.

(** A transaction: all of it, or nothing. *)
Lemma tri_transaction {A} (body : task database A) d x t' :
  opened d = true -> working d = None -> yields body (committed d) x t' ->
  tri (transaction fault body)
    (fun y d' => y = x /\ d' = set_statements (statements d') (set_committed t' d) /\ statements d <= statements d')
    (fun e d' => failed d e d' /\ d' = set_statements (statements d') d) d.
Proof using.
  intros Ho Hw Hbody. unfold transaction. apply tri_bind, tri_reads, tri_bind, tri_check.
  { rewrite Ho. unfold in_transaction. by rewrite Hw. }
  apply tri_bind. unfold statement at 1. apply tri_bind, tri_reads, tri_bind, tri_change.
  destruct (fault (statements d)) eqn:Hfault.
  { apply tri_throw. split; [|by destruct d]. split; [done|]. exists (statements d). cbn. split; [lia|done]. }
  apply tri_change. set (d1 := set_working _ _). apply tri_bind, tri_catch.
  assert (statements d1 = S (statements d)) as Hn1 by done.
  eapply tri_mono; [apply (Hbody d1); done| |].
  - intros y d2 (-> & Hw2 & (K1 & K2 & K3 & K4 & K5)). apply tri_bind. unfold commit.
    apply tri_bind, tri_reads, tri_bind, tri_change. destruct (fault (statements d2)) eqn:Hf2.
    + apply tri_bind, tri_change, tri_throw. split.
      * split; [done|]. exists (statements d2). cbn. split; [lia|done].
      * destruct d, d2. cbn in *. by subst.
    + apply tri_change. apply tri_bind, tri_reads. apply tri_bind, tri_check; [done|]. apply tri_ret. split; [done|].
      cbn. split; [|lia]. unfold current. cbn. rewrite Hw2. destruct d, d2. cbn in *. by subst.
  - intros e d2 [Hfail (K1 & K2 & K3 & K4 & K5)]. apply tri_bind. unfold roll_back.
    apply tri_bind, tri_reads, tri_bind, tri_change, tri_bind, tri_change.
    assert (failed d SqliteError (set_working None (set_statements (S (statements d2)) d2))) as Hfail'.
    { split; [done|]. destruct Hfail as [_ (n & Hn & Hf)]. exists n. cbn. split; [lia|done]. }
    destruct Hfail as [-> _].
    destruct (fault (statements d2)); [apply tri_throw|apply tri_ret, tri_throw]; (split; [done|]);
      destruct d, d2; cbn in *; by subst.
Qed.
(** ** What the writes do to the tables *)

Definition fits (z : Z) : Prop := (- 2 ^ 63 <= z <= MAX_SQLITE_INTEGER)%Z.

(** A document that [build_document] makes of a snapshot. *)
Record document_ok doc : Prop := DocumentOk {
  dok_hash : length (doc_info_hash doc) = 40;
  dok_size : (0 <= doc_size doc)%Z;
  dok_fits : Forall fits [doc_size doc; doc_file_count doc; doc_piece_length doc; doc_seen_count doc; doc_announce_count doc] }.

Definition doc_paths doc : list (list Z) := (take MAX_SEARCHABLE_FILES (doc_files doc)).*1.
(** The terms by which a document is found. *)
Definition doc_terms doc : list (list Z) := tokens (doc_name doc) ++ concat (tokens <$> doc_paths doc).
Definition fts_of (r : row) : fts_row :=
  (row_id r, (doc_name (row_document r), join_text newline (doc_paths (row_document r)))).

Definition inserted doc t : tables :=
  let id := (max_id (torrents t) + 1)%Z in
  set_totals ((fun x => (x.1.1 + 1, x.1.2 + doc_size doc, Z.max x.2 id)%Z) <$> totals t)
    (insert_terms (match term_rows (doc_terms doc) with Ok rows => rows | Raise _ => [] end)
      (set_torrents_fts (torrents_fts t ++ [fts_of (Row id doc)]) (set_torrents (torrents t ++ [Row id doc]) t))).
Definition written t doc : tables :=
  match find_row (doc_info_hash doc) t with
  | None => inserted doc t
  | Some r => update_rows (fun x => (row_id x =? row_id r)%Z) (plus_document doc) t
  end.
Definition previous_with t doc (previous : list (bytes * counters)) : list (bytes * counters) :=
  match find_row (doc_info_hash doc) t with
  | None => previous
  | Some r => dict_set (doc_info_hash doc) (row_counters r) previous
  end.
Fixpoint previous_counters t (docs : list document) (previous : list (bytes * counters)) : list (bytes * counters) :=
  match docs with
  | [] => previous
  | doc :: docs => previous_counters (written t doc) docs (previous_with t doc previous)
  end.

Lemma bind_Ok_fits z : fits z -> bind z = Ok tt.
Proof using.
  intros [H1 H2]. unfold bind. rewrite (proj2 (Z.leb_le _ _) H1), (proj2 (Z.leb_le _ _) H2). done.
Qed.

Lemma yields_bind_each l t : Forall fits l -> yields (each (fun z => call (bind z)) l) t tt t.
Proof using.
  induction 1 as [|z l Hz _ IH]; cbn [each]; [apply yields_ret|].
  eapply yields_bind; [apply yields_call; by apply bind_Ok_fits|exact IH].
Qed.

Lemma sequence_tokens l : sequence (text_terms <$> l) = Ok (tokens <$> l).
Proof using.
  induction l as [|x l IH]; [done|]. rewrite !fmap_cons. cbn [sequence].
  rewrite (proj1 (text_terms_returns x)). by rewrite IH.
Qed.

Lemma yields_insert_document doc t :
  document_ok doc -> find_row (doc_info_hash doc) t = None -> yields (insert_document fault doc) t tt (inserted doc t).
Proof using.
  intros [_ _ Hfits] Hnone d Ho Hw. unfold insert_document. apply tri_bind, tri_reads, tri_bind, tri_check.
  { unfold in_transaction. by rewrite Ho, Hw. }
  revert d Ho Hw. assert (forall d, opened d = true -> working d = Some t -> current d = t) as Hcur.
  { intros d _ Hw. unfold current. by rewrite Hw. }
  intros d Ho Hw. rewrite (Hcur d Ho Hw). revert d Ho Hw.
  match goal with |- forall d, _ -> _ -> tri ?m _ _ d => change (yields m t tt (inserted doc t)) end.
  eapply yields_bind; [by apply yields_bind_each|]. cbv zeta.
  eapply yields_bind; [apply yields_statement; eapply yields_bind; [apply yields_call; by rewrite Hnone|apply yields_write]|].
  eapply yields_bind; [apply yields_statement, yields_write|].
  eapply yields_bind; [apply yields_call, text_terms_returns|].
  eapply yields_bind; [apply yields_call, sequence_tokens|].
  destruct (term_rows_exact (doc_terms doc)) as (rows & Hrows & _).
  eapply yields_bind; [apply yields_call, Hrows|].
  eapply yields_bind; [apply yields_statement, yields_write|]. apply yields_statement.
  unfold inserted. rewrite Hrows. exact (yields_write _ _).
Qed.

Lemma yields_write_each docs : forall t previous, Forall document_ok docs ->
  yields (write_each fault docs previous) t (previous_counters t docs previous) (foldl written t docs).
Proof using.
  induction docs as [|doc docs IH]; intros t previous Hdocs; cbn [write_each previous_counters foldl]; [apply yields_ret|].
  apply Forall_cons in Hdocs as [Hdoc Hdocs].
  eapply yields_bind.
  { apply yields_statement, (yields_reads _ (find_row (doc_info_hash doc) t)). intros d _ Hw. unfold current. by rewrite Hw. }
  unfold previous_with.
  destruct (find_row (doc_info_hash doc) t) as [r|] eqn:Hrow.
  - eapply yields_bind; [apply yields_bind_each|].
    { destruct Hdoc as [_ _ Hf]. rewrite !Forall_cons in Hf. rewrite !Forall_cons. tauto. }
    eapply yields_bind; [apply yields_statement; exact (yields_write _ _)|].
    assert (written t doc = update_rows (fun x => (row_id x =? row_id r)%Z) (plus_document doc) t) as <-
      by (unfold written; by rewrite Hrow). by apply IH.
  - eapply yields_bind; [by apply yields_insert_document|].
    assert (written t doc = inserted doc t) as <- by (unfold written; by rewrite Hrow). by apply IH.
Qed.

(** Writing documents: all of them are written, or none. *)
Lemma tri_write_documents docs d :
  opened d = true -> working d = None -> Forall document_ok docs ->
  tri (write_documents fault docs)
    (fun previous d' => previous = previous_counters (committed d) docs [] /\
       d' = set_statements (statements d') (set_committed (foldl written (committed d) docs) d) /\ statements d <= statements d')
    (fun e d' => failed d e d' /\ d' = set_statements (statements d') d) d.
Proof using.
  intros Ho Hw Hdocs. unfold write_documents. apply tri_bind, tri_reads, tri_bind, tri_check.
  { rewrite Ho. cbn [andb]. apply forallb_forall. intros doc Hin%list_elem_of_In. apply bool_decide_eq_true.
    rewrite Forall_forall in Hdocs. by apply Hdocs. }
  apply tri_bind. eapply tri_mono; [apply tri_transaction; [done|done|by apply yields_write_each]| |done].
  intros previous d' (-> & Hd' & Hle). apply tri_bind, tri_check; [|done]. apply bool_decide_eq_true.
  assert (forall docs t previous, length (previous_counters t docs previous) <= length previous + length docs) as Hlen.
  { clear. intros docs. induction docs as [|doc docs IH]; intros t previous; cbn [previous_counters length]; [lia|].
    specialize (IH (written t doc) (previous_with t doc previous)).
    assert (length (previous_with t doc previous) <= S (length previous)); [|lia].
    unfold previous_with. destruct (find_row _ _); [|lia]. rewrite length_dict_set. destruct (dict_has _ _); lia. }
  apply (Hlen docs (committed d) []).
Qed.
(** ** Updates of counters *)

Definition update_ok (u : counter_update) : Prop := Forall fits [cu_seen_delta u; cu_announce_delta u].
Definition has_hash (h : bytes) (r : row) : bool := bool_decide (doc_info_hash (row_document r) = h).
Definition counted t (u : counter_update) : tables := update_rows (has_hash (cu_info_hash u)) (plus_counters u) t.
Definition count_rows t (h : bytes) : nat := length (filter (fun r => has_hash h r = true) (torrents t)).
Fixpoint missing_of t (updates : list counter_update) (missing : list bytes) : list bytes :=
  match updates with
  | [] => missing
  | u :: updates =>
      missing_of (counted t u) updates
        (if bool_decide (count_rows t (cu_info_hash u) = 0) then missing ++ [cu_info_hash u] else missing)
  end.

Lemma yields_update_each updates : forall t missing, Forall update_ok updates ->
  yields (update_each fault updates missing) t (missing_of t updates missing) (foldl counted t updates).
Proof using.
  induction updates as [|u updates IH]; intros t missing Hu; cbn [update_each missing_of foldl]; [apply yields_ret|].
  apply Forall_cons in Hu as [Hu Hus]. eapply yields_bind; [by apply yields_bind_each|].
  eapply yields_bind; [|by apply IH]. apply yields_statement. intros d Ho Hw. apply tri_bind, tri_reads.
  apply tri_bind. eapply tri_mono; [apply (yields_write (update_rows (has_hash (cu_info_hash u)) (plus_counters u)) t d Ho Hw)| |done].
  intros [] d1 (_ & Hw1 & Hk). apply tri_ret. split; [|done]. unfold current. by rewrite Hw.
Qed.

Lemma length_missing_of updates : forall t missing, length (missing_of t updates missing) <= length missing + length updates.
Proof using.
  induction updates as [|u updates IH]; intros t missing; cbn [missing_of length]; [lia|].
  etransitivity; [apply IH|]. case_bool_decide; rewrite ?length_app; cbn [length]; lia.
Qed.

Lemma tri_update_counters updates d :
  opened d = true -> working d = None -> Forall update_ok updates ->
  tri (update_counters fault updates)
    (fun missing d' => missing = missing_of (committed d) updates [] /\
       d' = set_statements (statements d') (set_committed (foldl counted (committed d) updates) d) /\ statements d <= statements d')
    (fun e d' => failed d e d' /\ d' = set_statements (statements d') d) d.
Proof using.
  intros Ho Hw Hus. unfold update_counters. apply tri_bind, tri_reads, tri_bind, tri_check; [done|].
  apply tri_bind. eapply tri_mono; [apply tri_transaction; [done|done|by apply yields_update_each]| |done].
  intros missing d' (-> & Hd' & Hle). apply tri_bind, tri_check; [|done]. apply bool_decide_eq_true.
  apply (length_missing_of updates (committed d) []).
Qed.

(** ** The tables in order *)

Record tables_ok t : Prop := TablesOk {
  to_ids : NoDup (row_id <$> torrents t);
  to_positive : Forall (fun r => (0 < row_id r)%Z) (torrents t);
  to_hashes : NoDup ((fun r => doc_info_hash (row_document r)) <$> torrents t);
  to_docs : Forall (fun r => length (doc_info_hash (row_document r)) = 40 /\ (0 <= doc_size (row_document r))%Z) (torrents t);
  to_fts : torrents_fts t = fts_of <$> torrents t;
  to_terms : indexes (fun x => exists r, r ∈ torrents t /\ x ∈ doc_terms (row_document r)) (terms t);
  to_totals : totals t = Some (Z.of_nat (length (torrents t)), sum_sizes (torrents t), max_id (torrents t)) }.

Lemma find_row_Some t h r : NoDup ((fun r => doc_info_hash (row_document r)) <$> torrents t) ->
  find_row h t = Some r <-> r ∈ torrents t /\ doc_info_hash (row_document r) = h.
Proof using.
  unfold find_row. induction (torrents t) as [|x l IH]; intros Hnd.
  { split; [done|]. by intros [[]%elem_of_nil _]. }
  rewrite fmap_cons in Hnd. apply NoDup_cons in Hnd as [Hx Hnd]. rewrite filter_cons, elem_of_cons.
  destruct (decide (doc_info_hash (row_document x) = h)) as [Hh|Hh].
  - cbn [head]. split; [intros [= ->]; by split; [left|]|]. intros [[->|Hr] Hrh]; [done|]. exfalso. apply Hx.
    apply list_elem_of_fmap. exists r. split; [congruence|done].
  - rewrite (IH Hnd). split; [intros [? ?]; by split; [right|]|]. by intros [[->|?] ?].
Qed.

Lemma find_row_None t h : find_row h t = None <-> forall r, r ∈ torrents t -> doc_info_hash (row_document r) <> h.
Proof using.
  unfold find_row. induction (torrents t) as [|x l IH]; [split; [by intros _ r []%elem_of_nil|done]|].
  rewrite filter_cons. case_decide as Hh.
  - split; [done|]. intros Hl. by destruct (Hl x); [left|].
  - rewrite IH. split; intros Hl r; [intros [->|?]%elem_of_cons; auto|]. intros Hr. apply Hl. by right.
Qed.

Lemma max_id_ge l r : r ∈ l -> (row_id r <= max_id l)%Z.
Proof using.
  unfold max_id. induction l as [|x l IH]; [by intros []%elem_of_nil|]. rewrite fmap_cons. cbn [foldr].
  intros [->|Hr]%elem_of_cons; [lia|]. specialize (IH Hr). lia.
Qed.

Lemma max_id_app l r : max_id (l ++ [r]) = Z.max (max_id l) (Z.max (row_id r) 0).
Proof using.
  unfold max_id. rewrite fmap_app, foldr_app. cbn. induction (row_id <$> l) as [|x k IH]; cbn [foldr]; lia.
Qed.

Lemma max_id_nonneg l : (0 <= max_id l)%Z.
Proof using. unfold max_id. induction (row_id <$> l) as [|x k IH]; cbn [foldr]; lia. Qed.

Lemma sum_sizes_app l l' : sum_sizes (l ++ l') = (sum_sizes l + sum_sizes l')%Z.
Proof using.
  unfold sum_sizes. rewrite fmap_app, foldr_app. induction ((fun r => doc_size (row_document r)) <$> l) as [|x k IH]; cbn [foldr]; lia.
Qed.

Lemma elem_of_insert_terms rows t x : x ∈ terms (insert_terms rows t) <-> x ∈ rows \/ x ∈ terms t.
Proof using.
  unfold insert_terms. cbn [terms set_terms]. generalize (terms t). induction rows as [|r rows IH]; intros l; cbn [fold_left].
  { rewrite elem_of_nil. tauto. }
  rewrite IH, elem_of_cons. case_bool_decide as Hr; [|rewrite elem_of_app, list_elem_of_singleton; tauto].
  split; [tauto|]. intros [[->|?]|?]; auto.
Qed.
(** An update that leaves everything but the counters. *)
Definition same_torrent (f : document -> document) : Prop := forall d : document,
  doc_info_hash (f d) = doc_info_hash d /\ doc_name (f d) = doc_name d /\ doc_size (f d) = doc_size d /\
  doc_files (f d) = doc_files d.

Lemma fmap_update_rows {A} (g : row -> A) which f t :
  (forall r, g (Row (row_id r) (f (row_document r))) = g r) -> g <$> torrents (update_rows which f t) = g <$> torrents t.
Proof using.
  intros Hg. unfold update_rows. cbn [torrents set_torrents]. rewrite <-list_fmap_compose.
  apply list_fmap_ext. intros i r _. unfold compose. destruct (which r); [apply Hg|done].
Qed.

Lemma elem_of_update_rows which f t r : r ∈ torrents (update_rows which f t) <->
  exists r0, r0 ∈ torrents t /\ r = if which r0 then Row (row_id r0) (f (row_document r0)) else r0.
Proof using. unfold update_rows. cbn [torrents set_torrents]. rewrite list_elem_of_fmap. naive_solver. Qed.

Lemma update_rows_ok which f t : same_torrent f -> tables_ok t -> tables_ok (update_rows which f t).
Proof using.
  intros Hf [A1 A2 A3 A4 A5 A6 A7].
  assert (forall r, doc_terms (f (row_document r)) = doc_terms (row_document r)) as Hterms.
  { intros r. unfold doc_terms, doc_paths. by destruct (Hf (row_document r)) as (_ & -> & _ & ->). }
  assert (forall P : row -> Prop, (forall r, P r -> P (Row (row_id r) (f (row_document r)))) ->
    Forall P (torrents t) -> Forall P (torrents (update_rows which f t))) as Hall.
  { intros P HP. rewrite !Forall_forall. intros Ht r (r0 & Hr0 & ->)%elem_of_update_rows.
    destruct (which r0); [by apply HP, Ht|by apply Ht]. }
  split.
  - by rewrite fmap_update_rows.
  - by apply Hall.
  - rewrite fmap_update_rows; [done|]. intros r. apply Hf.
  - apply Hall; [|done]. intros r. cbn [row_document]. by destruct (Hf (row_document r)) as (-> & _ & -> & _).
  - change (torrents_fts (update_rows which f t)) with (torrents_fts t). rewrite A5, fmap_update_rows; [done|].
    intros r. unfold fts_of, doc_paths. cbn. by destruct (Hf (row_document r)) as (_ & -> & _ & ->).
  - intros v x. change (terms (update_rows which f t)) with (terms t). rewrite (A6 v x).
    assert ((exists r, r ∈ torrents t /\ x ∈ doc_terms (row_document r)) <->
      exists r, r ∈ torrents (update_rows which f t) /\ x ∈ doc_terms (row_document r)) as ->; [|done].
    split.
    + intros (r & Hr & Hx). exists (if which r then Row (row_id r) (f (row_document r)) else r).
      split; [apply elem_of_update_rows; by exists r|]. destruct (which r); cbn [row_document]; [by rewrite Hterms|done].
    + intros (r & (r0 & Hr0 & ->)%elem_of_update_rows & Hx). exists r0. split; [done|].
      destruct (which r0); cbn [row_document] in Hx; [by rewrite Hterms in Hx|done].
  - change (totals (update_rows which f t)) with (totals t). rewrite A7. unfold sum_sizes, max_id.
    rewrite !fmap_update_rows by (intros r; apply Hf || done). unfold update_rows. cbn. by rewrite length_fmap.
Qed.

Lemma inserted_ok doc t :
  document_ok doc -> tables_ok t -> find_row (doc_info_hash doc) t = None -> tables_ok (inserted doc t).
Proof using.
  intros [D1 D2 _] [A1 A2 A3 A4 A5 A6 A7] Hnone. rewrite find_row_None in Hnone.
  set (r := Row (max_id (torrents t) + 1) doc). pose proof (max_id_nonneg (torrents t)) as Hpos.
  assert (torrents (inserted doc t) = torrents t ++ [r]) as Ht by done. split; rewrite ?Ht.
  - rewrite fmap_app. apply NoDup_app. split; [done|]. split; [|apply NoDup_singleton].
    intros id (r' & -> & Hr')%list_elem_of_fmap Hid%list_elem_of_singleton.
    pose proof (max_id_ge _ _ Hr'). cbn in Hid. lia.
  - apply Forall_app. split; [done|]. constructor; [cbn; lia|done].
  - rewrite fmap_app. apply NoDup_app. split; [done|]. split; [|apply NoDup_singleton].
    intros h (r' & -> & Hr')%list_elem_of_fmap Hh%list_elem_of_singleton. by apply (Hnone r').
  - apply Forall_app. split; [done|]. by repeat constructor.
  - rewrite fmap_app. change (torrents_fts (inserted doc t)) with (torrents_fts t ++ [fts_of r]). by rewrite A5.
  - destruct (term_rows_exact (doc_terms doc)) as (rows & Hrows & Hidx). intros v x.
    assert (terms (inserted doc t) = terms (insert_terms rows t)) as -> by (unfold inserted; by rewrite Hrows).
    rewrite elem_of_insert_terms, (Hidx v x), (A6 v x). split.
    + intros [(Hx & ? & ?)|((r' & Hr' & Hx) & ? & ?)]; (split; [|done]).
      * exists r. rewrite elem_of_app, list_elem_of_singleton. by split; [right|].
      * exists r'. rewrite elem_of_app. by split; [left|].
    + intros ((r' & Hr' & Hx) & ? & ?). apply elem_of_app in Hr' as [Hr'|Hr'%list_elem_of_singleton].
      * right. split; [by exists r'|done].
      * subst r'. by left.
  - unfold inserted. cbn [totals set_totals insert_terms set_terms set_torrents_fts set_torrents]. rewrite A7. cbn [fmap option_fmap option_map].
    rewrite length_app, sum_sizes_app, max_id_app. cbn [length fst snd row_id].
    assert (sum_sizes [r] = doc_size doc) as -> by (unfold sum_sizes; cbn; lia).
    f_equal. f_equal; [f_equal|]; unfold r; cbn [row_id]; lia.
Qed.

Lemma plus_document_same doc : same_torrent (plus_document doc).
Proof using. by intros d. Qed.
Lemma plus_counters_same u : same_torrent (plus_counters u).
Proof using. by intros d. Qed.

Lemma written_ok doc t : document_ok doc -> tables_ok t -> tables_ok (written t doc).
Proof using.
  intros Hdoc Ht. unfold written. destruct (find_row _ t) as [r|] eqn:Hr; [|by apply inserted_ok].
  apply update_rows_ok; [apply plus_document_same|done].
Qed.

Lemma all_written_ok docs t : Forall document_ok docs -> tables_ok t -> tables_ok (foldl written t docs).
Proof using.
  intros Hdocs. revert t. induction Hdocs as [|doc docs Hdoc _ IH]; intros t Ht; [done|]. cbn [foldl].
  by apply IH, written_ok.
Qed.

Lemma all_counted_ok updates t : tables_ok t -> tables_ok (foldl counted t updates).
Proof using.
  revert t. induction updates as [|u updates IH]; intros t Ht; [done|]. cbn [foldl].
  apply IH, update_rows_ok; [apply plus_counters_same|done].
Qed.

(** ** The table of torrents as a map *)

Lemma NoDup_fmap_same {A B} (f : A -> B) l x y : NoDup (f <$> l) -> x ∈ l -> y ∈ l -> f x = f y -> x = y.
Proof using.
  induction l as [|z l IH]; [by intros _ []%elem_of_nil|]. rewrite fmap_cons. intros [Hz Hnd]%NoDup_cons.
  rewrite !elem_of_cons. intros [->|Hx] [->|Hy] Hf; [done|exfalso; apply Hz..|by apply IH].
  - rewrite Hf. by apply list_elem_of_fmap_2.
  - rewrite <-Hf. by apply list_elem_of_fmap_2.
Qed.

Definition document_of t (h : bytes) : option document := row_document <$> find_row h t.

Definition merged doc (found : option document) : document :=
  match found with None => doc | Some d => plus_document doc d end.

Lemma document_of_Some t h (d : document) : tables_ok t ->
  document_of t h = Some d <-> exists r, r ∈ torrents t /\ doc_info_hash (row_document r) = h /\ row_document r = d.
Proof using.
  intros Ht. unfold document_of. rewrite fmap_Some. split.
  - intros (r & Hr & ->). apply find_row_Some in Hr as [? ?]; [|apply Ht]. by exists r.
  - intros (r & Hr & Hh & <-). exists r. split; [|done]. by apply find_row_Some; [apply Ht|].
Qed.

Lemma document_of_update which f t h :
  tables_ok t -> same_torrent f ->
  document_of (update_rows which f t) h =
    r ← find_row h t; Some (if which r then f (row_document r) else row_document r).
Proof using.
  intros Ht Hf. pose proof (update_rows_ok which f t Hf Ht) as Ht'. unfold document_of.
  destruct (find_row h t) as [r|] eqn:Hr; cbn [mbind option_bind].
  - apply find_row_Some in Hr as [Hr Hh]; [|apply Ht].
    rewrite (proj2 (find_row_Some _ h (if which r then Row (row_id r) (f (row_document r)) else r) (to_hashes _ Ht'))).
    + cbn. by destruct (which r).
    + split; [apply elem_of_update_rows; by exists r|]. destruct (which r); cbn [row_document]; [|done].
      rewrite <-Hh. apply Hf.
  - rewrite find_row_None in Hr. rewrite (proj2 (find_row_None _ h)); [done|].
    intros r (r0 & Hr0 & ->)%elem_of_update_rows. specialize (Hr r0 Hr0). destruct (which r0); [|done]. cbn [row_document].
    by rewrite (proj1 (Hf (row_document r0))).
Qed.

Lemma document_of_written t doc h :
  document_ok doc -> tables_ok t ->
  document_of (written t doc) h =
    if decide (h = doc_info_hash doc) then Some (merged doc (document_of t h)) else document_of t h.
Proof using.
  intros Hdoc Ht. pose proof (written_ok doc t Hdoc Ht) as Ht'. unfold written in *.
  destruct (find_row (doc_info_hash doc) t) as [r|] eqn:Hr.
  - rewrite document_of_update by done || apply plus_document_same. unfold document_of.
    pose proof Hr as [Hin Hh]%find_row_Some; [|apply Ht]. case_decide as Hd.
    + subst h. rewrite Hr. cbn. by rewrite Z.eqb_refl.
    + destruct (find_row h t) as [r'|] eqn:Hr'; [|done]. cbn. rewrite (proj2 (Z.eqb_neq _ _)); [done|]. intros Hid.
      apply find_row_Some in Hr' as [Hin' Hh']; [|apply Ht]. apply Hd. rewrite <-Hh, <-Hh'. f_equal. f_equal.
      by eapply (NoDup_fmap_same row_id); [apply (to_ids _ Ht)|..].
  - unfold document_of at 1. assert (torrents (inserted doc t) = torrents t ++ [Row (max_id (torrents t) + 1) doc]) as Htor by done.
    case_decide as Hd.
    + subst h. unfold document_of. rewrite Hr. cbn [merged fmap option_fmap option_map].
      rewrite (proj2 (find_row_Some _ (doc_info_hash doc) (Row (max_id (torrents t) + 1) doc) (to_hashes _ Ht'))); [done|].
      rewrite Htor, elem_of_app, list_elem_of_singleton. by split; [right|].
    + unfold document_of, find_row. rewrite Htor, filter_app, filter_cons. cbn [row_document].
      rewrite decide_False by congruence. by rewrite app_nil_r.
Qed.

Lemma document_of_counted t u h :
  tables_ok t -> document_of (counted t u) h =
    (if decide (h = cu_info_hash u) then plus_counters u <$> document_of t h else document_of t h).
Proof using.
  intros Ht. unfold counted. rewrite document_of_update by done || apply plus_counters_same. unfold document_of.
  destruct (find_row h t) as [r|] eqn:Hr; cbn; [|by case_decide].
  apply find_row_Some in Hr as [_ Hh]; [|apply Ht]. unfold has_hash. rewrite Hh.
  case_decide; [by rewrite bool_decide_eq_true_2|by rewrite bool_decide_eq_false_2].
Qed.

(** The updates that [update_counters] reports as missing are those of torrents
    that have no row. *)
Lemma missing_exact updates : forall t missing, tables_ok t ->
  missing_of t updates missing = missing ++ filter (fun h => document_of t h = None) (cu_info_hash <$> updates).
Proof using.
  induction updates as [|u updates IH]; intros t missing Ht; cbn [missing_of]; [by rewrite app_nil_r|].
  rewrite fmap_cons, filter_cons, IH by (apply update_rows_ok; [apply plus_counters_same|done]).
  assert (count_rows t (cu_info_hash u) = 0 <-> document_of t (cu_info_hash u) = None) as Hcount.
  { unfold count_rows, document_of, find_row, has_hash. generalize (torrents t). intros l.
    induction l as [|r l IHl]; [done|]. rewrite !filter_cons.
    repeat case_decide; rewrite ?bool_decide_eq_true in *; done. }
  assert (filter (fun h => document_of (counted t u) h = None) (cu_info_hash <$> updates) =
    filter (fun h => document_of t h = None) (cu_info_hash <$> updates)) as ->.
  { apply list_filter_iff. intros h. rewrite document_of_counted by done. case_decide; [|done]. by rewrite fmap_None. }
  case_bool_decide as Hz; rewrite Hcount in Hz.
  - rewrite decide_True by done. by rewrite <-app_assoc.
  - by rewrite decide_False.
Qed.

(** The counters reported for a document are those its row had. *)
Lemma previous_exact docs : forall t previous, tables_ok t -> Forall document_ok docs -> NoDup (doc_info_hash <$> docs) ->
  forall h, dict_get h (previous_counters t docs previous) =
    if decide (h ∈ doc_info_hash <$> docs) then
      match find_row h t with Some r => Some (row_counters r) | None => dict_get h previous end
    else dict_get h previous.
Proof using.
  induction docs as [|doc docs IH]; intros t previous Ht Hdocs Hnd h; cbn [previous_counters]; [done|].
  apply Forall_cons in Hdocs as [Hdoc Hdocs]. rewrite fmap_cons in Hnd. apply NoDup_cons in Hnd as [Hn Hnd].
  rewrite IH by (done || by apply written_ok).
  assert (dict_get h (previous_with t doc previous) =
    if decide (h = doc_info_hash doc) then
      match find_row h t with Some r => Some (row_counters r) | None => dict_get h previous end
    else dict_get h previous) as ->.
  { unfold previous_with. destruct (find_row (doc_info_hash doc) t) as [r|] eqn:Hr.
    - rewrite dict_get_set. case_decide as Hd; [|done]. subst h. by rewrite Hr.
    - case_decide as Hd; [|done]. subst h. by rewrite Hr. }
  destruct (decide (h = doc_info_hash doc)) as [->|Hd].
  - destruct (decide (doc_info_hash doc ∈ doc_info_hash <$> docs)) as [|_]; [done|].
    by rewrite decide_True by (rewrite fmap_cons; left).
  - assert (find_row h (written t doc) = None <-> find_row h t = None) as Hnone.
    { pose proof (document_of_written t doc h Hdoc Ht) as Hw. rewrite decide_False in Hw by done. unfold document_of in Hw.
      destruct (find_row h (written t doc)), (find_row h t); done. }
    assert (row_counters <$> find_row h (written t doc) = row_counters <$> find_row h t) as Hc.
    { pose proof (document_of_written t doc h Hdoc Ht) as Hw. rewrite decide_False in Hw by done. unfold document_of in Hw.
      destruct (find_row h (written t doc)), (find_row h t); try done. unfold row_counters. cbn in *. congruence. }
    rewrite fmap_cons. destruct (decide (h ∈ doc_info_hash <$> docs)) as [Hin|Hin].
    + rewrite decide_True by by right. by destruct (find_row h (written t doc)), (find_row h t).
    + rewrite decide_False; [done|]. by intros [?|?]%elem_of_cons.
Qed.

(** ** Opening *)

(** A file as an earlier run has left it, maybe one of a program that did not keep
    the totals, or not of all rows. *)
Definition totals_stale t : Prop :=
  match totals t with
  | None => True
  | Some (n, size, last_id) =>
      let counted := filter (fun r => (row_id r <= last_id)%Z) (torrents t) in
      n = Z.of_nat (length counted) /\ size = sum_sizes counted /\ (0 <= last_id <= max_id (torrents t))%Z
  end.
Record stored_ok t : Prop := StoredOk {
  so_ids : NoDup (row_id <$> torrents t);
  so_positive : Forall (fun r => (0 < row_id r)%Z) (torrents t);
  so_hashes : NoDup ((fun r => doc_info_hash (row_document r)) <$> torrents t);
  so_docs : Forall (fun r => length (doc_info_hash (row_document r)) = 40 /\ (0 <= doc_size (row_document r))%Z) (torrents t);
  so_fts : torrents_fts t = fts_of <$> torrents t;
  so_terms : indexes (fun x => exists r, r ∈ torrents t /\ x ∈ doc_terms (row_document r)) (terms t);
  so_totals : totals_stale t }.

Lemma older_and_newer (l : list row) (last_id : Z) :
  let older := filter (fun r => (row_id r <= last_id)%Z) l in
  let newer := filter (fun r => (last_id < row_id r)%Z) l in
  length older + length newer = length l /\ (sum_sizes older + sum_sizes newer = sum_sizes l)%Z.
Proof using.
  induction l as [|r l IH]; [done|]. cbv zeta in *. rewrite !filter_cons. unfold sum_sizes in *.
  destruct (decide (row_id r <= last_id)%Z), (decide (last_id < row_id r)%Z); try lia;
    rewrite !fmap_cons; cbn [length foldr]; lia.
Qed.

Lemma refresh_totals_ok t : stored_ok t -> tables_ok (refresh_totals t).
Proof using.
  intros [A1 A2 A3 A4 A5 A6 A7]. unfold refresh_totals, totals_stale in *.
  destruct (totals t) as [[[n size] last_id]|]; cbn [default from_option id].
  - destruct A7 as (-> & -> & H1 & H2). destruct (older_and_newer (torrents t) last_id) as [Hlen Hsum].
    split; try done. cbn [totals set_totals torrents]. f_equal. f_equal; [f_equal|]; lia.
  - destruct (older_and_newer (torrents t) 0) as [Hlen Hsum]. pose proof (max_id_nonneg (torrents t)).
    rewrite (filter_none (fun r => (row_id r <= 0)%Z)) in Hlen, Hsum.
    2,3: intros r Hr; rewrite Forall_forall in A2; specialize (A2 r Hr); lia.
    split; try done. cbn [totals set_totals torrents]. f_equal. f_equal; [f_equal|]; cbn in *; lia.
Qed.
End safety.
