(* ===== verification/TorrentDatabaseSearch.v ===== *)
(** Searches of the database: what the queries answer when no statement fails,
    and what holds of the rows they find. *)
From S2P Require Import Prelude PyDict Bencode NodeIdentity AddressText Krpc TorrentInfo Catalog Tasks TypoIndex.
From S2P Require Import TorrentDatabase TorrentDatabaseSafety.

Section search.
Context `{TextFunctions} (matches : list Z -> fts_row -> bool) (fault : nat -> bool).
Implicit Types (d : database) (t : tables).

(** ** Readers *)

(** Only the number of statements changes. *)
Definition still d d' : Prop := d' = set_statements (statements d') d /\ statements d <= statements d'.

Lemma db_still_refl d : still d d.
Proof using. split; [by destruct d|done]. Qed.
Lemma db_still_trans d d1 d2 : still d d1 -> still d1 d2 -> still d d2.
Proof using. intros [-> ?] [-> ?]. split; [done|]. cbn in *. lia. Qed.

(** On the committed tables [t] the reader answers [x], or a statement fails. *)
Definition answers {A} (m : task database A) t (x : A) : Prop := forall d, committed d = t ->
  tri m (fun y d' => y = x /\ still d d') (fun e d' => failed fault d e d' /\ still d d') d.

Lemma db_answers_bind {A B} (m : task database A) (f : A -> task database B) t x y :
  answers m t x -> answers (f x) t y -> answers (m ≫= f) t y.
Proof using.
  intros Hm Hf d Hd. apply tri_bind. eapply tri_mono; [by apply Hm| |done]. intros x' d1 [-> H1].
  assert (committed d1 = t) as Hd1 by (destruct H1 as [-> _]; done). eapply tri_mono; [by apply Hf|..].
  - intros y' d2 [-> H2]. split; [done|]. by eapply db_still_trans.
  - intros e d2 [Hf2 H2]. split; [|by eapply db_still_trans]. eapply failed_later; [|exact Hf2]. apply H1.
Qed.

Lemma answers_call {A} (r : res A) t x : r = Ok x -> answers (call r) t x.
Proof using. intros -> d Hd. split; [done|apply db_still_refl]. Qed.
Lemma answers_check c t : c = true -> answers (check c) t tt.
Proof using. intros ->. by apply answers_call. Qed.
Lemma answers_ret {A} (x : A) t : answers (mret x) t x.
Proof using. intros d Hd. split; [done|apply db_still_refl]. Qed.

Lemma answers_statement {A} (m : task database A) t x : answers m t x -> answers (statement fault m) t x.
Proof using.
  intros Hm d Hd. unfold statement. apply tri_bind, tri_reads, tri_bind, tri_change. set (d1 := set_statements _ d).
  assert (still d d1) as H1 by (split; [done|cbn; lia]). destruct (fault (statements d)) eqn:Hfault.
  - apply tri_throw. split; [|done]. split; [done|]. exists (statements d). cbn. split; [lia|done].
  - eapply tri_mono; [by apply Hm|..].
    + intros y d2 [-> H2]. split; [done|]. by eapply db_still_trans.
    + intros e d2 [Hf2 H2]. split; [|by eapply db_still_trans]. eapply failed_later; [|exact Hf2]. apply H1.
Qed.

Lemma db_answers_query {A} (f : tables -> A) t : answers (query fault f) t (f t).
Proof using. apply answers_statement. intros d <-. split; [done|apply db_still_refl]. Qed.

Lemma answers_connect t : answers (connect_reader fault) t tt.
Proof using.
  unfold connect_reader. eapply db_answers_bind; apply answers_statement, answers_ret.
Qed.

(** ** What a search finds *)

Definition record_of (r : row) : search_record :=
  let d := row_document r in
  SearchRecord (doc_info_hash d) (doc_name d) (doc_size d) (doc_file_count d) (doc_seen_count d)
    (doc_announce_count d) (doc_first_seen d) (doc_last_seen d).

Definition expression_of (terms : list (list Z)) (alternatives : option (list (list (list Z)))) : list Z :=
  match match_expression terms alternatives with Ok q => q | Raise _ => [] end.
Definition typos_of t (term : list Z) : list (list Z) :=
  match typo_terms (terms t) term with Ok l => l | Raise _ => [] end.

(** The alternatives, when a search needs some. *)
Definition any_typos t (words : list (list Z)) : bool := existsb (fun l => negb (bool_decide (l = []))) (typos_of t <$> words).
Definition wide_expression t (words : list (list Z)) : list Z :=
  if any_typos t words then expression_of words (Some (typos_of t <$> words)) else expression_of words None.

(** The rows of the second query whose torrents the first has not found. *)
Definition new_rows (exact wide : list row) : list row :=
  filter (fun r => sr_info_hash (record_of r) ∉ (fun r => sr_info_hash (record_of r)) <$> exact) wide.

Definition search_rows t (words : list (list Z)) (limit : nat) (sort : option sort_key_t) (descending : bool) : list row :=
  if bool_decide (words = []) then take limit (sort_by (order_clause sort descending) (torrents t))
  else
    let exact := match_rows matches (expression_of words None) limit sort descending t in
    let wide := match_rows matches (wide_expression t words) limit sort descending t in
    if bool_decide (length exact < limit) && any_typos t words then
      if bool_decide (sort = None)
      then exact ++ take (limit - length exact) (new_rows exact wide)
      else wide
    else exact.

Lemma search_records t l : tables_ok t -> (forall r, r ∈ l -> r ∈ torrents t) -> sequence (search_record_of <$> l) = Ok (record_of <$> l).
Proof using.
  intros Ht. induction l as [|r l IH]; intros Hl; [done|]. rewrite !fmap_cons. cbn [sequence].
  rewrite IH by (intros r' Hr'; apply Hl; by right). unfold search_record_of.
  pose proof (to_docs _ Ht) as Hd. rewrite Forall_forall in Hd. rewrite (proj1 (Hd r (Hl r ltac:(left)))). done.
Qed.

Lemma match_rows_in expression limit sort descending t r :
  r ∈ match_rows matches expression limit sort descending t -> r ∈ torrents t /\ is_match matches t expression r = true.
Proof using.
  unfold match_rows. intros Hr. apply elem_of_take in Hr as (i & Hr & _). apply list_elem_of_lookup_2 in Hr.
  by apply elem_of_sort_by, list_elem_of_filter in Hr as [? ?].
Qed.

Lemma length_match_rows expression limit sort descending t : length (match_rows matches expression limit sort descending t) <= limit.
Proof using. unfold match_rows. rewrite length_take. lia. Qed.

Lemma answers_run_match expression limit sort descending t :
  tables_ok t -> expression <> [] -> 1 <= limit ->
  answers (run_match matches fault expression limit sort descending) t
    (record_of <$> match_rows matches expression limit sort descending t).
Proof using.
  intros Ht Hne Hlim. unfold run_match. eapply db_answers_bind.
  { apply answers_check. by rewrite bool_decide_eq_false_2, bool_decide_eq_true_2. }
  eapply db_answers_bind; [apply db_answers_query|].
  eapply db_answers_bind; [apply answers_call, (search_records t); [done|intros r Hr; by apply match_rows_in in Hr as [? _]]|].
  eapply db_answers_bind; [|apply answers_ret]. apply answers_check, bool_decide_eq_true.
  rewrite length_fmap. apply length_match_rows.
Qed.

Lemma answers_lookup_typos t term : tables_ok t -> answers (lookup_typos fault term) t (typos_of t term).
Proof using.
  intros Ht. unfold lookup_typos, typos_of. destruct (typo_terms_exact _ _ term (to_terms _ Ht)) as (found & Hf & _).
  destruct (no_typo_lookup term) eqn:Hno.
  - unfold typo_terms. rewrite Hno. apply answers_ret.
  - eapply db_answers_bind; [apply db_answers_query|]. apply answers_call. by rewrite Hf.
Qed.

Lemma answers_map_typos t words : tables_ok t -> answers (map_task (lookup_typos fault) words) t (typos_of t <$> words).
Proof using.
  intros Ht. induction words as [|w words IH]; cbn [map_task]; [apply answers_ret|].
  eapply db_answers_bind; [by apply answers_lookup_typos|]. eapply db_answers_bind; [exact IH|]. apply answers_ret.
Qed.

Lemma match_expression_some words alternatives q : match_expression words alternatives = Ok q -> q <> [].
Proof using.
  unfold match_expression. intros (_ & [Hne _]%assert_Ok%andb_true_iff & Hq)%bind_Ok.
  apply bind_Ok in Hq as (_ & Hc%assert_Ok%bool_decide_eq_true & [= <-]). apply bool_decide_eq_true in Hne.
  intros Hnil. rewrite Hnil in Hc. cbn in Hc. lia.
Qed.

Lemma typos_words t term : tables_ok t -> Forall word (typos_of t term).
Proof using.
  intros Ht. unfold typos_of. destruct (typo_terms_exact _ _ term (to_terms _ Ht)) as (found & -> & _ & Hin).
  apply Forall_forall. intros x Hx. apply elem_of_take in Hx as (i & Hx & _). apply list_elem_of_lookup_2, Hin in Hx.
  destruct Hx as (_ & _ & (r & _ & Hx) & _). unfold doc_terms in Hx.
  assert (forall s, x ∈ tokens s -> word x) as Hw.
  { intros s. destruct (text_terms_returns s) as [_ Hall]. rewrite Forall_forall in Hall. apply Hall. }
  apply elem_of_app in Hx as [Hx|(l & Hl%list_elem_of_In & Hx%list_elem_of_In)%list_elem_of_In%in_concat]; [by eapply Hw|].
  apply list_elem_of_fmap in Hl as (s & -> & _). by eapply Hw.
Qed.

Lemma expression_returns t words alternatives :
  tables_ok t -> words <> [] -> Forall word words ->
  alternatives = None \/ alternatives = Some (typos_of t <$> words) ->
  match_expression words alternatives = Ok (expression_of words alternatives) /\ expression_of words alternatives <> [].
Proof using.
  intros Ht Hne Hw Halt. destruct (match_expression_returns words alternatives Hne Hw) as [q Hq].
  - intros l ->. destruct Halt as [|[= ->]]; [done|]. rewrite length_fmap. split; [done|].
    apply Forall_fmap, Forall_forall. intros x _. by apply typos_words.
  - unfold expression_of. rewrite Hq. split; [done|]. by eapply match_expression_some.
Qed.

Lemma filter_records (l found : list row) :
  filter (fun r => sr_info_hash r ∉ (sr_info_hash <$> (record_of <$> found))) (record_of <$> l) =
  record_of <$> new_rows found l.
Proof using.
  unfold new_rows. rewrite <-list_fmap_compose. induction l as [|r l IH]; [done|]. rewrite fmap_cons, !filter_cons, IH.
  unfold compose. by case_decide.
Qed.

Lemma answers_search text limit sort descending t :
  tables_ok t -> 1 <= limit ->
  answers (TorrentDatabase.search matches fault text limit sort descending) t
    (record_of <$> search_rows t (take MAX_QUERY_TERMS (tokens text)) limit sort descending).
Proof using.
  intros Ht Hlim. unfold TorrentDatabase.search. eapply db_answers_bind; [apply answers_check; by apply bool_decide_eq_true|].
  destruct (text_terms_returns text) as [Htok Hwords]. eapply db_answers_bind; [by apply answers_call|].
  set (words := take MAX_QUERY_TERMS (tokens text)).
  assert (Forall word words) as Hw by (by apply Forall_take). clearbody words. clear Htok Hwords.
  eapply db_answers_bind; [apply answers_connect|]. cbv zeta. unfold search_rows.
  destruct (bool_decide (words = [])) eqn:Hnil; cbn [negb andb].
  - eapply db_answers_bind.
    { eapply db_answers_bind; [apply db_answers_query|]. apply answers_call, (search_records t); [done|].
      intros r Hr. apply elem_of_take in Hr as (i & Hr & _). by apply list_elem_of_lookup_2, elem_of_sort_by in Hr. }
    eapply db_answers_bind; [apply answers_ret|]. eapply db_answers_bind; [|apply answers_ret].
    apply answers_check, bool_decide_eq_true. rewrite length_fmap, length_take. lia.
  - apply bool_decide_eq_false in Hnil.
    destruct (expression_returns t words None Ht Hnil Hw (or_introl eq_refl)) as [He Hne].
    destruct (expression_returns t words (Some (typos_of t <$> words)) Ht Hnil Hw (or_intror eq_refl)) as [He' Hne'].
    set (exact := match_rows matches (expression_of words None) limit sort descending t).
    pose proof (length_match_rows (expression_of words None) limit sort descending t) as Hlen. fold exact in Hlen.
    eapply db_answers_bind; [eapply db_answers_bind; [by apply answers_call|]; by apply answers_run_match|]. fold exact.
    rewrite length_fmap. eapply db_answers_bind; [|eapply db_answers_bind; [|apply answers_ret]].
    + unfold wide_expression. destruct (bool_decide (length exact < limit)) eqn:Hroom; cbn [andb]; [|apply answers_ret].
      eapply db_answers_bind; [by apply answers_map_typos|]. cbv zeta. fold (any_typos t words).
      destruct (any_typos t words); cbn [andb]; [|apply answers_ret].
      destruct sort as [sort|]; cbn [negb bool_decide].
      * eapply db_answers_bind; [by apply answers_call|]. by apply answers_run_match.
      * eapply db_answers_bind; [by apply answers_call|]. eapply db_answers_bind; [by apply answers_run_match|].
        rewrite filter_records, <-fmap_take, <-fmap_app. apply answers_ret.
    + apply answers_check, bool_decide_eq_true. rewrite length_fmap. destruct (bool_decide (length exact < limit)); cbn [andb]; [|done].
      destruct (any_typos t words); [|done]. case_bool_decide; [|apply length_match_rows].
      rewrite length_app, length_take. lia.
Qed.

(** ** The orders *)

Lemma columns_total x y : length x = length y -> columns_leb x y = true \/ columns_leb y x = true.
Proof using.
  revert y. induction x as [|a x IH]; intros [|b y] Hl; cbn [columns_leb]; auto. injection Hl as Hl.
  destruct (decide (a = b)) as [->|Hab].
  - rewrite !bool_decide_eq_true_2 by done. by apply IH.
  - rewrite !bool_decide_eq_false_2 by congruence. apply lex_leb_total.
Qed.

Lemma columns_trans x y z :
  length x = length y -> length y = length z ->
  columns_leb x y = true -> columns_leb y z = true -> columns_leb x z = true.
Proof using.
  revert y z. induction x as [|a x IH]; intros [|b y] [|c z] [=] [=]; cbn [columns_leb]; try done.
  repeat case_bool_decide; subst; try done; eauto using lex_leb_trans.
  intros Hxy Hyz. exfalso. eauto using lex_leb_antisym.
Qed.

Lemma length_order_columns sort x y : length (order_columns sort x) = length (order_columns sort y).
Proof using. by destruct sort as [[]|]. Qed.

Lemma order_total sort descending x y : order_clause sort descending x y = true \/ order_clause sort descending y x = true.
Proof using. unfold order_clause. destruct (_ || descending); apply columns_total, length_order_columns. Qed.

Lemma order_trans sort descending x y z :
  order_clause sort descending x y = true -> order_clause sort descending y z = true -> order_clause sort descending x z = true.
Proof using.
  unfold order_clause. destruct (_ || descending); intros H1 H2; eapply columns_trans; eauto using length_order_columns.
Qed.

Lemma name_first_total t e x y : name_first matches t e x y = true \/ name_first matches t e y x = true.
Proof using.
  unfold name_first. destruct (is_match matches t (in_name e) x), (is_match matches t (in_name e) y); cbn [Bool.eqb]; auto;
    apply order_total.
Qed.

Lemma name_first_trans t e x y z :
  name_first matches t e x y = true -> name_first matches t e y z = true -> name_first matches t e x z = true.
Proof using.
  unfold name_first. destruct (is_match matches t (in_name e) x), (is_match matches t (in_name e) y),
    (is_match matches t (in_name e) z); cbn [Bool.eqb]; try done; apply order_trans.
Qed.

(** What the rows of a match are: the first of those that match. *)
Definition match_order t (expression : list Z) (sort : option sort_key_t) (descending : bool) : row -> row -> bool :=
  match sort with None => name_first matches t expression | Some _ => order_clause sort descending end.

Lemma match_order_total t e sort descending x y :
  match_order t e sort descending x y = true \/ match_order t e sort descending y x = true.
Proof using. unfold match_order. destruct sort; [apply order_total|apply name_first_total]. Qed.

Lemma match_order_trans t e sort descending x y z :
  match_order t e sort descending x y = true -> match_order t e sort descending y z = true ->
  match_order t e sort descending x z = true.
Proof using. unfold match_order. destruct sort; [apply order_trans|apply name_first_trans]. Qed.

(** A row that matches is among the rows found, or these are as many as wanted and
    none of them comes after it. *)
Lemma match_rows_best t e limit sort descending r :
  r ∈ torrents t -> is_match matches t e r = true ->
  let found := match_rows matches e limit sort descending t in
  r ∈ found \/ length found = limit /\ Forall (fun x => match_order t e sort descending x r = true) found.
Proof using.
  intros Hr Hm. cbv zeta. unfold match_rows. fold (match_order t e sort descending). set (matching := filter _ _).
  assert (r ∈ sort_by (match_order t e sort descending) matching) as Hin
    by (apply elem_of_sort_by, list_elem_of_filter; done).
  rewrite <-(take_drop limit (sort_by (match_order t e sort descending) matching)) in Hin.
  apply elem_of_app in Hin as [Hin|Hin]; [by left|right]. split.
  - rewrite length_take. apply Nat.min_l. destruct (decide (limit <= length (sort_by (match_order t e sort descending) matching))) as [|Hd]; [done|].
    rewrite drop_ge in Hin by lia. by apply elem_of_nil in Hin.
  - apply Forall_forall. intros x Hx. eapply sort_by_take_smallest; [| |exact Hx|exact Hin];
      [apply match_order_total|apply match_order_trans].
Qed.

Lemma NoDup_match_rows t e limit sort descending :
  tables_ok t -> NoDup (match_rows matches e limit sort descending t).
Proof using.
  intros Ht. unfold match_rows. eapply sublist_NoDup; [|apply sublist_take]. rewrite sort_by_Permutation.
  apply NoDup_filter. eapply NoDup_fmap_1, (to_hashes _ Ht).
Qed.

(** Rows of the database are told apart by their hashes. *)
Lemma hashes_tell t l : tables_ok t -> (forall r, r ∈ l -> r ∈ torrents t) -> NoDup l ->
  NoDup (sr_info_hash <$> (record_of <$> l)).
Proof using.
  intros Ht Hl Hnd. rewrite <-list_fmap_compose. induction Hnd as [|r l Hr Hnd IH]; [constructor|].
  rewrite fmap_cons. constructor; [|apply IH; intros r' Hr'; apply Hl; by right].
  intros (r' & Hh & Hr')%list_elem_of_fmap. apply Hr.
  assert (r = r') as ->; [|done]. eapply (NoDup_fmap_same (fun r => doc_info_hash (row_document r)));
    [apply (to_hashes _ Ht)|apply Hl; left|apply Hl; by right|done].
Qed.

Lemma elem_of_new_rows t exact wide r :
  tables_ok t -> (forall r, r ∈ exact -> r ∈ torrents t) -> (forall r, r ∈ wide -> r ∈ torrents t) ->
  r ∈ new_rows exact wide <-> r ∈ wide /\ r ∉ exact.
Proof using.
  intros Ht He Hw. unfold new_rows. rewrite list_elem_of_filter. split.
  - intros [Hn Hr]. split; [done|]. intros Hx. apply Hn. by apply (list_elem_of_fmap_2 (fun r => sr_info_hash (record_of r))).
  - intros [Hr Hn]. split; [|done]. intros (r' & Hh & Hr')%list_elem_of_fmap. apply Hn.
    assert (r = r') as ->; [|done]. eapply (NoDup_fmap_same (fun r => doc_info_hash (row_document r)));
      [apply (to_hashes _ Ht)|by apply Hw|by apply He|done].
Qed.

(** The rows that both queries find between them, when there is room for more. *)
Lemma new_rows_all t exact wide limit r :
  tables_ok t -> (forall r, r ∈ exact -> r ∈ torrents t) -> (forall r, r ∈ wide -> r ∈ torrents t) -> NoDup wide ->
  r ∈ wide \/ length wide = limit ->
  length (exact ++ take (limit - length exact) (new_rows exact wide)) < limit ->
  r ∈ wide /\ r ∈ exact ++ take (limit - length exact) (new_rows exact wide).
Proof using.
  intros Ht He Hw Hnd Hr Hlt. rewrite length_app, length_take in Hlt. rewrite take_ge by lia.
  assert (forall x, x ∈ wide -> x ∈ exact ++ new_rows exact wide) as Hall.
  { intros x Hx. rewrite elem_of_app, (elem_of_new_rows t) by done. destruct (decide (x ∈ exact)); [by left|by right]. }
  destruct Hr as [Hr|Hl]; [by split; [|apply Hall]|]. exfalso.
  assert (length wide <= length (exact ++ new_rows exact wide)) as Hle; [|rewrite length_app in Hle; lia].
  by apply submseteq_length, NoDup_submseteq.
Qed.

(** The rows are those of the database that match, each once, no more than wanted. *)
Definition found_ok t (words : list (list Z)) (limit : nat) (rows : list row) : Prop :=
  length rows <= limit /\ NoDup rows /\
  forall r, r ∈ rows -> r ∈ torrents t /\ (words <> [] ->
     is_match matches t (expression_of words None) r = true \/ is_match matches t (wide_expression t words) r = true).

(** A row that the expression matches is found, or it comes after all the rows
    found, which match the expression too and are as many as wanted. *)
Definition ranked t (e : list Z) (limit : nat) (rows : list row) : Prop :=
  forall r, r ∈ torrents t -> is_match matches t e r = true ->
  r ∈ rows \/ length rows = limit /\ Forall (fun x => is_match matches t e x = true /\ name_first matches t e x r = true) rows.

(** Unless as many rows as wanted are found, every row that the expression matches
    is. *)
Definition complete t (e : list Z) (limit : nat) (rows : list row) : Prop :=
  forall r, r ∈ torrents t -> is_match matches t e r = true -> length rows < limit -> r ∈ rows.

Lemma match_rows_ranked t e limit descending : ranked t e limit (match_rows matches e limit None descending t).
Proof using.
  intros r Hr Hm. destruct (match_rows_best t e limit None descending r Hr Hm) as [|[Hl Hall]]; [by left|right].
  split; [done|]. rewrite Forall_forall in *. intros x Hx. split; [by eapply match_rows_in|by apply Hall].
Qed.

Lemma match_rows_complete t e limit sort descending : complete t e limit (match_rows matches e limit sort descending t).
Proof using. intros r Hr Hm Hlt. destruct (match_rows_best t e limit sort descending r Hr Hm) as [|[Hl _]]; [done|lia]. Qed.

Lemma match_rows_found t words limit sort descending e :
  tables_ok t -> e = expression_of words None \/ e = wide_expression t words ->
  found_ok t words limit (match_rows matches e limit sort descending t).
Proof using.
  intros Ht He. split; [apply length_match_rows|]. split; [by apply NoDup_match_rows|].
  intros r [Hr Hm]%match_rows_in. split; [done|]. intros _. destruct He as [<-| <-]; [by left|by right].
Qed.

Lemma search_rows_ok t words limit sort descending :
  tables_ok t ->
  let rows := search_rows t words limit sort descending in
  found_ok t words limit rows /\ (words <> [] ->
    (sort = None -> ranked t (expression_of words None) limit rows) /\ complete t (wide_expression t words) limit rows).
Proof using.
  intros Ht. cbv zeta. unfold search_rows. destruct (bool_decide (words = [])) eqn:Hnil.
  { apply bool_decide_eq_true in Hnil. split; [|done]. split; [rewrite length_take; lia|]. split.
    - eapply sublist_NoDup; [|apply sublist_take]. rewrite sort_by_Permutation. eapply NoDup_fmap_1, (to_hashes _ Ht).
    - intros r Hr. apply elem_of_take in Hr as (i & Hr & _). by apply list_elem_of_lookup_2, elem_of_sort_by in Hr. }
  set (e := expression_of words None). set (w := wide_expression t words).
  pose proof (match_rows_found t words limit sort descending e Ht (or_introl eq_refl)) as Hfe.
  pose proof (match_rows_found t words limit sort descending w Ht (or_intror eq_refl)) as Hfw.
  pose proof (match_rows_complete t e limit sort descending) as Hce.
  pose proof (match_rows_complete t w limit sort descending) as Hcw.
  assert (sort = None -> ranked t e limit (match_rows matches e limit sort descending t)) as Hre
    by (intros ->; apply match_rows_ranked).
  destruct (bool_decide (length (match_rows matches e limit sort descending t) < limit)) eqn:Hroom; cbn [andb].
  2: { split; [done|]. intros _. split; [done|]. intros r _ _ Hlt. apply bool_decide_eq_false in Hroom. lia. }
  apply bool_decide_eq_true in Hroom. destruct (any_typos t words) eqn:Hany.
  2: { split; [done|]. intros _. split; [done|]. unfold w, wide_expression. rewrite Hany. exact Hce. }
  clear Hnil. case_bool_decide as Hsort; [|by split].
  set (exact := match_rows matches e limit sort descending t) in *. set (wide := match_rows matches w limit sort descending t) in *.
  destruct Hfe as (Hle & Hne & Hine), Hfw as (Hlw & Hnw & Hinw).
  assert (forall r, r ∈ exact -> r ∈ torrents t) as He by (intros; by apply Hine).
  assert (forall r, r ∈ wide -> r ∈ torrents t) as Hw by (intros; by apply Hinw).
  split; [split; [rewrite length_app, length_take; lia|split]|intros _; split].
  - apply NoDup_app. split; [done|]. split; [|eapply sublist_NoDup; [|apply sublist_take]; unfold new_rows; by apply NoDup_filter].
    intros r Hx Hr. apply elem_of_take in Hr as (i & Hr & _). apply list_elem_of_lookup_2 in Hr.
    apply (elem_of_new_rows t) in Hr as [_ Hr]; done.
  - intros r [Hr|Hr]%elem_of_app; [by apply Hine|]. apply elem_of_take in Hr as (i & Hr & _).
    apply list_elem_of_lookup_2 in Hr. apply (elem_of_new_rows t) in Hr as [Hr _]; [by apply Hinw|done..].
  - intros _ r Hr Hm. left. apply elem_of_app. left. by apply Hce.
  - intros r Hr Hm Hlt. apply (new_rows_all t); try done.
    destruct (decide (length wide < limit)) as [Hd|Hd]; [left; by apply Hcw|right; lia].
Qed.
End search.
