(* ===== verification/TorrentDatabaseTheorems.v ===== *)
(** The theorems about the search database: its writes are those of a map from
    hashes to documents and happen as a whole or not at all, its typo index finds
    exactly the terms within one edit, and its searches find what matches. *)
From S2P Require Import Prelude PyDict Bencode NodeIdentity AddressText Krpc TorrentInfo Catalog Tasks TypoIndex.
From S2P Require Import TorrentDatabase TorrentDatabaseSafety TorrentDatabaseSearch.

(** ** The abstract database *)

(** The database as its callers see it: a document for each known hash. *)
Definition torrent_map : Type := bytes -> option document.

Definition put_document (m : torrent_map) (doc : document) : torrent_map := fun h =>
  if decide (h = doc_info_hash doc) then Some (merged doc (m h)) else m h.
Definition put_counters (m : torrent_map) (u : counter_update) : torrent_map := fun h =>
  if decide (h = cu_info_hash u) then plus_counters u <$> m h else m h.

(** The two calls that write, and what they return. *)
Inductive write_call := Write_documents (docs : list document) | Update_counters (updates : list counter_update).
Inductive write_result := Previous (counters : list (bytes * counters)) | Missing (hashes : list bytes).

Definition call_ok (k : write_call) : Prop :=
  match k with
  | Write_documents docs => Forall document_ok docs /\ NoDup (doc_info_hash <$> docs)
  | Update_counters updates => Forall update_ok updates
  end.

Definition document_counters (d : document) : counters := (doc_seen_count d, doc_announce_count d, doc_first_seen d).

(** What a call does to the map, and what it tells of the map as it was: the
    counters of the documents that were there, the hashes that were not. *)
Definition map_after (k : write_call) (m : torrent_map) : torrent_map :=
  match k with
  | Write_documents docs => foldl put_document m docs
  | Update_counters updates => foldl put_counters m updates
  end.
Definition tells (k : write_call) (m : torrent_map) (r : write_result) : Prop :=
  match k, r with
  | Write_documents docs, Previous l => forall h,
      dict_get h l = if decide (h ∈ doc_info_hash <$> docs) then document_counters <$> m h else None
  | Update_counters updates, Missing l => l = filter (fun h => m h = None) (cu_info_hash <$> updates)
  | _, _ => False
  end.

Section theorems.
Context `{TextFunctions} (matches : list Z -> fts_row -> bool) (fault : nat -> bool).
Implicit Types (d : database) (t : tables).

Definition run_write (k : write_call) : task database write_result :=
  match k with
  | Write_documents docs => l ← write_documents fault docs; mret (Previous l)
  | Update_counters updates => l ← update_counters fault updates; mret (Missing l)
  end.

Lemma map_after_written docs : forall t h, tables_ok t -> Forall document_ok docs ->
  document_of (foldl written t docs) h = foldl put_document (document_of t) docs h.
Proof using.
  induction docs as [|doc docs IH]; intros t h Ht Hdocs; [done|]. apply Forall_cons in Hdocs as [Hdoc Hdocs].
  cbn [foldl]. rewrite IH by (done || by apply written_ok).
  assert (forall (m m' : torrent_map) l, (forall x, m x = m' x) -> forall x, foldl put_document m l x = foldl put_document m' l x) as Hext.
  { clear. intros m m' l. revert m m'. induction l as [|doc l IHl]; intros m m' Hm x; cbn [foldl]; [done|].
    apply IHl. intros y. unfold put_document. by rewrite Hm. }
  apply Hext. intros x. by apply document_of_written.
Qed.

Lemma map_after_counted updates : forall t h, tables_ok t ->
  document_of (foldl counted t updates) h = foldl put_counters (document_of t) updates h.
Proof using.
  induction updates as [|u updates IH]; intros t h Ht; [done|]. cbn [foldl].
  rewrite IH by (apply update_rows_ok; [apply plus_counters_same|done]).
  assert (forall (m m' : torrent_map) l, (forall x, m x = m' x) -> forall x, foldl put_counters m l x = foldl put_counters m' l x) as Hext.
  { clear. intros m m' l. revert m m'. induction l as [|w l IHl]; intros m m' Hm x; cbn [foldl]; [done|].
    apply IHl. intros y. unfold put_counters. by rewrite Hm. }
  apply Hext. intros x. by apply document_of_counted.
Qed.

(** C24. The database is a map from hashes to documents.  On an open database in
    order each call that writes either returns, with the tables in order, the map
    changed as the call says and what it was told of the map before; or one of
    its statements has failed, and it raises [sqlite3.Error] and nothing has
    changed.  Either way no transaction is left open. *)
Theorem writes_refine_map k d :
  opened d = true -> working d = None -> tables_ok (committed d) -> call_ok k ->
  match run_write k d with
  | (Ok r, d') => tables_ok (committed d') /\ tells k (document_of (committed d)) r /\
      (forall h, document_of (committed d') h = map_after k (document_of (committed d)) h) /\
      opened d' = true /\ working d' = None
  | (Raise e, d') => e = SqliteError /\ committed d' = committed d /\ opened d' = true /\ working d' = None /\
      exists n, statements d <= n < statements d' /\ fault n = true
  end.
Proof using.
  intros Ho Hw Ht Hk. change (tri (run_write k) (fun r d' => tables_ok (committed d') /\ tells k (document_of (committed d)) r /\
      (forall h, document_of (committed d') h = map_after k (document_of (committed d)) h) /\
      opened d' = true /\ working d' = None)
    (fun e d' => e = SqliteError /\ committed d' = committed d /\ opened d' = true /\ working d' = None /\
      exists n, statements d <= n < statements d' /\ fault n = true) d).
  destruct k as [docs|updates]; cbn [run_write call_ok map_after tells] in *; apply tri_bind.
  - destruct Hk as [Hdocs Hnd]. eapply tri_mono; [by apply tri_write_documents|..].
    + intros previous d' (-> & -> & _). apply tri_ret. split; [by apply all_written_ok|]. split.
      * intros h. rewrite previous_exact by done. case_decide; [|done]. unfold document_of.
        by destruct (find_row h (committed d)).
      * split; [|done]. intros h. by apply map_after_written.
    + intros e d' [[-> Hn] ->]. by split.
  - eapply tri_mono; [by apply tri_update_counters|..].
    + intros missing d' (-> & -> & _). apply tri_ret. split; [by apply all_counted_ok|]. split; [by apply missing_exact|].
      split; [|done]. intros h. by apply map_after_counted.
    + intros e d' [[-> Hn] ->]. by split.
Qed.

(** C25. The typo index finds a term exactly when it is one typing error away.  In
    a database in order, and for a term that is long enough and no number, the
    lookup returns the first [MAX_TYPO_TERMS], in alphabetical order, of all the
    terms in names and paths of the documents that are within the indexed lengths
    and differ from it by one character replaced, left out or added or by two
    neighbours swapped; for other terms it returns none. *)
Theorem database_typos_exact t term :
  tables_ok t ->
  exists found, typo_terms (terms t) term = Ok (take MAX_TYPO_TERMS found) /\ StronglySorted text_lt found /\
    forall x, x ∈ found <->
      MIN_TYPO_LENGTH <= length term /\ forallb is_digit_char term = false /\
      (exists r, r ∈ torrents t /\ x ∈ doc_terms (row_document r)) /\
      MIN_TERM_LENGTH <= length x <= MAX_TERM_LENGTH /\ x <> term /\ one_edit term x.
Proof using. intros Ht. apply typo_terms_exact, (to_terms _ Ht). Qed.

(** C26. A search finds what matches.  On a database in order a search returns, or
    one of its statements has failed and it raises [sqlite3.Error].  What it
    returns are the records of distinct torrents, no more than [limit], and if it
    asks for words, of torrents that match the words or alternatives within one
    edit.  Without a sort column the torrents that match the words themselves
    come before all others: one that is left out comes after every one returned,
    and these are as many as wanted.  If fewer than [limit] are returned none that
    matches is left out. *)
Theorem search_finds text limit sort descending d :
  tables_ok (committed d) -> 1 <= limit ->
  let words := take MAX_QUERY_TERMS (tokens text) in
  match TorrentDatabase.search matches fault text limit sort descending d with
  | (Ok records, d') => committed d' = committed d /\ NoDup (sr_info_hash <$> records) /\
      exists rows, records = record_of <$> rows /\ found_ok matches (committed d) words limit rows /\ (words <> [] ->
        (sort = None -> ranked matches (committed d) (expression_of words None) limit rows) /\
        complete matches (committed d) (wide_expression (committed d) words) limit rows)
  | (Raise e, d') => e = SqliteError /\ committed d' = committed d /\
      exists n, statements d <= n < statements d' /\ fault n = true
  end.
Proof using.
  intros Ht Hlim words. pose proof (answers_search matches fault text limit sort descending _ Ht Hlim d eq_refl) as Hs.
  unfold tri in Hs. fold words in Hs. destruct (search_rows_ok matches (committed d) words limit sort descending Ht) as [Hf Hc].
  destruct (TorrentDatabase.search _ _ _ _ _ _ _) as [[records|e] d'].
  - destruct Hs as [-> [Hd' _]]. split; [by rewrite Hd'|]. split; [|by eexists].
    eapply hashes_tell; [exact Ht| |apply Hf]. intros r Hr. by apply Hf.
  - destruct Hs as [[-> Hn] [Hd' _]]. split; [done|]. split; [by rewrite Hd'|done].
Qed.
End theorems.

(** ** Examples *)

#[local] Existing Instance ascii_text.

Definition example_document : document :=
  Document (hex (replicate 20 Byte.x0a)) (chars "Ubuntu Linux") 700 1 16 false 5 3 1 1 4 [(chars "ubuntu.iso", 700%Z)].
Definition example_empty : tables := refresh_totals no_tables.
Definition example_file : database := Database SCHEMA_VERSION 1 example_empty true None 0.
Definition example_stored : tables := written example_empty example_document.
Definition example_indexed : database := Database SCHEMA_VERSION 1 example_stored true None 0.
Definition no_faults (n : nat) : bool := false.
(** Stands for FTS5: a word of the name is in the expression, in quotes. *)
Definition example_matches (expression : list Z) (row : fts_row) : bool :=
  existsb (fun word => contains_text (quoted word) expression) (tokens row.2.1).

Lemma example_empty_ok : tables_ok example_empty.
Proof.
  apply refresh_totals_ok. split; try constructor; try done.
  - by intros []%elem_of_nil.
  - by intros ((r & []%elem_of_nil & _) & _).
Qed.

Lemma example_document_ok : document_ok example_document.
Proof. split; [done|done|]. repeat (constructor; [split; vm_compute; discriminate|]). constructor. Qed.

Lemma example_stored_ok : tables_ok example_stored.
Proof. apply written_ok; [apply example_document_ok|apply example_empty_ok]. Qed.

Lemma writes_refine_map_witness :
  exists r d', run_write no_faults (Write_documents [example_document]) example_file = (Ok r, d') /\
    document_of (committed d') (doc_info_hash example_document) = Some example_document.
Proof.
  pose proof (writes_refine_map no_faults (Write_documents [example_document]) example_file eq_refl eq_refl example_empty_ok) as Hw.
  destruct (run_write _ _ _) as [[r|e] d'].
  - destruct Hw as (_ & _ & Hm & _); [split; [by repeat constructor; apply example_document_ok|apply NoDup_singleton]|].
    exists r, d'. split; [reflexivity|]. rewrite Hm. vm_compute. reflexivity.
  - destruct Hw as (_ & _ & _ & _ & n & _ & Hn); [split; [by repeat constructor; apply example_document_ok|apply NoDup_singleton]|].
    discriminate Hn.
Defined.

Lemma database_typos_exact_witness :
  exists found, typo_terms (terms example_stored) (chars "ubunto") = Ok (take MAX_TYPO_TERMS found) /\ chars "ubuntu" ∈ found.
Proof.
  destruct (database_typos_exact example_stored (chars "ubunto") example_stored_ok) as (found & Hf & _ & Hin).
  exists found. split; [exact Hf|]. apply Hin. split; [vm_compute; lia|]. split; [reflexivity|]. split.
  - exists (Row 1 example_document). split; [left|]. apply (bool_decide_eq_true_1 (_ ∈ _)). vm_compute. reflexivity.
  - split; [split; vm_compute; lia|]. split; [discriminate|]. apply within_one_edit_spec. vm_compute. reflexivity.
Defined.

Lemma search_finds_witness :
  exists records d', TorrentDatabase.search example_matches no_faults (chars "ubunto") 20 None true example_indexed = (Ok records, d') /\
    sr_info_hash <$> records = [hex (replicate 20 Byte.x0a)].
Proof.
  pose proof (search_finds example_matches no_faults (chars "ubunto") 20 None true example_indexed example_stored_ok ltac:(lia)) as Hs.
  cbv zeta in Hs. destruct (TorrentDatabase.search _ _ _ _ _ _ _) as [[records|e] d'] eqn:He.
  - exists records, d'. split; [reflexivity|]. apply (f_equal (fun r => match r.1 with Ok l => sr_info_hash <$> l | Raise _ => [] end)) in He.
    cbn [fst] in He. rewrite <-He. vm_compute. reflexivity.
  - destruct Hs as (_ & _ & n & _ & Hn). discriminate Hn.
Defined.
