(* ===== verification/TaskLoops.v ===== *)
(** Loops of coroutines.  A loop is written with a number of rounds and raises
    [Diverge] when they are used up; here is what it means that there are enough
    of them, and which tasks come to an end without any. *)
From S2P Require Import Prelude Tasks.

(** [m] runs to its end, whatever that is. *)
Definition terminates {S A} (m : task S A) : Prop := forall s,
  tri m (fun _ _ => True) (fun e _ => e <> Diverge) s.

(** With enough rounds, and then with any number of more, [m] always comes to
    the same end, which is as [Q] and [E] say. *)
Definition eventually {S A} (m : nat -> task S A) (Q : A -> S -> Prop) (E : exn -> S -> Prop) (s : S) : Prop :=
  exists n r, (forall n', n <= n' -> m n' s = r) /\ tri (fun _ => r) Q E s.

(** With enough rounds [m] returns, and leaves [s']. *)
Definition completes {S} (m : nat -> task S unit) (s s' : S) : Prop :=
  exists enough, forall rounds, enough <= rounds -> m rounds s = (Ok tt, s').

Section loops.
Context {S : Type}.
Implicit Types (s : S) (E : exn -> S -> Prop).

Lemma terminates_bind {A B} (m : task S A) (f : A -> task S B) :
  terminates m -> (forall a, terminates (f a)) -> terminates (m ≫= f).
Proof. intros Hm Hf s. apply tri_bind. eapply tri_mono; [apply Hm| |done]. intros a s' _. apply Hf. Qed.

Lemma terminates_catch {A} (m : task S A) h : terminates m -> (forall e, e <> Diverge -> terminates (h e)) -> terminates (catch m h).
Proof. intros Hm Hh s. apply tri_catch. eapply tri_mono; [apply Hm|done|]. intros e s' He. by apply Hh. Qed.

Lemma terminates_throw {A} e : e <> Diverge -> terminates (throw (S := S) (A := A) e).
Proof. intros He s. exact He. Qed.

Lemma terminates_call {A} (r : res A) : r <> Raise Diverge -> terminates (call (S := S) r).
Proof. intros Hr s. unfold tri, call. destruct r; [done|congruence]. Qed.

Lemma terminates_check c : terminates (check (S := S) c).
Proof. by destruct c. Qed.

Lemma terminates_each {A} (f : A -> task S unit) l : (forall x, terminates (f x)) -> terminates (each f l).
Proof. intros Hf. induction l as [|x l IH]; cbn [each]; [done|]. by apply terminates_bind. Qed.

Lemma terminates_when (c : bool) (m : task S unit) : (c = true -> terminates m) -> terminates (when c m).
Proof. destruct c; [auto|done]. Qed.

(** ** Enough rounds *)

Lemma eventually_const {A} (m : task S A) Q E s : tri m Q E s -> eventually (fun _ => m) Q E s.
Proof. intros Hm. exists 0, (m s). split; [done|exact Hm]. Qed.

Lemma eventually_mono {A} (m : nat -> task S A) (Q Q' : A -> S -> Prop) E E' s :
  eventually m Q E s -> (forall a s', Q a s' -> Q' a s') -> (forall e s', E e s' -> E' e s') -> eventually m Q' E' s.
Proof. intros (n & r & Hn & Hr) HQ HE. exists n, r. split; [done|]. eapply tri_mono; [exact Hr|done|done]. Qed.

Lemma eventually_bind {A B} (m : nat -> task S A) (f : A -> nat -> task S B) Q E s :
  eventually m (fun a s' => eventually (f a) Q E s') E s -> eventually (fun n => m n ≫= fun a => f a n) Q E s.
Proof.
  intros (n & [[a|e] s'] & Hn & Hr).
  - destruct Hr as (n2 & r & Hn2 & Hr). exists (Nat.max n n2), r. split; [|exact Hr]. intros n' Hle.
    unfold mbind, task_bind. rewrite Hn by lia. apply Hn2. lia.
  - exists n, (Raise e, s'). split; [|exact Hr]. intros n' Hle. unfold mbind, task_bind. by rewrite Hn.
Qed.

Lemma eventually_catch {A} (m : nat -> task S A) (h : exn -> nat -> task S A) Q E s :
  eventually m Q (fun e s' => eventually (h e) Q E s') s -> eventually (fun n => catch (m n) (fun e => h e n)) Q E s.
Proof.
  intros (n & [[a|e] s'] & Hn & Hr).
  - exists n, (Ok a, s'). split; [|exact Hr]. intros n' Hle. unfold catch. by rewrite Hn.
  - destruct Hr as (n2 & r & Hn2 & Hr). exists (Nat.max n n2), r. split; [|exact Hr]. intros n' Hle.
    unfold catch. rewrite Hn by lia. apply Hn2. lia.
Qed.

Lemma eventually_when (c : bool) (m : nat -> task S unit) Q E s :
  (c = true -> eventually m Q E s) -> (c = false -> Q tt s) -> eventually (fun n => when c (m n)) Q E s.
Proof. destruct c; [auto|]. intros _ HQ. apply eventually_const, tri_ret. by apply HQ. Qed.

Lemma eventually_S {A} (m : nat -> task S A) Q E s : eventually (fun n => m (Datatypes.S n)) Q E s -> eventually m Q E s.
Proof.
  intros (n & r & Hn & Hr). exists (Datatypes.S n), r. split; [|done]. intros [|n'] Hle; [lia|]. apply Hn. lia.
Qed.

Lemma eventually_along {A} (m : nat -> task S A) (g : nat -> nat) Q E s :
  (forall n, n <= g n) -> eventually m Q E s -> eventually (fun n => m (g n)) Q E s.
Proof. intros Hg (n & r & Hn & Hr). exists n, r. split; [|done]. intros n' Hle. apply Hn. specialize (Hg n'). lia. Qed.

(** What holds however many rounds there are. *)
Lemma eventually_and {A} (m : nat -> task S A) Q E Q' E' s :
  eventually m Q E s -> (forall n, tri (m n) Q' E' s) ->
  eventually m (fun a s' => Q a s' /\ Q' a s') (fun e s' => E e s' /\ E' e s') s.
Proof.
  intros (n & r & Hn & Hr) Hm. exists n, r. split; [done|]. apply tri_and; [exact Hr|].
  specialize (Hm n). unfold tri in Hm |- *. by rewrite (Hn n (le_n n)) in Hm.
Qed.

(** What returns at last has run to its end. *)
Lemma eventually_completes (m : nat -> task S unit) Q E s :
  eventually m Q E s -> eventually m (fun a s' => Q a s' /\ completes m s s') E s.
Proof.
  intros (n & [[[]|e] s'] & Hn & Hr); exists n; eexists; (split; [exact Hn|]); [|done]. split; [done|]. by exists n.
Qed.

(** What the end tells of any sufficient number of rounds. *)
Lemma eventually_enough {A} (m : nat -> task S A) Q E s :
  eventually m Q E s -> exists enough, forall n, enough <= n -> tri (m n) Q E s.
Proof. intros (n & r & Hn & Hr). exists n. intros n' Hle. unfold tri. rewrite (Hn n' Hle). exact Hr. Qed.
End loops.
