(* ===== verification/IndexInterface.v ===== *)
(** What the index thread needs of the torrent catalog: the operations it calls,
    why its loops over the queues end, and what becomes of the documents it takes
    out of them.  Its theorems are proved for any catalog that keeps these
    promises; [IndexedCatalog] shows that the torrent catalog does. *)
From S2P Require Import Prelude NodeIdentity Krpc TorrentInfo Catalog Tasks TaskLoops.

(** The methods of [TorrentCatalog] that [search_indexer.py] calls, on a state [K]
    that also holds what the catalog's clock reads. *)
Class IndexCatalog (K : Type) := {
  catalog_drain_index_documents : nat -> task K (list index_snapshot_t);
  catalog_requeue_index_documents : list index_snapshot_t -> task K unit;
  catalog_mark_index_written : index_snapshot_t -> index_base_t -> task K unit;
  catalog_drain_index_counters : nat -> task K (list index_snapshot_t);
  catalog_requeue_index_counters : list index_snapshot_t -> task K unit;
  catalog_mark_counters_written : list index_snapshot_t -> task K unit;
  catalog_reset_index_base : bytes -> task K unit;
  catalog_set_database_check : bool -> task K unit;
  catalog_pending_database_checks : nat -> task K (list bytes);
  catalog_apply_database_checks : list bytes -> list (bytes * index_base_t) -> task K unit;
  catalog_index_backlog : task K (Z * Z * Z) }.

(** ** The loops end *)

(** From [k] to [k'] the other threads have come nearer to their rest, or what is
    left has become less, or is no more. *)
Definition fewer {K} (busy left : K -> nat) (k k' : K) : Prop :=
  busy k' < busy k \/ busy k' = busy k /\ left k' < left k.
Definition no_more {K} (busy left : K -> nat) (k k' : K) : Prop :=
  busy k' < busy k \/ busy k' = busy k /\ left k' <= left k.

(** A call that runs to an end and, if it returns, adds nothing. *)
Definition adds_none {K A} (busy left : K -> nat) (m : task K A) : Prop := forall k,
  tri m (fun _ k' => no_more busy left k k') (fun e _ => e <> Diverge) k.

(** [busy]: how long the other threads go on; when they are at rest a batch that
    is taken out of a queue makes it shorter, and what follows adds nothing. *)
Class IndexCatalogDrains (K : Type) `{IndexCatalog K} := {
  busy : K -> nat;
  documents_left : K -> nat;
  counters_left : K -> nat;
  law_documents_fewer n k : tri (catalog_drain_index_documents n)
    (fun l k' => l = [] \/ fewer busy documents_left k k') (fun e _ => e <> Diverge) k;
  law_mark_written_adds_none s base : adds_none busy documents_left (catalog_mark_index_written s base);
  law_counters_fewer n k : tri (catalog_drain_index_counters n)
    (fun l k' => l = [] \/ fewer busy counters_left k k') (fun e _ => e <> Diverge) k;
  law_mark_counters_adds_none l : adds_none busy counters_left (catalog_mark_counters_written l);
  law_reset_adds_none h : adds_none busy counters_left (catalog_reset_index_base h);
  law_requeue_documents_ends l : terminates (catalog_requeue_index_documents l);
  law_requeue_counters_ends l : terminates (catalog_requeue_index_counters l);
  law_set_check_ends b : terminates (catalog_set_database_check b);
  law_pending_ends n : terminates (catalog_pending_database_checks n);
  law_apply_ends l found : terminates (catalog_apply_database_checks l found) }.

(** ** No document is lost *)

(** A snapshot of a torrent with metadata that the database can store: its size
    and the differences of its counters are those of a real torrent, far from the
    ends of 64 bits. *)
Definition storable (m : torrent_metadata) : Prop :=
  length (md_info_hash m) = NODE_ID_LENGTH /\ (0 <= md_total_size m)%Z /\ (0 < md_piece_length m)%Z /\
  (0 <= md_file_count m < 2 ^ 63)%Z.
Record snapshot_ok (s : index_snapshot_t) : Prop := SnapshotOk {
  sok_hash : length (snap_info_hash s) = NODE_ID_LENGTH;
  sok_metadata : exists m, snap_metadata s = Some m /\ storable (metadata_value m);
  sok_seen : (0 <= snap_seen_delta s < 2 ^ 63)%Z;
  sok_announce : (0 <= snap_announce_delta s < 2 ^ 63)%Z;
  sok_base : forall b, snap_base s = Some b -> (0 <= b.1.1)%Z }.

(** [index_ok wanted stored checks hand k]: the catalog is in order; [stored] are
    the hashes with a row in the database, [checks] tells whether new hashes wait
    for a check, [hand] are the snapshots that were taken out of the queue of
    documents and neither written nor put back yet.  A [wanted]
    torrent, and every one whose metadata is in memory, waits in the queue or is
    in hand or stored, unless the queue has overflowed. *)
Class IndexCatalogLaws (K : Type) `{IndexCatalog K} := {
  queued : K -> bytes -> Prop;
  overflowed : K -> Prop;
  in_memory : K -> bytes -> Prop;
  awaits_check : K -> bytes -> Prop;
  index_ok : (bytes -> Prop) -> (bytes -> Prop) -> bool -> list index_snapshot_t -> K -> Prop;
  index_ok_told W D on hand k h :
    index_ok W D on hand k -> W h \/ in_memory k h ->
    overflowed k \/ queued k h \/ h ∈ snap_info_hash <$> hand \/ D h;
  index_ok_stored W (D D' : bytes -> Prop) on hand k :
    (forall h, D h -> D' h) -> index_ok W D on hand k -> index_ok W D' on hand k;
  law_drain_documents W D on k n :
    index_ok W D on [] k ->
    tri (catalog_drain_index_documents n) (fun l k' => index_ok W D on l k' /\ Forall snapshot_ok l /\
      NoDup (snap_info_hash <$> l) /\ (l = [] -> 1 <= n -> forall h, ~ queued k' h)) (fun _ _ => False) k;
  law_requeue_documents W D on l k :
    index_ok W D on l k -> tri (catalog_requeue_index_documents l) (fun _ => index_ok W D on []) (fun _ _ => False) k;
  law_mark_written W (D : bytes -> Prop) on s l base k :
    index_ok W D on (s :: l) k -> D (snap_info_hash s) -> (0 <= base.1.1)%Z ->
    tri (catalog_mark_index_written s base) (fun _ => index_ok W D on l) (fun _ _ => False) k;
  law_set_check W D on b k :
    index_ok W D on [] k -> tri (catalog_set_database_check b) (fun _ => index_ok W D b []) (fun _ _ => False) k;
  law_pending_checks W D on n k :
    index_ok W D on [] k -> tri (catalog_pending_database_checks n)
      (fun l k' => index_ok W D on [] k' /\ Forall (fun h => length h = NODE_ID_LENGTH) l) (fun _ _ => False) k;
  law_apply_checks W (D : bytes -> Prop) on l found k :
    index_ok W D on [] k -> Forall (fun h => length h = NODE_ID_LENGTH) l ->
    Forall (fun hb => D hb.1 /\ (0 <= hb.2.1.1)%Z) found ->
    tri (catalog_apply_database_checks l found)
      (fun _ k' => index_ok W D on [] k' /\ Forall (fun h => ~ awaits_check k' h) l) (fun _ _ => False) k }.
