(* ===== verification/TorrentDatabaseLookup.v ===== *)
(** The queries of the index thread: the counters of the torrents that have a row,
    and the totals. *)
From S2P Require Import Prelude PyDict Bencode NodeIdentity AddressText Krpc TorrentInfo Catalog Tasks TypoIndex.
From S2P Require Import TorrentDatabase TorrentDatabaseSafety TorrentDatabaseSearch.

Section lookup.
Context `{TextFunctions} (fault : nat -> bool).
Implicit Types (d : database) (t : tables).

Lemma concat_chunks {A} (n : nat) (l : list A) fuel : 1 <= n -> length l <= fuel -> concat (chunks fuel n l) = l.
Proof using.
  intros Hn. revert l. induction fuel as [|fuel IH]; intros [|x l] Hl; cbn [length] in Hl; try (done || lia).
  cbn [chunks concat]. rewrite IH; [apply take_drop|]. rewrite length_drop. cbn [length]. lia.
Qed.

Lemma dict_get_fold (rows : list (bytes * counters)) : forall result h, dict_wf rows ->
  dict_get h (fold_left (fun result kv => dict_set kv.1 kv.2 result) rows result) =
    match dict_get h rows with Some c => Some c | None => dict_get h result end.
Proof using.
  induction rows as [|[k c] rows IH]; intros result h Hwf; [done|]. unfold dict_wf in Hwf. csimpl in Hwf.
  apply NoDup_cons in Hwf as [Hk Hwf]. cbn [fold_left fst snd]. rewrite IH, dict_get_set by done. cbn [dict_get].
  case_decide as Hd; [|done]. subst. apply dict_get_None in Hk. by rewrite Hk.
Qed.

Lemma dict_wf_fold (rows : list (bytes * counters)) : forall result, dict_wf result ->
  dict_wf (fold_left (fun result kv => dict_set kv.1 kv.2 result) rows result).
Proof using. induction rows as [|[k c] rows IH]; intros result Hwf; [done|]. cbn [fold_left]. apply IH. by apply dict_set_wf. Qed.

Lemma select_counters_get chunk t h :
  dict_get h (select_counters chunk t) = if decide (h ∈ chunk) then row_counters <$> find_row h t else None.
Proof using.
  unfold select_counters, find_row. induction (torrents t) as [|r l IH]; [by case_decide|]. rewrite !filter_cons.
  repeat case_decide; subst; csimpl; rewrite ?decide_True by done; try done.
  all: rewrite ?decide_False by congruence; try (rewrite IH; by rewrite ?decide_True by done).
Qed.

Lemma select_counters_wf chunk t : tables_ok t -> dict_wf (select_counters chunk t).
Proof using.
  intros Ht. unfold dict_wf, select_counters. rewrite <-list_fmap_compose.
  eapply sublist_NoDup; [exact (to_hashes _ Ht)|]. apply (fmap_sublist _ _ _ (sublist_filter _ _)).
Qed.

Lemma answers_lookup_chunks t l : tables_ok t -> forall result, dict_wf result ->
  exists found, answers fault (lookup_chunks fault l result) t found /\ dict_wf found /\
    forall h, dict_get h found = if decide (h ∈ concat l) then
      match find_row h t with Some r => Some (row_counters r) | None => dict_get h result end else dict_get h result.
Proof using.
  intros Ht. induction l as [|chunk l IH]; intros result Hwf; cbn [lookup_chunks concat].
  { exists result. split; [apply answers_ret|]. by split. }
  set (result1 := fold_left (fun result kv => dict_set kv.1 kv.2 result) (select_counters chunk t) result).
  destruct (IH result1) as (found & Hf & Hwf' & Hget); [by apply dict_wf_fold|].
  exists found. split; [eapply db_answers_bind; [apply db_answers_query|exact Hf]|]. split; [done|].
  assert (forall h, dict_get h result1 = if decide (h ∈ chunk) then
    match find_row h t with Some r => Some (row_counters r) | None => dict_get h result end else dict_get h result) as H1.
  { intros h. unfold result1. rewrite dict_get_fold, select_counters_get by by apply select_counters_wf.
    case_decide; [|done]. by destruct (find_row h t). }
  intros h. rewrite Hget, H1. destruct (decide (h ∈ chunk ++ concat l)) as [Hin|Hin]; rewrite elem_of_app in Hin.
  - repeat case_decide; try done; [by destruct (find_row h t)|tauto].
  - rewrite !decide_False by tauto. done.
Qed.

(** [lookup_counters] answers the counters of exactly the torrents that are asked
    for and have a row. *)
Lemma answers_lookup_counters t hs b : tables_ok t -> Forall (fun h => length h = 40) hs ->
  exists found, answers fault (lookup_counters fault hs b) t found /\ dict_wf found /\
    forall h, dict_get h found = if decide (h ∈ hs) then row_counters <$> find_row h t else None.
Proof using.
  intros Ht Hhs. unfold lookup_counters. destruct (answers_lookup_chunks t (chunks (length hs) MAX_LOOKUP_PARAMETERS hs) Ht [])
    as (found & Hf & Hwf & Hget); [apply dict_wf_nil|]. exists found.
  rewrite concat_chunks in Hget by (done || unfold MAX_LOOKUP_PARAMETERS; lia).
  assert (forall h, dict_get h found = if decide (h ∈ hs) then row_counters <$> find_row h t else None) as Hget'.
  { intros h. rewrite Hget. case_decide; [|done]. by destruct (find_row h t). }
  split; [|done]. eapply db_answers_bind; [apply answers_check|].
  { apply forallb_forall. intros h Hh%list_elem_of_In. rewrite Forall_forall in Hhs. by apply bool_decide_eq_true, Hhs. }
  eapply db_answers_bind; [destruct b; [apply answers_ret|apply answers_connect]|].
  eapply db_answers_bind; [exact Hf|]. eapply db_answers_bind; [apply answers_check|apply answers_ret].
  apply bool_decide_eq_true. rewrite <-(length_fmap fst). apply submseteq_length, NoDup_submseteq; [exact Hwf|].
  intros h Hh. destruct (decide (h ∈ hs)) as [|Hn]; [done|]. specialize (Hget' h). rewrite decide_False in Hget' by done.
  by apply dict_get_None in Hget'.
Qed.

Lemma answers_document_totals t b : tables_ok t ->
  answers fault (document_totals fault b) t (Z.of_nat (length (torrents t)), sum_sizes (torrents t)).
Proof using.
  intros Ht. unfold document_totals. eapply db_answers_bind; [destruct b; [apply answers_ret|apply answers_connect]|].
  eapply db_answers_bind; [apply db_answers_query|]. rewrite (to_totals _ Ht).
  eapply db_answers_bind; [apply answers_check|apply answers_ret]. apply andb_true_iff. split; [apply Z.leb_le, Nat2Z.is_nonneg|]. apply Z.leb_le.
  pose proof (to_docs _ Ht) as Hd. unfold sum_sizes. clear Ht. revert Hd. generalize (torrents t). intros l Hd.
  induction Hd as [|r l [_ Hr] _ IH]; [done|]. rewrite fmap_cons. cbn [foldr snd] in *. lia.
Qed.
End lookup.
