(* ===== verification/CatalogDrains.v ===== *)
(** The queues of the torrent catalog get shorter as the index thread drains them,
    and the methods it calls come to an end. *)
From S2P Require Import Prelude PyDict Bencode NodeIdentity AddressText Krpc TorrentInfo Catalog.

(** Which queues a method may make longer. *)
Record growth := Growth { documents_grow : Prop; counters_grow : Prop }.

Definition waiting_documents (c : catalog) : nat := length (index_documents c).
Definition waiting_counters (c : catalog) : nat := length (index_counters c) + length (orphan_counters c).

Definition shrinks (X : growth) (c c' : catalog) : Prop :=
  (documents_grow X \/ waiting_documents c' <= waiting_documents c) /\
  (counters_grow X \/ waiting_counters c' <= waiting_counters c).

#[global] Instance shrinks_preorder X : PreOrder (shrinks X).
Proof.
  split; [split; right; lia|]. intros c1 c2 c3 [[?|A] [?|B]] [[?|C] [?|D]]; split; try (by left); right; lia.
Qed.

(** The method comes to an end, and if it returns no other queue is longer. *)
Definition sound (X : growth) {A} (m : ST catalog A) : Prop := forall c,
  match m c with Ok (_, c') => shrinks X c c' | Raise e => e <> Diverge end.

Section sound.
Context (X : growth).

Lemma sound_bind {A B} (m : ST catalog A) (f : A -> ST catalog B) :
  sound X m -> (forall a, sound X (f a)) -> sound X (m ≫= f).
Proof.
  intros Hm Hf c. specialize (Hm c). unfold mbind, st_bind. destruct (m c) as [[a c1]|e]; [|done].
  specialize (Hf a c1). destruct (f a c1) as [[b c2]|e]; [|done]. by transitivity c1.
Qed.

Lemma sound_same {A} (m : ST catalog A) :
  (forall c, match m c with Ok (_, c') => c' = c | Raise e => e <> Diverge end) -> sound X m.
Proof. intros Hm c. specialize (Hm c). destruct (m c) as [[a c']|e]; [by subst|done]. Qed.

Lemma sound_ret {A} (a : A) : sound X (mret a).
Proof. by apply sound_same. Qed.

Lemma sound_assert b : sound X (assert_st b).
Proof. apply sound_same. intros c. by destruct b. Qed.

Lemma sound_raise {A} e : e <> Diverge -> sound X (raise_st (A := A) e).
Proof. intros He c. exact He. Qed.

Lemma sound_get {A} (f : catalog -> A) : sound X (gets f).
Proof. by apply sound_same. Qed.

Lemma sound_get_state : sound X get_state.
Proof. by apply sound_same. Qed.

Lemma sound_update f : (forall c, shrinks X c (f c)) -> sound X (update f).
Proof. intros Hf c. apply Hf. Qed.

Lemma sound_quiet f : (forall c, index_documents (f c) = index_documents c /\
  index_counters (f c) = index_counters c /\ orphan_counters (f c) = orphan_counters c) -> sound X (update f).
Proof.
  intros Hf. apply sound_update. intros c. destruct (Hf c) as (H1 & H2 & H3).
  unfold shrinks, waiting_documents, waiting_counters. rewrite H1, H2, H3. split; right; lia.
Qed.

Lemma sound_when b m : sound X m -> sound X (when_st b m).
Proof. intros Hm. destruct b; [done|apply sound_ret]. Qed.

Lemma sound_for_each {A} (l : list A) f : (forall x, sound X (f x)) -> sound X (for_each l f).
Proof. intros Hf. induction l as [|x l IH]; [apply sound_ret|]. by apply sound_bind. Qed.

Lemma sound_lookup_entry o : sound X (lookup_entry o).
Proof. apply sound_same. intros c. unfold lookup_entry. by destruct (heap c !! o). Qed.
End sound.

Create HintDb sound.
#[export] Hint Resolve sound_lookup_entry : sound.

(** One construct of a method at a time. *)
Ltac sound_step :=
  lazymatch goal with
  | |- sound _ (_ ≫= _) => apply sound_bind; [|intros ?]
  | |- sound _ (mret _) => apply sound_ret
  | |- sound _ get_state => apply sound_get_state
  | |- sound _ (gets _) => apply sound_get
  | |- sound _ (get_oid _ _) => apply sound_get
  | |- sound _ (assert_st _) => apply sound_assert
  | |- sound _ (raise_st _) => by apply sound_raise
  | |- sound _ (when_st _ _) => apply sound_when
  | |- sound _ (for_each _ _) => apply sound_for_each; intros ?
  | |- sound _ (update_entry _ _) => by apply sound_quiet
  | |- sound _ (update _) => by apply sound_quiet
  | |- sound _ (if ?b then _ else _) => destruct b
  | |- sound _ (match ?x with _ => _ end) => destruct x
  end.
Ltac sound_steps := repeat sound_step; eauto with sound.

Section methods.
Context (lim : limits) (X : growth).

Lemma sound_set_state o s : sound X (set_state_locked o s).
Proof using. unfold set_state_locked. sound_steps. Qed.
Lemma sound_forget_known o : sound X (forget_known_locked o).
Proof using. unfold forget_known_locked. sound_steps. Qed.
Lemma sound_release_metadata o : sound X (release_metadata_locked o).
Proof using. unfold release_metadata_locked. sound_steps. Qed.
Lemma sound_index_entry o : sound X (index_entry_locked lim o).
Proof using. unfold index_entry_locked. cbv zeta. sound_steps. Qed.
Lemma sound_index_snapshot o : sound X (index_snapshot o).
Proof using. unfold index_snapshot. cbv zeta. sound_steps. Qed.
Lemma sound_assert_invariants : sound X assert_invariants_locked.
Proof using.
  apply sound_same. intros c. unfold assert_invariants_locked, mbind, st_bind, assert_st. by repeat case_match; simplify_eq.
Qed.
End methods.

#[export] Hint Resolve sound_set_state sound_forget_known sound_release_metadata sound_index_entry sound_index_snapshot
  sound_assert_invariants : sound.

Section queues.
Context (lim : limits) (X : growth).

Lemma sound_shorter_documents f : (forall l, length (f l) <= length l) ->
  sound X (update (fun c => set_index_documents (f (index_documents c)) c)).
Proof using. intros Hf. apply sound_update. intros c. split; right; [apply Hf|done]. Qed.

Lemma sound_shorter_counters f : (forall l, length (f l) <= length l) ->
  sound X (update (fun c => set_index_counters (f (index_counters c)) c)).
Proof using.
  intros Hf. apply sound_update. intros c. split; right; [done|]. unfold waiting_counters. cbn. specialize (Hf (index_counters c)). lia.
Qed.

Lemma length_dict_del_le {V} (h : bytes) (d : list (bytes * V)) : length (dict_del h d) <= length d.
Proof using. apply length_filter. Qed.

Lemma sound_any_documents f : documents_grow X ->
  (forall c, index_counters (f c) = index_counters c /\ orphan_counters (f c) = orphan_counters c) -> sound X (update f).
Proof using.
  intros HX Hf. apply sound_update. intros c. destruct (Hf c) as [H1 H2]. split; [by left|right].
  unfold waiting_counters. rewrite H1, H2. lia.
Qed.

Lemma sound_any_counters f : counters_grow X ->
  (forall c, index_documents (f c) = index_documents c) -> sound X (update f).
Proof using.
  intros HX Hf. apply sound_update. intros c. split; [right|by left]. unfold waiting_documents. rewrite Hf. lia.
Qed.

Lemma sound_drop_unwritten o : sound X (drop_unwritten_metadata_locked lim o).
Proof using. unfold drop_unwritten_metadata_locked. sound_steps. Qed.

Lemma sound_queue_document o : documents_grow X -> sound X (queue_document_locked lim o).
Proof using.
  intros HX. unfold queue_document_locked. do 2 (sound_step; [solve [sound_steps]|]).
  sound_step; [apply (sound_shorter_counters (dict_del _)), length_dict_del_le|].
  sound_step; [sound_step|]. sound_step; [|sound_steps]. sound_step.
  sound_step; [by apply sound_any_documents|]. sound_step; [sound_step|]. sound_step. sound_step; [sound_step|].
  destruct (p : bytes * oid). sound_step; [by apply sound_any_documents|]. sound_step; [by apply sound_quiet|apply sound_drop_unwritten].
Qed.

Lemma sound_add_orphan o : counters_grow X -> sound X (add_orphan_locked o).
Proof using.
  intros HX. unfold add_orphan_locked. sound_step; [by apply sound_any_counters|]. sound_step; [sound_step|].
  sound_step; [|sound_steps]. sound_step. sound_step; [by apply sound_any_counters|sound_steps].
Qed.
End queues.

(** ** The methods of the index thread *)

Section index_methods.
Context (lim : limits).

Lemma sound_update_entry X o f : sound X (update_entry o f).
Proof using. by apply sound_quiet. Qed.

Lemma sound_mark_index_written X s base : counters_grow X -> sound X (mark_index_written s base).
Proof using.
  intros HX. unfold mark_index_written, add_flushed. do 3 (sound_step; [solve [sound_steps]|]).
  sound_step; [|sound_steps]. sound_step. sound_step; [sound_step|]. sound_step; [sound_steps|].
  sound_step. sound_step; [sound_step|].
  sound_step; [apply (sound_shorter_documents _ (dict_del _)), length_dict_del_le|].
  sound_step; [sound_step; by apply sound_any_counters|sound_steps].
Qed.

Lemma sound_mark_counters X l : sound X (mark_counters_written l).
Proof using. unfold mark_counters_written, add_flushed. sound_steps. Qed.

Lemma sound_reset_index_base X h : documents_grow X -> sound X (reset_index_base lim h).
Proof using.
  intros HX. unfold reset_index_base. do 2 (sound_step; [solve [sound_steps]|]). sound_step; [|sound_steps].
  sound_step; [|sound_step]. sound_step; [sound_step|].
  sound_step; [apply (sound_shorter_counters _ (dict_del _)), length_dict_del_le|].
  sound_step; [sound_steps|]. sound_step; [by apply sound_queue_document|sound_steps].
Qed.

Lemma sound_requeue_documents X l : documents_grow X -> sound X (requeue_index_documents l).
Proof using. intros HX. unfold requeue_index_documents. repeat (sound_step || by apply sound_any_documents). Qed.

Lemma sound_requeue_counters X l : counters_grow X -> sound X (requeue_index_counters l).
Proof using.
  intros HX. unfold requeue_index_counters. repeat first [by apply sound_any_counters|by apply sound_add_orphan|sound_step].
Qed.

Lemma sound_set_database_check X b : sound X (set_database_check lim b).
Proof using. unfold set_database_check. sound_steps. Qed.

Lemma sound_pending_checks X n : sound X (pending_database_checks n).
Proof using. unfold pending_database_checks. sound_steps. Qed.

Lemma sound_apply_checks X l found : counters_grow X -> sound X (apply_database_checks lim l found).
Proof using.
  intros HX. unfold apply_database_checks, apply_database_check.
  repeat first [by apply sound_any_counters|sound_step|apply sound_index_entry|apply sound_assert_invariants|
    apply sound_lookup_entry|apply sound_set_state].
Qed.

(** ** The drains *)

(** A batch that is not empty has made the queue shorter. *)
Lemma drain_documents_fewer limit : forall c,
  match drain_documents limit c with
  | Ok (l, c') => (l = [] \/ waiting_documents c' < waiting_documents c) /\ shrinks (Growth False False) c c'
  | Raise e => e <> Diverge
  end.
Proof using.
  induction limit as [|limit IH]; intros c; cbn [drain_documents]; [split; [by left|reflexivity]|].
  unfold mbind, st_bind, gets. destruct (index_documents c) as [|[h o] rest] eqn:Hd; [split; [by left|reflexivity]|].
  unfold update, modify. set (c1 := set_index_documents rest c).
  assert (waiting_documents c1 < waiting_documents c /\ waiting_counters c1 = waiting_counters c) as [L1 L2].
  { unfold waiting_documents. rewrite Hd. cbn. split; [lia|done]. }
  pose proof (sound_index_snapshot (Growth False False) o c1) as Hs.
  destruct (index_snapshot o c1) as [[s c2]|e]; [|done]. destruct Hs as [[[]|S1] [[]|S2]]. specialize (IH c2).
  destruct (drain_documents limit c2) as [[l c3]|e]; [|done]. destruct IH as [_ [[[]|T1] [[]|T2]]].
  split; [right; lia|]. split; right; lia.
Qed.

Lemma drain_index_documents_fewer limit c :
  match drain_index_documents limit c with
  | Ok (l, c') => l = [] \/ waiting_documents c' < waiting_documents c
  | Raise e => e <> Diverge
  end.
Proof using.
  unfold drain_index_documents, mbind, st_bind, assert_st. pose proof (drain_documents_fewer limit c) as Hd.
  destruct (drain_documents limit c) as [[l c1]|e]; [|done]. case_bool_decide; [apply Hd|done].
Qed.

(** What a drain of counters leaves. *)
Definition drained_counters (c : catalog) (r : res (list index_snapshot_t * catalog)) : Prop :=
  match r with
  | Ok (l, c') => waiting_counters c' <= waiting_counters c /\ (l = [] \/ waiting_counters c' < waiting_counters c)
  | Raise e => e <> Diverge
  end.

Lemma drain_orphans_fewer fuel : forall room c, drained_counters c (drain_orphans fuel room c).
Proof using.
  induction fuel as [|fuel IH]; intros [|room] c; cbn [drain_orphans]; try (split; [lia|by left]).
  unfold mbind, st_bind, gets. destruct (orphan_counters c) as [|o rest] eqn:Ho; [split; [lia|by left]|].
  unfold update, modify. set (c1 := set_orphan_counters rest c).
  assert (waiting_counters c1 < waiting_counters c) as L1 by (unfold waiting_counters; rewrite Ho; cbn; lia).
  pose proof (sound_index_snapshot (Growth False False) o c1) as Hs.
  destruct (index_snapshot o c1) as [[s c2]|e]; [|done]. destruct Hs as [_ [[]|S2]]. case_match.
  - specialize (IH room c2). unfold drained_counters in IH. destruct (drain_orphans fuel room c2) as [[l c3]|e]; [|done].
    destruct IH as [T1 _]. split; [lia|right; lia].
  - specialize (IH (S room) c2). unfold drained_counters in *. destruct (drain_orphans fuel (S room) c2) as [[l c3]|e]; [|done].
    destruct IH as [T1 T2]. split; [lia|right; lia].
Qed.

Lemma drain_counters_fewer fuel : forall room c, drained_counters c (drain_counters lim fuel room c).
Proof using.
  induction fuel as [|fuel IH]; intros [|room] c; cbn [drain_counters]; try (split; [lia|by left]).
  unfold mbind, st_bind, gets. destruct (index_counters c) as [|[h o] rest] eqn:Ho; [split; [lia|by left]|].
  unfold update, modify. set (c1 := set_index_counters rest c).
  assert (waiting_counters c1 < waiting_counters c) as L1 by (unfold waiting_counters; rewrite Ho; cbn; lia).
  unfold lookup_entry. destruct (heap c1 !! o) as [e|]; [|done]. case_bool_decide.
  - pose proof (sound_when (Growth True False) (has_metadata e) _ (sound_queue_document lim (Growth True False) o I) c1) as Hq.
    destruct (when_st (has_metadata e) (queue_document_locked lim o) c1) as [[[] c2]|]; [|done]. destruct Hq as [_ [[]|S2]].
    specialize (IH (S room) c2). unfold drained_counters in *. destruct (drain_counters lim fuel (S room) c2) as [[l c3]|]; [|done].
    destruct IH as [T1 T2]. split; [lia|right; lia].
  - case_match.
    + pose proof (sound_index_snapshot (Growth False False) o c1) as Hs.
      destruct (index_snapshot o c1) as [[s c2]|]; [|done]. destruct Hs as [_ [[]|S2]].
      specialize (IH room c2). unfold drained_counters in IH. destruct (drain_counters lim fuel room c2) as [[l c3]|]; [|done].
      destruct IH as [T1 _]. split; [lia|right; lia].
    + specialize (IH (S room) c1). unfold drained_counters in *. destruct (drain_counters lim fuel (S room) c1) as [[l c3]|]; [|done].
      destruct IH as [T1 T2]. split; [lia|right; lia].
Qed.

Lemma drain_index_counters_fewer limit c :
  match drain_index_counters lim limit c with
  | Ok (l, c') => l = [] \/ waiting_counters c' < waiting_counters c
  | Raise e => e <> Diverge
  end.
Proof using.
  unfold drain_index_counters, mbind, st_bind, assert_st, get_state.
  pose proof (drain_orphans_fewer (length (orphan_counters c)) limit c) as Ho. unfold drained_counters in Ho.
  destruct (drain_orphans _ _ c) as [[l c1]|e]; [|done]. destruct Ho as [O1 O2].
  pose proof (drain_counters_fewer (length (index_counters c1)) (limit - length l) c1) as Hc. unfold drained_counters in Hc.
  destruct (drain_counters lim _ _ c1) as [[l2 c2]|e]; [|done]. destruct Hc as [C1 C2].
  cbv zeta. case_bool_decide; [|done]. destruct O2 as [->|O2]; [|right; lia]. destruct C2 as [->|C2]; [by left|right; lia].
Qed.
End index_methods.
