(* ===== verification/SearchIndexer.v ===== *)
(** The index thread ([search_indexer.py]): it copies the torrents with metadata
    and their counters from the catalog to the search database, and tells the
    catalog which torrents the database knows.

    Its state holds the catalog, which other threads use too, the database, which
    no other thread writes, and the attributes of [SearchIndexer].  Times are in
    microseconds.  [clock_at] is what the monotonic clock reads at the [n]th
    question, [stop_at] whether the stop event is then set.  A loop has as many
    [rounds] as it needs. *)
From S2P Require Import Prelude PyDict Bencode NodeIdentity AddressText Krpc TorrentInfo Catalog.
From S2P Require Import Tasks TypoIndex TorrentDatabase IndexInterface.

Definition DOCUMENT_SECONDS : Z := 1000000.
Definition COUNTER_SECONDS : Z := 30000000.
Definition COUNT_SECONDS : Z := 10000000.
Definition CHECK_SECONDS : Z := 250000.
Definition CHECK_FAIL_OPEN_SECONDS : Z := 60000000.
Definition CHECK_BATCH_SIZE : nat := Z.to_nat 500.
Definition MAX_CHECK_BATCHES : nat := 20.
Definition BACKOFF_START_SECONDS : Z := 1000000.
Definition BACKOFF_MAX_SECONDS : Z := 30000000.
Definition FINAL_FLUSH_SECONDS : Z := 3000000.
Definition BATCH_SIZE : nat := Z.to_nat 250.
Definition NO_BASE : index_base_t := (0, 0, None)%Z.

(** ** Data *)

(** The arguments of [SearchIndexer.__init__]. *)
Record index_options := IndexOptions {
  document_seconds : Z; counter_seconds : Z; count_seconds : Z; check_seconds : Z;
  backoff_start : Z; backoff_max : Z; batch_size : nat; final_flush_seconds : Z }.

Definition index_options_ok (o : index_options) : bool :=
  ((0 <? document_seconds o) && (0 <? counter_seconds o) && (0 <? count_seconds o) && (0 <? check_seconds o) &&
   (0 <? backoff_start o) && (backoff_start o <=? backoff_max o))%Z && bool_decide (1 <= batch_size o).

Definition default_index_options : index_options :=
  IndexOptions DOCUMENT_SECONDS COUNTER_SECONDS COUNT_SECONDS CHECK_SECONDS BACKOFF_START_SECONDS
    BACKOFF_MAX_SECONDS BATCH_SIZE FINAL_FLUSH_SECONDS.

(** What is counted. *)
Record index_counts := IndexCounts {
  upserts : Z; updates : Z; index_errors : Z; checked : Z; known : Z;
  documents : option Z; total_size : Z }.

Definition index_counts_eta (c : index_counts) : index_counts :=
  IndexCounts (upserts c) (updates c) (index_errors c) (checked c) (known c) (documents c) (total_size c).
Definition set_upserts : Z -> index_counts -> index_counts := ltac:(make_setter index_counts_eta upserts).
Definition set_updates : Z -> index_counts -> index_counts := ltac:(make_setter index_counts_eta updates).
Definition set_errors : Z -> index_counts -> index_counts := ltac:(make_setter index_counts_eta index_errors).
Definition set_checked : Z -> index_counts -> index_counts := ltac:(make_setter index_counts_eta checked).
Definition set_known : Z -> index_counts -> index_counts := ltac:(make_setter index_counts_eta known).
Definition set_documents : option Z -> index_counts -> index_counts := ltac:(make_setter index_counts_eta documents).
Definition set_total_size : Z -> index_counts -> index_counts := ltac:(make_setter index_counts_eta total_size).

(** When what is due next. *)
Record timetable := Timetable {
  next_checks : Z; next_documents : Z; next_counters : Z; next_count : Z; wake_at : Z; backoff : Z }.

Definition timetable_eta (t : timetable) : timetable :=
  Timetable (next_checks t) (next_documents t) (next_counters t) (next_count t) (wake_at t) (backoff t).
Definition set_next_checks : Z -> timetable -> timetable := ltac:(make_setter timetable_eta next_checks).
Definition set_next_documents : Z -> timetable -> timetable := ltac:(make_setter timetable_eta next_documents).
Definition set_next_counters : Z -> timetable -> timetable := ltac:(make_setter timetable_eta next_counters).
Definition set_next_count : Z -> timetable -> timetable := ltac:(make_setter timetable_eta next_count).
Definition set_wake_at : Z -> timetable -> timetable := ltac:(make_setter timetable_eta wake_at).
Definition set_backoff : Z -> timetable -> timetable := ltac:(make_setter timetable_eta backoff).

Section state.
Context {K : Type}.

(** [SearchIndexer]: whether its thread was started and its reader is open, the
    questions asked of the clock and the stop event, and whether [on_fatal] was
    called. *)
Record indexer : Type := Indexer {
  ix_catalog : K; ix_database : database; counts : index_counts; times : timetable;
  check_failing_since : option Z; checks_bypassed : bool; reader : bool; started : bool;
  questions : nat; fatal : bool }.

Definition indexer_eta (s : indexer) : indexer :=
  Indexer (ix_catalog s) (ix_database s) (counts s) (times s) (check_failing_since s) (checks_bypassed s)
    (reader s) (started s) (questions s) (fatal s).
Definition set_ix_catalog : K -> indexer -> indexer := ltac:(make_setter indexer_eta ix_catalog).
Definition set_ix_database : database -> indexer -> indexer := ltac:(make_setter indexer_eta ix_database).
Definition set_counts : index_counts -> indexer -> indexer := ltac:(make_setter indexer_eta counts).
Definition set_times : timetable -> indexer -> indexer := ltac:(make_setter indexer_eta times).
Definition set_failing_since : option Z -> indexer -> indexer := ltac:(make_setter indexer_eta check_failing_since).
Definition set_bypassed : bool -> indexer -> indexer := ltac:(make_setter indexer_eta checks_bypassed).
Definition set_reader : bool -> indexer -> indexer := ltac:(make_setter indexer_eta reader).
Definition set_started : bool -> indexer -> indexer := ltac:(make_setter indexer_eta started).
Definition set_questions : nat -> indexer -> indexer := ltac:(make_setter indexer_eta questions).
Definition set_fatal : bool -> indexer -> indexer := ltac:(make_setter indexer_eta fatal).

Definition new_indexer (o : index_options) (k : K) (d : database) : res indexer :=
  assert_ (index_options_ok o) ;;
  mret (Indexer k d (IndexCounts 0 0 0 0 0 None 0) (Timetable 0 0 0 0 0 0) None false false false 0 false).
End state.
Arguments indexer : clear implicits.

(** ** Documents and updates of snapshots *)

Definition build_document (s : index_snapshot_t) : res document :=
  match snap_metadata s with
  | None => Raise AssertionError
  | Some m =>
      let md := metadata_value m in
      let result := Document (hex (snap_info_hash s)) (md_name md) (Z.min (md_total_size md) MAX_SQLITE_INTEGER)
        (md_file_count md) (Z.min (md_piece_length md) MAX_SQLITE_INTEGER) (md_is_private md) (md_fetched_at md)
        (snap_seen_delta s) (snap_announce_delta s) (snap_first_seen s) (snap_last_seen s)
        ((fun item => (file_path item, file_length item)) <$> md_files md) in
      assert_ (0 <=? doc_seen_count result)%Z ;;
      mret result
  end.

Definition build_counter_update (s : index_snapshot_t) : res counter_update :=
  assert_ (bool_decide (is_Some (snap_base s))) ;;
  let result := CounterUpdate (hex (snap_info_hash s)) (snap_seen_delta s) (snap_announce_delta s) (snap_last_seen s) in
  assert_ (0 <=? cu_seen_delta result)%Z ;;
  mret result.

(** [bytes.fromhex] *)
Definition bytes_fromhex (l : bytes) : res bytes :=
  match fromhex l with Some b => Ok b | None => Raise (ValueError "fromhex") end.

(** The counters of a row as the base of an entry. *)
Definition base_of (c : counters) : index_base_t := (c.1.1, c.1.2, Some c.2).

Definition base_for (previous : list (bytes * counters)) (s : index_snapshot_t) : index_base_t :=
  match snap_base s with
  | Some base => base
  | None => default NO_BASE (base_of <$> dict_get (hex (snap_info_hash s)) previous)
  end.

Section operations.
Context {K : Type} `{IndexCatalog K} `{TextFunctions} (fault : nat -> bool).
Context (clock_at : nat -> Z) (stop_at : nat -> bool) (o : index_options).

(** ** The surroundings *)

(** A method of the catalog: it runs with the catalog's lock. *)
Definition on_catalog {A} (m : task K A) : task (indexer K) A := fun s =>
  let '(r, k) := m (ix_catalog s) in (r, set_ix_catalog k s).

Definition on_database {A} (m : task database A) : task (indexer K) A := fun s =>
  let '(r, d) := m (ix_database s) in (r, set_ix_database d s).

Definition ask {A} (f : nat -> A) : task (indexer K) A :=
  n ← reads questions;
  change (set_questions (S n)) ;;
  mret (f n).
Definition read_clock : task (indexer K) Z := ask clock_at.
Definition read_stop : task (indexer K) bool := ask stop_at.

Definition count (f : index_counts -> index_counts) : task (indexer K) unit :=
  change (fun s => set_counts (f (counts s)) s).
Definition schedule (f : timetable -> timetable) : task (indexer K) unit :=
  change (fun s => set_times (f (times s)) s).

(** [except Exception]: running out of rounds is none. *)
Definition except {A} (m : task (indexer K) A) (h : exn -> task (indexer K) A) : task (indexer K) A :=
  catch m (fun e => if decide (e = Diverge) then throw e else h e).
(** [except sqlite3.Error] *)
Definition except_sqlite {A} (m : task (indexer K) A) (h : exn -> task (indexer K) A) : task (indexer K) A :=
  catch m (fun e => if decide (e = SqliteError) then h e else throw e).

(** [deadline is None or self.clock() < deadline] *)
Definition in_time (deadline : option Z) : task (indexer K) bool :=
  match deadline with
  | None => mret true
  | Some deadline => now ← read_clock; mret (now <? deadline)%Z
  end.

(** ** The reader *)

Definition thread_reader : task (indexer K) unit :=
  open ← reads reader;
  when (negb open) (on_database (connect_reader fault) ;; change (set_reader true)) ;;
  open ← reads reader;
  check open.

(** An error of closing it is ignored. *)
Definition close_reader : task (indexer K) unit :=
  change (set_reader false) ;;
  open ← reads reader;
  check (negb open).

(** ** What is done when it is due *)

Fixpoint flush_documents (rounds : nat) (deadline : option Z) : task (indexer K) unit :=
  match rounds with
  | O => throw Diverge
  | S rounds =>
      go_on ← in_time deadline;
      if negb go_on then check (bool_decide (is_Some deadline)) else
      batch ← on_catalog (catalog_drain_index_documents (batch_size o));
      if bool_decide (batch = []) then mret tt else
      bases ← except_sqlite (
          docs ← call (sequence (build_document <$> batch));
          previous ← on_database (write_documents fault docs);
          mret (base_for previous <$> batch))
        (fun e => on_catalog (catalog_requeue_index_documents batch) ;; throw e);
      each (fun sb => on_catalog (catalog_mark_index_written sb.1 sb.2)) (zip batch bases) ;;
      count (fun c => set_upserts (upserts c + Z.of_nat (length batch))%Z c) ;;
      flush_documents rounds deadline
  end.

Fixpoint check_batches (rounds : nat) : task (indexer K) unit :=
  match rounds with
  | O => s ← reads counts; check (0 <=? checked s)%Z
  | S rounds =>
      info_hashes ← on_catalog (catalog_pending_database_checks CHECK_BATCH_SIZE);
      if bool_decide (info_hashes = []) then mret tt else
      thread_reader ;;
      found ← on_database (lookup_counters fault (hex <$> info_hashes) true);
      keys ← call (sequence (bytes_fromhex <$> found.*1));
      on_catalog (catalog_apply_database_checks info_hashes (zip keys (base_of <$> found.*2))) ;;
      count (fun c => set_known (known c + Z.of_nat (length found))%Z
        (set_checked (checked c + Z.of_nat (length info_hashes))%Z c)) ;;
      check_batches rounds
  end.

Definition flush_checks : task (indexer K) unit :=
  except (
    bypassed ← reads checks_bypassed;
    when bypassed (
      thread_reader ;;
      on_database (document_totals fault true) ;;
      on_catalog (catalog_set_database_check true) ;;
      change (set_bypassed false)) ;;
    check_batches MAX_CHECK_BATCHES)
    (fun e =>
      now ← read_clock;
      s ← reads (fun s => s);
      (match check_failing_since s with
       | None => change (set_failing_since (Some now))
       | Some since =>
           when (negb (checks_bypassed s) && (CHECK_FAIL_OPEN_SECONDS <=? now - since)%Z) (
             on_catalog (catalog_set_database_check false) ;;
             change (set_bypassed true))
       end) ;;
      throw e) ;;
  change (set_failing_since None) ;;
  bypassed ← reads checks_bypassed;
  check (negb bypassed).

Fixpoint flush_counters (rounds : nat) (deadline : option Z) : task (indexer K) unit :=
  match rounds with
  | O => throw Diverge
  | S rounds =>
      go_on ← in_time deadline;
      if negb go_on then check (bool_decide (is_Some deadline)) else
      batch ← on_catalog (catalog_drain_index_counters (batch_size o));
      if bool_decide (batch = []) then mret tt else
      missing ← except_sqlite (
          list ← call (sequence (build_counter_update <$> batch));
          on_database (update_counters fault list))
        (fun e => on_catalog (catalog_requeue_index_counters batch) ;; throw e);
      on_catalog (catalog_mark_counters_written (filter (fun s => hex (snap_info_hash s) ∉ missing) batch)) ;;
      each (fun info_hash => h ← call (bytes_fromhex info_hash); on_catalog (catalog_reset_index_base h)) missing ;;
      count (fun c => set_updates (updates c + (Z.of_nat (length batch) - Z.of_nat (length missing)))%Z c) ;;
      flush_counters rounds deadline
  end.

Definition refresh_count (in_thread : bool) : task (indexer K) unit :=
  when in_thread thread_reader ;;
  '(number, size) ← on_database (document_totals fault in_thread);
  count (fun c => set_total_size size (set_documents (Some number) c)) ;;
  check (0 <=? number)%Z.

Definition record_error (e : exn) : task (indexer K) unit :=
  count (fun c => set_errors (index_errors c + 1)%Z c).

Definition run_due_work (rounds : nat) : task (indexer K) unit :=
  now ← read_clock;
  except (
    due ← reads times;
    when (next_checks due <=? now)%Z (
      flush_checks ;; schedule (set_next_checks (now + check_seconds o)%Z)) ;;
    due ← reads times;
    when (next_documents due <=? now)%Z (
      flush_documents rounds None ;; schedule (set_next_documents (now + document_seconds o)%Z)) ;;
    due ← reads times;
    when (next_counters due <=? now)%Z (
      flush_counters rounds None ;; schedule (set_next_counters (now + counter_seconds o)%Z)) ;;
    due ← reads times;
    when (next_count due <=? now)%Z (
      refresh_count true ;; schedule (set_next_count (now + count_seconds o)%Z)) ;;
    schedule (set_backoff 0) ;;
    schedule (fun t => set_wake_at (Z.min (Z.min (next_checks t) (next_documents t))
      (Z.min (next_counters t) (next_count t))) t))
    (fun e =>
      record_error e ;;
      close_reader ;;
      schedule (fun t => set_backoff (if decide (backoff t = 0%Z) then backoff_start o
        else Z.min (2 * backoff t) (backoff_max o))%Z t) ;;
      schedule (fun t => set_wake_at (now + backoff t)%Z t)) ;;
  t ← reads times;
  check ((now <=? wake_at t) || (backoff t =? 0))%Z.

(** ** The thread *)

Definition final_flush (rounds : nat) : task (indexer K) unit :=
  now ← read_clock;
  let deadline := (now + final_flush_seconds o)%Z in
  except (flush_documents rounds (Some deadline) ;; flush_counters rounds (Some deadline)) record_error ;;
  stop ← read_stop;
  check stop.

(** The loop of [run].  Its wait for the stop event, of [POLL_SECONDS] at most,
    reads the clock and changes nothing. *)
Fixpoint run_until_stop (rounds turns : nat) : task (indexer K) unit :=
  match turns with
  | O => throw Diverge
  | S turns =>
      stop ← read_stop;
      if stop : bool then mret tt else
      now ← read_clock;
      due ← reads times;
      when (wake_at due <=? now)%Z (run_due_work rounds) ;;
      _ ← read_clock;
      run_until_stop rounds turns
  end.

Definition run_index (rounds : nat) : task (indexer K) unit :=
  alive ← reads started;
  check alive ;;
  finally
    (except (run_until_stop rounds rounds ;; final_flush rounds) (fun _ => change (set_fatal true)))
    close_reader ;;
  open ← reads reader;
  check (negb open).

(** [start]: what it does before the thread runs. *)
Definition start_index : task (indexer K) unit :=
  alive ← reads started;
  check (negb alive) ;;
  except_sqlite (refresh_count false) record_error ;;
  now ← read_clock;
  schedule (fun t => Timetable now now (now + counter_seconds o) (now + count_seconds o) (wake_at t) (backoff t))%Z ;;
  change (set_started true).

(** ** Statistics *)

Definition index_statistics : task (indexer K) (list (string * Z)) :=
  '(queued_documents, queued_counters, dropped) ← on_catalog catalog_index_backlog;
  s ← reads (fun s => s);
  let c := counts s in
  check (0 <=? index_errors c)%Z ;;
  mret ([("index_upserts"%string, upserts c); ("index_updates"%string, updates c);
    ("index_errors"%string, index_errors c); ("index_backlog"%string, (queued_documents + queued_counters)%Z);
    ("index_dropped"%string, dropped); ("index_checked"%string, checked c); ("index_known"%string, known c);
    ("index_check_bypassed"%string, Z.b2z (checks_bypassed s))] ++
    match documents c with
    | Some n => [("index_documents"%string, n); ("index_total_size"%string, total_size c)]
    | None => []
    end).
End operations.
