(* ===== verification/SearchIndexerRun.v ===== *)
(** The index thread lives on: whatever the database and the catalog raise, its
    loops end when the other threads come to rest, a round has done each part that
    was due ([worked]) or an error is counted and followed by a pause, and the thread
    runs until it is told to stop. *)
From S2P Require Import Prelude PyDict Bencode NodeIdentity AddressText Krpc TorrentInfo Catalog.
From S2P Require Import Tasks TaskLoops TypoIndex TorrentDatabase TorrentDatabaseSafety IndexInterface SearchIndexer.

(** One construct of a task that runs to its end. *)
Ltac terminates_step :=
  lazymatch goal with
  | |- terminates (_ ≫= _) => apply terminates_bind; [|intros ?]
  | |- terminates (mret _) => done
  | |- terminates (reads _) => done
  | |- terminates (change _) => done
  | |- terminates (check _) => apply terminates_check
  | |- terminates (throw _) => by apply terminates_throw
  | |- terminates (catch _ _) => apply terminates_catch; [|intros ??]
  | |- terminates (each _ _) => apply terminates_each; intros ?
  | |- terminates (when _ _) => apply terminates_when; intros _
  | |- terminates (call (assert_ ?c)) => apply (terminates_check c)
  | |- terminates (if ?c then _ else _) => destruct c
  | |- terminates (match ?x with _ => _ end) => destruct x
  | |- terminates (let _ := _ in _) => cbv zeta
  end.
Ltac terminates_steps := repeat terminates_step.

(** ** The database *)

Section database_ends.
Context `{TextFunctions} (fault : nat -> bool).

Lemma statement_terminates {A} (m : task database A) : terminates m -> terminates (statement fault m).
Proof using. intros Hm. unfold statement. terminates_steps. exact Hm. Qed.

Lemma write_terminates f : terminates (write f).
Proof using. unfold write. terminates_steps. Qed.

Lemma raise_if_terminates {S} c e : e <> Diverge -> terminates (S := S) (call (raise_if c e)).
Proof using. intros He. apply terminates_call. unfold raise_if. destruct c; congruence. Qed.

Lemma transaction_terminates {A} (body : task database A) : terminates body -> terminates (transaction fault body).
Proof using.
  intros Hb. unfold transaction. terminates_steps; try done.
  - apply statement_terminates. terminates_steps.
  - unfold roll_back. terminates_steps.
  - unfold commit. terminates_steps.
Qed.

Lemma call_Ok_terminates {S A} (r : res A) a : r = Ok a -> terminates (S := S) (call r).
Proof using. by intros ->. Qed.

Lemma bind_terminates {S} l : terminates (S := S) (each (fun z => call (bind z)) l).
Proof using. apply terminates_each. intros z. by apply raise_if_terminates. Qed.

Lemma insert_document_terminates doc : terminates (insert_document fault doc).
Proof using.
  unfold insert_document. terminates_step; [done|]. terminates_step; [apply terminates_check|].
  terminates_step; [apply bind_terminates|]. cbv zeta.
  terminates_step; [apply statement_terminates; terminates_step; [by apply raise_if_terminates|apply write_terminates]|].
  terminates_step; [apply statement_terminates, write_terminates|].
  terminates_step; [eapply call_Ok_terminates, text_terms_returns|].
  terminates_step; [eapply call_Ok_terminates, sequence_tokens|].
  terminates_step; [|terminates_step; apply statement_terminates, write_terminates].
  match goal with |- terminates (call (term_rows ?ts)) => destruct (term_rows_exact ts) as (rows & Hrows & _) end.
  by eapply call_Ok_terminates.
Qed.

Lemma write_each_terminates docs : forall previous, terminates (write_each fault docs previous).
Proof using.
  induction docs as [|doc docs IH]; intros previous; cbn [write_each]; [done|].
  terminates_step; [by apply statement_terminates|]. terminates_step.
  - terminates_step; [apply bind_terminates|]. terminates_step; [apply statement_terminates, write_terminates|apply IH].
  - terminates_step; [apply insert_document_terminates|apply IH].
Qed.

Lemma write_documents_terminates docs : terminates (write_documents fault docs).
Proof using.
  unfold write_documents. terminates_steps. apply transaction_terminates, write_each_terminates.
Qed.

Lemma update_each_terminates updates : forall missing, terminates (update_each fault updates missing).
Proof using.
  induction updates as [|u updates IH]; intros missing; cbn [update_each]; [done|].
  terminates_step; [apply bind_terminates|]. terminates_step; [|apply IH].
  apply statement_terminates. terminates_steps. apply write_terminates.
Qed.

Lemma update_counters_terminates updates : terminates (update_counters fault updates).
Proof using.
  unfold update_counters. terminates_steps. apply transaction_terminates, update_each_terminates.
Qed.

Lemma connect_terminates : terminates (connect_reader fault).
Proof using. unfold connect_reader. terminates_steps; by apply statement_terminates. Qed.

Lemma query_terminates {A} (f : tables -> A) : terminates (query fault f).
Proof using. by apply statement_terminates. Qed.

Lemma lookup_counters_terminates hs b : terminates (lookup_counters fault hs b).
Proof using.
  unfold lookup_counters. terminates_steps; [apply connect_terminates|].
  match goal with |- terminates (lookup_chunks _ ?l ?r) => generalize l, r end.
  intros l. induction l as [|chunk l IH]; intros r; cbn [lookup_chunks]; [done|].
  terminates_step; [apply query_terminates|apply IH].
Qed.

Lemma document_totals_terminates b : terminates (document_totals fault b).
Proof using. unfold document_totals. terminates_steps; [apply connect_terminates|apply query_terminates]. Qed.

(** The totals are those of the tables. *)
Lemma document_totals_committed d : tri (document_totals fault true)
  (fun found d' => exists last, totals (committed d') = Some (found, last)) (fun _ _ => True) d.
Proof using.
  unfold document_totals, query, statement. apply tri_bind, tri_ret, tri_bind, tri_bind, tri_reads, tri_bind, tri_change.
  destruct (fault (statements d)); [done|]. apply tri_reads.
  destruct (totals (committed (set_statements _ d))) as [[[number size] last]|] eqn:Htotals; [|done].
  apply tri_bind. unfold tri at 1. destruct (check _ _) as [[[]|e] d'] eqn:Hcheck; [|done].
  unfold check, call in Hcheck. injection Hcheck as _ <-. by exists last.
Qed.
End database_ends.

(** ** What is done leaves the plan alone *)

Section indexer_ends.
Context {K : Type} `{D : IndexCatalogDrains K} `{TextFunctions} (fault : nat -> bool).
Context (clock_at : nat -> Z) (stop_at : nat -> bool) (o : index_options).
Implicit Types (s : indexer K).

(** The plan of the thread is as it was, and no error has been counted. *)
Definition aside s s' : Prop :=
  times s' = times s /\ fatal s' = fatal s /\ started s' = started s /\
  index_errors (counts s') = index_errors (counts s) /\ questions s <= questions s'.

#[global] Instance aside_preorder : PreOrder aside.
Proof using.
  split; [by repeat split|]. intros s1 s2 s3 (A1 & A2 & A3 & A4 & A5) (B1 & B2 & B3 & B4 & B5).
  repeat split; try congruence; lia.
Qed.

(** [m] comes to an end and leaves the plan alone. *)
Definition quietly {A} (m : task (indexer K) A) : Prop := forall s,
  tri m (fun _ s' => aside s s') (fun e s' => e <> Diverge /\ aside s s') s.

Lemma aside_bind {A B} (m : task (indexer K) A) (f : A -> task (indexer K) B) :
  quietly m -> (forall a, quietly (f a)) -> quietly (m ≫= f).
Proof using.
  intros Hm Hf s. apply tri_bind. eapply tri_mono; [apply Hm| |done]. intros a s1 H1.
  eapply tri_mono; [apply Hf|..]; [intros b s2 H2|intros e s2 [He H2]; split; [done|]]; by transitivity s1.
Qed.

Lemma quietly_catch {A} (m : task (indexer K) A) h :
  quietly m -> (forall e, e <> Diverge -> quietly (h e)) -> quietly (catch m h).
Proof using.
  intros Hm Hh s. apply tri_catch. eapply tri_mono; [apply Hm|done|]. intros e s1 [He H1].
  eapply tri_mono; [by apply Hh|..]; [intros b s2 H2|intros e2 s2 [He2 H2]; split; [done|]]; by transitivity s1.
Qed.

Lemma quietly_still {A} (m : task (indexer K) A) : (forall s, (m s).2 = s) -> terminates m -> quietly m.
Proof using.
  intros Hs Ht s. specialize (Hs s). specialize (Ht s). unfold tri in *. destruct (m s) as [[a|e] s']; cbn in Hs; subst s'.
  - reflexivity.
  - split; [done|reflexivity].
Qed.

Lemma aside_change f : (forall s, aside s (f s)) -> quietly (change f).
Proof using. intros Hf s. apply Hf. Qed.

Lemma quietly_throw {A} e : e <> Diverge -> quietly (throw (A := A) e).
Proof using. intros He. apply quietly_still; [done|by apply terminates_throw]. Qed.

Lemma aside_check c : quietly (check c).
Proof using. apply quietly_still; [done|apply terminates_check]. Qed.

Lemma aside_when (c : bool) m : quietly m -> quietly (when c m).
Proof using. intros Hm. destruct c; [done|]. by apply quietly_still. Qed.

Lemma quietly_each {A} (f : A -> task (indexer K) unit) l : (forall x, quietly (f x)) -> quietly (each f l).
Proof using.
  intros Hf. induction l as [|x l IH]; cbn [each]; [by apply quietly_still|]. by apply aside_bind.
Qed.

Lemma quietly_on_catalog {A} (m : task K A) : terminates m -> quietly (on_catalog m).
Proof using.
  intros Hm s. specialize (Hm (ix_catalog s)). unfold tri, on_catalog in *.
  destruct (m (ix_catalog s)) as [[a|e] k]; [|split; [done|]]; by repeat split.
Qed.

Lemma quietly_on_database {A} (m : task database A) : terminates m -> quietly (on_database m).
Proof using.
  intros Hm s. specialize (Hm (ix_database s)). unfold tri, on_database in *.
  destruct (m (ix_database s)) as [[a|e] d]; [|split; [done|]]; by repeat split.
Qed.

Lemma quietly_ask {A} (f : nat -> A) : quietly (ask f).
Proof using. intros s. unfold ask. tri_steps. repeat split. cbn. lia. Qed.

Lemma quietly_count f : (forall c, index_errors (f c) = index_errors c) -> quietly (count (K := K) f).
Proof using. intros Hf. apply aside_change. intros s. repeat split; [cbn; apply Hf|done]. Qed.

Lemma quietly_except {A} (m : task (indexer K) A) h :
  quietly m -> (forall e, e <> Diverge -> quietly (h e)) -> quietly (except m h).
Proof using. intros Hm Hh. apply quietly_catch; [done|]. intros e He. case_decide; [done|by apply Hh]. Qed.

Lemma quietly_except_sqlite {A} (m : task (indexer K) A) h :
  quietly m -> quietly (h SqliteError) -> quietly (except_sqlite m h).
Proof using.
  intros Hm Hh. apply quietly_catch; [done|]. intros e He. case_decide; [by subst|by apply quietly_throw].
Qed.
End indexer_ends.

(** One construct of what leaves the plan alone. *)
Ltac quietly_step :=
  lazymatch goal with
  | |- quietly (_ ≫= _) => apply aside_bind; [|intros ?]
  | |- quietly (mret _) => by apply quietly_still
  | |- quietly (reads _) => by apply quietly_still
  | |- quietly (check _) => apply aside_check
  | |- quietly (throw _) => by apply quietly_throw
  | |- quietly (except_sqlite _ _) => apply quietly_except_sqlite
  | |- quietly (each _ _) => apply quietly_each; intros ?
  | |- quietly (when _ _) => apply aside_when
  | |- quietly (on_catalog _) => apply quietly_on_catalog
  | |- quietly (on_database _) => apply quietly_on_database
  | |- quietly (change _) => apply aside_change; intros ?; by repeat split
  | |- quietly (count _) => by apply quietly_count
  | |- quietly (read_clock _) => apply quietly_ask
  | |- quietly (read_stop _) => apply quietly_ask
  | |- quietly (call (sequence _)) => idtac
  | |- quietly (if ?c then _ else _) => destruct c
  | |- quietly (match ?x with _ => _ end) => destruct x
  end.
Ltac quietly_steps := repeat quietly_step.

(** ** The operations *)

Section operations_end.
Context {K : Type} `{D : IndexCatalogDrains K} `{TextFunctions} (fault : nat -> bool).
Context (clock_at : nat -> Z) (stop_at : nat -> bool) (o : index_options).
Implicit Types (s : indexer K).

Lemma quietly_sequence {A B} (f : A -> res B) l :
  (forall x, f x <> Raise Diverge) -> quietly (K := K) (call (sequence (f <$> l))).
Proof using.
  intros Hf. apply quietly_still; [done|]. apply terminates_call.
  induction l as [|x l IH]; [done|]. rewrite fmap_cons. cbn [sequence]. specialize (Hf x).
  destruct (f x) as [y|e]; [|congruence]. by destruct (sequence (f <$> l)).
Qed.

Lemma build_document_ends snap : build_document snap <> Raise Diverge.
Proof using. unfold build_document, assert_, raise_if. destruct (snap_metadata snap); [|done]. by destruct (0 <=? _)%Z. Qed.

Lemma build_counter_update_ends snap : build_counter_update snap <> Raise Diverge.
Proof using. unfold build_counter_update, assert_, raise_if. destruct (bool_decide _); [|done]. by destruct (0 <=? _)%Z. Qed.

Lemma fromhex_ends l : bytes_fromhex l <> Raise Diverge.
Proof using. unfold bytes_fromhex. by destruct (fromhex l). Qed.

Lemma quietly_thread_reader : quietly (K := K) (thread_reader fault).
Proof using. unfold thread_reader. quietly_steps. apply connect_terminates. Qed.

Lemma quietly_check_batches rounds : quietly (K := K) (check_batches fault rounds).
Proof using D.
  induction rounds as [|rounds IH]; cbn [check_batches]; quietly_steps; try done.
  - apply law_pending_ends.
  - apply quietly_thread_reader.
  - apply lookup_counters_terminates.
  - apply quietly_sequence, fromhex_ends.
  - apply law_apply_ends.
Qed.

Lemma quietly_flush_checks : quietly (K := K) (flush_checks fault clock_at).
Proof using D.
  unfold flush_checks. quietly_step; [|quietly_steps].
  apply quietly_except; [|intros e He].
  - quietly_steps; [apply quietly_thread_reader|apply document_totals_terminates|apply law_set_check_ends|
      apply quietly_check_batches].
  - unfold read_clock. quietly_step; [apply quietly_ask|]. quietly_step; [quietly_step|].
    quietly_step; [quietly_steps; apply law_set_check_ends|quietly_step].
Qed.

Lemma quietly_refresh_count b : quietly (K := K) (refresh_count fault b).
Proof using. unfold refresh_count. quietly_steps; [apply quietly_thread_reader|apply document_totals_terminates]. Qed.

(** ** The loops over the queues *)

(** [m] adds nothing to a queue, or raises. *)
Definition idle_on (left : K -> nat) {A} (m : task (indexer K) A) : Prop := forall s,
  tri m (fun _ s' => no_more busy left (ix_catalog s) (ix_catalog s')) (fun _ _ => True) s.

Lemma no_more_refl left (k : K) : no_more busy left k k.
Proof using. right. split; lia. Qed.

Lemma no_more_trans left (k1 k2 k3 : K) : no_more busy left k1 k2 -> no_more busy left k2 k3 -> no_more busy left k1 k3.
Proof using. unfold no_more. lia. Qed.

Lemma fewer_then left (k1 k2 k3 : K) : fewer busy left k1 k2 -> no_more busy left k2 k3 -> fewer busy left k1 k3.
Proof using. unfold fewer, no_more. lia. Qed.

Lemma idle_on_bind left {A B} (m : task (indexer K) A) (f : A -> task (indexer K) B) :
  idle_on left m -> (forall a, idle_on left (f a)) -> idle_on left (m ≫= f).
Proof using.
  intros Hm Hf s. apply tri_bind. eapply tri_mono; [apply Hm| |done]. intros a s1 H1.
  eapply tri_mono; [apply Hf| |done]. intros b s2 H2. exact (no_more_trans _ _ _ _ H1 H2).
Qed.

Lemma idle_same left {A} (m : task (indexer K) A) : (forall s, ix_catalog (m s).2 = ix_catalog s) -> idle_on left m.
Proof using.
  intros Hm s. specialize (Hm s). unfold tri. destruct (m s) as [[a|e] s']; [|done]. cbn in Hm. rewrite Hm. apply no_more_refl.
Qed.

Lemma idle_on_catalog left {A} (m : task K A) : adds_none busy left m -> idle_on left (on_catalog m).
Proof using.
  intros Hm s. specialize (Hm (ix_catalog s)). unfold tri, on_catalog in *. by destruct (m (ix_catalog s)) as [[a|e] k].
Qed.

Lemma idle_on_database left {A} (m : task database A) : idle_on left (on_database m).
Proof using. apply idle_same. intros s. unfold on_database. by destruct (m (ix_database s)). Qed.

Lemma idle_each left {A} (f : A -> task (indexer K) unit) l : (forall x, idle_on left (f x)) -> idle_on left (each f l).
Proof using. intros Hf. induction l as [|x l IH]; cbn [each]; [by apply idle_same|]. by apply idle_on_bind. Qed.

Lemma idle_except_sqlite left {A} (m : task (indexer K) A) h :
  idle_on left m -> (forall s, tri (h SqliteError) (fun _ _ => False) (fun _ _ => True) s) -> idle_on left (except_sqlite m h).
Proof using.
  intros Hm Hh s. apply tri_catch. eapply tri_mono; [apply Hm|done|]. intros e s1 _.
  case_decide; [subst|done]. eapply tri_mono; [apply Hh|done|done].
Qed.

Lemma raises_after {A B} (m : task (indexer K) A) e s :
  tri (m ≫= fun _ => throw (A := B) e) (fun _ _ => False) (fun _ _ => True) s.
Proof using. unfold tri, mbind, task_bind. by destruct (m s) as [[]]. Qed.

(** A property of all states, if it holds where less is left. *)
Lemma drain_ind (left : K -> nat) (P : indexer K -> Prop) :
  (forall s, (forall s', fewer busy left (ix_catalog s) (ix_catalog s') -> P s') -> P s) -> forall s, P s.
Proof using.
  intros HP s. remember (busy (ix_catalog s)) as b eqn:Hb. revert s Hb.
  induction b as [b IHb] using lt_wf_ind. intros s Hb.
  remember (left (ix_catalog s)) as l eqn:Hl. revert s Hb Hl. induction l as [l IHl] using lt_wf_ind.
  intros s Hb Hl. apply HP. intros s' [Hlt|[Heq Hlt]].
  - apply (IHb (busy (ix_catalog s'))); [lia|done].
  - apply (IHl (left (ix_catalog s'))); [lia|lia|done].
Qed.
(** The end of a loop: the plan is left alone. *)
Abbreviation comes_to_end m s :=
  (eventually m (fun _ s' => aside s s') (fun e s' => e <> Diverge /\ aside s s') s).

Lemma quietly_after {A B} (m : task (indexer K) A) (f : A -> nat -> task (indexer K) B) s (R : A -> indexer K -> Prop) :
  quietly m -> tri m R (fun _ _ => True) s ->
  (forall a s', aside s s' -> R a s' -> comes_to_end (f a) s') -> comes_to_end (fun n => m ≫= fun a => f a n) s.
Proof using.
  intros Hm HR Hf. apply (eventually_bind (fun _ => m)), eventually_const.
  eapply tri_mono; [exact (tri_and _ _ _ _ _ _ (Hm s) HR)| |by intros e s' [? _]].
  intros a s' [Ha Hr]. eapply eventually_mono; [by apply Hf|..].
  - intros b s'' Hb. by transitivity s'.
  - intros e s'' [He Hb]. split; [done|]. by transitivity s'.
Qed.

Lemma quietly_at_last {A} (m : task (indexer K) A) s : quietly m -> comes_to_end (fun _ => m) s.
Proof using. intros Hm. apply eventually_const, Hm. Qed.

Lemma quietly_in_time deadline : quietly (K := K) (in_time clock_at deadline).
Proof using. unfold in_time, read_clock. quietly_step; [|by apply quietly_still]. quietly_step; [apply quietly_ask|quietly_step]. Qed.

Lemma in_time_catalog deadline s :
  tri (in_time clock_at deadline) (fun _ s' => ix_catalog s' = ix_catalog s) (fun _ _ => True) s.
Proof using. by destruct deadline. Qed.

Lemma flush_documents_end deadline : forall s, comes_to_end (fun n => flush_documents fault clock_at o n deadline) s.
Proof using D.
  apply (drain_ind documents_left). intros s IH. apply eventually_S. cbn [flush_documents].
  eapply quietly_after; [apply quietly_in_time|apply in_time_catalog|]. intros [] s1 _ H1; cbn [negb].
  2: apply quietly_at_last, aside_check.
  assert (forall n, quietly (K := K) (on_catalog (catalog_drain_index_documents n))) as Hq.
  { intros n. apply quietly_on_catalog. intros k. eapply tri_mono; [apply law_documents_fewer|done|done]. }
  eapply (quietly_after _ _ _ (fun batch s' => batch = [] \/ fewer busy documents_left (ix_catalog s) (ix_catalog s'))); [apply Hq| |].
  { rewrite <-H1. pose proof (law_documents_fewer (batch_size o) (ix_catalog s1)) as Hl. unfold tri, on_catalog in *.
    by destruct (catalog_drain_index_documents (batch_size o) (ix_catalog s1)) as [[l|e] k]. }
  intros batch s2 _ Hb. clear s1 H1. rename s2 into s1. case_bool_decide as Hne; [apply quietly_at_last; quietly_steps|].
  destruct Hb as [|Hb]; [done|].
  assert (forall s2, no_more busy documents_left (ix_catalog s1) (ix_catalog s2) ->
    comes_to_end (fun n => flush_documents fault clock_at o n deadline) s2) as IH1.
  { intros s2 H2. by apply IH, (fewer_then _ _ _ _ Hb). }
  clear IH Hb s Hq. eapply quietly_after; [|apply (idle_except_sqlite documents_left)|].
  - quietly_steps; [apply quietly_sequence, build_document_ends|apply write_documents_terminates|apply law_requeue_documents_ends].
  - apply idle_on_bind; [by apply idle_same|]. intros docs. apply idle_on_bind; [apply idle_on_database|]. intros previous. by apply idle_same.
  - intros s2. apply raises_after.
  - intros bases s2 _ H2. cbn beta in H2. eapply (quietly_after _ _ _ (fun _ s' => no_more busy documents_left (ix_catalog s1) (ix_catalog s'))).
    + quietly_steps. intros k. eapply tri_mono; [apply law_mark_written_adds_none|done|done].
    + eapply tri_mono; [apply (idle_each documents_left)| |done].
      * intros sb. apply idle_on_catalog, law_mark_written_adds_none.
      * intros [] s3 H3. exact (no_more_trans _ _ _ _ H2 H3).
    + intros [] s3 _ H3. eapply (quietly_after _ _ _ (fun _ s' => ix_catalog s' = ix_catalog s3)); [quietly_steps|done|].
      intros [] s4 _ H4. apply IH1. by rewrite H4.
Qed.

Lemma flush_counters_end deadline : forall s, comes_to_end (fun n => flush_counters fault clock_at o n deadline) s.
Proof using D.
  apply (drain_ind counters_left). intros s IH. apply eventually_S. cbn [flush_counters].
  eapply quietly_after; [apply quietly_in_time|apply in_time_catalog|]. intros [] s1 _ H1; cbn [negb].
  2: apply quietly_at_last, aside_check.
  assert (forall n, quietly (K := K) (on_catalog (catalog_drain_index_counters n))) as Hq.
  { intros n. apply quietly_on_catalog. intros k. eapply tri_mono; [apply law_counters_fewer|done|done]. }
  eapply (quietly_after _ _ _ (fun batch s' => batch = [] \/ fewer busy counters_left (ix_catalog s) (ix_catalog s'))); [apply Hq| |].
  { rewrite <-H1. pose proof (law_counters_fewer (batch_size o) (ix_catalog s1)) as Hl. unfold tri, on_catalog in *.
    by destruct (catalog_drain_index_counters (batch_size o) (ix_catalog s1)) as [[l|e] k]. }
  intros batch s2 _ Hb. clear s1 H1. rename s2 into s1. case_bool_decide as Hne; [apply quietly_at_last; quietly_steps|].
  destruct Hb as [|Hb]; [done|].
  assert (forall s2, no_more busy counters_left (ix_catalog s1) (ix_catalog s2) ->
    comes_to_end (fun n => flush_counters fault clock_at o n deadline) s2) as IH1.
  { intros s2 H2. by apply IH, (fewer_then _ _ _ _ Hb). }
  clear IH Hb s Hq. eapply quietly_after; [|apply (idle_except_sqlite counters_left)|].
  - quietly_steps; [apply quietly_sequence, build_counter_update_ends|apply update_counters_terminates|apply law_requeue_counters_ends].
  - apply idle_on_bind; [by apply idle_same|]. intros l. apply idle_on_database.
  - intros s2. apply raises_after.
  - intros missing s2 _ H2. cbn beta in H2.
    eapply (quietly_after _ _ _ (fun _ s' => no_more busy counters_left (ix_catalog s1) (ix_catalog s'))).
    + quietly_steps. intros k. eapply tri_mono; [apply law_mark_counters_adds_none|done|done].
    + eapply tri_mono; [apply (idle_on_catalog counters_left), law_mark_counters_adds_none| |done].
      intros [] s3 H3. exact (no_more_trans _ _ _ _ H2 H3).
    + intros [] s3 _ H3. eapply (quietly_after _ _ _ (fun _ s' => no_more busy counters_left (ix_catalog s1) (ix_catalog s'))).
      * quietly_steps; [apply quietly_still; [done|apply terminates_call, fromhex_ends]|].
        intros k. eapply tri_mono; [apply law_reset_adds_none|done|done].
      * eapply tri_mono; [apply (idle_each counters_left)| |done].
        -- intros h. apply idle_on_bind; [by apply idle_same|]. intros b. apply idle_on_catalog, law_reset_adds_none.
        -- intros [] s4 H4. exact (no_more_trans _ _ _ _ H3 H4).
      * intros [] s4 _ H4. eapply (quietly_after _ _ _ (fun _ s' => ix_catalog s' = ix_catalog s4)); [quietly_steps|done|].
        intros [] s5 _ H5. apply IH1. by rewrite H5.
Qed.
(** ** A turn of the thread *)

(** No error is counted, and nothing is said of the plan. *)
Definition beside s s' : Prop :=
  fatal s' = fatal s /\ started s' = started s /\ index_errors (counts s') = index_errors (counts s) /\
  questions s <= questions s'.

Lemma beside_trans s1 s2 s3 : beside s1 s2 -> beside s2 s3 -> beside s1 s3.
Proof using. intros (A1 & A2 & A3 & A4) (B1 & B2 & B3 & B4). repeat split; try congruence; lia. Qed.

(** A part of the work: when it was due it ran to its end, with the outcome [P];
    otherwise nothing was done. *)
Definition did (due : bool) (m : nat -> task (indexer K) unit) (P : indexer K -> Prop) s s' : Prop :=
  if due then exists s0, completes m s s0 /\ P s0 /\ s' = set_times (times s') s0 else s' = s.

Lemma eventually_due (b : bool) (m : nat -> task (indexer K) unit) f (P : indexer K -> Prop) s :
  (forall s, comes_to_end m s) -> (forall n s, tri (m n) (fun _ => P) (fun _ _ => True) s) -> (forall t, backoff (f t) = backoff t) ->
  eventually (fun n => when b (m n ;; schedule f))
    (fun _ s' => times s' = (if b then f (times s) else times s) /\ beside s s' /\ did b m P s s')
    (fun e s' => e <> Diverge /\ backoff (times s') = backoff (times s) /\ beside s s') s.
Proof using.
  intros Hm HP Hf. apply eventually_when; intros ->; [|by repeat split].
  apply (eventually_bind m (fun _ _ => schedule f)).
  eapply eventually_mono; [exact (eventually_completes _ _ _ _ (eventually_and _ _ _ _ _ _ (Hm s) (fun n => HP n s)))|..].
  - intros [] s1 [[(A1 & A2 & A3 & A4 & A5) HP1] Hrun]. apply eventually_const. split; [cbn; by rewrite A1|].
    split; [by repeat split|]. by exists s1.
  - intros e s1 [(He & A1 & A2 & A3 & A4 & A5) _]. split; [done|]. rewrite A1. by repeat split.
Qed.

(** What the parts of the work achieve: the checks are on, the last batch taken out
    of a queue was empty, and the totals are those of the database. *)
Definition checks_on s : Prop := checks_bypassed s = false /\ check_failing_since s = None.
Definition documents_drained s : Prop := exists k, catalog_drain_index_documents (batch_size o) k = (Ok [], ix_catalog s).
Definition counters_drained s : Prop := exists k, catalog_drain_index_counters (batch_size o) k = (Ok [], ix_catalog s).
Definition documents_counted s : Prop := exists number size c,
  totals (committed (ix_database s)) = Some (number, size, c) /\ documents (counts s) = Some number /\ total_size (counts s) = size.

Lemma any_then {A B} (m : task (indexer K) A) (f : A -> task (indexer K) B) (Q : B -> indexer K -> Prop) s :
  (forall a s', tri (f a) Q (fun _ _ => True) s') -> tri (m ≫= f) Q (fun _ _ => True) s.
Proof using. intros Hf. apply tri_bind. unfold tri at 1. destruct (m s) as [[a|e] s']; [apply Hf|done]. Qed.

Lemma flush_checks_turns_on s : tri (flush_checks fault clock_at) (fun _ => checks_on) (fun _ _ => True) s.
Proof using.
  unfold flush_checks. apply any_then. intros _ s1. apply tri_bind, tri_change, tri_bind, tri_reads.
  destruct (checks_bypassed (set_failing_since None s1)) eqn:Hb; [done|]. apply tri_check; [done|]. by split.
Qed.

Lemma flush_documents_drains rounds : forall s,
  tri (flush_documents fault clock_at o rounds None) (fun _ => documents_drained) (fun _ _ => True) s.
Proof using.
  induction rounds as [|rounds IH]; intros s; cbn [flush_documents]; [done|]. apply any_then. intros [] s1; cbn [negb]; [|done].
  apply tri_bind. unfold tri at 1, on_catalog.
  destruct (catalog_drain_index_documents (batch_size o) (ix_catalog s1)) as [[l|e] k] eqn:Hdrain; [|done].
  case_bool_decide as Hl; [subst l; apply tri_ret; by exists (ix_catalog s1)|]. do 3 (apply any_then; intros ??). apply IH.
Qed.

Lemma flush_counters_drains rounds : forall s,
  tri (flush_counters fault clock_at o rounds None) (fun _ => counters_drained) (fun _ _ => True) s.
Proof using.
  induction rounds as [|rounds IH]; intros s; cbn [flush_counters]; [done|]. apply any_then. intros [] s1; cbn [negb]; [|done].
  apply tri_bind. unfold tri at 1, on_catalog.
  destruct (catalog_drain_index_counters (batch_size o) (ix_catalog s1)) as [[l|e] k] eqn:Hdrain; [|done].
  case_bool_decide as Hl; [subst l; apply tri_ret; by exists (ix_catalog s1)|]. do 4 (apply any_then; intros ??). apply IH.
Qed.

Lemma refresh_count_counts s : tri (refresh_count fault true) (fun _ => documents_counted) (fun _ _ => True) s.
Proof using.
  unfold refresh_count. apply any_then. intros _ s1. apply tri_bind. pose proof (document_totals_committed fault (ix_database s1)) as Hd.
  unfold on_database. unfold tri in Hd |- * at 1. destruct (document_totals fault true (ix_database s1)) as [[[number size]|e] d]; [|done].
  destruct Hd as [last Hd]. unfold count. apply tri_bind, tri_change. unfold tri, check, call.
  destruct (assert_ (0 <=? number)%Z); [|done]. by exists number, size, last.
Qed.

(** The times that are next after the work of the moment [now]. *)
Definition planned (now : Z) (t : timetable) : timetable :=
  let next field period := (if field t <=? now then now + period else field t)%Z in
  let checks := next next_checks (check_seconds o) in
  let docs := next next_documents (document_seconds o) in
  let counters := next next_counters (counter_seconds o) in
  let count := next next_count (count_seconds o) in
  Timetable checks docs counters count (Z.min (Z.min checks docs) (Z.min counters count)) 0.

(** What was due at the moment [now] was done, one part after the other. *)
Definition worked (now : Z) s s' : Prop := exists s1 s2 s3 s4,
  did (next_checks (times s) <=? now)%Z (fun _ => flush_checks fault clock_at) checks_on s s1 /\
  did (next_documents (times s) <=? now)%Z (fun rounds => flush_documents fault clock_at o rounds None) documents_drained s1 s2 /\
  did (next_counters (times s) <=? now)%Z (fun rounds => flush_counters fault clock_at o rounds None) counters_drained s2 s3 /\
  did (next_count (times s) <=? now)%Z (fun _ => refresh_count fault true) documents_counted s3 s4 /\
  s' = set_times (times s') s4.

(** All that was due was done and is planned anew, and no error was counted. *)
Definition succeeded (now : Z) s s' : Prop :=
  times s' = planned now (times s) /\ beside s s' /\ worked now (set_questions (Datatypes.S (questions s)) s) s'.

(** An error came up: it is counted, the reader is closed, and the thread pauses,
    twice as long as the last time. *)
Definition paused (now : Z) s s' : Prop :=
  backoff (times s') = (if decide (backoff (times s) = 0) then backoff_start o else Z.min (2 * backoff (times s)) (backoff_max o))%Z /\
  wake_at (times s') = (now + backoff (times s'))%Z /\ reader s' = false /\
  index_errors (counts s') = (index_errors (counts s) + 1)%Z /\
  fatal s' = fatal s /\ started s' = started s /\ questions s <= questions s'.

Definition pause_ok s : Prop := (0 <= backoff (times s) <= backoff_max o)%Z.

(** The four parts of the work, one after the other. *)
Lemma due_work_end (now : Z) s :
  eventually (fun rounds =>
    due ← reads times;
    when (next_checks due <=? now)%Z (
      flush_checks fault clock_at ;; schedule (set_next_checks (now + check_seconds o)%Z)) ;;
    due ← reads times;
    when (next_documents due <=? now)%Z (
      flush_documents fault clock_at o rounds None ;; schedule (set_next_documents (now + document_seconds o)%Z)) ;;
    due ← reads times;
    when (next_counters due <=? now)%Z (
      flush_counters fault clock_at o rounds None ;; schedule (set_next_counters (now + counter_seconds o)%Z)) ;;
    due ← reads times;
    when (next_count due <=? now)%Z (
      refresh_count fault true ;; schedule (set_next_count (now + count_seconds o)%Z)) ;;
    schedule (set_backoff 0) ;;
    schedule (fun t => set_wake_at (Z.min (Z.min (next_checks t) (next_documents t))
      (Z.min (next_counters t) (next_count t))) t))
    (fun _ s' => times s' = planned now (times s) /\ beside s s' /\ worked now s s')
    (fun e s' => e <> Diverge /\ backoff (times s') = backoff (times s) /\ beside s s') s.
Proof using D.
  assert (forall (e : exn) s1 s2, beside s s1 -> backoff (times s1) = backoff (times s) ->
    e <> Diverge /\ backoff (times s2) = backoff (times s1) /\ beside s1 s2 ->
    e <> Diverge /\ backoff (times s2) = backoff (times s) /\ beside s s2) as Hraise.
  { intros e s1 s2 H1 Hb1 (He & Hb2 & H2). split; [done|]. split; [congruence|]. by eapply beside_trans. }
  apply (eventually_bind (fun _ => reads times)), eventually_const.
  eapply eventually_bind, eventually_mono; [apply eventually_due; [|intros _; apply flush_checks_turns_on|done]|..].
  { intros s0. apply quietly_at_last, quietly_flush_checks. }
  2: by intros e s1 He.
  intros _ s1 (T1 & B1 & W1). apply (eventually_bind (fun _ => reads times)), eventually_const.
  assert (backoff (times s1) = backoff (times s)) as P1 by (rewrite T1; by case_match).
  eapply eventually_bind, eventually_mono; [apply eventually_due; [apply flush_documents_end|apply flush_documents_drains|done]|..].
  2: { intros e s2 He. by apply (Hraise e s1). }
  intros _ s2 (T2 & B2 & W2). apply (eventually_bind (fun _ => reads times)), eventually_const.
  assert (backoff (times s2) = backoff (times s)) as P2 by (rewrite T2, <-P1; by case_match).
  pose proof (beside_trans _ _ _ B1 B2) as B12.
  eapply eventually_bind, eventually_mono; [apply eventually_due; [apply flush_counters_end|apply flush_counters_drains|done]|..].
  2: { intros e s3 He. by apply (Hraise e s2). }
  intros _ s3 (T3 & B3 & W3). apply (eventually_bind (fun _ => reads times)), eventually_const.
  assert (backoff (times s3) = backoff (times s)) as P3 by (rewrite T3, <-P2; by case_match).
  pose proof (beside_trans _ _ _ B12 B3) as B13.
  eapply eventually_bind, eventually_mono; [apply eventually_due; [|intros _; apply refresh_count_counts|done]|..].
  { intros s0. apply quietly_at_last, quietly_refresh_count. }
  2: { intros e s4 He. by apply (Hraise e s3). }
  intros _ s4 (T4 & B4 & W4). pose proof (beside_trans _ _ _ B13 B4) as B14. apply eventually_const. unfold schedule. tri_steps.
  split; [|split; [done|]].
  2: { assert (next_documents (times s1) = next_documents (times s)) as N1 by (rewrite T1; by destruct (_ <=? _)%Z). rewrite N1 in W2, T2.
    assert (next_counters (times s2) = next_counters (times s)) as N2 by (rewrite T2, T1; by repeat destruct (_ <=? _)%Z). rewrite N2 in W3, T3.
    assert (next_count (times s3) = next_count (times s)) as N3 by (rewrite T3, T2, T1; by repeat destruct (_ <=? _)%Z). rewrite N3 in W4.
    exists s1, s2, s3, s4. by repeat split. }
  cbn [times set_times]. rewrite T4, T3, T2, T1. clear. unfold planned.
  destruct (times s) as [c d n u w p]. cbn.
  destruct (c <=? now)%Z; cbn; destruct (d <=? now)%Z; cbn; destruct (n <=? now)%Z; cbn; by destruct (u <=? now)%Z.
Qed.

(** However the work ends, the turn does. *)
Lemma run_due_work_end s :
  index_options_ok o = true -> pause_ok s ->
  eventually (fun n => run_due_work fault clock_at o n)
    (fun _ s' => let now := clock_at (questions s) in (succeeded now s s' \/ paused now s s') /\ pause_ok s')
    (fun _ _ => False) s.
Proof using D.
  intros Ho Hp. unfold run_due_work. apply (eventually_bind (fun _ => read_clock clock_at)), eventually_const.
  unfold read_clock, ask. tri_steps. set (now := clock_at (questions s)). set (s0 := set_questions _ s).
  assert (beside s s0) as B0 by (repeat split; cbn; lia).
  unfold index_options_ok in Ho. apply andb_true_iff in Ho as [Ho _]. apply andb_true_iff in Ho as [Ho Hmax].
  apply andb_true_iff in Ho as [_ Hstart]. apply Z.leb_le in Hmax. apply Z.ltb_lt in Hstart.
  apply eventually_bind. unfold except. apply (eventually_catch _ (fun e _ => _)).
  eapply eventually_mono; [apply due_work_end|..].
  - intros [] s1 (T1 & B1 & W1). apply eventually_const. tri_steps. apply tri_check.
    { rewrite T1. cbn. by rewrite orb_true_r. }
    split; [|unfold pause_ok; rewrite T1; cbn; lia]. left. split; [exact T1|]. split; [by eapply beside_trans|exact W1].
  - intros e s1 (He & Hb & B1). rewrite decide_False by done. apply eventually_const.
    unfold record_error, count, schedule, close_reader. tri_steps.
    apply tri_check; [done|]. tri_steps. apply eventually_const. tri_steps.
    set (s2 := set_times _ _). cbn beta.
    assert (backoff (times s2) = (if decide (backoff (times s) = 0) then backoff_start o else Z.min (2 * backoff (times s)) (backoff_max o))%Z) as Hb2
      by (cbn; by rewrite Hb).
    assert (wake_at (times s2) = now + backoff (times s2))%Z as Hw by done. unfold pause_ok in *.
    assert (0 <= backoff (times s2) <= backoff_max o)%Z as Hp2 by (rewrite Hb2; case_decide; lia).
    apply tri_check; [apply orb_true_iff; left; apply Z.leb_le; lia|]. split; [|done]. right.
    destruct (beside_trans _ _ _ B0 B1) as (A1 & A2 & A3 & A4). repeat split; try done. cbn. lia.
Qed.
(** ** The thread *)

Context (Hset : forall n m, n <= m -> stop_at n = true -> stop_at m = true).

(** The thread is as it was told to be: it runs, and no error has ended it. *)
Definition alive s s' : Prop := fatal s' = fatal s /\ started s' = started s /\ pause_ok s' /\ questions s <= questions s'.

Lemma alive_trans s1 s2 s3 : alive s1 s2 -> alive s2 s3 -> alive s1 s3.
Proof using. intros (A1 & A2 & A3 & A4) (B1 & B2 & B3 & B4). repeat split; try congruence; [apply B3..|lia]. Qed.

Lemma run_until_stop_end N : index_options_ok o = true -> stop_at N = true ->
  forall (g : nat -> nat) s, (forall n, n <= g n) -> pause_ok s ->
  eventually (fun n => run_until_stop fault clock_at stop_at o (g n) n)
    (fun _ s' => alive s s' /\ stop_at (questions s') = true) (fun _ _ => False) s.
Proof using D Hset.
  intros Ho HN g s. remember (N - questions s) as left eqn:Hleft. revert g s Hleft.
  induction left as [left IH] using lt_wf_ind. intros g s Hleft Hg Hp. apply eventually_S. cbn [run_until_stop].
  apply (eventually_bind (fun _ => read_stop stop_at)), eventually_const. unfold read_stop, ask. tri_steps.
  set (s0 := set_questions _ s). assert (alive s s0) as A0 by (repeat split; try apply Hp; cbn; lia).
  destruct (stop_at (questions s)) eqn:Hq.
  { apply eventually_const. tri_steps. split; [done|]. apply (Hset (questions s)); [cbn; lia|done]. }
  assert (questions s < N) as Hlt.
  { destruct (le_lt_dec N (questions s)) as [Hle|]; [|done]. pose proof (Hset _ _ Hle HN). congruence. }
  apply (eventually_bind (fun _ => read_clock clock_at)), eventually_const. unfold read_clock, ask. tri_steps.
  set (s1 := set_questions _ s0). assert (alive s s1) as A1 by (repeat split; try apply Hp; cbn; lia).
  apply (eventually_bind (fun _ => reads times)), eventually_const. tri_steps.
  assert (forall n, n <= g (Datatypes.S n)) as Hg' by (intros n; specialize (Hg (Datatypes.S n)); lia).
  apply eventually_bind. eapply (eventually_mono _ (fun _ s2 => alive s1 s2) _ (fun _ _ => False)); [|intros [] s2 A2|done].
  { apply eventually_when; [intros _|intros _; repeat split; try apply Hp; lia].
    eapply eventually_mono; [exact (eventually_along _ _ _ _ _ Hg' (run_due_work_end s1 Ho Hp))| |done].
    intros [] s2 [Hend Hp2]. unfold alive. destruct Hend as [(_ & (B1 & B2 & _ & B4) & _)|(_ & _ & _ & _ & B1 & B2 & B4)]; by repeat split; try apply Hp2. }
  apply (eventually_bind (fun _ => read_clock clock_at)), eventually_const. unfold read_clock, ask. tri_steps.
  set (s3 := set_questions _ s2). assert (alive s s3 /\ questions s < questions s3) as [A3 H3].
  { destruct A1 as (B1 & B2 & B3 & B4), A2 as (C1 & C2 & C3 & C4). unfold s3, s1, s0 in *. cbn in *.
    repeat split; cbn; try congruence; try apply C3; lia. }
  eapply eventually_mono; [apply (IH (N - questions s3)); [lia|done|done|apply A3]| |done].
  intros [] s4 [A4 H4]. split; [by eapply alive_trans|done].
Qed.

(** The last flush; the thread has been told to stop. *)
Lemma final_flush_end s : stop_at (questions s) = true ->
  eventually (fun n => final_flush fault clock_at stop_at o n)
    (fun _ s' => fatal s' = fatal s /\ started s' = started s) (fun _ _ => False) s.
Proof using D Hset.
  intros Hs. unfold final_flush. apply (eventually_bind (fun _ => read_clock clock_at)), eventually_const.
  unfold read_clock, ask. tri_steps. set (s0 := set_questions _ s).
  assert (beside s s0) as B0 by (repeat split; cbn; lia).
  apply eventually_bind. eapply (eventually_mono _ (fun _ s1 => fatal s1 = fatal s /\ started s1 = started s /\ questions s <= questions s1) _ (fun _ _ => False)).
  - unfold except. apply (eventually_catch _ (fun e _ => _)). apply eventually_bind.
    assert (forall e s1 s2, beside s s1 -> e <> Diverge /\ aside s1 s2 -> eventually
      (fun _ => if decide (e = Diverge) then throw e else record_error e)
      (fun _ s3 => fatal s3 = fatal s /\ started s3 = started s /\ questions s <= questions s3) (fun _ _ => False) s2) as Hraise.
    { intros e s1 s2 (B1 & B2 & B3 & B4) (He & A1 & A2 & A3 & A4 & A5). rewrite decide_False by done. apply eventually_const.
      unfold record_error, count. tri_steps. cbn. repeat split; try congruence; lia. }
    eapply eventually_mono; [apply flush_documents_end| |intros e s1 He; by apply (Hraise e s0)].
    intros [] s1 (A1 & A2 & A3 & A4 & A5).
    assert (beside s s1) as B1 by (destruct B0 as (B1 & B2 & B3 & B4); repeat split; try congruence; lia).
    eapply eventually_mono; [apply flush_counters_end| |intros e s2 He; by apply (Hraise e s1)].
    intros [] s2 (C1 & C2 & C3 & C4 & C5). destruct B1 as (B1 & B2 & B3 & B4). repeat split; try congruence; lia.
  - intros [] s1 (A1 & A2 & A3). apply eventually_const. unfold read_stop, ask. tri_steps. apply tri_check; [|done].
    exact (Hset _ _ A3 Hs).
  - done.
Qed.

Lemma run_index_end s N : index_options_ok o = true -> stop_at N = true -> pause_ok s -> started s = true ->
  eventually (fun n => run_index fault clock_at stop_at o n)
    (fun _ s' => fatal s' = fatal s /\ started s' = true /\ reader s' = false) (fun _ _ => False) s.
Proof using D Hset.
  intros Ho HN Hp Hs. unfold run_index. apply (eventually_bind (fun _ => reads started)), eventually_const. tri_steps.
  apply (eventually_bind (fun _ => check _)), eventually_const, tri_check; [done|].
  apply eventually_bind. unfold finally, except.
  assert (eventually (fun n => except (run_until_stop fault clock_at stop_at o n n ;; final_flush fault clock_at stop_at o n)
    (fun _ => change (set_fatal true))) (fun _ s' => fatal s' = fatal s /\ started s' = true) (fun _ _ => False) s) as Hbody.
  { unfold except. apply (eventually_catch _ (fun e _ => _)). apply eventually_bind.
    eapply eventually_mono; [apply (run_until_stop_end N Ho HN (fun n => n)); [lia|done]| |done].
    intros [] s1 [(A1 & A2 & _) H1]. eapply eventually_mono; [by apply final_flush_end| |done].
    intros [] s2 [B1 B2]. split; congruence. }
  destruct Hbody as (n & [[[]|e] s1] & Hn & Hr); [|done]. destruct Hr as [F1 F2].
  exists n, (Ok tt, set_reader false s1). split.
  - intros n' Hle. specialize (Hn n' Hle). unfold except in Hn. by rewrite Hn.
  - cbn. apply eventually_const. tri_steps. by apply tri_check.
Qed.
End operations_end.
