(* ===== verification/SearchIndexerSafety.v ===== *)
(** No document is lost on its way from the catalog to the database: what the
    index thread takes out of the queue is in the database or back in the queue
    when it is done, whatever statement fails. *)
From S2P Require Import Prelude PyDict Bencode NodeIdentity AddressText Krpc TorrentInfo Catalog.
From S2P Require Import Tasks TaskLoops TypoIndex TorrentDatabase TorrentDatabaseSafety IndexInterface.
From S2P Require Import TorrentDatabaseSearch TorrentDatabaseLookup SearchIndexer SearchIndexerRun.

(** ** The database *)

Section stored.
Context `{TextFunctions} (fault : nat -> bool).
Implicit Types (d : database).

(** The torrents with a row. *)
Definition stored d (h : bytes) : Prop := is_Some (document_of (committed d) (hex h)).

(** The database is in order, and its counts are of sightings. *)
Record database_ready d : Prop := DatabaseReady {
  dr_opened : opened d = true;
  dr_working : working d = None;
  dr_tables : tables_ok (committed d);
  dr_counts : forall h doc, document_of (committed d) h = Some doc -> (0 <= doc_seen_count doc)%Z }.

Definition document_new (doc : document) : Prop := document_ok doc /\ (0 <= doc_seen_count doc)%Z.

(** The documents that are written. *)
Lemma written_stored docs : forall t, tables_ok t -> Forall document_new docs ->
  (forall h doc, document_of t h = Some doc -> (0 <= doc_seen_count doc)%Z) ->
  let t' := foldl written t docs in
  tables_ok t' /\ (forall h doc, document_of t' h = Some doc -> (0 <= doc_seen_count doc)%Z) /\
  (forall h, is_Some (document_of t h) \/ h ∈ doc_info_hash <$> docs -> is_Some (document_of t' h)).
Proof using.
  induction docs as [|doc docs IH]; intros t Ht Hdocs Hc; cbn [foldl].
  { split; [done|]. split; [done|]. intros h [|Hin]; [done|]. by apply elem_of_nil in Hin. }
  apply Forall_cons in Hdocs as [[Hdoc Hn] Hdocs]. destruct (IH (written t doc)) as (H1 & H2 & H3); [by apply written_ok|done| |].
  { intros h doc'. rewrite document_of_written by done. case_decide; [|apply Hc]. intros [= <-]. unfold merged.
    destruct (document_of t h) as [old|] eqn:Hold; [|done]. cbn. specialize (Hc _ _ Hold). lia. }
  split; [done|]. split; [done|]. intros h Hh. apply H3. rewrite fmap_cons, elem_of_cons in Hh.
  rewrite document_of_written by done. destruct Hh as [Hh|[->|Hin]]; [left|left|by right].
  - case_decide; [eauto|done].
  - rewrite decide_True by done. eauto.
Qed.

(** The earlier counters that come back are those of rows. *)
Lemma previous_nonneg docs t h c : tables_ok t -> Forall document_new docs -> NoDup (doc_info_hash <$> docs) ->
  (forall h doc, document_of t h = Some doc -> (0 <= doc_seen_count doc)%Z) ->
  dict_get h (previous_counters t docs []) = Some c -> (0 <= c.1.1)%Z.
Proof using.
  intros Ht Hdocs Hnd Hc. rewrite previous_exact; [|done| |done].
  2: { eapply Forall_impl; [exact Hdocs|]. by intros ? []. }
  case_decide; [|done]. destruct (find_row h t) as [r|] eqn:Hr; [|done]. intros [= <-]. cbn. apply (Hc h).
  unfold document_of. by rewrite Hr.
Qed.

(** Writing new documents: all are stored, or the database is as it was. *)
Lemma tri_write_new docs d :
  database_ready d -> Forall document_new docs -> NoDup (doc_info_hash <$> docs) ->
  tri (write_documents fault docs)
    (fun previous d' => database_ready d' /\ (forall h, stored d h \/ hex h ∈ doc_info_hash <$> docs -> stored d' h) /\
       forall h c, dict_get h previous = Some c -> (0 <= c.1.1)%Z)
    (fun e d' => e = SqliteError /\ database_ready d' /\ forall h, stored d h -> stored d' h) d.
Proof using.
  intros [Ho Hw Ht Hc] Hdocs Hnd. eapply tri_mono; [apply tri_write_documents; [done|done|]|..].
  - eapply Forall_impl; [exact Hdocs|]. by intros ? [].
  - intros previous d' (-> & -> & _). destruct (written_stored docs (committed d)) as (H1 & H2 & H3); [done..|].
    split; [by split|]. split; [intros h; apply H3|]. intros h c. by apply previous_nonneg.
  - intros e d' [[-> _] ->]. split; [done|]. split; [by split|]. intros h Hh. exact Hh.
Qed.
End stored.

(** ** Documents of snapshots *)

Lemma build_document_ok s : snapshot_ok s ->
  exists doc, build_document s = Ok doc /\ document_new doc /\ doc_info_hash doc = hex (snap_info_hash s).
Proof.
  intros [Hh (m & Hm & S1 & S2 & S3 & S4) Hs Ha _]. unfold build_document. rewrite Hm. cbn [doc_seen_count].
  rewrite (proj2 (Z.leb_le _ _)) by lia. cbn [assert_ raise_if mbind res_bind negb]. eexists. split; [done|]. split; [|done].
  assert (forall n, (0 <= n < 2 ^ 63)%Z -> fits n) as Hfit by (unfold fits, MAX_SQLITE_INTEGER; lia).
  assert (0 < MAX_SQLITE_INTEGER < 2 ^ 63)%Z as Hmax by done.
  split; [|cbn; lia]. split.
  - cbn. rewrite length_hex, Hh. done.
  - cbn. lia.
  - cbn. repeat constructor; apply Hfit; lia.
Qed.

Lemma build_documents_ok l : Forall snapshot_ok l -> NoDup (snap_info_hash <$> l) ->
  exists docs, sequence (build_document <$> l) = Ok docs /\ Forall document_new docs /\
    doc_info_hash <$> docs = hex <$> (snap_info_hash <$> l).
Proof.
  intros Hl _. destruct (sequence_fmap_Forall2 build_document
    (fun s doc => document_new doc /\ doc_info_hash doc = hex (snap_info_hash s)) l) as (docs & Hdocs & Hall).
  { intros s Hs. rewrite Forall_forall in Hl. by apply build_document_ok, Hl. }
  exists docs. split; [done|]. clear Hdocs Hl. induction Hall as [|s doc l docs [Hd Hh] _ [IH1 IH2]]; [done|].
  split; [by constructor|]. rewrite !fmap_cons. by rewrite Hh, IH2.
Qed.

(** ** The operations *)

Section operations_safe.
Context {K : Type} `{L : IndexCatalogLaws K} `{TextFunctions} (fault : nat -> bool).
Context (clock_at : nat -> Z) (stop_at : nat -> bool) (o : index_options).
Implicit Types (s : indexer K) (W : bytes -> Prop).

(** The catalog and the database are in order, with these snapshots in hand. *)
Definition in_order W (hand : list index_snapshot_t) s : Prop :=
  database_ready (ix_database s) /\ index_ok W (stored (ix_database s)) (negb (checks_bypassed s)) hand (ix_catalog s).

(** What is stored stays stored. *)
Definition keeps_stored s s' : Prop := forall h, stored (ix_database s) h -> stored (ix_database s') h.

Lemma tri_ix_catalog {A} (m : task K A) (Q : A -> indexer K -> Prop) E s :
  tri m (fun a k => Q a (set_ix_catalog k s)) (fun e k => E e (set_ix_catalog k s)) (ix_catalog s) ->
  tri (on_catalog m) Q E s.
Proof using. unfold tri, on_catalog. by destruct (m (ix_catalog s)) as [[a|e] k]. Qed.

Lemma tri_ix_database {A} (m : task database A) (Q : A -> indexer K -> Prop) E s :
  tri m (fun a d => Q a (set_ix_database d s)) (fun e d => E e (set_ix_database d s)) (ix_database s) ->
  tri (on_database m) Q E s.
Proof using. unfold tri, on_database. by destruct (m (ix_database s)) as [[a|e] d]. Qed.

Lemma tri_except_sqlite {A} (m : task (indexer K) A) h Q E s :
  tri m Q (fun e s' => e = SqliteError /\ tri (h SqliteError) Q E s') s -> tri (except_sqlite m h) Q E s.
Proof using.
  intros Hm. apply tri_catch. eapply tri_mono; [exact Hm|done|]. intros e s' [-> Hh]. by rewrite decide_True.
Qed.

(** The snapshots of a batch are told that they are written. *)
Lemma tri_mark_each W l bases s :
  in_order W l s -> Forall (fun x => stored (ix_database s) (snap_info_hash x)) l ->
  Forall (fun base : index_base_t => (0 <= base.1.1)%Z) bases -> length bases = length l ->
  tri (each (fun sb => on_catalog (catalog_mark_index_written sb.1 sb.2)) (zip l bases))
    (fun _ s' => in_order W [] s' /\ ix_database s' = ix_database s) (fun _ _ => False) s.
Proof using.
  revert bases s. induction l as [|x l IH]; intros bases s [Hd Hk] Hst Hb Hlen.
  { by destruct bases. }
  destruct bases as [|b bases]; [done|]. apply Forall_cons in Hst as [Hx Hst]. apply Forall_cons in Hb as [Hb Hbs].
  cbn [zip zip_with each]. apply tri_bind, tri_ix_catalog. eapply tri_mono; [by apply (law_mark_written W (stored (ix_database s)))| |done].
  intros [] k Hk'. cbn beta. eapply tri_mono; [apply IH; [by split|exact Hst|done|cbn in Hlen; lia]| |done].
  intros [] s' [Hs' Hd']. by split.
Qed.

(** A batch is written, or put back. *)
Lemma tri_write_batch W batch s :
  in_order W batch s -> Forall snapshot_ok batch -> NoDup (snap_info_hash <$> batch) ->
  tri (except_sqlite (
      docs ← call (sequence (build_document <$> batch));
      previous ← on_database (write_documents fault docs);
      mret (base_for previous <$> batch))
    (fun e => on_catalog (catalog_requeue_index_documents batch) ;; throw e))
    (fun bases s' => in_order W batch s' /\ keeps_stored s s' /\
       Forall (fun x => stored (ix_database s') (snap_info_hash x)) batch /\
       Forall (fun base : index_base_t => (0 <= base.1.1)%Z) bases /\ length bases = length batch)
    (fun e s' => e = SqliteError /\ in_order W [] s' /\ keeps_stored s s') s.
Proof using.
  intros [Hd Hk] Hok Hnd. apply tri_except_sqlite.
  destruct (build_documents_ok batch Hok Hnd) as (docs & Hdocs & Hnew & Hhash).
  apply tri_bind. eapply tri_call_Ok; [exact Hdocs|]. apply tri_bind, tri_ix_database.
  eapply tri_mono; [apply tri_write_new; [done|done|]|..].
  - rewrite Hhash. by apply (NoDup_fmap_2 _).
  - intros previous d (Hd' & Hst & Hprev). apply tri_ret. cbn.
    assert (forall h, stored (ix_database s) h -> stored d h) as Hmono by (intros h Hh; apply Hst; by left).
    split; [split; [done|by eapply index_ok_stored]|]. split; [exact Hmono|]. split; [|split; [|by rewrite length_fmap]].
    + apply Forall_forall. intros x Hx. apply Hst. right. rewrite Hhash. by do 2 apply list_elem_of_fmap_2.
    + apply Forall_fmap, Forall_forall. intros x Hx. rewrite Forall_forall in Hok. destruct (Hok x Hx) as [_ _ _ _ Hbase].
      cbn. unfold base_for. destruct (snap_base x) as [b|] eqn:Hb; [by apply Hbase|].
      destruct (dict_get (hex (snap_info_hash x)) previous) as [c|] eqn:Hc; [exact (Hprev _ _ Hc)|cbn; lia].
  - intros e d (-> & Hd' & Hmono). split; [done|]. apply tri_bind, tri_ix_catalog.
    eapply tri_mono; [apply (law_requeue_documents W (stored (ix_database s))); exact Hk|intros [] k Hk'|done].
    apply tri_throw. split; [done|]. split; [|exact Hmono]. split; [done|]. by eapply index_ok_stored.
Qed.

(** However the loop ends, every document is in the database or in the queue; if
    it ends because none is left, the queue is empty. *)
Lemma tri_flush_documents W rounds deadline : 1 <= batch_size o -> forall s,
  in_order W [] s ->
  tri (flush_documents fault clock_at o rounds deadline)
    (fun _ s' => in_order W [] s' /\ keeps_stored s s' /\ (deadline = None -> forall h, ~ queued (ix_catalog s') h))
    (fun e s' => (e = SqliteError \/ e = Diverge) /\ in_order W [] s' /\ keeps_stored s s') s.
Proof using.
  intros Hsize. induction rounds as [|rounds IH]; intros s Hs; cbn [flush_documents].
  { apply tri_throw. split; [by right|]. split; [done|]. by intros h Hh. }
  assert (forall s1, in_order W [] s1 -> keeps_stored s s1 ->
    tri (flush_documents fault clock_at o rounds deadline)
      (fun _ s' => in_order W [] s' /\ keeps_stored s s' /\ (deadline = None -> forall h, ~ queued (ix_catalog s') h))
      (fun e s' => (e = SqliteError \/ e = Diverge) /\ in_order W [] s' /\ keeps_stored s s') s1) as IH1.
  { intros s1 H1 K1. eapply tri_mono; [by apply IH|..].
    - intros [] s2 (H2 & K2 & Hq). split; [done|]. split; [|done]. intros h Hh. by apply K2, K1.
    - intros e s2 (He & H2 & K2). split; [done|]. split; [done|]. intros h Hh. by apply K2, K1. }
  clear IH. apply tri_bind. eapply (tri_mono _ (fun b s1 => (b = false -> is_Some deadline) /\ in_order W [] s1 /\ keeps_stored s s1) _ (fun _ _ => False)); [|intros go_on s1 (Hb & [Hd1 Hk1] & K1)|done].
  { assert (keeps_stored s s) as Ks by (by intros h Hh).
    unfold in_time, read_clock, ask. destruct deadline as [t|]; tri_steps; (split; [by eauto|by split]). }
  destruct go_on; cbn [negb]; cycle 1.
  { destruct (Hb eq_refl) as [t ->]. apply tri_check; [done|]. split; [by split|]. by split. }
  apply tri_bind, tri_ix_catalog. eapply tri_mono; [by apply law_drain_documents| |done].
  intros batch k (Hk & Hok & Hnd & Hempty). case_bool_decide as Hne.
  { subst. apply tri_ret. split; [by split|]. split; [done|]. intros _. by apply Hempty. }
  apply tri_bind. eapply tri_mono; [by apply (tri_write_batch W)|..].
  2: { intros e s2 (-> & H2 & K2). split; [by left|]. split; [done|]. intros h Hh. by apply K2, K1. }
  intros bases s2 (H2 & K2 & Hst & Hbases & Hlen). apply tri_bind. eapply tri_mono; [by apply tri_mark_each| |done].
  intros [] s3 [H3 D3]. unfold count. tri_steps. apply IH1; [exact H3|]. intros h Hh. cbn. rewrite D3. by apply K2, K1.
Qed.
(** ** Checks *)

Lemma database_ready_still d d' : database_ready d -> still d d' -> database_ready d' /\ committed d' = committed d.
Proof using. intros [Ho Hw Ht Hc] [-> _]. split; [by split|done]. Qed.

(** The database was only read. *)
Definition reads_only s s' : Prop :=
  keeps_stored s s' /\ ix_catalog s' = ix_catalog s /\ counts s' = counts s /\
  checks_bypassed s' = checks_bypassed s /\ check_failing_since s' = check_failing_since s /\ questions s' = questions s.

#[local] Instance reads_only_preorder : PreOrder reads_only.
Proof using.
  split; [intros s; split; [by intros h Hh|by repeat split]|]. intros s1 s2 s3 (A1 & A2 & A3 & A4 & A5 & A6) (B1 & B2 & B3 & B4 & B5 & B6).
  split; [intros h Hh; by apply B1, A1|]. repeat split; congruence.
Qed.

(** A query of the database leaves it in order, and answers or fails. *)
Lemma tri_answers {A} (m : task database A) x W s (Q : A -> indexer K -> Prop) (E : exn -> indexer K -> Prop) :
  answers fault m (committed (ix_database s)) x -> in_order W [] s ->
  (forall s', in_order W [] s' -> reads_only s s' -> Q x s') ->
  (forall s', in_order W [] s' -> reads_only s s' -> E SqliteError s') -> tri (on_database m) Q E s.
Proof using.
  intros Hm [Hd Hk] HQ HE. apply tri_ix_database.
  assert (forall d, still (ix_database s) d -> in_order W [] (set_ix_database d s) /\ reads_only s (set_ix_database d s)) as Hs.
  { intros d Hs. destruct (database_ready_still _ _ Hd Hs) as [Hd' Hc]. unfold in_order, reads_only, keeps_stored, stored. cbn.
    rewrite Hc. by split. }
  eapply tri_mono; [by apply Hm|..].
  - intros y d' [-> Hst]. by apply HQ; apply Hs.
  - intros e d' [[-> _] Hst]. by apply HE; apply Hs.
Qed.

Lemma tri_thread_reader W s (Q : unit -> indexer K -> Prop) (E : exn -> indexer K -> Prop) :
  in_order W [] s ->
  (forall s', in_order W [] s' -> reads_only s s' -> Q tt s') ->
  (forall s', in_order W [] s' -> reads_only s s' -> E SqliteError s') -> tri (thread_reader fault) Q E s.
Proof using.
  intros Hs HQ HE. unfold thread_reader. apply tri_bind, tri_reads, tri_bind. destruct (reader s) eqn:Hr; cbn [negb when].
  - apply tri_ret, tri_bind, tri_reads, tri_check; [done|]. by apply HQ.
  - apply tri_bind. eapply tri_answers; [apply answers_connect|exact Hs| |exact HE].
    intros s1 H1 K1. apply tri_change, tri_bind, tri_reads, tri_check; [done|]. by apply HQ.
Qed.

Lemma fromhex_keys l : sequence (bytes_fromhex <$> (hex <$> l)) = Ok l.
Proof using.
  induction l as [|h l IH]; [done|]. rewrite !fmap_cons. cbn [sequence]. unfold bytes_fromhex at 1. rewrite fromhex_hex. by rewrite IH.
Qed.
(** What holds before and after the checks. *)
Definition checking W s : Prop := in_order W [] s /\ (0 <= checked (counts s))%Z.

Definition same_flags s s' : Prop :=
  checks_bypassed s' = checks_bypassed s /\ check_failing_since s' = check_failing_since s /\ questions s' = questions s.

(** The counters that are found are the bases of stored torrents. *)
Lemma found_bases d (l : list bytes) found : database_ready d -> dict_wf found ->
  (forall h, dict_get h found = if decide (h ∈ hex <$> l) then row_counters <$> find_row h (committed d) else None) ->
  exists hs, found.*1 = hex <$> hs /\ Forall (fun hb => stored d hb.1 /\ (0 <= hb.2.1.1)%Z) (zip hs (base_of <$> found.*2)).
Proof using.
  intros Hd Hwf Hget.
  assert (forall kc, kc ∈ found -> exists h, kc.1 = hex h /\ stored d h /\ (0 <= kc.2.1.1)%Z) as Hall.
  { intros [k c] Hin. apply elem_of_dict_get in Hin; [|done]. rewrite Hget in Hin. case_decide as Hk; [|done].
    apply list_elem_of_fmap in Hk as (h & -> & _). destruct (find_row (hex h) (committed d)) as [r|] eqn:Hr; [|done].
    assert (document_of (committed d) (hex h) = Some (row_document r)) as Hdoc by (unfold document_of; by rewrite Hr).
    injection Hin as <-. exists h. split; [done|]. split; [by eexists|]. by apply (dr_counts _ Hd (hex h)). }
  clear Hget Hwf. induction found as [|kc found IH]; [by exists []|].
  destruct IH as (hs & Hk & Hf); [intros kc' Hin; apply Hall; by right|]. destruct (Hall kc) as (h & Hh & Hst & Hc); [left|].
  destruct kc as [k c]. cbn in Hh. subst k. exists (h :: hs). split; [rewrite !fmap_cons; by rewrite Hk|]. rewrite !fmap_cons. cbn [zip zip_with]. by constructor.
Qed.

Lemma tri_check_batches W rounds : forall s, checking W s ->
  tri (check_batches fault rounds)
    (fun _ s' => checking W s' /\ keeps_stored s s' /\ same_flags s s')
    (fun e s' => e = SqliteError /\ checking W s' /\ keeps_stored s s' /\ same_flags s s') s.
Proof using.
  induction rounds as [|rounds IH]; intros s [Hs Hn]; cbn [check_batches].
  { apply tri_bind, tri_reads, tri_check; [by apply Z.leb_le|]. split; [by split|]. split; [by intros h Hh|by repeat split]. }
  destruct Hs as [Hd Hk]. apply tri_bind, tri_ix_catalog. eapply tri_mono; [by apply law_pending_checks| |done].
  intros l k (Hk1 & Hl). set (s1 := set_ix_catalog k s). assert (in_order W [] s1) as H1 by by split.
  case_bool_decide as Hne.
  { apply tri_ret. split; [by split|]. split; [by intros h Hh|by repeat split]. }
  assert (forall s2, in_order W [] s2 -> reads_only s1 s2 ->
    checking W s2 /\ keeps_stored s s2 /\ same_flags s s2) as Hfail.
  { intros s2 H2 (A1 & _ & A3 & A4 & A5 & A6). split; [split; [done|by rewrite A3]|]. split; [exact A1|by repeat split]. }
  apply tri_bind. eapply tri_thread_reader; [exact H1| |intros s2 H2 K2; split; [done|by apply Hfail]].
  intros s2 H2 K2. destruct H2 as [Hd2 Hk2].
  destruct (answers_lookup_counters fault (committed (ix_database s2)) (hex <$> l) true) as (found & Hfound & Hwf & Hget).
  { apply Hd2. } { apply Forall_fmap. eapply Forall_impl; [exact Hl|]. intros h Hh. cbn. by rewrite length_hex, Hh. }
  apply tri_bind. eapply tri_answers; [exact Hfound|by split| |].
  2: { intros s3 H3 K3. split; [done|]. apply Hfail; [done|by transitivity s2]. }
  intros s3 [Hd3 Hk3] K3. destruct (found_bases _ l found Hd2 Hwf Hget) as (hs & Hhs & Hbases).
  apply tri_bind. rewrite Hhs. eapply tri_call_Ok; [apply fromhex_keys|]. apply tri_bind, tri_ix_catalog.
  eapply tri_mono; [apply (law_apply_checks W (stored (ix_database s3))); [exact Hk3|exact Hl|]| |done].
  { eapply Forall_impl; [exact Hbases|]. intros hb [Hst Hz]. split; [by apply K3|done]. }
  intros [] k4 [Hk4 _]. unfold count. tri_steps. set (s4 := set_counts _ _).
  assert (reads_only s1 s3) as (A1 & _ & A3 & A4 & A5 & A6) by by transitivity s2.
  assert (checking W s4) as H4.
  { split; [by split|]. cbn. rewrite A3. cbn. lia. }
  eapply tri_mono; [by apply IH|..].
  - intros [] s5 (H5 & K5 & F1 & F2 & F3). split; [done|]. split; [intros h Hh; by apply K5, A1|].
    repeat split; etransitivity; [exact F1| |exact F2| |exact F3|]; done.
  - intros e s5 (He & H5 & K5 & F1 & F2 & F3). split; [done|]. split; [done|]. split; [intros h Hh; by apply K5, A1|].
    repeat split; etransitivity; [exact F1| |exact F2| |exact F3|]; done.
Qed.
(** When the checks fail at the moment [now]: the first failure is noted, and after
    a minute of them the checks are switched off. *)
Definition fails_open (now : Z) s s' : Prop :=
  match check_failing_since s with
  | None => check_failing_since s' = Some now /\ (checks_bypassed s' = true -> checks_bypassed s = true)
  | Some since => check_failing_since s' = Some since /\
      ((CHECK_FAIL_OPEN_SECONDS <= now - since)%Z -> checks_bypassed s' = true) /\
      (checks_bypassed s' = true -> checks_bypassed s = true \/ (CHECK_FAIL_OPEN_SECONDS <= now - since)%Z)
  end.

(** The first part of [flush_checks]: checks that were off are switched on again
    when the database answers. *)
Lemma tri_switch_on W s : checking W s ->
  tri (bypassed ← reads checks_bypassed;
       when bypassed (
         thread_reader fault ;;
         on_database (document_totals fault true) ;;
         on_catalog (catalog_set_database_check true) ;;
         change (set_bypassed false)) ;;
       check_batches fault MAX_CHECK_BATCHES)
    (fun _ s' => checking W s' /\ keeps_stored s s' /\ checks_bypassed s' = false)
    (fun e s' => e = SqliteError /\ checking W s' /\ keeps_stored s s' /\ check_failing_since s' = check_failing_since s /\
       questions s' = questions s /\ (checks_bypassed s' = true -> checks_bypassed s = true)) s.
Proof using.
  intros [Hs Hn]. apply tri_bind, tri_reads, tri_bind.
  eapply (tri_mono _ (fun _ s1 => checking W s1 /\ keeps_stored s s1 /\ checks_bypassed s1 = false /\
    check_failing_since s1 = check_failing_since s /\ questions s1 = questions s)); [|intros [] s1 (H1 & K1 & B1 & F1 & Q1)|intros e s' HE; exact HE].
  - assert (forall s1, in_order W [] s1 -> reads_only s s1 -> SqliteError = SqliteError /\ checking W s1 /\
      keeps_stored s s1 /\ check_failing_since s1 = check_failing_since s /\ questions s1 = questions s /\
      (checks_bypassed s1 = true -> checks_bypassed s = true)) as Hfail.
    { intros s1 H1 (A1 & _ & A3 & A4 & A5 & A6). split; [done|]. split; [split; [done|by rewrite A3]|]. split; [done|].
      split; [done|]. split; [done|]. congruence. }
    apply tri_when; intros Hb; [|split; [by split|]; split; [by intros h Hh|done]].
    apply tri_bind. eapply tri_thread_reader; [exact Hs| |exact Hfail]. intros s1 H1 K1.
    apply tri_bind. eapply tri_answers; [apply answers_document_totals, H1|exact H1| |].
    2: { intros s2 H2 K2. apply Hfail; [done|by transitivity s1]. }
    intros s2 [Hd2 Hk2] K2. assert (reads_only s s2) as (A1 & _ & A3 & A4 & A5 & A6) by by transitivity s1.
    apply tri_bind, tri_ix_catalog. eapply tri_mono; [exact (law_set_check _ _ _ true _ Hk2)| |done].
    intros [] k Hk. apply tri_change. split; [split; [by split|cbn; by rewrite A3]|]. split; [exact A1|by repeat split].
  - eapply tri_mono; [by apply tri_check_batches|..].
    + intros [] s2 (H2 & K2 & G1 & _). split; [done|]. split; [intros h Hh; by apply K2, K1|congruence].
    + intros e s2 (He & H2 & K2 & G1 & G2 & G3). split; [done|]. split; [done|]. split; [intros h Hh; by apply K2, K1|].
      repeat split; congruence.
Qed.

Lemma tri_flush_checks W s : checking W s ->
  tri (flush_checks fault clock_at)
    (fun _ s' => checking W s' /\ keeps_stored s s' /\ checks_bypassed s' = false /\ check_failing_since s' = None)
    (fun e s' => e = SqliteError /\ checking W s' /\ keeps_stored s s' /\ fails_open (clock_at (questions s)) s s') s.
Proof using.
  intros Hs. unfold flush_checks. apply tri_bind, tri_catch. eapply tri_mono; [by apply (tri_switch_on W)|..].
  - intros [] s1 (H1 & K1 & B1). apply tri_bind, tri_change, tri_bind, tri_reads, tri_check; [cbn; by rewrite B1|].
    split; [exact H1|]. by split.
  - intros e s1 (-> & H1 & K1 & F1 & Q1 & B1). rewrite decide_False by done. unfold read_clock, ask. tri_steps.
    rewrite Q1. set (now := clock_at (questions s)). cbn [check_failing_since checks_bypassed set_questions].
    destruct H1 as [[Hd1 Hk1] Hn1]. unfold fails_open. rewrite <-F1.
    destruct (check_failing_since s1) as [since|] eqn:Hsince.
    + apply tri_when; intros Hc.
      * apply andb_true_iff in Hc as [Hb Hle]. apply Z.leb_le in Hle. apply tri_bind, tri_ix_catalog. cbn [ix_catalog set_questions].
        eapply tri_mono; [exact (law_set_check _ _ _ false _ Hk1)| |done]. intros [] k Hk. apply tri_change, tri_throw.
        split; [done|]. split; [by split|]. split; [exact K1|]. by repeat split; auto.
      * apply tri_throw. split; [done|]. split; [by split|]. split; [exact K1|]. cbn. split; [done|].
        split; [|intros Hb; left; by apply B1]. intros Hle. apply Z.leb_le in Hle. rewrite Hle in Hc.
        by destruct (checks_bypassed s1).
    + apply tri_change, tri_throw. split; [done|]. split; [by split|]. split; [exact K1|]. by split.
Qed.

(** ** The probe of checks that are off *)

(** No statement fails of those that a probe of the database takes: the query of
    its totals, and the two that open the reader when it is closed. *)
Definition probe_answered s : Prop :=
  forall i, i < (if reader s then 1 else 3) -> fault (statements (ix_database s) + i) = false.

(** A failure of the checks leaves them off when they were. *)
Lemma failure_keeps_off e s : checks_bypassed s = true ->
  tri (if decide (e = Diverge) then throw e else
      now ← read_clock clock_at;
      s ← reads (fun s => s);
      (match check_failing_since s with
       | None => change (set_failing_since (Some now))
       | Some since =>
           when (negb (checks_bypassed s) && (CHECK_FAIL_OPEN_SECONDS <=? now - since)%Z) (
             on_catalog (catalog_set_database_check false) ;;
             change (set_bypassed true))
       end) ;;
      throw (A := unit) e) (fun _ _ => False) (fun _ s' => checks_bypassed s' = true) s.
Proof using.
  intros Hb. case_decide; [done|]. unfold read_clock, ask. tri_steps. cbn [check_failing_since checks_bypassed set_questions].
  rewrite Hb. cbn [negb andb]. destruct (check_failing_since s); [apply tri_ret|apply tri_change]; by apply tri_throw.
Qed.

Lemma tri_statement {A} (m : task database A) Q E d :
  (fault (statements d) = true -> E SqliteError (set_statements (S (statements d)) d)) ->
  (fault (statements d) = false -> tri m Q E (set_statements (S (statements d)) d)) -> tri (statement fault m) Q E d.
Proof using.
  intros HE HQ. unfold statement. apply tri_bind, tri_reads, tri_bind, tri_change. destruct (fault (statements d)); [by apply tri_throw, HE|by apply HQ].
Qed.

Lemma tri_answered {A} (m : task (indexer K) A) (P : Prop) (E : indexer K -> Prop) s : P -> tri m (fun _ _ => P) (fun _ s' => E s' \/ P) s.
Proof using. intros HP. unfold tri. destruct (m s) as [[]]; [done|by right]. Qed.

(** Opening the reader takes two statements, if it is closed. *)
Lemma reader_probes s : checks_bypassed s = true ->
  tri (thread_reader fault) (fun _ s1 => checks_bypassed s1 = true /\ exists n, statements (ix_database s1) = statements (ix_database s) + n /\
      (if reader s then 1 else 3) = S n /\ forall i, i < n -> fault (statements (ix_database s) + i) = false)
    (fun _ s1 => checks_bypassed s1 = true) s.
Proof using.
  intros Hb. unfold thread_reader. apply tri_bind, tri_reads, tri_bind. destruct (reader s) eqn:Hr; cbn [negb when].
  - apply tri_ret, tri_bind, tri_reads, tri_check; [done|]. split; [done|]. exists 0. split; [lia|]. split; [done|lia].
  - apply tri_bind, tri_ix_database. unfold connect_reader. apply tri_bind, tri_statement; [done|]. intros H1.
    apply tri_ret, tri_statement; [done|]. intros H2. apply tri_ret, tri_change, tri_bind, tri_reads, tri_check; [done|]. split; [done|].
    exists 2. split; [cbn; lia|]. split; [done|]. intros [|[|i]] Hi; [by rewrite Nat.add_0_r|by rewrite Nat.add_1_r|lia].
Qed.

(** Checks that are off are on again only after the database has answered. *)
Lemma flush_checks_probes s : checks_bypassed s = true ->
  tri (flush_checks fault clock_at) (fun _ _ => probe_answered s) (fun _ s' => checks_bypassed s' = true \/ probe_answered s) s.
Proof using.
  intros Hb. unfold flush_checks. apply tri_bind, tri_catch.
  apply (tri_mono _ (fun _ _ => probe_answered s) _ (fun _ s' => checks_bypassed s' = true \/ probe_answered s)).
  - apply tri_bind, tri_reads. rewrite Hb. cbn [when]. apply tri_bind, tri_bind.
    eapply tri_mono; [by apply reader_probes| |by left]. intros [] s1 (Hb1 & n & Hn & Hlen & Hok).
    apply tri_bind, tri_ix_database. unfold document_totals, query. apply tri_bind, tri_ret, tri_bind, tri_statement; [by left|]. intros Hf.
    assert (probe_answered s) as Hp.
    { intros i Hi. rewrite Hlen in Hi. destruct (decide (i = n)) as [->|]; [by rewrite <-Hn|]. apply Hok. lia. }
    apply tri_reads. unfold tri at 1. destruct (_ (set_statements _ _)) as [[u|e] d]; [|by right].
    apply (tri_mono _ (fun _ _ => probe_answered s) _ (fun _ s' => checks_bypassed s' = true \/ probe_answered s)); [by apply tri_answered| |done].
    intros ???. by apply tri_answered.
  - intros [] s1 Hp. by apply tri_answered.
  - intros e s1 [Hb1|Hp].
    + eapply tri_mono; [by apply failure_keeps_off|done|]. by left.
    + eapply tri_mono; [by apply (tri_answered _ (probe_answered s) (fun s' => checks_bypassed s' = true))| |done].
      intros [] s2 Hp2. by apply tri_answered.
Qed.
End operations_safe.
