(* ===== verification/CatalogDocuments.v ===== *)
(** What becomes of the documents in the torrent catalog while other threads call
    its methods: which of them leave the metadata, the queue of documents and the
    counts already written alone. *)
From S2P Require Import Prelude PyDict Bencode NodeIdentity AddressText Krpc TorrentInfo Catalog.
From S2P Require Import CatalogInvariant CatalogSafety CatalogMethods CatalogIndex CatalogTheorems CatalogClaims CatalogFetches.
From S2P Require Import IndexInterface.

(** What a method may do: the objects whose metadata it may drop or set to
    [new_metadata], those that it may find in, or write to, the database, and whether it may
    change the queue of documents and the check of new hashes. *)
Record reach := Reach {
  touches : oid -> Prop; new_metadata : option metadata_ref; finds : oid -> Prop;
  queues : Prop; switches : Prop }.

Definition entry_step (X : reach) (o : oid) (e e' : entry) : Prop :=
  info_hash e' = info_hash e /\
  (metadata e' = metadata e \/ touches X o /\ (metadata e' = None \/ metadata e' = new_metadata X)) /\
  (in_database e' = in_database e \/ in_database e' = true /\ finds X o) /\
  (flushed_seen e' = flushed_seen e /\ flushed_announce e' = flushed_announce e \/ finds X o) /\
  (seen_count e <= seen_count e')%Z /\ (announce_count e <= announce_count e')%Z.

(** The objects stay, new ones are of unknown torrents, and no entry goes back to
    an older object. *)
Definition docs_step (X : reach) (c c' : catalog) : Prop :=
  heap_bounded c -> heap_bounded c' /\
  (queues X \/ index_documents c' = index_documents c) /\ (switches X \/ check_database c' = check_database c) /\
  index_tracking c' = index_tracking c /\ (index_dropped c <= index_dropped c')%Z /\
  (forall o e, heap c !! o = Some e -> exists e', heap c' !! o = Some e' /\ entry_step X o e e') /\
  (forall o e', heap c' !! o = Some e' -> heap c !! o = None ->
     (metadata e' = None \/ touches X o) /\ (in_database e' = false \/ finds X o)) /\
  (forall h o, dict_get h (entries c') = Some o -> is_Some (heap c !! o) -> dict_get h (entries c) = Some o).

Lemma entry_step_refl X o e : entry_step X o e e.
Proof. split; [done|]. split; [by left|]. split; [by left|]. split; [by left|]. split; lia. Qed.

Lemma entry_step_trans X o e1 e2 e3 : entry_step X o e1 e2 -> entry_step X o e2 e3 -> entry_step X o e1 e3.
Proof.
  intros (A1 & A2 & A3 & A4 & A5 & A6) (B1 & B2 & B3 & B4 & B5 & B6). split; [congruence|]. split; [|split; [|split]].
  - destruct B2 as [->|B2]; [done|by right].
  - destruct B3 as [->|B3]; [done|by right].
  - destruct A4 as [[A4 A4']|?]; [|by right]. destruct B4 as [[B4 B4']|?]; [left; split; congruence|by right].
  - split; lia.
Qed.

#[global] Instance docs_step_preorder X : PreOrder (docs_step X).
Proof.
  split.
  { intros c Hb. split; [done|]. split; [by right|]. split; [by right|]. split; [done|]. split; [lia|]. split; [|split].
    - intros o e He. exists e. split; [done|apply entry_step_refl].
    - congruence.
    - done. }
  intros c1 c2 c3 H1 H2 Hb. destruct (H1 Hb) as (Hb2 & A1 & A2 & A3 & A4 & A5 & A6 & A7).
  destruct (H2 Hb2) as (Hb3 & B1 & B2 & B3 & B4 & B5 & B6 & B7). split; [done|].
  split; [destruct A1, B1; try (by left); right; congruence|].
  split; [destruct A2, B2; try (by left); right; congruence|]. split; [congruence|]. split; [lia|]. split; [|split].
  - intros o e He. destruct (A5 o e He) as (e2 & He2 & S1). destruct (B5 o e2 He2) as (e3 & He3 & S2).
    exists e3. split; [done|by eapply entry_step_trans].
  - intros o e3 He3 Hn. destruct (heap c2 !! o) as [e2|] eqn:He2; [|by apply (B6 o)].
    destruct (A6 o e2 He2 Hn) as [M D]. destruct (B5 o e2 He2) as (e3' & He3' & _ & M' & D' & _).
    assert (e3' = e3) as -> by congruence. split; [destruct M' as [->|[? _]]; auto|destruct D' as [->|[_ ?]]; auto].
  - intros h o Ho Hs. apply A7; [|done]. apply B7; [done|]. destruct Hs as [e He]. destruct (A5 o e He) as (e2 & He2 & _). eauto.
Qed.

(** Changes of what is not looked at here. *)
Lemma docs_update X f :
  (forall c, heap (f c) = heap c /\ next_oid (f c) = next_oid c /\ (queues X \/ index_documents (f c) = index_documents c) /\
     (switches X \/ check_database (f c) = check_database c) /\ index_tracking (f c) = index_tracking c /\
     (index_dropped c <= index_dropped (f c))%Z /\
     forall h o, dict_get h (entries (f c)) = Some o -> dict_get h (entries c) = Some o) ->
  frames (docs_step X) (update f).
Proof.
  intros Hf. apply frames_modify. intros c Hb. destruct (Hf c) as (H1 & H2 & H3 & H4 & H5 & H6 & H7).
  unfold heap_bounded. rewrite H1, H2. split; [done|]. do 4 (split; [done|]). split; [|split].
  - intros o e He. exists e. split; [done|apply entry_step_refl].
  - congruence.
  - intros h o Ho _. by apply H7.
Qed.

Lemma docs_update_entry X o f : (forall e, entry_step X o e (f e)) -> frames (docs_step X) (update_entry o f).
Proof.
  intros Hf. apply frames_modify. intros c Hb. simpl.
  assert (forall o', alter f o (heap c) !! o' = if decide (o = o') then f <$> heap c !! o' else heap c !! o') as Hal.
  { intros o'. case_decide as Hd; [subst; by rewrite lookup_alter_eq|by rewrite lookup_alter_ne]. }
  split; [|split; [by right|split; [by right|split; [done|split; [simpl; lia|split; [|split; [|done]]]]]]].
  - intros o' e. simpl. rewrite Hal. case_decide; [|apply Hb]. intros (e0 & He & _)%fmap_Some. exact (Hb _ _ He).
  - intros o' e He. simpl. rewrite Hal, He. case_decide as Hd.
    + subst o'. exists (f e). split; [done|apply Hf].
    + exists e. split; [done|apply entry_step_refl].
  - intros o' e' He' Hn. simpl in He'. rewrite Hal, Hn in He'. by case_decide.
Qed.

Lemma docs_lookup_entry X o : frames (docs_step X) (lookup_entry o).
Proof. apply (frames_pure _). intros c e c'. unfold lookup_entry. by destruct (_ !! _); intros [= _ ->]. Qed.
Lemma docs_get_oid X t h : frames (docs_step X) (get_oid t h).
Proof. unfold get_oid. frames_steps. Qed.

#[export] Hint Resolve docs_lookup_entry docs_get_oid : frames.
Ltac docs_quiet :=
  intros ?; simpl; (split; [done|]); (split; [done|]); (split; [by right|]); (split; [by right|]); (split; [done|]); (split; [lia|]);
  intros ??; first [done|rewrite dict_get_del; by case_decide].
Ltac entry_quiet :=
  intros ?; (split; [done|]); (split; [by left|]); (split; [by left|]); (split; [by left|]); simpl; lia.
#[export] Hint Extern 1 (frames (docs_step _) (update _)) => (apply docs_update; docs_quiet) : frames.
#[export] Hint Extern 1 (frames (docs_step _) (update_entry _ _)) => (apply docs_update_entry; entry_quiet) : frames.

(** ** The methods of the other threads *)

Section methods.
Context (lim : limits) (X : reach).

Lemma docs_forget_known o : frames (docs_step X) (forget_known_locked o).
Proof using. unfold forget_known_locked. frames_steps. Qed.
Lemma docs_index_entry o : frames (docs_step X) (index_entry_locked lim o).
Proof using. unfold index_entry_locked. frames_steps. Qed.
Lemma docs_set_state o s : frames (docs_step X) (set_state_locked o s).
Proof using. unfold set_state_locked. frames_steps. Qed.
Lemma docs_add_peer o peer : frames (docs_step X) (add_peer_locked lim o peer).
Proof using. unfold add_peer_locked. frames_steps. Qed.
Lemma docs_forget_peer o peer : frames (docs_step X) (forget_peer_locked o peer).
Proof using. unfold forget_peer_locked. frames_steps. Qed.
Lemma docs_add_orphan o : frames (docs_step X) (add_orphan_locked o).
Proof using. unfold add_orphan_locked. frames_steps. Qed.
Lemma docs_moment clock now : frames (docs_step X) (moment_or_now clock now).
Proof using. unfold moment_or_now. frames_steps. Qed.
Lemma docs_assert_invariants : frames (docs_step X) assert_invariants_locked.
Proof using.
  apply (frames_pure _). intros c u c'. unfold assert_invariants_locked, assert_st, mbind, st_bind.
  repeat case_match; try done; congruence.
Qed.
Lemma docs_index_snapshot o : frames (docs_step X) (index_snapshot o).
Proof using. unfold index_snapshot. frames_steps. Qed.
#[local] Hint Resolve docs_forget_known docs_index_entry docs_set_state docs_add_peer docs_forget_peer docs_add_orphan
  docs_moment docs_assert_invariants : frames.

(** A new object is of a torrent whose metadata is unknown. *)
Lemma docs_get_or_create h now : frames (docs_step X) (get_or_create_locked h now).
Proof using.
  intros c. unfold get_or_create_locked. apply wlp_bind.
  change (wlp (match dict_get h (entries c) with
    | Some o => e ← lookup_entry o; assert_st (bool_decide (info_hash e = h)) ;; mret (o, false)
    | None => assert_st (is_node_id h && (0 <=? now)%Z) ;;
        c ← get_state;
        let o := next_oid c in
        update (set_next_oid (S o)) ;;
        update (set_heap (<[o := set_database_checked (negb (check_database c)) (new_entry h now)]> (heap c))) ;;
        update (fun c => set_entries (dict_set h o (entries c)) c) ;;
        update (add_count FETCH_PENDING 1) ;;
        update (fun c => set_discovered (discovered c + 1)%Z c) ;;
        mret (o, true)
    end) (fun _ => docs_step X c) c).
  destruct (dict_get h (entries c)) as [o|] eqn:Hg.
  { revert c Hg. intros c _. revert c.
    change (frames (docs_step X) (e ← lookup_entry o; assert_st (bool_decide (info_hash e = h)) ;; mret (o, false))).
    frames_steps. }
  apply wlp_bind, wlp_assert. intros _ Hlt. simpl.
  split; [|split; [by right|split; [by right|split; [done|split; [simpl; lia|split; [|split]]]]]].
  - intros o e. simpl. destruct (decide (o = next_oid c)) as [->|Hne]; [lia|].
    rewrite lookup_insert_ne by done. intros He%Hlt. lia.
  - intros o e He. simpl. rewrite lookup_insert_ne; [|apply Hlt in He; unfold oid in *; lia].
    exists e. split; [done|apply entry_step_refl].
  - intros o e'. simpl. destruct (decide (o = next_oid c)) as [->|Hne]; [|rewrite lookup_insert_ne by done; congruence].
    rewrite lookup_insert_eq. intros [= <-] _. split; by left.
  - intros h' o Ho [e He]. simpl in Ho. rewrite dict_get_set in Ho. case_decide as Hd; [|done]. injection Ho as <-.
    apply Hlt in He. lia.
Qed.
#[local] Hint Resolve docs_get_or_create : frames.

Lemma docs_count_true {A} (f : A -> ST catalog bool) l :
  (forall x, frames (docs_step X) (f x)) -> frames (docs_step X) (count_true f l).
Proof using. intros Hf. induction l as [|x l IH]; cbn [count_true]; frames_steps. Qed.
Lemma docs_map_st {A B} (f : A -> ST catalog B) l :
  (forall x, frames (docs_step X) (f x)) -> frames (docs_step X) (map_st f l).
Proof using. intros Hf. induction l as [|x l IH]; cbn [map_st]; frames_steps. Qed.

Lemma docs_evict_entry o : frames (docs_step X) (evict_entry o).
Proof using. unfold evict_entry. frames_steps. Qed.
#[local] Hint Resolve docs_evict_entry : frames.
Lemma docs_evict : frames (docs_step X) (evict_locked lim).
Proof using. unfold evict_locked. frames_steps. Qed.
#[local] Hint Resolve docs_evict : frames.
Lemma docs_record h source peer moment : frames (docs_step X) (record_locked lim h source peer moment).
Proof using. unfold record_locked. frames_steps. Qed.
#[local] Hint Resolve docs_record : frames.

Lemma docs_record_hash h source peer clock now : frames (docs_step X) (record_hash lim h source peer clock now).
Proof using. unfold record_hash. frames_steps. Qed.
Lemma docs_record_hashes hs source clock now : frames (docs_step X) (record_hashes lim hs source clock now).
Proof using. unfold record_hashes. frames_steps. apply docs_count_true. auto with frames. Qed.
Lemma docs_add_peers h l : frames (docs_step X) (add_peers lim h l).
Proof using. unfold add_peers. frames_steps. apply docs_count_true. auto with frames. Qed.
Lemma docs_hashes_needing_peers limit clock now : frames (docs_step X) (hashes_needing_peers lim limit clock now).
Proof using. unfold hashes_needing_peers. frames_steps. Qed.
Lemma docs_end_lookup o : frames (docs_step X) (end_lookup o).
Proof using. unfold end_lookup. frames_steps. Qed.
#[local] Hint Resolve docs_end_lookup : frames.
Lemma docs_release_lookup_claim h : frames (docs_step X) (release_lookup_claim lim h).
Proof using. unfold release_lookup_claim. frames_steps. Qed.
Lemma docs_add_lookup_result h l clock now : frames (docs_step X) (add_lookup_result lim h l clock now).
Proof using. unfold add_lookup_result. frames_steps. Qed.
Lemma docs_next_fetch_candidates limit now : frames (docs_step X) (next_fetch_candidates lim limit now).
Proof using. unfold next_fetch_candidates. frames_steps. apply docs_map_st. intros o. frames_steps. Qed.
Lemma docs_mark_fetch_failed h tried reason clock now : frames (docs_step X) (mark_fetch_failed lim h tried reason clock now).
Proof using. unfold mark_fetch_failed. frames_steps. Qed.
Lemma docs_release_fetch_claim h : frames (docs_step X) (release_fetch_claim lim h).
Proof using. unfold release_fetch_claim. frames_steps. Qed.
End methods.

#[export] Hint Resolve docs_forget_known docs_index_entry docs_set_state docs_add_orphan docs_moment docs_assert_invariants
  docs_index_snapshot docs_get_or_create docs_record_hash docs_record_hashes docs_add_peers docs_hashes_needing_peers
  docs_release_lookup_claim docs_add_lookup_result docs_next_fetch_candidates docs_mark_fetch_failed
  docs_release_fetch_claim : frames.

(** ** The documents are in order *)

Section order.
Context (lim : limits).
Implicit Types (W D : bytes -> Prop) (hand : list index_snapshot_t).

Definition overflown (c : catalog) : Prop := (0 < index_dropped c)%Z.
Definition holds (c : catalog) (h : bytes) : Prop := exists o e, at_entry c h o e /\ has_metadata e = true.
(** Where the document of a torrent is. *)
Definition placed D hand (c : catalog) (h : bytes) : Prop :=
  overflown c \/ dict_has h (index_documents c) = true \/ h ∈ snap_info_hash <$> hand \/ D h.
Definition counts_small (c : catalog) : Prop := forall o e, heap c !! o = Some e ->
  (seen_count e < 2 ^ 63)%Z /\ (announce_count e < 2 ^ 63)%Z.

Record docs_ok W D (on : bool) hand (c : catalog) : Prop := DocsOk {
  do_inv : inv lim c;
  do_tracking : index_tracking c = true;
  do_checks : check_database c = on;
  do_small : counts_small c;
  do_storable : forall o e m, heap c !! o = Some e -> metadata e = Some m -> storable (metadata_value m);
  do_stored : forall o e, heap c !! o = Some e -> in_database e = true -> D (info_hash e);
  do_placed : forall h, W h \/ holds c h -> placed D hand c h;
  do_hand : NoDup (snap_info_hash <$> hand);
  do_snapshots : forall s, s ∈ hand -> snapshot_ok s /\ snapshot_wf c s /\
    dict_get (snap_info_hash s) (index_documents c) <> Some (snap_entry s) }.

Lemma snapshot_wf_step X c c' s e :
  docs_step X c c' -> heap_bounded c -> heap c !! snap_entry s = Some e ->
  ~ touches X (snap_entry s) -> ~ finds X (snap_entry s) -> snapshot_wf c s -> snapshot_wf c' s.
Proof using.
  intros Hs Hb He Ht Hf (e0 & He0 & S1 & S2 & S3 & S4 & S5). assert (e0 = e) as -> by congruence.
  destruct (Hs Hb) as (_ & _ & _ & _ & _ & Hk & _). destruct (Hk _ _ He) as (e' & He' & K1 & K2 & K3 & K4 & K5 & K6).
  destruct K2 as [K2|[? _]]; [|done]. destruct K3 as [K3|[_ ?]]; [|done]. destruct K4 as [[K4 K4']|?]; [|done].
  exists e'. split; [done|]. split; [congruence|]. split; [congruence|]. split.
  - unfold has_metadata in *. by rewrite K2, K3.
  - rewrite K4, K4'. lia.
Qed.

(** A change of the catalog that leaves the documents in order. *)
Lemma docs_ok_change W D D' on on' hand hand' c c' X :
  docs_ok W D on hand c -> docs_step X c c' -> inv lim c' -> counts_small c' -> check_database c' = on' ->
  (forall h, D h -> D' h) ->
  (forall m, new_metadata X = Some m -> storable (metadata_value m)) ->
  (forall o e, heap c !! o = Some e -> finds X o -> D' (info_hash e)) ->
  (forall o, touches X o \/ finds X o -> is_Some (heap c !! o)) ->
  (forall h, placed D hand c h -> placed D' hand' c' h) ->
  (forall h o e', at_entry c h o e' -> touches X o -> new_metadata X <> None -> placed D' hand' c' h) ->
  NoDup (snap_info_hash <$> hand') ->
  (forall s, s ∈ hand' -> s ∈ hand /\ ~ touches X (snap_entry s) /\ ~ finds X (snap_entry s) /\
     dict_get (snap_info_hash s) (index_documents c') <> Some (snap_entry s)) ->
  docs_ok W D' on' hand' c'.
Proof using.
  intros Hc Hs Hinv Hsmall Hon HD Hnew Hfinds Hknown Hplaced Htouched Hnd Hhand.
  pose proof (inv_bounded lim c (do_inv _ _ _ _ _ Hc)) as Hb.
  destruct (Hs Hb) as (_ & _ & _ & Htr & _ & Hk & Hn & Hent).
  assert (forall o e', heap c' !! o = Some e' ->
    (exists e, heap c !! o = Some e /\ entry_step X o e e') \/ heap c !! o = None /\ metadata e' = None /\ in_database e' = false) as Hold.
  { intros o e' He'. destruct (heap c !! o) as [e|] eqn:He.
    - left. destruct (Hk o e He) as (e0 & He0 & Hstep). assert (e0 = e') as -> by congruence. by exists e.
    - right. destruct (Hn o e' He' He) as [[M|M] [I|I]]; try done.
      all: match goal with H : touches _ _ |- _ => destruct (Hknown o (or_introl H)) | H : finds _ _ |- _ => destruct (Hknown o (or_intror H)) end; congruence. }
  split; try done.
  - rewrite Htr. apply Hc.
  - intros o e' m He' Hm. destruct (Hold o e' He') as [(e & He & _ & [M|[_ [M|M]]] & _)|(_ & M & _)]; try congruence.
    + apply (do_storable _ _ _ _ _ Hc o e m He). congruence.
    + apply Hnew. congruence.
  - intros o e' He' Hi. destruct (Hold o e' He') as [(e & He & H1 & _ & [I|[_ I]] & _)|(_ & _ & I)]; try congruence.
    + rewrite H1. apply HD, (do_stored _ _ _ _ _ Hc o e He). congruence.
    + rewrite H1. exact (Hfinds o e He I).
  - intros h [Hw|(o & e' & [Hg He'] & Hm)]; [by apply Hplaced, (do_placed _ _ _ _ _ Hc); left|].
    unfold has_metadata in Hm. apply bool_decide_eq_true in Hm as [m Hm].
    destruct (Hold o e' He') as [(e & He & _ & M & _)|(_ & M & _)]; [|congruence].
    assert (at_entry c h o e) as Hat by (split; [by apply Hent; [|eauto]|done]).
    destruct M as [M|[Ht [M|M]]]; [|congruence|].
    + apply Hplaced, (do_placed _ _ _ _ _ Hc). right. exists o, e. split; [done|]. unfold has_metadata. rewrite <-M, Hm. by apply bool_decide_eq_true.
    + apply (Htouched h o e Hat Ht). congruence.
  - intros s Hin. destruct (Hhand s Hin) as (Hs0 & T & F & Hd). destruct (do_snapshots _ _ _ _ _ Hc s Hs0) as (S1 & S2 & _).
    split; [done|]. split; [|done]. destruct (S2) as (e & He & _). by eapply snapshot_wf_step.
Qed.

(** What other threads may do to the documents: nothing. *)
Definition calm : reach := Reach (fun _ => False) None (fun _ => False) False False.

Lemma docs_ok_calm W D on hand c c' :
  docs_ok W D on hand c -> docs_step calm c c' -> inv lim c' -> counts_small c' -> docs_ok W D on hand c'.
Proof using.
  intros Hc Hs Hinv Hsmall. pose proof (inv_bounded lim c (do_inv _ _ _ _ _ Hc)) as Hb.
  destruct (Hs Hb) as (_ & [[]|Hdocs] & [[]|Hchk] & _ & Hdrop & _).
  eapply docs_ok_change; [exact Hc|exact Hs|done|done|rewrite Hchk; apply Hc|done|done|done| | |done|apply Hc|].
  - by intros o [[]|[]].
  - intros h. unfold placed, overflown. rewrite Hdocs. intros [?|?]; [left; lia|by right].
  - intros s Hin. split; [done|]. split; [by intros []|]. split; [by intros []|]. rewrite Hdocs. by apply (do_snapshots _ _ _ _ _ Hc).
Qed.
End order.
