(* ===== verification/CatalogDocumentCalls.v ===== *)
(** The calls that move documents: [store_metadata] queues one, the index thread
    takes them out, puts them back and reports them written, and finds torrents in
    the database. *)
From S2P Require Import Prelude PyDict Bencode NodeIdentity AddressText Krpc TorrentInfo Catalog.
From S2P Require Import CatalogInvariant CatalogSafety CatalogMethods CatalogIndex CatalogWrites CatalogTheorems.
From S2P Require Import CatalogClaims CatalogFetches IndexInterface CatalogDocuments.

Section calls.
Context (lim : limits) (Hlim : limits_ok lim).
Implicit Types (W D : bytes -> Prop) (hand : list index_snapshot_t).

(** ** Storing metadata *)

(** The document of [h] is queued; if the queue overflows, that is counted. *)
Definition queued_also (h : bytes) (o : oid) (c c' : catalog) : Prop :=
  ((index_dropped c < index_dropped c')%Z \/
     forall h', dict_has h' (index_documents c) = true \/ h' = h -> dict_has h' (index_documents c') = true) /\
  forall h' o', dict_get h' (index_documents c') = Some o' -> dict_get h' (index_documents c) = Some o' \/ o' = o.

Lemma docs_step_queues T N F S c c' : docs_step (Reach T N F False S) c c' -> docs_step (Reach T N F True S) c c'.
Proof using.
  intros Hs Hb. destruct (Hs Hb) as (H1 & _ & H3 & H4 & H5 & H6 & H7 & H8). split; [done|]. split; [by left|].
  split; [exact H3|]. split; [done|]. split; [done|]. split; [exact H6|]. by split.
Qed.

(** The objects that queueing the document of [o] may touch. *)
Definition queue_objects (o : oid) (c : catalog) (o' : oid) : Prop := o' = o \/ exists h, dict_get h (index_documents c) = Some o'.

Lemma docs_drop_unwritten N F S o c0 dropped : queue_objects o c0 dropped ->
  frames (docs_step (Reach (queue_objects o c0) N F False S)) (drop_unwritten_metadata_locked lim dropped).
Proof using.
  intros Hd. unfold drop_unwritten_metadata_locked. frames_steps.
  apply docs_update_entry. intros e'. split; [done|]. split; [right; split; [exact Hd|by left]|]. split; [by left|].
  split; [by left|]. simpl. lia.
Qed.

Lemma queue_document_step N o e c : heap_bounded c -> heap c !! o = Some e -> dict_wf (index_documents c) ->
  wlp (queue_document_locked lim o) (fun _ c' =>
    docs_step (Reach (queue_objects o c) N (fun _ => False) True False) c c' /\ queued_also (info_hash e) o c c') c.
Proof using.
  intros Hb He Hwf. set (X := Reach (queue_objects o c) N (fun _ => False) True False).
  set (h := info_hash e). unfold queue_document_locked.
  apply wlp_bind. unfold wlp at 1, lookup_entry. rewrite He. apply wlp_bind, wlp_assert. intros _.
  apply wlp_bind, wlp_modify. fold h. set (c1 := set_index_counters _ c).
  assert (docs_step X c c1) as S1 by (apply (docs_update X (fun c => set_index_counters (dict_del h (index_counters c)) c)); docs_quiet).
  change (index_documents c) with (index_documents c1) in Hwf.
  assert (queue_objects o c = queue_objects o c1) as Hobj by done.
  apply wlp_bind. unfold get_oid. apply wlp_gets. apply wlp_bind.
  eapply (wlp_mono _ (fun _ c' => docs_step X c c' /\ queued_also h o c c')).
  2: { intros [] c2 H2. apply wlp_bind, wlp_gets, wlp_assert. done. }
  case_bool_decide as Hq; cbn [when_st]; cycle 1.
  { apply wlp_ret. split; [done|]. split; [right|by left]. intros h' [?| ->]; [done|]. apply dict_has_get. change (index_documents c1) with (index_documents c) in Hq.
    by destruct (dict_get h (index_documents c1)) eqn:Hg; [eexists|]. }
  apply wlp_bind, wlp_modify. set (c2 := set_index_documents _ c1).
  assert (docs_step X c1 c2) as S2 by (apply (docs_update X (fun c => set_index_documents (dict_set h o (index_documents c)) c));
    intros c0; simpl; split; [done|]; split; [done|]; split; [by left|]; split; [by right|]; split; [done|]; split; [lia|done]).
  assert (queued_also h o c c2) as Q2.
  { split; [right|]; intros h'; cbn [index_documents c2 set_index_documents]; unfold dict_has; rewrite dict_get_set.
    - intros [Hh| ->]; case_decide; try done. - intros o'. case_decide; [intros [= <-]; by right|by left]. }
  apply wlp_bind, wlp_gets. destruct (_ <? _)%Z; cbn [when_st]; [|apply wlp_ret; split; [by etransitivity|done]].
  destruct (index_documents c2) as [|[k dropped] rest] eqn:Hdocs; [done|].
  assert (dict_wf (index_documents c2)) as Hwf2 by (apply dict_set_wf, Hwf).
  assert (queue_objects o c dropped) as Hdrop.
  { destruct Q2 as [_ Q2]. destruct (Q2 k dropped) as [Hk| ->]; [rewrite Hdocs; cbn; by rewrite decide_True|by right; exists k|by left]. }
  apply wlp_bind, wlp_modify. set (c3 := set_index_documents rest c2).
  assert (docs_step X c2 c3) as S3 by (apply (docs_update X (set_index_documents rest)); intros c0; simpl; split; [done|]; split; [done|];
    split; [by left|]; split; [by right|]; split; [done|]; split; [lia|done]).
  apply wlp_bind, wlp_modify. set (c4 := set_index_dropped _ c3).
  assert (docs_step X c3 c4) as S4 by (apply (docs_update X (fun c => set_index_dropped (index_dropped c + 1)%Z c)); docs_quiet).
  pose proof (docs_drop_unwritten N (fun _ => False) False o c dropped Hdrop c4) as H5.
  eapply wlp_mono; [exact H5|]. intros [] c5 S5'.
  pose proof (docs_step_queues _ _ _ _ _ _ S5') as S5. split.
  - transitivity c1; [done|]. transitivity c2; [done|]. transitivity c3; [done|]. by transitivity c4.
  - assert (docs_step X c c4) as S14 by (transitivity c1; [done|]; transitivity c2; [done|]; by transitivity c3).
    destruct (S5' (proj1 (S14 Hb))) as (_ & [[]|Hd5] & _ & _ & Hdrop5 & _). split.
    + left. unfold c4, c3, c2, c1 in Hdrop5. cbn in Hdrop5. lia.
    + intros h' o' Hg. apply Q2. rewrite Hdocs. rewrite Hd5 in Hg. change (index_documents c4) with rest in Hg.
      cbn [dict_get]. case_decide as Heq; [|done]. subst h'. exfalso.
      unfold dict_wf in Hwf2. rewrite Hdocs in Hwf2. cbn in Hwf2. apply NoDup_cons in Hwf2 as [Hk _]. apply Hk.
      apply dict_get_is_Some. by exists o'.
Qed.

#[local] Hint Resolve docs_lookup_entry docs_set_state docs_index_entry docs_assert_invariants : frames.

(** [store_metadata] for a hash that has the object [o]. *)
Lemma store_found_step m o e created c :
  heap_bounded c -> heap c !! o = Some e -> dict_wf (index_documents c) -> index_tracking c = true ->
  wlp (store_found lim m o created) (fun _ c' =>
    docs_step (Reach (queue_objects o c) (Some m) (fun _ => False) True False) c c' /\ queued_also (info_hash e) o c c') c.
Proof using.
  intros Hb He Hwf Htr. set (X := Reach (queue_objects o c) (Some m) (fun _ => False) False False).
  unfold store_found.
  assert (forall c', docs_step X c c' -> wlp (tracking ← gets index_tracking; when_st tracking (queue_document_locked lim o);;
      assert_invariants_locked;; mret created)
    (fun _ c' => docs_step (Reach (queue_objects o c) (Some m) (fun _ => False) True False) c c' /\
       queued_also (info_hash e) o c c') c') as Hend.
  { intros c1 S1. destruct (S1 Hb) as (Hb1 & [[]|Hd1] & _ & Ht1 & Hdr1 & Hk1 & _).
    apply wlp_bind, wlp_gets. rewrite Ht1, Htr. cbn [when_st]. destruct (Hk1 o e He) as (e1 & He1 & Hh1 & _).
    apply wlp_bind. eapply wlp_mono; [apply (queue_document_step (Some m) o e1 c1 Hb1 He1); by rewrite Hd1|].
    rewrite Hh1. intros [] c2 [S2 [Q1 Q2]].
    assert (queue_objects o c1 = queue_objects o c) as Hobj by (unfold queue_objects; by rewrite Hd1). rewrite Hobj in S2.
    apply wlp_bind. eapply wlp_mono; [apply (docs_assert_invariants X c2)|]. intros [] c3 S3. apply wlp_ret. split.
    - transitivity c1; [by apply docs_step_queues|]. transitivity c2; [done|]. by apply docs_step_queues.
    - destruct (S2 Hb1) as (Hb2 & _). destruct (S3 Hb2) as (_ & [[]|Hd3] & _ & _ & Hdr3 & _).
      split; rewrite Hd3; rewrite Hd1 in *; [|done]. destruct Q1 as [?|Q1]; [left; lia|by right]. }
  assert (frames (docs_step X) (update_entry o (fun e => set_last_error "" (set_metadata (Some m) e)))) as Hset.
  { apply docs_update_entry. intros e'. split; [done|]. split; [right; split; [by left|by right]|]. split; [by left|].
    split; [by left|]. simpl. lia. }
  eapply (wlp_framed (docs_step X)); [apply docs_lookup_entry|reflexivity|]. intros e1 c1 S1.
  do 6 (eapply (wlp_framed (docs_step X)); [frames_steps|exact S1|]; clear S1; intros [] ? S1). by apply Hend.
Qed.

(** The two cases of the hash of a queued object. *)
Lemma queue_objects_document W D on hand o e c o' :
  docs_ok lim W D on hand c -> heap c !! o = Some e -> queue_objects o c o' -> exists e', heap c !! o' = Some e' /\
    (o' = o /\ e' = e \/ dict_get (info_hash e') (index_documents c) = Some o').
Proof using.
  intros Hc He [->|[h Hh]]; [by exists e; auto|].
  destruct (inv_documents _ _ _ (do_inv _ _ _ _ _ _ Hc) h o' Hh) as (e' & He' & <- & _). eauto.
Qed.

Lemma store_docs W D on hand m o e c c' :
  docs_ok lim W D on hand c -> at_entry c (info_hash e) o e -> has_metadata e = false -> storable (metadata_value m) ->
  docs_step (Reach (queue_objects o c) (Some m) (fun _ => False) True False) c c' -> queued_also (info_hash e) o c c' ->
  inv lim c' -> counts_small c' -> docs_ok lim W D on hand c'.
Proof using.
  intros Hc [Hg He] Hno Hm Hs [Q1 Q2] Hinv Hsmall.
  pose proof (inv_bounded lim c (do_inv _ _ _ _ _ _ Hc)) as Hb.
  destruct (Hs Hb) as (_ & _ & [[]|Hchk] & _ & Hdrop & _).
  assert (forall s, s ∈ hand -> snap_entry s <> o) as Hhand.
  { intros s Hin <-. destruct (do_snapshots _ _ _ _ _ _ Hc s Hin) as ([_ (m0 & Hm0 & _) _ _ _] & (e0 & He0 & _ & H0 & _) & _).
    assert (e0 = e) as -> by congruence. unfold has_metadata in Hno. apply bool_decide_eq_false in Hno. apply Hno. rewrite H0. eauto. }
  assert (forall s, s ∈ hand -> dict_get (snap_info_hash s) (index_documents c) <> Some (snap_entry s)) as Hnot
    by (intros s Hin; apply (do_snapshots _ _ _ _ _ _ Hc s Hin)).
  assert (forall h, placed D hand c h \/ h = info_hash e -> placed D hand c' h) as Hplaced.
  { intros h. unfold placed, overflown. destruct Q1 as [Q1|Q1].
    - pose proof (inv_bounds _ _ _ (do_inv _ _ _ _ _ _ Hc)). intros _. left. lia.
    - intros [[?|[?|?]]|?]; [left; lia|right; left; apply Q1; by left|auto|right; left; apply Q1; by right]. }
  eapply docs_ok_change; [exact Hc|exact Hs|done|done|rewrite Hchk; apply Hc|done|by intros ? [= <-]|done| | | |apply Hc|].
  - cbn. intros o' [Ho|[]]. destruct (queue_objects_document _ _ _ _ _ _ _ _ Hc He Ho) as (e' & -> & _). eauto.
  - intros h Hh. apply Hplaced. by left.
  - cbn. intros h o' e' Hat Ho _. apply Hplaced.
    destruct (queue_objects_document _ _ _ _ _ _ _ _ Hc He Ho) as (e0 & He0 & Hcase).
    pose proof (at_entry_hash _ _ _ _ _ _ (do_inv _ _ _ _ _ _ Hc) Hat) as Hh.
    assert (e0 = e') as -> by (destruct Hat; congruence). rewrite <-Hh.
    destruct Hcase as [[_ ->]|Hd]; [by right|left; right; left]. apply dict_has_get. eauto.
  - intros s Hin. split; [done|]. cbn. split; [|split; [by intros []|]].
    + intros Ho. destruct (do_snapshots _ _ _ _ _ _ Hc s Hin) as (_ & (e0 & He0 & H1 & _) & Hn).
      destruct (queue_objects_document _ _ _ _ _ _ _ _ Hc He Ho) as (e1 & He1 & [[? _]|Hd]); [by eapply Hhand|].
      apply Hn. rewrite <-H1. congruence.
    + intros Hd. destruct (Q2 _ _ Hd) as [?|?]; [by eapply Hnot|by eapply Hhand].
Qed.

(** Storing what was fetched. *)
Lemma wp_store_docs W D on hand m clock c :
  docs_ok lim W D on hand c -> fetching c (md_info_hash (metadata_value m)) -> storable (metadata_value m) -> (0 <= clock)%Z ->
  wp (store_metadata lim m clock None) (fun _ c' => counts_small c' -> docs_ok lim W D on hand c') c.
Proof using.
  intros Hc Hf Hm Hclock. pose proof (do_inv _ _ _ _ _ _ Hc) as Hinv. pose proof (inv_bounded lim c Hinv) as Hb.
  destruct (fetching_checked lim c _ Hinv Hf) as [Hchk _]. destruct (Hf) as (o & e & Hat & Hst).
  pose proof (at_entry_hash _ _ _ _ _ _ Hinv Hat) as Hh. destruct (at_entry_wf _ _ _ _ _ _ Hinv Hat) as [_ (W1 & _)].
  assert (has_metadata e = false) as Hno.
  { destruct (has_metadata e); [|done]. apply bool_decide_eq_true in Hst. rewrite W1 in Hst by done. done. }
  eapply wp_mono; [apply wp_wlp; [apply (wp_store_metadata lim c m clock None Hinv)|]|].
  - by destruct Hm.
  - done.
  - done.
  - destruct Hat as [-> _]. done.
  - unfold store_metadata. apply wlp_moment_eq. intros mom. apply wlp_bind.
    unfold get_or_create_locked. apply wlp_bind. unfold get_oid at 1. apply wlp_gets. rewrite (proj1 Hat).
    apply wlp_bind. unfold wlp at 1, lookup_entry. rewrite (proj2 Hat). apply wlp_bind, wlp_assert. intros _. apply wlp_ret.
    apply (store_found_step m o e false c Hb (proj2 Hat)); [|apply Hc]. apply (inv_tables _ _ _ Hinv).
  - cbn beta. intros b c' [[Hinv' _] [Hs Hq]] Hsmall. eapply store_docs; [exact Hc| |done|done|exact Hs|exact Hq|done|done].
    by rewrite Hh.
Qed.
End calls.
