(* ===== verification/CatalogDocumentQueue.v ===== *)
(** The queue of documents: what the index thread takes out is what was in it,
    and what it puts back is there again. *)
From S2P Require Import Prelude PyDict Bencode NodeIdentity AddressText Krpc TorrentInfo Catalog.
From S2P Require Import CatalogInvariant CatalogSafety CatalogMethods CatalogIndex CatalogTheorems.
From S2P Require Import CatalogClaims CatalogFetches IndexInterface CatalogDocuments.

Section queue.
Context (lim : limits).
Implicit Types (W D : bytes -> Prop) (hand : list index_snapshot_t).

(** ** Taking documents out *)

(** The snapshot of a queued object. *)
Definition snapshot_taken (c : catalog) (s : index_snapshot_t) (ho : bytes * oid) : Prop :=
  snap_entry s = ho.2 /\ exists e, heap c !! ho.2 = Some e /\ snap_info_hash s = info_hash e /\ snap_metadata s = metadata e /\
    snap_base s = index_base e /\ snap_seen_delta s = (seen_count e - flushed_seen e)%Z /\
    snap_announce_delta s = (announce_count e - flushed_announce e)%Z.

Lemma index_snapshot_taken h o c : wlp (index_snapshot o) (fun s c' => c' = c /\ snapshot_taken c s (h, o)) c.
Proof using.
  unfold index_snapshot. apply wlp_bind. unfold wlp at 1, lookup_entry. destruct (heap c !! o) as [e|] eqn:He; [|done].
  apply wlp_bind, wlp_assert. intros _. apply wlp_bind, wlp_assert. intros _. apply wlp_ret. split; [done|].
  split; [done|]. by exists e.
Qed.

(** What is taken out of the queue, and what is left. *)
Definition taken_out (limit : nat) (c : catalog) (l : list index_snapshot_t) (c' : catalog) : Prop :=
  exists taken rest, index_documents c = taken ++ rest /\ c' = set_index_documents rest c /\
    Forall2 (snapshot_taken c) l taken /\ (l = [] -> 1 <= limit -> rest = []).

Lemma drain_documents_taken limit : forall c, wlp (drain_documents limit) (taken_out limit c) c.
Proof using.
  induction limit as [|limit IH]; intros c; cbn [drain_documents].
  { apply wlp_ret. exists [], (index_documents c). split; [done|]. split; [by destruct c|]. split; [done|lia]. }
  apply wlp_bind, wlp_gets. destruct (index_documents c) as [|[h o] rest] eqn:Hd.
  { apply wlp_ret. exists [], []. split; [done|]. split; [rewrite <-Hd; by destruct c|]. by split. }
  apply wlp_bind, wlp_modify, wlp_bind. eapply wlp_mono; [apply (index_snapshot_taken h)|]. intros s c1 [-> Hs].
  apply wlp_bind. eapply wlp_mono; [apply IH|]. intros l c' (taken & rest' & Hrest & -> & Hall & _). apply wlp_ret.
  exists ((h, o) :: taken), rest'. cbn in Hrest. rewrite Hd, Hrest. split; [done|]. split; [done|]. split; [|done].
  by constructor.
Qed.

Lemma taken_hashes c l taken :
  (forall h o, (h, o) ∈ taken -> exists e, heap c !! o = Some e /\ info_hash e = h) ->
  Forall2 (snapshot_taken c) l taken -> snap_info_hash <$> l = taken.*1.
Proof using.
  intros Ht Hall. induction Hall as [|s [h o] l taken (_ & e & He & Hh & _) _ IH]; [done|]. rewrite !fmap_cons. f_equal.
  - destruct (Ht h o) as (e' & He' & <-); [left|]. cbn in *. congruence.
  - apply IH. intros h' o' Hin. apply Ht. by right.
Qed.

Lemma taken_member c l taken s : Forall2 (snapshot_taken c) l taken -> s ∈ l -> exists ho, ho ∈ taken /\ snapshot_taken c s ho.
Proof using.
  intros Hall [i Hi]%list_elem_of_lookup_1. destruct (Forall2_lookup_l _ _ _ _ _ Hall Hi) as (ho & Hho & Hs).
  exists ho. split; [|done]. by eapply list_elem_of_lookup_2.
Qed.

Lemma snapshot_taken_ok W D on c s h o :
  docs_ok lim W D on [] c -> dict_get h (index_documents c) = Some o -> snapshot_taken c s (h, o) -> snapshot_ok s.
Proof using.
  intros Hc Hg (_ & e & He & S1 & S2 & S3 & S4 & S5). cbn in He.
  destruct (inv_documents _ _ _ (do_inv _ _ _ _ _ _ Hc) h o Hg) as (e' & He' & _ & Hm). assert (e' = e) as -> by congruence.
  destruct (inv_heap _ _ _ (do_inv _ _ _ _ _ _ Hc) _ _ He) as [_ (W1 & W2 & W3 & W4 & _)].
  destruct (do_small _ _ _ _ _ _ Hc _ _ He) as [M1 M2]. unfold has_metadata in Hm. apply bool_decide_eq_true in Hm as [m Hm].
  split.
  - by rewrite S1.
  - exists m. rewrite S2. split; [done|]. by apply (do_storable _ _ _ _ _ _ Hc o e).
  - rewrite S4. lia.
  - rewrite S5. lia.
  - intros b. rewrite S3. intros Hb. by destruct (W4 b Hb).
Qed.

Lemma wp_drain_docs W D on limit c :
  docs_ok lim W D on [] c ->
  wp (drain_index_documents limit) (fun l c' => docs_ok lim W D on l c' /\ Forall snapshot_ok l /\
    NoDup (snap_info_hash <$> l) /\ (l = [] -> 1 <= limit -> index_documents c' = [])) c.
Proof using.
  intros Hc. pose proof (do_inv _ _ _ _ _ _ Hc) as Hinv. eapply wp_mono; [apply wp_wlp; [by apply wp_drain_index_documents|]|].
  { unfold drain_index_documents. apply wlp_bind. eapply wlp_mono; [apply drain_documents_taken|]. intros l c' Hl.
    apply wlp_bind, wlp_assert. intros _. apply wlp_ret. exact Hl. }
  cbn beta. intros l c' [(Hinv' & _ & _ & Hwf) (taken & rest & Hd & -> & Hall & Hempty)].
  pose proof (inv_tables _ _ _ Hinv) as (_ & _ & _ & _ & _ & Wd & _). unfold dict_wf in Wd.
  assert (forall h o, (h, o) ∈ taken -> dict_get h (index_documents c) = Some o) as Htaken.
  { intros h o Hin. apply elem_of_dict_get; [done|]. rewrite Hd. apply elem_of_app. by left. }
  assert (snap_info_hash <$> l = taken.*1) as Hhash.
  { apply (taken_hashes c); [|done]. intros h o Hin. destruct (inv_documents _ _ _ Hinv h o (Htaken h o Hin)) as (e & ? & ? & _). eauto. }
  rewrite Hd, fmap_app in Wd. apply NoDup_app in Wd as (Wd1 & Wd2 & Wd3).
  assert (Forall snapshot_ok l) as Hok.
  { apply Forall_forall. intros s Hs. destruct (taken_member _ _ _ _ Hall Hs) as ([h o] & Hin & Hst).
    eapply snapshot_taken_ok; [exact Hc|by apply Htaken|exact Hst]. }
  split; [|split; [done|split; [by rewrite Hhash|exact Hempty]]]. split; try apply Hc.
  - done.
  - intros h Hh. destruct (do_placed _ _ _ _ _ _ Hc h) as [?|[Hdoc|[Hin|?]]]; [done|by left| | |by right; right; right].
    + apply dict_has_get in Hdoc as [o Ho]. rewrite Hd, dict_get_app in Ho. right. rewrite Hhash.
      destruct (dict_get h taken) eqn:Ht; [right; left; apply dict_get_is_Some; eauto|left; apply dict_has_get; eauto].
    + by apply elem_of_nil in Hin.
  - by rewrite Hhash.
  - intros s Hs. rewrite Forall_forall in Hok, Hwf. split; [by apply Hok|]. split; [by apply Hwf|]. cbn. intros Hg.
    assert (snap_info_hash s ∈ taken.*1) as Hin by (rewrite <-Hhash; by apply list_elem_of_fmap_2).
    apply (Wd2 _ Hin). apply dict_get_is_Some. eauto.
Qed.

(** ** Putting documents back *)

Lemma requeue_keeps l : frames (fun c c' => forall h, dict_has h (index_documents c) = true -> dict_has h (index_documents c') = true)
  (requeue_index_documents l).
Proof using.
  assert (PreOrder (fun c c' : catalog => forall h, dict_has h (index_documents c) = true -> dict_has h (index_documents c') = true))
    as Hpre by (split; [intros c h; exact id|intros c1 c2 c3 H1 H2 h Hh; by apply H2, H1]).
  unfold requeue_index_documents. frames_steps; intros c h; cbn; unfold dict_has.
  - rewrite dict_get_set. by case_decide.
  - by rewrite dict_get_move_to_front.
Qed.

Definition queueing : reach := Reach (fun _ => False) None (fun _ => False) True False.

Lemma docs_requeue l : frames (docs_step queueing) (requeue_index_documents l).
Proof using.
  unfold requeue_index_documents. frames_steps; apply docs_update; intros c0; simpl; (split; [done|]); (split; [done|]);
    (split; [by left|]); (split; [by right|]); (split; [done|]); (split; [lia|]); intros ??; done.
Qed.

Lemma requeue_heap l c : wlp (requeue_index_documents l) (fun _ c' => heap c' = heap c) c.
Proof using.
  assert (PreOrder (fun c c' : catalog => heap c' = heap c)) as Hpre by (split; [done|intros c1 c2 c3 H1 H2; congruence]).
  assert (frames (fun c c' : catalog => heap c' = heap c) (requeue_index_documents l)) as Hf
    by (unfold requeue_index_documents; frames_steps; intros c0; done).
  apply Hf.
Qed.

Lemma requeue_contains l c : wlp (requeue_index_documents l) (fun _ c' =>
  forall s, s ∈ l -> dict_has (snap_info_hash s) (index_documents c') = true) c.
Proof using.
  unfold requeue_index_documents. apply wlp_bind. unfold wlp at 1. destruct (for_each _ _ c) as [[[] c1]|]; [|done].
  apply wlp_bind, wlp_gets, wlp_assert. intros Hall s Hs. rewrite forallb_forall in Hall. by apply Hall, list_elem_of_In.
Qed.

Lemma wp_requeue_docs W D on l c :
  docs_ok lim W D on l c -> wp (requeue_index_documents l) (fun _ => docs_ok lim W D on []) c.
Proof using.
  intros Hc. pose proof (do_inv _ _ _ _ _ _ Hc) as Hinv. pose proof (inv_bounded lim c Hinv) as Hb.
  eapply wp_mono; [apply wp_wlp; [apply wp_wlp; [apply wp_wlp; [apply wp_wlp; [apply (wp_requeue_index_documents lim c l Hinv)|]|]|]|]|].
  - apply Forall_forall. intros s Hs. destruct (do_snapshots _ _ _ _ _ _ Hc s Hs) as ([_ (m & Hm & _) _ _ _] & (e & He & Hh & Hmd & _) & _).
    exists e. split; [done|]. split; [done|]. unfold has_metadata. rewrite Hmd, Hm. by apply bool_decide_eq_true.
  - apply (requeue_keeps l c).
  - apply (docs_requeue l c).
  - apply (requeue_heap l c).
  - apply (requeue_contains l c).
  - cbn beta. intros [] c' [[[[Hinv' Hkeep] Hs] Hheap] Hin]. destruct (Hs Hb) as (_ & _ & [[]|Hchk] & _ & Hdrop & _).
    eapply docs_ok_change; [exact Hc|exact Hs|done| |rewrite Hchk; apply Hc|done|done|done| | |done|constructor|].
    + intros o e. rewrite Hheap. apply Hc.
    + by intros o [[]|[]].
    + intros h. unfold placed, overflown. intros [?|[?|[Hh|?]]]; [left; lia|right; left; by apply Hkeep|right; left|by right; right; right].
      apply list_elem_of_fmap in Hh as (s & -> & Hl). by apply Hin.
    + intros s Hn. by apply elem_of_nil in Hn.
Qed.
End queue.
