(* ===== verification/CatalogDocumentMarks.v ===== *)
(** The calls by which the index thread tells the catalog what the database
    holds: a document was written, hashes were looked up, or nothing can be
    looked up for now. *)
From S2P Require Import Prelude PyDict Bencode NodeIdentity AddressText Krpc TorrentInfo Catalog.
From S2P Require Import CatalogInvariant CatalogSafety CatalogMethods CatalogIndex CatalogWrites CatalogTheorems.
From S2P Require Import CatalogClaims CatalogFetches IndexInterface CatalogDocuments.

(** ** Sightings that stay as they are *)

Definition counts_step (c c' : catalog) : Prop := forall o e', heap c' !! o = Some e' ->
  exists e, heap c !! o = Some e /\ seen_count e' = seen_count e /\ announce_count e' = announce_count e.

#[global] Instance counts_step_preorder : PreOrder counts_step.
Proof.
  split; [intros c o e He; eauto|]. intros c1 c2 c3 H1 H2 o e3 He3.
  destruct (H2 o e3 He3) as (e2 & He2 & A & B). destruct (H1 o e2 He2) as (e1 & He1 & A' & B').
  exists e1. split; [done|]. split; congruence.
Qed.

Lemma counts_small_step c c' : counts_step c c' -> counts_small c -> counts_small c'.
Proof. intros Hs Hc o e' He'. destruct (Hs o e' He') as (e & He & -> & ->). by apply (Hc o). Qed.

Lemma counts_update f : (forall c, heap (f c) = heap c) -> frames counts_step (update f).
Proof. intros Hf. apply frames_modify. intros c o e. rewrite Hf. eauto. Qed.

Lemma counts_update_entry o f : (forall e, seen_count (f e) = seen_count e /\ announce_count (f e) = announce_count e) ->
  frames counts_step (update_entry o f).
Proof.
  intros Hf. apply frames_modify. intros c o' e'. simpl. destruct (decide (o = o')) as [->|Hne].
  - rewrite lookup_alter_eq. intros (e & He & ->)%fmap_Some. exists e. split; [done|apply Hf].
  - rewrite lookup_alter_ne by done. eauto.
Qed.

Lemma counts_lookup_entry o : frames counts_step (lookup_entry o).
Proof. apply (frames_pure _). intros c e c'. unfold lookup_entry. by destruct (_ !! _); intros [= _ ->]. Qed.
Lemma counts_get_oid t h : frames counts_step (get_oid t h).
Proof. unfold get_oid. frames_steps. Qed.
Lemma counts_assert_invariants : frames counts_step assert_invariants_locked.
Proof.
  apply (frames_pure _). intros c u c'. unfold assert_invariants_locked, assert_st, mbind, st_bind.
  repeat case_match; try done; congruence.
Qed.
#[local] Hint Resolve counts_lookup_entry counts_get_oid counts_assert_invariants : frames.
#[local] Hint Extern 1 (frames counts_step (update _)) => (apply counts_update; done) : frames.
#[local] Hint Extern 1 (frames counts_step (update_entry _ _)) => (apply counts_update_entry; done) : frames.

Section marks.
Context (lim : limits) (Hlim : limits_ok lim).
Implicit Types (W D : bytes -> Prop) (hand : list index_snapshot_t).

Lemma counts_mark_written s base : frames counts_step (mark_index_written s base).
Proof using. unfold mark_index_written, add_flushed, release_metadata_locked. frames_steps. Qed.
Lemma counts_index_entry o : frames counts_step (index_entry_locked lim o).
Proof using. unfold index_entry_locked. frames_steps. Qed.
#[local] Hint Resolve counts_index_entry : frames.
Lemma counts_set_check b : frames counts_step (set_database_check lim b).
Proof using. unfold set_database_check. frames_steps. Qed.
Lemma counts_apply_check found h : frames counts_step (apply_database_check lim found h).
Proof using. unfold apply_database_check, set_state_locked. frames_steps. Qed.

(** ** A document was written *)

(** The document of [h] may have left the queue. *)
Definition lost_document (h : bytes) (c c' : catalog) : Prop := forall h',
  dict_get h' (index_documents c') = dict_get h' (index_documents c) \/
  h' = h /\ dict_get h' (index_documents c') = None.

Definition writing (o : oid) (queue : Prop) : reach := Reach (eq o) None (eq o) queue False.

Lemma docs_release o : frames (docs_step (writing o False)) (release_metadata_locked o).
Proof using.
  unfold release_metadata_locked. frames_steps. apply docs_update_entry. intros e. split; [done|].
  split; [right; split; [done|by left]|]. split; [by right|]. split; [by left|]. simpl. lia.
Qed.

Lemma docs_add_flushed s : frames (docs_step (writing (snap_entry s) False)) (add_flushed s).
Proof using.
  unfold add_flushed. apply docs_update_entry. intros e. split; [done|]. split; [by left|]. split; [by left|]. split; [by right|].
  simpl. lia.
Qed.
#[local] Hint Resolve docs_release docs_add_flushed docs_assert_invariants : frames.

Lemma writing_queues o c c' : docs_step (writing o False) c c' -> docs_step (writing o True) c c'.
Proof using.
  intros Hs Hb. destruct (Hs Hb) as (H1 & _ & H3 & H4 & H5 & H6 & H7 & H8). split; [done|]. split; [by left|].
  split; [exact H3|]. split; [done|]. split; [done|]. split; [exact H6|]. by split.
Qed.

Lemma mark_written_step s base e c : heap_bounded c -> heap c !! snap_entry s = Some e ->
  wlp (mark_index_written s base) (fun _ c' =>
    docs_step (writing (snap_entry s) True) c c' /\ lost_document (info_hash e) c c') c.
Proof using.
  intros Hb He. set (X := writing (snap_entry s) False). set (Q c' := docs_step _ c c' /\ lost_document (info_hash e) c c').
  assert (forall c', docs_step X c c' -> Q c') as HQ.
  { intros c' Hs. split; [by apply writing_queues|]. intros h'. left. by destruct (Hs Hb) as (_ & [[]| ->] & _). }
  assert (forall c1 c2, Q c1 -> docs_step X c1 c2 -> Q c2) as Hthen.
  { intros c1 c2 [S1 L1] S2. split; [transitivity c1; [done|by apply writing_queues]|].
    destruct (S2 (proj1 (S1 Hb))) as (_ & [[]|Hd] & _). intros h'. by rewrite Hd. }
  unfold mark_index_written.
  eapply (wlp_framed (docs_step X)); [frames_steps|reflexivity|]. intros [] ? S0.
  eapply (wlp_framed (docs_step X)); [frames_steps|exact S0|]. clear S0. intros [] ? S0.
  eapply (wlp_framed (docs_step X)); [frames_steps|exact S0|]. clear S0. intros current c1 S1.
  apply wlp_bind. apply (wlp_mono _ (fun _ => Q)).
  2: { intros [] c2 HQ2. apply (wlp_mono _ (fun _ => docs_step X c2)); [|intros u c3; by apply Hthen].
       assert (frames (docs_step X) (assert_invariants_locked ;; assert_st (0 <=? base.1.1)%Z)) as Hf by frames_steps. apply Hf. }
  case_bool_decide; cbn [when_st]; [|by apply wlp_ret, HQ].
  eapply (wlp_framed (docs_step X)); [frames_steps|exact S1|]. intros [] c2 S2.
  apply wlp_bind. unfold wlp at 1, lookup_entry. destruct (heap c2 !! snap_entry s) as [e2|] eqn:He2; [|done].
  assert (info_hash e2 = info_hash e) as Hh.
  { destruct (S2 Hb) as (_ & _ & _ & _ & _ & Hk & _). destruct (Hk _ _ He) as (e' & He' & Hh & _). congruence. }
  case_bool_decide; cbn [when_st]; [|by apply wlp_ret, HQ].
  apply wlp_bind, wlp_gets, wlp_bind, wlp_modify. set (c3 := set_index_documents _ c2).
  assert (Q c3) as Q3.
  { destruct (HQ c2 S2) as [S2' L2]. split.
    - transitivity c2; [done|]. apply (docs_update _ (fun c => set_index_documents (dict_del (info_hash e2) (index_documents c)) c)).
      intros c0; simpl; split; [done|]; split; [done|]; split; [by left|]; split; [by right|]; split; [done|]; split; [lia|done].
    - intros h'. cbn. rewrite dict_get_del, Hh. case_decide; [by right|]. destruct (L2 h') as [?|[]]; [by left|done]. }
  match goal with |- wlp ?m _ _ => assert (frames (docs_step X) m) as Hf by frames_steps end.
  eapply wlp_mono; [apply Hf|]. intros [] c4. by apply Hthen.
Qed.

Lemma wp_mark_docs W D on s l base c :
  docs_ok lim W D on (s :: l) c -> D (snap_info_hash s) -> (0 <= base.1.1)%Z ->
  wp (mark_index_written s base) (fun _ => docs_ok lim W D on l) c.
Proof using.
  intros Hc HD Hbase. pose proof (do_inv _ _ _ _ _ _ Hc) as Hinv. pose proof (inv_bounded lim c Hinv) as Hb.
  destruct (do_snapshots _ _ _ _ _ _ Hc s) as ([_ (m & Hm & _) _ _ _] & Hswf & _); [left|].
  destruct (Hswf) as (e & He & Hh & _). pose proof (do_hand _ _ _ _ _ _ Hc) as Hnd. apply NoDup_cons in Hnd as [Hns Hnd].
  eapply wp_mono; [apply wp_wlp; [apply wp_wlp; [by apply (wp_mark_index_written lim c s base Hinv Hswf); [rewrite Hm|]|]|]|].
  - apply (mark_written_step s base e c Hb He).
  - apply (counts_mark_written s base c).
  - cbn beta. rewrite Hh. intros [] c' [[Hinv' [Hs Hlost]] Hcounts]. destruct (Hs Hb) as (_ & _ & [[]|Hchk] & _ & Hdrop & _).
    eapply docs_ok_change; [exact Hc|exact Hs|done|apply (counts_small_step c); [done|apply Hc]|rewrite Hchk; apply Hc|done|done| | | |done|done|].
    + intros o e0 He0 <-. assert (e0 = e) as -> by congruence. by rewrite Hh.
    + intros o [<-|<-]; eauto.
    + intros h. unfold placed, overflown. intros [?|[Hd|[Hin|?]]]; [left; lia| | |by right; right; right].
      * destruct (Hlost h) as [Heq|[-> _]]; [|by right; right; right]. right; left. unfold dict_has in *. by rewrite Heq.
      * rewrite fmap_cons, elem_of_cons in Hin. destruct Hin as [->|Hin]; [by right; right; right|by right; right; left].
    + intros s' Hin. assert (snap_entry s <> snap_entry s') as Hne.
      { intros Heq. destruct (do_snapshots _ _ _ _ _ _ Hc s') as (_ & (e' & He' & Hh' & _) & _); [by right|].
        apply Hns. rewrite <-Heq in He'. assert (e' = e) as -> by congruence. rewrite <-Hh, Hh'. by apply list_elem_of_fmap_2. }
      split; [by right|]. split; [done|]. split; [done|]. destruct (Hlost (snap_info_hash s')) as [Heq|[_ Heq]]; rewrite Heq; [|done].
      apply (do_snapshots _ _ _ _ _ _ Hc s'). by right.
Qed.

(** ** The check of new hashes is turned on or off *)

Definition switching : reach := Reach (fun _ => False) None (fun _ => False) False True.
#[local] Hint Resolve docs_index_entry docs_lookup_entry docs_set_state : frames.

Lemma set_check_step b c : wlp (set_database_check lim b) (fun _ c' => docs_step switching c c' /\
  (heap_bounded c -> check_database c' = b)) c.
Proof using.
  unfold set_database_check. apply wlp_bind, wlp_modify. set (c1 := set_check_database b c).
  assert (docs_step switching c c1) as S1.
  { apply (docs_update switching (set_check_database b)). intros c0; simpl; split; [done|]; split; [done|]; split; [by right|];
    split; [by left|]; split; [done|]; split; [lia|done]. }
  match goal with |- wlp ?m _ _ => assert (frames (docs_step calm) m) as Hf by frames_steps end.
  eapply wlp_mono; [apply Hf|]. intros [] c2 S2. split.
  - transitivity c1; [done|]. intros Hb. destruct (S2 Hb) as (H1 & H2 & _ & H4 & H5 & H6 & H7 & H8). split; [done|].
    split; [exact H2|]. split; [by left|]. split; [done|]. split; [done|]. split; [exact H6|]. by split.
  - intros Hb. by destruct (S2 (proj1 (S1 Hb))) as (_ & _ & [[]| ->] & _).
Qed.

Lemma wp_set_check_docs W D on b c :
  docs_ok lim W D on [] c -> wp (set_database_check lim b) (fun _ => docs_ok lim W D b []) c.
Proof using.
  intros Hc. pose proof (do_inv _ _ _ _ _ _ Hc) as Hinv. pose proof (inv_bounded lim c Hinv) as Hb.
  eapply wp_mono; [apply wp_wlp; [apply wp_wlp; [by apply (wp_set_database_check lim c b)|apply (set_check_step b c)]|apply (counts_set_check b c)]|].
  cbn beta. intros [] c' [[Hinv' [Hs Hchk]] Hcounts]. destruct (Hs Hb) as (_ & [[]|Hd] & _ & _ & Hdrop & _).
  eapply docs_ok_change; [exact Hc|exact Hs|done|apply (counts_small_step c); [done|apply Hc]|by apply Hchk|done|done|done| | |done|constructor|].
  - by intros o [[]|[]].
  - intros h. unfold placed, overflown. rewrite Hd. intros [?|?]; [left; lia|by right].
  - intros s Hn. by apply elem_of_nil in Hn.
Qed.

(** ** Hashes that wait for a check *)

Definition awaiting (c : catalog) (h : bytes) : Prop := exists o e, at_entry c h o e /\ database_checked e = false.

Lemma wp_pending_docs limit c : inv lim c ->
  wp (pending_database_checks limit) (fun l c' => c' = c /\ Forall (fun h => length h = NODE_ID_LENGTH) l) c.
Proof using.
  intros Hc. unfold pending_database_checks. apply wp_bind, wp_gets, wp_bind, wp_assert.
  { apply bool_decide_eq_true. rewrite length_take. lia. }
  apply wp_ret. split; [done|]. apply Forall_forall. intros h (i & Hi & _)%elem_of_take.
  apply list_elem_of_lookup_2 in Hi as Hin.
  apply dict_get_is_Some in Hin as [o Ho]. destruct (unchecked_current lim c h o Hc Ho) as (e & Hat & _).
  rewrite <-(at_entry_hash _ _ _ _ _ _ Hc Hat). by destruct (at_entry_wf _ _ _ _ _ _ Hc Hat) as [[? _] _].
Qed.

(** What a check may find: torrents that the database knows. *)
Definition finding (D : bytes -> Prop) (c0 : catalog) : reach :=
  Reach (fun _ => False) None (fun o => exists e, heap c0 !! o = Some e /\ D (info_hash e)) False False.

Lemma apply_check_step D found h c0 c : inv lim c -> heap_bounded c0 -> docs_step (finding D c0) c0 c -> counts_step c0 c ->
  (forall b, found h = Some b -> D h) ->
  wlp (apply_database_check lim found h) (fun _ c' => docs_step (finding D c0) c0 c') c.
Proof using.
  intros Hc Hb0 Hs Hold HD. unfold apply_database_check. apply wlp_bind. unfold get_oid. apply wlp_gets.
  eapply (wlp_framed (docs_step (finding D c0))); [frames_steps|exact Hs|]. intros [] c1 S1.
  destruct (dict_get h (needs_check c)) as [o|] eqn:Ho; [|by apply wlp_ret].
  destruct (unchecked_current lim c h o Hc Ho) as (e & Hat & _).
  pose proof (at_entry_hash _ _ _ _ _ _ Hc Hat) as Hh. destruct Hat as [Hg He].
  assert (found h <> None -> finds (finding D c0) o) as Hfind.
  { intros Hf. destruct (found h) as [b|] eqn:Hfound; [|done]. destruct (Hs Hb0) as (_ & _ & _ & _ & _ & Hk & Hn & Hent).
    destruct (Hold o e He) as (e0 & He0 & _). exists e0. split; [done|].
    destruct (Hk o e0 He0) as (e' & He' & Hh' & _). assert (e' = e) as -> by congruence. rewrite <-Hh', Hh. by apply (HD b). }
  clear Hs Hold. match goal with |- wlp ?m _ _ => assert (frames (docs_step (finding D c0)) m) as Hf end.
  { frames_steps. apply docs_update_entry. intros e'. split; [done|]. split; [by left|].
    split; [right; split; [done|apply Hfind; congruence]|]. split; [by left|]. simpl. lia. }
  eapply wlp_mono; [apply Hf|]. intros [] c2 S2. by transitivity c1.
Qed.

Lemma wp_apply_docs W D on l found c :
  docs_ok lim W D on [] c -> Forall (fun h => length h = NODE_ID_LENGTH) l ->
  (forall h b, found h = Some b -> D h /\ (0 <= b.1.1)%Z) ->
  wp (apply_database_checks lim l found) (fun _ c' => docs_ok lim W D on [] c' /\ Forall (fun h => ~ awaiting c' h) l) c.
Proof using.
  intros Hc Hl Hfound. pose proof (do_inv _ _ _ _ _ _ Hc) as Hinv. pose proof (inv_bounded lim c Hinv) as Hb.
  assert (forall h b, found h = Some b -> (0 <= b.1.1)%Z) as Hbase by (intros h b Hf; by apply (Hfound h)).
  assert (wlp (apply_database_checks lim l found) (fun _ c' => docs_step (finding D c) c c' /\ counts_step c c') c) as Hstep.
  { unfold apply_database_checks. apply wlp_bind, wlp_assert. intros _. apply wlp_bind.
    apply (wlp_mono _ (fun _ c' => docs_step (finding D c) c c' /\ counts_step c c')).
    - apply wlp_of_wp.
      apply (wp_mono _ (fun _ c' => inv lim c' /\ docs_step (finding D c) c c' /\ counts_step c c')); [|by intros [] c' []].
      apply wp_for_each; [by split|]. clear Hc Hinv. intros h c1 _ (Hc & Hs & Hold).
      eapply wp_mono; [apply wp_wlp; [apply wp_wlp; [exact (wp_apply_database_check lim c1 found h Hc (Hbase h))|]|]|].
      + by apply (apply_check_step D found h c c1); [..|intros b Hf; apply (Hfound h b Hf)].
      + apply (counts_apply_check found h c1).
      + intros [] c2 [[(Hc2 & _) S2] K2]. split; [done|]. split; [done|]. by transitivity c1.
    - intros [] c1 [S1 K1]. match goal with |- wlp ?m _ _ => assert (frames (docs_step (finding D c)) m) as Hf by frames_steps;
        assert (frames counts_step m) as Hf' by frames_steps end.
      pose proof (Hf c1) as H1. pose proof (Hf' c1) as H2. unfold wlp in *. case_match; [|done]. case_match.
      split; [by transitivity c1|by transitivity c1]. }
  eapply wp_mono; [apply wp_wlp; [by apply (wp_apply_database_checks lim c l found)|exact Hstep]|].
  cbn beta. intros [] c' [[Hinv' Hchecked] [Hs Hcounts]]. destruct (Hs Hb) as (_ & [[]|Hd] & [[]|Hchk] & _ & Hdrop & _).
  split.
  - eapply docs_ok_change; [exact Hc|exact Hs|done|apply (counts_small_step c); [done|apply Hc]|rewrite Hchk; apply Hc|done|done| | | |done|constructor|].
    + intros o e He (e' & He' & HD). by assert (e' = e) as -> by congruence.
    + intros o [[]|(e & He & _)]. eauto.
    + intros h. unfold placed, overflown. rewrite Hd. intros [?|?]; [left; lia|by right].
    + intros s Hn. by apply elem_of_nil in Hn.
  - eapply Forall_impl; [exact Hchecked|]. intros h Hh (o & e & Hat & He). specialize (Hh o e Hat). congruence.
Qed.
End marks.
