(* ===== verification/IndexedCatalog.v ===== *)
(** The torrent catalog as the index thread has it: shared with other threads,
    whose calls come between its own.  It keeps the promises of
    [IndexInterface]. *)
From S2P Require Import Prelude PyDict Bencode NodeIdentity AddressText Krpc TorrentInfo Tasks TaskLoops Catalog.
From S2P Require Import CatalogInvariant CatalogSafety CatalogMethods CatalogIndex CatalogWrites CatalogTheorems.
From S2P Require Import CatalogClaims CatalogFetches IndexInterface CatalogDrains CatalogDocuments.
From S2P Require Import CatalogDocumentCalls CatalogDocumentQueue CatalogDocumentMarks.

(** The calls that only the index thread makes, or that are made before it starts. *)
Definition index_call (k : call) : bool :=
  match k with
  | Enable_index_tracking _ _ | Drain_index_documents _ | Drain_index_counters _ | Requeue_index_documents _
  | Requeue_index_counters _ | Mark_counters_written _ | Mark_index_written _ _ | Set_index_base _ _
  | Set_database_check _ | Apply_database_checks _ _ | Reset_index_base _ => true
  | _ => false
  end.

Section shared.
Context (lim : limits) (Hlim : limits_ok lim).

(** What the other threads do: an assertion that fails in one of them is theirs. *)
Fixpoint others_calls (calls : list (Z * call)) (c : catalog) : catalog :=
  match calls with
  | [] => c
  | (now, k) :: calls => others_calls calls (match run lim now k c with Ok (_, c') => c' | Raise _ => c end)
  end.

(** The rule for the other threads: they call methods as they are meant to be
    called, none of those of the index thread, and store only what they fetched;
    the sightings stay far from the ends of 64 bits. *)
Fixpoint index_follows (c : catalog) (calls : list (Z * call)) : Prop :=
  match calls with
  | [] => True
  | (now, k) :: calls =>
      allowed c k /\ (0 <= now)%Z /\ index_call k = false /\
      (forall m, k = Store_metadata m -> fetching c (md_info_hash (metadata_value m)) /\ storable (metadata_value m)) /\
      forall c', run lim now k c = Ok (tt, c') -> counts_small c' /\ index_follows c' calls
  end.

Lemma wp_run_docs W D on hand now k c :
  docs_ok lim W D on hand c -> allowed c k -> (0 <= now)%Z -> index_call k = false ->
  (forall m, k = Store_metadata m -> fetching c (md_info_hash (metadata_value m)) /\ storable (metadata_value m)) ->
  wp (run lim now k) (fun _ c' => counts_small c' -> docs_ok lim W D on hand c') c.
Proof using Hlim.
  intros Hc Hk Hnow Hidx Hstore. pose proof (do_inv _ _ _ _ _ _ Hc) as Hinv.
  assert (frames (docs_step calm) (run lim now k) ->
    wp (run lim now k) (fun _ c' => counts_small c' -> docs_ok lim W D on hand c') c) as Hcalm.
  { intros Hf. eapply wp_mono; [exact (wp_wlp _ _ _ _ (wp_run lim now k c Hlim Hinv Hk Hnow) (Hf c))|].
    intros u c' [Hc' Hs] Hsmall. by eapply docs_ok_calm. }
  destruct k; try discriminate; try (apply Hcalm; cbn [run]; frames_steps; fail).
  destruct (Hstore m eq_refl) as [Hf Hm]. cbn [run]. apply wp_bind.
  eapply wp_mono; [by apply (wp_store_docs lim W D on hand m now c)|]. intros b c' Hc'. by apply wp_ret.
Qed.

Lemma others_docs W D on hand calls : forall c,
  docs_ok lim W D on hand c -> index_follows c calls -> docs_ok lim W D on hand (others_calls calls c).
Proof using Hlim.
  induction calls as [|[now k] calls IH]; intros c Hc Hf; [done|]. cbn [others_calls].
  destruct Hf as (Hk & Hnow & Hidx & Hstore & Hnext).
  pose proof (wp_run_docs W D on hand now k c Hc Hk Hnow Hidx Hstore) as Hrun. unfold wp in Hrun.
  destruct (run lim now k c) as [[[] c']|]; [|done]. destruct (Hnext c' eq_refl) as [Hsmall Hf]. by apply IH; [apply Hrun|].
Qed.

(** ** The operations *)

Context (others : nat -> catalog -> list (Z * call)).

(** A call of the index thread, after those of the others. *)
Definition index_locked {A} (m : ST catalog A) : task shared_catalog A := fun s =>
  let c := others_calls (others (turn s) (contents s)) (contents s) in
  match m c with
  | Ok (a, c') => (Ok a, Shared c' (S (turn s)))
  | Raise e => (Raise e, Shared c (S (turn s)))
  end.

#[local] Instance shared_index : IndexCatalog shared_catalog := {
  catalog_drain_index_documents n := index_locked (drain_index_documents n);
  catalog_requeue_index_documents l := index_locked (requeue_index_documents l);
  catalog_mark_index_written s base := index_locked (mark_index_written s base);
  catalog_drain_index_counters n := index_locked (drain_index_counters lim n);
  catalog_requeue_index_counters l := index_locked (requeue_index_counters l);
  catalog_mark_counters_written l := index_locked (mark_counters_written l);
  catalog_reset_index_base h := index_locked (reset_index_base lim h);
  catalog_set_database_check b := index_locked (set_database_check lim b);
  catalog_pending_database_checks n := index_locked (pending_database_checks n);
  catalog_apply_database_checks l found := index_locked (apply_database_checks lim l (fun h => dict_get h found));
  catalog_index_backlog := index_locked index_backlog }.

(** ** The loops end when the other threads are at rest *)

Section drains.
Context (quiet : nat) (Hquiet : forall n c, quiet <= n -> others n c = []).

Definition not_quiet (s : shared_catalog) : nat := quiet - turn s.
Definition documents_waiting (s : shared_catalog) : nat := waiting_documents (contents s).
Definition counters_waiting (s : shared_catalog) : nat := waiting_counters (contents s).

Lemma tri_index_locked {A} (m : ST catalog A) (Q : A -> shared_catalog -> Prop) (E : exn -> shared_catalog -> Prop) s :
  (let c := others_calls (others (turn s) (contents s)) (contents s) in
   match m c with Ok (a, c') => Q a (Shared c' (S (turn s))) | Raise e => E e (Shared c (S (turn s))) end) ->
  tri (index_locked m) Q E s.
Proof using. unfold tri, index_locked. cbv zeta. by destruct (m _) as [[a c']|e]. Qed.

(** Either the others had something left to do, or they did nothing. *)
Lemma at_rest s : not_quiet (Shared (contents s) (S (turn s))) < not_quiet s \/
  not_quiet (Shared (contents s) (S (turn s))) = not_quiet s /\ others_calls (others (turn s) (contents s)) (contents s) = contents s.
Proof using Hquiet.
  unfold not_quiet. cbn. destruct (decide (turn s < quiet)); [left; lia|right]. rewrite Hquiet by lia. split; [lia|done].
Qed.

Lemma index_locked_ends {A} X (m : ST catalog A) : sound X m -> terminates (index_locked m).
Proof using.
  intros Hm s. apply tri_index_locked. cbv zeta. specialize (Hm (others_calls (others (turn s) (contents s)) (contents s))).
  by destruct (m _) as [[a c']|e].
Qed.

Lemma index_locked_documents {A} (m : ST catalog A) : sound (Growth False True) m ->
  adds_none not_quiet documents_waiting (index_locked m).
Proof using Hquiet.
  intros Hm s. apply tri_index_locked. cbv zeta. set (c := others_calls _ _). specialize (Hm c).
  destruct (m c) as [[a c']|e]; [|done]. destruct Hm as [[[]|Hd] _].
  destruct (at_rest s) as [?|[Hq Hc]]; [by left|right]. split; [done|]. unfold documents_waiting. cbn. subst c. by rewrite Hc in Hd.
Qed.

Lemma index_locked_counters {A} (m : ST catalog A) : sound (Growth True False) m ->
  adds_none not_quiet counters_waiting (index_locked m).
Proof using Hquiet.
  intros Hm s. apply tri_index_locked. cbv zeta. set (c := others_calls _ _). specialize (Hm c).
  destruct (m c) as [[a c']|e]; [|done]. destruct Hm as [_ [[]|Hd]].
  destruct (at_rest s) as [?|[Hq Hc]]; [by left|right]. split; [done|]. unfold counters_waiting. cbn. subst c. by rewrite Hc in Hd.
Qed.

Lemma shared_documents_fewer n s : tri (index_locked (drain_index_documents n))
  (fun l s' => l = [] \/ fewer not_quiet documents_waiting s s') (fun e _ => e <> Diverge) s.
Proof using Hquiet.
  apply tri_index_locked. cbv zeta. set (c := others_calls _ _). pose proof (drain_index_documents_fewer n c) as Hd.
  destruct (drain_index_documents n c) as [[l c']|e]; [|done]. destruct Hd as [?|Hd]; [by left|right].
  destruct (at_rest s) as [?|[Hq Hc]]; [by left|right]. split; [done|]. unfold documents_waiting. cbn. subst c. by rewrite Hc in Hd.
Qed.

Lemma shared_counters_fewer n s : tri (index_locked (drain_index_counters lim n))
  (fun l s' => l = [] \/ fewer not_quiet counters_waiting s s') (fun e _ => e <> Diverge) s.
Proof using Hquiet.
  apply tri_index_locked. cbv zeta. set (c := others_calls _ _). pose proof (drain_index_counters_fewer lim n c) as Hd.
  destruct (drain_index_counters lim n c) as [[l c']|e]; [|done]. destruct Hd as [?|Hd]; [by left|right].
  destruct (at_rest s) as [?|[Hq Hc]]; [by left|right]. split; [done|]. unfold counters_waiting. cbn. subst c. by rewrite Hc in Hd.
Qed.

#[local] Instance shared_drains : IndexCatalogDrains shared_catalog := {
  busy := not_quiet;
  documents_left := documents_waiting;
  counters_left := counters_waiting;
  law_documents_fewer := shared_documents_fewer;
  law_mark_written_adds_none s base := index_locked_documents _ (sound_mark_index_written (Growth False True) s base I);
  law_counters_fewer := shared_counters_fewer;
  law_mark_counters_adds_none l := index_locked_counters _ (sound_mark_counters _ l);
  law_reset_adds_none h := index_locked_counters _ (sound_reset_index_base lim (Growth True False) h I);
  law_requeue_documents_ends l := index_locked_ends (Growth True True) _ (sound_requeue_documents (Growth True True) l I);
  law_requeue_counters_ends l := index_locked_ends (Growth True True) _ (sound_requeue_counters (Growth True True) l I);
  law_set_check_ends b := index_locked_ends (Growth True True) _ (sound_set_database_check lim _ b);
  law_pending_ends n := index_locked_ends (Growth True True) _ (sound_pending_checks _ n);
  law_apply_ends l found := index_locked_ends (Growth True True) _ (sound_apply_checks lim (Growth True True) l _ I) }.
End drains.

(** ** No document is lost *)

Section laws.
Context (Hothers : forall n c, inv lim c -> counts_small c -> index_follows c (others n c)).

Definition shared_index_ok (W D : bytes -> Prop) on hand (s : shared_catalog) : Prop := docs_ok lim W D on hand (contents s).

Lemma tri_locked_docs {A} (m : ST catalog A) (Q : A -> shared_catalog -> Prop) W D on hand s :
  shared_index_ok W D on hand s -> (forall c, docs_ok lim W D on hand c -> wp m (fun a c' => forall n, Q a (Shared c' n)) c) ->
  tri (index_locked m) Q (fun _ _ => False) s.
Proof using Hlim Hothers.
  intros Hs Hm. apply tri_index_locked. cbv zeta.
  pose proof (others_docs W D on hand _ _ Hs (Hothers (turn s) (contents s) (do_inv _ _ _ _ _ _ Hs) (do_small _ _ _ _ _ _ Hs))) as Hc.
  specialize (Hm _ Hc). unfold wp in Hm. by destruct (m _) as [[a c']|e].
Qed.

Lemma shared_told W D on hand s h :
  shared_index_ok W D on hand s -> W h \/ holds (contents s) h ->
  overflown (contents s) \/ dict_has h (index_documents (contents s)) = true \/ h ∈ snap_info_hash <$> hand \/ D h.
Proof using. intros Hs. apply (do_placed _ _ _ _ _ _ Hs). Qed.

Lemma shared_stored W (D D' : bytes -> Prop) on hand s :
  (forall h, D h -> D' h) -> shared_index_ok W D on hand s -> shared_index_ok W D' on hand s.
Proof using.
  intros HD Hs. destruct Hs as [H1 H2 H3 H4 H5 H6 H7 H8 H9]. split; try done.
  - intros o e He Hi. by apply HD, (H6 o).
  - intros h Hh. destruct (H7 h Hh) as [?|[?|[?|?]]]; [by left|by right; left|by right; right; left|right; right; right; by apply HD].
Qed.

Lemma shared_drain W D on s n :
  shared_index_ok W D on [] s ->
  tri (index_locked (drain_index_documents n)) (fun l s' => shared_index_ok W D on l s' /\ Forall snapshot_ok l /\
    NoDup (snap_info_hash <$> l) /\ (l = [] -> 1 <= n -> forall h, dict_has h (index_documents (contents s')) <> true))
    (fun _ _ => False) s.
Proof using Hlim Hothers.
  intros Hs. eapply tri_locked_docs; [exact Hs|]. intros c Hc. eapply wp_mono; [by apply (wp_drain_docs lim W D on n c)|].
  intros l c' (H1 & H2 & H3 & H4) k. split; [done|]. split; [done|]. split; [done|]. intros Hl Hn h. cbn. by rewrite H4.
Qed.

Lemma shared_requeue W D on l s :
  shared_index_ok W D on l s -> tri (index_locked (requeue_index_documents l)) (fun _ => shared_index_ok W D on []) (fun _ _ => False) s.
Proof using Hlim Hothers.
  intros Hs. eapply tri_locked_docs; [exact Hs|]. intros c Hc. eapply wp_mono; [exact (wp_requeue_docs lim W D on l c Hc)|].
  intros u c' Hc' n. exact Hc'.
Qed.

Lemma shared_mark_written W (D : bytes -> Prop) on s l base k :
  shared_index_ok W D on (s :: l) k -> D (snap_info_hash s) -> (0 <= base.1.1)%Z ->
  tri (index_locked (mark_index_written s base)) (fun _ => shared_index_ok W D on l) (fun _ _ => False) k.
Proof using Hlim Hothers.
  intros Hs HD Hb. eapply tri_locked_docs; [exact Hs|]. intros c Hc.
  eapply wp_mono; [exact (wp_mark_docs lim W D on s l base c Hc HD Hb)|]. intros u c' Hc' n. exact Hc'.
Qed.

Lemma shared_set_check W D on b k :
  shared_index_ok W D on [] k -> tri (index_locked (set_database_check lim b)) (fun _ => shared_index_ok W D b []) (fun _ _ => False) k.
Proof using Hlim Hothers.
  intros Hs. eapply tri_locked_docs; [exact Hs|]. intros c Hc.
  eapply wp_mono; [exact (wp_set_check_docs lim W D on b c Hc)|]. intros u c' Hc' n. exact Hc'.
Qed.

Lemma shared_pending W D on n k :
  shared_index_ok W D on [] k -> tri (index_locked (pending_database_checks n))
    (fun l k' => shared_index_ok W D on [] k' /\ Forall (fun h => length h = NODE_ID_LENGTH) l) (fun _ _ => False) k.
Proof using Hlim Hothers.
  intros Hs. eapply tri_locked_docs; [exact Hs|]. intros c Hc.
  eapply wp_mono; [exact (wp_pending_docs lim n c (do_inv _ _ _ _ _ _ Hc))|]. intros l c' [-> Hl] n'. by split.
Qed.

Lemma shared_apply W (D : bytes -> Prop) on l found k :
  shared_index_ok W D on [] k -> Forall (fun h => length h = NODE_ID_LENGTH) l ->
  Forall (fun hb => D hb.1 /\ (0 <= hb.2.1.1)%Z) found ->
  tri (index_locked (apply_database_checks lim l (fun h => dict_get h found)))
    (fun _ k' => shared_index_ok W D on [] k' /\ Forall (fun h => ~ awaiting (contents k') h) l) (fun _ _ => False) k.
Proof using Hlim Hothers.
  intros Hs Hl Hf. eapply tri_locked_docs; [exact Hs|]. intros c Hc. eapply wp_mono; [apply (wp_apply_docs lim W D on l _ c Hc Hl)|].
  - intros h b Hg%dict_get_elem_of. rewrite Forall_forall in Hf. exact (Hf _ Hg).
  - intros u c' [Hc' Hw] n. by split.
Qed.

#[local] Instance shared_index_laws : IndexCatalogLaws shared_catalog := {
  queued k h := dict_has h (index_documents (contents k)) = true;
  overflowed k := overflown (contents k);
  in_memory k h := holds (contents k) h;
  awaits_check k h := awaiting (contents k) h;
  index_ok := shared_index_ok;
  index_ok_told := shared_told;
  index_ok_stored := shared_stored;
  law_drain_documents W D on k n := shared_drain W D on k n;
  law_requeue_documents := shared_requeue;
  law_mark_written := shared_mark_written;
  law_set_check := shared_set_check;
  law_pending_checks := shared_pending;
  law_apply_checks := shared_apply }.
End laws.
End shared.
