(* ===== verification/SearchIndexerTheorems.v ===== *)
(** The theorems about the index thread, working on the torrent catalog that it
    shares with the other threads: it outlives every error, it loses no document,
    and it lets new torrents through when the database cannot be asked. *)
From S2P Require Import Prelude PyDict Bencode NodeIdentity AddressText Krpc TorrentInfo Tasks TaskLoops Catalog.
From S2P Require Import CatalogInvariant CatalogSafety CatalogMethods CatalogTheorems CatalogClaims IndexInterface CatalogDocuments.
From S2P Require Import TypoIndex TorrentDatabase TorrentDatabaseSafety TorrentDatabaseSearch TorrentDatabaseTheorems.
From S2P Require Import IndexedCatalog SearchIndexer SearchIndexerRun SearchIndexerSafety.

Section theorems.
Context `{TextFunctions} (lim : limits) (others : nat -> catalog -> list (Z * CatalogTheorems.call)).
Context (fault : nat -> bool) (clock_at : nat -> Z) (o : index_options).
Implicit Types (s : indexer shared_catalog).

#[local] Instance catalog_of_others : IndexCatalog shared_catalog := shared_index lim others.

(** The catalog and the database of the thread are in order, no document is in
    its hands, and the catalog checks new hashes unless the checks are bypassed. *)
Definition indexer_ok (W : bytes -> Prop) s : Prop :=
  database_ready (ix_database s) /\
  docs_ok lim W (stored (ix_database s)) (negb (checks_bypassed s)) [] (contents (ix_catalog s)).

(** C10. A round of the index thread comes to an end when the other threads come to
    rest ([others n c] is empty from some call on), whatever they did to the catalog
    before and whichever statement of the database fails.  Either each part that was
    due was run to its end, in this order: the checks, which are then on, the
    documents and the counters, until the last batch taken out of the queue was
    empty, and the totals, which are then those of the database; the parts that
    were not due were left out, and what was done is planned anew.  Or an error came
    up: it is counted, the reader is closed, and the thread pauses, twice as long as
    after the error before, up to a limit. *)
Theorem due_work_outcome quiet s :
  (forall n c, quiet <= n -> others n c = []) -> index_options_ok o = true -> pause_ok o s ->
  exists enough, forall rounds, enough <= rounds ->
    exists s', run_due_work fault clock_at o rounds s = (Ok tt, s') /\ pause_ok o s' /\
      let now := clock_at (questions s) in succeeded fault clock_at o now s s' \/ paused o now s s'.
Proof using.
  intros Hquiet Ho Hp.
  destruct (eventually_enough _ _ _ _ (run_due_work_end (D := shared_drains lim others quiet Hquiet) fault clock_at o s Ho Hp))
    as (enough & Hend).
  exists enough. intros rounds Hr. specialize (Hend rounds Hr). unfold tri in Hend.
  destruct (run_due_work fault clock_at o rounds s) as [[[]|e] s'] eqn:Hrun; [|done].
  exists s'. split; [done|]. by destruct Hend.
Qed.

(** C9. Once started, the index thread runs until it is told to stop and then ends
    in order: no error of the database and no failing assertion ends it before,
    so that [on_fatal] is never called, and its reader is closed.  The other threads
    do to the catalog what they like before they come to rest ([others n c] is empty
    from some call on): while they refill a queue as fast as it is drained, the
    loop over it need not end. *)
Theorem index_thread_survives stop_at quiet N s :
  (forall n c, quiet <= n -> others n c = []) -> index_options_ok o = true -> pause_ok o s ->
  (forall n m, n <= m -> stop_at n = true -> stop_at m = true) -> stop_at N = true ->
  started s = true -> fatal s = false ->
  exists enough, forall rounds, enough <= rounds ->
    exists s', run_index fault clock_at stop_at o rounds s = (Ok tt, s') /\ fatal s' = false /\ reader s' = false.
Proof using.
  intros Hquiet Ho Hp Hset HN Hs Hf.
  destruct (eventually_enough _ _ _ _ (run_index_end (D := shared_drains lim others quiet Hquiet) fault clock_at stop_at o Hset
    s N Ho HN Hp Hs)) as (enough & Hend).
  exists enough. intros rounds Hr. specialize (Hend rounds Hr). unfold tri in Hend.
  destruct (run_index fault clock_at stop_at o rounds s) as [[[]|e] s'] eqn:Hrun; [|done].
  exists s'. split; [done|]. destruct Hend as (H1 & _ & H3). by rewrite H1.
Qed.

(** C8. No document is lost between the catalog and the database.  Flushing the
    documents comes to an end when the other threads come to rest; every torrent that was to be stored, and every one
    whose metadata is in memory, is then in the database, or still queued when a
    statement failed, unless the queue had overflowed; and what was stored before
    still is. *)
Theorem documents_never_lost quiet W s :
  limits_ok lim -> (forall n c, quiet <= n -> others n c = []) ->
  (forall n c, inv lim c -> counts_small c -> index_follows lim c (others n c)) ->
  1 <= batch_size o -> indexer_ok W s ->
  exists enough, forall rounds, enough <= rounds ->
    let '(r, s') := flush_documents fault clock_at o rounds None s in
    let c := contents (ix_catalog s') in
    indexer_ok W s' /\ (forall h, stored (ix_database s) h -> stored (ix_database s') h) /\
    forall h, W h \/ holds c h -> overflown c \/ stored (ix_database s') h \/
      r = Raise SqliteError /\ dict_has h (index_documents c) = true.
Proof using.
  intros Hlim Hquiet Hothers Hsize Hs.
  destruct (flush_documents_end (D := shared_drains lim others quiet Hquiet) fault clock_at o None s) as (enough & r & Hr & Hend).
  exists enough. intros rounds Hle.
  pose proof (tri_flush_documents (L := shared_index_laws lim Hlim others Hothers) fault clock_at o W rounds None Hsize s Hs) as Hsafe.
  assert (flush_documents fault clock_at o rounds None s = r) as Hrun by exact (Hr rounds Hle).
  rewrite Hrun. unfold catalog_of_others in Hrun. unfold tri in Hsafe, Hend. rewrite Hrun in Hsafe.
  clear Hr Hrun. destruct r as [[[]|e] s'].
  - destruct Hsafe as (Hs' & Hk & Hq). split; [exact Hs'|]. split; [exact Hk|]. intros h Hh.
    destruct (do_placed _ _ _ _ _ _ (proj2 Hs') h Hh) as [?|[Hd|[Hin|?]]]; [by left| |by apply elem_of_nil in Hin|by right; left].
    by destruct (Hq eq_refl h).
  - destruct Hsafe as ([->| ->] & Hs' & Hk); [|by destruct Hend].
    split; [exact Hs'|]. split; [exact Hk|]. intros h Hh.
    destruct (do_placed _ _ _ _ _ _ (proj2 Hs') h Hh) as [?|[Hd|[Hin|?]]]; [by left|by right; right|by apply elem_of_nil in Hin|by right; left].
Qed.

(** C11. The checks of new hashes fail open.  When the database answers, the checks
    are on and nothing is noted; when it does not, the first failure is noted and
    checks that have failed for a minute are bypassed, no earlier, so that the
    catalog takes new hashes unchecked.  Checks that were off are switched on again
    only after every statement that asks the database for its totals has been
    answered. *)
Theorem checks_fail_open W s :
  limits_ok lim -> (forall n c, inv lim c -> counts_small c -> index_follows lim c (others n c)) ->
  indexer_ok W s -> (0 <= checked (counts s))%Z ->
  match flush_checks fault clock_at s with
  | (Ok _, s') => indexer_ok W s' /\ checks_bypassed s' = false /\ check_failing_since s' = None /\
      (checks_bypassed s = true -> probe_answered fault s)
  | (Raise e, s') => e = SqliteError /\ indexer_ok W s' /\ fails_open (clock_at (questions s)) s s' /\
      (checks_bypassed s = true -> checks_bypassed s' = true \/ probe_answered fault s)
  end.
Proof using.
  intros Hlim Hothers Hs Hn.
  pose proof (tri_flush_checks (L := shared_index_laws lim Hlim others Hothers) fault clock_at W s (conj Hs Hn)) as Hend.
  pose proof (flush_checks_probes (K := shared_catalog) fault clock_at s) as Hprobe.
  unfold tri in Hend, Hprobe. unfold catalog_of_others in Hprobe. destruct (flush_checks fault clock_at s) as [[[]|e] s'].
  - destruct Hend as ([Hs' _] & _ & Hb & Hf). split; [done|]. split; [done|]. by split.
  - destruct Hend as (He & [Hs' _] & _ & Hf). split; [done|]. split; [done|]. by split.
Qed.
End theorems.

(** ** Examples *)

#[local] Existing Instance ascii_text.

(** A torrent that was checked, fetched and stored: its document waits in the
    queue. *)
Definition example_catalog : catalog :=
  fold_left (fun c k => CatalogTheorems.after default_limits k c)
    [Enable_index_tracking 100 true; Record_hash hash_a SOURCE_ANNOUNCE_PEER (Some peer_a);
     Apply_database_checks [hash_a] []; Next_fetch_candidates 1; Store_metadata metadata_a] new_catalog.

(** Another thread that records a hash before the first call of the index thread,
    as long as the sightings are few. *)
Definition few (c : catalog) : bool :=
  forallb (fun oe : oid * entry => (seen_count oe.2 <? 2 ^ 63) && (announce_count oe.2 <? 2 ^ 63))%Z (map_to_list (heap c)).
Definition example_record : CatalogTheorems.call := Record_hash hash_b SOURCE_GET_PEERS None.
Definition example_others (n : nat) (c : catalog) : list (Z * CatalogTheorems.call) :=
  if decide (n = 0) then
    match CatalogTheorems.run default_limits 7 example_record c with
    | Ok (_, c') => if few c' then [(7%Z, example_record)] else []
    | Raise _ => []
    end
  else [].

Definition example_clock (n : nat) : Z := (Z.of_nat n * 100000)%Z.
Definition failing (n : nat) : bool := n =? 3.

Definition example_indexer : indexer shared_catalog :=
  Indexer (Shared example_catalog 0) example_file (IndexCounts 0 0 0 0 0 None 0) (Timetable 0 0 0 0 0 0) None false false true 0 false.

Lemma few_counts c : few c = true -> counts_small c.
Proof.
  intros Hf x e He. unfold few in Hf. rewrite forallb_forall in Hf. specialize (Hf (x, e)).
  rewrite <-list_elem_of_In, elem_of_map_to_list in Hf. apply andb_true_iff in Hf as [H1 H2]; [|done].
  apply Z.ltb_lt in H1, H2. by split.
Qed.

Lemma example_others_follow n c : inv default_limits c -> counts_small c -> index_follows default_limits c (example_others n c).
Proof.
  intros _ _. unfold example_others. case_decide; [|done].
  destruct (CatalogTheorems.run default_limits 7 example_record c) as [[[] c']|] eqn:Hrun; [|done].
  destruct (few c') eqn:Hf; [|done]. split; [done|]. split; [done|]. split; [done|]. split; [done|].
  intros c2 Hc2. assert (c2 = c') as -> by congruence. split; [by apply few_counts|done].
Qed.

Lemma example_others_rest n c : 1 <= n -> example_others n c = [].
Proof. intros Hn. unfold example_others. case_decide; [lia|done]. Qed.

Definition returns {A} (r : res A) : bool := match r with Ok _ => true | Raise _ => false end.
Lemma reachable_after lim c k : reachable lim c -> allowed c k -> returns (CatalogTheorems.run lim 0 k c) = true ->
  reachable lim (CatalogTheorems.after lim k c).
Proof.
  intros Hc Hk Hr. unfold CatalogTheorems.after. destruct (CatalogTheorems.run lim 0 k c) as [[[] c']|] eqn:Hrun; [|done].
  by apply (reachable_call lim c 0 k c').
Qed.

Lemma example_catalog_inv : inv default_limits example_catalog.
Proof.
  apply reachable_inv; [apply default_limits_ok|]. unfold example_catalog. cbn [fold_left].
  apply reachable_after; [|split; [done|split]|vm_compute; reflexivity].
  - apply reachable_after; [|done|vm_compute; reflexivity].
    apply reachable_after; [|split; [by apply Forall_singleton|done]|vm_compute; reflexivity].
    apply reachable_after; [|done|vm_compute; reflexivity].
    apply reachable_after; [apply reachable_new|done|vm_compute; reflexivity].
  - intros x e [Hg He]. vm_compute in Hg. injection Hg as <-. vm_compute in He. by injection He as <-.
  - intros Hn. vm_compute in Hn. discriminate.
Qed.

(** The torrent is the only entry. *)
Definition example_entry : entry := default (new_entry [] 0) (heap example_catalog !! 0).
Lemma example_heap x e : heap example_catalog !! x = Some e -> x = 0 /\ e = example_entry.
Proof.
  assert (heap example_catalog = {[0 := example_entry]}) as -> by (vm_compute; reflexivity).
  intros [? ?]%lookup_singleton_Some. by split.
Qed.

Lemma example_indexer_ok : indexer_ok default_limits (fun h => h = hash_a) example_indexer.
Proof.
  split.
  { split; [done|done|apply example_empty_ok|done]. }
  assert (info_hash example_entry = hash_a) as Hhash by (vm_compute; reflexivity).
  assert (metadata example_entry = Some metadata_a) as Hmd by (vm_compute; reflexivity).
  change (docs_ok default_limits (fun h => h = hash_a) (stored example_file) true [] example_catalog). split.
  - apply example_catalog_inv.
  - vm_compute. reflexivity.
  - vm_compute. reflexivity.
  - apply few_counts. vm_compute. reflexivity.
  - intros x e m He Hm. destruct (example_heap x e He) as [_ Heq]. clear He. rewrite Heq, Hmd in Hm.
    assert (m = metadata_a) as Hma by congruence. rewrite Hma. vm_compute. repeat split; discriminate.
  - intros x e He Hi. destruct (example_heap x e He) as [_ Heq]. rewrite Heq in Hi. vm_compute in Hi. discriminate Hi.
  - intros h Hh. right; left. assert (h = hash_a) as ->.
    { destruct Hh as [?|(x & e & Hat & _)]; [done|]. rewrite <-Hhash. destruct (example_heap x e (proj2 Hat)) as [_ <-].
      symmetry. exact (at_entry_hash _ _ _ _ _ _ example_catalog_inv Hat). }
    vm_compute. reflexivity.
  - constructor.
  - intros s Hs. apply elem_of_nil in Hs. destruct Hs.
Qed.

Lemma example_clock_stops : forall n m, n <= m -> (40 <=? n) = true -> (40 <=? m) = true.
Proof. intros n m Hle Hn%Nat.leb_le. apply Nat.leb_le. lia. Qed.

Lemma due_work_outcome_witness :
  exists enough, forall rounds, enough <= rounds ->
    exists s', run_due_work (H := shared_index default_limits example_others) failing example_clock default_index_options
      rounds example_indexer = (Ok tt, s') /\ pause_ok default_index_options s' /\
      (succeeded (H := shared_index default_limits example_others) failing example_clock default_index_options 0 example_indexer s' \/ paused default_index_options 0 example_indexer s').
Proof.
  apply (due_work_outcome default_limits example_others failing example_clock default_index_options 1 example_indexer).
  - apply example_others_rest.
  - vm_compute. reflexivity.
  - split; vm_compute; discriminate.
Defined.

Lemma index_thread_survives_witness :
  exists enough, forall rounds, enough <= rounds ->
    exists s', run_index (H := shared_index default_limits example_others) failing example_clock (fun n => 40 <=? n)
      default_index_options rounds example_indexer = (Ok tt, s') /\ fatal s' = false /\ reader s' = false.
Proof.
  apply (index_thread_survives default_limits example_others failing example_clock default_index_options
    (fun n => 40 <=? n) 1 40 example_indexer).
  - apply example_others_rest.
  - vm_compute. reflexivity.
  - split; vm_compute; discriminate.
  - apply example_clock_stops.
  - reflexivity.
  - reflexivity.
  - reflexivity.
Defined.

Lemma documents_never_lost_witness :
  exists enough, forall rounds, enough <= rounds ->
    let '(r, s') := flush_documents (H := shared_index default_limits example_others) failing example_clock
      default_index_options rounds None example_indexer in
    let c := contents (ix_catalog s') in
    overflown c \/ stored (ix_database s') hash_a \/ r = Raise SqliteError /\ dict_has hash_a (index_documents c) = true.
Proof.
  destruct (documents_never_lost default_limits example_others failing example_clock default_index_options 1
    (fun h => h = hash_a) example_indexer default_limits_ok) as (enough & Hend).
  - apply example_others_rest.
  - apply example_others_follow.
  - apply Nat.leb_le. vm_compute. reflexivity.
  - apply example_indexer_ok.
  - exists enough. intros rounds Hle. specialize (Hend rounds Hle). unfold catalog_of_others in Hend.
    destruct (flush_documents _ _ _ _ _ _) as [r s']. destruct Hend as (_ & _ & Hall). apply Hall. left. reflexivity.
Defined.

Lemma checks_fail_open_witness :
  match flush_checks (H := shared_index default_limits example_others) failing example_clock example_indexer with
  | (Ok _, s') => checks_bypassed s' = false
  | (Raise e, s') => e = SqliteError /\ fails_open 0 example_indexer s'
  end.
Proof.
  pose proof (checks_fail_open default_limits example_others failing example_clock (fun h => h = hash_a) example_indexer
    default_limits_ok example_others_follow example_indexer_ok ltac:(vm_compute; discriminate)) as Hend.
  unfold catalog_of_others in Hend.
  destruct (flush_checks failing example_clock example_indexer) as [[u|e] s'].
  - exact (proj1 (proj2 Hend)).
  - exact (conj (proj1 Hend) (proj1 (proj2 (proj2 Hend)))).
Defined.

(** The example, run: the document is in the database, its metadata is no longer in
    memory, and the other thread's hash waits for its check; the statement that
    fails makes the thread pause for a second. *)
Example document_is_written :
  let '(r, s') := flush_documents (H := shared_index default_limits example_others) no_faults example_clock
    default_index_options 5 None example_indexer in
  (r, option_map doc_name (document_of (committed (ix_database s')) (hex hash_a)), upserts (counts s'),
    length (index_documents (contents (ix_catalog s'))), length (fetched (contents (ix_catalog s'))),
    length (needs_check (contents (ix_catalog s')))) = (Ok tt, Some [97%Z], 1%Z, 0, 0, 1).
Proof. vm_compute. reflexivity. Qed.

Example failure_pauses :
  let '(r, s') := run_due_work (H := shared_index default_limits example_others) failing example_clock
    default_index_options 5 example_indexer in
  (r, index_errors (counts s'), wake_at (times s'), backoff (times s'), reader s') = (Ok tt, 1, 1000000, 1000000, false)%Z.
Proof. vm_compute. reflexivity. Qed.
