(* ===== verification/UrlText.v ===== *)
(** Texts in URLs: what [urllib.parse] does with them.  [quote] writes a text in
    the unreserved characters of ASCII, [unquote] reads it back, and [parse_qsl]
    splits a query string.  A text of ASCII characters only is a byte string. *)
From S2P Require Import Prelude PyDict Bencode NodeIdentity AddressText TorrentInfo.

(** A text of ASCII characters. *)
Definition text_of (l : bytes) : list Z := b2z <$> l.

Lemma text_of_app l1 l2 : text_of (l1 ++ l2) = text_of l1 ++ text_of l2.
Proof. apply fmap_app. Qed.
Lemma text_of_cons b l : text_of (b :: l) = b2z b :: text_of l.
Proof. done. Qed.

(** ** Quoting *)

(** Letters, digits and [_.-~], the characters that [quote] never quotes. *)
Definition in_span (lo hi b : byte) : bool := (b2z lo <=? b2z b)%Z && (b2z b <=? b2z hi)%Z.
Definition unreserved (b : byte) : bool :=
  in_span "a"%byte "z"%byte b || in_span "A"%byte "Z"%byte b || in_span "0"%byte "9"%byte b ||
  bool_decide (b ∈ bs "_.-~").

Definition upper_digits : bytes := bs "0123456789ABCDEF".
Definition upper_digit (z : Z) : byte := nth (Z.to_nat z) upper_digits "0"%byte.

(** [%XX], or the character itself. *)
Definition quote_byte (b : byte) : bytes :=
  if unreserved b then [b] else ["%"%byte; upper_digit (b2z b / 16); upper_digit (b2z b mod 16)].
Definition quote_bytes (l : bytes) : bytes := concat (quote_byte <$> l).

(** [urllib.parse.quote(text, safe="")] *)
Definition quote (text : list Z) : res bytes :=
  encoded ← utf8_encode text;
  mret (quote_bytes encoded).

(** The value of a hexadecimal digit of either case. *)
Definition any_hex_value (b : byte) : option Z :=
  match hex_value b with Some v => Some v | None => Z.of_nat <$> find_index b upper_digits end.
Definition unhex_any (hi lo : byte) : option byte :=
  h ← any_hex_value hi; l ← any_hex_value lo; Some (z2b (h * 16 + l)).

(** [unquote_to_bytes]: a percent sign that no two hexadecimal digits follow stands
    for itself. *)
Fixpoint unquote_bytes (l : bytes) : bytes :=
  match l with
  | [] => []
  | c :: l1 =>
      if decide (c = "%"%byte) then
        match l1 with
        | hi :: lo :: l2 =>
            match unhex_any hi lo with Some b => b :: unquote_bytes l2 | None => c :: unquote_bytes l1 end
        | _ => c :: unquote_bytes l1
        end
      else c :: unquote_bytes l1
  end.

(** [urllib.parse.unquote]: each run of ASCII characters is decoded for itself, the
    characters between them stay. *)
Fixpoint unquote_runs (run : bytes) (text : list Z) : list Z :=
  match text with
  | [] => utf8_decode_replace (unquote_bytes run)
  | c :: text =>
      if (c <? 0x80)%Z then unquote_runs (run ++ [z2b c]) text
      else utf8_decode_replace (unquote_bytes run) ++ c :: unquote_runs [] text
  end.
Definition unquote (text : list Z) : list Z := if decide (37%Z ∈ text) then unquote_runs [] text else text.

(** ** Query strings *)

(** [text.split("=", 1)] *)
Fixpoint split_once (c : Z) (text : list Z) : list Z * option (list Z) :=
  match text with
  | [] => ([], None)
  | x :: text =>
      if decide (x = c) then ([], Some text)
      else let '(before, after) := split_once c text in (x :: before, after)
  end.

Definition plus_to_space (text : list Z) : list Z := (fun c => if decide (c = 43%Z) then 32%Z else c) <$> text.

(** [parse_qsl(query_string, keep_blank_values=True)] *)
Definition parse_field (field : list Z) : list Z * list Z :=
  let '(name, value) := split_once 61 field in
  (unquote (plus_to_space name), unquote (plus_to_space (default [] value))).
Definition parse_qsl (query_string : list Z) : list (list Z * list Z) :=
  parse_field <$> filter (fun field => field <> []) (split_on 38%Z query_string).

(** [parse_qs(...).get(name, [default])[0]] *)
Definition first_value (name fallback : list Z) (fields : list (list Z * list Z)) : list Z :=
  default fallback (dict_get name fields).

(** ** Lemmas *)

Lemma unhex_upper b : unhex_any (upper_digit (b2z b / 16)) (upper_digit (b2z b mod 16)) = Some b.
Proof. destruct b; vm_compute; reflexivity. Qed.

Lemma unreserved_not_percent b : unreserved b = true -> b <> "%"%byte.
Proof. by intros Hb ->. Qed.

Lemma unquote_quote_bytes l : unquote_bytes (quote_bytes l) = l.
Proof.
  unfold quote_bytes. induction l as [|b l IH]; [done|]. rewrite fmap_cons. cbn [concat]. unfold quote_byte at 1.
  destruct (unreserved b) eqn:Hb; cbn [app unquote_bytes].
  - rewrite decide_False by (by apply unreserved_not_percent). by rewrite IH.
  - rewrite decide_True by done. by rewrite unhex_upper, IH.
Qed.

(** What [quote] writes: unreserved characters and percent signs. *)
Definition url_safe (b : byte) : bool := unreserved b || bool_decide (b = "%"%byte).

Lemma quote_byte_safe b : forallb url_safe (quote_byte b) = true.
Proof. destruct b; vm_compute; reflexivity. Qed.

Lemma quote_bytes_safe l : Forall (fun b => url_safe b = true) (quote_bytes l).
Proof.
  unfold quote_bytes. induction l as [|b l IH]; [constructor|]. rewrite fmap_cons. cbn [concat]. apply Forall_app.
  split; [|exact IH]. apply Forall_forall. intros x Hx. pose proof (quote_byte_safe b) as Hb. rewrite forallb_forall in Hb.
  by apply Hb, list_elem_of_In.
Qed.

Lemma safe_ascii b : url_safe b = true -> (b2z b <? 0x80)%Z = true.
Proof. destruct b; vm_compute; congruence. Qed.

Lemma unquote_runs_ascii l : forall run, Forall (fun b => (b2z b <? 0x80)%Z = true) l ->
  unquote_runs run (text_of l) = utf8_decode_replace (unquote_bytes (run ++ l)).
Proof.
  induction l as [|b l IH]; intros run Hl; [by rewrite app_nil_r|]. apply Forall_cons in Hl as [Hb Hl].
  rewrite text_of_cons. cbn [unquote_runs]. rewrite Hb, z2b_b2z, IH by done. by rewrite <-app_assoc.
Qed.

Lemma decode_ascii l : Forall (fun b => (b2z b <? 0x80)%Z = true) l -> utf8_decode_replace l = text_of l.
Proof. induction 1 as [|b l Hb _ IH]; [done|]. cbn [utf8_decode_replace]. rewrite Hb, text_of_cons. by rewrite IH. Qed.

Lemma unquote_bytes_none l : "%"%byte ∉ l -> unquote_bytes l = l.
Proof.
  induction l as [|b l IH]; [done|]. rewrite not_elem_of_cons. intros [Hb Hl]. cbn [unquote_bytes].
  rewrite decide_False by congruence. by rewrite IH.
Qed.

Lemma unquote_ascii l : Forall (fun b => (b2z b <? 0x80)%Z = true) l ->
  unquote (text_of l) = utf8_decode_replace (unquote_bytes l).
Proof.
  intros Hl. unfold unquote. case_decide as Hp; [by apply (unquote_runs_ascii l [])|].
  rewrite unquote_bytes_none; [by rewrite decode_ascii|]. intros Hin. apply Hp.
  change 37%Z with (b2z "%"%byte). unfold text_of. by apply list_elem_of_fmap_2.
Qed.

(** Quoting and reading back. *)
Lemma unquote_quote text : Forall is_scalar text -> exists quoted, quote text = Ok quoted /\
  unquote (text_of quoted) = text /\ Forall (fun b => url_safe b = true) quoted.
Proof.
  intros Htext. destruct (utf8_decode_encode text Htext) as (b & Hb & Hd). exists (quote_bytes b).
  split; [unfold quote; by rewrite Hb|]. split; [|apply quote_bytes_safe].
  rewrite unquote_ascii, unquote_quote_bytes.
  - by injection Hd.
  - eapply Forall_impl; [apply quote_bytes_safe|]. exact safe_ascii.
Qed.

(** A field as it is written, and read. *)
Lemma read_field (name : bytes) quoted text :
  61%Z ∉ text_of name -> unquote (plus_to_space (text_of name)) = text_of name ->
  Forall (fun b => url_safe b = true) quoted -> unquote (text_of quoted) = text ->
  parse_field (text_of (name ++ "="%byte :: quoted)) = (text_of name, text).
Proof.
  intros Hname Hkeep Hsafe Htext. unfold parse_field. rewrite text_of_app, text_of_cons.
  assert (forall l rest, 61%Z ∉ l -> split_once 61 (l ++ 61%Z :: rest) = (l, Some rest)) as Hsplit.
  { intros l rest. induction l as [|c l IH]; cbn [app split_once]; [by rewrite decide_True|].
    rewrite not_elem_of_cons. intros [Hc Hl]. rewrite decide_False by congruence. by rewrite IH. }
  change (b2z "="%byte) with 61%Z. rewrite Hsplit by done. cbn [default]. rewrite Hkeep. f_equal.
  assert (plus_to_space (text_of quoted) = text_of quoted) as Hplus; [|unfold id; by rewrite Hplus, Htext].
  unfold plus_to_space. clear Htext. induction Hsafe as [|b l Hb _ IH]; [done|]. rewrite text_of_cons, !fmap_cons. f_equal; [|exact IH].
  rewrite decide_False; [done|]. revert Hb. destruct b; vm_compute; congruence.
Qed.

Lemma unquote_none (l : bytes) : Forall (fun b => b <> "%"%byte) l -> unquote (text_of l) = text_of l.
Proof.
  intros Hl. unfold unquote. rewrite decide_False; [done|]. intros (b & Hb & Hin)%list_elem_of_fmap. rewrite Forall_forall in Hl.
  apply (Hl b Hin). apply b2z_inj. by rewrite <-Hb.
Qed.

(** Names of unreserved characters stand for themselves. *)
Lemma read_plain_field (name quoted : bytes) :
  Forall (fun b => unreserved b = true) name -> Forall (fun b => url_safe b = true) quoted ->
  parse_field (text_of (name ++ "="%byte :: quoted)) = (text_of name, unquote (text_of quoted)).
Proof.
  intros Hname Hquoted.
  assert (forall c, c ∈ [37; 38; 43; 61]%Z -> c ∉ text_of name) as Hnot.
  { intros c Hc (b & -> & Hb)%list_elem_of_fmap. rewrite Forall_forall in Hname. specialize (Hname b Hb). revert Hname Hc. clear.
    destruct b; vm_compute; try congruence; intros _; intros Hc; repeat (apply elem_of_cons in Hc as [?|Hc]; [discriminate|]);
    by apply elem_of_nil in Hc. }
  apply read_field; [apply Hnot; set_solver| |done|done].
  assert (plus_to_space (text_of name) = text_of name) as ->.
  { assert (43%Z ∉ text_of name) as Hplus by (apply Hnot; set_solver). revert Hplus. generalize (text_of name). clear. intros l Hl.
    unfold plus_to_space. induction l as [|c l IH]; [done|]. apply not_elem_of_cons in Hl as [Hc Hl]. rewrite fmap_cons, decide_False by done.
    by rewrite IH. }
  unfold unquote. rewrite decide_False; [done|]. apply Hnot. set_solver.
Qed.
