(* ===== verification/UrlSplit.v ===== *)
(** [urllib.parse.urlsplit], which [do_GET] calls on the target of a request: the
    path and the query string, or a [ValueError].  What [ipaddress.ip_address]
    makes of a host and the normal form NFKC of a text are parameters. *)
From S2P Require Import Prelude PyDict Bencode NodeIdentity AddressText TorrentInfo UrlText.

(** The characters that the splitting looks for. *)
Definition C_AT : Z := 64.
Definition C_COLON : Z := 58.
Definition C_DOT : Z := 46.
Definition C_HASH : Z := 35.
Definition C_QUESTION : Z := 63.
Definition C_SLASH : Z := 47.
Definition C_OPEN : Z := 91.
Definition C_CLOSE : Z := 93.
Definition C_LOWER_V : Z := 118.

(** [_UNSAFE_URL_BYTES_TO_REMOVE] *)
Definition unsafe_char (c : Z) : bool := bool_decide (c ∈ [9; 13; 10]%Z).

Definition ascii_letter (c : Z) : bool := (((97 <=? c) && (c <=? 122)) || ((65 <=? c) && (c <=? 90)))%Z.
Definition ascii_digit (c : Z) : bool := ((48 <=? c) && (c <=? 57))%Z.
(** [scheme_chars] *)
Definition scheme_char (c : Z) : bool := ascii_letter c || ascii_digit c || bool_decide (c ∈ [43; 45; 46]%Z).
Definition hex_char (c : Z) : bool := ascii_digit c || (((97 <=? c) && (c <=? 102)) || ((65 <=? c) && (c <=? 70)))%Z.

(** [url.lstrip(_WHATWG_C0_CONTROL_OR_SPACE)] *)
Fixpoint lstrip_controls (url : list Z) : list Z :=
  match url with [] => [] | c :: url' => if ((0 <=? c) && (c <=? 32))%Z then lstrip_controls url' else url end.

(** What follows the scheme, if there is one. *)
Definition without_scheme (url : list Z) : list Z :=
  match split_once C_COLON url with
  | (c :: scheme, Some rest) => if ascii_letter c && forallb scheme_char (c :: scheme) then rest else url
  | _ => url
  end.

(** [_splitnetloc(url, 2)] of what follows the two slashes. *)
Fixpoint splitnetloc (url : list Z) : list Z * list Z :=
  match url with
  | [] => ([], [])
  | c :: url' =>
      if bool_decide (c ∈ [C_SLASH; C_QUESTION; C_HASH]) then ([], url)
      else let '(netloc, rest) := splitnetloc url' in (c :: netloc, rest)
  end.

Section urlsplit.
(** The version of the address that a text denotes; NFKC. *)
Context (ip_version : list Z -> option Z) (nfkc : list Z -> list Z).

Definition check_bracketed_host (hostname : list Z) : res unit :=
  match hostname with
  | c :: future =>
      if decide (c = C_LOWER_V) then
        let '(version, address) := split_once C_DOT future in
        raise_if (bool_decide (version = []) || negb (forallb hex_char version) || bool_decide (default [] address = []))
          (ValueError "IPvFuture address is invalid")
      else raise_if (negb (bool_decide (ip_version hostname = Some 6%Z))) (ValueError "not an IPv6 address")
  | [] => raise_if (negb (bool_decide (ip_version [] = Some 6%Z))) (ValueError "not an IPv6 address")
  end.

Definition check_bracketed_netloc (netloc : list Z) : res unit :=
  (** [netloc.rpartition("@")[2]] *)
  let hostname_and_port := reverse (split_once C_AT (reverse netloc)).1 in
  match split_once C_OPEN hostname_and_port with
  | (before_bracket, Some bracketed) =>
      raise_if (negb (bool_decide (before_bracket = []))) (ValueError "Invalid IPv6 URL") ;;
      let '(hostname, port) := split_once C_CLOSE bracketed in
      raise_if (match port with Some (c :: _) => negb (c =? C_COLON)%Z | _ => false end) (ValueError "Invalid IPv6 URL") ;;
      check_bracketed_host hostname
  | (_, None) => check_bracketed_host (split_once C_COLON hostname_and_port).1
  end.

Definition checknetloc (netloc : list Z) : res unit :=
  if forallb (fun c => (c <? 128)%Z) netloc then mret tt else
  let n := filter (fun c => c ∉ [C_AT; C_COLON; C_HASH; C_QUESTION]) netloc in
  let netloc2 := nfkc n in
  raise_if (negb (bool_decide (n = netloc2)) && existsb (fun c => bool_decide (c ∈ netloc2)) [C_SLASH; C_QUESTION; C_HASH; C_AT; C_COLON])
    (ValueError "netloc contains invalid characters under NFKC normalization").

(** The path and the query string. *)
Definition urlsplit (url : list Z) : res (list Z * list Z) :=
  let url := without_scheme (filter (fun c => unsafe_char c = false) (lstrip_controls url)) in
  parts ← (match url with
    | c :: d :: rest =>
        if decide (c = C_SLASH /\ d = C_SLASH) then
          let '(netloc, url) := splitnetloc rest in
          let opened := bool_decide (C_OPEN ∈ netloc) in
          let closed := bool_decide (C_CLOSE ∈ netloc) in
          raise_if (xorb opened closed) (ValueError "Invalid IPv6 URL") ;;
          (if opened && closed then check_bracketed_netloc netloc else mret tt) ;;
          mret (netloc, url)
        else mret ([], url)
    | _ => mret ([], url)
    end);
  let '(netloc, url) := parts in
  let url := (split_once C_HASH url).1 in
  let '(path, query) := split_once C_QUESTION url in
  checknetloc netloc ;;
  mret (path, default [] query).

Lemma raise_if_value (c : bool) r (x : res unit) :
  (forall e, x = Raise e -> exists r, e = ValueError r) -> forall e, (raise_if c (ValueError r) ;; x) = Raise e -> exists r, e = ValueError r.
Proof using. intros Hx e. destruct c; [intros [= <-]; by eexists|apply Hx]. Qed.

Lemma bracketed_host_raises hostname e : check_bracketed_host hostname = Raise e -> exists r, e = ValueError r.
Proof using.
  unfold check_bracketed_host, raise_if. destruct hostname as [|c future]; [|case_decide; [destruct (split_once C_DOT future) as [version address]|]].
  all: destruct (_ : bool); intros [= <-]; by eexists.
Qed.

Lemma bracketed_raises netloc e : check_bracketed_netloc netloc = Raise e -> exists r, e = ValueError r.
Proof using.
  unfold check_bracketed_netloc. destruct (split_once C_OPEN _) as [before [bracketed|]]; [|apply bracketed_host_raises].
  apply raise_if_value. intros e'. destruct (split_once C_CLOSE bracketed) as [hostname port]. apply raise_if_value, bracketed_host_raises.
Qed.

Lemma checknetloc_raises netloc e : checknetloc netloc = Raise e -> exists r, e = ValueError r.
Proof using. unfold checknetloc, raise_if. destruct (forallb _ _); [done|]. cbv zeta. destruct (_ && _); intros [= <-]. by eexists. Qed.

(** What cannot be split is a [ValueError]. *)
Lemma urlsplit_raises url e : urlsplit url = Raise e -> exists r, e = ValueError r.
Proof using.
  unfold urlsplit. set (rest := without_scheme _).
  assert (forall (parts : res (list Z * list Z)), (forall e, parts = Raise e -> exists r, e = ValueError r) ->
    forall e, (parts ≫= fun '(netloc, url) => let '(path, query) := split_once C_QUESTION (split_once C_HASH url).1 in
      checknetloc netloc ;; mret (path, default [] query)) = Raise e -> exists r, e = ValueError r) as Hend.
  { intros [[netloc url']|e'] Hparts e2; cbn [mbind res_bind]; [|by intros [= <-]; apply Hparts].
    destruct (split_once C_QUESTION _) as [path query]. pose proof (checknetloc_raises netloc) as Hcheck.
    destruct (checknetloc netloc) as [[]|e']; [done|]. cbn. intros [= <-]. by apply Hcheck. }
  apply Hend. clear e. destruct rest as [|c [|d rest]]; [done..|]. case_decide; [|done]. destruct (splitnetloc rest) as [netloc url'].
  intros e. unfold raise_if. destruct (xorb _ _); [intros [= <-]; by eexists|]. cbn [mbind res_bind].
  destruct (_ && _); [|done]. pose proof (bracketed_raises netloc) as Hb. destruct (check_bracketed_netloc netloc) as [[]|e']; [done|].
  cbn. intros [= <-]. by apply Hb.
Qed.

(** A target that names a path of this server: it starts with one slash. *)
Definition origin_form (target : list Z) : bool :=
  match target with
  | c :: rest => (c =? C_SLASH)%Z && negb (bool_decide (head rest = Some C_SLASH)) && forallb (fun c => negb (unsafe_char c)) rest
  | [] => false
  end.

(** It is split at the first question mark, before the fragment if there is one. *)
Lemma urlsplit_origin target : origin_form target = true ->
  urlsplit target = Ok (let '(path, query) := split_once C_QUESTION (split_once C_HASH target).1 in (path, default [] query)).
Proof using.
  destruct target as [|c rest]; [done|]. unfold origin_form. rewrite !andb_true_iff. intros [[->%Z.eqb_eq Hhead] Hrest].
  apply negb_true_iff, bool_decide_eq_false in Hhead. unfold urlsplit.
  assert (filter (fun c => unsafe_char c = false) (lstrip_controls (C_SLASH :: rest)) = C_SLASH :: rest) as ->.
  { change (lstrip_controls (C_SLASH :: rest)) with (C_SLASH :: rest). rewrite filter_cons, decide_True by done. f_equal.
    apply filter_all. intros x Hx. rewrite forallb_forall in Hrest. by apply negb_true_iff, Hrest, list_elem_of_In. }
  assert (without_scheme (C_SLASH :: rest) = C_SLASH :: rest) as ->.
  { unfold without_scheme. cbn [split_once]. rewrite decide_False by done. destruct (split_once C_COLON rest) as [before [after|]]; done. }
  destruct rest as [|d rest].
  - done.
  - rewrite decide_False by (intros [_ ->]; by apply Hhead). cbn [mbind res_bind mret res_ret].
    destruct (split_once C_QUESTION _) as [path query]. done.
Qed.
End urlsplit.

(** ** Examples *)

Definition split_ascii (url : bytes) : option (bytes * bytes) :=
  let ip_version host := if decide (host = text_of (bs "::1")) then Some 6%Z else if decide (host = text_of (bs "1.2.3.4")) then Some 4%Z else None in
  match urlsplit ip_version id (text_of url) with Ok (path, query) => Some (z2b <$> path, z2b <$> query) | Raise _ => None end.

Example targets_are_split :
  split_ascii (bs "/api/search?q=a?b#c") = Some (bs "/api/search", bs "q=a?b") /\
  split_ascii (bs "HTTP://host:80/api/stats?x") = Some (bs "/api/stats", bs "x") /\
  split_ascii (bs "1a:b") = Some (bs "1a:b", []) /\
  split_ascii (bs "a:b?c") = Some (bs "b", bs "c") /\
  split_ascii (bs "http://[::1]/x?y#z") = Some (bs "/x", bs "y") /\
  split_ascii (bs "http://a@[v1.x]:80/") = Some (bs "/", []) /\
  split_ascii (bs "#f?x") = Some ([], []) /\
  split_ascii (bs "http://[") = None /\ split_ascii (bs "//a]b/c") = None /\
  split_ascii (bs "http://[a]b/") = None /\ split_ascii (bs "http://[1.2.3.4]/") = None.
Proof. vm_compute. repeat split; reflexivity. Qed.
