(* ===== verification/MagnetLink.v ===== *)
(** Magnet links ([magnet_link.py]). *)
From S2P Require Import Prelude PyDict Bencode NodeIdentity AddressText TorrentInfo UrlText.

Definition MAGNET_PREFIX : bytes := bs "magnet:?xt=urn:btih:".

Definition MAGNET_TRACKERS : list bytes := bs <$> [
  "udp://93.158.213.92:1337/announce"; "udp://151.242.104.187:80/announce"; "udp://91.216.110.53:451/announce";
  "udp://185.121.168.96:1337/announce"; "udp://43.250.54.126:6969/announce"; "udp://34.66.57.33:80/announce";
  "udp://34.66.57.33:1337/announce"; "udp://109.201.134.183:80/announce"; "udp://45.137.199.107:6969/announce";
  "udp://135.125.198.235:1984/announce"; "udp://211.75.210.221:80/announce"; "udp://209.141.59.25:6969/announce";
  "udp://211.75.210.221:6969/announce"; "http://211.75.210.221:6969/announce"; "udp://83.102.180.21:80/announce";
  "udp://31.56.179.159:6969/announce"; "udp://65.109.28.17:6969/announce"; "udp://95.217.80.20:6969/announce";
  "udp://95.217.80.22:6969/announce"; "udp://65.109.28.33:6969/announce"]%string.

(** [text.startswith(prefix)] *)
Definition starts_with (prefix text : bytes) : bool := bool_decide (take (length prefix) text = prefix).

(** [text.count(part)]: occurrences that do not overlap; [skip] characters belong to
    the last one. *)
Fixpoint count_from (part : bytes) (skip : nat) (text : bytes) : nat :=
  match text with
  | [] => 0
  | _ :: rest =>
      match skip with
      | S skip => count_from part skip rest
      | O => if starts_with part text then S (count_from part (length part - 1) rest) else count_from part 0 rest
      end
  end.
Definition count_text (part text : bytes) : nat := count_from part 0 text.

Definition tracker_field (tracker : bytes) : res bytes :=
  quoted ← quote (text_of tracker);
  mret (bs "&tr=" ++ quoted).

Definition build_magnet_link (info_hash : bytes) (name : list Z) : res bytes :=
  assert_ (bool_decide (length info_hash = NODE_ID_LENGTH)) ;;
  display ← (if bool_decide (name = []) then mret [] else quoted ← quote name; mret (bs "&dn=" ++ quoted));
  trackers ← sequence (tracker_field <$> MAGNET_TRACKERS);
  let result := MAGNET_PREFIX ++ hex info_hash ++ display ++ concat trackers in
  assert_ (starts_with MAGNET_PREFIX result && bool_decide (length MAGNET_PREFIX + NODE_ID_LENGTH * 2 <= length result)) ;;
  assert_ (bool_decide (count_text (bs "&tr=") result = length MAGNET_TRACKERS)) ;;
  mret result.

(** ** What a client reads *)

(** The info hash, the display name and the trackers of a link: the fields after
    the first are read as those of a query string. *)
Definition read_magnet_link (link : bytes) : option (bytes * option (list Z) * list (list Z)) :=
  match split_on 38%Z (text_of link) with
  | [] => None
  | first :: fields =>
      if bool_decide (take (length MAGNET_PREFIX) first = text_of MAGNET_PREFIX) then
        info_hash ← fromhex (z2b <$> drop (length MAGNET_PREFIX) first);
        let values name := (filter (fun f => f.1 = text_of (bs name)) (parse_field <$> fields)).*2 in
        Some (info_hash, head (values "dn"%string), values "tr"%string)
      else None
  end.

(** ** Lemmas *)

Lemma split_on_fields {A} `{EqDecision A} (c : A) first fields : c ∉ first -> Forall (fun f => c ∉ f) fields ->
  split_on c (first ++ concat (cons c <$> fields)) = first :: fields.
Proof.
  intros Hfirst Hall. revert first Hfirst. induction Hall as [|f fields Hf _ IH]; intros first Hfirst.
  - cbn. rewrite app_nil_r. by apply split_on_notin.
  - rewrite fmap_cons. cbn [concat app]. rewrite split_on_app by done. by rewrite IH.
Qed.

(** No character of [l] starts a field. *)
Definition within_field (l : bytes) : Prop := Forall (fun b => b <> "&"%byte) l.

Lemma safe_within l : Forall (fun b => url_safe b = true) l -> within_field l.
Proof. intros Hl. eapply Forall_impl; [exact Hl|]. by intros b Hb ->. Qed.

Lemma count_within l rest : within_field l -> count_text (bs "&tr=") (l ++ rest) = count_text (bs "&tr=") rest.
Proof.
  unfold count_text. induction 1 as [|b l Hb _ IH]; [done|]. cbn [app count_from]. unfold starts_with.
  rewrite bool_decide_eq_false_2; [done|]. cbn. congruence.
Qed.

Lemma count_trackers qs : Forall within_field qs ->
  count_text (bs "&tr=") (concat ((fun q => bs "&tr=" ++ q) <$> qs)) = length qs.
Proof.
  induction 1 as [|q qs Hq _ IH]; [done|]. rewrite fmap_cons. cbn [concat]. rewrite <-app_assoc.
  unfold count_text at 1. cbn. f_equal. change (count_text (bs "&tr=") (q ++ concat ((fun q => bs "&tr=" ++ q) <$> qs)) = length qs).
  by rewrite count_within.
Qed.

Lemma hex_safe l : Forall (fun b => url_safe b = true) (hex l).
Proof.
  unfold hex. induction l as [|b l IH]; [constructor|]. rewrite fmap_cons. cbn [concat]. apply Forall_app. split; [|exact IH].
  assert (forallb url_safe (hex_byte b) = true) as Hb by (destruct b; vm_compute; reflexivity).
  apply Forall_forall. intros x Hx. rewrite forallb_forall in Hb. by apply Hb, list_elem_of_In.
Qed.

Lemma quoted_trackers : exists qs, sequence (tracker_field <$> MAGNET_TRACKERS) = Ok ((fun q => bs "&tr=" ++ q) <$> qs) /\
  Forall2 (fun t q => unquote (text_of q) = text_of t /\ Forall (fun b => url_safe b = true) q) MAGNET_TRACKERS qs.
Proof.
  assert (Forall (fun t : bytes => Forall is_scalar (text_of t)) MAGNET_TRACKERS) as Hall.
  { assert (forallb (forallb (fun b => (b2z b <? 128)%Z)) MAGNET_TRACKERS = true) as Hc by (vm_compute; reflexivity).
    apply Forall_forall. intros t Ht. rewrite forallb_forall in Hc. specialize (Hc t). rewrite <-list_elem_of_In in Hc.
    specialize (Hc Ht). apply Forall_fmap, Forall_forall. intros b Hb. rewrite forallb_forall in Hc.
    specialize (Hc b). rewrite <-list_elem_of_In in Hc. specialize (Hc Hb). pose proof (b2z_range b). cbn.
    split; [lia|]. unfold is_surrogate. apply andb_false_iff. left. apply Z.leb_gt. lia. }
  induction Hall as [|t ts Ht _ (qs & Hqs & Hfor)]; [exists []; by split|].
  destruct (unquote_quote _ Ht) as (q & Hq & Hu & Hs). exists (q :: qs). rewrite !fmap_cons. split; [|by constructor].
  cbn [sequence]. unfold tracker_field at 1. rewrite Hq. cbn [mbind res_bind mret res_ret]. by rewrite Hqs.
Qed.

(** ** The link *)

(** The fields after the first. *)
Definition link_fields (name : list Z) (display : bytes) (trackers : list bytes) : list bytes :=
  (if bool_decide (name = []) then [] else [bs "dn=" ++ display]) ++ ((fun q => bs "tr=" ++ q) <$> trackers).

Lemma build_magnet_link_fields info_hash name q qs :
  length info_hash = NODE_ID_LENGTH -> quote name = Ok q -> Forall (fun b => url_safe b = true) q ->
  sequence (tracker_field <$> MAGNET_TRACKERS) = Ok ((fun q => bs "&tr=" ++ q) <$> qs) ->
  length qs = length MAGNET_TRACKERS -> Forall within_field qs ->
  build_magnet_link info_hash name =
    Ok (MAGNET_PREFIX ++ hex info_hash ++ concat (cons "&"%byte <$> link_fields name q qs)).
Proof.
  intros Hlen Hq Hsafe Hqs Hn Hwithin. set (display := if bool_decide (name = []) then [] else bs "&dn=" ++ q).
  assert (concat (cons "&"%byte <$> link_fields name q qs) = display ++ concat ((fun q => bs "&tr=" ++ q) <$> qs)) as ->.
  { unfold link_fields, display. rewrite fmap_app, concat_app. f_equal.
    - case_bool_decide; [done|]. cbn. by rewrite app_nil_r.
    - f_equal. by rewrite <-list_fmap_compose. }
  set (result := MAGNET_PREFIX ++ hex info_hash ++ display ++ concat ((fun q => bs "&tr=" ++ q) <$> qs)).
  assert (starts_with MAGNET_PREFIX result = true) as Hstart.
  { apply bool_decide_eq_true. unfold result. by rewrite take_app_length. }
  assert (length MAGNET_PREFIX + NODE_ID_LENGTH * 2 <= length result) as Hlong.
  { unfold result. rewrite !length_app, length_hex, Hlen. lia. }
  assert (count_text (bs "&tr=") result = length MAGNET_TRACKERS) as Hcount.
  { unfold result. rewrite <-Hn, <-(count_trackers qs Hwithin). rewrite count_within by (by repeat constructor).
    rewrite count_within by apply safe_within, hex_safe. unfold display. case_bool_decide; [done|].
    rewrite <-app_assoc. change (bs "&dn=") with ([ "&"%byte ] ++ bs "dn="). rewrite <-app_assoc.
    unfold count_text at 1. cbn [app count_from]. unfold starts_with at 1. rewrite bool_decide_eq_false_2 by done.
    change (count_text (bs "&tr=") (bs "dn=" ++ q ++ concat ((fun q => bs "&tr=" ++ q) <$> qs)) =
      count_text (bs "&tr=") (concat ((fun q => bs "&tr=" ++ q) <$> qs))).
    rewrite count_within by (by repeat constructor). by rewrite count_within by (by apply safe_within). }
  unfold build_magnet_link. rewrite (bool_decide_eq_true_2 _ Hlen). cbn [assert_ raise_if mbind res_bind negb].
  assert ((if bool_decide (name = []) then mret [] else quoted ← quote name; mret (bs "&dn=" ++ quoted)) = Ok display) as ->.
  { unfold display. case_bool_decide; [done|]. by rewrite Hq. }
  cbn [mbind res_bind]. rewrite Hqs. cbn [mbind res_bind]. fold result. rewrite Hstart, Hcount.
  by rewrite (bool_decide_eq_true_2 _ Hlong), bool_decide_eq_true_2.
Qed.

Lemma text_not_in (c : Z) (l : bytes) : (forall b, b ∈ l -> b2z b <> c) -> c ∉ text_of l.
Proof. intros Hl Hin. apply list_elem_of_fmap in Hin as (b & -> & Hb). by apply (Hl b). Qed.

(** A client's view of the fields. *)
Lemma read_fields info_hash name q qs :
  Forall (fun b => url_safe b = true) q -> unquote (text_of q) = name ->
  Forall2 (fun t q => unquote (text_of q) = text_of t /\ Forall (fun b => url_safe b = true) q) MAGNET_TRACKERS qs ->
  read_magnet_link (MAGNET_PREFIX ++ hex info_hash ++ concat (cons "&"%byte <$> link_fields name q qs)) =
    Some (info_hash, if bool_decide (name = []) then None else Some name, text_of <$> MAGNET_TRACKERS).
Proof.
  intros Hsafe Hname Hall. set (first := text_of (MAGNET_PREFIX ++ hex info_hash)).
  set (fields := (fun f : bytes => text_of f) <$> link_fields name q qs).
  assert (text_of (MAGNET_PREFIX ++ hex info_hash ++ concat (cons "&"%byte <$> link_fields name q qs)) =
    first ++ concat (cons 38%Z <$> fields)) as Hlink.
  { unfold first, fields. rewrite app_assoc, text_of_app. f_equal. induction (link_fields name q qs) as [|f fs IH]; [done|].
    rewrite !fmap_cons. cbn [concat]. by rewrite text_of_app, IH. }
  assert (forall l, Forall (fun b => url_safe b = true) l -> 38%Z ∉ text_of l) as Hnot.
  { intros l Hl. apply text_not_in. intros b Hb. rewrite Forall_forall in Hl. specialize (Hl b Hb). revert Hl.
    destruct b; vm_compute; congruence. }
  assert (forall (x y : Z) l, x <> 38%Z -> y <> 38%Z -> Forall (fun b => url_safe b = true) l ->
    38%Z ∉ x :: y :: 61%Z :: text_of l) as Hfield.
  { intros x y l Hx Hy Hl. rewrite !not_elem_of_cons. split; [congruence|]. split; [congruence|]. split; [done|by apply Hnot]. }
  assert (Forall (fun f : list Z => 38%Z ∉ f) fields) as Hfields.
  { unfold fields, link_fields. apply Forall_fmap, Forall_app. split.
    - case_bool_decide; [constructor|]. apply Forall_singleton. by apply (Hfield 100%Z 110%Z q).
    - apply Forall_fmap. clear -Hall Hfield. induction Hall as [|t q ts qs [_ Hq] _ IH]; constructor; [|exact IH].
      by apply (Hfield 116%Z 114%Z q). }
  assert (38%Z ∉ first) as Hfirst.
  { unfold first. rewrite text_of_app, not_elem_of_app. split; [|apply Hnot, hex_safe]. apply text_not_in. intros b Hb. vm_compute in Hb.
    repeat (apply elem_of_cons in Hb as [->|Hb]; [done|]). by apply elem_of_nil in Hb. }
  assert (take (length MAGNET_PREFIX) first = text_of MAGNET_PREFIX) as Htake by (unfold first; by rewrite text_of_app, take_app_length').
  assert (fromhex (z2b <$> drop (length MAGNET_PREFIX) first) = Some info_hash) as Hhash.
  { unfold first. rewrite text_of_app, drop_app_length' by done. unfold text_of. rewrite <-list_fmap_compose.
    rewrite (list_fmap_ext _ id); [rewrite list_fmap_id; apply fromhex_hex|]. intros i b _. apply z2b_b2z. }
  unfold read_magnet_link. rewrite Hlink, split_on_fields by done.
  rewrite (bool_decide_eq_true_2 _ Htake), Hhash. cbn [mbind option_bind].
  assert (parse_field <$> fields = (if bool_decide (name = []) then [] else [(text_of (bs "dn"), name)]) ++
    ((fun t => (text_of (bs "tr"), text_of t)) <$> MAGNET_TRACKERS)) as ->.
  { unfold fields, link_fields. rewrite !fmap_app. f_equal.
    - case_bool_decide; [done|]. rewrite !list_fmap_singleton. f_equal. refine (read_field (bs "dn") q name _ _ Hsafe Hname); [|done]. by apply text_not_in; intros b [->|[->|[]%elem_of_nil]%elem_of_cons]%elem_of_cons.
    - rewrite <-!list_fmap_compose. clear -Hall. induction Hall as [|t q ts qs [Ht Hq] _ IH]; [done|].
      rewrite !fmap_cons, IH. f_equal. refine (read_field (bs "tr") q _ _ _ Hq Ht); [|done]. by apply text_not_in; intros b [->|[->|[]%elem_of_nil]%elem_of_cons]%elem_of_cons. }
  rewrite !filter_app, !fmap_app.
  assert (forall n v (ts : list bytes), filter (fun f : list Z * list Z => f.1 = n) ((fun t => (v, text_of t)) <$> ts) =
    if decide (v = n) then (fun t => (v, text_of t)) <$> ts else []) as Htr.
  { intros n v ts. induction ts as [|t ts IH]; [by case_decide|]. rewrite !fmap_cons, filter_cons, IH. cbn [fst].
    by case_decide. }
  rewrite !Htr. do 2 f_equal; [f_equal|].
  - case_bool_decide; [done|]. done.
  - case_bool_decide; cbn; done.
Qed.

(** The characters of a link. *)
Lemma link_characters info_hash name q qs :
  Forall (fun b => url_safe b = true) q -> Forall (fun q => Forall (fun b => url_safe b = true) q) qs ->
  Forall (fun b => url_safe b = true \/ b ∈ bs ":?=&")
    (MAGNET_PREFIX ++ hex info_hash ++ concat (cons "&"%byte <$> link_fields name q qs)).
Proof.
  intros Hq Hqs. assert (forall l, Forall (fun b => url_safe b = true) l ->
    Forall (fun b => url_safe b = true \/ b ∈ bs ":?=&") l) as Hsafe by (intros l Hl; eapply Forall_impl; [exact Hl|by left]).
  assert (forall l : bytes, forallb (fun b => url_safe b || bool_decide (b ∈ bs ":?=&")) l = true ->
    Forall (fun b => url_safe b = true \/ b ∈ bs ":?=&") l) as Hconst.
  { intros l Hl. apply Forall_forall. intros b Hb. rewrite forallb_forall in Hl. specialize (Hl b). rewrite <-list_elem_of_In in Hl.
    specialize (Hl Hb). apply orb_true_iff in Hl as [?|?%bool_decide_eq_true]; auto. }
  apply Forall_app. split; [by apply Hconst|]. apply Forall_app. split; [apply Hsafe, hex_safe|].
  unfold link_fields. rewrite fmap_app, concat_app. apply Forall_app. split.
  - case_bool_decide; [constructor|]. cbn. rewrite app_nil_r.
    change (Forall (fun b => url_safe b = true \/ b ∈ bs ":?=&") (bs "&dn=" ++ q)). apply Forall_app. split; [by apply Hconst|by apply Hsafe].
  - induction Hqs as [|p qs Hp _ IH]; [constructor|]. rewrite !fmap_cons. cbn [concat]. apply Forall_app. split; [|exact IH].
    change (Forall (fun b => url_safe b = true \/ b ∈ bs ":?=&") (bs "&tr=" ++ p)). apply Forall_app. split; [by apply Hconst|by apply Hsafe].
Qed.

(** What the link is made of. *)
Lemma magnet_link_made info_hash name : length info_hash = NODE_ID_LENGTH -> Forall is_scalar name ->
  exists q qs, build_magnet_link info_hash name = Ok (MAGNET_PREFIX ++ hex info_hash ++ concat (cons "&"%byte <$> link_fields name q qs)) /\
    Forall (fun b => url_safe b = true) q /\ unquote (text_of q) = name /\
    Forall2 (fun t q => unquote (text_of q) = text_of t /\ Forall (fun b => url_safe b = true) q) MAGNET_TRACKERS qs /\
    Forall (fun q => Forall (fun b => url_safe b = true) q) qs.
Proof.
  intros Hlen Hname. destruct quoted_trackers as (qs & Hqs & Hall). destruct (unquote_quote name Hname) as (q & Hq & Hu & Hs).
  assert (Forall (fun q => Forall (fun b => url_safe b = true) q) qs) as Hsafe.
  { clear -Hall. induction Hall as [|t q ts qs [_ H] _ IH]; by constructor. }
  exists q, qs. split; [|done]. apply build_magnet_link_fields; try done.
  - by rewrite (Forall2_length _ _ _ Hall).
  - eapply Forall_impl; [exact Hsafe|]. exact safe_within.
Qed.

(** C38. A magnet link says what it was made of.  For an info hash and a name of
    Unicode scalar values the link is built, no assertion fails, and a client that
    splits it into fields and unquotes them reads the info hash, the name, which is
    left out if it is empty, and the trackers, whatever characters the name has;
    the link itself is of unreserved characters, percent signs and separators. *)
Theorem magnet_link_read info_hash name :
  length info_hash = NODE_ID_LENGTH -> Forall is_scalar name ->
  exists link, build_magnet_link info_hash name = Ok link /\
    read_magnet_link link = Some (info_hash, if bool_decide (name = []) then None else Some name, text_of <$> MAGNET_TRACKERS) /\
    Forall (fun b => url_safe b = true \/ b ∈ bs ":?=&") link.
Proof.
  intros Hlen Hname. destruct (magnet_link_made info_hash name Hlen Hname) as (q & qs & Hlink & Hs & Hu & Hall & Hsafe).
  eexists. split; [exact Hlink|]. split; [by apply read_fields|]. by apply link_characters.
Qed.

Lemma magnet_link_read_witness :
  exists link, build_magnet_link (replicate 20 Byte.xab) [0x41; 0x26; 0x20; 0xE9]%Z = Ok link /\
    read_magnet_link link = Some (replicate 20 Byte.xab, Some [0x41; 0x26; 0x20; 0xE9]%Z, text_of <$> MAGNET_TRACKERS) /\
    Forall (fun b => url_safe b = true \/ b ∈ bs ":?=&") link.
Proof. apply magnet_link_read; [reflexivity|]. repeat constructor; cbn; lia. Defined.
