(* ===== verification/JsonText.v ===== *)
(** JSON texts, as [json.dumps(payload, ensure_ascii=True, separators=(",", ":"))]
    writes them ([encode_json] of [web_interface.py]), and what a client reads.

    How a floating-point number is written is a parameter with laws: its digits
    mean the number to the one who reads them, and no integer. *)
From S2P Require Import Prelude PyDict Bencode NodeIdentity AddressText TorrentInfo TypoIndex UrlText.

(** What the handlers make into JSON; a [J_time] is a float, in microseconds. *)
#[warnings="-register-all"]
Inductive json :=
  | J_null | J_bool (b : bool) | J_int (z : Z) | J_time (t : Z) | J_text (s : list Z) | J_list (l : list json)
  | J_dict (d : list (list Z * json)).

Definition mark : byte := Byte.x22.

(** The characters of a number. *)
Definition number_char (b : byte) : bool := is_digit b || bool_decide (b ∈ bs "+-.e").

Definition read_int (token : bytes) : option Z := match py_int token with Ok z => Some z | Raise _ => None end.

Class FloatText := {
  repr_float : Z -> bytes;
  read_float : bytes -> option Z;
  repr_float_some t : repr_float t <> [];
  repr_float_chars t : Forall (fun b => number_char b = true) (repr_float t);
  repr_float_no_int t : read_int (repr_float t) = None;
  read_repr_float t : read_float (repr_float t) = Some t }.

(** ** Writing *)

Definition hex4 (u : Z) : bytes :=
  [hex_digit (u / 4096); hex_digit (u / 256 mod 16); hex_digit (u / 16 mod 16); hex_digit (u mod 16)].
Definition escape (u : Z) : bytes := "\"%byte :: "u"%byte :: hex4 u.

(** The escapes of one letter. *)
Definition short_escapes : list (Z * byte) :=
  [(0x5C%Z, "\"%byte); (0x22%Z, mark); (0x08%Z, "b"%byte); (0x0C%Z, "f"%byte); (0x0A%Z, "n"%byte); (0x0D%Z, "r"%byte); (0x09%Z, "t"%byte)].

Definition high_surrogate (c : Z) : Z := Z.lor 0xD800 (Z.land (Z.shiftr (c - 0x10000) 10) 0x3FF).
Definition low_surrogate (c : Z) : Z := Z.lor 0xDC00 (Z.land (c - 0x10000) 0x3FF).

Definition encode_char (c : Z) : bytes :=
  match dict_get c short_escapes with
  | Some b => ["\"%byte; b]
  | None =>
      if ((0x20 <=? c) && (c <=? 0x7E))%Z then [z2b c]
      else if (c <? 0x10000)%Z then escape c
      else escape (high_surrogate c) ++ escape (low_surrogate c)
  end.
Definition encode_text (s : list Z) : bytes := mark :: concat (encode_char <$> s) ++ [mark].

Section numbers.
Context `{FloatText}.

Fixpoint encode_value (v : json) : res bytes :=
  match v with
  | J_null => mret (bs "null")
  | J_bool b => mret (bs (if b then "true" else "false"))
  | J_int z => str_int z
  | J_time t => mret (repr_float t)
  | J_text s => mret (encode_text s)
  | J_list l =>
      items ← sequence (map encode_value l);
      mret ("["%byte :: join_with ","%byte items ++ ["]"%byte])
  | J_dict d =>
      items ← sequence (map (fun kv : list Z * json => v ← encode_value kv.2; mret (encode_text kv.1 ++ ":"%byte :: v)) d);
      mret ("{"%byte :: join_with ","%byte items ++ ["}"%byte])
  end.

(** [encode_json]; the payload is not None. *)
Definition encode_json (payload : json) : res bytes :=
  assert_ (match payload with J_null => false | _ => true end) ;;
  encode_value payload.

(** ** Reading *)

Definition unhex4 (a b c d : byte) : option Z :=
  a ← hex_value a; b ← hex_value b; c ← hex_value c; d ← hex_value d; Some (((a * 16 + b) * 16 + c) * 16 + d)%Z.

(** The UTF-16 units up to the closing quotation mark. *)
Fixpoint read_units (l : bytes) : option (list Z * bytes) :=
  match l with
  | [] => None
  | x :: l1 =>
      if decide (x = mark) then Some ([], l1)
      else if decide (x = "\"%byte) then
        match l1 with
        | [] => None
        | e :: l2 =>
            if decide (e = "u"%byte) then
              match l2 with
              | a :: b :: c :: d :: l3 => u ← unhex4 a b c d; '(us, rest) ← read_units l3; Some (u :: us, rest)
              | _ => None
              end
            else
              u ← head (filter (fun p => p.2 = e) short_escapes);
              '(us, rest) ← read_units l2;
              Some (u.1 :: us, rest)
        end
      else '(us, rest) ← read_units l1; Some (b2z x :: us, rest)
  end.

Definition is_high (u : Z) : bool := ((0xD800 <=? u) && (u <=? 0xDBFF))%Z.
Definition is_low (u : Z) : bool := ((0xDC00 <=? u) && (u <=? 0xDFFF))%Z.

Fixpoint join_units (us : list Z) : list Z :=
  match us with
  | [] => []
  | hi :: us1 =>
      match us1 with
      | lo :: us2 =>
          if is_high hi && is_low lo then ((hi - 0xD800) * 0x400 + (lo - 0xDC00) + 0x10000)%Z :: join_units us2
          else hi :: join_units us1
      | [] => [hi]
      end
  end.

Definition read_text (l : bytes) : option (list Z * bytes) := '(us, rest) ← read_units l; Some (join_units us, rest).

(** The characters of a number at the start. *)
Fixpoint number_token (l : bytes) : bytes * bytes :=
  match l with
  | x :: l1 => if number_char x then let '(token, rest) := number_token l1 in (x :: token, rest) else ([], l)
  | [] => ([], [])
  end.
Definition read_number (l : bytes) : option (json * bytes) :=
  let '(token, rest) := number_token l in
  match read_int token with
  | Some z => Some (J_int z, rest)
  | None => t ← read_float token; Some (J_time t, rest)
  end.

(** [word] at the start. *)
Definition after (word l : bytes) : option bytes :=
  if bool_decide (take (length word) l = word) then Some (drop (length word) l) else None.

(** After a value, more of them follow a comma, until [stop]. *)
Fixpoint read_value (fuel : nat) (l : bytes) : option (json * bytes) :=
  match fuel, l with
  | O, _ | _, [] => None
  | S fuel, x :: l1 =>
      if decide (x = mark) then '(s, rest) ← read_text l1; Some (J_text s, rest)
      else if decide (x = "["%byte) then
        match after (bs "]") l1 with
        | Some rest => Some (J_list [], rest)
        | None => '(items, rest) ← read_items fuel l1; Some (J_list items, rest)
        end
      else if decide (x = "{"%byte) then
        match after (bs "}") l1 with
        | Some rest => Some (J_dict [], rest)
        | None => '(items, rest) ← read_members fuel l1; Some (J_dict items, rest)
        end
      else if decide (x = "n"%byte) then rest ← after (bs "null") l; Some (J_null, rest)
      else if decide (x = "t"%byte) then rest ← after (bs "true") l; Some (J_bool true, rest)
      else if decide (x = "f"%byte) then rest ← after (bs "false") l; Some (J_bool false, rest)
      else read_number l
  end
with read_items (fuel : nat) (l : bytes) : option (list json * bytes) :=
  match fuel with
  | O => None
  | S fuel =>
      '(v, l1) ← read_value fuel l;
      match l1 with
      | x :: l2 =>
          if decide (x = ","%byte) then '(items, rest) ← read_items fuel l2; Some (v :: items, rest)
          else if decide (x = "]"%byte) then Some ([v], l2)
          else None
      | [] => None
      end
  end
with read_members (fuel : nat) (l : bytes) : option (list (list Z * json) * bytes) :=
  match fuel with
  | O => None
  | S fuel =>
      l1 ← after ([mark]) l;
      '(key, l2) ← read_text l1;
      l3 ← after (bs ":") l2;
      '(v, l4) ← read_value fuel l3;
      match l4 with
      | x :: l5 =>
          if decide (x = ","%byte) then '(items, rest) ← read_members fuel l5; Some ((key, v) :: items, rest)
          else if decide (x = "}"%byte) then Some ([(key, v)], l5)
          else None
      | [] => None
      end
  end.

Definition read_json (l : bytes) : option json :=
  match read_value (S (length l)) l with Some (v, []) => Some v | _ => None end.
End numbers.

(** ** Induction *)

Section induction.
Context (P : json -> Prop).
Context (Hnull : P J_null) (Hbool : forall b, P (J_bool b)) (Hint : forall z, P (J_int z)) (Htime : forall t, P (J_time t)).
Context (Htext : forall s, P (J_text s)) (Hlist : forall l, Forall P l -> P (J_list l)).
Context (Hdict : forall d, Forall (fun kv : list Z * json => P kv.2) d -> P (J_dict d)).

Fixpoint json_nested (v : json) : P v :=
  match v with
  | J_null => Hnull
  | J_bool b => Hbool b
  | J_int z => Hint z
  | J_time t => Htime t
  | J_text s => Htext s
  | J_list l => Hlist l ((fix go l : Forall P l := match l with [] => Forall_nil_2 P | v :: l => Forall_cons_2 P v l (json_nested v) (go l) end) l)
  | J_dict d => Hdict d ((fix go d : Forall (fun kv : list Z * json => P kv.2) d :=
      match d with [] => Forall_nil_2 _ | kv :: d => Forall_cons_2 _ kv d (json_nested kv.2) (go d) end) d)
  end.
End induction.

(** ** Texts *)

Lemma hex_value_digit d : (0 <= d < 16)%Z -> hex_value (hex_digit d) = Some d.
Proof.
  intros Hd. assert (d ∈ Z.of_nat <$> seq 0 16) as Hin.
  { apply list_elem_of_fmap. exists (Z.to_nat d). rewrite elem_of_seq. lia. }
  cbn in Hin. repeat (apply elem_of_cons in Hin as [->|Hin]; [reflexivity|]). by apply elem_of_nil in Hin.
Qed.

(** Linear arithmetic with quotients and remainders. *)
Ltac div_lia := Z.to_euclidean_division_equations; lia.

Lemma unhex4_hex4 u : (0 <= u < 0x10000)%Z ->
  unhex4 (hex_digit (u / 4096)) (hex_digit (u / 256 mod 16)) (hex_digit (u / 16 mod 16)) (hex_digit (u mod 16)) = Some u.
Proof.
  intros Hu. unfold unhex4. rewrite !hex_value_digit by div_lia. cbn [mbind option_bind]. f_equal. div_lia.
Qed.

Lemma read_units_escape u l : (0 <= u < 0x10000)%Z ->
  read_units (escape u ++ l) = '(us, rest) ← read_units l; Some (u :: us, rest).
Proof.
  intros Hu. unfold escape, hex4. cbn [app read_units]. rewrite (decide_False (P := "\"%byte = mark)) by done.
  rewrite !(decide_True (P := "\"%byte = "\"%byte)), !(decide_True (P := "u"%byte = "u"%byte)) by done.
  by rewrite unhex4_hex4.
Qed.

(** The units of a character. *)
Definition units_of (c : Z) : list Z := if (c <? 0x10000)%Z then [c] else [high_surrogate c; low_surrogate c].

Lemma surrogates_of c : (0x10000 <= c <= 0x10FFFF)%Z ->
  high_surrogate c = (0xD800 + (c - 0x10000) / 0x400)%Z /\ low_surrogate c = (0xDC00 + (c - 0x10000) mod 0x400)%Z.
Proof.
  intros Hc. unfold high_surrogate, low_surrogate.
  change 0x3FF%Z with (Z.ones 10). rewrite !Z.land_ones, Z.shiftr_div_pow2 by done. change (2 ^ 10)%Z with 0x400%Z.
  rewrite (Z.mod_small (_ / _)) by div_lia.
  assert (forall a b, (0 <= b < 0x400)%Z -> Z.land a 0x3FF = 0%Z -> Z.lor a b = a + b)%Z as Hlor.
  { intros a b Hb Ha. rewrite <-Z.add_lor_land. enough (Z.land a b = 0)%Z as -> by lia.
    assert (b = Z.land b 0x3FF) as -> by (change 0x3FF%Z with (Z.ones 10); rewrite Z.land_ones, Z.mod_small; lia).
    by rewrite (Z.land_comm b), Z.land_assoc, Ha. }
  rewrite !Hlor; try done; div_lia.
Qed.

Lemma read_units_char c l : is_scalar c ->
  read_units (encode_char c ++ l) = '(us, rest) ← read_units l; Some (units_of c ++ us, rest).
Proof.
  intros [Hc Hs]. unfold encode_char. destruct (dict_get c short_escapes) as [b|] eqn:Hshort.
  - apply dict_get_elem_of in Hshort. unfold short_escapes in Hshort.
    repeat (apply elem_of_cons in Hshort as [[= -> ->]|Hshort]; [by cbn; destruct (read_units l) as [[]|]|]). by apply elem_of_nil in Hshort.
  - destruct ((0x20 <=? c) && (c <=? 0x7E))%Z eqn:Hascii; [|destruct (c <? 0x10000)%Z eqn:Hsmall].
    + cbn [app read_units]. assert (b2z (z2b c) = c) as Hb by (rewrite b2z_z2b, Z.mod_small; lia).
      assert (forall b, is_Some (dict_get (b2z b) short_escapes) -> z2b c <> b) as Hne.
      { intros b [x Hx] <-. rewrite Hb in Hx. congruence. }
      rewrite !decide_False by (apply Hne; by eexists). unfold units_of. rewrite Hb. replace (c <? 0x10000)%Z with true by lia. done.
    + rewrite read_units_escape by lia. unfold units_of. by rewrite Hsmall.
    + destruct (surrogates_of c ltac:(lia)) as [Hhi Hlo]. rewrite <-app_assoc, !read_units_escape by (rewrite ?Hhi, ?Hlo; div_lia).
      unfold units_of. rewrite Hsmall. by destruct (read_units l) as [[]|].
Qed.

Lemma read_units_text s rest : Forall is_scalar s ->
  read_units (concat (encode_char <$> s) ++ mark :: rest) = Some (concat (units_of <$> s), rest).
Proof.
  induction 1 as [|c s Hc _ IH]; [done|]. rewrite !fmap_cons. cbn [concat]. rewrite <-app_assoc, read_units_char by done. by rewrite IH.
Qed.

Lemma join_units_of s : Forall is_scalar s -> join_units (concat (units_of <$> s)) = s.
Proof.
  induction 1 as [|c s [Hc Hs] Hall IH]; [done|]. rewrite fmap_cons. cbn [concat]. unfold units_of at 1. destruct (c <? 0x10000)%Z eqn:Hsmall.
  - cbn [app join_units]. destruct (concat (units_of <$> s)) as [|lo us] eqn:Hus; [by rewrite <-IH|].
    replace (is_high c && is_low lo) with false; [by rewrite IH|]. symmetry. apply andb_false_iff. left. unfold is_high.
    unfold is_surrogate in Hs. lia.
  - destruct (surrogates_of c ltac:(lia)) as [-> ->]. cbn [app join_units].
    replace (is_high _ && is_low _) with true by (symmetry; unfold is_high, is_low; div_lia). rewrite IH. f_equal. div_lia.
Qed.

Lemma read_text_encode s rest : Forall is_scalar s -> read_text (concat (encode_char <$> s) ++ mark :: rest) = Some (s, rest).
Proof. intros Hs. unfold read_text. rewrite read_units_text by done. cbn [mbind option_bind]. by rewrite join_units_of. Qed.

(** ** Values *)

Section read_back.
Context `{FloatText}.

Fixpoint scalar_json (v : json) : Prop :=
  match v with
  | J_text s => Forall is_scalar s
  | J_list l => foldr and True (map scalar_json l)
  | J_dict d => foldr and True (map (fun kv : list Z * json => Forall is_scalar kv.1 /\ scalar_json kv.2) d)
  | _ => True
  end.

(** The fuel that reading takes. *)
Fixpoint need_all (needs : list nat) : nat := match needs with [] => 0 | n :: needs => S (Nat.max n (need_all needs)) end.
Fixpoint need (v : json) : nat :=
  match v with
  | J_list l => S (need_all (map need l))
  | J_dict d => S (need_all (map (fun kv : list Z * json => need kv.2) d))
  | _ => 1
  end.

(** No number goes on here. *)
Definition ends (l : bytes) : Prop := match l with [] => True | x :: _ => number_char x = false end.

Definition starts (b : bytes) : Prop := match b with [] => False | x :: _ => x <> "]"%byte end.
Definition good (v : json) (b : bytes) : Prop := (need v <= length b /\ starts b) /\
  forall fuel rest, need v <= fuel -> ends rest -> read_value fuel (b ++ rest) = Some (v, rest).

Lemma number_token_all token rest : Forall (fun b => number_char b = true) token -> ends rest -> number_token (token ++ rest) = (token, rest).
Proof using.
  intros Htok Hrest. induction Htok as [|x token Hx _ IH]; cbn [app number_token].
  - destruct rest as [|x rest]; [done|]. cbn [number_token]. by rewrite Hrest.
  - by rewrite Hx, IH.
Qed.

Lemma read_value_number token v : token <> [] -> Forall (fun b => number_char b = true) token ->
  (forall rest, ends rest -> read_number (token ++ rest) = Some (v, rest)) -> need v = 1 -> good v token.
Proof using.
  intros Hne Htok Hread Hneed. destruct token as [|x token]; [done|]. apply Forall_cons in Htok as [Hx _].
  split; [split; [rewrite Hneed; cbn; lia|by intros ->]|].
  intros [|fuel] rest Hfuel Hrest; [lia|]. specialize (Hread rest Hrest).
  cbn [app read_value]. rewrite !decide_False by (intros ->; discriminate Hx). exact Hread.
Qed.

Lemma good_int z b : str_int z = Ok b -> good (J_int z) b.
Proof using.
  intros Hb. pose proof (py_int_str_int z b Hb) as Hread. apply str_int_Ok in Hb as [-> _].
  assert (Forall (fun c => number_char c = true) (digits_of (Z.abs_N z))) as Hdigits.
  { apply Forall_forall. intros c Hc. pose proof (isdigit_digits_of (Z.abs_N z)) as Hd. unfold isdigit in Hd.
    apply andb_true_iff in Hd as [_ Hd]. rewrite forallb_forall in Hd. unfold number_char. by rewrite Hd by by apply list_elem_of_In. }
  set (sign := if (z <? 0)%Z then bs "-" else []) in *.
  assert (Forall (fun c => number_char c = true) (sign ++ digits_of (Z.abs_N z))) as Hall.
  { apply Forall_app. split; [|done]. unfold sign. destruct (z <? 0)%Z; by repeat constructor. }
  apply read_value_number; [|done| |done].
  - pose proof (digits_of_nonempty (Z.abs_N z)) as Hd. destruct sign; [done|]. done.
  - intros rest Hrest. unfold read_number, read_int. rewrite number_token_all by done. by rewrite Hread.
Qed.

Lemma good_time t : good (J_time t) (repr_float t).
Proof using.
  apply read_value_number; [apply repr_float_some|apply repr_float_chars| |done].
  intros rest Hrest. unfold read_number. rewrite number_token_all by (apply repr_float_chars || done).
  by rewrite repr_float_no_int, read_repr_float.
Qed.

Lemma good_text s : Forall is_scalar s -> good (J_text s) (encode_text s).
Proof using.
  intros Hs. split; [split; [cbn; lia|done]|]. intros [|fuel] rest Hfuel Hrest; [cbn in Hfuel; lia|]. unfold encode_text. cbn [app read_value].
  rewrite decide_True by done. rewrite <-app_assoc. cbn [app]. by rewrite read_text_encode.
Qed.

Lemma after_app word rest : after word (word ++ rest) = Some rest.
Proof using. unfold after. by rewrite take_app_length, drop_app_length, bool_decide_eq_true_2. Qed.

Lemma after_colon rest : after (bs ":") (":"%byte :: rest) = Some rest.
Proof using. apply (after_app (bs ":")). Qed.

(** The items of a list. *)
Lemma good_items l items : Forall2 good l items -> l <> [] -> forall fuel rest, need_all (map need l) <= fuel ->
  read_items fuel (join_with ","%byte items ++ "]"%byte :: rest) = Some (l, rest).
Proof using.
  induction 1 as [|v b l items [_ Hv] Hall IH]; [done|]. intros _ [|fuel] rest Hfuel; [cbn in Hfuel; lia|].
  cbn [map need_all] in Hfuel.
  destruct Hall as [|v' b' l items Hv' Hall].
  - cbn [join_with read_items]. by rewrite Hv by (done || lia).
  - cbn [join_with]. rewrite <-app_assoc. cbn [app read_items]. rewrite Hv by (done || lia). cbn [mbind option_bind].
    rewrite decide_True by done. rewrite IH by (done || lia). done.
Qed.

Lemma good_members d items : Forall2 (fun kv b => Forall is_scalar kv.1 /\ exists b', b = encode_text kv.1 ++ ":"%byte :: b' /\ good kv.2 b') d items ->
  d <> [] -> forall fuel rest, need_all (map (fun kv : list Z * json => need kv.2) d) <= fuel ->
  read_members fuel (join_with ","%byte items ++ "}"%byte :: rest) = Some (d, rest).
Proof using.
  induction 1 as [|[k v] b d items (Hk & b1 & -> & _ & Hv) Hall IH]; [done|]. intros _ [|fuel] rest Hfuel; [cbn in Hfuel; lia|].
  cbn [map need_all fst snd] in *.
  assert (forall tail, after [mark] (encode_text k ++ ":"%byte :: tail) = Some (concat (encode_char <$> k) ++ mark :: ":"%byte :: tail)) as Hkey.
  { intros tail. unfold encode_text. cbn [app]. rewrite <-app_assoc. by apply (after_app [mark]). }
  destruct Hall as [|kv' b' d items Hv' Hall].
  - cbn [join_with read_members]. rewrite <-app_assoc. cbn [app]. rewrite Hkey. cbn [mbind option_bind]. rewrite read_text_encode by done.
    cbn [mbind option_bind]. rewrite after_colon. cbn [mbind option_bind]. by rewrite Hv by (done || lia).
  - cbn [join_with read_members]. rewrite <-!app_assoc. cbn [app]. rewrite Hkey. cbn [mbind option_bind]. rewrite read_text_encode by done.
    cbn [mbind option_bind]. rewrite after_colon. cbn [mbind option_bind].
    rewrite Hv by (done || lia). cbn [mbind option_bind]. rewrite decide_True by done. rewrite IH by (done || lia). done.
Qed.

Lemma length_join_with (c : byte) items : items <> [] -> S (length (join_with c items)) = foldr (fun b n => S (length b) + n) 0 items.
Proof using.
  induction items as [|b items IH]; [done|]. intros _. destruct items as [|b' items]; [cbn; lia|].
  change (join_with c (b :: b' :: items)) with (b ++ c :: join_with c (b' :: items)). rewrite length_app. cbn [length foldr].
  specialize (IH ltac:(done)). cbn [foldr] in IH. lia.
Qed.

Lemma need_all_le needs (items : list bytes) : Forall2 (fun n b => n <= length b) needs items -> items <> [] ->
  forall c, need_all needs <= S (length (join_with c items)).
Proof using.
  intros Hall Hne c. rewrite length_join_with by done. clear Hne c. induction Hall as [|n b needs items Hn _ IH]; cbn [need_all foldr]; lia.
Qed.

Lemma good_word v word x b' : word = x :: b' -> x <> "]"%byte -> need v = 1 ->
  (forall fuel rest, read_value (S fuel) (word ++ rest) = Some (v, rest)) -> good v word.
Proof using.
  intros -> Hx Hneed Hread. split; [split; [rewrite Hneed; cbn; lia|done]|]. intros [|fuel] rest Hfuel _; [lia|]. apply Hread.
Qed.

Lemma good_list l items : Forall2 good l items -> good (J_list l) ("["%byte :: join_with ","%byte items ++ ["]"%byte]).
Proof using.
  intros Hall. destruct (decide (l = [])) as [->|Hne].
  { apply Forall2_nil_inv_l in Hall as ->. by eapply good_word. }
  assert (items <> []) as Hne' by (intros ->; by apply Forall2_nil_inv_r in Hall).
  assert (need_all (map need l) <= S (length (join_with ","%byte items))) as Hneed.
  { apply need_all_le; [|done]. clear -Hall. induction Hall as [|v b l items [[Hv _] _] _ IH]; by constructor. }
  split; [split; [cbn [need length]; rewrite length_app; cbn [length]; lia|done]|].
  intros [|fuel] rest Hfuel Hrest; [cbn in Hfuel; lia|]. cbn [app read_value need] in *. rewrite decide_False, decide_True by done.
  rewrite <-app_assoc. cbn [app]. pose proof (good_items l items Hall Hne fuel rest ltac:(lia)) as Hitems.
  assert (after (bs "]") (join_with ","%byte items ++ "]"%byte :: rest) = None) as ->; [|by rewrite Hitems].
  destruct Hall as [|v b l items [[_ Hb] _] _]; [done|]. unfold after. rewrite bool_decide_eq_false_2; [done|].
  destruct b as [|x b]; [done|]. destruct items; cbn; intros [= Hx]; by apply Hb.
Qed.

Definition good_member (kv : list Z * json) (b : bytes) : Prop :=
  Forall is_scalar kv.1 /\ exists b', b = encode_text kv.1 ++ ":"%byte :: b' /\ good kv.2 b'.

Lemma good_dict d items : Forall2 good_member d items -> good (J_dict d) ("{"%byte :: join_with ","%byte items ++ ["}"%byte]).
Proof using.
  intros Hall. destruct (decide (d = [])) as [->|Hne].
  { apply Forall2_nil_inv_l in Hall as ->. by eapply good_word. }
  assert (items <> []) as Hne' by (intros ->; by apply Forall2_nil_inv_r in Hall).
  assert (need_all (map (fun kv : list Z * json => need kv.2) d) <= S (length (join_with ","%byte items))) as Hneed.
  { apply need_all_le; [|done]. clear -Hall. induction Hall as [|v b l items (_ & b' & -> & [Hv _] & _) _ IH]; constructor; [|done].
    rewrite length_app. cbn [length]. lia. }
  split; [split; [cbn [need length]; rewrite length_app; cbn [length]; lia|done]|].
  intros [|fuel] rest Hfuel Hrest; [cbn in Hfuel; lia|]. cbn [app read_value need] in *. do 2 rewrite decide_False by done. rewrite decide_True by done.
  rewrite <-app_assoc. cbn [app]. pose proof (good_members d items Hall Hne fuel rest ltac:(lia)) as Hitems.
  assert (after (bs "}") (join_with ","%byte items ++ "}"%byte :: rest) = None) as ->; [|by rewrite Hitems].
  destruct Hall as [|v b l items (_ & b' & -> & _) _]; [done|]. unfold after. rewrite bool_decide_eq_false_2; [done|].
  destruct items; cbn; intros [= Hx].
Qed.

Lemma encode_value_read v : scalar_json v -> forall w, encode_value v = Ok w -> good v w.
Proof using.
  induction v as [|b|z|t|s|l IH|d IH] using json_nested; intros Hs w Hw; cbn [encode_value] in Hw.
  - injection Hw as <-. by eapply good_word.
  - injection Hw as <-. destruct b; by eapply good_word.
  - by apply good_int.
  - injection Hw as <-. apply good_time.
  - injection Hw as <-. by apply good_text.
  - destruct (sequence (map encode_value l)) as [items|e] eqn:Hseq; [|done]. injection Hw as <-. apply sequence_Ok in Hseq. apply good_list.
    cbn [scalar_json] in Hs. revert items Hseq. induction IH as [|v l Hv _ IHl]; intros [|b items] Hseq; try done.
    cbn in Hseq, Hs. injection Hseq as Hb Hseq. destruct Hs as [Hs1 Hs2]. constructor; [by apply Hv|by apply IHl].
  - destruct (sequence (map _ d)) as [items|e] eqn:Hseq; [|done]. injection Hw as <-. apply sequence_Ok in Hseq. apply good_dict.
    cbn [scalar_json] in Hs. revert items Hseq. induction IH as [|[k v] d Hv _ IHd]; intros [|b items] Hseq; try done.
    cbn [map foldr fst snd] in Hseq, Hs. injection Hseq as Hb Hseq. destruct Hs as [[Hk Hs1] Hs2]. constructor; [|by apply IHd].
    destruct (encode_value v) as [b'|e] eqn:Hv'; [|done]. injection Hb as <-. split; [done|]. exists b'. split; [done|]. by apply Hv.
Qed.

(** ** What is written *)

Definition printable (b : byte) : bool := ((0x20 <=? b2z b) && (b2z b <=? 0x7E))%Z.

(** An integer of no more digits than Python writes. *)
Definition short (z : Z) : Prop := (Z.of_nat (length (digits_of (Z.abs_N z))) <= INT_MAX_STR_DIGITS)%Z.
Fixpoint short_json (v : json) : Prop :=
  match v with
  | J_int z => short z
  | J_list l => foldr and True (map short_json l)
  | J_dict d => foldr and True (map (fun kv : list Z * json => short_json kv.2) d)
  | _ => True
  end.

Lemma number_char_printable b : number_char b = true -> printable b = true.
Proof using. destruct b; vm_compute; congruence. Qed.
Lemma hex_digit_printable d : printable (hex_digit d) = true.
Proof using.
  unfold hex_digit. destruct (nth_in_or_default (Z.to_nat d) hex_digits "0"%byte) as [Hin| ->]; [|done].
  assert (forallb printable hex_digits = true) as Hall by (vm_compute; reflexivity). rewrite forallb_forall in Hall. by apply Hall.
Qed.

Lemma encode_char_printable c : Forall (fun b => printable b = true) (encode_char c).
Proof using.
  assert (forall u, Forall (fun b => printable b = true) (escape u)) as Hesc.
  { intros u. unfold escape, hex4. repeat (constructor; [first [done|apply hex_digit_printable]|]). constructor. }
  unfold encode_char. destruct (dict_get c short_escapes) as [b|] eqn:Hshort; [|destruct (_ && _) eqn:Hascii; [|destruct (c <? 0x10000)%Z]].
  - apply dict_get_elem_of in Hshort. unfold short_escapes in Hshort.
    repeat (apply elem_of_cons in Hshort as [[= -> ->]|Hshort]; [by repeat constructor|]). by apply elem_of_nil in Hshort.
  - constructor; [|constructor]. unfold printable. rewrite b2z_z2b, Z.mod_small; lia.
  - apply Hesc.
  - apply Forall_app. by split.
Qed.

Lemma encode_text_printable s : Forall (fun b => printable b = true) (encode_text s).
Proof using.
  constructor; [done|]. apply Forall_app. split; [|by repeat constructor].
  induction s as [|c s IH]; [constructor|]. rewrite fmap_cons. cbn [concat]. apply Forall_app. split; [apply encode_char_printable|exact IH].
Qed.

Lemma join_printable items : Forall (Forall (fun b => printable b = true)) items ->
  Forall (fun b => printable b = true) (join_with ","%byte items).
Proof using.
  induction 1 as [|b items Hb Hall IH]; [constructor|]. destruct items; [done|]. cbn [join_with]. apply Forall_app. split; [done|].
  constructor; [done|exact IH].
Qed.

(** What [encode_value] does: it writes printable characters, or some integer is
    too long. *)
Definition encodes (v : json) : Prop :=
  match encode_value v with
  | Ok w => short_json v /\ Forall (fun b => printable b = true) w
  | Raise e => ~ short_json v /\ exists r, e = ValueError r
  end.

Lemma sequence_encodes {A} (f : A -> res bytes) (P : A -> Prop) l :
  Forall (fun x => match f x with
    | Ok w => P x /\ Forall (fun b => printable b = true) w
    | Raise e => ~ P x /\ exists r, e = ValueError r
    end) l ->
  match sequence (map f l) with
  | Ok items => foldr and True (map P l) /\ Forall (Forall (fun b => printable b = true)) items
  | Raise e => ~ foldr and True (map P l) /\ exists r, e = ValueError r
  end.
Proof using.
  induction 1 as [|x l Hx _ IH]; [by split|]. cbn [map sequence foldr]. destruct (f x) as [w|e]; cbn [mbind res_bind].
  - destruct Hx as [Hx Hw]. destruct (sequence (map f l)) as [items|e]; cbn [mbind res_bind].
    + split; [by split; [|apply IH]|]. by constructor; [|apply IH].
    + split; [|apply IH]. intros [_ Hl]. by apply IH.
  - split; [|apply Hx]. intros [Hl _]. by apply Hx.
Qed.

Lemma encode_value_encodes v : encodes v.
Proof using.
  induction v as [|b|z|t|s|l IH|d IH] using json_nested; unfold encodes; cbn [encode_value].
  - split; [done|]. by repeat constructor.
  - split; [done|]. destruct b; by repeat constructor.
  - unfold str_int. cbn [short_json]. unfold short. destruct (INT_MAX_STR_DIGITS <? _)%Z eqn:Hlen; cbn [raise_if mbind res_bind].
    + split; [apply Z.ltb_lt in Hlen; lia|by eexists].
    + apply Z.ltb_ge in Hlen. split; [done|]. apply Forall_app. split; [destruct (z <? 0)%Z; by repeat constructor|].
      apply Forall_forall. intros c Hc. apply number_char_printable. pose proof (isdigit_digits_of (Z.abs_N z)) as Hd. unfold isdigit in Hd.
      apply andb_true_iff in Hd as [_ Hd]. rewrite forallb_forall in Hd. unfold number_char. by rewrite Hd by by apply list_elem_of_In.
  - split; [done|]. eapply Forall_impl; [apply repr_float_chars|]. exact number_char_printable.
  - split; [done|]. apply encode_text_printable.
  - pose proof (sequence_encodes encode_value short_json l IH) as Hseq. destruct (sequence (map encode_value l)) as [items|e]; [|done].
    destruct Hseq as [Hshort Hall]. split; [done|]. cbn. constructor; [done|]. apply Forall_app. split; [by apply join_printable|by repeat constructor].
  - pose proof (sequence_encodes (fun kv : list Z * json => v ← encode_value kv.2; mret (encode_text kv.1 ++ ":"%byte :: v))
      (fun kv => short_json kv.2) d) as Hseq.
    destruct (sequence (map _ d)) as [items|e].
    all: destruct Hseq as [Hshort Hall]; [eapply Forall_impl; [exact IH|]; intros [k v]; unfold encodes; cbn [snd];
      destruct (encode_value v) as [w|e']; cbn [mbind res_bind]; [|done]; intros [Hv Hw]; split; [done|];
      apply Forall_app; split; [apply encode_text_printable|by constructor]|].
    + split; [done|]. cbn. constructor; [done|]. apply Forall_app. split; [by apply join_printable|by repeat constructor].
    + done.
Qed.
End read_back.

(** ** An instance: microseconds with a decimal point *)

Definition sign_of (t : Z) : bytes := if (t <? 0)%Z then bs "-" else [].
Definition plain_repr (t : Z) : bytes := sign_of t ++ digits_of (Z.abs_N t) ++ bs ".0".
Definition plain_read (token : bytes) : option Z :=
  let body := take (length token - 2) token in
  Some (if bool_decide (take 1 body = bs "-") then - Z.of_N (value_of (drop 1 body)) else Z.of_N (value_of body))%Z.

Lemma digits_are n : Forall (fun b => is_digit b = true) (digits_of n).
Proof.
  pose proof (isdigit_digits_of n) as Hd. unfold isdigit in Hd. apply andb_true_iff in Hd as [_ Hd]. rewrite forallb_forall in Hd.
  apply Forall_forall. intros c Hc. by apply Hd, list_elem_of_In.
Qed.

#[local, refine] Instance plain_floats : FloatText := { repr_float := plain_repr; read_float := plain_read }.
Proof.
  - intros t. unfold plain_repr. pose proof (digits_of_nonempty (Z.abs_N t)) as Hd. by destruct (sign_of t), (digits_of (Z.abs_N t)).
  - intros t. unfold plain_repr, sign_of. apply Forall_app. split; [destruct (t <? 0)%Z; by repeat constructor|].
    apply Forall_app. split; [|by repeat constructor]. eapply Forall_impl; [apply digits_are|]. intros b Hb. unfold number_char. by rewrite Hb.
  - intros t. unfold read_int, py_int, plain_repr. cbv zeta.
    assert (forall l, isdigit (l ++ bs ".0") = false) as Hdot.
    { intros l. unfold isdigit. rewrite forallb_app. cbn. by rewrite !andb_false_r. }
    assert (forall l : bytes, drop 1 (l ++ bs ".0") = drop 1 l ++ bs ".0" \/ drop 1 (l ++ bs ".0") = bs "0") as Hdrop.
    { intros [|c l]; [by right|by left]. }
    rewrite app_assoc. set (l := sign_of t ++ digits_of (Z.abs_N t)).
    assert (l <> []) as Hl by (unfold l; pose proof (digits_of_nonempty (Z.abs_N t)); by destruct (sign_of t)).
    case_bool_decide; [|by rewrite Hdot]. destruct l as [|c l]; [done|]. change (drop 1 ((c :: l) ++ bs ".0")) with (l ++ bs ".0"). by rewrite Hdot.
  - intros t. unfold plain_read, plain_repr. rewrite app_assoc, length_app. cbn [bs length]. rewrite Nat.add_sub, take_app_length.
    unfold sign_of. destruct (t <? 0)%Z eqn:Ht.
    + rewrite bool_decide_eq_true_2 by done. change (drop 1 (bs "-" ++ ?l)) with l. cbn [app drop bs]. rewrite value_of_digits. f_equal. lia.
    + cbn [app]. rewrite bool_decide_eq_false_2; [rewrite value_of_digits; f_equal; lia|].
      pose proof (digits_are (Z.abs_N t)) as Hd. destruct (digits_of (Z.abs_N t)) as [|c l]; [done|]. apply Forall_cons in Hd as [Hc _].
      intros [= ->]. discriminate Hc.
Defined.

(** C37. A client reads from an encoded payload what was written.  [encode_json]
    of any payload of Unicode scalar values returns printable ASCII characters in
    which a reader of JSON finds the payload again, the texts with whatever
    characters they have; or some integer of it has more digits than Python
    converts, and it raises [ValueError]. *)
Theorem json_read `{FloatText} payload : payload <> J_null -> scalar_json payload ->
  match encode_json payload with
  | Ok w => short_json payload /\ Forall (fun b => printable b = true) w /\ read_json w = Some payload
  | Raise e => ~ short_json payload /\ exists r, e = ValueError r
  end.
Proof.
  intros Hnull Hs. unfold encode_json. replace (match payload with J_null => false | _ => true end) with true by by destruct payload.
  cbn [assert_ raise_if mbind res_bind negb]. pose proof (encode_value_encodes payload) as Henc. unfold encodes in Henc.
  destruct (encode_value payload) as [w|e] eqn:Hw; [|exact Henc]. split; [apply Henc|]. split; [apply Henc|].
  destruct (encode_value_read payload Hs w Hw) as [[Hneed _] Hread]. unfold read_json.
  specialize (Hread (S (length w)) [] ltac:(lia) I). rewrite app_nil_r in Hread. by rewrite Hread.
Qed.

Definition sample_payload : json :=
  J_dict [(chars "name", J_text [0x41; 0x22; 0x0A; 0xE9; 0x1F600]%Z); (chars "size", J_int (-12)); (chars "at", J_time 1500000);
    (chars "files", J_list [J_list []; J_dict []; J_bool true; J_null])].

Lemma json_read_witness :
  match encode_json sample_payload with
  | Ok w => short_json sample_payload /\ Forall (fun b => printable b = true) w /\ read_json w = Some sample_payload
  | Raise e => ~ short_json sample_payload /\ exists r, e = ValueError r
  end.
Proof. apply json_read; [intros Hn; discriminate Hn|]. cbn. repeat (split || constructor); cbn; lia. Defined.

(** The bytes, with a tilde for each quotation mark. *)
Example sample_payload_written : encode_json sample_payload = Ok ((fun b => if decide (b = "~"%byte) then mark else b) <$>
  bs "{~name~:~A\~\n\u00e9\ud83d\ude00~,~size~:-12,~at~:1500000.0,~files~:[[],{},true,null]}").
Proof. vm_compute. reflexivity. Qed.
