(* ===== verification/NodeSockets.v ===== *)
(** The UDP sockets of the nodes ([dht_node_sockets.py]).  The operating system is
    the set of sockets that are open; [fails f n] tells whether the [n]th of the
    calls that may raise [OSError] does, if it is a call of [f].  Closing a socket
    does not fail, and the system gives random bytes. *)
From S2P Require Import Prelude NodeIdentity AddressText Tasks DhtCrawler.
From stdpp Require Import gmap.

Definition MAX_NODES : nat := Z.to_nat 64.
Definition RECEIVE_BUFFER_BYTES : Z := (4 * 1024 * 1024)%Z.
Definition SEND_BUFFER_BYTES : Z := (1024 * 1024)%Z.

(** The calls of the operating system that may raise [OSError]. *)
Inductive os_function := Make_socket | Set_v6_only | Bind | Set_blocking | Set_buffer_size | Get_sock_name.

#[global] Instance os_function_eq_dec : EqDecision os_function.
Proof. solve_decision. Defined.

(** Sockets are numbered as they are made. *)
Record sockets := Sockets { open_sockets : gset nat; made : nat; asked : nat }.

Definition sockets_eta (s : sockets) : sockets := Sockets (open_sockets s) (made s) (asked s).
Definition set_open_sockets : gset nat -> sockets -> sockets := ltac:(make_setter sockets_eta open_sockets).
Definition set_made : nat -> sockets -> sockets := ltac:(make_setter sockets_eta made).
Definition set_asked : nat -> sockets -> sockets := ltac:(make_setter sockets_eta asked).

Section operations.
Context (fails : os_function -> nat -> bool) (ephemeral : nat -> Z) (urandom : nat -> bytes).

(** A call of the operating system that may fail. *)
Definition os_call (f : os_function) : task sockets unit :=
  n ← reads asked;
  change (set_asked (S n)) ;;
  if fails f n then throw OSError else mret tt.

(** [except OSError] *)
Definition except_os {A} (m : task sockets A) (h : exn -> task sockets A) : task sockets A :=
  catch m (fun e => if decide (e = OSError) then h e else throw e).

Definition close_socket (x : nat) : task sockets unit :=
  change (fun s => set_open_sockets (open_sockets s ∖ {[x]}) s).

Definition create_udp_socket (port : Z) (fam : family) : task sockets nat :=
  check ((0 <=? port) && (port <=? 65535))%Z ;;
  os_call Make_socket ;;
  x ← reads made;
  change (fun s => set_made (S x) (set_open_sockets ({[x]} ∪ open_sockets s) s)) ;;
  except_os (when (bool_decide (fam = AF_INET6)) (os_call Set_v6_only) ;; os_call Bind)
    (fun e => close_socket x ;; throw e) ;;
  os_call Set_blocking ;;
  each (fun _ => except_os (os_call Set_buffer_size) (fun _ => mret tt)) [RECEIVE_BUFFER_BYTES; SEND_BUFFER_BYTES] ;;
  mret x.

(** [udp_socket.getsockname()\[1\]]: the system chooses the port if none was asked for. *)
Definition bound_port (x : nat) (port : Z) : task sockets Z :=
  os_call Get_sock_name ;;
  mret (if (port =? 0)%Z then ephemeral x else port).

Definition close_node_sockets (nodes : list node_socket) : task sockets unit :=
  each (fun node => close_socket (udp_socket node)) nodes.

(** The body of the loop of [create_node_sockets]. *)
Definition create_node (base_port : Z) (fam : family) (own_ids : option (list bytes)) (index : nat) : task sockets node_socket :=
  let port := if (base_port =? 0)%Z then 0%Z else (base_port + Z.of_nat index)%Z in
  x ← create_udp_socket port fam;
  bound ← bound_port x port;
  own_id ← (match own_ids with
            | Some ids => call (match ids !! index with Some own_id => Ok own_id | None => Raise KeyError end)
            | None => call (generate_node_id (urandom x))
            end);
  mret (NodeSocket x own_id bound fam).

(** The loop: if it raises, the sockets it has made are closed. *)
Fixpoint create_nodes (base_port : Z) (fam : family) (own_ids : option (list bytes)) (indexes : list nat)
    (nodes : list node_socket) : task sockets (list node_socket) :=
  match indexes with
  | [] => mret nodes
  | index :: indexes =>
      node ← except_os (create_node base_port fam own_ids index) (fun e => close_node_sockets nodes ;; throw e);
      create_nodes base_port fam own_ids indexes (nodes ++ [node])
  end.

(** [own_ids if own_ids else ...]: an empty sequence counts as none. *)
Definition create_node_sockets (base_port : Z) (count : nat) (fam : family) (own_ids : option (list bytes))
    : task sockets (list node_socket) :=
  check (bool_decide (1 <= count <= MAX_NODES) && ((0 <=? base_port) && (base_port <=? 65535))%Z &&
    match own_ids with Some ids => bool_decide (length ids = count) | None => true end) ;;
  check ((base_port =? 0) || (base_port + Z.of_nat count - 1 <=? 65535))%Z ;;
  nodes ← create_nodes base_port fam own_ids (seq 0 count) [];
  check (bool_decide (length nodes = count) && bool_decide (NoDup (own_id <$> nodes))) ;;
  mret nodes.

(** ** No socket is left behind *)

Definition sockets_ok (s : sockets) : Prop := forall x, x ∈ open_sockets s -> x < made s.

(** The call that ended what went on since [s]: the last one, and it has failed. *)
Definition failed_call (f : os_function) (s s' : sockets) : Prop :=
  exists n, asked s <= n /\ asked s' = S n /\ fails f n = true.

(** What a call of the system does to the sockets: nothing. *)
Definition same_sockets (s s' : sockets) : Prop :=
  open_sockets s' = open_sockets s /\ made s' = made s /\ asked s <= asked s'.

Lemma tri_os_call f (Q : unit -> sockets -> Prop) (E : exn -> sockets -> Prop) s :
  (forall s', same_sockets s s' -> Q tt s') ->
  (forall s', same_sockets s s' -> failed_call f s s' -> E OSError s') -> tri (os_call f) Q E s.
Proof using.
  intros HQ HE. unfold os_call. apply tri_bind, tri_reads, tri_bind, tri_change.
  assert (same_sockets s (set_asked (S (asked s)) s)) as Hs by (repeat split; cbn; lia).
  destruct (fails f (asked s)) eqn:Hf.
  - apply tri_throw, HE; [done|]. exists (asked s). split; [lia|]. by split.
  - by apply tri_ret, HQ.
Qed.

Lemma same_sockets_trans s1 s2 s3 : same_sockets s1 s2 -> same_sockets s2 s3 -> same_sockets s1 s3.
Proof using. intros (A1 & A2 & A3) (B1 & B2 & B3). split; [congruence|]. split; [congruence|lia]. Qed.

Lemma failure_later f s1 s2 s3 : asked s1 <= asked s2 -> failed_call f s2 s3 -> failed_call f s1 s3.
Proof using. intros Hle (n & Hn & Hf). exists n. split; [lia|done]. Qed.
Lemma failure_same f s1 s2 s3 : asked s3 = asked s2 -> failed_call f s1 s2 -> failed_call f s1 s3.
Proof using. intros Heq (n & Hn & Hf). exists n. by rewrite Heq. Qed.

(** The calls after which a socket that was just made is not closed if they fail. *)
Definition leaves_socket (f : os_function) : Prop := f = Set_blocking \/ f = Get_sock_name.
#[global] Instance leaves_socket_dec f : Decision (leaves_socket f).
Proof using. apply _. Defined.

(** One more socket, or none; but the last one that was made stays open if it was
    a call that leaves it that failed. *)
Definition one_more (x : nat) (s s' : sockets) : Prop :=
  x = made s /\ made s' = S (made s) /\ open_sockets s' = {[x]} ∪ open_sockets s /\ asked s <= asked s'.
Definition lost_by (f : os_function) (s' : sockets) : gset nat := if decide (leaves_socket f) then {[pred (made s')]} else ∅.
Definition none_more (s s' : sockets) : Prop := exists f,
  failed_call f s s' /\ f <> Set_buffer_size /\ open_sockets s' = lost_by f s' ∪ open_sockets s /\
  made s + size (lost_by f s') <= made s' /\ asked s <= asked s'.

Lemma one_more_later x s s1 s2 : one_more x s s1 -> same_sockets s1 s2 -> one_more x s s2.
Proof using. intros (A1 & A2 & A3 & A4) (B1 & B2 & B3). split; [done|]. split; [congruence|]. split; [congruence|lia]. Qed.

(** A socket was made and the call after it has left it. *)
Lemma left_behind f x s s1 s2 : one_more x s s1 -> same_sockets s1 s2 -> failed_call f s1 s2 -> leaves_socket f ->
  none_more s s2.
Proof using.
  intros (A1 & A2 & A3 & A4) (B1 & B2 & B3) Hf Hl. exists f. split; [by apply (failure_later f s s1)|].
  split; [by destruct Hl as [->| ->]|]. unfold lost_by. rewrite decide_True by done. rewrite size_singleton, B1, B2, A2, A3, A1.
  split; [done|]. lia.
Qed.

(** No socket has a number that is still to be given. *)
Lemma none_more_ok s s' : sockets_ok s -> none_more s s' -> sockets_ok s'.
Proof using.
  clear ephemeral urandom. intros Hs (f & _ & _ & Ho & Hm & _) x. rewrite Ho, elem_of_union. intros [Hx|Hx%Hs]; [|lia].
  unfold lost_by in Hx, Hm. destruct (decide _); [|done]. apply elem_of_singleton in Hx. rewrite size_singleton in Hm. lia.
Qed.

Lemma tri_create_udp_socket port fam s : sockets_ok s -> (0 <= port <= 65535)%Z ->
  tri (create_udp_socket port fam) (fun x s' => one_more x s s') (fun e s' => e = OSError /\ none_more s s') s.
Proof using.
  clear ephemeral urandom. intros Hs Hport. unfold create_udp_socket. apply tri_bind, tri_check; [lia|]. apply tri_bind, tri_os_call.
  2: { intros s1 (H1 & H2 & H3) Hf. split; [done|]. exists Make_socket. split; [done|]. split; [done|].
       unfold lost_by. rewrite decide_False by (by intros [?|?]). rewrite size_empty. split; [set_solver|]. lia. }
  intros s1 (H1 & H2 & H3). apply tri_bind, tri_reads, tri_bind, tri_change. set (x := made s1). set (s2 := set_made _ _).
  assert (one_more x s s2) as Hone.
  { split; [unfold x; congruence|]. split; [cbn; unfold x; congruence|]. split; [cbn; by rewrite H1|]. cbn. lia. }
  apply tri_bind. apply (tri_mono _ (fun _ s' => same_sockets s2 s') _ (fun e s' => e = OSError /\ none_more s s')); [|intros [] s3 H23|done].
  - apply tri_catch.
    assert (forall f s3, f <> Set_buffer_size -> ~ leaves_socket f -> same_sockets s2 s3 -> failed_call f s2 s3 ->
      tri (A := unit) (if decide (OSError = OSError) then close_socket x ;; throw OSError else throw OSError)
        (fun _ s' => same_sockets s2 s') (fun e s' => e = OSError /\ none_more s s') s3) as Hclose.
    { intros f s3 Hf Hl (A1 & A2 & A3) Hfail. rewrite decide_True by done. apply tri_bind, tri_change, tri_throw. split; [done|].
      destruct Hone as (B1 & B2 & B3 & B4). exists f. split; [|split; [done|]].
      - apply (failure_same f s s3); [done|]. by apply (failure_later f s s2).
      - unfold lost_by. rewrite decide_False by done. rewrite size_empty. cbn. rewrite A1, A2, B3.
        assert (x ∉ open_sockets s) as Hx by (intros Hx%Hs; lia). split; [set_solver|]. lia. }
    apply tri_bind. apply (tri_mono _ (fun _ s' => same_sockets s2 s') _ (fun e s' =>
      tri (A := unit) (if decide (e = OSError) then close_socket x ;; throw e else throw e)
        (fun _ s' => same_sockets s2 s') (fun e s' => e = OSError /\ none_more s s') s')); [| |done].
    + apply tri_when; intros _; [|by repeat split]. apply tri_os_call; [done|]. intros s3 A Hf.
      apply (Hclose Set_v6_only); [done|by intros [?|?]|done|done].
    + intros [] s3 A. apply tri_os_call.
      * intros s4 B. by eapply same_sockets_trans.
      * intros s4 B Hf. apply (Hclose Bind); [done|by intros [?|?]|by eapply same_sockets_trans|].
        apply (failure_later _ s2 s3 s4); [apply A|done].
  - pose proof (one_more_later _ _ _ _ Hone H23) as Hone3. apply tri_bind, tri_os_call.
    2: { intros s4 H4 Hf. split; [done|]. apply (left_behind Set_blocking x s s3); [done..|by left]. }
    intros s4 H4. pose proof (one_more_later _ _ _ _ Hone3 H4) as Hone4.
    apply tri_bind. eapply (tri_mono _ (fun _ s' => same_sockets s4 s') _ (fun _ _ => False)); [| |done].
    + apply (tri_each _ (fun _ s' => same_sockets s4 s')); [done|]. intros b l s5 H5. apply tri_catch, tri_os_call.
      * intros s6 H6. by eapply same_sockets_trans.
      * intros s6 H6 _. rewrite decide_True by done. apply tri_ret. by eapply same_sockets_trans.
    + intros [] s5 H5. apply tri_ret. by eapply one_more_later.
Qed.

(** ** All of the sockets, or none *)

Definition node_ok (base_port : Z) (fam : family) (own_ids : option (list bytes)) (index : nat) (node : node_socket) : Prop :=
  socket_family node = fam /\ ((base_port <> 0)%Z -> socket_port node = (base_port + Z.of_nat index)%Z) /\
  match own_ids with Some ids => ids !! index = Some (own_id node) | None => own_id node = urandom (udp_socket node) end.

(** From [s] the sockets of [nodes] were made, one after the other. *)
Definition nodes_made (s : sockets) (nodes : list node_socket) (s' : sockets) : Prop :=
  sockets_ok s' /\ open_sockets s' = list_to_set (udp_socket <$> nodes) ∪ open_sockets s /\
  NoDup (udp_socket <$> nodes) /\ Forall (fun node => made s <= udp_socket node < made s') nodes /\
  made s' = made s + length nodes /\ asked s <= asked s'.

Lemma close_all nodes s : tri (close_node_sockets nodes) (fun _ s' => open_sockets s' = open_sockets s ∖ list_to_set (udp_socket <$> nodes) /\
  made s' = made s /\ asked s' = asked s) (fun _ _ => False) s.
Proof using.
  clear fails ephemeral urandom. unfold close_node_sockets. revert s. induction nodes as [|node nodes IH]; intros s; cbn [each].
  { apply tri_ret. split; [set_solver|done]. }
  apply tri_bind, tri_change. eapply tri_mono; [apply IH| |done]. intros [] s' (H1 & H2 & H3). rewrite H1, H2, H3. cbn. set_solver.
Qed.

Context (base_port : Z) (fam : family) (own_ids : option (list bytes)) (count : nat).
Context (Hbase : (0 <= base_port)%Z) (Hrange : (base_port = 0 \/ base_port + Z.of_nat count - 1 <= 65535)%Z).
Context (Hids : match own_ids with Some ids => length ids = count | None => forall x, length (urandom x) = NODE_ID_LENGTH end).

Lemma tri_create_node index s : sockets_ok s -> index < count ->
  tri (create_node base_port fam own_ids index)
    (fun node s' => one_more (udp_socket node) s s' /\ node_ok base_port fam own_ids index node)
    (fun e s' => e = OSError /\ none_more s s') s.
Proof using Hbase Hrange Hids.
  intros Hs Hi. unfold create_node. set (port := if (base_port =? 0)%Z then _ else _).
  assert (0 <= port <= 65535)%Z as Hport by (unfold port; destruct (base_port =? 0)%Z eqn:Hb; lia).
  apply tri_bind. eapply tri_mono; [by apply tri_create_udp_socket| |done]. intros x s1 Hx1.
  apply tri_bind. unfold bound_port. apply tri_bind, tri_os_call.
  2: { intros s2 H2 Hf. split; [done|]. apply (left_behind Get_sock_name x s s1); [done..|by right]. }
  intros s2 H2. apply tri_ret. pose proof (one_more_later _ _ _ _ Hx1 H2) as Hx. apply tri_bind.
  set (bound := if (port =? 0)%Z then ephemeral x else port).
  assert (node_ok base_port fam own_ids index (NodeSocket x (default (urandom x) (ids ← own_ids; ids !! index)) bound fam)) as Hnode.
  { split; [done|]. split.
    - intros Hb. cbn. unfold bound, port. rewrite (proj2 (Z.eqb_neq _ _) Hb). rewrite (proj2 (Z.eqb_neq _ _)); [done|lia].
    - destruct own_ids as [ids|]; [|done]. cbn. destruct (lookup_lt_is_Some_2 ids index) as [h Hh]; [lia|]. by rewrite Hh. }
  destruct own_ids as [ids|]; cbn [mbind option_bind default from_option] in Hnode.
  - destruct (lookup_lt_is_Some_2 ids index) as [h Hh]; [lia|]. rewrite Hh in *. eapply tri_call_Ok; [done|]. apply tri_ret. by split.
  - eapply tri_call_Ok; [|by apply tri_ret; split]. unfold generate_node_id. by rewrite bool_decide_eq_true_2.
Qed.

Lemma nodes_made_more s nodes s1 node s2 : sockets_ok s -> nodes_made s nodes s1 -> one_more (udp_socket node) s1 s2 ->
  nodes_made s (nodes ++ [node]) s2.
Proof using.
  clear. intros Hs (H1 & H2 & H3 & H4 & H5 & H6) (A1 & A2 & A3 & A4). split; [|split; [|split; [|split; [|split; [rewrite length_app; cbn; lia|lia]]]]].
  - intros x. rewrite A3, A2, elem_of_union, elem_of_singleton. intros [->|Hx%H1]; lia.
  - rewrite A3, H2, fmap_app, list_to_set_app_L. cbn. set_solver.
  - rewrite fmap_app. apply NoDup_app. split; [done|]. split; [|apply NoDup_singleton].
    intros x Hx Hin. apply list_elem_of_singleton in Hin as ->. apply list_elem_of_fmap in Hx as (n & Heq & Hn).
    rewrite Forall_forall in H4. specialize (H4 n Hn). lia.
  - apply Forall_app. split; [eapply Forall_impl; [exact H4|]; cbn; intros n ?; lia|]. apply Forall_singleton. lia.
Qed.

Lemma tri_create_nodes s indexes : sockets_ok s -> (forall i, i ∈ indexes -> i < count) -> forall nodes s1,
  nodes_made s nodes s1 ->
  tri (create_nodes base_port fam own_ids indexes nodes)
    (fun l s' => exists more, l = nodes ++ more /\ nodes_made s l s' /\ Forall2 (node_ok base_port fam own_ids) indexes more)
    (fun e s' => e = OSError /\ none_more s s') s1.
Proof using Hbase Hrange Hids.
  intros Hs. induction indexes as [|i indexes IH]; intros Hi nodes s1 H1; cbn [create_nodes].
  { apply tri_ret. exists []. rewrite app_nil_r. split; [done|]. by split. }
  destruct (H1) as (Hok1 & Hopen1 & _ & Hmade1 & Hcount1 & Hasked1).
  apply tri_bind, tri_catch. eapply tri_mono; [apply (tri_create_node i s1 Hok1), Hi; left|..].
  - intros node s2 [Hone Hnode]. eapply tri_mono; [apply IH; [intros j Hj; apply Hi; by right|by eapply nodes_made_more]| |done].
    intros l s' (more & -> & Hl & Hall). exists (node :: more). rewrite <-app_assoc. split; [done|].
    rewrite <-app_assoc in Hl. split; [exact Hl|by constructor].
  - intros e s2 (-> & f & Hf2 & Hbuf & Ho2 & Hm2 & Ha2). rewrite decide_True by done. apply tri_bind.
    eapply tri_mono; [apply close_all| |done]. intros [] s3 (H3 & H3m & H3'). apply tri_throw. split; [done|]. exists f.
    split; [apply (failure_same f s s2); [done|]; by apply (failure_later f s s1)|]. split; [done|].
    assert (lost_by f s3 = lost_by f s2) as -> by (unfold lost_by; by rewrite H3m). split; [|lia].
    rewrite H3, Ho2, Hopen1. apply set_eq. intros x.
    rewrite elem_of_difference, !elem_of_union, elem_of_list_to_set. split; [tauto|]. intros Hx. split; [tauto|].
    intros (n & -> & Hn)%list_elem_of_fmap. rewrite Forall_forall in Hmade1. specialize (Hmade1 n Hn). destruct Hx as [Hx|Hx%Hs]; [|lia].
    unfold lost_by in Hx, Hm2. destruct (decide _); [|done]. apply elem_of_singleton in Hx. rewrite size_singleton in Hm2. lia.
Qed.
End operations.

(** What the arguments must be, from [s]. *)
Definition arguments_ok (urandom : nat -> bytes) (base_port : Z) (count : nat) (own_ids : option (list bytes)) (s : sockets) : Prop :=
  1 <= count <= MAX_NODES /\ (0 <= base_port <= 65535)%Z /\
  (base_port = 0 \/ base_port + Z.of_nat count - 1 <= 65535)%Z /\
  match own_ids with
  | Some ids => length ids = count /\ NoDup ids
  | None => (forall x, length (urandom x) = NODE_ID_LENGTH) /\
      forall x y, made s <= x < made s + count -> made s <= y < made s + count -> urandom x = urandom y -> x = y
  end.

(** All the sockets. *)
Definition nodes_opened (urandom : nat -> bytes) (base_port : Z) (count : nat) (fam : family) (own_ids : option (list bytes))
    (s : sockets) (nodes : list node_socket) (s' : sockets) : Prop :=
  length nodes = count /\ NoDup (udp_socket <$> nodes) /\ NoDup (own_id <$> nodes) /\
  open_sockets s' = list_to_set (udp_socket <$> nodes) ∪ open_sockets s /\
  Forall (fun node => udp_socket node ∉ open_sockets s) nodes /\
  forall i node, nodes !! i = Some node -> node_ok urandom base_port fam own_ids i node.

Lemma tri_create_node_sockets fails ephemeral urandom base_port count fam own_ids s :
  sockets_ok s -> arguments_ok urandom base_port count own_ids s ->
  tri (create_node_sockets fails ephemeral urandom base_port count fam own_ids)
    (fun nodes s' => nodes_opened urandom base_port count fam own_ids s nodes s' /\ sockets_ok s')
    (fun e s' => e = OSError /\ none_more fails s s' /\ sockets_ok s') s.
Proof.
  intros Hs (Hcount & Hbase & Hrange & Hids).
  unfold create_node_sockets. apply tri_bind, tri_check.
  { rewrite (bool_decide_eq_true_2 _ Hcount). destruct own_ids; [rewrite bool_decide_eq_true_2 by apply Hids|]; lia. }
  apply tri_bind, tri_check; [lia|]. apply tri_bind.
  eapply tri_mono; [apply (tri_create_nodes fails ephemeral urandom base_port fam own_ids count ltac:(lia) Hrange) with (s := s)|..].
  - destruct own_ids; apply Hids.
  - done.
  - intros i Hi%elem_of_seq. lia.
  - split; [done|]. cbn. split; [set_solver|]. split; [constructor|]. split; [constructor|]. split; lia.
  - cbn. intros nodes s' (more & -> & (M1 & M2 & M3 & M4 & M5 & M6) & Hall). cbn in *.
    pose proof (Forall2_length _ _ _ Hall) as Hlen. rewrite length_seq in Hlen.
    assert (forall i node, more !! i = Some node -> node_ok urandom base_port fam own_ids i node) as Hok.
    { intros i node Hi. destruct (Forall2_lookup_r _ _ _ _ _ Hall Hi) as (j & Hj & Hn). apply lookup_seq in Hj as [-> _]. exact Hn. }
    assert (NoDup (own_id <$> more)) as Hnd.
    { apply NoDup_alt. intros i j h Hi Hj. rewrite list_lookup_fmap in Hi, Hj.
      destruct (more !! i) as [n1|] eqn:H1; [|done]. destruct (more !! j) as [n2|] eqn:H2; [|done]. cbn in Hi, Hj.
      destruct (Hok i n1 H1) as (_ & _ & I1). destruct (Hok j n2 H2) as (_ & _ & I2). destruct own_ids as [ids|].
      - destruct Hids as [_ Hnd]. eapply NoDup_lookup; [exact Hnd|rewrite I1; exact Hi|rewrite I2; exact Hj].
      - destruct Hids as [_ Hinj]. assert (udp_socket n1 = udp_socket n2) as Heq by (rewrite Forall_forall in M4; apply Hinj;
          [specialize (M4 n1 (list_elem_of_lookup_2 _ _ _ H1)); lia|specialize (M4 n2 (list_elem_of_lookup_2 _ _ _ H2)); lia|congruence]).
        eapply (NoDup_lookup (udp_socket <$> more)); [exact M3|rewrite list_lookup_fmap, H1; done|rewrite list_lookup_fmap, H2; cbn; congruence]. }
    apply tri_bind, tri_check; [by rewrite !bool_decide_eq_true_2|]. apply tri_ret.
    split; [|done]. split; [done|]. split; [done|]. split; [done|]. split; [done|]. split; [|done].
    eapply Forall_impl; [exact M4|]. cbn. intros n Hn Hin%Hs. lia.
  - intros e s' (-> & Hnone). split; [done|]. split; [done|]. by eapply none_more_ok.
Qed.

(** C39. The sockets of the nodes are made all or not at all.  With valid arguments,
    and random ids that differ, [create_node_sockets] returns one open socket per
    node, with consecutive ports if one was named, of the family and with the ids
    that were given; or a call of the operating system has failed, which is not the
    one that enlarges a buffer, and it raises [OSError].  Then of the sockets it made
    none is still open, unless it was [setblocking] or [getsockname] that failed:
    the socket that was made just before is then the only one that stays open. *)
Theorem node_sockets_all_or_none fails ephemeral urandom base_port count fam own_ids s :
  sockets_ok s -> arguments_ok urandom base_port count own_ids s ->
  match create_node_sockets fails ephemeral urandom base_port count fam own_ids s with
  | (Ok nodes, s') => nodes_opened urandom base_port count fam own_ids s nodes s'
  | (Raise e, s') => e = OSError /\ exists f, failed_call fails f s s' /\ f <> Set_buffer_size /\
      (~ leaves_socket f -> open_sockets s' = open_sockets s) /\
      (leaves_socket f -> exists x, made s <= x < made s' /\ open_sockets s' = {[x]} ∪ open_sockets s)
  end.
Proof.
  intros Hs Hargs. pose proof (tri_create_node_sockets fails ephemeral urandom base_port count fam own_ids s Hs Hargs) as Hend.
  unfold tri in Hend. destruct (create_node_sockets _ _ _ _ _ _ _ s) as [[nodes|e] s'].
  - apply Hend.
  - destruct Hend as (He & (f & Hf & Hbuf & Ho & Hm & _) & _). split; [done|]. exists f. split; [done|]. split; [done|].
    unfold lost_by in Ho, Hm. split; intros Hl.
    + rewrite decide_False in Ho by done. by rewrite Ho, (left_id_L ∅ (∪)).
    + rewrite decide_True in Ho, Hm by done. rewrite size_singleton in Hm. exists (pred (made s')). split; [lia|done].
Qed.

(** Ids that differ for the sockets below 256. *)
Definition sample_id (x : nat) : bytes := z2b (Z.of_nat x) :: replicate 19 Byte.x00.

Lemma sample_id_inj x y : x < 256 -> y < 256 -> sample_id x = sample_id y -> x = y.
Proof.
  intros Hx Hy [= H]. apply (f_equal b2z) in H. rewrite !b2z_z2b, !Z.mod_small in H by lia. lia.
Qed.

(** The [n]th call, if it is one of [f]. *)
Definition fails_once (f : os_function) (n : nat) : os_function -> nat -> bool := fun g m => bool_decide (g = f /\ m = n).

Lemma node_sockets_all_or_none_witness :
  let s := Sockets {[0]} 1 0 in
  let fails := fails_once Bind 7 in
  match create_node_sockets fails (fun _ => 50000%Z) sample_id 6881 3 AF_INET None s with
  | (Ok nodes, s') => nodes_opened sample_id 6881 3 AF_INET None s nodes s'
  | (Raise e, s') => e = OSError /\ exists f, failed_call fails f s s' /\ f <> Set_buffer_size /\
      (~ leaves_socket f -> open_sockets s' = open_sockets s) /\
      (leaves_socket f -> exists x, made s <= x < made s' /\ open_sockets s' = {[x]} ∪ open_sockets s)
  end.
Proof.
  apply node_sockets_all_or_none.
  - intros x Hx. cbn in Hx. apply elem_of_singleton in Hx as ->. cbn. lia.
  - split; [unfold MAX_NODES; lia|]. split; [lia|]. split; [lia|]. split; [done|].
    cbn. intros x y Hx Hy. apply sample_id_inj; lia.
Defined.

(** The eighth call binds the second socket: neither is left. *)
Example second_bind_fails :
  (create_node_sockets (fails_once Bind 7) (fun _ => 50000%Z) sample_id 6881 3 AF_INET None (Sockets ∅ 0 0)).2 =
  Sockets ∅ 2 8.
Proof. vm_compute. reflexivity. Qed.

(** If the second socket cannot be asked for its name, it stays open. *)
Example second_name_fails :
  (create_node_sockets (fails_once Get_sock_name 11) (fun _ => 50000%Z) sample_id 6881 3 AF_INET None (Sockets ∅ 0 0)).2 =
  Sockets {[1]} 2 12.
Proof. vm_compute. reflexivity. Qed.

(** Buffers that cannot be enlarged are no reason to drop a socket. *)
Example small_buffers_do :
  let '(r, s') := create_node_sockets (fails_once Set_buffer_size 4) (fun _ => 50000%Z) sample_id 0 2 AF_INET6 None (Sockets ∅ 0 0) in
  match r with Ok nodes => socket_port <$> nodes = [50000; 50000]%Z | Raise _ => False end /\ open_sockets s' = {[0; 1]}.
Proof. vm_compute. split; reflexivity. Qed.
