(* ===== verification/Runtime.v ===== *)
(** The runtime ([scraper_runtime.py], [__main__.py]): the settings, the order in which
    the parts of the scraper are started and stopped, and the wait in between.

    What the parts do inside is modelled in their own files; here a part is
    there or not, and [outcome] tells which of the calls that make or start one
    raise; [starts] tells which threads the system can start, and which of these
    have ended when the scraper looks whether they run.  A thread that is told to
    stop ends before its join times out, or [outlives] it.  Closing a socket, the
    web server or the database does not fail.  [clock_at] is what the monotonic clock reads at the [n]th
    question, [wait_at] what becomes of the wait then.  Times are in
    microseconds. *)
From S2P Require Import Prelude PyDict Bencode NodeIdentity AddressText Krpc TorrentInfo Catalog Tasks DhtCrawler NodeSockets.
From Stdlib Require Import DecimalString.
From stdpp Require Import gmap strings.

Definition DEFAULT_PORT : Z := 6881.
Definition DEFAULT_NODES : nat := 8.
Definition DEFAULT_BATCH_SIZE : Z := 6.
Definition DEFAULT_INTERVAL : Z := 100000.
Definition DEFAULT_WEB_HOST : string := "127.0.0.1".
Definition DEFAULT_WEB_PORT : Z := 8080.
Definition DEFAULT_MAX_CONNECTIONS : Z := 256.
Definition MAX_CONNECTIONS_LIMIT : Z := 1024.
Definition SUMMARY_INTERVAL_SECONDS : Z := 10000000.

(** ** Settings *)

(** A floating-point number of seconds: finite, in microseconds, or an infinity or
    no number. *)
Inductive seconds := Finite (microseconds : Z) | Not_finite.

(** ["%d" % n] of a number that is not negative *)
Definition decimal (n : Z) : string := NilZero.string_of_uint (N.to_uint (Z.to_N n)).

Definition settings_error (port : Z) (nodes : Z) (web_host : string) (web_port : Z) (duration : option seconds)
    (fetch_workers batch_size : Z) (interval : seconds) : option string :=
  if negb ((0 <=? port) && (port <=? 65535))%Z then Some "--port must be between 0 and 65535"%string
  else if negb ((1 <=? nodes) && (nodes <=? Z.of_nat MAX_NODES))%Z then
    Some ("--nodes must be between 1 and " +:+ decimal (Z.of_nat MAX_NODES))
  else if (negb (port =? 0) && (65535 <? port + nodes - 1))%Z then Some "--port plus --nodes exceeds port 65535"%string
  else if bool_decide (web_host = ""%string) then Some "--web-host must not be empty"%string
  else if negb ((0 <=? web_port) && (web_port <=? 65535))%Z then Some "--web-port must be between 0 and 65535"%string
  else if match duration with Some Not_finite => true | Some (Finite d) => (d <? 0)%Z | None => false end then
    Some "--duration must be a finite number that is not negative"%string
  else if negb ((1 <=? fetch_workers) && (fetch_workers <=? MAX_CONNECTIONS_LIMIT))%Z then
    Some ("--fetch-workers must be between 1 and " +:+ decimal MAX_CONNECTIONS_LIMIT)
  else if (batch_size <? 1)%Z then Some "--batch-size must be at least 1"%string
  else if match interval with Not_finite => true | Finite i => (i <=? 0)%Z end then
    Some "--interval must be a finite number greater than 0"%string
  else None.

(** [directory_of] is [os.path.dirname(os.path.abspath(path))], [is_directory]
    [os.path.isdir]. *)
Definition database_error (directory_of : string -> string) (is_directory : string -> bool) (path : string) : option string :=
  if bool_decide (path = ""%string) then Some "--database must not be empty"%string
  else if negb (is_directory (directory_of path)) then
    Some ("--database directory " +:+ directory_of path +:+ " does not exist")
  else None.

Record settings := Settings {
  st_port : Z; st_nodes : Z; web_host : string; web_port : Z; st_duration : option seconds; fetch_workers : Z;
  st_batch_size : Z; st_interval : seconds; fetch_enabled : bool; open_browser : bool; ipv6_enabled : bool;
  database_path : option string }.

(** [RuntimeSettings.__init__] *)
Definition new_settings (directory_of : string -> string) (is_directory : string -> bool) (s : settings) : res settings :=
  assert_ (bool_decide (settings_error (st_port s) (st_nodes s) (web_host s) (web_port s) (st_duration s) (fetch_workers s)
    (st_batch_size s) (st_interval s) = None)) ;;
  assert_ (match database_path s with
           | None => true
           | Some path => bool_decide (database_error directory_of is_directory path = None)
           end) ;;
  assert_ (1 <=? st_nodes s)%Z ;;
  mret s.

(** ** The runtime *)

Inductive thread := Web_thread | Fetch_thread | Crawler_thread | Index_thread | Browser_thread.
Inductive stop_reason_t := Duration | Interrupt | Terminate | Thread_failure.

(** The calls that make or start a part. *)
Inductive part := Make_crawler | Open_database | Enable_tracking | Make_indexer | Start_indexer | Make_web_server
  | Raise_file_limit | Make_engine.

(** What becomes of [thread.start()]: the thread runs, or has ended by the time of
    the next look, or the system has no thread to give. *)
Inductive start_result := Runs | Ended_at_once | Unstartable.

#[global] Instance thread_eq_dec : EqDecision thread.
Proof. solve_decision. Defined.
#[global] Instance start_result_eq_dec : EqDecision start_result.
Proof. solve_decision. Defined.
#[global] Instance stop_reason_eq_dec : EqDecision stop_reason_t.
Proof. solve_decision. Defined.

(** The attributes of [ScraperRuntime], with what it holds of the system: the open
    sockets, the port of the web server, the connection of the database, and the
    threads: [begun] lists those that [start] has started, [running_threads] those
    of them that run.  [web_started], [crawler_started], [engine_started] and
    [indexer_started] say that the attribute with the thread is set. *)
Record runtime := Runtime {
  system_sockets : sockets; rt_node_sockets : list node_socket; crawler_made : bool; crawler_started : bool;
  engine_made : bool; engine_started : bool; web_made : bool; web_started : bool; indexer_made : bool; indexer_started : bool;
  database_set : bool; listening : bool; database_open : bool; begun : list thread; running_threads : list thread;
  stop_event : bool; indexer_told : bool; terminate_requested : bool; stop_reason : option stop_reason_t; stopped : bool;
  start_time : Z; last_summary_time : Z; rt_questions : nat }.

Definition runtime_eta (s : runtime) : runtime :=
  Runtime (system_sockets s) (rt_node_sockets s) (crawler_made s) (crawler_started s) (engine_made s) (engine_started s)
    (web_made s) (web_started s) (indexer_made s) (indexer_started s) (database_set s) (listening s) (database_open s)
    (begun s) (running_threads s) (stop_event s) (indexer_told s) (terminate_requested s) (stop_reason s) (stopped s) (start_time s)
    (last_summary_time s) (rt_questions s).
Definition set_system_sockets : sockets -> runtime -> runtime := ltac:(make_setter runtime_eta system_sockets).
Definition set_rt_node_sockets : list node_socket -> runtime -> runtime := ltac:(make_setter runtime_eta rt_node_sockets).
Definition set_crawler_made : bool -> runtime -> runtime := ltac:(make_setter runtime_eta crawler_made).
Definition set_crawler_started : bool -> runtime -> runtime := ltac:(make_setter runtime_eta crawler_started).
Definition set_engine_made : bool -> runtime -> runtime := ltac:(make_setter runtime_eta engine_made).
Definition set_engine_started : bool -> runtime -> runtime := ltac:(make_setter runtime_eta engine_started).
Definition set_web_made : bool -> runtime -> runtime := ltac:(make_setter runtime_eta web_made).
Definition set_web_started : bool -> runtime -> runtime := ltac:(make_setter runtime_eta web_started).
Definition set_indexer_made : bool -> runtime -> runtime := ltac:(make_setter runtime_eta indexer_made).
Definition set_indexer_started : bool -> runtime -> runtime := ltac:(make_setter runtime_eta indexer_started).
Definition set_database_set : bool -> runtime -> runtime := ltac:(make_setter runtime_eta database_set).
Definition set_listening : bool -> runtime -> runtime := ltac:(make_setter runtime_eta listening).
Definition set_database_open : bool -> runtime -> runtime := ltac:(make_setter runtime_eta database_open).
Definition set_begun : list thread -> runtime -> runtime := ltac:(make_setter runtime_eta begun).
Definition set_running_threads : list thread -> runtime -> runtime := ltac:(make_setter runtime_eta running_threads).
Definition set_stop_event : bool -> runtime -> runtime := ltac:(make_setter runtime_eta stop_event).
Definition set_indexer_told : bool -> runtime -> runtime := ltac:(make_setter runtime_eta indexer_told).
Definition set_terminate_requested : bool -> runtime -> runtime := ltac:(make_setter runtime_eta terminate_requested).
Definition set_stop_reason : option stop_reason_t -> runtime -> runtime := ltac:(make_setter runtime_eta stop_reason).
Definition set_stopped : bool -> runtime -> runtime := ltac:(make_setter runtime_eta stopped).
Definition set_last_summary_time : Z -> runtime -> runtime := ltac:(make_setter runtime_eta last_summary_time).
Definition set_rt_questions : nat -> runtime -> runtime := ltac:(make_setter runtime_eta rt_questions).

(** [ScraperRuntime.__init__], at the time [now]. *)
Definition new_runtime (bootstrap_nodes : list address) (os : sockets) (now : Z) : res runtime :=
  assert_ (bool_decide (0 < length bootstrap_nodes)) ;;
  mret (Runtime os [] false false false false false false false false false false false [] [] false false false None false now now 0).

(** What the parts report, by the question: the crawler, the catalog, the fetch
    engine, the indexer (with the number and size of its documents once it
    knows them), and the size of the database file. *)
Record reports := Reports {
  crawler_report : nat -> list (string * Z); catalog_report : nat -> counts_t; engine_report : nat -> list (string * Z);
  indexer_report : nat -> list (string * Z) * option (Z * Z); file_size_report : nat -> Z }.

(** [stats.update(other)] *)
Definition dict_update (stats other : list (string * Z)) : list (string * Z) :=
  fold_left (fun stats kv => dict_set kv.1 kv.2 stats) other stats.

Definition counts_dict (c : counts_t) : list (string * Z) :=
  [("hashes_seen", hashes_seen c); ("hashes_discovered", hashes_discovered c); ("observations", n_observations c);
   ("with_metadata", with_metadata c); ("known_from_database", n_known_from_database c);
   ("metadata_in_memory", metadata_in_memory c); ("metadata_bytes", n_metadata_bytes c); ("fetch_pending", fetch_pending c);
   ("fetch_in_progress", fetch_in_progress c); ("fetch_done", fetch_done c); ("fetch_failed", fetch_failed c);
   ("fetchable", n_fetchable c); ("lookups_in_progress", n_lookups_in_progress c); ("evicted", n_evicted c);
   ("capacity", capacity c)]%string.

Definition indexer_dict (r : list (string * Z) * option (Z * Z)) : list (string * Z) :=
  match r.2 with
  | Some (number, size) => r.1 ++ [("index_documents", number); ("index_total_size", size)]%string
  | None => r.1
  end.

Section operations.
Context (fails : os_function -> nat -> bool) (ephemeral : nat -> Z) (urandom : nat -> bytes).
Context (outcome : part -> res unit) (starts : thread -> start_result) (outlives : thread -> bool) (rep : reports).
Context (clock_at : nat -> Z) (cfg : settings).

Definition on_sockets {A} (m : task sockets A) : task runtime A := fun s =>
  let '(r, x) := m (system_sockets s) in (r, set_system_sockets x s).

Definition ask {A} (f : nat -> A) : task runtime A :=
  n ← reads rt_questions;
  change (set_rt_questions (S n)) ;;
  mret (f n).
Definition monotonic : task runtime Z := ask clock_at.

(** [thread.start()], [thread.is_alive()], and [thread.join(timeout)], with whether
    the thread still runs.  A thread that was not started cannot be joined. *)
Definition start_thread (t : thread) : task runtime unit :=
  match starts t with
  | Unstartable => throw RuntimeError
  | Ended_at_once => change (fun s => set_begun (t :: begun s) s)
  | Runs => change (fun s => set_running_threads (t :: running_threads s) (set_begun (t :: begun s) s))
  end.
Definition check_alive (t : thread) : task runtime unit :=
  s ← reads (fun s => s);
  check (bool_decide (t ∈ running_threads s)).
Definition join_thread (t : thread) : task runtime bool :=
  s ← reads (fun s => s);
  (if decide (t ∈ begun s) then mret tt else throw RuntimeError) ;;
  change (fun s => set_running_threads (filter (fun t' => t' <> t \/ outlives t' = true) (running_threads s)) s) ;;
  reads (fun s => bool_decide (t ∈ running_threads s)).

(** ** Statistics *)

(** [stats\[key\]] *)
Definition get_key (key : string) (stats : list (string * Z)) : res Z :=
  match dict_get key stats with Some v => Ok v | None => Raise KeyError end.

Definition snapshot_stats : task runtime (list (string * Z)) :=
  now ← monotonic;
  n ← reads rt_questions;
  s ← reads (fun s => s);
  let stats := [("uptime_seconds", now - start_time s); ("nodes", st_nodes cfg); ("fetch_enabled", Z.b2z (fetch_enabled cfg))]%string%Z in
  let stats := if crawler_made s then dict_update stats (crawler_report rep n) else stats in
  let stats := dict_set "fetch_queue_size"%string 0%Z stats in
  let stats := dict_update stats (counts_dict (catalog_report rep n)) in
  let stats := if engine_made s then dict_update stats (engine_report rep n) else stats in
  let stats := if indexer_made s then dict_update stats (indexer_dict (indexer_report rep n)) else stats in
  stats ← call (
    if dict_has "index_documents"%string stats then
      number ← get_key "index_documents"%string stats;
      size ← get_key "index_total_size"%string stats;
      mret (dict_set "torrents_size"%string size (dict_set "torrents"%string number stats))
    else if negb (indexer_made s) then
      number ← get_key "with_metadata"%string stats;
      size ← get_key "metadata_bytes"%string stats;
      mret (dict_set "torrents_size"%string size (dict_set "torrents"%string number stats))
    else mret stats);
  let stats := if database_set s then dict_set "database_size"%string (file_size_report rep n) stats else stats in
  check (dict_has "hashes_seen"%string stats && dict_has "uptime_seconds"%string stats) ;;
  mret stats.

(** The keys that the line of the log reads without a default. *)
Definition summary_keys : list string :=
  ["nodes"; "hashes_seen"; "hashes_discovered"; "with_metadata"; "fetch_in_progress"; "fetch_failed"]%string.

Definition log_summary : task runtime unit :=
  stats ← snapshot_stats;
  call (sequence ((fun key => get_key key stats) <$> summary_keys)) ;;
  now ← monotonic;
  change (set_last_summary_time now) ;;
  s ← reads (fun s => s);
  check (start_time s <=? last_summary_time s)%Z.

(** ** Starting *)

Definition open_sockets_of_nodes : task runtime unit :=
  s ← reads (fun s => s);
  check (bool_decide (rt_node_sockets s = [])) ;;
  nodes ← on_sockets (create_node_sockets fails ephemeral urandom (st_port cfg) (Z.to_nat (st_nodes cfg)) AF_INET None);
  change (set_rt_node_sockets nodes) ;;
  when (ipv6_enabled cfg) (
    catch (
      more ← on_sockets (create_node_sockets fails ephemeral urandom (st_port cfg) (Z.to_nat (st_nodes cfg)) AF_INET6
        (Some (own_id <$> nodes)));
      change (set_rt_node_sockets (nodes ++ more)))
    (fun e => if decide (e = OSError) then mret tt else throw e)) ;;
  s ← reads (fun s => s);
  let number := Z.of_nat (length (rt_node_sockets s)) in
  check ((number =? st_nodes cfg) || (number =? 2 * st_nodes cfg))%Z.

Definition create_crawler : task runtime unit :=
  s ← reads (fun s => s);
  check (negb (bool_decide (rt_node_sockets s = [])) && negb (crawler_made s)) ;;
  call (outcome Make_crawler) ;;
  change (set_crawler_made true).

Definition start_indexer : task runtime unit :=
  s ← reads (fun s => s);
  check (negb (indexer_made s) && negb (database_set s)) ;;
  match database_path cfg with
  | None => mret tt
  | Some _ =>
      call (outcome Open_database) ;;
      change (set_database_open true) ;;
      change (set_database_set true) ;;
      call (outcome Enable_tracking) ;;
      call (outcome Make_indexer) ;;
      change (set_indexer_made true) ;;
      call (outcome Start_indexer) ;;
      change (set_indexer_started true) ;;
      start_thread Index_thread ;;
      check_alive Index_thread
  end.

Definition start_web : task runtime unit :=
  s ← reads (fun s => s);
  check (negb (web_made s)) ;;
  call (outcome Make_web_server) ;;
  change (set_listening true) ;;
  change (set_web_made true) ;;
  change (set_web_started true) ;;
  start_thread Web_thread ;;
  check_alive Web_thread.

Definition start_fetching : task runtime unit :=
  s ← reads (fun s => s);
  check (negb (engine_made s)) ;;
  when (fetch_enabled cfg) (
    call (outcome Raise_file_limit) ;;
    call (outcome Make_engine) ;;
    change (set_engine_made true) ;;
    change (set_engine_started true) ;;
    start_thread Fetch_thread ;;
    check_alive Fetch_thread).

(** What the crawler's thread runs, given what [crawler.run] does: a failure stops
    the scraper.  What the page opener runs: a failure is logged. *)
Definition run_crawler_thread (crawler_run : res unit) : task runtime unit :=
  s ← reads (fun s => s);
  check (crawler_made s) ;;
  catch (call crawler_run) (fun _ => change (set_stop_event true)).
Definition open_browser_quietly (url : string) (opener : res unit) : task runtime unit :=
  check (String.prefix "http://" url) ;;
  catch (call opener) (fun _ => mret tt).

Definition start_crawler : task runtime unit :=
  s ← reads (fun s => s);
  check (crawler_made s && negb (crawler_started s)) ;;
  change (set_crawler_started true) ;;
  start_thread Crawler_thread ;;
  check_alive Crawler_thread.

Definition open_browser_page : task runtime unit :=
  s ← reads (fun s => s);
  check (web_made s) ;;
  when (open_browser cfg) (start_thread Browser_thread).

(** ** Stopping *)

Definition stop_database : task runtime unit :=
  s ← reads (fun s => s);
  when (database_set s) (change (set_database_open false)).

(** [web_server.shutdown()] waits until [serve_forever] has returned, and so for ever
    if the thread that calls it was not started. *)
Definition shut_down_web : task runtime unit :=
  s ← reads (fun s => s);
  if decide (Web_thread ∈ begun s) then mret tt else throw Diverge.

Definition stop : task runtime unit :=
  s ← reads (fun s => s);
  if stopped s then mret tt else
  change (set_stopped true) ;;
  change (set_stop_event true) ;;
  when (web_made s) (shut_down_web ;; change (set_listening false)) ;;
  when (web_started s) (join_thread Web_thread ;; mret tt) ;;
  when (engine_made s) (when (engine_started s) (join_thread Fetch_thread ;; mret tt)) ;;
  when (crawler_started s) (join_thread Crawler_thread ;; mret tt) ;;
  (if indexer_made s then
     change (set_indexer_told true) ;;
     alive ← (if indexer_started s then join_thread Index_thread else mret false);
     when (negb alive) stop_database
   else stop_database) ;;
  s ← reads (fun s => s);
  (if crawler_started s && bool_decide (Crawler_thread ∈ running_threads s) then mret tt
   else on_sockets (close_node_sockets (rt_node_sockets s))) ;;
  change (set_rt_node_sockets []) ;;
  log_summary ;;
  s ← reads (fun s => s);
  check (stopped s && stop_event s).

Definition start : task runtime unit :=
  s ← reads (fun s => s);
  check (negb (stopped s) && negb (crawler_started s)) ;;
  catch (
    open_sockets_of_nodes ;; create_crawler ;; start_indexer ;; start_web ;; start_fetching ;; start_crawler ;; open_browser_page)
    (fun e => stop ;; throw e) ;;
  s ← reads (fun s => s);
  check (crawler_started s && web_made s).

(** ** Waiting *)

(** What becomes of [self.stop_event.wait(...)]: it times out, the event is set, by
    a thread that failed or by the handler of SIGTERM, or the user interrupts it; an
    event that is set already ends the wait at once. *)
Inductive wait_result := Timed_out | Event_set (by_signal : bool) | Interrupted.
Context (wait_at : nat -> wait_result).

Definition on_terminate : task runtime unit :=
  s ← reads (fun s => s);
  when (negb (stopped s)) (change (set_terminate_requested true) ;; change (set_stop_event true)) ;;
  s ← reads (fun s => s);
  check (stop_event s || stopped s).

(** The end of the loop: [reason] unless SIGTERM came. *)
Definition end_of_wait (reason : stop_reason_t) : task runtime stop_reason_t :=
  s ← reads (fun s => s);
  mret (if terminate_requested s then Terminate else reason).

Fixpoint wait_loop (rounds : nat) (deadline : option Z) : task runtime stop_reason_t :=
  match rounds with
  | O => throw Diverge
  | S rounds =>
      result ← ask wait_at;
      s ← reads (fun s => s);
      match (if stop_event s then Event_set false else result) with
      | Interrupted => mret Interrupt
      | Event_set by_signal =>
          (if by_signal : bool then on_terminate else change (set_stop_event true)) ;;
          end_of_wait Thread_failure
      | Timed_out =>
          over ← (match deadline with
                  | None => mret false
                  | Some deadline => now ← monotonic; mret (deadline <=? now)%Z
                  end);
          if over : bool then end_of_wait Duration else
          now ← monotonic;
          s ← reads (fun s => s);
          when (SUMMARY_INTERVAL_SECONDS <=? now - last_summary_time s)%Z log_summary ;;
          wait_loop rounds deadline
      end
  end.

Definition wait_until_stopped (rounds : nat) (duration : option Z) : task runtime stop_reason_t :=
  check (match duration with None => true | Some d => 0 <=? d end)%Z ;;
  deadline ← (match duration with
              | None => mret None
              | Some d => now ← monotonic; mret (Some (now + d)%Z)
              end);
  wait_loop rounds deadline.

Definition run_runtime (rounds : nat) (duration : option Z) : task runtime (list (string * Z)) :=
  check (match duration with None => true | Some d => 0 <=? d end)%Z ;;
  start ;;
  reason ← wait_until_stopped rounds duration;
  change (set_stop_reason (Some reason)) ;;
  stop ;;
  stats ← snapshot_stats;
  call (get_key "hashes_seen"%string stats) ;;
  call (get_key "with_metadata"%string stats) ;;
  s ← reads (fun s => s);
  check (stopped s) ;;
  mret stats.

(** [run_scraper]: the exit code. *)
Definition run_scraper (rounds : nat) : task runtime Z :=
  let duration := match st_duration cfg with Some (Finite d) => Some d | _ => None end in
  r ← catch (run_runtime rounds duration ;; mret None)
    (fun e => if decide (e = OSError) then mret (Some 1%Z) else if decide (e = SqliteError) then mret (Some 1%Z) else throw e);
  match r with
  | Some code => mret code
  | None =>
      s ← reads (fun s => s);
      check (stopped s) ;;
      mret (if decide (stop_reason s = Some Thread_failure) then 1 else 0)%Z
  end.
End operations.

(** ** The command line *)

(** What [argparse] makes of the options, the names of the log file and the level
    aside. *)
Record arguments := Arguments {
  arg_port : Z; arg_nodes : Z; arg_web_host : string; arg_web_port : Z; arg_duration : option seconds; arg_fetch_workers : Z;
  arg_batch_size : Z; arg_interval : seconds; arg_no_fetch : bool; arg_no_browser : bool; arg_ipv6 : bool; arg_database : option string }.

Definition default_arguments (database : option string) : arguments :=
  Arguments DEFAULT_PORT (Z.of_nat DEFAULT_NODES) DEFAULT_WEB_HOST DEFAULT_WEB_PORT None DEFAULT_MAX_CONNECTIONS DEFAULT_BATCH_SIZE
    (Finite DEFAULT_INTERVAL) false false false database.

(** The message with which [parse_arguments] ends, if any. *)
Definition argument_problem (directory_of : string -> string) (is_directory : string -> bool) (a : arguments) : option string :=
  match settings_error (arg_port a) (arg_nodes a) (arg_web_host a) (arg_web_port a) (arg_duration a) (arg_fetch_workers a)
    (arg_batch_size a) (arg_interval a) with
  | Some problem => Some problem
  | None => match arg_database a with Some path => database_error directory_of is_directory path | None => None end
  end.

Definition build_settings (directory_of : string -> string) (is_directory : string -> bool) (a : arguments) : res settings :=
  result ← new_settings directory_of is_directory (Settings (arg_port a) (arg_nodes a) (arg_web_host a) (arg_web_port a) (arg_duration a)
    (arg_fetch_workers a) (arg_batch_size a) (arg_interval a) (negb (arg_no_fetch a)) (negb (arg_no_browser a)) (arg_ipv6 a) (arg_database a));
  assert_ (st_nodes result =? arg_nodes a)%Z ;;
  mret result.

(** [main], once the options are read: the exit code.  [logging] is what
    [configure_logging] does, [run] the run with the settings. *)
Definition main_code (directory_of : string -> string) (is_directory : string -> bool) (a : arguments) (logging : res unit)
    (run : settings -> res Z) : res Z :=
  match argument_problem directory_of is_directory a with
  | Some _ => mret 2%Z
  | None =>
      match logging with
      | Raise OSError => mret 1%Z
      | Raise e => Raise e
      | Ok _ => cfg ← build_settings directory_of is_directory a; run cfg
      end
  end.
