(* ===== verification/RuntimeTheorems.v ===== *)
(** The theorems about the runtime: which settings it accepts, that whatever fails it
    closes what it has opened, and why it stops. *)
From S2P Require Import Prelude PyDict Bencode NodeIdentity AddressText Krpc TorrentInfo Catalog Tasks TaskLoops DhtCrawler.
From S2P Require Import NodeSockets Runtime.
From stdpp Require Import gmap strings.

(** ** Settings *)

(** The settings the scraper can run with. *)
Record settings_ok (s : settings) : Prop := SettingsOk {
  so_port : (0 <= st_port s <= 65535)%Z;
  so_nodes : (1 <= st_nodes s <= Z.of_nat MAX_NODES)%Z;
  so_range : (st_port s = 0 \/ st_port s + st_nodes s - 1 <= 65535)%Z;
  so_host : web_host s <> ""%string;
  so_web_port : (0 <= web_port s <= 65535)%Z;
  so_duration : match st_duration s with None => True | Some (Finite d) => (0 <= d)%Z | Some Not_finite => False end;
  so_workers : (1 <= fetch_workers s <= MAX_CONNECTIONS_LIMIT)%Z;
  so_batch : (1 <= st_batch_size s)%Z;
  so_interval : match st_interval s with Finite i => (0 < i)%Z | Not_finite => False end }.

Definition settings_problem (s : settings) : option string :=
  settings_error (st_port s) (st_nodes s) (web_host s) (web_port s) (st_duration s) (fetch_workers s) (st_batch_size s) (st_interval s).

Lemma settings_problem_none s : settings_problem s = None <-> settings_ok s.
Proof.
  unfold settings_problem, settings_error. split.
  - intros H. repeat match type of H with
    | (if ?c then _ else _) = None => destruct c eqn:?; [done|]
    end.
    repeat match goal with
    | E : negb _ = false |- _ => apply negb_false_iff in E
    | E : bool_decide _ = false |- _ => apply bool_decide_eq_false in E
    end.
    split; try lia; try done.
    + destruct (st_duration s) as [[d|]|]; [lia|done|done].
    + destruct (st_interval s) as [i|]; [lia|done].
  - intros [H1 H2 H3 H4 H5 H6 H7 H8 H9].
    repeat match goal with
    | |- (if ?c then _ else _) = None => replace c with false; [|symmetry]
    end; try done; try lia.
    all: first [by apply bool_decide_eq_false|destruct (st_interval s); [lia|done]|destruct (st_duration s) as [[d|]|]; [lia|done|done]].
Qed.

(** The settings that are accepted are exactly those the scraper can run with:
    ports and their range, the number of nodes and of connections, a host, a
    duration that is finite and not negative and a finite positive interval; every
    other combination is answered with a message about an option, and makes the
    constructor of the settings fail. *)
Theorem settings_accepted directory_of is_directory s :
  (settings_problem s = None <-> settings_ok s) /\
  (forall message, settings_problem s = Some message -> String.prefix "--" message = true) /\
  (is_Some (match new_settings directory_of is_directory s with Ok r => Some r | Raise _ => None end) <->
     settings_ok s /\ forall path, database_path s = Some path -> path <> ""%string /\ is_directory (directory_of path) = true).
Proof.
  split; [apply settings_problem_none|]. split.
  - intros message. unfold settings_problem, settings_error. repeat case_match; intros [= <-]; vm_compute; reflexivity.
  - rewrite <-settings_problem_none. unfold new_settings, settings_problem.
    set (problem := settings_error _ _ _ _ _ _ _ _). case_bool_decide as Hp; cbn [assert_ raise_if mbind res_bind negb].
    2: { split; [by intros [? ?]|by intros [? _]]. }
    assert (1 <= st_nodes s)%Z as Hn by (apply (so_nodes s), settings_problem_none, Hp). apply Z.leb_le in Hn.
    destruct (database_path s) as [path|].
    + unfold database_error. split.
      * intros Hs. split; [done|]. intros p [= <-].
        destruct (decide (path = ""%string)) as [->|Hne]; [by destruct Hs|].
        rewrite (bool_decide_eq_false_2 (path = ""%string)) in Hs by done.
        destruct (is_directory (directory_of path)); [done|]. by destruct Hs.
      * intros [_ Hpath]. destruct (Hpath path eq_refl) as [Hne Hdir]. rewrite (bool_decide_eq_false_2 (path = ""%string)) by done.
        rewrite Hdir. cbn [negb]. rewrite bool_decide_eq_true_2 by done. cbn. by rewrite Hn.
    + cbn. rewrite Hn. split; [|eauto]. intros _. by split.
Qed.

(** The options that are accepted make settings. *)
Lemma accepted_arguments_build directory_of is_directory a : argument_problem directory_of is_directory a = None ->
  exists cfg, build_settings directory_of is_directory a = Ok cfg /\ settings_ok cfg.
Proof.
  unfold argument_problem, build_settings, new_settings. intros Hp. cbn [st_port st_nodes web_host web_port st_duration fetch_workers st_batch_size st_interval database_path].
  destruct (settings_error _ _ _ _ _ _ _ _) eqn:Hs; [discriminate Hp|]. rewrite bool_decide_eq_true_2 by done. cbn [assert_ raise_if mbind res_bind negb].
  set (cfg := Settings _ _ _ _ _ _ _ _ _ _ _ _). assert (settings_ok cfg) as Hok by by apply settings_problem_none.
  assert (match arg_database a with None => true | Some path => bool_decide (database_error directory_of is_directory path = None) end = true) as ->.
  { destruct (arg_database a) as [path|]; [|done]. by apply bool_decide_eq_true. }
  cbn [assert_ raise_if mbind res_bind negb]. pose proof (so_nodes cfg Hok) as [Hn _]. apply Z.leb_le in Hn. cbn [st_nodes cfg] in Hn. rewrite Hn.
  exists cfg. split; [|done]. cbn. by rewrite Z.eqb_refl.
Qed.

(** ** Statistics *)

Lemma dict_update_has key other : forall stats, dict_has key stats = true \/ dict_has key other = true <->
  dict_has key (dict_update stats other) = true.
Proof.
  unfold dict_update. induction other as [|[k v] other IH]; intros stats; cbn [fold_left].
  { split; [by intros [?|?]|by left]. }
  rewrite <-IH. cbn [fst snd]. unfold dict_has. cbn [dict_get]. rewrite dict_get_set.
  case_decide; tauto.
Qed.

Lemma dict_set_has key k v (stats : list (string * Z)) : dict_has key stats = true -> dict_has key (dict_set k v stats) = true.
Proof. unfold dict_has. rewrite dict_get_set. by case_decide. Qed.

(** The number of documents is the indexer's to report. *)
Definition reports_ok (rep : reports) : Prop := forall n,
  dict_has "index_documents"%string (crawler_report rep n) = false /\
  dict_has "index_documents"%string (engine_report rep n) = false /\
  dict_has "index_documents"%string (indexer_report rep n).1 = false.

(** Whether the attribute with the thread is set. *)
Definition thread_set (s : runtime) (t : thread) : bool :=
  match t with
  | Web_thread => web_started s
  | Fetch_thread => engine_made s && engine_started s
  | Crawler_thread => crawler_started s
  | Index_thread => indexer_made s && indexer_started s
  | Browser_thread => false
  end.

(** The threads that [start] starts with these settings. *)
Definition wanted (cfg : settings) (t : thread) : bool :=
  match t with
  | Web_thread | Crawler_thread => true
  | Fetch_thread => fetch_enabled cfg
  | Index_thread => match database_path cfg with Some _ => true | None => false end
  | Browser_thread => open_browser cfg
  end.

(** The sockets that were left behind: one at most, and only if [setblocking] or
    [getsockname] failed. *)
Definition leftover (fails : os_function -> nat -> bool) (lost : gset nat) : Prop :=
  size lost <= 1 /\ (lost <> ∅ -> exists f n, leaves_socket f /\ fails f n = true).

Lemma leftover_empty fails : leftover fails ∅.
Proof. by split; [rewrite size_empty; lia|]. Qed.
Lemma leftover_subset fails X Y : X ⊆ Y -> leftover fails Y -> leftover fails X.
Proof.
  intros HXY [Hsize Hwhy]. split; [pose proof (subseteq_size _ _ HXY); lia|]. intros HX. apply Hwhy. intros ->. apply HX. set_solver.
Qed.
Lemma leftover_lost fails f s s' : failed_call fails f s s' -> leftover fails (lost_by f s').
Proof.
  intros (n & _ & _ & Hf). unfold lost_by. destruct (decide (leaves_socket f)); [|apply leftover_empty].
  split; [by rewrite size_singleton|]. intros _. by exists f, n.
Qed.

Section lifecycle.
Context (fails : os_function -> nat -> bool) (ephemeral : nat -> Z) (urandom : nat -> bytes).
Context (outcome : part -> res unit) (starts : thread -> start_result) (outlives : thread -> bool) (rep : reports).
Context (clock_at : nat -> Z) (cfg : settings) (wait_at : nat -> wait_result).
Implicit Types (s : runtime).

(** Only questions were asked. *)
Definition asked_more s s' : Prop := exists n, s' = set_rt_questions n s /\ rt_questions s <= n.

Lemma asked_more_trans s1 s2 s3 : asked_more s1 s2 -> asked_more s2 s3 -> asked_more s1 s3.
Proof using. intros (n & -> & H1) (m & -> & H2). exists m. split; [done|]. cbn in H2. lia. Qed.

Lemma tri_ask {A} (f : nat -> A) (Q : A -> runtime -> Prop) E s :
  Q (f (rt_questions s)) (set_rt_questions (S (rt_questions s)) s) -> tri (ask f) Q E s.
Proof using. done. Qed.

Lemma tri_on_sockets {A} (m : task sockets A) (Q : A -> runtime -> Prop) E s :
  tri m (fun a x => Q a (set_system_sockets x s)) (fun e x => E e (set_system_sockets x s)) (system_sockets s) ->
  tri (on_sockets m) Q E s.
Proof using. unfold tri, on_sockets. by destruct (m (system_sockets s)) as [[a|e] x]. Qed.

Section stats.
Context (Hrep : reports_ok rep).

Definition base_stats (now : Z) (n : nat) s : list (string * Z) :=
  let stats := [("uptime_seconds", now - start_time s); ("nodes", st_nodes cfg); ("fetch_enabled", Z.b2z (fetch_enabled cfg))]%string%Z in
  let stats := if crawler_made s then dict_update stats (crawler_report rep n) else stats in
  let stats := dict_set "fetch_queue_size"%string 0%Z stats in
  let stats := dict_update stats (counts_dict (catalog_report rep n)) in
  let stats := if engine_made s then dict_update stats (engine_report rep n) else stats in
  if indexer_made s then dict_update stats (indexer_dict (indexer_report rep n)) else stats.

Lemma base_stats_counts now n s key : dict_has key (counts_dict (catalog_report rep n)) = true \/ key = "nodes"%string \/
  key = "uptime_seconds"%string -> dict_has key (base_stats now n s) = true.
Proof using.
  intros Hkey. unfold base_stats. cbv zeta.
  assert (forall (b : bool) d o, dict_has key d = true -> dict_has key (if b then dict_update d o else d) = true) as Hup.
  { intros b d o Hd. destruct b; [|done]. apply dict_update_has. by left. }
  do 2 apply Hup. apply dict_update_has. destruct Hkey as [?|Hkey]; [by right|left]. apply dict_set_has, Hup.
  by destruct Hkey as [->| ->].
Qed.

Lemma base_stats_documents now n s : dict_has "index_documents"%string (base_stats now n s) = true ->
  dict_has "index_total_size"%string (base_stats now n s) = true.
Proof using Hrep.
  destruct (Hrep n) as (H1 & H2 & H3). unfold base_stats. cbv zeta. set (d0 := [_; _; _]).
  set (d1 := if crawler_made s then _ else d0). assert (dict_has "index_documents"%string d1 = false) as D1.
  { unfold d1. destruct (crawler_made s); [|done]. apply not_true_is_false. intros [?|?]%dict_update_has; [done|congruence]. }
  set (d2 := dict_set _ _ d1). assert (dict_has "index_documents"%string d2 = false) as D2.
  { unfold d2, dict_has. rewrite dict_get_set, decide_False by done. exact D1. }
  set (d3 := dict_update d2 _). assert (dict_has "index_documents"%string d3 = false) as D3.
  { apply not_true_is_false. unfold d3. intros [?|?]%dict_update_has; [congruence|done]. }
  set (d4 := if engine_made s then _ else d3). assert (dict_has "index_documents"%string d4 = false) as D4.
  { unfold d4. destruct (engine_made s); [|done]. apply not_true_is_false. intros [?|?]%dict_update_has; congruence. }
  destruct (indexer_made s); [|congruence]. intros [?|Hd]%dict_update_has; [congruence|]. apply dict_update_has. right.
  unfold indexer_dict in *. destruct (indexer_report rep n).2 as [[number size]|]; [|congruence].
  unfold dict_has. rewrite dict_get_app. by destruct (dict_get _ _).
Qed.

Lemma get_key_has key stats : dict_has key stats = true -> exists v, get_key key stats = Ok v.
Proof using. unfold get_key, dict_has. destruct (dict_get key stats); [eauto|done]. Qed.

Lemma tri_snapshot_stats s : tri (snapshot_stats rep clock_at cfg)
  (fun stats s' => asked_more s s' /\ forall key, key ∈ summary_keys -> dict_has key stats = true) (fun _ _ => False) s.
Proof using Hrep.
  unfold snapshot_stats. apply tri_bind, tri_ask, tri_bind, tri_reads, tri_bind, tri_reads.
  set (s1 := set_rt_questions _ s). set (n := rt_questions s1). set (now := clock_at (rt_questions s)). cbv zeta.
  change (tri (stats ← call (if dict_has "index_documents"%string (base_stats now n s1) then
      number ← get_key "index_documents"%string (base_stats now n s1);
      size ← get_key "index_total_size"%string (base_stats now n s1);
      mret (dict_set "torrents_size"%string size (dict_set "torrents"%string number (base_stats now n s1)))
    else if negb (indexer_made s1) then
      number ← get_key "with_metadata"%string (base_stats now n s1);
      size ← get_key "metadata_bytes"%string (base_stats now n s1);
      mret (dict_set "torrents_size"%string size (dict_set "torrents"%string number (base_stats now n s1)))
    else mret (base_stats now n s1));
    check (dict_has "hashes_seen"%string (if database_set s1 then dict_set "database_size"%string (file_size_report rep n) stats else stats) &&
      dict_has "uptime_seconds"%string (if database_set s1 then dict_set "database_size"%string (file_size_report rep n) stats else stats)) ;;
    mret (if database_set s1 then dict_set "database_size"%string (file_size_report rep n) stats else stats))
    (fun stats s' => asked_more s s' /\ forall key, key ∈ summary_keys -> dict_has key stats = true) (fun _ _ => False) s1).
  pose proof (base_stats_counts now n s1) as Hhas. set (base := base_stats now n s1) in *.
  apply tri_bind. apply (tri_mono _ (fun stats s' => s' = s1 /\ forall key, dict_has key base = true -> dict_has key stats = true) _ (fun _ _ => False)); [| |done].
  - destruct (dict_has "index_documents"%string base) eqn:Hdocs; [|destruct (negb (indexer_made s1))].
    + destruct (get_key_has "index_documents" base Hdocs) as [number Hn].
      destruct (get_key_has "index_total_size" base (base_stats_documents _ _ _ Hdocs)) as [size Hsz].
      eapply tri_call_Ok; [by rewrite Hn; cbn [mbind res_bind]; rewrite Hsz|]. split; [done|]. intros key Hk. by do 2 apply dict_set_has.
    + destruct (get_key_has "with_metadata" base) as [number Hn]; [apply Hhas; by left|].
      destruct (get_key_has "metadata_bytes" base) as [size Hsz]; [apply Hhas; by left|].
      eapply tri_call_Ok; [by rewrite Hn; cbn [mbind res_bind]; rewrite Hsz|]. split; [done|]. intros key Hk. by do 2 apply dict_set_has.
    + by apply tri_ret.
  - intros stats s2 [-> Hk]. set (last := if database_set s1 then _ else stats).
    assert (forall key, dict_has key base = true -> dict_has key last = true) as Hlast.
    { intros key Hb. unfold last. destruct (database_set s1); [apply dict_set_has|]; by apply Hk. }
    apply tri_bind, tri_check.
    { rewrite !Hlast; [done|apply Hhas; right; by right|apply Hhas; by left]. }
    apply tri_ret. split; [by exists (S (rt_questions s)); split; [|lia]|]. intros key Hin. apply Hlast, Hhas.
    unfold summary_keys in Hin. repeat (apply elem_of_cons in Hin as [->|Hin]; [first [by left|by right; left]|]).
    by apply elem_of_nil in Hin.
Qed.

(** Only questions were asked and the time of the summary was noted. *)
Definition summed_up s s' : Prop := exists n t, s' = set_last_summary_time t (set_rt_questions n s) /\ rt_questions s <= n.

Lemma tri_log_summary s : (forall n, (start_time s <= clock_at n)%Z) ->
  tri (log_summary rep clock_at cfg) (fun _ => summed_up s) (fun _ _ => False) s.
Proof using Hrep.
  intros Hclock. unfold log_summary. apply tri_bind. eapply tri_mono; [apply tri_snapshot_stats| |done].
  intros stats s1 [(n & -> & Hn) Hkeys].
  assert (exists values, sequence ((fun key => get_key key stats) <$> summary_keys) = Ok values) as [values Hv].
  { destruct (sequence_fmap_Forall2 (fun key => get_key key stats) (fun _ _ => True) summary_keys) as (l & Hl & _); [|eauto].
    intros key Hin. destruct (get_key_has key stats (Hkeys key Hin)) as [v Hv]. eauto. }
  apply tri_bind. eapply tri_call_Ok; [exact Hv|]. apply tri_bind, tri_ask, tri_bind, tri_change, tri_bind, tri_reads, tri_check.
  { cbn. apply Z.leb_le, Hclock. }
  eexists (S n), _. split; [done|lia].
Qed.
End stats.

(** ** Stopping *)

(** What the runtime holds is what its attributes say. *)
Record holding (s0 s : runtime) : Prop := Holding {
  h_sockets : sockets_ok (system_sockets s);
  h_open : exists lost, leftover fails lost /\
    open_sockets (system_sockets s) = list_to_set (udp_socket <$> rt_node_sockets s) ∪ lost ∪ open_sockets (system_sockets s0);
  h_fresh : Forall (fun node => udp_socket node ∉ open_sockets (system_sockets s0)) (rt_node_sockets s);
  h_web : web_made s = web_started s;
  h_listening : listening s = true -> web_made s = true;
  h_database : database_open s = true -> database_set s = true;
  h_running : forall t, t ∈ running_threads s -> t ∈ begun s;
  h_begun : forall t, t ∈ begun s -> starts t <> Unstartable /\ (t = Browser_thread \/ thread_set s t = true);
  h_start : start_time s = start_time s0 }.

(** The threads whose attributes are set were started, but for one, if any. *)
Definition joinable_but (t0 : option thread) s : Prop := forall t, thread_set s t = true -> Some t <> t0 -> t ∈ begun s.

(** Everything is closed, but for what a thread that did not end in time still
    uses, and for a socket that was left behind. *)
Record released (s0 s : runtime) : Prop := Released {
  r_stopped : stopped s = true;
  r_event : stop_event s = true;
  r_listening : listening s = false;
  r_nodes : rt_node_sockets s = [];
  r_threads : forall t, t ∈ running_threads s -> t = Browser_thread \/ outlives t = true;
  r_sockets : outlives Crawler_thread = false -> exists lost, leftover fails lost /\
    open_sockets (system_sockets s) = lost ∪ open_sockets (system_sockets s0);
  r_database : outlives Index_thread = false -> database_open s = false }.

(** Threads have ended. *)
Definition fewer_threads (t : thread) s s' : Prop := exists l, s' = set_running_threads l s /\ l ⊆ running_threads s /\
  (t ∈ l -> outlives t = true).

Lemma tri_join t (Q : bool -> runtime -> Prop) E s : t ∈ begun s ->
  (forall s', fewer_threads t s s' -> Q (bool_decide (t ∈ running_threads s')) s') -> tri (join_thread outlives t) Q E s.
Proof using.
  intros Ht HQ. unfold join_thread. apply tri_bind, tri_reads. rewrite decide_True by done. apply tri_bind, tri_ret, tri_bind, tri_change.
  apply (HQ (set_running_threads (filter (fun t' => t' <> t \/ outlives t' = true) (running_threads s)) s)).
  eexists. split; [done|]. split; [intros t'; by rewrite list_elem_of_filter; intros [_ ?]|].
  rewrite list_elem_of_filter. by intros [[?|?] _].
Qed.

Lemma tri_join_unbegun t (Q : bool -> runtime -> Prop) (E : exn -> runtime -> Prop) s : t ∉ begun s -> E RuntimeError s ->
  tri (join_thread outlives t) Q E s.
Proof using. intros Ht HE. unfold join_thread. apply tri_bind, tri_reads. rewrite decide_False by done. by apply tri_bind, tri_throw. Qed.

(** Joining a thread if its attribute is set. *)
Lemma tri_join_when (started : bool) t (Q : unit -> runtime -> Prop) E s :
  (started = true -> t ∈ begun s) -> (t ∈ running_threads s -> started = true) -> (forall s', fewer_threads t s s' -> Q tt s') ->
  tri (when started (join_thread outlives t ;; mret tt)) Q E s.
Proof using.
  intros Hb Ht HQ. apply tri_when; intros Hs.
  - apply tri_bind, tri_join; [by apply Hb|]. intros s' Hs'. apply tri_ret, HQ, Hs'.
  - apply HQ. exists (running_threads s). split; [by destruct s|]. split; [done|]. intros Hin. specialize (Ht Hin). congruence.
Qed.

Lemma running_set s0 s t : holding s0 s -> t ∈ running_threads s -> t <> Browser_thread -> thread_set s t = true.
Proof using. clear. intros [] Ht Hb. by destruct (h_begun0 t (h_running0 t Ht)) as [_ [?|?]]. Qed.

Context (Hrep : reports_ok rep).

Lemma tri_shut_down s (Q : unit -> runtime -> Prop) E : (web_made s = true -> Web_thread ∈ begun s) -> (listening s = true -> web_made s = true) ->
  Q tt (set_listening false s) -> tri (when (web_made s) (shut_down_web ;; change (set_listening false))) Q E s.
Proof using.
  intros Hw Hl HQ. apply tri_when; intros Hm.
  - unfold shut_down_web. apply tri_bind, tri_bind, tri_reads. rewrite decide_True by by apply Hw. by apply tri_ret, tri_change.
  - destruct (listening s) eqn:E0; [by rewrite Hl in Hm|]. replace s with (set_listening false s) at 1; [done|]. destruct s; cbn in *. by rewrite E0.
Qed.

Lemma tri_when_both (a b : bool) (m : task runtime unit) Q E s : tri (when (a && b) m) Q E s -> tri (when a (when b m)) Q E s.
Proof using. by destruct a. Qed.

(** After [stop] nothing is left. *)
Lemma tri_stop s0 s : holding s0 s -> joinable_but None s -> stopped s = false -> (forall n, (start_time s0 <= clock_at n)%Z) ->
  tri (stop outlives rep clock_at cfg) (fun _ s' => released s0 s' /\ stop_reason s' = stop_reason s) (fun _ _ => False) s.
Proof using Hrep.
  clear ephemeral urandom wait_at. intros Hh Hj Hst Hclock. pose proof (running_set s0 s) as Hset. specialize (fun t => Hset t Hh).
  destruct Hh as [H1 H2 H3 H6 H4 H5 H7 H8 H9]. unfold stop. apply tri_bind, tri_reads. rewrite Hst.
  apply tri_bind, tri_change, tri_bind, tri_change, tri_bind.
  set (s1 := set_stop_event true (set_stopped true s)). change (web_made s) with (web_made s1).
  apply tri_shut_down; [intros Hw; apply (Hj Web_thread); [unfold thread_set; rewrite <-H6; exact Hw|done]|exact H4|].
  set (s2 := set_listening false s1). apply tri_bind, tri_join_when;
    [intros Hw; by apply (Hj Web_thread)|intros Hin; by apply (Hset Web_thread)|]. intros ? (l3 & -> & L3 & O3).
  apply tri_bind, tri_when_both, tri_join_when; [intros Hw; by apply (Hj Fetch_thread)|intros Hin%L3; by apply (Hset Fetch_thread)|].
  intros ? (l4 & -> & L4 & O4).
  apply tri_bind, tri_join_when; [intros Hw; by apply (Hj Crawler_thread)|intros Hin%L4%L3; by apply (Hset Crawler_thread)|].
  intros ? (l5 & -> & L5 & O5). cbn in L4, L5.
  assert (forall l, l ⊆ l5 -> (Index_thread ∈ l -> outlives Index_thread = true) ->
    forall t, t ∈ l -> t = Browser_thread \/ outlives t = true) as Hrun.
  { intros l Hl Hi t Ht. destruct t; [right; by apply O3, L4, L5, Hl|right; by apply O4, L5, Hl|right; by apply O5, Hl|right; by apply Hi|by left]. }
  assert (Index_thread ∈ l5 -> indexer_made s && indexer_started s = true) as Hindex by (intros Hin%L5%L4%L3; by apply (Hset Index_thread)).
  set (s5 := set_running_threads l5 s2). change (set_running_threads l5 _) with s5. apply tri_bind.
  apply (tri_mono _ (fun _ s' => exists l d told, s' = set_database_open d (set_indexer_told told (set_running_threads l s2)) /\ l ⊆ l5 /\
    (Index_thread ∈ l -> outlives Index_thread = true) /\ (outlives Index_thread = false -> d = false)) _ (fun _ _ => False));
    [| |done].
  { assert (forall l told, tri stop_database (fun _ s' => exists d, s' = set_database_open d (set_indexer_told told (set_running_threads l s2)) /\ d = false)
      (fun _ _ => False) (set_indexer_told told (set_running_threads l s2))) as Hdb.
    { intros l told. unfold stop_database. apply tri_bind, tri_reads. apply tri_when; intros Hd; [apply tri_change; by eexists|].
      exists false. split; [|done]. cbn in Hd. destruct (database_open s) eqn:Ho; [rewrite H5 in Hd; done|].
      unfold s2, s1. destruct s; cbn in *. by rewrite Ho. }
    destruct (indexer_made s) eqn:Him; cycle 1.
    - change s5 with (set_indexer_told (indexer_told s) (set_running_threads l5 s2)). eapply tri_mono; [apply Hdb| |done].
      intros [] ? (d & -> & Hd). exists l5, d, (indexer_told s). split; [done|]. split; [done|]. split; [|done].
      intros Hin. by specialize (Hindex Hin).
    - apply tri_bind, tri_change, tri_bind. set (s6 := set_indexer_told true s5).
      apply (tri_mono _ (fun alive s' => exists l, s' = set_running_threads l s6 /\ l ⊆ l5 /\
        (Index_thread ∈ l -> outlives Index_thread = true) /\ (alive = true -> Index_thread ∈ l)) _ (fun _ _ => False)); [| |done].
      + destruct (indexer_started s) eqn:His.
        * apply tri_join; [by apply (Hj Index_thread); [cbn; rewrite Him, His|]|].
          intros ? (l & -> & Hl & Ho). exists l. split; [done|]. split; [done|]. split; [done|].
          by intros Ha%bool_decide_eq_true.
        * apply tri_ret. exists l5. split; [done|]. split; [done|]. split; [|done]. intros Hin. by specialize (Hindex Hin).
      + intros alive ? (l & -> & Hl & Ho & Ha). apply tri_when; intros Hal.
        * change (set_running_threads l s6) with (set_indexer_told true (set_running_threads l s2)). eapply tri_mono; [apply Hdb| |done].
          intros [] ? (d & -> & Hd). exists l, d, true. by split.
        * apply negb_false_iff in Hal. exists l, (database_open s), true. split; [done|]. split; [done|]. split; [done|].
          rewrite Ho by (by apply Ha). done. }
  intros [] ? (l & d & told & -> & Hl & Hi & Hd). apply tri_bind, tri_reads. set (s6 := set_database_open _ _). apply tri_bind.
  apply (tri_mono _ (fun _ s' => exists x, s' = set_system_sockets x s6 /\
    (outlives Crawler_thread = false -> exists lost, leftover fails lost /\ open_sockets x = lost ∪ open_sockets (system_sockets s0)))
    _ (fun _ _ => False)); [| |done].
  { case_bool_decide as Hc; [destruct (crawler_started s6) eqn:Hcs|rewrite andb_false_r].
    - apply tri_ret. exists (system_sockets s). split; [done|]. intros Ho. rewrite O5 in Ho; [done|]. by apply Hl.
    - assert (crawler_started s = true) as Hcs'; [|cbn in Hcs; congruence]. apply (Hset Crawler_thread); [|done]. by apply L3, L4, L5, Hl.
    - apply tri_on_sockets. eapply tri_mono; [apply close_all| |done]. intros [] x (Hx & _).
      exists x. split; [done|]. intros _. destruct H2 as (lost & Hlost & H2). exists (lost ∖ list_to_set (udp_socket <$> rt_node_sockets s)).
      split; [eapply leftover_subset; [|exact Hlost]; set_solver|]. cbn in Hx. rewrite Hx, H2. clear -H3. apply set_eq. intros y.
      rewrite elem_of_difference, !elem_of_union, elem_of_difference, elem_of_list_to_set.
      assert (y ∈ open_sockets (system_sockets s0) -> y ∉ udp_socket <$> rt_node_sockets s); [|tauto].
      intros Hy (node & -> & Hn)%list_elem_of_fmap. rewrite Forall_forall in H3. by apply (H3 node Hn). }
  intros [] ? (x & -> & Hx). apply tri_bind, tri_change. apply tri_bind.
  eapply tri_mono; [apply tri_log_summary; [done|cbn; by rewrite H9]| |done]. intros [] ? (n & t & -> & _).
  apply tri_bind, tri_reads, tri_check; [done|]. split; [|done]. split; cbn; try done. by apply Hrun.
Qed.

(** A thread whose attribute is set but that was not started cannot be joined, and
    the web server waits for it for ever. *)
Definition unstarted (t : thread) s : Prop := thread_set s t = true /\ t ∉ begun s /\ joinable_but (Some t) s.
Definition stuck_exn (t : thread) : exn := if decide (t = Web_thread) then Diverge else RuntimeError.

(** [stop] has given up: what it had not closed by then stays open. *)
Definition same_resources s s' : Prop := stopped s' = true /\ system_sockets s' = system_sockets s /\
  rt_node_sockets s' = rt_node_sockets s /\ database_open s' = database_open s.

Lemma tri_stop_stuck s0 t s : holding s0 s -> unstarted t s -> stopped s = false ->
  tri (stop outlives rep clock_at cfg) (fun _ _ => False) (fun e s' => e = stuck_exn t /\ same_resources s s') s.
Proof using.
  clear ephemeral urandom wait_at Hrep. intros Hh (Ht & Hnot & Hj) Hst. pose proof (running_set s0 s) as Hset. specialize (fun t => Hset t Hh).
  destruct Hh as [H1 H2 H3 H6 H4 H5 H7 H8 H9]. unfold stop. apply tri_bind, tri_reads. rewrite Hst.
  apply tri_bind, tri_change, tri_bind, tri_change, tri_bind.
  set (s1 := set_stop_event true (set_stopped true s)). change (web_made s) with (web_made s1).
  destruct (decide (t = Web_thread)) as [->|Hweb].
  { apply tri_when; intros Hm; [|exfalso; change (web_made s = false) in Hm; cbn in Ht; congruence].
    unfold shut_down_web. apply tri_bind, tri_bind, tri_reads. rewrite decide_False by done. by apply tri_throw. }
  apply tri_shut_down; [intros Hw; apply (Hj Web_thread); [unfold thread_set; rewrite <-H6; exact Hw|congruence]|exact H4|].
  set (s2 := set_listening false s1). apply tri_bind, tri_join_when;
    [intros Hw; apply (Hj Web_thread); [done|congruence]|intros Hin; by apply (Hset Web_thread)|]. intros ? (l3 & -> & L3 & O3).
  assert (forall l, same_resources s (set_running_threads l s2)) as Hsame by done.
  destruct (decide (t = Fetch_thread)) as [->|Hfetch].
  { apply tri_bind, tri_when_both, tri_when; intros Hm; [|exfalso; cbn in Ht, Hm; congruence]. by apply tri_bind, tri_join_unbegun. }
  apply tri_bind, tri_when_both, tri_join_when;
    [intros Hw; apply (Hj Fetch_thread); [done|congruence]|intros Hin%L3; by apply (Hset Fetch_thread)|].
  intros ? (l4 & -> & L4 & O4).
  destruct (decide (t = Crawler_thread)) as [->|Hcrawl].
  { apply tri_bind, tri_when; intros Hm; [|exfalso; cbn in Ht, Hm; congruence]. by apply tri_bind, tri_join_unbegun. }
  apply tri_bind, tri_join_when;
    [intros Hw; apply (Hj Crawler_thread); [done|congruence]|intros Hin%L4%L3; by apply (Hset Crawler_thread)|].
  intros ? (l5 & -> & L5 & O5). destruct t; try done. cbn in Ht. apply andb_prop in Ht as [-> ->].
  apply tri_bind, tri_bind, tri_change, tri_bind. by apply tri_join_unbegun.
Qed.

(** ** Starting *)

(** The exceptions that leave no thread behind that cannot be joined: what a call
    raised; a thread that had ended before the scraper saw it run; the page opener
    that could not be started. *)
Definition excused (e : exn) : Prop :=
  (e = OSError /\ exists f n, fails f n = true) \/ (exists p, outcome p = Raise e) \/
  (e = AssertionError /\ exists t, starts t = Ended_at_once) \/ (e = RuntimeError /\ starts Browser_thread = Unstartable).

(** The number of node sockets. *)
Definition node_count s : Prop := exists families, (families = 1 \/ families = 2)%Z /\
  Z.of_nat (length (rt_node_sockets s)) = (families * st_nodes cfg)%Z.

(** The step of [start] that starts the thread. *)
Definition step_of (t : thread) : nat :=
  match t with Index_thread => 2 | Web_thread => 3 | Fetch_thread => 4 | Crawler_thread => 5 | Browser_thread => 6 end.

(** Before the [n]th step of [start]. *)
Record stage (n : nat) s : Prop := Stage {
  sg_nodes : bool_decide (rt_node_sockets s = []) = bool_decide (n = 0);
  sg_count : 1 <= n -> node_count s;
  sg_crawler : crawler_made s = bool_decide (2 <= n);
  sg_indexer : n <= 2 -> indexer_made s = false /\ indexer_started s = false /\ database_set s = false;
  sg_database : 3 <= n -> database_open s = wanted cfg Index_thread;
  sg_web : web_made s = bool_decide (4 <= n);
  sg_engine : n <= 4 -> engine_made s = false;
  sg_started : crawler_started s = bool_decide (6 <= n);
  sg_joinable : joinable_but None s;
  sg_begun : forall t, wanted cfg t = true -> step_of t < n -> t ∈ begun s;
  sg_fresh : stopped s = false /\ stop_event s = false /\ terminate_requested s = false /\ rt_questions s = 0 }.

(** A thread could not be started: the sockets and the database are open. *)
Definition cannot_start (t : thread) s : Prop := t <> Browser_thread /\ starts t = Unstartable /\ wanted cfg t = true /\
  unstarted t s /\ node_count s /\ database_open s = wanted cfg Index_thread.

(** How a step of [start] fails. *)
Definition step_fails s0 (e : exn) s : Prop := holding s0 s /\ stopped s = false /\
  (excused e /\ joinable_but None s \/ exists t, cannot_start t s).

(** What a step of [start] does: it comes to the next stage, or it raises, and
    whatever it made by then the attributes say. *)
Definition step_ok (n : nat) s0 (m : task runtime unit) : Prop := forall s, holding s0 s -> stage n s ->
  tri m (fun _ s' => holding s0 s' /\ stage (S n) s') (step_fails s0) s.

Lemma tri_outcome p (Q : unit -> runtime -> Prop) (E : exn -> runtime -> Prop) s :
  Q tt s -> (forall e, excused e -> E e s) -> tri (call (outcome p)) Q E s.
Proof using. intros HQ HE. unfold tri, call. destruct (outcome p) as [[]|e] eqn:Hp; [done|]. apply HE. right. left. eauto. Qed.

(** Only attributes were set. *)
Lemma begun_set s0 s t : holding s0 s -> t <> Browser_thread -> thread_set s t = false -> t ∉ begun s.
Proof using. clear. intros [] Hb Hs Ht. destruct (h_begun0 t Ht) as [_ [?|?]]; congruence. Qed.

(** A thread is started and seen to run, or it has ended, or it could not be
    started. *)
Lemma tri_start_thread t s0 (Q : unit -> runtime -> Prop) s : t <> Browser_thread -> wanted cfg t = true ->
  holding s0 s -> unstarted t s -> stopped s = false -> node_count s -> database_open s = wanted cfg Index_thread ->
  (forall s', s' = set_running_threads (t :: running_threads s) (set_begun (t :: begun s) s) ->
     holding s0 s' -> joinable_but None s' -> Q tt s') ->
  tri (start_thread starts t ;; check_alive t) Q (step_fails s0) s.
Proof using.
  intros Hb Hw Hh Ht Hst Hn Hd HQ. pose proof Ht as (Hset & Hnot & Hj).
  assert (forall l, joinable_but None (set_running_threads l (set_begun (t :: begun s) s))) as Hjoin.
  { intros l t' Ht' _. cbn. apply elem_of_cons. destruct (decide (t' = t)); [by left|right]. apply Hj; [exact Ht'|congruence]. }
  assert (starts t <> Unstartable -> forall l, (forall t', t' ∈ l -> t' ∈ t :: begun s) ->
    holding s0 (set_running_threads l (set_begun (t :: begun s) s))) as Hhold.
  { intros Hne l Hl. destruct Hh. split; try done. intros t' Ht'. cbn in Ht'. apply elem_of_cons in Ht' as [->|Ht'].
    - split; [done|]. by right.
    - by apply h_begun0. }
  unfold start_thread, check_alive. apply tri_bind. destruct (starts t) eqn:Hs.
  - apply tri_change, tri_bind, tri_reads. unfold check. rewrite bool_decide_eq_true_2 by (cbn; left). apply tri_call.
    apply HQ; [done| |apply Hjoin]. apply Hhold; [done|]. intros t'. rewrite !elem_of_cons. intros [?|?]; [by left|right; by apply Hh].
  - apply tri_change, tri_bind, tri_reads. unfold check. rewrite bool_decide_eq_false_2 by (cbn; intros Hin; by apply Hnot, Hh).
    apply tri_call. assert (set_begun (t :: begun s) s = set_running_threads (running_threads s) (set_begun (t :: begun s) s)) as -> by by destruct s.
    split; [apply Hhold; [done|]; intros t' Ht'; right; by apply Hh|]. split; [done|]. left. split; [|apply Hjoin].
    right. right. left. split; [done|]. by exists t.
  - apply tri_throw. split; [done|]. split; [done|]. right. exists t. by split.
Qed.

Ltac split_ands := repeat match goal with X : _ && _ = true |- _ => apply andb_prop in X as [? ?] end.
Ltac begun_attribute t H := destruct H as [? H]; split; [done|]; destruct H as [H|H]; [by left|right];
  destruct t; cbn in H |- *; first [done|rewrite ?andb_true_iff in *; intuition congruence].
Ltac hold := match goal with
  | H : holding _ _ |- holding _ _ =>
      let Hb := fresh in pose proof (h_begun _ _ H) as Hb; destruct H; split; cbn -[thread_set] in *; try done; auto;
      try (let t := fresh "t" in let Ht := fresh in intros t Ht; apply Hb in Ht; begun_attribute t Ht)
  end.
Ltac at_stage := match goal with
  | H : stage _ _ |- stage _ _ => destruct H; split; cbn in *; try done; try (intros; lia); auto with lia
  | H : stage _ _ |- _ => by destruct H as [? ? ? ? ? ? ? ? ? ? (? & ? & ? & ?)]
  end.
Ltac joined := match goal with
  | H : stage _ _ |- joinable_but _ _ =>
      let Hjoin := fresh in pose proof (sg_joinable _ _ H) as Hjoin;
      let t := fresh "t" in let Ht := fresh in let Hne := fresh in intros t Ht Hne; destruct t; cbn in Ht |- *; split_ands;
      first [done|congruence|apply Hjoin; [cbn; by rewrite ?andb_true_iff|congruence]]
  end.
Ltac raised := match goal with He : excused ?e |- step_fails _ _ _ => split; [first [done|hold]|split; [at_stage|left; split; [exact He|joined]]] end.
Ltac later := match goal with
  | |- forall t, wanted _ t = true -> _ => let t := fresh "t" in let Hw := fresh in let Hs := fresh in intros t Hw Hs;
      destruct t; cbn in Hw, Hs; first [congruence|lia|by left|try right; match goal with X : forall t, wanted _ t = true -> _ |- _ => apply X; cbn; [done|lia] end]
  | |- _ => idtac
  end.

Lemma step_create_crawler s0 : step_ok 1 s0 (create_crawler outcome).
Proof using.
  clear Hrep wait_at. intros s Hh Hg. unfold create_crawler. apply tri_bind, tri_reads, tri_bind, tri_check.
  { destruct Hg as [Hn _ Hc]. by rewrite Hn, Hc. }
  apply tri_bind, tri_outcome; [|intros e He; raised].
  apply tri_change. split; [hold|at_stage; later].
Qed.

Lemma step_start_indexer s0 : step_ok 2 s0 (start_indexer outcome starts cfg).
Proof using.
  clear Hrep wait_at. intros s Hh Hg. unfold start_indexer.
  assert (indexer_made s = false /\ indexer_started s = false /\ database_set s = false) as (Hi & His & Hd) by (destruct Hg; auto).
  assert (database_open s = false) as Ho by (destruct (database_open s) eqn:?; [|done]; by rewrite (h_database _ _ Hh) in Hd).
  pose proof (begun_set s0 s Index_thread Hh ltac:(done)) as Hnot. cbn in Hnot. rewrite Hi in Hnot. specialize (Hnot eq_refl).
  apply tri_bind, tri_reads, tri_bind, tri_check; [by rewrite Hi, Hd|].
  assert (wanted cfg Index_thread = match database_path cfg with Some _ => true | None => false end) as Hw by done.
  destruct (database_path cfg) as [path|] eqn:Hp; [|apply tri_ret; split; [hold|at_stage; later]]; [|intros _; by rewrite Ho, Hp].
  apply tri_bind, tri_outcome; [|intros e He; raised].
  apply tri_bind, tri_change, tri_bind, tri_change, tri_bind, tri_outcome; [|intros e He; raised].
  apply tri_bind, tri_outcome; [|intros e He; raised].
  apply tri_bind, tri_change, tri_bind, tri_outcome; [|intros e He; raised].
  apply tri_bind, tri_change. eapply tri_start_thread; [done|done|hold| |at_stage| |by rewrite Hw|].
  - split; [done|]. split; [done|]. joined.
  - destruct Hg. cbn. auto.
  - intros s' -> Hh' Hj'. split; [done|at_stage; later].
Qed.

Lemma step_start_web s0 : step_ok 3 s0 (start_web outcome starts).
Proof using.
  clear Hrep wait_at. intros s Hh Hg. unfold start_web.
  assert (web_made s = false) as Hm by by destruct Hg.
  pose proof (begun_set s0 s Web_thread Hh ltac:(done)) as Hnot. cbn in Hnot. rewrite <-(h_web _ _ Hh), Hm in Hnot. specialize (Hnot eq_refl).
  apply tri_bind, tri_reads, tri_bind, tri_check; [by rewrite Hm|].
  apply tri_bind, tri_outcome; [|intros e He; raised].
  apply tri_bind, tri_change, tri_bind, tri_change, tri_bind, tri_change.
  eapply tri_start_thread; [done|done|hold| |at_stage|destruct Hg; cbn; auto|destruct Hg; cbn; auto|].
  - split; [done|]. split; [done|]. joined.
  - intros s' -> Hh' Hj'. split; [done|at_stage; later].
Qed.

Lemma step_start_fetching s0 : step_ok 4 s0 (start_fetching outcome starts cfg).
Proof using.
  clear Hrep wait_at. intros s Hh Hg. unfold start_fetching.
  assert (engine_made s = false) as Hm by (destruct Hg; auto).
  pose proof (begun_set s0 s Fetch_thread Hh ltac:(done)) as Hnot. cbn in Hnot. rewrite Hm in Hnot. specialize (Hnot eq_refl).
  apply tri_bind, tri_reads, tri_bind, tri_check; [by rewrite Hm|]. apply tri_when; intros Hf; [|split; [hold|at_stage; later]].
  apply tri_bind, tri_outcome; [|intros e ?; raised].
  apply tri_bind, tri_outcome; [|intros e ?; raised].
  apply tri_bind, tri_change, tri_bind, tri_change.
  eapply tri_start_thread; [done|done|hold| |at_stage|destruct Hg; cbn; auto|destruct Hg; cbn; auto with lia|].
  - split; [done|]. split; [done|]. joined.
  - intros s' -> Hh' Hj'. split; [done|at_stage; later].
Qed.

Lemma step_start_crawler s0 : step_ok 5 s0 (start_crawler starts).
Proof using.
  clear Hrep wait_at. intros s Hh Hg. unfold start_crawler.
  assert (crawler_started s = false) as Hm by (by destruct Hg).
  pose proof (begun_set s0 s Crawler_thread Hh ltac:(done)) as Hnot. cbn in Hnot. specialize (Hnot Hm).
  apply tri_bind, tri_reads, tri_bind, tri_check; [destruct Hg as [_ _ -> _ _ _ _ -> _ _]; done|].
  apply tri_bind, tri_change.
  eapply tri_start_thread; [done|done|hold| |at_stage|destruct Hg; cbn; auto with lia|destruct Hg; cbn; auto with lia|].
  - split; [done|]. split; [done|]. joined.
  - intros s' -> Hh' Hj'. split; [done|at_stage; later].
Qed.

(** The page opener is not watched. *)
Lemma step_open_browser_page s0 : step_ok 6 s0 (open_browser_page starts cfg).
Proof using.
  clear Hrep wait_at. intros s Hh Hg. unfold open_browser_page.
  apply tri_bind, tri_reads, tri_bind, tri_check; [by rewrite (sg_web _ _ Hg)|].
  apply tri_when; intros Hw; [|split; [hold|at_stage; later]].
  assert (starts Browser_thread <> Unstartable -> forall l, (forall t, t ∈ l -> t ∈ Browser_thread :: begun s) ->
    holding s0 (set_running_threads l (set_begun (Browser_thread :: begun s) s)) /\
    stage 7 (set_running_threads l (set_begun (Browser_thread :: begun s) s))) as Hmore.
  { intros Hne l Hl. split; [destruct Hh; split; try done|].
    - intros t. cbn. rewrite elem_of_cons. intros [->|Ht]; [by split; [|left]|]. by apply h_begun0.
    - at_stage; [|later; by right; apply sg_begun0; cbn; [|lia]]. intros t Ht _. right. by apply sg_joinable0. }
  unfold start_thread. destruct (starts Browser_thread) eqn:Hs.
  - apply tri_change, Hmore; [done|]. intros t. rewrite !elem_of_cons. intros [?|?]; [by left|right; by apply Hh].
  - apply tri_change. assert (set_begun (Browser_thread :: begun s) s = set_running_threads (running_threads s) (set_begun (Browser_thread :: begun s) s))
      as -> by by destruct s. apply Hmore; [done|]. intros t Ht. right. by apply Hh.
  - apply tri_throw. split; [done|]. split; [apply Hg|]. left. split; [by right; right; right|apply Hg].
Qed.

(** The ids that are drawn differ. *)
Definition random_ok (s0 : runtime) : Prop := (forall x, length (urandom x) = NODE_ID_LENGTH) /\
  let first := made (system_sockets s0) in
  forall x y, first <= x < first + Z.to_nat (st_nodes cfg) -> first <= y < first + Z.to_nat (st_nodes cfg) -> urandom x = urandom y -> x = y.

Context (Hcfg : settings_ok cfg).

Lemma node_arguments ids s : match ids with
    | Some l => length l = Z.to_nat (st_nodes cfg) /\ NoDup l
    | None => random_ok s
    end -> arguments_ok urandom (st_port cfg) (Z.to_nat (st_nodes cfg)) ids (system_sockets s).
Proof using Hcfg.
  destruct Hcfg as [H1 H2 H3]. unfold MAX_NODES in H2. intros Hids. split; [unfold MAX_NODES; lia|].
  split; [lia|]. split; [lia|]. destruct ids; [done|exact Hids].
Qed.

(** The sockets that were made. *)
Lemma holding_sockets s nodes lost x : holding s s -> sockets_ok x -> leftover fails lost ->
  open_sockets x = list_to_set (udp_socket <$> nodes) ∪ lost ∪ open_sockets (system_sockets s) ->
  Forall (fun node => udp_socket node ∉ open_sockets (system_sockets s)) nodes ->
  holding s (set_rt_node_sockets nodes (set_system_sockets x s)).
Proof using. clear ephemeral urandom. intros [] Hx Hl Ho Hf. split; cbn; try done. by exists lost. Qed.

Lemma stage_sockets s l x : stage 0 s -> l <> [] -> (exists families, (families = 1 \/ families = 2)%Z /\
  Z.of_nat (length l) = (families * st_nodes cfg)%Z) -> stage 1 (set_rt_node_sockets l (set_system_sockets x s)).
Proof using.
  clear. intros Hg Hl Hn. at_stage; [by rewrite bool_decide_eq_false_2|]. intros t Ht Hlt. destruct t; cbn in Hlt; lia.
Qed.

Lemma tri_open_sockets s : random_ok s -> holding s s -> stage 0 s ->
  tri (open_sockets_of_nodes fails ephemeral urandom cfg) (fun _ s' => holding s s' /\ stage 1 s') (step_fails s) s.
Proof using Hcfg.
  clear Hrep outlives rep clock_at wait_at. intros Hr Hh Hg. unfold open_sockets_of_nodes.
  assert (rt_node_sockets s = []) as Hnil by (destruct Hg as [Hn]; by apply bool_decide_eq_true in Hn).
  pose proof (so_nodes cfg Hcfg) as Hcount. set (count := Z.to_nat (st_nodes cfg)).
  assert (sockets_ok (system_sockets s)) as Hs by apply Hh.
  apply tri_bind, tri_reads, tri_bind, tri_check; [by rewrite Hnil|]. apply tri_bind, tri_on_sockets.
  eapply tri_mono; [apply (tri_create_node_sockets fails ephemeral urandom); [done|by apply (node_arguments None)]|..]; cycle 1.
  { intros e x (-> & (f & Hfail & _ & Ho & _) & Hx).
    pose proof (holding_sockets s [] _ x Hh Hx (leftover_lost _ _ _ _ Hfail)) as Hm. split; [|split; [at_stage|left; split; [left|joined]]].
    - cbn in Hm. rewrite (left_id_L ∅ (∪)) in Hm. specialize (Hm Ho (Forall_nil_2 _)).
      replace (set_system_sockets x s) with (set_rt_node_sockets [] (set_system_sockets x s)); [done|]. destruct s; cbn in *. by subst.
    - destruct Hfail as (n & _ & _ & Hf). split; [done|by exists f, n]. }
  intros nodes x ((Hlen & Hnd & Hids & Ho & Hf & _) & Hx). apply tri_bind, tri_change.
  set (s1 := set_rt_node_sockets nodes _).
  assert (nodes <> []) as Hne by (intros ->; cbn in Hlen; lia).
  assert (holding s s1) as H1 by (apply (holding_sockets s nodes ∅); [done|done|apply leftover_empty|by rewrite (right_id_L ∅ (∪))|done]).
  assert (forall y, stage 1 (set_rt_node_sockets nodes (set_system_sockets y s))) as G1.
  { intros y. apply stage_sockets; [done|done|]. exists 1%Z. split; [by left|]. lia. }
  apply tri_bind, (tri_mono _ (fun _ s' => holding s s' /\ stage 1 s') _ (fun _ _ => False)); [| |done].
  2: { intros [] s' (Hh' & Hg'). apply tri_bind, tri_reads, tri_check; [|done].
       destruct (sg_count _ _ Hg' ltac:(lia)) as (families & [-> | ->] & Hl'); lia. }
  apply tri_when; intros _; [|split; [done|apply G1]]. apply tri_catch, tri_bind, tri_on_sockets.
  eapply tri_mono; [apply (tri_create_node_sockets fails ephemeral urandom); [done|by apply (node_arguments (Some (own_id <$> nodes)) s1);
    rewrite length_fmap]|..].
  - intros more y ((Hlen' & _ & _ & Ho' & Hf' & _) & Hy). apply tri_change. cbn [system_sockets s1 set_rt_node_sockets set_system_sockets] in Ho', Hf'.
    split.
    + apply (holding_sockets s (nodes ++ more) ∅ y Hh Hy (leftover_empty _)).
      * rewrite Ho', Ho, fmap_app, list_to_set_app_L. clear. set_solver.
      * apply Forall_app. split; [done|]. eapply Forall_impl; [exact Hf'|]. cbn. intros node. rewrite Ho. clear. set_solver.
    + apply (stage_sockets s (nodes ++ more) y); [done|by destruct nodes|]. exists 2%Z. split; [by right|]. rewrite length_app. lia.
  - intros e y (-> & (f & Hfail & _ & Ho' & _) & Hy). rewrite decide_True by done. apply tri_ret. split; [|apply (G1 y)].
    apply (holding_sockets s nodes (lost_by f y) y Hh Hy (leftover_lost _ _ _ _ Hfail)); [|done].
    rewrite Ho'. cbn. rewrite Ho. clear. set_solver.
Qed.

(** Before [start]. *)
Definition ready s : Prop := holding s s /\ stage 0 s /\ random_ok s /\ forall n, (start_time s <= clock_at n)%Z.

Lemma tri_step n s0 m k (Q : unit -> runtime -> Prop) s : step_ok n s0 m -> holding s0 s /\ stage n s ->
  (forall s', holding s0 s' /\ stage (S n) s' -> tri k Q (step_fails s0) s') ->
  tri (m ;; k) Q (step_fails s0) s.
Proof using. intros Hm [Hh Hg] Hk. apply tri_bind. eapply tri_mono; [by apply Hm| |done]. intros [] s' H. by apply Hk. Qed.

(** A thread that the settings ask for could not be started, and [stop] could not
    join it: the node sockets and the database stay open, and a second call of
    [stop] does nothing. *)
Definition stuck s0 (e : exn) s : Prop := exists t, t <> Browser_thread /\ starts t = Unstartable /\ wanted cfg t = true /\
  e = stuck_exn t /\ stopped s = true /\ node_count s /\
  Forall (fun node => udp_socket node ∈ open_sockets (system_sockets s) /\ udp_socket node ∉ open_sockets (system_sockets s0)) (rt_node_sockets s) /\
  database_open s = wanted cfg Index_thread.

(** What is left after a run that raises [e]. *)
Definition left_by s0 (e : exn) s : Prop := excused e /\ released s0 s \/ stuck s0 e s.

Lemma tri_start s : ready s -> tri (start fails ephemeral urandom outcome starts outlives rep clock_at cfg)
  (fun _ s' => holding s s' /\ stage 7 s') (left_by s) s.
Proof using Hrep Hcfg.
  intros (Hh & Hg & Hr & Hclock). unfold start. apply tri_bind, tri_reads, tri_bind, tri_check.
  { rewrite (sg_started _ _ Hg). by destruct (sg_fresh _ _ Hg) as (-> & _). }
  apply tri_bind, tri_catch. apply (tri_mono _ (fun _ s' => holding s s' /\ stage 7 s') _ (step_fails s)).
  - apply tri_bind. eapply tri_mono; [by apply tri_open_sockets| |done]. intros [] s1 H1.
    eapply tri_step; [apply step_create_crawler|exact H1|]. clear s1 H1. intros s1 H1.
    eapply tri_step; [apply step_start_indexer|exact H1|]. clear s1 H1. intros s1 H1.
    eapply tri_step; [apply step_start_web|exact H1|]. clear s1 H1. intros s1 H1.
    eapply tri_step; [apply step_start_fetching|exact H1|]. clear s1 H1. intros s1 H1.
    eapply tri_step; [apply step_start_crawler|exact H1|]. clear s1 H1. intros s1 [H1 G1]. by apply step_open_browser_page.
  - intros [] s' [Hh' Hg']. apply tri_bind, tri_reads, tri_check; [|done]. by rewrite (sg_started _ _ Hg'), (sg_web _ _ Hg').
  - intros e s' (Hh' & Hst & [[He Hj]|(t & Hb & Hs & Hw & Hun & Hn & Hd)]); apply tri_bind.
    + eapply tri_mono; [by apply (tri_stop s)| |done]. intros [] s'' [Hrel _]. apply tri_throw. by left.
    + eapply tri_mono; [by apply (tri_stop_stuck s t)|done|]. intros e' s'' (-> & Hst' & Hsys & Hnodes & Hopen). right. exists t.
      split; [done|]. split; [done|]. split; [done|]. split; [done|]. split; [done|].
      split; [unfold node_count; by rewrite Hnodes|]. rewrite Hnodes, Hsys, Hopen. split; [|done].
      destruct Hh' as [_ (lost & _ & Ho) Hfresh]. apply Forall_forall. intros node Hin. rewrite Forall_forall in Hfresh.
      split; [|by apply Hfresh]. rewrite Ho. apply elem_of_union_l, elem_of_union_l, elem_of_list_to_set, list_elem_of_fmap_2, Hin.
Qed.

(** The threads end without an exception; after a failure of the crawler the wait
    ends. *)
Lemma tri_run_crawler_thread crawler_run s : crawler_made s = true ->
  tri (run_crawler_thread crawler_run) (fun _ s' => crawler_run <> Ok tt -> stop_event s' = true) (fun _ _ => False) s.
Proof using.
  clear. intros Hmade. unfold run_crawler_thread. apply tri_bind, tri_reads, tri_bind, tri_check; [done|]. apply tri_catch.
  destruct crawler_run as [[]|e]; [|done]. by apply tri_ret.
Qed.

Lemma tri_open_browser_quietly url opener s : String.prefix "http://" url = true ->
  tri (open_browser_quietly url opener) (fun _ s' => s' = s) (fun _ _ => False) s.
Proof using.
  clear. intros Hurl. unfold open_browser_quietly. apply tri_bind, tri_check; [done|]. apply tri_catch. by destruct opener.
Qed.

(** ** Waiting *)

(** What the [n]th question tells about the reason to stop: the wait was
    interrupted; the event was set, by SIGTERM or by a thread that failed; or it
    timed out and by then the deadline had passed. *)
Definition explains (deadline : option Z) (n : nat) (reason : stop_reason_t) : Prop :=
  match wait_at n with
  | Interrupted => reason = Interrupt
  | Event_set by_signal => reason = (if by_signal then Terminate else Thread_failure)
  | Timed_out => reason = Duration /\ exists d, deadline = Some d /\ (d <= clock_at (S n))%Z
  end.

(** From the [n]th question on a wait no longer times out, or the deadline has
    passed. *)
Definition comes_to_end (deadline : option Z) (n : nat) : Prop := forall m, n <= m ->
  wait_at m <> Timed_out \/ exists d, deadline = Some d /\ (d <= clock_at (S m))%Z.

(** While it runs. *)
Definition running s0 s : Prop := holding s0 s /\ joinable_but None s /\ stopped s = false /\ stop_event s = false /\ terminate_requested s = false.

Lemma holding_same s0 s n t e q r : holding s0 s ->
  holding s0 (set_stop_reason r (set_terminate_requested q (set_stop_event e (set_last_summary_time t (set_rt_questions n s))))).
Proof using. clear. by intros []; split. Qed.

Lemma running_same s0 s n t : running s0 s -> running s0 (set_last_summary_time t (set_rt_questions n s)).
Proof using. clear. intros ([] & H). by split; [split|]. Qed.

Lemma tri_wait_loop s0 deadline last : comes_to_end deadline last -> (forall n, (start_time s0 <= clock_at n)%Z) -> forall rounds s,
  running s0 s -> last < rt_questions s + rounds -> 0 < rounds ->
  tri (wait_loop rep clock_at cfg wait_at rounds deadline)
    (fun reason s' => holding s0 s' /\ joinable_but None s' /\ stopped s' = false /\ exists n, rt_questions s <= n /\ explains deadline n reason) (fun _ _ => False) s.
Proof using Hrep.
  clear Hcfg ephemeral urandom. intros Hend Hclock. induction rounds as [|rounds IH]; intros s Hs Hlast Hpos; [lia|].
  cbn [wait_loop]. apply tri_bind, tri_ask, tri_bind, tri_reads. set (n := rt_questions s) in *. set (s1 := set_rt_questions (S n) s).
  destruct Hs as (Hh & Hj & Hst & Hev & Hterm).
  assert (running s0 s1) as H1 by (split; [by destruct Hh; split|done]).
  assert (stop_event s1 = false) as -> by exact Hev.
  assert (forall reason, explains deadline n reason -> exists m, n <= m /\ explains deadline m reason) as Hn by (intros r Hr; by exists n).
  unfold explains in Hn at 1. destruct (wait_at n) as [|by_signal|] eqn:Hw.
  - apply tri_bind. apply (tri_mono _ (fun over s' => exists m, n < m /\ s' = set_rt_questions m s /\
      (over = true -> exists d, deadline = Some d /\ (d <= clock_at (S n))%Z) /\
      (over = false -> forall d, deadline = Some d -> (clock_at (S n) < d)%Z)) _ (fun _ _ => False)); [| |done].
    { destruct deadline as [d|].
      - apply tri_bind, tri_ask, tri_ret. exists (S (S n)). split; [lia|]. split; [done|].
        cbn. split; intros Hd; [exists d; split; [done|lia]|intros ? [= <-]; lia].
      - apply tri_ret. exists (S n). split; [lia|]. by split. }
    intros over s2 (m & Hm & -> & Hover & Hnot). destruct over.
    + apply tri_bind, tri_reads, tri_ret. cbn. rewrite Hterm. split; [by destruct Hh; split|]. split; [done|]. split; [done|]. apply Hn. split; [done|by apply Hover].
    + apply tri_bind, tri_ask, tri_bind, tri_reads, tri_bind. cbn [rt_questions set_rt_questions]. set (s2 := set_rt_questions (S m) _).
      assert (n < last) as Hnl.
      { apply Nat.nle_gt. intros Hle. destruct (Hend n Hle) as [?|(d & Hd & Hpast)]; [done|]. specialize (Hnot eq_refl d Hd). lia. }
      apply (tri_mono _ (fun _ s' => exists k t, s' = set_last_summary_time t (set_rt_questions k s) /\ n < k) _ (fun _ _ => False)); [| |done].
      { apply tri_when; intros _; [|exists (S m), (last_summary_time s); split; [by destruct s|lia]].
        eapply tri_mono; [apply tri_log_summary; [done|]| |done].
        - intros k. cbn. rewrite (h_start _ _ Hh). apply Hclock.
        - intros [] ? (k & t & -> & Hk). exists k, t. cbn in Hk. split; [done|lia]. }
      intros [] ? (k & t & -> & Hk).
      eapply tri_mono; [apply IH; [by apply running_same|cbn; lia|lia]| |done]. cbn.
      intros reason s' (Hh' & Hj' & Hst' & m' & Hm' & He). split; [done|]. split; [done|]. split; [done|]. exists m'. split; [lia|done].
  - apply tri_bind. apply (tri_mono _ (fun _ s' => exists e, s' = set_terminate_requested by_signal (set_stop_event e s1)) _ (fun _ _ => False));
      [| |done].
    { destruct by_signal.
      - unfold on_terminate. apply tri_bind, tri_reads, tri_bind, tri_when; cbn; intros Hst'; [|rewrite Hst in Hst'; done].
        apply tri_bind, tri_change, tri_change, tri_bind, tri_reads, tri_check; [done|]. by exists true.
      - apply tri_change. exists true. unfold s1. destruct s; cbn in *. by rewrite Hterm. }
    intros [] ? (e & ->). unfold end_of_wait. apply tri_bind, tri_reads, tri_ret. cbn.
    split; [by destruct Hh; split|]. split; [done|]. split; [done|]. by apply Hn.
  - apply tri_ret. split; [apply H1|]. split; [done|]. split; [done|]. by apply Hn.
Qed.

(** The deadline of a run: the first question is the time at which it waits. *)
Definition deadline_of (duration : option Z) : option Z := (fun d => clock_at 0 + d)%Z <$> duration.
Definition duration_ok (duration : option Z) : Prop := match duration with None => True | Some d => (0 <= d)%Z end.

(** A run is over, and this is why it was stopped. *)
Definition over (duration : option Z) s0 s : Prop := released s0 s /\
  exists n reason, stop_reason s = Some reason /\ explains (deadline_of duration) n reason.

Lemma released_same s0 s n : released s0 s -> released s0 (set_rt_questions n s).
Proof using. by intros []; split. Qed.

Lemma tri_get_key key stats (Q : Z -> runtime -> Prop) E s : dict_has key stats = true -> (forall v, Q v s) -> tri (call (get_key key stats)) Q E s.
Proof using. intros Hkey HQ. destruct (get_key_has key stats Hkey) as [v Hv]. by eapply tri_call_Ok. Qed.

Lemma tri_run_runtime duration last rounds s : ready s -> duration_ok duration ->
  comes_to_end (deadline_of duration) last -> last < rounds ->
  tri (run_runtime fails ephemeral urandom outcome starts outlives rep clock_at cfg wait_at rounds duration)
    (fun stats s' => over duration s s' /\ (forall key, key ∈ summary_keys -> dict_has key stats = true) /\
      forall t, wanted cfg t = true -> starts t <> Unstartable)
    (left_by s) s.
Proof using Hrep Hcfg.
  intros Hready Hdur Hend Hrounds. destruct (Hready) as (_ & _ & _ & Hclock). unfold run_runtime.
  assert (match duration with None => true | Some d => 0 <=? d end = true)%Z as Hd by (destruct duration; [by apply Z.leb_le|done]).
  apply tri_bind, tri_check; [done|]. apply tri_bind. eapply tri_mono; [by apply tri_start| |done].
  intros [] s1 [Hh1 [_ _ _ _ _ _ _ _ Hj1 Hall (Hst1 & Hev1 & Hterm1 & Hq1)]].
  assert (forall t, wanted cfg t = true -> starts t <> Unstartable) as Hstarts.
  { intros t Ht. apply (h_begun _ _ Hh1), (Hall t Ht). destruct t; cbn; lia. }
  apply tri_bind. unfold wait_until_stopped. apply tri_bind, tri_check; [done|].
  apply tri_bind, (tri_mono _ (fun deadline s' => deadline = deadline_of duration /\ exists n, s' = set_rt_questions n s1) _ (fun _ _ => False));
    [| |done].
  { destruct duration as [d|]; [apply tri_bind, tri_ask, tri_ret|apply tri_ret].
    - rewrite Hq1. split; [done|by eexists].
    - split; [done|]. exists 0. rewrite <-Hq1. by destruct s1. }
  intros deadline ? (-> & n & ->). eapply tri_mono; [apply (tri_wait_loop s _ last); [done|done| |cbn; lia|lia]| |done].
  { split; [by destruct Hh1; split|done]. }
  intros reason s2 (Hh2 & Hj2 & Hst2 & m & _ & Hm). apply tri_bind, tri_change, tri_bind.
  eapply tri_mono; [apply (tri_stop s); [by destruct Hh2; split|done|done|done]| |done]. intros [] s3 [Hrel Hreason]. apply tri_bind.
  eapply tri_mono; [by apply tri_snapshot_stats| |done]. intros stats ? [(k & -> & _) Hkeys].
  apply tri_bind, tri_get_key; [apply Hkeys; unfold summary_keys; set_solver|]. intros _.
  apply tri_bind, tri_get_key; [apply Hkeys; unfold summary_keys; set_solver|]. intros _.
  apply tri_bind, tri_reads, tri_bind, tri_check; [apply Hrel|]. apply tri_ret.
  split; [|by split]. split; [by apply released_same|]. by exists m, reason.
Qed.

Lemma fresh_ready bootstrap_nodes os now s : new_runtime bootstrap_nodes os now = Ok s -> sockets_ok os ->
  (forall n, (now <= clock_at n)%Z) -> random_ok s -> ready s.
Proof using.
  clear Hcfg Hrep ephemeral rep wait_at. unfold new_runtime. case_bool_decide; [|done]. intros [= <-] Hos Hclock Hr. split; [|split; [|by split]].
  - split; cbn; try done; try (by intros ? ?%not_elem_of_nil). exists ∅. split; [apply leftover_empty|]. clear. set_solver.
  - split; cbn; try done; try lia. by intros [] Ht.
Qed.
End lifecycle.

(** What a run needs: a runtime that was just made, with valid settings, a clock
    that does not go back, random ids that differ, and that the wait comes to an
    end. *)
Record run_ok (urandom : nat -> bytes) (rep : reports) (clock_at : nat -> Z) (cfg : settings) (wait_at : nat -> wait_result)
    (bootstrap_nodes : list address) (os : sockets) (now : Z) (duration : option Z) (last : nat) (s : runtime) : Prop := RunOk {
  ro_new : new_runtime bootstrap_nodes os now = Ok s;
  ro_os : sockets_ok os;
  ro_clock : forall n, (now <= clock_at n)%Z;
  ro_random : random_ok urandom cfg s;
  ro_settings : settings_ok cfg;
  ro_reports : reports_ok rep;
  ro_duration : duration_ok duration;
  ro_end : comes_to_end clock_at wait_at (deadline_of clock_at duration) last }.

(** C12. A run leaves nothing behind, or a thread could not be started.  Whichever
    call fails, [run] returns or raises.  If every thread but the page opener's could
    be started, what it raises is what that call raised, and either way the event is
    set, the web server is closed, no thread runs but for the page opener and the
    ones that did not end in time, and unless the crawler or the index thread is one
    of these, the database and every socket the run has opened are closed, but for
    one socket of which [setblocking] or [getsockname] failed.  If it returns, the
    reason it gives is what ended the wait: the interrupt, the signal, a failed
    thread, or the deadline.  If the system could not start one of the threads of
    the web server, the fetch engine, the crawler or the indexer, [stop] cannot join
    it: the node sockets and the database stay open, and [RuntimeError] leaves [run],
    or, if it is the web server's thread, [run] waits for ever. *)
Theorem runtime_releases fails ephemeral urandom outcome starts outlives rep clock_at cfg wait_at rounds duration bootstrap_nodes os now last s :
  run_ok urandom rep clock_at cfg wait_at bootstrap_nodes os now duration last s -> last < rounds ->
  match run_runtime fails ephemeral urandom outcome starts outlives rep clock_at cfg wait_at rounds duration s with
  | (Ok stats, s') => over fails outlives clock_at wait_at duration s s' /\ dict_has "hashes_seen"%string stats = true
  | (Raise e, s') =>
      excused fails outcome starts e /\ released fails outlives s s' \/ stuck starts cfg s e s'
  end.
Proof.
  intros [] Hrounds. assert (ready fails urandom starts clock_at cfg s) as Hready by by eapply fresh_ready.
  pose proof (tri_run_runtime fails ephemeral urandom outcome starts outlives rep clock_at cfg wait_at) as Hrun.
  specialize (Hrun ro_reports0 ro_settings0 duration last rounds s Hready ro_duration0 ro_end0 Hrounds). unfold tri in Hrun.
  destruct (run_runtime _ _ _ _ _ _ _ _ _ _ _ _ s) as [[stats|e] s'].
  - destruct Hrun as (Hover & Hkeys & _). split; [done|]. apply Hkeys. unfold summary_keys. set_solver.
  - exact Hrun.
Qed.

(** C40. What a thread that cannot be started leaves behind.  If no other call fails,
    but one of the threads that the settings ask for, other than the page opener's,
    cannot be started, [run] raises [RuntimeError], or waits for ever if it is the web
    server's; the runtime counts as stopped, yet all its node sockets, one or two per
    node, are open, and so is the database if there is one. *)
Theorem unstarted_thread_leaks fails ephemeral urandom outcome starts outlives rep clock_at cfg wait_at rounds duration bootstrap_nodes os now last s t0 :
  run_ok urandom rep clock_at cfg wait_at bootstrap_nodes os now duration last s -> last < rounds ->
  (forall f n, fails f n = false) -> (forall p, outcome p = Ok tt) ->
  (forall t, starts t <> Ended_at_once) -> starts Browser_thread = Runs ->
  wanted cfg t0 = true -> starts t0 = Unstartable ->
  exists e s', run_runtime fails ephemeral urandom outcome starts outlives rep clock_at cfg wait_at rounds duration s = (Raise e, s') /\
    stuck starts cfg s e s'.
Proof.
  intros [] Hrounds Hfails Hout Hended Hbrowser Hw Ht0.
  assert (ready fails urandom starts clock_at cfg s) as Hready by by eapply fresh_ready.
  pose proof (tri_run_runtime fails ephemeral urandom outcome starts outlives rep clock_at cfg wait_at) as Hrun.
  specialize (Hrun ro_reports0 ro_settings0 duration last rounds s Hready ro_duration0 ro_end0 Hrounds). unfold tri in Hrun.
  destruct (run_runtime _ _ _ _ _ _ _ _ _ _ _ _ s) as [[stats|e] s'].
  - destruct Hrun as (_ & _ & Hall). by destruct (Hall t0 Hw).
  - exists e, s'. split; [done|]. destruct Hrun as [[Hex _]|Hstuck]; [|done]. exfalso.
    destruct Hex as [[_ (f & n & Hf)]|[[p Hp]|[[_ [t Ht]]|[_ Hbr]]]]; [congruence|congruence|by destruct (Hended t)|congruence].
Qed.

(** The exit code tells how the run ended.  [run_scraper] returns 0 if the run
    was stopped by the deadline, by the user or by SIGTERM; 1 if a thread failed,
    or if starting raised an [OSError] or an error of the database; any other
    exception that starting raises it passes on.  What the run held is released in
    every case, but for that of a thread that could not be started. *)
Theorem exit_code_tells fails ephemeral urandom outcome starts outlives rep clock_at cfg wait_at rounds bootstrap_nodes os now last s :
  run_ok urandom rep clock_at cfg wait_at bootstrap_nodes os now
    (match st_duration cfg with Some (Finite d) => Some d | _ => None end) last s -> last < rounds ->
  match run_scraper fails ephemeral urandom outcome starts outlives rep clock_at cfg wait_at rounds s with
  | (Ok code, s') => released fails outlives s s' /\
      (code = 0%Z /\ (exists reason, stop_reason s' = Some reason /\ reason <> Thread_failure) \/
       code = 1%Z /\ (stop_reason s' = Some Thread_failure \/ exists e, excused fails outcome starts e /\ (e = OSError \/ e = SqliteError)))
  | (Raise e, s') => left_by fails outcome starts outlives cfg s e s' /\ e <> OSError /\ e <> SqliteError
  end.
Proof.
  intros [] Hrounds. assert (ready fails urandom starts clock_at cfg s) as Hready by by eapply fresh_ready.
  set (duration := match st_duration cfg with Some (Finite d) => Some d | _ => None end) in *.
  pose proof (tri_run_runtime fails ephemeral urandom outcome starts outlives rep clock_at cfg wait_at) as Hrun.
  specialize (Hrun ro_reports0 ro_settings0 duration last rounds s Hready ro_duration0 ro_end0 Hrounds).
  match goal with |- match ?m s with _ => _ end => cut (tri m (fun code s' => released fails outlives s s' /\
      (code = 0%Z /\ (exists reason, stop_reason s' = Some reason /\ reason <> Thread_failure) \/
       code = 1%Z /\ (stop_reason s' = Some Thread_failure \/ exists e, excused fails outcome starts e /\ (e = OSError \/ e = SqliteError))))
    (fun e s' => left_by fails outcome starts outlives cfg s e s' /\ e <> OSError /\ e <> SqliteError) s) end.
  { unfold tri. by destruct (run_scraper _ _ _ _ _ _ _ _ _ _ _ s) as [[code|e] s']. }
  assert (forall e s', stuck starts cfg s e s' -> e <> OSError /\ e <> SqliteError) as Hstuck.
  { intros e s' (t & _ & _ & _ & -> & _). unfold stuck_exn. by case_decide. }
  unfold run_scraper. fold duration. apply tri_bind, tri_catch, tri_bind. eapply tri_mono; [exact Hrun|..].
  - intros stats s' ([Hrel (n & reason & Hreason & _)] & _). apply tri_ret, tri_bind, tri_reads, tri_bind, tri_check; [apply Hrel|].
    apply tri_ret. split; [done|]. rewrite Hreason. case_decide as Hf; [right; split; [done|left; done]|left].
    split; [done|]. exists reason. split; [done|]. congruence.
  - intros e s' Hleft. case_decide as H1; [|case_decide as H2].
    + destruct Hleft as [[He Hrel]|[? ?]%Hstuck]; [|done]. apply tri_ret, tri_ret. split; [done|]. right. split; [done|]. right. exists e. by split; [|left].
    + destruct Hleft as [[He Hrel]|[? ?]%Hstuck]; [|done]. apply tri_ret, tri_ret. split; [done|]. right. split; [done|]. right. exists e. by split; [|right].
    + by apply tri_throw.
Qed.

(** ** A run *)

Definition sample_settings : settings :=
  Settings 6881 2 "127.0.0.1" 8080 (Some (Finite 2000000)) 256 6 (Finite 100000) true false true (Some "lif.db"%string).
Definition sample_reports : reports := Reports (fun _ => [("packets_sent"%string, 7%Z)]) (fun _ => Counts 3 3 3 1 0 1 900 0 0 1 2 0 0 0 1000)
  (fun _ => [("fetch_attempts"%string, 4%Z)]) (fun _ => ([("index_pending"%string, 0%Z)], Some (1, 900)%Z)) (fun _ => 4096%Z).
Definition sample_bootstrap : list address := [(bs "127.0.0.1", 6881%Z)].
(** A second from question to question. *)
Definition sample_clock (n : nat) : Z := (Z.of_nat n * 1000000)%Z.

Lemma sample_run_ok (wait_at : nat -> wait_result) : exists s,
  run_ok sample_id sample_reports sample_clock sample_settings wait_at sample_bootstrap (Sockets ∅ 0 0) 0
    (Some 2000000%Z) 2 s.
Proof.
  eexists. split; try done.
  - intros n. unfold sample_clock. lia.
  - split; [done|]. cbn. intros x y Hx Hy. apply sample_id_inj; lia.
  - split; cbn; try lia; done.
  - intros m Hm. right. eexists. split; [reflexivity|]. unfold sample_clock. lia.
Qed.

(** The ones of [l] cannot be started. *)
Definition starts_but (l : list thread) (t : thread) : start_result := if decide (t ∈ l) then Unstartable else Runs.

Lemma runtime_releases_witness : exists s,
  new_runtime sample_bootstrap (Sockets ∅ 0 0) 0 = Ok s /\
  let fails := fails_once Get_sock_name 24 in
  match run_runtime fails (fun _ => 50000%Z) sample_id (fun _ => Ok tt) (starts_but [Browser_thread]) (fun _ => false) sample_reports
    sample_clock sample_settings (fun _ => Timed_out) 5 (Some 2000000%Z) s with
  | (Ok stats, s') => over fails (fun _ => false) sample_clock (fun _ => Timed_out) (Some 2000000%Z) s s' /\ dict_has "hashes_seen"%string stats = true
  | (Raise e, s') =>
      excused fails (fun _ => Ok tt) (starts_but [Browser_thread]) e /\ released fails (fun _ => false) s s' \/
      stuck (starts_but [Browser_thread]) sample_settings s e s'
  end.
Proof.
  destruct (sample_run_ok (fun _ => Timed_out)) as [s Hs]. exists s. split; [apply Hs|]. cbv zeta.
  apply (runtime_releases _ _ _ _ _ _ _ _ _ _ _ _ _ _ _ 2 s Hs). lia.
Defined.

Lemma unstarted_thread_leaks_witness : exists s,
  new_runtime sample_bootstrap (Sockets ∅ 0 0) 0 = Ok s /\
  exists e s', run_runtime (fun _ _ => false) (fun _ => 50000%Z) sample_id (fun _ => Ok tt) (starts_but [Crawler_thread]) (fun _ => false)
    sample_reports sample_clock sample_settings (fun _ => Timed_out) 5 (Some 2000000%Z) s = (Raise e, s') /\
    stuck (starts_but [Crawler_thread]) sample_settings s e s'.
Proof.
  destruct (sample_run_ok (fun _ => Timed_out)) as [s Hs]. exists s. split; [apply Hs|].
  apply (unstarted_thread_leaks _ _ _ _ _ _ _ _ _ _ _ _ _ _ _ 2 s Crawler_thread Hs); [lia|done|done| |done|done|done].
  intros t. unfold starts_but. by case_decide.
Defined.

Lemma exit_code_tells_witness : exists s,
  new_runtime sample_bootstrap (Sockets ∅ 0 0) 0 = Ok s /\
  let outcome p := match p with Open_database => Raise SqliteError | _ => Ok tt end in
  let fails (_ : os_function) (_ : nat) := false in
  match run_scraper fails (fun _ => 50000%Z) sample_id outcome (fun _ => Runs) (fun _ => false) sample_reports
    sample_clock sample_settings (fun _ => Timed_out) 5 s with
  | (Ok code, s') => released fails (fun _ => false) s s' /\
      (code = 0%Z /\ (exists reason, stop_reason s' = Some reason /\ reason <> Thread_failure) \/
       code = 1%Z /\ (stop_reason s' = Some Thread_failure \/ exists e, excused fails outcome (fun _ => Runs) e /\ (e = OSError \/ e = SqliteError)))
  | (Raise e, s') => left_by fails outcome (fun _ => Runs) (fun _ => false) sample_settings s e s' /\ e <> OSError /\ e <> SqliteError
  end.
Proof.
  destruct (sample_run_ok (fun _ => Timed_out)) as [s Hs]. exists s. split; [apply Hs|]. cbv zeta.
  apply (exit_code_tells _ _ _ _ _ _ _ _ sample_settings _ _ _ _ _ 2 s Hs). lia.
Defined.

(** It sees the deadline at its second look, and closes all four sockets. *)
Example sample_run :
  match new_runtime sample_bootstrap (Sockets ∅ 0 0) 0 with
  | Ok s => let '(r, s') := run_scraper (fun _ _ => false) (fun _ => 50000%Z) sample_id (fun _ => Ok tt) (fun _ => Runs) (fun _ => false) sample_reports
      sample_clock sample_settings (fun _ => Timed_out) 5 s in
      (match r with Ok code => code = 0%Z | Raise _ => False end) /\ stop_reason s' = Some Duration /\
      open_sockets (system_sockets s') = ∅ /\ made (system_sockets s') = 4 /\ running_threads s' = []
  | Raise _ => False
  end.
Proof. vm_compute. repeat split; reflexivity. Qed.
