(* ===== verification/WebInterface.v ===== *)
(** The web interface ([web_interface.py]): what the handler answers to a request.

    The target of the request is split by [urlsplit] of [UrlSplit]; what the
    statistics are, the page, the numbers' digits and the two functions that
    [urlsplit] calls on a host are parameters.  A handler
    calls the catalog with its lock, once, and then reads the database, where any
    statement may fail; [pause] is what other threads do to the database while the
    handler sleeps before its second attempt. *)
From S2P Require Import Prelude PyDict Bencode NodeIdentity AddressText Krpc TorrentInfo Catalog Tasks TypoIndex TorrentDatabase.
From S2P Require Import UrlText UrlSplit MagnetLink JsonText.

Definition DEFAULT_SEARCH_LIMIT : Z := 20.
Definition MAX_SEARCH_LIMIT : Z := 200.
Definition MAX_QUERY_LENGTH : nat := 200.
Definition ROUTE_TORRENT_PREFIX : list Z := chars "/api/torrent/".
Definition SORT_COLUMNS : list (list Z * sort_key_t) :=
  [(chars "name", SORT_NAME); (chars "size", SORT_SIZE); (chars "file_count", SORT_FILE_COUNT);
   (chars "seen_count", SORT_SEEN_COUNT); (chars "announce_count", SORT_ANNOUNCE_COUNT); (chars "last_seen", SORT_LAST_SEEN)].
Definition DATABASE_UNAVAILABLE : string := "search database unavailable".
Definition CONTENT_JSON : string := "application/json; charset=utf-8".
Definition CONTENT_HTML : string := "text/html; charset=utf-8".
Definition CONTENT_SECURITY_POLICY : string :=
  "default-src 'none'; script-src 'unsafe-inline'; style-src 'unsafe-inline'; connect-src 'self'".
#[global] Instance sort_key_eq_dec : EqDecision sort_key_t.
Proof. solve_decision. Defined.

Inductive engine_t := ENGINE_SQLITE | ENGINE_MEMORY.

(** ** Numbers in texts *)

Section numbers.
(** The value of a decimal digit of Unicode. *)
Context (digit_value : Z -> option Z).

(** [int(text)]: in a text that has others than ASCII characters white space and
    decimal digits are those of Unicode. *)
Definition plain_char (c : Z) : Z :=
  if (c <? 127)%Z then c
  else if is_space c then 32%Z
  else match digit_value c with Some d => (48 + d)%Z | None => 63%Z end.
Definition plain_space (c : Z) : bool := (((9 <=? c) && (c <=? 13)) || (c =? 32))%Z.
Fixpoint skip_spaces (s : list Z) : list Z := match s with [] => [] | c :: s' => if plain_space c then skip_spaces s' else s end.

(** Digits, with single underscores between them. *)
Fixpoint digits_in (s : list Z) : option bytes :=
  match s with
  | [] => None
  | c :: s1 =>
      if ((48 <=? c) && (c <=? 57))%Z then
        match s1 with
        | [] => Some [z2b c]
        | u :: s2 => if (u =? 95)%Z then cons (z2b c) <$> digits_in s2 else cons (z2b c) <$> digits_in s1
        end
      else None
  end.

Definition int_of_text (text : list Z) : res Z :=
  let plain := if forallb (fun c => c <? 128)%Z text then text else plain_char <$> text in
  let body := reverse (skip_spaces (reverse (skip_spaces plain))) in
  let negative := bool_decide (head body = Some 45%Z) in
  let digits := if negative || bool_decide (head body = Some 43%Z) then tail body else body in
  match digits_in digits with
  | None => Raise (ValueError "invalid literal for int()")
  | Some digits =>
      raise_if (INT_MAX_STR_DIGITS <? Z.of_nat (length digits))%Z (ValueError "Exceeds the limit for integer string conversion") ;;
      let value := Z.of_N (value_of digits) in
      mret (if negative then - value else value)%Z
  end.

(** ** Queries *)

Definition parse_search_query (query_string : list Z) : res (list Z * Z) :=
  let fields := parse_qsl query_string in
  let query := take MAX_QUERY_LENGTH (strip (first_value (chars "q") [] fields)) in
  limit ← (match int_of_text (first_value (chars "limit") (chars "20") fields) with
           | Ok n => Ok n
           | Raise (ValueError _) => Ok DEFAULT_SEARCH_LIMIT
           | Raise e => Raise e
           end);
  let limit := Z.max 1 (Z.min limit MAX_SEARCH_LIMIT) in
  assert_ (((1 <=? limit) && (limit <=? MAX_SEARCH_LIMIT))%Z && bool_decide (length query <= MAX_QUERY_LENGTH)) ;;
  mret (query, limit).
End numbers.

(** The sort column, and whether the order is descending. *)
Definition parse_sort (query_string : list Z) : option sort_key_t * bool :=
  let fields := parse_qsl query_string in
  let sort := dict_get (first_value (chars "sort") [] fields) SORT_COLUMNS in
  let order := first_value (chars "order") [] fields in
  (sort,
   if bool_decide (order = chars "asc") then false
   else if bool_decide (order = chars "desc") then true
   else negb (bool_decide (sort = Some SORT_NAME))).

(** [bytes.fromhex] of hexadecimal digits of either case. *)
Fixpoint fromhex_any (l : bytes) : option bytes :=
  match l with
  | [] => Some []
  | hi :: lo :: l => b ← unhex_any hi lo; rest ← fromhex_any l; Some (b :: rest)
  | _ => None
  end.
(** [character in string.hexdigits] *)
Definition is_hexdigit (c : Z) : bool := existsb (fun b => c =? b2z b)%Z (bs "0123456789abcdefABCDEF").

Definition parse_info_hash_hex (text : list Z) : res (option bytes) :=
  result ← (if bool_decide (length text = NODE_ID_LENGTH * 2) && forallb is_hexdigit text then
      match fromhex_any (z2b <$> text) with Some h => mret (Some h) | None => Raise (ValueError "fromhex") end
    else mret None);
  assert_ (match result with None => true | Some h => is_node_id h end) ;;
  mret result.

(** ** Records *)

(** The members of the records of the catalog and the database. *)
Definition search_json (r : search_record) : list (list Z * json) :=
  [(chars "info_hash", J_text (text_of (sr_info_hash r))); (chars "name", J_text (sr_name r)); (chars "size", J_int (sr_size r));
   (chars "file_count", J_int (sr_file_count r)); (chars "seen_count", J_int (sr_seen_count r));
   (chars "announce_count", J_int (sr_announce_count r)); (chars "first_seen", J_time (sr_first_seen r));
   (chars "last_seen", J_time (sr_last_seen r))].

Definition peer_json (peer : address) : json := J_dict [(chars "ip", J_text (text_of peer.1)); (chars "port", J_int peer.2)].
Definition file_json (file : torrent_file) : json :=
  J_dict [(chars "path", J_text (file_path file)); (chars "length", J_int (file_length file))].
Definition metadata_json (m : torrent_metadata) : json :=
  J_dict [(chars "name", J_text (md_name m)); (chars "size", J_int (md_total_size m)); (chars "piece_length", J_int (md_piece_length m));
    (chars "file_count", J_int (md_file_count m)); (chars "files", J_list (file_json <$> md_files m));
    (chars "is_private", J_bool (md_is_private m)); (chars "fetched_at", J_time (md_fetched_at m));
    (chars "source_peer", match md_source_peer m with None => J_null | Some peer => peer_json peer end)].
Definition fetch_state_text (s : fetch_state_t) : list Z :=
  match s with
  | FETCH_PENDING => chars "pending" | FETCH_IN_PROGRESS => chars "in_progress" | FETCH_DONE => chars "done" | FETCH_FAILED => chars "failed"
  end.
Definition detail_json (r : detail_record) : list (list Z * json) :=
  [(chars "info_hash", J_text (text_of (dr_info_hash r))); (chars "seen_count", J_int (dr_seen_count r));
   (chars "announce_count", J_int (dr_announce_count r)); (chars "first_seen", J_time (dr_first_seen r));
   (chars "last_seen", J_time (dr_last_seen r)); (chars "fetch_state", J_text (fetch_state_text (dr_fetch_state r)));
   (chars "fetch_attempts", J_int (dr_fetch_attempts r)); (chars "last_error", J_text (chars (dr_last_error r)));
   (chars "lookups_started", J_int (dr_lookups_started r)); (chars "peers", J_list (peer_json <$> dr_peers r));
   (chars "metadata", match dr_metadata r with None => J_null | Some m => metadata_json m end)].

(** [document_detail_record]; the search text of the metadata is not there. *)
Definition document_detail_record (d : document) : detail_record :=
  DetailRecord (doc_info_hash d) (doc_seen_count d) (doc_announce_count d) (doc_first_seen d) (doc_last_seen d)
    FETCH_DONE 0 "" 0 [] (Some (TorrentMetadata [] (doc_name d) (doc_size d) (doc_piece_length d) (doc_file_count d)
      ((fun f => TorrentFile f.1 f.2) <$> doc_files d) (doc_is_private d) (doc_fetched_at d) None [])).

(** A record with its magnet link. *)
Definition attach_magnet (record : list (list Z * json)) (info_hash : bytes) (name : list Z) : res json :=
  match fromhex_any info_hash with
  | None => Raise (ValueError "fromhex")
  | Some h =>
      link ← build_magnet_link h name;
      assert_ (starts_with (bs "magnet:") link) ;;
      mret (J_dict (record ++ [(chars "magnet", J_text (text_of link))]))
  end.

(** [web_url] *)
Definition web_url (host : bytes) (port : Z) : res bytes :=
  assert_ (negb (bool_decide (host = [])) && ((0 <? port) && (port <=? 65535))%Z) ;;
  mret (bs "http://" ++ host ++ bs ":" ++ digits_of (Z.to_N port) ++ bs "/").

(** ** The handler *)

(** The catalog and the database of the server; without one the catalog answers
    the searches. *)
Record server := Server { sv_catalog : catalog; sv_database : option database }.

Definition set_sv_catalog (c : catalog) (s : server) : server := Server c (sv_database s).
Definition set_sv_database (d : option database) (s : server) : server := Server (sv_catalog s) d.

(** [Response]: status, content type, body. *)
Definition response : Type := Z * string * bytes.

Section handler.
Context `{LowerCase, TextFunctions, FloatText} (matches : list Z -> fts_row -> bool) (fault : nat -> bool).
Context (digit_value : Z -> option Z) (ip_version : list Z -> option Z) (nfkc : list Z -> list Z).
Context (stats : json) (page : bytes) (pause : database -> database).

Definition on_catalog {A} (m : ST catalog A) : task server A := fun s =>
  match m (sv_catalog s) with Ok (a, c) => (Ok a, set_sv_catalog c s) | Raise e => (Raise e, s) end.

(** A read of the database; [read_database] asserts that there is one. *)
Definition on_database {A} (m : task database A) : task server A := fun s =>
  match sv_database s with
  | None => (Raise AssertionError, s)
  | Some d => let '(r, d) := m d in (r, set_sv_database (Some d) s)
  end.

(** [read_database]: [None] stands for [(False, None)]. *)
Fixpoint read_attempts {A} (read : task database A) (attempts : list nat) : task server (option A) :=
  match attempts with
  | [] => mret None
  | attempt :: attempts =>
      found ← catch (x ← on_database read; mret (Some x))
        (fun e => if decide (e = SqliteError) then
             when (bool_decide (attempt = 0)) (change (fun s => set_sv_database (pause <$> sv_database s) s)) ;; mret None
           else throw e);
      match found with Some x => mret (Some x) | None => read_attempts read attempts end
  end.
Definition read_database {A} (read : task database A) : task server (option A) :=
  s ← reads (fun s => s);
  check (bool_decide (is_Some (sv_database s))) ;;
  read_attempts read (seq 0 2).

Definition render_error (status : Z) (message : string) : task server response :=
  check (400 <=? status)%Z ;;
  body ← call (encode_json (J_dict [(chars "error", J_text (chars message))]));
  mret (status, CONTENT_JSON, body).

Definition render_stats : task server response :=
  body ← call (encode_json stats);
  mret (200%Z, CONTENT_JSON, body).

Definition search_records (query : list Z) (limit : Z) (sort : option sort_key_t) (descending : bool)
    : task server (engine_t * option (list search_record)) :=
  check ((1 <=? limit) && (limit <=? MAX_SEARCH_LIMIT))%Z ;;
  s ← reads (fun s => s);
  match sv_database s with
  | None =>
      records ← on_catalog (Catalog.search query (Z.to_nat limit) sort descending);
      mret (ENGINE_MEMORY, Some records)
  | Some _ =>
      records ← read_database (TorrentDatabase.search matches fault query (Z.to_nat limit) sort descending);
      check (match records with None => true | Some l => bool_decide (length l <= Z.to_nat limit) end) ;;
      mret (ENGINE_SQLITE, records)
  end.

Definition sort_json (sort : option sort_key_t) : json :=
  match sort with
  | None => J_null
  | Some sort =>
      match filter (fun c => c.2 = sort) SORT_COLUMNS with c :: _ => J_text c.1 | [] => J_null end
  end.
Definition engine_text (engine : engine_t) : list Z := match engine with ENGINE_SQLITE => chars "sqlite" | ENGINE_MEMORY => chars "memory" end.

Definition search_payload (query : list Z) (limit : Z) (engine : engine_t) (sort : option sort_key_t) (descending : bool)
    (results : list json) : json :=
  J_dict [(chars "query", J_text query); (chars "limit", J_int limit); (chars "count", J_int (Z.of_nat (length results)));
    (chars "engine", J_text (engine_text engine)); (chars "sort", sort_json sort);
    (chars "order", J_text (if descending then chars "desc" else chars "asc")); (chars "results", J_list results)].

Definition render_search (query_string : list Z) : task server response :=
  parsed ← call (parse_search_query digit_value query_string);
  let '(query, limit) := parsed in
  let '(sort, descending) := parse_sort query_string in
  found ← search_records query limit sort descending;
  match found.2 with
  | None => render_error 503 DATABASE_UNAVAILABLE
  | Some records =>
      results ← call (sequence ((fun r => attach_magnet (search_json r) (sr_info_hash r) (sr_name r)) <$> records));
      body ← call (encode_json (search_payload query limit found.1 sort descending results));
      mret (200%Z, CONTENT_JSON, body)
  end.

Definition render_torrent (hex_hash : list Z) : task server response :=
  parsed ← call (parse_info_hash_hex hex_hash);
  match parsed with
  | None => render_error 400 "invalid info hash"
  | Some info_hash =>
      record ← on_catalog (torrent_detail info_hash);
      s ← reads (fun s => s);
      let unknown := match record with None => true | Some r => bool_decide (dr_metadata r = None) end in
      read ← (if unknown && bool_decide (is_Some (sv_database s)) then
          found ← read_database (get_document fault (hex info_hash));
          mret (bool_decide (found = None), match found with Some (Some d) => Some (document_detail_record d) | _ => record end)
        else mret (false, record));
      match read.2 with
      | None => if read.1 : bool then render_error 503 DATABASE_UNAVAILABLE else render_error 404 "not found"
      | Some r =>
          let name := match dr_metadata r with Some m => md_name m | None => [] end in
          payload ← call (attach_magnet (detail_json r) (dr_info_hash r) name);
          body ← call (encode_json payload);
          mret (200%Z, CONTENT_JSON, body)
      end
  end.

(** [path.startswith(prefix)] *)
Definition path_starts (prefix path : list Z) : bool := bool_decide (take (length prefix) path = prefix).

Definition dispatch (path query_string : list Z) : task server response :=
  if bool_decide (path = chars "/") then mret (200%Z, CONTENT_HTML, page)
  else if bool_decide (path = chars "/api/stats") then render_stats
  else if bool_decide (path = chars "/api/search") then render_search query_string
  else if path_starts ROUTE_TORRENT_PREFIX path then render_torrent (drop (length ROUTE_TORRENT_PREFIX) path)
  else render_error 404 "not found".

(** What is sent: the status, the headers and the body. *)
Record sent := Sent { sent_status : Z; sent_headers : list (string * bytes); sent_body : bytes }.

Definition send_bytes (status : Z) (content_type : string) (body : bytes) : res sent :=
  assert_ ((200 <=? status) && (status <=? 599))%Z ;;
  mret (Sent status
    ([("Content-Type", bs content_type); ("Content-Length", digits_of (N.of_nat (length body))); ("Cache-Control", bs "no-store");
      ("X-Content-Type-Options", bs "nosniff")]%string ++
     (if bool_decide (content_type = CONTENT_HTML) then [("Content-Security-Policy"%string, bs CONTENT_SECURITY_POLICY)] else [])) body).

(** [do_GET]; [target] is [self.path]. *)
Definition do_GET (target : list Z) : task server sent :=
  parts ← call (urlsplit ip_version nfkc target);
  answer ← dispatch parts.1 parts.2;
  let '(status, content_type, body) := answer in
  result ← call (send_bytes status content_type body);
  check (200 <=? status)%Z ;;
  mret result.
End handler.
