(* ===== verification/WebInterfaceTheorems.v ===== *)
(** The theorems about the web interface: it reads a search as the page wrote it,
    answers every request with what the catalog or the database has, and what it
    cannot answer. *)
From S2P Require Import Prelude PyDict Bencode NodeIdentity AddressText Krpc TorrentInfo Catalog CatalogInvariant CatalogSafety.
From S2P Require Import CatalogMethods CatalogIndex CatalogWrites CatalogTheorems CatalogSearch Tasks TypoIndex TorrentDatabase TorrentDatabaseSafety.
From S2P Require Import TorrentDatabaseSearch TorrentDatabaseTheorems UrlText UrlSplit MagnetLink JsonText WebInterface.

(** ** Reading a search *)

Section reading.
Context (digit_value : Z -> option Z).

Lemma digit_range b : is_digit b = true -> (48 <= b2z b <= 57)%Z.
Proof using. unfold is_digit. lia. Qed.

Lemma digits_in_text ds : Forall (fun b => is_digit b = true) ds -> ds <> [] -> digits_in (text_of ds) = Some ds.
Proof using.
  intros Hds Hne. induction Hds as [|b ds Hb Hds IH]; [done|]. pose proof (digit_range b Hb) as Hr. rewrite text_of_cons. cbn [digits_in].
  replace ((48 <=? b2z b) && (b2z b <=? 57))%Z with true by lia. rewrite z2b_b2z. destruct ds as [|b' ds]; [done|].
  rewrite IH by done. apply Forall_cons in Hds as [Hb' _]. pose proof (digit_range b' Hb') as Hr'. rewrite text_of_cons.
  by replace (b2z b' =? 95)%Z with false by lia.
Qed.

Lemma skip_spaces_none s : match s with [] => True | c :: _ => plain_space c = false end -> skip_spaces s = s.
Proof using. destruct s as [|c s]; [done|]. cbn [skip_spaces]. by intros ->. Qed.

Lemma digit_no_space b : is_digit b = true -> plain_space (b2z b) = false.
Proof using. intros Hb%digit_range. unfold plain_space. lia. Qed.

(** The digits of a number are read as the number, if they are not too many. *)
Lemma int_of_digits n : int_of_text digit_value (text_of (digits_of n)) =
  if (INT_MAX_STR_DIGITS <? Z.of_nat (length (digits_of n)))%Z then Raise (ValueError "Exceeds the limit for integer string conversion")
  else Ok (Z.of_N n).
Proof using.
  pose proof (digits_are n) as Hds. pose proof (digits_of_nonempty n) as Hne. unfold int_of_text.
  assert (forallb (fun c => (c <? 128)%Z) (text_of (digits_of n)) = true) as ->.
  { apply forallb_forall. intros c Hc%list_elem_of_In. apply list_elem_of_fmap in Hc as (b & -> & Hb). rewrite Forall_forall in Hds.
    pose proof (digit_range b (Hds b Hb)). lia. }
  assert (reverse (skip_spaces (reverse (skip_spaces (text_of (digits_of n))))) = text_of (digits_of n)) as ->.
  { rewrite !skip_spaces_none; [by rewrite reverse_involutive| |].
    - destruct (digits_of n) as [|b ds]; [done|]. apply Forall_cons in Hds as [Hb _]. by apply digit_no_space.
    - rewrite (skip_spaces_none (text_of (digits_of n))).
      + destruct (reverse (text_of (digits_of n))) as [|c s] eqn:Hr; [done|].
        assert (c ∈ text_of (digits_of n)) as Hc by (rewrite <-(reverse_involutive (text_of _)), Hr, elem_of_reverse; by left).
        apply list_elem_of_fmap in Hc as (b & -> & Hb). rewrite Forall_forall in Hds. by apply digit_no_space, Hds.
      + destruct (digits_of n) as [|b ds]; [done|]. apply Forall_cons in Hds as [Hb _]. by apply digit_no_space. }
  assert (forall c, (c < 48)%Z -> bool_decide (head (text_of (digits_of n)) = Some c) = false) as Hsign.
  { intros c Hc. apply bool_decide_eq_false. destruct (digits_of n) as [|b ds]; [done|]. apply Forall_cons in Hds as [Hb _].
    apply digit_range in Hb. cbn. intros [= ?]. lia. }
  rewrite !Hsign by lia. cbn [orb]. rewrite digits_in_text, value_of_digits by done. by destruct (_ <? _)%Z.
Qed.

(** The query string that the page writes: the text it looks for, the limit, and
    the sort column with the order if one was chosen. *)
Definition column_name (sort : sort_key_t) : bytes :=
  bs match sort with
  | SORT_NAME => "name" | SORT_SIZE => "size" | SORT_FILE_COUNT => "file_count" | SORT_SEEN_COUNT => "seen_count"
  | SORT_ANNOUNCE_COUNT => "announce_count" | SORT_LAST_SEEN => "last_seen"
  end.
Definition order_name (descending : bool) : bytes := bs (if descending then "desc" else "asc").
Definition search_fields (quoted : bytes) (limit : N) (sort : option (sort_key_t * bool)) : list (bytes * bytes) :=
  [(bs "q", quoted); (bs "limit", digits_of limit)] ++
  match sort with None => [] | Some (sort, descending) => [(bs "sort", column_name sort); (bs "order", order_name descending)] end.
Definition search_query_string (quoted : bytes) (limit : N) (sort : option (sort_key_t * bool)) : list Z :=
  text_of (join_with "&"%byte ((fun f => f.1 ++ "="%byte :: f.2) <$> search_fields quoted limit sort)).

Lemma text_of_join c parts : text_of (join_with c parts) = join_with (b2z c) ((fun p : bytes => text_of p) <$> parts).
Proof using.
  induction parts as [|p [|p' parts] IH]; [done|done|].
  change (text_of (p ++ c :: join_with c (p' :: parts)) = text_of p ++ b2z c :: join_with (b2z c) ((fun p => text_of p) <$> (p' :: parts))).
  by rewrite text_of_app, text_of_cons, IH.
Qed.

(** Fields of safe characters are read one by one. *)
Lemma parse_joined (fields : list (bytes * bytes)) : fields <> [] ->
  Forall (fun f => Forall (fun b => unreserved b = true) f.1 /\ Forall (fun b => url_safe b = true) f.2) fields ->
  parse_qsl (text_of (join_with "&"%byte ((fun f => f.1 ++ "="%byte :: f.2) <$> fields))) =
  (fun f => (text_of f.1, unquote (text_of f.2))) <$> fields.
Proof using.
  intros Hne Hall. unfold parse_qsl. rewrite text_of_join, split_on_join.
  - induction Hall as [|[name value] fields [Hname Hvalue] Hall IH]; [done|]. rewrite !fmap_cons, filter_cons.
    rewrite decide_True by (cbn; by destruct name). rewrite fmap_cons. f_equal; [by apply read_plain_field|].
    destruct fields; [done|]. by apply IH.
  - by destruct fields.
  - apply Forall_fmap, Forall_fmap. eapply Forall_impl; [exact Hall|]. intros [name value] [Hname Hvalue] Hin. cbn in Hin.
    apply list_elem_of_fmap in Hin as (b & Hb & Hin). apply elem_of_app in Hin as [Hin|[->|Hin]%elem_of_cons]; [|done|].
    + rewrite Forall_forall in Hname. specialize (Hname b Hin). revert Hname Hb. clear. destruct b; vm_compute; congruence.
    + rewrite Forall_forall in Hvalue. specialize (Hvalue b Hin). revert Hvalue Hb. clear. destruct b; vm_compute; congruence.
Qed.

Lemma safe_word (l : bytes) : forallb unreserved l = true ->
  Forall (fun b => url_safe b = true) l /\ unquote (text_of l) = text_of l.
Proof using.
  intros Hl. assert (Forall (fun b => unreserved b = true) l) as Hall.
  { apply Forall_forall. intros b Hb. rewrite forallb_forall in Hl. by apply Hl, list_elem_of_In. }
  split; [|apply unquote_none].
  - eapply Forall_impl; [exact Hall|]. intros b Hb. unfold url_safe. by rewrite Hb.
  - eapply Forall_impl; [exact Hall|]. exact unreserved_not_percent.
Qed.

Lemma digits_word n : forallb unreserved (digits_of n) = true.
Proof using.
  apply forallb_forall. intros b Hb%list_elem_of_In. pose proof (digits_are n) as Hds. rewrite Forall_forall in Hds. specialize (Hds b Hb).
  revert Hds. clear. destruct b; vm_compute; congruence.
Qed.

(** What the fields of the page's query string are. *)
Lemma page_fields quoted limit sort : Forall (fun b => url_safe b = true) quoted ->
  parse_qsl (search_query_string quoted limit sort) =
  [(chars "q", unquote (text_of quoted)); (chars "limit", text_of (digits_of limit))] ++
  match sort with
  | None => []
  | Some (sort, descending) => [(chars "sort", text_of (column_name sort)); (chars "order", text_of (order_name descending))]
  end.
Proof using.
  intros Hquoted. unfold search_query_string. destruct (safe_word _ (digits_word limit)) as [Hd Hdq].
  assert (forall s, Forall (fun b => url_safe b = true) (column_name s) /\ unquote (text_of (column_name s)) = text_of (column_name s)) as Hcol
    by (intros []; apply safe_word; reflexivity).
  assert (forall o, Forall (fun b => url_safe b = true) (order_name o) /\ unquote (text_of (order_name o)) = text_of (order_name o)) as Hord
    by (intros []; apply safe_word; reflexivity).
  rewrite parse_joined; [|by destruct sort as [[]|]|].
  - unfold search_fields. destruct sort as [[s o]|]; cbn [app fmap list_fmap fst snd]; rewrite Hdq; [|done].
    by rewrite (proj2 (Hcol s)), (proj2 (Hord o)).
  - repeat (constructor; [by split; [repeat constructor|]|]). destruct sort as [[s o]|]; [|constructor].
    repeat (constructor; [split; [repeat constructor|first [apply Hcol|apply Hord]]|]). constructor.
Qed.
End reading.

(** The server reads a search as the page wrote it.  The query string made of a
    quoted text, a limit and, if chosen, a sort column with its order gives back
    the text without white space around it and cut to 200 characters, the limit
    brought between 1 and 200, and the column and order; a limit of more digits
    than Python converts counts as none. *)
Theorem search_request_read digit_value query quoted limit sort : Forall is_scalar query -> quote query = Ok quoted ->
  parse_search_query digit_value (search_query_string quoted limit sort) =
    Ok (take MAX_QUERY_LENGTH (strip query),
        if (Z.of_nat (length (digits_of limit)) <=? INT_MAX_STR_DIGITS)%Z then Z.max 1 (Z.min (Z.of_N limit) MAX_SEARCH_LIMIT)
        else DEFAULT_SEARCH_LIMIT) /\
  parse_sort (search_query_string quoted limit sort) = match sort with Some (sort, descending) => (Some sort, descending) | None => (None, true) end.
Proof.
  intros Hquery Hquoted. destruct (unquote_quote query Hquery) as (q & Hq & Hu & Hsafe). rewrite Hquoted in Hq. injection Hq as <-.
  unfold parse_search_query, parse_sort. rewrite page_fields by done. rewrite Hu. split.
  - set (rest := match sort with None => [] | Some _ => _ end).
    change (first_value (chars "q") [] _) with query. change (first_value (chars "limit") (chars "20") _) with (text_of (digits_of limit)).
    rewrite int_of_digits. rewrite Z.leb_antisym. destruct (INT_MAX_STR_DIGITS <? _)%Z; cbn [negb mbind res_bind].
    all: set (n := Z.max 1 _); assert (1 <= n <= MAX_SEARCH_LIMIT)%Z as Hn by (unfold n, MAX_SEARCH_LIMIT; lia).
    all: replace ((1 <=? n) && (n <=? MAX_SEARCH_LIMIT))%Z with true by lia.
    all: rewrite bool_decide_eq_true_2 by (rewrite length_take; lia); done.
  - destruct sort as [[[] []]|]; reflexivity.
Qed.

Lemma search_request_read_witness :
  let query := [0x20; 0x63; 0x26; 0xE9; 0x20; 0x31]%Z in
  exists quoted, quote query = Ok quoted /\
  parse_search_query (fun _ => None) (search_query_string quoted 500 (Some (SORT_SIZE, false))) =
    Ok (take MAX_QUERY_LENGTH (strip query), Z.max 1 (Z.min 500 MAX_SEARCH_LIMIT)) /\
  parse_sort (search_query_string quoted 500 (Some (SORT_SIZE, false))) = (Some SORT_SIZE, false).
Proof.
  exists (bs "%20c%26%C3%A9%201"). split; [reflexivity|].
  apply (search_request_read (fun _ => None) [0x20; 0x63; 0x26; 0xE9; 0x20; 0x31]%Z (bs "%20c%26%C3%A9%201") 500 (Some (SORT_SIZE, false))).
  - repeat constructor; cbn; lia.
  - reflexivity.
Defined.

(** ** Info hashes *)

Lemma is_hexdigit_byte c : is_hexdigit c = true -> exists b v, c = b2z b /\ any_hex_value b = Some v.
Proof.
  unfold is_hexdigit. intros (b & Hb & Hc)%existsb_exists. apply Z.eqb_eq in Hc. exists b.
  assert (forallb (fun b => match any_hex_value b with Some _ => true | None => false end) (bs "0123456789abcdefABCDEF") = true) as Hall
    by (vm_compute; reflexivity).
  rewrite forallb_forall in Hall. specialize (Hall b Hb). destruct (any_hex_value b) as [v|] eqn:Hv; [|done]. by exists v.
Qed.

(** An even number of hexadecimal digits is the text of half as many bytes. *)
Lemma fromhex_any_digits n : forall text, length text = 2 * n -> forallb is_hexdigit text = true ->
  exists h, fromhex_any (z2b <$> text) = Some h /\ length h = n.
Proof.
  induction n as [|n IH]; intros text Hlen Htext.
  { destruct text; [|done]. by exists []. }
  destruct text as [|c [|d text]]; [done|cbn in Hlen; lia|]. cbn in Htext. apply andb_true_iff in Htext as [Hc [Hd Htext]%andb_true_iff].
  destruct (is_hexdigit_byte c Hc) as (bc & vc & -> & Hvc). destruct (is_hexdigit_byte d Hd) as (bd & vd & -> & Hvd).
  destruct (IH text) as (h & Hh & Hn); [cbn in Hlen; lia|done|]. rewrite !fmap_cons, !z2b_b2z. cbn [fromhex_any]. unfold unhex_any.
  rewrite Hvc, Hvd. cbn [mbind option_bind]. rewrite Hh. cbn [mbind option_bind]. eexists. split; [done|]. cbn. lia.
Qed.

Definition names_hash (text : list Z) : bool := bool_decide (length text = NODE_ID_LENGTH * 2) && forallb is_hexdigit text.

Lemma parse_info_hash_spec text : if names_hash text then exists h, parse_info_hash_hex text = Ok (Some h) /\ length h = NODE_ID_LENGTH
  else parse_info_hash_hex text = Ok None.
Proof.
  unfold parse_info_hash_hex, names_hash. case_bool_decide as Hlen; cbn [andb]; [|done].
  destruct (forallb is_hexdigit text) eqn:Htext; [|done].
  destruct (fromhex_any_digits NODE_ID_LENGTH text) as (h & Hh & Hn); [by rewrite Hlen|done|]. rewrite Hh. cbn [mbind res_bind mret res_ret].
  rewrite is_node_id_of by done. by exists h.
Qed.

Lemma fromhex_any_hex h : fromhex_any (hex h) = Some h.
Proof.
  induction h as [|b h IH]; [done|].
  assert (hex (b :: h) = hex_digit (b2z b / 16) :: hex_digit (b2z b mod 16) :: hex h) as -> by done. cbn [fromhex_any].
  assert (unhex_any (hex_digit (b2z b / 16)) (hex_digit (b2z b mod 16)) = Some b) as -> by (destruct b; vm_compute; reflexivity).
  cbn [mbind option_bind]. by rewrite IH.
Qed.

(** A record of an answer: the record of a torrent with its magnet link. *)
Definition with_link (record : list (list Z * json)) (info_hash : bytes) (name : list Z) (payload : json) : Prop :=
  exists h link, info_hash = hex h /\ build_magnet_link h name = Ok link /\
    payload = J_dict (record ++ [(chars "magnet", J_text (text_of link))]).

Lemma attach_magnet_returns record h name : length h = NODE_ID_LENGTH -> Forall is_scalar name ->
  exists payload, attach_magnet record (hex h) name = Ok payload /\ with_link record (hex h) name payload.
Proof.
  intros Hlen Hname. unfold attach_magnet. rewrite fromhex_any_hex.
  destruct (magnet_link_made h name Hlen Hname) as (q & qs & Hlink & _). rewrite Hlink. cbn [mbind res_bind].
  unfold starts_with. rewrite bool_decide_eq_true_2 by done. eexists. split; [done|]. by eexists h, _.
Qed.

(** ** Decoded names *)

(** Decoding with replacement makes scalar values. *)
Lemma decoded_scalar n : forall l, length l <= n -> Forall is_scalar (utf8_decode_replace l).
Proof.
  assert (is_scalar replacement) as Hrep by (split; [unfold replacement; lia|reflexivity]).
  induction n as [|n IH]; intros [|b0 l1] Hlen; try (cbn in Hlen; lia); try constructor.
  cbn [utf8_decode_replace]. pose proof (b2z_range b0) as R0. cbn in Hlen.
  unfold in_range, second_of_three, second_of_four, continuation.
  repeat case_match; subst; repeat lazymatch goal with |- Forall _ _ => first [apply IH; cbn in *; lia|constructor] end; try exact Hrep.
  all: repeat match goal with b : byte |- _ => lazymatch goal with R : (0 <= b2z b < 256)%Z |- _ => fail | _ => pose proof (b2z_range b) end end.
  all: unfold in_range, low6, is_scalar, is_surrogate in *; split; div_lia.
Qed.

Lemma decoded_text_scalar v name : v = PNone \/ is_decoded v = true -> decode_text v = Ok name -> Forall is_scalar name.
Proof.
  intros Hv. destruct v; cbn; intros [= <-]; try constructor; [|destruct Hv as [Hv|Hv]; discriminate Hv].
  match goal with |- Forall _ (utf8_decode_replace ?b) => by apply (decoded_scalar (length b)) end.
Qed.

(** The names of fetched torrents are of scalar values. *)
Lemma summarized_name_scalar `{LowerCase} info_hash info fetched_at peer m : is_decoded info = true ->
  summarize_info_dict info_hash info fetched_at peer = Ok m -> Forall is_scalar (md_name m).
Proof.
  intros Hinfo (u & _ & Hm)%bind_Ok. destruct info as [| | | | | |d|]; try discriminate Hm. apply bind_Ok in Hm as (name & Hname & Hm).
  assert (Forall is_scalar name) as Hs.
  { apply bind_Ok in Hname as (first & Hfirst & Hname).
    destruct (bool_decide (first = [])); [|assert (name = first) as -> by (by injection Hname)]; eapply decoded_text_scalar; try eassumption; by apply is_decoded_get_value. }
  destruct (get_value d (bs "piece length")); try discriminate Hm. apply bind_Ok in Hm as (? & _ & Hm). apply bind_Ok in Hm as (entries & _ & Hm).
  apply bind_Ok in Hm as (m' & Hm' & Hm). apply bind_Ok in Hm as (? & _ & Hm). injection Hm as <-.
  unfold new_metadata in Hm'. repeat (apply bind_Ok in Hm' as (? & _ & Hm')). injection Hm' as <-. exact Hs.
Qed.

(** ** What the server holds *)

(** The integers in a record. *)
Definition metadata_ints (m : torrent_metadata) : list Z :=
  [md_total_size m; md_piece_length m; md_file_count m] ++ (file_length <$> md_files m) ++
  match md_source_peer m with Some peer => [peer.2] | None => [] end.
Definition detail_ints (r : detail_record) : list Z :=
  [dr_seen_count r; dr_announce_count r; dr_fetch_attempts r; dr_lookups_started r] ++ (dr_peers r).*2 ++
  match dr_metadata r with Some m => metadata_ints m | None => [] end.

Lemma short_list (l : list json) : Forall short_json l -> foldr and True (map short_json l).
Proof. by induction 1. Qed.

Lemma short_detail r : Forall short (detail_ints r) -> short_json (J_dict (detail_json r)).
Proof.
  unfold detail_ints. rewrite !Forall_app. intros (H1 & H2 & H3). repeat (apply Forall_cons in H1 as [? H1]).
  cbn. repeat split; try done.
  - apply short_list, Forall_fmap. apply (Forall_fmap snd) in H2. eapply Forall_impl; [exact H2|]. intros [ip port] Hp. by repeat split.
  - destruct (dr_metadata r) as [m|]; [|done]. unfold metadata_ints in H3. rewrite !Forall_app in H3. destruct H3 as (M1 & M2 & M3).
    repeat (apply Forall_cons in M1 as [? M1]). cbn. repeat split; try done.
    + apply short_list, Forall_fmap. apply (Forall_fmap file_length) in M2. eapply Forall_impl; [exact M2|]. intros [path len] Hl. by repeat split.
    + destruct (md_source_peer m) as [[ip port]|]; [|done]. apply Forall_cons in M3 as [M3 _]. by repeat split.
Qed.

(** With its magnet link. *)
Lemma short_with_link record h name payload : with_link record h name payload -> short_json (J_dict record) -> short_json payload.
Proof.
  intros (h' & link & _ & _ & ->). cbn. induction record as [|[k v] record IH]; cbn; [done|]. intros [Hv Hr]. split; [done|by apply IH].
Qed.

Lemma link_no_null record h name payload : with_link record h name payload -> payload <> J_null.
Proof. by intros (h' & link & _ & _ & ->). Qed.

Lemma short_part s r : part_of s r -> Forall short (detail_ints r) -> short_json (J_dict (search_json s)).
Proof.
  intros (H1 & H2 & H3 & _ & _ & m & Hm & H4 & H5 & H6). unfold detail_ints. rewrite Hm. unfold metadata_ints. rewrite !Forall_app.
  intros (I1 & _ & I3 & _). repeat (apply Forall_cons in I1 as [? I1]). repeat (apply Forall_cons in I3 as [? I3]).
  cbn. by rewrite H2, H3, H5, H6.
Qed.

(** The records that a catalog and a database hold. *)
Definition held_by_catalog (c : catalog) (r : detail_record) : Prop := exists o e, heap c !! o = Some e /\ detail_of e r.
Definition held_by_database (d : database) (r : detail_record) : Prop :=
  exists row, row ∈ torrents (committed d) /\ r = document_detail_record (row_document row).
Definition held (s : server) (r : detail_record) : Prop :=
  held_by_catalog (sv_catalog s) r \/ exists d, sv_database s = Some d /\ held_by_database d r.

(** A torrent whose numbers JSON cannot show. *)
Definition oversized (s : server) : Prop := exists r, held s r /\ ~ Forall short (detail_ints r).

Definition name_of (r : detail_record) : list Z := match dr_metadata r with Some m => md_name m | None => [] end.
Definition readable (r : detail_record) : Prop :=
  (exists h, length h = NODE_ID_LENGTH /\ dr_info_hash r = hex h) /\ Forall is_scalar (name_of r).

#[global] Instance short_dec z : Decision (short z).
Proof. unfold short. apply _. Defined.

#[global] Instance short_search_dec r : Decision (short_json (J_dict (search_json r))).
Proof. cbn. apply _. Defined.

Section answers.
Context `{LowerCase} `{TextFunctions} `{FloatText} (matches : list Z -> fts_row -> bool) (fault : nat -> bool) (lim : limits).
Context (digit_value : Z -> option Z) (stats : json) (page : bytes) (pause : database -> database).
Implicit Types (s : server) (c : catalog) (d : database).

Abbreviation inv := (inv lim).

(** The names are of scalar values, as decoding makes them. *)
Record served_catalog c : Prop := ServedCatalog {
  sc_inv : inv c;
  sc_names : forall o e m, heap c !! o = Some e -> metadata e = Some m -> Forall is_scalar (md_name (metadata_value m)) }.
Record served_database d : Prop := ServedDatabase {
  sd_tables : tables_ok (committed d);
  sd_records : forall row, row ∈ torrents (committed d) -> readable (document_detail_record (row_document row)) }.

Lemma detail_readable c o e r : served_catalog c -> heap c !! o = Some e -> detail_of e r -> readable r.
Proof using.
  intros Hc He (seen & announced & first & _ & ->). split.
  - exists (info_hash e). split; [|done]. by apply (inv_heap _ _ _ (sc_inv c Hc) o e).
  - unfold name_of. cbn. destruct (metadata e) as [m|] eqn:Hm; [|constructor]. by apply (sc_names c Hc o e m).
Qed.

(** ** The catalog's answers *)

Lemma wp_detail_held c h : inv c -> length h = NODE_ID_LENGTH -> wp (torrent_detail h) (fun result c' => c' = c /\
  match result with
  | None => dict_get h (entries c) = None
  | Some r => exists o e, dict_get h (entries c) = Some o /\ heap c !! o = Some e /\ detail_of e r
  end) c.
Proof using.
  intros Hc Hh. unfold torrent_detail. apply wp_bind, wp_assert; [by apply is_node_id_of|].
  apply wp_bind, wp_gets, wp_bind. destruct (dict_get h (entries c)) as [o|] eqn:Hg.
  2: { apply wp_ret, wp_bind, wp_assert; [done|]. by apply wp_ret. }
  destruct (at_entry_exists _ _ _ _ _ Hc Hg) as (e & Hat).
  destruct (at_entry_wf _ _ _ _ _ _ Hc Hat) as [Hwf (C1 & _)].
  pose proof (at_entry_hash _ _ _ _ _ _ Hc Hat) as He.
  apply wp_bind. unfold detail_record_locked. apply wp_bind, (wp_lookup_entry _ e); [apply Hat|].
  destruct (cumulative_counters_returns lim e Hwf) as ([[seen announced] first] & Hcum & _). rewrite Hcum.
  apply wp_bind, wp_assert.
  { destruct (has_metadata e); [|done]. unfold is_state. by rewrite bool_decide_eq_true_2 by auto. }
  apply wp_ret, wp_ret, wp_bind, wp_assert; [by apply bool_decide_eq_true; simpl; rewrite He|].
  apply wp_ret. split; [done|]. exists o, e. split; [done|]. split; [apply Hat|]. by exists seen, announced, first.
Qed.

Lemma tri_on_catalog_wp {A} (m : ST catalog A) (Q : A -> server -> Prop) (E : exn -> server -> Prop) s :
  wp m (fun a c => Q a (set_sv_catalog c s)) (sv_catalog s) -> tri (on_catalog m) Q E s.
Proof using. unfold wp, tri, on_catalog. by destruct (m (sv_catalog s)) as [[a c]|e]. Qed.

(** ** The database's answers *)

Lemma answers_get_document h t : tables_ok t -> length h = 40 -> answers fault (get_document fault h) t (row_document <$> find_row h t).
Proof using.
  intros Ht Hh. unfold get_document. eapply db_answers_bind; [apply answers_check; by apply bool_decide_eq_true|].
  eapply db_answers_bind; [apply answers_connect|]. eapply db_answers_bind; [apply db_answers_query|].
  destruct (find_row h t) as [r|] eqn:Hr; [|apply answers_ret]. apply find_row_Some in Hr as [_ Hr]; [|apply Ht].
  eapply db_answers_bind; [apply answers_check; by apply bool_decide_eq_true|]. apply answers_ret.
Qed.

Context (Hpause : forall d, served_database d -> served_database (pause d) /\ statements d <= statements (pause d)).

(** Two statements have failed. *)
Definition failed_twice d : Prop := exists n m, statements d <= n < m /\ fault n = true /\ fault m = true.

Lemma served_still d d' : still d d' -> served_database d -> served_database d'.
Proof using. intros [-> _] []. by split. Qed.

Lemma tri_on_database {A} (read : task database A) (Q : A -> server -> Prop) E s d : sv_database s = Some d ->
  tri read (fun a d => Q a (set_sv_database (Some d) s)) (fun e d => E e (set_sv_database (Some d) s)) d -> tri (on_database read) Q E s.
Proof using. intros Hd. unfold tri, on_database. rewrite Hd. by destruct (read d) as [[a|e] d']. Qed.

Lemma tri_read_database {A} (read : task database A) (answer : tables -> A) s d :
  sv_database s = Some d -> served_database d -> (forall t, tables_ok t -> answers fault read t (answer t)) ->
  tri (read_database pause read) (fun found s' => exists d', s' = set_sv_database (Some d') s /\ served_database d' /\
    match found with Some x => x = answer (committed d') | None => failed_twice d end) (fun _ _ => False) s.
Proof using Hpause.
  intros Hd Hserved Hread. unfold read_database. apply tri_bind, tri_reads, tri_bind, tri_check; [by rewrite Hd|].
  cbn [seq read_attempts]. apply tri_bind, tri_catch, tri_bind. eapply tri_on_database; [exact Hd|].
  eapply tri_mono; [apply (Hread _ (sd_tables d Hserved) d eq_refl)|..].
  { intros a d1 [-> Hstill]. apply tri_ret, tri_ret. exists d1. split; [done|]. split; [by eapply served_still|]. by destruct Hstill as [-> _]. }
  intros e d1 [[-> (n & Hn & Hfn)] Hstill]. rewrite decide_True by done. apply tri_bind, tri_when; intros Ha; [|by apply bool_decide_eq_false in Ha].
  apply tri_change, tri_ret. cbn [sv_database set_sv_database fmap option_fmap option_map].
  destruct (Hpause d1) as [Hserved1 Hlater]; [by eapply served_still|]. set (s2 := set_sv_database _ _).
  assert (sv_database s2 = Some (pause d1)) as Hd2 by done. apply tri_bind, tri_catch, tri_bind. eapply tri_on_database; [exact Hd2|].
  eapply tri_mono; [apply (Hread _ (sd_tables _ Hserved1) (pause d1) eq_refl)|..].
  { intros a d3 [-> Hstill3]. apply tri_ret, tri_ret. exists d3. split; [done|]. split; [by eapply served_still|]. by destruct Hstill3 as [-> _]. }
  intros e d3 [[-> (m & Hm & Hfm)] Hstill3]. rewrite decide_True by done. apply tri_bind, tri_when; intros Hb; [by apply bool_decide_eq_true in Hb|].
  apply tri_ret, tri_ret. exists d3. split; [done|]. split; [by eapply served_still|]. exists n, m. split; [lia|done].
Qed.

(** ** Payloads *)

Lemma tri_encode payload (Q : bytes -> server -> Prop) (E : exn -> server -> Prop) s : payload <> J_null ->
  (forall w, encode_json payload = Ok w -> Q w s) -> (~ short_json payload -> forall r, E (ValueError r) s) ->
  tri (call (encode_json payload)) Q E s.
Proof using.
  intros Hne HQ HE. assert (encode_json payload = encode_value payload) as Heq by (unfold encode_json; by destruct payload).
  apply tri_call. rewrite Heq in *. pose proof (encode_value_encodes payload) as Henc. unfold encodes in Henc.
  destruct (encode_value payload) as [w|e]; [by apply HQ|]. destruct Henc as [Hs [r ->]]. by apply HE.
Qed.

(** An answer with an error message. *)
Definition error_response (r : response) : Prop := exists message, encode_json (J_dict [(chars "error", J_text (chars message))]) = Ok r.2 /\
  r.1.2 = CONTENT_JSON.

Lemma tri_render_error status message (Q : response -> server -> Prop) E s : (400 <= status)%Z ->
  (forall body, error_response (status, CONTENT_JSON, body) -> Q (status, CONTENT_JSON, body) s) -> tri (render_error status message) Q E s.
Proof using.
  intros Hstatus HQ. unfold render_error. apply tri_bind, tri_check; [lia|]. apply tri_bind, tri_encode; [done| |intros Hs; destruct Hs; by repeat split].
  intros w Hw. apply tri_ret, HQ. by exists message.
Qed.

Lemma short_small z : (0 <= z <= MAX_SEARCH_LIMIT)%Z -> short z.
Proof using.
  clear. intros Hz. assert (forallb (fun n => bool_decide (short (Z.of_nat n))) (seq 0 201) = true) as Hall by (vm_compute; reflexivity).
  rewrite forallb_forall in Hall. specialize (Hall (Z.to_nat z)). rewrite Z2Nat.id in Hall by lia. apply (bool_decide_eq_true (short z)), Hall.
  apply in_seq. unfold MAX_SEARCH_LIMIT in Hz. lia.
Qed.

(** ** The answers *)

Inductive route := Page | Stats | Search | Torrent (hex_hash : list Z) | Elsewhere.
Definition route_of (path : list Z) : route :=
  if bool_decide (path = chars "/") then Page
  else if bool_decide (path = chars "/api/stats") then Stats
  else if bool_decide (path = chars "/api/search") then Search
  else if path_starts ROUTE_TORRENT_PREFIX path then Torrent (drop (length ROUTE_TORRENT_PREFIX) path)
  else Elsewhere.

(** What a search shows: with a database what its rows give, in the state in which
    they were read, and without one what the catalog gives. *)
Definition search_shows (query : list Z) (limit : nat) (sort : option sort_key_t) (descending : bool) s s' (engine : engine_t)
    (shown : list search_record) : Prop :=
  match sv_database s with
  | None => engine = ENGINE_MEMORY /\ exists chosen,
      catalog_found query limit sort descending (sv_catalog s) chosen /\ Forall2 shows shown chosen.*2
  | Some _ => engine = ENGINE_SQLITE /\ exists d, sv_database s' = Some d /\
      shown = record_of <$> search_rows matches (committed d) (take MAX_QUERY_TERMS (tokens query)) limit sort descending
  end.

(** A record that was found, with its link. *)
Definition linked (record : search_record) : json -> Prop := with_link (search_json record) (sr_info_hash record) (sr_name record).

(** The answer to a search. *)
Definition search_answered (query_string : list Z) s (r : response) s' : Prop :=
  (r.1.1 = 200%Z /\ exists query limit engine shown results, parse_search_query digit_value query_string = Ok (query, limit) /\
     let '(sort, descending) := parse_sort query_string in
     search_shows query (Z.to_nat limit) sort descending s s' engine shown /\
     Forall2 linked shown results /\
     encode_json (search_payload query limit engine sort descending results) = Ok r.2) \/
  (r.1.1 = 503%Z /\ error_response r /\ exists d, sv_database s = Some d /\ failed_twice d).

Definition torrent_answered (hex_hash : list Z) s (r : response) s' : Prop :=
  if names_hash hex_hash then exists h, parse_info_hash_hex hex_hash = Ok (Some h) /\
    ((r.1.1 = 200%Z /\ exists record payload, held s' record /\ dr_info_hash record = hex h /\
        with_link (detail_json record) (hex h) (name_of record) payload /\ encode_json payload = Ok r.2) \/
     (r.1.1 = 404%Z /\ error_response r /\ dict_get h (entries (sv_catalog s)) = None /\
        forall d, sv_database s' = Some d -> find_row (hex h) (committed d) = None) \/
     (r.1.1 = 503%Z /\ error_response r /\ dict_get h (entries (sv_catalog s)) = None /\
        exists d, sv_database s = Some d /\ failed_twice d))
  else r.1.1 = 400%Z /\ error_response r.

Definition answered (path query_string : list Z) s (r : response) s' : Prop :=
  match route_of path with
  | Page => r = (200%Z, CONTENT_HTML, page)
  | Stats => r.1.1 = 200%Z /\ encode_json stats = Ok r.2
  | Search => search_answered query_string s r s'
  | Torrent hex_hash => torrent_answered hex_hash s r s'
  | Elsewhere => r.1.1 = 404%Z /\ error_response r
  end.

Record served s : Prop := Served {
  sv_catalog_ok : served_catalog (sv_catalog s);
  sv_database_ok : forall d, sv_database s = Some d -> served_database d }.

Lemma parse_search_query_Ok query_string : exists query limit, parse_search_query digit_value query_string = Ok (query, limit) /\
  (1 <= limit <= MAX_SEARCH_LIMIT)%Z.
Proof using.
  unfold parse_search_query. cbv zeta. set (text := first_value (chars "limit") _ _).
  assert (exists n, (match int_of_text digit_value text with
     | Ok n => Ok n | Raise (ValueError _) => Ok DEFAULT_SEARCH_LIMIT | Raise e => Raise e end) = Ok n) as [n ->].
  { unfold int_of_text. destruct (digits_in _); [|by eexists]. destruct (_ <? _)%Z; by eexists. }
  cbn [mbind res_bind]. set (limit := Z.max 1 _). assert (1 <= limit <= MAX_SEARCH_LIMIT)%Z as Hlim by (unfold limit, MAX_SEARCH_LIMIT; lia).
  replace ((1 <=? limit) && (limit <=? MAX_SEARCH_LIMIT))%Z with true by lia.
  rewrite bool_decide_eq_true_2 by (rewrite length_take; lia). by eexists _, limit.
Qed.

(** The records that were found get their links. *)
Lemma sequence_links (shown : list search_record) :
  Forall (fun r => exists h, length h = NODE_ID_LENGTH /\ sr_info_hash r = hex h /\ Forall is_scalar (sr_name r)) shown ->
  exists results, Forall2 linked shown results /\
    sequence ((fun r => attach_magnet (search_json r) (sr_info_hash r) (sr_name r)) <$> shown) = Ok results.
Proof using.
  induction 1 as [|r shown (h & Hh & Hr & Hname) _ (results & Hall & IH)]; [exists []; split; [constructor|done]|].
  destruct (attach_magnet_returns (search_json r) h (sr_name r) Hh Hname) as (payload & Hlink & Hwith).
  exists (payload :: results). split; [constructor; [|done]; unfold linked; by rewrite Hr|].
  rewrite fmap_cons. cbn [sequence]. rewrite Hr, Hlink. cbn [mbind res_bind]. by rewrite IH.
Qed.

Lemma short_results shown results : Forall2 linked shown results -> Forall (fun r => short_json (J_dict (search_json r))) shown ->
  short_json (J_list results).
Proof using.
  intros Hlinked Hall. induction Hlinked as [|r payload shown results Hr Hlinked IH]; [done|]. apply Forall_cons in Hall as [Hs Hall].
  split; [by eapply short_with_link|]. by apply IH.
Qed.

Lemma tri_search_records query limit sort descending s : served s -> (1 <= limit <= MAX_SEARCH_LIMIT)%Z ->
  tri (search_records matches fault pause query limit sort descending)
    (fun found s' => sv_catalog s' = sv_catalog s /\
      match found.2 with
      | None => exists d, sv_database s = Some d /\ failed_twice d
      | Some shown => search_shows query (Z.to_nat limit) sort descending s s' found.1 shown /\ length shown <= Z.to_nat limit /\
          Forall (fun r => exists record, held s' record /\ readable record /\ part_of r record) shown
      end) (fun _ _ => False) s.
Proof using Hpause.
  intros [Hc Hdb] Hlim. unfold search_records, search_shows. apply tri_bind, tri_check; [lia|]. apply tri_bind, tri_reads.
  destruct (sv_database s) as [d|] eqn:Hd.
  - apply tri_bind. eapply tri_mono; [apply (tri_read_database _ (fun t => record_of <$> search_rows matches t (take MAX_QUERY_TERMS (tokens query)) (Z.to_nat limit) sort descending) s d Hd);
      [by apply Hdb|intros t Ht; apply answers_search; [done|lia]]| |done].
    intros found s' (d' & -> & Hd' & Hfound). destruct found as [shown|].
    + subst shown. set (rows := search_rows _ _ _ _ _ _). destruct (search_rows_ok matches (committed d') (take MAX_QUERY_TERMS (tokens query)) (Z.to_nat limit) sort descending (sd_tables d' Hd')) as [(Hlen & _ & Hin) _].
      fold rows in Hlen, Hin. apply tri_bind, tri_check; [apply bool_decide_eq_true; by rewrite length_fmap|]. apply tri_ret.
      split; [done|]. split; [split; [done|by exists d']|]. split; [by rewrite length_fmap|]. apply Forall_fmap, Forall_forall. intros row Hrow. cbn.
      destruct (Hin row Hrow) as [Hrow' _]. exists (document_detail_record (row_document row)). split; [|split; [by apply (sd_records d' Hd')|]].
      * right. exists d'. split; [done|]. by exists row.
      * repeat split. by eexists.
    + apply tri_bind, tri_check; [done|]. apply tri_ret. split; [done|]. by exists d.
  - apply tri_bind, tri_on_catalog_wp. eapply wp_mono; [by apply (wp_search_finds lim), Hc|]. intros shown c (-> & chosen & Hfound & Hshown).
    apply tri_ret. split; [done|]. cbn [fst snd]. split; [split; [done|by exists chosen]|].
    pose proof (Forall2_length _ _ _ Hshown) as Hlen. rewrite length_fmap in Hlen. split; [rewrite Hlen; apply Hfound|].
    apply Forall_forall. intros r Hr. apply list_elem_of_lookup in Hr as [i Hi].
    destruct (Forall2_lookup_l _ _ _ _ _ Hshown Hi) as (e & He & record & Hrecord & Hpart). apply list_lookup_fmap_Some in He as ([o e'] & -> & He).
    destruct (cf_match _ _ _ _ _ _ Hfound o e' (list_elem_of_lookup_2 _ _ _ He)) as [(_ & h & _ & Hheap) _].
    exists record. split; [left; by exists o, e'|]. split; [by eapply detail_readable|done].
Qed.

Lemma tri_render_search query_string s : served s -> tri (render_search matches fault digit_value pause query_string)
  (fun r s' => sv_catalog s' = sv_catalog s /\ r.1.2 = CONTENT_JSON /\ search_answered query_string s r s')
  (fun e s' => (exists reason, e = ValueError reason) /\ oversized s') s.
Proof using Hpause.
  intros Hs. unfold render_search, search_answered. destruct (parse_search_query_Ok query_string) as (query & limit & Hparse & Hlim).
  apply tri_bind. eapply tri_call_Ok; [exact Hparse|]. cbv beta iota. destruct (parse_sort query_string) as [sort descending] eqn:Hsort.
  apply tri_bind. eapply tri_mono; [by apply tri_search_records| |done]. intros [engine [shown|]] s' (Hcat & Hfound); cbn [fst snd] in *.
  2: { apply tri_render_error; [done|]. intros body Hbody. split; [done|]. split; [done|]. by right. }
  destruct Hfound as (Hshows & Hlen & Hall). destruct (sequence_links shown) as (results & Hlinks & Hseq).
  { eapply Forall_impl; [exact Hall|]. intros r (record & _ & [(h & Hh & Hhex) Hname] & (P1 & _ & _ & _ & _ & m & Hm & P4 & _)). exists h.
    split; [done|]. split; [congruence|]. unfold name_of in Hname. rewrite Hm in Hname. by rewrite P4. }
  apply tri_bind. eapply tri_call_Ok; [exact Hseq|]. pose proof (Forall2_length _ _ _ Hlinks) as Hn.
  apply tri_bind, tri_encode; [done|..].
  - intros w Hw. apply tri_ret. split; [done|]. split; [done|]. left. split; [done|]. by exists query, limit, engine, shown, results.
  - intros Hshort reason. split; [by eexists|].
    destruct (decide (Forall (fun r => short_json (J_dict (search_json r))) shown)) as [Hok|Hbad].
    + destruct Hshort. cbn [short_json search_payload map foldr snd]. split; [done|]. split; [by apply short_small; unfold MAX_SEARCH_LIMIT in *; lia|].
      split; [apply short_small; unfold MAX_SEARCH_LIMIT in *; lia|]. split; [done|]. split; [by destruct sort as [[]|]|]. split; [done|].
      split; [|done]. by eapply short_results.
    + apply not_Forall_Exists in Hbad; [|intros r; apply _]. apply Exists_exists in Hbad as (r & Hr & Hbad).
      rewrite Forall_forall in Hall. destruct (Hall r Hr) as (record & Hheld & _ & Hpart). exists record. split; [done|].
      intros Hints. apply Hbad. by eapply short_part.
Qed.

(** What is known of a torrent, after the catalog and the database were asked. *)
Definition looked_up (h : bytes) s (read : bool * option detail_record) s' : Prop := sv_catalog s' = sv_catalog s /\
  match read.2 with
  | Some record => held s' record /\ readable record /\ dr_info_hash record = hex h
  | None => dict_get h (entries (sv_catalog s)) = None /\
      if read.1 then exists d, sv_database s = Some d /\ failed_twice d
      else forall d, sv_database s' = Some d -> find_row (hex h) (committed d) = None
  end.

Lemma tri_ask_database h record s : served s -> length h = NODE_ID_LENGTH ->
  match record with Some r => held s r /\ readable r /\ dr_info_hash r = hex h | None => dict_get h (entries (sv_catalog s)) = None end ->
  tri (if match record with None => true | Some r => bool_decide (dr_metadata r = None) end && bool_decide (is_Some (sv_database s)) then
      found ← read_database pause (get_document fault (hex h));
      mret (bool_decide (found = None), match found with Some (Some d) => Some (document_detail_record d) | _ => record end)
    else mret (false, record)) (looked_up h s) (fun _ _ => False) s.
Proof using Hpause.
  intros [Hc Hdb] Hh Hrecord. destruct (sv_database s) as [d|] eqn:Hd.
  2: { rewrite andb_false_r. apply tri_ret. split; [done|]. destruct record; cbn; [done|]. split; [done|]. rewrite Hd. done. }
  destruct (match record with None => true | Some r => _ end) eqn:Hunknown; cbn [andb].
  - apply tri_bind. eapply tri_mono; [apply (tri_read_database _ (fun t => row_document <$> find_row (hex h) t) s d Hd); [by apply Hdb|]| |done].
    { intros t Ht. apply answers_get_document; [done|]. rewrite length_hex, Hh. done. }
    intros found s' (d' & -> & Hd' & Hfound). apply tri_ret. split; [done|]. cbn [fst snd].
    assert (forall r, held s r -> dr_metadata r = None -> held (set_sv_database (Some d') s) r) as Hkeep.
    { intros r [Hr|(d0 & _ & row & _ & ->)] Hm; [by left|done]. }
    destruct found as [[doc|]|].
    + symmetry in Hfound. destruct (find_row (hex h) (committed d')) as [row|] eqn:Hrow; [|done]. injection Hfound as <-.
      apply find_row_Some in Hrow as [Hrow Hhash]; [|apply Hd']. split; [right; exists d'; split; [done|]; by exists row|].
      split; [by apply (sd_records d' Hd')|exact Hhash].
    + symmetry in Hfound. destruct record as [r|].
      * destruct Hrecord as (Hr & ? & ?). split; [|done]. apply Hkeep; [done|]. by apply bool_decide_eq_true in Hunknown.
      * split; [done|]. rewrite bool_decide_eq_false_2 by done. intros d0 [= <-]. by destruct (find_row (hex h) (committed d')).
    + destruct record as [r|].
      * destruct Hrecord as (Hr & ? & ?). split; [|done]. apply Hkeep; [done|]. by apply bool_decide_eq_true in Hunknown.
      * split; [done|]. by exists d.
  - apply tri_ret. split; [done|]. destruct record as [r|]; done.
Qed.

Lemma tri_render_torrent hex_hash s : served s -> tri (render_torrent fault pause hex_hash)
  (fun r s' => sv_catalog s' = sv_catalog s /\ r.1.2 = CONTENT_JSON /\ torrent_answered hex_hash s r s')
  (fun e s' => (exists reason, e = ValueError reason) /\ oversized s') s.
Proof using Hpause.
  intros Hs. unfold render_torrent, torrent_answered. pose proof (parse_info_hash_spec hex_hash) as Hparse.
  destruct (names_hash hex_hash); cycle 1.
  { apply tri_bind. eapply tri_call_Ok; [exact Hparse|]. by apply tri_render_error. }
  destruct Hparse as (h & Hparse & Hh). apply tri_bind. eapply tri_call_Ok; [exact Hparse|]. cbv beta iota.
  apply tri_bind, tri_on_catalog_wp. eapply wp_mono; [apply wp_detail_held; [apply Hs|exact Hh]|]. intros record c [-> Hrecord].
  replace (set_sv_catalog (sv_catalog s) s) with s by by destruct s. apply tri_bind, tri_reads, tri_bind.
  eapply tri_mono; [apply tri_ask_database; [done|exact Hh|]| |done].
  { destruct record as [r|]; [|done]. destruct Hrecord as (o & e & Ho & He & Hr). split; [left; by exists o, e|].
    split; [by eapply detail_readable; [apply Hs|..]|]. destruct (inv_current _ _ _ (sc_inv _ (sv_catalog_ok s Hs)) h o Ho) as (e' & He' & Hhash & _).
    assert (e' = e) as -> by congruence. destruct Hr as (seen & announced & first & _ & ->). cbn. by rewrite Hhash. }
  intros [failed record'] s' [Hcat Hread]; cbn [fst snd] in *. destruct record' as [r|].
  - destruct Hread as (Hheld & [(h' & Hh' & Hhex) Hname] & Hhash).
    destruct (attach_magnet_returns (detail_json r) h' (name_of r) Hh' Hname) as (payload & Hlink & Hwith). rewrite <-Hhex in Hlink, Hwith.
    apply tri_bind. eapply tri_call_Ok; [exact Hlink|]. apply tri_bind, tri_encode; [by eapply link_no_null|..].
    + intros w Hw. apply tri_ret. split; [done|]. split; [done|]. exists h. split; [done|]. left. split; [done|]. exists r, payload.
      rewrite <-Hhash. by repeat split.
    + intros Hshort reason. split; [by eexists|]. exists r. split; [done|]. intros Hints. apply Hshort. by eapply short_with_link, short_detail.
  - destruct Hread as [Hnone Hwhy]. destruct failed.
    + apply tri_render_error; [done|]. intros body Hbody. split; [done|]. split; [done|]. exists h. split; [done|]. right. by right.
    + apply tri_render_error; [done|]. intros body Hbody. split; [done|]. split; [done|]. exists h. split; [done|]. right. by left.
Qed.

Context (Hstats : stats <> J_null /\ short_json stats).

Lemma tri_dispatch path query_string s : served s -> tri (dispatch matches fault digit_value stats page pause path query_string)
  (fun r s' => sv_catalog s' = sv_catalog s /\ answered path query_string s r s')
  (fun e s' => (exists reason, e = ValueError reason) /\ oversized s') s.
Proof using Hpause Hstats.
  intros Hs. unfold dispatch, answered, route_of. case_bool_decide; [by apply tri_ret|]. case_bool_decide.
  { unfold render_stats. apply tri_bind, tri_encode; [apply Hstats| |intros Hshort; destruct Hshort; apply Hstats]. intros w Hw. by apply tri_ret. }
  case_bool_decide; [eapply tri_mono; [by apply tri_render_search| |done]; by intros r s' (? & ? & ?)|].
  destruct (path_starts _ path); [eapply tri_mono; [by apply tri_render_torrent| |done]; by intros r s' (? & ? & ?)|].
  by apply tri_render_error.
Qed.

(** Every status that is answered can be sent. *)
Lemma answered_status path query_string s r s' : answered path query_string s r s' -> (200 <= r.1.1 <= 503)%Z.
Proof using.
  unfold answered. destruct (route_of path).
  - by intros ->.
  - intros [-> _]. done.
  - intros [[-> _]|[-> _]]; done.
  - unfold torrent_answered. destruct (names_hash hex_hash); [intros (h & _ & [[-> _]|[[-> _]|[-> _]]]); done|by intros [-> _]].
  - by intros [-> _].
Qed.
End answers.

(** C13. Every request is answered.  Whatever the target of the request, in a
    server whose catalog and database are in order [do_GET] sends a response: the
    page, the statistics, the records found for the search, each with its magnet
    link, or one torrent with its magnet link; 400 if the path names no info hash,
    404 if neither the catalog nor the database has the torrent or the path is
    another, 503 only if two statements of the database have failed; errors are JSON
    with a message.  The records of a search are, without a database, those of the
    fetched torrents that match, the best in the order asked for, and with one those
    of the rows that [search_rows] finds.  The catalog is as before.  The one
    exception is a [ValueError], and then the server holds a record with an integer
    too long to be written, or [urlsplit] cannot split the target, which then is not
    a path that starts with one slash. *)
Theorem request_answered `{LowerCase} `{TextFunctions} `{FloatText} matches fault lim digit_value ip_version nfkc stats page pause target s :
  (forall d, served_database d -> served_database (pause d) /\ statements d <= statements (pause d)) ->
  stats <> J_null /\ short_json stats -> served lim s ->
  match do_GET matches fault digit_value ip_version nfkc stats page pause target s with
  | (Ok sent, s') => sv_catalog s' = sv_catalog s /\ exists path query_string content,
      urlsplit ip_version nfkc target = Ok (path, query_string) /\
      answered matches fault digit_value stats page path query_string s (sent_status sent, content, sent_body sent) s' /\
      ("Content-Type"%string, bs content) ∈ sent_headers sent /\
      ("Content-Length"%string, digits_of (N.of_nat (length (sent_body sent)))) ∈ sent_headers sent
  | (Raise e, s') => (exists reason, e = ValueError reason) /\
      (oversized s' \/ urlsplit ip_version nfkc target = Raise e /\ s' = s /\ origin_form target = false)
  end.
Proof.
  intros Hpause Hstats Hs. unfold do_GET, mbind, task_bind, call.
  pose proof (urlsplit_raises ip_version nfkc target) as Hraise. pose proof (urlsplit_origin ip_version nfkc target) as Horigin.
  destruct (urlsplit ip_version nfkc target) as [[path query_string]|e].
  2: { split; [by apply Hraise|]. right. split; [done|]. split; [done|]. destruct (origin_form target); [by specialize (Horigin eq_refl)|done]. }
  clear Hraise Horigin. cbn [fst snd].
  pose proof (tri_dispatch matches fault lim digit_value stats page pause Hpause Hstats path query_string s Hs) as Hend.
  unfold tri in Hend. destruct (dispatch _ _ _ _ _ _ _ _ s) as [[[[status content] body]|e] s']; [|split; [apply Hend|left; apply Hend]].
  destruct Hend as [Hcat Hans].
  pose proof (answered_status _ _ _ _ _ _ _ _ _ _ Hans) as Hstatus. cbn in Hstatus. unfold send_bytes, check, call.
  replace ((200 <=? status) && (status <=? 599))%Z with true by lia. cbn [assert_ raise_if mbind res_bind negb mret res_ret].
  replace (200 <=? status)%Z with true by lia. cbn [assert_ raise_if negb]. split; [done|]. exists path, query_string, content.
  split; [done|]. split; [exact Hans|]. cbn [sent_headers sent_body]. split; [left|right; left].
Qed.

(** ** Examples *)

#[local] Existing Instance ascii_lower.
#[local] Existing Instance ascii_text.
#[local] Existing Instance plain_floats.

Definition sample_server : server := Server sighted (Some example_indexed).
(** The info hash in capital letters. *)
Definition sample_path : list Z := ROUTE_TORRENT_PREFIX ++ concat (replicate 20 (chars "0A")).

Lemma sighted_unfetched o e : heap sighted !! o = Some e -> metadata e = None.
Proof.
  assert (forallb (fun oe : oid * entry => negb (has_metadata oe.2)) (map_to_list (heap sighted)) = true) as Hall by (vm_compute; reflexivity).
  intros He%elem_of_map_to_list. rewrite forallb_forall in Hall. specialize (Hall (o, e) ltac:(by apply list_elem_of_In)).
  apply negb_true_iff, bool_decide_eq_false in Hall. cbn in Hall. destruct (metadata e); [|done]. by destruct Hall.
Qed.

Lemma sample_served : served default_limits sample_server.
Proof.
  unfold sample_server. split; cbn [sv_catalog sv_database].
  - split; [apply reachable_inv; [apply default_limits_ok|apply reachable_sighted]|].
    intros o e m He Hm. rewrite (sighted_unfetched o e He) in Hm. discriminate Hm.
  - intros d [= <-]. split; [apply example_stored_ok|]. intros row Hrow.
    assert (torrents example_stored = [Row 1 example_document]) as Hstored by (vm_compute; reflexivity).
    change (row ∈ torrents example_stored) in Hrow. rewrite Hstored in Hrow. apply list_elem_of_singleton in Hrow as ->.
    split; [by exists (replicate 20 Byte.x0a)|]. unfold name_of. cbn. repeat (constructor; [split; [lia|reflexivity]|]). constructor.
Qed.

Definition no_address (host : list Z) : option Z := None.

Lemma request_answered_witness :
  match do_GET example_matches no_faults (fun _ => None) no_address id (J_dict []) [] id sample_path sample_server with
  | (Ok sent, s') => sv_catalog s' = sv_catalog sample_server /\ exists path query_string content,
      urlsplit no_address id sample_path = Ok (path, query_string) /\
      answered example_matches no_faults (fun _ => None) (J_dict []) [] path query_string sample_server (sent_status sent, content, sent_body sent) s' /\
      ("Content-Type"%string, bs content) ∈ sent_headers sent /\
      ("Content-Length"%string, digits_of (N.of_nat (length (sent_body sent)))) ∈ sent_headers sent
  | (Raise e, s') => (exists reason, e = ValueError reason) /\
      (oversized s' \/ urlsplit no_address id sample_path = Raise e /\ s' = sample_server /\ origin_form sample_path = false)
  end.
Proof.
  apply (request_answered example_matches no_faults default_limits).
  - intros d Hd. by split.
  - split; [discriminate|by repeat split].
  - apply sample_served.
Defined.

Definition status_of {A} (r : res sent * A) : option Z := match r.1 with Ok sent => Some (sent_status sent) | Raise _ => None end.
Definition ask_server (fault : nat -> bool) (target : list Z) (s : server) : option Z :=
  status_of (do_GET example_matches fault (fun _ => None) no_address id (J_dict []) [] id target s).

(** The catalog knows only the hash; the database has the torrent, or cannot be
    asked, which is no reason to deny what the catalog knows. *)
Example statuses :
  ask_server no_faults sample_path sample_server = Some 200%Z /\
  ask_server (fun _ => true) sample_path sample_server = Some 200%Z /\
  ask_server (fun _ => true) sample_path (Server new_catalog (Some example_indexed)) = Some 503%Z /\
  ask_server no_faults sample_path (Server new_catalog None) = Some 404%Z /\
  ask_server no_faults (chars "/api/torrent/0a") sample_server = Some 400%Z /\
  ask_server (fun _ => true) (chars "/api/search") sample_server = Some 503%Z /\
  ask_server (fun n => bool_decide (n = 0)) (chars "/api/search") sample_server = Some 200%Z /\
  ask_server no_faults (chars "/favicon.ico") sample_server = Some 404%Z /\
  ask_server no_faults (chars "http://host/api/search?q=x#y") sample_server = Some 200%Z /\
  ask_server no_faults (chars "http://[") sample_server = None.
Proof. vm_compute. repeat split; reflexivity. Qed.

(** ** A torrent that cannot be shown *)

(** The info dictionary of a torrent with two files whose lengths have 4300
    digits, as many as the decoder reads. *)
Definition nines : bytes := replicate (Z.to_nat INT_MAX_STR_DIGITS) "9"%byte.
Definition long_file : bytes := bs "d6:lengthi" ++ nines ++ bs "e4:pathl1:aee".
Definition long_info : bytes := bs "d5:filesl" ++ long_file ++ long_file ++ bs "e4:name1:x12:piece lengthi1ee".

(** It is fetched: decoded, summarized and stored in the catalog. *)
Definition long_fetched : res catalog :=
  info ← decode_bencode 100 long_info;
  m ← summarize_info_dict hash_a info 0 None;
  r ← (record_hash default_limits hash_a SOURCE_ANNOUNCE_PEER (Some peer_a) 0 None ;;
       next_fetch_candidates default_limits 1 None ;;
       store_metadata default_limits (MetadataRef 0 m) 0 None) new_catalog;
  mret r.2.

(** A torrent whose files have lengths of 4300 digits is decoded, summarized and
    stored, but its total size has a digit more than Python writes: while the
    catalog shows it, searching it, with any text it matches or with none, and
    asking for the torrent end with a [ValueError] and no response. *)
Example oversized_total_not_shown :
  match long_fetched with
  | Ok c =>
      let unanswered target := exists reason,
        (do_GET example_matches no_faults (fun _ => None) no_address id (J_dict []) [] id target (Server c None)).1 = Raise (ValueError reason) in
      unanswered (chars "/api/search") /\ unanswered (chars "/api/search?q=x") /\ unanswered sample_path
  | Raise _ => False
  end.
Proof.
  vm_compute. repeat split; eexists; reflexivity.
Qed.
